(* ===== verification/_CoqProject ===== *)
-Q . S2P
Prelude.v
GoHeap.v
Transaction.v
TxList.v
PricedList.v
TxListSpec.v
TxPool.v
TxPoolInv.v
TxPoolOps.v
TxPoolLimits.v
TxPoolMain.v
TxPoolSpec.v
Quorum.v
VotePower.v
FbftLog.v
MsgSender.v
Consensus.v
ConsensusInv.v
ConsensusSpec.v
RawDb.v
HeaderChain.v
HeaderChainSpec.v
HeaderRewind.v
Genesis.v
TxIndexer.v
BlockChain.v
BlockChainSpec.v
BlockRewind.v
GoString.v
AbiType.v
AbiCodec.v
AbiSpec.v
AbiRound.v
AbiParse.v
AbiMethods.v
AbiMethodsSpec.v
Accounts.v
KeyCrypt.v
AccountCache.v
KeyStore.v
KeyWallets.v
KeyStoreSpec.v
PoolEvents.v
PoolLoop.v
GoSys.v
NodeConfig.v
RpcStack.v
Node.v
NodeInv.v
NodeSpec.v
RpcSpec.v
TxJournal.v
Backend.v
BackendSpec.v
Api.v
ApiSpec.v
Receipts.v
ReceiptsSpec.v
Schedule.v
ScheduleSpec.v
ShardConfig.v
