(* ===== verification/Prelude.v ===== *)
(** * Benzene: a verification library for a sharded blockchain node

    The program (Go, under [src/]) is a node of a sharded chain: transactions
    enter a pool ([core/]), a committee agrees on blocks with the FBFT protocol
    ([consensus/]), votes are counted one per key or by stake
    ([consensus/quorum], [consensus/votepower]), committed blocks are imported
    into a block chain over a header chain over a key-value database ([core/],
    [core/rawdb]), calls to contracts are encoded with the contract ABI
    ([accounts/abi]), and accounts are kept as encrypted key files
    ([accounts/], [accounts/keystore]).  The process is a node with services and
    RPC servers ([node/]); its backend takes transactions from clients
    ([internal/bnzapi]) and from the network ([p2p/], [bnz/]), and the networks it
    can join are described by sharding schedules ([internal/configs]).  This
    library models these parts as executable functions and proves what makes them
    correct, including the places where the code does something else than it sets
    out to do.

    ** How code is represented

    A pure function is a Rocq function.  A method that changes its receiver is a
    computation of the monad [M S] below, over the record of the receiver, and
    [None] is a run-time panic; [outcome] is used where a function returns a value,
    an error or a panic.  A method that holds its object's lock is one atomic
    step; goroutines are tasks that run as later steps.  Machine integers are [Z]
    with the wrap-around written out ([u64], [i64]); hashes, addresses and
    serialized keys are integers of a fixed number of bytes; Go maps are [gmap]s
    and the order of [range] over a map is a parameter ([RangeOrder]) of which only
    the set of visited bindings is known.  Code outside [src/] (elliptic curves,
    BLS, RLP, protobuf, decimals, priority queues, the state and chain databases)
    is a class parameter, with the laws a theorem needs as named hypotheses.

    ** Files

    - [Prelude] (this file): integers, bytes, the monad with its [wp] calculus for
      total correctness and its [keeps] calculus for invariants, lemmas on maps.
    - [GoHeap]: the binary heap of [container/heap] used by the pool.
    - [Transaction]: [core/types/transaction.go], [transaction_signing.go] and
      [gen_tx_json.go]: transactions, signers, signing and recovery, JSON, caches.
    - [TxList], [PricedList], [TxListSpec]: [core/tx_list.go] and
      [core/tx_noncer.go]: the sorted map of an account's transactions, the list
      with its replacement rules, the list ordered by price; their specification.
    - [TxPool]: [core/tx_pool.go]: the pool object and its operations.
      [TxPoolInv], [TxPoolOps], [TxPoolLimits] and [TxPoolMain] carry the
      invariant, its preservation by each operation, the limits after a run and
      the traces of calls; [TxPoolSpec] has the theorems and concrete runs.
    - [Quorum]: [consensus/quorum/quorum.go], [one-node-one-vote.go] and the bit
      count of [internal/utils/bytes.go].
    - [VotePower]: [consensus/votepower/roster.go].
    - [FbftLog]: [consensus/fbft_log.go]: the store of messages and blocks.
    - [MsgSender]: [consensus/consensus_msg_sender.go] and
      [internal/utils/timer.go].
    - [Consensus]: [consensus.go], [leader.go], [validator.go], [checks.go],
      [threshold.go], [construct.go], [double_sign.go], [consensus_service.go],
      [state.go], [signature/signature.go] and [internal/chain/sig.go]: the node
      object, every message handler, and the events of its main loop.
      [ConsensusInv] shows that each handler keeps the node's invariant;
      [ConsensusSpec] has the theorems and concrete runs.
    - [RawDb]: [core/rawdb/schema.go] and the [accessors_*.go]: keys, readers,
      writers and deleters over a finite map, with batches as lists of writes.
    - [HeaderChain]: [core/headerchain.go] over [RawDb].  [HeaderChainSpec]
      carries the invariant of the canonical chain and insertion,
      [HeaderRewind] the rewind.
    - [Genesis]: [core/genesis.go]: the first block and its set-up.
    - [TxIndexer]: [core/rawdb/chain_iterator.go]: the transaction index built
      from results that arrive in any order.
    - [BlockChain]: [core/blockchain.go], [blockchain_insert.go],
      [block_validator.go], [state_processor.go] and
      [internal/chain/sharding.go] over [HeaderChain].  [BlockChainSpec] has
      import, garbage collection of tries and panics, [BlockRewind] opening,
      rewind and reset.
    - [GoString]: strings, slices, number parsing and binary search of the Go
      library, shared by the contract ABI and the accounts.
    - [AbiType]: [accounts/abi/type.go] and [error.go]: types, their parser, Go
      types and values.  [AbiCodec]: [pack.go], [unpack.go], [argument.go] and
      [reflect.go].  [AbiSpec] shows that unpacking is safe and typed,
      [AbiRound] that packing is the encoding of the ABI specification and
      that unpacking inverts it, [AbiParse] that declarations are parsed.
    - [AbiMethods]: [method.go], [event.go], [abi.go] and [topics.go];
      [AbiMethodsSpec] has their theorems.
    - [Accounts]: [accounts/url.go], [hd.go], [manager.go], [accounts.go]:
      locations, derivation paths and the manager of wallets, with its theorems.
    - [KeyCrypt]: [accounts/keystore/key.go], [passphrase.go], [presale.go]: the
      formats of key files.  [AccountCache]: [account_cache.go],
      [file_cache.go], [watch.go].  [KeyStore]: [keystore.go], [wallet.go],
      [plain.go] and the storing of keys.  [KeyWallets] shows that wallets and
      the manager follow the cache, [KeyStoreSpec] the invariant of runs and
      the theorems on signing, unlocking and storing.
    - [PoolEvents], [PoolLoop]: the goroutines of [core/tx_pool.go] as a step
      function over callers, the scheduling loop, a background run and the main
      loop, with the theorems about every interleaving.
    - [TxJournal]: [core/tx_journal.go] over a disk on which every call can fail.
    - [GoSys]: the system calls, sockets and files the node uses.
      [NodeConfig]: [node/config.go], [defaults.go], [errors.go].  [RpcStack]:
      [node/rpcstack.go], [endpoints.go].  [Node]: [node/node.go], [api.go].
      [NodeInv] carries the invariant of the interleaved calls, [NodeSpec] and
      [RpcSpec] the theorems.
    - [Backend]: [api/proto/common.go], [api/proto/node/node.go], [p2p/host.go],
      [internal/configs/group.go], [bnz/backend.go], [bnz/handler.go];
      [BackendSpec] its theorems, composed with the pool and the consensus.
    - [Api]: [internal/bnzapi/api.go] and [bnz/api_backend.go], written against
      an interface of wallets; [ApiSpec] shows that the key store meets it and
      what clients can rely on.
    - [Receipts]: [core/types/bloom9.go], [log.go], [receipt.go];
      [ReceiptsSpec] their theorems.
    - [Schedule]: [internal/configs/sharding]; [ScheduleSpec] the promise of a
      schedule, what follows from it, and that every network keeps it.
    - [ShardConfig]: [internal/configs/node/config.go], with its theorems.

    ** What is shown

    - Pool: no call sequence panics when transactions are small enough, the lookup
      table and the lists always agree, [add] reports what it did, removal and
      resets lose nothing, a run restores the limits, price floors hold; a pool
      full of large transactions does panic, and nothing with gas is promoted.
    - Lists: the sorted map refines a finite map, replacement needs a price bump,
      strict lists stay without gaps, discarding takes the cheapest.
    - Signatures: signing and recovery are inverse, other chains are rejected, the
      signature does not cover gas and payload; JSON round trip.
    - Quorums: two quorums of a committee share more than a third of it, an
      aggregate counts every signer once, votes are all or nothing; the power of
      a computed roster is one, except with duplicate keys.
    - Log and sender: message identifiers, queries against a list of the latest
      messages, bounded retries, termination of the retry loop.
    - Consensus: verified COMMITTED messages and blocks inserted by validators
      are backed by a certificate; catching up terminates and commits every block
      it can; commit payloads identify a block; the grace period of a block can
      commit the next one without votes; no COMMIT is sent; double signs are not
      reported.
    - Database: what is written is read back, keys of different kinds never
      collide, a transaction is found by its hash, indexing does not depend on
      the order in which results arrive.
    - Header chain: writing keeps the numbers, hashes and parents of the
      canonical chain consistent through reorganisations, a validated run is
      inserted as a whole, a rewind removes every header above the new head.
    - Block chain: an imported block becomes the head in memory and on disk,
      reopening finds the same head, a rewind takes all three heads down, tries
      below the retention limit are released; a second block in one import, a
      block with an unknown parent and reading commit signatures panic.
    - Contract ABI: unpacking arbitrary bytes gives typed values or an error and
      never panics, packing follows the specification, both are inverse,
      declarations of all types are parsed, overloads are kept apart, calls are
      recognized, topics give their values back; function values and negative
      big integers in topics and tuples with renamed fields do not.
    - Accounts: derivation paths are parsed back, decryption inverts encryption,
      a scan makes the cache equal to the directory, wallets and the manager
      follow the cache, signatures are by the account that is asked for, an
      unlock lasts until its own timer, passphrases change atomically, new
      accounts can be used; a replaced key file loses its wallet for one refresh,
      a replaced unlock leaves its key in memory, the departure of an unknown
      wallet removes another one, and malformed key files panic.
    - Goroutines of the pool: no step crashes, every caller returns, resets
      follow the head of the chain without a gap, a caller that waits returns
      after a run that promotes its accounts.
    - Journal: regeneration is atomic whatever fails, journaled transactions
      survive a restart; shards that share a file lose transactions, and a failed
      close ends the journal.
    - Node: services stop once each in the reverse order, a start is all or
      nothing, a closed node holds nothing, one node owns a directory; a failed
      creation keeps the lock.  Requests reach what is configured; a server for
      websockets only cannot be enabled again.
    - Backend and API: accepted transactions are inserted by every node that
      receives them, into the pool of their shard; exactly the messages of five
      bytes crash a node; messages of leaders are refused; a transaction sent by a
      client is the one asked for; protected senders are reported as zero.
    - Receipts: a filter is the set of the bits of what was logged, receipts
      survive storage and are read from older databases, logs are numbered
      through and gas adds up.
    - Schedules: epochs tile the chain in every network, instances change in
      listed epochs, accounts are dealt to the shards; mainnet forked at genesis
      contradicts itself, testnet changes in epochs it does not list, and the
      schedule set for all configurations does not reach the shards.

    ** Bounds and fuel

    Recursion is structural except for the search of blocks to catch up with,
    whose fuel is one more than the number of logged messages: every block it
    finds uses another message, and [last_mile_search_terminates] shows the fuel
    is enough.  The heap operations use the length of the heap as fuel.  Loops
    that walk the chain down or up in the database have the number of stored
    entries plus two as fuel, as no entry is visited twice; [None] stands for a
    panic, and for a call that would wait for ever for a lock it holds itself.
    The nesting of side-chain imports and of resets is bounded by an argument
    [depth]; the theorems about them hold from a stated depth on.  The search of
    a free name for an overload tries one name more than there are, which
    [overload_fresh] shows to be enough.  A binary search has the length of the
    list as fuel, of which [search_loop_spec] is the proof.  The interleaved steps
    of the pool end by the measure [rank] ([callers_return]), those of the node
    by [pc_measure], linear in the number of services.  Schedules are shown for block
    numbers below 2^60 and forks up to epoch 2^38, so that no product wraps.  Sizes of ABI types are assumed to stay
    below 2^58 bytes, so that no machine addition wraps.

    ** Not modelled

    RLP, the state database with its tries, iterators and snapshots, the
    generation and validation of VRF and VDF values, export and index maintenance
    of the block chain, decoding of JSON text and copying into the caller's
    variables in the contract ABI, contract bindings, subscriptions, the transport
    under the RPC servers and the peer-to-peer host, the limits on concurrent
    message handlers, the service manager, console, command line, metrics and
    logging: input and output, generated code, or wrappers of code outside the
    repository.  The package [consensus] refers to
    methods that do not exist ([Block.Epoch], [Consensus.GetCurBlockViewID] and
    others); they are read as the accessors their names say. *)
From stdpp Require Import gmap list sorting.
From Stdlib Require Import ZArith Lia.

Local Open Scope Z_scope.

(** ** Machine integers

    Go's [uint64] and [int64] are integers kept at their width: [u64] and [i64]
    are the conversions the language performs on overflow. *)
Definition u64_max : Z := 2 ^ 64 - 1.

Definition u64 (z : Z) : Z := z mod 2 ^ 64.

Definition i64 (z : Z) : Z := (z + 2 ^ 63) mod 2 ^ 64 - 2 ^ 63.

Definition is_u64 (z : Z) : Prop := 0 <= z < 2 ^ 64.

(** ** Unspecified map iteration order

    Go leaves the order in which [range] visits a map unspecified.  The class
    gives every map some enumeration of its bindings; all that is known of it
    is that it lists each binding exactly once. *)
Class RangeOrder : Type := {
  map_range : forall {K V : Type} `{Countable K}, gmap K V -> list (K * V);
  map_range_perm : forall {K V : Type} `{Countable K} (m : gmap K V),
    map_range m ≡ₚ map_to_list m
}.

Definition canonical_order : RangeOrder :=
  {| map_range := fun K V _ _ m => map_to_list m;
     map_range_perm := fun K V _ _ m => Permutation_refl _ |}.

(** ** State with panics

    A method that mutates its receiver and may panic is a state transformer
    into [option]; [None] is a run-time panic (nil dereference, index out of
    range). *)
Definition M (S A : Type) : Type := S -> option (A * S).

#[export] Instance M_ret {S} : MRet (M S) := fun A x s => Some (x, s).

#[export] Instance M_bind {S} : MBind (M S) := fun A B k m s =>
  match m s with Some (x, s') => k x s' | None => None end.

Definition mget {S} : M S S := fun s => Some (s, s).
Definition mput {S} (s' : S) : M S () := fun _ => Some (tt, s').
Definition mgets {S A} (f : S -> A) : M S A := fun s => Some (f s, s).
Definition mmodify {S} (f : S -> S) : M S () := fun s => Some (tt, f s).
Definition mpanic {S A} : M S A := fun _ => None.
Definition mlift {S A} (o : option A) : M S A := fun s => x ← o; Some (x, s).

(** [for _, x := range xs { f(x) }] over a slice. *)
Fixpoint mfor {S A} (xs : list A) (f : A -> M S ()) : M S () :=
  match xs with
  | [] => mret tt
  | x :: xs' => f x ≫= fun _ => mfor xs' f
  end.

(** ** Results with errors and panics

    A Go function returning [(A, error)]: a value, an error, or a panic. *)
Inductive outcome (E A : Type) : Type :=
| Ret (a : A)
| Err (e : E)
| Panic.
Arguments Ret {E A} _.
Arguments Err {E A} _.
Arguments Panic {E A}.

#[export] Instance outcome_ret {E} : MRet (outcome E) := fun A => Ret.

#[export] Instance outcome_bind {E} : MBind (outcome E) := fun A B k m =>
  match m with Ret a => k a | Err e => Err e | Panic => Panic end.

(** ** Byte strings

    Fixed-size arrays such as hashes, addresses and public keys are their
    big-endian value; [be_bytes n z] is the [n]-byte array of [z]. *)
Definition is_byte (b : Z) : Prop := 0 <= b < 256.

Definition be_int (l : list Z) : Z := foldl (fun acc b => acc * 256 + b) 0 l.

Fixpoint le_bytes (n : nat) (z : Z) : list Z :=
  match n with
  | O => []
  | S n' => z mod 256 :: le_bytes n' (z / 256)
  end.

Definition be_bytes (n : nat) (z : Z) : list Z := rev (le_bytes n z).

(** [big.Int.BitLen] and [big.Int.Bytes]: minimal big-endian bytes of the
    absolute value. *)
Definition bit_len (z : Z) : Z := if decide (z = 0) then 0 else Z.log2 (Z.abs z) + 1.

Definition int_bytes (z : Z) : list Z := be_bytes (Z.to_nat ((bit_len z + 7) / 8)) (Z.abs z).

(** [big.Int.Uint64]: the low 64 bits of the absolute value. *)
Definition big_uint64 (z : Z) : Z := Z.abs z mod 2 ^ 64.

(** ** Lemmas *)

Lemma u64_small z : is_u64 z -> u64 z = z.
Proof. apply Z.mod_small. Qed.

Lemma u64_range z : is_u64 (u64 z).
Proof. unfold is_u64, u64. apply Z.mod_pos_bound. lia. Qed.

Lemma i64_small z : - 2 ^ 63 <= z < 2 ^ 63 -> i64 z = z.
Proof. intros. unfold i64. rewrite Z.mod_small; lia. Qed.

Lemma length_le_bytes n z : length (le_bytes n z) = n.
Proof. revert z. induction n; simpl; auto. Qed.

Lemma length_be_bytes n z : length (be_bytes n z) = n.
Proof. unfold be_bytes. by rewrite length_rev, length_le_bytes. Qed.

Lemma le_bytes_is_byte n z : Forall is_byte (le_bytes n z).
Proof.
  revert z. induction n as [|n IH]; intros z; simpl; constructor; auto.
  apply Z.mod_pos_bound. lia.
Qed.

Lemma be_bytes_is_byte n z : Forall is_byte (be_bytes n z).
Proof. unfold be_bytes. rewrite <- (Permutation_rev (le_bytes n z)). apply le_bytes_is_byte. Qed.

Lemma pow256_S (n : nat) : 256 ^ Z.of_nat (S n) = 256 * 256 ^ Z.of_nat n.
Proof. rewrite Nat2Z.inj_succ, Z.pow_succ_r by lia. done. Qed.

Lemma be_int_snoc l b : be_int (l ++ [b]) = be_int l * 256 + b.
Proof. unfold be_int. by rewrite foldl_app. Qed.

Lemma be_int_rev_cons b l : be_int (rev (b :: l)) = be_int (rev l) * 256 + b.
Proof. simpl. apply be_int_snoc. Qed.

Lemma be_int_be_bytes n z : 0 <= z < 256 ^ Z.of_nat n -> be_int (be_bytes n z) = z.
Proof.
  unfold be_bytes. revert z. induction n as [|n IH]; intros z Hz.
  - simpl in *. change (256 ^ 0) with 1 in Hz. unfold be_int. simpl. lia.
  - rewrite pow256_S in Hz. change (le_bytes (S n) z) with (z mod 256 :: le_bytes n (z / 256)).
    rewrite be_int_rev_cons, IH; [pose proof (Z.div_mod z 256); lia|].
    split; [apply Z.div_pos; lia|]. apply Z.div_lt_upper_bound; lia.
Qed.

Lemma be_int_range l : Forall is_byte l -> 0 <= be_int l < 256 ^ Z.of_nat (length l).
Proof.
  induction l as [|b l IH] using rev_ind; [done|].
  intros [Hl Hb]%Forall_app. rewrite be_int_snoc, length_app, Nat.add_comm.
  change (1 + length l)%nat with (S (length l)). rewrite pow256_S.
  rewrite Forall_singleton in Hb. unfold is_byte in Hb. specialize (IH Hl). lia.
Qed.

Lemma be_bytes_be_int l : Forall is_byte l -> be_bytes (length l) (be_int l) = l.
Proof.
  induction l as [|b l IH] using rev_ind; [done|].
  intros [Hl Hb]%Forall_app. rewrite Forall_singleton in Hb. unfold is_byte in Hb.
  rewrite be_int_snoc, length_app, Nat.add_comm. unfold be_bytes in *.
  change (1 + length l)%nat with (S (length l)). simpl.
  replace ((be_int l * 256 + b) mod 256) with b
    by (rewrite Z.add_comm, Z_mod_plus_full, Z.mod_small; lia).
  replace ((be_int l * 256 + b) / 256) with (be_int l)
    by (rewrite Z.add_comm, Z_div_plus_full, Z.div_small; lia).
  by rewrite IH.
Qed.

Lemma be_bytes_inj n x y :
  0 <= x < 256 ^ Z.of_nat n -> 0 <= y < 256 ^ Z.of_nat n -> be_bytes n x = be_bytes n y -> x = y.
Proof. intros Hx Hy H. by rewrite <- (be_int_be_bytes n x), <- (be_int_be_bytes n y), H. Qed.

(** Reading back an array of [n] bytes loses what does not fit in it. *)
Lemma be_int_be_bytes_mod n z : be_int (be_bytes n z) = z mod 256 ^ Z.of_nat n.
Proof.
  unfold be_bytes. revert z. induction n as [|n IH]; intros z; [by rewrite Z.mod_1_r|].
  change (le_bytes (S n) z) with (z mod 256 :: le_bytes n (z / 256)). rewrite be_int_rev_cons, IH, pow256_S.
  rewrite Z.rem_mul_r by (try apply Z.pow_pos_nonneg; lia). lia.
Qed.

Lemma le_bytes_app n k z : le_bytes (n + k) z = le_bytes n z ++ le_bytes k (z / 256 ^ Z.of_nat n).
Proof.
  revert z. induction n as [|n IH]; intros z; [by rewrite Z.div_1_r|].
  change (S n + k)%nat with (S (n + k)). cbn [le_bytes app]. rewrite IH, pow256_S, Z.div_div by (try apply Z.pow_pos_nonneg; lia). done.
Qed.

(** The last [n] bytes of an array. *)
Lemma be_bytes_suffix n k z : drop k (be_bytes (n + k) z) = be_bytes n z.
Proof.
  unfold be_bytes. rewrite le_bytes_app, rev_app_distr, drop_app_length'; [done|]. by rewrite length_rev, length_le_bytes.
Qed.

(** Padding a minimal encoding on the left gives the fixed-size one. *)
Lemma le_bytes_pad n k z :
  0 <= z < 256 ^ Z.of_nat n -> le_bytes (n + k) z = le_bytes n z ++ replicate k 0.
Proof.
  revert z. induction n as [|n IH]; intros z Hz.
  - change (256 ^ Z.of_nat 0) with 1 in Hz. replace z with 0 by lia. clear. simpl.
    induction k as [|k IH]; simpl; [done|]. f_equal; exact IH.
  - simpl. f_equal. apply IH. rewrite pow256_S in Hz.
    split; [apply Z.div_pos; lia|]. apply Z.div_lt_upper_bound; lia.
Qed.

Lemma be_bytes_pad n k z :
  0 <= z < 256 ^ Z.of_nat n -> be_bytes (n + k) z = replicate k 0 ++ be_bytes n z.
Proof.
  intros Hz. unfold be_bytes. rewrite (le_bytes_pad n k z Hz), rev_app_distr. f_equal.
  rewrite rev_alt. apply reverse_replicate.
Qed.

Lemma bit_len_bound z : 0 <= z -> 0 <= bit_len z /\ z < 2 ^ bit_len z.
Proof.
  intros Hz. unfold bit_len. case_decide as H0; [subst; simpl; lia|].
  rewrite Z.abs_eq by done. pose proof (Z.log2_nonneg z). pose proof (Z.log2_spec z).
  rewrite <- Z.add_1_r in *. lia.
Qed.

Lemma bit_len_le z n : 0 <= n -> 0 <= z < 2 ^ n -> bit_len z <= n.
Proof.
  intros Hn Hz. unfold bit_len. case_decide as H0; [lia|]. rewrite Z.abs_eq by lia.
  pose proof (proj1 (Z.log2_lt_pow2 z n ltac:(lia)) ltac:(lia)). lia.
Qed.

(** The minimal bytes of a value below [256^n], padded to [n] bytes. *)
Lemma int_bytes_pad n z :
  0 <= z < 256 ^ Z.of_nat n ->
  (length (int_bytes z) <= n)%nat /\
  replicate (n - length (int_bytes z)) 0 ++ int_bytes z = be_bytes n z.
Proof.
  intros Hz. unfold int_bytes. rewrite length_be_bytes, Z.abs_eq by lia.
  set (m := Z.to_nat ((bit_len z + 7) / 8)).
  destruct (bit_len_bound z) as [Hb0 Hb]; [lia|].
  assert (Hm : Z.of_nat m = (bit_len z + 7) / 8) by (unfold m; apply Z2Nat.id, Z.div_pos; lia).
  assert (Hpow : forall k : nat, 256 ^ Z.of_nat k = 2 ^ (8 * Z.of_nat k))
    by (intros k; change 256 with (2 ^ 8); by rewrite <- Z.pow_mul_r by lia).
  assert (Hmn : (m <= n)%nat).
  { rewrite Hpow in Hz. pose proof (bit_len_le z (8 * Z.of_nat n) ltac:(lia) Hz).
    assert ((bit_len z + 7) / 8 < Z.of_nat n + 1) by (apply Z.div_lt_upper_bound; lia). lia. }
  split; [done|]. rewrite <- be_bytes_pad; [f_equal; lia|]. split; [lia|].
  rewrite Hpow. eapply Z.lt_le_trans; [exact Hb|]. apply Z.pow_le_mono_r; [lia|].
  pose proof (Z.div_mod (bit_len z + 7) 8 ltac:(lia)).
  pose proof (Z.mod_pos_bound (bit_len z + 7) 8 ltac:(lia)). lia.
Qed.

Lemma be_int_leading_zeros k l : be_int (replicate k 0 ++ l) = be_int l.
Proof. unfold be_int. rewrite foldl_app. f_equal. by induction k as [|k IH]. Qed.

(** [new(big.Int).SetBytes(z.Bytes())] gives back a non-negative integer. *)
Lemma be_int_int_bytes n z : 0 <= z < 256 ^ Z.of_nat n -> be_int (int_bytes z) = z.
Proof.
  intros Hz. destruct (int_bytes_pad n z Hz) as [_ Hpad].
  by rewrite <- (be_int_leading_zeros (n - length (int_bytes z))), Hpad, be_int_be_bytes.
Qed.

Lemma big_uint64_small z : 0 <= z < 2 ^ 64 -> big_uint64 z = z.
Proof. intros. unfold big_uint64. rewrite Z.abs_eq, Z.mod_small; lia. Qed.

(** ** Finite maps *)

(** Distinct keys of a map are no more than its size. *)
Lemma keys_le_size `{Countable K} {A} (f : nat -> K) (c : nat) (m : gmap K A) :
  (forall i, (i < c)%nat -> is_Some (m !! f i)) ->
  (forall i j, (i < c)%nat -> (j < c)%nat -> f i = f j -> i = j) -> (c <= size m)%nat.
Proof.
  intros Hin Hinj. rewrite <- (length_seq c 0), <- (length_fmap f), <- size_dom.
  rewrite <- (size_list_to_set (C := gset K)).
  - apply subseteq_size. intros k. rewrite elem_of_list_to_set, list_elem_of_fmap, elem_of_dom.
    intros (i & -> & Hi). apply elem_of_seq in Hi. apply Hin. lia.
  - apply NoDup_fmap_2_strong; [|apply NoDup_seq].
    intros i j Hi Hj E. apply elem_of_seq in Hi, Hj. apply Hinj; [lia|lia|done].
Qed.

Lemma map_to_list_filter_perm `{Countable K} {A} (P : K * A -> Prop) `{!forall x, Decision (P x)}
    (m : gmap K A) : map_to_list (filter P m) ≡ₚ filter P (map_to_list m).
Proof.
  apply NoDup_Permutation; [apply NoDup_map_to_list|apply NoDup_filter, NoDup_map_to_list|].
  intros [k x]. rewrite list_elem_of_filter, !elem_of_map_to_list, map_lookup_filter_Some. tauto.
Qed.

(** ** Filters *)

Lemma filter_all {A} (P : A -> Prop) `{!forall x, Decision (P x)} (l : list A) : Forall P l -> filter P l = l.
Proof. induction 1 as [|x l Hx _ IH]; [done|]. by rewrite filter_cons_True, IH. Qed.

Lemma filter_none {A} (P : A -> Prop) `{!forall x, Decision (P x)} (l : list A) : Forall (fun x => ~ P x) l -> filter P l = [].
Proof. induction 1 as [|x l Hx _ IH]; [done|]. by rewrite filter_cons_False. Qed.

(** ** Running [M] *)

Lemma run_get {S A} (k : S -> M S A) (s : S) : (mget ≫= k) s = k s s.
Proof. done. Qed.

Lemma run_bind {S A B} (m : M S A) (k : A -> M S B) (s : S) x s' : m s = Some (x, s') -> (m ≫= k) s = k x s'.
Proof. unfold mbind, M_bind. by intros ->. Qed.

Lemma run_modify {S A} (f : S -> S) (k : () -> M S A) (s : S) : (mmodify f ≫= k) s = k tt (f s).
Proof. done. Qed.

Lemma run_lift {S A B} (o : option A) (k : A -> M S B) (s : S) x : o = Some x -> (mlift o ≫= k) s = k x s.
Proof. by intros ->. Qed.

(** ** Reasoning about [M]

    [wp m Q s]: run from [s], [m] does not panic and its result and final state
    satisfy [Q]. *)
Definition wp {S A} (m : M S A) (Q : A -> S -> Prop) (s : S) : Prop :=
  match m s with Some (x, s') => Q x s' | None => False end.

Section Wp.
Context {S A B : Type}.
Implicit Types (s : S).

Lemma wp_bind (m : M S A) (k : A -> M S B) Q s :
  wp m (fun x => wp (k x) Q) s -> wp (m ≫= k) Q s.
Proof. unfold wp, mbind, M_bind. by destruct (m s) as [[x s']|]. Qed.

Lemma wp_mono (m : M S A) (P Q : A -> S -> Prop) s :
  wp m P s -> (forall x s', P x s' -> Q x s') -> wp m Q s.
Proof. unfold wp. destruct (m s) as [[x s']|]; auto. Qed.

Lemma wp_ret (x : A) Q s : Q x s -> wp (mret x) Q s.
Proof. done. Qed.

Lemma wp_get Q s : Q s s -> wp (mget (S := S)) Q s.
Proof. done. Qed.

Lemma wp_modify (f : S -> S) Q s : Q tt (f s) -> wp (mmodify f) Q s.
Proof. done. Qed.

Lemma wp_lift (o : option A) x Q s : o = Some x -> Q x s -> wp (mlift o) Q s.
Proof. by intros ->. Qed.

Lemma wp_run (m : M S A) Q s : wp m Q s -> exists x s', m s = Some (x, s') /\ Q x s'.
Proof. unfold wp. destruct (m s) as [[x s']|]; [eauto|done]. Qed.

End Wp.

(** A loop over a slice keeps an invariant indexed by the elements still to come. *)
Lemma wp_for {S A} (I : list A -> S -> Prop) (f : A -> M S ()) : forall xs s,
  I xs s ->
  (forall x xs' s', I (x :: xs') s' -> wp (f x) (fun _ => I xs') s') ->
  wp (mfor xs f) (fun _ => I []) s.
Proof.
  induction xs as [|x xs IH]; intros s Hi Hstep; [done|].
  apply (wp_bind (f x)). eapply wp_mono; [by apply Hstep|]. intros [] s' Hi'. by apply IH.
Qed.

(** Stepping through a computation. *)
Ltac wp_step :=
  lazymatch goal with
  | |- wp (mret _) _ _ => apply wp_ret
  | |- wp mget _ _ => apply wp_get
  | |- wp (mmodify _) _ _ => apply wp_modify
  | |- wp (mbind _ _) _ _ => apply wp_bind
  end; cbv beta iota.
Ltac wp_steps := cbv beta iota; repeat wp_step.

(** ** Invariants of computations that may panic

    [keeps I m]: whenever [m], run from a state of [I], does not panic, it ends
    in a state of [I]. *)
Definition keeps {S A} (I : S -> Prop) (m : M S A) : Prop :=
  forall s, I s -> match m s with Some (_, s') => I s' | None => True end.

Section Keeps.
Context {S A B : Type} (I : S -> Prop).

Lemma keeps_bind (m : M S A) (k : A -> M S B) :
  keeps I m -> (forall x, keeps I (k x)) -> keeps I (m ≫= k).
Proof.
  intros Hm Hk s Hs. specialize (Hm s Hs). unfold mbind, M_bind. destruct (m s) as [[x s']|]; [|done].
  by apply Hk.
Qed.

(** A value read from the state comes from some state of the invariant. *)
Lemma keeps_get_bind (k : S -> M S B) : (forall s, I s -> keeps I (k s)) -> keeps I (mget ≫= k).
Proof. intros Hk s Hs. by apply (Hk s Hs). Qed.

Lemma keeps_gets (f : S -> A) : keeps I (mgets f).
Proof. by intros s Hs. Qed.

Lemma keeps_lift_bind (o : option A) (k : A -> M S B) :
  (forall x, o = Some x -> keeps I (k x)) -> keeps I (mlift o ≫= k).
Proof.
  intros Hk s Hs. unfold mbind at 1, M_bind, mlift. destruct o as [x|]; simpl; [|done]. by apply (Hk x eq_refl).
Qed.

Lemma keeps_lift (o : option A) : keeps I (mlift o).
Proof. intros s Hs. unfold mlift. by destruct o. Qed.

Lemma keeps_ret (x : A) : keeps I (mret x).
Proof. by intros s Hs. Qed.

Lemma keeps_panic : keeps I (mpanic (A := A)).
Proof. by intros s Hs. Qed.

Lemma keeps_modify (f : S -> S) : (forall s, I s -> I (f s)) -> keeps I (mmodify f).
Proof. intros Hf s Hs. by apply Hf. Qed.

Lemma keeps_run (m : M S A) s x s' : keeps I m -> I s -> m s = Some (x, s') -> I s'.
Proof. intros Hm Hs E. specialize (Hm s Hs). by rewrite E in Hm. Qed.

End Keeps.

Create HintDb keeps.
#[export] Hint Resolve keeps_gets keeps_lift keeps_ret keeps_panic : keeps.

(** Walks through a computation, splitting its branches; what is left are the
    updates and the calls that the hints do not know. *)
Ltac keeps_step :=
  lazymatch goal with
  | |- keeps _ (mbind _ mget) => apply keeps_get_bind; intros ? ?
  | |- keeps _ (mbind _ (mlift _)) => apply keeps_lift_bind; intros ? ?
  | |- keeps _ (mbind _ _) => apply keeps_bind; [|intros ?]
  | |- keeps _ (match ?x with _ => _ end) => destruct x eqn:?
  | |- keeps _ (let _ := _ in _) => cbv zeta
  end.
Ltac keeps_solve := repeat (cbv beta zeta; first [by auto with keeps nocore | keeps_step]).
