(* ===== verification/GoHeap.v ===== *)
(** * Go's [container/heap]

    [core/tx_list.go] keeps two binary heaps, [nonceHeap] and [priceHeap], and
    drives them through Go's standard library [heap.Init], [heap.Push],
    [heap.Pop] and [heap.Remove].  This file models those functions over a list
    (the backing slice) and a boolean [less], and proves, for any strict weak
    order, that they permute the contents, keep the heap order and return a
    minimum.  The clients in [TxList.v] only use the lemmas of this file. *)
From stdpp Require Import list sorting.
From Stdlib Require Import Lia.
From S2P Require Import Prelude.

(** ** The library functions *)

Section Heap.
Context {A : Type} (less : A -> A -> bool).
Implicit Types (l : list A) (i j n : nat).

(** [h.Swap(i, j)] on a slice. *)
Definition swap l i j : list A :=
  match l !! i, l !! j with
  | Some x, Some y => <[i := y]> (<[j := x]> l)
  | _, _ => l
  end.

(** [h.Less(i, j)]: both indices are in range wherever the library calls it. *)
Definition less_at l i j : bool :=
  match l !! i, l !! j with
  | Some x, Some y => less x y
  | _, _ => false
  end.

Definition parent j : nat := (j - 1) / 2.

(** [up(h, j)]: each turn moves to the parent, so [j] turns are enough. *)
Fixpoint up_fuel (fuel : nat) l j : list A :=
  match fuel with
  | 0 => l
  | S fuel' =>
    let i := parent j in
    if decide (i = j) then l
    else if less_at l j i then up_fuel fuel' (swap l i j) i
    else l
  end.

Definition up l j : list A := up_fuel (S j) l j.

(** [down(h, i0, n)]: the new slice and the final index. *)
Fixpoint down_fuel (fuel : nat) l i n : list A * nat :=
  match fuel with
  | 0 => (l, i)
  | S fuel' =>
    let j1 := 2 * i + 1 in
    if decide (n <= j1) then (l, i)
    else
      let j := if decide (j1 + 1 < n) then
                 (if less_at l (j1 + 1) j1 then j1 + 1 else j1) else j1 in
      if less_at l j i then down_fuel fuel' (swap l i j) j n
      else (l, i)
  end.

Definition down l i0 n : list A * bool :=
  let '(l', i) := down_fuel (S n) l i0 n in (l', bool_decide (i0 < i)).

(** [heap.Init]: [for i := n/2 - 1; i >= 0; i-- { down(h, i, n) }]. *)
Fixpoint init_from (k : nat) l : list A :=
  match k with
  | 0 => l
  | S k' => init_from k' (fst (down l k' (length l)))
  end.

Definition heap_init l : list A := init_from (length l / 2) l.

(** [heap.Push]. *)
Definition heap_push l (x : A) : list A := up (l ++ [x]) (length l).

(** [h.Pop()] of the interface: the last element and the shortened slice. *)
Definition pop_last l : option (A * list A) :=
  match last l with
  | Some x => Some (x, take (length l - 1) l)
  | None => None
  end.

(** [heap.Pop]; [None] is the index-out-of-range panic on an empty slice. *)
Definition heap_pop l : option (A * list A) :=
  let n := length l - 1 in
  pop_last (fst (down (swap l 0 n) 0 n)).

(** [heap.Remove]. *)
Definition heap_remove l i : option (A * list A) :=
  let n := length l - 1 in
  if decide (n = i) then pop_last l
  else
    let '(l1, moved) := down (swap l i n) i n in
    pop_last (if moved then l1 else up l1 i).

(** Heap order: no element is less than its parent. *)
Definition edge_ok l i j : Prop :=
  forall x y, l !! i = Some x -> l !! j = Some y -> less y x = false.

Definition heap_ordered l n : Prop :=
  forall j, 0 < j < n -> edge_ok l (parent j) j.

Definition is_heap l : Prop := heap_ordered l (length l).

End Heap.

(** What a comparison must satisfy for the library to be correct: the relation
    "not less than" is transitive and total. *)
Class StrictWeak {A : Type} (less : A -> A -> bool) : Prop := {
  less_asym : forall x y, less x y = true -> less y x = false;
  less_neg_trans : forall x y z, less y x = false -> less z y = false -> less z x = false
}.

(** ** Index arithmetic *)

Lemma parent_lt j : 0 < j -> parent j < j.
Proof. intros. unfold parent. apply Nat.Div0.div_lt_upper_bound; lia. Qed.

Lemma parent_0 : parent 0 = 0.
Proof. reflexivity. Qed.

Lemma parent_left i : parent (2 * i + 1) = i.
Proof. unfold parent. replace (2 * i + 1 - 1) with (i * 2) by lia. by rewrite Nat.div_mul. Qed.

Lemma parent_right i : parent (2 * i + 1 + 1) = i.
Proof.
  unfold parent. replace (2 * i + 1 + 1 - 1) with (1 + i * 2) by lia.
  by rewrite Nat.div_add by lia.
Qed.

Lemma parent_inv j : 0 < j -> j = 2 * parent j + 1 \/ j = 2 * parent j + 1 + 1.
Proof.
  intros. unfold parent. pose proof (Nat.div_mod_eq (j - 1) 2).
  pose proof (Nat.mod_upper_bound (j - 1) 2). lia.
Qed.

(** ** Swapping *)

Section Swap.
Context {A : Type}.
Implicit Types (l : list A) (i j k n : nat).

Lemma length_swap l i j : length (swap l i j) = length l.
Proof. unfold swap. repeat case_match; by rewrite ?length_insert. Qed.

Lemma swap_lookup_l l i j : i < length l -> j < length l -> swap l i j !! i = l !! j.
Proof.
  intros [x Hx]%lookup_lt_is_Some [y Hy]%lookup_lt_is_Some. unfold swap. rewrite Hx, Hy.
  apply list_lookup_insert_eq. rewrite length_insert. by eapply lookup_lt_Some.
Qed.

Lemma swap_lookup_r l i j : i < length l -> j < length l -> swap l i j !! j = l !! i.
Proof.
  intros [x Hx]%lookup_lt_is_Some [y Hy]%lookup_lt_is_Some. unfold swap. rewrite Hx, Hy.
  destruct (decide (i = j)) as [->|Hne].
  - rewrite list_lookup_insert_eq; [congruence|]. rewrite length_insert. by eapply lookup_lt_Some.
  - rewrite list_lookup_insert_ne by done. apply list_lookup_insert_eq. by eapply lookup_lt_Some.
Qed.

Lemma swap_lookup_ne l i j k : k <> i -> k <> j -> swap l i j !! k = l !! k.
Proof. intros. unfold swap. repeat case_match; by rewrite ?list_lookup_insert_ne by done. Qed.

Lemma swap_perm l i j : swap l i j ≡ₚ l.
Proof.
  unfold swap. destruct (l !! i) as [x|] eqn:Hi; [|done]. destruct (l !! j) as [y|] eqn:Hj; [|done].
  destruct (decide (i = j)) as [->|Hne].
  { rewrite list_insert_insert_eq. simplify_eq. by rewrite list_insert_id. }
  apply Permutation_inj. split; [by rewrite !length_insert|].
  pose proof (lookup_lt_Some _ _ _ Hi). pose proof (lookup_lt_Some _ _ _ Hj).
  exists (fun k => if decide (k = i) then j else if decide (k = j) then i else k). split.
  - intros a b. repeat case_decide; intros; congruence.
  - intros k. repeat case_decide; subst.
    + by rewrite list_lookup_insert_eq by (rewrite length_insert; lia).
    + rewrite list_lookup_insert_ne by done. by rewrite list_lookup_insert_eq.
    + by rewrite !list_lookup_insert_ne by done.
Qed.

End Swap.

(** ** Sifting *)

Section Sift.
Context {A : Type} (less : A -> A -> bool) `{!StrictWeak less}.
Implicit Types (l : list A) (i j k n : nat).

Local Abbreviation ok := (edge_ok less).

Lemma edge_ok_swap l i j a b a' b' :
  swap l i j !! a = l !! a' -> swap l i j !! b = l !! b' ->
  ok l a' b' -> ok (swap l i j) a b.
Proof. intros Ha Hb Hok x y Hx Hy. rewrite Ha in Hx. rewrite Hb in Hy. by apply (Hok x y). Qed.

Lemma edge_ok_trans l a b c : b < length l -> ok l a b -> ok l b c -> ok l a c.
Proof.
  intros [y Hy]%lookup_lt_is_Some H1 H2 x z Hx Hz.
  eapply less_neg_trans; [by apply (H1 x y)|by apply (H2 y z)].
Qed.

Lemma less_at_edge l i j : less_at less l i j = true -> ok l i j.
Proof.
  unfold less_at. intros H x y Hx Hy. rewrite Hx, Hy in H. by apply less_asym.
Qed.

Lemma not_less_at_edge l i j :
  i < length l -> j < length l -> less_at less l j i = false -> ok l i j.
Proof. unfold less_at. intros Hi Hj H x y Hx Hy. by rewrite Hx, Hy in H. Qed.

(** The order holds below [k] except around [i]: neither the edge above [i] nor
    the edges below it are known, but the children of [i] respect its parent. *)
Record around l n k i : Prop := {
  around_other : forall j, 0 < j < n -> k <= parent j -> j <> i -> parent j <> i -> ok l (parent j) j;
  around_bridge : forall j, 0 < j < n -> parent j = i -> 0 < i -> k <= parent i -> ok l (parent i) j
}.

(** The child [down] compares with: the smaller of the two. *)
Lemma down_child l i n c :
  n <= length l -> 2 * i + 1 < n ->
  c = (if decide (2 * i + 1 + 1 < n) then
         (if less_at less l (2 * i + 1 + 1) (2 * i + 1) then 2 * i + 1 + 1 else 2 * i + 1)
       else 2 * i + 1) ->
  c < n /\ i < c /\ parent c = i /\ forall j, 0 < j < n -> parent j = i -> j <> c -> ok l c j.
Proof.
  intros Hn Hlt ->.
  destruct (decide (2 * i + 1 + 1 < n)).
  - destruct (less_at less l _ _) eqn:Hless.
    + split_and!; [lia|lia|apply parent_right|].
      intros j Hj Hp Hne. destruct (parent_inv j) as [Hj'|Hj']; [lia| |]; rewrite Hp in Hj'; [|lia].
      subst j. by apply less_at_edge.
    + split_and!; [lia|lia|apply parent_left|].
      intros j Hj Hp Hne. destruct (parent_inv j) as [Hj'|Hj']; [lia| |]; rewrite Hp in Hj'; [lia|].
      subst j. apply not_less_at_edge; lia || done.
  - split_and!; [lia|lia|apply parent_left|].
    intros j Hj Hp Hne. destruct (parent_inv j) as [Hj'|Hj']; [lia| |]; rewrite Hp in Hj'; lia.
Qed.

Lemma down_step l n k i c :
  n <= length l -> k <= i -> around l n k i ->
  c < n -> i < c -> parent c = i ->
  (forall j, 0 < j < n -> parent j = i -> j <> c -> ok l c j) ->
  less_at less l c i = true ->
  around (swap l i c) n k c /\ (k <= parent c -> ok (swap l i c) (parent c) c).
Proof.
  intros Hn Hk [Hoth Hbr] Hc Hic Hpc Hsib Hless.
  assert (Hsi : swap l i c !! i = l !! c) by (apply swap_lookup_l; lia).
  assert (Hsc : swap l i c !! c = l !! i) by (apply swap_lookup_r; lia).
  assert (Hne : forall j, j <> i -> j <> c -> swap l i c !! j = l !! j) by (intros; by apply swap_lookup_ne).
  split; [split|].
  - intros j Hj Hkj Hjc Hpj. pose proof (parent_lt j ltac:(lia)).
    destruct (decide (j = i)) as [->|Hji].
    + eapply edge_ok_swap; [apply Hne; lia|exact Hsi|].
      apply Hbr; [lia|done|lia|done].
    + destruct (decide (parent j = i)) as [Hpi|Hpi].
      * rewrite Hpi. eapply edge_ok_swap; [exact Hsi|by apply Hne|]. by apply Hsib.
      * eapply edge_ok_swap; [by apply Hne|by apply Hne|]. by apply Hoth.
  - intros j Hj Hpj _ _. rewrite Hpc. pose proof (parent_lt j ltac:(lia)).
    eapply edge_ok_swap; [exact Hsi|apply Hne; lia|].
    rewrite <- Hpj. apply Hoth; lia.
  - intros _. rewrite Hpc. eapply edge_ok_swap; [exact Hsi|exact Hsc|]. by apply less_at_edge.
Qed.

Lemma down_stop l n k i :
  n <= length l -> around l n k i ->
  (forall j, 0 < j < n -> parent j = i -> ok l i j) ->
  forall j, 0 < j < n -> k <= parent j -> j <> i -> ok l (parent j) j.
Proof.
  intros Hn [Hoth Hbr] Hch j Hj Hkj Hji.
  destruct (decide (parent j = i)) as [Hp|]; [rewrite Hp; by apply Hch|by apply Hoth].
Qed.

Lemma down_fuel_perm fuel : forall l i n l' i',
  down_fuel less fuel l i n = (l', i') -> l' ≡ₚ l.
Proof.
  induction fuel as [|fuel IH]; simpl; intros l i n l' i' H; [by simplify_eq|].
  repeat case_match; simplify_eq; try done;
    (etrans; [by eapply IH|apply swap_perm]).
Qed.

Lemma down_fuel_above fuel : forall l i n l' i' j,
  down_fuel less fuel l i n = (l', i') -> i < n -> n <= j -> l' !! j = l !! j.
Proof.
  induction fuel as [|fuel IH]; simpl; intros l i n l' i' j H Hi Hj; [by simplify_eq|].
  repeat case_match; simplify_eq; try done;
    (rewrite (IH _ _ _ _ _ _ H) by lia; apply swap_lookup_ne; lia).
Qed.

Lemma down_fuel_ordered k fuel : forall l i n l' i',
  n <= length l -> k <= i -> n - i <= fuel -> around l n k i ->
  (0 < i -> k <= parent i -> ok l (parent i) i) ->
  down_fuel less fuel l i n = (l', i') ->
  forall j, 0 < j < n -> k <= parent j -> ok l' (parent j) j.
Proof.
  induction fuel as [|fuel IH]; simpl; intros l i n l' i' Hn Hk Hfuel Har Hup H j Hj Hkj.
  - simplify_eq. destruct (decide (j = i')) as [->|]; [apply Hup; lia|].
    pose proof (parent_lt j ltac:(lia)). apply (around_other _ _ _ _ Har); lia || done.
  - case_decide as Hend.
    + simplify_eq. destruct (decide (j = i')) as [->|Hji]; [apply Hup; lia|].
      eapply down_stop; try done. intros j' Hj' Hp. destruct (parent_inv j'); lia.
    + match type of H with context [less_at less l ?e i] => remember e as c eqn:Ec end.
      destruct (down_child l i n c) as (Hcn & Hic & Hpc & Hsib); [done|lia|done|].
      clear Ec. destruct (less_at less l c i) eqn:Hless.
      * destruct (down_step l n k i c) as [Har' Hup']; try done.
        eapply (IH (swap l i c) c n l' i'); rewrite ?length_swap; lia || done || by intros _.
      * injection H as <- <-. destruct (decide (j = i)) as [->|Hji]; [apply Hup; lia|].
        eapply down_stop; try done. intros j' Hj' Hp.
        assert (ok l i c) by (apply not_less_at_edge; lia || done).
        destruct (decide (j' = c)) as [->|]; [done|].
        eapply edge_ok_trans; [|done|by apply Hsib]. lia.
Qed.

(** [up] repairs a heap broken only at [i]. *)
Record below l n i : Prop := {
  below_other : forall j, 0 < j < n -> j <> i -> ok l (parent j) j;
  below_bridge : forall j, 0 < j < n -> parent j = i -> 0 < i -> ok l (parent i) j
}.

Lemma up_step l n i :
  n <= length l -> 0 < i < n -> below l n i -> less_at less l i (parent i) = true ->
  below (swap l (parent i) i) n (parent i).
Proof.
  intros Hn Hi [Hoth Hbr] Hless. pose proof (parent_lt i ltac:(lia)) as Hpi.
  set (p := parent i) in *.
  assert (Hsp : swap l p i !! p = l !! i) by (apply swap_lookup_l; lia).
  assert (Hsi : swap l p i !! i = l !! p) by (apply swap_lookup_r; lia).
  assert (Hne : forall j, j <> p -> j <> i -> swap l p i !! j = l !! j) by (intros; by apply swap_lookup_ne).
  split; intros j Hj; pose proof (parent_lt j ltac:(lia)).
  - intros Hjp. destruct (decide (j = i)) as [->|Hji].
    + change (parent i) with p. eapply edge_ok_swap; [exact Hsp|exact Hsi|]. by apply less_at_edge.
    + destruct (decide (parent j = p)) as [Hpj|Hpj].
      * rewrite Hpj. eapply edge_ok_swap; [exact Hsp|by apply Hne|].
        eapply (edge_ok_trans _ _ p); [lia|by apply less_at_edge|]. rewrite <- Hpj. by apply Hoth.
      * destruct (decide (parent j = i)) as [Hpj'|Hpj'].
        -- rewrite Hpj'. eapply edge_ok_swap; [exact Hsi|by apply Hne|]. apply Hbr; lia || done.
        -- eapply edge_ok_swap; [by apply Hne|by apply Hne|]. by apply Hoth.
  - intros Hpj Hp0. pose proof (parent_lt p ltac:(lia)).
    destruct (decide (j = i)) as [->|Hji].
    + eapply edge_ok_swap; [apply Hne; lia|exact Hsi|]. apply Hoth; lia.
    + eapply edge_ok_swap; [apply Hne; lia|apply Hne; lia|].
      eapply (edge_ok_trans _ _ p); [lia|apply Hoth; lia|]. rewrite <- Hpj. apply Hoth; lia.
Qed.

Lemma up_fuel_perm fuel : forall l i, up_fuel less fuel l i ≡ₚ l.
Proof.
  induction fuel as [|fuel IH]; simpl; intros l i; [done|].
  case_decide; [done|]. case_match; [|done]. rewrite IH. apply swap_perm.
Qed.

Lemma up_fuel_above fuel : forall l i j, i < j -> up_fuel less fuel l i !! j = l !! j.
Proof.
  induction fuel as [|fuel IH]; simpl; intros l i j Hij; [done|].
  case_decide; [done|]. case_match; [|done].
  assert (0 < i) by (destruct i; [done|lia]). pose proof (parent_lt i ltac:(lia)).
  rewrite IH by lia. apply swap_lookup_ne; lia.
Qed.

Lemma up_fuel_ordered fuel : forall l n i,
  n <= length l -> i < n -> i < fuel -> below l n i ->
  heap_ordered less (up_fuel less fuel l i) n.
Proof.
  induction fuel as [|fuel IH]; intros l n i Hn Hi Hfuel Hbel; [lia|]. simpl.
  destruct (decide (i = 0)) as [->|Hi0].
  { rewrite decide_True by apply parent_0. intros j Hj. apply (below_other _ _ _ Hbel); lia. }
  pose proof (parent_lt i ltac:(lia)). rewrite decide_False by lia.
  destruct (less_at less l i (parent i)) eqn:Hless.
  - apply IH; rewrite ?length_swap; try lia. apply up_step; try done. lia.
  - intros j Hj. destruct (decide (j = i)) as [->|]; [|by apply (below_other _ _ _ Hbel)].
    apply not_less_at_edge; lia || done.
Qed.

End Sift.

(** ** What the library guarantees *)

Section HeapSpec.
Context {A : Type} (less : A -> A -> bool) `{!StrictWeak less}.
Implicit Types (l : list A) (x y : A) (i n : nat).

Lemma less_irrefl x : less x x = false.
Proof. destruct (less x x) eqn:H; [|done]. by rewrite (less_asym _ _ H) in H. Qed.

Lemma heap_root_min_at l n x i y :
  heap_ordered less l n -> n <= length l -> l !! 0 = Some x -> i < n -> l !! i = Some y -> less y x = false.
Proof.
  intros Hh Hn Hx. revert y. induction i as [i IH] using lt_wf_ind. intros y Hi Hy.
  destruct (decide (i = 0)) as [->|Hi0]; [simplify_eq; apply less_irrefl|].
  pose proof (parent_lt i ltac:(lia)) as Hp.
  destruct (lookup_lt_is_Some_2 l (parent i)) as [p Hpv]; [lia|].
  eapply (less_neg_trans x p y); [eapply (IH (parent i)); lia || done|].
  by apply (Hh i ltac:(lia) p y).
Qed.

(** The first element of a heap is a minimum. *)
Lemma heap_root_min l x y : is_heap less l -> l !! 0 = Some x -> y ∈ l -> less y x = false.
Proof.
  intros Hh Hx [i Hy]%list_elem_of_lookup.
  eapply (heap_root_min_at l (length l)); try done. by eapply lookup_lt_Some.
Qed.

Lemma is_heap_nil : is_heap less [].
Proof. intros j. simpl. lia. Qed.

Lemma heap_ordered_take l n k : n <= k -> heap_ordered less l n -> heap_ordered less (take k l) n.
Proof.
  intros Hk Hh j Hj x y. pose proof (parent_lt j ltac:(lia)).
  rewrite !lookup_take_lt by lia. by apply Hh.
Qed.

Lemma heap_ordered_mono l n m : m <= n -> heap_ordered less l n -> heap_ordered less l m.
Proof. intros ? Hh j ?. apply Hh. lia. Qed.

Lemma length_perm l l' : l ≡ₚ l' -> length l = length l'.
Proof. apply Permutation_length. Qed.

Lemma up_perm l i : up less l i ≡ₚ l.
Proof. apply up_fuel_perm. Qed.

Lemma down_perm l i n : fst (down less l i n) ≡ₚ l.
Proof. unfold down. destruct (down_fuel _ _ _ _ _) eqn:H. by eapply down_fuel_perm. Qed.

Lemma length_down l i n : length (fst (down less l i n)) = length l.
Proof. apply length_perm, down_perm. Qed.

Lemma init_from_perm k : forall l, init_from less k l ≡ₚ l.
Proof. induction k as [|k IH]; simpl; intros l; [done|]. rewrite IH. apply down_perm. Qed.

Lemma init_from_ordered k : forall l,
  (forall j, 0 < j < length l -> k <= parent j -> edge_ok less l (parent j) j) ->
  is_heap less (init_from less k l).
Proof.
  induction k as [|k IH]; simpl; intros l Hl.
  { intros j Hj. apply Hl; [done|lia]. }
  apply IH. intros j. rewrite length_down. intros Hj Hk.
  unfold down. destruct (down_fuel _ _ _ _ _) as [l' i'] eqn:H. simpl.
  eapply (down_fuel_ordered less k); try exact H; try lia.
  - split; intros j' Hj'; [intros ? ? ?; apply Hl; lia|].
    intros Hp H0 Hle. pose proof (parent_lt k H0). lia.
  - intros H0 Hle. pose proof (parent_lt k H0). lia.
Qed.

(** [heap.Init] establishes the heap order on any slice. *)
Lemma heap_init_spec l : is_heap less (heap_init less l) /\ heap_init less l ≡ₚ l.
Proof.
  split; [|apply init_from_perm]. apply init_from_ordered. intros j Hj Hk.
  destruct (parent_inv j); [lia| |];
    pose proof (Nat.div_mod_eq (length l) 2); pose proof (Nat.mod_upper_bound (length l) 2); lia.
Qed.

(** [heap.Push] inserts and keeps the order. *)
Lemma heap_push_spec l x :
  is_heap less l -> is_heap less (heap_push less l x) /\ heap_push less l x ≡ₚ x :: l.
Proof.
  intros Hh. unfold heap_push.
  assert (Hp : up less (l ++ [x]) (length l) ≡ₚ x :: l)
    by (rewrite up_perm; symmetry; apply Permutation_cons_append).
  split; [|done]. unfold is_heap. rewrite (length_perm _ _ Hp). simpl.
  apply up_fuel_ordered; rewrite ?length_app; simpl; try lia; [done|]. split.
  - intros j Hj Hne y z. pose proof (parent_lt j ltac:(lia)).
    rewrite !lookup_app_l by lia. apply Hh. lia.
  - intros j Hj Hpj. pose proof (parent_lt j ltac:(lia)). lia.
Qed.

Lemma pop_last_spec l n x :
  length l = S n -> l !! n = Some x -> pop_last l = Some (x, take n l) /\ l ≡ₚ x :: take n l.
Proof.
  intros Hlen Hx. unfold pop_last. rewrite last_lookup, Hlen. simpl. rewrite Nat.sub_0_r, Hx.
  split; [done|]. rewrite <- (take_drop_middle l n x Hx) at 1.
  rewrite drop_ge by lia. by rewrite <- Permutation_cons_append.
Qed.

Lemma pop_last_heap l n x :
  length l = S n -> l !! n = Some x -> heap_ordered less l n ->
  exists l', pop_last l = Some (x, l') /\ is_heap less l' /\ l ≡ₚ x :: l'.
Proof.
  intros Hlen Hx Hh. destruct (pop_last_spec l n x Hlen Hx) as [-> Hp].
  exists (take n l). split_and!; [done| |done].
  unfold is_heap. rewrite length_take. replace (n `min` length l) with n by lia.
  by apply heap_ordered_take.
Qed.

Lemma down_ordered l i n :
  n <= length l -> around less l n 0 i -> (0 < i -> edge_ok less l (parent i) i) ->
  heap_ordered less (fst (down less l i n)) n.
Proof.
  intros Hn Har Hup. unfold down. destruct (down_fuel _ _ _ _ _) as [l' i'] eqn:H. intros j Hj.
  eapply (down_fuel_ordered less 0); try exact H; lia || done || by intros; apply Hup.
Qed.

Lemma down_above l i n j : i < n -> n <= j -> fst (down less l i n) !! j = l !! j.
Proof.
  intros. unfold down. destruct (down_fuel _ _ _ _ _) as [l' i'] eqn:Hd. simpl.
  by eapply down_fuel_above.
Qed.

(** Moving the last element to position [i] breaks the order only around [i]. *)
Lemma around_swap_last l i n :
  is_heap less l -> length l = S n -> i < n -> around less (swap l i n) n 0 i.
Proof.
  intros Hh Hlen Hi. split.
  - intros j Hj _ Hji Hpj. pose proof (parent_lt j ltac:(lia)).
    eapply edge_ok_swap; [apply swap_lookup_ne; lia|apply swap_lookup_ne; lia|]. apply Hh. lia.
  - intros j Hj Hpj Hi0 _. pose proof (parent_lt j ltac:(lia)). pose proof (parent_lt i Hi0).
    eapply edge_ok_swap; [apply swap_lookup_ne; lia|apply swap_lookup_ne; lia|].
    eapply (edge_ok_trans _ _ _ i); [lia|apply Hh; lia|]. rewrite <- Hpj. apply Hh. lia.
Qed.

(** [heap.Pop] on a non-empty heap returns its first element, a minimum, and
    leaves a heap with the rest. *)
Lemma heap_pop_spec l x :
  is_heap less l -> l !! 0 = Some x ->
  exists l', heap_pop less l = Some (x, l') /\ is_heap less l' /\ l ≡ₚ x :: l'.
Proof.
  intros Hh Hx. unfold heap_pop.
  destruct (length l) as [|n] eqn:Hlen; [destruct l; simplify_eq/=|].
  replace (S n - 1) with n by lia.
  destruct (decide (n = 0)) as [->|Hn0].
  { destruct l as [|? [|]]; simplify_eq/=. exists []. split_and!; [done|apply is_heap_nil|done]. }
  set (l1 := swap l 0 n). assert (Hl1 : length l1 = S n) by (unfold l1; by rewrite length_swap).
  destruct (pop_last_heap (fst (down less l1 0 n)) n x) as (l' & Hpop & Hl' & Hp).
  - by rewrite length_down.
  - rewrite down_above by lia. unfold l1. by rewrite swap_lookup_r by lia.
  - apply down_ordered; [lia| |lia]. apply around_swap_last; try done. lia.
  - exists l'. split_and!; [done|done|]. rewrite <- Hp, down_perm. symmetry. apply swap_perm.
Qed.

Lemma down_fuel_ge fuel : forall l i n l' i', down_fuel less fuel l i n = (l', i') -> i <= i'.
Proof.
  induction fuel as [|fuel IH]; simpl; intros l i n l' i' H; [by simplify_eq|].
  repeat case_match; simplify_eq; try done; apply IH in H; lia.
Qed.

(** [down] from a position that is broken on both sides either moves the
    element, and then the heap is repaired, or changes nothing and leaves only
    the edge above it for [up]. *)
Lemma down_or_up l i n l1 moved :
  n <= length l -> around less l n 0 i -> down less l i n = (l1, moved) ->
  if moved then heap_ordered less l1 n else l1 = l /\ below less l n i.
Proof.
  intros Hn Har. unfold down. destruct (down_fuel _ _ _ _ _) as [l' i'] eqn:H.
  intros [= <- <-]. simpl in H. case_decide as Hend.
  { injection H as <- <-. rewrite bool_decide_eq_false_2 by lia. split; [done|].
    split; intros j Hj; [|intros; apply (around_bridge _ _ _ _ _ Har); lia || done].
    intros Hji. eapply down_stop; try done; [|lia].
    intros j' Hj' Hp. destruct (parent_inv j'); lia. }
  match type of H with context [less_at less l ?e i] => remember e as c eqn:Ec end.
  destruct (down_child less l i n c) as (Hcn & Hic & Hpc & Hsib); [done|lia|done|].
  clear Ec. destruct (less_at less l c i) eqn:Hless.
  - pose proof (down_fuel_ge _ _ _ _ _ _ H). rewrite bool_decide_eq_true_2 by lia.
    destruct (down_step less l n 0 i c) as [Har' Hup']; try done; [lia|].
    intros j Hj. eapply (down_fuel_ordered less 0); try exact H; rewrite ?length_swap; lia || done || by intros _.
  - injection H as <- <-. rewrite bool_decide_eq_false_2 by lia. split; [done|].
    split; intros j Hj; [|intros; apply (around_bridge _ _ _ _ _ Har); lia || done].
    intros Hji. eapply down_stop; try done; [|lia]. intros j' Hj' Hp.
    assert (edge_ok less l i c) by (apply not_less_at_edge; lia || done).
    destruct (decide (j' = c)) as [->|]; [done|].
    eapply edge_ok_trans; [| |done|by apply Hsib]; [done|lia].
Qed.

(** [heap.Remove] deletes the element at an index and leaves a heap. *)
Lemma heap_remove_spec l i x :
  is_heap less l -> l !! i = Some x ->
  exists l', heap_remove less l i = Some (x, l') /\ is_heap less l' /\ l ≡ₚ x :: l'.
Proof.
  intros Hh Hx. unfold heap_remove. pose proof (lookup_lt_Some _ _ _ Hx) as Hi.
  destruct (length l) as [|n] eqn:Hlen; [lia|]. replace (S n - 1) with n by lia.
  case_decide as Hni.
  { subst i. apply pop_last_heap with n; try done. eapply heap_ordered_mono; [|done]. lia. }
  set (l1 := swap l i n). assert (Hl1 : length l1 = S n) by (unfold l1; by rewrite length_swap).
  assert (Har : around less l1 n 0 i) by (apply around_swap_last; done || lia).
  destruct (down less l1 i n) as [l2 moved] eqn:Hd.
  assert (Hp2 : l2 ≡ₚ l) by (change l2 with (fst (l2, moved)); rewrite <- Hd, down_perm; apply swap_perm).
  assert (Hn2 : l2 !! n = Some x).
  { change l2 with (fst (l2, moved)). rewrite <- Hd, down_above by lia. unfold l1. by rewrite swap_lookup_r by lia. }
  set (l3 := if moved then l2 else up less l2 i).
  assert (Hp3 : l3 ≡ₚ l) by (unfold l3; destruct moved; [done|by rewrite up_perm]).
  apply (down_or_up l1 i n l2 moved) in Hd; [|lia|done].
  destruct (pop_last_heap l3 n x) as (l' & Hpop & Hl' & Hp).
  - by rewrite (length_perm _ _ Hp3).
  - unfold l3. destruct moved; [done|]. unfold up. by rewrite up_fuel_above by lia.
  - unfold l3. destruct moved; [done|]. destruct Hd as [-> Hbel].
    apply up_fuel_ordered; done || lia.
  - exists l'. split_and!; [done|done|]. by rewrite <- Hp, Hp3.
Qed.

Lemma heap_pop_nil : heap_pop less [] = None.
Proof. reflexivity. Qed.

End HeapSpec.
