(* ===== verification/Transaction.v ===== *)
(** * Transactions and their signers

    Models core/types/transaction.go, core/types/transaction_signing.go and the
    field mapping of core/types/gen_tx_json.go: the transaction record and its
    accessors, the three signers (EIP-155, Homestead, Frontier), signing and
    sender recovery, the hash/size/sender caches, the JSON form, and the set
    difference of transaction lists.

    RLP, Keccak-256 and secp256k1 come from other packages: they are the fields
    of the class [TxCrypto], and what the code relies on is the class
    [SignLaws]. *)
From stdpp Require Import gmap list.
From Stdlib Require Import ZArith Lia.
From S2P Require Import Prelude.

Local Open Scope Z_scope.

(** ** Data *)

(** 32-byte hashes and 20-byte addresses are their big-endian value. *)
Definition Hash : Type := Z.
Definition Address : Type := Z.

Record txdata : Type := mk_txdata {
  AccountNonce : Z;
  Price : Z;
  GasLimit : Z;
  ShardID : Z;
  ToShardID : Z;
  Recipient : option Address;
  Amount : Z;
  Payload : list Z;
  sigV : Z;
  sigR : Z;
  sigS : Z;
  dataHash : option Hash
}.

(** A transaction as it comes off the wire: the cached hash is not part of the
    encoding. *)
Definition encodable (d : txdata) : Prop :=
  dataHash d = None /\ is_u64 (AccountNonce d) /\ is_u64 (GasLimit d) /\ is_u64 (ShardID d) /\ is_u64 (ToShardID d) /\
  0 <= Price d /\ 0 <= Amount d /\ 0 <= sigV d /\ 0 <= sigR d /\ 0 <= sigS d.

(** A transaction without its caches ([CTransaction] below adds them). *)
Record Transaction : Type := mk_Transaction {
  data : txdata;
  time : Z
}.

#[export] Instance txdata_eq_dec : EqDecision txdata.
Proof. solve_decision. Defined.

#[export] Instance Transaction_eq_dec : EqDecision Transaction.
Proof. solve_decision. Defined.

Definition set_signature (d : txdata) (r s v : Z) : txdata :=
  mk_txdata (AccountNonce d) (Price d) (GasLimit d) (ShardID d) (ToShardID d)
    (Recipient d) (Amount d) (Payload d) v r s (dataHash d).

Definition set_dataHash (d : txdata) (h : option Hash) : txdata :=
  mk_txdata (AccountNonce d) (Price d) (GasLimit d) (ShardID d) (ToShardID d)
    (Recipient d) (Amount d) (Payload d) (sigV d) (sigR d) (sigS d) h.

Inductive tx_error : Type :=
| ErrInvalidSig
| ErrInvalidChainId
| ErrRecover            (* the error of crypto.Ecrecover or crypto.Sign *)
| ErrInvalidPublicKey
| ErrMissingField (f : nat).

(** The values an RLP list is built from when a transaction is signed. *)
Inductive rlp_item : Type :=
| RUint (n : Z)
| RAddress (a : option Address)
| RBig (n : Z).

Inductive Signer : Type :=
| EIP155Signer (chainId chainIdMul : Z)
| HomesteadSigner
| FrontierSigner.

(** ** The cryptography the code calls *)
Class TxCrypto : Type := {
  rlp_encode_tx : txdata -> list Z;          (* rlp.Encode of a txdata *)
  rlp_encode_items : list rlp_item -> list Z; (* rlp.Encode of []interface{} *)
  Keccak256 : list Z -> list Z;
  ValidateSignatureValues : Z -> Z -> Z -> bool -> bool;
  Ecrecover : Hash -> list Z -> option (list Z);
  PrivateKey : Type;
  crypto_Sign : Hash -> PrivateKey -> option (list Z)
}.

Definition SignatureLength : nat := 65.

(** ** Construction and accessors *)

Definition newTransaction (now : Z) (nonce : Z) (to : option Address) (shardID toShardID : Z)
    (amount : option Z) (gasLimit : Z) (gasPrice : option Z) (payload : list Z) : Transaction :=
  mk_Transaction
    (mk_txdata nonce (default 0 gasPrice) gasLimit shardID toShardID to (default 0 amount)
       payload 0 0 0 None)
    now.

Definition NewTransaction (now nonce : Z) (to : Address) (shardID toShardID : Z)
    (amount : option Z) (gasLimit : Z) (gasPrice : option Z) (payload : list Z) : Transaction :=
  newTransaction now nonce (Some to) shardID toShardID amount gasLimit gasPrice payload.

Definition NewContractCreation (now nonce shardID : Z) (amount : option Z) (gasLimit : Z)
    (gasPrice : option Z) (payload : list Z) : Transaction :=
  newTransaction now nonce None shardID shardID amount gasLimit gasPrice payload.

Definition isProtectedV (v : Z) : bool :=
  if bit_len v <=? 8 then
    let v' := big_uint64 v in negb (v' =? 27) && negb (v' =? 28)
  else true.

Definition deriveChainID (v : Z) : Z :=
  if bit_len v <=? 64 then
    let v' := big_uint64 v in
    if (v' =? 27) || (v' =? 28) then 0 else u64 (v' - 35) / 2
  else (v - 35) / 2.

Definition Protected (tx : Transaction) : bool := isProtectedV (sigV (data tx)).
Definition ChainID (tx : Transaction) : Z := deriveChainID (sigV (data tx)).
Definition Gas (tx : Transaction) : Z := GasLimit (data tx).
Definition GasPrice (tx : Transaction) : Z := Price (data tx).
Definition Value (tx : Transaction) : Z := Amount (data tx).
Definition Nonce (tx : Transaction) : Z := AccountNonce (data tx).
Definition To (tx : Transaction) : option Address := Recipient (data tx).
Definition Cost (tx : Transaction) : Z := 0 + Amount (data tx).

(** [big.Int.Cmp]. *)
Definition big_cmp (x y : Z) : Z := if x <? y then -1 else if x =? y then 0 else 1.
Definition GasPriceCmp (tx other : Transaction) : Z := big_cmp (Price (data tx)) (Price (data other)).
Definition GasPriceIntCmp (tx : Transaction) (other : Z) : Z := big_cmp (Price (data tx)) other.

(** [copy(dst[off:off+len(src)], src)] inside the bounds of [dst]. *)
Definition go_copy (dst : list Z) (off : nat) (src : list Z) : list Z :=
  take off dst ++ src ++ drop (off + length src) dst.

Section WithCrypto.
Context `{!TxCrypto}.

Definition rlpHash (enc : list Z) : Hash := be_int (Keccak256 enc).

Definition tx_hash (tx : Transaction) : Hash := rlpHash (rlp_encode_tx (data tx)).

Definition tx_size (tx : Transaction) : Z := Z.of_nat (length (rlp_encode_tx (data tx))).

(** ** Signers *)

Definition NewEIP155Signer (chainId : option Z) : Signer :=
  let c := default 0 chainId in EIP155Signer c (c * 2).

(** The configuration and the block number are not read. *)
Definition MakeSigner : Signer := NewEIP155Signer None.

Definition signer_Equal (s s2 : Signer) : bool :=
  match s, s2 with
  | EIP155Signer c _, EIP155Signer c2 _ => c2 =? c
  | HomesteadSigner, HomesteadSigner => true
  | FrontierSigner, FrontierSigner => true
  | _, _ => false
  end.

Definition signer_Hash (s : Signer) (tx : Transaction) : Hash :=
  let d := data tx in
  let base := [RUint (AccountNonce d); RUint (ShardID d); RUint (ToShardID d);
               RAddress (Recipient d); RBig (Amount d)] in
  match s with
  | EIP155Signer c _ => rlpHash (rlp_encode_items (base ++ [RBig c; RUint 0; RUint 0]))
  | HomesteadSigner | FrontierSigner => rlpHash (rlp_encode_items base)
  end.

Definition recoverPlain (sighash : Hash) (R S Vb : Z) (homestead : bool) : outcome tx_error Address :=
  if bit_len Vb >? 8 then Err ErrInvalidSig else
  let V := u64 (big_uint64 Vb - 27) mod 256 in
  if negb (ValidateSignatureValues V R S homestead) then Err ErrInvalidSig else
  let r := int_bytes R in
  let s := int_bytes S in
  if decide (32 < length r \/ 64 < length s)%nat then Panic else
  let sig := replicate SignatureLength 0 in
  let sig := go_copy sig (32 - length r) r in
  let sig := go_copy sig (64 - length s) s in
  let sig := <[64%nat := V]> sig in
  match Ecrecover sighash sig with
  | None => Err ErrRecover
  | Some pub =>
      match pub with
      | 4 :: rest => Ret (be_int (take 20 (drop 12 (Keccak256 rest))))
      | _ => Err ErrInvalidPublicKey
      end
  end.

Definition signer_Sender (s : Signer) (tx : Transaction) : outcome tx_error Address :=
  let d := data tx in
  match s with
  | FrontierSigner => recoverPlain (signer_Hash FrontierSigner tx) (sigR d) (sigS d) (sigV d) false
  | HomesteadSigner => recoverPlain (signer_Hash HomesteadSigner tx) (sigR d) (sigS d) (sigV d) true
  | EIP155Signer c cMul =>
      if negb (Protected tx) then
        recoverPlain (signer_Hash HomesteadSigner tx) (sigR d) (sigS d) (sigV d) true
      else if negb (ChainID tx =? c) then Err ErrInvalidChainId
      else recoverPlain (signer_Hash s tx) (sigR d) (sigS d) (sigV d - cMul - 8) true
  end.

(** [(R, S, V)]; a signature of the wrong length panics. *)
Definition SignatureValues (s : Signer) (sig : list Z) : outcome tx_error (Z * Z * Z) :=
  if decide (length sig = SignatureLength) then
    let r := be_int (take 32 sig) in
    let s' := be_int (take 32 (drop 32 sig)) in
    let b := nth 64 sig 0 in
    match s with
    | EIP155Signer c cMul =>
        if negb (c =? 0) then Ret (r, s', (b + 35) mod 256 + cMul)
        else Ret (r, s', (b + 27) mod 256)
    | _ => Ret (r, s', (b + 27) mod 256)
    end
  else Panic.

Definition WithSignature (tx : Transaction) (s : Signer) (sig : list Z) : outcome tx_error Transaction :=
  '(r, s', v) ← SignatureValues s sig;
  mret (mk_Transaction (set_signature (data tx) r s' v) (time tx)).

Definition SignTx (tx : Transaction) (s : Signer) (prv : PrivateKey) : outcome tx_error Transaction :=
  match crypto_Sign (signer_Hash s tx) prv with
  | None => Err ErrRecover
  | Some sig => WithSignature tx s sig
  end.

(** ** Caches

    A transaction object carries three write-once caches. *)
Record CTransaction : Type := mk_CTransaction {
  tx_of : Transaction;
  cache_hash : option Hash;
  cache_size : option Z;
  cache_from : option (Signer * Address)
}.

Definition fresh (tx : Transaction) : CTransaction := mk_CTransaction tx None None None.

Definition Transaction_Hash (t : CTransaction) : Hash * CTransaction :=
  match cache_hash t with
  | Some h => (h, t)
  | None => let v := tx_hash (tx_of t) in
            (v, mk_CTransaction (tx_of t) (Some v) (cache_size t) (cache_from t))
  end.

Definition Transaction_Size (t : CTransaction) : Z * CTransaction :=
  match cache_size t with
  | Some n => (n, t)
  | None => let c := tx_size (tx_of t) in
            (c, mk_CTransaction (tx_of t) (cache_hash t) (Some c) (cache_from t))
  end.

Definition Sender_miss (signer : Signer) (t : CTransaction) : outcome tx_error Address * CTransaction :=
  match signer_Sender signer (tx_of t) with
  | Ret addr => (Ret addr, mk_CTransaction (tx_of t) (cache_hash t) (cache_size t) (Some (signer, addr)))
  | Err e => (Err e, t)
  | Panic => (Panic, t)
  end.

Definition Sender (signer : Signer) (t : CTransaction) : outcome tx_error Address * CTransaction :=
  match cache_from t with
  | Some (s0, a) => if signer_Equal s0 signer then (Ret a, t) else Sender_miss signer t
  | None => Sender_miss signer t
  end.

(** ** Lists of transactions *)

Definition TxDifference (a b : list Transaction) : list Transaction :=
  let remove := foldl (fun (m : gmap Hash unit) tx => <[tx_hash tx := tt]> m) ∅ b in
  foldl (fun keep tx => match remove !! tx_hash tx with
                        | Some _ => keep
                        | None => keep ++ [tx]
                        end) [] a.

(** ** JSON

    The struct that is marshalled: every field a pointer on the way in. *)
Record tx_json : Type := mk_tx_json {
  j_nonce : option Z; j_gasPrice : option Z; j_gas : option Z;
  j_shardID : option Z; j_toShardID : option Z; j_to : option Address;
  j_value : option Z; j_input : option (list Z);
  j_v : option Z; j_r : option Z; j_s : option Z; j_hash : option Hash
}.

Definition txdata_MarshalJSON (t : txdata) : tx_json :=
  mk_tx_json (Some (AccountNonce t)) (Some (Price t)) (Some (GasLimit t))
    (Some (ShardID t)) (Some (ToShardID t)) (Recipient t) (Some (Amount t)) (Some (Payload t))
    (Some (sigV t)) (Some (sigR t)) (Some (sigS t)) (dataHash t).

Definition require {A} (n : nat) (o : option A) : outcome tx_error A :=
  match o with Some a => Ret a | None => Err (ErrMissingField n) end.

(** [t] is the zero struct, so an absent recipient or hash stays [nil]. *)
Definition txdata_UnmarshalJSON (dec : tx_json) : outcome tx_error txdata :=
  nonce ← require 0 (j_nonce dec);
  price ← require 1 (j_gasPrice dec);
  gas ← require 2 (j_gas dec);
  shard ← require 3 (j_shardID dec);
  toShard ← require 4 (j_toShardID dec);
  value ← require 5 (j_value dec);
  input ← require 6 (j_input dec);
  v ← require 7 (j_v dec);
  r ← require 8 (j_r dec);
  s ← require 9 (j_s dec);
  mret (mk_txdata nonce price gas shard toShard (j_to dec) value input v r s (j_hash dec)).

Definition Transaction_MarshalJSON (tx : Transaction) : tx_json :=
  txdata_MarshalJSON (set_dataHash (data tx) (Some (tx_hash tx))).

(** The recovery id [UnmarshalJSON] validates. *)
Definition json_recovery_id (v : Z) : Z :=
  if isProtectedV v then
    let chainID := big_uint64 (deriveChainID v) in
    u64 (u64 (big_uint64 v - 35) - u64 (2 * chainID)) mod 256
  else u64 (big_uint64 v - 27) mod 256.

Definition Transaction_UnmarshalJSON (now : Z) (input : tx_json) : outcome tx_error Transaction :=
  dec ← txdata_UnmarshalJSON input;
  let withSignature := negb (sigV dec =? 0) || negb (sigR dec =? 0) || negb (sigS dec =? 0) in
  if withSignature && negb (ValidateSignatureValues (json_recovery_id (sigV dec)) (sigR dec) (sigS dec) false)
  then Err ErrInvalidSig
  else mret (mk_Transaction dec now).

End WithCrypto.

(** ** What is relied on of the cryptography

    [crypto.Sign] returns a 65-byte [R || S || V] signature with [V] in
    {0, 1} whose values pass validation, and [crypto.Ecrecover] on the same hash
    gives back the uncompressed public key of the signing key. *)
Class SignLaws `{!TxCrypto} : Type := {
  pubkey : PrivateKey -> list Z;
  pubkey_uncompressed : forall prv, exists rest, pubkey prv = 4 :: rest;
  sign_shape : forall h prv sig, crypto_Sign h prv = Some sig ->
    exists r s v, sig = be_bytes 32 r ++ be_bytes 32 s ++ [v] /\
      0 <= r < 256 ^ 32 /\ 0 <= s < 256 ^ 32 /\ (v = 0 \/ v = 1) /\
      forall homestead, ValidateSignatureValues v r s homestead = true;
  sign_recover : forall h prv sig, crypto_Sign h prv = Some sig ->
    Ecrecover h sig = Some (pubkey prv)
}.

(** [crypto.PubkeyToAddress]. *)
Definition key_address `{!TxCrypto} `{!SignLaws} (prv : PrivateKey) : Address :=
  be_int (take 20 (drop 12 (Keccak256 (tail (pubkey prv))))).

(** ** Machine arithmetic of the [V] value *)

Lemma bit_len_small z : 0 <= z < 256 -> bit_len z <= 8.
Proof. intros. apply bit_len_le; lia. Qed.

Lemma bit_len_gt z n : 0 <= n -> 0 <= z -> n < bit_len z -> 2 ^ n <= z.
Proof.
  intros Hn Hz Hlt. destruct (decide (z < 2 ^ n)) as [H|H]; [|lia].
  pose proof (bit_len_le z n). lia.
Qed.

Lemma isProtectedV_false v : 0 <= v -> isProtectedV v = false <-> v = 27 \/ v = 28.
Proof.
  intros Hv. unfold isProtectedV. destruct (Z.leb_spec (bit_len v) 8) as [H|H].
  - pose proof (bit_len_bound v Hv) as [? Hb].
    assert (2 ^ bit_len v <= 2 ^ 8) by (apply Z.pow_le_mono_r; lia).
    rewrite big_uint64_small by lia. lia.
  - split; [done|]. intros. pose proof (bit_len_small v). lia.
Qed.

(** The [V] of an EIP-155 signature for chain [c] is protected and carries [c]. *)
Lemma eip155_V c b :
  0 < c -> b = 0 \/ b = 1 ->
  isProtectedV (b + 35 + c * 2) = true /\ deriveChainID (b + 35 + c * 2) = c.
Proof.
  intros Hc Hb. split.
  - apply not_false_is_true. rewrite isProtectedV_false; lia.
  - assert (Hdiv : (b + 35 + c * 2 - 35) / 2 = c).
    { symmetry. apply (Z.div_unique _ 2 c b); lia. }
    unfold deriveChainID. destruct (Z.leb_spec (bit_len (b + 35 + c * 2)) 64) as [H|H]; [|done].
    pose proof (bit_len_bound (b + 35 + c * 2) ltac:(lia)) as [? Hl].
    assert (2 ^ bit_len (b + 35 + c * 2) <= 2 ^ 64) by (apply Z.pow_le_mono_r; lia).
    rewrite big_uint64_small, u64_small by (unfold is_u64; lia).
    destruct (Z.eqb_spec (b + 35 + c * 2) 27), (Z.eqb_spec (b + 35 + c * 2) 28);
      simpl; lia.
Qed.

(** ** Signature buffers *)

Lemma go_copy_sig r s v :
  0 <= r < 256 ^ 32 -> 0 <= s < 256 ^ 32 ->
  <[64%nat := v]> (go_copy (go_copy (replicate SignatureLength 0) (32 - length (int_bytes r)) (int_bytes r))
                     (64 - length (int_bytes s)) (int_bytes s))
  = be_bytes 32 r ++ be_bytes 32 s ++ [v].
Proof.
  intros Hr Hs.
  destruct (int_bytes_pad 32 r Hr) as [Lr <-], (int_bytes_pad 32 s Hs) as [Ls <-].
  set (rb := int_bytes r) in *. set (sb := int_bytes s) in *.
  assert (H1 : go_copy (replicate SignatureLength 0) (32 - length rb) rb
               = (replicate (32 - length rb) 0 ++ rb) ++ replicate 33 0).
  { unfold go_copy, SignatureLength. rewrite take_replicate, drop_replicate.
    rewrite <- app_assoc. do 2 f_equal; [|f_equal]; f_equal; lia. }
  rewrite H1. set (R := replicate (32 - length rb) 0 ++ rb).
  assert (HR : length R = 32%nat) by (unfold R; rewrite length_app, length_replicate; lia).
  unfold go_copy. rewrite take_app_ge, drop_app_ge by lia. rewrite HR.
  rewrite take_replicate, drop_replicate.
  replace (33 - (64 - length sb + length sb - 32))%nat with 1%nat by lia.
  replace (((64 - length sb) - 32) `min` 33)%nat with (32 - length sb)%nat by lia.
  rewrite <- !app_assoc. rewrite insert_app_r_alt by lia. f_equal.
  rewrite insert_app_r_alt by (rewrite length_replicate; lia). rewrite length_replicate. f_equal.
  rewrite insert_app_r_alt by lia. f_equal.
  by replace (64 - length R - (32 - length sb) - length sb)%nat with 0%nat by lia.
Qed.

Section Theorems.
Context `{!TxCrypto} `{!SignLaws}.

(** Recovery on the values of a genuine signature gives the key's address. *)
Lemma recoverPlain_sign h prv sig r s b homestead :
  crypto_Sign h prv = Some sig ->
  sig = be_bytes 32 r ++ be_bytes 32 s ++ [b] ->
  0 <= r < 256 ^ 32 -> 0 <= s < 256 ^ 32 -> b = 0 \/ b = 1 ->
  ValidateSignatureValues b r s homestead = true ->
  recoverPlain h r s (b + 27) homestead = Ret (key_address prv).
Proof.
  intros Hsig Hshape Hr Hs Hb Hval. unfold recoverPlain.
  pose proof (bit_len_small (b + 27) ltac:(lia)).
  destruct (Z.gtb_spec (bit_len (b + 27)) 8) as [?|?]; [lia|].
  rewrite big_uint64_small, u64_small by (unfold is_u64; lia).
  replace ((b + 27 - 27) mod 256) with b by (rewrite Z.mod_small; lia).
  rewrite Hval. simpl negb. cbv iota.
  destruct (int_bytes_pad 32 r Hr) as [Lr _], (int_bytes_pad 32 s Hs) as [Ls _].
  rewrite decide_False by lia. rewrite go_copy_sig by done.
  rewrite <- Hshape, (sign_recover h prv sig Hsig).
  unfold key_address. by destruct (pubkey_uncompressed prv) as [rest ->].
Qed.

Lemma SignatureValues_shape sg r s b :
  0 <= r < 256 ^ 32 -> 0 <= s < 256 ^ 32 ->
  SignatureValues sg (be_bytes 32 r ++ be_bytes 32 s ++ [b])
  = Ret (r, s, match sg with
               | EIP155Signer c cMul => if negb (c =? 0) then (b + 35) mod 256 + cMul else (b + 27) mod 256
               | _ => (b + 27) mod 256
               end).
Proof.
  intros Hr Hs. unfold SignatureValues.
  assert (Hl : forall z, length (be_bytes 32 z) = 32%nat) by (intros; apply length_be_bytes).
  rewrite decide_True by (unfold SignatureLength; rewrite !length_app, !Hl; done).
  replace (nth 64 (be_bytes 32 r ++ be_bytes 32 s ++ [b]) 0) with b
    by (rewrite app_nth2; rewrite ?Hl; [|lia]; rewrite app_nth2; rewrite ?Hl; [done|lia]).
  rewrite (take_app_length' (be_bytes 32 r)), (drop_app_length' (be_bytes 32 r)),
    (take_app_length' (be_bytes 32 s)) by (by rewrite Hl).
  rewrite !be_int_be_bytes by done. destruct sg as [c cMul| |]; [destruct (negb (c =? 0))|..]; done.
Qed.

(** What signing returns: the transaction with the values of the signature. *)
Lemma SignTx_inv tx sg prv tx' :
  SignTx tx sg prv = Ret tx' ->
  exists sig r s b, crypto_Sign (signer_Hash sg tx) prv = Some sig /\
    sig = be_bytes 32 r ++ be_bytes 32 s ++ [b] /\
    0 <= r < 256 ^ 32 /\ 0 <= s < 256 ^ 32 /\ (b = 0 \/ b = 1) /\
    (forall homestead, ValidateSignatureValues b r s homestead = true) /\
    tx' = mk_Transaction (set_signature (data tx) r s
            (match sg with
             | EIP155Signer c cMul => if negb (c =? 0) then b + 35 + cMul else b + 27
             | _ => b + 27
             end)) (time tx).
Proof.
  unfold SignTx. destruct (crypto_Sign _ _) as [sig|] eqn:Hsig; [|done]. intros Htx.
  destruct (sign_shape _ _ _ Hsig) as (r & s & b & -> & Hr & Hs & Hb & Hval).
  unfold WithSignature in Htx. rewrite SignatureValues_shape in Htx by done.
  injection Htx as <-. eexists _, r, s, b. do 6 (split; [done|]).
  destruct sg as [c cMul| |]; [destruct (negb (c =? 0))|..]; rewrite Z.mod_small by lia; done.
Qed.

Lemma SignTx_eip155_recovers tx c prv tx' :
  0 < c ->
  SignTx tx (NewEIP155Signer (Some c)) prv = Ret tx' ->
  signer_Sender (NewEIP155Signer (Some c)) tx' = Ret (key_address prv) /\
  Protected tx' = true /\ ChainID tx' = c /\
  data tx' = set_signature (data tx) (sigR (data tx')) (sigS (data tx')) (sigV (data tx')).
Proof.
  intros Hc Hsign. apply SignTx_inv in Hsign as (sig & r & s & b & Hsig & Hshape & Hr & Hs & Hb & Hval & ->).
  unfold NewEIP155Signer in *; simpl default in *. rewrite (proj2 (Z.eqb_neq c 0)) by lia. simpl negb. cbv iota.
  destruct (eip155_V c b Hc Hb) as [Hprot Hchain].
  repeat split; [|done|done]. unfold signer_Sender, Protected, ChainID. simpl.
  rewrite Hprot, Hchain, Z.eqb_refl. simpl negb. cbv iota.
  replace (b + 35 + c * 2 - c * 2 - 8) with (b + 27) by lia.
  eapply recoverPlain_sign; eauto.
Qed.

(** a transaction signed under an EIP-155 signer of a non-zero chain is
    protected, carries that chain id, and every other field of it is the field of
    the unsigned one; its sender is recovered as the address of the signing key. *)
Theorem SignTx_Sender_eip155 tx c prv tx' :
  0 < c ->
  SignTx tx (NewEIP155Signer (Some c)) prv = Ret tx' ->
  signer_Sender (NewEIP155Signer (Some c)) tx' = Ret (key_address prv) /\
  Protected tx' = true /\ ChainID tx' = c /\
  data tx' = set_signature (data tx) (sigR (data tx')) (sigS (data tx')) (sigV (data tx')).
Proof. apply SignTx_eip155_recovers. Qed.

(** the two older signers recover the signing address as well. *)
Theorem SignTx_Sender_legacy tx sg prv tx' :
  sg = HomesteadSigner \/ sg = FrontierSigner ->
  SignTx tx sg prv = Ret tx' ->
  signer_Sender sg tx' = Ret (key_address prv) /\ Protected tx' = false.
Proof.
  intros Hsg Hsign. apply SignTx_inv in Hsign as (sig & r & s & b & Hsig & Hshape & Hr & Hs & Hb & Hval & ->).
  split.
  - destruct Hsg as [-> | ->]; unfold signer_Sender; simpl data; simpl sigR; simpl sigS; simpl sigV;
      (eapply recoverPlain_sign; eauto).
  - unfold Protected. destruct Hsg as [-> | ->]; simpl; apply isProtectedV_false; lia.
Qed.

(** replay protection: an EIP-155 signer of another chain rejects the signature. *)
Theorem SignTx_replay tx c c' prv tx' :
  0 < c -> c' <> c ->
  SignTx tx (NewEIP155Signer (Some c)) prv = Ret tx' ->
  signer_Sender (NewEIP155Signer (Some c')) tx' = Err ErrInvalidChainId.
Proof.
  intros Hc Hne Hsign. apply SignTx_inv in Hsign as (sig & r & s & b & Hsig & Hshape & Hr & Hs & Hb & Hval & ->).
  unfold NewEIP155Signer; simpl default. rewrite (proj2 (Z.eqb_neq c 0)) by lia. simpl negb. cbv iota.
  destruct (eip155_V c b Hc Hb) as [Hprot Hchain].
  unfold signer_Sender, Protected, ChainID. simpl. rewrite Hprot, Hchain.
  by rewrite (proj2 (Z.eqb_neq c c')) by lia.
Qed.

(** the signer [MakeSigner] builds (chain id 0) rejects every protected
    transaction that a signer of a non-zero chain accepts. *)
Theorem MakeSigner_rejects tx c a :
  c <> 0 -> Protected tx = true ->
  signer_Sender (NewEIP155Signer (Some c)) tx = Ret a ->
  signer_Sender MakeSigner tx = Err ErrInvalidChainId.
Proof.
  intros Hc Hp. unfold MakeSigner, NewEIP155Signer, signer_Sender; simpl default. rewrite Hp. simpl negb. cbv iota.
  destruct (Z.eqb_spec (ChainID tx) c) as [->|]; simpl negb; cbv iota; [|done].
  by rewrite (proj2 (Z.eqb_neq c 0)) by lia.
Qed.

(** C40: the gas price, the gas limit and the payload are not part of what is signed:
    replacing them leaves the recovered sender as it was, under every signer. *)
Theorem signature_ignores_gas_and_payload sg tx price gas payload :
  let d := data tx in
  let d' := mk_txdata (AccountNonce d) price gas (ShardID d) (ToShardID d) (Recipient d)
              (Amount d) payload (sigV d) (sigR d) (sigS d) (dataHash d) in
  signer_Sender sg (mk_Transaction d' (time tx)) = signer_Sender sg tx.
Proof. by destruct sg. Qed.

(** ** Caches *)

Definition wf_signer (s : Signer) : Prop :=
  match s with EIP155Signer c cMul => cMul = c * 2 | _ => True end.

Definition caches_ok (t : CTransaction) : Prop :=
  (forall h, cache_hash t = Some h -> h = tx_hash (tx_of t)) /\
  (forall n, cache_size t = Some n -> n = tx_size (tx_of t)) /\
  (forall s a, cache_from t = Some (s, a) -> wf_signer s /\ signer_Sender s (tx_of t) = Ret a).

(** One call of a caching accessor on the shared object. *)
Inductive cache_step : CTransaction -> CTransaction -> Prop :=
| step_hash t : cache_step t (snd (Transaction_Hash t))
| step_size t : cache_step t (snd (Transaction_Size t))
| step_sender t s : wf_signer s -> cache_step t (snd (Sender s t)).

Lemma signer_Equal_eq s1 s2 : wf_signer s1 -> wf_signer s2 -> signer_Equal s1 s2 = true -> s1 = s2.
Proof.
  destruct s1, s2; simpl; try done. intros -> -> ->%Z.eqb_eq. done.
Qed.

Lemma Sender_miss_ok s t :
  caches_ok t -> wf_signer s ->
  fst (Sender_miss s t) = signer_Sender s (tx_of t) /\ caches_ok (snd (Sender_miss s t)) /\
  tx_of (snd (Sender_miss s t)) = tx_of t.
Proof.
  intros (Hh & Hn & Hf) Hs. unfold Sender_miss.
  destruct (signer_Sender s (tx_of t)) eqn:E; simpl; split_and!; try done.
  unfold caches_ok; simpl. split_and!; [done|done|]. intros s0 a0 [= <- <-]. done.
Qed.

Lemma Sender_ok s t :
  caches_ok t -> wf_signer s ->
  fst (Sender s t) = signer_Sender s (tx_of t) /\ caches_ok (snd (Sender s t)) /\
  tx_of (snd (Sender s t)) = tx_of t.
Proof.
  intros Hok Hs. unfold Sender. destruct (cache_from t) as [[s0 a]|] eqn:E; [|by apply Sender_miss_ok].
  destruct (signer_Equal s0 s) eqn:Eq; [|by apply Sender_miss_ok].
  destruct (proj2 (proj2 Hok) _ _ E) as [Hs0 Ha].
  by rewrite <- (signer_Equal_eq _ _ Hs0 Hs Eq).
Qed.

Lemma cache_step_ok t t' : cache_step t t' -> caches_ok t -> caches_ok t' /\ tx_of t' = tx_of t.
Proof.
  intros Hstep Hok. destruct Hstep as [t|t|t s Hs].
  - unfold Transaction_Hash. destruct (cache_hash t) eqn:E; simpl; [done|].
    destruct Hok as (? & ? & ?). split; [|done]. unfold caches_ok; simpl. split_and!; [congruence || done..|done].
  - unfold Transaction_Size. destruct (cache_size t) eqn:E; simpl; [done|].
    destruct Hok as (? & ? & ?). split; [|done]. unfold caches_ok; simpl. split_and!; [congruence || done..|done].
  - destruct (Sender_ok s t Hok Hs) as (_ & ? & ?). done.
Qed.

Lemma cache_steps_ok t t' : rtc cache_step t t' -> caches_ok t -> caches_ok t' /\ tx_of t' = tx_of t.
Proof.
  induction 1 as [|t1 t2 t3 Hstep _ IH]; [done|]. intros Hok.
  destruct (cache_step_ok _ _ Hstep Hok) as [Hok2 <-]. auto.
Qed.

Lemma caches_ok_fresh tx : caches_ok (fresh tx).
Proof. by repeat split. Qed.

(** the caches are transparent: whatever accessors were called before and in
    whatever order, each accessor returns what the uncached computation gives. *)
Theorem caches_transparent tx t s :
  rtc cache_step (fresh tx) t -> wf_signer s ->
  fst (Transaction_Hash t) = tx_hash tx /\ fst (Transaction_Size t) = tx_size tx /\
  fst (Sender s t) = signer_Sender s tx.
Proof.
  intros Hr Hs. destruct (cache_steps_ok _ _ Hr (caches_ok_fresh tx)) as [Hok Htx].
  simpl in Htx. subst tx.
  split_and!; [| |by apply Sender_ok]; destruct Hok as (Hh & Hn & _).
  - unfold Transaction_Hash. destruct (cache_hash t) eqn:E; simpl; auto.
  - unfold Transaction_Size. destruct (cache_size t) eqn:E; simpl; auto.
Qed.

(** ** JSON round trip *)

Lemma txdata_json_roundtrip d : txdata_UnmarshalJSON (txdata_MarshalJSON d) = Ret d.
Proof. by destruct d. Qed.

(** The recovery id that [UnmarshalJSON] recomputes at 64 bits is the one the
    signature was made with, for chain ids of any size. *)
Lemma json_recovery_id_eip155 c b :
  0 < c -> b = 0 \/ b = 1 -> json_recovery_id (b + 35 + c * 2) = b.
Proof.
  intros Hc Hb. destruct (eip155_V c b Hc Hb) as [Hp Hd]. unfold json_recovery_id. rewrite Hp, Hd.
  unfold big_uint64, u64. rewrite !Z.abs_eq by lia.
  set (N := 2 ^ 64). rewrite Zminus_mod_idemp_l, Zminus_mod_idemp_r.
  rewrite (Z.mod_eq (b + 35 + c * 2) N), (Z.mod_eq c N) by done.
  replace (b + 35 + c * 2 - N * ((b + 35 + c * 2) / N) - 35 - 2 * (c - N * (c / N)))
    with (b + (2 * (c / N) - (b + 35 + c * 2) / N) * N) by lia.
  rewrite Z_mod_plus_full, (Z.mod_small b N) by (unfold N; lia). apply Z.mod_small. lia.
Qed.

Lemma json_recovery_id_legacy b : b = 0 \/ b = 1 -> json_recovery_id (b + 27) = b.
Proof. intros [-> | ->]; reflexivity. Qed.

(** a signed transaction survives marshalling to JSON and back: the decoded
    transaction has the same data, with the hash field filled in, and its
    signature passes the validation of [UnmarshalJSON]. *)
Theorem tx_json_roundtrip tx sg prv tx' now :
  match sg with EIP155Signer c cMul => 0 <= c /\ cMul = c * 2 | _ => True end ->
  SignTx tx sg prv = Ret tx' ->
  Transaction_UnmarshalJSON now (Transaction_MarshalJSON tx')
  = Ret (mk_Transaction (set_dataHash (data tx') (Some (tx_hash tx'))) now).
Proof.
  intros Hsg Hsign. unfold Transaction_UnmarshalJSON, Transaction_MarshalJSON.
  rewrite txdata_json_roundtrip. simpl.
  apply SignTx_inv in Hsign as (sig & r & s & b & Hsig & Hshape & Hr & Hs & Hb & Hval & ->). simpl.
  assert (Hid : json_recovery_id (match sg with
             | EIP155Signer c cMul => if negb (c =? 0) then b + 35 + cMul else b + 27
             | _ => b + 27 end) = b).
  { destruct sg as [c cMul| |]; [|by apply json_recovery_id_legacy..].
    destruct Hsg as [? ->]. destruct (Z.eqb_spec c 0); simpl;
      [by apply json_recovery_id_legacy|apply json_recovery_id_eip155; lia]. }
  by rewrite Hid, Hval, andb_false_r.
Qed.

(** ** Difference *)

Lemma TxDifference_remove b (m : gmap Hash unit) h :
  is_Some (foldl (fun (m : gmap Hash unit) tx => <[tx_hash tx := tt]> m) m b !! h)
  <-> is_Some (m !! h) \/ h ∈ tx_hash <$> b.
Proof.
  revert m. induction b as [|tx b IH]; intros m; simpl; [set_solver|].
  rewrite IH, elem_of_cons. destruct (decide (tx_hash tx = h)) as [<-|Hne].
  - rewrite lookup_insert_eq. naive_solver.
  - rewrite lookup_insert_ne by done. naive_solver.
Qed.

Lemma foldl_keep (P : Transaction -> bool) (f : list Transaction -> Transaction -> list Transaction) acc a :
  (forall keep tx, f keep tx = if P tx then keep else keep ++ [tx]) ->
  foldl f acc a = acc ++ List.filter (fun tx => negb (P tx)) a.
Proof.
  intros Hf. revert acc. induction a as [|tx a IH]; intros acc; simpl; [by rewrite app_nil_r|].
  rewrite IH, Hf. destruct (P tx); simpl; [done|]. by rewrite <- app_assoc.
Qed.

(** The difference keeps, in order and with their multiplicity, exactly the
    transactions of [a] whose hash no transaction of [b] has. *)
Lemma TxDifference_filter a b :
  TxDifference a b
  = List.filter (fun tx => negb (bool_decide (tx_hash tx ∈ tx_hash <$> b))) a.
Proof.
  unfold TxDifference. set (m := foldl _ ∅ b).
  assert (Hm : forall h, is_Some (m !! h) <-> h ∈ tx_hash <$> b).
  { intros h. unfold m. rewrite TxDifference_remove, lookup_empty. split; [intros [[? ?]|?]; done|auto]. }
  apply (foldl_keep (fun tx => bool_decide (tx_hash tx ∈ tx_hash <$> b)) _ []).
  intros keep tx. specialize (Hm (tx_hash tx)). case_bool_decide as Hin.
  - by destruct (proj2 Hm Hin) as [? ->].
  - destruct (m !! tx_hash tx) eqn:E; [|done]. exfalso. apply Hin, Hm. eauto.
Qed.

End Theorems.

(** ** A concrete instance

    A toy signature scheme that satisfies [SignLaws]: [R] is the key shifted by
    the hash, so recovery from another hash yields another key. *)
Definition toy_mod : Z := 2 ^ 64.

Definition toy_keccak (l : list Z) : list Z :=
  be_bytes 32 (foldl (fun acc b => (acc * 257 + b + 1) mod toy_mod) 7 l).

Definition toy_item (i : rlp_item) : list Z :=
  match i with
  | RUint n => 1 :: be_bytes 8 n
  | RAddress None => [2]
  | RAddress (Some a) => 3 :: be_bytes 20 a
  | RBig n => 4 :: be_bytes 32 n
  end.

Definition toy_encode_tx (d : txdata) : list Z :=
  be_bytes 8 (AccountNonce d) ++ be_bytes 32 (Price d) ++ be_bytes 8 (GasLimit d) ++
  be_bytes 8 (ShardID d) ++ be_bytes 8 (ToShardID d) ++ toy_item (RAddress (Recipient d)) ++
  be_bytes 32 (Amount d) ++ Payload d ++ be_bytes 32 (sigV d) ++ be_bytes 32 (sigR d) ++ be_bytes 32 (sigS d).

Definition toy_crypto : TxCrypto :=
  {| rlp_encode_tx := toy_encode_tx;
     rlp_encode_items := fun l => concat (toy_item <$> l);
     Keccak256 := toy_keccak;
     ValidateSignatureValues := fun v r s _ => (v <=? 1) && (0 <=? r) && (r <? toy_mod) && (s =? 1);
     Ecrecover := fun h sig => Some (4 :: be_bytes 64 ((be_int (take 32 sig) - h) mod toy_mod));
     PrivateKey := Z;
     crypto_Sign := fun h prv =>
       Some (be_bytes 32 ((prv + h) mod toy_mod) ++ be_bytes 32 1 ++ [0]) |}.

Lemma toy_shape (h prv : Z) sig :
  @crypto_Sign toy_crypto h prv = Some sig ->
  exists r s v, sig = be_bytes 32 r ++ be_bytes 32 s ++ [v] /\
    0 <= r < 256 ^ 32 /\ 0 <= s < 256 ^ 32 /\ (v = 0 \/ v = 1) /\
    forall homestead, @ValidateSignatureValues toy_crypto v r s homestead = true.
Proof.
  intros [= <-]. exists ((prv + h) mod toy_mod), 1, 0.
  pose proof (Z.mod_pos_bound (prv + h) toy_mod ltac:(done)).
  assert (toy_mod < 256 ^ 32) by done. split_and!; [done|lia..|by left|].
  intros homestead. simpl. lia.
Qed.

Lemma toy_recover (h prv : Z) sig :
  @crypto_Sign toy_crypto h prv = Some sig ->
  @Ecrecover toy_crypto h sig = Some (4 :: be_bytes 64 (prv mod toy_mod)).
Proof.
  intros Hs. replace sig with (be_bytes 32 ((prv + h) mod toy_mod) ++ be_bytes 32 1 ++ [0])
    by (apply (inj Some); exact Hs).
  unfold Ecrecover, toy_crypto.
  rewrite take_app_length' by (by rewrite length_be_bytes).
  pose proof (Z.mod_pos_bound (prv + h) toy_mod ltac:(done)).
  rewrite be_int_be_bytes by (assert (toy_mod < 256 ^ Z.of_nat 32) by done; lia).
  rewrite Zminus_mod_idemp_l. by replace (prv + h - h) with prv by lia.
Qed.

Definition toy_laws : @SignLaws toy_crypto :=
  {| pubkey := fun prv : @PrivateKey toy_crypto => 4 :: be_bytes 64 ((prv : Z) mod toy_mod);
     pubkey_uncompressed := fun prv => ex_intro _ _ eq_refl;
     sign_shape := toy_shape;
     sign_recover := toy_recover |}.

Definition toy_tx : Transaction :=
  NewTransaction 0 3 77 0 0 (Some 10) 21000 (Some 5) [1; 2].

Definition toy_signed (c prv : Z) : Transaction :=
  match @SignTx toy_crypto toy_tx (NewEIP155Signer (Some c)) prv with
  | Ret tx => tx
  | _ => toy_tx
  end.

Definition toy_signed_frontier (prv : Z) : Transaction :=
  match @SignTx toy_crypto toy_tx FrontierSigner prv with
  | Ret tx => tx
  | _ => toy_tx
  end.

Lemma SignTx_Sender_eip155_witness :
  @signer_Sender toy_crypto (NewEIP155Signer (Some 1)) (toy_signed 1 42)
  = Ret (@key_address toy_crypto toy_laws 42).
Proof.
  apply (@SignTx_Sender_eip155 toy_crypto toy_laws toy_tx 1 42); [lia|vm_compute; reflexivity].
Defined.

Lemma SignTx_Sender_legacy_witness :
  @signer_Sender toy_crypto FrontierSigner (toy_signed_frontier 42)
  = Ret (@key_address toy_crypto toy_laws 42).
Proof.
  apply (@SignTx_Sender_legacy toy_crypto toy_laws toy_tx FrontierSigner 42);
    [by right|vm_compute; reflexivity].
Defined.

Lemma SignTx_replay_witness :
  @signer_Sender toy_crypto (NewEIP155Signer (Some 2)) (toy_signed 1 42) = Err ErrInvalidChainId.
Proof.
  apply (@SignTx_replay toy_crypto toy_laws toy_tx 1 2 42); [lia|lia|vm_compute; reflexivity].
Defined.

Lemma MakeSigner_rejects_witness :
  @signer_Sender toy_crypto MakeSigner (toy_signed 1 42) = Err ErrInvalidChainId.
Proof.
  apply (@MakeSigner_rejects toy_crypto (toy_signed 1 42) 1 (@key_address toy_crypto toy_laws 42));
    [lia|vm_compute; reflexivity|vm_compute; reflexivity].
Defined.

Lemma caches_transparent_witness :
  let t := snd (@Sender toy_crypto (NewEIP155Signer (Some 1)) (fresh (toy_signed 1 42))) in
  fst (@Sender toy_crypto (NewEIP155Signer (Some 2)) t)
  = @signer_Sender toy_crypto (NewEIP155Signer (Some 2)) (toy_signed 1 42).
Proof.
  apply (@caches_transparent toy_crypto (toy_signed 1 42)); [|done].
  eapply rtc_l; [|apply rtc_refl]. by apply step_sender.
Defined.

Lemma tx_json_roundtrip_witness :
  @Transaction_UnmarshalJSON toy_crypto 9 (@Transaction_MarshalJSON toy_crypto (toy_signed 1 42))
  = Ret (mk_Transaction (set_dataHash (data (toy_signed 1 42))
                           (Some (@tx_hash toy_crypto (toy_signed 1 42)))) 9).
Proof.
  apply (@tx_json_roundtrip toy_crypto toy_laws toy_tx (NewEIP155Signer (Some 1)) 42);
    [done|vm_compute; reflexivity].
Defined.
