(* ===== verification/TxList.v ===== *)
(** * Nonce-sorted transaction lists

    Models [nonceHeap], [txSortedMap] and [txList] of core/tx_list.go: the map
    of one account's transactions by nonce with its heap index and its cache of
    the sorted order, and the list on top of it with price-bump replacement,
    cost and gas caps, and strict (gapless) mode.

    The abstract state of a [txSortedMap] is its finite map [items]; the heap and
    the cache are concrete representation.  The invariant [sm_wf] ties them
    together, and each operation is specified on the abstract map alone: by the
    sub-map it leaves and by the transactions it returns.

    A Go operation that indexes a slice out of range, or returns a nil
    transaction (which every caller dereferences at once), is [None]. *)
From stdpp Require Import gmap list sorting.
From Stdlib Require Import ZArith Lia.
From S2P Require Import Prelude GoHeap Transaction.

Local Open Scope Z_scope.

(** ** nonceHeap *)

(** [Less] of [nonceHeap]; Push, Pop and Swap are those of [GoHeap]. *)
Definition nonce_less (x y : Z) : bool := x <? y.

(** [sort.Sort] on a [nonceHeap] and on a [TxByNonce]: on the keys of a map the
    sorted order is unique, so any sorting algorithm gives this list. *)
Definition sort_nonces (l : list Z) : list Z := merge_sort Z.le l.

Definition tx_nonce_le (a b : Transaction) : Prop := Nonce a <= Nonce b.

#[export] Instance tx_nonce_le_dec a b : Decision (tx_nonce_le a b).
Proof. unfold tx_nonce_le. apply _. Defined.

Definition sort_txs (l : list Transaction) : list Transaction := merge_sort tx_nonce_le l.

(** ** txSortedMap *)

Record txSortedMap : Type := mk_sm {
  items : gmap Z Transaction;
  index : list Z;
  cache : option (list Transaction)
}.

Definition newTxSortedMap : txSortedMap := mk_sm ∅ [] None.

Definition sm_Get (m : txSortedMap) (nonce : Z) : option Transaction := items m !! nonce.

Definition sm_Put (m : txSortedMap) (tx : Transaction) : txSortedMap :=
  let nonce := Nonce tx in
  let index' := match items m !! nonce with
                | None => heap_push nonce_less (index m) nonce
                | Some _ => index m
                end in
  mk_sm (<[nonce := tx]> (items m)) index' None.

(** The loop of [Forward]; every turn pops the heap, so the length of the index
    is enough fuel. *)
Fixpoint forward_loop (fuel : nat) (threshold : Z) (its : gmap Z Transaction) (idx : list Z)
    (removed : list Transaction) : option (gmap Z Transaction * list Z * list Transaction) :=
  match fuel, idx with
  | S fuel', top :: _ =>
      if top <? threshold then
        '(nonce, idx') ← heap_pop nonce_less idx;
        tx ← its !! nonce;
        forward_loop fuel' threshold (delete nonce its) idx' (removed ++ [tx])
      else Some (its, idx, removed)
  | _, _ => Some (its, idx, removed)
  end.

Definition sm_Forward (m : txSortedMap) (threshold : Z) : option (list Transaction * txSortedMap) :=
  '(its, idx, removed) ← forward_loop (length (index m)) threshold (items m) (index m) [];
  cache' ← match cache m with
           | None => Some None
           | Some c => if decide (length removed <= length c)%nat
                       then Some (Some (drop (length removed) c)) else None
           end;
  Some (removed, mk_sm its idx cache').

Section WithRange.
Context `{!RangeOrder}.

Definition sm_reheap (m : txSortedMap) : txSortedMap :=
  mk_sm (items m) (heap_init nonce_less (fst <$> map_range (items m))) None.

(** The body of the range loop of [filter]. *)
Definition filter_step (f : Transaction -> bool) (acc : gmap Z Transaction * list Transaction)
    (binding : Z * Transaction) : gmap Z Transaction * list Transaction :=
  let '(its, removed) := acc in
  let '(nonce, tx) := binding in
  if f tx then (delete nonce its, removed ++ [tx]) else (its, removed).

Definition sm_filter (m : txSortedMap) (f : Transaction -> bool) : list Transaction * txSortedMap :=
  let '(its, removed) :=
    foldl (filter_step f) (items m, []) (map_range (items m)) in
  (removed, mk_sm its (index m) (if decide (0 < length removed)%nat then None else cache m)).

Definition sm_Filter (m : txSortedMap) (f : Transaction -> bool) : list Transaction * txSortedMap :=
  let '(removed, m') := sm_filter m f in
  (removed, if decide (0 < length removed)%nat then sm_reheap m' else m').

(** The loop of [Cap]: [k] counts [size - threshold] down. *)
Fixpoint cap_loop (k : nat) (threshold : nat) (its : gmap Z Transaction) (idx : list Z)
    (drops : list Transaction) : option (gmap Z Transaction * list Transaction) :=
  match k with
  | O => Some (its, drops)
  | S k' =>
      nonce ← idx !! (threshold + k')%nat;
      tx ← its !! nonce;
      cap_loop k' threshold (delete nonce its) idx (drops ++ [tx])
  end.

Definition sm_Cap (m : txSortedMap) (threshold : Z) : option (list Transaction * txSortedMap) :=
  let len := size (items m) in
  if Z.of_nat len <=? threshold then Some ([], m)
  else if threshold <? 0 then None
  else
    let t := Z.to_nat threshold in
    let idx := sort_nonces (index m) in
    '(its, drops) ← cap_loop (len - t) t (items m) idx [];
    cache' ← match cache m with
             | None => Some None
             | Some c => if decide (length drops <= length c)%nat
                         then Some (Some (take (length c - length drops) c)) else None
             end;
    Some (drops, mk_sm its (heap_init nonce_less (take t idx)) cache').

(** The scan of [Remove] for the position of the nonce in the heap. *)
Fixpoint index_of (nonce : Z) (l : list Z) : option nat :=
  match l with
  | [] => None
  | x :: l' => if x =? nonce then Some O else S <$> index_of nonce l'
  end.

Definition sm_Remove (m : txSortedMap) (nonce : Z) : option (bool * txSortedMap) :=
  match items m !! nonce with
  | None => Some (false, m)
  | Some _ =>
      idx ← match index_of nonce (index m) with
            | Some i => snd <$> heap_remove nonce_less (index m) i
            | None => Some (index m)
            end;
      Some (true, mk_sm (delete nonce (items m)) idx None)
  end.

Fixpoint ready_loop (fuel : nat) (next : Z) (its : gmap Z Transaction) (idx : list Z)
    (ready : list Transaction) : option (gmap Z Transaction * list Z * list Transaction) :=
  match fuel, idx with
  | S fuel', top :: _ =>
      if top =? next then
        tx ← its !! next;
        '(_, idx') ← heap_pop nonce_less idx;
        ready_loop fuel' (u64 (next + 1)) (delete next its) idx' (ready ++ [tx])
      else Some (its, idx, ready)
  | _, _ => Some (its, idx, ready)
  end.

Definition sm_Ready (m : txSortedMap) (start : Z) : option (list Transaction * txSortedMap) :=
  match index m with
  | [] => Some ([], m)
  | top :: _ =>
      if top >? start then Some ([], m)
      else
        '(its, idx, ready) ← ready_loop (length (index m)) top (items m) (index m) [];
        Some (ready, mk_sm its idx None)
  end.

Definition sm_Len (m : txSortedMap) : Z := Z.of_nat (size (items m)).

Definition sm_flatten (m : txSortedMap) : list Transaction * txSortedMap :=
  match cache m with
  | Some c => (c, m)
  | None => let c := sort_txs (snd <$> map_range (items m)) in
            (c, mk_sm (items m) (index m) (Some c))
  end.

(** The copy [Flatten] makes is a list with the same elements. *)
Definition sm_Flatten (m : txSortedMap) : list Transaction * txSortedMap := sm_flatten m.

Definition sm_LastElement (m : txSortedMap) : option (Transaction * txSortedMap) :=
  let '(c, m') := sm_flatten m in
  tx ← last c;
  Some (tx, m').

(** ** txList *)

Record txList : Type := mk_list {
  strict : bool;
  txs : txSortedMap;
  costcap : Z;
  gascap : Z
}.

Definition newTxList (strict : bool) : txList := mk_list strict newTxSortedMap 0 0.

Definition list_set_txs (l : txList) (m : txSortedMap) : txList :=
  mk_list (strict l) m (costcap l) (gascap l).

Definition list_Overlaps (l : txList) (tx : Transaction) : bool :=
  bool_decide (is_Some (sm_Get (txs l) (Nonce tx))).

(** The price a replacement has to reach, with Go's [int64] arithmetic. *)
Definition bump_threshold (old : Transaction) (priceBump : Z) : Z :=
  (i64 (100 + i64 priceBump) * GasPrice old) / 100.

Definition list_Add (l : txList) (tx : Transaction) (priceBump : Z)
    : (bool * option Transaction) * txList :=
  let old := sm_Get (txs l) (Nonce tx) in
  let reject := match old with
                | Some o => (GasPriceCmp o tx >=? 0) || (GasPriceIntCmp tx (bump_threshold o priceBump) <? 0)
                | None => false
                end in
  if reject then ((false, None), l)
  else
    let cost := Cost tx in
    let gas := Gas tx in
    ((true, old),
     mk_list (strict l) (sm_Put (txs l) tx)
       (if big_cmp (costcap l) cost <? 0 then cost else costcap l)
       (if gascap l <? gas then gas else gascap l)).

Definition list_Forward (l : txList) (threshold : Z) : option (list Transaction * txList) :=
  '(removed, m) ← sm_Forward (txs l) threshold;
  Some (removed, list_set_txs l m).

Definition above_limits (costLimit gasLimit : Z) (tx : Transaction) : bool :=
  (Gas tx >? gasLimit) || (big_cmp (Cost tx) costLimit >? 0).

Definition lowest_nonce (removed : list Transaction) : Z :=
  foldl (fun lowest tx => if lowest >? Nonce tx then Nonce tx else lowest) u64_max removed.

Definition list_Filter (l : txList) (costLimit gasLimit : Z)
    : (list Transaction * list Transaction) * txList :=
  if (big_cmp (costcap l) costLimit <=? 0) && (gascap l <=? gasLimit) then (([], []), l)
  else
    let '(removed, m1) := sm_Filter (txs l) (above_limits costLimit gasLimit) in
    if decide (length removed = 0)%nat then
      (([], []), mk_list (strict l) m1 costLimit gasLimit)
    else
      let '(invalids, m2) :=
        if strict l then
          let lowest := lowest_nonce removed in
          sm_filter m1 (fun tx => Nonce tx >? lowest)
        else ([], m1) in
      ((removed, invalids), mk_list (strict l) (sm_reheap m2) costLimit gasLimit).

Definition list_Cap (l : txList) (threshold : Z) : option (list Transaction * txList) :=
  '(drops, m) ← sm_Cap (txs l) threshold;
  Some (drops, list_set_txs l m).

Definition list_Remove (l : txList) (tx : Transaction) : option ((bool * list Transaction) * txList) :=
  let nonce := Nonce tx in
  '(removed, m) ← sm_Remove (txs l) nonce;
  if negb removed then Some ((false, []), list_set_txs l m)
  else if strict l then
    let '(invalids, m') := sm_Filter m (fun tx => Nonce tx >? nonce) in
    Some ((true, invalids), list_set_txs l m')
  else Some ((true, []), list_set_txs l m).

Definition list_Ready (l : txList) (start : Z) : option (list Transaction * txList) :=
  '(ready, m) ← sm_Ready (txs l) start;
  Some (ready, list_set_txs l m).

Definition list_Len (l : txList) : Z := sm_Len (txs l).
Definition list_Empty (l : txList) : bool := list_Len l =? 0.

Definition list_Flatten (l : txList) : list Transaction * txList :=
  let '(c, m) := sm_Flatten (txs l) in (c, list_set_txs l m).

Definition list_LastElement (l : txList) : option (Transaction * txList) :=
  '(tx, m) ← sm_LastElement (txs l);
  Some (tx, list_set_txs l m).

End WithRange.

(** ** Invariant and abstract vocabulary *)

(** Every transaction is filed under its own nonce, which is a [uint64]. *)
Definition keyed (its : gmap Z Transaction) : Prop :=
  forall n tx, its !! n = Some tx -> Nonce tx = n /\ is_u64 n.

(** The index is a heap that holds each key exactly once. *)
Definition index_ok (its : gmap Z Transaction) (idx : list Z) : Prop :=
  is_heap nonce_less idx /\ NoDup idx /\ forall n, n ∈ idx <-> is_Some (its !! n).

(** [l] lists the transactions of [its] by strictly increasing nonce. *)
Definition sorted_of (its : gmap Z Transaction) (l : list Transaction) : Prop :=
  StronglySorted (fun a b => Nonce a < Nonce b) l /\
  forall tx, tx ∈ l <-> its !! Nonce tx = Some tx.

Definition sm_wf (m : txSortedMap) : Prop :=
  keyed (items m) /\ index_ok (items m) (index m) /\
  forall c, cache m = Some c -> sorted_of (items m) c.

(** The sub-maps the operations are specified with. *)
Definition below (t : Z) (its : gmap Z Transaction) : gmap Z Transaction :=
  filter (fun p => p.1 < t) its.
Definition from (t : Z) (its : gmap Z Transaction) : gmap Z Transaction :=
  filter (fun p => t <= p.1) its.
Definition satisfying (f : Transaction -> bool) (its : gmap Z Transaction) : gmap Z Transaction :=
  filter (fun p => f p.2 = true) its.

#[export] Instance nonce_less_weak : StrictWeak nonce_less.
Proof.
  split; unfold nonce_less; intros *; rewrite ?Z.ltb_lt, ?Z.ltb_ge; lia.
Qed.

(** ** Sub-maps *)

Lemma lookup_below t its n : below t its !! n = if decide (n < t) then its !! n else None.
Proof.
  unfold below. rewrite map_lookup_filter. destruct (its !! n) eqn:E; simpl; [|by destruct (decide _)].
  repeat case_guard || case_decide; simpl in *; done || lia.
Qed.

Lemma lookup_from t its n : from t its !! n = if decide (t <= n) then its !! n else None.
Proof.
  unfold from. rewrite map_lookup_filter. destruct (its !! n) eqn:E; simpl; [|by destruct (decide _)].
  repeat case_guard || case_decide; simpl in *; done || lia.
Qed.

Lemma lookup_satisfying f its n tx :
  satisfying f its !! n = Some tx <-> its !! n = Some tx /\ f tx = true.
Proof. unfold satisfying. by rewrite map_lookup_filter_Some. Qed.

Lemma keyed_sub its its' : keyed its -> its' ⊆ its -> keyed its'.
Proof. intros Hk Hsub n tx Hn. apply Hk. by eapply lookup_weaken. Qed.

Lemma below_sub t its : below t its ⊆ its.
Proof. apply map_filter_subseteq. Qed.

Lemma from_sub t its : from t its ⊆ its.
Proof. apply map_filter_subseteq. Qed.

Lemma satisfying_sub f its : satisfying f its ⊆ its.
Proof. apply map_filter_subseteq. Qed.

Lemma keyed_insert its tx : keyed its -> is_u64 (Nonce tx) -> keyed (<[Nonce tx := tx]> its).
Proof.
  intros Hk Hu n tx'. destruct (decide (n = Nonce tx)) as [->|Hne].
  - rewrite lookup_insert_eq. by intros [= ->].
  - rewrite lookup_insert_ne by done. apply Hk.
Qed.

(** ** Sorted listings *)

Lemma sorted_of_nodup its l : sorted_of its l -> NoDup l.
Proof.
  intros [Hs _]. induction Hs as [|a l _ IH Hall]; constructor; [|done].
  intros Hin. rewrite Forall_forall in Hall. specialize (Hall a Hin). lia.
Qed.

Lemma sorted_of_unique its l1 l2 : sorted_of its l1 -> sorted_of its l2 -> l1 = l2.
Proof.
  intros H1 H2. pose proof H1 as [Hs1 He1]. pose proof H2 as [Hs2 He2].
  apply (StronglySorted_unique_strong (fun a b => Nonce a < Nonce b)); [|done|done|].
  - intros x1 x2 _ _ ? ?. lia.
  - apply NoDup_Permutation; [by eapply sorted_of_nodup..|]. intros x. by rewrite He1, He2.
Qed.

Lemma sorted_of_elem its l tx : sorted_of its l -> tx ∈ l -> its !! Nonce tx = Some tx.
Proof. intros [_ He]. apply He. Qed.

Lemma sorted_of_empty its : (forall n, its !! n = None) -> sorted_of its [].
Proof.
  intros He. split; [constructor|]. intros tx. rewrite He. split; [by intros ?%elem_of_nil|done].
Qed.

Lemma sorted_of_nil_inv its n : sorted_of its [] -> keyed its -> its !! n = None.
Proof.
  intros [_ He] Hk. destruct (its !! n) as [tx|] eqn:E; [|done].
  destruct (Hk _ _ E) as [<- _]. apply He in E. by apply elem_of_nil in E.
Qed.

Lemma sorted_of_app its l1 l2 t :
  sorted_of (below t its) l1 -> sorted_of (from t its) l2 -> sorted_of its (l1 ++ l2).
Proof.
  intros [Hs1 He1] [Hs2 He2].
  assert (Hl1 : forall tx, tx ∈ l1 -> Nonce tx < t).
  { intros tx Hin%He1. rewrite lookup_below in Hin. by case_decide. }
  assert (Hl2 : forall tx, tx ∈ l2 -> t <= Nonce tx).
  { intros tx Hin%He2. rewrite lookup_from in Hin. by case_decide. }
  split.
  - apply StronglySorted_app_2; [|done|done]. intros x y Hx%Hl1 Hy%Hl2. lia.
  - intros tx. rewrite elem_of_app, He1, He2, lookup_below, lookup_from.
    destruct (decide (Nonce tx < t)), (decide (t <= Nonce tx)); try lia; naive_solver.
Qed.

Lemma StronglySorted_lt_le l :
  StronglySorted tx_nonce_le l -> NoDup (Nonce <$> l) ->
  StronglySorted (fun a b => Nonce a < Nonce b) l.
Proof.
  induction 1 as [|a l _ IH Hall]; [constructor|]. csimpl. intros [Hni Hnd]%NoDup_cons.
  constructor; [auto|]. rewrite Forall_forall in *. intros b Hb.
  specialize (Hall b Hb). unfold tx_nonce_le in Hall.
  assert (Nonce a <> Nonce b) by (intros Heq; apply Hni; rewrite Heq; by apply list_elem_of_fmap_2). lia.
Qed.

Lemma fmap_keys_nonces its :
  keyed its -> Nonce <$> (map_to_list its).*2 = (map_to_list its).*1.
Proof.
  intros Hk. rewrite <- list_fmap_compose. apply list_fmap_ext. intros i [n tx] Hi.
  simpl. by destruct (Hk n tx) as [-> _]; [apply elem_of_map_to_list, list_elem_of_lookup; eauto|].
Qed.

(** [sort.Sort(TxByNonce)] on the values of a keyed map. *)
Lemma sort_txs_sorted_of its l :
  keyed its -> l ≡ₚ (map_to_list its).*2 -> sorted_of its (sort_txs l).
Proof.
  intros Hk Hl. unfold sort_txs. split.
  - apply StronglySorted_lt_le.
    + apply StronglySorted_merge_sort; [intros ???; unfold tx_nonce_le; lia|].
      intros a b. unfold tx_nonce_le. lia.
    + rewrite merge_sort_Permutation, Hl, fmap_keys_nonces by done. apply NoDup_fst_map_to_list.
  - intros tx. rewrite merge_sort_Permutation, Hl, list_elem_of_fmap. split.
    + intros ([n tx'] & -> & Hin%elem_of_map_to_list). simpl. by destruct (Hk _ _ Hin) as [-> _].
    + intros Hin. exists (Nonce tx, tx). split; [done|]. by apply elem_of_map_to_list.
Qed.

Lemma sorted_of_exists its : keyed its -> exists l, sorted_of its l.
Proof. intros Hk. eexists. by apply (sort_txs_sorted_of its (map_to_list its).*2). Qed.

(** Splitting a sorted listing at a nonce. *)
Lemma sorted_of_split its t c r :
  keyed its -> sorted_of its c -> sorted_of (below t its) r ->
  (length r <= length c)%nat /\ sorted_of (from t its) (drop (length r) c).
Proof.
  intros Hk Hc Hr.
  destruct (sorted_of_exists (from t its)) as [h Hh]; [by eapply keyed_sub, from_sub|].
  rewrite (sorted_of_unique its c (r ++ h)); [|done|by eapply sorted_of_app].
  rewrite drop_app_length, length_app. split; [lia|done].
Qed.

(** ** The heap index *)

Lemma index_ok_empty : index_ok ∅ [].
Proof.
  split_and!; [apply is_heap_nil|constructor|]. intros n. rewrite lookup_empty.
  split; [by intros ?%elem_of_nil|by intros ?%is_Some_None].
Qed.

Lemma index_ok_nil its n : index_ok its [] -> its !! n = None.
Proof.
  intros (_ & _ & He). apply eq_None_not_Some. intros Hs%He. by apply elem_of_nil in Hs.
Qed.

Lemma index_ok_perm its idx idx' :
  index_ok its idx -> idx' ≡ₚ idx -> is_heap nonce_less idx' -> index_ok its idx'.
Proof. intros (_ & Hnd & He) Hp Hh. split_and!; [done|by rewrite Hp|]. intros n. by rewrite Hp. Qed.

Lemma index_ok_keys its idx : index_ok its idx -> idx ≡ₚ (map_to_list its).*1.
Proof.
  intros (_ & Hnd & He). apply NoDup_Permutation; [done|apply NoDup_fst_map_to_list|].
  intros n. rewrite He, list_elem_of_fmap. split.
  - intros [tx Htx]. exists (n, tx). by rewrite elem_of_map_to_list.
  - intros ([n' tx] & -> & Hin%elem_of_map_to_list). eauto.
Qed.

Lemma index_ok_length its idx : index_ok its idx -> length idx = size its.
Proof.
  intros Hi%index_ok_keys. rewrite (length_perm _ _ Hi), length_fmap. apply length_map_to_list.
Qed.

Lemma index_ok_init its l :
  NoDup l -> (forall n, n ∈ l <-> is_Some (its !! n)) -> index_ok its (heap_init nonce_less l).
Proof.
  intros Hnd He. destruct (heap_init_spec nonce_less l) as [Hh Hp].
  split_and!; [done|by rewrite Hp|]. intros n. by rewrite Hp.
Qed.

Lemma index_ok_push its idx n tx :
  index_ok its idx -> its !! n = None -> index_ok (<[n := tx]> its) (heap_push nonce_less idx n).
Proof.
  intros (Hh & Hnd & He) Hn. destruct (heap_push_spec nonce_less idx n Hh) as [Hh' Hp].
  split_and!; [done| |].
  - rewrite Hp. constructor; [|done]. rewrite He, Hn. apply is_Some_None.
  - intros k. rewrite Hp, elem_of_cons, He. destruct (decide (k = n)) as [->|Hne].
    + rewrite lookup_insert_eq. naive_solver.
    + rewrite lookup_insert_ne by done. naive_solver.
Qed.

(** Overwriting a key keeps the index. *)
Lemma index_ok_overwrite its idx n tx :
  index_ok its idx -> is_Some (its !! n) -> index_ok (<[n := tx]> its) idx.
Proof.
  intros (Hh & Hnd & He) Hn. split_and!; [done|done|]. intros k. rewrite He.
  destruct (decide (k = n)) as [->|Hne]; [rewrite lookup_insert_eq|rewrite lookup_insert_ne by done]; naive_solver.
Qed.

Lemma index_ok_delete its idx idx' n :
  index_ok its idx -> idx ≡ₚ n :: idx' -> is_heap nonce_less idx' -> index_ok (delete n its) idx'.
Proof.
  intros (_ & Hnd & He) Hp Hh. rewrite Hp in Hnd. apply NoDup_cons in Hnd as [Hni Hnd].
  split_and!; [done|done|]. intros k. rewrite lookup_delete_is_Some, <- He, Hp, elem_of_cons.
  split; [intros Hk; split; [by intros ->|by right]|naive_solver].
Qed.

(** Popping the index removes the smallest nonce of the map. *)
Lemma index_ok_pop its top rest :
  index_ok its (top :: rest) ->
  exists idx', heap_pop nonce_less (top :: rest) = Some (top, idx') /\
    index_ok (delete top its) idx' /\ length idx' = length rest /\
    is_Some (its !! top) /\ forall n, is_Some (its !! n) -> top <= n.
Proof.
  intros Hi. destruct Hi as (Hh & Hnd & He) eqn:E. clear E.
  destruct (heap_pop_spec nonce_less (top :: rest) top Hh eq_refl) as (idx' & Hpop & Hh' & Hp).
  exists idx'. split_and!; [done|by eapply index_ok_delete| | |].
  - apply length_perm in Hp. simpl in Hp. lia.
  - apply He. left.
  - intros n Hn%He. pose proof (heap_root_min nonce_less _ top n Hh eq_refl Hn) as Hlt.
    unfold nonce_less in Hlt. apply Z.ltb_ge in Hlt. lia.
Qed.

Lemma index_of_Some n l : n ∈ l -> exists i, index_of n l = Some i /\ l !! i = Some n.
Proof.
  induction l as [|x l IH]; [by intros ?%elem_of_nil|]. intros Hin. simpl.
  destruct (Z.eqb_spec x n) as [->|Hne]; [by exists 0%nat|].
  apply elem_of_cons in Hin as [->|Hin]; [done|]. destruct (IH Hin) as (i & -> & Hi). by exists (S i).
Qed.

(** ** The operations of [txSortedMap] *)

Lemma sm_wf_intro its idx c :
  keyed its -> index_ok its idx -> (forall l, c = Some l -> sorted_of its l) -> sm_wf (mk_sm its idx c).
Proof. intros. by split_and!. Qed.

Lemma newTxSortedMap_wf : sm_wf newTxSortedMap.
Proof. split_and!; [done|apply index_ok_empty|done]. Qed.

Lemma sm_Put_spec m tx :
  sm_wf m -> is_u64 (Nonce tx) ->
  sm_wf (sm_Put m tx) /\ items (sm_Put m tx) = <[Nonce tx := tx]> (items m).
Proof.
  intros (Hk & Hi & Hc) Hu. split; [|done]. split_and!; simpl; [by apply keyed_insert| |done].
  destruct (items m !! Nonce tx) eqn:E; [by apply index_ok_overwrite|by apply index_ok_push].
Qed.

Lemma sorted_of_cons its n tx l :
  keyed its -> its !! n = Some tx -> (forall k, is_Some (its !! k) -> n <= k) ->
  sorted_of (delete n its) l -> sorted_of its (tx :: l).
Proof.
  intros Hk Hn Hmin [Hs He]. destruct (Hk _ _ Hn) as [<- _]. split.
  - constructor; [done|]. apply Forall_forall. intros b Hb%He.
    apply lookup_delete_Some in Hb as [Hne Hb]. specialize (Hmin (Nonce b)). rewrite Hb in Hmin.
    specialize (Hmin ltac:(eauto)). lia.
  - intros tx'. rewrite elem_of_cons, He, lookup_delete_Some. split; [naive_solver congruence|].
    intros Htx'. destruct (decide (Nonce tx = Nonce tx')) as [Heq|]; [left; congruence|auto].
Qed.

Lemma below_delete t its n : below t (delete n its) = delete n (below t its).
Proof. apply map_filter_delete. Qed.

Lemma from_delete_below t its n : n < t -> from t (delete n its) = from t its.
Proof.
  intros Hlt. apply map_eq. intros k. rewrite !lookup_from. case_decide; [|done].
  apply lookup_delete_ne. lia.
Qed.

Lemma from_all t its : (forall n, is_Some (its !! n) -> t <= n) -> from t its = its.
Proof.
  intros Hmin. apply map_eq. intros n. rewrite lookup_from. case_decide; [done|].
  symmetry. apply eq_None_not_Some. intros Hs%Hmin. lia.
Qed.

Lemma sorted_of_below_none t its :
  (forall n, is_Some (its !! n) -> t <= n) -> sorted_of (below t its) [].
Proof.
  intros Hmin. apply sorted_of_empty. intros n. rewrite lookup_below.
  case_decide; [|done]. apply eq_None_not_Some. intros Hs%Hmin. lia.
Qed.

Lemma forward_loop_spec t : forall fuel its idx removed,
  keyed its -> index_ok its idx -> (length idx <= fuel)%nat ->
  exists idx' r, forward_loop fuel t its idx removed = Some (from t its, idx', removed ++ r) /\
    index_ok (from t its) idx' /\ sorted_of (below t its) r.
Proof.
  assert (Hstop : forall its idx removed, index_ok its idx ->
    (forall n, is_Some (its !! n) -> t <= n) ->
    exists idx' r, Some (its, idx, removed) = Some (from t its, idx', removed ++ r) /\
      index_ok (from t its) idx' /\ sorted_of (below t its) r).
  { intros its idx removed Hi Hmin. exists idx, []. rewrite app_nil_r, from_all by done.
    split_and!; [done|done|by apply sorted_of_below_none]. }
  induction fuel as [|fuel IH]; intros its [|top rest] removed Hk Hi Hlen.
  1, 3: apply Hstop; [done|]; intros n; rewrite index_ok_nil by done; by intros ?%is_Some_None.
  { simpl in Hlen. lia. }
  destruct (index_ok_pop _ _ _ Hi) as (idx' & Hpop & Hi' & Hl' & [tx Htx] & Hmin).
  simpl forward_loop. destruct (Z.ltb_spec top t) as [Hlt|Hge].
  - rewrite Hpop. simpl. rewrite Htx. simpl.
    destruct (IH (delete top its) idx' (removed ++ [tx])) as (idx2 & r & -> & Hi2 & Hr);
      [eapply keyed_sub; [done|apply delete_subseteq]|done|simpl in Hlen; lia|].
    exists idx2, (tx :: r). rewrite from_delete_below in * by done. rewrite <- app_assoc.
    split_and!; [done|done|].
    eapply (sorted_of_cons _ top); [by eapply keyed_sub, below_sub| | |by rewrite <- below_delete].
    + rewrite lookup_below. by rewrite decide_True.
    + intros k Hsome. rewrite lookup_below in Hsome. case_decide; [auto|by apply is_Some_None in Hsome].
  - apply Hstop; [done|]. intros n Hn%Hmin. lia.
Qed.

Lemma sm_Forward_spec m t :
  sm_wf m ->
  exists removed m', sm_Forward m t = Some (removed, m') /\ sm_wf m' /\
    items m' = from t (items m) /\ sorted_of (below t (items m)) removed.
Proof.
  intros (Hk & Hi & Hc). unfold sm_Forward.
  destruct (forward_loop_spec t (length (index m)) (items m) (index m) [] Hk Hi ltac:(lia))
    as (idx' & r & -> & Hi' & Hr). simpl.
  destruct (cache m) as [c|] eqn:E.
  - destruct (sorted_of_split _ t c r Hk (Hc c eq_refl) Hr) as [Hle Hd].
    rewrite decide_True by done. simpl. eexists _, _. split_and!; [done| |done|done].
    apply sm_wf_intro; [by eapply keyed_sub, from_sub|done|by intros c' [= <-]].
  - simpl. eexists _, _. split_and!; [done| |done|done].
    apply sm_wf_intro; [by eapply keyed_sub, from_sub|done|done].
Qed.

Section FilterSpecs.
Context `{!RangeOrder}.

Lemma map_range_keys (its : gmap Z Transaction) n :
  n ∈ fst <$> map_range its <-> is_Some (its !! n).
Proof.
  rewrite map_range_perm, list_elem_of_fmap. split.
  - intros ([n' tx] & -> & Hin%elem_of_map_to_list). eauto.
  - intros [tx Htx]. exists (n, tx). by rewrite elem_of_map_to_list.
Qed.

Lemma sm_reheap_wf m : keyed (items m) -> sm_wf (sm_reheap m).
Proof.
  intros Hk. apply sm_wf_intro; [done| |done]. apply index_ok_init; [|apply map_range_keys].
  rewrite map_range_perm. apply NoDup_fst_map_to_list.
Qed.

(** The fold of [filter] over any duplicate-free enumeration of bindings. *)
Lemma filter_fold_spec f : forall (l : list (Z * Transaction)) its removed,
  NoDup l.*1 -> (forall n tx, (n, tx) ∈ l -> its !! n = Some tx) ->
  foldl (filter_step f) (its, removed) l
  = (filter (fun p => p ∉ l \/ f p.2 = false) its,
     removed ++ (filter (fun p => f p.2 = true) l).*2).
Proof.
  induction l as [|[n tx] l IH]; intros its removed Hnd Hl.
  - simpl. rewrite app_nil_r. f_equal. symmetry. apply map_filter_id. intros ? ? _. left. apply not_elem_of_nil.
  - csimpl in Hnd. apply NoDup_cons in Hnd as [Hni Hnd]. simpl foldl.
    assert (Hlt : its !! n = Some tx) by (apply Hl; left).
    destruct (f tx) eqn:Hf.
    + rewrite filter_cons_True by done. rewrite IH; [|done|].
      2:{ intros k tx' Hin. rewrite lookup_delete_ne; [apply Hl; by right|].
          intros ->. apply Hni. by apply (list_elem_of_fmap_2 fst _ (k, tx')). }
      rewrite <- app_assoc. f_equal. apply map_eq. intros k. apply option_eq. intros tx'.
      rewrite !map_lookup_filter_Some, lookup_delete_Some, not_elem_of_cons. simpl.
      split; [naive_solver congruence|]. intros [Hk [[Hne ?]|Hf']]; [naive_solver congruence|].
      split; [|by right]. split; [|done]. intros ->. congruence.
    + rewrite filter_cons_False by (simpl; congruence).
      rewrite IH; [|done|]. 2:{ intros k tx' Hin. apply Hl. by right. }
      f_equal. apply map_eq. intros k. apply option_eq. intros tx'.
      rewrite !map_lookup_filter_Some, not_elem_of_cons. simpl.
      split; intros [Hk [Hor|Hf']]; split; auto; [|naive_solver].
      destruct (decide (k = n)) as [->|]; [right; congruence|left; naive_solver congruence].
Qed.

Lemma sm_filter_spec m f removed m' :
  sm_filter m f = (removed, m') ->
  items m' = satisfying (fun tx => negb (f tx)) (items m) /\
  removed ≡ₚ (map_to_list (satisfying f (items m))).*2 /\
  index m' = index m /\ cache m' = (if decide (0 < length removed)%nat then None else cache m).
Proof.
  unfold sm_filter. rewrite filter_fold_spec.
  - intros [= <- <-]. simpl. split_and!; [| |done|done].
    + apply map_filter_ext. intros n tx Hn. simpl. rewrite negb_true_iff. split; [|auto].
      intros [Hni|]; [|done]. exfalso. apply Hni. by rewrite map_range_perm, elem_of_map_to_list.
    + apply fmap_Permutation. unfold satisfying. by rewrite map_to_list_filter_perm, map_range_perm.
  - rewrite map_range_perm. apply NoDup_fst_map_to_list.
  - intros n tx. by rewrite map_range_perm, elem_of_map_to_list.
Qed.

Lemma satisfying_none f its :
  (map_to_list (satisfying f its)).*2 ≡ₚ [] -> satisfying (fun tx => negb (f tx)) its = its.
Proof.
  intros Hnil%Permutation_nil_r. apply map_filter_id. intros n tx Hn. simpl. apply negb_true_iff.
  destruct (f tx) eqn:E; [|done]. exfalso.
  assert (Hin : (n, tx) ∈ map_to_list (satisfying f its)) by by apply elem_of_map_to_list, lookup_satisfying.
  apply (list_elem_of_fmap_2 snd) in Hin. rewrite Hnil in Hin. by apply elem_of_nil in Hin.
Qed.

(** [Filter] removes exactly the transactions satisfying the predicate. *)
Lemma sm_Filter_spec m f removed m' :
  sm_wf m -> sm_Filter m f = (removed, m') ->
  sm_wf m' /\ items m' = satisfying (fun tx => negb (f tx)) (items m) /\
  removed ≡ₚ (map_to_list (satisfying f (items m))).*2.
Proof.
  intros Hwf. unfold sm_Filter. destruct (sm_filter m f) as [r m1] eqn:E. intros [= <- <-].
  destruct (sm_filter_spec _ _ _ _ E) as (Hit & Hr & Hidx & Hcache).
  assert (Hk : keyed (items m1)) by (rewrite Hit; eapply keyed_sub; [apply Hwf|apply satisfying_sub]).
  case_decide as Hlen; [split_and!; [by apply sm_reheap_wf|done|done]|].
  split_and!; [|done|done]. destruct r; [|simpl in Hlen; lia].
  rewrite satisfying_none in Hit by done. destruct Hwf as (_ & Hi & Hc).
  split_and!; [done|by rewrite Hit, Hidx|by rewrite Hit, Hcache].
Qed.

End FilterSpecs.

(** ** Cap *)

Lemma sort_nonces_sorted its idx c :
  index_ok its idx -> keyed its -> sorted_of its c -> sort_nonces idx = Nonce <$> c.
Proof.
  intros Hi Hk Hc. apply (StronglySorted_unique Z.le).
  - apply StronglySorted_merge_sort; [apply _|]. intros a b. lia.
  - apply (StronglySorted_fmap _ (fun a b => Nonce a < Nonce b)); [|apply Hc]. lia.
  - unfold sort_nonces. rewrite merge_sort_Permutation.
    assert (Hss : forall l, StronglySorted (fun a b => Nonce a < Nonce b) l -> NoDup (Nonce <$> l)).
    { induction 1 as [|a l _ IH Hall]; csimpl; constructor; [|done].
      rewrite list_elem_of_fmap. intros (b & Heq & Hb). rewrite Forall_forall in Hall.
      specialize (Hall b Hb). lia. }
    apply NoDup_Permutation; [apply Hi|apply Hss, Hc|]. intros n.
    destruct Hi as (_ & _ & He). rewrite He, list_elem_of_fmap. split.
    + intros [tx Htx]. destruct (Hk _ _ Htx) as [<- _]. exists tx. split; [done|]. by apply Hc.
    + intros (tx & -> & Htx). apply Hc in Htx. eauto.
Qed.

Lemma sorted_of_snoc_delete its l tx :
  sorted_of its (l ++ [tx]) -> sorted_of (delete (Nonce tx) its) l.
Proof.
  intros [Hs He]. apply StronglySorted_app in Hs as (Hlt & Hl & _). split; [done|].
  intros tx'. rewrite lookup_delete_Some, <- He, elem_of_app, list_elem_of_singleton. split.
  - intros Hin. split; [|by left]. specialize (Hlt tx' tx Hin ltac:(left)). lia.
  - intros [Hne [?| ->]]; done.
Qed.

Lemma cap_loop_spec c t : forall k its drops,
  sorted_of its (take (t + k) c) -> (t + k <= length c)%nat ->
  exists its', cap_loop k t its (Nonce <$> c) drops = Some (its', drops ++ rev (drop t (take (t + k) c))) /\
    sorted_of its' (take t c) /\ its' ⊆ its.
Proof.
  induction k as [|k IH]; intros its drops Hs Hle.
  - exists its. rewrite Nat.add_0_r in *. rewrite drop_ge by (rewrite length_take; lia).
    simpl. by rewrite app_nil_r.
  - destruct (lookup_lt_is_Some_2 c (t + k)) as [tx Htx]; [lia|].
    rewrite Nat.add_succ_r, (take_S_r _ _ tx Htx) in *.
    simpl. rewrite list_lookup_fmap, Htx. simpl.
    rewrite (sorted_of_elem _ _ tx Hs) by (apply elem_of_app; right; left). simpl.
    destruct (IH (delete (Nonce tx) its) (drops ++ [tx])) as (its' & -> & Hs' & Hsub);
      [by apply sorted_of_snoc_delete|lia|].
    exists its'. split_and!; [|done|by etrans; [|apply delete_subseteq]].
    rewrite drop_app_le by (rewrite length_take; lia). by rewrite rev_app_distr, <- app_assoc.
Qed.

Lemma sorted_of_length its c idx :
  sorted_of its c -> keyed its -> index_ok its idx -> length c = size its.
Proof.
  intros Hc Hk Hi. rewrite <- (length_fmap Nonce), <- (sort_nonces_sorted its idx c Hi Hk Hc).
  rewrite <- (index_ok_length its idx Hi). apply length_perm, merge_sort_Permutation.
Qed.

(** [Cap] keeps the [threshold] lowest nonces and returns the others from the
    highest down. *)
Lemma sm_Cap_spec m t c :
  sm_wf m -> 0 <= t -> sorted_of (items m) c ->
  exists m', sm_Cap m t = Some (rev (drop (Z.to_nat t) c), m') /\ sm_wf m' /\
    sorted_of (items m') (take (Z.to_nat t) c) /\ items m' ⊆ items m.
Proof.
  intros (Hk & Hi & Hc) Ht Hsort. unfold sm_Cap.
  pose proof (sorted_of_length _ _ _ Hsort Hk Hi) as Hlen.
  destruct (Z.leb_spec (Z.of_nat (size (items m))) t) as [Hle|Hgt].
  { exists m. rewrite drop_ge, take_ge by lia. done. }
  rewrite (proj2 (Z.ltb_ge t 0)) by lia. rewrite (sort_nonces_sorted _ _ c Hi Hk Hsort).
  assert (Hall : (Z.to_nat t + (size (items m) - Z.to_nat t))%nat = length c) by lia.
  destruct (cap_loop_spec c (Z.to_nat t) (size (items m) - Z.to_nat t) (items m) []) as (its' & -> & Hs' & Hsub);
    [by rewrite Hall, take_ge by lia|lia|].
  rewrite Hall, (take_ge c (length c)) by lia. simpl.
  assert (Hk' : keyed its') by by eapply keyed_sub.
  assert (Hi' : index_ok its' (heap_init nonce_less (take (Z.to_nat t) (Nonce <$> c)))).
  { rewrite <- fmap_take. apply index_ok_init.
    - rewrite fmap_take. eapply sublist_NoDup; [|apply sublist_take].
      rewrite <- (sort_nonces_sorted _ _ c Hi Hk Hsort). unfold sort_nonces.
      rewrite merge_sort_Permutation. apply Hi.
    - intros n. rewrite list_elem_of_fmap. split.
      + intros (tx & -> & Htx%Hs'). eauto.
      + intros [tx Htx]. destruct (Hk' _ _ Htx) as [<- _]. exists tx. split; [done|]. by apply Hs'. }
  destruct (cache m) as [c'|] eqn:Ec; simpl.
  - rewrite (sorted_of_unique _ c' c (Hc _ eq_refl) Hsort).
    rewrite decide_True by (rewrite length_rev, length_drop; lia). simpl.
    eexists. split_and!; [done| |done|done]. apply sm_wf_intro; [done|done|].
    intros l [= <-]. rewrite length_rev, length_drop.
    by replace (length c - (length c - Z.to_nat t))%nat with (Z.to_nat t) by lia.
  - eexists. split_and!; [done| |done|done]. by apply sm_wf_intro.
Qed.

(** ** Remove *)

Lemma sm_Remove_spec m n :
  sm_wf m ->
  exists m', sm_Remove m n = Some (bool_decide (is_Some (items m !! n)), m') /\ sm_wf m' /\
    items m' = delete n (items m).
Proof.
  intros (Hk & Hi & Hc). unfold sm_Remove. destruct (items m !! n) as [tx|] eqn:E.
  - rewrite bool_decide_true by eauto.
    destruct (index_of_Some n (index m)) as (i & -> & Hlook); [apply Hi; eauto|].
    destruct (heap_remove_spec nonce_less (index m) i n) as (idx' & -> & Hh & Hp); [apply Hi|done|].
    simpl. eexists. split_and!; [done| |done]. apply sm_wf_intro; [|by eapply index_ok_delete|done].
    eapply keyed_sub; [done|apply delete_subseteq].
  - rewrite bool_decide_false by (by intros ?%is_Some_None). exists m.
    rewrite delete_id by done. by split_and!.
Qed.

(** ** Ready *)

(** Once the smallest key has been removed, what is left starts above it. *)
Lemma delete_min_above (its : gmap Z Transaction) top n :
  (forall k, is_Some (its !! k) -> top <= k) -> is_Some (delete top its !! n) -> top + 1 <= n.
Proof. intros Hmin [Hne Hn]%lookup_delete_is_Some. specialize (Hmin n Hn). lia. Qed.

Lemma ready_loop_spec : forall fuel next its idx acc,
  keyed its -> index_ok its idx -> (length idx <= fuel)%nat ->
  (forall n, is_Some (its !! n) -> next <= n) -> is_u64 next \/ idx = [] ->
  exists r idx', let stop := next + Z.of_nat (length r) in
    ready_loop fuel (u64 next) its idx acc = Some (from stop its, idx', acc ++ r) /\
    index_ok (from stop its) idx' /\ sorted_of (below stop its) r /\
    Nonce <$> r = seqZ next (Z.of_nat (length r)) /\ its !! stop = None.
Proof.
  assert (Hstop : forall next its idx acc, index_ok its idx ->
    (forall n, is_Some (its !! n) -> next <= n) -> its !! next = None ->
    exists r idx', let stop := next + Z.of_nat (length r) in
      Some (its, idx, acc) = Some (from stop its, idx', acc ++ r) /\
      index_ok (from stop its) idx' /\ sorted_of (below stop its) r /\
      Nonce <$> r = seqZ next (Z.of_nat (length r)) /\ its !! stop = None).
  { intros next its idx acc Hi Hmin Hnone. exists [], idx. simpl. rewrite Z.add_0_r, app_nil_r, from_all by done.
    split_and!; [done|done|by apply sorted_of_below_none|done|done]. }
  induction fuel as [|fuel IH]; intros next its [|top rest] acc Hk Hi Hlen Hmin Hu.
  1, 3: apply Hstop; [done|done|by apply index_ok_nil].
  { simpl in Hlen. lia. }
  destruct Hu as [Hu|]; [|done]. rewrite (u64_small next Hu).
  destruct (index_ok_pop _ _ _ Hi) as (idx' & Hpop & Hi' & Hl' & [tx Htx] & Htop).
  cbn [ready_loop]. destruct (Z.eqb_spec top next) as [->|Hne].
  - rewrite Htx. simpl. rewrite Hpop. simpl.
    assert (Hk' : keyed (delete next its)) by (eapply keyed_sub; [done|apply delete_subseteq]).
    destruct (IH (next + 1) (delete next its) idx' (acc ++ [tx])) as (r & idx2 & -> & Hi2 & Hr & Hseq & Hnone);
      [done|done|simpl in Hlen; lia|intros n; by apply delete_min_above| |].
    { destruct idx' as [|k idx']; [by right|]. left.
      assert (Hsome : is_Some (delete next its !! k)) by (apply Hi'; left).
      pose proof (delete_min_above _ _ _ Htop Hsome). destruct Hsome as [tx' Htx'].
      destruct (Hk' _ _ Htx') as [_ Hku]. unfold is_u64 in *. lia. }
    destruct (Hk _ _ Htx) as [Hnonce _].
    assert (Hst : next + 1 + Z.of_nat (length r) = next + Z.of_nat (length (tx :: r))) by (simpl; lia).
    rewrite Hst in *. rewrite from_delete_below in * by (simpl; lia).
    exists (tx :: r), idx2. split_and!; [by rewrite <- app_assoc|done| | |].
    + eapply (sorted_of_cons _ next); [by eapply keyed_sub, below_sub| | |by rewrite <- below_delete].
      * rewrite lookup_below. by rewrite decide_True by (simpl; lia).
      * intros k Hsome. rewrite lookup_below in Hsome. case_decide; [auto|by apply is_Some_None in Hsome].
    + csimpl. rewrite Hseq, Hnonce, (seqZ_cons next) by lia. f_equal.
      f_equal; lia.
    + rewrite lookup_delete_ne in Hnone by (simpl; lia). done.
  - apply Hstop; [done|done|]. apply eq_None_not_Some. intros Hs. specialize (Htop _ Hs).
    specialize (Hmin top ltac:(eauto)). lia.
Qed.

(** [Ready] on a map whose smallest nonce [lo] is at most [start]: the maximal
    run of consecutive nonces from [lo] is returned in order and removed.
    Otherwise nothing happens. *)
Lemma sm_Ready_spec m start :
  sm_wf m ->
  exists ready m', sm_Ready m start = Some (ready, m') /\ sm_wf m' /\
    ((ready = [] /\ m' = m /\ forall n, is_Some (items m !! n) -> start < n) \/
     exists lo, let stop := lo + Z.of_nat (length ready) in
       lo <= start /\ is_Some (items m !! lo) /\ (forall n, is_Some (items m !! n) -> lo <= n) /\
       Nonce <$> ready = seqZ lo (Z.of_nat (length ready)) /\ items m !! stop = None /\
       sorted_of (below stop (items m)) ready /\ items m' = from stop (items m)).
Proof.
  intros Hwf. destruct Hwf as (Hk & Hi & Hc) eqn:E; clear E. unfold sm_Ready.
  destruct (index m) as [|top rest] eqn:Eidx.
  { exists [], m. split_and!; [done|done|]. left. split_and!; [done|done|].
    intros n. rewrite index_ok_nil by done. by intros ?%is_Some_None. }
  destruct (index_ok_pop _ _ _ Hi) as (_ & _ & _ & _ & Hsome & Hmin).
  rewrite Z.gtb_ltb. destruct (Z.ltb_spec start top) as [Hgt|Hle].
  { exists [], m. split_and!; [done|done|]. left. split_and!; [done|done|].
    intros n Hn%Hmin. lia. }
  assert (Hu : is_u64 top) by (destruct Hsome as [tx Htx]; apply (Hk _ _ Htx)).
  destruct (ready_loop_spec (length (top :: rest)) top (items m) (top :: rest) [])
    as (r & idx' & Hrun & Hi' & Hr & Hseq & Hnone); [done|done|done|done|by left|].
  rewrite (u64_small top Hu) in Hrun. rewrite Hrun. cbn [mbind option_bind]. exists r. eexists.
  split_and!; [done| |].
  - apply sm_wf_intro; [by eapply keyed_sub, from_sub|done|done].
  - right. exists top. by split_and!.
Qed.

(** ** Flattening *)

Section FlattenSpecs.
Context `{!RangeOrder}.

(** [flatten] returns the sorted listing and only fills the cache. *)
Lemma sm_flatten_spec m :
  sm_wf m ->
  exists c m', sm_flatten m = (c, m') /\ sm_wf m' /\ items m' = items m /\ index m' = index m /\
    sorted_of (items m) c.
Proof.
  intros Hwf. pose proof Hwf as (Hk & Hi & Hc). unfold sm_flatten. destruct (cache m) as [c|] eqn:E.
  - exists c, m. split_and!; try done. by apply Hc.
  - assert (Hs : sorted_of (items m) (sort_txs (map_range (items m)).*2))
      by (apply sort_txs_sorted_of; [done|by rewrite map_range_perm]).
    eexists _, _. split_and!; [done| |done|done|done].
    apply sm_wf_intro; [done|done|]. by intros c [= <-].
Qed.

(** [LastElement] is the transaction of the highest nonce, and panics exactly on
    the empty map. *)
Lemma sm_LastElement_spec m :
  sm_wf m ->
  match sm_LastElement m with
  | Some (tx, m') => sm_wf m' /\ items m' = items m /\ items m !! Nonce tx = Some tx /\
                     forall n, is_Some (items m !! n) -> n <= Nonce tx
  | None => forall n, items m !! n = None
  end.
Proof.
  intros Hwf. unfold sm_LastElement.
  destruct (sm_flatten_spec m Hwf) as (c & m' & -> & Hwf' & Hit & _ & Hs).
  destruct (last c) as [tx|] eqn:El; simpl.
  - apply last_Some in El as [c' ->].
    assert (Htx : items m !! Nonce tx = Some tx) by (apply Hs, elem_of_app; right; left).
    split_and!; [done|done|done|]. intros n [tx' Htx'].
    destruct (proj1 Hwf _ _ Htx') as [<- _]. apply Hs in Htx'.
    destruct Hs as [Hs _]. apply StronglySorted_app in Hs as (Hlt & _ & _).
    apply elem_of_app in Htx' as [Hin| ->%list_elem_of_singleton]; [|lia].
    specialize (Hlt _ tx Hin ltac:(left)). lia.
  - apply last_None in El as ->. intros n. apply sorted_of_nil_inv; [done|apply Hwf].
Qed.

End FlattenSpecs.

(** ** txList *)

(** The caps bound the cost and the gas of everything in the list. *)
Definition list_wf (l : txList) : Prop :=
  sm_wf (txs l) /\
  forall n tx, items (txs l) !! n = Some tx -> Cost tx <= costcap l /\ Gas tx <= gascap l.

(** No nonce is missing between two present ones: what strict mode maintains. *)
Definition gapless (its : gmap Z Transaction) : Prop :=
  forall a b k, is_Some (its !! a) -> is_Some (its !! b) -> a <= k <= b -> is_Some (its !! k).

(** When a transaction replaces [old]. *)
Definition outbids (tx old : Transaction) (priceBump : Z) : Prop :=
  GasPrice old < GasPrice tx /\ (100 + priceBump) * GasPrice old / 100 <= GasPrice tx.

Lemma big_cmp_lt x y : (big_cmp x y <? 0) = (x <? y).
Proof. unfold big_cmp. destruct (Z.ltb_spec x y), (Z.eqb_spec x y); done. Qed.

Lemma big_cmp_gt x y : (big_cmp x y >? 0) = (y <? x).
Proof. unfold big_cmp. destruct (Z.ltb_spec x y), (Z.eqb_spec x y), (Z.ltb_spec y x); done || lia. Qed.

Lemma big_cmp_ge x y : (big_cmp x y >=? 0) = (y <=? x).
Proof. unfold big_cmp. destruct (Z.ltb_spec x y), (Z.eqb_spec x y), (Z.leb_spec y x); done || lia. Qed.

Lemma big_cmp_le x y : (big_cmp x y <=? 0) = (x <=? y).
Proof. unfold big_cmp. destruct (Z.ltb_spec x y), (Z.eqb_spec x y), (Z.leb_spec x y); done || lia. Qed.

Lemma above_limits_false c g tx : above_limits c g tx = false <-> Gas tx <= g /\ Cost tx <= c.
Proof. unfold above_limits. rewrite big_cmp_gt, Z.gtb_ltb, orb_false_iff, !Z.ltb_ge. tauto. Qed.

Lemma above_limits_true c g tx : above_limits c g tx = true <-> g < Gas tx \/ c < Cost tx.
Proof. unfold above_limits. rewrite big_cmp_gt, Z.gtb_ltb, orb_true_iff, !Z.ltb_lt. tauto. Qed.

Lemma list_wf_sub l m' : list_wf l -> sm_wf m' -> items m' ⊆ items (txs l) -> list_wf (list_set_txs l m').
Proof.
  intros [_ Hcap] Hm Hsub. split; [done|]. intros n tx Hn. by eapply Hcap, lookup_weaken.
Qed.

Lemma newTxList_wf s : list_wf (newTxList s).
Proof. split; [apply newTxSortedMap_wf|done]. Qed.

(** Replacement is decided by the price bump, computed without overflow for
    any bump a configuration can hold below [2^63 - 100]. *)
Lemma list_Add_spec l tx bump :
  list_wf l -> is_u64 (Nonce tx) -> 0 <= bump < 2 ^ 63 - 100 ->
  match items (txs l) !! Nonce tx with
  | Some old => ~ outbids tx old bump /\ list_Add l tx bump = ((false, None), l)
                \/ outbids tx old bump /\ exists l', list_Add l tx bump = ((true, Some old), l') /\
                   list_wf l' /\ items (txs l') = <[Nonce tx := tx]> (items (txs l)) /\ strict l' = strict l
  | None => exists l', list_Add l tx bump = ((true, None), l') /\
              list_wf l' /\ items (txs l') = <[Nonce tx := tx]> (items (txs l)) /\ strict l' = strict l
  end.
Proof.
  intros [Hm Hcap] Hu Hb. unfold list_Add, sm_Get. rewrite big_cmp_lt.
  assert (Hins : let l' := mk_list (strict l) (sm_Put (txs l) tx)
                  (if costcap l <? Cost tx then Cost tx else costcap l)
                  (if gascap l <? Gas tx then Gas tx else gascap l) in
    list_wf l' /\ items (txs l') = <[Nonce tx := tx]> (items (txs l)) /\ strict l' = strict l).
  { destruct (sm_Put_spec (txs l) tx Hm Hu) as [Hput Hit]. split; [|done]. split; [done|].
    simpl. intros n tx'. rewrite lookup_insert_Some. intros Hn.
    destruct (Z.ltb_spec (costcap l) (Cost tx)), (Z.ltb_spec (gascap l) (Gas tx)).
    all: destruct Hn as [[_ <-]|[_ Hn]]; [lia|]; specialize (Hcap _ _ Hn); lia. }
  destruct (items (txs l) !! Nonce tx) as [old|] eqn:E; [|by eexists].
  unfold GasPriceCmp, GasPriceIntCmp, bump_threshold. rewrite big_cmp_ge, big_cmp_lt.
  rewrite (i64_small bump), i64_small by lia. unfold outbids, GasPrice in *.
  destruct (Z.leb_spec (Price (data tx)) (Price (data old))); simpl; [left; split; [lia|done]|].
  destruct (Z.ltb_spec (Price (data tx)) ((100 + bump) * Price (data old) / 100)); [left; split; [lia|done]|].
  right. split; [lia|]. by eexists.
Qed.

Section ListSpecs.
Context `{!RangeOrder}.

(** Splitting the values of a map by a predicate. *)
Lemma satisfying_partition f (its : gmap Z Transaction) :
  (map_to_list (satisfying f its)).*2 ++ (map_to_list (satisfying (fun tx => negb (f tx)) its)).*2
  ≡ₚ (map_to_list its).*2.
Proof.
  rewrite <- fmap_app. apply fmap_Permutation. unfold satisfying. rewrite !map_to_list_filter_perm.
  rewrite <- (filter_app_complement (fun p => f p.2 = true) (map_to_list its)) at 3. f_equiv.
  apply reflexive_eq, list_filter_iff. intros [n tx]. simpl. destruct (f tx); naive_solver.
Qed.

Lemma elem_of_values (its : gmap Z Transaction) tx :
  keyed its -> tx ∈ (map_to_list its).*2 <-> its !! Nonce tx = Some tx.
Proof.
  intros Hk. rewrite list_elem_of_fmap. split.
  - intros ([n tx'] & -> & Hin%elem_of_map_to_list). simpl. by destruct (Hk _ _ Hin) as [-> _].
  - intros Hin. exists (Nonce tx, tx). by rewrite elem_of_map_to_list.
Qed.

Lemma foldl_lowest l : forall acc,
  let r := foldl (fun lowest tx => if lowest >? Nonce tx then Nonce tx else lowest) acc l in
  (r = acc \/ exists tx, tx ∈ l /\ r = Nonce tx) /\ r <= acc /\ forall tx, tx ∈ l -> r <= Nonce tx.
Proof.
  induction l as [|a l IH]; intros acc; simpl.
  - split_and!; [by left|lia|]. intros tx Hin. by apply elem_of_nil in Hin.
  - destruct (IH (if acc >? Nonce a then Nonce a else acc)) as (Hor & Hle & Hall).
    rewrite Z.gtb_ltb in *. destruct (Z.ltb_spec (Nonce a) acc) as [Hlt|Hge].
    + split_and!; [right|lia|].
      * destruct Hor as [->|(tx & ? & ->)]; [exists a|exists tx]; split; by constructor.
      * intros tx [->|Hin]%elem_of_cons; auto.
    + split_and!; [|lia|].
      * destruct Hor as [->|(tx & ? & ->)]; [by left|right; exists tx; split; by constructor].
      * intros tx [->|Hin]%elem_of_cons; [lia|auto].
Qed.

(** The lowest nonce of a non-empty list of transactions. *)
Lemma lowest_nonce_spec l :
  l <> [] -> (forall tx, tx ∈ l -> is_u64 (Nonce tx)) ->
  (exists tx, tx ∈ l /\ lowest_nonce l = Nonce tx) /\ forall tx, tx ∈ l -> lowest_nonce l <= Nonce tx.
Proof.
  intros Hne Hu. destruct (foldl_lowest l u64_max) as (Hor & _ & Hall).
  fold (lowest_nonce l) in *. split; [|done]. destruct Hor as [Heq|]; [|done].
  destruct l as [|a l]; [done|]. exists a. split; [left|].
  specialize (Hall a ltac:(left)). specialize (Hu a ltac:(left)). unfold u64_max, is_u64 in *. lia.
Qed.

(** What [Filter] should keep: affordable transactions, and in strict mode only
    those before the first unaffordable one. *)
Definition filter_keeps (l : txList) (costLimit gasLimit : Z) (n : Z) (tx : Transaction) : Prop :=
  items (txs l) !! n = Some tx /\ above_limits costLimit gasLimit tx = false /\
  (strict l = true -> forall n' tx', items (txs l) !! n' = Some tx' ->
     above_limits costLimit gasLimit tx' = true -> n < n').

Definition filter_ok (l : txList) (costLimit gasLimit : Z) (removed invalids : list Transaction)
    (l' : txList) : Prop :=
  list_wf l' /\ strict l' = strict l /\
  removed ≡ₚ (map_to_list (satisfying (above_limits costLimit gasLimit) (items (txs l)))).*2 /\
  removed ++ invalids ++ (map_to_list (items (txs l'))).*2 ≡ₚ (map_to_list (items (txs l))).*2 /\
  (forall n tx, items (txs l') !! n = Some tx <-> filter_keeps l costLimit gasLimit n tx).

Lemma satisfying_empty_iff f (its : gmap Z Transaction) :
  (forall n tx, its !! n = Some tx -> f tx = false) -> (map_to_list (satisfying f its)).*2 = [].
Proof.
  intros Hf. assert (satisfying f its = ∅) as ->; [|by rewrite map_to_list_empty].
  apply map_eq. intros n. rewrite lookup_empty. apply eq_None_not_Some. intros [tx Htx].
  apply lookup_satisfying in Htx as [Hn Ht]. specialize (Hf _ _ Hn). congruence.
Qed.

(** Nothing is above the limits: the list is left as it is. *)
Lemma filter_ok_noop l l' cl gl :
  list_wf l' -> strict l' = strict l -> items (txs l') = items (txs l) ->
  (forall n tx, items (txs l) !! n = Some tx -> above_limits cl gl tx = false) ->
  filter_ok l cl gl [] [] l'.
Proof.
  intros Hwf Hst Hit Hnone. unfold filter_ok. rewrite Hit, satisfying_empty_iff by done.
  split_and!; try done. intros n tx. unfold filter_keeps. split; [|naive_solver].
  intros Hn. split_and!; [done|by eapply Hnone|]. intros _ n' tx' Hn' Ht.
  specialize (Hnone _ _ Hn'). congruence.
Qed.

Lemma list_Filter_strict_keeps l cl gl removed lowest n tx :
  sm_wf (txs l) -> strict l = true ->
  removed ≡ₚ (map_to_list (satisfying (above_limits cl gl) (items (txs l)))).*2 ->
  (exists tx, tx ∈ removed /\ lowest = Nonce tx) -> (forall tx, tx ∈ removed -> lowest <= Nonce tx) ->
  (items (txs l) !! n = Some tx /\ above_limits cl gl tx = false) /\ (Nonce tx >? lowest) = false
  <-> filter_keeps l cl gl n tx.
Proof.
  intros [Hk _] Hst Hr (lo & Hlo & ->) Hmin.
  assert (Hel : forall tx, tx ∈ removed <-> items (txs l) !! Nonce tx = Some tx /\ above_limits cl gl tx = true).
  { intros tx'. rewrite Hr, elem_of_values, lookup_satisfying; [done|]. by eapply keyed_sub, satisfying_sub. }
  rewrite Z.gtb_ltb, Z.ltb_ge. unfold filter_keeps. split.
  - intros [[Hn Ha] Hle]. split_and!; [done|done|]. intros _ n' tx' Hn' Ha'.
    destruct (Hk _ _ Hn) as [<- _], (Hk _ _ Hn') as [<- _].
    assert (Nonce lo <= Nonce tx') by (apply Hmin, Hel; done).
    assert (Nonce tx <> Nonce tx') by (intros Heq; rewrite Heq in Hn; congruence). lia.
  - intros (Hn & Ha & Hall). split; [done|]. destruct (Hk _ _ Hn) as [<- _].
    apply Hel in Hlo as [Hlo1 Hlo2]. specialize (Hall Hst _ _ Hlo1 Hlo2). lia.
Qed.

Lemma list_wf_limits l cl gl m :
  sm_wf m -> (forall n tx, items m !! n = Some tx -> above_limits cl gl tx = false) ->
  list_wf (mk_list (strict l) m cl gl).
Proof. intros Hm Ha. split; [done|]. simpl. intros n tx Hn%Ha. apply above_limits_false in Hn. lia. Qed.

Lemma list_Filter_spec l cl gl removed invalids l' :
  list_wf l -> list_Filter l cl gl = ((removed, invalids), l') ->
  filter_ok l cl gl removed invalids l'.
Proof.
  intros Hwf. pose proof Hwf as [Hm Hcap]. unfold list_Filter. rewrite big_cmp_le.
  destruct ((costcap l <=? cl) && (gascap l <=? gl)) eqn:Esc.
  { intros [= <- <- <-]. apply andb_true_iff in Esc as [?%Z.leb_le ?%Z.leb_le].
    apply filter_ok_noop; try done. intros n tx Hn. apply above_limits_false. specialize (Hcap _ _ Hn). lia. }
  destruct (sm_Filter (txs l) (above_limits cl gl)) as [r m1] eqn:Ef.
  destruct (sm_Filter_spec _ _ _ _ Hm Ef) as (Hm1 & Hit1 & Hr).
  assert (Hl1 : forall n tx, items m1 !! n = Some tx <-> items (txs l) !! n = Some tx /\ above_limits cl gl tx = false).
  { intros n tx. rewrite Hit1, lookup_satisfying, negb_true_iff. done. }
  assert (Hpart : r ++ (map_to_list (items m1)).*2 ≡ₚ (map_to_list (items (txs l))).*2)
    by (rewrite Hr, Hit1; apply satisfying_partition).
  case_decide as Hlen.
  { intros [= <- <- <-]. destruct r; [|done]. apply filter_ok_noop; [|done|..].
    - apply list_wf_limits; [done|]. intros n tx Hn%Hl1. tauto.
    - simpl. rewrite Hit1. by apply satisfying_none.
    - intros n tx Hn. destruct (above_limits cl gl tx) eqn:Ea; [|done]. exfalso.
      apply (not_elem_of_nil tx). rewrite Hr. apply elem_of_values; [eapply keyed_sub; [apply Hm|apply satisfying_sub]|].
      apply lookup_satisfying. destruct (proj1 Hm _ _ Hn) as [-> _]. done. }
  destruct (strict l) eqn:Hst.
  - destruct (sm_filter m1 _) as [inv m2] eqn:Ef2. intros [= <- <- <-].
    destruct (sm_filter_spec _ _ _ _ Ef2) as (Hit2 & Hinv & _ & _).
    destruct (lowest_nonce_spec r) as [Hlo Hmin]; [by destruct r| |].
    { intros tx. rewrite Hr, elem_of_values by (eapply keyed_sub; [apply Hm|apply satisfying_sub]).
      intros [Hn _]%lookup_satisfying. by destruct (proj1 Hm _ _ Hn). }
    assert (Hk2 : keyed (items m2)) by (rewrite Hit2; eapply keyed_sub; [apply Hm1|apply satisfying_sub]).
    assert (Hl2 : forall n tx, items m2 !! n = Some tx <-> filter_keeps l cl gl n tx).
    { intros n tx. rewrite Hit2, lookup_satisfying, Hl1, negb_true_iff.
      by apply (list_Filter_strict_keeps l cl gl r). }
    split_and!; simpl; [|done|done| |done].
    + rewrite <- Hst. apply list_wf_limits; [by apply sm_reheap_wf|]. simpl. intros n tx Hn%Hl2. apply Hn.
    + rewrite <- Hpart. f_equiv. rewrite Hinv, Hit2. apply satisfying_partition.
  - intros [= <- <- <-]. split_and!; simpl; [|done|done|done|].
    + rewrite <- Hst. apply list_wf_limits; [by apply sm_reheap_wf, Hm1|]. simpl. intros n tx Hn%Hl1. tauto.
    + intros n tx. rewrite Hl1. unfold filter_keeps. rewrite Hst. naive_solver.
Qed.

Lemma list_Forward_spec l t :
  list_wf l ->
  exists removed l', list_Forward l t = Some (removed, l') /\ list_wf l' /\ strict l' = strict l /\
    items (txs l') = from t (items (txs l)) /\ sorted_of (below t (items (txs l))) removed.
Proof.
  intros Hwf. unfold list_Forward.
  destruct (sm_Forward_spec (txs l) t) as (r & m' & -> & Hm' & Hit & Hr); [apply Hwf|].
  exists r, (list_set_txs l m'). split_and!; try done. apply list_wf_sub; [done..|].
  rewrite Hit. apply from_sub.
Qed.

Lemma list_Cap_spec l t c :
  list_wf l -> 0 <= t -> sorted_of (items (txs l)) c ->
  exists l', list_Cap l t = Some (rev (drop (Z.to_nat t) c), l') /\ list_wf l' /\ strict l' = strict l /\
    sorted_of (items (txs l')) (take (Z.to_nat t) c) /\ items (txs l') ⊆ items (txs l).
Proof.
  intros Hwf Ht Hc. unfold list_Cap.
  destruct (sm_Cap_spec (txs l) t c) as (m' & -> & Hm' & Hs & Hsub); [apply Hwf|done|done|].
  exists (list_set_txs l m'). split_and!; try done. by apply list_wf_sub.
Qed.

(** [Remove] drops the nonce, and in strict mode everything above it. *)
Lemma list_Remove_spec l tx :
  list_wf l ->
  exists invalids l', list_Remove l tx = Some ((bool_decide (is_Some (items (txs l) !! Nonce tx)), invalids), l') /\
    list_wf l' /\ strict l' = strict l /\
    items (txs l') ⊆ delete (Nonce tx) (items (txs l)) /\
    invalids ++ (map_to_list (items (txs l'))).*2 ≡ₚ (map_to_list (delete (Nonce tx) (items (txs l)))).*2 /\
    (if strict l && bool_decide (is_Some (items (txs l) !! Nonce tx))
     then items (txs l') = below (Nonce tx) (items (txs l))
     else items (txs l') = delete (Nonce tx) (items (txs l)) /\ invalids = []).
Proof.
  intros Hwf. unfold list_Remove.
  destruct (sm_Remove_spec (txs l) (Nonce tx)) as (m1 & -> & Hm1 & Hit1); [apply Hwf|]. simpl.
  assert (Hsub1 : items m1 ⊆ items (txs l)) by (rewrite Hit1; apply delete_subseteq).
  case_bool_decide as Hsome; simpl; [destruct (strict l) eqn:Hst; simpl|].
  - destruct (sm_Filter m1 _) as [inv m2] eqn:Ef.
    destruct (sm_Filter_spec _ _ _ _ Hm1 Ef) as (Hm2 & Hit2 & Hinv). eexists inv, _. split; [done|].
    assert (Hsub2 : items m2 ⊆ items m1) by (rewrite Hit2; apply satisfying_sub).
    split_and!; simpl; [by apply list_wf_sub; [..|by etrans]|done|by rewrite <- Hit1|..].
    + rewrite <- Hit1, Hinv, Hit2. apply satisfying_partition.
    + apply map_eq. intros n. apply option_eq. intros tx'.
      rewrite Hit2, lookup_satisfying, Hit1, lookup_delete_Some, lookup_below, negb_true_iff, Z.gtb_ltb, Z.ltb_ge.
      split.
      * intros [[Hne Hn] Hle]. destruct (proj1 (proj1 Hwf) _ _ Hn) as [<- _]. rewrite decide_True by lia. done.
      * case_decide; [|done]. intros Hn. destruct (proj1 (proj1 Hwf) _ _ Hn) as [<- _]. split_and!; [lia|done|lia].
  - eexists [], _. split; [done|].
    split_and!; simpl; [by apply list_wf_sub|done|by rewrite Hit1|by rewrite Hit1|done|done].
  - rewrite andb_false_r. eexists [], _. split; [done|].
    split_and!; simpl; [by apply list_wf_sub|done|by rewrite Hit1|by rewrite Hit1|done|done].
Qed.

Lemma list_Ready_spec l start :
  list_wf l ->
  exists ready l', list_Ready l start = Some (ready, l') /\ list_wf l' /\ strict l' = strict l /\
    ((ready = [] /\ items (txs l') = items (txs l) /\ forall n, is_Some (items (txs l) !! n) -> start < n) \/
     exists lo, let stop := lo + Z.of_nat (length ready) in
       lo <= start /\ is_Some (items (txs l) !! lo) /\ (forall n, is_Some (items (txs l) !! n) -> lo <= n) /\
       Nonce <$> ready = seqZ lo (Z.of_nat (length ready)) /\ items (txs l) !! stop = None /\
       sorted_of (below stop (items (txs l))) ready /\ items (txs l') = from stop (items (txs l))).
Proof.
  intros Hwf. unfold list_Ready.
  destruct (sm_Ready_spec (txs l) start) as (r & m' & -> & Hm' & Hcase); [apply Hwf|]. simpl.
  eexists r, _. split; [done|]. split_and!; simpl; [|done|].
  - apply list_wf_sub; [done..|]. destruct Hcase as [(_ & -> & _)|(lo & Hl)]; [done|].
    destruct Hl as (_ & _ & _ & _ & _ & _ & ->). apply from_sub.
  - destruct Hcase as [(-> & -> & ?)|?]; [by left|by right].
Qed.

End ListSpecs.
