(* ===== verification/PricedList.v ===== *)
(** * Lookup tables and the price-sorted list of the pool

    Models [txLookup], [accountSet] and [numSlots] of core/tx_pool.go and
    [priceHeap] and [txPricedList] of core/tx_list.go.  The priced list holds a
    pointer to the pool's lookup table; here the table is an argument of the
    operations that read it.

    [None] is a panic: [txLookup.Remove] of an unknown hash dereferences a nil
    transaction, and [Discard] allocates slices whose capacity can be
    negative. *)
From stdpp Require Import gmap list sorting.
From Stdlib Require Import ZArith Lia.
From S2P Require Import Prelude GoHeap Transaction TxList.

Local Open Scope Z_scope.

(** ** Slots *)

Definition txSlotSize : Z := 32 * 1024.
Definition txMaxSize : Z := 4 * txSlotSize.

Section WithCrypto.
Context `{!TxCrypto}.

(** The division is on floats: exact, as the divisor is a power of two and sizes
    are far below [2^53]; the conversion to [int] truncates. *)
Definition numSlots (tx : Transaction) : Z := (tx_size tx + txSlotSize - 1) / txSlotSize.

(** ** txLookup *)

Record txLookup : Type := mk_lookup {
  lk_all : gmap Hash Transaction;
  lk_slots : Z
}.

Definition newTxLookup : txLookup := mk_lookup ∅ 0.
Definition lookup_Get (t : txLookup) (h : Hash) : option Transaction := lk_all t !! h.
Definition lookup_Count (t : txLookup) : Z := Z.of_nat (size (lk_all t)).
Definition lookup_Slots (t : txLookup) : Z := lk_slots t.

Definition lookup_Add (t : txLookup) (tx : Transaction) : txLookup :=
  mk_lookup (<[tx_hash tx := tx]> (lk_all t)) (lk_slots t + numSlots tx).

Definition lookup_Remove (t : txLookup) (h : Hash) : option txLookup :=
  tx ← lk_all t !! h;
  Some (mk_lookup (delete h (lk_all t)) (lk_slots t - numSlots tx)).

(** ** accountSet *)

(** The pool's signer, [NewEIP155Signer(big.NewInt(1))]. *)
Definition pool_signer : Signer := NewEIP155Signer (Some 1).

(** [addr, _ := types.Sender(pool.signer, tx)]: the zero address on error. *)
Definition sender_of (tx : Transaction) : Address :=
  match signer_Sender pool_signer tx with Ret a => a | _ => 0 end.

Definition valid_sender (tx : Transaction) : bool :=
  match signer_Sender pool_signer tx with Ret _ => true | _ => false end.

Record accountSet : Type := mk_accounts {
  accounts : gmap Address unit;
  acc_cache : option (list Address)
}.

Definition as_add (s : accountSet) (a : Address) : accountSet :=
  mk_accounts (<[a := tt]> (accounts s)) None.

Definition newAccountSet (addrs : list Address) : accountSet :=
  foldl as_add (mk_accounts ∅ None) addrs.

Definition as_contains (s : accountSet) (a : Address) : bool := bool_decide (is_Some (accounts s !! a)).

Definition as_empty (s : accountSet) : bool := bool_decide (size (accounts s) = 0%nat).

Definition as_containsTx (s : accountSet) (tx : Transaction) : bool :=
  valid_sender tx && as_contains s (sender_of tx).

Definition as_addTx (s : accountSet) (tx : Transaction) : accountSet :=
  if valid_sender tx then as_add s (sender_of tx) else s.

Definition as_flatten `{!RangeOrder} (s : accountSet) : list Address * accountSet :=
  match acc_cache s with
  | Some c => (c, s)
  | None => let c := (map_range (accounts s)).*1 in (c, mk_accounts (accounts s) (Some c))
  end.

Definition as_merge `{!RangeOrder} (s other : accountSet) : accountSet :=
  mk_accounts (foldl (fun m '(a, _) => <[a := tt]> m) (accounts s) (map_range (accounts other))) None.

(** ** priceHeap *)

Definition price_less (a b : Transaction) : bool :=
  let c := GasPriceCmp a b in
  if c =? -1 then true else if c =? 1 then false else Nonce a >? Nonce b.

(** ** txPricedList *)

Record txPricedList : Type := mk_priced {
  pitems : list Transaction;
  stales : Z
}.

Definition newTxPricedList : txPricedList := mk_priced [] 0.

Definition priced_Put (l : txPricedList) (tx : Transaction) : txPricedList :=
  mk_priced (heap_push price_less (pitems l) tx) (stales l).

Definition priced_Removed `{!RangeOrder} (all : txLookup) (l : txPricedList) (count : Z) : txPricedList :=
  let st := stales l + count in
  if st <=? Z.of_nat (length (pitems l)) / 4 then mk_priced (pitems l) st
  else mk_priced (heap_init price_less (map_range (lk_all all)).*2) 0.

Definition is_stale (all : txLookup) (tx : Transaction) : bool :=
  bool_decide (lookup_Get all (tx_hash tx) = None).

Definition push_all (its : list Transaction) (save : list Transaction) : list Transaction :=
  foldl (heap_push price_less) its save.

(** The loop of [Cap]; each turn pops, so the heap's length is enough fuel. *)
Fixpoint pcap_loop (all : txLookup) (threshold : Z) (local : accountSet) (fuel : nat)
    (its : list Transaction) (st : Z) (drop save : list Transaction)
    : option (list Transaction * Z * list Transaction * list Transaction) :=
  match fuel, its with
  | S fuel', _ :: _ =>
      '(tx, its') ← heap_pop price_less its;
      if is_stale all tx then pcap_loop all threshold local fuel' its' (st - 1) drop save
      else if GasPriceIntCmp tx threshold >=? 0 then Some (its', st, drop, save ++ [tx])
      else if as_containsTx local tx then pcap_loop all threshold local fuel' its' st drop (save ++ [tx])
      else pcap_loop all threshold local fuel' its' st (drop ++ [tx]) save
  | _, _ => Some (its, st, drop, save)
  end.

Definition priced_Cap (all : txLookup) (l : txPricedList) (threshold : Z) (local : accountSet)
    : option (list Transaction * txPricedList) :=
  '(its, st, drop, save) ← pcap_loop all threshold local (length (pitems l)) (pitems l) (stales l) [] [];
  Some (drop, mk_priced (push_all its save) st).

Fixpoint underpriced_loop (all : txLookup) (fuel : nat) (its : list Transaction) (st : Z)
    : option (list Transaction * Z) :=
  match fuel, its with
  | S fuel', head :: _ =>
      if is_stale all head then
        '(_, its') ← heap_pop price_less its;
        underpriced_loop all fuel' its' (st - 1)
      else Some (its, st)
  | _, _ => Some (its, st)
  end.

Definition priced_Underpriced (all : txLookup) (l : txPricedList) (tx : Transaction) (local : accountSet)
    : option (bool * txPricedList) :=
  if as_containsTx local tx then Some (false, l)
  else
    '(its, st) ← underpriced_loop all (length (pitems l)) (pitems l) (stales l);
    let l' := mk_priced its st in
    match its with
    | [] => Some (false, l')
    | cheapest :: _ => Some (GasPriceCmp cheapest tx >=? 0, l')
    end.

(** The count of [Discard], which stops as soon as it reaches [slots]. *)
Fixpoint count_discardable (local : accountSet) (slots : Z) (its : list Transaction) (n : Z) : Z :=
  match its with
  | [] => n
  | tx :: its' =>
      let n' := if as_containsTx local tx then n else n + 1 in
      if n' >=? slots then n' else count_discardable local slots its' n'
  end.

Fixpoint discard_loop (all : txLookup) (local : accountSet) (fuel : nat) (slots : Z)
    (its : list Transaction) (st : Z) (drop save : list Transaction)
    : option (list Transaction * Z * list Transaction * list Transaction) :=
  match fuel, its with
  | S fuel', _ :: _ =>
      if slots >? 0 then
        '(tx, its') ← heap_pop price_less its;
        if is_stale all tx then discard_loop all local fuel' slots its' (st - 1) drop save
        else if as_containsTx local tx then discard_loop all local fuel' slots its' st drop (save ++ [tx])
        else discard_loop all local fuel' (slots - numSlots tx) its' st (drop ++ [tx]) save
      else Some (its, st, drop, save)
  | _, _ => Some (its, st, drop, save)
  end.

(** [make] with a negative capacity panics. *)
Definition priced_Discard (all : txLookup) (l : txPricedList) (slots : Z) (local : accountSet)
    : option (list Transaction * txPricedList) :=
  let slots' :=
    if as_empty local then slots
    else let discardable := count_discardable local slots (pitems l) 0 in
         if slots >? discardable then discardable else slots in
  if slots' =? 0 then Some ([], l)
  else if (slots' <? 0) || (Z.of_nat (length (pitems l)) - slots' <? 0) then None
  else
    '(its, st, drop, save) ← discard_loop all local (length (pitems l)) slots' (pitems l) (stales l) [] [];
    Some (drop, mk_priced (push_all its save) st).

(** ** txNoncer *)

Record txNoncer : Type := mk_noncer {
  fallback : Address -> Z;
  nonces : gmap Address Z
}.

Definition newTxNoncer (getNonce : Address -> Z) : txNoncer := mk_noncer getNonce ∅.

Definition noncer_cached (n : txNoncer) (a : Address) : gmap Address Z :=
  match nonces n !! a with
  | None => <[a := fallback n a]> (nonces n)
  | Some _ => nonces n
  end.

Definition noncer_get (n : txNoncer) (a : Address) : Z * txNoncer :=
  let m := noncer_cached n a in
  (default 0 (m !! a), mk_noncer (fallback n) m).

Definition noncer_set (n : txNoncer) (a : Address) (nonce : Z) : txNoncer :=
  mk_noncer (fallback n) (<[a := nonce]> (nonces n)).

Definition noncer_setIfLower (n : txNoncer) (a : Address) (nonce : Z) : txNoncer :=
  let m := noncer_cached n a in
  if default 0 (m !! a) <=? nonce then mk_noncer (fallback n) m
  else mk_noncer (fallback n) (<[a := nonce]> m).

End WithCrypto.

(** ** The price order *)

Lemma price_less_true a b :
  price_less a b = true <->
  GasPrice a < GasPrice b \/ GasPrice a = GasPrice b /\ Nonce b < Nonce a.
Proof.
  unfold price_less, GasPriceCmp, big_cmp, GasPrice. rewrite Z.gtb_ltb.
  destruct (Z.ltb_spec (Price (data a)) (Price (data b))); simpl; [split; [lia|done]|].
  destruct (Z.eqb_spec (Price (data a)) (Price (data b))); simpl; [|split; [done|lia]].
  rewrite Z.ltb_lt. lia.
Qed.

Lemma price_less_false a b :
  price_less a b = false <->
  GasPrice b < GasPrice a \/ GasPrice a = GasPrice b /\ Nonce a <= Nonce b.
Proof. rewrite <- not_true_iff_false, price_less_true. lia. Qed.

#[export] Instance price_less_weak : StrictWeak price_less.
Proof.
  split; intros *; rewrite ?price_less_true, ?price_less_false; lia.
Qed.

Lemma price_less_le a b : price_less b a = false -> GasPrice a <= GasPrice b.
Proof. rewrite price_less_false. lia. Qed.

Section PricedSpecs.
Context `{!TxCrypto}.

(** What popping a non-empty price heap gives. *)
Lemma price_pop x its :
  is_heap price_less (x :: its) ->
  exists its', heap_pop price_less (x :: its) = Some (x, its') /\ is_heap price_less its' /\
    x :: its ≡ₚ x :: its' /\ length its' = length its /\ forall y, y ∈ its' -> GasPrice x <= GasPrice y.
Proof.
  intros Hh. destruct (heap_pop_spec price_less _ x Hh eq_refl) as (its' & Hpop & Hh' & Hp).
  exists its'. split_and!; [done|done|done| |].
  - apply length_perm in Hp. simpl in Hp. lia.
  - intros y Hy. apply price_less_le. eapply heap_root_min; [apply _|exact Hh|done|]. rewrite Hp. by right.
Qed.

Lemma push_all_spec save : forall its,
  is_heap price_less its ->
  is_heap price_less (push_all its save) /\ push_all its save ≡ₚ save ++ its.
Proof.
  induction save as [|tx save IH]; intros its Hh; simpl; [done|].
  destruct (heap_push_spec price_less its tx Hh) as [Hh' Hp].
  destruct (IH _ Hh') as [Hh2 Hp2]. split; [done|]. fold (push_all (heap_push price_less its tx) save).
  rewrite Hp2, Hp. by rewrite Permutation_middle.
Qed.

Definition fresh_in (all : txLookup) (tx : Transaction) : Prop := is_stale all tx = false.

Lemma fresh_in_iff all tx : fresh_in all tx <-> is_Some (lk_all all !! tx_hash tx).
Proof.
  unfold fresh_in, is_stale, lookup_Get. rewrite bool_decide_eq_false, <- not_eq_None_Some. done.
Qed.

(** *** Cap *)

Lemma pcap_loop_spec all thr local : forall fuel its st drop save,
  is_heap price_less its -> (length its <= fuel)%nat ->
  exists its' st' S D V, pcap_loop all thr local fuel its st drop save = Some (its', st', drop ++ D, save ++ V) /\
    is_heap price_less its' /\ its ≡ₚ S ++ D ++ V ++ its' /\
    Forall (fun tx => is_stale all tx = true) S /\
    Forall (fun tx => fresh_in all tx /\ GasPrice tx < thr /\ as_containsTx local tx = false) D /\
    Forall (fun tx => thr <= GasPrice tx \/ as_containsTx local tx = true) V /\
    Forall (fun tx => thr <= GasPrice tx) its'.
Proof.
  induction fuel as [|fuel IH]; intros its st drop save Hh Hlen.
  { destruct its; [|simpl in Hlen; lia]. exists [], st, [], [], []. simpl. rewrite !app_nil_r. done. }
  destruct its as [|x its].
  { exists [], st, [], [], []. simpl. rewrite !app_nil_r. done. }
  destruct (price_pop _ _ Hh) as (its1 & Hpop & Hh1 & Hp & Hl & Hmin). simpl in Hlen.
  cbn [pcap_loop]. rewrite Hpop. cbn [mbind option_bind]. clear Hpop Hh.
  unfold GasPriceIntCmp. rewrite big_cmp_ge. fold (GasPrice x).
  destruct (is_stale all x) eqn:Est.
  { destruct (IH its1 (st - 1) drop save Hh1 ltac:(lia)) as (its' & st' & S & D & V & -> & Hh' & Hp' & HS & HD & HV & Hr).
    exists its', st', (x :: S), D, V. split_and!; auto. by rewrite Hp, Hp'. }
  destruct (Z.leb_spec thr (GasPrice x)) as [Hge|Hlt].
  { exists its1, st, [], [], [x]. simpl. rewrite !app_nil_r. split_and!; auto.
    apply Forall_forall. intros y Hy%Hmin. lia. }
  destruct (as_containsTx local x) eqn:El.
  - destruct (IH its1 st drop (save ++ [x]) Hh1 ltac:(lia)) as (its' & st' & S & D & V & -> & Hh' & Hp' & HS & HD & HV & Hr).
    exists its', st', S, D, (x :: V). rewrite <- app_assoc. simpl. split_and!; auto.
    rewrite Hp, Hp'. by rewrite <- !Permutation_middle.
  - destruct (IH its1 st (drop ++ [x]) save Hh1 ltac:(lia)) as (its' & st' & S & D & V & -> & Hh' & Hp' & HS & HD & HV & Hr).
    exists its', st', S, (x :: D), V. rewrite <- app_assoc. simpl. split_and!; auto.
    rewrite Hp, Hp'. by rewrite <- Permutation_middle.
Qed.

(** [Cap] drops exactly the known remote transactions below the threshold. *)
Lemma priced_Cap_spec all l thr local :
  is_heap price_less (pitems l) ->
  exists drop l' S, priced_Cap all l thr local = Some (drop, l') /\ is_heap price_less (pitems l') /\
    pitems l ≡ₚ S ++ drop ++ pitems l' /\ Forall (fun tx => is_stale all tx = true) S /\
    Forall (fun tx => fresh_in all tx /\ GasPrice tx < thr /\ as_containsTx local tx = false) drop /\
    Forall (fun tx => thr <= GasPrice tx \/ as_containsTx local tx = true) (pitems l').
Proof.
  intros Hh. unfold priced_Cap.
  destruct (pcap_loop_spec all thr local (length (pitems l)) (pitems l) (stales l) [] [] Hh ltac:(lia))
    as (its' & st' & S & D & V & -> & Hh' & Hp & HS & HD & HV & Hr). simpl.
  destruct (push_all_spec V its' Hh') as [Hh2 Hp2].
  exists D, (mk_priced (push_all its' V) st'), S. split_and!; [done|done| |done|done|].
  - simpl. by rewrite Hp2.
  - simpl. rewrite Hp2, Forall_app. split; [done|]. eapply Forall_impl; [exact Hr|]. auto.
Qed.

(** *** Underpriced *)

Lemma underpriced_loop_spec all : forall fuel its st,
  is_heap price_less its -> (length its <= fuel)%nat ->
  exists its' st' S, underpriced_loop all fuel its st = Some (its', st') /\
    is_heap price_less its' /\ its ≡ₚ S ++ its' /\ Forall (fun tx => is_stale all tx = true) S /\
    match its' with [] => True | x :: _ => fresh_in all x end.
Proof.
  induction fuel as [|fuel IH]; intros its st Hh Hlen.
  { destruct its; [|simpl in Hlen; lia]. by exists [], st, []. }
  destruct its as [|x its]; [by exists [], st, []|]. simpl in Hlen.
  destruct (price_pop _ _ Hh) as (its1 & Hpop & Hh1 & Hp & Hl & Hmin).
  cbn [underpriced_loop]. rewrite Hpop. cbn [mbind option_bind].
  destruct (is_stale all x) eqn:Est; [|by exists (x :: its), st, []].
  destruct (IH its1 (st - 1) Hh1 ltac:(lia)) as (its' & st' & S & -> & Hh' & Hp' & HS & Hx).
  exists its', st', (x :: S). split_and!; auto. by rewrite Hp, Hp'.
Qed.

(** [Underpriced] answers whether the transaction is remote and pays no more than
    every known transaction of a non-empty list; it only drops stale entries. *)
Lemma priced_Underpriced_spec all l tx local :
  is_heap price_less (pitems l) ->
  exists b l' S, priced_Underpriced all l tx local = Some (b, l') /\ is_heap price_less (pitems l') /\
    pitems l ≡ₚ S ++ pitems l' /\ Forall (fun tx => is_stale all tx = true) S /\
    (b = true <-> as_containsTx local tx = false /\ (exists t, t ∈ pitems l /\ fresh_in all t) /\
                  forall t, t ∈ pitems l -> fresh_in all t -> GasPrice tx <= GasPrice t).
Proof.
  intros Hh. unfold priced_Underpriced. destruct (as_containsTx local tx) eqn:El.
  { exists false, l, []. split_and!; try done. split; [done|]. intros [? _]; done. }
  destruct (underpriced_loop_spec all (length (pitems l)) (pitems l) (stales l) Hh ltac:(lia))
    as (its' & st' & S & -> & Hh' & Hp & HS & Hx). cbn [mbind option_bind].
  assert (Hfresh : forall t, t ∈ pitems l -> fresh_in all t -> t ∈ its').
  { intros t. rewrite Hp, elem_of_app. intros [Ht|]; [|done]. rewrite Forall_forall in HS.
    unfold fresh_in. rewrite HS by done. done. }
  destruct its' as [|x its'].
  { exists false, (mk_priced [] st'), S. split_and!; try done.
    split; [done|]. intros (_ & (t & Ht & Hf) & _). specialize (Hfresh t Ht Hf). by apply elem_of_nil in Hfresh. }
  exists (GasPriceCmp x tx >=? 0), (mk_priced (x :: its') st'), S. split_and!; try done.
  unfold GasPriceCmp. rewrite big_cmp_ge, Z.leb_le. fold (GasPrice x) (GasPrice tx). split.
  - intros Hle. split_and!; [done|exists x; split; [rewrite Hp; set_solver|done]|].
    intros t Ht Hf. etrans; [exact Hle|]. apply price_less_le.
    eapply heap_root_min; [apply _|exact Hh'|done|]. by apply Hfresh.
  - intros (_ & _ & Hall). apply Hall; [|done]. rewrite Hp. set_solver.
Qed.

(** *** Discard *)

Definition sum_slots (l : list Transaction) : Z := foldr (fun tx acc => numSlots tx + acc) 0 l.

Lemma discard_loop_spec all local : forall fuel slots its st drop save,
  is_heap price_less its -> (length its <= fuel)%nat ->
  exists its' st' S D V, discard_loop all local fuel slots its st drop save
      = Some (its', st', drop ++ D, save ++ V) /\
    is_heap price_less its' /\ its ≡ₚ S ++ D ++ V ++ its' /\
    Forall (fun tx => is_stale all tx = true) S /\
    Forall (fun tx => fresh_in all tx /\ as_containsTx local tx = false) D /\
    Forall (fun tx => as_containsTx local tx = true) V /\
    (forall d y, d ∈ D -> y ∈ its' -> GasPrice d <= GasPrice y) /\
    (its' = [] \/ slots <= sum_slots D).
Proof.
  induction fuel as [|fuel IH]; intros slots its st drop save Hh Hlen.
  { destruct its; [|simpl in Hlen; lia]. exists [], st, [], [], []. simpl. rewrite !app_nil_r.
    split_and!; auto. intros d y Hd. by apply elem_of_nil in Hd. }
  destruct its as [|x its].
  { exists [], st, [], [], []. simpl. rewrite !app_nil_r. split_and!; auto. intros d y Hd. by apply elem_of_nil in Hd. }
  destruct (price_pop _ _ Hh) as (its1 & Hpop & Hh1 & Hp & Hl & Hmin). simpl in Hlen.
  cbn [discard_loop]. rewrite Z.gtb_ltb. destruct (Z.ltb_spec 0 slots) as [Hpos|Hneg].
  2:{ exists (x :: its), st, [], [], []. simpl. rewrite !app_nil_r. split_and!; auto.
      intros d y Hd. by apply elem_of_nil in Hd. }
  rewrite Hpop. cbn [mbind option_bind]. clear Hpop Hh.
  assert (Hsub : forall S D V its' y, its1 ≡ₚ S ++ D ++ V ++ its' -> y ∈ its' -> GasPrice x <= GasPrice y).
  { intros S D V its' y Hp' Hy. apply Hmin. rewrite Hp'. set_solver. }
  destruct (is_stale all x) eqn:Est; [|destruct (as_containsTx local x) eqn:El].
  - destruct (IH slots its1 (st - 1) drop save Hh1 ltac:(lia))
      as (its' & st' & S & D & V & -> & Hh' & Hp' & HS & HD & HV & Hc & Hs).
    exists its', st', (x :: S), D, V. split_and!; auto. by rewrite Hp, Hp'.
  - destruct (IH slots its1 st drop (save ++ [x]) Hh1 ltac:(lia))
      as (its' & st' & S & D & V & -> & Hh' & Hp' & HS & HD & HV & Hc & Hs).
    exists its', st', S, D, (x :: V). rewrite <- app_assoc. simpl. split_and!; auto.
    rewrite Hp, Hp'. by rewrite <- !Permutation_middle.
  - destruct (IH (slots - numSlots x) its1 st (drop ++ [x]) save Hh1 ltac:(lia))
      as (its' & st' & S & D & V & -> & Hh' & Hp' & HS & HD & HV & Hc & Hs).
    exists its', st', S, (x :: D), V. rewrite <- app_assoc. simpl. split_and!; auto.
    + rewrite Hp, Hp'. by rewrite <- Permutation_middle.
    + intros d y [->|Hd]%elem_of_cons Hy; eauto.
    + destruct Hs; [by left|right; lia].
Qed.

(** The number of slots [Discard] really asks for. *)
Definition discard_slots (l : txPricedList) (slots : Z) (local : accountSet) : Z :=
  if as_empty local then slots
  else let discardable := count_discardable local slots (pitems l) 0 in
       if slots >? discardable then discardable else slots.

(** [Discard] either does nothing, or panics, or drops the cheapest known remote
    transactions until the slots are free or no candidate is left. *)
Lemma priced_Discard_spec all l slots local :
  is_heap price_less (pitems l) ->
  let n := discard_slots l slots local in
  0 <= n <= Z.of_nat (length (pitems l)) ->
  exists drop l' S, priced_Discard all l slots local = Some (drop, l') /\ is_heap price_less (pitems l') /\
    pitems l ≡ₚ S ++ drop ++ pitems l' /\ Forall (fun tx => is_stale all tx = true) S /\
    Forall (fun tx => fresh_in all tx /\ as_containsTx local tx = false) drop /\
    (forall d y, d ∈ drop -> y ∈ pitems l' -> as_containsTx local y = false -> GasPrice d <= GasPrice y) /\
    (n <= sum_slots drop \/ forall y, y ∈ pitems l' -> as_containsTx local y = true).
Proof.
  intros Hh n Hn. unfold priced_Discard. fold (discard_slots l slots local). fold n.
  destruct (Z.eqb_spec n 0) as [->|Hne].
  { exists [], l, []. split_and!; try done; [|by left; simpl].
    intros d y Hd. by apply elem_of_nil in Hd. }
  rewrite (proj2 (Z.ltb_ge n 0)), (proj2 (Z.ltb_ge (Z.of_nat (length (pitems l)) - n) 0)) by lia. simpl orb.
  cbv iota.
  destruct (discard_loop_spec all local (length (pitems l)) n (pitems l) (stales l) [] [] Hh ltac:(lia))
    as (its' & st' & S & D & V & -> & Hh' & Hp & HS & HD & HV & Hc & Hs). cbn [mbind option_bind].
  destruct (push_all_spec V its' Hh') as [Hh2 Hp2]. rewrite Forall_forall in HV.
  exists D, (mk_priced (push_all its' V) st'), S. simpl. split_and!; [done|done|by rewrite Hp2|done|done| |].
  - intros d y Hd. rewrite Hp2, elem_of_app. intros [Hy|Hy] Hloc; [|eauto].
    specialize (HV y Hy). simpl in HV. congruence.
  - destruct Hs as [->|Hs]; [right|by left]. intros y. rewrite Hp2, app_nil_r. apply HV.
Qed.

(** Asking for more slots than the list has entries, with no local account to
    clamp the request, panics. *)
Lemma priced_Discard_panics all l slots local :
  as_empty local = true -> Z.of_nat (length (pitems l)) < slots ->
  priced_Discard all l slots local = None.
Proof.
  intros He Hlt. unfold priced_Discard. rewrite He.
  rewrite (proj2 (Z.eqb_neq slots 0)) by lia.
  by rewrite (proj2 (Z.ltb_lt (Z.of_nat (length (pitems l)) - slots) 0)), orb_true_r by lia.
Qed.

Lemma count_discardable_le local slots its n :
  count_discardable local slots its n <= n + Z.of_nat (length its).
Proof.
  revert n. induction its as [|tx its IH]; intros n; simpl; [lia|].
  destruct (as_containsTx local tx); destruct (_ >=? _); try lia; etrans; [apply IH|lia|apply IH|lia].
Qed.

Lemma count_discardable_ge local slots its n : n <= count_discardable local slots its n.
Proof.
  revert n. induction its as [|tx its IH]; intros n; simpl; [lia|].
  destruct (as_containsTx local tx); destruct (_ >=? _); try lia; etrans; [|apply IH| |apply IH]; lia.
Qed.

(** With a local account in the set, the request is clamped and cannot panic. *)
Lemma discard_slots_local l slots local :
  as_empty local = false -> 0 <= slots ->
  0 <= discard_slots l slots local <= Z.of_nat (length (pitems l)) \/
  discard_slots l slots local = slots /\ slots <= count_discardable local slots (pitems l) 0.
Proof.
  intros He Hs. unfold discard_slots. rewrite He, Z.gtb_ltb.
  pose proof (count_discardable_le local slots (pitems l) 0).
  pose proof (count_discardable_ge local slots (pitems l) 0).
  destruct (Z.ltb_spec (count_discardable local slots (pitems l) 0) slots); [left|right]; lia.
Qed.

Lemma discard_slots_range l slots local :
  0 <= slots -> as_empty local = false \/ slots <= Z.of_nat (length (pitems l)) ->
  0 <= discard_slots l slots local <= Z.of_nat (length (pitems l)).
Proof.
  intros Hs Hor. pose proof (count_discardable_le local slots (pitems l) 0).
  destruct (as_empty local) eqn:He.
  - destruct Hor; [done|]. unfold discard_slots. rewrite He. lia.
  - destruct (discard_slots_local l slots local He Hs) as [?|[-> ?]]; lia.
Qed.

(** ** The lookup table *)

Definition total_slots (m : gmap Hash Transaction) : Z := map_fold (fun _ tx acc => numSlots tx + acc) 0 m.

Definition lookup_wf (t : txLookup) : Prop :=
  (forall h tx, lk_all t !! h = Some tx -> tx_hash tx = h) /\ lk_slots t = total_slots (lk_all t).

Lemma total_slots_insert m h tx :
  m !! h = None -> total_slots (<[h := tx]> m) = numSlots tx + total_slots m.
Proof.
  intros Hn. unfold total_slots. apply (map_fold_insert_L (fun _ tx acc => numSlots tx + acc)); [|done].
  intros. lia.
Qed.

Lemma total_slots_delete m h tx :
  m !! h = Some tx -> total_slots m = numSlots tx + total_slots (delete h m).
Proof.
  intros Hs. rewrite <- (insert_delete_id m h tx Hs) at 1. apply total_slots_insert, lookup_delete_eq.
Qed.

Lemma lookup_Add_wf t tx :
  lookup_wf t -> lk_all t !! tx_hash tx = None -> lookup_wf (lookup_Add t tx).
Proof.
  intros [Hh Hs] Hn. split; simpl; [|rewrite total_slots_insert by done; lia].
  intros h tx'. rewrite lookup_insert_Some. naive_solver.
Qed.

Lemma lookup_Remove_wf t h tx :
  lookup_wf t -> lk_all t !! h = Some tx ->
  exists t', lookup_Remove t h = Some t' /\ lookup_wf t' /\ lk_all t' = delete h (lk_all t).
Proof.
  intros [Hh Hs] Hn. unfold lookup_Remove. rewrite Hn. simpl. eexists. split_and!; [done| |done].
  split; simpl; [|rewrite Hs, (total_slots_delete _ _ _ Hn); lia].
  intros h' tx'. rewrite lookup_delete_Some. naive_solver.
Qed.

(** ** The priced list covers the lookup table *)

(** Every known transaction, up to those in [D] (dropped but not yet removed from
    the table), has an entry in the heap. *)
Definition priced_wf (all : gmap Hash Transaction) (D : list Transaction) (l : txPricedList) : Prop :=
  is_heap price_less (pitems l) /\ forall h tx, all !! h = Some tx -> tx ∈ pitems l \/ tx ∈ D.

Lemma priced_wf_sub all all' D l : all' ⊆ all -> priced_wf all D l -> priced_wf all' D l.
Proof. intros Hsub [Hh Hc]. split; [done|]. intros h tx Hh'. eapply Hc. by eapply lookup_weaken. Qed.

Lemma priced_Put_wf all D l tx :
  priced_wf all D l -> priced_wf (<[tx_hash tx := tx]> all) D (priced_Put l tx).
Proof.
  intros [Hh Hc]. destruct (heap_push_spec price_less (pitems l) tx Hh) as [Hh' Hp].
  split; [done|]. intros h tx'. simpl. rewrite Hp, elem_of_cons, lookup_insert_Some. naive_solver.
Qed.

Lemma priced_Removed_wf `{!RangeOrder} t l n D :
  priced_wf (lk_all t) D l -> priced_wf (lk_all t) D (priced_Removed t l n).
Proof.
  intros [Hh Hc]. unfold priced_Removed. destruct (_ <=? _); [done|].
  destruct (heap_init_spec price_less (map_range (lk_all t)).*2) as [Hh' Hp].
  split; [done|]. intros h tx Hl. left. simpl. rewrite Hp, map_range_perm, list_elem_of_fmap.
  exists (h, tx). by rewrite elem_of_map_to_list.
Qed.

(** Dropping entries: what leaves the heap without being stale is in [drop]. *)
Lemma priced_wf_dropped t l l' S drop :
  lookup_wf t -> priced_wf (lk_all t) [] l -> is_heap price_less (pitems l') ->
  pitems l ≡ₚ S ++ drop ++ pitems l' -> Forall (fun tx => is_stale t tx = true) S ->
  priced_wf (lk_all t) drop l'.
Proof.
  intros [Hhash _] [_ Hc] Hh' Hp HS. split; [done|]. intros h tx Hl.
  destruct (Hc _ _ Hl) as [Hin|Hin%elem_of_nil]; [|done].
  rewrite Hp, !elem_of_app in Hin. destruct Hin as [Hin|[?|?]]; [|by right|by left].
  rewrite Forall_forall in HS. specialize (HS tx Hin). simpl in HS. unfold is_stale, lookup_Get in HS.
  apply bool_decide_eq_true in HS. rewrite (Hhash _ _ Hl) in HS. congruence.
Qed.

Lemma priced_length t l :
  priced_wf (lk_all t) [] l -> lookup_wf t -> (size (lk_all t) <= length (pitems l))%nat.
Proof.
  intros [_ Hc] [Hhash _]. rewrite <- length_map_to_list, <- (length_fmap snd (map_to_list _)).
  apply submseteq_length, NoDup_submseteq.
  - apply NoDup_fmap_2_strong; [|apply NoDup_map_to_list].
    intros [h1 t1] [h2 t2] H1%elem_of_map_to_list H2%elem_of_map_to_list. simpl. intros ->.
    by rewrite <- (Hhash _ _ H1), <- (Hhash _ _ H2).
  - intros tx ([h tx'] & -> & Hin%elem_of_map_to_list)%list_elem_of_fmap. simpl.
    destruct (Hc _ _ Hin) as [?|?%elem_of_nil]; done.
Qed.

End PricedSpecs.

(** ** txNoncer *)

Definition noncer_value (n : txNoncer) (a : Address) : Z := default (fallback n a) (nonces n !! a).

Lemma noncer_cached_value n a b : default (fallback n b) (noncer_cached n a !! b) = noncer_value n b.
Proof.
  unfold noncer_cached, noncer_value. destruct (nonces n !! a) eqn:E; [done|].
  destruct (decide (a = b)) as [->|Hne]; [by rewrite lookup_insert_eq, E|by rewrite lookup_insert_ne].
Qed.

Lemma noncer_cached_self n a : noncer_cached n a !! a = Some (noncer_value n a).
Proof.
  unfold noncer_cached, noncer_value. destruct (nonces n !! a) eqn:E; [done|]. by rewrite lookup_insert_eq.
Qed.

(** Reading caches without changing any value. *)
Lemma noncer_get_value n a :
  fst (noncer_get n a) = noncer_value n a /\
  forall b, noncer_value (snd (noncer_get n a)) b = noncer_value n b.
Proof.
  unfold noncer_get. simpl. rewrite noncer_cached_self. split; [done|].
  intros b. unfold noncer_value at 1. simpl. apply noncer_cached_value.
Qed.

Lemma noncer_set_value n a v b :
  noncer_value (noncer_set n a v) b = if decide (a = b) then v else noncer_value n b.
Proof.
  unfold noncer_value. simpl. case_decide as Hd; [subst; by rewrite lookup_insert_eq|by rewrite lookup_insert_ne].
Qed.

Lemma noncer_setIfLower_value n a v b :
  noncer_value (noncer_setIfLower n a v) b
  = if decide (a = b) then Z.min v (noncer_value n b) else noncer_value n b.
Proof.
  unfold noncer_setIfLower. rewrite noncer_cached_self. simpl.
  destruct (Z.leb_spec (noncer_value n a) v) as [Hle|Hgt].
  - unfold noncer_value at 1. simpl. rewrite noncer_cached_value. case_decide; subst; lia.
  - unfold noncer_value at 1. simpl. case_decide as Hd.
    + subst. rewrite lookup_insert_eq. simpl. lia.
    + rewrite lookup_insert_ne by done. apply noncer_cached_value.
Qed.
