(* ===== verification/TxListSpec.v ===== *)
(** * The properties of the transaction lists

    An abstract specification of [txSortedMap] as a finite map from nonces, with a
    simulation theorem for arbitrary traces of operations; the contracts of
    [txList] (replacement, filtering, promotion, gaps) and of [txPricedList]
    (capping, underpricing, discarding). *)
From stdpp Require Import gmap list sorting.
From Stdlib Require Import ZArith Lia.
From S2P Require Import Prelude GoHeap Transaction TxList PricedList.

Local Open Scope Z_scope.

(** ** The sorted map against its specification *)

Inductive sm_op : Type :=
| OpPut (tx : Transaction)
| OpForward (threshold : Z)
| OpFilter (f : Transaction -> bool)
| OpCap (threshold : Z)
| OpRemove (nonce : Z)
| OpReady (start : Z)
| OpFlatten.

Inductive sm_out : Type :=
| OutNone
| OutFound (b : bool)
| OutTxs (l : list Transaction).

Definition op_ok (op : sm_op) : Prop :=
  match op with
  | OpPut tx => is_u64 (Nonce tx)
  | OpCap t => 0 <= t
  | _ => True
  end.

(** What an operation may answer and do, over the map alone: no heap, no cache. *)
Definition spec_step (its : gmap Z Transaction) (op : sm_op) (out : sm_out) (its' : gmap Z Transaction) : Prop :=
  match op, out with
  | OpPut tx, OutNone => its' = <[Nonce tx := tx]> its
  | OpForward t, OutTxs l => its' = from t its /\ sorted_of (below t its) l
  | OpFilter f, OutTxs l =>
      its' = satisfying (fun tx => negb (f tx)) its /\ l ≡ₚ (map_to_list (satisfying f its)).*2
  | OpCap t, OutTxs l =>
      exists c, sorted_of its c /\ l = rev (drop (Z.to_nat t) c) /\ sorted_of its' (take (Z.to_nat t) c)
  | OpRemove n, OutFound b => b = bool_decide (is_Some (its !! n)) /\ its' = delete n its
  | OpReady s, OutTxs l =>
      (l = [] /\ its' = its /\ forall n, is_Some (its !! n) -> s < n) \/
      exists lo, let stop := lo + Z.of_nat (length l) in
        lo <= s /\ (forall n, is_Some (its !! n) -> lo <= n) /\
        Nonce <$> l = seqZ lo (Z.of_nat (length l)) /\ its !! stop = None /\
        sorted_of (below stop its) l /\ its' = from stop its
  | OpFlatten, OutTxs l => its' = its /\ sorted_of its l
  | _, _ => False
  end.

Inductive spec_run : gmap Z Transaction -> list sm_op -> list sm_out -> gmap Z Transaction -> Prop :=
| spec_nil its : spec_run its [] [] its
| spec_cons its op ops out outs its1 its2 :
    spec_step its op out its1 -> spec_run its1 ops outs its2 -> spec_run its (op :: ops) (out :: outs) its2.

Section SortedMap.
Context `{!RangeOrder}.

Definition sm_exec (m : txSortedMap) (op : sm_op) : option (sm_out * txSortedMap) :=
  match op with
  | OpPut tx => Some (OutNone, sm_Put m tx)
  | OpForward t => '(l, m') ← sm_Forward m t; Some (OutTxs l, m')
  | OpFilter f => let '(l, m') := sm_Filter m f in Some (OutTxs l, m')
  | OpCap t => '(l, m') ← sm_Cap m t; Some (OutTxs l, m')
  | OpRemove n => '(b, m') ← sm_Remove m n; Some (OutFound b, m')
  | OpReady s => '(l, m') ← sm_Ready m s; Some (OutTxs l, m')
  | OpFlatten => let '(l, m') := sm_Flatten m in Some (OutTxs l, m')
  end.

Fixpoint sm_run (m : txSortedMap) (ops : list sm_op) : option (list sm_out * txSortedMap) :=
  match ops with
  | [] => Some ([], m)
  | op :: ops' => '(out, m1) ← sm_exec m op; '(outs, m2) ← sm_run m1 ops'; Some (out :: outs, m2)
  end.

Lemma sm_exec_refines m op :
  sm_wf m -> op_ok op ->
  exists out m', sm_exec m op = Some (out, m') /\ sm_wf m' /\ spec_step (items m) op out (items m').
Proof.
  intros Hwf Hok. destruct op as [tx|t|f|t|n|s|]; simpl in *.
  - destruct (sm_Put_spec m tx Hwf Hok). eauto.
  - destruct (sm_Forward_spec m t Hwf) as (l & m' & -> & ? & ? & ?). simpl. eauto 6.
  - destruct (sm_Filter m f) as [l m'] eqn:E. destruct (sm_Filter_spec _ _ _ _ Hwf E) as (? & ? & ?). eauto 6.
  - destruct (sm_flatten_spec m Hwf) as (c & _ & _ & _ & _ & _ & Hc).
    destruct (sm_Cap_spec m t c Hwf Hok Hc) as (m' & -> & ? & ? & ?). simpl. eauto 10.
  - destruct (sm_Remove_spec m n Hwf) as (m' & -> & ? & ?). simpl. eauto 6.
  - destruct (sm_Ready_spec m s Hwf) as (l & m' & -> & ? & Hcase). simpl. eexists _, m'. split_and!; [done|done|].
    destruct Hcase as [(? & -> & ?)|(lo & ? & ? & ? & ? & ? & ? & ?)]; [by left|right]. exists lo. by split_and!.
  - destruct (sm_flatten_spec m Hwf) as (c & m' & Hf & ? & ? & _ & ?). unfold sm_Flatten. rewrite Hf. eauto 6.
Qed.

(** C26: the heap-and-cache implementation of [txSortedMap] refines the plain map:
    any sequence of operations from an empty map runs without a panic, and every
    answer and every state is one the specification over [gmap] allows. *)
Theorem sorted_map_refines_map ops :
  Forall op_ok ops ->
  exists outs m, sm_run newTxSortedMap ops = Some (outs, m) /\ sm_wf m /\ spec_run ∅ ops outs (items m).
Proof.
  intros Hok. assert (Hgen : forall m, sm_wf m ->
    exists outs m', sm_run m ops = Some (outs, m') /\ sm_wf m' /\ spec_run (items m) ops outs (items m')).
  { induction Hok as [|op ops Hop _ IH]; intros m Hwf; simpl; [eexists _, _; split_and!; [done|done|constructor]|].
    destruct (sm_exec_refines m op Hwf Hop) as (out & m1 & -> & Hwf1 & Hs). simpl.
    destruct (IH m1 Hwf1) as (outs & m2 & -> & Hwf2 & Hr). simpl.
    eexists _, _. split_and!; [done|done|by econstructor]. }
  apply (Hgen newTxSortedMap), newTxSortedMap_wf.
Qed.

End SortedMap.

(** ** txList *)

Section TxListClaims.
Context `{!RangeOrder}.

(** [Add] accepts a transaction exactly when its nonce is free or when it pays
    more than the one it replaces by at least [priceBump] percent; a rejected
    transaction leaves the list as it was, and the cost and gas caps keep bounding
    every entry. *)
Theorem Add_replaces_only_when_outbid l tx bump :
  list_wf l -> is_u64 (Nonce tx) -> 0 <= bump < 2 ^ 63 - 100 ->
  match items (txs l) !! Nonce tx with
  | Some old => ~ outbids tx old bump /\ list_Add l tx bump = ((false, None), l)
                \/ outbids tx old bump /\ exists l', list_Add l tx bump = ((true, Some old), l') /\
                   list_wf l' /\ items (txs l') = <[Nonce tx := tx]> (items (txs l))
  | None => exists l', list_Add l tx bump = ((true, None), l') /\
              list_wf l' /\ items (txs l') = <[Nonce tx := tx]> (items (txs l))
  end.
Proof.
  intros Hwf Hu Hb. pose proof (list_Add_spec l tx bump Hwf Hu Hb) as Hs.
  destruct (items (txs l) !! Nonce tx) as [old|].
  - destruct Hs as [?|(? & l' & ? & ? & ? & _)]; [by left|right]. eauto.
  - destruct Hs as (l' & ? & ? & ? & _). eauto.
Qed.

(** [Filter] with its cap shortcut and its incremental index does what the
    direct definition does: the removed transactions are exactly the ones above a
    limit, a strict list also loses every later nonce, nothing else changes, and
    the three parts are a partition of the old list. *)
Theorem Filter_is_direct_filter l costLimit gasLimit :
  list_wf l ->
  exists removed invalids l', list_Filter l costLimit gasLimit = ((removed, invalids), l') /\
    filter_ok l costLimit gasLimit removed invalids l'.
Proof.
  intros Hwf. destruct (list_Filter l costLimit gasLimit) as [[removed invalids] l'] eqn:E.
  exists removed, invalids, l'. split; [done|by eapply list_Filter_spec].
Qed.

(** [Ready] returns the run of consecutive nonces that starts at the lowest one
    when that is due, stops at the first gap, and leaves exactly the rest. *)
Theorem Ready_is_longest_run l start :
  list_wf l ->
  exists ready l', list_Ready l start = Some (ready, l') /\ list_wf l' /\
    ((ready = [] /\ items (txs l') = items (txs l) /\ forall n, is_Some (items (txs l) !! n) -> start < n) \/
     exists lo, let stop := lo + Z.of_nat (length ready) in
       lo <= start /\ is_Some (items (txs l) !! lo) /\ (forall n, is_Some (items (txs l) !! n) -> lo <= n) /\
       Nonce <$> ready = seqZ lo (Z.of_nat (length ready)) /\ items (txs l) !! stop = None /\
       sorted_of (below stop (items (txs l))) ready /\ items (txs l') = from stop (items (txs l))).
Proof. intros Hwf. destruct (list_Ready_spec l start Hwf) as (r & l' & ? & ? & _ & ?). eauto. Qed.

(** An initial or a final part of a gapless map is gapless. *)
Lemma gapless_part (its its' : gmap Z Transaction) :
  gapless its ->
  (forall n, is_Some (its' !! n) -> is_Some (its !! n)) ->
  (forall a k b, is_Some (its' !! a) -> is_Some (its' !! b) -> is_Some (its !! k) -> a <= k <= b -> is_Some (its' !! k)) ->
  gapless its'.
Proof. intros Hg Hsub Hmid a b k Ha Hb Hk. apply (Hmid a k b); eauto. Qed.

Lemma gapless_from t its : gapless its -> gapless (from t its).
Proof.
  intros Hg. apply (gapless_part its); [done|intros n [x Hx]|intros a k b [x Hx] _ [y Hy] Hk].
  - apply map_lookup_filter_Some in Hx as [? _]. eauto.
  - apply map_lookup_filter_Some in Hx as [_ Hx]. exists y. apply map_lookup_filter_Some. simpl in *. split; [done|lia].
Qed.

Lemma gapless_below t its : gapless its -> gapless (below t its).
Proof.
  intros Hg. apply (gapless_part its); [done|intros n [x Hx]|intros a k b _ [x Hx] [y Hy] Hk].
  - apply map_lookup_filter_Some in Hx as [? _]. eauto.
  - apply map_lookup_filter_Some in Hx as [_ Hx]. exists y. apply map_lookup_filter_Some. simpl in *. split; [done|lia].
Qed.

Lemma gapless_take its its' c k :
  keyed its -> gapless its -> sorted_of its c -> sorted_of its' (take k c) -> its' ⊆ its -> gapless its'.
Proof.
  intros Hkey Hg [Hs Hc] [_ Hc'] Hsub. apply (gapless_part its); [done| |].
  - intros n [x Hx]. exists x. by eapply lookup_weaken.
  - intros a j b _ [y Hy] [x Hx] Hj. exists x.
    destruct (Hkey _ _ Hx) as [<- _]. assert (Hby : its !! b = Some y) by (by eapply lookup_weaken).
    destruct (Hkey _ _ Hby) as [<- _]. apply Hc'. apply Hc' in Hy. apply Hc in Hx.
    rewrite <- (take_drop k c) in Hx, Hs. apply elem_of_app in Hx as [Hx|Hx]; [done|].
    apply StronglySorted_app in Hs as (Hord & _ & _). specialize (Hord _ _ Hy Hx). simpl in Hord. lia.
Qed.

Lemma gapless_filter l cl gl removed invalids l' :
  list_wf l -> strict l = true -> gapless (items (txs l)) ->
  list_Filter l cl gl = ((removed, invalids), l') -> gapless (items (txs l')).
Proof.
  intros Hwf Hst Hg Heq. destruct (list_Filter_spec _ _ _ _ _ _ Hwf Heq) as (_ & _ & _ & _ & Hk).
  apply (gapless_part (items (txs l))); [done|intros n [x Hx%Hk]; destruct Hx; eauto|].
  intros a k b _ [y Hy%Hk] [x Hx] Hle. destruct Hy as (_ & _ & Hfirst). exists x. apply Hk.
  split_and!; [done| |intros _ n' tx' Hn' Hab; specialize (Hfirst Hst n' tx' Hn' Hab); lia].
  destruct (above_limits cl gl x) eqn:E; [|done]. specialize (Hfirst Hst k x Hx E). lia.
Qed.

(** a strict (pending) list without nonce gaps stays without gaps under
    [Forward], [Filter], [Cap], [Remove] and [Ready]: none of them can leave a
    transaction behind a missing nonce. *)
Theorem strict_list_stays_gapless l :
  list_wf l -> strict l = true -> gapless (items (txs l)) ->
  (forall t, exists removed l', list_Forward l t = Some (removed, l') /\ gapless (items (txs l'))) /\
  (forall cl gl, exists r l', list_Filter l cl gl = (r, l') /\ gapless (items (txs l'))) /\
  (forall t, 0 <= t -> exists drops l', list_Cap l t = Some (drops, l') /\ gapless (items (txs l'))) /\
  (forall tx, exists r l', list_Remove l tx = Some (r, l') /\ gapless (items (txs l'))) /\
  (forall s, exists ready l', list_Ready l s = Some (ready, l') /\ gapless (items (txs l'))).
Proof.
  intros Hwf Hst Hg. split_and!.
  - intros t. destruct (list_Forward_spec l t Hwf) as (r & l' & ? & _ & _ & Hi & _).
    exists r, l'. split; [done|]. rewrite Hi. by apply gapless_from.
  - intros cl gl. destruct (list_Filter l cl gl) as [[removed invalids] l'] eqn:Heq. exists (removed, invalids), l'.
    split; [done|]. by eapply gapless_filter.
  - intros t Ht. destruct (sm_flatten_spec (txs l) (proj1 Hwf)) as (c & _ & _ & _ & _ & _ & Hc).
    destruct (list_Cap_spec l t c Hwf Ht Hc) as (l' & Hcap & _ & _ & Hc' & Hsub).
    eexists _, l'. split; [exact Hcap|]. by eapply gapless_take; [apply Hwf|..].
  - intros tx. destruct (list_Remove_spec l tx Hwf) as (inv & l' & Hr & _ & _ & _ & _ & Hcase).
    eexists _, l'. split; [exact Hr|]. rewrite Hst in Hcase. case_bool_decide as Hin; simpl in Hcase.
    + rewrite Hcase. by apply gapless_below.
    + destruct Hcase as [-> _]. rewrite delete_id; [done|]. by apply eq_None_not_Some.
  - intros s. destruct (list_Ready_spec l s Hwf) as (r & l' & Hr & _ & _ & Hcase). exists r, l'. split; [done|].
    destruct Hcase as [(_ & -> & _)|(lo & _ & _ & _ & _ & _ & _ & ->)]; [done|]. by apply gapless_from.
Qed.

End TxListClaims.

(** ** txPricedList *)

Section PricedClaims.
Context `{!TxCrypto}.

(** [Cap] returns exactly the known remote transactions below the threshold;
    every entry left in the heap is at or above it or local, and the rest of the
    heap is stale. *)
Theorem Cap_drops_the_underpriced all l thr local :
  is_heap price_less (pitems l) ->
  exists drop l' stale, priced_Cap all l thr local = Some (drop, l') /\ is_heap price_less (pitems l') /\
    pitems l ≡ₚ stale ++ drop ++ pitems l' /\ Forall (fun tx => is_stale all tx = true) stale /\
    Forall (fun tx => fresh_in all tx /\ GasPrice tx < thr /\ as_containsTx local tx = false) drop /\
    Forall (fun tx => thr <= GasPrice tx \/ as_containsTx local tx = true) (pitems l').
Proof. apply priced_Cap_spec. Qed.

(** [Underpriced] is true exactly for a remote transaction that pays no more
    than every known transaction of a heap that knows one; it drops stale entries
    only. *)
Theorem Underpriced_compares_with_cheapest all l tx local :
  is_heap price_less (pitems l) ->
  exists b l' stale, priced_Underpriced all l tx local = Some (b, l') /\ is_heap price_less (pitems l') /\
    pitems l ≡ₚ stale ++ pitems l' /\ Forall (fun tx => is_stale all tx = true) stale /\
    (b = true <-> as_containsTx local tx = false /\ (exists t, t ∈ pitems l /\ fresh_in all t) /\
                  forall t, t ∈ pitems l -> fresh_in all t -> GasPrice tx <= GasPrice t).
Proof. apply priced_Underpriced_spec. Qed.

(** when its allocation is sound, [Discard] drops known remote transactions
    none of which pays more than a remote one it keeps, and stops only when the
    slots are free or nothing but local transactions is left. *)
Theorem Discard_drops_the_cheapest all l slots local :
  is_heap price_less (pitems l) ->
  0 <= discard_slots l slots local <= Z.of_nat (length (pitems l)) ->
  exists drop l' stale, priced_Discard all l slots local = Some (drop, l') /\ is_heap price_less (pitems l') /\
    pitems l ≡ₚ stale ++ drop ++ pitems l' /\ Forall (fun tx => is_stale all tx = true) stale /\
    Forall (fun tx => fresh_in all tx /\ as_containsTx local tx = false) drop /\
    (forall d y, d ∈ drop -> y ∈ pitems l' -> as_containsTx local y = false -> GasPrice d <= GasPrice y) /\
    (discard_slots l slots local <= sum_slots drop \/ forall y, y ∈ pitems l' -> as_containsTx local y = true).
Proof. apply priced_Discard_spec. Qed.

End PricedClaims.

(** ** Witnesses *)

Module ListToy.
#[local] Existing Instances toy_crypto canonical_order.

Definition tx (nonce price gas : Z) : Transaction := NewTransaction 0 nonce 77 0 0 (Some 10) gas (Some price) [].

Definition pending3 : txList :=
  foldl (fun l t => snd (list_Add l t 10)) (newTxList true) [tx 4 5 100; tx 3 5 200; tx 5 5 300].

Lemma add_wf l t : list_wf l -> is_u64 (Nonce t) -> list_wf (snd (list_Add l t 10)).
Proof.
  intros Hwf Hu. pose proof (list_Add_spec l t 10 Hwf Hu ltac:(lia)) as Hs.
  destruct (items (txs l) !! Nonce t); [destruct Hs as [[_ ->]|(_ & l' & -> & ? & _)]; done|].
  by destruct Hs as (l' & -> & ? & _).
Qed.

Lemma pending3_wf : list_wf pending3.
Proof. repeat (apply add_wf; [|by vm_compute]). apply newTxList_wf. Qed.

Lemma pending3_gapless : gapless (items (txs pending3)).
Proof.
  intros a b k Ha Hb Hk.
  assert (Hin : forall n, is_Some (items (txs pending3) !! n) <-> 3 <= n <= 5).
  { intros n. change (items (txs pending3)) with (<[5 := tx 5 5 300]> (<[3 := tx 3 5 200]> (<[4 := tx 4 5 100]> (∅ : gmap Z Transaction)))).
    rewrite !lookup_insert_is_Some, lookup_empty. pose proof (is_Some_None (A := Transaction)). split; [|lia].
    intros [?|[? [?|[? [?|[? ?]]]]]]; [lia..|done]. }
  rewrite !Hin in *. lia.
Qed.

Lemma sorted_map_refines_map_witness :
  exists outs m, sm_run newTxSortedMap [OpPut (tx 7 1 1); OpPut (tx 5 1 1); OpFlatten; OpReady 6] = Some (outs, m) /\
    sm_wf m /\ spec_run ∅ [OpPut (tx 7 1 1); OpPut (tx 5 1 1); OpFlatten; OpReady 6] outs (items m).
Proof. apply (sorted_map_refines_map [OpPut (tx 7 1 1); OpPut (tx 5 1 1); OpFlatten; OpReady 6]). by repeat constructor. Defined.

Lemma Add_replaces_only_when_outbid_witness :
  list_Add pending3 (tx 4 5 1) 10 = ((false, None), pending3).
Proof.
  pose proof (Add_replaces_only_when_outbid pending3 (tx 4 5 1) 10 pending3_wf ltac:(by vm_compute) ltac:(lia)) as Hs.
  change (items (txs pending3) !! Nonce (tx 4 5 1)) with (Some (tx 4 5 100)) in Hs.
  destruct Hs as [[_ Hs]|[[Hs _] _]]; [exact Hs|vm_compute in Hs; discriminate Hs].
Defined.

Lemma Filter_is_direct_filter_witness :
  exists removed invalids l', list_Filter pending3 10 250 = ((removed, invalids), l') /\
    filter_ok pending3 10 250 removed invalids l'.
Proof. apply (Filter_is_direct_filter pending3 10 250), pending3_wf. Defined.

Lemma Ready_is_longest_run_witness :
  exists ready l', list_Ready pending3 3 = Some (ready, l') /\ list_wf l'.
Proof.
  destruct (Ready_is_longest_run pending3 3 pending3_wf) as (r & l' & Hr & Hwf & _). exists r, l'. exact (conj Hr Hwf).
Defined.

Lemma strict_list_stays_gapless_witness :
  exists r l', list_Remove pending3 (tx 4 5 100) = Some (r, l') /\ gapless (items (txs l')).
Proof.
  destruct (strict_list_stays_gapless pending3 pending3_wf eq_refl pending3_gapless) as (_ & _ & _ & Hrem & _).
  apply Hrem.
Defined.

Definition prices : txPricedList := foldl priced_Put newTxPricedList [tx 1 9 0; tx 2 3 0; tx 3 6 0].
Definition known : txLookup := foldl lookup_Add newTxLookup [tx 1 9 0; tx 2 3 0; tx 3 6 0].

Lemma prices_heap : is_heap price_less (pitems prices).
Proof.
  unfold prices. cbn [foldl]. unfold priced_Put. cbn [pitems].
  repeat (apply heap_push_spec; [apply _|]). apply is_heap_nil.
Qed.

Lemma Cap_drops_the_underpriced_witness :
  exists drop l' stale, priced_Cap known prices 7 (newAccountSet []) = Some (drop, l') /\ is_heap price_less (pitems l') /\
    pitems prices ≡ₚ stale ++ drop ++ pitems l' /\ Forall (fun tx => is_stale known tx = true) stale /\
    Forall (fun tx => fresh_in known tx /\ GasPrice tx < 7 /\ as_containsTx (newAccountSet []) tx = false) drop /\
    Forall (fun tx => 7 <= GasPrice tx \/ as_containsTx (newAccountSet []) tx = true) (pitems l').
Proof. apply (Cap_drops_the_underpriced known prices 7 (newAccountSet [])), prices_heap. Defined.

Lemma Underpriced_compares_with_cheapest_witness :
  exists l', priced_Underpriced known prices (tx 9 3 0) (newAccountSet []) = Some (true, l').
Proof.
  destruct (Underpriced_compares_with_cheapest known prices (tx 9 3 0) (newAccountSet []) prices_heap)
    as (b & l' & stale & Heq & _). exists l'. rewrite Heq. vm_compute in Heq. injection Heq as <- _. reflexivity.
Defined.

Lemma Discard_drops_the_cheapest_witness :
  exists drop l', priced_Discard known prices 2 (newAccountSet []) = Some (drop, l') /\
    forall d y, d ∈ drop -> y ∈ pitems l' -> as_containsTx (newAccountSet []) y = false -> GasPrice d <= GasPrice y.
Proof.
  destruct (Discard_drops_the_cheapest known prices 2 (newAccountSet []) prices_heap) as (d & l' & st & Heq & _ & _ & _ & _ & Hmin & _).
  - split; vm_compute; discriminate.
  - exists d, l'. exact (conj Heq Hmin).
Defined.

End ListToy.
