(* ===== verification/TxPool.v ===== *)
(** * The transaction pool

    Models core/tx_pool.go over the lists of [TxList] and [PricedList].  The
    pool object is the record [TxPool]; a method that holds the pool's lock is a
    computation in the state monad [M TxPool], so each is one atomic step, and
    [None] is a run-time panic.

    Parameters: the account state behind the current head ([StateReader]), the
    chain interface ([ChainView]), the clock ([now], read once per call), and the
    two orders the code leaves open: the priority queue of the prque package and
    the unstable [sort.Sort] by heartbeat ([PoolOrders]).  The journal is the
    list of transactions handed to it; metrics and logging are left out. *)
From stdpp Require Import gmap list sorting.
From Stdlib Require Import ZArith Lia.
From S2P Require Import Prelude GoHeap Transaction TxList PricedList.

Local Open Scope Z_scope.

(** ** Configuration *)

Record TxPoolConfig : Type := mk_config {
  Locals : list Address;
  NoLocals : bool;
  Journal : bool;          (* Journal != "" *)
  Rejournal : Z;
  PriceLimit : Z;
  PriceBump : Z;
  AccountSlots : Z;
  GlobalSlots : Z;
  AccountQueue : Z;
  GlobalQueue : Z;
  Lifetime : Z
}.

Definition time_Second : Z := 10 ^ 9.

Definition DefaultTxPoolConfig : TxPoolConfig :=
  mk_config [] false true (3600 * time_Second) 1 10 16 4096 64 1024 (3 * 3600 * time_Second).

Definition sanitize (c : TxPoolConfig) : TxPoolConfig :=
  let D := DefaultTxPoolConfig in
  mk_config (Locals c) (NoLocals c) (Journal c)
    (if Rejournal c <? time_Second then time_Second else Rejournal c)
    (if PriceLimit c <? 1 then PriceLimit D else PriceLimit c)
    (if PriceBump c <? 1 then PriceBump D else PriceBump c)
    (if AccountSlots c <? 1 then AccountSlots D else AccountSlots c)
    (if GlobalSlots c <? 1 then GlobalSlots D else GlobalSlots c)
    (if AccountQueue c <? 1 then AccountQueue D else AccountQueue c)
    (if GlobalQueue c <? 1 then GlobalQueue D else GlobalQueue c)
    (if Lifetime c <? 1 then Lifetime D else Lifetime c).

Inductive pool_error : Type :=
| ErrAlreadyKnown
| ErrInvalidSender
| ErrUnderpriced
| ErrReplaceUnderpriced
| ErrNegativeValue
| ErrOversizedData
| ErrNonceTooLow
| ErrInsufficientFunds.

Inductive TxStatus : Type :=
| TxStatusUnknown
| TxStatusQueued
| TxStatusPending
| TxStatusIncluded.

(** ** What the pool reads *)

(** The [state.StateDB] of the head block. *)
Record StateReader : Type := mk_state {
  GetNonce : Address -> Z;
  GetBalance : Address -> Z
}.

Record head_info : Type := mk_head {
  h_hash : Hash;
  h_parent : Hash;
  h_number : Z;
  h_root : Hash
}.

Record block_info : Type := mk_block {
  b_head : head_info;
  b_txs : list Transaction
}.

(** The [blockChain] interface. *)
Record ChainView : Type := mk_chain {
  chain_CurrentBlock : block_info;
  chain_GetBlock : Hash -> Z -> option block_info;
  chain_StateAt : Hash -> option StateReader
}.

(** Orders the code leaves open: in which sequence [spammers.Pop] returns what
    was pushed with a priority, and how [sort.Sort] arranges addresses by
    heartbeat. *)
Class PoolOrders : Type := {
  prque_order : list (Address * Z) -> list (Address * Z);
  prque_order_perm : forall l, prque_order l ≡ₚ l;
  prque_order_sorted : forall l, StronglySorted (fun x y => y.2 <= x.2) (prque_order l);
  heartbeat_sort : list (Address * Z) -> list (Address * Z);
  heartbeat_sort_perm : forall l, heartbeat_sort l ≡ₚ l;
  heartbeat_sort_sorted : forall l, StronglySorted (fun x y => x.2 <= y.2) (heartbeat_sort l)
}.

(** ** State *)

Record TxPool : Type := mk_pool {
  config : TxPoolConfig;
  gasPrice : Z;
  currentState : StateReader;
  pendingNonces : txNoncer;
  currentMaxGas : Z;
  locals : accountSet;
  journal : option (list Transaction);
  pending : gmap Address txList;
  queue : gmap Address txList;
  beats : gmap Address Z;
  all : txLookup;
  priced : txPricedList;
  events : list Transaction      (* sent on queueTxEventCh *)
}.

Definition set_pending (f : gmap Address txList -> gmap Address txList) (p : TxPool) : TxPool :=
  mk_pool (config p) (gasPrice p) (currentState p) (pendingNonces p) (currentMaxGas p) (locals p)
    (journal p) (f (pending p)) (queue p) (beats p) (all p) (priced p) (events p).
Definition set_queue (f : gmap Address txList -> gmap Address txList) (p : TxPool) : TxPool :=
  mk_pool (config p) (gasPrice p) (currentState p) (pendingNonces p) (currentMaxGas p) (locals p)
    (journal p) (pending p) (f (queue p)) (beats p) (all p) (priced p) (events p).
Definition set_beats (f : gmap Address Z -> gmap Address Z) (p : TxPool) : TxPool :=
  mk_pool (config p) (gasPrice p) (currentState p) (pendingNonces p) (currentMaxGas p) (locals p)
    (journal p) (pending p) (queue p) (f (beats p)) (all p) (priced p) (events p).
Definition set_all (t : txLookup) (p : TxPool) : TxPool :=
  mk_pool (config p) (gasPrice p) (currentState p) (pendingNonces p) (currentMaxGas p) (locals p)
    (journal p) (pending p) (queue p) (beats p) t (priced p) (events p).
Definition set_priced (l : txPricedList) (p : TxPool) : TxPool :=
  mk_pool (config p) (gasPrice p) (currentState p) (pendingNonces p) (currentMaxGas p) (locals p)
    (journal p) (pending p) (queue p) (beats p) (all p) l (events p).
Definition set_nonces (n : txNoncer) (p : TxPool) : TxPool :=
  mk_pool (config p) (gasPrice p) (currentState p) n (currentMaxGas p) (locals p)
    (journal p) (pending p) (queue p) (beats p) (all p) (priced p) (events p).
Definition set_locals (s : accountSet) (p : TxPool) : TxPool :=
  mk_pool (config p) (gasPrice p) (currentState p) (pendingNonces p) (currentMaxGas p) s
    (journal p) (pending p) (queue p) (beats p) (all p) (priced p) (events p).
Definition set_journal (j : option (list Transaction)) (p : TxPool) : TxPool :=
  mk_pool (config p) (gasPrice p) (currentState p) (pendingNonces p) (currentMaxGas p) (locals p)
    j (pending p) (queue p) (beats p) (all p) (priced p) (events p).
Definition set_events (e : list Transaction) (p : TxPool) : TxPool :=
  mk_pool (config p) (gasPrice p) (currentState p) (pendingNonces p) (currentMaxGas p) (locals p)
    (journal p) (pending p) (queue p) (beats p) (all p) (priced p) e.
Definition set_gasPrice (g : Z) (p : TxPool) : TxPool :=
  mk_pool (config p) g (currentState p) (pendingNonces p) (currentMaxGas p) (locals p)
    (journal p) (pending p) (queue p) (beats p) (all p) (priced p) (events p).
Definition set_state (st : StateReader) (p : TxPool) : TxPool :=
  mk_pool (config p) (gasPrice p) st (newTxNoncer (GetNonce st)) (currentMaxGas p) (locals p)
    (journal p) (pending p) (queue p) (beats p) (all p) (priced p) (events p).

Section Pool.
Context `{!TxCrypto} `{!RangeOrder} `{!PoolOrders}.
Variable now : Z.

Definition all_Remove (h : Hash) : M TxPool () :=
  p ← mget;
  t ← mlift (lookup_Remove (all p) h);
  mmodify (set_all t).

Definition all_Add (tx : Transaction) : M TxPool () :=
  mmodify (fun p => set_all (lookup_Add (all p) tx) p).

Definition pool_priced_Put (tx : Transaction) : M TxPool () :=
  mmodify (fun p => set_priced (priced_Put (priced p) tx) p).

Definition pool_priced_Removed (n : Z) : M TxPool () :=
  mmodify (fun p => set_priced (priced_Removed (all p) (priced p) n) p).

Definition nonces_get (a : Address) : M TxPool Z :=
  p ← mget;
  let '(v, n) := noncer_get (pendingNonces p) a in
  _ ← mmodify (set_nonces n);
  mret v.

Definition nonces_set (a : Address) (v : Z) : M TxPool () :=
  mmodify (fun p => set_nonces (noncer_set (pendingNonces p) a v) p).

Definition nonces_setIfLower (a : Address) (v : Z) : M TxPool () :=
  mmodify (fun p => set_nonces (noncer_setIfLower (pendingNonces p) a v) p).

(** ** Validation *)

Definition validateTx (p : TxPool) (tx : Transaction) (local : bool) : option pool_error :=
  if tx_size tx >? txMaxSize then Some ErrOversizedData
  else if Value tx <? 0 then Some ErrNegativeValue
  else match signer_Sender pool_signer tx with
  | Ret from =>
      let local' := local || as_contains (locals p) from in
      if negb local' && (GasPriceIntCmp tx (gasPrice p) <? 0) then Some ErrUnderpriced
      else if GetNonce (currentState p) from >? Nonce tx then Some ErrNonceTooLow
      else if big_cmp (GetBalance (currentState p) from) (Cost tx) <? 0 then Some ErrInsufficientFunds
      else None
  | _ => Some ErrInvalidSender
  end.

(** ** Queueing and journalling *)

Definition enqueueTx (hash : Hash) (tx : Transaction) : M TxPool (bool * option pool_error) :=
  let from := sender_of tx in
  _ ← mmodify (fun p => match queue p !! from with
                        | None => set_queue <[from := newTxList false]> p
                        | Some _ => p
                        end);
  p ← mget;
  l ← mlift (queue p !! from);
  let '((inserted, old), l') := list_Add l tx (PriceBump (config p)) in
  _ ← mmodify (set_queue <[from := l']>);
  if negb inserted then mret (false, Some ErrReplaceUnderpriced)
  else
    _ ← match old with
        | Some o => _ ← all_Remove (tx_hash o); pool_priced_Removed 1
        | None => mret tt
        end;
    p ← mget;
    _ ← match lookup_Get (all p) hash with
        | None => _ ← all_Add tx; pool_priced_Put tx
        | Some _ => mret tt
        end;
    _ ← mmodify (fun p => match beats p !! from with
                          | None => set_beats <[from := now]> p
                          | Some _ => p
                          end);
    mret (bool_decide (is_Some old), None).

Definition journalTx (from : Address) (tx : Transaction) : M TxPool () :=
  mmodify (fun p => match journal p with
                    | Some j => if as_contains (locals p) from then set_journal (Some (j ++ [tx])) p else p
                    | None => p
                    end).

(** The send on [queueTxEventCh]. *)
Definition queueTxEvent (tx : Transaction) : M TxPool () :=
  mmodify (fun p => set_events (events p ++ [tx]) p).

(** ** Removal *)

(** The pending part of [removeTx]: whether the transaction was found there. *)
Definition remove_from_pending (addr : Address) (tx : Transaction) : M TxPool bool :=
  p ← mget;
  match pending p !! addr with
  | None => mret false
  | Some l =>
      '((removed, invalids), l') ← mlift (list_Remove l tx);
      _ ← mmodify (set_pending <[addr := l']>);
      if (removed : bool) then
        _ ← (if list_Empty l' then mmodify (set_pending (delete addr)) else mret tt);
        _ ← mfor invalids (fun tx' => _ ← enqueueTx (tx_hash tx') tx'; mret tt);
        _ ← nonces_setIfLower addr (Nonce tx);
        mret true
      else mret false
  end.

(** The future queue part of [removeTx]. *)
Definition remove_from_queue (addr : Address) (tx : Transaction) : M TxPool () :=
  p ← mget;
  match queue p !! addr with
  | None => mret tt
  | Some l =>
      '(_, l') ← mlift (list_Remove l tx);
      _ ← mmodify (set_queue <[addr := l']>);
      if list_Empty l' then
        mmodify (fun p => set_beats (delete addr) (set_queue (delete addr) p))
      else mret tt
  end.

Definition removeTx (hash : Hash) (outofbound : bool) : M TxPool () :=
  p ← mget;
  match lookup_Get (all p) hash with
  | None => mret tt
  | Some tx =>
      let addr := sender_of tx in
      _ ← all_Remove hash;
      _ ← (if outofbound then pool_priced_Removed 1 else mret tt);
      fromPending ← remove_from_pending addr tx;
      if (fromPending : bool) then mret tt else remove_from_queue addr tx
  end.

(** ** Insertion *)

(** [int(GlobalSlots + GlobalQueue)] of a [uint64] sum. *)
Definition pool_limit (c : TxPoolConfig) : Z := u64 (GlobalSlots c + GlobalQueue c).

(** Discarding the cheapest remote transactions to fit [tx]. *)
Definition discard_for (tx : Transaction) : M TxPool () :=
  p ← mget;
  '(drop, l') ← mlift (priced_Discard (all p) (priced p)
                         (lookup_Slots (all p) - i64 (pool_limit (config p)) + numSlots tx) (locals p));
  _ ← mmodify (set_priced l');
  mfor drop (fun tx' => removeTx (tx_hash tx') false).

(** The part of [add] that makes room; the result is the error, if any. *)
Definition make_room (tx : Transaction) (local : bool) : M TxPool (option pool_error) :=
  p ← mget;
  if lookup_Count (all p) >=? pool_limit (config p) then
    under ← (if local then mret false
             else '(b, l') ← mlift (priced_Underpriced (all p) (priced p) tx (locals p));
                  _ ← mmodify (set_priced l');
                  mret b);
    if (under : bool) then mret (Some ErrUnderpriced)
    else
      _ ← discard_for tx;
      mret None
  else mret None.

(** The replacement of a pending transaction of the same nonce. *)
Definition replace_pending (from : Address) (l : txList) (tx : Transaction) : M TxPool (bool * option pool_error) :=
  p ← mget;
  let '((inserted, old), l') := list_Add l tx (PriceBump (config p)) in
  _ ← mmodify (set_pending <[from := l']>);
  if negb inserted then mret (false, Some ErrReplaceUnderpriced)
  else
    _ ← match old with
        | Some o => _ ← all_Remove (tx_hash o); pool_priced_Removed 1
        | None => mret tt
        end;
    _ ← all_Add tx;
    _ ← pool_priced_Put tx;
    _ ← journalTx from tx;
    _ ← queueTxEvent tx;
    _ ← mmodify (set_beats <[from := now]>);
    mret (bool_decide (is_Some old), None).

(** The insertion of a transaction that replaces no pending one. *)
Definition push_queue (hash : Hash) (from : Address) (tx : Transaction) (local : bool)
    : M TxPool (bool * option pool_error) :=
  '(replaced, err) ← enqueueTx hash tx;
  match err with
  | Some e => mret (false, Some e)
  | None =>
      _ ← mmodify (fun p => if local && negb (as_contains (locals p) from)
                            then set_locals (as_add (locals p) from) p else p);
      _ ← journalTx from tx;
      mret (replaced, None)
  end.

Definition add (tx : Transaction) (local : bool) : M TxPool (bool * option pool_error) :=
  let hash := tx_hash tx in
  p ← mget;
  match lookup_Get (all p) hash with
  | Some _ => mret (false, Some ErrAlreadyKnown)
  | None =>
    match validateTx p tx local with
    | Some e => mret (false, Some e)
    | None =>
      room ← make_room tx local;
      match room with
      | Some e => mret (false, Some e)
      | None =>
          let from := sender_of tx in
          p ← mget;
          match pending p !! from with
          | Some l => if list_Overlaps l tx then replace_pending from l tx
                      else push_queue hash from tx local
          | None => push_queue hash from tx local
          end
      end
    end
  end.

(** ** Batches *)

Fixpoint addTxsLocked_loop (txs : list Transaction) (local : bool) (dirty : accountSet)
    : M TxPool (list (option pool_error) * accountSet) :=
  match txs with
  | [] => mret ([], dirty)
  | tx :: txs' =>
      '(replaced, err) ← add tx local;
      let dirty' := match err with
                    | None => if negb replaced then as_addTx dirty tx else dirty
                    | Some _ => dirty
                    end in
      '(errs, dirty'') ← addTxsLocked_loop txs' local dirty';
      mret (err :: errs, dirty'')
  end.

Definition addTxsLocked (txs : list Transaction) (local : bool)
    : M TxPool (list (option pool_error) * accountSet) :=
  addTxsLocked_loop txs local (newAccountSet []).

(** The checks of [addTxs] before the lock is taken. *)
Definition precheck (p : TxPool) (tx : Transaction) : option pool_error :=
  match lookup_Get (all p) (tx_hash tx) with
  | Some _ => Some ErrAlreadyKnown
  | None => if valid_sender tx then None else Some ErrInvalidSender
  end.

(** The merge of the new errors into the slots left nil: [errs[nilSlot]] past the
    end of the slice panics. *)
Fixpoint merge_errs (errs : list (option pool_error)) (newErrs : list (option pool_error))
    : option (list (option pool_error)) :=
  match errs, newErrs with
  | _, [] => Some errs
  | [], _ :: _ => None
  | Some e :: errs', _ => l ← merge_errs errs' newErrs; Some (Some e :: l)
  | None :: errs', e :: newErrs' => l ← merge_errs errs' newErrs'; Some (e :: l)
  end.

(** [addTxs] up to the promotion request it issues; the result is the errors and
    the accounts to promote. *)
Definition addTxs (txs : list Transaction) (local : bool)
    : M TxPool (list (option pool_error) * option accountSet) :=
  p ← mget;
  let errs := precheck p <$> txs in
  let news := List.filter (fun tx => bool_decide (precheck p tx = None)) txs in
  if decide (length news = 0)%nat then mret (errs, None)
  else
    '(newErrs, dirty) ← addTxsLocked news local;
    errs' ← mlift (merge_errs errs newErrs);
    mret (errs', Some dirty).

Definition AddLocals (txs : list Transaction) : M TxPool (list (option pool_error) * option accountSet) :=
  p ← mget;
  addTxs txs (negb (NoLocals (config p))).

Definition AddRemotes (txs : list Transaction) : M TxPool (list (option pool_error) * option accountSet) :=
  addTxs txs false.

(** ** Promotion *)

Definition promoteTx (addr : Address) (hash : Hash) (tx : Transaction) : M TxPool bool :=
  _ ← mmodify (fun p => match pending p !! addr with
                        | None => set_pending <[addr := newTxList true]> p
                        | Some _ => p
                        end);
  p ← mget;
  l ← mlift (pending p !! addr);
  let '((inserted, old), l') := list_Add l tx (PriceBump (config p)) in
  _ ← mmodify (set_pending <[addr := l']>);
  if negb inserted then
    _ ← all_Remove hash;
    _ ← pool_priced_Removed 1;
    mret false
  else
    _ ← match old with
        | Some o => _ ← all_Remove (tx_hash o); pool_priced_Removed 1
        | None => mret tt
        end;
    p ← mget;
    _ ← match lookup_Get (all p) hash with
        | None => _ ← all_Add tx; pool_priced_Put tx
        | Some _ => mret tt
        end;
    _ ← nonces_set addr (u64 (Nonce tx + 1));
    _ ← mmodify (set_beats <[addr := now]>);
    mret true.

Fixpoint promote_readies (addr : Address) (readies : list Transaction) : M TxPool (list Transaction) :=
  match readies with
  | [] => mret []
  | tx :: rest =>
      b ← promoteTx addr (tx_hash tx) tx;
      r ← promote_readies addr rest;
      mret (if (b : bool) then tx :: r else r)
  end.

Definition remove_all (l : list Transaction) : M TxPool () := mfor l (fun tx => all_Remove (tx_hash tx)).

(** One turn of the loop of [promoteExecutables]. *)
Definition promote_account (addr : Address) : M TxPool (list Transaction) :=
  p ← mget;
  match queue p !! addr with
  | None => mret []
  | Some l =>
      '(forwards, l) ← mlift (list_Forward l (GetNonce (currentState p) addr));
      _ ← mmodify (set_queue <[addr := l]>);
      _ ← remove_all forwards;
      let '((drops, _), l) := list_Filter l (GetBalance (currentState p) addr) (currentMaxGas p) in
      _ ← mmodify (set_queue <[addr := l]>);
      _ ← remove_all drops;
      start ← nonces_get addr;
      '(readies, l) ← mlift (list_Ready l start);
      _ ← mmodify (set_queue <[addr := l]>);
      promoted ← promote_readies addr readies;
      '(caps, l) ← (if as_contains (locals p) addr then mret ([], l)
                    else mlift (list_Cap l (i64 (AccountQueue (config p)))));
      _ ← mmodify (set_queue <[addr := l]>);
      _ ← remove_all caps;
      _ ← pool_priced_Removed (Z.of_nat (length forwards + length drops + length caps));
      _ ← (if list_Empty l
           then mmodify (fun p => set_beats (delete addr) (set_queue (delete addr) p))
           else mret tt);
      mret promoted
  end.

Fixpoint promoteExecutables (addrs : list Address) : M TxPool (list Transaction) :=
  match addrs with
  | [] => mret []
  | addr :: rest =>
      p1 ← promote_account addr;
      p2 ← promoteExecutables rest;
      mret (p1 ++ p2)
  end.

(** ** Demotion *)

Definition enqueue_all (l : list Transaction) : M TxPool () :=
  mfor l (fun tx => _ ← enqueueTx (tx_hash tx) tx; mret tt).

(** One turn of the loop of [demoteUnexecutables]. *)
Definition demote_account (addr : Address) : M TxPool () :=
  p ← mget;
  l ← mlift (pending p !! addr);
  let nonce := GetNonce (currentState p) addr in
  '(olds, l) ← mlift (list_Forward l nonce);
  _ ← mmodify (set_pending <[addr := l]>);
  _ ← remove_all olds;
  let '((drops, invalids), l) := list_Filter l (GetBalance (currentState p) addr) (currentMaxGas p) in
  _ ← mmodify (set_pending <[addr := l]>);
  _ ← remove_all drops;
  _ ← pool_priced_Removed (Z.of_nat (length olds + length drops));
  _ ← enqueue_all invalids;
  l ← (if (list_Len l >? 0) && bool_decide (sm_Get (txs l) nonce = None) then
         '(gapped, l) ← mlift (list_Cap l 0);
         _ ← mmodify (set_pending <[addr := l]>);
         _ ← enqueue_all gapped;
         mret l
       else mret l);
  if list_Empty l then mmodify (set_pending (delete addr)) else mret tt.

Definition demoteUnexecutables : M TxPool () :=
  p ← mget;
  mfor (map_range (pending p)).*1 demote_account.

(** ** Truncation *)

Definition pending_len (p : TxPool) (addr : Address) : option Z := list_Len <$> pending p !! addr.

(** Dropping the last pending transaction of an offender. *)
Definition cap_one (addr : Address) : M TxPool () :=
  p ← mget;
  l ← mlift (pending p !! addr);
  '(caps, l') ← mlift (list_Cap l (list_Len l - 1));
  _ ← mmodify (set_pending <[addr := l']>);
  _ ← mfor caps (fun tx => _ ← all_Remove (tx_hash tx); nonces_setIfLower addr (Nonce tx));
  pool_priced_Removed (Z.of_nat (length caps)).

(** The loops that cap every account of [offs] by one until the total is within
    the limit or the account [guard] is down to [floor].  [None] when the fuel
    runs out; the length of the guard's list is enough. *)
Fixpoint shrink_loop (fuel : nat) (guard : Address) (floor : Z) (offs : list Address) (total : Z)
    : M TxPool Z :=
  p ← mget;
  if total >? GlobalSlots (config p) then
    len ← mlift (pending_len p guard);
    if len >? floor then
      match fuel with
      | O => mpanic
      | S fuel' =>
          _ ← mfor offs cap_one;
          shrink_loop fuel' guard floor offs (u64 (total - Z.of_nat (length offs)))
      end
    else mret total
  else mret total.

Definition shrink (guard : Address) (floor : Z) (offs : list Address) (total : Z) : M TxPool Z :=
  p ← mget;
  shrink_loop (Z.to_nat (default 0 (pending_len p guard))) guard floor offs total.

(** The loop that pops offenders and equalizes the earlier ones with the last. *)
Fixpoint offenders_loop (spammers offenders : list Address) (total : Z) : M TxPool (list Address * Z) :=
  match spammers with
  | [] => mret (offenders, total)
  | off :: rest =>
      p ← mget;
      if total >? GlobalSlots (config p) then
        total' ← match last offenders with
                 | None => mret total
                 | Some prev =>
                     threshold ← mlift (pending_len p off);
                     shrink prev threshold offenders total
                 end;
        offenders_loop rest (offenders ++ [off]) total'
      else mret (offenders, total)
  end.

Definition sum_lens (m : gmap Address txList) : Z :=
  foldl (fun acc '(_, l) => u64 (acc + list_Len l)) 0 (map_range m).

Definition truncatePending : M TxPool () :=
  p ← mget;
  let total := sum_lens (pending p) in
  if total <=? GlobalSlots (config p) then mret tt
  else
    let spammers := prque_order
      (omap (fun '(addr, l) => if negb (as_contains (locals p) addr) && (list_Len l >? AccountSlots (config p))
                               then Some (addr, list_Len l) else None) (map_range (pending p))) in
    '(offenders, total) ← offenders_loop spammers.*1 [] total;
    match last offenders with
    | None => mret tt
    | Some lst => _ ← shrink lst (AccountSlots (config p)) offenders total; mret tt
    end.

(** [for i := len(txs) - 1; i >= 0 && drop > 0; i--]. *)
Fixpoint drop_last_loop (rtxs : list Transaction) (drop : Z) : M TxPool Z :=
  match rtxs with
  | [] => mret drop
  | tx :: rest =>
      if drop >? 0 then
        _ ← removeTx (tx_hash tx) true;
        drop_last_loop rest (drop - 1)
      else mret drop
  end.

Fixpoint truncateQueue_loop (addrs : list Address) (drop : Z) : M TxPool () :=
  match addrs with
  | [] => mret tt
  | addr :: rest =>
      if drop >? 0 then
        p ← mget;
        l ← mlift (queue p !! addr);
        let '(flat, l') := list_Flatten l in
        _ ← mmodify (set_queue <[addr := l']>);
        if list_Len l <=? drop then
          _ ← mfor flat (fun tx => removeTx (tx_hash tx) true);
          truncateQueue_loop rest (drop - list_Len l)
        else
          drop' ← drop_last_loop (rev flat) drop;
          truncateQueue_loop rest drop'
      else mret tt
  end.

Definition truncateQueue : M TxPool () :=
  p ← mget;
  let queued := sum_lens (queue p) in
  if queued <=? GlobalQueue (config p) then mret tt
  else
    let addresses := heartbeat_sort
      (omap (fun '(addr, _) => if negb (as_contains (locals p) addr)
                               then Some (addr, default 0 (beats p !! addr)) else None) (map_range (queue p))) in
    truncateQueue_loop (rev addresses.*1) (queued - GlobalQueue (config p)).

(** ** Head changes *)

(** [rem] or [add] walking back to height [target]: the transactions of the blocks
    passed, and the block reached; [Err] when a parent is missing.  Each turn
    lowers the height by one. *)
Fixpoint walk_down (chain : ChainView) (fuel : nat) (blk : block_info) (target : Z) (acc : list Transaction)
    : outcome () (block_info * list Transaction) :=
  if h_number (b_head blk) >? target then
    match fuel with
    | O => Panic
    | S fuel' =>
        match chain_GetBlock chain (h_parent (b_head blk)) (u64 (h_number (b_head blk) - 1)) with
        | None => Err tt
        | Some blk' => walk_down chain fuel' blk' target (acc ++ b_txs blk)
        end
    end
  else Ret (blk, acc).

(** Both branches walking back together until they meet. *)
Fixpoint walk_both (chain : ChainView) (fuel : nat) (rem add : block_info) (discarded included : list Transaction)
    : outcome () (list Transaction * list Transaction) :=
  if h_hash (b_head rem) =? h_hash (b_head add) then Ret (discarded, included)
  else match fuel with
  | O => Panic
  | S fuel' =>
      match chain_GetBlock chain (h_parent (b_head rem)) (u64 (h_number (b_head rem) - 1)) with
      | None => Err tt
      | Some rem' =>
          match chain_GetBlock chain (h_parent (b_head add)) (u64 (h_number (b_head add) - 1)) with
          | None => Err tt
          | Some add' => walk_both chain fuel' rem' add' (discarded ++ b_txs rem) (included ++ b_txs add)
          end
      end
  end.

(** The transactions to reinject; [Err] is an early return of [reset], [Panic] a
    nil dereference of the new head block or fuel running out.  The depth is
    computed in [float64]; block numbers below [2 ^ 53] make that exact. *)
Definition reorg_txs (chain : ChainView) (oldHead newHead : head_info) : outcome () (list Transaction) :=
  if h_hash oldHead =? h_parent newHead then Ret []
  else if Z.abs (h_number oldHead - h_number newHead) >? 64 then Ret []
  else
    match chain_GetBlock chain (h_hash oldHead) (h_number oldHead) with
    | None => Err tt
    | Some rem =>
        match chain_GetBlock chain (h_hash newHead) (h_number newHead) with
        | None => Panic
        | Some add =>
            '(rem', discarded) ← walk_down chain (Z.to_nat (h_number (b_head rem))) rem (h_number (b_head add)) [];
            '(add', included) ← walk_down chain (Z.to_nat (h_number (b_head add))) add (h_number (b_head rem')) [];
            '(discarded', included') ←
              walk_both chain (S (Z.to_nat (h_number (b_head rem')))) rem' add' discarded included;
            Ret (TxDifference discarded' included')
        end
    end.

(** [newHead] is never nil outside of tests. *)
Definition reset (chain : ChainView) (oldHead : option head_info) (newHead : head_info) : M TxPool () :=
  match (match oldHead with Some o => reorg_txs chain o newHead | None => Ret [] end) with
  | Panic => mpanic
  | Err _ => mret tt
  | Ret reinject =>
      match chain_StateAt chain (h_root newHead) with
      | None => mret tt
      | Some statedb =>
          _ ← mmodify (set_state statedb);
          _ ← addTxsLocked reinject false;
          mret tt
      end
  end.

(** ** The reorganisation run *)

(** [events[addr].Put(tx)] on a map of sorted maps. *)
Definition put_event (ev : gmap Address txSortedMap) (tx : Transaction) : gmap Address txSortedMap :=
  let addr := sender_of tx in
  <[addr := sm_Put (default newTxSortedMap (ev !! addr)) tx]> ev.

Fixpoint forward_events (addrs : list Address) (ev : gmap Address txSortedMap)
    : M TxPool (gmap Address txSortedMap) :=
  match addrs with
  | [] => mret ev
  | addr :: rest =>
      n ← nonces_get addr;
      m ← mlift (ev !! addr);
      '(_, m') ← mlift (sm_Forward m n);
      forward_events rest (if sm_Len m' =? 0 then delete addr ev else <[addr := m']> ev)
  end.

(** [for addr, list := range pool.pending { pendingNonces.set(addr, last + 1) }]. *)
Definition refresh_nonce (addr : Address) : M TxPool () :=
  p ← mget;
  l ← mlift (pending p !! addr);
  '(highest, l') ← mlift (list_LastElement l);
  _ ← mmodify (set_pending <[addr := l']>);
  nonces_set addr (u64 (Nonce highest + 1)).

(** The middle of [runReorg], with the pool locked: promotion, demotion after a
    reset, truncation, and the update of the pending nonces. *)
Definition settle (afterReset : bool) (promoteAddrs : list Address) : M TxPool (list Transaction) :=
  promoted ← promoteExecutables promoteAddrs;
  _ ← (if afterReset then demoteUnexecutables else mret tt);
  _ ← truncatePending;
  _ ← truncateQueue;
  p ← mget;
  _ ← mfor (map_range (pending p)).*1 refresh_nonce;
  mret promoted.

(** The transactions announced on the feed are the result. *)
Definition runReorg (chain : ChainView) (rst : option (option head_info * head_info))
    (dirty : option accountSet) (ev : gmap Address txSortedMap) : M TxPool (list Transaction) :=
  '(ev, promoteAddrs) ←
    match rst with
    | Some (oldHead, newHead) =>
        _ ← reset chain oldHead newHead;
        ev' ← forward_events (map_range ev).*1 ev;
        p ← mget;
        mret (ev', (map_range (queue p)).*1)
    | None => mret (ev, match dirty with Some d => fst (as_flatten d) | None => [] end)
    end;
  promoted ← settle (bool_decide (is_Some rst)) promoteAddrs;
  let ev' := foldl put_event ev promoted in
  mret (concat ((fun '(_, m) => fst (sm_Flatten m)) <$> map_range ev')).

(** ** Other entry points *)

Definition SetGasPrice (price : Z) : M TxPool () :=
  _ ← mmodify (set_gasPrice price);
  p ← mget;
  '(drop, l') ← mlift (priced_Cap (all p) (priced p) price (locals p));
  _ ← mmodify (set_priced l');
  mfor drop (fun tx => removeTx (tx_hash tx) false).

(** One account of the eviction tick of [loop]. *)
Definition evict_account (addr : Address) : M TxPool () :=
  p ← mget;
  match queue p !! addr with
  | None => mret tt
  | Some l =>
      if as_contains (locals p) addr then mret tt
      else if now - default 0 (beats p !! addr) >? Lifetime (config p) then
        let '(flat, l') := list_Flatten l in
        _ ← mmodify (set_queue <[addr := l']>);
        mfor flat (fun tx => removeTx (tx_hash tx) true)
      else mret tt
  end.

Definition evict_tick : M TxPool () :=
  p ← mget;
  mfor (map_range (queue p)).*1 evict_account.

Definition stats (p : TxPool) : Z * Z :=
  let count m := foldl (fun acc (b : Address * txList) => acc + list_Len b.2) 0 (map_range m) in
  (count (pending p), count (queue p)).

Definition pool_Get (p : TxPool) (h : Hash) : option Transaction := lookup_Get (all p) h.
Definition pool_Has (p : TxPool) (h : Hash) : bool := bool_decide (is_Some (lookup_Get (all p) h)).

Definition status_of (p : TxPool) (h : Hash) : TxStatus :=
  match pool_Get p h with
  | None => TxStatusUnknown
  | Some tx =>
      let from := sender_of tx in
      let has (m : gmap Address txList) :=
        match m !! from with
        | Some l => bool_decide (is_Some (items (txs l) !! Nonce tx))
        | None => false
        end in
      if has (pending p) then TxStatusPending
      else if has (queue p) then TxStatusQueued
      else TxStatusUnknown
  end.

Definition Status (p : TxPool) (hashes : list Hash) : list TxStatus := status_of p <$> hashes.

(** [Pending]: every pending list flattened, by account. *)
Definition Pending : M TxPool (gmap Address (list Transaction)) :=
  p ← mget;
  let flat := (fun l => list_Flatten l) <$> pending p in
  _ ← mmodify (set_pending (fun _ => snd <$> flat));
  mret (fst <$> flat).

(** The pool [NewTxPool] builds before it loads the journal and starts its loops. *)
Definition NewTxPool (cfg : TxPoolConfig) (chain : ChainView) (zero_state : StateReader) : option TxPool :=
  let c := sanitize cfg in
  let p := mk_pool c (PriceLimit c) zero_state (newTxNoncer (GetNonce zero_state)) 0
             (foldl as_add (newAccountSet []) (Locals c)) None ∅ ∅ ∅ newTxLookup newTxPricedList [] in
  snd <$> reset chain None (b_head (chain_CurrentBlock chain)) p.

End Pool.
