(* ===== verification/TxPoolInv.v ===== *)
(** * The transaction pool keeps its books

    The invariant [pool_inv] of the pool of [TxPool.v]: the lookup table is the
    disjoint union of the pending and the queued lists, each transaction is filed
    under its sender and nonce in at most one list, the slot count is the sum
    over the table, and the price heap covers the table.  Every locked method
    preserves it and does not panic.

    While a method runs, transactions taken out of a list but not yet removed
    from the table (or the other way round) are in limbo: the invariant carries
    them as the list [L], the transactions dropped from the price heap but still
    in the table as [D], and the accounts whose pending list may be empty as
    [E].  Between methods all three are empty. *)
From stdpp Require Import gmap list sorting.
From Stdlib Require Import ZArith Lia.
From S2P Require Import Prelude GoHeap Transaction TxList PricedList TxPool.

Local Open Scope Z_scope.

Section Inv.
Context `{!TxCrypto}.

(** The transaction of account [a] at nonce [n] in a map of lists. *)
Definition slot (m : gmap Address txList) (a : Address) (n : Z) : option Transaction :=
  l ← m !! a; items (txs l) !! n.

Definition slot_of (tx : Transaction) : Address * Z := (sender_of tx, Nonce tx).

Definition tx_ok (tx : Transaction) : Prop := valid_sender tx = true /\ is_u64 (Nonce tx).

(** What [sanitize] ensures, and sums that fit an [int64]. *)
Record config_ok (c : TxPoolConfig) : Prop := mk_config_ok {
  cfg_bump : 0 <= PriceBump c < 2 ^ 63 - 100;
  cfg_account_slots : 1 <= AccountSlots c;
  cfg_global_slots : 1 <= GlobalSlots c;
  cfg_account_queue : 1 <= AccountQueue c < 2 ^ 63;
  cfg_global_queue : 1 <= GlobalQueue c;
  cfg_limit : GlobalSlots c + GlobalQueue c < 2 ^ 63
}.

Record pool_inv (L D : list Transaction) (E : list Address) (p : TxPool) : Prop := mk_inv {
  inv_pending : forall a l, pending p !! a = Some l -> list_wf l /\ strict l = true;
  inv_queue : forall a l, queue p !! a = Some l -> list_wf l /\ strict l = false;
  inv_nonempty : forall a l, pending p !! a = Some l -> a ∉ E -> list_Empty l = false;
  inv_filed : forall a n tx, slot (pending p) a n = Some tx \/ slot (queue p) a n = Some tx ->
    tx_ok tx /\ sender_of tx = a /\ lk_all (all p) !! tx_hash tx = Some tx;
  inv_disjoint : forall a n, slot (pending p) a n = None \/ slot (queue p) a n = None;
  inv_known : forall h tx, lk_all (all p) !! h = Some tx ->
    tx ∈ L \/ slot (pending p) (sender_of tx) (Nonce tx) = Some tx
           \/ slot (queue p) (sender_of tx) (Nonce tx) = Some tx;
  inv_limbo : forall tx, tx ∈ L ->
    tx_ok tx /\ lk_all (all p) !! tx_hash tx = Some tx /\
    slot (pending p) (sender_of tx) (Nonce tx) = None /\ slot (queue p) (sender_of tx) (Nonce tx) = None;
  inv_limbo_nodup : NoDup (slot_of <$> L);
  inv_lookup : lookup_wf (all p);
  inv_priced : priced_wf (lk_all (all p)) D (priced p);
  inv_config : config_ok (config p)
}.

(** What the internal steps leave alone. *)
Definition same_env (p p' : TxPool) : Prop :=
  config p' = config p /\ gasPrice p' = gasPrice p /\ currentState p' = currentState p /\
  currentMaxGas p' = currentMaxGas p /\ locals p' = locals p.

#[local] Instance same_env_preorder : PreOrder same_env.
Proof. split; [by intros p|]. intros p1 p2 p3 (? & ? & ? & ? & ?) (? & ? & ? & ? & ?). repeat split; congruence. Qed.

(** ** Slots *)

Lemma slot_insert m a l b n :
  slot (<[a := l]> m) b n = if decide (a = b) then items (txs l) !! n else slot m b n.
Proof.
  unfold slot. case_decide as Hd; [subst; by rewrite lookup_insert_eq|by rewrite lookup_insert_ne].
Qed.

Lemma slot_delete m a b n :
  slot (delete a m) b n = if decide (a = b) then None else slot m b n.
Proof.
  unfold slot. case_decide as Hd; [subst; by rewrite lookup_delete_eq|by rewrite lookup_delete_ne].
Qed.

Lemma slot_at m a l n : m !! a = Some l -> slot m a n = items (txs l) !! n.
Proof. intros Hl. unfold slot. by rewrite Hl. Qed.

Lemma slot_none m a n : m !! a = None -> slot m a n = None.
Proof. intros Hl. unfold slot. by rewrite Hl. Qed.

Lemma list_Empty_spec l : list_Empty l = true <-> items (txs l) = ∅.
Proof.
  unfold list_Empty, list_Len, sm_Len. rewrite Z.eqb_eq, <- map_size_empty_iff. lia.
Qed.

Lemma newTxList_slot s n : items (txs (newTxList s)) !! n = None.
Proof. done. Qed.

(** ** Framing: fields the invariant does not read *)

Lemma pool_inv_frame L D E p p' :
  pending p' = pending p -> queue p' = queue p -> all p' = all p -> priced p' = priced p ->
  config p' = config p -> pool_inv L D E p -> pool_inv L D E p'.
Proof. intros Hp Hq Ha Hr Hc []. split; rewrite ?Hp, ?Hq, ?Ha, ?Hr, ?Hc; done. Qed.

(** ** The lookup table *)

(** Removing a transaction in limbo from the table. *)
Lemma inv_forget tx L D E p :
  pool_inv (tx :: L) D E p ->
  exists t, lookup_Remove (all p) (tx_hash tx) = Some t /\ pool_inv L D E (set_all t p) /\
    lk_all t = delete (tx_hash tx) (lk_all (all p)).
Proof.
  intros [Hp Hq Hne Hf Hd Hk Hl Hnd Hlk Hpr Hb].
  destruct (Hl tx ltac:(left)) as (Hok & Hin & Hsp & Hsq).
  destruct (lookup_Remove_wf _ _ _ Hlk Hin) as (t & Ht & Hwf & Hall).
  exists t. split_and!; [done| |done]. csimpl in Hnd. apply NoDup_cons in Hnd as [Hni Hnd].
  assert (Hother : forall tx', lk_all (all p) !! tx_hash tx' = Some tx' -> tx' <> tx ->
            lk_all t !! tx_hash tx' = Some tx').
  { intros tx' Hin' Hne'. rewrite Hall, lookup_delete_Some. split; [|done].
    intros Heq. rewrite <- Heq in Hin'. congruence. }
  split; simpl; try done.
  - intros a n tx' Hs. destruct (Hf a n tx' Hs) as (Hok' & Hse & Hin'). split_and!; [done|done|].
    apply Hother; [done|]. intros ->.
    assert (n = Nonce tx) as ->.
    { destruct Hs as [Hs|Hs]; unfold slot in Hs.
      - destruct (pending p !! a) eqn:El; [|done]. by destruct (proj1 (proj1 (proj1 (Hp _ _ El))) _ _ Hs).
      - destruct (queue p !! a) eqn:El; [|done]. by destruct (proj1 (proj1 (proj1 (Hq _ _ El))) _ _ Hs). }
    subst a. destruct Hs; congruence.
  - intros h tx' Hh. rewrite Hall, lookup_delete_Some in Hh. destruct Hh as [Hneq Hh].
    destruct (Hk _ _ Hh) as [[->|?]%elem_of_cons|?]; [|by left|by right].
    destruct Hlk as [Hhash _]. by rewrite (Hhash _ _ Hh) in Hneq.
  - intros tx' Hin'. destruct (Hl tx') as (Hok' & Ha' & Hp' & Hq'); [by right|].
    split_and!; try done. apply Hother; [done|]. intros ->. apply Hni. by apply (list_elem_of_fmap_2 slot_of).
  - eapply priced_wf_sub; [|exact Hpr]. rewrite Hall. apply delete_subseteq.
Qed.

Lemma wp_all_Remove tx L D E p (Q : () -> TxPool -> Prop) :
  pool_inv (tx :: L) D E p ->
  (forall t, pool_inv L D E (set_all t p) -> lk_all t = delete (tx_hash tx) (lk_all (all p)) ->
     Q tt (set_all t p)) ->
  wp (all_Remove (tx_hash tx)) Q p.
Proof.
  intros Hinv HQ. destruct (inv_forget _ _ _ _ _ Hinv) as (t & Ht & Hinv' & Hall).
  unfold all_Remove. wp_steps. eapply wp_lift; [done|]. wp_steps. by apply HQ.
Qed.

Context `{!RangeOrder}.

Lemma wp_priced_Removed n L D E p (Q : () -> TxPool -> Prop) :
  pool_inv L D E p ->
  (forall l, pool_inv L D E (set_priced l p) -> Q tt (set_priced l p)) ->
  wp (pool_priced_Removed n) Q p.
Proof.
  intros Hinv HQ. unfold pool_priced_Removed. wp_steps. apply HQ. destruct Hinv. split; try done.
  simpl. by apply priced_Removed_wf.
Qed.

Lemma wp_remove_all : forall R L D E p (Q : () -> TxPool -> Prop),
  pool_inv (R ++ L) D E p ->
  (forall t, pool_inv L D E (set_all t p) -> lk_all t ⊆ lk_all (all p) -> Q tt (set_all t p)) ->
  wp (remove_all R) Q p.
Proof.
  induction R as [|tx R IH]; intros L D E p Q Hinv HQ.
  - apply wp_ret. specialize (HQ (all p)). destruct p. apply HQ; [done|]. by apply map_subseteq_po.
  - apply wp_bind. eapply wp_all_Remove; [exact Hinv|]. intros t Ht Hall.
    apply (IH L D E); [done|]. intros t' Ht' Hsub. apply (HQ t'); [done|].
    etrans; [exact Hsub|]. simpl. rewrite Hall. apply delete_subseteq.
Qed.

(** ** Taking transactions out of a list *)

(** [R] is what [l'] lacks of [l]. *)
Record takes (l l' : txList) (R : list Transaction) : Prop := mk_takes {
  takes_sub : items (txs l') ⊆ items (txs l);
  takes_iff : forall tx, tx ∈ R <-> items (txs l) !! Nonce tx = Some tx /\ items (txs l') !! Nonce tx = None;
  takes_nodup : NoDup R
}.

Lemma takes_rest l l' R tx :
  takes l l' R -> items (txs l) !! Nonce tx = Some tx -> tx ∈ R \/ items (txs l') !! Nonce tx = Some tx.
Proof.
  intros [Hsub Hiff _] Htx. destruct (items (txs l') !! Nonce tx) as [tx'|] eqn:El'.
  - right. f_equal. pose proof (lookup_weaken _ _ _ _ El' Hsub). congruence.
  - left. by apply Hiff.
Qed.

Lemma takes_slots l l' R :
  takes l l' R -> NoDup (slot_of <$> R).
Proof.
  intros [_ Hiff Hnd]. apply NoDup_fmap_2_strong; [|done]. intros x y Hx%Hiff Hy%Hiff [= _ Hn].
  rewrite Hn in Hx. destruct Hx, Hy. congruence.
Qed.

Lemma slots_disjoint (R L : list Transaction) :
  NoDup (slot_of <$> R) -> NoDup (slot_of <$> L) ->
  (forall x y, x ∈ R -> y ∈ L -> slot_of x <> slot_of y) -> NoDup (slot_of <$> R ++ L).
Proof.
  intros HR HL Hd. rewrite fmap_app. apply NoDup_app. split_and!; [done| |done].
  intros k (x & -> & Hx)%list_elem_of_fmap (y & Heq & Hy)%list_elem_of_fmap. by eapply Hd.
Qed.

Lemma inv_take_queue L D E p a l l' R :
  pool_inv L D E p -> queue p !! a = Some l -> takes l l' R -> list_wf l' -> strict l' = false ->
  pool_inv (R ++ L) D E (set_queue <[a := l']> p).
Proof.
  intros [Hp Hq Hne Hf Hd Hk Hl Hnd Hlk Hpr Hb] Hal Ht Hwf Hst.
  assert (Hs : forall b n tx, slot (<[a := l']> (queue p)) b n = Some tx -> slot (queue p) b n = Some tx).
  { intros b n tx. rewrite slot_insert. case_decide; [|done]. subst. rewrite (slot_at _ _ l) by done.
    intros Hn. eapply lookup_weaken; [exact Hn|apply Ht]. }
  assert (HR : forall tx, tx ∈ R -> slot (queue p) a (Nonce tx) = Some tx /\ sender_of tx = a).
  { intros tx Htx%(takes_iff _ _ _ Ht). rewrite (slot_at _ _ l) by done. split; [tauto|].
    apply (Hf a (Nonce tx)). right. rewrite (slot_at _ _ l) by done. tauto. }
  split; simpl; try done.
  - intros b l0 [[<- <-]|[_ Hb0]]%lookup_insert_Some; eauto.
  - intros b n tx [Hn|Hn]; apply (Hf b n); [by left|right; auto].
  - intros b n. destruct (Hd b n) as [|Hn]; [by left|right]. apply eq_None_not_Some.
    intros [tx Htx%Hs]. congruence.
  - intros h tx Hh. rewrite elem_of_app. destruct (Hk _ _ Hh) as [|[|Hn]]; [tauto|tauto|].
    rewrite slot_insert. case_decide as Heq; [|tauto]. rewrite <- Heq, (slot_at _ _ l) in Hn by done.
    destruct (takes_rest _ _ _ _ Ht Hn); tauto.
  - intros tx [Hin|Hin]%elem_of_app.
    + destruct (HR tx Hin) as [Hn Hse]. destruct (Hf _ _ tx (or_intror Hn)) as (? & ? & ?).
      subst a. split_and!; [done|done| |].
      * destruct (Hd (sender_of tx) (Nonce tx)); [done|congruence].
      * rewrite slot_insert, decide_True by done. apply (takes_iff _ _ _ Ht), Hin.
    + destruct (Hl tx Hin) as (? & ? & ? & Hn). split_and!; try done. apply eq_None_not_Some.
      intros [tx' Htx'%Hs]. congruence.
  - apply slots_disjoint; [by eapply takes_slots|done|]. intros x y Hx Hy [= H1 H2].
    destruct (HR x Hx) as [Hn <-]. destruct (Hl y Hy) as (_ & _ & _ & Hy'). rewrite <- H1, <- H2 in Hy'. congruence.
Qed.

Lemma inv_take_pending L D E p a l l' R :
  pool_inv L D E p -> pending p !! a = Some l -> takes l l' R -> list_wf l' -> strict l' = true ->
  pool_inv (R ++ L) D (a :: E) (set_pending <[a := l']> p).
Proof.
  intros [Hp Hq Hne Hf Hd Hk Hl Hnd Hlk Hpr Hb] Hal Ht Hwf Hst.
  assert (Hs : forall b n tx, slot (<[a := l']> (pending p)) b n = Some tx -> slot (pending p) b n = Some tx).
  { intros b n tx. rewrite slot_insert. case_decide; [|done]. subst. rewrite (slot_at _ _ l) by done.
    intros Hn. eapply lookup_weaken; [exact Hn|apply Ht]. }
  assert (HR : forall tx, tx ∈ R -> slot (pending p) a (Nonce tx) = Some tx /\ sender_of tx = a).
  { intros tx Htx%(takes_iff _ _ _ Ht). rewrite (slot_at _ _ l) by done. split; [tauto|].
    apply (Hf a (Nonce tx)). left. rewrite (slot_at _ _ l) by done. tauto. }
  split; simpl; try done.
  - intros b l0 [[<- <-]|[_ Hb0]]%lookup_insert_Some; eauto.
  - intros b l0 [[<- <-]|[_ Hb0]]%lookup_insert_Some [Hna Hni]%not_elem_of_cons; [done|eauto].
  - intros b n tx [Hn|Hn]; apply (Hf b n); [left; auto|by right].
  - intros b n. destruct (Hd b n) as [Hn|]; [left|by right]. apply eq_None_not_Some.
    intros [tx Htx%Hs]. congruence.
  - intros h tx Hh. rewrite elem_of_app. destruct (Hk _ _ Hh) as [|[Hn|]]; [tauto| |tauto].
    rewrite slot_insert. case_decide as Heq; [|tauto]. rewrite <- Heq, (slot_at _ _ l) in Hn by done.
    destruct (takes_rest _ _ _ _ Ht Hn); tauto.
  - intros tx [Hin|Hin]%elem_of_app.
    + destruct (HR tx Hin) as [Hn Hse]. destruct (Hf _ _ tx (or_introl Hn)) as (? & ? & ?).
      subst a. split_and!; [done|done| |].
      * rewrite slot_insert, decide_True by done. apply (takes_iff _ _ _ Ht), Hin.
      * destruct (Hd (sender_of tx) (Nonce tx)); [congruence|done].
    + destruct (Hl tx Hin) as (? & ? & Hn & ?). split_and!; try done. apply eq_None_not_Some.
      intros [tx' Htx'%Hs]. congruence.
  - apply slots_disjoint; [by eapply takes_slots|done|]. intros x y Hx Hy [= H1 H2].
    destruct (HR x Hx) as [Hn <-]. destruct (Hl y Hy) as (_ & _ & Hy' & _). rewrite <- H1, <- H2 in Hy'. congruence.
Qed.

(** A pending list that is known to be non-empty needs no exception. *)
Lemma inv_settle_pending L D E p a l :
  pool_inv L D (a :: E) p -> pending p !! a = Some l -> list_Empty l = false -> pool_inv L D E p.
Proof.
  intros Hinv Hal He. destruct Hinv. split; try done. intros b l' Hb Hni.
  destruct (decide (b = a)) as [->|Hne]; [congruence|]. eapply inv_nonempty0; [exact Hb|set_solver].
Qed.

(** Deleting an empty list. *)
Lemma inv_delete_pending L D E p a l :
  pool_inv L D (a :: E) p -> pending p !! a = Some l -> list_Empty l = true ->
  pool_inv L D E (set_pending (delete a) p).
Proof.
  intros [Hp Hq Hne Hf Hd Hk Hl Hnd Hlk Hpr Hb] Hal He. apply list_Empty_spec in He.
  assert (Hs : forall b n, slot (delete a (pending p)) b n = slot (pending p) b n).
  { intros b n. rewrite slot_delete. case_decide; [|done]. subst. by rewrite (slot_at _ _ l), He, lookup_empty. }
  split; simpl; try done.
  - intros b l0 [_ Hb0]%lookup_delete_Some. eauto.
  - intros b l0. rewrite lookup_delete_Some. intros [? ?] ?. eapply Hne; [done|set_solver].
  - intros b n tx. rewrite Hs. apply Hf.
  - intros b n. rewrite Hs. apply Hd.
  - intros h tx Hh. rewrite Hs. by apply (Hk h).
  - intros tx. rewrite Hs. apply Hl.
Qed.

Lemma inv_delete_queue L D E p a l :
  pool_inv L D E p -> queue p !! a = Some l -> list_Empty l = true ->
  pool_inv L D E (set_queue (delete a) p).
Proof.
  intros [Hp Hq Hne Hf Hd Hk Hl Hnd Hlk Hpr Hb] Hal He. apply list_Empty_spec in He.
  assert (Hs : forall b n, slot (delete a (queue p)) b n = slot (queue p) b n).
  { intros b n. rewrite slot_delete. case_decide; [|done]. subst. by rewrite (slot_at _ _ l), He, lookup_empty. }
  split; simpl; try done.
  - intros b l0 [_ Hb0]%lookup_delete_Some. eauto.
  - intros b n tx. rewrite Hs. apply Hf.
  - intros b n. rewrite Hs. apply Hd.
  - intros h tx Hh. rewrite Hs. by apply (Hk h).
  - intros tx. rewrite Hs. apply Hl.
Qed.

(** ** The list operations take what they return *)

Definition enumerates (its : gmap Z Transaction) (c : list Transaction) : Prop :=
  NoDup c /\ forall tx, tx ∈ c <-> its !! Nonce tx = Some tx.

Lemma sorted_enumerates its c : sorted_of its c -> enumerates its c.
Proof. intros Hs. split; [by eapply sorted_of_nodup|apply Hs]. Qed.

Lemma values_enumerate its : keyed its -> enumerates its (map_to_list its).*2.
Proof.
  intros Hk. split; [|intros tx; by apply elem_of_values].
  apply (NoDup_fmap_1 Nonce). rewrite fmap_keys_nonces by done. apply NoDup_fst_map_to_list.
Qed.

Lemma takes_enumerated l l' R c c' :
  enumerates (items (txs l)) c -> enumerates (items (txs l')) c' -> R ++ c' ≡ₚ c ->
  items (txs l') ⊆ items (txs l) -> takes l l' R.
Proof.
  intros [Hnd Hc] [_ Hc'] Hp Hsub. rewrite <- Hp in Hnd. apply NoDup_app in Hnd as (HR & Hdisj & _).
  split; [done| |done]. intros tx. rewrite <- Hc, <- Hp, elem_of_app. split.
  - intros Hin. split; [by left|]. apply eq_None_not_Some. intros [tx' Htx'].
    pose proof (lookup_weaken _ _ _ _ Htx' Hsub) as Hl.
    assert (Htx : items (txs l) !! Nonce tx = Some tx) by (apply Hc; rewrite <- Hp; set_solver).
    rewrite Htx in Hl. injection Hl as <-. apply Hc' in Htx'. by apply (Hdisj tx).
  - intros [[Hin|Hin%Hc'] Hnone]; [done|congruence].
Qed.

Lemma takes_below l l' R t :
  sorted_of (below t (items (txs l))) R -> items (txs l') = from t (items (txs l)) -> takes l l' R.
Proof.
  intros Hs Hit. split; [rewrite Hit; apply from_sub| |by eapply sorted_of_nodup].
  intros tx. rewrite (proj2 Hs), lookup_below, Hit, lookup_from.
  destruct (decide (Nonce tx < t)), (decide (t <= Nonce tx)); try lia; naive_solver.
Qed.

Lemma takes_filter l cl gl removed invalids l' :
  list_wf l -> filter_ok l cl gl removed invalids l' -> takes l l' (removed ++ invalids).
Proof.
  intros [[Hk _] _] ([[Hk' _] _] & _ & _ & Hp & Hkeep).
  eapply takes_enumerated; [by apply values_enumerate|by apply values_enumerate|by rewrite <- app_assoc|].
  apply map_subseteq_spec. intros n tx Hn%Hkeep. apply Hn.
Qed.

Lemma takes_cap l l' t c :
  sorted_of (items (txs l)) c -> sorted_of (items (txs l')) (take t c) -> items (txs l') ⊆ items (txs l) ->
  takes l l' (rev (drop t c)).
Proof.
  intros Hc Hc' Hsub. eapply takes_enumerated; [by apply sorted_enumerates|by apply sorted_enumerates| |done].
  rewrite <- (Permutation_rev (drop t c)), Permutation_app_comm. by rewrite take_drop.
Qed.

Lemma takes_remove l l' tx invalids :
  list_wf l -> list_wf l' -> items (txs l) !! Nonce tx = Some tx ->
  items (txs l') ⊆ delete (Nonce tx) (items (txs l)) ->
  invalids ++ (map_to_list (items (txs l'))).*2 ≡ₚ (map_to_list (delete (Nonce tx) (items (txs l)))).*2 ->
  takes l l' (tx :: invalids).
Proof.
  intros [[Hk _] _] [[Hk' _] _] Htx Hsub Hp.
  eapply takes_enumerated; [by apply values_enumerate|by apply values_enumerate| |].
  - simpl. rewrite Hp. change (tx :: ?m.*2) with (((Nonce tx, tx) :: m).*2).
    apply fmap_Permutation, map_to_list_delete. done.
  - etrans; [exact Hsub|apply delete_subseteq].
Qed.

(** ** Filing a transaction in limbo *)

Lemma inv_file_queue L D E p tx l l' :
  pool_inv (tx :: L) D E p ->
  (queue p !! sender_of tx = Some l \/ queue p !! sender_of tx = None /\ forall n, items (txs l) !! n = None) ->
  list_wf l' -> strict l' = false -> items (txs l') = <[Nonce tx := tx]> (items (txs l)) ->
  pool_inv L D E (set_queue <[sender_of tx := l']> p).
Proof.
  intros [Hp Hq Hne Hf Hd Hk Hl Hnd Hlk Hpr Hb] Hal Hwf Hst Hit.
  destruct (Hl tx ltac:(left)) as (Hok & Hin & Hsp & Hsq). csimpl in Hnd. apply NoDup_cons in Hnd as [Hni Hnd].
  assert (Hl0 : forall n, slot (queue p) (sender_of tx) n = items (txs l) !! n).
  { intros n. destruct Hal as [Hal|[Hal He]]; [by apply slot_at|]. rewrite He. by apply slot_none. }
  assert (Hs : forall b n, slot (<[sender_of tx := l']> (queue p)) b n
     = if decide ((b, n) = slot_of tx) then Some tx else slot (queue p) b n).
  { intros b n. rewrite slot_insert. unfold slot_of. destruct (decide (sender_of tx = b)) as [<-|Hne'].
    - rewrite Hit, Hl0. destruct (decide (n = Nonce tx)) as [->|Hne'].
      + by rewrite lookup_insert_eq, decide_True.
      + rewrite lookup_insert_ne, decide_False by congruence. done.
    - by rewrite decide_False by congruence. }
  split; simpl; try done.
  - intros b l0 [[<- <-]|[_ Hb0]]%lookup_insert_Some; eauto.
  - intros b n tx'. rewrite Hs. destruct (decide _) as [[= -> ->]|Hne']; [|apply Hf].
    intros [Hn|[= <-]]; [congruence|done].
  - intros b n. rewrite Hs. destruct (decide _) as [[= -> ->]|Hne']; [by left|apply Hd].
  - intros h tx' Hh. rewrite Hs. destruct (Hk _ _ Hh) as [[->|?]%elem_of_cons|[?|Hq']]; [|by left|by right; left|].
    + right; right. by rewrite decide_True.
    + right; right. destruct (decide _) as [[= Ha Hn]|]; [|done]. rewrite Ha, Hn in Hq'. congruence.
  - intros tx' Hin'. destruct (Hl tx' ltac:(by right)) as (? & ? & ? & ?). split_and!; try done.
    rewrite Hs, decide_False; [done|]. intros Heq. apply Hni. rewrite <- Heq.
    by apply (list_elem_of_fmap_2 slot_of).
Qed.

Lemma inv_file_pending L D E p tx l l' :
  pool_inv (tx :: L) D E p ->
  (pending p !! sender_of tx = Some l \/ pending p !! sender_of tx = None /\ forall n, items (txs l) !! n = None) ->
  list_wf l' -> strict l' = true -> items (txs l') = <[Nonce tx := tx]> (items (txs l)) ->
  pool_inv L D E (set_pending <[sender_of tx := l']> p).
Proof.
  intros [Hp Hq Hne Hf Hd Hk Hl Hnd Hlk Hpr Hb] Hal Hwf Hst Hit.
  destruct (Hl tx ltac:(left)) as (Hok & Hin & Hsp & Hsq). csimpl in Hnd. apply NoDup_cons in Hnd as [Hni Hnd].
  assert (Hl0 : forall n, slot (pending p) (sender_of tx) n = items (txs l) !! n).
  { intros n. destruct Hal as [Hal|[Hal He]]; [by apply slot_at|]. rewrite He. by apply slot_none. }
  assert (Hs : forall b n, slot (<[sender_of tx := l']> (pending p)) b n
     = if decide ((b, n) = slot_of tx) then Some tx else slot (pending p) b n).
  { intros b n. rewrite slot_insert. unfold slot_of. destruct (decide (sender_of tx = b)) as [<-|Hne'].
    - rewrite Hit, Hl0. destruct (decide (n = Nonce tx)) as [->|Hne'].
      + by rewrite lookup_insert_eq, decide_True.
      + rewrite lookup_insert_ne, decide_False by congruence. done.
    - by rewrite decide_False by congruence. }
  split; simpl; try done.
  - intros b l0 [[<- <-]|[_ Hb0]]%lookup_insert_Some; eauto.
  - intros b l0 [[<- <-]|[_ Hb0]]%lookup_insert_Some Hni0; [|eauto].
    apply not_true_is_false. rewrite list_Empty_spec, Hit. apply insert_non_empty.
  - intros b n tx'. rewrite Hs. destruct (decide _) as [[= -> ->]|Hne']; [|apply Hf].
    intros [[= <-]|Hn]; [done|congruence].
  - intros b n. rewrite Hs. destruct (decide _) as [[= -> ->]|Hne']; [by right|apply Hd].
  - intros h tx' Hh. rewrite Hs. destruct (Hk _ _ Hh) as [[->|?]%elem_of_cons|[Hp'|?]]; [|by left| |by right; right].
    + right; left. by rewrite decide_True.
    + right; left. destruct (decide _) as [[= Ha Hn]|]; [|done]. rewrite Ha, Hn in Hp'. congruence.
  - intros tx' Hin'. destruct (Hl tx' ltac:(by right)) as (? & ? & ? & ?). split_and!; try done.
    rewrite Hs, decide_False; [done|]. intros Heq. apply Hni. rewrite <- Heq.
    by apply (list_elem_of_fmap_2 slot_of).
Qed.

(** A transaction the pool does not know enters limbo through the table. *)
Lemma inv_learn L D E p tx :
  pool_inv L D E p -> tx_ok tx -> lk_all (all p) !! tx_hash tx = None ->
  slot (pending p) (sender_of tx) (Nonce tx) = None -> slot (queue p) (sender_of tx) (Nonce tx) = None ->
  slot_of tx ∉ slot_of <$> L ->
  pool_inv (tx :: L) D E (set_priced (priced_Put (priced p) tx) (set_all (lookup_Add (all p) tx) p)).
Proof.
  intros [Hp Hq Hne Hf Hd Hk Hl Hnd Hlk Hpr Hb] Hok Hnew Hsp Hsq Hni.
  assert (Hold : forall tx', lk_all (all p) !! tx_hash tx' = Some tx' ->
            <[tx_hash tx := tx]> (lk_all (all p)) !! tx_hash tx' = Some tx').
  { intros tx' Htx'. rewrite lookup_insert_ne; [done|]. intros Heq. rewrite Heq in Hnew. congruence. }
  split; simpl; try done.
  - intros a n tx' Hs. destruct (Hf a n tx' Hs) as (? & ? & ?). auto.
  - intros h tx' [[<- <-]|[_ Hh]]%lookup_insert_Some; [left; left|].
    destruct (Hk _ _ Hh) as [|?]; [left; by right|by right].
  - intros tx' [->|Hin]%elem_of_cons; [by rewrite lookup_insert_eq|].
    destruct (Hl tx' Hin) as (? & ? & ? & ?). auto.
  - csimpl. by constructor.
  - by apply lookup_Add_wf.
  - by apply priced_Put_wf.
Qed.

(** ** enqueueTx *)

Context (now : Z).

Lemma slot_lookup m a n tx : slot m a n = Some tx -> exists l, m !! a = Some l /\ items (txs l) !! n = Some tx.
Proof. unfold slot. destruct (m !! a) as [l|]; [eauto|done]. Qed.

(** The list an insertion works on: the one present, or a fresh one. *)
Lemma list_for_insert (m : gmap Address txList) s a :
  (forall b l, m !! b = Some l -> list_wf l /\ strict l = s) ->
  let l := default (newTxList s) (m !! a) in
  list_wf l /\ strict l = s /\ (forall n, items (txs l) !! n = slot m a n) /\
  (m !! a = Some l \/ m !! a = None /\ forall n, items (txs l) !! n = None).
Proof.
  intros Hm. unfold slot. destruct (m !! a) as [l|] eqn:El; simpl.
  - destruct (Hm _ _ El). split_and!; auto.
  - split_and!; [apply newTxList_wf|done|done|by right].
Qed.

(** Inserting into a free slot is always accepted and replaces nothing. *)
Lemma list_Add_free l tx bump :
  list_wf l -> is_u64 (Nonce tx) -> 0 <= bump < 2 ^ 63 - 100 -> items (txs l) !! Nonce tx = None ->
  exists l', list_Add l tx bump = ((true, None), l') /\ list_wf l' /\
    items (txs l') = <[Nonce tx := tx]> (items (txs l)) /\ strict l' = strict l.
Proof. intros Hwf Hu Hb Hn. pose proof (list_Add_spec l tx bump Hwf Hu Hb) as Hadd. by rewrite Hn in Hadd. Qed.

(** [enqueueTx] of a transaction in limbo files it in the queue. *)
Lemma wp_enqueueTx tx L D E p (Q : bool * option pool_error -> TxPool -> Prop) :
  pool_inv (tx :: L) D E p ->
  (forall p', pool_inv L D E p' -> pending p' = pending p -> all p' = all p -> same_env p p' ->
     pendingNonces p' = pendingNonces p -> Q (false, None) p') ->
  wp (enqueueTx now (tx_hash tx) tx) Q p.
Proof.
  intros Hinv HQ. destruct (inv_limbo _ _ _ _ Hinv tx ltac:(left)) as ([_ Hu] & Hin & Hsp & Hsq).
  destruct (list_for_insert (queue p) false (sender_of tx) (inv_queue _ _ _ _ Hinv)) as (Hwf & Hst & Hit & Hor).
  set (l := default (newTxList false) (queue p !! sender_of tx)) in *.
  destruct (list_Add_free l tx (PriceBump (config p)) Hwf Hu (cfg_bump _ (inv_config _ _ _ _ Hinv))) as (l' & Hadd & Hwf' & Hit' & Hst');
    [by rewrite Hit|].
  assert (Hfile : pool_inv L D E (set_queue <[sender_of tx := l']> p))
    by (eapply inv_file_queue; [exact Hinv|exact Hor|done|by rewrite Hst'|done]).
  unfold enqueueTx. wp_step. wp_step. 
  set (p1 := match queue p !! sender_of tx with
             | Some _ => p | None => set_queue <[sender_of tx := newTxList false]> p end).
  assert (Hq1 : queue p1 !! sender_of tx = Some l /\ set_queue <[sender_of tx := l']> p1 = set_queue <[sender_of tx := l']> p
                /\ config p1 = config p).
  { unfold p1, l. destruct (queue p !! sender_of tx) eqn:El; simpl; [done|].
    split_and!; [by rewrite lookup_insert_eq| |done]. unfold set_queue; simpl. by rewrite insert_insert_eq. }
  destruct Hq1 as (Hq1 & Hset & Hc1). wp_steps. eapply wp_lift; [exact Hq1|]. rewrite Hc1, Hadd.
  wp_steps. simpl negb. cbv iota. wp_steps. rewrite Hset.
  replace (lookup_Get (all (set_queue <[sender_of tx := l']> p)) (tx_hash tx)) with (Some tx) by (symmetry; exact Hin).
  wp_steps. rewrite bool_decide_false by (by intros ?%is_Some_None).
  apply HQ; simpl; try (by destruct (beats p !! sender_of tx)).
  eapply pool_inv_frame; [..|exact Hfile]; by destruct (beats p !! sender_of tx).
Qed.

Lemma wp_enqueue_all : forall R L D E p (Q : () -> TxPool -> Prop),
  pool_inv (R ++ L) D E p ->
  (forall p', pool_inv L D E p' -> pending p' = pending p -> all p' = all p -> same_env p p' -> Q tt p') ->
  wp (enqueue_all now R) Q p.
Proof.
  induction R as [|tx R IH]; intros L D E p Q Hinv HQ; [by apply wp_ret, HQ|].
  apply wp_bind, wp_bind. eapply wp_enqueueTx; [exact Hinv|]. intros p1 Hinv1 Hp1 Ha1 He1 _. wp_steps.
  apply (IH L D E); [done|]. intros p2 Hinv2 Hp2 Ha2 He2.
  apply HQ; [done|congruence|congruence|by etrans].
Qed.

(** [promoteTx] of a transaction in limbo files it in its pending list. *)
Lemma wp_promoteTx tx L D E p (Q : bool -> TxPool -> Prop) :
  pool_inv (tx :: L) D E p ->
  (forall p', pool_inv L D E p' -> queue p' = queue p -> all p' = all p -> same_env p p' -> Q true p') ->
  wp (promoteTx now (sender_of tx) (tx_hash tx) tx) Q p.
Proof.
  intros Hinv HQ. destruct (inv_limbo _ _ _ _ Hinv tx ltac:(left)) as ([_ Hu] & Hin & Hsp & Hsq).
  destruct (list_for_insert (pending p) true (sender_of tx) (inv_pending _ _ _ _ Hinv)) as (Hwf & Hst & Hit & Hor).
  set (l := default (newTxList true) (pending p !! sender_of tx)) in *.
  destruct (list_Add_free l tx (PriceBump (config p)) Hwf Hu (cfg_bump _ (inv_config _ _ _ _ Hinv))) as (l' & Hadd & Hwf' & Hit' & Hst');
    [by rewrite Hit|].
  assert (Hfile : pool_inv L D E (set_pending <[sender_of tx := l']> p))
    by (eapply inv_file_pending; [exact Hinv|exact Hor|done|by rewrite Hst'|done]).
  unfold promoteTx. wp_step. wp_step.
  set (p1 := match pending p !! sender_of tx with
             | Some _ => p | None => set_pending <[sender_of tx := newTxList true]> p end).
  assert (Hp1 : pending p1 !! sender_of tx = Some l /\
                set_pending <[sender_of tx := l']> p1 = set_pending <[sender_of tx := l']> p /\ config p1 = config p).
  { unfold p1, l. destruct (pending p !! sender_of tx) eqn:El; simpl; [done|].
    split_and!; [by rewrite lookup_insert_eq| |done]. unfold set_pending; simpl. by rewrite insert_insert_eq. }
  destruct Hp1 as (Hp1 & Hset & Hc1). wp_steps. eapply wp_lift; [exact Hp1|]. rewrite Hc1, Hadd.
  wp_steps. simpl negb. cbv iota. wp_steps. rewrite Hset.
  replace (lookup_Get (all (set_pending <[sender_of tx := l']> p)) (tx_hash tx)) with (Some tx) by (symmetry; exact Hin).
  wp_steps. unfold nonces_set. wp_steps.
  apply HQ; [|done..]. by eapply pool_inv_frame; [..|exact Hfile].
Qed.

Lemma wp_promote_readies a : forall R L D E p (Q : list Transaction -> TxPool -> Prop),
  pool_inv (R ++ L) D E p -> Forall (fun tx => sender_of tx = a) R ->
  (forall p', pool_inv L D E p' -> queue p' = queue p -> all p' = all p -> same_env p p' -> Q R p') ->
  wp (promote_readies now a R) Q p.
Proof.
  induction R as [|tx R IH]; intros L D E p Q Hinv Ha HQ; [by apply wp_ret, HQ|].
  apply Forall_cons in Ha as [<- Ha]. cbn [promote_readies]. wp_step.
  eapply wp_promoteTx; [exact Hinv|]. intros p1 Hinv1 Hq1 Ha1 He1. wp_steps.
  apply (IH L D E); [done|done|]. intros p2 Hinv2 Hq2 Ha2 He2. wp_steps.
  apply HQ; [done|congruence|congruence|by etrans].
Qed.

(** ** removeTx *)

Lemma inv_priced_any L D E p n :
  pool_inv L D E p -> pool_inv L D E (set_priced (priced_Removed (all p) (priced p) n) p).
Proof. intros Hinv. destruct Hinv. split; try done. simpl. by apply priced_Removed_wf. Qed.

(** The transaction is pending: what was above it goes back to the queue. *)
Lemma wp_remove_from_pending tx l D p (Q : bool -> TxPool -> Prop) :
  pending p !! sender_of tx = Some l -> list_wf l -> strict l = true ->
  items (txs l) !! Nonce tx = Some tx ->
  (forall l' R, takes l l' (tx :: R) -> list_wf l' -> strict l' = true ->
     pool_inv R D [sender_of tx] (set_pending <[sender_of tx := l']> p)) ->
  (forall p', pool_inv [] D [] p' -> all p' = all p -> same_env p p' -> Q true p') ->
  wp (remove_from_pending now (sender_of tx) tx) Q p.
Proof.
  intros Hl Hwf Hst Hitem Hvirt HQ. unfold remove_from_pending. wp_steps. rewrite Hl.
  destruct (list_Remove_spec l tx Hwf) as (R & l' & Hrem & Hwf' & Hst' & Hsub & Hperm & _).
  rewrite Hitem, bool_decide_true in Hrem by eauto. wp_steps. eapply wp_lift; [exact Hrem|]. wp_steps.
  specialize (Hvirt l' R (takes_remove _ _ _ _ Hwf Hwf' Hitem Hsub Hperm) Hwf' ltac:(congruence)).
  assert (Hcont : forall p1, pool_inv (R ++ []) D [] p1 -> all p1 = all p -> same_env p p1 ->
    wp (mfor R (fun tx' => _ ← enqueueTx now (tx_hash tx') tx'; mret tt))
       (fun _ => wp (nonces_setIfLower (sender_of tx) (Nonce tx)) (fun _ => Q true)) p1).
  { intros p1 Hinv1 Ha1 He1. eapply wp_enqueue_all; [exact Hinv1|]. intros p2 Hinv2 _ Ha2 He2.
    unfold nonces_setIfLower. wp_steps. apply HQ; [by eapply pool_inv_frame; [..|exact Hinv2]|simpl; congruence|].
    etrans; [exact He1|]. etrans; [exact He2|done]. }
  destruct (list_Empty l') eqn:Hemp; wp_steps; (apply Hcont; [rewrite app_nil_r|done|done]).
  - eapply inv_delete_pending; [exact Hvirt|apply lookup_insert_eq|done].
  - eapply inv_settle_pending; [exact Hvirt|apply lookup_insert_eq|done].
Qed.

(** The transaction is not pending: the pending list is searched in vain. *)
Lemma wp_remove_from_pending_miss tx p (Q : bool -> TxPool -> Prop) :
  (forall l, pending p !! sender_of tx = Some l -> list_wf l /\ items (txs l) !! Nonce tx = None) ->
  (pending p !! sender_of tx = None -> Q false p) ->
  (forall l l', pending p !! sender_of tx = Some l -> items (txs l') = items (txs l) -> strict l' = strict l ->
     list_wf l' -> Q false (set_pending <[sender_of tx := l']> p)) ->
  wp (remove_from_pending now (sender_of tx) tx) Q p.
Proof.
  intros Hnone HQ1 HQ2. unfold remove_from_pending. wp_steps.
  destruct (pending p !! sender_of tx) as [l|] eqn:Hl; [|by wp_steps; apply HQ1].
  destruct (Hnone l eq_refl) as [Hwf Hn].
  destruct (list_Remove_spec l tx Hwf) as (R & l' & Hrem & Hwf' & Hst' & _ & _ & Hit).
  rewrite Hn, bool_decide_false in * by (by intros ?%is_Some_None). rewrite andb_false_r in Hit.
  destruct Hit as [Hit ->]. rewrite delete_id in Hit by done.
  wp_steps. eapply wp_lift; [exact Hrem|]. wp_steps. by eapply HQ2.
Qed.

(** What removing one transaction leaves of a map of lists. *)
Definition queue_without (tx : Transaction) (l : txList) (m m' : gmap Address txList) : Prop :=
  exists l', items (txs l') = delete (Nonce tx) (items (txs l)) /\
    m' = if list_Empty l' then delete (sender_of tx) m else <[sender_of tx := l']> m.

Lemma wp_remove_from_queue tx l D p (Q : () -> TxPool -> Prop) :
  queue p !! sender_of tx = Some l -> list_wf l -> strict l = false ->
  items (txs l) !! Nonce tx = Some tx ->
  (forall l', takes l l' [tx] -> list_wf l' -> strict l' = false ->
     pool_inv [] D [] (set_queue <[sender_of tx := l']> p)) ->
  (forall p', pool_inv [] D [] p' -> all p' = all p -> same_env p p' -> pending p' = pending p ->
     queue_without tx l (queue p) (queue p') -> Q tt p') ->
  wp (remove_from_queue (sender_of tx) tx) Q p.
Proof.
  intros Hl Hwf Hst Hitem Hvirt HQ. unfold remove_from_queue. wp_steps. rewrite Hl.
  destruct (list_Remove_spec l tx Hwf) as (R & l' & Hrem & Hwf' & Hst' & Hsub & Hperm & Hit).
  rewrite Hst in Hit. simpl in Hit. destruct Hit as [Hit ->]. wp_steps. eapply wp_lift; [exact Hrem|]. wp_steps.
  specialize (Hvirt l' (takes_remove _ _ _ _ Hwf Hwf' Hitem Hsub Hperm) Hwf' ltac:(congruence)).
  destruct (list_Empty l') eqn:Hemp; wp_steps; (apply HQ; [|done|done|done|]).
  - eapply (pool_inv_frame _ _ _ (set_queue (delete (sender_of tx)) (set_queue <[sender_of tx := l']> p))); [done..|].
    eapply inv_delete_queue; [exact Hvirt|apply lookup_insert_eq|done].
  - exists l'. rewrite Hemp. split; [done|]. simpl. by rewrite delete_insert_eq.
  - done.
  - exists l'. by rewrite Hemp.
Qed.

Lemma takes_nil l l' : items (txs l') = items (txs l) -> takes l l' [].
Proof.
  intros Hit. split; [by rewrite Hit| |constructor]. intros tx. rewrite Hit, elem_of_nil.
  split; [done|]. intros [? ?]; congruence.
Qed.

(** Replacing a list by one with the same contents (a cache was filled). *)
Lemma inv_same_pending L D E p a l l' :
  pool_inv L D E p -> pending p !! a = Some l -> list_wf l' -> items (txs l') = items (txs l) ->
  strict l' = strict l -> pool_inv L D E (set_pending <[a := l']> p).
Proof.
  intros Hinv Hl Hwf Hit Hst. destruct (inv_pending _ _ _ _ Hinv _ _ Hl) as [_ Hs].
  pose proof (inv_take_pending _ _ _ _ _ _ _ _ Hinv Hl (takes_nil _ _ Hit) Hwf ltac:(congruence)) as Hinv'.
  simpl in Hinv'. destruct Hinv'. split; try done. intros b l0 Hb Hni.
  destruct (decide (b = a)) as [->|Hne].
  - simpl in Hb. rewrite lookup_insert_eq in Hb. injection Hb as <-.
    pose proof (inv_nonempty _ _ _ _ Hinv _ _ Hl Hni) as He. apply not_true_is_false.
    rewrite list_Empty_spec, Hit, <- list_Empty_spec, He. done.
  - eapply inv_nonempty0; [exact Hb|set_solver].
Qed.

Lemma inv_same_queue L D E p a l l' :
  pool_inv L D E p -> queue p !! a = Some l -> list_wf l' -> items (txs l') = items (txs l) ->
  strict l' = strict l -> pool_inv L D E (set_queue <[a := l']> p).
Proof.
  intros Hinv Hl Hwf Hit Hst. destruct (inv_queue _ _ _ _ Hinv _ _ Hl) as [_ Hs].
  apply (inv_take_queue _ _ _ _ _ _ _ [] Hinv Hl (takes_nil _ _ Hit) Hwf). congruence.
Qed.

(** The two removals of [removeTx] commute with the list operations that follow
    them: with the transaction out of its list, forgetting it restores the
    invariant. *)
Lemma inv_forget_after tx t R D E f (g : TxPool -> TxPool) p (ob : bool) :
  (forall t p, g (set_all t p) = set_all t (g p)) -> (forall l p, g (set_priced l p) = set_priced l (g p)) ->
  (forall p, all (g p) = all p) -> (forall p, priced (g p) = priced p) ->
  lookup_Remove (all p) (tx_hash tx) = Some t ->
  pool_inv (tx :: R) D E (g p) ->
  f = (fun p => if ob then set_priced (priced_Removed (all p) (priced p) 1) p else p) ->
  pool_inv R D E (g (f (set_all t p))).
Proof.
  intros Hg1 Hg2 Hg3 Hg4 Ht Hinv ->. destruct (inv_forget _ _ _ _ _ Hinv) as (t' & Ht' & Hinv' & _).
  rewrite Hg3, Ht in Ht'. injection Ht' as <-. destruct ob.
  - rewrite Hg2, Hg1. pose proof (inv_priced_any _ _ _ _ 1 Hinv') as Hp. simpl in Hp. by rewrite Hg4 in Hp.
  - by rewrite Hg1.
Qed.

(** Two maps of lists with the same contents. *)
Definition same_items (m m' : gmap Address txList) : Prop :=
  (fun l => items (txs l)) <$> m' = (fun l => items (txs l)) <$> m.

Lemma same_items_insert m a l l' :
  m !! a = Some l -> items (txs l') = items (txs l) -> same_items m (<[a := l']> m).
Proof.
  intros Hl Hit. unfold same_items. rewrite fmap_insert. apply insert_id. rewrite lookup_fmap, Hl. simpl. by rewrite Hit.
Qed.

(** The first steps of [removeTx], up to the lists. *)
Definition forgotten (ob : bool) (t : txLookup) (p : TxPool) : TxPool :=
  let p1 := set_all t p in
  if ob then set_priced (priced_Removed (all p1) (priced p1) 1) p1 else p1.

Lemma forgotten_fields ob t p :
  all (forgotten ob t p) = t /\ pending (forgotten ob t p) = pending p /\ queue (forgotten ob t p) = queue p /\
  same_env p (forgotten ob t p).
Proof. unfold forgotten. by destruct ob. Qed.

Lemma wp_removeTx_known tx t ob D p (Q : () -> TxPool -> Prop) :
  pool_inv [] D [] p -> lk_all (all p) !! tx_hash tx = Some tx ->
  lookup_Remove (all p) (tx_hash tx) = Some t ->
  wp (remove_from_pending now (sender_of tx) tx)
     (fun b => wp (if (b : bool) then mret tt else remove_from_queue (sender_of tx) tx) Q) (forgotten ob t p) ->
  wp (removeTx now (tx_hash tx) ob) Q p.
Proof.
  intros Hinv Hh Ht Hw. unfold removeTx. wp_steps. unfold lookup_Get. rewrite Hh.
  unfold all_Remove. wp_steps. eapply wp_lift; [exact Ht|]. wp_steps.
  apply (wp_mono _ (fun _ p1 => p1 = forgotten ob t p)); [by unfold forgotten, pool_priced_Removed; destruct ob|].
  intros _ p1 ->. by wp_steps.
Qed.

(** Removing a queued transaction. *)
Lemma wp_removeTx_queued tx l ob D p (Q : () -> TxPool -> Prop) :
  pool_inv [] D [] p -> queue p !! sender_of tx = Some l -> items (txs l) !! Nonce tx = Some tx ->
  (forall p', pool_inv [] D [] p' -> lk_all (all p') = delete (tx_hash tx) (lk_all (all p)) -> same_env p p' ->
     same_items (pending p) (pending p') -> queue_without tx l (queue p) (queue p') -> Q tt p') ->
  wp (removeTx now (tx_hash tx) ob) Q p.
Proof.
  intros Hinv Hl Hitem HQ. destruct (inv_queue _ _ _ _ Hinv _ _ Hl) as [Hwf Hst].
  assert (Hs : slot (queue p) (sender_of tx) (Nonce tx) = Some tx) by (by rewrite (slot_at _ _ l)).
  destruct (inv_filed _ _ _ _ Hinv _ _ _ (or_intror Hs)) as (_ & _ & Hh).
  destruct (lookup_Remove_wf _ _ _ (inv_lookup _ _ _ _ Hinv) Hh) as (t & Ht & _ & Hall).
  eapply wp_removeTx_known; [done|done|exact Ht|].
  destruct (forgotten_fields ob t p) as (Hfa & Hfp & Hfq & Hfe).
  assert (Hfin : forall g : TxPool -> TxPool,
    (forall t p, g (set_all t p) = set_all t (g p)) -> (forall l p, g (set_priced l p) = set_priced l (g p)) ->
    (forall p, all (g p) = all p) -> (forall p, priced (g p) = priced p) -> (forall p, queue (g p) = queue p) ->
    (forall p, same_env p (g p)) -> same_items (pending p) (pending (g (forgotten ob t p))) -> pool_inv [] D [] (g p) ->
    wp (remove_from_queue (sender_of tx) tx) Q (g (forgotten ob t p))).
  { intros g Hg1 Hg2 Hg3 Hg4 Hg5 Hg6 Hg7 Hgi.
    eapply (wp_remove_from_queue tx l D); [by rewrite Hg5, Hfq|done|done|done| |].
    - intros l' Htk Hwf' Hst'.
      apply (inv_forget_after tx t [] D _ (fun p => if ob then set_priced (priced_Removed (all p) (priced p) 1) p else p)
               (fun p => set_queue <[sender_of tx := l']> (g p)) p ob);
        try (intros; simpl; rewrite ?Hg1, ?Hg2, ?Hg3, ?Hg4; done).
      apply (inv_take_queue [] D [] (g p) (sender_of tx) l l' [tx]); try done. by rewrite Hg5.
    - intros p' Hinv' Ha' He' Hp' Hq'. apply HQ; [done|by rewrite Ha', Hg3, Hfa| |by rewrite Hp'|].
      + etrans; [exact Hfe|]. etrans; [apply Hg6|done].
      + by rewrite Hg5, Hfq in Hq'. }
  apply wp_remove_from_pending_miss; wp_steps.
  - rewrite Hfp. intros l0 Hl0. split; [apply (inv_pending _ _ _ _ Hinv _ _ Hl0)|].
    destruct (inv_disjoint _ _ _ _ Hinv (sender_of tx) (Nonce tx)) as [Hd|]; [|congruence].
    by rewrite (slot_at _ _ l0) in Hd.
  - intros _. apply (Hfin (fun p => p)); try done. by rewrite Hfp.
  - rewrite Hfp. intros l0 l0' Hl0 Hit0 Hst0 Hwf0.
    apply (Hfin (set_pending <[sender_of tx := l0']>)); try done; [|by eapply inv_same_pending].
    simpl. rewrite Hfp. by eapply same_items_insert.
Qed.

(** [removeTx] removes exactly the given hash from the table. *)
Lemma wp_removeTx h ob D p (Q : () -> TxPool -> Prop) :
  pool_inv [] D [] p ->
  (forall p', pool_inv [] D [] p' -> lk_all (all p') = delete h (lk_all (all p)) -> same_env p p' -> Q tt p') ->
  wp (removeTx now h ob) Q p.
Proof.
  intros Hinv HQ. destruct (lk_all (all p) !! h) as [tx|] eqn:Hh.
  2:{ unfold removeTx. wp_steps. unfold lookup_Get. rewrite Hh. apply wp_ret, HQ; [done| |done]. by rewrite delete_id. }
  assert (tx_hash tx = h) as <- by by apply (proj1 (inv_lookup _ _ _ _ Hinv)).
  destruct (inv_known _ _ _ _ Hinv _ _ Hh) as [Hn%elem_of_nil|[Hs|Hs]]; [done| |].
  - destruct (slot_lookup _ _ _ _ Hs) as (l & Hl & Hitem). destruct (inv_pending _ _ _ _ Hinv _ _ Hl) as [Hwf Hst].
    destruct (lookup_Remove_wf _ _ _ (inv_lookup _ _ _ _ Hinv) Hh) as (t & Ht & _ & Hall).
    eapply wp_removeTx_known; [done|done|exact Ht|].
    destruct (forgotten_fields ob t p) as (Hfa & Hfp & Hfq & Hfe).
    eapply (wp_remove_from_pending tx l D); [by rewrite Hfp|done|done|done| |].
    + intros l' R Htk Hwf' Hst'.
      apply (inv_forget_after tx t R D _ (fun p => if ob then set_priced (priced_Removed (all p) (priced p) 1) p else p)
               (set_pending <[sender_of tx := l']>) p ob); try done.
      rewrite <- (app_nil_r (tx :: R)). by eapply inv_take_pending.
    + intros p' Hinv' Ha' He'. wp_steps. apply HQ; [done|by rewrite Ha', Hfa|by etrans; [exact Hfe|]].
  - destruct (slot_lookup _ _ _ _ Hs) as (l & Hl & Hitem). eapply wp_removeTx_queued; [done|done|done|].
    intros p' Hinv' Ha' He' _ _. by apply HQ.
Qed.

(** ** Removing a batch *)

(** Once everything dropped from the price heap has left the table, the heap
    covers the table again. *)
Lemma inv_dropped_gone D p :
  pool_inv [] D [] p -> (forall d, d ∈ D -> lk_all (all p) !! tx_hash d = None) -> pool_inv [] [] [] p.
Proof.
  intros Hinv Hgone. pose proof (inv_lookup _ _ _ _ Hinv) as [Hhash _]. destruct Hinv as [? ? ? ? ? ? ? ? ? [Hh Hc] ?].
  split; try done. split; [done|]. intros h tx Htx. left.
  destruct (Hc _ _ Htx) as [|Hd%Hgone]; [done|]. rewrite (Hhash _ _ Htx) in Hd. congruence.
Qed.

Lemma wp_remove_batch ob drop D p (Q : () -> TxPool -> Prop) :
  pool_inv [] D [] p -> (forall d, d ∈ D -> d ∈ drop) ->
  (forall p', pool_inv [] [] [] p' -> same_env p p' -> lk_all (all p') ⊆ lk_all (all p) ->
     (forall tx, tx ∈ drop -> lk_all (all p') !! tx_hash tx = None) -> Q tt p') ->
  wp (mfor drop (fun tx => removeTx now (tx_hash tx) ob)) Q p.
Proof.
  intros Hinv HD HQ.
  eapply wp_mono; [apply (wp_for (fun rest p' => pool_inv [] D [] p' /\ same_env p p' /\
    lk_all (all p') ⊆ lk_all (all p) /\
    forall tx, tx ∈ drop -> tx ∈ rest \/ lk_all (all p') !! tx_hash tx = None))|].
  - split_and!; [done|done|done|by left].
  - intros tx rest p1 (Hinv1 & He1 & Hsub1 & Hgone1). eapply wp_removeTx; [exact Hinv1|].
    intros p2 Hinv2 Hall2 He2. split_and!; [done|by etrans| |].
    + rewrite Hall2. etrans; [apply delete_subseteq|done].
    + intros tx' Hin. rewrite Hall2. destruct (decide (tx_hash tx = tx_hash tx')) as [Heq|Hne].
      * right. rewrite Heq. apply lookup_delete_eq.
      * rewrite lookup_delete_ne by done. destruct (Hgone1 tx' Hin) as [[->|?]%elem_of_cons|?]; auto. done.
  - intros [] p' (Hinv' & He' & Hsub' & Hgone').
    assert (Hg : forall tx, tx ∈ drop -> lk_all (all p') !! tx_hash tx = None).
    { intros tx Hin. by destruct (Hgone' tx Hin) as [?%elem_of_nil|]. }
    apply HQ; [|done|done|done]. eapply inv_dropped_gone; [exact Hinv'|]. intros d Hd. by apply Hg, HD.
Qed.

(** ** Making room *)

(** Every transaction of the table uses at least one slot. *)
Class RlpLaws : Prop := rlp_nonempty : forall d, rlp_encode_tx d <> [].

Lemma numSlots_pos `{!RlpLaws} tx : 1 <= numSlots tx.
Proof.
  unfold numSlots, tx_size, txSlotSize. pose proof (rlp_nonempty (data tx)) as Hne.
  assert (1 <= Z.of_nat (length (rlp_encode_tx (data tx)))) by (destruct (rlp_encode_tx (data tx)); [done|simpl; lia]).
  apply Z.div_le_lower_bound; lia.
Qed.

Lemma total_slots_ge `{!RlpLaws} (m : gmap Hash Transaction) : Z.of_nat (size m) <= total_slots m.
Proof.
  induction m as [|h tx m Hn IH] using map_ind; [done|].
  rewrite map_size_insert_None, total_slots_insert by done. pose proof (numSlots_pos tx). lia.
Qed.

Lemma total_slots_small `{!RlpLaws} (m : gmap Hash Transaction) :
  (forall h tx, m !! h = Some tx -> numSlots tx <= 1) -> total_slots m = Z.of_nat (size m).
Proof.
  induction m as [|h tx m Hn IH] using map_ind; [done|]. intros Hs.
  rewrite map_size_insert_None, total_slots_insert, IH by
    (done || (intros h' tx' Hh'; apply (Hs h'); rewrite lookup_insert_ne; [done|congruence])).
  pose proof (numSlots_pos tx). specialize (Hs h tx (lookup_insert_eq _ _ _)). lia.
Qed.

(** When the allocation of [Discard] is sure not to panic: the pool is not full,
    there is a local account, or only one-slot transactions are around. *)
Definition small_table (p : TxPool) : Prop := forall h tx, lk_all (all p) !! h = Some tx -> numSlots tx <= 1.

Definition has_locals (p : TxPool) : Prop := as_empty (locals p) = false.

Definition discard_safe (p : TxPool) (tx : Transaction) : Prop :=
  has_locals p \/ (small_table p /\ numSlots tx <= 1) \/ lookup_Count (all p) < pool_limit (config p).

Lemma inv_set_priced p l S drop :
  pool_inv [] [] [] p -> is_heap price_less (pitems l) -> pitems (priced p) ≡ₚ S ++ drop ++ pitems l ->
  Forall (fun tx => is_stale (all p) tx = true) S -> pool_inv [] drop [] (set_priced l p).
Proof.
  intros Hinv Hh Hp HS. pose proof (inv_lookup _ _ _ _ Hinv). pose proof (inv_priced _ _ _ _ Hinv).
  destruct Hinv. split; try done. simpl. by eapply priced_wf_dropped.
Qed.

Lemma wp_discard_for `{!RlpLaws} tx p (Q : () -> TxPool -> Prop) :
  pool_inv [] [] [] p -> discard_safe p tx -> pool_limit (config p) <= lookup_Count (all p) ->
  (forall p', pool_inv [] [] [] p' -> same_env p p' -> lk_all (all p') ⊆ lk_all (all p) -> Q tt p') ->
  wp (discard_for now tx) Q p.
Proof.
  intros Hinv Hsafe Hfull HQ. destruct (inv_config _ _ _ _ Hinv) as [_ _ Hgs _ Hgq Hlim].
  pose proof (inv_priced _ _ _ _ Hinv) as Hpr. pose proof (inv_lookup _ _ _ _ Hinv) as Hlk.
  assert (Hpl : pool_limit (config p) = GlobalSlots (config p) + GlobalQueue (config p))
    by (apply u64_small; unfold is_u64; lia).
  assert (Hrange : 0 <= discard_slots (priced p) (lookup_Slots (all p) - i64 (pool_limit (config p)) + numSlots tx)
                        (locals p) <= Z.of_nat (length (pitems (priced p)))).
  { rewrite Hpl, i64_small in * by lia. unfold lookup_Slots, lookup_Count in *. rewrite (proj2 Hlk).
    pose proof (total_slots_ge (lk_all (all p))). pose proof (numSlots_pos tx).
    apply discard_slots_range; [lia|]. destruct Hsafe as [?|[[Hsm Hone]|Hroom]]; [by left|right|unfold lookup_Count in Hroom; lia].
    rewrite (total_slots_small _ Hsm). pose proof (priced_length _ _ Hpr Hlk). lia. }
  destruct (priced_Discard_spec (all p) (priced p) (lookup_Slots (all p) - i64 (pool_limit (config p)) + numSlots tx)
              (locals p) (proj1 Hpr) Hrange) as (drop & l' & S & Hdisc & Hh & Hp & HS & _).
  unfold discard_for. wp_steps. eapply wp_lift; [exact Hdisc|]. wp_steps.
  eapply wp_remove_batch; [by eapply inv_set_priced|done|]. intros p2 Hinv2 He2 Hsub2 _. by apply HQ.
Qed.

Lemma wp_make_room `{!RlpLaws} tx local p (Q : option pool_error -> TxPool -> Prop) :
  pool_inv [] [] [] p -> discard_safe p tx ->
  (forall r p', pool_inv [] [] [] p' -> same_env p p' -> lk_all (all p') ⊆ lk_all (all p) ->
     r = None \/ r = Some ErrUnderpriced -> Q r p') ->
  wp (make_room now tx local) Q p.
Proof.
  intros Hinv Hsafe HQ. unfold make_room. wp_steps. rewrite Z.geb_leb.
  destruct (Z.leb_spec (pool_limit (config p)) (lookup_Count (all p))) as [Hfull|]; [|wp_steps; by apply HQ; [..|left]].
  assert (Hrest : forall p1, pool_inv [] [] [] p1 -> same_env p p1 -> all p1 = all p ->
    wp (discard_for now tx) (fun _ => Q None) p1).
  { intros p1 Hinv1 He1 Ha1. pose proof He1 as (Hc1 & _ & _ & _ & Hl1). apply wp_discard_for; [done| |by rewrite Hc1, Ha1|].
    - unfold discard_safe, has_locals, small_table in *. by rewrite Hl1, Ha1, Hc1.
    - intros p2 Hinv2 He2 Hsub2. apply HQ; [done|by etrans|by rewrite <- Ha1|by left]. }
  destruct local; wp_steps; [by apply Hrest|].
  destruct (priced_Underpriced_spec (all p) (priced p) tx (locals p) (proj1 (inv_priced _ _ _ _ Hinv)))
    as (b & l' & S & Hund & Hh & Hp & HS & _). eapply wp_lift; [exact Hund|]. wp_steps.
  assert (Hinv1 : pool_inv [] [] [] (set_priced l' p)) by (by eapply inv_set_priced).
  destruct b; wp_steps; [by apply HQ; [..|right]|by apply Hrest].
Qed.

(** ** Inserting a new transaction *)

(** A list without the transaction of one nonce; used only to describe states. *)
Lemma list_without l n :
  list_wf l -> exists l0, list_wf l0 /\ strict l0 = strict l /\ items (txs l0) = delete n (items (txs l)).
Proof.
  intros Hwf. destruct (sm_Remove_spec (txs l) n (proj1 Hwf)) as (m & _ & Hm & Hit).
  exists (list_set_txs l m). split_and!; [|done|done]. apply list_wf_sub; [done..|]. rewrite Hit. apply delete_subseteq.
Qed.

Lemma takes_one l l0 o :
  keyed (items (txs l)) -> items (txs l) !! Nonce o = Some o ->
  items (txs l0) = delete (Nonce o) (items (txs l)) -> takes l l0 [o].
Proof.
  intros Hk Ho Hit. split; [rewrite Hit; apply delete_subseteq| |apply NoDup_singleton].
  intros tx. rewrite list_elem_of_singleton, Hit, lookup_delete_None. split; [by intros ->; split; [|left]|].
  intros [Htx [Heq|Hn]]; congruence.
Qed.

(** The state after [old] gave way to a transaction the pool did not know. *)
Definition swap_known (t : txLookup) (tx : Transaction) (p : TxPool) : TxPool :=
  set_priced (priced_Put (priced_Removed t (priced p) 1) tx) (set_all (lookup_Add t tx) p).

Lemma inv_replace_queue p tx o l l' t :
  pool_inv [] [] [] p -> tx_ok tx -> lk_all (all p) !! tx_hash tx = None ->
  queue p !! sender_of tx = Some l -> items (txs l) !! Nonce tx = Some o ->
  lookup_Remove (all p) (tx_hash o) = Some t ->
  list_wf l' -> strict l' = strict l -> items (txs l') = <[Nonce tx := tx]> (items (txs l)) ->
  pool_inv [] [] [] (swap_known t tx (set_queue <[sender_of tx := l']> p)).
Proof.
  intros Hinv Hok Hnew Hl Ho Ht Hwf' Hst' Hit'.
  destruct (inv_queue _ _ _ _ Hinv _ _ Hl) as [Hwf Hst].
  assert (Hslot : slot (queue p) (sender_of tx) (Nonce tx) = Some o) by (by rewrite (slot_at _ _ l)).
  destruct (proj1 (proj1 Hwf) _ _ Ho) as [Hn _].
  destruct (list_without l (Nonce tx) Hwf) as (l0 & Hwf0 & Hst0 & Hit0).
  assert (Hv : pool_inv [o] [] [] (set_queue <[sender_of tx := l0]> p)).
  { apply (inv_take_queue [] [] [] p _ l l0 [o]); [done|done| |done|congruence].
    apply takes_one; [apply Hwf|by rewrite Hn|by rewrite Hn]. }
  destruct (inv_forget _ _ _ _ _ Hv) as (t' & Ht' & Hv2 & Hall). simpl in Ht', Hall. rewrite Ht in Ht'. injection Ht' as <-.
  apply (inv_priced_any _ _ _ _ 1) in Hv2. eapply inv_learn in Hv2; [|exact Hok| | | |].
  - apply (inv_file_queue [] [] [] _ tx l0 l') in Hv2; [|left; apply lookup_insert_eq|done|congruence|].
    + eapply pool_inv_frame; [..|exact Hv2]; try done. simpl. by rewrite insert_insert_eq.
    + by rewrite Hit', Hit0, insert_delete_eq.
  - simpl. rewrite Hall. by apply lookup_delete_None; right.
  - simpl. destruct (inv_disjoint _ _ _ _ Hinv (sender_of tx) (Nonce tx)); [done|congruence].
  - simpl. rewrite slot_insert, decide_True, Hit0 by done. apply lookup_delete_eq.
  - apply not_elem_of_nil.
Qed.

Lemma inv_replace_pending p tx o l l' t :
  pool_inv [] [] [] p -> tx_ok tx -> lk_all (all p) !! tx_hash tx = None ->
  pending p !! sender_of tx = Some l -> items (txs l) !! Nonce tx = Some o ->
  lookup_Remove (all p) (tx_hash o) = Some t ->
  list_wf l' -> strict l' = strict l -> items (txs l') = <[Nonce tx := tx]> (items (txs l)) ->
  pool_inv [] [] [] (swap_known t tx (set_pending <[sender_of tx := l']> p)).
Proof.
  intros Hinv Hok Hnew Hl Ho Ht Hwf' Hst' Hit'.
  destruct (inv_pending _ _ _ _ Hinv _ _ Hl) as [Hwf Hst].
  assert (Hslot : slot (pending p) (sender_of tx) (Nonce tx) = Some o) by (by rewrite (slot_at _ _ l)).
  destruct (proj1 (proj1 Hwf) _ _ Ho) as [Hn _].
  destruct (list_without l (Nonce tx) Hwf) as (l0 & Hwf0 & Hst0 & Hit0).
  assert (Hv : pool_inv [o] [] [sender_of tx] (set_pending <[sender_of tx := l0]> p)).
  { apply (inv_take_pending [] [] [] p _ l l0 [o]); [done|done| |done|congruence].
    apply takes_one; [apply Hwf|by rewrite Hn|by rewrite Hn]. }
  destruct (inv_forget _ _ _ _ _ Hv) as (t' & Ht' & Hv2 & Hall). simpl in Ht', Hall. rewrite Ht in Ht'. injection Ht' as <-.
  apply (inv_priced_any _ _ _ _ 1) in Hv2. eapply inv_learn in Hv2; [|exact Hok| | | |].
  - apply (inv_file_pending [] [] _ _ tx l0 l') in Hv2; [|left; apply lookup_insert_eq|done|congruence|].
    + eapply inv_settle_pending in Hv2; [|apply lookup_insert_eq|].
      * eapply pool_inv_frame; [..|exact Hv2]; try done. simpl. by rewrite insert_insert_eq.
      * apply not_true_is_false. rewrite list_Empty_spec, Hit'. apply insert_non_empty.
    + by rewrite Hit', Hit0, insert_delete_eq.
  - simpl. rewrite Hall. by apply lookup_delete_None; right.
  - simpl. rewrite slot_insert, decide_True, Hit0 by done. apply lookup_delete_eq.
  - simpl. destruct (inv_disjoint _ _ _ _ Hinv (sender_of tx) (Nonce tx)); [congruence|done].
  - apply not_elem_of_nil.
Qed.

Lemma filed_known p a n tx :
  pool_inv [] [] [] p -> slot (pending p) a n = Some tx \/ slot (queue p) a n = Some tx ->
  exists t, lookup_Remove (all p) (tx_hash tx) = Some t /\ lk_all t = delete (tx_hash tx) (lk_all (all p)).
Proof.
  intros Hinv Hs. destruct (inv_filed _ _ _ _ Hinv _ _ _ Hs) as (_ & _ & Hin).
  destruct (lookup_Remove_wf _ _ _ (inv_lookup _ _ _ _ Hinv) Hin) as (t & ? & _ & ?). eauto.
Qed.

(** What an insertion reports: on success the transaction is known and nothing
    else is new; on failure nothing is new. *)
Definition added (tx : Transaction) (p p' : TxPool) (r : bool * option pool_error) : Prop :=
  match r with
  | (_, None) => lk_all (all p') ⊆ <[tx_hash tx := tx]> (lk_all (all p)) /\ lk_all (all p') !! tx_hash tx = Some tx
  | (b, Some _) => b = false /\ lk_all (all p') ⊆ lk_all (all p)
  end.

Definition locals_grow (p p' : TxPool) : Prop := accounts (locals p) ⊆ accounts (locals p').

Lemma wp_replace_pending p tx l o (Q : bool * option pool_error -> TxPool -> Prop) :
  pool_inv [] [] [] p -> tx_ok tx -> lk_all (all p) !! tx_hash tx = None ->
  pending p !! sender_of tx = Some l -> items (txs l) !! Nonce tx = Some o ->
  (forall r p', pool_inv [] [] [] p' -> same_env p p' -> added tx p p' r -> Q r p') ->
  wp (replace_pending now (sender_of tx) l tx) Q p.
Proof.
  intros Hinv Hok Hnew Hl Ho HQ. destruct (inv_pending _ _ _ _ Hinv _ _ Hl) as [Hwf Hst].
  pose proof (list_Add_spec l tx (PriceBump (config p)) Hwf (proj2 Hok) (cfg_bump _ (inv_config _ _ _ _ Hinv))) as Hadd.
  rewrite Ho in Hadd. unfold replace_pending. wp_steps.
  destruct Hadd as [[_ ->]|(_ & l' & -> & Hwf' & Hit' & Hst')]; wp_steps; simpl negb; cbv iota; wp_steps.
  - apply HQ; [by eapply inv_same_pending|done|split; done].
  - destruct (filed_known p (sender_of tx) (Nonce tx) o Hinv) as (t & Ht & Hall); [left; by rewrite (slot_at _ _ l)|].
    unfold all_Remove. wp_steps. eapply wp_lift; [exact Ht|].
    unfold pool_priced_Removed, all_Add, pool_priced_Put, journalTx, queueTxEvent. wp_steps.
    pose proof (inv_replace_pending p tx o l l' t Hinv Hok Hnew Hl Ho Ht Hwf' Hst' Hit') as Hfin.
    rewrite bool_decide_true by eauto. apply HQ.
    + eapply pool_inv_frame; [..|exact Hfin]; simpl; by repeat (case_match; simpl).
    + simpl. repeat (case_match; simpl); done.
    + assert (Hlk : forall q : TxPool, lk_all (all q) = lk_all (lookup_Add t tx) -> added tx p q (true, None)).
      { intros q Hq. unfold added. rewrite Hq. simpl. rewrite Hall, lookup_insert_eq. split; [|done].
        apply insert_mono, delete_subseteq. }
      apply Hlk. simpl. by repeat (case_match; simpl).
Qed.

(** [enqueueTx] of a transaction the pool does not know and does not have
    pending at that nonce. *)
Lemma wp_enqueueTx_new tx p (Q : bool * option pool_error -> TxPool -> Prop) :
  pool_inv [] [] [] p -> tx_ok tx -> lk_all (all p) !! tx_hash tx = None ->
  slot (pending p) (sender_of tx) (Nonce tx) = None ->
  (forall r p', pool_inv [] [] [] p' -> same_env p p' -> added tx p p' r -> Q r p') ->
  wp (enqueueTx now (tx_hash tx) tx) Q p.
Proof.
  intros Hinv Hok Hnew Hsp HQ.
  destruct (list_for_insert (queue p) false (sender_of tx) (inv_queue _ _ _ _ Hinv)) as (Hwf & Hst & Hit & Hor).
  set (l := default (newTxList false) (queue p !! sender_of tx)) in *.
  pose proof (list_Add_spec l tx (PriceBump (config p)) Hwf (proj2 Hok) (cfg_bump _ (inv_config _ _ _ _ Hinv))) as Hadd.
  unfold enqueueTx. wp_step. wp_step.
  set (p1 := match queue p !! sender_of tx with
             | Some _ => p | None => set_queue <[sender_of tx := newTxList false]> p end).
  assert (Hq1 : queue p1 !! sender_of tx = Some l /\ config p1 = config p /\
                forall l', set_queue <[sender_of tx := l']> p1 = set_queue <[sender_of tx := l']> p).
  { unfold p1, l. destruct (queue p !! sender_of tx) eqn:El; simpl; [done|].
    split_and!; [by rewrite lookup_insert_eq|done|]. intros l'. unfold set_queue; simpl. by rewrite insert_insert_eq. }
  destruct Hq1 as (Hq1 & Hc1 & Hset). wp_steps. eapply wp_lift; [exact Hq1|]. rewrite Hc1.
  destruct (items (txs l) !! Nonce tx) as [o|] eqn:Ho.
  - assert (Hl : queue p !! sender_of tx = Some l) by (destruct Hor as [?|[_ He]]; [done|by rewrite He in Ho]).
    destruct Hadd as [[_ ->]|(_ & l' & -> & Hwf' & Hit' & Hst')]; wp_steps; simpl negb; cbv iota; wp_steps; rewrite Hset.
    { apply HQ; [by eapply inv_same_queue|done|split; done]. }
    destruct (filed_known p (sender_of tx) (Nonce tx) o Hinv) as (t & Ht & Hall); [right; by rewrite <- Hit|].
    unfold all_Remove. wp_steps. eapply wp_lift; [exact Ht|].
    unfold pool_priced_Removed. wp_steps.
    assert (Hget : lk_all t !! tx_hash tx = None) by (rewrite Hall; by apply lookup_delete_None; right).
    set (p2 := set_priced _ _). change (lookup_Get (all p2) (tx_hash tx)) with (lk_all t !! tx_hash tx). rewrite Hget.
    unfold all_Add, pool_priced_Put. wp_steps. subst p2.
    pose proof (inv_replace_queue p tx o l l' t Hinv Hok Hnew Hl Ho Ht Hwf' Hst' Hit') as Hfin.
    rewrite bool_decide_true by eauto. apply HQ.
    + eapply pool_inv_frame; [..|exact Hfin]; simpl; by case_match.
    + simpl. by case_match.
    + assert (Hlk : forall q : TxPool, lk_all (all q) = lk_all (lookup_Add t tx) -> added tx p q (true, None)).
      { intros q Hq. unfold added. rewrite Hq. simpl. rewrite Hall, lookup_insert_eq. split; [|done].
        apply insert_mono, delete_subseteq. }
      apply Hlk. simpl. by case_match.
  - destruct Hadd as (l' & -> & Hwf' & Hit' & Hst'); wp_steps; simpl negb; cbv iota; wp_steps; rewrite Hset.
    set (p2 := set_queue _ _). change (lookup_Get (all p2) (tx_hash tx)) with (lk_all (all p) !! tx_hash tx). rewrite Hnew.
    unfold all_Add, pool_priced_Put. wp_steps. subst p2.
    assert (Hfin : pool_inv [] [] [] (set_queue <[sender_of tx := l']>
                     (set_priced (priced_Put (priced p) tx) (set_all (lookup_Add (all p) tx) p)))).
    { eapply (inv_file_queue [] [] [] _ tx l l'); [apply inv_learn; try done; [by rewrite <- Hit|apply not_elem_of_nil]|
        exact Hor|done|congruence|done]. }
    rewrite bool_decide_false by (by intros ?%is_Some_None). apply HQ.
    + eapply pool_inv_frame; [..|exact Hfin]; simpl; by case_match.
    + simpl. by case_match.
    + assert (Hlk : forall q : TxPool, lk_all (all q) = lk_all (lookup_Add (all p) tx) -> added tx p q (false, None)).
      { intros q Hq. unfold added. rewrite Hq. simpl. by rewrite lookup_insert_eq. }
      apply Hlk. simpl. by case_match.
Qed.

(** [same_env] up to the set of local accounts, which only grows. *)
Definition same_head (p p' : TxPool) : Prop :=
  config p' = config p /\ gasPrice p' = gasPrice p /\ currentState p' = currentState p /\
  currentMaxGas p' = currentMaxGas p /\ accounts (locals p) ⊆ accounts (locals p').

#[local] Instance same_head_preorder : PreOrder same_head.
Proof.
  split; [by intros p|]. intros p1 p2 p3 (? & ? & ? & ? & ?) (? & ? & ? & ? & ?).
  repeat split; try congruence. by etrans.
Qed.

Lemma same_env_head p p' : same_env p p' -> same_head p p'.
Proof. intros (? & ? & ? & ? & Hl). repeat split; try done. by rewrite Hl. Qed.

Lemma wp_push_queue tx local p (Q : bool * option pool_error -> TxPool -> Prop) :
  pool_inv [] [] [] p -> tx_ok tx -> lk_all (all p) !! tx_hash tx = None ->
  slot (pending p) (sender_of tx) (Nonce tx) = None ->
  (forall r p', pool_inv [] [] [] p' -> same_head p p' -> added tx p p' r -> Q r p') ->
  wp (push_queue now (tx_hash tx) (sender_of tx) tx local) Q p.
Proof.
  intros Hinv Hok Hnew Hsp HQ. unfold push_queue. wp_steps. eapply wp_enqueueTx_new; try done.
  intros [b [e|]] p1 Hinv1 He1 Hadd1.
  - wp_steps. apply HQ; [done|by apply same_env_head|]. by destruct Hadd1.
  - unfold journalTx. wp_steps. apply HQ.
    + eapply pool_inv_frame; [..|exact Hinv1]; simpl; by repeat (case_match; simpl).
    + etrans; [by apply same_env_head|]. unfold same_head.
      assert (Hloc : accounts (locals p1) ⊆ accounts (as_add (locals p1) (sender_of tx))).
      { simpl. apply map_subseteq_spec. intros a [] Ha. by rewrite lookup_insert_Some, Ha; destruct (decide (sender_of tx = a)); auto. }
      repeat (case_match; simpl); split_and!; done.
    + assert (Hlk : forall q : TxPool, all q = all p1 -> added tx p q (b, None)).
      { intros q Hq. unfold added. by rewrite Hq. }
      apply Hlk. by repeat (case_match; simpl).
Qed.

(** ** add *)

Lemma validateTx_sender p tx local : validateTx p tx local = None -> valid_sender tx = true.
Proof. unfold validateTx, valid_sender. repeat (case_match; try done). Qed.

(** [add] keeps the invariant whatever it answers. *)
Lemma wp_add `{!RlpLaws} tx local p (Q : bool * option pool_error -> TxPool -> Prop) :
  pool_inv [] [] [] p -> is_u64 (Nonce tx) -> discard_safe p tx ->
  (forall r p', pool_inv [] [] [] p' -> same_head p p' -> added tx p p' r -> Q r p') ->
  wp (add now tx local) Q p.
Proof.
  intros Hinv Hu Hsafe HQ. unfold add. wp_steps. unfold lookup_Get.
  destruct (lk_all (all p) !! tx_hash tx) eqn:Hnew; [by wp_steps; apply HQ|].
  destruct (validateTx p tx local) eqn:Hval; [by wp_steps; apply HQ|]. wp_steps.
  assert (Hok : tx_ok tx) by (split; [by eapply validateTx_sender|done]).
  apply wp_make_room; [done|done|]. intros r p1 Hinv1 He1 Hsub1 Hr.
  assert (Hnew1 : lk_all (all p1) !! tx_hash tx = None) by (by eapply lookup_weaken_None).
  assert (HQ' : forall r p', pool_inv [] [] [] p' -> same_head p1 p' -> added tx p1 p' r -> Q r p').
  { intros [b [e|]] p' Hinv' He' Hadd'; (apply HQ; [done|by etrans; [apply same_env_head|]|]).
    - destruct Hadd' as [-> ?]. split; [done|by etrans].
    - destruct Hadd' as [Hs Hg]. split; [|done]. etrans; [exact Hs|by apply insert_mono]. }
  destruct Hr as [->| ->]; [|wp_steps; apply HQ; [done|by apply same_env_head|split; done]].
  wp_steps. destruct (pending p1 !! sender_of tx) as [l|] eqn:Hl.
  - unfold list_Overlaps, sm_Get. case_bool_decide as Hover.
    + destruct Hover as [o Ho]. eapply wp_replace_pending; try done.
      intros r p' Hinv' He' Hadd'. apply HQ'; [done|by apply same_env_head|done].
    + apply wp_push_queue; try done. rewrite (slot_at _ _ l) by done. by apply eq_None_not_Some.
  - apply wp_push_queue; try done. by apply slot_none.
Qed.

End Inv.
