(* ===== verification/TxPoolOps.v ===== *)
(** * Every entry point of the pool preserves the invariant

    Built on the step lemmas of [TxPoolInv.v]: batches of insertions, promotion
    of executable transactions, demotion after a head change, the truncation of
    the pending and queued lists with the bounds they establish, eviction, price
    changes, and the whole reorganisation run. *)
From stdpp Require Import gmap list sorting.
From Stdlib Require Import ZArith Lia.
From S2P Require Import Prelude GoHeap Transaction TxList PricedList TxPool TxPoolInv.

Local Open Scope Z_scope.

Section Ops.
Context `{!TxCrypto} `{!RangeOrder} `{!RlpLaws}.
Context (now : Z).

#[local] Existing Instances same_env_preorder same_head_preorder.

(** ** Batches *)

Lemma has_locals_grow p p' : same_head p p' -> has_locals p -> has_locals p'.
Proof.
  intros (_ & _ & _ & _ & Hsub). unfold has_locals, as_empty. rewrite !bool_decide_eq_false.
  apply map_subseteq_size in Hsub. lia.
Qed.

(** What makes a whole batch safe. *)
Definition batch_safe (p : TxPool) (txs : list Transaction) : Prop :=
  has_locals p \/ (small_table p /\ Forall (fun tx => numSlots tx <= 1) txs) \/
  lookup_Count (all p) + Z.of_nat (length txs) <= pool_limit (config p).

Lemma small_table_added p p' tx r :
  small_table p -> numSlots tx <= 1 -> added tx p p' r -> small_table p'.
Proof.
  intros Hs Hn Hadd h tx' Hh. destruct r as [b [e|]]; destruct Hadd as [Ha1 Ha2].
  - apply (Hs h). by eapply lookup_weaken.
  - eapply lookup_weaken in Hh; [|exact Ha1]. apply lookup_insert_Some in Hh as [[_ <-]|[_ Hh]]; [done|by apply (Hs h)].
Qed.

Lemma added_size p p' tx r : added tx p p' r -> (size (lk_all (all p')) <= S (size (lk_all (all p))))%nat.
Proof.
  intros Hadd. destruct r as [b [e|]]; destruct Hadd as [Ha1 Ha2]; simpl in *.
  - apply map_subseteq_size in Ha2. lia.
  - apply map_subseteq_size in Ha1. rewrite map_size_insert in Ha1.
    destruct (lk_all (all p) !! tx_hash tx); simpl in Ha1; lia.
Qed.

Lemma small_table_sub p p' : small_table p -> lk_all (all p') ⊆ lk_all (all p) -> small_table p'.
Proof. intros Hs Hsub h tx Hh. apply (Hs h). by eapply lookup_weaken. Qed.

Lemma wp_addTxsLocked_loop local : forall txs dirty p
    (Q : list (option pool_error) * accountSet -> TxPool -> Prop),
  pool_inv [] [] [] p -> Forall (fun tx => is_u64 (Nonce tx)) txs -> batch_safe p txs ->
  (forall errs d p', length errs = length txs -> pool_inv [] [] [] p' -> same_head p p' ->
     (size (lk_all (all p')) <= size (lk_all (all p)) + length txs)%nat -> Q (errs, d) p') ->
  wp (addTxsLocked_loop now txs local dirty) Q p.
Proof.
  induction txs as [|tx txs IH]; intros dirty p Q Hinv Hu Hsafe HQ; cbn [addTxsLocked_loop].
  { wp_steps. apply HQ; [done|done|done|simpl; lia]. }
  apply Forall_cons in Hu as [Hu1 Hu]. wp_step. apply (wp_add now); [done|done| |].
  { destruct Hsafe as [?|[[? Hs]|Hs]]; [by left|right; left; by apply Forall_cons in Hs as [? _]|].
    right; right. simpl in Hs. lia. }
  intros [replaced err] p1 Hinv1 He1 Hadd1. wp_steps. pose proof (added_size _ _ _ _ Hadd1) as Hsz1.
  assert (Hsafe1 : batch_safe p1 txs).
  { destruct Hsafe as [?|[[Hs Hall]|Hs]]; [left; by eapply has_locals_grow|right; left|right; right].
    - apply Forall_cons in Hall as [? ?]. split; [by eapply small_table_added|done].
    - destruct He1 as (-> & _). unfold lookup_Count in *. simpl in Hs. lia. }
  apply IH; [done|done|done|]. intros errs d p2 Hlen Hinv2 He2 Hsz2. wp_steps.
  apply HQ; [simpl; congruence|done|by etrans|simpl; lia].
Qed.

Lemma wp_addTxsLocked txs local p (Q : list (option pool_error) * accountSet -> TxPool -> Prop) :
  pool_inv [] [] [] p -> Forall (fun tx => is_u64 (Nonce tx)) txs -> batch_safe p txs ->
  (forall errs d p', length errs = length txs -> pool_inv [] [] [] p' -> same_head p p' ->
     (size (lk_all (all p')) <= size (lk_all (all p)) + length txs)%nat -> Q (errs, d) p') ->
  wp (addTxsLocked now txs local) Q p.
Proof.
  intros Hinv Hu Hsafe HQ. apply wp_addTxsLocked_loop; [done|done|done|].
  intros errs d p' Hlen Hinv' He' Hsz'. apply HQ; auto.
Qed.

(** The merge of errors never runs past the slice: there are as many new errors
    as free slots. *)
Lemma merge_errs_total errs : forall newErrs,
  length newErrs = length (List.filter (fun e => bool_decide (e = None)) errs) ->
  exists l, merge_errs errs newErrs = Some l /\ length l = length errs.
Proof.
  induction errs as [|[e|] errs IH]; intros [|n newErrs] Hlen; simpl in *; try lia; eauto.
  - destruct (IH (n :: newErrs)) as (l & -> & Hl); [done|]. simpl. eexists. split; [done|]. simpl. lia.
  - destruct (IH newErrs) as (l & -> & Hl); [lia|]. simpl. eexists. split; [done|]. simpl. lia.
Qed.

Lemma precheck_slots p txs :
  length (List.filter (fun e => bool_decide (e = None)) (precheck p <$> txs))
  = length (List.filter (fun tx => bool_decide (precheck p tx = None)) txs).
Proof.
  induction txs as [|tx txs IH]; [done|]. csimpl. case_bool_decide; simpl; lia.
Qed.

Lemma wp_addTxs txs local p (Q : list (option pool_error) * option accountSet -> TxPool -> Prop) :
  pool_inv [] [] [] p -> Forall (fun tx => is_u64 (Nonce tx)) txs -> batch_safe p txs ->
  (forall errs d p', length errs = length txs -> pool_inv [] [] [] p' -> same_head p p' ->
     (size (lk_all (all p')) <= size (lk_all (all p)) + length txs)%nat -> Q (errs, d) p') ->
  wp (addTxs now txs local) Q p.
Proof.
  intros Hinv Hu Hsafe HQ. unfold addTxs. wp_steps. set (news := List.filter _ txs).
  assert (Hsub : forall P, Forall P txs -> Forall P news).
  { intros P. rewrite !Forall_forall. intros HP x Hx. apply HP. unfold news in Hx.
    rewrite list_elem_of_In in *. apply filter_In in Hx. tauto. }
  case_decide as Hlen.
  { wp_steps. apply HQ; [apply length_fmap|done|done|lia]. }
  assert (Hlt : (length news <= length txs)%nat) by apply filter_length_le.
  wp_steps. apply wp_addTxsLocked; [done|by apply Hsub| |].
  { destruct Hsafe as [?|[[? ?]|Hs]]; [by left|right; left|right; right]; [split; [done|by apply Hsub]|].
    lia. }
  intros errs d p1 Hle Hinv1 He1 Hsz1. wp_steps.
  destruct (merge_errs_total (precheck p <$> txs) errs) as (l & Hl & Hll); [by rewrite precheck_slots|].
  eapply wp_lift; [exact Hl|]. wp_steps. apply HQ; [by rewrite Hll, length_fmap|done|done|lia].
Qed.

(** ** Promotion *)

Lemma list_Filter_lax l cl gl r i l' : strict l = false -> list_Filter l cl gl = ((r, i), l') -> i = [].
Proof.
  intros Hst. unfold list_Filter. rewrite Hst. repeat case_match; intros; by simplify_eq.
Qed.

Lemma takes_senders L D E p a l l' R :
  pool_inv L D E p -> queue p !! a = Some l -> takes l l' R -> Forall (fun tx => sender_of tx = a) R.
Proof.
  intros Hinv Hl Ht. apply Forall_forall. intros tx Hin%(takes_iff _ _ _ Ht).
  apply (inv_filed _ _ _ _ Hinv a (Nonce tx)). right. rewrite (slot_at _ _ l) by done. tauto.
Qed.

Lemma list_Ready_takes l start :
  list_wf l -> exists ready l', list_Ready l start = Some (ready, l') /\ list_wf l' /\
    strict l' = strict l /\ takes l l' ready.
Proof.
  intros Hwf. destruct (list_Ready_spec l start Hwf) as (ready & l' & Hr & Hwf' & Hst' & Hcase).
  exists ready, l'. split_and!; try done. destruct Hcase as [(-> & Hit & _)|(lo & _ & _ & _ & _ & _ & Hs & Hit)].
  - by apply takes_nil.
  - by eapply takes_below.
Qed.

Lemma list_Cap_takes l t :
  list_wf l -> 0 <= t -> exists caps l', list_Cap l t = Some (caps, l') /\ list_wf l' /\
    strict l' = strict l /\ takes l l' caps.
Proof.
  intros Hwf Ht. destruct (sorted_of_exists (items (txs l))) as [c Hc]; [apply Hwf|].
  destruct (list_Cap_spec l t c Hwf Ht Hc) as (l' & Hcap & Hwf' & Hst' & Hs & Hsub).
  eexists _, l'. split_and!; try done. by apply takes_cap.
Qed.

Lemma wp_nonces_get a L D E p (Q : Z -> TxPool -> Prop) :
  pool_inv L D E p ->
  (forall v n, pool_inv L D E (set_nonces n p) -> Q v (set_nonces n p)) -> wp (nonces_get a) Q p.
Proof.
  intros Hinv HQ. unfold nonces_get. wp_steps. destruct (noncer_get (pendingNonces p) a) as [v n]. wp_steps.
  apply HQ. by eapply pool_inv_frame; [..|exact Hinv].
Qed.

(** The last part of a promotion turn: capping the queue and tidying up. *)
Definition promote_finish (addr : Address) (p : TxPool) (l : txList) (n : nat) (promoted : list Transaction)
    : M TxPool (list Transaction) :=
  '(caps, l) ← (if as_contains (locals p) addr then mret ([], l)
                else mlift (list_Cap l (i64 (AccountQueue (config p)))));
  _ ← mmodify (set_queue <[addr := l]>);
  _ ← remove_all caps;
  _ ← pool_priced_Removed (Z.of_nat (n + length caps));
  _ ← (if list_Empty l
       then mmodify (fun p => set_beats (delete addr) (set_queue (delete addr) p))
       else mret tt);
  mret promoted.

Lemma wp_promote_finish addr p0 l n promoted p (Q : list Transaction -> TxPool -> Prop) :
  pool_inv [] [] [] p -> queue p !! addr = Some l -> config_ok (config p0) ->
  (forall p', pool_inv [] [] [] p' -> same_env p p' -> lk_all (all p') ⊆ lk_all (all p) -> Q promoted p') ->
  wp (promote_finish addr p0 l n promoted) Q p.
Proof.
  intros Hinv Hl Hcfg HQ. destruct (inv_queue _ _ _ _ Hinv _ _ Hl) as [Hwf Hst].
  assert (Hcont : forall caps l', list_wf l' -> strict l' = strict l -> takes l l' caps ->
    wp (_ ← mmodify (set_queue <[addr := l']>); _ ← remove_all caps;
        _ ← pool_priced_Removed (Z.of_nat (n + length caps));
        _ ← (if list_Empty l' then mmodify (fun p => set_beats (delete addr) (set_queue (delete addr) p))
             else mret tt); mret promoted) Q p).
  { intros caps l' Hwf' Hst' Ht. wp_steps.
    eapply (wp_remove_all caps []); [by eapply inv_take_queue; [..|congruence]|]. intros t Hinv1 Hsub1. wp_steps.
    eapply wp_priced_Removed; [exact Hinv1|]. intros pl Hinv2. wp_steps.
    destruct (list_Empty l') eqn:He; wp_steps; (apply HQ; [|done|done]); [|done].
    eapply (pool_inv_frame _ _ _ (set_queue (delete addr) (set_priced pl (set_all t (set_queue <[addr := l']> p))))); [done..|].
    eapply inv_delete_queue; [exact Hinv2|apply lookup_insert_eq|done]. }
  unfold promote_finish. apply wp_bind. destruct (as_contains (locals p0) addr).
  - apply wp_ret. cbv iota. apply Hcont; [done|done|by apply takes_nil].
  - destruct (list_Cap_takes l (AccountQueue (config p0)) Hwf) as (caps & l' & Hcap & Hwf' & Hst' & Ht);
      [destruct Hcfg; lia|]. eapply wp_lift; [rewrite i64_small by (destruct Hcfg; lia); exact Hcap|]. cbv iota.
    by apply Hcont.
Qed.

(** What [promoteExecutables] checks of a transaction before promoting it. *)
Definition executable (p : TxPool) (tx : Transaction) : Prop :=
  GetNonce (currentState p) (sender_of tx) <= Nonce tx /\
  Cost tx <= GetBalance (currentState p) (sender_of tx) /\ Gas tx <= currentMaxGas p.

Lemma executable_env p p' tx : same_env p p' -> executable p' tx -> executable p tx.
Proof. intros (_ & _ & Hs & Hg & _). unfold executable. by rewrite Hs, Hg. Qed.

Lemma wp_promote_account addr p (Q : list Transaction -> TxPool -> Prop) :
  pool_inv [] [] [] p ->
  (forall r p', pool_inv [] [] [] p' -> same_env p p' -> lk_all (all p') ⊆ lk_all (all p) ->
     Forall (executable p) r -> Q r p') ->
  wp (promote_account now addr) Q p.
Proof.
  intros Hinv HQ. unfold promote_account. wp_steps. destruct (queue p !! addr) as [l|] eqn:Hl; [|by wp_steps; apply HQ].
  destruct (inv_queue _ _ _ _ Hinv _ _ Hl) as [Hwf Hst]. wp_steps.
  destruct (list_Forward_spec l (GetNonce (currentState p) addr) Hwf) as (forwards & l1 & Hf & Hwf1 & Hst1 & Hit1 & Hs1).
  eapply wp_lift; [exact Hf|]. wp_steps.
  eapply (wp_remove_all forwards []); [eapply inv_take_queue; [exact Hinv|done|by eapply takes_below|done|congruence]|].
  intros t1 Hinv1 Hsub1. wp_steps.
  destruct (list_Filter l1 (GetBalance (currentState p) addr) (currentMaxGas p)) as [[drops inv2] l2] eqn:Hfil.
  pose proof (list_Filter_spec _ _ _ _ _ _ Hwf1 Hfil) as Hok2. pose proof Hok2 as (Hwf2 & Hst2 & _).
  pose proof (takes_filter _ _ _ _ _ _ Hwf1 Hok2) as Ht2. 
  assert (inv2 = []) as -> by (eapply list_Filter_lax; [|exact Hfil]; congruence). rewrite app_nil_r in Ht2.
  wp_steps.
  eapply (wp_remove_all drops []); [eapply inv_take_queue; [exact Hinv1|apply lookup_insert_eq|done|done|congruence]|].
  intros t2 Hinv2 Hsub2. wp_steps. eapply wp_nonces_get; [exact Hinv2|]. intros start nn Hinv3. wp_steps.
  destruct (list_Ready_takes l2 start Hwf2) as (readies & l3 & Hr & Hwf3 & Hst3 & Ht3).
  eapply wp_lift; [exact Hr|]. wp_steps.
  assert (Hl2 : queue (set_nonces nn (set_all t2 (set_queue <[addr:=l2]> (set_all t1 (set_queue <[addr:=l1]> p))))) !! addr
                = Some l2) by apply lookup_insert_eq.
  eapply (wp_promote_readies now addr readies []).
  { eapply inv_take_queue; [exact Hinv3|exact Hl2|done|done|congruence]. }
  { by eapply takes_senders. }
  intros p4 Hinv4 Hq4 Ha4 He4.
  apply (wp_promote_finish addr p l3 (length forwards + length drops) readies).
  - done.
  - rewrite Hq4. apply lookup_insert_eq.
  - apply (inv_config _ _ _ _ Hinv).
  - intros p5 Hinv5 He5 Hsub5. apply HQ; [done|by etrans; [exact He4|]| |].
    { etrans; [exact Hsub5|]. rewrite Ha4. simpl. by etrans. }
    pose proof (takes_senders _ _ _ _ _ _ _ _ Hinv3 Hl2 Ht3) as Hse. rewrite Forall_forall in *.
    intros tx Hin. pose proof (Hse tx Hin) as Htx. apply (takes_iff _ _ _ Ht3) in Hin as [Hin _].
    apply Hok2 in Hin as (Hin & Hab & _). apply above_limits_false in Hab as [Hg Hcost].
    unfold executable. rewrite Htx. split_and!; [|done|done].
    rewrite Hit1, lookup_from in Hin. by case_decide.
Qed.

Lemma wp_promoteExecutables : forall addrs p (Q : list Transaction -> TxPool -> Prop),
  pool_inv [] [] [] p ->
  (forall r p', pool_inv [] [] [] p' -> same_env p p' -> lk_all (all p') ⊆ lk_all (all p) ->
     Forall (executable p) r -> Q r p') ->
  wp (promoteExecutables now addrs) Q p.
Proof.
  induction addrs as [|a addrs IH]; intros p Q Hinv HQ; cbn [promoteExecutables]; [by wp_steps; apply HQ|].
  wp_step. apply wp_promote_account; [done|]. intros r1 p1 Hinv1 He1 Hsub1 Hx1. wp_steps.
  apply IH; [done|]. intros r2 p2 Hinv2 He2 Hsub2 Hx2. wp_steps. apply HQ; [done|by etrans|by etrans|].
  apply Forall_app. split; [done|]. eapply Forall_impl; [exact Hx2|]. intros tx. by apply executable_env.
Qed.

(** ** Demotion *)

Lemma inv_weaken_E L D E E' p : pool_inv L D E p -> (forall a, a ∈ E -> a ∈ E') -> pool_inv L D E' p.
Proof.
  intros Hinv Hsub. destruct Hinv. split; try done. intros a l Hl Hni. eapply inv_nonempty; [exact Hl|auto].
Qed.

(** The end of a demotion turn: an empty list is deleted. *)
Lemma wp_demote_tidy addr l p (Q : () -> TxPool -> Prop) :
  pool_inv [] [] [addr] p -> pending p !! addr = Some l ->
  (forall p', pool_inv [] [] [] p' -> same_env p p' -> all p' = all p ->
     (forall b, b <> addr -> pending p' !! b = pending p !! b) -> Q tt p') ->
  wp (if list_Empty l then mmodify (set_pending (delete addr)) else mret tt) Q p.
Proof.
  intros Hinv Hl HQ. destruct (list_Empty l) eqn:He; wp_steps; apply HQ; try done.
  - by eapply inv_delete_pending.
  - intros b Hb. simpl. by rewrite lookup_delete_ne.
  - by eapply inv_settle_pending.
Qed.

Lemma wp_demote_account addr p (Q : () -> TxPool -> Prop) :
  pool_inv [] [] [] p -> is_Some (pending p !! addr) ->
  (forall p', pool_inv [] [] [] p' -> same_env p p' -> lk_all (all p') ⊆ lk_all (all p) ->
     (forall b, b <> addr -> pending p' !! b = pending p !! b) -> Q tt p') ->
  wp (demote_account now addr) Q p.
Proof.
  intros Hinv [l Hl] HQ. destruct (inv_pending _ _ _ _ Hinv _ _ Hl) as [Hwf Hst].
  unfold demote_account. wp_steps. eapply wp_lift; [exact Hl|]. wp_steps.
  destruct (list_Forward_spec l (GetNonce (currentState p) addr) Hwf) as (olds & l1 & Hf & Hwf1 & Hst1 & Hit1 & Hs1).
  eapply wp_lift; [exact Hf|]. wp_steps.
  eapply (wp_remove_all olds []); [eapply inv_take_pending; [exact Hinv|done|by eapply takes_below|done|congruence]|].
  intros t1 Hinv1 Hsub1. wp_steps.
  destruct (list_Filter l1 (GetBalance (currentState p) addr) (currentMaxGas p)) as [[drops invalids] l2] eqn:Hfil.
  pose proof (list_Filter_spec _ _ _ _ _ _ Hwf1 Hfil) as Hok2. pose proof Hok2 as (Hwf2 & Hst2 & _).
  pose proof (takes_filter _ _ _ _ _ _ Hwf1 Hok2) as Ht2. wp_steps.
  eapply (wp_remove_all drops (invalids ++ [])).
  { rewrite app_assoc. eapply inv_take_pending; [exact Hinv1|apply lookup_insert_eq|done|done|congruence]. }
  intros t2 Hinv2 Hsub2. wp_steps. eapply wp_priced_Removed; [exact Hinv2|]. intros pl Hinv3. wp_steps.
  eapply wp_enqueue_all; [exact Hinv3|]. intros p4 Hinv4 Hp4 Ha4 He4. simpl in Hp4, Ha4.
  assert (Hl4 : pending p4 !! addr = Some l2) by (rewrite Hp4; apply lookup_insert_eq).
  assert (Hothers : forall b, b <> addr -> pending p4 !! b = pending p !! b)
    by (intros b Hb; rewrite Hp4; by rewrite !lookup_insert_ne).
  apply (inv_weaken_E _ _ _ [addr]) in Hinv4; [|set_solver].
  assert (Hfin : forall l' p5, pool_inv [] [] [addr] p5 -> pending p5 !! addr = Some l' -> all p5 = all p4 ->
    same_env p4 p5 -> (forall b, b <> addr -> pending p5 !! b = pending p4 !! b) ->
    wp (if list_Empty l' then mmodify (set_pending (delete addr)) else mret tt) Q p5).
  { intros l' p5 Hinv5 Hl5 Ha5 He5 Hb5. eapply wp_demote_tidy; [exact Hinv5|exact Hl5|].
    intros p6 Hinv6 He6 Ha6 Hb6. apply HQ; [done|by etrans; [exact He4|]; etrans| |].
    - rewrite Ha6, Ha5, Ha4. simpl. by etrans.
    - intros b Hb. rewrite Hb6, Hb5 by done. by apply Hothers. }
  destruct (_ && _) eqn:Hgap; wp_steps; [|by apply Hfin].
  destruct (list_Cap_takes l2 0 Hwf2 ltac:(lia)) as (gapped & l3 & Hcap & Hwf3 & Hst3 & Ht3).
  eapply wp_lift; [exact Hcap|]. wp_steps.
  eapply (wp_enqueue_all now gapped []); [eapply inv_take_pending; [exact Hinv4|exact Hl4|done|done|congruence]|].
  intros p5 Hinv5 Hp5 Ha5 He5. wp_steps. simpl in Hp5. apply (Hfin l3).
  - eapply inv_weaken_E; [exact Hinv5|set_solver].
  - rewrite Hp5. apply lookup_insert_eq.
  - done.
  - done.
  - intros b Hb. rewrite Hp5. by rewrite lookup_insert_ne.
Qed.

Lemma map_range_keys_nodup {A} (m : gmap Address A) : NoDup (map_range m).*1.
Proof. rewrite map_range_perm. apply NoDup_fst_map_to_list. Qed.

Lemma map_range_keys_Some {A} (m : gmap Address A) a : a ∈ (map_range m).*1 <-> is_Some (m !! a).
Proof.
  rewrite map_range_perm, list_elem_of_fmap. split.
  - intros ([b x] & -> & Hin%elem_of_map_to_list). eauto.
  - intros [x Hx]. exists (a, x). by rewrite elem_of_map_to_list.
Qed.

(** A loop over the accounts of the pending map whose body only touches the
    account at hand and relates states by a preorder. *)
Lemma wp_pending_loop (R : TxPool -> TxPool -> Prop) `{!PreOrder R} (f : Address -> M TxPool ()) p
    (Q : () -> TxPool -> Prop) :
  (forall a q (Q' : () -> TxPool -> Prop), pool_inv [] [] [] q -> is_Some (pending q !! a) ->
     (forall q', pool_inv [] [] [] q' -> R q q' ->
        (forall b, b <> a -> pending q' !! b = pending q !! b) -> Q' tt q') -> wp (f a) Q' q) ->
  pool_inv [] [] [] p -> (forall p', pool_inv [] [] [] p' -> R p p' -> Q tt p') ->
  wp (mfor (map_range (pending p)).*1 f) Q p.
Proof.
  intros Hf Hinv HQ.
  eapply wp_mono; [apply (wp_for (fun rest q => pool_inv [] [] [] q /\ R p q /\
    NoDup rest /\ forall a, a ∈ rest -> is_Some (pending q !! a)))|].
  - split_and!; [done|done|apply map_range_keys_nodup|]. intros a. apply map_range_keys_Some.
  - intros a rest q (Hinv1 & He1 & [Hni Hnd]%NoDup_cons & Hs1). apply Hf; [done|apply Hs1; left|].
    intros q' Hinv2 He2 Hb2. split_and!; [done|by etrans|done|].
    intros b Hb. rewrite Hb2 by (intros ->; done). apply Hs1. by right.
  - intros [] q (Hinv1 & He1 & _ & _). by apply HQ.
Qed.

(** States after a step that at most removes transactions. *)
Definition shrinks (p p' : TxPool) : Prop := same_env p p' /\ lk_all (all p') ⊆ lk_all (all p).

#[export] Instance shrinks_preorder : PreOrder shrinks.
Proof. split; [by intros p|]. intros p1 p2 p3 [? ?] [? ?]. split; by etrans. Qed.

Lemma wp_demoteUnexecutables p (Q : () -> TxPool -> Prop) :
  pool_inv [] [] [] p -> (forall p', pool_inv [] [] [] p' -> shrinks p p' -> Q tt p') ->
  wp (demoteUnexecutables now) Q p.
Proof.
  intros Hinv HQ. unfold demoteUnexecutables. wp_steps. apply (wp_pending_loop shrinks); [|done|done].
  intros a q Q' Hq Hs HQ'. apply wp_demote_account; [done|done|]. intros q' ? ? ? ?. by apply HQ'; [|split|].
Qed.

(** ** Refreshing the virtual nonces *)

Lemma list_LastElement_spec l :
  list_wf l -> list_Empty l = false ->
  exists tx l', list_LastElement l = Some (tx, l') /\ list_wf l' /\ items (txs l') = items (txs l) /\
    strict l' = strict l /\ items (txs l) !! Nonce tx = Some tx /\
    forall n, is_Some (items (txs l) !! n) -> n <= Nonce tx.
Proof.
  intros Hwf Hne. unfold list_LastElement. pose proof (sm_LastElement_spec (txs l) (proj1 Hwf)) as Hspec.
  destruct (sm_LastElement (txs l)) as [[tx m]|].
  - destruct Hspec as (Hm & Hit & Htx & Hmax). simpl. eexists _, _. split_and!; try done.
    apply list_wf_sub; [done|done|]. by rewrite Hit.
  - exfalso. apply not_true_iff_false in Hne. apply Hne, list_Empty_spec, map_eq. intros n.
    by rewrite Hspec, lookup_empty.
Qed.

(** States after a step that only fills caches and virtual nonces. *)
Definition refreshes (p p' : TxPool) : Prop :=
  same_env p p' /\ all p' = all p /\ queue p' = queue p /\ same_items (pending p) (pending p').

#[export] Instance refreshes_preorder : PreOrder refreshes.
Proof.
  unfold refreshes, same_items. split; [by intros p|].
  intros p1 p2 p3 (? & ? & ? & ?) (? & ? & ? & ?). split_and!; [by etrans|congruence..].
Qed.

Lemma wp_refresh_nonce a p (Q : () -> TxPool -> Prop) :
  pool_inv [] [] [] p -> is_Some (pending p !! a) ->
  (forall p', pool_inv [] [] [] p' -> refreshes p p' ->
     (forall b, b <> a -> pending p' !! b = pending p !! b) -> Q tt p') ->
  wp (refresh_nonce a) Q p.
Proof.
  intros Hinv [l Hl] HQ. destruct (inv_pending _ _ _ _ Hinv _ _ Hl) as [Hwf Hst].
  destruct (list_LastElement_spec l Hwf) as (tx & l' & Hlast & Hwf' & Hit & Hst' & _);
    [by eapply (inv_nonempty _ _ _ _ Hinv); [|apply not_elem_of_nil]|].
  unfold refresh_nonce, nonces_set. wp_steps. eapply wp_lift; [exact Hl|]. wp_steps. eapply wp_lift; [exact Hlast|].
  wp_steps. apply HQ.
  - eapply pool_inv_frame; [..|eapply (inv_same_pending _ _ _ p a l l')]; done.
  - split_and!; [done|done|done|]. by eapply same_items_insert.
  - intros b Hb. simpl. by rewrite lookup_insert_ne.
Qed.

End Ops.
