(* ===== verification/TxPoolLimits.v ===== *)
(** * The limits of the pool

    The truncation of the pending lists: it terminates within the fuel given to
    its loops, never empties a list, shrinks offenders evenly, and ends with
    either the total within [GlobalSlots] or every remote account within
    [AccountSlots]. *)
From stdpp Require Import gmap list sorting.
From Stdlib Require Import ZArith Lia.
From S2P Require Import Prelude GoHeap Transaction TxList PricedList TxPool TxPoolInv TxPoolOps.

Local Open Scope Z_scope.

(** ** Counting *)

(** The number of transactions in a map of lists. *)
Definition total_len (m : gmap Address txList) : Z := map_fold (fun _ l acc => list_Len l + acc) 0 m.

Definition len_of (p : TxPool) (a : Address) : Z := default 0 (pending_len p a).

Lemma list_Len_nonneg l : 0 <= list_Len l.
Proof. unfold list_Len, sm_Len. lia. Qed.

Lemma total_len_insert_new m a l : m !! a = None -> total_len (<[a := l]> m) = list_Len l + total_len m.
Proof.
  intros Hn. unfold total_len. apply (map_fold_insert_L (fun _ l acc => list_Len l + acc)); [|done]. intros. lia.
Qed.

Lemma total_len_delete m a l : m !! a = Some l -> total_len m = list_Len l + total_len (delete a m).
Proof. intros Hl. rewrite <- (insert_delete_id m a l Hl) at 1. apply total_len_insert_new, lookup_delete_eq. Qed.

Lemma total_len_update m a l l' :
  m !! a = Some l -> total_len (<[a := l']> m) = total_len m - list_Len l + list_Len l'.
Proof.
  intros Hl. rewrite <- insert_delete_eq, total_len_insert_new by apply lookup_delete_eq.
  rewrite (total_len_delete m a l Hl). lia.
Qed.

Lemma total_len_nonneg m : 0 <= total_len m.
Proof.
  induction m as [|a l m Hn IH] using map_ind; [done|]. rewrite total_len_insert_new by done.
  pose proof (list_Len_nonneg l). lia.
Qed.

Lemma total_len_list m : total_len m = foldr (fun b acc => list_Len b.2 + acc) 0 (map_to_list m).
Proof.
  induction m as [|a l m Hn IH] using map_ind; [by rewrite map_to_list_empty|].
  rewrite total_len_insert_new, IH by done.
  assert (Hp : forall l1 l2 : list (Address * txList), l1 ≡ₚ l2 ->
    foldr (fun b acc => list_Len b.2 + acc) 0 l1 = foldr (fun b acc => list_Len b.2 + acc) 0 l2)
    by (induction 1; simpl; lia).
  by rewrite (Hp _ _ (map_to_list_insert m a l Hn)).
Qed.

(** The [uint64] sum of the code is the number of transactions modulo [2^64]. *)
Lemma sum_lens_spec `{!RangeOrder} m : sum_lens m = u64 (total_len m).
Proof.
  unfold sum_lens. rewrite total_len_list.
  assert (Hp : forall l1 l2 : list (Address * txList), l1 ≡ₚ l2 ->
    foldr (fun b acc => list_Len b.2 + acc) 0 l1 = foldr (fun b acc => list_Len b.2 + acc) 0 l2)
    by (induction 1; simpl; lia).
  rewrite <- (Hp _ _ (map_range_perm m)). generalize (map_range m). intros l.
  assert (Hg : forall acc, foldl (fun acc '(_, l) => u64 (acc + list_Len l)) (u64 acc) l
                = u64 (acc + foldr (fun b acc => list_Len b.2 + acc) 0 l)).
  { induction l as [|[a x] l IH]; intros acc; simpl; [f_equal; lia|].
    replace (u64 (u64 acc + list_Len x)) with (u64 (acc + list_Len x))
      by (unfold u64; by rewrite Zplus_mod_idemp_l). rewrite IH. f_equal. lia. }
  apply (Hg 0).
Qed.

Section Limits.
Context `{!TxCrypto} `{!RangeOrder} `{!RlpLaws}.

#[local] Existing Instances same_env_preorder same_head_preorder.

Lemma len_of_Some p a l : pending p !! a = Some l -> len_of p a = list_Len l.
Proof. intros Hl. unfold len_of, pending_len. by rewrite Hl. Qed.

Lemma len_of_eq p p' a : pending p' !! a = pending p !! a -> len_of p' a = len_of p a.
Proof. intros Hl. unfold len_of, pending_len. by rewrite Hl. Qed.

(** ** Dropping one transaction *)

Lemma list_Cap_one l :
  list_wf l -> 1 <= list_Len l ->
  exists caps l', list_Cap l (list_Len l - 1) = Some (caps, l') /\ list_wf l' /\ strict l' = strict l /\
    takes l l' caps /\ list_Len l' = list_Len l - 1.
Proof.
  intros Hwf Hlen. destruct (sorted_of_exists (items (txs l))) as [c Hc]; [apply Hwf|].
  destruct (list_Cap_spec l (list_Len l - 1) c Hwf ltac:(lia) Hc) as (l' & Hcap & Hwf' & Hst' & Hs & Hsub).
  eexists _, l'. split_and!; try done; [by apply takes_cap|].
  destruct Hwf as [(Hk & Hi & _) _], Hwf' as [(Hk' & Hi' & _) _].
  pose proof (sorted_of_length _ _ _ Hc Hk Hi) as L1. pose proof (sorted_of_length _ _ _ Hs Hk' Hi') as L2.
  rewrite length_take in L2. unfold list_Len, sm_Len in *. lia.
Qed.

Lemma wp_cap_remove a : forall R L D E p (Q : () -> TxPool -> Prop),
  pool_inv (R ++ L) D E p ->
  (forall p', pool_inv L D E p' -> pending p' = pending p -> same_env p p' ->
     lk_all (all p') ⊆ lk_all (all p) -> Q tt p') ->
  wp (mfor R (fun tx => _ ← all_Remove (tx_hash tx); nonces_setIfLower a (Nonce tx))) Q p.
Proof.
  induction R as [|tx R IH]; intros L D E p Q Hinv HQ; [by apply wp_ret, HQ|].
  apply wp_bind, wp_bind. eapply wp_all_Remove; [exact Hinv|]. intros t Ht Hall.
  unfold nonces_setIfLower. wp_steps. eapply (IH L D E).
  { by eapply pool_inv_frame; [..|exact Ht]. }
  intros p' Hinv' Hp' He' Hsub'. apply HQ; [done|by rewrite Hp'|by etrans; [|exact He']|].
  etrans; [exact Hsub'|]. simpl. rewrite Hall. apply delete_subseteq.
Qed.

Lemma wp_cap_one a l p (Q : () -> TxPool -> Prop) :
  pool_inv [] [] [] p -> pending p !! a = Some l -> 2 <= list_Len l ->
  (forall p' l', pool_inv [] [] [] p' -> same_env p p' -> lk_all (all p') ⊆ lk_all (all p) ->
     pending p' = <[a := l']> (pending p) -> list_Len l' = list_Len l - 1 -> Q tt p') ->
  wp (cap_one a) Q p.
Proof.
  intros Hinv Hl Hlen HQ. destruct (inv_pending _ _ _ _ Hinv _ _ Hl) as [Hwf Hst].
  destruct (list_Cap_one l Hwf ltac:(lia)) as (caps & l' & Hcap & Hwf' & Hst' & Ht & Hlen').
  unfold cap_one. wp_steps. eapply wp_lift; [exact Hl|]. wp_steps. eapply wp_lift; [exact Hcap|]. wp_steps.
  eapply (wp_cap_remove a caps []); [eapply inv_take_pending; [exact Hinv|exact Hl|done|done|congruence]|].
  intros p1 Hinv1 Hp1 He1 Hsub1. simpl in Hp1, Hsub1.
  eapply inv_settle_pending in Hinv1; [|rewrite Hp1; apply lookup_insert_eq|].
  - eapply wp_priced_Removed; [exact Hinv1|]. intros pl Hinv2. by eapply (HQ _ l').
  - unfold list_Empty. apply Z.eqb_neq. lia.
Qed.

(** ** One round over the offenders *)

(** Every account of [offs] lost [k] transactions, the others none. *)
Definition shrunk (offs : list Address) (k : Z) (p p' : TxPool) : Prop :=
  (forall x, x ∈ offs -> is_Some (pending p' !! x) /\ len_of p' x = len_of p x - k) /\
  (forall b, b ∉ offs -> pending p' !! b = pending p !! b) /\
  total_len (pending p') = total_len (pending p) - k * Z.of_nat (length offs).

Lemma shrunk_trans offs k1 k2 p1 p2 p3 :
  shrunk offs k1 p1 p2 -> shrunk offs k2 p2 p3 -> shrunk offs (k1 + k2) p1 p3.
Proof.
  intros (Ha1 & Hb1 & Ht1) (Ha2 & Hb2 & Ht2). split_and!; [| |lia].
  - intros x Hx. destruct (Ha1 x Hx), (Ha2 x Hx). split; [done|lia].
  - intros b Hb. by rewrite Hb2, Hb1.
Qed.

Lemma shrunk_refl offs p : (forall x, x ∈ offs -> is_Some (pending p !! x)) -> shrunk offs 0 p p.
Proof. intros Hs. split_and!; [|done|lia]. intros x Hx. split; [auto|lia]. Qed.

Lemma wp_cap_round : forall offs p (Q : () -> TxPool -> Prop),
  pool_inv [] [] [] p -> NoDup offs ->
  (forall x, x ∈ offs -> is_Some (pending p !! x) /\ 2 <= len_of p x) ->
  (forall p', pool_inv [] [] [] p' -> same_env p p' -> lk_all (all p') ⊆ lk_all (all p) ->
     shrunk offs 1 p p' -> Q tt p') ->
  wp (mfor offs cap_one) Q p.
Proof.
  induction offs as [|a offs IH]; intros p Q Hinv Hnd Hlen HQ.
  { apply wp_ret, HQ; [done|done|done|]. split_and!; [|done|simpl; lia]. intros x Hx. by apply elem_of_nil in Hx. }
  apply NoDup_cons in Hnd as [Hni Hnd]. apply (wp_bind (cap_one a)).
  destruct (Hlen a ltac:(left)) as [[l Hl] Hl2]. rewrite (len_of_Some _ _ _ Hl) in Hl2.
  eapply wp_cap_one; [exact Hinv|exact Hl|done|]. intros p1 l' Hinv1 He1 Hsub1 Hp1 Hlen1.
  assert (Hb1 : forall b, b <> a -> pending p1 !! b = pending p !! b) by (intros b Hb; rewrite Hp1; by rewrite lookup_insert_ne).
  assert (Hl1 : pending p1 !! a = Some l') by (rewrite Hp1; apply lookup_insert_eq).
  apply IH; [done|done| |].
  - intros x Hx. assert (x <> a) by (intros ->; done). rewrite Hb1, (len_of_eq p p1) by (done || by apply Hb1).
    apply Hlen. by right.
  - intros p2 Hinv2 He2 Hsub2 (Ha2 & Hb2 & Ht2). apply HQ; [done|by etrans|by etrans|]. split_and!.
    + intros x [->|Hx]%elem_of_cons.
      * rewrite Hb2 by done. split; [eauto|]. rewrite (len_of_eq p1 p2) by (by apply Hb2).
        rewrite (len_of_Some _ _ _ Hl1), (len_of_Some _ _ _ Hl). lia.
      * assert (x <> a) by (intros ->; done). destruct (Ha2 x Hx) as [Hs Hlx]. split; [done|].
        rewrite Hlx, (len_of_eq p p1) by (by apply Hb1). done.
    + intros b [Hba Hbo]%not_elem_of_cons. by rewrite Hb2, Hb1.
    + rewrite Ht2, Hp1, (total_len_update _ _ _ l' Hl). simpl. lia.
Qed.

(** ** Shrinking until the guard or the limit is reached *)

(** [p'] is [p] after some rounds that stop at the limit or when [guard] is at [floor]. *)
Definition shrink_done (guard : Address) (floor : Z) (offs : list Address) (total' : Z) (p p' : TxPool) : Prop :=
  total' = total_len (pending p') /\
  (total' <= GlobalSlots (config p) \/ len_of p' guard <= floor) /\
  exists k, 0 <= k /\ shrunk offs k p p' /\ (k = 0 \/ floor <= len_of p' guard).

Lemma wp_shrink_loop guard floor offs : forall fuel total p (Q : Z -> TxPool -> Prop),
  pool_inv [] [] [] p -> NoDup offs -> guard ∈ offs -> 1 <= floor ->
  (forall x, x ∈ offs -> is_Some (pending p !! x) /\ len_of p guard <= len_of p x) ->
  total = total_len (pending p) -> total < 2 ^ 64 -> (Z.to_nat (len_of p guard - floor) <= fuel)%nat ->
  (forall total' p', pool_inv [] [] [] p' -> same_env p p' -> lk_all (all p') ⊆ lk_all (all p) ->
     shrink_done guard floor offs total' p p' -> Q total' p') ->
  wp (shrink_loop fuel guard floor offs total) Q p.
Proof.
  induction fuel as [|fuel IH]; intros total p Q Hinv Hnd Hg Hfl Hoffs Htot Hmax Hfuel HQ;
    cbn [shrink_loop]; wp_step; wp_step; rewrite !Z.gtb_ltb.
  all: assert (Hr : shrunk offs 0 p p) by (apply shrunk_refl; intros x Hx; by apply Hoffs).
  all: destruct (Z.ltb_spec (GlobalSlots (config p)) total) as [Hover|Hok];
    [|wp_steps; apply HQ; [done|done|done|]; split_and!; [done|by left|exists 0; split_and!; [lia|done|by left]]].
  all: destruct (Hoffs guard Hg) as [[lg Hlg] _]; wp_step; eapply wp_lift; [unfold pending_len; by rewrite Hlg|];
    rewrite !Z.gtb_ltb.
  all: rewrite (len_of_Some _ _ _ Hlg) in *.
  all: destruct (Z.ltb_spec floor (list_Len lg)) as [Hgt|Hle]; wp_steps;
    [|apply HQ; [done|done|done|]; split_and!; [done|right; by rewrite (len_of_Some _ _ _ Hlg)|
        exists 0; split_and!; [lia|done|by left]]].
  { lia. }
  apply wp_cap_round; [done|done| |].
  { intros x Hx. destruct (Hoffs x Hx). split; [done|lia]. }
  intros p1 Hinv1 He1 Hsub1 Hsh1. pose proof Hsh1 as (Ha1 & Hb1 & Ht1).
  assert (Hgl : len_of p1 guard = list_Len lg - 1) by (destruct (Ha1 guard Hg) as [_ ->]; by rewrite (len_of_Some _ _ _ Hlg)).
  assert (Hu : u64 (total - Z.of_nat (length offs)) = total_len (pending p1)).
  { rewrite Ht1, Htot, Z.mul_1_l. apply u64_small. unfold is_u64.
    pose proof (total_len_nonneg (pending p1)). lia. }
  rewrite Hu. apply IH; [done|done|done|done| |done| | |].
  - intros x Hx. destruct (Ha1 x Hx) as [? Hlx], (Hoffs x Hx). split; [done|lia].
  - rewrite Ht1. lia.
  - lia.
  - intros total' p2 Hinv2 He2 Hsub2 (Htot2 & Hor2 & k & Hk & Hsh2 & Hk2).
    apply HQ; [done|by etrans|by etrans|]. split_and!; [done|by rewrite <- (proj1 He1)|].
    exists (1 + k). split_and!; [lia|by eapply shrunk_trans|]. right. destruct Hk2 as [->|?]; [|done].
    destruct Hsh2 as (Ha2 & _ & _). destruct (Ha2 guard Hg) as [_ ->]. lia.
Qed.

Lemma wp_shrink guard floor offs total p (Q : Z -> TxPool -> Prop) :
  pool_inv [] [] [] p -> NoDup offs -> guard ∈ offs -> 1 <= floor ->
  (forall x, x ∈ offs -> is_Some (pending p !! x) /\ len_of p guard <= len_of p x) ->
  total = total_len (pending p) -> total < 2 ^ 64 ->
  (forall total' p', pool_inv [] [] [] p' -> same_env p p' -> lk_all (all p') ⊆ lk_all (all p) ->
     shrink_done guard floor offs total' p p' -> Q total' p') ->
  wp (shrink guard floor offs total) Q p.
Proof.
  intros. unfold shrink. wp_steps. apply wp_shrink_loop; try done. fold (len_of p guard). lia.
Qed.

(** ** Popping the offenders *)

Context `{!PoolOrders}.

Definition opt_list {A} (o : option A) : list A := match o with Some x => [x] | None => [] end.

(** The offenders so far are at least as long as the last one, and level with it
    while the pool is above its limit; the accounts to come are no longer than
    the last one. *)
Record levelled (slots limit : Z) (offenders rest : list Address) (total : Z) (p : TxPool) : Prop := mk_levelled {
  lev_total : total = total_len (pending p);
  lev_nodup : NoDup (offenders ++ rest);
  lev_long : forall x, x ∈ offenders ++ rest -> is_Some (pending p !! x) /\ slots < len_of p x;
  lev_sorted : StronglySorted (fun x y => len_of p y <= len_of p x) (opt_list (last offenders) ++ rest);
  lev_floor : forall o x, last offenders = Some o -> x ∈ offenders -> len_of p o <= len_of p x;
  lev_even : limit < total -> forall o x, last offenders = Some o -> x ∈ offenders -> len_of p x = len_of p o
}.

Lemma last_elem {A} (l : list A) x : last l = Some x -> x ∈ l.
Proof. intros [l' ->]%last_Some. apply elem_of_app. right. left. Qed.

Lemma StronglySorted_ext_in {A} (R R' : A -> A -> Prop) l :
  (forall x y, x ∈ l -> y ∈ l -> R x y -> R' x y) -> StronglySorted R l -> StronglySorted R' l.
Proof.
  induction l as [|a l IH]; intros Hext Hs; [constructor|]. apply StronglySorted_inv in Hs as [Hs Hall].
  constructor; [apply IH; [|done]; intros; apply Hext; [by right|by right|done]|].
  rewrite Forall_forall in *. intros y Hy. apply Hext; [left|by right|auto].
Qed.

Lemma levelled_step slots limit offenders off rest total p p' total' prev :
  1 <= slots -> levelled slots limit offenders (off :: rest) total p -> limit < total -> last offenders = Some prev ->
  limit = GlobalSlots (config p) ->
  shrink_done prev (len_of p off) offenders total' p p' ->
  levelled slots limit (offenders ++ [off]) rest total' p'.
Proof.
  intros Hslots [Htot Hnd Hlong Hsort Hfloor Heven] Hover Hlast Hlim (Htot' & Hor & k & Hk & (Ha & Hb & _) & Hk').
  assert (Hprev : prev ∈ offenders) by by apply last_elem.
  assert (Hrest : forall x, x ∈ off :: rest -> x ∉ offenders).
  { intros x Hx Ho. apply NoDup_app in Hnd as (_ & Hd & _). by apply (Hd x). }
  assert (Hsame : forall x, x ∈ off :: rest -> pending p' !! x = pending p !! x) by (intros x Hx; by apply Hb, Hrest).
  assert (Hlen' : forall x, x ∈ off :: rest -> len_of p' x = len_of p x) by (intros x Hx; by apply len_of_eq, Hsame).
  rewrite Hlast in Hsort. simpl in Hsort. apply StronglySorted_inv in Hsort as [Hsort Hall].
  rewrite Forall_forall in Hall. pose proof (Hall off ltac:(left)) as Hoff. simpl in Hoff.
  (* no offender falls below the new one *)
  assert (Hge : forall x, x ∈ offenders -> len_of p off <= len_of p' x).
  { intros x Hx. destruct (Ha x Hx) as [_ Hx']. destruct (Ha prev Hprev) as [_ Hp'].
    rewrite (Heven Hover prev x Hlast Hx) in Hx'. destruct Hk' as [->|?]; lia. }
  split; rewrite ?last_snoc.
  - done.
  - by rewrite <- app_assoc.
  - intros x. rewrite <- app_assoc. simpl. intros Hx. destruct (decide (x ∈ offenders)) as [Ho|Ho].
    + split; [by apply Ha|]. specialize (Hge x Ho). destruct (Hlong off) as [_ ?]; [set_solver|]. lia.
    + assert (Hx' : x ∈ off :: rest) by set_solver. rewrite Hsame, Hlen' by done. by apply Hlong.
  - simpl. eapply StronglySorted_ext_in; [|exact Hsort]. intros x y Hx Hy. by rewrite !Hlen'.
  - intros o x [= <-] [Hx|Hx%list_elem_of_singleton]%elem_of_app; [|subst; done].
    rewrite (Hlen' off) by left. by apply Hge.
  - intros Hover' o x [= <-] [Hx|Hx%list_elem_of_singleton]%elem_of_app; [|by subst].
    rewrite (Hlen' off) by left. destruct Hor as [?|Hle]; [lia|].
    destruct (Ha x Hx) as [_ Hx']. destruct (Ha prev Hprev) as [_ Hp'].
    rewrite (Heven Hover prev x Hlast Hx) in Hx'. specialize (Hge prev Hprev). lia.
Qed.

Lemma levelled_first slots limit off rest total p :
  levelled slots limit [] (off :: rest) total p -> levelled slots limit [off] rest total p.
Proof.
  intros [Htot Hnd Hlong Hsort Hfloor Heven]. split; simpl in *; try done.
  - intros o x [= <-] ->%list_elem_of_singleton. done.
  - intros _ o x [= <-] ->%list_elem_of_singleton. done.
Qed.

Lemma wp_offenders_loop : forall spammers offenders total p (Q : list Address * Z -> TxPool -> Prop),
  pool_inv [] [] [] p -> total < 2 ^ 64 ->
  levelled (AccountSlots (config p)) (GlobalSlots (config p)) offenders spammers total p ->
  (forall offs' rest' total' p', pool_inv [] [] [] p' -> same_env p p' -> lk_all (all p') ⊆ lk_all (all p) ->
     offs' ++ rest' = offenders ++ spammers -> total' < 2 ^ 64 ->
     levelled (AccountSlots (config p)) (GlobalSlots (config p)) offs' rest' total' p' ->
     total' <= GlobalSlots (config p) \/ rest' = [] -> (forall x, x ∈ offenders -> x ∈ offs') ->
     (forall b, b ∉ offs' -> pending p' !! b = pending p !! b) -> Q (offs', total') p') ->
  wp (offenders_loop spammers offenders total) Q p.
Proof.
  induction spammers as [|off rest IH]; intros offenders total p Q Hinv Hmax Hlev HQ; cbn [offenders_loop].
  { wp_steps. by apply (HQ offenders []); [..|right| |]. }
  wp_step. wp_step. rewrite Z.gtb_ltb.
  destruct (Z.ltb_spec (GlobalSlots (config p)) total) as [Hover|Hok].
  2:{ wp_steps. by apply (HQ offenders (off :: rest)); [..|left| |]. }
  pose proof (cfg_account_slots _ (inv_config _ _ _ _ Hinv)) as Hslots.
  assert (Hcont : forall total' p1, pool_inv [] [] [] p1 -> same_env p p1 -> lk_all (all p1) ⊆ lk_all (all p) ->
    total' < 2 ^ 64 ->
    levelled (AccountSlots (config p)) (GlobalSlots (config p)) (offenders ++ [off]) rest total' p1 ->
    (forall b, b ∉ offenders -> pending p1 !! b = pending p !! b) ->
    wp (offenders_loop rest (offenders ++ [off]) total') Q p1).
  { intros total' p1 Hinv1 He1 Hsub1 Hmax1 Hlev1 Hb1. pose proof He1 as (Hc1 & _). apply IH; [done|done|by rewrite Hc1|].
    intros offs2 rest2 total2 p2 Hinv2 He2 Hsub2 Happ2 Hmax2 Hlev2 Hor2 Hin2 Hb2. rewrite Hc1 in *.
    apply (HQ offs2 rest2); [done|by etrans|by etrans|by rewrite Happ2, <- app_assoc|done|done|done| |].
    - intros x Hx. apply Hin2. set_solver.
    - intros b Hb. rewrite Hb2 by done. apply Hb1. intros Ho. apply Hb, Hin2. set_solver. }
  destruct (last offenders) as [prev|] eqn:Hlast.
  - wp_steps. destruct (lev_long _ _ _ _ _ _ Hlev off) as [[lo Hlo] Hlong]; [set_solver|].
    eapply wp_lift; [unfold pending_len; by rewrite Hlo|].
    pose proof (len_of_Some _ _ _ Hlo) as Hlen. rewrite <- Hlen.
    apply wp_shrink; [done| |by apply last_elem|lia| |apply (lev_total _ _ _ _ _ _ Hlev)|done|].
    + apply (NoDup_app offenders (off :: rest)), (lev_nodup _ _ _ _ _ _ Hlev).
    + intros x Hx. split; [apply (lev_long _ _ _ _ _ _ Hlev); set_solver|by apply (lev_floor _ _ _ _ _ _ Hlev)].
    + intros total' p1 Hinv1 He1 Hsub1 Hdone. apply Hcont; [done|done|done| | |].
      * destruct Hdone as (-> & _ & k & Hk & (_ & _ & ->) & _). rewrite <- (lev_total _ _ _ _ _ _ Hlev). nia.
      * by eapply levelled_step.
      * destruct Hdone as (_ & _ & k & _ & (_ & Hb & _) & _). done.
  - apply last_None in Hlast as ->. wp_steps. apply Hcont; try done. by apply levelled_first.
Qed.

(** ** truncatePending *)

Lemma omap_keys {A B} (f : Address * A -> option (Address * B)) l :
  (forall x y, f x = Some y -> y.1 = x.1) -> (omap f l).*1 `sublist_of` l.*1.
Proof.
  intros Hf. induction l as [|x l IH]; csimpl; [constructor|].
  destruct (f x) as [y|] eqn:E; csimpl; [rewrite (Hf _ _ E); by constructor|by constructor].
Qed.

(** The accounts [truncatePending] may shrink. *)
Definition spammer (p : TxPool) (b : Address * txList) : option (Address * Z) :=
  let '(addr, l) := b in
  if negb (as_contains (locals p) addr) && (list_Len l >? AccountSlots (config p))
  then Some (addr, list_Len l) else None.

Definition spammers (p : TxPool) : list Address := (prque_order (omap (spammer p) (map_range (pending p)))).*1.

Lemma spammer_elem p a n :
  (a, n) ∈ omap (spammer p) (map_range (pending p)) <->
  as_contains (locals p) a = false /\ AccountSlots (config p) < n /\
  exists l, pending p !! a = Some l /\ n = list_Len l.
Proof.
  rewrite list_elem_of_omap. split.
  - intros ([b l] & Hin & Hsp). rewrite map_range_perm in Hin. apply elem_of_map_to_list in Hin.
    unfold spammer in Hsp. destruct (as_contains (locals p) b) eqn:Ec; simpl in Hsp; [done|].
    rewrite Z.gtb_ltb in Hsp. destruct (Z.ltb_spec (AccountSlots (config p)) (list_Len l)); [|done].
    injection Hsp as <- <-. eauto.
  - intros (Hc & Hn & l & Hl & ->). exists (a, l). split.
    + by rewrite map_range_perm, elem_of_map_to_list.
    + unfold spammer. rewrite Hc, Z.gtb_ltb. simpl. by rewrite (proj2 (Z.ltb_lt _ _) Hn).
Qed.

Lemma spammers_elem p a :
  a ∈ spammers p <-> as_contains (locals p) a = false /\ is_Some (pending p !! a) /\
                     AccountSlots (config p) < len_of p a.
Proof.
  unfold spammers. rewrite (prque_order_perm _), list_elem_of_fmap. split.
  - intros ([b n] & -> & (Hc & Hn & l & Hl & ->)%spammer_elem). simpl. rewrite (len_of_Some _ _ _ Hl). eauto.
  - intros (Hc & [l Hl] & Hn). exists (a, list_Len l). split; [done|]. rewrite (len_of_Some _ _ _ Hl) in Hn.
    apply spammer_elem. eauto.
Qed.

Lemma levelled_init p :
  levelled (AccountSlots (config p)) (GlobalSlots (config p)) [] (spammers p) (total_len (pending p)) p.
Proof.
  split; simpl; try done.
  - unfold spammers. rewrite (prque_order_perm _).
    eapply sublist_NoDup; [apply (map_range_keys_nodup (pending p))|]. apply omap_keys.
    intros [a l] y. unfold spammer. case_match; [|done]. by intros [= <-].
  - intros x Hx%spammers_elem. tauto.
  - apply (StronglySorted_fmap fst (fun x y => len_of p y.1 <= len_of p x.1)); [done|].
    eapply StronglySorted_ext_in; [|apply prque_order_sorted].
    intros [a n] [b m]. rewrite !(prque_order_perm _).
    intros (_ & _ & l1 & Hl1 & ->)%spammer_elem (_ & _ & l2 & Hl2 & ->)%spammer_elem. simpl.
    by rewrite (len_of_Some _ _ _ Hl1), (len_of_Some _ _ _ Hl2).
Qed.

(** The bound [truncatePending] establishes. *)
Definition pending_bounded (p : TxPool) : Prop :=
  total_len (pending p) <= GlobalSlots (config p) \/
  forall a l, pending p !! a = Some l -> as_contains (locals p) a = false -> list_Len l <= AccountSlots (config p).

Lemma wp_truncatePending p (Q : () -> TxPool -> Prop) :
  pool_inv [] [] [] p -> total_len (pending p) < 2 ^ 64 ->
  (forall p', pool_inv [] [] [] p' -> same_env p p' -> lk_all (all p') ⊆ lk_all (all p) ->
     pending_bounded p' -> Q tt p') ->
  wp truncatePending Q p.
Proof.
  intros Hinv Hmax HQ. unfold truncatePending. wp_steps.
  rewrite sum_lens_spec, u64_small by (pose proof (total_len_nonneg (pending p)); unfold is_u64; lia).
  destruct (Z.leb_spec (total_len (pending p)) (GlobalSlots (config p))) as [Hok|Hover].
  { wp_steps. apply HQ; [done|done|done|by left]. }
  wp_steps. apply (wp_offenders_loop (spammers p)); [done|done|apply levelled_init|].
  intros offs rest total p1 Hinv1 He1 Hsub1 Happ Hmax1 Hlev Hor _ Hb1. simpl in Happ.
  pose proof He1 as (Hc1 & _ & _ & _ & Hl1). pose proof (cfg_account_slots _ (inv_config _ _ _ _ Hinv)) as Hslots.
  (* remote accounts over the allowance are offenders once the spammers are used up *)
  assert (Hrest : GlobalSlots (config p) < total -> forall a l, pending p1 !! a = Some l ->
    as_contains (locals p) a = false -> a ∉ offs -> list_Len l <= AccountSlots (config p)).
  { intros Ho a l Hl Hloc Hni. destruct Hor as [?| ->]; [lia|]. rewrite app_nil_r in Happ. subst offs.
    rewrite Hb1 in Hl by done. destruct (decide (list_Len l <= AccountSlots (config p))) as [|Hgt]; [done|].
    exfalso. apply Hni, spammers_elem. rewrite (len_of_Some _ _ _ Hl). split_and!; [done|eauto|lia]. }
  destruct (last offs) as [lst|] eqn:Hlast.
  - wp_steps. eapply wp_shrink; [exact Hinv1| |by apply last_elem|exact Hslots| | |done|].
    + apply (NoDup_app offs rest), (lev_nodup _ _ _ _ _ _ Hlev).
    + intros x Hx. split; [apply (lev_long _ _ _ _ _ _ Hlev); set_solver|by apply (lev_floor _ _ _ _ _ _ Hlev)].
    + apply (lev_total _ _ _ _ _ _ Hlev).
    + intros total' p2 Hinv2 He2 Hsub2 (Htot2 & Hor2 & k & Hk & (Ha2 & Hb2 & Ht2) & Hk2). wp_steps.
      pose proof He2 as (Hc2 & _ & _ & _ & Hl2). apply HQ; [done|by etrans|by etrans|].
      unfold pending_bounded. rewrite Hc2, Hl2, Hc1, Hl1 in *. rewrite <- Htot2.
      destruct (decide (total' <= GlobalSlots (config p))) as [|Hgt]; [by left|right].
      assert (Ho1 : GlobalSlots (config p) < total) by (rewrite (lev_total _ _ _ _ _ _ Hlev); lia).
      intros a l Hl Hloc. destruct (decide (a ∈ offs)) as [Ho|Ho].
      * destruct Hor2 as [?|Hle]; [lia|]. destruct (Ha2 a Ho) as [_ Hla]. rewrite (len_of_Some _ _ _ Hl) in Hla.
        destruct (Ha2 lst (last_elem _ _ Hlast)) as [_ Hll].
        rewrite (lev_even _ _ _ _ _ _ Hlev Ho1 lst a Hlast Ho) in Hla. lia.
      * rewrite Hb2 in Hl by done. by apply (Hrest Ho1 a).
  - apply last_None in Hlast as ->. wp_steps. apply HQ; [done|done|done|].
    unfold pending_bounded. rewrite Hc1, Hl1, <- (lev_total _ _ _ _ _ _ Hlev).
    destruct (decide (total <= GlobalSlots (config p))) as [|Hgt]; [by left|right].
    intros a l Hl Hloc. apply (Hrest ltac:(lia) a); [done|done|apply not_elem_of_nil].
Qed.

(** ** truncateQueue *)

Context (now : Z).

#[local] Instance same_items_equiv : Equivalence same_items.
Proof. unfold same_items. split; [by intros m|by intros m1 m2 ->|by intros m1 m2 m3 -> ->]. Qed.

(** Removing from account [a]: the others keep their lists, and one transaction
    less is queued. *)
Lemma queue_without_spec tx l m m' :
  m !! sender_of tx = Some l -> items (txs l) !! Nonce tx = Some tx -> queue_without tx l m m' ->
  (forall b, b <> sender_of tx -> m' !! b = m !! b) /\
  total_len m' = total_len m - 1 /\
  (forall n, slot m' (sender_of tx) n = delete (Nonce tx) (items (txs l)) !! n).
Proof.
  intros Hl Hit (l' & Hit' & ->).
  assert (Hlen : list_Len l' = list_Len l - 1).
  { unfold list_Len, sm_Len. rewrite Hit', map_size_delete, Hit.
    assert (size (items (txs l)) <> 0%nat) by (rewrite map_size_non_empty_iff; intros He; by rewrite He in Hit). lia. }
  destruct (list_Empty l') eqn:He.
  - pose proof He as He'. unfold list_Empty in He'. apply Z.eqb_eq in He'. apply list_Empty_spec in He. split_and!.
    + intros b Hb. by rewrite lookup_delete_ne.
    + rewrite (total_len_delete _ _ _ Hl). lia.
    + intros n. rewrite slot_delete, decide_True by done. by rewrite <- Hit', He.
  - unfold list_Empty in He. apply Z.eqb_neq in He. split_and!.
    + intros b Hb. by rewrite lookup_insert_ne.
    + rewrite (total_len_update _ _ _ _ Hl). lia.
    + intros n. rewrite slot_insert, decide_True by done. by rewrite Hit'.
Qed.

(** The state while the transactions [rest] of account [a] are still to be
    removed; [gone] are removed. *)
Record dropping (a : Address) (rest : list Transaction) (gone : Z) (p q : TxPool) : Prop := mk_dropping {
  drp_inv : pool_inv [] [] [] q;
  drp_env : same_env p q;
  drp_all : lk_all (all q) ⊆ lk_all (all p);
  drp_pending : same_items (pending p) (pending q);
  drp_others : forall b, b <> a -> queue q !! b = queue p !! b;
  drp_total : total_len (queue q) = total_len (queue p) - gone;
  drp_rest : NoDup rest /\ forall tx, tx ∈ rest <-> sender_of tx = a /\ slot (queue q) a (Nonce tx) = Some tx
}.

Lemma dropping_step a tx rest gone p q (Q : () -> TxPool -> Prop) :
  dropping a (tx :: rest) gone p q ->
  (forall q', dropping a rest (gone + 1) p q' -> Q tt q') ->
  wp (removeTx now (tx_hash tx) true) Q q.
Proof.
  intros [Hinv He Ha Hp Ho Ht [Hnd Hr]] HQ. apply NoDup_cons in Hnd as [Hni Hnd].
  destruct (proj1 (Hr tx) ltac:(left)) as [Hse Hs]. subst a. destruct (slot_lookup _ _ _ _ Hs) as (l & Hl & Hit).
  eapply wp_removeTx_queued; [done|exact Hl|done|]. intros q' Hinv' Ha' He' Hp' Hq'.
  destruct (queue_without_spec _ _ _ _ Hl Hit Hq') as (Hoth & Htot & Hslot).
  assert (Hrest : forall t, t ∈ rest <-> sender_of t = sender_of tx /\ slot (queue q') (sender_of tx) (Nonce t) = Some t).
  { intros t. rewrite Hslot, lookup_delete_Some, <- (slot_at _ _ _ _ Hl). split.
    - intros Hin. destruct (proj1 (Hr t) ltac:(by right)) as [? Hst]. split_and!; [done| |done].
      intros Heq. rewrite <- Heq in Hst. assert (t = tx) by congruence. congruence.
    - intros (Hse & Hne & Hst). assert (Hin : t ∈ tx :: rest) by (apply Hr; done).
      apply elem_of_cons in Hin as [->|?]; done. }
  apply HQ. split; try done.
  - by etrans.
  - rewrite Ha'. etrans; [apply delete_subseteq|done].
  - by etrans.
  - intros b Hb. by rewrite Hoth, Ho.
  - lia.
Qed.

(** The start: the flattened list of the account. *)
Lemma dropping_init a l p :
  pool_inv [] [] [] p -> queue p !! a = Some l ->
  exists flat l', list_Flatten l = (flat, l') /\ Z.of_nat (length flat) = list_Len l /\
    dropping a flat 0 p (set_queue <[a := l']> p).
Proof.
  intros Hinv Hl. destruct (inv_queue _ _ _ _ Hinv _ _ Hl) as [Hwf Hst].
  unfold list_Flatten, sm_Flatten. destruct (sm_flatten_spec (txs l) (proj1 Hwf)) as (c & m & -> & Hm & Hit & _ & Hs).
  assert (Hwf' : list_wf (list_set_txs l m)) by (apply list_wf_sub; [done|done|by rewrite Hit]).
  exists c, (list_set_txs l m). split_and!; [done| |].
  - destruct Hwf as [(Hk & Hi & _) _]. rewrite (sorted_of_length _ _ _ Hs Hk Hi). done.
  - assert (Hlen' : list_Len (list_set_txs l m) = list_Len l) by (unfold list_Len, sm_Len; simpl; by rewrite Hit).
    split; try done.
    + by eapply inv_same_queue.
    + intros b Hb. simpl. by rewrite lookup_insert_ne.
    + simpl. rewrite (total_len_update _ _ _ _ Hl). lia.
    + split; [by eapply sorted_of_nodup|]. intros tx. simpl. rewrite slot_insert, decide_True by done. simpl.
      rewrite Hit, (proj2 Hs). split; [|tauto]. intros Htx. split; [|done].
      apply (inv_filed _ _ _ _ Hinv a (Nonce tx)). right. by rewrite (slot_at _ _ l).
Qed.

Lemma wp_drop_flat a : forall flat gone p q (Q : () -> TxPool -> Prop),
  dropping a flat gone p q ->
  (forall q', dropping a [] (gone + Z.of_nat (length flat)) p q' -> Q tt q') ->
  wp (mfor flat (fun tx => removeTx now (tx_hash tx) true)) Q q.
Proof.
  induction flat as [|tx flat IH]; intros gone p q Q Hd HQ.
  { apply wp_ret, HQ. by rewrite Z.add_0_r. }
  apply (wp_bind (removeTx now (tx_hash tx) true)). eapply dropping_step; [exact Hd|]. intros q' Hd'.
  eapply IH; [exact Hd'|]. intros q2 Hd2. apply HQ. simpl. by replace (gone + Z.of_nat (S (length flat)))
    with (gone + 1 + Z.of_nat (length flat)) by lia.
Qed.

Lemma wp_drop_last a : forall rflat drop gone p q (Q : Z -> TxPool -> Prop),
  dropping a rflat gone p q -> 0 <= drop < Z.of_nat (length rflat) ->
  (forall rest q', dropping a rest (gone + drop) p q' -> Q 0 q') ->
  wp (drop_last_loop now rflat drop) Q q.
Proof.
  induction rflat as [|tx rflat IH]; intros drop gone p q Q Hd Hr HQ; [simpl in Hr; lia|].
  cbn [drop_last_loop]. rewrite Z.gtb_ltb. destruct (Z.ltb_spec 0 drop) as [Hpos|Hz].
  - wp_steps. eapply dropping_step; [exact Hd|]. intros q' Hd'. eapply IH; [exact Hd'|simpl in Hr; lia|].
    intros rest q2 Hd2. apply (HQ rest). by replace (gone + drop) with (gone + 1 + (drop - 1)) by lia.
  - wp_steps. assert (drop = 0) as -> by lia. apply (HQ (tx :: rflat)). by rewrite Z.add_0_r.
Qed.

Lemma dropping_perm a rest rest' gone p q : rest' ≡ₚ rest -> dropping a rest gone p q -> dropping a rest' gone p q.
Proof.
  intros Hp [? ? ? ? ? ? [Hnd Hr]]. split; try done. split; [by rewrite Hp|]. intros tx. by rewrite Hp.
Qed.

Lemma dropping_empty a gone p q l :
  dropping a [] gone p q -> queue q !! a = Some l -> list_Len l = 0.
Proof.
  intros Hd Hl. destruct (inv_queue _ _ _ _ (drp_inv _ _ _ _ _ Hd) _ _ Hl) as [[[Hk _] _] _].
  assert (He : items (txs l) = ∅).
  { apply map_empty. intros n. apply eq_None_not_Some. intros [tx Htx]. destruct (Hk _ _ Htx) as [Hn _].
    assert (Hs : slot (queue q) a n = Some tx) by (by rewrite (slot_at _ _ l)).
    apply (not_elem_of_nil tx), (drp_rest _ _ _ _ _ Hd). rewrite Hn. split; [|done].
    by apply (inv_filed _ _ _ _ (drp_inv _ _ _ _ _ Hd) a n); right. }
  unfold list_Len, sm_Len. by rewrite He, map_size_empty.
Qed.

Lemma wp_truncateQueue_loop : forall addrs drop p (Q : () -> TxPool -> Prop),
  pool_inv [] [] [] p -> NoDup addrs -> (forall a, a ∈ addrs -> is_Some (queue p !! a)) ->
  drop = total_len (queue p) - GlobalQueue (config p) -> 0 <= drop ->
  (forall p', pool_inv [] [] [] p' -> same_env p p' -> lk_all (all p') ⊆ lk_all (all p) ->
     same_items (pending p) (pending p') ->
     (total_len (queue p') <= GlobalQueue (config p) \/
      forall a l, a ∈ addrs -> queue p' !! a = Some l -> list_Len l = 0) ->
     (forall b, b ∉ addrs -> queue p' !! b = queue p !! b) -> Q tt p') ->
  wp (truncateQueue_loop now addrs drop) Q p.
Proof.
  induction addrs as [|a addrs IH]; intros drop p Q Hinv Hnd Hin Hdrop Hpos HQ; cbn [truncateQueue_loop].
  { wp_steps. apply HQ; try done. right. intros a l Ha. by apply elem_of_nil in Ha. }
  apply NoDup_cons in Hnd as [Hni Hnd]. rewrite Z.gtb_ltb. destruct (Z.ltb_spec 0 drop) as [Hgt|Hz].
  2:{ wp_steps. apply HQ; try done. left. lia. }
  destruct (Hin a ltac:(left)) as [l Hl]. wp_steps. eapply wp_lift; [exact Hl|].
  destruct (dropping_init a l p Hinv Hl) as (flat & l' & -> & Hlen & Hd0). wp_steps.
  destruct (Z.leb_spec (list_Len l) drop) as [Hle|Hlt]; wp_steps.
  - eapply wp_drop_flat; [exact Hd0|]. intros q Hd. rewrite Z.add_0_l, Hlen in Hd.
    pose proof Hd as [Hinv1 He1 Ha1 Hp1 Ho1 Ht1 Hr1]. pose proof He1 as (Hc1 & _).
    apply IH; [done|done| |by rewrite Ht1, Hc1; lia|lia|].
    + intros b Hb. rewrite Ho1 by (intros ->; done). apply Hin. by right.
    + intros q2 Hinv2 He2 Ha2 Hp2 Hbound Hoth. rewrite Hc1 in Hbound.
      apply HQ; [done|by etrans|by etrans|by etrans| |].
      * destruct Hbound as [?|Hall]; [by left|right].
        intros b lb [->|Hb]%elem_of_cons Hlb; [|by apply (Hall b)].
        rewrite Hoth in Hlb by done. by eapply dropping_empty.
      * intros b [Hba Hbn]%not_elem_of_cons. by rewrite Hoth, Ho1.
  - eapply wp_drop_last; [eapply dropping_perm; [symmetry; apply Permutation_rev|exact Hd0]|rewrite length_rev; lia|].
    intros rest q Hd. rewrite Z.add_0_l in Hd. pose proof Hd as [Hinv1 He1 Ha1 Hp1 Ho1 Ht1 Hr1].
    assert (Hq : Q tt q).
    { apply HQ; try done; [left; lia|]. intros b [Hba Hbn]%not_elem_of_cons. by apply Ho1. }
    destruct addrs; cbn [truncateQueue_loop]; by wp_steps.
Qed.

(** The bound [truncateQueue] establishes. *)
Definition queue_bounded (p : TxPool) : Prop :=
  total_len (queue p) <= GlobalQueue (config p) \/
  forall a l, queue p !! a = Some l -> as_contains (locals p) a = false -> list_Len l = 0.

Lemma wp_truncateQueue p (Q : () -> TxPool -> Prop) :
  pool_inv [] [] [] p -> total_len (queue p) < 2 ^ 64 ->
  (forall p', pool_inv [] [] [] p' -> same_env p p' -> lk_all (all p') ⊆ lk_all (all p) ->
     same_items (pending p) (pending p') -> queue_bounded p' -> Q tt p') ->
  wp (truncateQueue now) Q p.
Proof.
  intros Hinv Hmax HQ. unfold truncateQueue. wp_steps.
  rewrite sum_lens_spec, u64_small by (pose proof (total_len_nonneg (queue p)); unfold is_u64; lia).
  destruct (Z.leb_spec (total_len (queue p)) (GlobalQueue (config p))) as [Hok|Hover].
  { wp_steps. apply HQ; try done. by left. }
  set (f := fun '(addr, _) => _). set (addrs := rev _).
  assert (Hel : forall a, a ∈ addrs <-> as_contains (locals p) a = false /\ is_Some (queue p !! a)).
  { intros a. unfold addrs. rewrite <- (Permutation_rev (heartbeat_sort _).*1), (heartbeat_sort_perm _), list_elem_of_fmap. split.
    - intros ([b n] & -> & ([c l] & Hin & Hf)%list_elem_of_omap). rewrite map_range_perm, elem_of_map_to_list in Hin.
      unfold f in Hf. destruct (as_contains (locals p) c) eqn:Ec; simpl in Hf; [done|]. injection Hf as <- <-. eauto.
    - intros [Hc [l Hl]]. exists (a, default 0 (beats p !! a)). split; [done|]. apply list_elem_of_omap.
      exists (a, l). rewrite map_range_perm, elem_of_map_to_list. unfold f. by rewrite Hc. }
  apply wp_truncateQueue_loop; [done| | |done|lia|].
  - unfold addrs. rewrite <- (Permutation_rev (heartbeat_sort _).*1), (heartbeat_sort_perm _).
    eapply sublist_NoDup; [apply (map_range_keys_nodup (queue p))|]. apply omap_keys.
    intros [a l] y. unfold f. case_match; [|done]. by intros [= <-].
  - intros a Ha%Hel. tauto.
  - intros p' Hinv' He' Ha' Hp' Hbound Hoth. pose proof He' as (Hc' & _ & _ & _ & Hl').
    apply HQ; try done. unfold queue_bounded. rewrite Hc', Hl'. destruct Hbound as [?|Hall]; [by left|right].
    intros a l Hl Hloc. destruct (decide (a ∈ addrs)) as [Hin|Hni]; [by apply (Hall a)|].
    exfalso. apply Hni, Hel. rewrite <- (Hoth a Hni). eauto.
Qed.

End Limits.
