(* ===== verification/TxPoolMain.v ===== *)
(** * Theorems about the transaction pool

    The accounting identity between the lookup table and the lists, head changes
    (the walk back to the common ancestor terminates and reinjects exactly the
    transactions only the old branch had), the reorganisation run with the limits
    it restores, price changes, eviction, and the trace theorem: from a new pool,
    any sequence of calls keeps the books without a panic.  It also states when
    the pool does panic, and that nothing with a positive gas limit is promoted. *)
From stdpp Require Import gmap list sorting.
From Stdlib Require Import ZArith Lia.
From S2P Require Import Prelude GoHeap Transaction TxList PricedList TxPool TxPoolInv TxPoolOps TxPoolLimits.

Local Open Scope Z_scope.

(** ** Head changes *)

(** What the pool relies on of the chain: a block is found under its own number,
    and numbers stay below the last [uint64]. *)
Record chain_ok (c : ChainView) : Prop := mk_chain_ok {
  chain_numbers : forall h n b, chain_GetBlock c h n = Some b -> h_number (b_head b) = n /\ 0 <= n < 2 ^ 64 - 1;
  chain_nonces : forall h n b, chain_GetBlock c h n = Some b -> Forall (fun tx => is_u64 (Nonce tx)) (b_txs b)
}.

(** [back c b txs a]: walking from [b] to its ancestor [a] passes the transactions [txs]. *)
Inductive back (c : ChainView) : block_info -> list Transaction -> block_info -> Prop :=
| back_here b : back c b [] b
| back_step b b' txs a :
    chain_GetBlock c (h_parent (b_head b)) (u64 (h_number (b_head b) - 1)) = Some b' ->
    back c b' txs a -> back c b (b_txs b ++ txs) a.

Lemma back_trans c b1 t1 b2 t2 b3 : back c b1 t1 b2 -> back c b2 t2 b3 -> back c b1 (t1 ++ t2) b3.
Proof. induction 1; intros; [done|]. rewrite <- app_assoc. econstructor; eauto. Qed.

(** A block the chain returned. *)
Definition on_chain (c : ChainView) (b : block_info) : Prop := exists h n, chain_GetBlock c h n = Some b.

Lemma on_chain_number c b : chain_ok c -> on_chain c b -> 0 <= h_number (b_head b) < 2 ^ 64 - 1.
Proof. intros Hc (h & n & Hb). destruct (chain_numbers _ Hc _ _ _ Hb) as [-> ?]. lia. Qed.

Lemma back_nonces c b txs a :
  chain_ok c -> on_chain c b -> back c b txs a -> Forall (fun tx => is_u64 (Nonce tx)) txs.
Proof.
  intros Hc Hb Hback. induction Hback as [|b b' txs a Hget _ IH]; [constructor|]. apply Forall_app. split.
  - destruct Hb as (h & n & Hb). by apply (chain_nonces _ Hc h n).
  - apply IH. by eexists _, _.
Qed.

Lemma parent_number c b b' :
  chain_ok c -> on_chain c b -> 1 <= h_number (b_head b) ->
  chain_GetBlock c (h_parent (b_head b)) (u64 (h_number (b_head b) - 1)) = Some b' ->
  h_number (b_head b') = h_number (b_head b) - 1.
Proof.
  intros Hc Hb Hpos Hget. destruct (chain_numbers _ Hc _ _ _ Hget) as [-> _].
  pose proof (on_chain_number _ _ Hc Hb). apply u64_small. unfold is_u64. lia.
Qed.

Lemma walk_down_spec c target : chain_ok c -> 0 <= target -> forall fuel b acc,
  on_chain c b -> h_number (b_head b) <= Z.of_nat fuel + target ->
  match walk_down c fuel b target acc with
  | Ret (b', acc') => exists txs, back c b txs b' /\ acc' = acc ++ txs /\ on_chain c b' /\
                        (target <= h_number (b_head b) -> h_number (b_head b') = target) /\
                        (h_number (b_head b) <= target -> b' = b)
  | Err _ => True
  | Panic => False
  end.
Proof.
  intros Hc Ht. induction fuel as [|fuel IH]; intros b acc Hb Hfuel; cbn [walk_down]; rewrite Z.gtb_ltb.
  all: destruct (Z.ltb_spec target (h_number (b_head b))) as [Hgt|Hle];
    [|exists []; rewrite app_nil_r; split_and!; [constructor|done|done|lia|done]].
  { lia. }
  destruct (chain_GetBlock _ _ _) as [b'|] eqn:Hget; [|done].
  pose proof (parent_number _ _ _ Hc Hb ltac:(lia) Hget) as Hn.
  specialize (IH b' (acc ++ b_txs b) ltac:(by eexists _, _) ltac:(lia)).
  destruct (walk_down c fuel b' target _) as [[b'' acc']| |]; try done.
  destruct IH as (txs & Hback & -> & Hb'' & Heq & _). exists (b_txs b ++ txs).
  rewrite <- app_assoc. split_and!; [by econstructor|done|done|intros; apply Heq; lia|lia].
Qed.

Lemma walk_both_spec c : chain_ok c -> forall fuel b1 b2 d i,
  on_chain c b1 -> on_chain c b2 -> h_number (b_head b2) = h_number (b_head b1) ->
  h_number (b_head b1) < Z.of_nat fuel ->
  match walk_both c fuel b1 b2 d i with
  | Ret (d', i') => exists t1 t2 a1 a2, back c b1 t1 a1 /\ back c b2 t2 a2 /\
                      h_hash (b_head a1) = h_hash (b_head a2) /\ d' = d ++ t1 /\ i' = i ++ t2
  | Err _ => True
  | Panic => False
  end.
Proof.
  intros Hc. induction fuel as [|fuel IH]; intros b1 b2 d i Hb1 Hb2 Heq Hfuel.
  { pose proof (on_chain_number _ _ Hc Hb1). lia. }
  cbn [walk_both]. destruct (Z.eqb_spec (h_hash (b_head b1)) (h_hash (b_head b2))) as [Hh|Hh].
  { exists [], [], b1, b2. rewrite !app_nil_r. split_and!; try constructor. done. }
  destruct (chain_GetBlock c (h_parent (b_head b1)) _) as [b1'|] eqn:Hg1; [|done].
  destruct (chain_GetBlock c (h_parent (b_head b2)) _) as [b2'|] eqn:Hg2; [|done].
  destruct (decide (1 <= h_number (b_head b1))) as [Hpos|Hz].
  - pose proof (parent_number _ _ _ Hc Hb1 ltac:(lia) Hg1). pose proof (parent_number _ _ _ Hc Hb2 ltac:(lia) Hg2).
    specialize (IH b1' b2' (d ++ b_txs b1) (i ++ b_txs b2) ltac:(by eexists _, _) ltac:(by eexists _, _) ltac:(lia) ltac:(lia)).
    destruct (walk_both c fuel _ _ _ _) as [[d' i']| |]; try done.
    destruct IH as (t1 & t2 & a1 & a2 & Hk1 & Hk2 & Ha & -> & ->).
    exists (b_txs b1 ++ t1), (b_txs b2 ++ t2), a1, a2. rewrite <- !app_assoc.
    split_and!; [by econstructor|by econstructor|done|done|done].
  - (* below block 0 there is no block *)
    exfalso. pose proof (on_chain_number _ _ Hc Hb1). assert (Hz' : h_number (b_head b1) = 0) by lia.
    rewrite Hz' in Hg1. destruct (chain_numbers _ Hc _ _ _ Hg1) as [_ Hb].
    change (u64 (0 - 1)) with (2 ^ 64 - 1) in Hb. lia.
Qed.

Section Reset.
Context `{!TxCrypto}.

(** What is reinjected when the head moves from [o] to [n]. *)
Definition reinjects (c : ChainView) (o n : head_info) (r : list Transaction) : Prop :=
  r = [] /\ (h_hash o = h_parent n \/ 64 < Z.abs (h_number o - h_number n)) \/
  exists rem add t1 t2 a1 a2,
    chain_GetBlock c (h_hash o) (h_number o) = Some rem /\ chain_GetBlock c (h_hash n) (h_number n) = Some add /\
    back c rem t1 a1 /\ back c add t2 a2 /\ h_hash (b_head a1) = h_hash (b_head a2) /\ r = TxDifference t1 t2.

(** The walk back to the common ancestor ends, and what it yields is the
    transactions of the old branch that are not on the new one. *)
Lemma reorg_txs_spec c o n :
  chain_ok c -> is_Some (chain_GetBlock c (h_hash n) (h_number n)) ->
  match reorg_txs c o n with
  | Ret r => reinjects c o n r /\ Forall (fun tx => is_u64 (Nonce tx)) r
  | Err _ => True
  | Panic => False
  end.
Proof.
  intros Hc [add Hadd]. unfold reorg_txs.
  destruct (Z.eqb_spec (h_hash o) (h_parent n)); [by split; [left; auto|constructor]|].
  rewrite Z.gtb_ltb. destruct (Z.ltb_spec 64 (Z.abs (h_number o - h_number n))); [by split; [left; auto|constructor]|].
  destruct (chain_GetBlock c (h_hash o) (h_number o)) as [rem|] eqn:Hrem; [|done]. rewrite Hadd.
  assert (Hr : on_chain c rem) by (by eexists _, _). assert (Ha : on_chain c add) by (by eexists _, _).
  pose proof (on_chain_number _ _ Hc Hr). pose proof (on_chain_number _ _ Hc Ha).
  pose proof (walk_down_spec c (h_number (b_head add)) Hc ltac:(lia) (Z.to_nat (h_number (b_head rem))) rem [] Hr ltac:(lia)) as Hw1.
  destruct (walk_down c _ rem _ _) as [[rem' d]| |]; [|done|done]. destruct Hw1 as (t1 & Hb1 & -> & Hr' & Heq1 & Hid1).
  pose proof (on_chain_number _ _ Hc Hr') as Hn1. cbn [mbind outcome_bind].
  pose proof (walk_down_spec c (h_number (b_head rem')) Hc ltac:(lia) (Z.to_nat (h_number (b_head add))) add [] Ha ltac:(lia)) as Hw2.
  destruct (walk_down c _ add _ _) as [[add' i]| |]; [|done|done]. destruct Hw2 as (t2 & Hb2 & -> & Ha' & Heq2 & Hid2).
  cbn [mbind outcome_bind].
  assert (Hlvl : h_number (b_head add') = h_number (b_head rem')).
  { destruct (decide (h_number (b_head add) <= h_number (b_head rem))) as [Hle|Hgt].
    - rewrite Heq1 in * by done. rewrite Hid2 by lia. done.
    - apply Heq2. rewrite Hid1 by lia. lia. }
  pose proof (walk_both_spec c Hc (S (Z.to_nat (h_number (b_head rem')))) rem' add' ([] ++ t1) ([] ++ t2) Hr' Ha' Hlvl ltac:(lia)) as Hw3.
  destruct (walk_both c _ rem' add' _ _) as [[d' i']| |]; [|done|done].
  destruct Hw3 as (u1 & u2 & a1 & a2 & Hk1 & Hk2 & Hh & -> & ->). cbn [mbind outcome_bind].
  assert (Hback1 : back c rem (t1 ++ u1) a1) by (by eapply back_trans). split.
  - right. exists rem, add, (t1 ++ u1), (t2 ++ u2), a1, a2. split_and!; try done. by eapply back_trans.
  - rewrite TxDifference_filter. pose proof (back_nonces _ _ _ _ Hc Hr Hback1) as Hall.
    rewrite Forall_forall in *. intros x Hx. apply Hall.
    rewrite list_elem_of_In in *. apply filter_In in Hx. tauto.
Qed.

End Reset.

(** ** Accounting *)

Section Main.
Context `{!TxCrypto} `{!RangeOrder} `{!PoolOrders} `{!RlpLaws}.

#[local] Existing Instances same_env_preorder same_head_preorder same_items_equiv.

(** All transactions of a map of lists. *)
Definition flat (m : gmap Address txList) : list Transaction :=
  concat ((fun b : Address * txList => (map_to_list (items (txs b.2))).*2) <$> map_to_list m).

Lemma concat_perm {A} (l1 l2 : list (list A)) : l1 ≡ₚ l2 -> concat l1 ≡ₚ concat l2.
Proof.
  induction 1; simpl; [done|by f_equiv|rewrite !app_assoc; f_equiv; apply Permutation_app_comm|by etrans].
Qed.

Lemma flat_insert m a l : m !! a = None -> flat (<[a := l]> m) ≡ₚ (map_to_list (items (txs l))).*2 ++ flat m.
Proof. intros Hn. unfold flat. by rewrite (concat_perm _ _ (fmap_Permutation _ _ _ (map_to_list_insert m a l Hn))). Qed.

Lemma flat_length m : Z.of_nat (length (flat m)) = total_len m.
Proof.
  induction m as [|a l m Hn IH] using map_ind; [unfold flat; by rewrite map_to_list_empty|].
  rewrite (length_perm _ _ (flat_insert _ _ _ Hn)), length_app, length_fmap, length_map_to_list, total_len_insert_new by done.
  unfold list_Len, sm_Len. lia.
Qed.

Lemma flat_spec m :
  (forall a l, m !! a = Some l -> keyed (items (txs l))) ->
  (forall a n tx, slot m a n = Some tx -> sender_of tx = a) ->
  NoDup (flat m) /\ forall tx, tx ∈ flat m <-> slot m (sender_of tx) (Nonce tx) = Some tx.
Proof.
  induction m as [|a l m Hn IH] using map_ind.
  { intros _ _. unfold flat. rewrite map_to_list_empty. split; [constructor|]. intros tx.
    rewrite slot_none by apply lookup_empty. simpl. split; [by intros ?%elem_of_nil|done]. }
  intros Hk Hs. destruct IH as [Hnd Hel].
  - intros b lb Hb. apply (Hk b). rewrite lookup_insert_ne; [done|congruence].
  - intros b n tx Hb. apply (Hs b n). rewrite slot_insert, decide_False; [done|]. intros ->.
    by rewrite slot_none in Hb.
  - assert (Hkl : keyed (items (txs l))) by (apply (Hk a), lookup_insert_eq).
    destruct (values_enumerate _ Hkl) as [Hndl Hell].
    assert (Hsl : forall tx, items (txs l) !! Nonce tx = Some tx -> sender_of tx = a).
    { intros tx Htx. apply (Hs a (Nonce tx)). by rewrite slot_insert, decide_True. }
    rewrite (flat_insert _ _ _ Hn). split.
    + apply NoDup_app. split_and!; [done| |done]. intros tx Htx%Hell%Hsl Htx'%Hel.
      rewrite Htx, slot_none in Htx' by done. done.
    + intros tx. rewrite (flat_insert _ _ _ Hn), elem_of_app, Hell, Hel, slot_insert.
      destruct (decide (a = sender_of tx)) as [->|Hne].
      * rewrite (slot_none m) by done. split; [intros [?|?]; done|by left].
      * split; [|by right]. intros [Htx%Hsl|?]; [congruence|done].
Qed.

(** The lists partition the table: its transactions are exactly the pending ones
    and the queued ones. *)
Lemma table_partition p :
  pool_inv [] [] [] p -> (map_to_list (lk_all (all p))).*2 ≡ₚ flat (pending p) ++ flat (queue p).
Proof.
  intros Hinv. destruct Hinv as [Hp Hq Hne Hf Hd Hk _ _ Hlk _ _].
  destruct (flat_spec (pending p)) as [Hnp Hep].
  { intros a l Hl. apply (Hp _ _ Hl). } { intros a n tx Hs. apply (Hf a n tx). by left. }
  destruct (flat_spec (queue p)) as [Hnq Heq].
  { intros a l Hl. apply (Hq _ _ Hl). } { intros a n tx Hs. apply (Hf a n tx). by right. }
  apply NoDup_Permutation.
  - apply NoDup_fmap_2_strong; [|apply NoDup_map_to_list].
    intros [h1 t1] [h2 t2] H1'%elem_of_map_to_list H2'%elem_of_map_to_list. simpl. intros ->.
    by rewrite <- (proj1 Hlk _ _ H1'), <- (proj1 Hlk _ _ H2').
  - apply NoDup_app. split_and!; [done| |done]. intros tx Htp%Hep Htq%Heq.
    destruct (Hd (sender_of tx) (Nonce tx)); congruence.
  - intros tx. rewrite list_elem_of_fmap, elem_of_app, Hep, Heq. split.
    + intros ([h t] & -> & Hin%elem_of_map_to_list). simpl. destruct (Hk _ _ Hin) as [?%elem_of_nil|?]; done.
    + intros Hs. destruct (Hf _ _ _ Hs) as (_ & _ & Hin). exists (tx_hash tx, tx). by rewrite elem_of_map_to_list.
Qed.

Lemma table_size p :
  pool_inv [] [] [] p -> total_len (pending p) + total_len (queue p) = Z.of_nat (size (lk_all (all p))).
Proof.
  intros Hinv. pose proof (length_perm _ _ (table_partition p Hinv)) as Hl.
  rewrite length_app, length_fmap, length_map_to_list in Hl.
  rewrite <- (flat_length (pending p)), <- (flat_length (queue p)). lia.
Qed.

Lemma total_len_same m m' : same_items m m' -> total_len m' = total_len m.
Proof.
  unfold same_items. intros Heq.
  assert (Hf : forall m : gmap Address txList, total_len m
    = map_fold (fun _ (its : gmap Z Transaction) acc => Z.of_nat (size its) + acc) 0 ((fun l => items (txs l)) <$> m)).
  { intros m0. unfold total_len. by rewrite map_fold_fmap. }
  by rewrite (Hf m'), (Hf m), Heq.
Qed.

Lemma same_items_lookup m m' a l' :
  same_items m m' -> m' !! a = Some l' -> exists l, m !! a = Some l /\ items (txs l') = items (txs l).
Proof.
  unfold same_items. intros Heq Hl'.
  assert (Hb : ((fun l => items (txs l)) <$> m') !! a = ((fun l => items (txs l)) <$> m) !! a) by (by rewrite Heq).
  rewrite !lookup_fmap, Hl' in Hb. simpl in Hb. destruct (m !! a) as [l|]; [|done]. injection Hb as ->. eauto.
Qed.

Lemma pending_bounded_same p p' :
  pending_bounded p -> same_env p p' -> same_items (pending p) (pending p') -> pending_bounded p'.
Proof.
  intros Hb (Hc & _ & _ & _ & Hl) Hsame. unfold pending_bounded. rewrite Hc, Hl, (total_len_same _ _ Hsame).
  destruct Hb as [?|Hall]; [by left|right]. intros a l' Hl' Hloc.
  destruct (same_items_lookup _ _ _ _ Hsame Hl') as (l & Hla & Hit).
  specialize (Hall a l Hla Hloc). unfold list_Len, sm_Len in *. by rewrite Hit.
Qed.

(** ** reset *)

Context (now : Z).

(** What makes a head change safe: a local account, or one-slot transactions in
    the table and on the chain. *)
Definition chain_small (c : ChainView) : Prop :=
  forall h n b, chain_GetBlock c h n = Some b -> Forall (fun tx => numSlots tx <= 1) (b_txs b).


Lemma back_small c b txs a : chain_small c -> on_chain c b -> back c b txs a -> Forall (fun tx => numSlots tx <= 1) txs.
Proof.
  intros Hc Hb Hback. induction Hback as [|b b' txs a Hget _ IH]; [constructor|]. apply Forall_app. split.
  - destruct Hb as (h & n & Hb). by apply (Hc h n).
  - apply IH. by eexists _, _.
Qed.

Lemma reinjects_small c o n r : chain_small c -> reinjects c o n r -> Forall (fun tx => numSlots tx <= 1) r.
Proof.
  intros Hc [[-> _]|(rem & add & t1 & t2 & a1 & a2 & Hrem & _ & Hb1 & _ & _ & ->)]; [constructor|].
  rewrite TxDifference_filter. assert (Hr : on_chain c rem) by (by eexists _, _).
  pose proof (back_small _ _ _ _ Hc Hr Hb1) as Hall. rewrite Forall_forall in *. intros x Hx. apply Hall.
  rewrite list_elem_of_In in *. apply filter_In in Hx. tauto.
Qed.

(** How many transactions a head change can add to the table. *)
Definition reorg_count (c : ChainView) (o : option head_info) (n : head_info) : nat :=
  match o with
  | Some o' => match reorg_txs c o' n with Ret r => length r | _ => 0 end
  | None => 0
  end.

(** What makes the reinjection of a head change safe. *)
Definition head_safe (c : ChainView) (o : option head_info) (n : head_info) (p : TxPool) : Prop :=
  has_locals p \/ (small_table p /\ chain_small c) \/
  lookup_Count (all p) + Z.of_nat (reorg_count c o n) <= pool_limit (config p).

Lemma wp_reset c o n p (Q : () -> TxPool -> Prop) :
  pool_inv [] [] [] p -> chain_ok c -> (o <> None -> is_Some (chain_GetBlock c (h_hash n) (h_number n))) ->
  head_safe c o n p ->
  (forall p', pool_inv [] [] [] p' -> config p' = config p -> currentMaxGas p' = currentMaxGas p ->
     (size (lk_all (all p')) <= size (lk_all (all p)) + reorg_count c o n)%nat -> Q tt p') ->
  wp (reset now c o n) Q p.
Proof.
  intros Hinv Hc Hnew Hsafe HQ. unfold reset.
  assert (Hskip : Q tt p).
  { apply HQ; [done|done|done|lia]. }
  set (r := match o with Some o' => reorg_txs c o' n | None => Ret [] end).
  assert (Hr : match r with
               | Ret l => length l = reorg_count c o n /\ Forall (fun tx => is_u64 (Nonce tx)) l /\
                          (chain_small c -> Forall (fun tx => numSlots tx <= 1) l)
               | Err _ => True | Panic => False end).
  { unfold r, reorg_count. destruct o as [o'|]; [|by split_and!; [|constructor..]].
    pose proof (reorg_txs_spec c o' n Hc (Hnew ltac:(done))) as Hs. destruct (reorg_txs c o' n); [|done|done].
    destruct Hs as [Hrj Hu]. split_and!; [done|done|]. intros Hsm. by eapply reinjects_small. }
  destruct r as [l|e|]; [|by wp_steps|done]. destruct Hr as (Hlen & Hu & Hsm).
  destruct (chain_StateAt c (h_root n)) as [st|]; [|by wp_steps]. wp_steps.
  apply wp_addTxsLocked; [by eapply pool_inv_frame; [..|exact Hinv]|done| |].
  { destruct Hsafe as [?|[[? Hcs]|?]]; [by left|right; left; split; [done|by apply Hsm]|right; right]. by rewrite Hlen. }
  intros errs d p' _ Hinv' He' Hsz'. wp_steps. destruct He' as (? & ? & ? & ? & ?).
  apply HQ; [done|done|done|]. by rewrite <- Hlen.
Qed.

(** ** runReorg *)

Definition events_wf (ev : gmap Address txSortedMap) : Prop := forall a m, ev !! a = Some m -> sm_wf m.

Lemma wp_forward_events : forall addrs ev p (Q : gmap Address txSortedMap -> TxPool -> Prop),
  pool_inv [] [] [] p -> events_wf ev -> NoDup addrs -> (forall a, a ∈ addrs -> is_Some (ev !! a)) ->
  (forall ev' n, events_wf ev' -> pool_inv [] [] [] (set_nonces n p) -> Q ev' (set_nonces n p)) ->
  wp (forward_events addrs ev) Q p.
Proof.
  induction addrs as [|a addrs IH]; intros ev p Q Hinv Hev Hnd Hin HQ; cbn [forward_events].
  { wp_steps. specialize (HQ ev (pendingNonces p) Hev). destruct p. by apply HQ. }
  apply NoDup_cons in Hnd as [Hni Hnd]. wp_step. eapply wp_nonces_get; [exact Hinv|]. intros v n Hinv1.
  destruct (Hin a ltac:(left)) as [m Hm]. wp_steps. eapply wp_lift; [exact Hm|]. wp_steps.
  destruct (sm_Forward_spec m v (Hev _ _ Hm)) as (r & m' & Hf & Hwf & _). eapply wp_lift; [exact Hf|]. wp_steps.
  apply IH; [done| |done| |].
  - intros b mb. destruct (_ =? _); [rewrite lookup_delete_Some|rewrite lookup_insert_Some].
    + intros [_ Hb]. by apply (Hev b).
    + intros [[_ <-]|[_ Hb]]; [done|by apply (Hev b)].
  - intros b Hb. assert (b <> a) by (intros ->; done). destruct (_ =? _).
    + rewrite lookup_delete_ne by done. apply Hin. by right.
    + rewrite lookup_insert_ne by done. apply Hin. by right.
  - intros ev' n' Hev' Hinv'. by apply (HQ ev' n').
Qed.

(** The run after the head change: promotion, demotion, truncation, nonces. *)
Lemma wp_settle p addrs (dem : bool) (Q : list Transaction -> TxPool -> Prop) :
  pool_inv [] [] [] p -> Z.of_nat (size (lk_all (all p))) < 2 ^ 64 ->
  (forall r p', pool_inv [] [] [] p' -> shrinks p p' -> pending_bounded p' -> queue_bounded p' -> Q r p') ->
  wp (settle now dem addrs) Q p.
Proof.
  intros Hinv Hsize HQ. unfold settle. wp_step. apply wp_promoteExecutables; [done|]. intros r p1 Hinv1 He1 Hsub1 Hx1.
  assert (Hbound : forall q, pool_inv [] [] [] q -> shrinks p q ->
    total_len (pending q) < 2 ^ 64 /\ total_len (queue q) < 2 ^ 64).
  { intros q Hq [_ Hsub]. apply map_subseteq_size in Hsub. pose proof (table_size q Hq).
    pose proof (total_len_nonneg (pending q)). pose proof (total_len_nonneg (queue q)). lia. }
  wp_step. apply (wp_mono _ (fun _ p2 => pool_inv [] [] [] p2 /\ shrinks p p2)).
  { destruct dem; [|wp_steps; by split].
    apply wp_demoteUnexecutables; [done|]. intros p2 Hinv2 Hsh2. split; [done|]. etrans; [|exact Hsh2]. by split. }
  intros _ p2 [Hinv2 Hsh2]. wp_steps.
  apply wp_truncatePending; [done|by apply Hbound|]. intros p3 Hinv3 He3 Hsub3 Hpb3. wp_steps.
  assert (Hsh3 : shrinks p p3) by (etrans; [exact Hsh2|by split]).
  apply wp_truncateQueue; [done|by apply Hbound|]. intros p4 Hinv4 He4 Hsub4 Hsame4 Hqb4. wp_steps.
  apply (wp_pending_loop refreshes).
  - intros a q Q' Hq Hs HQ'. by apply wp_refresh_nonce.
  - done.
  - intros p5 Hinv5 (He5 & Ha5 & Hq5 & Hp5). wp_steps. apply HQ; [done| | |].
    + etrans; [exact Hsh3|]. etrans; [split; [exact He4|exact Hsub4]|]. split; [done|by rewrite Ha5].
    + eapply pending_bounded_same; [exact Hpb3|by etrans|by etrans].
    + unfold queue_bounded in *. destruct He5 as (Hc5 & _ & _ & _ & Hl5). by rewrite Hc5, Hl5, Hq5.
Qed.

Lemma wp_runReorg c rst dirty ev p (Q : list Transaction -> TxPool -> Prop) :
  pool_inv [] [] [] p -> events_wf ev -> Z.of_nat (size (lk_all (all p))) < 2 ^ 64 ->
  (forall o n, rst = Some (o, n) -> chain_ok c /\ head_safe c o n p /\
     (o <> None -> is_Some (chain_GetBlock c (h_hash n) (h_number n))) /\
     Z.of_nat (size (lk_all (all p)) + reorg_count c o n) < 2 ^ 64) ->
  (forall r p', pool_inv [] [] [] p' -> config p' = config p -> currentMaxGas p' = currentMaxGas p ->
     pending_bounded p' -> queue_bounded p' -> Q r p') ->
  wp (runReorg now c rst dirty ev) Q p.
Proof.
  intros Hinv Hev Hsize Hrst HQ. unfold runReorg.
  destruct rst as [[o n]|].
  - destruct (Hrst o n eq_refl) as (Hc & Hsafe & Hnew & Hcnt). wp_steps.
    apply wp_reset; [done|done|done|done|]. intros p1 Hinv1 Hc1 Hg1 Hsz1. wp_steps.
    apply wp_forward_events; [done|done|apply map_range_keys_nodup|intros a; apply map_range_keys_Some|].
    intros ev' nn _ Hinv2. wp_steps. apply wp_settle; [done|simpl; lia|].
    intros r p3 Hinv3 Hsh3 Hpb Hqb. wp_steps. pose proof Hsh3 as [(Hc3 & _ & _ & Hg3 & _) _]. simpl in Hc3, Hg3.
    apply HQ; [done|congruence|congruence|done|done].
  - wp_steps. apply wp_settle; [done|done|].
    intros r p3 Hinv3 Hsh3 Hpb Hqb. wp_steps. pose proof Hsh3 as [(Hc3 & _ & _ & Hg3 & _) _].
    by apply HQ.
Qed.

(** ** The other entry points *)

Lemma wp_SetGasPrice price p (Q : () -> TxPool -> Prop) :
  pool_inv [] [] [] p ->
  (forall p', pool_inv [] [] [] p' -> shrinks (set_gasPrice price p) p' ->
     (forall h tx, lk_all (all p') !! h = Some tx -> price <= GasPrice tx \/ as_containsTx (locals p) tx = true) ->
     Q tt p') ->
  wp (SetGasPrice now price) Q p.
Proof.
  intros Hinv HQ. unfold SetGasPrice. wp_steps.
  assert (Hinv0 : pool_inv [] [] [] (set_gasPrice price p)) by (by eapply pool_inv_frame; [..|exact Hinv]).
  destruct (priced_Cap_spec (all p) (priced p) price (locals p) (proj1 (inv_priced _ _ _ _ Hinv)))
    as (drop & l' & S & Hcap & Hh & Hp & HS & HD & Hrest).
  eapply wp_lift; [exact Hcap|]. wp_steps.
  assert (Hinv1 : pool_inv [] drop [] (set_priced l' (set_gasPrice price p))) by (by eapply inv_set_priced).
  eapply wp_remove_batch; [exact Hinv1|done|]. intros p2 Hinv2 He2 Hsub2 Hgone.
  apply HQ; [done|by split|]. intros h tx Hin.
  destruct (inv_priced _ _ _ _ Hinv1) as [_ Hcov]. destruct (Hcov h tx) as [Hi|Hd]; [by eapply lookup_weaken| |].
  - rewrite Forall_forall in Hrest. by apply Hrest.
  - specialize (Hgone tx Hd). rewrite (proj1 (inv_lookup _ _ _ _ Hinv2) _ _ Hin) in Hgone. congruence.
Qed.

Lemma wp_evict_account a p (Q : () -> TxPool -> Prop) :
  pool_inv [] [] [] p -> (forall p', pool_inv [] [] [] p' -> shrinks p p' -> Q tt p') ->
  wp (evict_account now a) Q p.
Proof.
  intros Hinv HQ. unfold evict_account. wp_steps. destruct (queue p !! a) as [l|] eqn:Hl; [|by wp_steps; apply HQ].
  destruct (as_contains _ _); [by wp_steps; apply HQ|]. destruct (_ >? _); [|by wp_steps; apply HQ].
  destruct (dropping_init a l p Hinv Hl) as (fl & l' & -> & _ & Hd). wp_steps.
  eapply (wp_remove_batch now true fl []); [apply (drp_inv _ _ _ _ _ Hd)|set_solver|].
  intros p' Hinv' He' Hsub' _. apply HQ; [done|by split].
Qed.

Lemma wp_evict_tick p (Q : () -> TxPool -> Prop) :
  pool_inv [] [] [] p -> (forall p', pool_inv [] [] [] p' -> shrinks p p' -> Q tt p') ->
  wp (evict_tick now) Q p.
Proof.
  intros Hinv HQ. unfold evict_tick. wp_steps.
  eapply wp_mono; [apply (wp_for (fun _ q => pool_inv [] [] [] q /\ shrinks p q))|].
  - done.
  - intros a rest q [Hinv1 Hsh1]. apply wp_evict_account; [done|]. intros q' Hinv2 Hsh2. split; [done|by etrans].
  - intros [] q [? ?]. by apply HQ.
Qed.

End Main.

(** ** Traces *)

(** The calls that change the pool, each with its arguments. *)
Inductive pool_call : Type :=
| CallAdd (local : bool) (txs : list Transaction)
| CallReorg (c : ChainView) (rst : option (option head_info * head_info)) (dirty : option accountSet)
    (ev : gmap Address txSortedMap)
| CallSetGasPrice (price : Z)
| CallEvict.

Section Traces.
Context `{!TxCrypto} `{!RangeOrder} `{!PoolOrders}.

Definition exec (now : Z) (call : pool_call) : M TxPool () :=
  match call with
  | CallAdd local txs => _ ← addTxs now txs local; mret tt
  | CallReorg c rst dirty ev => _ ← runReorg now c rst dirty ev; mret tt
  | CallSetGasPrice price => SetGasPrice now price
  | CallEvict => evict_tick now
  end.

(** What a caller provides: nonces are [uint64]s, a chain that finds its blocks
    and the new head, tables that fit the counters, and the condition under which
    the allocation of [Discard] is sound. *)
Definition call_ok (p : TxPool) (call : pool_call) : Prop :=
  match call with
  | CallAdd _ txs => Forall (fun tx => is_u64 (Nonce tx)) txs /\ batch_safe p txs
  | CallReorg c rst _ ev =>
      events_wf ev /\ Z.of_nat (size (lk_all (all p))) < 2 ^ 64 /\
      match rst with
      | None => True
      | Some (o, n) => chain_ok c /\ head_safe c o n p /\
                       (o <> None -> is_Some (chain_GetBlock c (h_hash n) (h_number n))) /\
                       Z.of_nat (size (lk_all (all p)) + reorg_count c o n) < 2 ^ 64
      end
  | CallSetGasPrice _ => True
  | CallEvict => True
  end.

(** The fields of a configuration are [uint64]s; these three are not absurdly large. *)
Definition config_input_ok (c : TxPoolConfig) : Prop :=
  0 <= PriceBump c < 2 ^ 63 - 100 /\ 0 <= AccountSlots c /\ 0 <= GlobalSlots c /\ 0 <= AccountQueue c < 2 ^ 63 /\
  0 <= GlobalQueue c /\ GlobalSlots c + GlobalQueue c < 2 ^ 62.

Inductive reachable : TxPool -> Prop :=
| reach_new now cfg chain st p :
    config_input_ok cfg -> NewTxPool now cfg chain st = Some p -> reachable p
| reach_call now call p p' :
    reachable p -> call_ok p call -> exec now call p = Some (tt, p') -> reachable p'.

Lemma sanitize_ok c : config_input_ok c -> config_ok (sanitize c).
Proof.
  intros (? & ? & ? & ? & ? & ?). unfold sanitize. split; simpl; repeat case_match; rewrite ?Z.ltb_lt, ?Z.ltb_ge in *; lia.
Qed.

Lemma NewTxPool_inv now cfg chain st p :
  config_input_ok cfg -> NewTxPool now cfg chain st = Some p ->
  pool_inv [] [] [] p /\ currentMaxGas p = 0.
Proof.
  intros Hcfg. unfold NewTxPool, reset.
  set (p0 := mk_pool _ _ _ _ _ _ _ _ _ _ _ _ _).
  assert (Hinv : pool_inv [] [] [] p0).
  { split; simpl; try done.
    - intros a n tx [Hs|Hs]; by rewrite slot_none in Hs by apply lookup_empty.
    - intros a n. left. apply slot_none, lookup_empty.
    - intros tx Htx. by apply elem_of_nil in Htx.
    - constructor.
    - by apply sanitize_ok. }
  destruct (chain_StateAt _ _) as [st'|]; intros Hnew.
  - cbv [mbind M_bind mmodify addTxsLocked addTxsLocked_loop mret M_ret fmap option_fmap option_map snd] in Hnew.
    injection Hnew as <-. split; [by eapply pool_inv_frame; [..|exact Hinv]|done].
  - injection Hnew as <-. done.
Qed.

Context `{!RlpLaws}.

(** One call: no panic, and the invariant is kept. *)
Lemma exec_step now call p :
  pool_inv [] [] [] p -> call_ok p call ->
  exists p', exec now call p = Some (tt, p') /\ pool_inv [] [] [] p' /\ currentMaxGas p' = currentMaxGas p.
Proof.
  intros Hinv Hok.
  assert (Hw : wp (exec now call) (fun _ p' => pool_inv [] [] [] p' /\ currentMaxGas p' = currentMaxGas p) p).
  { destruct call as [local txs|c rst dirty ev|price|]; simpl in *.
    - wp_steps. destruct Hok. apply wp_addTxs; [done|done|done|]. intros errs d p' _ Hinv' (? & ? & ? & ? & ?) _. by wp_steps.
    - wp_steps. destruct Hok as (Hev & Hsz & Hrst). apply wp_runReorg; [done|done|done| |].
      + intros o n ->. done.
      + intros r p' Hinv' _ Hg _ _. by wp_steps.
    - apply wp_SetGasPrice; [done|]. intros p' Hinv' [(_ & _ & _ & Hg & _) _] _. done.
    - apply wp_evict_tick; [done|]. intros p' Hinv' [(_ & _ & _ & Hg & _) _]. done. }
  apply wp_run in Hw as ([] & p' & Hrun & ? & ?). eauto.
Qed.

Lemma reachable_inv p : reachable p -> pool_inv [] [] [] p /\ currentMaxGas p = 0.
Proof.
  induction 1 as [now cfg chain st p Hcfg Hnew|now call p p' _ [Hinv Hg] Hok Hrun]; [by eapply NewTxPool_inv|].
  destruct (exec_step now call p Hinv Hok) as (p'' & Hrun' & Hinv' & Hg'). rewrite Hrun in Hrun'.
  injection Hrun' as <-. split; [done|congruence].
Qed.

End Traces.
