(* ===== verification/TxPoolSpec.v ===== *)
(** * The properties of the transaction pool

    The theorems about [TxPool] as a whole, in the terms a caller sees: traces of
    calls, the books, insertion and removal, the limits after a reorganisation
    run, price changes, head changes, promotion, and the two defects.  A concrete
    pool over the toy signature scheme instantiates each of them. *)
From stdpp Require Import gmap list sorting.
From Stdlib Require Import ZArith Lia.
From S2P Require Import Prelude GoHeap Transaction TxList PricedList TxPool TxPoolInv TxPoolOps TxPoolLimits TxPoolMain.

Local Open Scope Z_scope.

Section Claims.
Context `{!TxCrypto} `{!RangeOrder} `{!PoolOrders} `{!RlpLaws}.
Implicit Types (p : TxPool) (tx : Transaction).


(** in every reachable pool the lookup table is a permutation of the pending
    and queued transactions, each filed under its sender and nonce, and the
    number of occupied slots is the sum over the table. *)
Theorem pool_books_balance p :
  reachable p ->
  (map_to_list (lk_all (all p))).*2 ≡ₚ flat (pending p) ++ flat (queue p) /\
  total_len (pending p) + total_len (queue p) = lookup_Count (all p) /\
  lookup_Slots (all p) = total_slots (lk_all (all p)) /\
  forall h tx, lookup_Get (all p) h = Some tx -> tx_hash tx = h /\ tx_ok tx.
Proof.
  intros Hr. destruct (reachable_inv p Hr) as [Hinv _]. split_and!.
  - by apply table_partition.
  - by rewrite table_size.
  - apply (proj2 (inv_lookup _ _ _ _ Hinv)).
  - intros h tx Hh. split; [by apply (proj1 (inv_lookup _ _ _ _ Hinv))|].
    destruct (inv_known _ _ _ _ Hinv _ _ Hh) as [Hn%elem_of_nil|Hs]; [done|].
    by destruct (inv_filed _ _ _ _ Hinv _ _ _ Hs).
Qed.


(** [removeTx] returns, forgets exactly the transaction of the given hash and
    keeps the invariant: what follows a removed pending transaction is moved to
    the queue, not lost. *)
Theorem removeTx_forgets_exactly now h outofbound p :
  pool_inv [] [] [] p ->
  exists p', removeTx now h outofbound p = Some (tt, p') /\ pool_inv [] [] [] p' /\
    lk_all (all p') = delete h (lk_all (all p)).
Proof.
  intros Hinv.
  assert (Hw : wp (removeTx now h outofbound)
                 (fun _ p' => pool_inv [] [] [] p' /\ lk_all (all p') = delete h (lk_all (all p))) p).
  { by apply (wp_removeTx now h outofbound [] p). }
  apply wp_run in Hw as ([] & p' & ? & ? & ?). eauto.
Qed.

(** C12: a reorganisation run returns a pool within its limits: the pending
    transactions fit [GlobalSlots] or no remote account has more than
    [AccountSlots] of them, and the queued ones fit [GlobalQueue] or every remote
    queue is empty. *)
Theorem runReorg_restores_limits now c rst dirty ev p :
  pool_inv [] [] [] p -> call_ok p (CallReorg c rst dirty ev) ->
  exists r p', runReorg now c rst dirty ev p = Some (r, p') /\ pool_inv [] [] [] p' /\
    pending_bounded p' /\ queue_bounded p'.
Proof.
  intros Hinv (Hev & Hsz & Hrst).
  apply (wp_run _ (fun _ p' => pool_inv [] [] [] p' /\ pending_bounded p' /\ queue_bounded p')).
  apply wp_runReorg; [done..| |].
  - intros o n ->. done.
  - intros r p' ?????. done.
Qed.

(** the walk of a head change terminates without a panic; it returns the
    transactions of the blocks from the old head down to the common ancestor that
    are not among those from the new head down to it, or nothing when the new
    head extends the old one or the heads are more than 64 blocks apart. *)
Theorem reset_reinjects_old_branch c o n :
  chain_ok c -> is_Some (chain_GetBlock c (h_hash n) (h_number n)) ->
  match reorg_txs c o n with
  | Ret r => reinjects c o n r
  | Err _ => True
  | Panic => False
  end.
Proof.
  intros Hc Hn. pose proof (reorg_txs_spec c o n Hc Hn) as Hs. by destruct (reorg_txs c o n) as [r| |]; [apply Hs|..].
Qed.

(** [SetGasPrice] returns; it removes transactions only, and every one that
    is left pays the new price or is of a local account. *)
Theorem SetGasPrice_enforces_floor now price p :
  pool_inv [] [] [] p ->
  exists p', SetGasPrice now price p = Some (tt, p') /\ pool_inv [] [] [] p' /\ gasPrice p' = price /\
    lk_all (all p') ⊆ lk_all (all p) /\
    forall h tx, lk_all (all p') !! h = Some tx -> price <= GasPrice tx \/ as_containsTx (locals p) tx = true.
Proof.
  intros Hinv.
  assert (Hw : wp (SetGasPrice now price) (fun _ p' => pool_inv [] [] [] p' /\ gasPrice p' = price /\
    lk_all (all p') ⊆ lk_all (all p) /\
    forall h tx, lk_all (all p') !! h = Some tx -> price <= GasPrice tx \/ as_containsTx (locals p) tx = true) p).
  { apply wp_SetGasPrice; [done|]. intros p' Hinv' [(_ & Hg & _) Hsub] Hall. split_and!; done. }
  apply wp_run in Hw as ([] & p' & ? & ? & ? & ? & ?). eauto 10.
Qed.

(** [promoteExecutables] returns, and what it promotes is executable: a nonce
    the state has not consumed, a cost the sender's balance covers, and a gas
    limit within [currentMaxGas]. *)
Theorem promoted_are_executable now addrs p :
  pool_inv [] [] [] p ->
  exists r p', promoteExecutables now addrs p = Some (r, p') /\ pool_inv [] [] [] p' /\ Forall (executable p) r.
Proof.
  intros Hinv. apply (wp_run _ (fun r p' => pool_inv [] [] [] p' /\ Forall (executable p) r)).
  apply wp_promoteExecutables; [done|]. intros r p' ????. done.
Qed.

(** [currentMaxGas] is zero in every reachable pool, because [reset] no longer
    assigns it; so no transaction with a positive gas limit is ever promoted. *)
Theorem nothing_with_gas_is_promoted now addrs p :
  reachable p ->
  exists r p', promoteExecutables now addrs p = Some (r, p') /\ Forall (fun tx => Gas tx <= 0) r.
Proof.
  intros Hr. destruct (reachable_inv p Hr) as [Hinv Hg].
  apply (wp_run _ (fun r _ => Forall (fun tx => Gas tx <= 0) r)).
  apply wp_promoteExecutables; [done|]. intros r p' _ _ _ Hx.
  eapply Forall_impl; [exact Hx|]. intros tx (_ & _ & Hgas). by rewrite <- Hg.
Qed.

(** a full pool without local accounts panics on a valid new transaction that
    needs more slots than the price heap has entries: the allocation of [Discard]
    gets a negative capacity. *)
Theorem add_panics_on_wide_transactions now tx local p :
  pool_inv [] [] [] p -> as_empty (locals p) = true ->
  lookup_Get (all p) (tx_hash tx) = None -> validateTx p tx local = None ->
  pool_limit (config p) <= lookup_Count (all p) ->
  (exists t, t ∈ pitems (priced p) /\ fresh_in (all p) t /\ GasPrice t < GasPrice tx) ->
  Z.of_nat (length (pitems (priced p))) < lookup_Slots (all p) - i64 (pool_limit (config p)) + numSlots tx ->
  add now tx local p = None.
Proof.
  intros Hinv Hl Hnew Hval Hfull (t & Ht & Hft & Hcheap) Hwide.
  unfold add, make_room, discard_for, mlift, mmodify. unfold mbind, M_bind, option_bind, mget. cbv beta iota.
  rewrite Hnew, Hval. rewrite (proj2 (Z.geb_ge _ _)) by lia.
  destruct local.
  { cbn -[priced_Discard]. by rewrite priced_Discard_panics. }
  destruct (priced_Underpriced_spec (all p) (priced p) tx (locals p)) as (b & l' & S & Hu & _ & Hp & _ & Hb).
  { apply (inv_priced _ _ _ _ Hinv). }
  assert (b = false) as ->.
  { destruct b; [|done]. destruct (proj1 Hb eq_refl) as (_ & _ & Hmin). specialize (Hmin t Ht Hft). lia. }
  apply length_perm in Hp. rewrite length_app in Hp. rewrite Hu. cbv beta iota.
  unfold mret, M_ret. cbv beta iota. change (priced (set_priced l' p)) with l'.
  change (all (set_priced l' p)) with (all p). change (locals (set_priced l' p)) with (locals p).
  change (config (set_priced l' p)) with (config p). rewrite priced_Discard_panics; [done|done|lia].
Qed.

(** [Status] answers from the books: a hash is unknown exactly when the table
    does not have it, and otherwise pending or queued exactly when the
    transaction is the one filed there. *)
Theorem status_is_where_it_is_filed p h :
  pool_inv [] [] [] p ->
  match lk_all (all p) !! h with
  | None => status_of p h = TxStatusUnknown
  | Some tx => (status_of p h = TxStatusPending /\ slot (pending p) (sender_of tx) (Nonce tx) = Some tx) \/
               (status_of p h = TxStatusQueued /\ slot (queue p) (sender_of tx) (Nonce tx) = Some tx)
  end.
Proof.
  intros Hinv. unfold status_of, pool_Get, lookup_Get.
  destruct (lk_all (all p) !! h) as [tx|] eqn:Hh; [|done].
  pose proof (inv_disjoint _ _ _ _ Hinv (sender_of tx) (Nonce tx)) as Hd.
  destruct (inv_known _ _ _ _ Hinv _ _ Hh) as [Hn%elem_of_nil|[Hs|Hs]]; [done|left|right]; (split; [|done]);
    pose proof Hs as Hs'; apply slot_lookup in Hs' as (l & Hl & Hitem).
  - by rewrite Hl, Hitem.
  - destruct Hd as [Hd|Hd]; [|congruence]. rewrite Hl, Hitem.
    destruct (pending p !! sender_of tx) as [l'|] eqn:Hl'; [|done].
    by rewrite (slot_at _ _ _ _ Hl') in Hd; rewrite Hd.
Qed.

End Claims.

(** ** Witnesses *)

(** Orders by merge sort on the second component. *)
Definition ascending (x y : Address * Z) : Prop := x.2 <= y.2.
Definition descending (x y : Address * Z) : Prop := y.2 <= x.2.

#[local] Instance ascending_dec x y : Decision (ascending x y) := decide (x.2 <= y.2).
#[local] Instance descending_dec x y : Decision (descending x y) := decide (y.2 <= x.2).
#[local] Instance ascending_trans : Transitive ascending.
Proof. intros x y z. unfold ascending. lia. Qed.
#[local] Instance descending_trans : Transitive descending.
Proof. intros x y z. unfold descending. lia. Qed.
#[local] Instance ascending_total : Total ascending.
Proof. intros x y. unfold ascending. lia. Qed.
#[local] Instance descending_total : Total descending.
Proof. intros x y. unfold descending. lia. Qed.

Definition toy_orders : PoolOrders :=
  {| prque_order := merge_sort descending;
     prque_order_perm := merge_sort_Permutation descending;
     prque_order_sorted := StronglySorted_merge_sort descending;
     heartbeat_sort := merge_sort ascending;
     heartbeat_sort_perm := merge_sort_Permutation ascending;
     heartbeat_sort_sorted := StronglySorted_merge_sort ascending |}.

Lemma toy_rlp_laws : @RlpLaws toy_crypto.
Proof. intros d. cbn. discriminate. Qed.

Lemma small_table_of `{!TxCrypto} (p : TxPool) txs :
  lk_all (all p) = list_to_map ((fun tx => (tx_hash tx, tx)) <$> txs) ->
  Forall (fun tx => numSlots tx <= 1) txs -> small_table p.
Proof.
  intros Heq Hall h tx Hh. rewrite Heq in Hh. apply elem_of_list_to_map_2, list_elem_of_fmap in Hh as (tx' & [= _ ->] & Hin).
  rewrite Forall_forall in Hall. by apply Hall.
Qed.

Module Toy.
#[local] Existing Instances toy_crypto canonical_order toy_orders toy_rlp_laws.

Definition signed (nonce price gas : Z) (payload : list Z) : Transaction :=
  match SignTx (NewTransaction 0 nonce 77 0 0 (Some 10) gas (Some price) payload) (NewEIP155Signer (Some 1)) (42 : PrivateKey) with
  | Ret tx => tx
  | _ => toy_tx
  end.

Definition state : StateReader := mk_state (fun _ => 0) (fun _ => 1000).
Definition genesis : block_info := mk_block (mk_head 100 0 0 7) [].
Definition left_head : head_info := mk_head 101 100 1 7.
Definition right_head : head_info := mk_head 102 100 1 7.

(** Two blocks on one parent; the left one has a transaction. *)
Definition chain : ChainView :=
  mk_chain genesis
    (fun h n => if (h =? 100) && (n =? 0) then Some genesis
                else if (h =? 101) && (n =? 1) then Some (mk_block left_head [signed 0 5 21000 []])
                else if (h =? 102) && (n =? 1) then Some (mk_block right_head [])
                else None)
    (fun _ => Some state).

Definition pool0 : TxPool :=
  match NewTxPool 0 DefaultTxPoolConfig chain state with
  | Some p => p
  | None => mk_pool DefaultTxPoolConfig 0 state (newTxNoncer (fun _ => 0)) 0 (newAccountSet []) None ∅ ∅ ∅
              newTxLookup newTxPricedList []
  end.

(** The pool after a remote batch of two transactions, the second one without gas. *)
Definition batch : list Transaction := [signed 0 5 0 []; signed 1 6 0 []].
Definition pool1 : TxPool :=
  match exec 1 (CallAdd false batch) pool0 with Some (_, p) => p | None => pool0 end.

Lemma pool0_reachable : reachable pool0.
Proof. apply (reach_new 0 DefaultTxPoolConfig chain state); [unfold config_input_ok; simpl; lia|reflexivity]. Qed.

Lemma batch_ok : call_ok pool0 (CallAdd false batch).
Proof.
  split; [by repeat constructor|]. right; left. split; [by intros h tx|]. repeat constructor; by vm_compute.
Qed.

Lemma pool1_reachable : reachable pool1.
Proof.
  destruct (reachable_inv pool0 pool0_reachable) as [Hinv _].
  destruct (exec_step 1 (CallAdd false batch) pool0 Hinv batch_ok) as (p' & Hrun & _).
  eapply reach_call; [apply pool0_reachable|apply batch_ok|]. unfold pool1. rewrite Hrun. reflexivity.
Qed.

Lemma pool1_inv : pool_inv [] [] [] pool1.
Proof. apply (reachable_inv pool1 pool1_reachable). Qed.

Lemma chain_is_ok : chain_ok chain.
Proof.
  split; intros h n b; simpl; repeat case_match; intros [= <-]; rewrite ?andb_true_iff, ?Z.eqb_eq in *; simpl;
    first [lia|repeat constructor; by vm_compute].
Qed.

Lemma pool1_table : lk_all (all pool1) = list_to_map ((fun tx => (tx_hash tx, tx)) <$> batch).
Proof. vm_compute. reflexivity. Qed.

Lemma pool1_small : small_table pool1.
Proof. apply (small_table_of _ batch pool1_table). repeat constructor; by vm_compute. Qed.

Lemma chain_is_small : chain_small chain.
Proof. intros h n b. simpl. repeat case_match; intros [= <-]; simpl; repeat constructor. by vm_compute. Qed.

Lemma reorg_call_ok : call_ok pool1 (CallReorg chain (Some (Some left_head, right_head)) None ∅).
Proof.
  split; [|split; [|split; [|split; [|split]]]].
  - intros a m Hm. by rewrite lookup_empty in Hm.
  - rewrite pool1_table. vm_compute. reflexivity.
  - apply chain_is_ok.
  - right; left. split; [apply pool1_small|apply chain_is_small].
  - intros _. by eexists.
  - rewrite pool1_table. vm_compute. reflexivity.
Qed.


Lemma pool_books_balance_witness :
  total_len (pending pool1) + total_len (queue pool1) = 2 /\ lookup_Slots (all pool1) = 2.
Proof.
  destruct (pool_books_balance pool1 pool1_reachable) as (_ & -> & _ & _). split; vm_compute; reflexivity.
Defined.


Lemma removeTx_forgets_exactly_witness :
  exists p', removeTx 2 (tx_hash (signed 0 5 0 [])) true pool1 = Some (tt, p') /\ pool_inv [] [] [] p' /\
    lk_all (all p') = delete (tx_hash (signed 0 5 0 [])) (lk_all (all pool1)).
Proof. apply (removeTx_forgets_exactly 2 (tx_hash (signed 0 5 0 [])) true pool1), pool1_inv. Defined.

Lemma runReorg_restores_limits_witness :
  exists r p', runReorg 2 chain (Some (Some left_head, right_head)) None ∅ pool1 = Some (r, p') /\
    pool_inv [] [] [] p' /\ pending_bounded p' /\ queue_bounded p'.
Proof.
  apply (runReorg_restores_limits 2 chain (Some (Some left_head, right_head)) None ∅ pool1);
    [apply pool1_inv|apply reorg_call_ok].
Defined.

Lemma reset_reinjects_old_branch_witness :
  reorg_txs chain left_head right_head = Ret [signed 0 5 21000 []] /\
  reinjects chain left_head right_head [signed 0 5 21000 []].
Proof.
  assert (Heq : reorg_txs chain left_head right_head = Ret [signed 0 5 21000 []]) by (vm_compute; reflexivity).
  split; [done|]. pose proof (reset_reinjects_old_branch chain left_head right_head chain_is_ok ltac:(by eexists)) as Hs.
  by rewrite Heq in Hs.
Defined.

Lemma SetGasPrice_enforces_floor_witness :
  exists p', SetGasPrice 2 6 pool1 = Some (tt, p') /\ pool_inv [] [] [] p' /\ gasPrice p' = 6 /\
    lk_all (all p') ⊆ lk_all (all pool1) /\
    forall h tx, lk_all (all p') !! h = Some tx -> 6 <= GasPrice tx \/ as_containsTx (locals pool1) tx = true.
Proof. apply (SetGasPrice_enforces_floor 2 6 pool1), pool1_inv. Defined.

Definition account : Address := sender_of (signed 0 5 0 []).

Lemma promoted_are_executable_witness :
  exists r p', promoteExecutables 2 [account] pool1 = Some (r, p') /\ pool_inv [] [] [] p' /\
    Forall (executable pool1) r.
Proof. apply (promoted_are_executable 2 [account] pool1), pool1_inv. Defined.

Lemma nothing_with_gas_is_promoted_witness :
  exists r p', promoteExecutables 2 [account] pool1 = Some (r, p') /\ Forall (fun tx => Gas tx <= 0) r.
Proof. apply (nothing_with_gas_is_promoted 2 [account] pool1), pool1_reachable. Defined.

Lemma status_is_where_it_is_filed_witness :
  status_of pool1 (tx_hash (signed 0 5 0 [])) = TxStatusQueued /\
  slot (queue pool1) account 0 = Some (signed 0 5 0 []).
Proof.
  pose proof (status_is_where_it_is_filed pool1 (tx_hash (signed 0 5 0 [])) pool1_inv) as Hs.
  assert (Hl : lk_all (all pool1) !! tx_hash (signed 0 5 0 []) = Some (signed 0 5 0 [])) by (vm_compute; reflexivity).
  rewrite Hl in Hs. destruct Hs as [[Hs _]|Hs]; [vm_compute in Hs; discriminate Hs|exact Hs].
Defined.

End Toy.

(** A pool of limit two, filled with transactions of two slots each; the digest
    reads the first bytes only, which include the nonce. *)
Module Wide.
Lemma hd_elem {A} (d : A) l : (0 <? length l)%nat = true -> List.hd d l ∈ l.
Proof. destruct l; [done|]. intros _. by left. Qed.

Definition wide_crypto : TxCrypto :=
  {| rlp_encode_tx := toy_encode_tx;
     rlp_encode_items := @rlp_encode_items toy_crypto;
     Keccak256 := fun l => toy_keccak (take 260 l);
     ValidateSignatureValues := @ValidateSignatureValues toy_crypto;
     Ecrecover := @Ecrecover toy_crypto;
     PrivateKey := Z;
     crypto_Sign := @crypto_Sign toy_crypto |}.

Lemma wide_rlp_laws : @RlpLaws wide_crypto.
Proof. intros d. cbn. discriminate. Qed.

#[local] Existing Instances wide_crypto canonical_order toy_orders wide_rlp_laws.

Definition signed (nonce price : Z) : Transaction :=
  match SignTx (NewTransaction 0 nonce 77 0 0 (Some 10) 0 (Some price) (replicate (Z.to_nat 33000) 0)) (NewEIP155Signer (Some 1))
          (42 : PrivateKey) with
  | Ret tx => tx
  | _ => toy_tx
  end.

Definition config2 : TxPoolConfig := mk_config [] false false time_Second 1 10 1 1 1 1 time_Second.

Definition pool0 : TxPool :=
  match NewTxPool 0 config2 Toy.chain Toy.state with Some p => p | None => Toy.pool0 end.

Definition batch : list Transaction := [signed 0 5; signed 1 5].
Definition full : TxPool :=
  match exec 1 (CallAdd false batch) pool0 with Some (_, p) => p | None => pool0 end.

Lemma wide_pool0_reachable : reachable pool0.
Proof. apply (reach_new 0 config2 Toy.chain Toy.state); [unfold config_input_ok; simpl; lia|reflexivity]. Qed.

Lemma wide_batch_ok : call_ok pool0 (CallAdd false batch).
Proof.
  split; [by repeat constructor|]. right; right. vm_compute. discriminate.
Qed.

Lemma full_reachable : reachable full.
Proof.
  destruct (reachable_inv pool0 wide_pool0_reachable) as [Hinv _].
  destruct (exec_step 1 (CallAdd false batch) pool0 Hinv wide_batch_ok) as (p' & Hrun & _).
  eapply reach_call; [apply wide_pool0_reachable|apply wide_batch_ok|]. unfold full. rewrite Hrun. reflexivity.
Qed.

Lemma add_panics_on_wide_transactions_witness : reachable full /\ add 2 (signed 2 9) false full = None.
Proof.
  split; [apply full_reachable|].
  apply (add_panics_on_wide_transactions 2 (signed 2 9) false full).
  - apply (reachable_inv full full_reachable).
  - vm_compute. reflexivity.
  - vm_compute. reflexivity.
  - vm_compute. reflexivity.
  - vm_compute. discriminate.
  - exists (List.hd toy_tx (pitems (priced full))). split; [|split].
    + apply hd_elem. vm_compute. reflexivity.
    + vm_compute. reflexivity.
    + vm_compute. reflexivity.
  - vm_compute. reflexivity.
Defined.

End Wide.
