(* ===== verification/Quorum.v ===== *)
(** * Votes and quorums

    Models [consensus/quorum/quorum.go], [consensus/quorum/one-node-one-vote.go],
    the ballots of [consensus/votepower/roster.go] and the bit count of
    [internal/utils/bytes.go].  A serialized BLS key is an integer; what a key
    object or a signature is, and how signatures are aggregated, is left to the
    BLS library and appears as a parameter.  Shown: two quorums of one committee
    share more than a third of it, a ballot box stays consistent, the aggregated
    signature counts every signer once, the bit count of a mask, and when the
    leader rotation panics. *)
From stdpp Require Import gmap list sorting.
From Stdlib Require Import ZArith Lia.
From S2P Require Import Prelude.

Local Open Scope Z_scope.

(** ** Bits (internal/utils/bytes.go) *)

Definition halfByteLookup : list Z := [0; 1; 1; 2; 1; 2; 2; 3; 1; 2; 2; 3; 2; 3; 3; 4].

(** An index out of range would panic; a byte never has one. *)
Definition countOneBitsInByte (by_ : Z) : option Z :=
  lo ← halfByteLookup !! Z.to_nat (Z.land by_ 15);
  hi ← halfByteLookup !! Z.to_nat (Z.shiftr by_ 4);
  Some (lo + hi).

Fixpoint count_loop (arr : list Z) (count : Z) : option Z :=
  match arr with
  | [] => Some count
  | b :: arr' => n ← countOneBitsInByte b; count_loop arr' (count + n)
  end.

(** [None] is the nil slice. *)
Definition CountOneBits (arr : option (list Z)) : option Z :=
  match arr with
  | None => Some 0
  | Some [] => Some 0
  | Some l => count_loop l 0
  end.

(** ** Ballots (consensus/votepower/roster.go) *)

Definition SerializedPublicKey : Type := Z.

Record PublicKeyWrapper : Type := mk_key {
  key_Bytes : SerializedPublicKey;
  key_Object : Z
}.

Record Ballot : Type := mk_ballot {
  SignerPubKeys : list SerializedPublicKey;
  BlockHeaderHash : Z;
  Signature : list Z;
  Height : Z;
  ballot_ViewID : Z
}.

(** [Round.AggregatedVote] is never read. *)
Abbreviation BallotBox := (gmap SerializedPublicKey Ballot).
Definition NewRound : BallotBox := ∅.

(** ** cIdentities (consensus/quorum/quorum.go) *)

(** [Phase] is a byte; three values have names. *)
Inductive Phase : Type := Prepare | Commit | ViewChange | UnknownPhase (b : Z).

#[export] Instance Phase_eq_dec : EqDecision Phase.
Proof. solve_decision. Defined.

Inductive Policy : Type := SuperMajorityVote | SuperMajorityStake | UnknownPolicy (b : Z).

Record cIdentities : Type := mk_ident {
  publicKeys : list PublicKeyWrapper;
  keyIndexMap : gmap SerializedPublicKey Z;
  prepare : BallotBox;
  commit : BallotBox;
  viewChange : BallotBox
}.

Definition newBallotsBackedSignatureReader : cIdentities := mk_ident [] ∅ NewRound NewRound NewRound.

Definition IndexOf (s : cIdentities) (k : SerializedPublicKey) : Z := default (-1) (keyIndexMap s !! k).

Definition ParticipantsCount (s : cIdentities) : Z := Z.of_nat (length (publicKeys s)).

(** The common part of [NthNext] and [NthNextHmy]: Go's [%] truncates towards
    zero and panics on zero, and a negative index panics. *)
Definition rotate (s : cIdentities) (k : PublicKeyWrapper) (next numNodes : Z) : option (bool * PublicKeyWrapper) :=
  let idx := IndexOf s (key_Bytes k) in
  let found := negb (idx =? -1) in
  let len := Z.of_nat (length (publicKeys s)) in
  let n := if (numNodes <=? 0) || (numNodes >? len) then len else numNodes in
  if n =? 0 then None
  else
    let idx' := Z.rem (idx + next) n in
    if idx' <? 0 then None
    else
      key ← publicKeys s !! Z.to_nat idx';
      Some (found, key).

Definition NthNext (s : cIdentities) (k : PublicKeyWrapper) (next : Z) : option (bool * PublicKeyWrapper) :=
  rotate s k next (ParticipantsCount s).

(** [NumHarmonyOperatedNodesPerShard] of the sharding instance is an argument. *)
Definition NthNextHmy (s : cIdentities) (numHarmonyNodes : Z) (k : PublicKeyWrapper) (next : Z)
    : option (bool * PublicKeyWrapper) :=
  rotate s k next numHarmonyNodes.

Definition FirstParticipant (s : cIdentities) : option PublicKeyWrapper := publicKeys s !! 0%nat.

Definition Participants (s : cIdentities) : list PublicKeyWrapper := publicKeys s.

Definition index_step (acc : gmap SerializedPublicKey Z) (ik : Z * PublicKeyWrapper) : gmap SerializedPublicKey Z :=
  <[key_Bytes (snd ik) := fst ik]> acc.

Definition index_keys (keys : list PublicKeyWrapper) : gmap SerializedPublicKey Z :=
  foldl index_step ∅ (zip (Z.of_nat <$> seq 0 (length keys)) keys).

Definition UpdateParticipants (s : cIdentities) (keys : list PublicKeyWrapper) : cIdentities :=
  mk_ident keys (index_keys keys) (prepare s) (commit s) (viewChange s).

(** The ballot box a phase reads; an unknown phase reads a fresh map. *)
Definition box_of (s : cIdentities) (p : Phase) : BallotBox :=
  match p with
  | Prepare => prepare s
  | Commit => commit s
  | ViewChange => viewChange s
  | UnknownPhase _ => ∅
  end.

Definition SignersCount (s : cIdentities) (p : Phase) : Z := Z.of_nat (size (box_of s p)).

Definition ReadBallot (s : cIdentities) (p : Phase) (k : SerializedPublicKey) : option Ballot := box_of s p !! k.

Inductive vote_error : Type := ErrDuplicateKey (k : SerializedPublicKey) | ErrVoteSubmitted (k : SerializedPublicKey) | ErrPhaseUnknown.

(** The first loop of [submitVote]. *)
Fixpoint check_keys (s : cIdentities) (p : Phase) (seen : gset SerializedPublicKey) (keys : list SerializedPublicKey)
    : option vote_error :=
  match keys with
  | [] => None
  | k :: keys' =>
      if decide (k ∈ seen) then Some (ErrDuplicateKey k)
      else match ReadBallot s p k with
           | Some _ => Some (ErrVoteSubmitted k)
           | None => check_keys s p ({[k]} ∪ seen) keys'
           end
  end.

Definition set_box (s : cIdentities) (p : Phase) (b : BallotBox) : option cIdentities :=
  match p with
  | Prepare => Some (mk_ident (publicKeys s) (keyIndexMap s) b (commit s) (viewChange s))
  | Commit => Some (mk_ident (publicKeys s) (keyIndexMap s) (prepare s) b (viewChange s))
  | ViewChange => Some (mk_ident (publicKeys s) (keyIndexMap s) (prepare s) (commit s) b)
  | UnknownPhase _ => None
  end.

(** The second loop of [submitVote]; [inr] is its error return. *)
Fixpoint record_ballot (s : cIdentities) (p : Phase) (ballot : Ballot) (keys : list SerializedPublicKey)
    : cIdentities * option vote_error :=
  match keys with
  | [] => (s, None)
  | k :: keys' =>
      match set_box s p (<[k := ballot]> (box_of s p)) with
      | Some s' => record_ballot s' p ballot keys'
      | None => (s, Some ErrPhaseUnknown)
      end
  end.

Definition submitVote (s : cIdentities) (p : Phase) (keys : list SerializedPublicKey) (sig : list Z)
    (headerHash height viewID : Z) : cIdentities * (Ballot + vote_error) :=
  match check_keys s p ∅ keys with
  | Some e => (s, inr e)
  | None =>
      let ballot := mk_ballot keys headerHash sig height viewID in
      match record_ballot s p ballot keys with
      | (s', None) => (s', inl ballot)
      | (s', Some e) => (s', inr e)
      end
  end.

Definition reset_phase (s : cIdentities) (p : Phase) : cIdentities := default s (set_box s p NewRound).

Definition quorum_reset (s : cIdentities) (ps : list Phase) : cIdentities := foldl reset_phase s ps.

Definition TwoThirdsSignersCount (s : cIdentities) : Z := Z.quot (ParticipantsCount s * 2) 3 + 1.

Section WithRange.
Context `{!RangeOrder}.

Definition ReadAllBallots (s : cIdentities) (p : Phase) : list Ballot := snd <$> map_range (box_of s p).

(** The loop of [AggregateVotes]: a ballot is skipped when one of its signers is
    already collected. *)
Definition aggregate_step (acc : list Ballot * gset SerializedPublicKey) (b : Ballot)
    : list Ballot * gset SerializedPublicKey :=
  let '(chosen, collected) := acc in
  if decide (Exists (fun k => k ∈ collected) (SignerPubKeys b)) then acc
  else (chosen ++ [b], collected ∪ list_to_set (SignerPubKeys b)).

Definition chosen_ballots (s : cIdentities) (p : Phase) : list Ballot :=
  fst (foldl aggregate_step ([], ∅) (ReadAllBallots s p)).

(** [aggregate] is [bls_cosi.AggregateSig] after deserialization. *)
Definition AggregateVotes {Sign} (aggregate : list (list Z) -> Sign) (s : cIdentities) (p : Phase) : Sign :=
  aggregate (Signature <$> chosen_ballots s p).

End WithRange.

(** ** uniformVoteWeight (consensus/quorum/one-node-one-vote.go) *)

(** The provider of the node's own keys, or nil. *)
Record uniformVoteWeight : Type := mk_decider {
  ident : cIdentities;
  publicKeyProvider : option (list PublicKeyWrapper)
}.

Definition NewDecider (p : Policy) : option uniformVoteWeight :=
  match p with
  | SuperMajorityVote => Some (mk_decider newBallotsBackedSignatureReader None)
  | _ => None
  end.

Definition SetMyPublicKeyProvider (v : uniformVoteWeight) (keys : list PublicKeyWrapper) : uniformVoteWeight :=
  mk_decider (ident v) (Some keys).

Definition AddNewVote (v : uniformVoteWeight) (p : Phase) (keys : list PublicKeyWrapper) (sig : list Z)
    (headerHash height viewID : Z) : uniformVoteWeight * (Ballot + vote_error) :=
  let '(s', r) := submitVote (ident v) p (key_Bytes <$> keys) sig headerHash height viewID in
  (mk_decider s' (publicKeyProvider v), r).

Definition IsQuorumAchieved (v : uniformVoteWeight) (p : Phase) : bool :=
  SignersCount (ident v) p >=? TwoThirdsSignersCount (ident v).

(** The mask is nil or carries its bitmap. *)
Definition IsQuorumAchievedByMask (v : uniformVoteWeight) (mask : option (option (list Z))) : option bool :=
  match mask with
  | None => Some false
  | Some bitmap =>
      power ← CountOneBits bitmap;
      Some (negb (power <? TwoThirdsSignersCount (ident v)))
  end.

Definition IsAllSigsCollected (v : uniformVoteWeight) : bool :=
  SignersCount (ident v) Commit =? ParticipantsCount (ident v).

Definition ResetPrepareAndCommitVotes (v : uniformVoteWeight) : uniformVoteWeight :=
  mk_decider (quorum_reset (ident v) [Prepare; Commit]) (publicKeyProvider v).

Definition ResetViewChangeVotes (v : uniformVoteWeight) : uniformVoteWeight :=
  mk_decider (quorum_reset (ident v) [ViewChange]) (publicKeyProvider v).

(** [is_equal] is [IsEqual] of the BLS library. *)
Definition AmIMemberOfCommitee (is_equal : Z -> Z -> bool) (v : uniformVoteWeight) : bool :=
  match publicKeyProvider v with
  | None => false
  | Some identity =>
      existsb (fun key => existsb (fun other => is_equal (key_Object key) (key_Object other)) (Participants (ident v)))
        identity
  end.

(** ** The bit count *)

(** The number of set bits of a byte, by definition. *)
Definition popcount8 (b : Z) : Z :=
  foldr (fun i acc => Z.b2z (Z.testbit b (Z.of_nat i)) + acc) 0 (seq 0 8).

Lemma countOneBitsInByte_table :
  forallb (fun i => bool_decide (countOneBitsInByte (Z.of_nat i) = Some (popcount8 (Z.of_nat i)))) (seq 0 256) = true.
Proof. vm_compute. reflexivity. Qed.

Lemma countOneBitsInByte_spec b : is_byte b -> countOneBitsInByte b = Some (popcount8 b).
Proof.
  intros Hb. pose proof (proj1 (forallb_forall _ _) countOneBitsInByte_table (Z.to_nat b)) as Ht.
  unfold is_byte in Hb. rewrite bool_decide_eq_true, Z2Nat.id in Ht by lia. apply Ht, in_seq. lia.
Qed.

Lemma count_loop_spec arr c :
  Forall is_byte arr -> count_loop arr c = Some (c + foldr (fun b acc => popcount8 b + acc) 0 arr).
Proof.
  intros Hall. revert c. induction Hall as [|b arr Hb _ IH]; intros c; simpl; [f_equal; lia|].
  rewrite countOneBitsInByte_spec by done. simpl. rewrite IH. f_equal. lia.
Qed.

Lemma CountOneBits_spec arr :
  Forall is_byte arr -> CountOneBits (Some arr) = Some (foldr (fun b acc => popcount8 b + acc) 0 arr).
Proof. intros Hall. destruct arr as [|b arr]; [done|]. unfold CountOneBits. by rewrite count_loop_spec. Qed.

(** ** Ballot boxes *)

(** Every ballot is filed under each of its signers, once, and nowhere else. *)
Definition box_wf (box : BallotBox) : Prop :=
  forall k b, box !! k = Some b ->
    k ∈ SignerPubKeys b /\ NoDup (SignerPubKeys b) /\ forall k', k' ∈ SignerPubKeys b -> box !! k' = Some b.

Definition ident_wf (s : cIdentities) : Prop := forall p, box_wf (box_of s p).

Lemma check_keys_spec s p keys : forall seen,
  check_keys s p seen keys = None <->
  (NoDup keys /\ forall k, k ∈ keys -> (k ∉ seen) /\ (box_of s p !! k = None)).
Proof.
  induction keys as [|k keys IH]; intros seen; simpl.
  { split; [intros _; split; [constructor|by intros ? ?%elem_of_nil]|done]. }
  unfold ReadBallot. case_decide as Hd; [split; [done|intros [_ Hk]]|].
  { destruct (Hk k) as [? _]; [by left|done]. }
  destruct (box_of s p !! k) eqn:Hb; [split; [done|intros [_ Hk]]|].
  { destruct (Hk k) as [_ ?]; [by left|congruence]. }
  rewrite IH. split.
  - intros [Hnd Hk]. split; [constructor; [intros Hin|done]|].
    + destruct (Hk k Hin) as [Hn _]. set_solver.
    + intros k' [->|Hin]%elem_of_cons; [done|]. destruct (Hk k' Hin). split; [set_solver|done].
  - intros [[Hni Hnd]%NoDup_cons Hk]. split; [done|]. intros k' Hin. destruct (Hk k') as [Hs Hn]; [by right|].
    split; [|done]. intros [->%elem_of_singleton|?]%elem_of_union; done.
Qed.

(** The box after a ballot is recorded under [keys]. *)
Definition filed (box : BallotBox) (b : Ballot) (keys : list SerializedPublicKey) : BallotBox :=
  foldl (fun m k => <[k := b]> m) box keys.

Lemma filed_lookup b keys : forall box k,
  filed box b keys !! k = if decide (k ∈ keys) then Some b else box !! k.
Proof.
  induction keys as [|k0 keys IH]; intros box k; unfold filed in *; cbn [foldl].
  { case_decide as Hd; [by apply elem_of_nil in Hd|done]. }
  rewrite IH. case_decide as H1; case_decide as H2; try done.
  - exfalso. apply H2. by right.
  - apply elem_of_cons in H2 as [->|]; [|done]. by rewrite lookup_insert_eq.
  - rewrite lookup_insert_ne; [done|]. intros ->. apply H2. by left.
Qed.

Lemma filed_size b keys : forall box,
  NoDup keys -> (forall k, k ∈ keys -> box !! k = None) ->
  size (filed box b keys) = (size box + length keys)%nat.
Proof.
  induction keys as [|k keys IH]; intros box Hnd Hn; unfold filed in *; cbn [foldl length]; [lia|].
  apply NoDup_cons in Hnd as [Hni Hnd]. rewrite IH; [|done|].
  - rewrite map_size_insert_None; [lia|]. apply Hn. by left.
  - intros k' Hk'. rewrite lookup_insert_ne by (by intros ->). apply Hn. by right.
Qed.

Definition known_phase (p : Phase) : bool := match p with UnknownPhase _ => false | _ => true end.

Lemma set_box_spec s p b :
  known_phase p = true ->
  exists s', set_box s p b = Some s' /\ box_of s' p = b /\ publicKeys s' = publicKeys s /\
    forall q, q <> p -> box_of s' q = box_of s q.
Proof.
  intros Hp. destruct p; [..|done]; (eexists; split_and!; [done|done|done|]; intros q Hq; by destruct q).
Qed.

Lemma record_ballot_spec p b keys : forall s,
  known_phase p = true ->
  exists s', record_ballot s p b keys = (s', None) /\ box_of s' p = filed (box_of s p) b keys /\
    publicKeys s' = publicKeys s /\ forall q, q <> p -> box_of s' q = box_of s q.
Proof.
  induction keys as [|k keys IH]; intros s Hp; cbn [record_ballot]; [by exists s|].
  destruct (set_box_spec s p (<[k := b]> (box_of s p)) Hp) as (s1 & -> & Hb1 & Hk1 & Hq1).
  destruct (IH s1 Hp) as (s' & -> & Hb & Hk & Hq). exists s'. split_and!; [done| |congruence|].
  - rewrite Hb, Hb1. done.
  - intros q Hne. by rewrite Hq, Hq1.
Qed.

(** What [submitVote] does for a named phase: it refuses a repeated key or a key
    that has voted, and changes nothing; otherwise it files the ballot under every
    key. *)
Lemma submitVote_spec s p keys sig h height view :
  known_phase p = true ->
  (NoDup keys /\ (forall k, k ∈ keys -> box_of s p !! k = None) ->
   exists s', submitVote s p keys sig h height view = (s', inl (mk_ballot keys h sig height view)) /\
     box_of s' p = filed (box_of s p) (mk_ballot keys h sig height view) keys /\
     publicKeys s' = publicKeys s /\ forall q, q <> p -> box_of s' q = box_of s q) /\
  (~ (NoDup keys /\ forall k, k ∈ keys -> box_of s p !! k = None) ->
   exists e, submitVote s p keys sig h height view = (s, inr e)).
Proof.
  intros Hp. pose proof (check_keys_spec s p keys ∅) as Hc. unfold submitVote.
  destruct (check_keys s p ∅ keys) as [e|] eqn:E.
  - split; [|by exists e]. intros [Hnd Hn]. exfalso. assert (Hx : Some e = None); [|done].
    apply Hc. split; [done|]. intros k Hk. split; [apply not_elem_of_empty|auto].
  - destruct (proj1 Hc eq_refl) as [Hnd Hk]. split; [intros _|].
    + destruct (record_ballot_spec p (mk_ballot keys h sig height view) keys s Hp) as (s' & -> & ? & ? & ?). by exists s'.
    + intros Hn. exfalso. apply Hn. split; [done|]. intros k Hin. by apply Hk.
Qed.

Lemma filed_wf box b keys :
  box_wf box -> SignerPubKeys b = keys -> NoDup keys -> (forall k, k ∈ keys -> box !! k = None) ->
  box_wf (filed box b keys).
Proof.
  intros Hwf Hkeys Hnd Hfresh k b'. rewrite filed_lookup. case_decide as Hin.
  - intros [= <-]. rewrite Hkeys. split_and!; [done|done|]. intros k' Hk'. rewrite filed_lookup. by rewrite decide_True.
  - intros Hb. destruct (Hwf _ _ Hb) as (Hk & Hnd' & Hall). split_and!; [done|done|]. intros k' Hk'.
    rewrite filed_lookup. rewrite decide_False; [by apply Hall|]. intros Hin'.
    specialize (Hall k' Hk'). rewrite Hfresh in Hall; done.
Qed.

Lemma submitVote_wf s p keys sig h height view :
  ident_wf s -> ident_wf (fst (submitVote s p keys sig h height view)).
Proof.
  intros Hwf. destruct (known_phase p) eqn:Hp.
  - destruct (submitVote_spec s p keys sig h height view Hp) as [Hok Hbad].
    unfold submitVote in *. destruct (check_keys s p ∅ keys) as [e|] eqn:E; [done|].
    apply check_keys_spec in E as [Hnd Hk].
    destruct Hok as (s' & -> & Hb & _ & Hq); [split; [done|intros k Hin; by apply Hk]|]. simpl.
    intros q. destruct (decide (known_phase q = true)) as [_|Hu]; [|destruct q; [done..|by intros k b']].
    destruct (decide (q = p)) as [->|Hne]; [|by rewrite Hq].
    rewrite Hb. apply filed_wf; [done|done|done|]. intros k Hin. by apply Hk.
  - destruct p; [done..|]. unfold submitVote. destruct (check_keys _ _ _ _); [done|]. destruct keys; done.
Qed.

(** ** Aggregation *)

Section Aggregate.
Context `{!RangeOrder}.

(** The state of the loop: the chosen ballots are in the box, their signers are
    pairwise distinct and are the collected keys. *)
Definition agg_inv (box : BallotBox) (acc : list Ballot * gset SerializedPublicKey) : Prop :=
  NoDup (concat (SignerPubKeys <$> fst acc)) /\
  (forall k, k ∈ snd acc <-> k ∈ concat (SignerPubKeys <$> fst acc)) /\
  forall b, b ∈ fst acc -> exists k, box !! k = Some b.

Lemma elem_of_concat_keys k (bs : list Ballot) :
  k ∈ concat (SignerPubKeys <$> bs) <-> exists b, b ∈ bs /\ k ∈ SignerPubKeys b.
Proof.
  rewrite list_elem_of_In, in_concat. split.
  - intros (l & Hl & Hk). apply list_elem_of_In, list_elem_of_fmap in Hl as (b & -> & Hb).
    exists b. split; [done|by apply list_elem_of_In].
  - intros (b & Hb & Hk). exists (SignerPubKeys b). split; [|by apply list_elem_of_In].
    apply list_elem_of_In, list_elem_of_fmap. by exists b.
Qed.

Lemma aggregate_step_inv box acc b k0 :
  box_wf box -> box !! k0 = Some b -> agg_inv box acc ->
  agg_inv box (aggregate_step acc b) /\ snd acc ⊆ snd (aggregate_step acc b) /\
  forall k, k ∈ SignerPubKeys b -> k ∈ snd (aggregate_step acc b).
Proof.
  destruct acc as [chosen collected]. intros Hwf Hb (Hnd & Hcol & Hin). simpl in *.
  destruct (Hwf _ _ Hb) as (_ & Hndb & Hall). case_decide as Hex; simpl.
  - split; [by split|]. split; [done|]. apply Exists_exists in Hex as (k & Hk & Hkc).
    apply Hcol, elem_of_concat_keys in Hkc as (b' & Hb' & Hk'). destruct (Hin _ Hb') as (k1 & Hk1).
    destruct (Hwf _ _ Hk1) as (_ & _ & Hall'). pose proof (Hall _ Hk) as Heq. rewrite (Hall' _ Hk') in Heq.
    injection Heq as ->. intros k2 Hk2. apply Hcol, elem_of_concat_keys. eauto.
  - assert (Hfresh : forall k, k ∈ SignerPubKeys b -> k ∉ collected).
    { intros k Hk Hkc. apply Hex, Exists_exists. eauto. }
    split; [|split; [set_solver|intros k Hk; apply elem_of_union_r, elem_of_list_to_set, Hk]].
    rewrite <- Forall_forall in Hfresh. unfold agg_inv. simpl. rewrite fmap_app, concat_app. simpl. rewrite app_nil_r.
    rewrite Forall_forall in Hfresh. split_and!.
    + apply NoDup_app. split_and!; [done| |done]. intros k Hk Hk'. apply (Hfresh k Hk'). by apply Hcol.
    + intros k. rewrite elem_of_union, elem_of_app, elem_of_list_to_set, Hcol. done.
    + intros b' [Hb'|Hb']%elem_of_app; [by apply Hin|]. apply list_elem_of_singleton in Hb' as ->. eauto.
Qed.

Lemma aggregate_loop box bs : forall acc,
  box_wf box -> (forall b, b ∈ bs -> exists k, box !! k = Some b) -> agg_inv box acc ->
  let acc' := foldl aggregate_step acc bs in
  agg_inv box acc' /\ snd acc ⊆ snd acc' /\ forall b k, b ∈ bs -> k ∈ SignerPubKeys b -> k ∈ snd acc'.
Proof.
  induction bs as [|b bs IH]; intros acc Hwf Hbs Hinv; cbn [foldl].
  { split_and!; [done|done|]. by intros ? ? ?%elem_of_nil. }
  destruct (Hbs b) as (k0 & Hk0); [by left|].
  destruct (aggregate_step_inv box acc b k0 Hwf Hk0 Hinv) as (Hinv1 & Hsub1 & Hk1).
  destruct (IH _ Hwf (fun b' Hb' => Hbs b' (list_elem_of_further _ _ _ Hb')) Hinv1) as (Hinv2 & Hsub2 & Hk2).
  split_and!; [done|by etrans|]. intros b' k [->|Hb']%elem_of_cons Hk; [by apply Hsub2, Hk1|by eapply Hk2].
Qed.

(** The signers of the chosen ballots are the keys of the box, each once. *)
Lemma chosen_signers s p :
  ident_wf s ->
  concat (SignerPubKeys <$> chosen_ballots s p) ≡ₚ (map_to_list (box_of s p)).*1.
Proof.
  intros Hwf. specialize (Hwf p). unfold chosen_ballots, ReadAllBallots. set (box := box_of s p) in *.
  assert (Hran : forall b, b ∈ snd <$> map_range box <-> exists k, box !! k = Some b).
  { intros b. rewrite list_elem_of_fmap. split.
    - intros ([k b'] & -> & Hin). exists k. rewrite map_range_perm in Hin. by apply elem_of_map_to_list in Hin.
    - intros (k & Hk). exists (k, b). split; [done|]. rewrite map_range_perm. by apply elem_of_map_to_list. }
  destruct (aggregate_loop box (snd <$> map_range box) ([], ∅) Hwf) as ((Hnd & Hcol & Hin) & _ & Hall).
  { intros b Hb. by apply Hran. }
  { split_and!; simpl; [constructor| |by intros ? ?%elem_of_nil].
    intros k. split; [by intros ?%not_elem_of_empty|by intros ?%elem_of_nil]. }
  apply NoDup_Permutation; [done|apply NoDup_fst_map_to_list|]. intros k.
  rewrite <- Hcol, list_elem_of_fmap. split.
  - intros Hk. apply Hcol, elem_of_concat_keys in Hk as (b & Hb & Hk). destruct (Hin _ Hb) as (k1 & Hk1).
    destruct (Hwf _ _ Hk1) as (_ & _ & Hf). exists (k, b). split; [done|]. apply elem_of_map_to_list, Hf, Hk.
  - intros ([k' b] & -> & Hk). apply elem_of_map_to_list in Hk. apply (Hall b k'); [apply Hran; eauto|].
    by apply Hwf.
Qed.

End Aggregate.

(** ** Committees *)

Lemma index_fold_missing (l : list PublicKeyWrapper) : forall start acc k,
  k ∉ key_Bytes <$> l -> foldl index_step acc (zip (Z.of_nat <$> seq start (length l)) l) !! k = acc !! k.
Proof.
  induction l as [|w l IH]; intros start acc k Hk; [done|]. cbn [length seq fmap list_fmap zip zip_with foldl] in *.
  apply not_elem_of_cons in Hk as [Hne Hk]. rewrite IH by done. unfold index_step. simpl. by rewrite lookup_insert_ne.
Qed.

Lemma index_fold_position (l : list PublicKeyWrapper) : forall start acc i w,
  NoDup (key_Bytes <$> l) -> l !! i = Some w ->
  foldl index_step acc (zip (Z.of_nat <$> seq start (length l)) l) !! key_Bytes w = Some (Z.of_nat (start + i)).
Proof.
  induction l as [|w0 l IH]; intros start acc i w Hnd Hi; [done|].
  cbn [length seq fmap list_fmap zip zip_with foldl] in *. apply NoDup_cons in Hnd as [Hni Hnd].
  destruct i as [|i]; simpl in Hi.
  - injection Hi as ->. rewrite index_fold_missing by done. unfold index_step. simpl. rewrite lookup_insert_eq.
    do 2 f_equal. lia.
  - rewrite (IH (S start) _ i) by done. do 2 f_equal. lia.
Qed.

(** The index of a key is its position when the committee has no duplicates. *)
Lemma IndexOf_position s keys i w :
  NoDup (key_Bytes <$> keys) -> keys !! i = Some w ->
  IndexOf (UpdateParticipants s keys) (key_Bytes w) = Z.of_nat i.
Proof.
  intros Hnd Hi. unfold IndexOf, UpdateParticipants, index_keys. cbn [keyIndexMap].
  by rewrite (index_fold_position keys 0 ∅ i w Hnd Hi).
Qed.

Lemma IndexOf_missing s keys k :
  k ∉ key_Bytes <$> keys -> IndexOf (UpdateParticipants s keys) k = -1.
Proof.
  intros Hk. unfold IndexOf, UpdateParticipants, index_keys. cbn [keyIndexMap].
  by rewrite index_fold_missing, lookup_empty.
Qed.

(** The votes of a phase come from the committee. *)
Definition from_committee (s : cIdentities) (p : Phase) : Prop :=
  forall k, is_Some (box_of s p !! k) -> k ∈ key_Bytes <$> publicKeys s.

Lemma quorum_size s p :
  from_committee s p ->
  dom (box_of s p) ⊆ (list_to_set (key_Bytes <$> publicKeys s) : gset SerializedPublicKey) /\
  Z.of_nat (size (dom (box_of s p))) = SignersCount s p.
Proof.
  intros Hc. split; [|unfold SignersCount; by rewrite size_dom].
  intros k Hk. apply elem_of_dom in Hk. by apply elem_of_list_to_set, Hc.
Qed.

Lemma committee_size (l : list PublicKeyWrapper) :
  (size (list_to_set (key_Bytes <$> l) : gset SerializedPublicKey) <= length l)%nat.
Proof.
  induction l as [|w l IH]; [done|]. csimpl. rewrite size_union_alt, size_singleton.
  assert (size (list_to_set (key_Bytes <$> l) ∖ {[key_Bytes w]} : gset SerializedPublicKey)
          <= size (list_to_set (key_Bytes <$> l) : gset SerializedPublicKey))%nat by (apply subseteq_size; set_solver).
  lia.
Qed.

(** ** Claims *)


(** The calls that change a decider. *)
Inductive vote_call : Type :=
| CallVote (p : Phase) (keys : list PublicKeyWrapper) (sig : list Z) (headerHash height viewID : Z)
| CallUpdate (keys : list PublicKeyWrapper)
| CallResetVotes
| CallResetViewChange.

Definition vote_exec (v : uniformVoteWeight) (c : vote_call) : uniformVoteWeight :=
  match c with
  | CallVote p keys sig h height view => fst (AddNewVote v p keys sig h height view)
  | CallUpdate keys => mk_decider (UpdateParticipants (ident v) keys) (publicKeyProvider v)
  | CallResetVotes => ResetPrepareAndCommitVotes v
  | CallResetViewChange => ResetViewChangeVotes v
  end.

Lemma quorum_reset_wf s ps : ident_wf s -> ident_wf (quorum_reset s ps).
Proof.
  revert s. induction ps as [|p ps IH]; intros s Hwf; [done|]. apply IH. intros q.
  pose proof (Hwf Prepare). pose proof (Hwf Commit). pose proof (Hwf ViewChange). destruct p, q; done.
Qed.

Lemma vote_exec_wf v c : ident_wf (ident v) -> ident_wf (ident (vote_exec v c)).
Proof.
  intros Hwf. destruct c as [p keys sig h height view|keys| |]; simpl.
  - unfold AddNewVote. pose proof (submitVote_wf (ident v) p (key_Bytes <$> keys) sig h height view Hwf) as Hs.
    by destruct (submitVote _ _ _ _ _ _ _).
  - intros [| | |b]; [apply (Hwf Prepare)|apply (Hwf Commit)|apply (Hwf ViewChange)|apply (Hwf (UnknownPhase b))].
  - by apply (quorum_reset_wf (ident v) [Prepare; Commit]).
  - by apply (quorum_reset_wf (ident v) [ViewChange]).
Qed.

(** after any sequence of votes, resets and committee updates, the ballots
    whose signatures [AggregateVotes] combines are signed by exactly the keys that
    voted in the phase, each counted once, in whatever order the map is ranged
    over; so no multi-signature enters the aggregate twice. *)
Theorem aggregate_counts_each_signer_once `{!RangeOrder} {Sign} (aggregate : list (list Z) -> Sign) v0 calls p :
  NewDecider SuperMajorityVote = Some v0 ->
  let s := ident (foldl vote_exec v0 calls) in
  exists ballots, AggregateVotes aggregate s p = aggregate (Signature <$> ballots) /\
    concat (SignerPubKeys <$> ballots) ≡ₚ (map_to_list (box_of s p)).*1 /\
    SignersCount s p = Z.of_nat (length (concat (SignerPubKeys <$> ballots))).
Proof.
  intros [= <-] s. assert (Hwf : ident_wf s).
  { assert (Hgen : forall v, ident_wf (ident v) -> ident_wf (ident (foldl vote_exec v calls))).
    { induction calls as [|c calls IH]; intros v Hv; [done|]. apply IH. by apply vote_exec_wf. }
    apply Hgen. by intros []. }
  exists (chosen_ballots s p). split_and!; [done|by apply chosen_signers|].
  rewrite (Permutation_length (chosen_signers s p Hwf)), length_fmap. unfold SignersCount. by rewrite length_map_to_list.
Qed.

(** [AddNewVote] for a named phase either refuses the vote and changes nothing
    (a key repeated in the vote, or a key that already voted), or files one ballot
    under each key; other phases, other keys and the committee are untouched. *)
Theorem AddNewVote_all_or_nothing v p keys sig h height view :
  known_phase p = true ->
  let ks := key_Bytes <$> keys in
  let b := mk_ballot ks h sig height view in
  (exists e, AddNewVote v p keys sig h height view = (v, inr e) /\
     ~ (NoDup ks /\ forall k, k ∈ ks -> box_of (ident v) p !! k = None)) \/
  (exists v', AddNewVote v p keys sig h height view = (v', inl b) /\
     (NoDup ks /\ forall k, k ∈ ks -> box_of (ident v) p !! k = None) /\
     (forall k, box_of (ident v') p !! k = if decide (k ∈ ks) then Some b else box_of (ident v) p !! k) /\
     SignersCount (ident v') p = SignersCount (ident v) p + Z.of_nat (length keys) /\
     (forall q, q <> p -> box_of (ident v') q = box_of (ident v) q) /\
     Participants (ident v') = Participants (ident v)).
Proof.
  intros Hp ks b. destruct (submitVote_spec (ident v) p ks sig h height view Hp) as [Hok Hbad].
  unfold AddNewVote. fold ks. destruct (check_keys (ident v) p ∅ ks) as [e|] eqn:E.
  - left. exists e. unfold submitVote. rewrite E. split; [by destruct v|].
    intros Hn. assert (Hx : check_keys (ident v) p ∅ ks = None); [|congruence].
    apply check_keys_spec. split; [apply Hn|]. intros k Hk. split; [apply not_elem_of_empty|by apply Hn].
  - right. apply check_keys_spec in E as [Hnd Hk].
    assert (Hn : NoDup ks /\ forall k, k ∈ ks -> box_of (ident v) p !! k = None) by (split; [done|apply Hk]).
    destruct (Hok Hn) as (s' & -> & Hb & Hpk & Hq). eexists. split; [done|]. split; [done|]. simpl.
    split_and!; [intros k; by rewrite Hb, filed_lookup| |done|done].
    unfold SignersCount. rewrite Hb, filed_size by apply Hn. unfold ks. rewrite length_fmap. lia.
Qed.

(** for a member at position [i] of a committee without duplicates,
    [NthNext] is rotation by [next] when [i + next] is not negative; when it is
    negative and not a multiple of the committee size, Go's remainder is negative
    and the call panics, although [next] may be negative according to its comment. *)
Theorem NthNext_rotates s keys i w next :
  NoDup (key_Bytes <$> keys) -> keys !! i = Some w ->
  let n := Z.of_nat (length keys) in
  let s' := UpdateParticipants s keys in
  (0 <= Z.of_nat i + next ->
     exists w', keys !! Z.to_nat ((Z.of_nat i + next) mod n) = Some w' /\ NthNext s' w next = Some (true, w')) /\
  (Z.of_nat i + next < 0 -> (Z.of_nat i + next) mod n <> 0 -> NthNext s' w next = None).
Proof.
  intros Hnd Hi n s'. pose proof (lookup_lt_Some _ _ _ Hi) as Hlt.
  unfold NthNext, rotate, s'. rewrite (IndexOf_position s keys i w Hnd Hi). unfold ParticipantsCount.
  cbn [publicKeys UpdateParticipants]. fold n.
  rewrite (proj2 (Z.leb_gt n 0)), Z.gtb_ltb, Z.ltb_irrefl by (unfold n; lia). cbn [orb].
  rewrite (proj2 (Z.eqb_neq n 0)), (proj2 (Z.eqb_neq (Z.of_nat i) (-1))) by (unfold n; lia). cbn [negb]. split.
  - intros Hpos. rewrite Z.rem_mod_nonneg by (unfold n; lia).
    pose proof (Z.mod_pos_bound (Z.of_nat i + next) n ltac:(unfold n; lia)) as Hb.
    rewrite (proj2 (Z.ltb_ge _ 0)) by lia.
    destruct (lookup_lt_is_Some_2 keys (Z.to_nat ((Z.of_nat i + next) mod n))) as [w' Hw']; [unfold n in *; lia|].
    exists w'. by rewrite Hw'.
  - intros Hneg Hmod. rewrite (proj2 (Z.ltb_lt _ 0)); [done|].
    pose proof (Z.rem_nonpos (Z.of_nat i + next) n ltac:(unfold n; lia) ltac:(lia)) as Hr.
    destruct (Z.eq_dec (Z.rem (Z.of_nat i + next) n) 0) as [Hz|]; [|lia].
    exfalso. apply Hmod. apply Z.rem_divide in Hz; [|unfold n; lia]. by apply Z.mod_divide; [unfold n; lia|].
Qed.

(** the quorum test on a mask counts the set bits of its bitmap, by the nibble
    table, and compares with the same two-thirds threshold as the vote count. *)
Theorem mask_quorum_counts_bits v bitmap :
  Forall is_byte bitmap ->
  IsQuorumAchievedByMask v (Some (Some bitmap))
  = Some (bool_decide (2 * ParticipantsCount (ident v) < 3 * foldr (fun b acc => popcount8 b + acc) 0 bitmap)).
Proof.
  intros Hall. unfold IsQuorumAchievedByMask. rewrite CountOneBits_spec by done. cbn [mbind option_bind]. f_equal.
  set (c := foldr _ _ _). unfold TwoThirdsSignersCount, ParticipantsCount.
  set (n := Z.of_nat _). rewrite Z.quot_div_nonneg by lia.
  pose proof (Z.mod_pos_bound (n * 2) 3 ltac:(lia)). pose proof (Z.div_mod (n * 2) 3 ltac:(lia)).
  case_bool_decide; destruct (Z.ltb_spec c (n * 2 / 3 + 1)); simpl; try done; lia.
Qed.

(** ** Witnesses *)

Module QuorumToy.
#[local] Existing Instance canonical_order.

Definition keys : list PublicKeyWrapper := [mk_key 11 1; mk_key 12 2; mk_key 13 3; mk_key 14 4].
Definition decider0 : uniformVoteWeight := mk_decider newBallotsBackedSignatureReader None.
Definition calls : list vote_call :=
  [CallUpdate keys; CallVote Commit [mk_key 11 1; mk_key 12 2] [7] 9 1 1; CallVote Commit [mk_key 14 4] [8] 9 1 1].
Definition decider1 : uniformVoteWeight := foldl vote_exec decider0 calls.

Lemma decider1_committee : from_committee (ident decider1) Commit.
Proof.
  intros k Hk. apply elem_of_dom in Hk. change (dom (box_of (ident decider1) Commit)) with ({[11; 12; 14]} : gset Z) in Hk.
  rewrite !elem_of_union, !elem_of_singleton in Hk.
  change (key_Bytes <$> publicKeys (ident decider1)) with [11; 12; 13; 14]. rewrite !elem_of_cons. tauto.
Qed.


Lemma aggregate_counts_each_signer_once_witness :
  let s := ident decider1 in
  exists ballots, AggregateVotes (fun sigs => sigs) s Commit = Signature <$> ballots /\
    concat (SignerPubKeys <$> ballots) ≡ₚ (map_to_list (box_of s Commit)).*1 /\
    SignersCount s Commit = Z.of_nat (length (concat (SignerPubKeys <$> ballots))).
Proof. apply (aggregate_counts_each_signer_once (fun sigs => sigs) decider0 calls Commit). reflexivity. Defined.

Lemma AddNewVote_all_or_nothing_witness :
  exists e, AddNewVote decider1 Commit [mk_key 13 3; mk_key 12 2] [6] 9 1 1 = (decider1, inr e).
Proof.
  destruct (AddNewVote_all_or_nothing decider1 Commit [mk_key 13 3; mk_key 12 2] [6] 9 1 1 eq_refl) as [(e & He & _)|(v' & Hv & _)].
  - exists e. exact He.
  - vm_compute in Hv. discriminate Hv.
Defined.

Lemma NthNext_rotates_witness :
  NthNext (UpdateParticipants newBallotsBackedSignatureReader keys) (mk_key 12 2) (-2) = None.
Proof.
  apply (NthNext_rotates newBallotsBackedSignatureReader keys 1 (mk_key 12 2) (-2));
    [|reflexivity|lia|vm_compute; discriminate].
  change (key_Bytes <$> keys) with [11; 12; 13; 14]. apply (bool_decide_eq_true_1 _). vm_compute. reflexivity.
Defined.

Lemma mask_quorum_counts_bits_witness : IsQuorumAchievedByMask decider1 (Some (Some [11])) = Some true.
Proof.
  rewrite (mask_quorum_counts_bits decider1 [11]); [vm_compute; reflexivity|].
  repeat constructor; vm_compute; discriminate.
Defined.

End QuorumToy.
