(* ===== verification/VotePower.v ===== *)
(** * Voting power

    Models the roster computation of [consensus/votepower/roster.go].  The
    fixed-point decimals of the [numeric] package are a parameter: a type with its
    operations and, for the theorems, the laws of exact addition and subtraction.
    The percentages of the sharding schedule, the network and the epoch are
    arguments.  Shown: when [Compute] succeeds outside the recovery window the
    power it accounts for is exactly one and its error return is dead code; the
    voters of the roster hold all of it when their keys are distinct, and need not
    otherwise; [AggregateRosters] files each staked vote once, by shard. *)
From stdpp Require Import gmap list sorting.
From Stdlib Require Import ZArith Lia.
From S2P Require Import Prelude.

Local Open Scope Z_scope.

(** ** Decimals *)

Class Numeric : Type := {
  Dec : Type;
  ZeroDec : Dec;
  OneDec : Dec;
  NewDec : Z -> Dec;
  dec_Add : Dec -> Dec -> Dec;
  dec_Sub : Dec -> Dec -> Dec;
  dec_Mul : Dec -> Dec -> Dec;
  dec_Quo : Dec -> Dec -> option Dec;  (* None is the panic on zero *)
  dec_Equal : Dec -> Dec -> bool
}.

Class NumericLaws `{!Numeric} : Prop := {
  dec_add_comm : forall x y, dec_Add x y = dec_Add y x;
  dec_add_assoc : forall x y z, dec_Add x (dec_Add y z) = dec_Add (dec_Add x y) z;
  dec_add_zero : forall x, dec_Add ZeroDec x = x;
  dec_add_sub : forall x y, dec_Add y (dec_Sub x y) = x;
  dec_equal_iff : forall x y, dec_Equal x y = true <-> x = y;
  dec_quo_total : forall x y, y <> ZeroDec -> is_Some (dec_Quo x y);
  new_dec_nonzero : forall n, 0 < n -> NewDec n <> ZeroDec
}.

Section Roster.
Context `{!Numeric}.

(** ** Data *)

Record AccommodateHarmonyVote : Type := mk_vote {
  EarningAccount : Z;
  Identity : Z;
  GroupPercent : Dec;
  EffectiveStake : Dec;
  RawStake : Dec;
  IsHarmonyNode : bool;
  OverallPercent : Dec
}.

Record Roster : Type := mk_roster {
  Voters : gmap Z AccommodateHarmonyVote;
  OurVotingPowerTotalPercentage : Dec;
  TheirVotingPowerTotalPercentage : Dec;
  TotalEffectiveStake : Dec;
  HMYSlotCount : Z;
  roster_ShardID : Z
}.

Definition NewRoster (shardID : Z) : Roster := mk_roster ∅ ZeroDec ZeroDec ZeroDec 0 shardID.

(** A slot of [shard.Committee]; its stake is nil for the operator's own nodes. *)
Record Slot : Type := mk_slot {
  EcdsaAddress : Z;
  BLSPublicKey : Z;
  slot_EffectiveStake : option Dec
}.

Inductive roster_error : Type := ErrNilEpoch | ErrVotingPowerNotEqualOne.

(** ** Compute *)

(** The first loop. *)
Definition total_step (acc : Dec * Z) (sl : Slot) : Dec * Z :=
  match slot_EffectiveStake sl with
  | Some e => (dec_Add (fst acc) e, snd acc)
  | None => (fst acc, snd acc + 1)
  end.

(** The state of the second loop.  [last] is the pointer [lastStakedVoter]: the
    member and whether that very object is the one stored in the map. *)
Record loop_state : Type := mk_loop {
  voters : gmap Z AccommodateHarmonyVote;
  ours : Dec;
  theirs : Dec;
  last : option (AccommodateHarmonyVote * bool)
}.

Definition set_overall (v : AccommodateHarmonyVote) (d : Dec) : AccommodateHarmonyVote :=
  mk_vote (EarningAccount v) (Identity v) (GroupPercent v) (EffectiveStake v) (RawStake v) (IsHarmonyNode v) d.

Definition member_step (harmonyPercent externalPercent total hmyCount : Dec) (st : loop_state) (sl : Slot)
    : option loop_state :=
  let stored := bool_decide (voters st !! BLSPublicKey sl = None) in
  let store m := if stored then <[BLSPublicKey sl := m]> (voters st) else voters st in
  match slot_EffectiveStake sl with
  | Some e =>
      group ← dec_Quo e total;
      let overall := dec_Mul group externalPercent in
      let m := mk_vote (EcdsaAddress sl) (BLSPublicKey sl) group (dec_Add ZeroDec e) ZeroDec false overall in
      Some (mk_loop (store m) (ours st) (dec_Add (theirs st) overall) (Some (m, stored)))
  | None =>
      overall ← dec_Quo harmonyPercent hmyCount;
      group ← dec_Quo overall harmonyPercent;
      let m := mk_vote (EcdsaAddress sl) (BLSPublicKey sl) group ZeroDec ZeroDec true overall in
      Some (mk_loop (store m) (dec_Add (ours st) overall) (theirs st) (last st))
  end.

Fixpoint member_loop (hp ep total hmyCount : Dec) (st : loop_state) (slots : list Slot) : option loop_state :=
  match slots with
  | [] => Some st
  | sl :: rest => st' ← member_step hp ep total hmyCount st sl; member_loop hp ep total hmyCount st' rest
  end.

(** The difference to one is given to the last staked voter, through its pointer. *)
Definition enforce_one (st : loop_state) : loop_state :=
  let diff := dec_Sub OneDec (dec_Add (ours st) (theirs st)) in
  match last st with
  | Some (m, stored) =>
      if negb (dec_Equal diff ZeroDec) then
        let m' := set_overall m (dec_Add (OverallPercent m) diff) in
        mk_loop (if stored then <[Identity m := m']> (voters st) else voters st) (ours st) (dec_Add (theirs st) diff)
          (Some (m', stored))
      else st
  | None => st
  end.

(** The epochs of the recovery on the test network. *)
Definition recovery_window (testnet : bool) (epoch : Z) : bool := testnet && (73305 <=? epoch) && (epoch <=? 74330).

(** [None] is a panic (a division by zero).  [recovery] holds the percentages of
    the recovery window. *)
Definition Compute_roster (harmonyPercent externalPercent : Z -> Dec) (recovery : Dec * Dec) (testnet : bool)
    (shardID : Z) (slots : list Slot) (epoch : option Z) : option (Roster + roster_error) :=
  match epoch with
  | None => Some (inr ErrNilEpoch)
  | Some e =>
      let '(total, hmy) := foldl total_step (ZeroDec, 0) slots in
      let '(hp, ep) := if recovery_window testnet e then recovery else (harmonyPercent e, externalPercent e) in
      st ← member_loop hp ep total (NewDec hmy) (mk_loop ∅ ZeroDec ZeroDec None) slots;
      let st' := if recovery_window testnet e then st else enforce_one st in
      if negb (recovery_window testnet e) && bool_decide (is_Some (last st'))
         && negb (dec_Equal (dec_Add (ours st') (theirs st')) OneDec)
      then Some (inr ErrVotingPowerNotEqualOne)
      else Some (inl (mk_roster (voters st') (ours st') (theirs st') total hmy shardID))
  end.

(** ** AggregateRosters *)

Context `{!RangeOrder}.

Definition shard_le (r1 r2 : Roster) : Prop := roster_ShardID r1 <= roster_ShardID r2.
#[export] Instance shard_le_dec : RelDecision shard_le := fun r1 r2 => Z_le_dec (roster_ShardID r1) (roster_ShardID r2).

(** A [VoteOnSubcomittee] is a vote with its shard. *)
Definition vote_step (shard : Z) (acc : gmap Z (list (AccommodateHarmonyVote * Z))) (b : Z * AccommodateHarmonyVote)
    : gmap Z (list (AccommodateHarmonyVote * Z)) :=
  let v := snd b in
  if IsHarmonyNode v then acc
  else <[EarningAccount v := default [] (acc !! EarningAccount v) ++ [(v, shard)]]> acc.

Definition roster_step (acc : gmap Z (list (AccommodateHarmonyVote * Z))) (r : Roster)
    : gmap Z (list (AccommodateHarmonyVote * Z)) :=
  foldl (vote_step (roster_ShardID r)) acc (map_range (Voters r)).

(** [sort.SliceStable] is a stable merge sort. *)
Definition AggregateRosters (rosters : list Roster) : gmap Z (list (AccommodateHarmonyVote * Z)) :=
  foldl roster_step ∅ (merge_sort shard_le rosters).

End Roster.

(** ** The power of a roster *)

Section Power.
Context `{!Numeric} `{!NumericLaws}.

Definition power (m : gmap Z AccommodateHarmonyVote) : Dec :=
  map_fold (fun _ v acc => dec_Add (OverallPercent v) acc) ZeroDec m.

Lemma dec_add_swap x y z : dec_Add x (dec_Add y z) = dec_Add y (dec_Add x z).
Proof. by rewrite !dec_add_assoc, (dec_add_comm x y). Qed.

Lemma power_insert m k v : m !! k = None -> power (<[k := v]> m) = dec_Add (OverallPercent v) (power m).
Proof.
  intros Hk. unfold power. apply (map_fold_insert_L (fun _ v acc => dec_Add (OverallPercent v) acc)); [|done].
  intros. apply dec_add_swap.
Qed.

Lemma power_replace m k v d :
  m !! k = Some v ->
  power (<[k := set_overall v (dec_Add (OverallPercent v) d)]> m) = dec_Add (power m) d.
Proof.
  intros Hk. assert (Hm : power m = dec_Add (OverallPercent v) (power (delete k m))).
  { rewrite <- (power_insert _ k) by apply lookup_delete_eq. by rewrite insert_delete_id. }
  rewrite Hm, <- insert_delete_eq, power_insert by apply lookup_delete_eq. simpl.
  by rewrite <- !dec_add_assoc, (dec_add_comm d).
Qed.

(** While keys are distinct the map holds every member counted so far, and the
    pointer points into it. *)
Definition loop_inv (st : loop_state) : Prop :=
  power (voters st) = dec_Add (ours st) (theirs st) /\
  forall m b, last st = Some (m, b) -> b = true /\ voters st !! Identity m = Some m.

Lemma member_step_inv hp ep total hmy st sl st' :
  loop_inv st -> voters st !! BLSPublicKey sl = None -> member_step hp ep total hmy st sl = Some st' ->
  loop_inv st' /\ (forall k, k <> BLSPublicKey sl -> voters st' !! k = voters st !! k).
Proof.
  intros [Hp Hl] Hk. unfold member_step. rewrite bool_decide_true by done.
  destruct (slot_EffectiveStake sl) as [e|].
  - destruct (dec_Quo e total) as [g|]; simpl; [|done]. intros [= <-]. split; [split|].
    + simpl. rewrite power_insert, Hp by done. simpl. by rewrite dec_add_comm, <- dec_add_assoc.
    + simpl. intros m b [= <- <-]. split; [done|]. apply lookup_insert_eq.
    + intros k Hne. simpl. by rewrite lookup_insert_ne.
  - destruct (dec_Quo hp hmy) as [o|]; simpl; [|done]. destruct (dec_Quo o hp) as [g|]; simpl; [|done].
    intros [= <-]. split; [split|].
    + simpl. rewrite power_insert, Hp by done. simpl. by rewrite dec_add_assoc, (dec_add_comm o).
    + simpl. intros m b Hm. destruct (Hl m b Hm) as [-> Hm']. split; [done|].
      rewrite lookup_insert_ne; [done|]. intros Heq. rewrite <- Heq in Hm'. congruence.
    + intros k Hne. simpl. by rewrite lookup_insert_ne.
Qed.

Lemma member_loop_inv hp ep total hmy slots : forall st st',
  loop_inv st -> NoDup (BLSPublicKey <$> slots) -> (forall sl, sl ∈ slots -> voters st !! BLSPublicKey sl = None) ->
  member_loop hp ep total hmy st slots = Some st' -> loop_inv st'.
Proof.
  induction slots as [|sl slots IH]; intros st st' Hinv Hnd Hfresh; simpl; [by intros [= <-]|].
  destruct (member_step hp ep total hmy st sl) as [st1|] eqn:E; simpl; [|done].
  cbn [fmap list_fmap] in Hnd. apply NoDup_cons in Hnd as [Hni Hnd].
  destruct (member_step_inv _ _ _ _ _ _ _ Hinv (Hfresh sl (list_elem_of_here _ _)) E) as [Hinv1 Hk1].
  apply IH; [done|done|]. intros sl' Hsl'. rewrite Hk1; [by apply Hfresh; right|].
  intros Heq. apply Hni, list_elem_of_fmap. by exists sl'.
Qed.

(** Every staked slot sets the pointer. *)
Lemma member_loop_last hp ep total hmy slots : forall st st',
  (exists sl, sl ∈ slots /\ is_Some (slot_EffectiveStake sl)) \/ is_Some (last st) ->
  member_loop hp ep total hmy st slots = Some st' -> is_Some (last st').
Proof.
  induction slots as [|sl slots IH]; intros st st' Hex; simpl.
  { intros [= <-]. destruct Hex as [(sl & Hsl%elem_of_nil & _)|]; done. }
  destruct (member_step hp ep total hmy st sl) as [st1|] eqn:E; simpl; [|done]. apply IH.
  unfold member_step in E. destruct (slot_EffectiveStake sl) as [e|] eqn:Hs.
  - destruct (dec_Quo e total); simpl in E; [|done]. injection E as <-. right. simpl. eauto.
  - destruct (dec_Quo hp hmy) as [o|]; simpl in E; [|done]. destruct (dec_Quo o hp); simpl in E; [|done].
    injection E as <-. simpl. destruct Hex as [(sl' & [->|Hsl']%elem_of_cons & Hst)|Hl]; [|by left; eauto|by right].
    rewrite Hs in Hst. by apply is_Some_None in Hst.
Qed.

(** Without a zero divisor the loop returns. *)
Lemma member_loop_total hp ep total hmy slots : forall st,
  (forall x, is_Some (dec_Quo x total)) -> (forall x, is_Some (dec_Quo x hp)) ->
  ((exists sl, sl ∈ slots /\ slot_EffectiveStake sl = None) -> forall x, is_Some (dec_Quo x hmy)) ->
  is_Some (member_loop hp ep total hmy st slots).
Proof.
  induction slots as [|sl slots IH]; intros st Ht Hh Hm; simpl; [eauto|].
  assert (Hst : is_Some (member_step hp ep total hmy st sl)).
  { unfold member_step. destruct (slot_EffectiveStake sl) as [e|] eqn:Hs.
    - destruct (Ht e) as [g ->]. simpl. eauto.
    - destruct (Hm ltac:(exists sl; split; [by left|done]) hp) as [o ->]. simpl. destruct (Hh o) as [g ->]. simpl. eauto. }
  destruct Hst as [st1 ->]. simpl. apply IH; [done|done|]. intros (sl' & Hsl' & Hn). apply Hm. exists sl'. split; [by right|done].
Qed.

Lemma total_step_count slots : forall acc,
  snd acc <= snd (foldl total_step acc slots) /\
  ((exists sl, sl ∈ slots /\ slot_EffectiveStake sl = None) -> snd acc < snd (foldl total_step acc slots)).
Proof.
  induction slots as [|sl slots IH]; intros acc; cbn [foldl].
  { split; [lia|]. intros (sl & Hsl%elem_of_nil & _). done. }
  destruct (IH (total_step acc sl)) as [Hle Hlt]. unfold total_step in *.
  destruct (slot_EffectiveStake sl) as [e|] eqn:Hs; simpl in *; (split; [lia|]).
  - intros (sl' & [->|Hsl']%elem_of_cons & Hn); [congruence|eauto].
  - intros _. lia.
Qed.

Lemma enforce_one_spec st :
  is_Some (last st) ->
  dec_Add (ours (enforce_one st)) (theirs (enforce_one st)) = OneDec /\ is_Some (last (enforce_one st)) /\
  (loop_inv st -> power (voters (enforce_one st)) = OneDec).
Proof.
  intros [[m b] Hl]. unfold enforce_one. rewrite Hl.
  destruct (dec_Equal (dec_Sub OneDec (dec_Add (ours st) (theirs st))) ZeroDec) eqn:E; simpl.
  - apply dec_equal_iff in E. pose proof (dec_add_sub OneDec (dec_Add (ours st) (theirs st))) as Hs.
    rewrite E, dec_add_comm, dec_add_zero in Hs. split_and!; [done|by rewrite Hl|]. intros [-> _]. done.
  - rewrite dec_add_assoc, dec_add_sub. split_and!; [done|eauto|]. intros [Hp Hm].
    destruct (Hm m b Hl) as [-> Hm']. by rewrite power_replace, Hp, dec_add_sub.
Qed.

(** for a committee with a staked slot, outside the recovery window and with
    non-zero divisors, [Compute] succeeds: the power it accounts to the two groups
    is exactly one, whatever the rounding of the percentages, and when the keys of
    the slots are distinct the voters of the roster hold exactly that power.  Its
    error [ErrVotingPowerNotEqualOne] is never returned. *)
Theorem Compute_power_is_one hp ep recovery testnet shardID slots e :
  recovery_window testnet e = false ->
  (exists sl, sl ∈ slots /\ is_Some (slot_EffectiveStake sl)) ->
  (foldl total_step (ZeroDec, 0) slots).1 <> ZeroDec -> hp e <> ZeroDec ->
  exists r, Compute_roster hp ep recovery testnet shardID slots (Some e) = Some (inl r) /\
    dec_Add (OurVotingPowerTotalPercentage r) (TheirVotingPowerTotalPercentage r) = OneDec /\
    (NoDup (BLSPublicKey <$> slots) -> power (Voters r) = OneDec).
Proof.
  intros Hw Hex Htot Hhp. unfold Compute_roster. rewrite Hw.
  destruct (foldl total_step (ZeroDec, 0) slots) as [total hmy] eqn:Ef. simpl in Htot.
  destruct (member_loop_total (hp e) (ep e) total (NewDec hmy) slots (mk_loop ∅ ZeroDec ZeroDec None)) as [st Hst].
  { intros x. by apply dec_quo_total. } { intros x. by apply dec_quo_total. }
  { intros Hn x. apply dec_quo_total, new_dec_nonzero.
    destruct (total_step_count slots (ZeroDec, 0)) as [_ Hlt]. specialize (Hlt Hn). rewrite Ef in Hlt. done. }
  rewrite Hst. cbn [mbind option_bind].
  destruct (enforce_one_spec st) as (Hone & Hlast & Hpow); [by eapply member_loop_last; [left|]|].
  rewrite (proj2 (dec_equal_iff _ _) Hone), bool_decide_true by done. simpl. eexists. split_and!; [done|done|].
  intros Hnd. apply Hpow. eapply member_loop_inv; [|exact Hnd| |exact Hst]; [|intros; apply lookup_empty].
  split; [|done]. simpl. by rewrite dec_add_zero.
Qed.

End Power.

(** ** Aggregation *)

Section AggregateSpec.
Context `{!Numeric} `{!RangeOrder}.

(** The staked votes of account [a] among the bindings of a roster. *)
Definition votes_for (a shard : Z) (bs : list (Z * AccommodateHarmonyVote)) : list (AccommodateHarmonyVote * Z) :=
  (fun b => (b.2, shard)) <$>
    filter (fun b : Z * AccommodateHarmonyVote => IsHarmonyNode b.2 = false /\ EarningAccount b.2 = a) bs.

Lemma vote_fold_lookup shard bs a : forall acc,
  default [] (foldl (vote_step shard) acc bs !! a) = default [] (acc !! a) ++ votes_for a shard bs.
Proof.
  induction bs as [|[k v] bs IH]; intros acc; cbn [foldl]; [by rewrite app_nil_r|].
  rewrite IH. unfold votes_for, vote_step. rewrite filter_cons. simpl.
  destruct (IsHarmonyNode v) eqn:Hh.
  - rewrite decide_False by (intros [? _]; done). done.
  - destruct (decide (EarningAccount v = a)) as [<-|Hne].
    + rewrite decide_True by done. rewrite lookup_insert_eq. simpl. by rewrite <- app_assoc.
    + rewrite lookup_insert_ne by done. rewrite decide_False by (intros [_ ?]; done). done.
Qed.

Lemma roster_fold_lookup rs a : forall acc,
  default [] (foldl roster_step acc rs !! a)
  = default [] (acc !! a) ++ concat ((fun r => votes_for a (roster_ShardID r) (map_range (Voters r))) <$> rs).
Proof.
  induction rs as [|r rs IH]; intros acc; cbn [foldl fmap list_fmap concat]; [by rewrite app_nil_r|].
  rewrite IH. unfold roster_step. by rewrite vote_fold_lookup, <- app_assoc.
Qed.

Lemma votes_for_perm a sh bs bs' : bs ≡ₚ bs' -> votes_for a sh bs ≡ₚ votes_for a sh bs'.
Proof. intros Hp. unfold votes_for. by rewrite Hp. Qed.

Lemma concat_votes_perm a rs rs' :
  rs ≡ₚ rs' ->
  concat ((fun r => votes_for a (roster_ShardID r) (map_range (Voters r))) <$> rs)
  ≡ₚ concat ((fun r => votes_for a (roster_ShardID r) (map_to_list (Voters r))) <$> rs').
Proof.
  induction 1 as [|r l l' _ IH|r1 r2 l|l l' l'' _ IH1 _ IH2]; csimpl.
  - done.
  - rewrite IH. f_equiv. apply votes_for_perm, map_range_perm.
  - rewrite !app_assoc, (Permutation_app_comm (votes_for a (roster_ShardID r1) _)). f_equiv.
    + f_equiv; apply votes_for_perm, map_range_perm.
    + induction l as [|r l IH]; csimpl; [done|]. rewrite IH. f_equiv. apply votes_for_perm, map_range_perm.
  - etrans; [exact IH1|]. etrans; [|exact IH2]. clear. induction l' as [|r l IH]; csimpl; [done|].
    rewrite IH. f_equiv. apply votes_for_perm. symmetry. apply map_range_perm.
Qed.

Lemma concat_votes_sorted a rs :
  StronglySorted shard_le rs ->
  StronglySorted (fun x y => x.2 <= y.2)
    (concat ((fun r => votes_for a (roster_ShardID r) (map_range (Voters r))) <$> rs)).
Proof.
  assert (Hin : forall r x, x ∈ votes_for a (roster_ShardID r) (map_range (Voters r)) -> x.2 = roster_ShardID r).
  { intros r x. unfold votes_for. rewrite list_elem_of_fmap. by intros (? & -> & _). }
  induction 1 as [|r rs Hs IH Hle]; csimpl; [constructor|]. apply StronglySorted_app. split_and!; [|clear -Hin|done].
  - intros x y Hx Hy. rewrite (Hin _ _ Hx). rewrite list_elem_of_In, in_concat in Hy. destruct Hy as (l & Hl & Hy).
    apply list_elem_of_In, list_elem_of_fmap in Hl as (r' & -> & Hr'). apply list_elem_of_In in Hy.
    rewrite (Hin _ _ Hy). rewrite Forall_forall in Hle. by apply (Hle r').
  - assert (Hall : Forall (fun x => x.2 = roster_ShardID r) (votes_for a (roster_ShardID r) (map_range (Voters r)))).
    { apply Forall_forall. apply Hin. }
    revert Hall. generalize (votes_for a (roster_ShardID r) (map_range (Voters r))) as l.
    induction l as [|x l IH]; intros Hall; constructor; apply Forall_cons in Hall as [Hx Hall]; [by apply IH|].
    eapply Forall_impl; [exact Hall|]. simpl. intros y Hy. lia.
Qed.

(** [AggregateRosters] files, under each account, every staked vote of every
    roster exactly once with the shard of its roster, ordered by shard; the votes
    of the operator's own nodes are left out. *)
Theorem AggregateRosters_files_each_vote rs a :
  default [] (AggregateRosters rs !! a)
    ≡ₚ concat ((fun r => votes_for a (roster_ShardID r) (map_to_list (Voters r))) <$> rs) /\
  StronglySorted (fun x y => x.2 <= y.2) (default [] (AggregateRosters rs !! a)).
Proof.
  unfold AggregateRosters. rewrite roster_fold_lookup, lookup_empty. simpl. split.
  - apply concat_votes_perm, merge_sort_Permutation.
  - apply concat_votes_sorted, StronglySorted_merge_sort; intros ?; unfold shard_le; intros; lia.
Qed.

End AggregateSpec.

(** ** A concrete arithmetic *)

Module PowerToy.
Definition scale : Z := 10 ^ 18.

(** Decimals with eighteen places, rounding down. *)
Definition decimals : Numeric :=
  {| Dec := Z; ZeroDec := 0; OneDec := scale; NewDec := fun n => n * scale;
     dec_Add := Z.add; dec_Sub := Z.sub; dec_Mul := fun x y => x * y / scale;
     dec_Quo := fun x y => if y =? 0 then None else Some (x * scale / y);
     dec_Equal := Z.eqb |}.

Lemma decimals_laws : @NumericLaws decimals.
Proof.
  split; cbn; intros; [lia..|apply Z.eqb_eq| |unfold scale; lia].
  destruct (Z.eqb_spec y 0); [done|eauto].
Qed.

#[local] Existing Instances decimals decimals_laws.

Definition half : Dec := scale / 2.
Definition slots : list Slot := [mk_slot 1 101 (Some (NewDec 100)); mk_slot 2 102 None; mk_slot 3 103 (Some (NewDec 200))].

Lemma Compute_power_is_one_witness :
  exists r, Compute_roster (fun _ => half) (fun _ => half) (half, half) false 0 slots (Some 5) = Some (inl r) /\
    dec_Add (OurVotingPowerTotalPercentage r) (TheirVotingPowerTotalPercentage r) = OneDec /\
    (NoDup (BLSPublicKey <$> slots) -> power (Voters r) = OneDec).
Proof.
  apply (Compute_power_is_one (fun _ => half) (fun _ => half) (half, half) false 0 slots 5);
    [reflexivity| |vm_compute; discriminate|vm_compute; discriminate].
  exists (mk_slot 1 101 (Some (NewDec 100))). split; [by left|by eexists].
Defined.

Definition twins : list Slot := [mk_slot 1 101 (Some (NewDec 100)); mk_slot 2 101 (Some (NewDec 100))].
Definition twins_roster : Roster :=
  match Compute_roster (fun _ => half) (fun _ => scale : Dec) (half, half) false 0 twins (Some 5) with
  | Some (inl r) => r
  | _ => NewRoster 0
  end.

(** with two slots of the same key [Compute] succeeds and accounts for the
    whole power, but the voters of the roster hold only half of it: the second
    holder's share is in no entry. *)
Theorem duplicate_keys_lose_power :
  exists slots r, Compute_roster (fun _ => half) (fun _ => scale : Dec) (half, half) false 0 slots (Some 5) = Some (inl r) /\
    dec_Add (OurVotingPowerTotalPercentage r) (TheirVotingPowerTotalPercentage r) = OneDec /\
    power (Voters r) = half.
Proof.
  exists twins, twins_roster. split; [|split].
  - vm_cast_no_check (eq_refl (Some (inl twins_roster) : option (Roster + roster_error))).
  - vm_cast_no_check (eq_refl (OneDec : Dec)).
  - vm_cast_no_check (eq_refl half).
Qed.

End PowerToy.
