(* ===== verification/FbftLog.v ===== *)
(** * The log of the FBFT protocol

    Models [consensus/fbft_log.go]: the message and block store a node keeps
    while it runs the protocol, the identifier under which a message is filed,
    the queries, the pruning and the translation of a received request into a
    message.  Hashes and serialized keys are integers of 32 and 48 bytes; the
    block is represented by the values the consensus code reads from it.
    Shown: when two messages share an identifier, that the log always holds the
    latest message of each identifier, what the queries return, what pruning
    keeps, and that a search for a committed block finds one when there is one. *)
From stdpp Require Import gmap list sorting.
From Stdlib Require Import ZArith Lia.
From S2P Require Import Prelude Transaction Quorum.

Local Open Scope Z_scope.

(** ** Data *)

(** [api/proto/message]: the enumeration of message types. *)
Definition MessageType : Type := Z.
Definition MessageType_ANNOUNCE : MessageType := 0.
Definition MessageType_PREPARE : MessageType := 1.
Definition MessageType_PREPARED : MessageType := 2.
Definition MessageType_COMMIT : MessageType := 3.
Definition MessageType_COMMITTED : MessageType := 4.

(** What the consensus reads of a [*types.Block]: its header hash, number,
    parent hash, epoch, whether it closes its epoch, and the commit signature
    that [SetCurrentCommitSig] attaches to it. *)
Record Block : Type := mk_block {
  blk_Hash : Z;
  blk_NumberU64 : Z;
  blk_ParentHash : Z;
  blk_Epoch : Z;
  blk_IsLastBlockInEpoch : bool;
  commitSigAndBitmap : list Z
}.

Definition SetCurrentCommitSig (b : Block) (sigAndBitmap : list Z) : Block :=
  mk_block (blk_Hash b) (blk_NumberU64 b) (blk_ParentHash b) (blk_Epoch b) (blk_IsLastBlockInEpoch b) sigAndBitmap.

Definition GetCurrentCommitSig (b : Block) : list Z := commitSigAndBitmap b.

(** The view-change fields of the Go struct are never set. *)
Record FBFTMessage : Type := mk_msg {
  msg_Type : MessageType;
  msg_ViewID : Z;
  msg_BlockNum : Z;
  msg_BlockHash : Z;
  msg_Block : list Z;
  SenderPubkeys : list PublicKeyWrapper;
  SenderPubkeyBitmap : list Z;
  LeaderPubkey : option PublicKeyWrapper;
  msg_Payload : list Z;
  Verified : bool
}.

Definition set_Verified (m : FBFTMessage) (v : bool) : FBFTMessage :=
  mk_msg (msg_Type m) (msg_ViewID m) (msg_BlockNum m) (msg_BlockHash m) (msg_Block m) (SenderPubkeys m)
    (SenderPubkeyBitmap m) (LeaderPubkey m) (msg_Payload m) v.

Definition HasSingleSender (m : FBFTMessage) : bool := bool_decide (length (SenderPubkeys m) = 1%nat).

(** ** Message identifiers *)

Definition idTypeBytes : nat := 4.
Definition idViewIDBytes : nat := 8.
Definition idHashBytes : nat := 32.
Definition idSenderBytes : nat := 48.
Definition idBytes : nat := idTypeBytes + idViewIDBytes + idHashBytes + idSenderBytes.

(** The built-in [copy] moves as many bytes as fit. *)
Definition copy_into (dst : list Z) (off : nat) (src : list Z) : list Z :=
  go_copy dst off (take (length dst - off) src).

(** A message with a single sender has a first sender. *)
Definition sender_bytes (m : FBFTMessage) : list Z :=
  if HasSingleSender m
  then match SenderPubkeys m with k :: _ => be_bytes idSenderBytes (key_Bytes k) | [] => [] end
  else SenderPubkeyBitmap m.

Abbreviation fbftMsgID := (list Z).

Definition id (m : FBFTMessage) : fbftMsgID :=
  let id := replicate idBytes 0 in
  let id := copy_into id 0 (le_bytes idTypeBytes (msg_Type m)) in
  let id := copy_into id idTypeBytes (le_bytes idViewIDBytes (msg_ViewID m)) in
  let id := copy_into id (idTypeBytes + idViewIDBytes) (be_bytes idHashBytes (msg_BlockHash m)) in
  copy_into id (idTypeBytes + idViewIDBytes + idHashBytes) (sender_bytes m).

(** ** The log *)

Record FBFTLog : Type := mk_log {
  blocks : gmap Z Block;
  verifiedBlocks : gset Z;
  messages : gmap fbftMsgID FBFTMessage
}.

Definition NewFBFTLog : FBFTLog := mk_log ∅ ∅ ∅.

Definition AddBlock (log : FBFTLog) (b : Block) : FBFTLog :=
  mk_log (<[blk_Hash b := b]> (blocks log)) (verifiedBlocks log) (messages log).

Definition MarkBlockVerified (log : FBFTLog) (b : Block) : FBFTLog :=
  mk_log (blocks log) ({[blk_Hash b]} ∪ verifiedBlocks log) (messages log).

Definition IsBlockVerified (log : FBFTLog) (b : Block) : bool :=
  bool_decide (blk_Hash b ∈ verifiedBlocks log).

Definition GetBlockByHash (log : FBFTLog) (hash : Z) : option Block := blocks log !! hash.

Definition AddVerifiedMessage (log : FBFTLog) (m : FBFTMessage) : FBFTLog :=
  let m := set_Verified m true in
  mk_log (blocks log) (verifiedBlocks log) (<[id m := m]> (messages log)).

Definition AddNotVerifiedMessage (log : FBFTLog) (m : FBFTMessage) : FBFTLog :=
  let m := set_Verified m false in
  mk_log (blocks log) (verifiedBlocks log) (<[id m := m]> (messages log)).

Section Log.
Context {order : RangeOrder}.

Fixpoint blocks_loop (number : Z) (l : list (Z * Block)) (acc : list Block) : list Block :=
  match l with
  | [] => acc
  | (_, b) :: l' => blocks_loop number l' (if blk_NumberU64 b =? number then acc ++ [b] else acc)
  end.

Definition GetBlocksByNumber (log : FBFTLog) (number : Z) : list Block :=
  blocks_loop number (map_range (blocks log)) [].

Definition drop_block (doomed : Block -> bool) (log : FBFTLog) (hb : Z * Block) : FBFTLog :=
  if doomed (snd hb)
  then mk_log (delete (fst hb) (blocks log)) (verifiedBlocks log ∖ {[fst hb]}) (messages log)
  else log.

Definition DeleteBlocksLessThan (log : FBFTLog) (number : Z) : FBFTLog :=
  foldl (drop_block (fun b => blk_NumberU64 b <? number)) log (map_range (blocks log)).

Definition DeleteBlockByNumber (log : FBFTLog) (number : Z) : FBFTLog :=
  foldl (drop_block (fun b => blk_NumberU64 b =? number)) log (map_range (blocks log)).

Definition drop_message (number : Z) (log : FBFTLog) (hm : fbftMsgID * FBFTMessage) : FBFTLog :=
  if msg_BlockNum (snd hm) <? number
  then mk_log (blocks log) (verifiedBlocks log) (delete (fst hm) (messages log))
  else log.

Definition DeleteMessagesLessThan (log : FBFTLog) (number : Z) : FBFTLog :=
  foldl (drop_message number) log (map_range (messages log)).

(** [bn - 1] is a [uint64]. *)
Definition PruneCacheBeforeBlock (log : FBFTLog) (bn : Z) : FBFTLog :=
  DeleteMessagesLessThan (DeleteBlocksLessThan log (u64 (bn - 1))) (u64 (bn - 1)).

(** The loop the queries share: keep the messages that pass the test. *)
Fixpoint find_loop (keep : FBFTMessage -> bool) (l : list (fbftMsgID * FBFTMessage)) (found : list FBFTMessage)
    : list FBFTMessage :=
  match l with
  | [] => found
  | (_, m) :: l' => find_loop keep l' (if keep m then found ++ [m] else found)
  end.

Definition find_messages (log : FBFTLog) (keep : FBFTMessage -> bool) : list FBFTMessage :=
  find_loop keep (map_range (messages log)) [].

Definition GetNotVerifiedCommittedMessages (log : FBFTLog) (blockNum viewID blockHash : Z) : list FBFTMessage :=
  find_messages log (fun m => (msg_Type m =? MessageType_COMMITTED) && (msg_BlockNum m =? blockNum)
    && (msg_ViewID m =? viewID) && (msg_BlockHash m =? blockHash) && negb (Verified m)).

Definition GetMessagesByTypeSeqViewHash (log : FBFTLog) (typ : MessageType) (blockNum viewID blockHash : Z)
    : list FBFTMessage :=
  find_messages log (fun m => (msg_Type m =? typ) && (msg_BlockNum m =? blockNum) && (msg_ViewID m =? viewID)
    && (msg_BlockHash m =? blockHash) && Verified m).

Definition GetMessagesByTypeSeq (log : FBFTLog) (typ : MessageType) (blockNum : Z) : list FBFTMessage :=
  find_messages log (fun m => (msg_Type m =? typ) && (msg_BlockNum m =? blockNum) && Verified m).

Definition GetMessagesByTypeSeqHash (log : FBFTLog) (typ : MessageType) (blockNum blockHash : Z)
    : list FBFTMessage :=
  find_messages log (fun m => (msg_Type m =? typ) && (msg_BlockNum m =? blockNum) && (msg_BlockHash m =? blockHash)
    && Verified m).

Definition HasMatchingAnnounce (log : FBFTLog) (blockNum blockHash : Z) : bool :=
  (1 <=? length (GetMessagesByTypeSeqHash log MessageType_ANNOUNCE blockNum blockHash))%nat.

Definition HasMatchingViewAnnounce (log : FBFTLog) (blockNum viewID blockHash : Z) : bool :=
  (1 <=? length (GetMessagesByTypeSeqViewHash log MessageType_ANNOUNCE blockNum viewID blockHash))%nat.

Definition HasMatchingPrepared (log : FBFTLog) (blockNum blockHash : Z) : bool :=
  (1 <=? length (GetMessagesByTypeSeqHash log MessageType_PREPARED blockNum blockHash))%nat.

Definition HasMatchingViewPrepared (log : FBFTLog) (blockNum viewID blockHash : Z) : bool :=
  (1 <=? length (GetMessagesByTypeSeqViewHash log MessageType_PREPARED blockNum viewID blockHash))%nat.

(** [a || b || c && d] groups as [a || b || (c && d)]; the loop skips what
    passes this test. *)
Definition GetMessagesByTypeSeqView (log : FBFTLog) (typ : MessageType) (blockNum viewID : Z) : list FBFTMessage :=
  find_messages log (fun m => negb (negb (msg_Type m =? typ) || negb (msg_BlockNum m =? blockNum)
    || (negb (msg_ViewID m =? viewID) && Verified m))).

Fixpoint committed_loop (log : FBFTLog) (msgs : list FBFTMessage) : option (Block * FBFTMessage) :=
  match msgs with
  | [] => None
  | m :: msgs' =>
      match GetBlockByHash log (msg_BlockHash m) with
      | None => committed_loop log msgs'
      | Some b => Some (b, m)
      end
  end.

(** [None] is [errFBFTLogNotFound], the only error. *)
Definition GetCommittedBlockAndMsgsFromNumber (log : FBFTLog) (bn : Z) : option (Block * FBFTMessage) :=
  match GetMessagesByTypeSeq log MessageType_COMMITTED bn with
  | [] => None
  | msgs => committed_loop log msgs
  end.

End Log.

(** ** Parsing a request *)

(** [msg_pb.Message] with its [ConsensusRequest]. *)
Record ConsensusRequest : Type := mk_request {
  req_Type : MessageType;
  req_ViewId : Z;
  req_BlockNum : Z;
  req_ShardId : Z;
  req_BlockHash : list Z;
  req_Block : list Z;
  req_SenderPubkey : list Z;
  req_Payload : list Z;
  req_SenderPubkeyBitmap : list Z
}.

(** [BytesToBLSPublicKey] and [GetSignedPubKeysFromBitmap] are the BLS library's;
    [None] is their error.  The copy into the fixed-size arrays pads with zeros. *)
Definition ParseFBFTMessage (BytesToBLSPublicKey : list Z -> option Z)
    (GetSignedPubKeysFromBitmap : list Z -> option (list PublicKeyWrapper)) (req : ConsensusRequest)
    : option FBFTMessage :=
  let hash := be_int (copy_into (replicate idHashBytes 0) 0 (req_BlockHash req)) in
  let with_senders senders :=
    mk_msg (req_Type req) (req_ViewId req) (req_BlockNum req) hash (req_Block req) senders
      (req_SenderPubkeyBitmap req) None (req_Payload req) false in
  if negb (bool_decide (length (req_SenderPubkey req) = 0%nat)) then
    match BytesToBLSPublicKey (req_SenderPubkey req) with
    | None => None
    | Some pubKey =>
        let bytes := be_int (copy_into (replicate idSenderBytes 0) 0 (req_SenderPubkey req)) in
        Some (with_senders [mk_key bytes pubKey])
    end
  else
    match GetSignedPubKeysFromBitmap (req_SenderPubkeyBitmap req) with
    | None => None
    | Some pubKeys => Some (with_senders pubKeys)
    end.

(** ** Lemmas: identifiers *)

Lemma copy_into_zeros pre n src :
  copy_into (pre ++ replicate n 0) (length pre) src = (pre ++ take n src) ++ replicate (n - length src) 0.
Proof.
  unfold copy_into, go_copy. rewrite length_app, length_replicate, take_app_length, length_take.
  replace (length pre + n - length pre)%nat with n by lia.
  rewrite drop_app_ge by lia. rewrite drop_replicate, <- app_assoc.
  do 3 f_equal. lia.
Qed.

Lemma id_layout m :
  id m = le_bytes 4 (msg_Type m) ++ le_bytes 8 (msg_ViewID m) ++ be_bytes 32 (msg_BlockHash m)
         ++ take 48 (sender_bytes m) ++ replicate (48 - length (sender_bytes m)) 0.
Proof.
  unfold id. set (t := le_bytes idTypeBytes (msg_Type m)). set (v := le_bytes idViewIDBytes (msg_ViewID m)).
  set (h := be_bytes idHashBytes (msg_BlockHash m)).
  assert (Lt : length t = 4%nat) by apply length_le_bytes.
  assert (Lv : length v = 8%nat) by apply length_le_bytes.
  assert (Lh : length h = 32%nat) by apply length_be_bytes.
  assert (E1 : copy_into (replicate idBytes 0) 0 t = t ++ replicate 88 0).
  { pose proof (copy_into_zeros [] 92 t) as E. rewrite Lt, take_ge in E by lia. exact E. }
  assert (E2 : copy_into (t ++ replicate 88 0) idTypeBytes v = (t ++ v) ++ replicate 80 0).
  { pose proof (copy_into_zeros t 88 v) as E. rewrite Lt, Lv, take_ge in E by lia. exact E. }
  assert (E3 : copy_into ((t ++ v) ++ replicate 80 0) (idTypeBytes + idViewIDBytes) h
               = ((t ++ v) ++ h) ++ replicate 48 0).
  { pose proof (copy_into_zeros (t ++ v) 80 h) as E. rewrite length_app, Lt, Lv, Lh, take_ge in E by lia. exact E. }
  rewrite E1, E2, E3. pose proof (copy_into_zeros ((t ++ v) ++ h) 48 (sender_bytes m)) as E4.
  rewrite !length_app, Lt, Lv, Lh in E4. etransitivity; [exact E4|]. by rewrite <- !app_assoc.
Qed.

Lemma le_bytes_inj n x y :
  0 <= x < 256 ^ Z.of_nat n -> 0 <= y < 256 ^ Z.of_nat n -> le_bytes n x = le_bytes n y -> x = y.
Proof. intros Hx Hy H. apply (be_bytes_inj n); [done..|]. unfold be_bytes. by rewrite H. Qed.

(** The widths the Go types impose on a message. *)
Definition msg_widths (m : FBFTMessage) : Prop :=
  0 <= msg_Type m < 2 ^ 31 /\ is_u64 (msg_ViewID m) /\ 0 <= msg_BlockHash m < 2 ^ 256
  /\ Forall (fun k => 0 <= key_Bytes k < 2 ^ 384) (SenderPubkeys m).

Lemma id_inj_head m m' :
  msg_widths m -> msg_widths m' -> id m = id m' ->
  msg_Type m = msg_Type m' /\ msg_ViewID m = msg_ViewID m' /\ msg_BlockHash m = msg_BlockHash m'
  /\ take 48 (sender_bytes m) ++ replicate (48 - length (sender_bytes m)) 0
     = take 48 (sender_bytes m') ++ replicate (48 - length (sender_bytes m')) 0.
Proof.
  intros (Ht & Hv & Hh & _) (Ht' & Hv' & Hh' & _). unfold is_u64 in *. rewrite !id_layout. intros H.
  apply app_inj_1 in H as [E1 H]; [|by rewrite !length_le_bytes].
  apply app_inj_1 in H as [E2 H]; [|by rewrite !length_le_bytes].
  apply app_inj_1 in H as [E3 H]; [|by rewrite !length_be_bytes].
  split; [apply (le_bytes_inj 4); [lia..|done]|]. split; [apply (le_bytes_inj 8); [lia..|done]|].
  split; [apply (be_bytes_inj 32); [lia..|done]|done].
Qed.

Lemma single_sender m :
  HasSingleSender m = true ->
  exists k, SenderPubkeys m = [k] /\ sender_bytes m = be_bytes 48 (key_Bytes k).
Proof.
  intros H. unfold sender_bytes. rewrite H. apply bool_decide_eq_true in H.
  destruct (SenderPubkeys m) as [|k [|]]; try discriminate. by exists k.
Qed.

(** ** Lemmas: loops *)

Lemma find_loop_spec keep l : forall found,
  find_loop keep l found = found ++ filter (fun m => keep m = true) (snd <$> l).
Proof.
  induction l as [|[k m] l IH]; intros found; simpl; [by rewrite app_nil_r|].
  rewrite IH, filter_cons. destruct (keep m); case_decide; try congruence; [|done].
  by rewrite <- app_assoc.
Qed.

Lemma blocks_loop_spec number l : forall acc,
  blocks_loop number l acc = acc ++ filter (fun b => blk_NumberU64 b = number) (snd <$> l).
Proof.
  induction l as [|[k b] l IH]; intros acc; simpl; [by rewrite app_nil_r|].
  rewrite IH, filter_cons. destruct (Z.eqb_spec (blk_NumberU64 b) number); case_decide; try congruence; [|done].
  by rewrite <- app_assoc.
Qed.

Section LogLemmas.
Context {order : RangeOrder}.

Lemma elem_of_map_range `{Countable K} {V} (m : gmap K V) k v : (k, v) ∈ map_range m <-> m !! k = Some v.
Proof. rewrite (map_range_perm m). apply elem_of_map_to_list. Qed.

Lemma elem_of_find log keep m :
  m ∈ find_messages log keep <-> keep m = true /\ exists i, messages log !! i = Some m.
Proof.
  unfold find_messages. rewrite find_loop_spec, app_nil_l, list_elem_of_filter, list_elem_of_fmap.
  apply and_iff_compat_l. split.
  - intros ([i m'] & -> & Hin). exists i. by apply elem_of_map_range.
  - intros [i Hi]. exists (i, m). by rewrite elem_of_map_range.
Qed.

(** Deleting the visited bindings in any order filters the map. *)
Lemma drop_message_loop n l : forall log,
  (forall k m, (k, m) ∈ l -> messages log !! k = Some m \/ messages log !! k = None) ->
  let log' := foldl (drop_message n) log l in
  blocks log' = blocks log /\ verifiedBlocks log' = verifiedBlocks log /\
  forall k m, messages log' !! k = Some m <->
    messages log !! k = Some m /\ ~ ((k, m) ∈ l /\ msg_BlockNum m < n).
Proof.
  induction l as [|[k0 m0] l IH]; intros log Hl; simpl.
  - split_and!; [done..|]. intros k m. rewrite elem_of_nil. tauto.
  - set (log1 := drop_message n log (k0, m0)).
    assert (H1 : blocks log1 = blocks log /\ verifiedBlocks log1 = verifiedBlocks log).
    { unfold log1, drop_message. by case_match. }
    assert (H2 : forall k m, messages log1 !! k = Some m <->
      messages log !! k = Some m /\ ~ (k = k0 /\ msg_BlockNum m0 < n)).
    { intros k m. unfold log1, drop_message. simpl. destruct (Z.ltb_spec (msg_BlockNum m0) n); simpl.
      - rewrite lookup_delete_Some. naive_solver.
      - split; [intros H3|tauto]. split; [done|lia]. }
    destruct (IH log1) as (E1 & E2 & E3).
    { intros k m Hin. destruct (messages log1 !! k) as [m'|] eqn:E; [|by right]. left.
      apply H2 in E as [E _]. destruct (Hl k m); [by apply list_elem_of_further|congruence..]. }
    destruct H1 as [-> ->] in E1, E2. split_and!; [done..|]. intros k m. rewrite E3, H2, elem_of_cons.
    split.
    + intros ((Hk & Hn) & Hnl). split; [done|]. intros [[[= -> ->]|Hin] Hlt]; [tauto|tauto].
    + intros (Hk & Hn). split_and!; [done| |tauto]. intros [-> Hlt]. apply Hn.
      destruct (Hl k0 m0) as [E|E]; [apply list_elem_of_here| |congruence].
      rewrite Hk in E. injection E as ->. split; [by left|done].
Qed.

Lemma drop_block_loop doomed l : forall log,
  (forall k b, (k, b) ∈ l -> blocks log !! k = Some b \/ blocks log !! k = None) ->
  let log' := foldl (drop_block doomed) log l in
  messages log' = messages log /\
  (forall k b, blocks log' !! k = Some b <-> blocks log !! k = Some b /\ ~ ((k, b) ∈ l /\ doomed b = true)) /\
  (forall k, k ∈ verifiedBlocks log' <->
     k ∈ verifiedBlocks log /\ ~ exists b, (k, b) ∈ l /\ doomed b = true).
Proof.
  induction l as [|[k0 b0] l IH]; intros log Hl; simpl.
  - split_and!; [done|intros k b|intros k]; setoid_rewrite elem_of_nil; [tauto|]. naive_solver.
  - set (log1 := drop_block doomed log (k0, b0)).
    assert (H1 : messages log1 = messages log) by (unfold log1, drop_block; by case_match).
    assert (H2 : forall k b, blocks log1 !! k = Some b <->
      blocks log !! k = Some b /\ ~ (k = k0 /\ doomed b0 = true)).
    { intros k b. unfold log1, drop_block. simpl. destruct (doomed b0); simpl.
      - rewrite lookup_delete_Some. naive_solver.
      - split; [intros H3|tauto]. split; [done|]. intros [_ [=]]. }
    assert (H3 : forall k, k ∈ verifiedBlocks log1 <-> k ∈ verifiedBlocks log /\ ~ (k = k0 /\ doomed b0 = true)).
    { intros k. unfold log1, drop_block. simpl. destruct (doomed b0); simpl; [set_solver|].
      split; [intros H3|tauto]. split; [done|]. intros [_ [=]]. }
    destruct (IH log1) as (E1 & E2 & E3).
    { intros k b Hin. destruct (blocks log1 !! k) as [b'|] eqn:E; [|by right]. left.
      apply H2 in E as [E _]. destruct (Hl k b); [by apply list_elem_of_further|congruence..]. }
    split_and!; [congruence| |].
    + intros k b. rewrite E2, H2, elem_of_cons. split.
      * intros ((Hk & Hn) & Hnl). split; [done|]. intros [[[= -> ->]|Hin] Hlt]; tauto.
      * intros (Hk & Hn). split_and!; [done| |tauto]. intros [-> Hlt]. apply Hn.
        destruct (Hl k0 b0) as [E|E]; [apply list_elem_of_here| |congruence].
        rewrite Hk in E. injection E as ->. split; [by left|done].
    + intros k. rewrite E3, H3. split.
      * intros ((Hk & Hn) & Hnl). split; [done|]. intros (b & Hin & Hd).
        apply elem_of_cons in Hin as [[= -> ->]|Hin]; [tauto|]. apply Hnl. by exists b.
      * intros (Hk & Hn). split_and!; [done| |].
        -- intros [-> Hd]. apply Hn. exists b0. split; [apply list_elem_of_here|done].
        -- intros (b & Hin & Hd). apply Hn. exists b. split; [by apply list_elem_of_further|done].
Qed.

Lemma DeleteMessagesLessThan_spec log n :
  let log' := DeleteMessagesLessThan log n in
  blocks log' = blocks log /\ verifiedBlocks log' = verifiedBlocks log /\
  forall k m, messages log' !! k = Some m <-> messages log !! k = Some m /\ n <= msg_BlockNum m.
Proof.
  destruct (drop_message_loop n (map_range (messages log)) log) as (H1 & H2 & H3).
  { intros k m Hin. left. by apply elem_of_map_range. }
  simpl. unfold DeleteMessagesLessThan. split_and!; [done..|]. intros k m. rewrite H3, elem_of_map_range.
  split; [intros [Hk Hn]|intros [Hk Hn]]; (split; [done|]); [|lia].
  destruct (Z.le_gt_cases n (msg_BlockNum m)); [done|]. tauto.
Qed.

Lemma delete_blocks_spec doomed log :
  let log' := foldl (drop_block doomed) log (map_range (blocks log)) in
  messages log' = messages log /\
  (forall k b, blocks log' !! k = Some b <-> blocks log !! k = Some b /\ doomed b = false) /\
  (forall k, k ∈ verifiedBlocks log' <->
     k ∈ verifiedBlocks log /\ forall b, blocks log !! k = Some b -> doomed b = false).
Proof.
  destruct (drop_block_loop doomed (map_range (blocks log)) log) as (H1 & H2 & H3).
  { intros k b Hin. left. by apply elem_of_map_range. }
  simpl. split_and!; [done| |].
  - intros k b. rewrite H2, elem_of_map_range. destruct (doomed b); [|naive_solver]. naive_solver.
  - intros k. rewrite H3. setoid_rewrite elem_of_map_range. split; intros [Hk Hn]; (split; [done|]).
    + intros b Hb. destruct (doomed b) eqn:E; [|done]. destruct Hn. by exists b.
    + intros (b & Hb & Hd). rewrite (Hn b Hb) in Hd. done.
Qed.

End LogLemmas.

(** ** The log against a list of messages *)

Inductive log_op : Type :=
| OpAddBlock (b : Block)
| OpMarkVerified (b : Block)
| OpAddVerified (m : FBFTMessage)
| OpAddNotVerified (m : FBFTMessage)
| OpDeleteBlocks (n : Z)
| OpDeleteBlock (n : Z)
| OpDeleteMessages (n : Z)
| OpPrune (bn : Z).

Definition log_exec {order : RangeOrder} (log : FBFTLog) (op : log_op) : FBFTLog :=
  match op with
  | OpAddBlock b => AddBlock log b
  | OpMarkVerified b => MarkBlockVerified log b
  | OpAddVerified m => AddVerifiedMessage log m
  | OpAddNotVerified m => AddNotVerifiedMessage log m
  | OpDeleteBlocks n => DeleteBlocksLessThan log n
  | OpDeleteBlock n => DeleteBlockByNumber log n
  | OpDeleteMessages n => DeleteMessagesLessThan log n
  | OpPrune bn => PruneCacheBeforeBlock log bn
  end.

(** The specification keeps the messages newest first and only the newest one
    of each identifier; deleting forgets a message for good. *)
Definition supersede (m : FBFTMessage) (l : list FBFTMessage) : list FBFTMessage :=
  m :: filter (fun m' => id m' <> id m) l.

Definition forget_before (n : Z) (l : list FBFTMessage) : list FBFTMessage :=
  filter (fun m => n <= msg_BlockNum m) l.

Definition spec_exec (l : list FBFTMessage) (op : log_op) : list FBFTMessage :=
  match op with
  | OpAddVerified m => supersede (set_Verified m true) l
  | OpAddNotVerified m => supersede (set_Verified m false) l
  | OpDeleteMessages n => forget_before n l
  | OpPrune bn => forget_before (u64 (bn - 1)) l
  | _ => l
  end.

Section LogSpec.
Context {order : RangeOrder}.

Definition log_rel (log : FBFTLog) (l : list FBFTMessage) : Prop :=
  NoDup (id <$> l) /\ forall i m, messages log !! i = Some m <-> m ∈ l /\ id m = i.

Lemma NoDup_fmap_filter {A B} (f : A -> B) (P : A -> Prop) `{HP : !forall x, Decision (P x)} l :
  NoDup (f <$> l) -> NoDup (f <$> filter P l).
Proof. intros H. eapply sublist_NoDup; [exact H|apply fmap_sublist, sublist_filter]. Qed.

Lemma log_rel_supersede log l m :
  log_rel log l -> log_rel (mk_log (blocks log) (verifiedBlocks log) (<[id m := m]> (messages log))) (supersede m l).
Proof.
  intros [Hnd Hl]. split.
  - unfold supersede. rewrite fmap_cons. apply NoDup_cons. split; [|by apply NoDup_fmap_filter].
    rewrite list_elem_of_fmap. intros (m' & E & Hin). apply list_elem_of_filter in Hin as [? _]. congruence.
  - intros i m'. simpl. unfold supersede. rewrite lookup_insert_Some, Hl, elem_of_cons, list_elem_of_filter.
    split; [intros [[<- ->]|(Hne & Hin & <-)]; [tauto|]|].
    + split; [right|done]. split; [congruence|done].
    + intros [[->|[Hne Hin]] <-]; [by left|right; split_and!; [congruence|done..]].
Qed.

Lemma log_rel_forget log log' l n :
  (forall k m, messages log' !! k = Some m <-> messages log !! k = Some m /\ n <= msg_BlockNum m) ->
  log_rel log l -> log_rel log' (forget_before n l).
Proof.
  intros Hm [Hnd Hl]. split; [by apply NoDup_fmap_filter|]. intros i m. unfold forget_before.
  rewrite Hm, Hl, list_elem_of_filter. tauto.
Qed.

Lemma log_rel_same log log' l : messages log' = messages log -> log_rel log l -> log_rel log' l.
Proof. unfold log_rel. by intros ->. Qed.

Lemma PruneCacheBeforeBlock_spec log bn :
  let n := u64 (bn - 1) in
  let log' := PruneCacheBeforeBlock log bn in
  (forall k m, messages log' !! k = Some m <-> messages log !! k = Some m /\ n <= msg_BlockNum m) /\
  (forall k b, blocks log' !! k = Some b <-> blocks log !! k = Some b /\ n <= blk_NumberU64 b) /\
  (forall k, k ∈ verifiedBlocks log' <->
     k ∈ verifiedBlocks log /\ forall b, blocks log !! k = Some b -> n <= blk_NumberU64 b).
Proof.
  set (n := u64 (bn - 1)). simpl. unfold PruneCacheBeforeBlock. fold n.
  destruct (delete_blocks_spec (fun b => blk_NumberU64 b <? n) log) as (H1 & H2 & H3).
  destruct (DeleteMessagesLessThan_spec (DeleteBlocksLessThan log n) n) as (E1 & E2 & E3).
  split_and!.
  - intros k m. rewrite E3. unfold DeleteBlocksLessThan at 1. by rewrite H1.
  - intros k b. rewrite E1. unfold DeleteBlocksLessThan. by rewrite H2, Z.ltb_ge.
  - intros k. rewrite E2. unfold DeleteBlocksLessThan. rewrite H3. by setoid_rewrite Z.ltb_ge.
Qed.

Lemma log_exec_rel log l op : log_rel log l -> log_rel (log_exec log op) (spec_exec l op).
Proof.
  intros H. destruct op; simpl.
  - by apply (log_rel_same log).
  - by apply (log_rel_same log).
  - by apply (log_rel_supersede log l).
  - by apply (log_rel_supersede log l).
  - apply (log_rel_same log); [|done]. apply (delete_blocks_spec (fun b => blk_NumberU64 b <? n) log).
  - apply (log_rel_same log); [|done]. apply (delete_blocks_spec (fun b => blk_NumberU64 b =? n) log).
  - apply (log_rel_forget log); [|done]. apply DeleteMessagesLessThan_spec.
  - apply (log_rel_forget log); [|done]. apply PruneCacheBeforeBlock_spec.
Qed.

Lemma log_run_rel ops : forall log l,
  log_rel log l -> log_rel (foldl log_exec log ops) (foldl spec_exec l ops).
Proof. induction ops as [|op ops IH]; intros log l H; simpl; [done|]. by apply IH, log_exec_rel. Qed.

Lemma log_rel_new : log_rel NewFBFTLog [].
Proof. split; [constructor|]. intros i m. simpl. rewrite lookup_empty, elem_of_nil. naive_solver. Qed.

Lemma log_rel_range log l : log_rel log l -> (map_range (messages log)).*2 ≡ₚ l.
Proof.
  intros [Hnd Hl]. rewrite (map_range_perm (messages log)).
  assert (Hk : id <$> (map_to_list (messages log)).*2 = (map_to_list (messages log)).*1).
  { rewrite <- list_fmap_compose. apply list_fmap_ext. intros j [i m] Hj. simpl.
    apply list_elem_of_lookup_2, elem_of_map_to_list, Hl in Hj. tauto. }
  apply NoDup_Permutation.
  - apply (NoDup_fmap_1 id). rewrite Hk. apply NoDup_fst_map_to_list.
  - by apply (NoDup_fmap_1 id).
  - intros m. rewrite list_elem_of_fmap. split.
    + intros ([i m'] & -> & Hin). apply elem_of_map_to_list, Hl in Hin. tauto.
    + intros Hin. exists (id m, m). split; [done|]. by apply elem_of_map_to_list, Hl.
Qed.

Lemma find_messages_spec log l keep (P : FBFTMessage -> Prop) `{dec : !forall m, Decision (P m)} :
  (forall m, keep m = true <-> P m) -> log_rel log l -> find_messages log keep ≡ₚ filter P l.
Proof.
  intros HP H. unfold find_messages. rewrite find_loop_spec, app_nil_l, (log_rel_range log l H).
  erewrite list_filter_iff; [done|]. exact HP.
Qed.

End LogSpec.

(** ** Properties *)

(** The identifier of a message with one sender identifies exactly its type,
    view, block hash and sender: two such messages get the same identifier if
    and only if these four agree, whatever their block numbers and payloads. *)
Theorem fbft_id_identifies m m' k k' :
  msg_widths m -> msg_widths m' -> SenderPubkeys m = [k] -> SenderPubkeys m' = [k'] ->
  length (id m) = 92%nat /\
  (id m = id m' <-> msg_Type m = msg_Type m' /\ msg_ViewID m = msg_ViewID m'
                    /\ msg_BlockHash m = msg_BlockHash m' /\ key_Bytes k = key_Bytes k').
Proof.
  intros Hw Hw' Hk Hk'.
  assert (S1 : sender_bytes m = be_bytes 48 (key_Bytes k))
    by (unfold sender_bytes, HasSingleSender; by rewrite Hk).
  assert (S2 : sender_bytes m' = be_bytes 48 (key_Bytes k'))
    by (unfold sender_bytes, HasSingleSender; by rewrite Hk').
  split; [|split].
  - rewrite id_layout, S1, !length_app, length_take, !length_le_bytes, !length_be_bytes, length_replicate. lia.
  - intros H. destruct (id_inj_head m m' Hw Hw' H) as (? & ? & ? & Hs). split_and!; [done..|].
    rewrite S1, S2, !length_be_bytes, !app_nil_r, !take_ge in Hs by (rewrite length_be_bytes; lia).
    destruct Hw as (_ & _ & _ & Hw), Hw' as (_ & _ & _ & Hw'). rewrite Hk, Forall_singleton in Hw.
    rewrite Hk', Forall_singleton in Hw'. apply (be_bytes_inj 48); [lia..|done].
  - intros (E1 & E2 & E3 & E4). by rewrite !id_layout, S1, S2, E1, E2, E3, E4.
Qed.

(** After any sequence of insertions, deletions and prunings, every query of
    the log returns, each exactly once and in some order, the messages of its
    type, number, view and hash among those that are the latest of their
    identifier and have not been deleted; the verified queries return only
    verified messages, the other one only unverified ones. *)
Theorem log_queries_return_latest {order : RangeOrder} ops typ num view hash :
  let log := foldl log_exec NewFBFTLog ops in
  let latest := foldl spec_exec [] ops in
  GetMessagesByTypeSeq log typ num
    ≡ₚ filter (fun m => msg_Type m = typ /\ msg_BlockNum m = num /\ Verified m = true) latest /\
  GetMessagesByTypeSeqHash log typ num hash
    ≡ₚ filter (fun m => msg_Type m = typ /\ msg_BlockNum m = num /\ msg_BlockHash m = hash /\ Verified m = true) latest /\
  GetMessagesByTypeSeqViewHash log typ num view hash
    ≡ₚ filter (fun m => msg_Type m = typ /\ msg_BlockNum m = num /\ msg_ViewID m = view
                        /\ msg_BlockHash m = hash /\ Verified m = true) latest /\
  GetNotVerifiedCommittedMessages log num view hash
    ≡ₚ filter (fun m => msg_Type m = MessageType_COMMITTED /\ msg_BlockNum m = num /\ msg_ViewID m = view
                        /\ msg_BlockHash m = hash /\ Verified m = false) latest.
Proof.
  pose proof (log_run_rel ops _ _ log_rel_new) as H. simpl.
  split_and!; (apply find_messages_spec; [|exact H]); intros m;
    rewrite !andb_true_iff, !Z.eqb_eq, ?negb_true_iff; tauto.
Qed.

(** Pruning before block [bn] keeps exactly the blocks, the verification marks
    and the messages of number [bn - 1] and above; before block 0 the
    subtraction wraps around and everything below the largest number goes. *)
Theorem prune_keeps_recent {order : RangeOrder} log bn :
  is_u64 bn ->
  let floor := if bn =? 0 then 2 ^ 64 - 1 else bn - 1 in
  let log' := PruneCacheBeforeBlock log bn in
  (forall k m, messages log' !! k = Some m <-> messages log !! k = Some m /\ floor <= msg_BlockNum m) /\
  (forall k b, blocks log' !! k = Some b <-> blocks log !! k = Some b /\ floor <= blk_NumberU64 b) /\
  (forall k, k ∈ verifiedBlocks log' <->
     k ∈ verifiedBlocks log /\ forall b, blocks log !! k = Some b -> floor <= blk_NumberU64 b).
Proof.
  intros Hbn floor. replace floor with (u64 (bn - 1)); [apply PruneCacheBeforeBlock_spec|].
  unfold floor, u64, is_u64 in *. destruct (Z.eqb_spec bn 0) as [->|]; [done|]. apply Z.mod_small. lia.
Qed.

(** The query by view also returns unverified messages of every other view. *)
Theorem seqview_query_ignores_view_of_unverified {order : RangeOrder} log m i view :
  messages log !! i = Some m -> Verified m = false ->
  m ∈ GetMessagesByTypeSeqView log (msg_Type m) (msg_BlockNum m) view.
Proof.
  intros Hm Hv. apply elem_of_find. split; [|by exists i].
  by rewrite !Z.eqb_refl, Hv, andb_false_r.
Qed.

(** The search for a committed block succeeds exactly when some verified
    COMMITTED message of that number has its block in the log. *)
Lemma committed_loop_spec log msgs :
  match committed_loop log msgs with
  | Some (b, m) => m ∈ msgs /\ blocks log !! msg_BlockHash m = Some b
  | None => forall m, m ∈ msgs -> blocks log !! msg_BlockHash m = None
  end.
Proof.
  induction msgs as [|m msgs IH]; simpl; [intros m []%elem_of_nil|].
  unfold GetBlockByHash. destruct (blocks log !! msg_BlockHash m) as [b|] eqn:E.
  - split; [apply list_elem_of_here|done].
  - destruct (committed_loop log msgs) as [[b m']|].
    + destruct IH. split; [by apply list_elem_of_further|done].
    + intros m' [->|Hin]%elem_of_cons; [done|auto].
Qed.

Lemma GetCommittedBlockAndMsgs_spec {order : RangeOrder} log bn :
  match GetCommittedBlockAndMsgsFromNumber log bn with
  | Some (b, m) => (exists i, messages log !! i = Some m) /\ msg_Type m = MessageType_COMMITTED
      /\ msg_BlockNum m = bn /\ Verified m = true /\ blocks log !! msg_BlockHash m = Some b
  | None => forall i m, messages log !! i = Some m -> msg_Type m = MessageType_COMMITTED ->
      msg_BlockNum m = bn -> Verified m = true -> blocks log !! msg_BlockHash m = None
  end.
Proof.
  unfold GetCommittedBlockAndMsgsFromNumber.
  set (msgs := GetMessagesByTypeSeq log MessageType_COMMITTED bn).
  assert (Hin : forall m, m ∈ msgs <-> ((msg_Type m = MessageType_COMMITTED /\ msg_BlockNum m = bn) /\ Verified m = true)
    /\ exists i, messages log !! i = Some m).
  { intros m. unfold msgs, GetMessagesByTypeSeq. by rewrite elem_of_find, !andb_true_iff, !Z.eqb_eq. }
  pose proof (committed_loop_spec log msgs) as H. destruct msgs as [|m0 msgs'] eqn:E.
  - intros i m Hi Ht Hn Hv. assert (m ∈ @nil FBFTMessage) as []%elem_of_nil. apply Hin. eauto.
  - destruct (committed_loop log (m0 :: msgs')) as [[b m]|].
    + destruct H as [Hm Hb]. apply Hin in Hm. tauto.
    + intros i m Hi Ht Hn Hv. apply H, Hin. eauto.
Qed.

(** ** Witnesses *)

Module LogToy.

Definition key1 : PublicKeyWrapper := mk_key 11 1.
Definition key2 : PublicKeyWrapper := mk_key 12 2.
Definition msg1 : FBFTMessage := mk_msg MessageType_COMMITTED 3 7 100 [] [key1] [] None [1; 2] false.
Definition msg2 : FBFTMessage := mk_msg MessageType_COMMITTED 3 8 100 [] [key2] [] None [] false.

Lemma msg_widths_toy k : 0 <= key_Bytes k < 2 ^ 384 ->
  forall n p, msg_widths (mk_msg MessageType_COMMITTED 3 n 100 [] [k] [] None p false).
Proof. intros H n p. unfold msg_widths, is_u64. simpl. split_and!; try lia; [done..|by constructor]. Qed.

Lemma fbft_id_identifies_witness :
  length (id msg1) = 92%nat /\
  (id msg1 = id msg2 <-> msg_Type msg1 = msg_Type msg2 /\ msg_ViewID msg1 = msg_ViewID msg2
     /\ msg_BlockHash msg1 = msg_BlockHash msg2 /\ key_Bytes key1 = key_Bytes key2).
Proof.
  apply (fbft_id_identifies msg1 msg2 key1 key2 (msg_widths_toy key1 ltac:(simpl; lia) 7 [1; 2])
    (msg_widths_toy key2 ltac:(simpl; lia) 8 [])); reflexivity.
Defined.

Lemma prune_keeps_recent_witness :
  let log := AddVerifiedMessage NewFBFTLog msg1 in
  forall k m, messages (@PruneCacheBeforeBlock canonical_order log 8) !! k = Some m <->
    messages log !! k = Some m /\ 7 <= msg_BlockNum m.
Proof.
  intros log. apply (@prune_keeps_recent canonical_order log 8). unfold is_u64. lia.
Defined.

End LogToy.
