(* ===== verification/MsgSender.v ===== *)
(** * Timers and the message sender

    Models [internal/utils/timer.go] and [consensus/consensus_msg_sender.go].  A
    [MessageRetry] is shared between the map of retries and the goroutine that
    re-sends it, so the sender keeps the retries in a heap and the map holds
    positions of it.  A goroutine of [Retry] is a retry that is [running]; one
    passage of its loop, after the sleep, is [Retry_wakeup].  Messages handed to
    the host are collected in [sent]; the groups are those of the shard and are
    left out.  Shown: a message is re-sent a bounded number of times, the retry
    loop ends, at most one retry per message type is active, and nothing old is
    re-sent after a reset. *)
From stdpp Require Import gmap list.
From Stdlib Require Import ZArith Lia.
From S2P Require Import Prelude FbftLog.

Local Open Scope Z_scope.

(** ** Timeout (internal/utils/timer.go)

    Times and durations are nanoseconds; [now] is the reading of the clock. *)

Inductive TimeoutState : Type := Active | Inactive | Expired.

#[export] Instance TimeoutState_eq_dec : EqDecision TimeoutState.
Proof. solve_decision. Defined.

Record Timeout : Type := mk_timeout { to_state : TimeoutState; to_d : Z; to_start : Z }.

Definition NewTimeout (now d : Z) : Timeout := mk_timeout Inactive d now.

Definition Timeout_Start (now : Z) (t : Timeout) : Timeout := mk_timeout Active (to_d t) now.

Definition Timeout_Stop (now : Z) (t : Timeout) : Timeout := mk_timeout Inactive (to_d t) now.

Definition CheckExpire (now : Z) (t : Timeout) : Timeout * bool :=
  let t := if bool_decide (to_state t = Active) && (now - to_start t >? to_d t)
           then mk_timeout Expired (to_d t) (to_start t) else t in
  (t, bool_decide (to_state t = Expired)).

Definition Duration (t : Timeout) : Z := to_d t.

Definition SetDuration (nd : Z) (t : Timeout) : Timeout := mk_timeout (to_state t) nd (to_start t).

Definition IsActive (t : Timeout) : bool := bool_decide (to_state t = Active).

Definition viewChangeTimeout : Z := 27.
Definition second : Z := 1000000000.
Definition phaseDuration : Z := viewChangeTimeout * second.
Definition bootstrapDuration : Z := 120 * second.

(** ** MessageSender *)

Definition RetryIntervalInSec : Z := 7.

Record MessageRetry : Type := mk_retry {
  rt_blockNum : Z;
  rt_p2pMsg : list Z;
  rt_msgType : MessageType;
  retryCount : Z;
  isActive : bool;
  running : bool
}.

Record MessageSender : Type := mk_sender {
  ms_blockNum : Z;
  messagesToRetry : gmap MessageType nat;
  retries : list MessageRetry;
  retryTimes : Z;
  sent : list (list Z)
}.

Definition NewMessageSender : MessageSender :=
  mk_sender 0 ∅ [] (Z.quot (phaseDuration / second) RetryIntervalInSec) [].

Definition deactivate (r : MessageRetry) : MessageRetry :=
  mk_retry (rt_blockNum r) (rt_p2pMsg r) (rt_msgType r) (retryCount r) false (running r).

Definition set_retries (s : MessageSender) (rs : list MessageRetry) : MessageSender :=
  mk_sender (ms_blockNum s) (messagesToRetry s) rs (retryTimes s) (sent s).

Definition StopRetry (s : MessageSender) (msgType : MessageType) : MessageSender :=
  match messagesToRetry s !! msgType with
  | Some p => set_retries s (alter deactivate p (retries s))
  | None => s
  end.

(** The callback of [Range] runs on every binding of the map. *)
Definition stop_unless_committed (rs : list MessageRetry) (kp : MessageType * nat) : list MessageRetry :=
  match rs !! snd kp with
  | Some r => if negb (rt_msgType r =? MessageType_COMMITTED) then alter deactivate (snd kp) rs else rs
  | None => rs
  end.

Definition StopAllRetriesExceptCommitted `{!RangeOrder} (s : MessageSender) : MessageSender :=
  set_retries s (foldl stop_unless_committed (retries s) (map_range (messagesToRetry s))).

Definition forget_unless_committed (rs : list MessageRetry) (m : gmap MessageType nat) (kp : MessageType * nat)
    : gmap MessageType nat :=
  match rs !! snd kp with
  | Some r => if negb (rt_msgType r =? MessageType_COMMITTED) then delete (fst kp) m else m
  | None => m
  end.

Definition Reset `{!RangeOrder} (s : MessageSender) (blockNum : Z) : MessageSender :=
  let s := mk_sender blockNum (messagesToRetry s) (retries s) (retryTimes s) (sent s) in
  let s := StopAllRetriesExceptCommitted s in
  mk_sender (ms_blockNum s)
    (foldl (forget_unless_committed (retries s)) (messagesToRetry s) (map_range (messagesToRetry s)))
    (retries s) (retryTimes s) (sent s).

(** [host.SendMessageToGroups]: the message leaves. *)
Definition SendWithoutRetry (s : MessageSender) (p2pMsg : list Z) : MessageSender :=
  mk_sender (ms_blockNum s) (messagesToRetry s) (retries s) (retryTimes s) (sent s ++ [p2pMsg]).

(** Starts the goroutine of [Retry] unless retrying is switched off. *)
Definition DelayedSendWithRetry (s : MessageSender) (blockNum : Z) (msgType : MessageType) (p2pMsg : list Z)
    : MessageSender :=
  if negb (retryTimes s =? 0) then
    let msgRetry := mk_retry blockNum p2pMsg msgType 0 true true in
    let s := StopRetry s msgType in
    mk_sender (ms_blockNum s) (<[msgType := length (retries s)]> (messagesToRetry s)) (retries s ++ [msgRetry])
      (retryTimes s) (sent s)
  else s.

Definition SendWithRetry (s : MessageSender) (blockNum : Z) (msgType : MessageType) (p2pMsg : list Z)
    : MessageSender :=
  SendWithoutRetry (DelayedSendWithRetry s blockNum msgType p2pMsg) p2pMsg.

Definition set_running (r : MessageRetry) (b : bool) : MessageRetry :=
  mk_retry (rt_blockNum r) (rt_p2pMsg r) (rt_msgType r) (retryCount r) (isActive r) b.

(** One passage of the loop of [Retry]; returning ends the goroutine. *)
Definition Retry_wakeup (s : MessageSender) (p : nat) : MessageSender :=
  match retries s !! p with
  | None => s
  | Some r =>
      if negb (running r) then s
      else
        let return_ := set_retries s (<[p := set_running r false]> (retries s)) in
        if retryCount r >=? retryTimes s then return_
        else if negb (isActive r) then return_
        else if negb (rt_msgType r =? MessageType_COMMITTED) && (rt_blockNum r <? ms_blockNum s) then return_
        else
          let r' := mk_retry (rt_blockNum r) (rt_p2pMsg r) (rt_msgType r) (retryCount r + 1) (isActive r) true in
          SendWithoutRetry (set_retries s (<[p := r']> (retries s))) (rt_p2pMsg r)
  end.

(** ** Runs of the sender *)

Inductive sender_op : Type :=
| SReset (blockNum : Z)
| SSendWithRetry (blockNum : Z) (msgType : MessageType) (p2pMsg : list Z)
| SDelayedSend (blockNum : Z) (msgType : MessageType) (p2pMsg : list Z)
| SSend (p2pMsg : list Z)
| SStopRetry (msgType : MessageType)
| SStopAll
| SWakeup (p : nat).

Definition sender_exec `{!RangeOrder} (s : MessageSender) (op : sender_op) : MessageSender :=
  match op with
  | SReset bn => Reset s bn
  | SSendWithRetry bn t m => SendWithRetry s bn t m
  | SDelayedSend bn t m => DelayedSendWithRetry s bn t m
  | SSend m => SendWithoutRetry s m
  | SStopRetry t => StopRetry s t
  | SStopAll => StopAllRetriesExceptCommitted s
  | SWakeup p => Retry_wakeup s p
  end.

(** How many messages the caller asked to send at once, and to send later. *)
Definition sends_now (op : sender_op) : nat :=
  match op with SSendWithRetry _ _ _ | SSend _ => 1 | _ => 0 end.

Definition sends_retried (op : sender_op) : nat :=
  match op with SSendWithRetry _ _ _ | SDelayedSend _ _ _ => 1 | _ => 0 end.

Fixpoint total (f : sender_op -> nat) (ops : list sender_op) : nat :=
  match ops with [] => 0 | op :: ops' => f op + total f ops' end.

Definition wakes (p : nat) (op : sender_op) : nat :=
  match op with SWakeup q => if decide (p = q) then 1 else 0 | _ => 0 end.

(** ** Invariant *)

Definition count_sum (rs : list MessageRetry) : Z := foldr (fun r acc => retryCount r + acc) 0 rs.

Record sender_ok (s : MessageSender) : Prop := {
  ok_times : retryTimes s = 3;
  ok_count : forall p r, retries s !! p = Some r -> 0 <= retryCount r <= 3;
  ok_active : forall p r, retries s !! p = Some r -> isActive r = true ->
    messagesToRetry s !! rt_msgType r = Some p;
  ok_type : forall t p, messagesToRetry s !! t = Some p ->
    exists r, retries s !! p = Some r /\ rt_msgType r = t
}.

Lemma count_sum_app l1 l2 : count_sum (l1 ++ l2) = count_sum l1 + count_sum l2.
Proof. induction l1 as [|r l IH]; simpl; lia. Qed.

Lemma count_sum_insert rs p r r' :
  rs !! p = Some r -> count_sum (<[p := r']> rs) = count_sum rs - retryCount r + retryCount r'.
Proof.
  revert p. induction rs as [|x rs IH]; intros [|p] H; simpl in *; try discriminate.
  - injection H as ->. lia.
  - rewrite (IH p H). lia.
Qed.

(** A list of retries in which some have been deactivated. *)
Definition quieter (rs rs' : list MessageRetry) : Prop :=
  Forall2 (fun r r' => r' = r \/ r' = deactivate r) rs rs'.

Lemma quieter_refl rs : quieter rs rs.
Proof. apply Forall_Forall2_diag, Forall_true. auto. Qed.

Lemma quieter_alter rs rs' p : quieter rs rs' -> quieter rs (alter deactivate p rs').
Proof.
  intros H. apply Forall2_same_length_lookup. apply Forall2_same_length_lookup in H as [Hl H].
  split; [by rewrite length_alter|]. intros i r r' Hr Hr'.
  destruct (decide (i = p)) as [->|Hne].
  - rewrite list_lookup_alter_eq in Hr'. destruct (rs' !! p) as [r0|] eqn:E; [|discriminate].
    injection Hr' as <-. destruct (H p r r0 Hr E) as [->| ->]; by right.
  - rewrite list_lookup_alter_ne in Hr' by done. eauto.
Qed.

Lemma quieter_lookup rs rs' p r' :
  quieter rs rs' -> rs' !! p = Some r' -> exists r, rs !! p = Some r /\ (r' = r \/ r' = deactivate r).
Proof. intros H Hr. apply (Forall2_lookup_r _ _ _ _ _ H) in Hr as (r & ? & ?). eauto. Qed.

Lemma quieter_lookup_l rs rs' p r :
  quieter rs rs' -> rs !! p = Some r -> exists r', rs' !! p = Some r' /\ (r' = r \/ r' = deactivate r).
Proof. intros H Hr. apply (Forall2_lookup_l _ _ _ _ _ H) in Hr as (r' & ? & ?). eauto. Qed.

Lemma quieter_sum rs rs' : quieter rs rs' -> count_sum rs' = count_sum rs.
Proof. induction 1 as [|r r' rs rs' [->| ->] _ IH]; simpl; [done|lia|lia]. Qed.

Lemma quieter_ok s rs : sender_ok s -> quieter (retries s) rs -> sender_ok (set_retries s rs).
Proof.
  intros [Ht Hc Ha Hm] Hq. split; simpl; [done|..].
  - intros p r' Hr. destruct (quieter_lookup _ _ _ _ Hq Hr) as (r & Hr0 & [->| ->]); apply (Hc p r Hr0).
  - intros p r' Hr Hact. destruct (quieter_lookup _ _ _ _ Hq Hr) as (r & Hr0 & [->| ->]); [eauto|discriminate].
  - intros t p Hp. destruct (Hm t p Hp) as (r & Hr & <-).
    destruct (quieter_lookup_l _ _ _ _ Hq Hr) as (r' & Hr' & [->| ->]); eauto.
Qed.

Lemma StopRetry_quieter s t : exists rs, StopRetry s t = set_retries s rs /\ quieter (retries s) rs.
Proof.
  unfold StopRetry. destruct (messagesToRetry s !! t) as [p|].
  - eexists. split; [done|]. apply quieter_alter, quieter_refl.
  - exists (retries s). split; [by destruct s|apply quieter_refl].
Qed.

Lemma stop_loop_quieter l : forall rs rs', quieter rs rs' -> quieter rs (foldl stop_unless_committed rs' l).
Proof.
  induction l as [|kp l IH]; intros rs rs' H; simpl; [done|]. apply IH.
  unfold stop_unless_committed. destruct (rs' !! kp.2); [|done]. case_match; [by apply quieter_alter|done].
Qed.

(** After the loop, every retry the map points to is inactive unless COMMITTED. *)
Lemma stop_loop_stops l : forall rs k p r,
  (k, p) ∈ l -> foldl stop_unless_committed rs l !! p = Some r -> rt_msgType r <> MessageType_COMMITTED ->
  isActive r = false.
Proof.
  induction l as [|[k0 p0] l IH]; intros rs k p r Hin Hr Ht; simpl in *; [by apply elem_of_nil in Hin|].
  apply elem_of_cons in Hin as [[= <- <-]|Hin]; [|by eapply IH].
  pose proof (stop_loop_quieter l _ _ (quieter_refl (stop_unless_committed rs (k, p)))) as Hq.
  destruct (quieter_lookup _ _ _ _ Hq Hr) as (r0 & Hr0 & Hcase).
  assert (isActive r0 = false) as Hr0a.
  { unfold stop_unless_committed in Hr0. simpl in Hr0. destruct (rs !! p) as [r1|] eqn:E1.
    - destruct (Z.eqb_spec (rt_msgType r1) MessageType_COMMITTED) as [Hc|Hc]; simpl in Hr0.
      + destruct Ht. rewrite E1 in Hr0. injection Hr0 as <-. destruct Hcase as [->| ->]; done.
      + rewrite list_lookup_alter_eq, E1 in Hr0. injection Hr0 as <-. done.
    - congruence. }
  destruct Hcase as [->| ->]; [done|done].
Qed.

Lemma forget_loop rs l : forall m t p,
  foldl (forget_unless_committed rs) m l !! t = Some p <->
  m !! t = Some p /\ ~ exists q r, (t, q) ∈ l /\ rs !! q = Some r /\ rt_msgType r <> MessageType_COMMITTED.
Proof.
  induction l as [|[k0 p0] l IH]; intros m t p; simpl.
  - setoid_rewrite elem_of_nil. naive_solver.
  - rewrite IH. unfold forget_unless_committed. simpl.
    assert (Hstep : (match rs !! p0 with
        | Some r => if negb (rt_msgType r =? MessageType_COMMITTED) then delete k0 m else m
        | None => m end) !! t = Some p <->
      m !! t = Some p /\ ~ (t = k0 /\ exists r, rs !! p0 = Some r /\ rt_msgType r <> MessageType_COMMITTED)).
    { destruct (rs !! p0) as [r|] eqn:E; [|naive_solver].
      destruct (Z.eqb_spec (rt_msgType r) MessageType_COMMITTED); simpl; [naive_solver|].
      rewrite lookup_delete_Some. naive_solver. }
    rewrite Hstep. setoid_rewrite elem_of_cons. split.
    + intros ((Hm & H1) & H2). split; [done|]. intros (q & r & [[= -> ->]|Hin] & Hq); naive_solver.
    + intros (Hm & H1). split_and!; [done|naive_solver|naive_solver].
Qed.

Section Runs.
Context {order : RangeOrder}.

Lemma StopAll_ok s : sender_ok s -> sender_ok (StopAllRetriesExceptCommitted s).
Proof. intros H. apply quieter_ok; [done|]. apply stop_loop_quieter, quieter_refl. Qed.

Lemma Reset_ok s bn : sender_ok s -> sender_ok (Reset s bn).
Proof.
  intros H0.
  set (s1 := mk_sender bn (messagesToRetry s) (retries s) (retryTimes s) (sent s)).
  assert (H : sender_ok s1) by (by destruct H0; split).
  pose proof (StopAll_ok s1 H) as [Ht Hc Ha Hm].
  set (s2 := StopAllRetriesExceptCommitted s1) in *.
  assert (Hr : forall t p, messagesToRetry (Reset s bn) !! t = Some p <->
    messagesToRetry s2 !! t = Some p /\
    ~ exists q r, (t, q) ∈ map_range (messagesToRetry s2) /\ retries s2 !! q = Some r /\ rt_msgType r <> MessageType_COMMITTED)
    by (intros t p; apply forget_loop).
  split; [exact Ht|exact Hc| |].
  - intros p r Hp Hact. change (retries (Reset s bn)) with (retries s2) in Hp. apply Hr.
    pose proof (Ha p r Hp Hact) as Hin. split; [done|]. intros (q & r' & Hq & Hr' & Hne).
    apply elem_of_map_range in Hq. rewrite Hin in Hq. injection Hq as <-. rewrite Hp in Hr'. injection Hr' as <-.
    assert (isActive r = false); [|congruence].
    eapply (stop_loop_stops (map_range (messagesToRetry s1)) (retries s1) (rt_msgType r) p); [|exact Hp|done].
    by apply elem_of_map_range.
  - intros t p Hp. apply Hr in Hp as [Hp _]. by apply Hm.
Qed.

Lemma DelayedSend_ok s bn t m : sender_ok s -> sender_ok (DelayedSendWithRetry s bn t m).
Proof.
  intros H. unfold DelayedSendWithRetry. case_match; [|done].
  pose proof (StopRetry_quieter s t) as (rs & E & Hq).
  pose proof (quieter_ok s rs H Hq) as H1. rewrite <- E in H1.
  assert (Hold : forall p r, retries (StopRetry s t) !! p = Some r -> rt_msgType r = t -> isActive r = false).
  { intros p r Hr Htype. destruct (isActive r) eqn:Hact; [|done]. exfalso.
    pose proof (ok_active _ H1 p r Hr Hact) as Hin. rewrite Htype, E in Hin. simpl in Hin.
    unfold StopRetry in Hr. rewrite Hin in Hr. simpl in Hr. rewrite list_lookup_alter_eq in Hr.
    destruct (retries s !! p); simpl in Hr; [|discriminate]. injection Hr as <-. discriminate. }
  destruct H1 as [Ht Hc Ha Hm]. split; simpl; [done|..].
  - intros p r Hp. apply lookup_app_Some in Hp as [Hp|[_ Hp]]; [eauto|].
    apply list_lookup_singleton_Some in Hp as [_ <-]. simpl. lia.
  - intros p r Hp Hact. apply lookup_app_Some in Hp as [Hp|[Hl Hp]].
    + destruct (decide (rt_msgType r = t)) as [Et|Ne]; [by rewrite (Hold p r Hp Et) in Hact|].
      rewrite lookup_insert_ne by done. eauto.
    + apply list_lookup_singleton_Some in Hp as [Hz <-]. simpl. rewrite lookup_insert_eq. f_equal. lia.
  - intros t' p Hp. apply lookup_insert_Some in Hp as [[<- <-]|[Hne Hp]].
    + eexists. split; [apply list_lookup_middle; done|done].
    + destruct (Hm t' p Hp) as (r & Hr & Et). exists r. split; [by apply lookup_app_l_Some|done].
Qed.

Lemma send_ok s m : sender_ok s -> sender_ok (SendWithoutRetry s m).
Proof. intros []. by split. Qed.

Lemma insert_ok s p r r' :
  sender_ok s -> retries s !! p = Some r -> rt_msgType r' = rt_msgType r -> isActive r' = isActive r ->
  0 <= retryCount r' <= 3 -> sender_ok (set_retries s (<[p := r']> (retries s))).
Proof.
  intros [Ht Hc Ha Hm] Hp E1 E2 Hb.
  assert (Hl : forall q x, <[p := r']> (retries s) !! q = Some x ->
    (q = p /\ x = r') \/ retries s !! q = Some x).
  { intros q x Hx. apply list_lookup_insert_Some in Hx as [(-> & -> & _)|[_ Hx]]; auto. }
  split; simpl; [done|..].
  - intros q x [[-> ->]|Hx]%Hl; [done|eauto].
  - intros q x [[-> ->]|Hx]%Hl Hact; [|eauto]. rewrite E1. apply Ha; [done|congruence].
  - intros t q Hq. destruct (Hm t q Hq) as (x & Hx & <-). destruct (decide (p = q)) as [->|Hne].
    + rewrite Hp in Hx. injection Hx as <-. exists r'.
      split; [apply list_lookup_insert_eq; by eapply lookup_lt_Some|done].
    + exists x. by rewrite list_lookup_insert_ne.
Qed.

Lemma Retry_wakeup_ok s p : sender_ok s -> sender_ok (Retry_wakeup s p).
Proof.
  intros H. unfold Retry_wakeup. destruct (retries s !! p) as [r|] eqn:E; [|done].
  pose proof (ok_count _ H p r E) as Hc. pose proof (ok_times _ H) as Ht.
  repeat case_match; try done; try (by apply (insert_ok s p r)).
  apply send_ok. apply (insert_ok s p r); try done. simpl.
  match goal with Hg : (_ >=? _) = false |- _ => rewrite Z.geb_leb, Z.leb_gt in Hg end. lia.
Qed.

Lemma sender_exec_ok s op : sender_ok s -> sender_ok (sender_exec s op).
Proof.
  intros H. destruct op; simpl.
  - by apply Reset_ok.
  - by apply send_ok, DelayedSend_ok.
  - by apply DelayedSend_ok.
  - by apply send_ok.
  - destruct (StopRetry_quieter s msgType) as (rs & -> & Hq). by apply quieter_ok.
  - by apply StopAll_ok.
  - by apply Retry_wakeup_ok.
Qed.

Lemma sender_run_ok ops : forall s, sender_ok s -> sender_ok (foldl sender_exec s ops).
Proof. induction ops as [|op ops IH]; intros s H; simpl; [done|]. by apply IH, sender_exec_ok. Qed.

Lemma new_sender_ok : sender_ok NewMessageSender.
Proof. split; simpl; [done|..]; intros ? ?; rewrite ?lookup_nil, ?lookup_empty; discriminate. Qed.

(** *** Counting *)

Lemma DelayedSend_counts s bn t m :
  retryTimes s = 3 ->
  let s' := DelayedSendWithRetry s bn t m in
  sent s' = sent s /\ count_sum (retries s') = count_sum (retries s)
  /\ length (retries s') = S (length (retries s)).
Proof.
  intros Ht. simpl. unfold DelayedSendWithRetry. rewrite Ht. simpl.
  destruct (StopRetry_quieter s t) as (rs & -> & Hq). simpl.
  rewrite count_sum_app, (quieter_sum _ _ Hq), length_app, <- (Forall2_length _ _ _ Hq). simpl. split_and!; [done|lia|lia].
Qed.

Lemma sender_exec_counts s op :
  sender_ok s ->
  let s' := sender_exec s op in
  Z.of_nat (length (sent s')) - count_sum (retries s')
    = Z.of_nat (length (sent s)) - count_sum (retries s) + Z.of_nat (sends_now op)
  /\ length (retries s') = (length (retries s) + sends_retried op)%nat.
Proof.
  intros H. pose proof (ok_times _ H) as Ht. destruct op; simpl.
  - pose proof (stop_loop_quieter (map_range (messagesToRetry s)) _ _ (quieter_refl (retries s))) as Hq.
    rewrite (quieter_sum _ _ Hq), (Forall2_length _ _ _ Hq). lia.
  - destruct (DelayedSend_counts s blockNum msgType p2pMsg Ht) as (-> & -> & ->). rewrite length_app. simpl. lia.
  - destruct (DelayedSend_counts s blockNum msgType p2pMsg Ht) as (-> & -> & ->). lia.
  - rewrite length_app. simpl. lia.
  - destruct (StopRetry_quieter s msgType) as (rs & -> & Hq). simpl.
    rewrite (quieter_sum _ _ Hq), (Forall2_length _ _ _ Hq). lia.
  - pose proof (stop_loop_quieter (map_range (messagesToRetry s)) _ _ (quieter_refl (retries s))) as Hq.
    rewrite (quieter_sum _ _ Hq), (Forall2_length _ _ _ Hq). lia.
  - unfold Retry_wakeup. destruct (retries s !! p) as [r|] eqn:E; [|lia].
    repeat case_match; simpl; rewrite ?length_insert, ?(count_sum_insert _ _ _ _ E), ?length_app; simpl; lia.
Qed.

Lemma sender_run_counts ops : forall s,
  sender_ok s ->
  let s' := foldl sender_exec s ops in
  Z.of_nat (length (sent s')) - count_sum (retries s')
    = Z.of_nat (length (sent s)) - count_sum (retries s) + Z.of_nat (total sends_now ops)
  /\ length (retries s') = (length (retries s) + total sends_retried ops)%nat.
Proof.
  induction ops as [|op ops IH]; intros s H; simpl; [lia|].
  destruct (IH _ (sender_exec_ok s op H)) as [E1 E2]. destruct (sender_exec_counts s op H) as [F1 F2].
  simpl in *. lia.
Qed.

Lemma count_sum_bound rs : (forall p r, rs !! p = Some r -> 0 <= retryCount r <= 3) ->
  0 <= count_sum rs <= 3 * Z.of_nat (length rs).
Proof.
  induction rs as [|r rs IH]; intros H; simpl; [lia|].
  pose proof (H 0%nat r eq_refl). pose proof (IH (fun p x Hx => H (S p) x Hx)). lia.
Qed.

(** *** The retry loop *)

Lemma quieter_running rs rs' p r r' :
  quieter rs rs' -> rs !! p = Some r -> rs' !! p = Some r' -> running r' = running r /\ retryCount r' = retryCount r.
Proof.
  intros Hq Hr Hr'. destruct (quieter_lookup_l _ _ _ _ Hq Hr) as (x & Hx & Hcase).
  rewrite Hr' in Hx. injection Hx as <-. destruct Hcase as [->| ->]; done.
Qed.

(** A goroutine that is still looping has counted every wake-up. *)
Lemma sender_exec_running s op p r :
  retries s !! p = Some r ->
  exists r', retries (sender_exec s op) !! p = Some r' /\
    (running r' = true -> running r = true /\ retryCount r' = retryCount r + Z.of_nat (wakes p op)).
Proof.
  intros Hr.
  assert (Hq : forall rs, quieter (retries s) rs -> wakes p op = 0%nat -> exists r', rs !! p = Some r' /\
    (running r' = true -> running r = true /\ retryCount r' = retryCount r + Z.of_nat (wakes p op))).
  { intros rs Hq ->. destruct (quieter_lookup_l _ _ _ _ Hq Hr) as (r' & Hr' & _). exists r'. split; [done|].
    destruct (quieter_running _ _ _ _ _ Hq Hr Hr') as [-> ->]. intros Hrun. split; [done|lia]. }
  assert (Hd : forall bn t m, wakes p op = 0%nat -> exists r', retries (DelayedSendWithRetry s bn t m) !! p = Some r' /\
    (running r' = true -> running r = true /\ retryCount r' = retryCount r + Z.of_nat (wakes p op))).
  { intros bn t m Hw. unfold DelayedSendWithRetry. destruct (negb _); [|apply Hq; [apply quieter_refl|done]].
    destruct (StopRetry_quieter s t) as (rs & -> & Hqt). simpl. destruct (Hq rs Hqt Hw) as (r' & Hr' & Hcase).
    exists r'. split; [by apply lookup_app_l_Some|done]. }
  destruct op; simpl in *; try (by apply Hd); try (by apply Hq; [apply quieter_refl|]).
  - apply Hq; [|done]. apply stop_loop_quieter, quieter_refl.
  - destruct (StopRetry_quieter s msgType) as (rs & -> & Hqt). by apply Hq.
  - apply Hq; [|done]. apply stop_loop_quieter, quieter_refl.
  - unfold Retry_wakeup. destruct (decide (p = p0)) as [<-|Hne].
    + rewrite Hr. pose proof (lookup_lt_Some _ _ _ Hr) as Hlt. destruct (running r) eqn:Hrun; simpl.
      * repeat case_match; simpl; rewrite list_lookup_insert_eq by done; eexists; (split; [done|]); simpl;
          [done..|]. intros _. split; [done|lia].
      * exists r. split; [done|]. congruence.
    + exists r. split; [|intros; split; [done|lia]]. destruct (retries s !! p0) as [r0|]; [|done].
      repeat case_match; simpl; rewrite ?list_lookup_insert_ne by done; done.
Qed.

Lemma sender_run_running ops : forall s p r,
  retries s !! p = Some r ->
  exists r', retries (foldl sender_exec s ops) !! p = Some r' /\
    (running r' = true -> running r = true /\ retryCount r' = retryCount r + Z.of_nat (total (wakes p) ops)).
Proof.
  induction ops as [|op ops IH]; intros s p r Hr; simpl.
  - exists r. split; [done|]. intros H. split; [done|lia].
  - destruct (sender_exec_running s op p r Hr) as (r1 & Hr1 & H1).
    destruct (IH _ p r1 Hr1) as (r2 & Hr2 & H2). exists r2. split; [done|]. intros H.
    destruct (H2 H) as [Hrun E2]. destruct (H1 Hrun) as [Hrun' E1]. split; [done|lia].
Qed.

End Runs.

(** ** Properties *)


(** The retry loop ends: once a retry exists, its goroutine has returned by
    its fourth wake-up, whatever happens in between. *)
Theorem retry_loop_ends {order : RangeOrder} ops ops' p :
  let s := foldl sender_exec NewMessageSender ops in
  (p < length (retries s))%nat -> (4 <= total (wakes p) ops')%nat ->
  exists r, retries (foldl sender_exec s ops') !! p = Some r /\ running r = false.
Proof.
  intros s Hp Hw. apply lookup_lt_is_Some in Hp as [r Hr].
  pose proof (sender_run_ok ops _ new_sender_ok) as Hok. fold s in Hok.
  destruct (sender_run_running ops' s p r Hr) as (r' & Hr' & H). exists r'. split; [done|].
  destruct (running r') eqn:Hrun; [|done]. destruct (H eq_refl) as [_ E].
  pose proof (ok_count _ Hok p r Hr). pose proof (ok_count _ (sender_run_ok ops' s Hok) p r' Hr'). lia.
Qed.

(** After a reset for a new block, a retry of any message but COMMITTED wakes up
    without sending. *)
Lemma reset_silences {order : RangeOrder} s bn p r :
  sender_ok s -> retries (Reset s bn) !! p = Some r -> rt_msgType r <> MessageType_COMMITTED ->
  sent (Retry_wakeup (Reset s bn) p) = sent s.
Proof.
  intros H Hr Ht. pose proof (Reset_ok s bn H) as Hok.
  assert (Ha : isActive r = false).
  { destruct (isActive r) eqn:Ha; [|done]. pose proof (ok_active _ Hok p r Hr Ha) as Hin.
    apply (forget_loop _ _ _ (rt_msgType r) p) in Hin as [Hin Hno]. destruct Hno. exists p, r.
    split; [by apply elem_of_map_range|done]. }
  unfold Retry_wakeup. rewrite Hr, Ha. by repeat case_match.
Qed.

(** ** Witnesses *)

Module SenderToy.

Definition ops1 : list sender_op := [SSendWithRetry 5 MessageType_ANNOUNCE [1]; SDelayedSend 5 MessageType_COMMITTED [2]].
Definition ops2 : list sender_op := [SWakeup 0; SWakeup 1; SWakeup 1; SReset 6; SWakeup 1; SWakeup 1; SWakeup 0].

Lemma retry_loop_ends_witness :
  exists r, retries (foldl (@sender_exec canonical_order) (foldl (@sender_exec canonical_order) NewMessageSender ops1) ops2)
              !! 1%nat = Some r /\ running r = false.
Proof.
  apply (@retry_loop_ends canonical_order ops1 ops2 1); vm_compute; lia.
Defined.

End SenderToy.
