(* ===== verification/Consensus.v ===== *)
(** * The consensus node

    Models the FBFT handlers of [consensus/]: [consensus.go], [leader.go],
    [validator.go], [checks.go], [threshold.go], [construct.go],
    [double_sign.go], [consensus_service.go], [state.go],
    [signature/signature.go] and [internal/chain/sig.go], over the vote counting
    of [Quorum], the log of [FbftLog] and the sender of [MsgSender].

    The [Consensus] object is a record; a method is a computation of the state
    monad [M Consensus] and [None] is a run-time panic.  A handler holds
    [consensus.mutex] and is one atomic step.  A [go func] is put on the list
    [goroutines] and runs as a later step; a send on an unbuffered channel made
    by a goroutine is appended to the list of that channel.  [clock] is the
    reading of the clock.  The BLS library, RLP, protobuf, Keccak and the host
    are the class [Env]; the block chain is used through the class [ChainOps].  Logging
    and metrics are left out, except that an argument of a log call that
    dereferences nil panics. *)
From stdpp Require Import gmap list sorting.
From Stdlib Require Import ZArith Lia.
From S2P Require Import Prelude Quorum FbftLog MsgSender.

Local Open Scope Z_scope.

(** ** Data *)

(** [consensus/enums.go]. *)
Inductive Mode : Type := Normal | ViewChanging | Syncing | Listening.

#[export] Instance Mode_eq_dec : EqDecision Mode.
Proof. solve_decision. Defined.

Inductive FBFTPhase : Type := FBFTAnnounce | FBFTPrepare | FBFTCommit.

Inductive ProposalType : Type := SyncProposal | AsyncProposal.

(** The evidence of [slash.Record] the double-sign check sends. *)
Record SlashRecord : Type := mk_slash {
  FirstVote : list SerializedPublicKey * Z * list Z;
  SecondVote : list SerializedPublicKey * Z * list Z;
  Moment : Z * Z * Z;            (* epoch, height, view *)
  Offender : Z;
  Reporter : Z
}.

(** [msg_pb.Message]: the request and the signature field. *)
Record Message : Type := mk_message { msg_request : ConsensusRequest; msg_Signature : list Z }.

(** *** Code outside the repository *)

(** The BLS library, RLP, protobuf, Keccak and the p2p host.  [None] is an error, or the nil
    signature of [SignHash]; [SendMessageToGroups] tells whether the host reported no error.  Key
    objects are integers, [IsEqual] is equality. *)
Class Env : Type := {
  Sign : Type;
  SecretKey : Type;
  Mask : Type;
  Deserialize : list Z -> option Sign;
  Serialize : Sign -> list Z;
  sign_zero : Sign;
  sign_Add : Sign -> Sign -> Sign;
  SignHash : SecretKey -> list Z -> option Sign;
  VerifyHash : Sign -> Z -> list Z -> bool;
  pub_zero : Z;
  pub_Add : Z -> Z -> Z;
  AggregateSig : list (list Z) -> Sign;
  BytesToBLSPublicKey : list Z -> option Z;
  NewMask : list PublicKeyWrapper -> option Mask;
  SetMask : Mask -> list Z -> option Mask;
  SetKey : Mask -> SerializedPublicKey -> option Mask;
  SetKeysAtomic : Mask -> list PublicKeyWrapper -> option Mask;
  KeyEnabled : Mask -> SerializedPublicKey -> option bool;
  Clear : Mask -> Mask;
  Bitmap : Mask -> list Z;
  AggregatePublic : Mask -> Z;
  CountEnabled : Mask -> Z;
  GetSignedPubKeysFromBitmap : Mask -> list Z -> option (list PublicKeyWrapper);
  rlp_EncodeToBytes : Block -> option (list Z);
  rlp_DecodeBytes : list Z -> option Block;
  protobuf_Marshal : Message -> option (list Z);
  hash_Keccak256 : list Z -> list Z;
  SendMessageToGroups : list Z -> bool
}.

(** A sub-committee of a shard state. *)
Record Committee : Type := mk_committee {
  com_Slots : nat;
  BLSPublicKeys : list PublicKeyWrapper;
  AddressForBLSKey : SerializedPublicKey -> option Z
}.

(** What the consensus uses of the block chain.  [InsertChain] returns whether it
    succeeded. *)
Class ChainOps (B : Type) : Type := {
  ShardState : Type;
  IsStaking : Z -> bool;
  CurrentHeader : B -> Block;
  GetShardStateEpoch : B -> option (option Z);
  InsertChain : Block -> B -> B * bool;
  WriteCommitSig : Z -> list Z -> B -> B;
  ReadCommitSig : B -> Z -> option (list Z);
  chain_GetBlockByHash : B -> Z -> option Block;
  ReadFromDB : B -> Z -> option ShardState;
  FindCommitteeByID : ShardState -> option Committee
}.

Section Node.
Context {env : Env} {B : Type} {chain : ChainOps B} {order : RangeOrder}.

Record PrivateKeyWrapper : Type := mk_private { Pub : PublicKeyWrapper; Pri : SecretKey }.

Record NetworkMessage : Type := mk_network {
  net_Type : MessageType;
  net_Bytes : list Z;
  net_FBFTMsg : FBFTMessage
}.

(** The goroutines the handlers start: the end of the grace period of [onCommit],
    the body of [preCommitAndPropose], and the replay of early COMMITTED messages
    of [onPrepared] before and during its loop. *)
Inductive task : Type :=
| TGrace (viewID : Z)
| TPreCommit (network : NetworkMessage) (blk : Block)
| TReplayStart (blk : Block)
| TReplay (curBlockNum : Z) (msgs : list FBFTMessage).

(** [AggregatedPrepareSig] and the like are pointers, nil before they are set. *)
Record Consensus : Type := mk_consensus {
  Decider : uniformVoteWeight;
  c_FBFTLog : FBFTLog;
  phase : FBFTPhase;
  mode : Mode;
  blockViewID : Z;
  timeoutConsensus : Timeout;
  timeoutBootstrap : Timeout;
  aggregatedPrepareSig : option Sign;
  aggregatedCommitSig : option Sign;
  prepareBitmap : option Mask;
  commitBitmap : option Mask;
  multiSigBitmap : option Mask;
  Blockchain : B;
  priKey : list PrivateKeyWrapper;
  LeaderPubKey_ : option PublicKeyWrapper;
  blockNum : Z;
  blockHash : Z;
  block : list Z;
  ShardID : Z;
  IgnoreViewIDCheck : bool;
  ReadySignal : list ProposalType;
  CommitSigChannel : list (list Z);
  PostConsensusJob : bool;
  BlockVerifier : option (Block -> bool);
  BlockNumLowChan : bool;
  pendingRnds : list (list Z);
  msgSender : MessageSender;
  SlashChan : list SlashRecord;
  AggregateSig_ : bool;
  goroutines : list task;
  clock : Z
}.

(** *** Updates of single fields *)

Definition set_Decider (x : uniformVoteWeight) (s : Consensus) : Consensus :=
  mk_consensus x (c_FBFTLog s) (phase s) (mode s) (blockViewID s) (timeoutConsensus s) (timeoutBootstrap s)
    (aggregatedPrepareSig s) (aggregatedCommitSig s) (prepareBitmap s) (commitBitmap s) (multiSigBitmap s)
    (Blockchain s) (priKey s) (LeaderPubKey_ s) (blockNum s) (blockHash s) (block s) (ShardID s)
    (IgnoreViewIDCheck s) (ReadySignal s) (CommitSigChannel s) (PostConsensusJob s) (BlockVerifier s)
    (BlockNumLowChan s) (pendingRnds s) (msgSender s) (SlashChan s) (AggregateSig_ s) (goroutines s) (clock s).

Definition set_c_FBFTLog (x : FBFTLog) (s : Consensus) : Consensus :=
  mk_consensus (Decider s) x (phase s) (mode s) (blockViewID s) (timeoutConsensus s) (timeoutBootstrap s)
    (aggregatedPrepareSig s) (aggregatedCommitSig s) (prepareBitmap s) (commitBitmap s) (multiSigBitmap s)
    (Blockchain s) (priKey s) (LeaderPubKey_ s) (blockNum s) (blockHash s) (block s) (ShardID s)
    (IgnoreViewIDCheck s) (ReadySignal s) (CommitSigChannel s) (PostConsensusJob s) (BlockVerifier s)
    (BlockNumLowChan s) (pendingRnds s) (msgSender s) (SlashChan s) (AggregateSig_ s) (goroutines s) (clock s).

Definition set_phase (x : FBFTPhase) (s : Consensus) : Consensus :=
  mk_consensus (Decider s) (c_FBFTLog s) x (mode s) (blockViewID s) (timeoutConsensus s) (timeoutBootstrap s)
    (aggregatedPrepareSig s) (aggregatedCommitSig s) (prepareBitmap s) (commitBitmap s) (multiSigBitmap s)
    (Blockchain s) (priKey s) (LeaderPubKey_ s) (blockNum s) (blockHash s) (block s) (ShardID s)
    (IgnoreViewIDCheck s) (ReadySignal s) (CommitSigChannel s) (PostConsensusJob s) (BlockVerifier s)
    (BlockNumLowChan s) (pendingRnds s) (msgSender s) (SlashChan s) (AggregateSig_ s) (goroutines s) (clock s).

Definition set_mode (x : Mode) (s : Consensus) : Consensus :=
  mk_consensus (Decider s) (c_FBFTLog s) (phase s) x (blockViewID s) (timeoutConsensus s) (timeoutBootstrap s)
    (aggregatedPrepareSig s) (aggregatedCommitSig s) (prepareBitmap s) (commitBitmap s) (multiSigBitmap s)
    (Blockchain s) (priKey s) (LeaderPubKey_ s) (blockNum s) (blockHash s) (block s) (ShardID s)
    (IgnoreViewIDCheck s) (ReadySignal s) (CommitSigChannel s) (PostConsensusJob s) (BlockVerifier s)
    (BlockNumLowChan s) (pendingRnds s) (msgSender s) (SlashChan s) (AggregateSig_ s) (goroutines s) (clock s).

Definition set_blockViewID (x : Z) (s : Consensus) : Consensus :=
  mk_consensus (Decider s) (c_FBFTLog s) (phase s) (mode s) x (timeoutConsensus s) (timeoutBootstrap s)
    (aggregatedPrepareSig s) (aggregatedCommitSig s) (prepareBitmap s) (commitBitmap s) (multiSigBitmap s)
    (Blockchain s) (priKey s) (LeaderPubKey_ s) (blockNum s) (blockHash s) (block s) (ShardID s)
    (IgnoreViewIDCheck s) (ReadySignal s) (CommitSigChannel s) (PostConsensusJob s) (BlockVerifier s)
    (BlockNumLowChan s) (pendingRnds s) (msgSender s) (SlashChan s) (AggregateSig_ s) (goroutines s) (clock s).

Definition set_timeoutConsensus (x : Timeout) (s : Consensus) : Consensus :=
  mk_consensus (Decider s) (c_FBFTLog s) (phase s) (mode s) (blockViewID s) x (timeoutBootstrap s)
    (aggregatedPrepareSig s) (aggregatedCommitSig s) (prepareBitmap s) (commitBitmap s) (multiSigBitmap s)
    (Blockchain s) (priKey s) (LeaderPubKey_ s) (blockNum s) (blockHash s) (block s) (ShardID s)
    (IgnoreViewIDCheck s) (ReadySignal s) (CommitSigChannel s) (PostConsensusJob s) (BlockVerifier s)
    (BlockNumLowChan s) (pendingRnds s) (msgSender s) (SlashChan s) (AggregateSig_ s) (goroutines s) (clock s).

Definition set_timeoutBootstrap (x : Timeout) (s : Consensus) : Consensus :=
  mk_consensus (Decider s) (c_FBFTLog s) (phase s) (mode s) (blockViewID s) (timeoutConsensus s) x
    (aggregatedPrepareSig s) (aggregatedCommitSig s) (prepareBitmap s) (commitBitmap s) (multiSigBitmap s)
    (Blockchain s) (priKey s) (LeaderPubKey_ s) (blockNum s) (blockHash s) (block s) (ShardID s)
    (IgnoreViewIDCheck s) (ReadySignal s) (CommitSigChannel s) (PostConsensusJob s) (BlockVerifier s)
    (BlockNumLowChan s) (pendingRnds s) (msgSender s) (SlashChan s) (AggregateSig_ s) (goroutines s) (clock s).

Definition set_aggregatedPrepareSig (x : option Sign) (s : Consensus) : Consensus :=
  mk_consensus (Decider s) (c_FBFTLog s) (phase s) (mode s) (blockViewID s) (timeoutConsensus s)
    (timeoutBootstrap s) x (aggregatedCommitSig s) (prepareBitmap s) (commitBitmap s) (multiSigBitmap s)
    (Blockchain s) (priKey s) (LeaderPubKey_ s) (blockNum s) (blockHash s) (block s) (ShardID s)
    (IgnoreViewIDCheck s) (ReadySignal s) (CommitSigChannel s) (PostConsensusJob s) (BlockVerifier s)
    (BlockNumLowChan s) (pendingRnds s) (msgSender s) (SlashChan s) (AggregateSig_ s) (goroutines s) (clock s).

Definition set_aggregatedCommitSig (x : option Sign) (s : Consensus) : Consensus :=
  mk_consensus (Decider s) (c_FBFTLog s) (phase s) (mode s) (blockViewID s) (timeoutConsensus s)
    (timeoutBootstrap s) (aggregatedPrepareSig s) x (prepareBitmap s) (commitBitmap s) (multiSigBitmap s)
    (Blockchain s) (priKey s) (LeaderPubKey_ s) (blockNum s) (blockHash s) (block s) (ShardID s)
    (IgnoreViewIDCheck s) (ReadySignal s) (CommitSigChannel s) (PostConsensusJob s) (BlockVerifier s)
    (BlockNumLowChan s) (pendingRnds s) (msgSender s) (SlashChan s) (AggregateSig_ s) (goroutines s) (clock s).

Definition set_prepareBitmap (x : option Mask) (s : Consensus) : Consensus :=
  mk_consensus (Decider s) (c_FBFTLog s) (phase s) (mode s) (blockViewID s) (timeoutConsensus s)
    (timeoutBootstrap s) (aggregatedPrepareSig s) (aggregatedCommitSig s) x (commitBitmap s) (multiSigBitmap s)
    (Blockchain s) (priKey s) (LeaderPubKey_ s) (blockNum s) (blockHash s) (block s) (ShardID s)
    (IgnoreViewIDCheck s) (ReadySignal s) (CommitSigChannel s) (PostConsensusJob s) (BlockVerifier s)
    (BlockNumLowChan s) (pendingRnds s) (msgSender s) (SlashChan s) (AggregateSig_ s) (goroutines s) (clock s).

Definition set_commitBitmap (x : option Mask) (s : Consensus) : Consensus :=
  mk_consensus (Decider s) (c_FBFTLog s) (phase s) (mode s) (blockViewID s) (timeoutConsensus s)
    (timeoutBootstrap s) (aggregatedPrepareSig s) (aggregatedCommitSig s) (prepareBitmap s) x (multiSigBitmap s)
    (Blockchain s) (priKey s) (LeaderPubKey_ s) (blockNum s) (blockHash s) (block s) (ShardID s)
    (IgnoreViewIDCheck s) (ReadySignal s) (CommitSigChannel s) (PostConsensusJob s) (BlockVerifier s)
    (BlockNumLowChan s) (pendingRnds s) (msgSender s) (SlashChan s) (AggregateSig_ s) (goroutines s) (clock s).

Definition set_multiSigBitmap (x : option Mask) (s : Consensus) : Consensus :=
  mk_consensus (Decider s) (c_FBFTLog s) (phase s) (mode s) (blockViewID s) (timeoutConsensus s)
    (timeoutBootstrap s) (aggregatedPrepareSig s) (aggregatedCommitSig s) (prepareBitmap s) (commitBitmap s) x
    (Blockchain s) (priKey s) (LeaderPubKey_ s) (blockNum s) (blockHash s) (block s) (ShardID s)
    (IgnoreViewIDCheck s) (ReadySignal s) (CommitSigChannel s) (PostConsensusJob s) (BlockVerifier s)
    (BlockNumLowChan s) (pendingRnds s) (msgSender s) (SlashChan s) (AggregateSig_ s) (goroutines s) (clock s).

Definition set_Blockchain (x : B) (s : Consensus) : Consensus :=
  mk_consensus (Decider s) (c_FBFTLog s) (phase s) (mode s) (blockViewID s) (timeoutConsensus s)
    (timeoutBootstrap s) (aggregatedPrepareSig s) (aggregatedCommitSig s) (prepareBitmap s) (commitBitmap s)
    (multiSigBitmap s) x (priKey s) (LeaderPubKey_ s) (blockNum s) (blockHash s) (block s) (ShardID s)
    (IgnoreViewIDCheck s) (ReadySignal s) (CommitSigChannel s) (PostConsensusJob s) (BlockVerifier s)
    (BlockNumLowChan s) (pendingRnds s) (msgSender s) (SlashChan s) (AggregateSig_ s) (goroutines s) (clock s).

Definition set_LeaderPubKey_ (x : option PublicKeyWrapper) (s : Consensus) : Consensus :=
  mk_consensus (Decider s) (c_FBFTLog s) (phase s) (mode s) (blockViewID s) (timeoutConsensus s)
    (timeoutBootstrap s) (aggregatedPrepareSig s) (aggregatedCommitSig s) (prepareBitmap s) (commitBitmap s)
    (multiSigBitmap s) (Blockchain s) (priKey s) x (blockNum s) (blockHash s) (block s) (ShardID s)
    (IgnoreViewIDCheck s) (ReadySignal s) (CommitSigChannel s) (PostConsensusJob s) (BlockVerifier s)
    (BlockNumLowChan s) (pendingRnds s) (msgSender s) (SlashChan s) (AggregateSig_ s) (goroutines s) (clock s).

Definition set_blockNum (x : Z) (s : Consensus) : Consensus :=
  mk_consensus (Decider s) (c_FBFTLog s) (phase s) (mode s) (blockViewID s) (timeoutConsensus s)
    (timeoutBootstrap s) (aggregatedPrepareSig s) (aggregatedCommitSig s) (prepareBitmap s) (commitBitmap s)
    (multiSigBitmap s) (Blockchain s) (priKey s) (LeaderPubKey_ s) x (blockHash s) (block s) (ShardID s)
    (IgnoreViewIDCheck s) (ReadySignal s) (CommitSigChannel s) (PostConsensusJob s) (BlockVerifier s)
    (BlockNumLowChan s) (pendingRnds s) (msgSender s) (SlashChan s) (AggregateSig_ s) (goroutines s) (clock s).

Definition set_blockHash (x : Z) (s : Consensus) : Consensus :=
  mk_consensus (Decider s) (c_FBFTLog s) (phase s) (mode s) (blockViewID s) (timeoutConsensus s)
    (timeoutBootstrap s) (aggregatedPrepareSig s) (aggregatedCommitSig s) (prepareBitmap s) (commitBitmap s)
    (multiSigBitmap s) (Blockchain s) (priKey s) (LeaderPubKey_ s) (blockNum s) x (block s) (ShardID s)
    (IgnoreViewIDCheck s) (ReadySignal s) (CommitSigChannel s) (PostConsensusJob s) (BlockVerifier s)
    (BlockNumLowChan s) (pendingRnds s) (msgSender s) (SlashChan s) (AggregateSig_ s) (goroutines s) (clock s).

Definition set_block (x : list Z) (s : Consensus) : Consensus :=
  mk_consensus (Decider s) (c_FBFTLog s) (phase s) (mode s) (blockViewID s) (timeoutConsensus s)
    (timeoutBootstrap s) (aggregatedPrepareSig s) (aggregatedCommitSig s) (prepareBitmap s) (commitBitmap s)
    (multiSigBitmap s) (Blockchain s) (priKey s) (LeaderPubKey_ s) (blockNum s) (blockHash s) x (ShardID s)
    (IgnoreViewIDCheck s) (ReadySignal s) (CommitSigChannel s) (PostConsensusJob s) (BlockVerifier s)
    (BlockNumLowChan s) (pendingRnds s) (msgSender s) (SlashChan s) (AggregateSig_ s) (goroutines s) (clock s).

Definition set_ReadySignal (x : list ProposalType) (s : Consensus) : Consensus :=
  mk_consensus (Decider s) (c_FBFTLog s) (phase s) (mode s) (blockViewID s) (timeoutConsensus s)
    (timeoutBootstrap s) (aggregatedPrepareSig s) (aggregatedCommitSig s) (prepareBitmap s) (commitBitmap s)
    (multiSigBitmap s) (Blockchain s) (priKey s) (LeaderPubKey_ s) (blockNum s) (blockHash s) (block s) (ShardID
    s) (IgnoreViewIDCheck s) x (CommitSigChannel s) (PostConsensusJob s) (BlockVerifier s) (BlockNumLowChan s)
    (pendingRnds s) (msgSender s) (SlashChan s) (AggregateSig_ s) (goroutines s) (clock s).

Definition set_CommitSigChannel (x : list (list Z)) (s : Consensus) : Consensus :=
  mk_consensus (Decider s) (c_FBFTLog s) (phase s) (mode s) (blockViewID s) (timeoutConsensus s)
    (timeoutBootstrap s) (aggregatedPrepareSig s) (aggregatedCommitSig s) (prepareBitmap s) (commitBitmap s)
    (multiSigBitmap s) (Blockchain s) (priKey s) (LeaderPubKey_ s) (blockNum s) (blockHash s) (block s) (ShardID
    s) (IgnoreViewIDCheck s) (ReadySignal s) x (PostConsensusJob s) (BlockVerifier s) (BlockNumLowChan s)
    (pendingRnds s) (msgSender s) (SlashChan s) (AggregateSig_ s) (goroutines s) (clock s).

Definition set_BlockVerifier (x : option (Block -> bool)) (s : Consensus) : Consensus :=
  mk_consensus (Decider s) (c_FBFTLog s) (phase s) (mode s) (blockViewID s) (timeoutConsensus s)
    (timeoutBootstrap s) (aggregatedPrepareSig s) (aggregatedCommitSig s) (prepareBitmap s) (commitBitmap s)
    (multiSigBitmap s) (Blockchain s) (priKey s) (LeaderPubKey_ s) (blockNum s) (blockHash s) (block s) (ShardID
    s) (IgnoreViewIDCheck s) (ReadySignal s) (CommitSigChannel s) (PostConsensusJob s) x (BlockNumLowChan s)
    (pendingRnds s) (msgSender s) (SlashChan s) (AggregateSig_ s) (goroutines s) (clock s).

Definition set_BlockNumLowChan (x : bool) (s : Consensus) : Consensus :=
  mk_consensus (Decider s) (c_FBFTLog s) (phase s) (mode s) (blockViewID s) (timeoutConsensus s)
    (timeoutBootstrap s) (aggregatedPrepareSig s) (aggregatedCommitSig s) (prepareBitmap s) (commitBitmap s)
    (multiSigBitmap s) (Blockchain s) (priKey s) (LeaderPubKey_ s) (blockNum s) (blockHash s) (block s) (ShardID
    s) (IgnoreViewIDCheck s) (ReadySignal s) (CommitSigChannel s) (PostConsensusJob s) (BlockVerifier s) x
    (pendingRnds s) (msgSender s) (SlashChan s) (AggregateSig_ s) (goroutines s) (clock s).

Definition set_pendingRnds (x : list (list Z)) (s : Consensus) : Consensus :=
  mk_consensus (Decider s) (c_FBFTLog s) (phase s) (mode s) (blockViewID s) (timeoutConsensus s)
    (timeoutBootstrap s) (aggregatedPrepareSig s) (aggregatedCommitSig s) (prepareBitmap s) (commitBitmap s)
    (multiSigBitmap s) (Blockchain s) (priKey s) (LeaderPubKey_ s) (blockNum s) (blockHash s) (block s) (ShardID
    s) (IgnoreViewIDCheck s) (ReadySignal s) (CommitSigChannel s) (PostConsensusJob s) (BlockVerifier s)
    (BlockNumLowChan s) x (msgSender s) (SlashChan s) (AggregateSig_ s) (goroutines s) (clock s).

Definition set_msgSender (x : MessageSender) (s : Consensus) : Consensus :=
  mk_consensus (Decider s) (c_FBFTLog s) (phase s) (mode s) (blockViewID s) (timeoutConsensus s)
    (timeoutBootstrap s) (aggregatedPrepareSig s) (aggregatedCommitSig s) (prepareBitmap s) (commitBitmap s)
    (multiSigBitmap s) (Blockchain s) (priKey s) (LeaderPubKey_ s) (blockNum s) (blockHash s) (block s) (ShardID
    s) (IgnoreViewIDCheck s) (ReadySignal s) (CommitSigChannel s) (PostConsensusJob s) (BlockVerifier s)
    (BlockNumLowChan s) (pendingRnds s) x (SlashChan s) (AggregateSig_ s) (goroutines s) (clock s).

Definition set_SlashChan (x : list SlashRecord) (s : Consensus) : Consensus :=
  mk_consensus (Decider s) (c_FBFTLog s) (phase s) (mode s) (blockViewID s) (timeoutConsensus s)
    (timeoutBootstrap s) (aggregatedPrepareSig s) (aggregatedCommitSig s) (prepareBitmap s) (commitBitmap s)
    (multiSigBitmap s) (Blockchain s) (priKey s) (LeaderPubKey_ s) (blockNum s) (blockHash s) (block s) (ShardID
    s) (IgnoreViewIDCheck s) (ReadySignal s) (CommitSigChannel s) (PostConsensusJob s) (BlockVerifier s)
    (BlockNumLowChan s) (pendingRnds s) (msgSender s) x (AggregateSig_ s) (goroutines s) (clock s).

Definition set_goroutines (x : list task) (s : Consensus) : Consensus :=
  mk_consensus (Decider s) (c_FBFTLog s) (phase s) (mode s) (blockViewID s) (timeoutConsensus s)
    (timeoutBootstrap s) (aggregatedPrepareSig s) (aggregatedCommitSig s) (prepareBitmap s) (commitBitmap s)
    (multiSigBitmap s) (Blockchain s) (priKey s) (LeaderPubKey_ s) (blockNum s) (blockHash s) (block s) (ShardID
    s) (IgnoreViewIDCheck s) (ReadySignal s) (CommitSigChannel s) (PostConsensusJob s) (BlockVerifier s)
    (BlockNumLowChan s) (pendingRnds s) (msgSender s) (SlashChan s) (AggregateSig_ s) x (clock s).

Definition set_clock (x : Z) (s : Consensus) : Consensus :=
  mk_consensus (Decider s) (c_FBFTLog s) (phase s) (mode s) (blockViewID s) (timeoutConsensus s)
    (timeoutBootstrap s) (aggregatedPrepareSig s) (aggregatedCommitSig s) (prepareBitmap s) (commitBitmap s)
    (multiSigBitmap s) (Blockchain s) (priKey s) (LeaderPubKey_ s) (blockNum s) (blockHash s) (block s) (ShardID
    s) (IgnoreViewIDCheck s) (ReadySignal s) (CommitSigChannel s) (PostConsensusJob s) (BlockVerifier s)
    (BlockNumLowChan s) (pendingRnds s) (msgSender s) (SlashChan s) (AggregateSig_ s) (goroutines s) x.

Abbreviation MC := (M Consensus).

Definition hash_bytes (h : Z) : list Z := be_bytes 32 h.

(** ** Reading the state *)

Definition GetCurBlockViewID (s : Consensus) : Z := blockViewID s.

Definition GetPublicKeys (s : Consensus) : list PublicKeyWrapper := Pub <$> priKey s.

(** [multibls.PublicKeys.Contains]. *)
Definition Contains (keys : list PublicKeyWrapper) (pubKey : Z) : bool :=
  existsb (fun key => key_Object key =? pubKey) keys.

Fixpoint GetLeaderPrivateKey (keys : list PrivateKeyWrapper) (leaderKey : Z) : option PrivateKeyWrapper :=
  match keys with
  | [] => None
  | key :: keys' => if key_Object (Pub key) =? leaderKey then Some key else GetLeaderPrivateKey keys' leaderKey
  end.

(** The inner [None] is [errLeaderPriKeyNotFound]; a nil leader panics. *)
Definition GetConsensusLeaderPrivateKey (s : Consensus) : option (option PrivateKeyWrapper) :=
  leader ← LeaderPubKey_ s; Some (GetLeaderPrivateKey (priKey s) (key_Object leader)).

(** The leader is dereferenced only when the node has keys. *)
Definition IsLeader (s : Consensus) : option bool :=
  match priKey s with
  | [] => Some false
  | keys => leader ← LeaderPubKey_ s;
            Some (existsb (fun key => key_Object (Pub key) =? key_Object leader) keys)
  end.

Definition IsValidatorInCommittee (s : Consensus) (pubKey : SerializedPublicKey) : bool :=
  negb (IndexOf (ident (Decider s)) pubKey =? -1).

Definition getPriKeysInCommittee (s : Consensus) : list PrivateKeyWrapper :=
  filter (fun key => IsValidatorInCommittee s (key_Bytes (Pub key)) = true) (priKey s).

Definition VdfSeedSize (s : Consensus) : Z := Z.quot (ParticipantsCount (ident (Decider s)) * 2) 3.

(** [signature.ConstructCommitPayload]. *)
Definition ConstructCommitPayload (epoch hash num viewID : Z) : list Z :=
  let commitPayload := le_bytes 8 num ++ hash_bytes hash in
  if negb (IsStaking epoch) then commitPayload else commitPayload ++ le_bytes 8 viewID.

Definition commit_payload (b : Block) : list Z :=
  ConstructCommitPayload (blk_Epoch b) (blk_Hash b) (blk_NumberU64 b) 0.

Definition BLSSignatureSizeInBytes : nat := 96.

(** [chain.ReadSignatureBitmapByPublicKeys]; a failing [SetMask] is only logged. *)
Definition ReadSignatureBitmapByPublicKeys (recvPayload : list Z) (publicKeys : list PublicKeyWrapper)
    : option (Sign * Mask) :=
  if (length recvPayload <? BLSSignatureSizeInBytes)%nat then None
  else
    match Deserialize (take BLSSignatureSizeInBytes recvPayload) with
    | None => None
    | Some aggSig =>
        match NewMask publicKeys with
        | None => None
        | Some mask => Some (aggSig, default mask (SetMask mask (drop BLSSignatureSizeInBytes recvPayload)))
        end
    end.

Definition ReadSignatureBitmapPayload (s : Consensus) (recvPayload : list Z) (offset : nat)
    : option (Sign * Mask) :=
  if (length recvPayload <? offset + BLSSignatureSizeInBytes)%nat then None
  else ReadSignatureBitmapByPublicKeys (drop offset recvPayload) (Participants (ident (Decider s))).

Definition mask_quorum (s : Consensus) (mask : Mask) : option bool :=
  IsQuorumAchievedByMask (Decider s) (Some (Some (Bitmap mask))).

Definition NumSignaturesIncludedInBlock (s : Consensus) (lastCommitBitmap : list Z) : Z :=
  match NewMask (Participants (ident (Decider s))) with
  | None => 0
  | Some mask =>
      match SetMask mask lastCommitBitmap with
      | None => 0
      | Some mask =>
          foldl (fun count key => match KeyEnabled mask (key_Bytes key) with
                                  | Some true => count + 1
                                  | _ => count
                                  end) 0 (GetPublicKeys s)
      end
  end.

(** The sum of the senders' keys that checks a message of several senders. *)
Definition signer_key (recvMsg : FBFTMessage) : Z :=
  if HasSingleSender recvMsg
  then match SenderPubkeys recvMsg with k :: _ => key_Object k | [] => pub_zero end
  else foldl (fun acc k => pub_Add acc (key_Object k)) pub_zero (SenderPubkeys recvMsg).

(** ** Checks (checks.go) *)

Definition verifyMessageSig (signerPubKey : Z) (message : Message) : bool :=
  match protobuf_Marshal (mk_message (msg_request message) []) with
  | None => false
  | Some messageBytes =>
      match Deserialize (msg_Signature message) with
      | None => false
      | Some msgSig => VerifyHash msgSig signerPubKey (hash_Keccak256 messageBytes)
      end
  end.

Definition senderKeySanityChecks (msg : Message) (senderKey : SerializedPublicKey) : bool :=
  match BytesToBLSPublicKey (be_bytes 48 senderKey) with
  | None => false
  | Some pubkey => verifyMessageSig pubkey msg
  end.

Definition isRightBlockNumAndViewID (s : Consensus) (recvMsg : FBFTMessage) : bool :=
  negb (negb (msg_ViewID recvMsg =? GetCurBlockViewID s) || negb (msg_BlockNum recvMsg =? blockNum s)).

Definition MaxBlockNumDiff : Z := 100.

Definition isRightBlockNumCheck (s : Consensus) (recvMsg : FBFTMessage) : bool :=
  if msg_BlockNum recvMsg <? blockNum s then false
  else if u64 (msg_BlockNum recvMsg - blockNum s) >? MaxBlockNumDiff then false
  else true.

(** The log calls name the leader. *)
Definition onAnnounceSanityChecks (s : Consensus) (recvMsg : FBFTMessage) : option bool :=
  match GetMessagesByTypeSeqView (c_FBFTLog s) MessageType_ANNOUNCE (msg_BlockNum recvMsg) (msg_ViewID recvMsg) with
  | [] => Some (isRightBlockNumCheck s recvMsg)
  | logMsg :: _ =>
      if negb (HasSingleSender logMsg) || negb (HasSingleSender recvMsg) then Some false
      else leader ← LeaderPubKey_ s; Some (isRightBlockNumCheck s recvMsg)
  end.

Definition onPreparedSanityChecks (s : Consensus) (blockObj : Block) (recvMsg : FBFTMessage) : bool :=
  if negb (blk_NumberU64 blockObj =? msg_BlockNum recvMsg) || (msg_BlockNum recvMsg <? blockNum s) then false
  else blk_Hash blockObj =? msg_BlockHash recvMsg.

(** ** Building messages (construct.go, consensus_service.go) *)

(** [p2p.ConstructMessage] and [proto.ConstructConsensusMessage]. *)
Definition p2p_ConstructMessage (content : list Z) : list Z :=
  17 :: be_bytes 4 (Z.of_nat (length content)) ++ content.

Definition ConstructConsensusMessage (payload : list Z) : list Z := 0 :: payload.

Definition populateMessageFields (s : Consensus) (request : ConsensusRequest) (hash : list Z) : ConsensusRequest :=
  mk_request (req_Type request) (GetCurBlockViewID s) (blockNum s) (ShardID s) hash (req_Block request)
    (req_SenderPubkey request) (req_Payload request) (req_SenderPubkeyBitmap request).

Definition populateMessageFieldsAndSendersBitmap (s : Consensus) (request : ConsensusRequest) (hash bitmap : list Z)
    : ConsensusRequest :=
  let request := populateMessageFields s request hash in
  mk_request (req_Type request) (req_ViewId request) (req_BlockNum request) (req_ShardId request)
    (req_BlockHash request) (req_Block request) (req_SenderPubkey request) (req_Payload request) bitmap.

Definition populateMessageFieldsAndSender (s : Consensus) (request : ConsensusRequest) (hash : list Z)
    (pubKey : SerializedPublicKey) : ConsensusRequest :=
  let request := populateMessageFields s request hash in
  mk_request (req_Type request) (req_ViewId request) (req_BlockNum request) (req_ShardId request)
    (req_BlockHash request) (req_Block request) (be_bytes 48 pubKey) (req_Payload request)
    (req_SenderPubkeyBitmap request).

Definition set_payload (request : ConsensusRequest) (blockBytes payload : list Z) : ConsensusRequest :=
  mk_request (req_Type request) (req_ViewId request) (req_BlockNum request) (req_ShardId request)
    (req_BlockHash request) blockBytes (req_SenderPubkey request) payload (req_SenderPubkeyBitmap request).

(** [None] is a nil bitmap being dereferenced. *)
Definition constructQuorumSigAndBitmap (s : Consensus) (p : Phase) : option (list Z) :=
  let aggSig := AggregateVotes AggregateSig (ident (Decider s)) p in
  match p with
  | Prepare => mask ← prepareBitmap s; Some (Serialize aggSig ++ Bitmap mask)
  | Commit => mask ← commitBitmap s; Some (Serialize aggSig ++ Bitmap mask)
  | _ => Some []
  end.

(** The sum of the node's signatures on a payload; a nil signature is skipped. *)
Definition sum_signatures (priKeys : list PrivateKeyWrapper) (payload : list Z) : Sign :=
  foldl (fun sig priKey => match SignHash (Pri priKey) payload with
                           | Some s => sign_Add sig s
                           | None => sig
                           end) sign_zero priKeys.

(** [None] is the panic on a nil signature. *)
Definition signMessage (message : list Z) (key : SecretKey) : option (list Z) :=
  signature ← SignHash key (hash_Keccak256 message); Some (Serialize signature).

(** The message with its signature; the inner [None] is an error. *)
Definition signConsensusMessage (request : ConsensusRequest) (key : SecretKey) : option (option Message) :=
  match protobuf_Marshal (mk_message request []) with
  | None => Some None
  | Some marshaledMessage =>
      signature ← signMessage marshaledMessage key; Some (Some (mk_message request signature))
  end.

Definition signAndMarshalConsensusMessage (request : ConsensusRequest) (key : SecretKey)
    : option (option (list Z)) :=
  signed ← signConsensusMessage request key;
  match signed with
  | None => Some None
  | Some message => Some (protobuf_Marshal message)
  end.

(** A message of several senders is parsed with the committee's bitmap. *)
Definition parse_request (s : Consensus) (request : ConsensusRequest) : option (option FBFTMessage) :=
  if negb (bool_decide (length (req_SenderPubkey request) = 0%nat))
  then Some (ParseFBFTMessage BytesToBLSPublicKey (fun _ => None) request)
  else mask ← multiSigBitmap s;
       Some (ParseFBFTMessage BytesToBLSPublicKey (GetSignedPubKeysFromBitmap mask) request).

(** What [construct] returns: an error, a nil message without an error (when the
    message it built does not parse), or the message. *)
Inductive construct_result : Type :=
| ConstructErr
| ConstructNil
| Constructed (n : NetworkMessage).

(** The request without its payload; [None] is an error of [NewMask]. *)
Definition request_of (s : Consensus) (p : MessageType) (priKeys : list PrivateKeyWrapper)
    : option ConsensusRequest :=
  let request := mk_request p 0 0 0 [] [] [] [] [] in
  match priKeys with
  | [key] => Some (populateMessageFieldsAndSender s request (hash_bytes (blockHash s)) (key_Bytes (Pub key)))
  | _ =>
      match NewMask (Participants (ident (Decider s))) with
      | None => None
      | Some mask =>
          let mask := foldl (fun mask key => default mask (SetKey mask (key_Bytes (Pub key)))) mask priKeys in
          Some (populateMessageFieldsAndSendersBitmap s request (hash_bytes (blockHash s)) (Bitmap mask))
      end
  end.

(** The [switch] on the message type: the request with block and payload, and
    whether the message itself is signed. *)
Definition fill_payload (s : Consensus) (p : MessageType) (payloadForSign : list Z)
    (priKeys : list PrivateKeyWrapper) (request : ConsensusRequest) : option (ConsensusRequest * bool) :=
  if p =? MessageType_ANNOUNCE then Some (set_payload request (req_Block request) (hash_bytes (blockHash s)), true)
  else if p =? MessageType_PREPARE then
    Some (set_payload request (req_Block request) (Serialize (sum_signatures priKeys (req_BlockHash request))), false)
  else if p =? MessageType_COMMIT then
    Some (set_payload request (req_Block request) (Serialize (sum_signatures priKeys payloadForSign)), false)
  else if p =? MessageType_PREPARED then
    payload ← constructQuorumSigAndBitmap s Prepare; Some (set_payload request (block s) payload, true)
  else if p =? MessageType_COMMITTED then
    payload ← constructQuorumSigAndBitmap s Commit; Some (set_payload request (req_Block request) payload, true)
  else Some (request, true).

Definition construct (s : Consensus) (p : MessageType) (payloadForSign : list Z) (priKeys : list PrivateKeyWrapper)
    : option construct_result :=
  match priKeys with
  | [] => Some ConstructErr
  | key0 :: _ =>
      match request_of s p priKeys with
      | None => Some ConstructErr
      | Some request =>
          '(request, needMsgSig) ← fill_payload s p payloadForSign priKeys request;
          marshaled ← (if needMsgSig : bool then signAndMarshalConsensusMessage request (Pri key0)
                       else Some (protobuf_Marshal (mk_message request [])));
          match marshaled with
          | None => Some ConstructErr
          | Some marshaledMessage =>
              parsed ← parse_request s request;
              match parsed with
              | None => Some ConstructNil
              | Some FBFTMsg => Some (Constructed (mk_network p (ConstructConsensusMessage marshaledMessage) FBFTMsg))
              end
          end
      end
  end.

(** A caller that goes on after [construct] dereferences what it got. *)
Definition construct_or {A} (p : MessageType) (priKeys : list PrivateKeyWrapper) (on_err : MC A)
    (k : NetworkMessage -> MC A) : MC A :=
  s ← mget;
  r ← mlift (construct s p [] priKeys);
  match r with
  | ConstructErr => on_err
  | ConstructNil => mpanic
  | Constructed n => k n
  end.

(** ** Changing the state *)

Definition modify_log (f : FBFTLog -> FBFTLog) : MC () := mmodify (fun s => set_c_FBFTLog (f (c_FBFTLog s)) s).
Definition modify_sender (f : MessageSender -> MessageSender) : MC () :=
  mmodify (fun s => set_msgSender (f (msgSender s)) s).
Definition spawn (t : task) : MC () := mmodify (fun s => set_goroutines (goroutines s ++ [t]) s).
Definition start_consensus_timer : MC () :=
  mmodify (fun s => set_timeoutConsensus (Timeout_Start (clock s) (timeoutConsensus s)) s).

Definition SetCurBlockViewID (viewID : Z) : MC () := mmodify (set_blockViewID viewID).
Definition SetViewIDs (height : Z) : MC () := SetCurBlockViewID height.
Definition SetMode (m : Mode) : MC () := mmodify (set_mode m).
Definition SetBlockNum (n : Z) : MC () := mmodify (set_blockNum n).
Definition SetBlockVerifier (verifier : Block -> bool) : MC () := mmodify (set_BlockVerifier (Some verifier)).
Definition switchPhase (desired : FBFTPhase) : MC () := mmodify (set_phase desired).

(** A failing vote leaves the decider as it was; [true] is success. *)
Definition add_vote (p : Phase) (keys : list PublicKeyWrapper) (sig : Sign) (hash num viewID : Z) : MC bool :=
  s ← mget;
  let '(d, r) := AddNewVote (Decider s) p keys (Serialize sig) hash num viewID in
  _ ← mmodify (set_Decider d);
  mret (match r with inl _ => true | inr _ => false end).

(** [GetNextRnd]: an entry holds 516 bytes of output and 32 of seed. *)
Definition vdFAndProofSize : nat := 516.

Definition GetNextRnd : MC (option (list Z * list Z)) :=
  s ← mget;
  match pendingRnds s with
  | [] => mret None
  | vdfOutput :: rest =>
      _ ← mmodify (set_pendingRnds rest);
      mret (Some (take vdFAndProofSize vdfOutput, drop vdFAndProofSize vdfOutput))
  end.

(** A failing [NewMask] leaves a nil mask. *)
Definition UpdateBitmaps : MC () :=
  s ← mget;
  let mask := NewMask (Participants (ident (Decider s))) in
  _ ← mmodify (set_prepareBitmap mask);
  _ ← mmodify (set_commitBitmap mask);
  mmodify (set_multiSigBitmap mask).

Definition ResetState : MC () :=
  _ ← switchPhase FBFTAnnounce;
  _ ← mmodify (set_blockHash 0);
  _ ← mmodify (set_block []);
  _ ← mmodify (fun s => set_Decider (ResetPrepareAndCommitVotes (Decider s)) s);
  _ ← mmodify (fun s => set_prepareBitmap (Clear <$> prepareBitmap s) s);
  _ ← mmodify (fun s => set_commitBitmap (Clear <$> commitBitmap s) s);
  _ ← mmodify (set_aggregatedPrepareSig None);
  mmodify (set_aggregatedCommitSig None).

Definition UpdatePublicKeys (pubKeys : list PublicKeyWrapper) : MC Z :=
  _ ← mmodify (fun s => set_Decider (mk_decider (UpdateParticipants (ident (Decider s)) pubKeys)
                                       (publicKeyProvider (Decider s))) s);
  s ← mget;
  _ ← match Participants (ident (Decider s)) with
      | [] => mret tt
      | key :: _ => mmodify (set_LeaderPubKey_ (Some key))
      end;
  _ ← UpdateBitmaps;
  _ ← ResetState;
  mgets (fun s => ParticipantsCount (ident (Decider s))).

(** The committee [UpdateConsensusInformation] installs; [None] is one of its
    early returns of [Syncing]. *)
Definition committee_to_set (c : B) : option Committee :=
  let curHeader := CurrentHeader c in
  let next :=
    if blk_IsLastBlockInEpoch curHeader
    then match GetShardStateEpoch c with
         | None => None
         | Some (Some epoch) => Some epoch
         | Some None => Some (blk_Epoch curHeader + 1)
         end
    else Some (blk_Epoch curHeader + 1) in
  match next with
  | None => None
  | Some nextEpoch =>
      match ReadFromDB c (blk_Epoch curHeader) with
      | None => None
      | Some curShardState =>
          if blk_IsLastBlockInEpoch curHeader && (blk_NumberU64 curHeader >? 0) then
            match ReadFromDB c nextEpoch with
            | None => None
            | Some nextShardState => FindCommitteeByID nextShardState
            end
          else FindCommitteeByID curShardState
      end
  end.

Definition UpdateConsensusInformation : MC Mode :=
  s ← mget;
  match committee_to_set (Blockchain s) with
  | None => mret Syncing
  | Some committeeToSet =>
      let hasError := bool_decide (com_Slots committeeToSet = 0%nat) in
      let oldLeader := LeaderPubKey_ s in
      let pubKeys := BLSPublicKeys committeeToSet in
      _ ← UpdatePublicKeys pubKeys;
      s ← mget;
      if existsb (fun key => Contains (GetPublicKeys s) (key_Object key)) pubKeys then
        if hasError then mret Syncing
        else
          let changed := match oldLeader, LeaderPubKey_ s with
                         | Some old, Some new => negb (key_Object new =? key_Object old)
                         | _, _ => false
                         end in
          isLeader ← (if changed then mlift (IsLeader s) else mret false);
          _ ← (if changed && isLeader
               then mmodify (fun s => set_ReadySignal (ReadySignal s ++ [SyncProposal]) s)
               else mret tt);
          mret Normal
      else mret Listening
  end.

(** ** Committing a block (consensus.go) *)

Definition SetupForNewConsensus (blk : Block) (committedMsg : FBFTMessage) : MC () :=
  _ ← SetBlockNum (u64 (blk_NumberU64 blk + 1));
  leader ← mlift (head (SenderPubkeys committedMsg));
  _ ← mmodify (set_LeaderPubKey_ (Some leader));
  _ ← (if blk_IsLastBlockInEpoch blk then m ← UpdateConsensusInformation; SetMode m else mret tt);
  _ ← modify_log (fun log => PruneCacheBeforeBlock log (blk_NumberU64 blk));
  ResetState.

(** [true] is success; calling a [PostConsensusJob] that was not set panics. *)
Definition commitBlock (blk : Block) (committedMsg : FBFTMessage) : MC bool :=
  s ← mget;
  inserted ← (if blk_NumberU64 (CurrentHeader (Blockchain s)) <? blk_NumberU64 blk then
                let '(c, ok) := InsertChain blk (Blockchain s) in
                _ ← mmodify (set_Blockchain c); mret ok
              else mret true);
  if negb inserted then mret false
  else if negb (HasSingleSender committedMsg) then mret false
  else if negb (PostConsensusJob s) then mpanic
  else _ ← SetupForNewConsensus blk committedMsg; mret true.

(** [blk.SetCurrentCommitSig] changes the block the log points to. *)
Definition attach_commit_sig (blk : Block) (sig : list Z) : MC Block :=
  _ ← modify_log (fun log => mk_log (alter (fun b => SetCurrentCommitSig b sig) (blk_Hash blk) (blocks log))
                               (verifiedBlocks log) (messages log));
  mret (SetCurrentCommitSig blk sig).

Definition stop_bootstrap_timer : MC () :=
  mmodify (fun s => if IsActive (timeoutBootstrap s)
                    then set_timeoutBootstrap (Timeout_Stop (clock s) (timeoutBootstrap s)) s else s).

Definition finalCommit : MC () :=
  s ← mget;
  leaderPriKey ← mlift (GetConsensusLeaderPrivateKey s);
  match leaderPriKey with
  | None => mret tt
  | Some leaderPriKey =>
      construct_or MessageType_COMMITTED [leaderPriKey] (mret tt) (fun network =>
        let FBFTMsg := net_FBFTMsg network in
        let commitSigAndBitmap := msg_Payload FBFTMsg in
        _ ← modify_log (fun log => AddVerifiedMessage log FBFTMsg);
        s ← mget;
        match GetBlockByHash (c_FBFTLog s) (blockHash s) with
        | None => mret tt
        | Some block =>
            _ ← mmodify (fun s => set_Blockchain (WriteCommitSig (blk_NumberU64 block) commitSigAndBitmap (Blockchain s)) s);
            block ← attach_commit_sig block commitSigAndBitmap;
            _ ← commitBlock block FBFTMsg;
            s ← mget;
            isLeader ← mlift (IsLeader s);
            let p2pMsg := p2p_ConstructMessage (net_Bytes network) in
            _ ← (if negb isLeader || blk_IsLastBlockInEpoch block then
                   _ ← modify_sender (fun ms => SendWithRetry ms (blk_NumberU64 block) MessageType_COMMITTED p2pMsg);
                   start_consensus_timer
                 else modify_sender (fun ms => DelayedSendWithRetry ms (blk_NumberU64 block) MessageType_COMMITTED p2pMsg));
            _ ← stop_bootstrap_timer;
            if isLeader : bool then
              if blk_IsLastBlockInEpoch block
              then mmodify (fun s => set_ReadySignal (ReadySignal s ++ [SyncProposal]) s)
              else mmodify (fun s => set_CommitSigChannel (CommitSigChannel s ++ [commitSigAndBitmap]) s)
            else mret tt
        end)
  end.

(** Errors of [preCommitAndPropose] are dropped by its caller. *)
Definition preCommitAndPropose (blk : Block) : MC () :=
  s ← mget;
  leaderPriKey ← mlift (GetConsensusLeaderPrivateKey s);
  match leaderPriKey with
  | None => mret tt
  | Some leaderPriKey =>
      s ← mget;
      r ← mlift (construct s MessageType_COMMITTED [] [leaderPriKey]);
      match r with
      | ConstructErr => mret tt
      | ConstructNil => mpanic
      | Constructed network => spawn (TPreCommit network blk)
      end
  end.

(** The goroutine of [preCommitAndPropose]. *)
Definition run_pre_commit (network : NetworkMessage) (blk : Block) : MC () :=
  let FBFTMsg := net_FBFTMsg network in
  _ ← modify_log (fun log => AddVerifiedMessage log FBFTMsg);
  blk ← attach_commit_sig blk (msg_Payload FBFTMsg);
  s ← mget;
  let '(c, ok) := InsertChain blk (Blockchain s) in
  _ ← mmodify (set_Blockchain c);
  if negb ok then mret tt
  else
    _ ← modify_sender (fun ms => SendWithRetry ms (blk_NumberU64 blk) MessageType_COMMITTED
                                   (p2p_ConstructMessage (net_Bytes network)));
    _ ← start_consensus_timer;
    mmodify (fun s => set_ReadySignal (ReadySignal s ++ [AsyncProposal]) s).

(** *** Catching up *)

Definition postCatchup (initBN : Z) : MC () :=
  s ← mget; if initBN <? blockNum s then switchPhase FBFTAnnounce else mret tt.

(** The loop of [getLastMileBlocksAndMsg]; [None] is running out of fuel. *)
Fixpoint last_mile (fuel : nat) (log : FBFTLog) (bn : Z) : option (list (Block * FBFTMessage)) :=
  match fuel with
  | O => None
  | S fuel' =>
      match GetCommittedBlockAndMsgsFromNumber log bn with
      | None => Some []
      | Some bm => rest ← last_mile fuel' log (u64 (bn + 1)); Some (bm :: rest)
      end
  end.

(** Every block found uses up a message of the log. *)
Definition getLastMileBlocksAndMsg (log : FBFTLog) (bnStart : Z) : option (list (Block * FBFTMessage)) :=
  last_mile (S (size (messages log))) log bnStart.

(** Verify unless verified before; [false] is a failed verification. *)
Definition verify_once (verify : Block -> bool) (blk : Block) : MC bool :=
  s ← mget;
  if IsBlockVerified (c_FBFTLog s) blk then mret true
  else if verify blk then _ ← modify_log (fun log => MarkBlockVerified log blk); mret true
  else mret false.

Fixpoint catchup_loop (verify : Block -> bool) (l : list (Block * FBFTMessage)) : MC () :=
  match l with
  | [] => mret tt
  | (blk, msg) :: l' =>
      blk ← attach_commit_sig blk (msg_Payload msg);
      verified ← verify_once verify blk;
      if negb verified then mret tt
      else
        committed ← commitBlock blk msg;
        if negb committed then mret tt else catchup_loop verify l'
  end.

Definition tryCatchup : MC () :=
  s ← mget;
  match BlockVerifier s with
  | None => mret tt
  | Some verify =>
      l ← mlift (getLastMileBlocksAndMsg (c_FBFTLog s) (blockNum s));
      _ ← catchup_loop verify l;
      postCatchup (blockNum s)
  end.

(** [LastMileBlockIter]: the candidates still to come. *)
Definition GetLastMileBlockIter (s : Consensus) (bnStart : Z) : option (option (list Block)) :=
  match BlockVerifier s with
  | None => Some None
  | Some _ =>
      match getLastMileBlocksAndMsg (c_FBFTLog s) bnStart with
      | None => None
      | Some l => Some (Some l.*1)
      end
  end.

(** [Next]: the block or nil, and the remaining candidates. *)
Definition LastMileBlockIter_Next (verify : Block -> bool) (iter : list Block) : MC (option Block * list Block) :=
  match iter with
  | [] => mret (None, [])
  | block :: iter' =>
      verified ← verify_once verify block;
      mret (if verified : bool then Some block else None, iter')
  end.

(** ** Leader (leader.go, threshold.go, double_sign.go) *)

Definition bitmap_of (s : Consensus) (p : Phase) : option Mask :=
  match p with Prepare => prepareBitmap s | _ => commitBitmap s end.

Definition set_bitmap (p : Phase) (m : Mask) (s : Consensus) : Consensus :=
  match p with Prepare => set_prepareBitmap (Some m) s | _ => set_commitBitmap (Some m) s end.

(** The loop in which the leader signs with its own keys: a key without a place in
    the bitmap is skipped; a failing vote ends the loop when [stop] is set. *)
Fixpoint sign_own (p : Phase) (stop : bool) (payload : list Z) (hash num : Z) (keys : list PrivateKeyWrapper)
    : MC bool :=
  match keys with
  | [] => mret true
  | key :: keys' =>
      s ← mget;
      mask ← mlift (bitmap_of s p);
      match SetKey mask (key_Bytes (Pub key)) with
      | None => sign_own p stop payload hash num keys'
      | Some mask =>
          _ ← mmodify (set_bitmap p mask);
          sig ← mlift (SignHash (Pri key) payload);
          ok ← add_vote p [Pub key] sig hash num 0;
          if negb ok && stop then mret false else sign_own p stop payload hash num keys'
      end
  end.

Definition announce (block : Block) : MC () :=
  match rlp_EncodeToBytes block with
  | None => mret tt
  | Some encodedBlock =>
      _ ← mmodify (set_blockHash (blk_Hash block));
      _ ← mmodify (set_block encodedBlock);
      s ← mget;
      key ← mlift (GetConsensusLeaderPrivateKey s);
      match key with
      | None => mret tt
      | Some key =>
          construct_or MessageType_ANNOUNCE [key] (mret tt) (fun network =>
            _ ← modify_log (fun log => AddVerifiedMessage log (net_FBFTMsg network));
            _ ← modify_log (fun log => AddBlock log block);
            s ← mget;
            ok ← sign_own Prepare true (hash_bytes (blockHash s)) (blk_Hash block) (blk_NumberU64 block) (priKey s);
            if negb ok then mret tt
            else
              _ ← modify_sender (fun ms => SendWithRetry ms (blockNum s) MessageType_ANNOUNCE
                                             (p2p_ConstructMessage (net_Bytes network)));
              switchPhase FBFTPrepare)
      end
  end.

(** [true] is the nil error. *)
Definition didReachPrepareQuorum : MC bool :=
  s ← mget;
  leaderPriKey ← mlift (GetConsensusLeaderPrivateKey s);
  match leaderPriKey with
  | None => mret false
  | Some leaderPriKey =>
      construct_or MessageType_PREPARED [leaderPriKey] (mret false) (fun network =>
        _ ← mmodify (set_aggregatedPrepareSig None);
        _ ← modify_log (fun log => AddVerifiedMessage log (net_FBFTMsg network));
        s ← mget;
        match rlp_DecodeBytes (block s) with
        | None => mret false
        | Some blockObj =>
            ok ← sign_own Commit true (commit_payload blockObj) (blk_Hash blockObj) (blk_NumberU64 blockObj) (priKey s);
            if negb ok then mret false
            else
              _ ← modify_sender (fun ms => SendWithRetry ms (blockNum s) MessageType_PREPARED
                                             (p2p_ConstructMessage (net_Bytes network)));
              _ ← modify_sender (fun ms => StopRetry ms MessageType_ANNOUNCE);
              _ ← modify_sender (fun ms => StopRetry ms MessageType_COMMITTED);
              mret true
        end)
  end.

(** Whether one of the senders has a ballot of the phase already. *)
Definition already_voted (s : Consensus) (p : Phase) (recvMsg : FBFTMessage) : bool :=
  existsb (fun signer => match ReadBallot (ident (Decider s)) p (key_Bytes signer) with Some _ => true | None => false end)
    (SenderPubkeys recvMsg).

Definition onPrepare (recvMsg : FBFTMessage) : MC () :=
  s ← mget;
  if already_voted s Prepare recvMsg then mret tt
  else if IsQuorumAchieved (Decider s) Prepare then mret tt
  else
    match Deserialize (msg_Payload recvMsg) with
    | None => mret tt
    | Some sign =>
        if negb (VerifyHash sign (signer_key recvMsg) (hash_bytes (blockHash s))) then mret tt
        else
          ok ← add_vote Prepare (SenderPubkeys recvMsg) sign (msg_BlockHash recvMsg) (msg_BlockNum recvMsg)
                 (msg_ViewID recvMsg);
          if negb ok then mret tt
          else
            mask ← mlift (prepareBitmap s);
            match SetKeysAtomic mask (SenderPubkeys recvMsg) with
            | None => mret tt
            | Some mask =>
                _ ← mmodify (set_prepareBitmap (Some mask));
                s ← mget;
                if IsQuorumAchieved (Decider s) Prepare then
                  ok ← didReachPrepareQuorum;
                  if negb ok then mret tt else switchPhase FBFTCommit
                else mret tt
            end
    end.

(** *** Double signing (double_sign.go) *)

Definition couldThisBeADoubleSigner (s : Consensus) (recvMsg : FBFTMessage) : bool :=
  negb (HasMatchingAnnounce (c_FBFTLog s) (blockNum s) (msg_BlockHash recvMsg))
  || negb (HasMatchingPrepared (c_FBFTLog s) (blockNum s) (msg_BlockHash recvMsg)).

(** The sub-committee of the current epoch. *)
Definition current_committee (c : B) : option Committee :=
  st ← ReadFromDB c (blk_Epoch (CurrentHeader c)); FindCommitteeByID st.

(** What the loops carry: the addresses already reported, the records sent, and
    whether an error has returned from the function. *)
Definition slash_acc : Type := gset Z * list SlashRecord * bool.

(** The body for a conflicting block of the same height; [None] is the panic on a
    nil leader. *)
Definition report_double_sign (s : Consensus) (recvMsg : FBFTMessage) (ballot : Ballot) (pubKey2 : SerializedPublicKey)
    (acc : slash_acc) : option slash_acc :=
  let '(addrSet, records, _) := acc in
  match Deserialize (msg_Payload recvMsg), current_committee (Blockchain s) with
  | Some doubleSign, Some subComm =>
      match AddressForBLSKey subComm pubKey2 with
      | None => Some (addrSet, records, true)
      | Some addr =>
          if decide (addr ∈ addrSet) then Some acc
          else
            leader ← LeaderPubKey_ s;
            match AddressForBLSKey subComm (key_Bytes leader) with
            | None => Some (addrSet, records, true)
            | Some leaderAddr =>
                let proof := mk_slash
                  (merge_sort Z.le (SignerPubKeys ballot), BlockHeaderHash ballot, Signature ballot)
                  (merge_sort Z.le (key_Bytes <$> SenderPubkeys recvMsg), msg_BlockHash recvMsg, Serialize doubleSign)
                  (blk_Epoch (CurrentHeader (Blockchain s)), msg_BlockNum recvMsg, msg_ViewID recvMsg)
                  addr leaderAddr in
                Some ({[addr]} ∪ addrSet, records ++ [proof], false)
            end
      end
  | _, _ => Some (addrSet, records, true)
  end.

(** The loop over the blocks of that height ends at the first conflicting one. *)
Fixpoint slash_blocks (s : Consensus) (recvMsg : FBFTMessage) (ballot : Ballot) (pubKey2 : SerializedPublicKey)
    (blks : list Block) (acc : slash_acc) : option slash_acc :=
  match blks with
  | [] => Some acc
  | blk :: blks' =>
      if (blk_NumberU64 blk =? msg_BlockNum recvMsg) && negb (blk_Hash blk =? msg_BlockHash recvMsg)
      then report_double_sign s recvMsg ballot pubKey2 acc
      else slash_blocks s recvMsg ballot pubKey2 blks' acc
  end.

Fixpoint slash_signers (s : Consensus) (recvMsg : FBFTMessage) (ballot : Ballot) (pubKey2 : SerializedPublicKey)
    (keys : list SerializedPublicKey) (acc : slash_acc) : option slash_acc :=
  match keys with
  | [] => Some acc
  | pubKey1 :: keys' =>
      let next := if pubKey2 =? pubKey1
                  then slash_blocks s recvMsg ballot pubKey2 (GetBlocksByNumber (c_FBFTLog s) (msg_BlockNum recvMsg)) acc
                  else Some acc in
      match next with
      | None => None
      | Some acc => if snd acc then Some acc else slash_signers s recvMsg ballot pubKey2 keys' acc
      end
  end.

Fixpoint slash_senders (s : Consensus) (recvMsg : FBFTMessage) (senders : list PublicKeyWrapper) (acc : slash_acc)
    : option slash_acc :=
  match senders with
  | [] => Some acc
  | pubKey2 :: senders' =>
      let next := match ReadBallot (ident (Decider s)) Commit (key_Bytes pubKey2) with
                  | None => Some acc
                  | Some ballot => slash_signers s recvMsg ballot (key_Bytes pubKey2) (SignerPubKeys ballot) acc
                  end in
      match next with
      | None => None
      | Some acc => if snd acc then Some acc else slash_senders s recvMsg senders' acc
      end
  end.

Definition checkDoubleSign (recvMsg : FBFTMessage) : MC bool :=
  s ← mget;
  if couldThisBeADoubleSigner s recvMsg then
    acc ← mlift (slash_senders s recvMsg (SenderPubkeys recvMsg) (∅, [], false));
    _ ← mmodify (fun s => set_SlashChan (SlashChan s ++ snd (fst acc)) s);
    mret true
  else mret false.

Definition onCommit (recvMsg : FBFTMessage) : MC () :=
  s ← mget;
  if negb (isRightBlockNumAndViewID s recvMsg) then mret tt
  else if already_voted s Commit recvMsg then mret tt
  else
    let quorumWasMet := IsQuorumAchieved (Decider s) Commit in
    match Deserialize (msg_Payload recvMsg) with
    | None => mret tt
    | Some sign =>
        match GetBlockByHash (c_FBFTLog s) (msg_BlockHash recvMsg) with
        | None => mret tt
        | Some blockObj =>
            if negb (VerifyHash sign (signer_key recvMsg) (commit_payload blockObj)) then mret tt
            else
              doubleSign ← checkDoubleSign recvMsg;
              if doubleSign : bool then mret tt
              else
                ok ← add_vote Commit (SenderPubkeys recvMsg) sign (msg_BlockHash recvMsg) (msg_BlockNum recvMsg) 0;
                if negb ok then mret tt
                else
                  mask ← mlift (commitBitmap s);
                  match SetKeysAtomic mask (SenderPubkeys recvMsg) with
                  | None => mret tt
                  | Some mask =>
                      _ ← mmodify (set_commitBitmap (Some mask));
                      s ← mget;
                      if IsAllSigsCollected (Decider s) then
                        _ ← finalCommit;
                        modify_sender (fun ms => StopRetry ms MessageType_PREPARED)
                      else if negb quorumWasMet && IsQuorumAchieved (Decider s) Commit then
                        _ ← (if negb (blk_IsLastBlockInEpoch blockObj) then preCommitAndPropose blockObj else mret tt);
                        _ ← spawn (TGrace (GetCurBlockViewID s));
                        modify_sender (fun ms => StopRetry ms MessageType_PREPARED)
                      else mret tt
                  end
        end
    end.

(** The end of the grace period of [onCommit]. *)
Definition run_grace (viewID : Z) : MC () :=
  s ← mget; if viewID =? GetCurBlockViewID s then finalCommit else mret tt.

(** [selfCommit] has no caller left; [true] is the nil error. *)
Definition selfCommit (payload : list Z) : MC bool :=
  if (length payload <? 32)%nat then mpanic
  else
    s ← mget;
    let hash := be_int (take 32 payload) in
    match GetBlockByHash (c_FBFTLog s) hash with
    | None => mret false
    | Some blockObj =>
        match ReadSignatureBitmapPayload s payload 32 with
        | None => mret false
        | Some (aggSig, mask) =>
            _ ← ResetState;
            _ ← mmodify (set_blockHash hash);
            _ ← switchPhase FBFTCommit;
            _ ← mmodify (set_aggregatedPrepareSig (Some aggSig));
            _ ← mmodify (set_prepareBitmap (Some mask));
            s ← mget;
            _ ← sign_own Commit false (commit_payload blockObj) hash (blk_NumberU64 blockObj) (priKey s);
            mret true
        end
    end.

(** ** Validator (validator.go) *)

Definition spinUpStateSync : MC () :=
  s ← mget;
  if BlockNumLowChan s then mret tt
  else
    _ ← mmodify (set_BlockNumLowChan true);
    _ ← SetMode Syncing;
    _ ← mmodify (fun s => set_timeoutConsensus (Timeout_Stop (clock s) (timeoutConsensus s)) s);
    mmodify (fun s => set_timeoutBootstrap (Timeout_Stop (clock s) (timeoutBootstrap s)) s).

(** The messages of [constructP2pMessages]; a nil message without an error is
    appended like the others. *)
Definition collect_message (s : Consensus) (msgType : MessageType) (payload : list Z) (priKeys : list PrivateKeyWrapper)
    (acc : list (option NetworkMessage)) : option (list (option NetworkMessage)) :=
  r ← construct s msgType payload priKeys;
  Some (match r with
        | ConstructErr => acc
        | ConstructNil => acc ++ [None]
        | Constructed n => acc ++ [Some n]
        end).

Fixpoint collect_messages (s : Consensus) (msgType : MessageType) (payload : list Z) (priKeys : list PrivateKeyWrapper)
    (acc : list (option NetworkMessage)) : option (list (option NetworkMessage)) :=
  match priKeys with
  | [] => Some acc
  | key :: priKeys' => acc ← collect_message s msgType payload [key] acc; collect_messages s msgType payload priKeys' acc
  end.

Definition constructP2pMessages (s : Consensus) (msgType : MessageType) (payload : list Z)
    (priKeys : list PrivateKeyWrapper) : option (list (option NetworkMessage)) :=
  if AggregateSig_ s then collect_message s msgType payload priKeys []
  else collect_messages s msgType payload priKeys [].

(** A failing send ends the loop; nothing is sent while listening. *)
Fixpoint broadcastConsensusP2pMessages (p2pMsgs : list (option NetworkMessage)) : MC () :=
  match p2pMsgs with
  | [] => mret tt
  | p2pMsg :: p2pMsgs' =>
      s ← mget;
      if decide (mode s = Listening) then broadcastConsensusP2pMessages p2pMsgs'
      else
        n ← mlift p2pMsg;
        let p2pBytes := p2p_ConstructMessage (net_Bytes n) in
        _ ← modify_sender (fun ms => SendWithoutRetry ms p2pBytes);
        if SendMessageToGroups p2pBytes then broadcastConsensusP2pMessages p2pMsgs' else mret tt
  end.

Definition send_prepare : MC () :=
  s ← mget;
  p2pMsgs ← mlift (constructP2pMessages s MessageType_PREPARE [] (getPriKeysInCommittee s));
  _ ← broadcastConsensusP2pMessages p2pMsgs;
  switchPhase FBFTPrepare.

(** [sendCommitMessages] has no caller left. *)
Definition sendCommitMessages (blockObj : Block) : MC () :=
  s ← mget;
  p2pMsgs ← mlift (constructP2pMessages s MessageType_COMMIT (commit_payload blockObj) (getPriKeysInCommittee s));
  broadcastConsensusP2pMessages p2pMsgs.

(** The error branch reads a field of the nil message. *)
Definition onAnnounce (msg : Message) : MC () :=
  s ← mget;
  parsed ← mlift (parse_request s (msg_request msg));
  recvMsg ← mlift parsed;
  ok ← mlift (onAnnounceSanityChecks s recvMsg);
  if negb ok then mret tt
  else
    _ ← modify_log (fun log => AddVerifiedMessage log recvMsg);
    _ ← mmodify (set_blockHash (msg_BlockHash recvMsg));
    send_prepare.

Definition onPrepared (recvMsg : FBFTMessage) : MC () :=
  s ← mget;
  if msg_BlockNum recvMsg <? blockNum s then mret tt
  else
    _ ← (if msg_BlockNum recvMsg >? blockNum s then spinUpStateSync else mret tt);
    match ReadSignatureBitmapPayload s (msg_Payload recvMsg) 0 with
    | None => mret tt
    | Some (aggSig, mask) =>
        quorum ← mlift (mask_quorum s mask);
        if negb quorum then mret tt
        else if negb (VerifyHash aggSig (AggregatePublic mask) (hash_bytes (msg_BlockHash recvMsg))) then mret tt
        else
          match rlp_DecodeBytes (msg_Block recvMsg) with
          | None => mret tt
          | Some blockObj =>
              if negb (onPreparedSanityChecks s blockObj recvMsg) then mret tt
              else
                _ ← modify_log (fun log => AddBlock log blockObj);
                _ ← mmodify (set_block (msg_Block recvMsg));
                let recvMsg := mk_msg (msg_Type recvMsg) (msg_ViewID recvMsg) (msg_BlockNum recvMsg)
                  (msg_BlockHash recvMsg) [] (SenderPubkeys recvMsg) (SenderPubkeyBitmap recvMsg)
                  (LeaderPubkey recvMsg) (msg_Payload recvMsg) (Verified recvMsg) in
                _ ← modify_log (fun log => AddVerifiedMessage log recvMsg);
                match BlockVerifier s with
                | None => mret tt
                | Some verify =>
                    if negb (verify blockObj) then mret tt
                    else
                      _ ← modify_log (fun log => MarkBlockVerified log blockObj);
                      if msg_BlockNum recvMsg >? blockNum s then mret tt
                      else
                        _ ← mmodify (set_aggregatedPrepareSig (Some aggSig));
                        _ ← mmodify (set_prepareBitmap (Some mask));
                        _ ← mmodify (set_blockHash (msg_BlockHash recvMsg));
                        spawn (TReplayStart blockObj)
                end
          end
    end.

(** An existing commit signature of the block is replaced when the new one has
    more signers; [SetMask] works on the mask that is now [commitBitmap]. *)
Definition override_commit_sig (blockObj : Block) (payload : list Z) (mask : Mask) : MC () :=
  s ← mget;
  match ReadCommitSig (Blockchain s) (blk_NumberU64 blockObj), chain_GetBlockByHash (Blockchain s) (blk_Hash blockObj) with
  | Some commitSigBitmap, Some _ =>
      if bool_decide (length commitSigBitmap = length payload) then
        let new := CountEnabled mask in
        let mask := default mask (SetMask mask (drop BLSSignatureSizeInBytes commitSigBitmap)) in
        _ ← mmodify (set_commitBitmap (Some mask));
        if new >? CountEnabled mask
        then mmodify (fun s => set_Blockchain (WriteCommitSig (blk_NumberU64 blockObj) payload (Blockchain s)) s)
        else mret tt
      else mret tt
  | _, _ => mret tt
  end.

Definition onCommitted (recvMsg : FBFTMessage) : MC () :=
  s ← mget;
  if msg_BlockNum recvMsg <? u64 (blockNum s - 1) then mret tt
  else
    _ ← (if msg_BlockNum recvMsg >? blockNum s then spinUpStateSync else mret tt);
    _ ← modify_log (fun log => AddNotVerifiedMessage log recvMsg);
    match ReadSignatureBitmapPayload s (msg_Payload recvMsg) 0 with
    | None => mret tt
    | Some (aggSig, mask) =>
        quorum ← mlift (mask_quorum s mask);
        if negb quorum then mret tt
        else
          match GetBlockByHash (c_FBFTLog s) (msg_BlockHash recvMsg) with
          | None => mret tt
          | Some blockObj =>
              if negb (VerifyHash aggSig (AggregatePublic mask) (commit_payload blockObj)) then mret tt
              else
                _ ← modify_log (fun log => AddVerifiedMessage log recvMsg);
                _ ← mmodify (set_aggregatedCommitSig (Some aggSig));
                _ ← mmodify (set_commitBitmap (Some mask));
                _ ← override_commit_sig blockObj (msg_Payload recvMsg) mask;
                _ ← tryCatchup;
                s' ← mget;
                if msg_BlockNum recvMsg >? blockNum s' then mret tt
                else
                  _ ← stop_bootstrap_timer;
                  if blockNum s <? blockNum s' then start_consensus_timer else mret tt
          end
    end.

(** The goroutine of [onPrepared]: it reads the messages to replay, then handles
    them one by one, each under the lock, until the node has moved on. *)
Definition run_replay_start (blk : Block) : MC () :=
  s ← mget;
  spawn (TReplay (blockNum s) (GetNotVerifiedCommittedMessages (c_FBFTLog s) (blk_NumberU64 blk) 0 (blk_Hash blk))).

Definition run_replay (curBlockNum : Z) (msgs : list FBFTMessage) : MC () :=
  match msgs with
  | [] => mret tt
  | committedMsg :: msgs' =>
      _ ← onCommitted committedMsg;
      s ← mget;
      if curBlockNum <? blockNum s then mret tt else spawn (TReplay curBlockNum msgs')
  end.

(** ** Messages and events (consensus.go) *)

Inductive handle_error : Type := errSenderPubKeyNotLeader | errVerifyMessageSignature | errUnableToParse.

(** [None] is the nil error. *)
Definition HandleMessageUpdate (msg : Message) (senderKey : SerializedPublicKey) : MC (option handle_error) :=
  s ← mget;
  let t := req_Type (msg_request msg) in
  wrong ← (if (t =? MessageType_ANNOUNCE) || (t =? MessageType_PREPARED) || (t =? MessageType_COMMITTED) then
             leader ← mlift (LeaderPubKey_ s);
             mret (negb (senderKey =? key_Bytes leader) && bool_decide (mode s = Normal) && negb (IgnoreViewIDCheck s))
           else mret false);
  if wrong : bool then mret (Some errSenderPubKeyNotLeader)
  else if negb (t =? MessageType_PREPARE) && negb (t =? MessageType_COMMIT) && negb (senderKeySanityChecks msg senderKey)
  then mret (Some errVerifyMessageSignature)
  else
    parsed ← mlift (parse_request s (msg_request msg));
    match parsed with
    | None => mret (Some errUnableToParse)
    | Some fbftMsg =>
        isLeader ← mlift (IsLeader s);
        _ ← (if (t =? MessageType_ANNOUNCE) && negb isLeader then onAnnounce msg
             else if (t =? MessageType_PREPARED) && negb isLeader then onPrepared fbftMsg
             else if (t =? MessageType_COMMITTED) && negb isLeader then onCommitted fbftMsg
             else if (t =? MessageType_PREPARE) && isLeader then onPrepare fbftMsg
             else if (t =? MessageType_COMMIT) && isLeader then onCommit fbftMsg
             else mret tt);
        mret None
    end.

(** [Start] until its main loop. *)
Definition on_start : MC () :=
  s ← mget;
  isLeader ← mlift (IsLeader s);
  _ ← (if isLeader : bool then mmodify (fun s => set_ReadySignal (ReadySignal s ++ [SyncProposal]) s) else mret tt);
  mmodify (fun s => set_timeoutBootstrap (Timeout_Start (clock s) (timeoutBootstrap s)) s).

(** The cases of the main loop of [Start].  The block of the last one carries the
    randomness the loop attaches to it. *)
Definition on_tick : MC () :=
  s ← mget;
  let stop := bool_decide (mode s = Syncing) || bool_decide (mode s = Listening) in
  let check t := fst (CheckExpire (clock s) (if stop then Timeout_Stop (clock s) t else t)) in
  _ ← mmodify (set_timeoutConsensus (check (timeoutConsensus s)));
  mmodify (set_timeoutBootstrap (check (timeoutBootstrap s))).

Definition on_sync_ready : MC () :=
  s ← mget;
  let next := u64 (blk_NumberU64 (CurrentHeader (Blockchain s)) + 1) in
  if blockNum s <? next then
    _ ← SetBlockNum next;
    m ← UpdateConsensusInformation;
    _ ← SetMode m;
    start_consensus_timer
  else mret tt.

Definition on_sync_not_ready : MC () :=
  s ← mget;
  _ ← SetBlockNum (u64 (blk_NumberU64 (CurrentHeader (Blockchain s)) + 1));
  SetMode Syncing.

Definition start_round (newBlock : Block) : MC () :=
  _ ← modify_sender (fun ms => Reset ms (blk_NumberU64 newBlock));
  announce newBlock.

Definition on_new_block (newBlock : Block) : MC () :=
  s ← mget; if blk_NumberU64 newBlock <? blockNum s then mret tt else start_round newBlock.

(** [New]: a node without keys is refused. *)
Definition New (now : Z) (shard : Z) (multiBLSPriKey : option (list PrivateKeyWrapper)) (decider : uniformVoteWeight)
    (blockchain : B) (aggregate post : bool) : option Consensus :=
  match multiBLSPriKey with
  | None => None
  | Some keys =>
      Some (mk_consensus decider NewFBFTLog FBFTAnnounce Normal 0 (NewTimeout now phaseDuration)
              (NewTimeout now bootstrapDuration) None None None None None blockchain keys None 0 0 [] shard false
              [] [] post None false [] NewMessageSender [] aggregate [] now)
  end.

Definition run_task (t : task) : MC () :=
  match t with
  | TGrace viewID => run_grace viewID
  | TPreCommit network blk => run_pre_commit network blk
  | TReplayStart blk => run_replay_start blk
  | TReplay curBlockNum msgs => run_replay curBlockNum msgs
  end.

(** What can happen to a node: a message arrives, a goroutine runs, the sender
    retries, the chain or the node object signals. *)
Inductive event : Type :=
| EvMessage (msg : Message) (senderKey : SerializedPublicKey)
| EvTask (i : nat)
| EvRetry (p : nat)
| EvStart
| EvTick (now : Z)
| EvSyncReady
| EvSyncNotReady
| EvNewBlock (b : Block)
| EvSetBlockVerifier (verifier : Block -> bool)
| EvUpdateInformation
| EvDrainLowChan
| EvRandomness (rnd : list Z).

Definition handle (e : event) : MC () :=
  match e with
  | EvMessage msg senderKey => _ ← HandleMessageUpdate msg senderKey; mret tt
  | EvTask i =>
      s ← mget;
      match goroutines s !! i with
      | None => mret tt
      | Some t => _ ← mmodify (set_goroutines (delete i (goroutines s))); run_task t
      end
  | EvRetry p => modify_sender (fun ms => Retry_wakeup ms p)
  | EvStart => on_start
  | EvTick now => _ ← mmodify (set_clock now); on_tick
  | EvSyncReady => on_sync_ready
  | EvSyncNotReady => on_sync_not_ready
  | EvNewBlock b => on_new_block b
  | EvSetBlockVerifier verifier => SetBlockVerifier verifier
  | EvUpdateInformation => m ← UpdateConsensusInformation; SetMode m
  | EvDrainLowChan => mmodify (set_BlockNumLowChan false)
  | EvRandomness rnd => mmodify (fun s => set_pendingRnds (pendingRnds s ++ [rnd]) s)
  end.

(** The states a node reaches without a panic. *)
Inductive creach (s0 : Consensus) : Consensus -> Prop :=
| creach_start : creach s0 s0
| creach_step s e s' : creach s0 s -> handle e s = Some (tt, s') -> creach s0 s'.

End Node.
