(* ===== verification/ConsensusInv.v ===== *)
(** * Invariants of a consensus node

    What holds in every state a node of [Consensus] reaches: the log files blocks
    under their hash, a verified COMMITTED message carries a quorum certificate
    or was built by this node, every message handed to the host is of a known
    kind, the view never changes and no evidence of double signing is sent.  Each
    handler is shown to keep the invariant with the [keeps] calculus. *)
From stdpp Require Import gmap list sorting.
From Stdlib Require Import ZArith Lia.
From S2P Require Import Prelude Quorum FbftLog MsgSender Consensus.

Local Open Scope Z_scope.

(** ** Generic facts *)

(** A property of every message handed to the sender. *)
Definition sender_all (P : list Z -> Prop) (ms : MessageSender) : Prop :=
  Forall P (sent ms) /\ Forall (fun r => P (rt_p2pMsg r)) (retries ms).

Lemma quieter_all (P : list Z -> Prop) rs rs' :
  quieter rs rs' -> Forall (fun r => P (rt_p2pMsg r)) rs -> Forall (fun r => P (rt_p2pMsg r)) rs'.
Proof.
  induction 1 as [|r r' rs rs' [->| ->] _ IH]; intros H; [done|..]; apply Forall_cons in H as [H1 H2]; constructor; auto.
Qed.

Lemma StopRetry_all P ms t : sender_all P ms -> sender_all P (StopRetry ms t).
Proof.
  intros [H1 H2]. destruct (StopRetry_quieter ms t) as (rs & -> & Hq). split; [done|]. by apply (quieter_all P (retries ms)).
Qed.

Lemma Send_all (P : list Z -> Prop) ms b : P b -> sender_all P ms -> sender_all P (SendWithoutRetry ms b).
Proof. intros Hb [H1 H2]. split; [|done]. apply Forall_app. by split; [|constructor]. Qed.

Lemma DelayedSend_all (P : list Z -> Prop) ms bn t b :
  P b -> sender_all P ms -> sender_all P (DelayedSendWithRetry ms bn t b).
Proof.
  intros Hb H. unfold DelayedSendWithRetry. case_match; [|done]. apply (StopRetry_all _ _ t) in H as [H1 H2].
  split; [done|]. apply Forall_app. by split; [|constructor].
Qed.

Lemma SendWithRetry_all (P : list Z -> Prop) ms bn t b :
  P b -> sender_all P ms -> sender_all P (SendWithRetry ms bn t b).
Proof. intros Hb H. by apply Send_all, DelayedSend_all. Qed.

Lemma Reset_all {order : RangeOrder} P ms bn : sender_all P ms -> sender_all P (Reset ms bn).
Proof.
  intros [H1 H2]. split; [done|]. apply (quieter_all P (retries ms)); [|done]. apply stop_loop_quieter, quieter_refl.
Qed.

Lemma Retry_wakeup_all P ms p : sender_all P ms -> sender_all P (Retry_wakeup ms p).
Proof.
  intros H. pose proof H as [H1 H2]. unfold Retry_wakeup. destruct (retries ms !! p) as [r|] eqn:E; [|done].
  pose proof (Forall_lookup_1 _ _ _ _ H2 E) as Hr.
  assert (Hi : forall r', rt_p2pMsg r' = rt_p2pMsg r -> sender_all P (set_retries ms (<[p := r']> (retries ms)))).
  { intros r' Er. split; [done|]. apply Forall_insert; [done|]. by rewrite Er. }
  repeat case_match; auto. apply Send_all; auto.
Qed.

Section Invariant.
Context {env : Env} {B : Type} {chain : ChainOps B} {order : RangeOrder}.
Implicit Types s : @Consensus env B.

(** ** Certificates *)

(** A COMMITTED message whose payload is a quorum certificate: for some committee,
    the payload reads as a signature and a mask of more than two thirds of it,
    and the signature is valid, under the keys of the mask, for a block of the
    message's hash. *)
Definition certified (m : FBFTMessage) : Prop :=
  exists committee aggSig mask signers blk,
    ReadSignatureBitmapByPublicKeys (msg_Payload m) committee = Some (aggSig, mask) /\
    CountOneBits (Some (Bitmap mask)) = Some signers /\
    2 * Z.of_nat (length committee) < 3 * signers /\
    blk_Hash blk = msg_BlockHash m /\
    VerifyHash aggSig (AggregatePublic mask) (commit_payload blk) = true.

(** A message sent under one of the node's keys. *)
Definition own (keys : list PrivateKeyWrapper) (m : FBFTMessage) : Prop :=
  exists key bytes obj, key ∈ keys /\ SenderPubkeys m = [mk_key bytes obj] /\
    be_bytes 48 bytes = be_bytes 48 (key_Bytes (Pub key)).

Definition log_ok (keys : list PrivateKeyWrapper) (log : FBFTLog) : Prop :=
  (forall h b, blocks log !! h = Some b -> blk_Hash b = h) /\
  (forall i m, messages log !! i = Some m -> msg_Type m = MessageType_COMMITTED -> Verified m = true ->
     certified m \/ own keys m).

(** The kinds of message a node sends. *)
Definition sent_type (t : MessageType) : Prop :=
  t = MessageType_ANNOUNCE \/ t = MessageType_PREPARE \/ t = MessageType_PREPARED \/ t = MessageType_COMMITTED.

Definition wire_ok (bytes : list Z) : Prop :=
  exists msg encoded, protobuf_Marshal msg = Some encoded /\
    bytes = p2p_ConstructMessage (ConstructConsensusMessage encoded) /\ sent_type (req_Type (msg_request msg)).

Definition task_ok (keys : list PrivateKeyWrapper) (t : task) : Prop :=
  match t with
  | TGrace viewID => viewID = 0
  | TPreCommit n _ => wire_ok (p2p_ConstructMessage (net_Bytes n)) /\ own keys (net_FBFTMsg n)
  | _ => True
  end.

(** [J] is a property of the chain that callers choose. *)
Record cinv (keys : list PrivateKeyWrapper) (J : B -> Prop) (s : Consensus) : Prop := {
  inv_keys : priKey s = keys;
  inv_view : blockViewID s = 0;
  inv_slash : SlashChan s = [];
  inv_log : log_ok keys (c_FBFTLog s);
  inv_sender : sender_all wire_ok (msgSender s);
  inv_tasks : Forall (task_ok keys) (goroutines s);
  inv_chain : J (Blockchain s)
}.

(** *** The log *)

Lemma log_ok_add_block keys log b : log_ok keys log -> log_ok keys (AddBlock log b).
Proof.
  intros [H1 H2]. split; [|done]. simpl. intros h b' [[<- <-]|[_ Hb]]%lookup_insert_Some; [done|eauto].
Qed.

Lemma log_ok_mark keys log b : log_ok keys log -> log_ok keys (MarkBlockVerified log b).
Proof. by intros [H1 H2]. Qed.

Lemma log_ok_not_verified keys log m : log_ok keys log -> log_ok keys (AddNotVerifiedMessage log m).
Proof.
  intros [H1 H2]. split; [done|]. simpl. intros i m' [[<- <-]|[_ Hm]]%lookup_insert_Some Ht Hv; [discriminate|eauto].
Qed.

Lemma log_ok_verified keys log m :
  (msg_Type m = MessageType_COMMITTED -> certified m \/ own keys m) ->
  log_ok keys log -> log_ok keys (AddVerifiedMessage log m).
Proof.
  intros Hm [H1 H2]. split; [done|]. simpl. intros i m' [[<- <-]|[_ Hi]]%lookup_insert_Some Ht Hv; [exact (Hm Ht)|eauto].
Qed.

Lemma log_ok_prune keys log bn : log_ok keys log -> log_ok keys (PruneCacheBeforeBlock log bn).
Proof.
  intros [H1 H2]. destruct (PruneCacheBeforeBlock_spec log bn) as (E1 & E2 & _). split.
  - intros h b Hb. apply E2 in Hb as [Hb _]. eauto.
  - intros i m Hm. apply E1 in Hm as [Hm _]. eauto.
Qed.

Lemma log_ok_alter keys log h sig :
  log_ok keys log ->
  log_ok keys (mk_log (alter (fun b => SetCurrentCommitSig b sig) h (blocks log)) (verifiedBlocks log) (messages log)).
Proof.
  intros [H1 H2]. split; [|done]. simpl. intros h' b Hb. apply lookup_alter_Some in Hb as [(-> & b0 & Hb0 & ->)|[_ Hb]]; [|eauto].
  simpl. eauto.
Qed.

(** *** Messages the node builds *)

Lemma ParseFBFTMessage_type f g req m : ParseFBFTMessage f g req = Some m -> msg_Type m = req_Type req.
Proof. unfold ParseFBFTMessage. intros H. repeat case_match; simplify_eq; done. Qed.

Lemma parse_request_type s req m : parse_request s req = Some (Some m) -> msg_Type m = req_Type req.
Proof.
  unfold parse_request. case_match; intros H'.
  - injection H' as H'. by eapply ParseFBFTMessage_type.
  - destruct (multiSigBitmap s); simpl in H'; [|discriminate]. injection H' as H'. by eapply ParseFBFTMessage_type.
Qed.

Lemma request_of_type s p keys req : request_of s p keys = Some req -> req_Type req = p.
Proof. unfold request_of. intros H. repeat case_match; simplify_eq; done. Qed.

Lemma fill_payload_fields s p pl keys req req' sig :
  fill_payload s p pl keys req = Some (req', sig) ->
  req_Type req' = req_Type req /\ req_SenderPubkey req' = req_SenderPubkey req.
Proof.
  unfold fill_payload. intros H. repeat case_match; simplify_eq; try done.
  - destruct (constructQuorumSigAndBitmap s Prepare); simpl in *; simplify_eq; done.
  - destruct (constructQuorumSigAndBitmap s Commit); simpl in *; simplify_eq; done.
Qed.

Lemma copy_full n l : length l = n -> copy_into (replicate n 0) 0 l = l.
Proof.
  intros Hl. pose proof (copy_into_zeros [] n l) as E. simpl in E. rewrite E, take_ge, Hl by lia.
  by rewrite Nat.sub_diag, app_nil_r.
Qed.

Lemma parse_own s req k m :
  req_SenderPubkey req = be_bytes 48 (key_Bytes (Pub k)) ->
  parse_request s req = Some (Some m) -> own [k] m.
Proof.
  intros Hk. unfold parse_request, ParseFBFTMessage. rewrite Hk, length_be_bytes.
  change (negb (bool_decide (48%nat = 0%nat))) with true. cbv iota zeta.
  rewrite (copy_full idSenderBytes) by apply length_be_bytes.
  destruct (BytesToBLSPublicKey _) as [obj|]; [|done]. intros [= <-].
  eexists k, _, obj. split; [apply list_elem_of_here|]. split; [reflexivity|].
  rewrite <- (length_be_bytes 48 (key_Bytes (Pub k))) at 1. apply be_bytes_be_int, be_bytes_is_byte.
Qed.

Lemma construct_spec s p pl keys n :
  construct s p pl keys = Some (Constructed n) ->
  (exists msg encoded, protobuf_Marshal msg = Some encoded /\ net_Bytes n = ConstructConsensusMessage encoded
     /\ req_Type (msg_request msg) = p) /\
  msg_Type (net_FBFTMsg n) = p /\ (forall k, keys = [k] -> own [k] (net_FBFTMsg n)).
Proof.
  unfold construct. destruct keys as [|key0 keys']; [done|]. set (keys := key0 :: keys').
  destruct (request_of s p keys) as [req|] eqn:Hreq; [|done].
  destruct (fill_payload s p pl keys req) as [[req' sig]|] eqn:Hfill; simpl; [|done].
  destruct (fill_payload_fields _ _ _ _ _ _ _ Hfill) as [Ht Hs]. pose proof (request_of_type _ _ _ _ Hreq) as Hp.
  intros H.
  assert (Hm : exists sg encoded, protobuf_Marshal (mk_message req' sg) = Some encoded /\
    (parsed ← parse_request s req';
     match parsed with
     | None => Some ConstructNil
     | Some FBFTMsg => Some (Constructed (mk_network p (ConstructConsensusMessage encoded) FBFTMsg))
     end) = Some (Constructed n)).
  { destruct sig; simpl in H.
    - unfold signAndMarshalConsensusMessage, signConsensusMessage, signMessage in H. destruct (protobuf_Marshal (mk_message req' [])) as [mm|]; [|done].
      simpl in H. destruct (SignHash (Pri key0) (hash_Keccak256 mm)) as [sg|]; simpl in H; [|done].
      destruct (protobuf_Marshal (mk_message req' (Serialize sg))) as [e|] eqn:E; [|done]. by exists (Serialize sg), e.
    - destruct (protobuf_Marshal (mk_message req' [])) as [e|] eqn:E; [|done]. by exists [], e. }
  destruct Hm as (sg & encoded & Henc & Hparse).
  destruct (parse_request s req') as [[m|]|] eqn:Hpr; simpl in Hparse; try done. injection Hparse as <-. simpl.
  split_and!.
  - eexists _, encoded. split; [exact Henc|]. split; [done|]. simpl. congruence.
  - rewrite (parse_request_type _ _ _ Hpr). congruence.
  - intros k Hk. eapply parse_own; [|exact Hpr]. rewrite Hs.
    unfold request_of in Hreq. rewrite Hk in Hreq. by injection Hreq as <-.
Qed.

Lemma construct_wire s p pl keys n :
  sent_type p -> construct s p pl keys = Some (Constructed n) -> wire_ok (p2p_ConstructMessage (net_Bytes n)).
Proof.
  intros Hp H. apply construct_spec in H as ((msg & encoded & H1 & H2 & H3) & _).
  exists msg, encoded. rewrite H2, H3. done.
Qed.

Lemma own_mono keys k m : k ∈ keys -> own [k] m -> own keys m.
Proof.
  intros Hk (key & b & o & Hin & H). apply list_elem_of_singleton in Hin as ->. by exists k, b, o.
Qed.

Lemma GetLeaderPrivateKey_elem keys l k : GetLeaderPrivateKey keys l = Some k -> k ∈ keys.
Proof.
  induction keys as [|x keys IH]; simpl; [done|]. case_match; [|right; auto]. intros [= ->]. apply list_elem_of_here.
Qed.

Lemma leader_key_elem s k : GetConsensusLeaderPrivateKey s = Some (Some k) -> k ∈ priKey s.
Proof.
  unfold GetConsensusLeaderPrivateKey. destruct (LeaderPubKey_ s); simpl; [|done]. intros [= H].
  by eapply GetLeaderPrivateKey_elem.
Qed.

(** ** Every handler keeps the invariant *)

(** A block that some certified or own COMMITTED message names. *)
Definition insertable (keys : list PrivateKeyWrapper) (b : Block) : Prop :=
  exists m, (certified m \/ own keys m) /\ msg_BlockHash m = blk_Hash b.

Section Handlers.
Context (keys : list PrivateKeyWrapper) (J : B -> Prop).
Context (J_sig : forall n sig c, J c -> J (WriteCommitSig n sig c)).
Context (J_insert : forall b c, insertable keys b -> J c -> J (fst (InsertChain b c))).

Local Abbreviation Inv := (cinv keys J).

(** An update of a field the invariant does not mention. *)
Ltac inv_update := apply keeps_modify; intros ? []; split; simpl; assumption.
Hint Extern 1 (keeps (cinv _ _) (mmodify _)) => solve [inv_update] : keeps.

Lemma modify_log_keeps f : (forall log, log_ok keys log -> log_ok keys (f log)) -> keeps Inv (modify_log f).
Proof. intros Hf. apply keeps_modify. intros s []. split; simpl; auto. Qed.

Lemma modify_sender_keeps f :
  (forall ms, sender_all wire_ok ms -> sender_all wire_ok (f ms)) -> keeps Inv (modify_sender f).
Proof. intros Hf. apply keeps_modify. intros s []. split; simpl; auto. Qed.

Lemma spawn_keeps t : task_ok keys t -> keeps Inv (spawn t).
Proof.
  intros Ht. apply keeps_modify. intros s []. split; simpl; auto. apply Forall_app. by split; [|constructor].
Qed.

Lemma stop_retry_keeps t : keeps Inv (modify_sender (fun ms => StopRetry ms t)).
Proof. apply modify_sender_keeps. intros ms. apply StopRetry_all. Qed.

Lemma add_block_keeps b : keeps Inv (modify_log (fun log => AddBlock log b)).
Proof. apply modify_log_keeps. intros log. apply log_ok_add_block. Qed.

Lemma mark_keeps b : keeps Inv (modify_log (fun log => MarkBlockVerified log b)).
Proof. apply modify_log_keeps. intros log. apply log_ok_mark. Qed.

Lemma not_verified_keeps m : keeps Inv (modify_log (fun log => AddNotVerifiedMessage log m)).
Proof. apply modify_log_keeps. intros log. apply log_ok_not_verified. Qed.

Lemma prune_keeps n : keeps Inv (modify_log (fun log => PruneCacheBeforeBlock log n)).
Proof. apply modify_log_keeps. intros log. apply log_ok_prune. Qed.

Lemma verified_keeps m :
  (msg_Type m = MessageType_COMMITTED -> certified m \/ own keys m) ->
  keeps Inv (modify_log (fun log => AddVerifiedMessage log m)).
Proof. intros Hm. apply modify_log_keeps. intros log. by apply log_ok_verified. Qed.

Hint Resolve stop_retry_keeps add_block_keeps mark_keeps not_verified_keeps prune_keeps : keeps.

Lemma timer_keeps : keeps Inv start_consensus_timer.
Proof. inv_update. Qed.

Lemma stop_bootstrap_keeps : keeps Inv stop_bootstrap_timer.
Proof. apply keeps_modify. intros s Hs. case_match; [|done]. destruct Hs. by split. Qed.

Lemma switchPhase_keeps p : keeps Inv (switchPhase p).
Proof. inv_update. Qed.

Lemma SetMode_keeps m : keeps Inv (SetMode m).
Proof. inv_update. Qed.

Lemma SetBlockNum_keeps n : keeps Inv (SetBlockNum n).
Proof. inv_update. Qed.

Hint Resolve timer_keeps stop_bootstrap_keeps switchPhase_keeps SetMode_keeps SetBlockNum_keeps : keeps.

Lemma UpdateBitmaps_keeps : keeps Inv UpdateBitmaps.
Proof. unfold UpdateBitmaps. keeps_solve. Qed.

Lemma ResetState_keeps : keeps Inv ResetState.
Proof. unfold ResetState. keeps_solve. Qed.

Hint Resolve UpdateBitmaps_keeps ResetState_keeps : keeps.

Lemma UpdatePublicKeys_keeps pubKeys : keeps Inv (UpdatePublicKeys pubKeys).
Proof. unfold UpdatePublicKeys. keeps_solve. Qed.
Hint Resolve UpdatePublicKeys_keeps : keeps.

Lemma UpdateConsensusInformation_keeps : keeps Inv UpdateConsensusInformation.
Proof. unfold UpdateConsensusInformation. keeps_solve. Qed.
Hint Resolve UpdateConsensusInformation_keeps : keeps.

Lemma SetupForNewConsensus_keeps b m : keeps Inv (SetupForNewConsensus b m).
Proof. unfold SetupForNewConsensus. keeps_solve. Qed.
Hint Resolve SetupForNewConsensus_keeps : keeps.

(** Putting a new chain in place of the old one. *)
Lemma chain_keeps c : J c -> keeps Inv (mmodify (set_Blockchain c)).
Proof. intros Hc. apply keeps_modify. intros s []. by split. Qed.

Lemma write_sig_keeps n sig :
  keeps Inv (mmodify (fun s => set_Blockchain (WriteCommitSig n sig (Blockchain s)) s)).
Proof. apply keeps_modify. intros s []. split; simpl; auto. Qed.
Hint Resolve write_sig_keeps : keeps.

Lemma commitBlock_keeps b m :
  (forall c, J c -> J (fst (InsertChain b c))) -> keeps Inv (commitBlock b m).
Proof.
  intros Hb. unfold commitBlock. apply keeps_get_bind. intros s Hs. pose proof (Hb _ (inv_chain _ _ _ Hs)) as Hc.
  destruct (InsertChain b (Blockchain s)) as [c ok]. simpl in Hc. keeps_solve.
Qed.

Lemma attach_keeps_bind {A} b sig (k : Block -> M _ A) :
  keeps Inv (k (SetCurrentCommitSig b sig)) -> keeps Inv (attach_commit_sig b sig ≫= k).
Proof.
  intros Hk s Hs. apply Hk. destruct Hs. split; simpl; auto. by apply log_ok_alter.
Qed.

Lemma attach_keeps b sig : keeps Inv (attach_commit_sig b sig).
Proof. unfold attach_commit_sig. keeps_solve. apply modify_log_keeps. intros log. apply log_ok_alter. Qed.
Hint Resolve attach_keeps : keeps.

Lemma verify_once_keeps v b : keeps Inv (verify_once v b).
Proof. unfold verify_once. keeps_solve. Qed.
Hint Resolve verify_once_keeps : keeps.

Lemma last_mile_elem fuel log : forall bn l,
  last_mile fuel log bn = Some l ->
  Forall (fun bm => (exists i, messages log !! i = Some bm.2) /\ msg_Type bm.2 = MessageType_COMMITTED
                    /\ Verified bm.2 = true /\ blocks log !! msg_BlockHash bm.2 = Some bm.1) l.
Proof.
  induction fuel as [|fuel IH]; intros bn l; simpl; [done|].
  pose proof (GetCommittedBlockAndMsgs_spec log bn) as H.
  destruct (GetCommittedBlockAndMsgsFromNumber log bn) as [[b m]|]; [|intros [= <-]; constructor].
  destruct (last_mile fuel log (u64 (bn + 1))) as [rest|] eqn:E; simpl; [|done]. intros [= <-].
  constructor; [simpl; tauto|eauto].
Qed.

Lemma last_mile_insertable log bn l :
  log_ok keys log -> getLastMileBlocksAndMsg log bn = Some l -> Forall (fun bm => insertable keys bm.1) l.
Proof.
  intros [H1 H2] H. eapply Forall_impl; [eapply last_mile_elem; exact H|].
  intros [b m] ([i Hi] & Ht & Hv & Hb). simpl in *. exists m. split; [eauto|]. symmetry. eauto.
Qed.

Lemma catchup_loop_keeps v l : Forall (fun bm => insertable keys bm.1) l -> keeps Inv (catchup_loop v l).
Proof.
  induction l as [|[b m] l IH]; intros Hl; simpl; [apply keeps_ret|]. apply Forall_cons in Hl as [Hb Hl].
  apply attach_keeps_bind. keeps_solve. apply commitBlock_keeps. intros c Hc. by apply J_insert.
Qed.

Lemma postCatchup_keeps n : keeps Inv (postCatchup n).
Proof. unfold postCatchup. keeps_solve. Qed.
Hint Resolve postCatchup_keeps : keeps.

Lemma tryCatchup_keeps : keeps Inv tryCatchup.
Proof.
  unfold tryCatchup. keeps_solve. apply catchup_loop_keeps.
  eapply last_mile_insertable; [|eassumption]. by eapply inv_log.
Qed.
Hint Resolve tryCatchup_keeps : keeps.

Lemma override_keeps b pl mask : keeps Inv (override_commit_sig b pl mask).
Proof. unfold override_commit_sig. keeps_solve. Qed.

Lemma spinUp_keeps : keeps Inv spinUpStateSync.
Proof. unfold spinUpStateSync. keeps_solve. Qed.
Hint Resolve override_keeps spinUp_keeps : keeps.

Lemma ReadSignatureBitmapPayload_0 s pl r :
  ReadSignatureBitmapPayload s pl 0 = Some r ->
  ReadSignatureBitmapByPublicKeys pl (Participants (ident (Decider s))) = Some r.
Proof. unfold ReadSignatureBitmapPayload. case_match; [done|]. by rewrite drop_0. Qed.

Lemma mask_quorum_certifies s mask :
  mask_quorum s mask = Some true ->
  exists signers, CountOneBits (Some (Bitmap mask)) = Some signers /\
    2 * Z.of_nat (length (Participants (ident (Decider s)))) < 3 * signers.
Proof.
  unfold mask_quorum, IsQuorumAchievedByMask. destruct (CountOneBits _) as [n|]; simpl; [|done].
  intros [= H]. exists n. split; [done|]. apply negb_true_iff, Z.ltb_ge in H.
  unfold TwoThirdsSignersCount, ParticipantsCount, Participants in *.
  rewrite Z.quot_div_nonneg in H by lia. pose proof (Z.div_mod (Z.of_nat (length (publicKeys (ident (Decider s)))) * 2) 3).
  pose proof (Z.mod_pos_bound (Z.of_nat (length (publicKeys (ident (Decider s)))) * 2) 3). lia.
Qed.

Lemma onCommitted_keeps m : keeps Inv (onCommitted m).
Proof.
  unfold onCommitted. keeps_solve. apply verified_keeps. intros _. left.
  repeat match goal with H : negb _ = false |- _ => apply negb_false_iff in H; subst end.
  match goal with H : mask_quorum _ _ = Some true |- _ => apply mask_quorum_certifies in H as (n & Hn & Hq) end.
  match goal with H : ReadSignatureBitmapPayload _ _ _ = Some _ |- _ => apply ReadSignatureBitmapPayload_0 in H end.
  match goal with H : GetBlockByHash _ _ = Some ?b, Hs : cinv _ _ _ |- _ =>
    pose proof (proj1 (inv_log _ _ _ Hs) _ _ H) as Hh; by eexists _, _, _, n, b end.
Qed.
Hint Resolve onCommitted_keeps : keeps.

Lemma run_replay_keeps n msgs : keeps Inv (run_replay n msgs).
Proof. unfold run_replay. keeps_solve. by apply spawn_keeps. Qed.
Hint Resolve run_replay_keeps : keeps.

(** *** Handlers that insert no block *)

Lemma onPrepared_keeps m : msg_Type m <> MessageType_COMMITTED -> keeps Inv (onPrepared m).
Proof.
  intros Hm. unfold onPrepared. keeps_solve; [by apply verified_keeps|by apply spawn_keeps].
Qed.

Lemma constructP2pMessages_wire s p pl ks l :
  sent_type p -> constructP2pMessages s p pl ks = Some l ->
  Forall (fun o => forall n, o = Some n -> wire_ok (p2p_ConstructMessage (net_Bytes n))) l.
Proof.
  intros Hp.
  assert (H1 : forall ks acc acc', collect_message s p pl ks acc = Some acc' ->
    Forall (fun o => forall n, o = Some n -> wire_ok (p2p_ConstructMessage (net_Bytes n))) acc ->
    Forall (fun o => forall n, o = Some n -> wire_ok (p2p_ConstructMessage (net_Bytes n))) acc').
  { intros ks' acc acc' H Hacc. unfold collect_message in H.
    destruct (construct s p pl ks') as [[| |n]|] eqn:E; simpl in H; simplify_eq; [done|..]; apply Forall_app; (split; [done|]).
    - by constructor.
    - constructor; [|done]. intros n' [= <-]. by eapply construct_wire. }
  assert (H2 : forall ks acc acc', collect_messages s p pl ks acc = Some acc' ->
    Forall (fun o => forall n, o = Some n -> wire_ok (p2p_ConstructMessage (net_Bytes n))) acc ->
    Forall (fun o => forall n, o = Some n -> wire_ok (p2p_ConstructMessage (net_Bytes n))) acc').
  { induction ks0 as [|k ks' IH]; intros acc acc' H Hacc; simpl in H; [by injection H as <-|].
    destruct (collect_message s p pl [k] acc) as [acc1|] eqn:E; simpl in H; [|done]. eauto. }
  unfold constructP2pMessages. case_match; eauto.
Qed.

Lemma broadcast_keeps l :
  Forall (fun o => forall n, o = Some n -> wire_ok (p2p_ConstructMessage (net_Bytes n))) l ->
  keeps Inv (broadcastConsensusP2pMessages l).
Proof.
  induction l as [|o l IH]; intros Hl; simpl; [apply keeps_ret|]. apply Forall_cons in Hl as [Ho Hl].
  keeps_solve. apply modify_sender_keeps. intros ms. apply Send_all. by apply Ho.
Qed.

Lemma send_prepare_keeps : keeps Inv send_prepare.
Proof.
  unfold send_prepare. keeps_solve. apply broadcast_keeps. eapply constructP2pMessages_wire; [|eassumption].
  by right; left.
Qed.
Hint Resolve send_prepare_keeps : keeps.

Lemma onAnnounce_keeps msg : req_Type (msg_request msg) = MessageType_ANNOUNCE -> keeps Inv (onAnnounce msg).
Proof.
  intros Hm. unfold onAnnounce. keeps_solve. apply verified_keeps. subst.
  match goal with H : parse_request _ _ = Some _ |- _ => apply parse_request_type in H as -> end. by rewrite Hm.
Qed.

Lemma add_vote_keeps p ks sig h n v : keeps Inv (add_vote p ks sig h n v).
Proof. unfold add_vote. apply keeps_get_bind. intros s Hs. destruct (AddNewVote _ _ _ _ _ _ _). keeps_solve. Qed.
Hint Resolve add_vote_keeps : keeps.

Lemma set_bitmap_keeps p mask : keeps Inv (mmodify (set_bitmap p mask)).
Proof. apply keeps_modify. intros s []. unfold set_bitmap. destruct p; by split. Qed.
Hint Resolve set_bitmap_keeps : keeps.

Lemma sign_own_keeps p stop pl h n ks : keeps Inv (sign_own p stop pl h n ks).
Proof. induction ks as [|k ks IH]; simpl; keeps_solve. Qed.
Hint Resolve sign_own_keeps : keeps.

(** What [construct] built is fit to be sent and is the node's own. *)
Lemma construct_or_keeps {A} p k (on_err : M _ A) (f : NetworkMessage -> M _ A) :
  sent_type p -> k ∈ keys -> keeps Inv on_err ->
  (forall n, wire_ok (p2p_ConstructMessage (net_Bytes n)) -> own keys (net_FBFTMsg n) -> keeps Inv (f n)) ->
  keeps Inv (construct_or p [k] on_err f).
Proof.
  intros Hp Hk He Hf. unfold construct_or. apply keeps_get_bind. intros s Hs.
  apply keeps_lift_bind. intros [| |n] E; [done|apply keeps_panic|].
  apply Hf; [by eapply construct_wire|]. apply construct_spec in E as (_ & _ & E). eapply own_mono; eauto.
Qed.

Lemma leader_key s k : Inv s -> GetConsensusLeaderPrivateKey s = Some (Some k) -> k ∈ keys.
Proof. intros Hs H. rewrite <- (inv_keys _ _ _ Hs). by apply leader_key_elem. Qed.

Lemma send_keeps bn t bytes :
  wire_ok bytes -> keeps Inv (modify_sender (fun ms => SendWithRetry ms bn t bytes)).
Proof. intros Hb. apply modify_sender_keeps. intros ms. by apply SendWithRetry_all. Qed.

Lemma delayed_keeps bn t bytes :
  wire_ok bytes -> keeps Inv (modify_sender (fun ms => DelayedSendWithRetry ms bn t bytes)).
Proof. intros Hb. apply modify_sender_keeps. intros ms. by apply DelayedSend_all. Qed.

Lemma verified_own_keeps m : own keys m -> keeps Inv (modify_log (fun log => AddVerifiedMessage log m)).
Proof. intros Hm. apply verified_keeps. auto. Qed.
Hint Resolve send_keeps delayed_keeps verified_own_keeps : keeps.

Lemma announce_keeps b : keeps Inv (announce b).
Proof.
  unfold announce. keeps_solve. subst. apply construct_or_keeps; [by left|by eapply leader_key|apply keeps_ret|].
  intros n Hw Ho. keeps_solve.
Qed.
Hint Resolve announce_keeps : keeps.

Lemma didReachPrepareQuorum_keeps : keeps Inv didReachPrepareQuorum.
Proof.
  unfold didReachPrepareQuorum. keeps_solve. subst.
  apply construct_or_keeps; [by right; right; left|by eapply leader_key|apply keeps_ret|].
  intros n Hw Ho. keeps_solve.
Qed.
Hint Resolve didReachPrepareQuorum_keeps : keeps.

Lemma onPrepare_keeps m : keeps Inv (onPrepare m).
Proof. unfold onPrepare. keeps_solve. Qed.

Lemma preCommitAndPropose_keeps b : keeps Inv (preCommitAndPropose b).
Proof.
  unfold preCommitAndPropose. keeps_solve. subst. apply spawn_keeps.
  match goal with H : construct _ _ _ _ = Some _ |- _ => rename H into Hc end.
  split; [eapply construct_wire; [by right; right; right|exact Hc]|].
  apply construct_spec in Hc as (_ & _ & Hc). eapply own_mono; [|by apply Hc].
  eapply leader_key; [|eassumption]. assumption.
Qed.
Hint Resolve preCommitAndPropose_keeps : keeps.

Lemma on_tick_keeps : keeps Inv on_tick.
Proof. unfold on_tick. keeps_solve. Qed.

Lemma on_sync_ready_keeps : keeps Inv on_sync_ready.
Proof. unfold on_sync_ready. keeps_solve. Qed.

Lemma on_sync_not_ready_keeps : keeps Inv on_sync_not_ready.
Proof. unfold on_sync_not_ready. keeps_solve. Qed.

Lemma on_start_keeps : keeps Inv on_start.
Proof. unfold on_start. keeps_solve. Qed.

Lemma on_new_block_keeps b : keeps Inv (on_new_block b).
Proof. unfold on_new_block, start_round. keeps_solve. apply modify_sender_keeps. intros ms. apply Reset_all. Qed.
Hint Resolve on_tick_keeps on_sync_ready_keeps on_sync_not_ready_keeps on_start_keeps on_new_block_keeps : keeps.

(** *** Handlers of a leader *)

Section Leader.
Context (J_any : forall b c, J c -> J (fst (InsertChain b c))).

Lemma finalCommit_keeps : keeps Inv finalCommit.
Proof.
  unfold finalCommit. keeps_solve. subst.
  apply construct_or_keeps; [by right; right; right|by eapply leader_key|apply keeps_ret|].
  intros n Hw Ho. keeps_solve. apply commitBlock_keeps. auto.
Qed.
Hint Resolve finalCommit_keeps : keeps.

Lemma run_pre_commit_keeps n b :
  wire_ok (p2p_ConstructMessage (net_Bytes n)) -> own keys (net_FBFTMsg n) -> keeps Inv (run_pre_commit n b).
Proof.
  intros Hw Ho. unfold run_pre_commit. apply keeps_bind; [auto with keeps|intros _].
  apply attach_keeps_bind, keeps_get_bind. intros s Hs.
  pose proof (J_any (SetCurrentCommitSig b (msg_Payload (net_FBFTMsg n))) _ (inv_chain _ _ _ Hs)) as Hc.
  destruct (InsertChain _ _) as [c ok]. simpl in Hc. keeps_solve.
Qed.

(** No sender has a ballot, so the double-sign check reports nothing. *)
Lemma slash_senders_none s m senders acc :
  existsb (fun signer => match ReadBallot (ident (Decider s)) Commit (key_Bytes signer) with Some _ => true | None => false end)
    senders = false ->
  snd acc = false -> slash_senders s m senders acc = Some acc.
Proof.
  intros Hs Hacc. induction senders as [|k senders IH]; simpl in *; [done|].
  apply orb_false_iff in Hs as [Hk Hs]. destruct (ReadBallot _ _ _); [done|]. rewrite Hacc. auto.
Qed.

Lemma checkDoubleSign_quiet s m :
  already_voted s Commit m = false -> Inv s ->
  exists b s', checkDoubleSign m s = Some (b, s') /\ Inv s'.
Proof.
  intros Hv Hs. unfold checkDoubleSign, mbind, M_bind, mget, mlift.
  destruct (couldThisBeADoubleSigner s m); [|by exists false, s].
  rewrite (slash_senders_none s m _ (∅, [], false) Hv eq_refl). simpl.
  eexists true, _. split; [done|]. destruct Hs as [? ? Hsl]. split; simpl; try done. by rewrite Hsl.
Qed.

Lemma onCommit_keeps m : keeps Inv (onCommit m).
Proof.
  intros s Hs. unfold onCommit. rewrite run_get. cbv zeta.
  destruct (negb (isRightBlockNumAndViewID s m)); [done|].
  destruct (already_voted s Commit m) eqn:Hv; [done|].
  destruct (Deserialize (msg_Payload m)) as [sg|]; [|done].
  destruct (GetBlockByHash (c_FBFTLog s) (msg_BlockHash m)) as [b|]; [|done].
  destruct (negb (VerifyHash sg (signer_key m) (commit_payload b))); [done|].
  destruct (checkDoubleSign_quiet s m Hv Hs) as (d & s1 & E & Hs1).
  rewrite (run_bind _ _ _ _ _ E). destruct d; [done|].
  match goal with |- match ?c s1 with _ => _ end => enough (keeps Inv c) as Hk by exact (Hk s1 Hs1) end.
  keeps_solve. apply spawn_keeps. by eapply inv_view.
Qed.

Lemma run_task_keeps t : task_ok keys t -> keeps Inv (run_task t).
Proof.
  intros Ht. destruct t; simpl.
  - unfold run_grace. keeps_solve.
  - destruct Ht. by apply run_pre_commit_keeps.
  - unfold run_replay_start. keeps_solve. by apply spawn_keeps.
  - apply run_replay_keeps.
Qed.

Lemma HandleMessageUpdate_keeps msg k : keeps Inv (HandleMessageUpdate msg k).
Proof.
  unfold HandleMessageUpdate. keeps_solve;
    repeat match goal with H : (_ =? _) && _ = true |- _ => apply andb_true_iff in H as [H%Z.eqb_eq _] end.
  - by apply onAnnounce_keeps.
  - apply onPrepared_keeps. subst.
    match goal with H : parse_request _ _ = Some _ |- _ => apply parse_request_type in H as -> end.
    by match goal with H : req_Type _ = MessageType_PREPARED |- _ => rewrite H end.
  - apply onPrepare_keeps.
  - apply onCommit_keeps.
Qed.

Lemma handle_keeps e : keeps Inv (handle e).
Proof.
  destruct e as [msg k|i|p| |now| | |b|v| | |rnd]; simpl; keeps_solve.
  - apply HandleMessageUpdate_keeps.
  - apply keeps_modify. intros s1 []. split; simpl; try done.
    apply Forall_delete. by eapply inv_tasks.
  - apply run_task_keeps. eapply Forall_lookup_1; [by eapply inv_tasks|eassumption].
  - apply modify_sender_keeps. intros ms. apply Retry_wakeup_all.
  - inv_update.
Qed.

Lemma creach_inv s0 s : Inv s0 -> creach s0 s -> Inv s.
Proof. intros H0. induction 1 as [|s e s' _ IH E]; [done|]. by eapply keeps_run; [apply handle_keeps|..]. Qed.

End Leader.

End Handlers.

(** A new node satisfies the invariant. *)
Lemma New_inv now shard keys decider c aggregate post s :
  New now shard (Some keys) decider c aggregate post = Some s -> cinv keys (fun _ => True) s.
Proof.
  intros [= <-]. by split.
Qed.

Lemma node_inv now shard keys decider c aggregate post s0 s :
  New now shard (Some keys) decider c aggregate post = Some s0 -> creach s0 s -> cinv keys (fun _ => True) s.
Proof. intros H0. apply creach_inv; [done..|]. by eapply New_inv. Qed.

End Invariant.
