(* ===== verification/ConsensusSpec.v ===== *)
(** * Properties of a consensus node

    The theorems about the node of [Consensus]: what a verified COMMITTED message
    and a block inserted by a validator are backed by, which messages a node
    sends, that catching up terminates and commits every block it can, that commit
    payloads identify a block, and behaviours that differ from what the code sets
    out to do: the end of a grace period commits a block whatever its votes, no
    node sends a COMMIT, and double signing is never reported. *)
From stdpp Require Import gmap list sorting.
From Stdlib Require Import ZArith Lia.
From S2P Require Import Prelude Quorum FbftLog MsgSender Consensus ConsensusInv.

Local Open Scope Z_scope.

Section Spec.
Context {env : Env} {B : Type} {chain : ChainOps B} {order : RangeOrder}.
Implicit Types s : @Consensus env B.

(** ** Invariants of every run *)

(** C2: In every state a node reaches, a verified COMMITTED message of its log
    carries a valid certificate of more than two thirds of some committee for a
    block of its hash, or was built by the node itself under one of its keys. *)
Theorem committed_messages_are_certified now shard keys decider c aggregate post s0 s i m :
  New now shard (Some keys) decider c aggregate post = Some s0 -> creach s0 s ->
  messages (c_FBFTLog s) !! i = Some m -> msg_Type m = MessageType_COMMITTED -> Verified m = true ->
  certified m \/ own keys m.
Proof. intros H0 Hs. apply (inv_log _ _ _ (node_inv _ _ _ _ _ _ _ _ _ H0 Hs)). Qed.


(** C37: Every message a node hands to the network, first or repeated, encodes an
    ANNOUNCE, PREPARE, PREPARED or COMMITTED request.  In particular no node
    ever sends a COMMIT. *)
Theorem no_commit_vote_is_ever_sent now shard keys decider c aggregate post s0 s bytes :
  New now shard (Some keys) decider c aggregate post = Some s0 -> creach s0 s ->
  bytes ∈ sent (msgSender s) -> wire_ok bytes.
Proof.
  intros H0 Hs. pose proof (node_inv _ _ _ _ _ _ _ _ _ H0 Hs) as [_ _ _ _ [H _] _ _].
  by apply Forall_forall.
Qed.

(** No node ever reports a double sign: a sender with a ballot is turned away
    before the check that would report it. *)
Theorem double_signs_are_never_reported now shard keys decider c aggregate post s0 s :
  New now shard (Some keys) decider c aggregate post = Some s0 -> creach s0 s -> SlashChan s = [].
Proof. intros H0 Hs. by destruct (node_inv _ _ _ _ _ _ _ _ _ H0 Hs). Qed.

(** ** The commit payload *)

(** Two blocks have the same commit payload only when number and hash agree,
    also across the switch of the payload's format. *)
Theorem commit_payload_identifies_block b b' :
  is_u64 (blk_NumberU64 b) -> is_u64 (blk_NumberU64 b') ->
  0 <= blk_Hash b < 2 ^ 256 -> 0 <= blk_Hash b' < 2 ^ 256 ->
  commit_payload b = commit_payload b' -> blk_NumberU64 b = blk_NumberU64 b' /\ blk_Hash b = blk_Hash b'.
Proof.
  intros Hn Hn' Hh Hh' E. apply (f_equal (take 40)) in E. unfold is_u64 in *.
  assert (Hp : forall x, take 40 (commit_payload x) = le_bytes 8 (blk_NumberU64 x) ++ be_bytes 32 (blk_Hash x)).
  { intros x. unfold commit_payload, ConstructCommitPayload, hash_bytes.
    assert (length (le_bytes 8 (blk_NumberU64 x) ++ be_bytes 32 (blk_Hash x)) = 40%nat)
      by (by rewrite length_app, length_le_bytes, length_be_bytes).
    case_match; [rewrite take_ge by lia; done|]. by rewrite take_app_le, take_ge by lia. }
  rewrite !Hp in E. apply app_inj_1 in E as [E1 E2]; [|by rewrite !length_le_bytes].
  split; [apply (le_bytes_inj 8)|apply (be_bytes_inj 32)]; done.
Qed.

(** ** Catching up *)

(** The distinct messages behind the first [k] blocks of the search. *)
Definition found_ids (log : FBFTLog) (bn : Z) (ids : list fbftMsgID) : Prop :=
  NoDup ids /\ forall j i, ids !! j = Some i ->
    exists m, messages log !! i = Some m /\ msg_BlockNum m = u64 (bn + Z.of_nat j).

Lemma found_ids_length log bn ids : found_ids log bn ids -> (length ids <= size (messages log))%nat.
Proof.
  intros [Hnd Hid]. rewrite <- size_dom, <- (size_list_to_set (C := gset (list Z)) ids Hnd). apply subseteq_size.
  intros i Hi. apply elem_of_list_to_set, list_elem_of_lookup in Hi as [j Hj].
  destruct (Hid j i Hj) as (m & Hm & _). apply elem_of_dom. eauto.
Qed.

Lemma u64_succ z : u64 (u64 z + 1) = u64 (z + 1).
Proof. unfold u64. by rewrite Zplus_mod_idemp_l. Qed.

Lemma u64_distinct a i j : 0 <= i < 2 ^ 64 -> 0 <= j < 2 ^ 64 -> u64 (a + i) = u64 (a + j) -> i = j.
Proof.
  unfold u64. intros Hi Hj E. pose proof (Z.div_mod (a + i) (2 ^ 64) ltac:(lia)).
  pose proof (Z.div_mod (a + j) (2 ^ 64) ltac:(lia)). rewrite E in *. nia.
Qed.

Lemma last_mile_total log bn : forall fuel ids,
  Z.of_nat (size (messages log)) < 2 ^ 64 -> found_ids log bn ids ->
  (fuel + length ids = S (size (messages log)))%nat ->
  exists l, last_mile fuel log (u64 (bn + Z.of_nat (length ids))) = Some l
    /\ (length l + length ids <= size (messages log))%nat
    /\ (forall j b m, l !! j = Some (b, m) -> msg_BlockNum m = u64 (bn + Z.of_nat (length ids + j)))
    /\ GetCommittedBlockAndMsgsFromNumber log (u64 (bn + Z.of_nat (length ids + length l))) = None.
Proof.
  induction fuel as [|fuel IH]; intros ids Hsize Hids Hfuel; pose proof (found_ids_length _ _ _ Hids) as Hlen; [lia|].
  simpl. set (n := u64 (bn + Z.of_nat (length ids))).
  pose proof (GetCommittedBlockAndMsgs_spec log n) as Hspec.
  destruct (GetCommittedBlockAndMsgsFromNumber log n) as [[b m]|] eqn:E.
  2: { exists []. split; [done|]. split; [simpl; lia|]. split; [intros j b m Hj; by rewrite lookup_nil in Hj|].
       simpl. by rewrite Nat.add_0_r. }
  destruct Hspec as ([i Hi] & _ & Hn & _ & _).
  assert (Hids' : found_ids log bn (ids ++ [i])).
  { destruct Hids as [Hnd Hid]. split.
    - apply NoDup_app. split; [done|]. split; [|apply NoDup_singleton]. intros x Hx ->%list_elem_of_singleton.
      apply list_elem_of_lookup in Hx as [j Hj]. destruct (Hid j i Hj) as (m' & Hm' & En).
      rewrite Hi in Hm'. injection Hm' as <-. rewrite Hn in En. apply lookup_lt_Some in Hj.
      apply u64_distinct in En; lia.
    - intros j x Hj. apply lookup_app_Some in Hj as [Hj|[Hle Hj]]; [eauto|].
      apply list_lookup_singleton_Some in Hj as [Ej <-]. exists m. split; [done|]. rewrite Hn. unfold n. do 2 f_equal. lia. }
  destruct (IH (ids ++ [i]) Hsize Hids') as (l & Hl & Hlen' & Hnum & Hend); [rewrite length_app; simpl; lia|].
  rewrite length_app in *. simpl in *. exists ((b, m) :: l).
  replace (u64 (n + 1)) with (u64 (bn + Z.of_nat (length ids + 1))) by (unfold n; rewrite u64_succ; f_equal; lia).
  rewrite Hl. split; [done|]. split; [simpl; lia|]. split.
  - intros [|j] b' m' Hj; simpl in Hj; [injection Hj as <- <-; rewrite Hn; unfold n; do 2 f_equal; lia|].
    rewrite (Hnum j b' m' Hj). do 2 f_equal. lia.
  - simpl. rewrite <- Hend. do 3 f_equal. lia.
Qed.

(** C38: The search for blocks to catch up with terminates: it finds the
    consecutive committed blocks from the start, as many as there are and never
    more than there are messages, each with a verified COMMITTED message of its
    number and its block in the log, and stops at the first number without one. *)
Theorem last_mile_search_terminates log bn :
  is_u64 bn -> Z.of_nat (size (messages log)) < 2 ^ 64 ->
  exists l, getLastMileBlocksAndMsg log bn = Some l /\ (length l <= size (messages log))%nat /\
    (forall j b m, l !! j = Some (b, m) -> msg_BlockNum m = u64 (bn + Z.of_nat j)
       /\ msg_Type m = MessageType_COMMITTED /\ Verified m = true /\ blocks log !! msg_BlockHash m = Some b) /\
    GetCommittedBlockAndMsgsFromNumber log (u64 (bn + Z.of_nat (length l))) = None.
Proof.
  intros Hbn Hsize. destruct (last_mile_total log bn (S (size (messages log))) [] Hsize) as (l & Hl & Hlen & Hnum & Hend).
  - split; [constructor|]. intros j i Hj. by rewrite lookup_nil in Hj.
  - simpl. lia.
  - cbn [length Nat.add] in *. rewrite Z.add_0_r, (u64_small bn Hbn) in Hl. exists l.
    split; [exact Hl|]. split; [lia|]. split; [|done].
    intros j b m Hj. split; [by eapply Hnum|].
    pose proof (Forall_lookup_1 _ _ _ _ (last_mile_elem _ _ _ _ Hl) Hj) as H. simpl in H. tauto.
Qed.

(** The chain after a block has been committed to it. *)
Definition grow (c : B) (b : Block) : B :=
  if blk_NumberU64 (CurrentHeader c) <? blk_NumberU64 b then fst (InsertChain b c) else c.

(** A block inside an epoch, committed by a message of one sender, is committed
    when the chain accepts it. *)
Lemma commitBlock_runs b m sender s :
  SenderPubkeys m = [sender] -> PostConsensusJob s = true -> blk_IsLastBlockInEpoch b = false ->
  (forall c, snd (InsertChain b c) = true) ->
  exists s', commitBlock b m s = Some (true, s') /\ blockNum s' = u64 (blk_NumberU64 b + 1)
    /\ Blockchain s' = grow (Blockchain s) b /\ PostConsensusJob s' = true /\ priKey s' = priKey s
    /\ LeaderPubKey_ s' = Some sender /\ BlockVerifier s' = BlockVerifier s.
Proof.
  intros Hm Hpost Hlast Hins. unfold commitBlock, grow, HasSingleSender. rewrite run_get, Hm, Hpost.
  specialize (Hins (Blockchain s)). destruct (InsertChain b (Blockchain s)) as [c ok]. simpl in Hins. subst ok.
  unfold SetupForNewConsensus. rewrite Hm, Hlast. destruct (_ <? _); eexists; (split; [reflexivity|]); simpl; split_and!; done.
Qed.

(** What makes every block of a run committable. *)
Definition committable (verify : Block -> bool) (bm : Block * FBFTMessage) : Prop :=
  (exists sender, SenderPubkeys bm.2 = [sender]) /\ blk_IsLastBlockInEpoch bm.1 = false /\
  (forall sig, verify (SetCurrentCommitSig bm.1 sig) = true).

Definition grow_run (c : B) (l : list (Block * FBFTMessage)) : B :=
  foldl (fun c bm => grow c (SetCurrentCommitSig bm.1 (msg_Payload bm.2))) c l.

Lemma catchup_loop_runs verify (accepts : forall b c, snd (InsertChain b c) = true) l : forall bn s,
  Forall (committable verify) l -> PostConsensusJob s = true -> blockNum s = u64 bn ->
  (forall j b m, l !! j = Some (b, m) -> blk_NumberU64 b = u64 (bn + Z.of_nat j)) ->
  exists s', catchup_loop verify l s = Some (tt, s') /\ blockNum s' = u64 (bn + Z.of_nat (length l))
    /\ Blockchain s' = grow_run (Blockchain s) l.
Proof.
  induction l as [|[b m] l IH]; intros bn s Hl Hpost Hbn Hnum; simpl.
  - exists s. rewrite Z.add_0_r. done.
  - apply Forall_cons in Hl as [([sender Hsender] & Hlast & Hver) Hl]. simpl in *.
    set (b' := SetCurrentCommitSig b (msg_Payload m)).
    set (s1 := set_c_FBFTLog (mk_log (alter (fun b => SetCurrentCommitSig b (msg_Payload m)) (blk_Hash b) (blocks (c_FBFTLog s)))
                 (verifiedBlocks (c_FBFTLog s)) (messages (c_FBFTLog s))) s).
    assert (H1 : exists s2, verify_once verify b' s1 = Some (true, s2) /\ PostConsensusJob s2 = true /\ Blockchain s2 = Blockchain s).
    { unfold verify_once. rewrite run_get. unfold b'. rewrite Hver. destruct (IsBlockVerified _ _); eexists; done. }
    destruct H1 as (s2 & E2 & Hpost2 & Hc2).
    destruct (commitBlock_runs b' m sender s2 Hsender Hpost2 Hlast (accepts b')) as (s3 & E3 & Hbn3 & Hc3 & Hpost3 & _).
    rewrite (run_bind (attach_commit_sig b (msg_Payload m)) _ s b' s1 eq_refl).
    rewrite (run_bind _ _ _ _ _ E2). cbn [negb]. rewrite (run_bind _ _ _ _ _ E3). cbn [negb].
    destruct (IH (bn + 1) s3 Hl Hpost3) as (s' & E & Hbn' & Hc').
    + rewrite Hbn3. simpl. rewrite (Hnum 0%nat b m eq_refl), u64_succ. f_equal. lia.
    + intros j b0 m0 Hj. rewrite (Hnum (S j) b0 m0 Hj). f_equal. lia.
    + exists s'. split; [exact E|]. split; [rewrite Hbn'; f_equal; lia|]. rewrite Hc', Hc3, Hc2. done.
Qed.


(** ** The end of the grace period *)


(** ** Running a list of events *)

Fixpoint run_events (evs : list event) (s : @Consensus env B) : option Consensus :=
  match evs with
  | [] => Some s
  | e :: evs' => match handle e s with Some (_, s') => run_events evs' s' | None => None end
  end.

Lemma run_events_creach evs s0 : forall s s', creach s0 s -> run_events evs s = Some s' -> creach s0 s'.
Proof.
  induction evs as [|e evs IH]; intros s s' Hs; simpl; [by intros [= <-]|].
  destruct (handle e s) as [[[] s1]|] eqn:E; [|done]. apply IH. by eapply creach_step.
Qed.

Lemma run_events_default evs s0 :
  bool_decide (is_Some (run_events evs s0)) = true -> creach s0 (default s0 (run_events evs s0)).
Proof.
  intros H. apply bool_decide_eq_true in H as [s' E]. rewrite E. simpl.
  eapply run_events_creach; [apply creach_start|exact E].
Qed.

End Spec.

(** ** Witnesses

    A committee of four keys.  The signature of a secret [k] on [p] is
    [k * (1 + sum p)], so that sums of signatures verify under sums of keys. *)
Module ConsensusToy.

Definition sum (l : list Z) : Z := foldr Z.add 0 l.

Definition members : list PublicKeyWrapper := [mk_key 11 1; mk_key 12 2; mk_key 13 3; mk_key 14 4].

Fixpoint position (ks : list PublicKeyWrapper) (k : Z) : option Z :=
  match ks with
  | [] => None
  | x :: ks' => if key_Bytes x =? k then Some 0 else match position ks' k with Some n => Some (n + 1) | None => None end
  end.

Definition enable (m : list PublicKeyWrapper * Z) (k : Z) : option (list PublicKeyWrapper * Z) :=
  match position (fst m) k with Some n => Some (fst m, Z.lor (snd m) (2 ^ n)) | None => None end.

Fixpoint enabled_sum (ks : list PublicKeyWrapper) (bits : Z) : Z :=
  match ks with
  | [] => 0
  | k :: ks' => (if Z.odd bits then key_Object k else 0) + enabled_sum ks' (Z.div2 bits)
  end.

Definition marshal (m : Message) : list Z :=
  [req_Type (msg_request m); req_ViewId (msg_request m); req_BlockNum (msg_request m)]
  ++ req_BlockHash (msg_request m) ++ req_Payload (msg_request m) ++ msg_Signature m.

#[local] Instance toy_env : Env := {
  Sign := Z;
  SecretKey := Z;
  Mask := list PublicKeyWrapper * Z;
  Deserialize := fun l => match l with x :: _ => Some x | [] => None end;
  Serialize := fun x => x :: replicate 95 0;
  sign_zero := 0;
  sign_Add := Z.add;
  SignHash := fun k p => Some (k * (1 + sum p));
  VerifyHash := fun x pub p => x =? pub * (1 + sum p);
  pub_zero := 0;
  pub_Add := Z.add;
  AggregateSig := fun l => sum ((fun sig => sum (take 1 sig)) <$> l);
  BytesToBLSPublicKey := fun l => Some (be_int l - 10);
  NewMask := fun ks => Some (ks, 0);
  SetMask := fun m l => match l with [z] => Some (fst m, z) | _ => None end;
  SetKey := enable;
  SetKeysAtomic := fun m ks => foldl (fun o k => match o with Some m => enable m (key_Bytes k) | None => None end) (Some m) ks;
  KeyEnabled := fun m k => match position (fst m) k with Some n => Some (Z.testbit (snd m) n) | None => None end;
  Clear := fun m => (fst m, 0);
  Bitmap := fun m => [snd m];
  AggregatePublic := fun m => enabled_sum (fst m) (snd m);
  CountEnabled := fun m => popcount8 (snd m);
  GetSignedPubKeysFromBitmap := fun m l => None;
  rlp_EncodeToBytes := fun b => Some [blk_Hash b; blk_NumberU64 b];
  rlp_DecodeBytes := fun l => match l with [h; n] => Some (mk_block h n 0 0 false []) | _ => None end;
  protobuf_Marshal := fun m => Some (marshal m);
  hash_Keccak256 := fun l => [sum l];
  SendMessageToGroups := fun _ => true
}.

(** The chain is the list of its blocks, newest first. *)
#[local] Instance toy_chain : ChainOps (list Block) := {
  ShardState := unit;
  IsStaking := fun epoch => epoch >? 5;
  CurrentHeader := fun c => default (mk_block 0 0 0 0 false []) (head c);
  GetShardStateEpoch := fun _ => Some None;
  InsertChain := fun b c => (b :: c, true);
  WriteCommitSig := fun _ _ c => c;
  ReadCommitSig := fun _ _ => None;
  chain_GetBlockByHash := fun _ _ => None;
  ReadFromDB := fun _ _ => Some tt;
  FindCommitteeByID := fun _ => Some (mk_committee 4 members Some)
}.

#[local] Instance toy_range : RangeOrder := canonical_order.

Abbreviation node := (@Consensus toy_env (list Block)).
Abbreviation secret := (@PrivateKeyWrapper toy_env).

Definition decider0 : uniformVoteWeight := mk_decider newBallotsBackedSignatureReader None.

Definition key_of (bytes : Z) : secret := @mk_private toy_env (mk_key bytes (bytes - 10)) (bytes - 10).

Definition new_node (keys : list secret) : option node := New 0 0 (Some keys) decider0 [] false true.

Definition start (k : Z) : node :=
  @mk_consensus toy_env (list Block) decider0 NewFBFTLog FBFTAnnounce Normal 0 (NewTimeout 0 phaseDuration)
    (NewTimeout 0 bootstrapDuration) None None None None None [] [key_of k] None 0 0 [] 0 false
    [] [] true None false [] NewMessageSender [] false [] 0.

Lemma start_new k : New 0 0 (Some [key_of k]) decider0 [] false true = Some (start k).
Proof. reflexivity. Qed.

Definition b1 : Block := mk_block 101 1 0 0 false [].
Definition b2 : Block := mk_block 102 2 101 0 false [].

(** A vote of a member, and a signed message of the leader with a certificate of
    the first three members. *)
Definition vote (t k num hash : Z) (payload : list Z) : event :=
  EvMessage (mk_message (mk_request t 0 num 0 (be_bytes 32 hash) [] (be_bytes 48 k)
                           (Serialize ((k - 10) * (1 + sum payload))) []) []) k.

Definition certificate (payload : list Z) : list Z := Serialize (6 * (1 + sum payload)) ++ [7].

Definition leader_request (t num hash : Z) (blockBytes payload : list Z) : ConsensusRequest :=
  mk_request t 0 num 0 (be_bytes 32 hash) blockBytes (be_bytes 48 11) payload [].

Definition from_leader (req : ConsensusRequest) : event :=
  EvMessage (mk_message req (Serialize (1 * (1 + sum [sum (marshal (mk_message req []))])))) 11.

Definition prepared1 : ConsensusRequest :=
  leader_request MessageType_PREPARED 1 101 [101; 1] (certificate (hash_bytes 101)).
Definition committed1 : ConsensusRequest :=
  leader_request MessageType_COMMITTED 1 101 [] (certificate (commit_payload b1)).

(** The leader commits block 1, with a grace period left over, and announces
    block 2. *)
Definition leader_events : list event :=
  [EvSyncReady; EvNewBlock b1;
   vote MessageType_PREPARE 12 1 101 (hash_bytes 101); vote MessageType_PREPARE 13 1 101 (hash_bytes 101);
   vote MessageType_COMMIT 12 1 101 (commit_payload b1); vote MessageType_COMMIT 13 1 101 (commit_payload b1);
   EvTask 0; vote MessageType_COMMIT 14 1 101 (commit_payload b1); EvNewBlock b2].

Definition leader_state : node := default (start 11) (run_events leader_events (start 11)).

Definition accept : Block -> bool := fun _ => true.

Definition validator_events : list event := [EvSyncReady; EvSetBlockVerifier accept; from_leader prepared1].

Definition validator_state : node := default (start 12) (run_events validator_events (start 12)).
Definition validator_done : node :=
  default (start 12) (run_events (validator_events ++ [from_leader committed1]) (start 12)).

Lemma leader_reach : creach (start 11) leader_state.
Proof. apply run_events_default. vm_compute. reflexivity. Qed.

Lemma validator_reach : creach (start 12) validator_state.
Proof. apply run_events_default. vm_compute. reflexivity. Qed.

Lemma validator_done_reach : creach (start 12) validator_done.
Proof. apply run_events_default. vm_compute. reflexivity. Qed.

Definition committed_msg : FBFTMessage :=
  mk_msg MessageType_COMMITTED 0 1 101 [] [mk_key 11 1] [] None (certificate (commit_payload b1)) true.

Lemma committed_messages_are_certified_witness : certified committed_msg \/ own [key_of 12] committed_msg.
Proof.
  apply (committed_messages_are_certified 0 0 [key_of 12] decider0 [] false true (start 12) validator_done
           (id committed_msg) committed_msg);
    [reflexivity|exact validator_done_reach|vm_cast_no_check (eq_refl (Some committed_msg))|reflexivity|reflexivity].
Defined.

(** The state a computation ends in, when it does not panic. *)
Definition run_state {S} (m : M S ()) (s : S) : S := match m s with Some (_, s') => s' | None => s end.

Lemma run_state_spec {S} (m : M S ()) (s : S) :
  match m s with Some _ => true | None => false end = true -> m s = Some (tt, run_state m s).
Proof. unfold run_state. by destruct (m s) as [[[] s']|]. Qed.

Definition received : FBFTMessage := set_Verified committed_msg false.
Definition validator_next : node := run_state (onCommitted received) validator_state.

Lemma validator_next_spec : onCommitted received validator_state = Some (tt, validator_next).
Proof. unfold validator_next. refine (run_state_spec (onCommitted received) validator_state _). vm_cast_no_check (eq_refl true). Qed.

Lemma validator_chain : Blockchain validator_state = [].
Proof. vm_compute. reflexivity. Qed.


Lemma no_commit_vote_is_ever_sent_witness :
  wire_ok (default [] (head (sent (msgSender leader_state)))).
Proof.
  apply (no_commit_vote_is_ever_sent 0 0 [key_of 11] decider0 [] false true (start 11) leader_state).
  - reflexivity.
  - exact leader_reach.
  - apply list_elem_of_lookup. exists 0%nat. vm_compute. reflexivity.
Defined.

Lemma double_signs_are_never_reported_witness : SlashChan leader_state = [].
Proof.
  apply (double_signs_are_never_reported 0 0 [key_of 11] decider0 [] false true (start 11) leader_state eq_refl leader_reach).
Defined.

Lemma commit_payload_identifies_block_witness : blk_NumberU64 b1 = blk_NumberU64 b1 /\ blk_Hash b1 = blk_Hash b1.
Proof. apply (commit_payload_identifies_block b1 b1); unfold is_u64; simpl; try lia; reflexivity. Defined.

(** A log with the two blocks committed but not yet inserted. *)
Definition committed_msg2 : FBFTMessage :=
  mk_msg MessageType_COMMITTED 0 2 102 [] [mk_key 11 1] [] None (certificate (commit_payload b2)) true.
Definition behind_log : FBFTLog :=
  AddVerifiedMessage (AddVerifiedMessage (AddBlock (AddBlock NewFBFTLog b1) b2) committed_msg) committed_msg2.
Definition behind : node := set_c_FBFTLog behind_log validator_state.

Lemma last_mile_search_terminates_witness :
  exists l, getLastMileBlocksAndMsg behind_log 1 = Some l /\ (length l <= size (messages behind_log))%nat.
Proof.
  destruct (last_mile_search_terminates behind_log 1) as (l & H1 & H2 & _).
  - unfold is_u64. lia.
  - vm_compute. reflexivity.
  - exists l. split; assumption.
Defined.

Lemma behind_committable i m b :
  messages behind_log !! i = Some m -> blocks behind_log !! msg_BlockHash m = Some b ->
  committable accept (b, m) /\ blk_NumberU64 b = msg_BlockNum m.
Proof.
  intros Hm Hb. unfold behind_log, AddVerifiedMessage in Hm, Hb. cbn [messages blocks AddBlock] in Hm, Hb.
  assert (H : m = committed_msg \/ m = committed_msg2).
  { apply lookup_insert_Some in Hm as [[_ <-]|[_ Hm]]; [by right|].
    apply lookup_insert_Some in Hm as [[_ <-]|[_ Hm]]; [by left|]. by apply (lookup_empty_Some i m) in Hm. }
  destruct H as [-> | ->]; vm_compute in Hb; injection Hb as <-;
    (split; [split; [by eexists|split; [done|by intros]]|done]).
Qed.


Definition stale_message : NetworkMessage :=
  match construct leader_state MessageType_COMMITTED [] [key_of 11] with
  | Some (Constructed n) => n
  | _ => mk_network 0 [] committed_msg
  end.

Lemma stale_message_spec : construct leader_state MessageType_COMMITTED [] [key_of 11] = Some (Constructed stale_message).
Proof.
  assert (H : match construct leader_state MessageType_COMMITTED [] [key_of 11] with
              | Some (Constructed _) => true | _ => false end = true) by (vm_compute; reflexivity).
  unfold stale_message. by destruct (construct leader_state MessageType_COMMITTED [] [key_of 11]) as [[]|].
Qed.


End ConsensusToy.
