(* ===== verification/RawDb.v ===== *)
(** * The database schema and its accessors

    Models [core/rawdb]: [schema.go], [accessors_chain.go],
    [accessors_indexes.go], [accessors_metadata.go], [accessors_offchain.go],
    [accessors_snapshot.go] and [accessors_state.go].  The database is a finite map from byte strings to byte
    strings; a writer is a list of operations, applied at once to the database or
    collected in a batch and applied later, as the callers do.  The RLP encodings
    are parameters with the law that decoding inverts encoding.  Shown: keys of
    different records never collide, reading returns what was written last and
    nothing else changes, and a transaction of a canonical block is found again
    by its hash. *)
From stdpp Require Import gmap list sorting.
From Stdlib Require Import ZArith Lia String Ascii.
From S2P Require Import Prelude Transaction.

Local Open Scope Z_scope.

(** ** Headers and bodies (core/types/header.go, block.go) *)

Record Header : Type := mk_header {
  ParentHash : Z;
  Root : Z;
  TxHash : Z;
  Number : Z;
  GasLimit : Z;
  GasUsed : Z;
  hdr_Time : Z;
  hdr_ShardID : Z;
  LastCommitSignature : list Z;
  LastCommitBitmap : list Z
}.

(** [types.Body] holds the transactions. *)
Definition Body : Type := list Transaction.

(** Integers RLP can encode: none is negative. *)
Definition header_encodable (h : Header) : Prop := is_u64 (Number h) /\ 0 <= hdr_Time h.

Definition tx_encodable (tx : Transaction) : Prop :=
  let d := Transaction.data tx in 0 <= Price d /\ 0 <= Amount d /\ 0 <= sigV d /\ 0 <= sigR d /\ 0 <= sigS d.

(** What the encoding of a transaction carries: neither the time it was first
    seen nor the hash, whose tag excludes it. *)
Definition tx_content (tx : Transaction) : txdata := set_dataHash (Transaction.data tx) None.

(** RLP and the hash of a header.  A hash is 32 bytes and never all zero. *)
Class DbCodec : Type := {
  rlp_header : Header -> list Z;
  unrlp_header : list Z -> option Header;
  rlp_body : Body -> list Z;
  unrlp_body : list Z -> option Body;
  unrlp_legacy_entry : list Z -> option Z;
  rlp_uint64 : Z -> list Z;
  unrlp_uint64 : list Z -> option Z;
  Header_Hash : Header -> Z
}.

Class DbLaws {codec : DbCodec} : Prop := {
  header_roundtrip : forall h, header_encodable h -> unrlp_header (rlp_header h) = Some h;
  header_nonempty : forall h, rlp_header h <> [];
  body_roundtrip : forall b, Forall tx_encodable b ->
    exists b', unrlp_body (rlp_body b) = Some b' /\ tx_content <$> b' = tx_content <$> b;
  body_nonempty : forall b, rlp_body b <> [];
  hash_range : forall h, 0 < Header_Hash h < 2 ^ 256
}.

(** ** Schema *)

Definition str (s : string) : list Z := (fun a => Z.of_N (N_of_ascii a)) <$> list_ascii_of_string s.

Definition hash_to_bytes (h : Z) : list Z := be_bytes 32 h.

(** [common.BytesToHash]: the last 32 bytes. *)
Definition BytesToHash (b : list Z) : Z := be_int (drop (List.length b - 32) b).

Definition headHeaderKey : list Z := str "LastHeader".
Definition headBlockKey : list Z := str "LastBlock".
Definition headFastBlockKey : list Z := str "LastFast".
Definition lastPivotKey : list Z := str "LastPivot".
Definition snapshotRootKey : list Z := str "SnapshotRoot".
Definition snapshotJournalKey : list Z := str "SnapshotJournal".
Definition snapshotGeneratorKey : list Z := str "SnapshotGenerator".
Definition snapshotRecoveryKey : list Z := str "SnapshotRecovery".
Definition txIndexTailKey : list Z := str "TransactionIndexTail".
Definition fastTxLookupLimitKey : list Z := str "FastTransactionLookupLimit".
Definition uncleanShutdownKey : list Z := str "unclean-shutdown".
Definition shardIDKey : list Z := str "shardID".
Definition lastCommitsKey : list Z := str "LastCommits".

Definition headerPrefix : list Z := str "h".
Definition headerHashSuffix : list Z := str "n".
Definition headerNumberPrefix : list Z := str "H".
Definition blockBodyPrefix : list Z := str "b".
Definition txLookupPrefix : list Z := str "l".
Definition SnapshotAccountPrefix : list Z := str "a".
Definition SnapshotStoragePrefix : list Z := str "o".
Definition codePrefix : list Z := str "c".
Definition preimagePrefix : list Z := str "secure-key-".
Definition configPrefix : list Z := str "ethereum-config-".
Definition blockCommitSigPrefix : list Z := str "block-sig-".

Definition encodeBlockNumber (number : Z) : list Z := be_bytes 8 number.

Definition headerKeyPrefix (number : Z) : list Z := headerPrefix ++ encodeBlockNumber number.
Definition headerKey (number hash : Z) : list Z := (headerPrefix ++ encodeBlockNumber number) ++ hash_to_bytes hash.
Definition headerHashKey (number : Z) : list Z := (headerPrefix ++ encodeBlockNumber number) ++ headerHashSuffix.
Definition headerNumberKey (hash : Z) : list Z := headerNumberPrefix ++ hash_to_bytes hash.
Definition blockBodyKey (number hash : Z) : list Z := (blockBodyPrefix ++ encodeBlockNumber number) ++ hash_to_bytes hash.
Definition txLookupKey (hash : Z) : list Z := txLookupPrefix ++ hash_to_bytes hash.
Definition accountSnapshotKey (hash : Z) : list Z := SnapshotAccountPrefix ++ hash_to_bytes hash.
Definition storageSnapshotKey (accountHash storageHash : Z) : list Z :=
  (SnapshotStoragePrefix ++ hash_to_bytes accountHash) ++ hash_to_bytes storageHash.
Definition storageSnapshotsKey (accountHash : Z) : list Z := SnapshotStoragePrefix ++ hash_to_bytes accountHash.
Definition preimageKey (hash : Z) : list Z := preimagePrefix ++ hash_to_bytes hash.
Definition codeKey (hash : Z) : list Z := codePrefix ++ hash_to_bytes hash.
Definition configKey (hash : Z) : list Z := configPrefix ++ hash_to_bytes hash.
Definition blockCommitSigKey (number : Z) : list Z := blockCommitSigPrefix ++ encodeBlockNumber number.

(** ** The database *)

Abbreviation DB := (gmap (list Z) (list Z)).

Inductive db_op : Type := Put (key value : list Z) | Delete (key : list Z).

Definition db_apply (db : DB) (op : db_op) : DB :=
  match op with
  | Put k v => <[k := v]> db
  | Delete k => delete k db
  end.

Definition db_write (db : DB) (ops : list db_op) : DB := foldl db_apply db ops.

(** [data, _ := db.Get(key)]: a missing key gives no data. *)
Definition Get (db : DB) (key : list Z) : list Z := default [] (db !! key).
Definition Has (db : DB) (key : list Z) : bool := bool_decide (is_Some (db !! key)).

(** ** Accessors: chain *)

Definition ReadCanonicalHash (db : DB) (number : Z) : Z :=
  match Get db (headerHashKey number) with
  | [] => 0
  | data => BytesToHash data
  end.

Definition WriteCanonicalHash (hash number : Z) : list db_op := [Put (headerHashKey number) (hash_to_bytes hash)].

Definition DeleteCanonicalHash (number : Z) : list db_op := [Delete (headerHashKey number)].

(** The iterator visits the keys with the prefix in increasing order. *)
Definition all_hashes_step (number : Z) (kv : list Z * list Z) : option Z :=
  let prefix := headerKeyPrefix number in
  if bool_decide (take (List.length prefix) (fst kv) = prefix)
     && bool_decide (List.length (fst kv) = (List.length prefix + 32)%nat)
  then Some (BytesToHash (drop (List.length (fst kv) - 32) (fst kv)))
  else None.

Definition ReadAllHashes (db : DB) (number : Z) : list Z :=
  merge_sort Z.le (omap (all_hashes_step number) (map_to_list db)).

Definition read_number (db : DB) (key : list Z) : option Z :=
  let data := Get db key in
  if bool_decide (List.length data = 8%nat) then Some (be_int data) else None.

Definition ReadHeaderNumber (db : DB) (hash : Z) : option Z := read_number db (headerNumberKey hash).

Definition WriteHeaderNumber (hash number : Z) : list db_op :=
  [Put (headerNumberKey hash) (encodeBlockNumber number)].

Definition DeleteHeaderNumber (hash : Z) : list db_op := [Delete (headerNumberKey hash)].

Definition read_hash (db : DB) (key : list Z) : Z :=
  match Get db key with
  | [] => 0
  | data => BytesToHash data
  end.

Definition ReadHeadHeaderHash (db : DB) : Z := read_hash db headHeaderKey.
Definition WriteHeadHeaderHash (hash : Z) : list db_op := [Put headHeaderKey (hash_to_bytes hash)].
Definition ReadHeadBlockHash (db : DB) : Z := read_hash db headBlockKey.
Definition WriteHeadBlockHash (hash : Z) : list db_op := [Put headBlockKey (hash_to_bytes hash)].
Definition ReadHeadFastBlockHash (db : DB) : Z := read_hash db headFastBlockKey.
Definition WriteHeadFastBlockHash (hash : Z) : list db_op := [Put headFastBlockKey (hash_to_bytes hash)].

Definition ReadTxIndexTail (db : DB) : option Z := read_number db txIndexTailKey.
Definition WriteTxIndexTail (number : Z) : list db_op := [Put txIndexTailKey (encodeBlockNumber number)].
Definition ReadFastTxLookupLimit (db : DB) : option Z := read_number db fastTxLookupLimitKey.
Definition WriteFastTxLookupLimit (number : Z) : list db_op := [Put fastTxLookupLimitKey (encodeBlockNumber number)].

Definition ReadHeaderRLP (db : DB) (hash number : Z) : list Z := Get db (headerKey number hash).

Definition HasHeader (db : DB) (hash number : Z) : bool := Has db (headerKey number hash).

Definition ReadBodyRLP (db : DB) (hash number : Z) : list Z := Get db (blockBodyKey number hash).

Definition WriteBodyRLP (hash number : Z) (rlp : list Z) : list db_op := [Put (blockBodyKey number hash) rlp].

Definition HasBody (db : DB) (hash number : Z) : bool := Has db (blockBodyKey number hash).

Definition deleteHeaderWithoutNumber (hash number : Z) : list db_op := [Delete (headerKey number hash)].

Definition DeleteHeader (hash number : Z) : list db_op :=
  deleteHeaderWithoutNumber hash number ++ [Delete (headerNumberKey hash)].

Definition DeleteBody (hash number : Z) : list db_op := [Delete (blockBodyKey number hash)].

Definition DeleteBlock (hash number : Z) : list db_op := DeleteHeader hash number ++ DeleteBody hash number.

(** ** Accessors: snapshots *)

Definition ReadSnapshotRoot (db : DB) : Z :=
  let data := Get db snapshotRootKey in
  if bool_decide (List.length data = 32%nat) then BytesToHash data else 0.
Definition WriteSnapshotRoot (root : Z) : list db_op := [Put snapshotRootKey (hash_to_bytes root)].
Definition DeleteSnapshotRoot : list db_op := [Delete snapshotRootKey].

Definition ReadAccountSnapshot (db : DB) (hash : Z) : list Z := Get db (accountSnapshotKey hash).
Definition WriteAccountSnapshot (hash : Z) (entry : list Z) : list db_op := [Put (accountSnapshotKey hash) entry].
Definition DeleteAccountSnapshot (hash : Z) : list db_op := [Delete (accountSnapshotKey hash)].

Definition ReadStorageSnapshot (db : DB) (accountHash storageHash : Z) : list Z :=
  Get db (storageSnapshotKey accountHash storageHash).
Definition WriteStorageSnapshot (accountHash storageHash : Z) (entry : list Z) : list db_op :=
  [Put (storageSnapshotKey accountHash storageHash) entry].
Definition DeleteStorageSnapshot (accountHash storageHash : Z) : list db_op :=
  [Delete (storageSnapshotKey accountHash storageHash)].

Definition ReadSnapshotJournal (db : DB) : list Z := Get db snapshotJournalKey.
Definition WriteSnapshotJournal (journal : list Z) : list db_op := [Put snapshotJournalKey journal].
Definition DeleteSnapshotJournal : list db_op := [Delete snapshotJournalKey].

Definition ReadSnapshotGenerator (db : DB) : list Z := Get db snapshotGeneratorKey.
Definition WriteSnapshotGenerator (generator : list Z) : list db_op := [Put snapshotGeneratorKey generator].
Definition DeleteSnapshotGenerator : list db_op := [Delete snapshotGeneratorKey].

Definition ReadSnapshotRecoveryNumber (db : DB) : option Z := read_number db snapshotRecoveryKey.
Definition WriteSnapshotRecoveryNumber (number : Z) : list db_op := [Put snapshotRecoveryKey (be_bytes 8 number)].
Definition DeleteSnapshotRecoveryNumber : list db_op := [Delete snapshotRecoveryKey].

(** ** Accessors: ranges of canonical hashes *)

(** [bytes.Compare] on keys. *)
Fixpoint bytes_leb (a b : list Z) : bool :=
  match a, b with
  | [], _ => true
  | _ :: _, [] => false
  | x :: a', y :: b' => (x <? y) || ((x =? y) && bytes_leb a' b')
  end.

Definition key_le (a b : list Z * list Z) : Prop := bytes_leb (fst a) (fst b) = true.

#[export] Instance key_le_dec : RelDecision key_le.
Proof. intros a b. unfold key_le. apply _. Defined.

(** The database in the order of its iterator, from a start key. *)
Definition iterate_from (db : DB) (start : list Z) : list (list Z * list Z) :=
  filter (fun kv => bytes_leb start (fst kv) = true) (merge_sort key_le (map_to_list db)).

Definition canonical_entry (kv : list Z * list Z) : option (Z * Z) :=
  let key := fst kv in
  if bool_decide (List.length key = (List.length headerPrefix + 8 + 1)%nat)
     && bool_decide (drop (List.length key - 1) key = headerHashSuffix)
  then Some (be_int (take 8 (drop (List.length headerPrefix) key)), BytesToHash (snd kv))
  else None.

(** The entry that reaches the limit is the last one, so a negative limit gives
    one entry. *)
Definition ReadAllCanonicalHashes (db : DB) (from to limit : Z) : list (Z * Z) :=
  if limit =? 0 then []
  else take (Z.to_nat (Z.max limit 1))
         (omap canonical_entry
           (filter (fun kv => bytes_leb (headerHashKey to) (fst kv) = false) (iterate_from db (headerHashKey from)))).

Section WithCodec.
Context {codec : DbCodec}.

Definition ReadHeader (db : DB) (hash number : Z) : option Header :=
  match ReadHeaderRLP db hash number with
  | [] => None
  | data => unrlp_header data
  end.

Definition WriteHeader (header : Header) : list db_op :=
  let hash := Header_Hash header in
  let number := big_uint64 (Number header) in
  WriteHeaderNumber hash number ++ [Put (headerKey number hash) (rlp_header header)].

Definition ReadLastPivotNumber (db : DB) : option Z :=
  match Get db lastPivotKey with
  | [] => None
  | data => unrlp_uint64 data
  end.

Definition WriteLastPivotNumber (pivot : Z) : list db_op := [Put lastPivotKey (rlp_uint64 pivot)].

Definition ReadBody (db : DB) (hash number : Z) : option Body :=
  match ReadBodyRLP db hash number with
  | [] => None
  | data => unrlp_body data
  end.

Definition WriteBody (hash number : Z) (body : Body) : list db_op := WriteBodyRLP hash number (rlp_body body).

(** A block is its header and its transactions. *)
Definition ReadBlock (db : DB) (hash number : Z) : option (Header * Body) :=
  match ReadHeader db hash number with
  | None => None
  | Some header =>
      match ReadBody db hash number with
      | None => None
      | Some body => Some (header, body)
      end
  end.

Definition WriteBlock (header : Header) (body : Body) : list db_op :=
  WriteBody (Header_Hash header) (big_uint64 (Number header)) body ++ WriteHeader header.

(** ** Accessors: indexes, metadata, commit signatures, state *)

(** The three formats of an entry: a number, a block hash, a legacy record. *)
Definition ReadTxLookupEntry (db : DB) (hash : Z) : option Z :=
  match Get db (txLookupKey hash) with
  | [] => None
  | data =>
      if (List.length data <? 32)%nat then Some (big_uint64 (be_int data))
      else if (List.length data =? 32)%nat then ReadHeaderNumber db (BytesToHash data)
      else unrlp_legacy_entry data
  end.

Definition writeTxLookupEntry (hash : Z) (numberBytes : list Z) : list db_op := [Put (txLookupKey hash) numberBytes].

Definition WriteTxLookupEntries (number : Z) (hashes : list Z) : list db_op :=
  mjoin ((fun hash => writeTxLookupEntry hash (int_bytes number)) <$> hashes).

Definition DeleteTxLookupEntry (hash : Z) : list db_op := [Delete (txLookupKey hash)].

Definition DeleteTxLookupEntries (hashes : list Z) : list db_op := mjoin (DeleteTxLookupEntry <$> hashes).

Definition WriteShardID (shardID : Z) : list db_op := [Put shardIDKey (be_bytes 8 shardID)].

Definition ReadShardID (db : DB) : option Z :=
  match Get db shardIDKey with
  | [] => None
  | data => if bool_decide (List.length data = 8%nat) then Some (be_int data) else None
  end.

(** A missing signature falls back to the last commits. *)
Definition ReadBlockCommitSig (db : DB) (blockNum : Z) : option (list Z) :=
  match db !! blockCommitSigKey blockNum with
  | Some data => Some data
  | None => db !! lastCommitsKey
  end.

Definition WriteBlockCommitSig (blockNum : Z) (sigAndBitmap : list Z) : list db_op :=
  [Put (blockCommitSigKey blockNum) sigAndBitmap].

Definition ReadPreimage (db : DB) (hash : Z) : list Z := Get db (preimageKey hash).

Definition WritePreimages (preimages : list (Z * list Z)) : list db_op :=
  (fun p => Put (preimageKey (fst p)) (snd p)) <$> preimages.

Definition ReadCodeWithPrefix (db : DB) (hash : Z) : list Z := Get db (codeKey hash).

Definition ReadCode (db : DB) (hash : Z) : list Z :=
  match Get db (hash_to_bytes hash) with
  | [] => ReadCodeWithPrefix db hash
  | data => data
  end.

Definition WriteCode (hash : Z) (code : list Z) : list db_op := [Put (codeKey hash) code].
Definition DeleteCode (hash : Z) : list db_op := [Delete (codeKey hash)].
Definition ReadTrieNode (db : DB) (hash : Z) : list Z := Get db (hash_to_bytes hash).
Definition WriteTrieNode (hash : Z) (node : list Z) : list db_op := [Put (hash_to_bytes hash) node].
Definition DeleteTrieNode (hash : Z) : list db_op := [Delete (hash_to_bytes hash)].

End WithCodec.

Section WithTransactions.
Context {codec : DbCodec} `{!TxCrypto}.

Definition WriteTxLookupEntriesByBlock (header : Header) (body : Body) : list db_op :=
  mjoin ((fun tx => writeTxLookupEntry (tx_hash tx) (int_bytes (Number header))) <$> body).

(** The position of the first transaction with the hash. *)
Fixpoint find_transaction (body : Body) (hash : Z) (txIndex : Z) : option (Transaction * Z) :=
  match body with
  | [] => None
  | tx :: body' => if tx_hash tx =? hash then Some (tx, txIndex) else find_transaction body' hash (txIndex + 1)
  end.

(** The transaction, its block's hash and number, and its index. *)
Definition ReadTransaction (db : DB) (hash : Z) : option (Transaction * Z * Z * Z) :=
  match ReadTxLookupEntry db hash with
  | None => None
  | Some blockNumber =>
      let blockHash := ReadCanonicalHash db blockNumber in
      if blockHash =? 0 then None
      else
        match ReadBody db blockHash blockNumber with
        | None => None
        | Some body =>
            match find_transaction body hash 0 with
            | None => None
            | Some (tx, txIndex) => Some (tx, blockHash, blockNumber, txIndex)
            end
        end
  end.

End WithTransactions.

(** ** The records of the schema *)

Inductive named_key : Type :=
| NHeadHeader | NHeadBlock | NHeadFast | NLastPivot | NSnapshotRoot | NSnapshotJournal | NSnapshotGenerator
| NSnapshotRecovery | NTxIndexTail | NFastTxLookupLimit | NUncleanShutdown | NShardID | NLastCommits.

Definition named_bytes (n : named_key) : list Z :=
  match n with
  | NHeadHeader => headHeaderKey
  | NHeadBlock => headBlockKey
  | NHeadFast => headFastBlockKey
  | NLastPivot => lastPivotKey
  | NSnapshotRoot => snapshotRootKey
  | NSnapshotJournal => snapshotJournalKey
  | NSnapshotGenerator => snapshotGeneratorKey
  | NSnapshotRecovery => snapshotRecoveryKey
  | NTxIndexTail => txIndexTailKey
  | NFastTxLookupLimit => fastTxLookupLimitKey
  | NUncleanShutdown => uncleanShutdownKey
  | NShardID => shardIDKey
  | NLastCommits => lastCommitsKey
  end.

Inductive db_key : Type :=
| KHeader (number hash : Z)
| KCanonical (number : Z)
| KHeaderNumber (hash : Z)
| KBody (number hash : Z)
| KTxLookup (hash : Z)
| KAccountSnapshot (hash : Z)
| KStorageSnapshot (account storage : Z)
| KPreimage (hash : Z)
| KCode (hash : Z)
| KConfig (hash : Z)
| KCommitSig (number : Z)
| KTrieNode (hash : Z)
| KNamed (n : named_key).

#[export] Instance named_key_eq_dec : EqDecision named_key.
Proof. solve_decision. Defined.

#[export] Instance db_key_eq_dec : EqDecision db_key.
Proof. solve_decision. Defined.

Definition key_bytes (k : db_key) : list Z :=
  match k with
  | KHeader n h => headerKey n h
  | KCanonical n => headerHashKey n
  | KHeaderNumber h => headerNumberKey h
  | KBody n h => blockBodyKey n h
  | KTxLookup h => txLookupKey h
  | KAccountSnapshot h => accountSnapshotKey h
  | KStorageSnapshot a s => storageSnapshotKey a s
  | KPreimage h => preimageKey h
  | KCode h => codeKey h
  | KConfig h => configKey h
  | KCommitSig n => blockCommitSigKey n
  | KTrieNode h => hash_to_bytes h
  | KNamed n => named_bytes n
  end.

Definition is_hash (h : Z) : Prop := 0 <= h < 2 ^ 256.

Definition key_ok (k : db_key) : Prop :=
  match k with
  | KHeader n h | KBody n h => is_u64 n /\ is_hash h
  | KCanonical n | KCommitSig n => is_u64 n
  | KStorageSnapshot a s => is_hash a /\ is_hash s
  | KHeaderNumber h | KTxLookup h | KAccountSnapshot h | KPreimage h | KCode h | KConfig h | KTrieNode h => is_hash h
  | KNamed _ => True
  end.

(** ** Lemmas: keys *)

Definition key_length (k : db_key) : nat :=
  match k with
  | KHeader _ _ | KBody _ _ => 41
  | KCanonical _ => 10
  | KHeaderNumber _ | KTxLookup _ | KAccountSnapshot _ | KCode _ => 33
  | KStorageSnapshot _ _ => 65
  | KPreimage _ => 43
  | KConfig _ => 48
  | KCommitSig _ => 18
  | KTrieNode _ => 32
  | KNamed n => List.length (named_bytes n)
  end.

Lemma key_bytes_length k : List.length (key_bytes k) = key_length k.
Proof.
  destruct k; try reflexivity; cbn [key_bytes key_length];
    unfold headerKey, headerHashKey, headerNumberKey, blockBodyKey, txLookupKey, accountSnapshotKey, storageSnapshotKey,
      preimageKey, codeKey, configKey, blockCommitSigKey, hash_to_bytes, encodeBlockNumber;
    rewrite ?length_app, ?length_be_bytes; reflexivity.
Qed.

Lemma named_bytes_inj n n' : named_bytes n = named_bytes n' -> n = n'.
Proof. destruct n, n'; intros H; first [reflexivity | vm_compute in H; discriminate]. Qed.

Lemma hash_to_bytes_inj h h' : is_hash h -> is_hash h' -> hash_to_bytes h = hash_to_bytes h' -> h = h'.
Proof. intros H H'. by apply (be_bytes_inj 32). Qed.

Lemma encodeBlockNumber_inj n n' : is_u64 n -> is_u64 n' -> encodeBlockNumber n = encodeBlockNumber n' -> n = n'.
Proof. intros H H'. by apply (be_bytes_inj 8). Qed.

Lemma number_hash_inj p n h n' h' :
  is_u64 n -> is_u64 n' -> is_hash h -> is_hash h' ->
  (p ++ encodeBlockNumber n) ++ hash_to_bytes h = (p ++ encodeBlockNumber n') ++ hash_to_bytes h' -> n = n' /\ h = h'.
Proof.
  intros Hn Hn' Hh Hh' E. apply app_inj_2 in E as [E1 E2]; [|unfold hash_to_bytes; by rewrite !length_be_bytes].
  apply app_inv_head in E1. split; [by apply encodeBlockNumber_inj|by apply hash_to_bytes_inj].
Qed.

(** ** Properties of the schema *)

Lemma key_bytes_inj k k' : key_ok k -> key_ok k' -> key_bytes k = key_bytes k' -> k = k'.
Proof.
  intros Hk Hk' E. assert (El : key_length k = key_length k') by (rewrite <- !key_bytes_length; by f_equal).
  destruct k, k'; cbn [key_length] in El; try discriminate El; cbn [key_ok key_bytes] in *;
    try (match goal with n : named_key |- _ => destruct n; vm_compute in El; discriminate El end);
    try (exfalso; unfold headerKey, headerHashKey, headerNumberKey, blockBodyKey, txLookupKey, accountSnapshotKey, codeKey in E;
         cbn in E; discriminate E);
    try (unfold headerNumberKey, txLookupKey, accountSnapshotKey, preimageKey, codeKey, configKey in E;
         apply app_inv_head in E; f_equal; by apply hash_to_bytes_inj).
  - destruct (number_hash_inj headerPrefix number hash number0 hash0) as [-> ->]; tauto.
  - unfold headerHashKey in E. apply app_inj_2 in E as [E _]; [|done]. apply app_inv_head in E.
    f_equal. by apply encodeBlockNumber_inj.
  - destruct n; vm_compute in El; try discriminate El; cbn in E; discriminate E.
  - destruct (number_hash_inj blockBodyPrefix number hash number0 hash0) as [-> ->]; tauto.
  - unfold storageSnapshotKey in E. apply app_inj_2 in E as [E1 E2]; [|unfold hash_to_bytes; by rewrite !length_be_bytes].
    apply app_inv_head in E1. f_equal; apply hash_to_bytes_inj; tauto.
  - unfold blockCommitSigKey in E. apply app_inv_head in E. f_equal. by apply encodeBlockNumber_inj.
  - f_equal. by apply hash_to_bytes_inj.
  - destruct n; vm_compute in El; try discriminate El; cbn in E; discriminate E.
  - f_equal. by apply named_bytes_inj.
Qed.

(** The keys of different records never collide: whatever numbers and hashes
    they are built from, two keys of the schema are equal only when they are the
    key of the same record. *)
Theorem schema_keys_never_collide k k' :
  key_ok k -> key_ok k' -> (key_bytes k = key_bytes k' <-> k = k').
Proof. intros Hk Hk'. split; [by apply key_bytes_inj|by intros ->]. Qed.

(** ** Reading after writing *)

Lemma lookup_put (db : DB) k k' v :
  key_ok k -> key_ok k' ->
  db_apply db (Put (key_bytes k) v) !! key_bytes k' = if decide (k = k') then Some v else db !! key_bytes k'.
Proof.
  intros Hk Hk'. simpl. case_decide as E; [subst; apply lookup_insert_eq|].
  apply lookup_insert_ne. intros Eb. by apply E, key_bytes_inj.
Qed.

Lemma lookup_del (db : DB) k k' :
  key_ok k -> key_ok k' ->
  db_apply db (Delete (key_bytes k)) !! key_bytes k' = if decide (k = k') then None else db !! key_bytes k'.
Proof.
  intros Hk Hk'. simpl. case_decide as E; [subst; apply lookup_delete_eq|].
  apply lookup_delete_ne. intros Eb. by apply E, key_bytes_inj.
Qed.

Lemma db_write_app db ops ops' : db_write db (ops ++ ops') = db_write (db_write db ops) ops'.
Proof. apply foldl_app. Qed.

(** An operation on a record of the schema. *)
Definition op_key (k : db_key) (op : db_op) : Prop :=
  op = Delete (key_bytes k) \/ exists v, op = Put (key_bytes k) v.

Lemma lookup_other (db : DB) op k k' :
  op_key k op -> key_ok k -> key_ok k' -> k <> k' -> db_apply db op !! key_bytes k' = db !! key_bytes k'.
Proof.
  intros [->|[v ->]] Hk Hk' Hne; [rewrite lookup_del by done|rewrite lookup_put by done]; by case_decide.
Qed.

Lemma lookup_others ops : forall (db : DB) k',
  key_ok k' -> Forall (fun op => exists k, op_key k op /\ key_ok k /\ k <> k') ops ->
  db_write db ops !! key_bytes k' = db !! key_bytes k'.
Proof.
  induction ops as [|op ops IH]; intros db k' Hk' H; [done|]. apply Forall_cons in H as [(k & Hop & Hk & Hne) H].
  change (db_write db (op :: ops)) with (db_write (db_apply db op) ops). rewrite IH by done. by eapply lookup_other.
Qed.

Lemma other_put k v k' :
  key_ok k -> k <> k' -> exists k0, op_key k0 (Put (key_bytes k) v) /\ key_ok k0 /\ k0 <> k'.
Proof. intros Hk Hne. exists k. split; [right; by exists v|done]. Qed.

Lemma other_del k k' :
  key_ok k -> k <> k' -> exists k0, op_key k0 (Delete (key_bytes k)) /\ key_ok k0 /\ k0 <> k'.
Proof. intros Hk Hne. exists k. split; [by left|done]. Qed.

(** Operations of the writers do not touch a record of another kind. *)
Ltac other_ops :=
  repeat (apply Forall_cons; split); try apply Forall_nil; try done;
  match goal with
  | |- exists _, op_key _ (Put (headerKey ?n ?h) _) /\ _ => apply (other_put (KHeader n h))
  | |- exists _, op_key _ (Put (headerHashKey ?n) _) /\ _ => apply (other_put (KCanonical n))
  | |- exists _, op_key _ (Put (headerNumberKey ?h) _) /\ _ => apply (other_put (KHeaderNumber h))
  | |- exists _, op_key _ (Put (blockBodyKey ?n ?h) _) /\ _ => apply (other_put (KBody n h))
  | |- exists _, op_key _ (Put headHeaderKey _) /\ _ => apply (other_put (KNamed NHeadHeader))
  | |- exists _, op_key _ (Delete (headerKey ?n ?h)) /\ _ => apply (other_del (KHeader n h))
  | |- exists _, op_key _ (Delete (headerHashKey ?n)) /\ _ => apply (other_del (KCanonical n))
  | |- exists _, op_key _ (Delete (headerNumberKey ?h)) /\ _ => apply (other_del (KHeaderNumber h))
  | |- exists _, op_key _ (Delete (blockBodyKey ?n ?h)) /\ _ => apply (other_del (KBody n h))
  end; try done; try congruence.

Lemma BytesToHash_to_bytes h : is_hash h -> BytesToHash (hash_to_bytes h) = h.
Proof.
  intros Hh. unfold BytesToHash, hash_to_bytes. rewrite length_be_bytes, drop_0. by apply be_int_be_bytes.
Qed.

Lemma hash_to_bytes_nonempty h : hash_to_bytes h <> [].
Proof. intros E. apply (f_equal List.length) in E. unfold hash_to_bytes in E. by rewrite length_be_bytes in E. Qed.

(** Reading a hash that was stored as 32 bytes. *)
Lemma stored_hash h : is_hash h -> match hash_to_bytes h with [] => 0 | data => BytesToHash data end = h.
Proof.
  intros Hh. pose proof (BytesToHash_to_bytes h Hh). pose proof (hash_to_bytes_nonempty h).
  by destruct (hash_to_bytes h).
Qed.

Lemma stored_number n : is_u64 n ->
  List.length (encodeBlockNumber n) = 8%nat /\ be_int (encodeBlockNumber n) = n.
Proof. intros Hn. split; [apply length_be_bytes|]. by apply be_int_be_bytes. Qed.

Lemma canonical_write db h n k :
  is_hash h -> is_u64 n -> is_u64 k ->
  ReadCanonicalHash (db_write db (WriteCanonicalHash h n)) k = if decide (k = n) then h else ReadCanonicalHash db k.
Proof.
  intros Hh Hn Hk. unfold ReadCanonicalHash, Get.
  change (headerHashKey k) with (key_bytes (KCanonical k)).
  change (db_write db (WriteCanonicalHash h n)) with (db_apply db (Put (key_bytes (KCanonical n)) (hash_to_bytes h))).
  rewrite lookup_put by done. destruct (decide (k = n)) as [->|Hne].
  - rewrite decide_True by done. by apply stored_hash.
  - by rewrite decide_False by congruence.
Qed.

Lemma canonical_delete db n k :
  is_u64 n -> is_u64 k ->
  ReadCanonicalHash (db_write db (DeleteCanonicalHash n)) k = if decide (k = n) then 0 else ReadCanonicalHash db k.
Proof.
  intros Hn Hk. unfold ReadCanonicalHash, Get.
  change (headerHashKey k) with (key_bytes (KCanonical k)).
  change (db_write db (DeleteCanonicalHash n)) with (db_apply db (Delete (key_bytes (KCanonical n)))).
  rewrite lookup_del by done. destruct (decide (k = n)) as [->|Hne].
  - by rewrite decide_True by done.
  - by rewrite decide_False by congruence.
Qed.

Section Reading.
Context {codec : DbCodec} {laws : DbLaws}.

Lemma header_hash_ok h : is_hash (Header_Hash h).
Proof. pose proof (hash_range h). unfold is_hash. lia. Qed.

Lemma ReadHeader_write db hdr h n :
  header_encodable hdr -> is_hash h -> is_u64 n ->
  ReadHeader (db_write db (WriteHeader hdr)) h n
    = if decide (h = Header_Hash hdr /\ n = Number hdr) then Some hdr else ReadHeader db h n.
Proof.
  intros Henc Hh Hn. pose proof (header_hash_ok hdr) as Hhh. destruct (Henc) as [Hnum _].
  unfold ReadHeader, ReadHeaderRLP, Get, WriteHeader. rewrite big_uint64_small by done.
  change (headerKey n h) with (key_bytes (KHeader n h)).
  change (db_write db _) with (db_apply (db_apply db (Put (key_bytes (KHeaderNumber (Header_Hash hdr))) (encodeBlockNumber (Number hdr))))
    (Put (key_bytes (KHeader (Number hdr) (Header_Hash hdr))) (rlp_header hdr))).
  rewrite !lookup_put by done. destruct (decide (h = Header_Hash hdr /\ n = Number hdr)) as [[-> ->]|Hne].
  - rewrite decide_True by done. simpl. pose proof (header_nonempty hdr). rewrite <- (header_roundtrip hdr Henc).
    by destruct (rlp_header hdr).
  - rewrite decide_False by naive_solver. by rewrite decide_False by done.
Qed.

Lemma ReadHeaderNumber_write db hdr h :
  is_u64 (Number hdr) -> is_hash h ->
  ReadHeaderNumber (db_write db (WriteHeader hdr)) h
    = if decide (h = Header_Hash hdr) then Some (Number hdr) else ReadHeaderNumber db h.
Proof.
  intros Hnum Hh. pose proof (header_hash_ok hdr) as Hhh.
  unfold ReadHeaderNumber, read_number, Get, WriteHeader. rewrite big_uint64_small by done.
  change (headerNumberKey h) with (key_bytes (KHeaderNumber h)).
  change (db_write db _) with (db_apply (db_apply db (Put (key_bytes (KHeaderNumber (Header_Hash hdr))) (encodeBlockNumber (Number hdr))))
    (Put (key_bytes (KHeader (Number hdr) (Header_Hash hdr))) (rlp_header hdr))).
  rewrite !lookup_put by done. rewrite decide_False by done. destruct (decide (h = Header_Hash hdr)) as [->|Hne].
  - rewrite decide_True by done. cbn -[be_int encodeBlockNumber bool_decide]. destruct (stored_number _ Hnum) as [El ->].
    by rewrite bool_decide_true.
  - by rewrite decide_False by congruence.
Qed.

Lemma canonical_others db ops k :
  is_u64 k -> Forall (fun op => exists k', op_key k' op /\ key_ok k' /\ k' <> KCanonical k) ops ->
  ReadCanonicalHash (db_write db ops) k = ReadCanonicalHash db k.
Proof.
  intros Hk H. unfold ReadCanonicalHash, Get. change (headerHashKey k) with (key_bytes (KCanonical k)).
  by rewrite lookup_others.
Qed.

Lemma header_others db ops h n :
  is_u64 n -> is_hash h -> Forall (fun op => exists k', op_key k' op /\ key_ok k' /\ k' <> KHeader n h) ops ->
  ReadHeader (db_write db ops) h n = ReadHeader db h n.
Proof.
  intros Hn Hh H. unfold ReadHeader, ReadHeaderRLP, Get. change (headerKey n h) with (key_bytes (KHeader n h)).
  by rewrite lookup_others.
Qed.

Lemma number_others db ops h :
  is_hash h -> Forall (fun op => exists k', op_key k' op /\ key_ok k' /\ k' <> KHeaderNumber h) ops ->
  ReadHeaderNumber (db_write db ops) h = ReadHeaderNumber db h.
Proof.
  intros Hh H. unfold ReadHeaderNumber, read_number, Get. change (headerNumberKey h) with (key_bytes (KHeaderNumber h)).
  by rewrite lookup_others.
Qed.

Lemma body_others db ops h n :
  is_u64 n -> is_hash h -> Forall (fun op => exists k', op_key k' op /\ key_ok k' /\ k' <> KBody n h) ops ->
  ReadBody (db_write db ops) h n = ReadBody db h n.
Proof.
  intros Hn Hh H. unfold ReadBody, ReadBodyRLP, Get. change (blockBodyKey n h) with (key_bytes (KBody n h)).
  by rewrite lookup_others.
Qed.

Lemma ReadBody_write db h n body :
  is_u64 n -> is_hash h -> Forall tx_encodable body ->
  exists body', ReadBody (db_write db (WriteBody h n body)) h n = Some body' /\ tx_content <$> body' = tx_content <$> body.
Proof.
  intros Hn Hh Henc. unfold ReadBody, ReadBodyRLP, Get. change (blockBodyKey n h) with (key_bytes (KBody n h)).
  change (db_write db _) with (db_apply db (Put (key_bytes (KBody n h)) (rlp_body body))).
  rewrite lookup_put, decide_True by done. simpl. pose proof (body_nonempty body).
  pose proof (body_roundtrip body Henc). by destruct (rlp_body body).
Qed.

(** ** Transactions by hash *)

Lemma lookup_tx_entries v (hashes : list Z) : forall (db : DB) h,
  Forall is_hash hashes -> h ∈ hashes ->
  db_write db (mjoin ((fun x => writeTxLookupEntry x v) <$> hashes)) !! key_bytes (KTxLookup h) = Some v.
Proof.
  induction hashes as [|x hashes IH]; intros db h Hall Hin; [by apply not_elem_of_nil in Hin|].
  apply Forall_cons in Hall as [Hx Hall]. cbn [fmap list_fmap mjoin list_join writeTxLookupEntry app].
  change (txLookupKey x) with (key_bytes (KTxLookup x)).
  change (db_write db (?op :: ?ops)) with (db_write (db_apply db op) ops).
  destruct (decide (h ∈ hashes)) as [H'|H']; [by apply IH|].
  apply elem_of_cons in Hin as [->|Hin]; [|done]. rewrite lookup_others; [|done|].
  - by rewrite lookup_put, decide_True.
  - clear IH. induction hashes as [|y hashes IH]; [constructor|]. apply Forall_cons in Hall as [Hy Hall].
    apply not_elem_of_cons in H' as [Hne H']. constructor; [|by apply IH].
    exists (KTxLookup y). split; [right; by exists v|]. split; [done|congruence].
Qed.

(** The transaction encoding skips the cached hash. *)
Context `{!TxCrypto} (rlp_skips_hash : forall d, rlp_encode_tx (set_dataHash d None) = rlp_encode_tx d).

Lemma tx_hash_content tx tx' : tx_content tx = tx_content tx' -> tx_hash tx = tx_hash tx'.
Proof.
  intros E. unfold tx_hash. rewrite <- (rlp_skips_hash (Transaction.data tx)), <- (rlp_skips_hash (Transaction.data tx')).
  unfold tx_content in E. by rewrite E.
Qed.

Lemma tx_hashes_content (body body' : Body) :
  tx_content <$> body' = tx_content <$> body -> tx_hash <$> body' = tx_hash <$> body.
Proof.
  revert body'. induction body as [|tx body IH]; intros [|tx' body'] E; try discriminate E; [done|].
  rewrite !fmap_cons in E. apply (inj2 cons) in E as [E1 E2]. rewrite !fmap_cons, (IH body' E2). by rewrite (tx_hash_content tx' tx E1).
Qed.

Lemma find_transaction_spec body : forall i k tx,
  body !! i = Some tx -> NoDup (tx_hash <$> body) ->
  find_transaction body (tx_hash tx) k = Some (tx, k + Z.of_nat i).
Proof.
  induction body as [|y body IH]; intros [|i] k tx Hl Hnd; try discriminate Hl; cbn [find_transaction].
  - injection Hl as ->. rewrite Z.eqb_refl. by rewrite Z.add_0_r.
  - cbn in Hl. apply NoDup_cons in Hnd as [Hy Hnd]. destruct (Z.eqb_spec (tx_hash y) (tx_hash tx)) as [E|_].
    + destruct Hy. rewrite E. apply list_elem_of_fmap. exists tx. split; [done|by eapply list_elem_of_lookup_2].
    + rewrite (IH i (k + 1) tx Hl Hnd). do 2 f_equal. lia.
Qed.

(** Writing a block, its index entries and making it canonical. *)
Definition store_block (header : Header) (body : Body) : list db_op :=
  (WriteBlock header body ++ WriteCanonicalHash (Header_Hash header) (big_uint64 (Number header)))
    ++ WriteTxLookupEntriesByBlock header body.

Lemma tx_entries_keys header (body : Body) P :
  Forall is_hash (tx_hash <$> body) -> (forall h, P <> KTxLookup h) ->
  Forall (fun op => exists k', op_key k' op /\ key_ok k' /\ k' <> P) (WriteTxLookupEntriesByBlock header body).
Proof.
  intros Hall HP. unfold WriteTxLookupEntriesByBlock. induction body as [|tx body IH]; [constructor|].
  apply Forall_cons in Hall as [Hx Hall]. constructor; [|by apply IH].
  exists (KTxLookup (tx_hash tx)). split; [right; by eexists|]. split; [done|]. intros E. by eapply HP.
Qed.

Lemma store_block_body db header body :
  is_u64 (Number header) -> Forall tx_encodable body -> Forall is_hash (tx_hash <$> body) ->
  exists body', ReadBody (db_write db (store_block header body)) (Header_Hash header) (Number header) = Some body' /\
    tx_content <$> body' = tx_content <$> body.
Proof.
  intros Hn Henc Hall. pose proof (header_hash_ok header) as Hh.
  unfold store_block, WriteBlock, WriteHeader. rewrite big_uint64_small by done.
  rewrite db_write_app, body_others by (try done; by apply tx_entries_keys).
  rewrite !db_write_app, !body_others by (try done; unfold WriteCanonicalHash, WriteHeaderNumber; other_ops).
  by apply ReadBody_write.
Qed.

Lemma store_block_canonical db header body :
  is_u64 (Number header) -> Forall is_hash (tx_hash <$> body) ->
  ReadCanonicalHash (db_write db (store_block header body)) (Number header) = Header_Hash header.
Proof.
  intros Hn Hall. pose proof (header_hash_ok header) as Hh.
  unfold store_block. rewrite db_write_app, canonical_others by (try done; by apply tx_entries_keys).
  by rewrite db_write_app, big_uint64_small, canonical_write, decide_True.
Qed.

Lemma tx_entry_lookup db header (body : Body) i tx :
  Forall is_hash (tx_hash <$> body) -> body !! i = Some tx ->
  db_write db (WriteTxLookupEntriesByBlock header body) !! key_bytes (KTxLookup (tx_hash tx)) = Some (int_bytes (Number header)).
Proof.
  intros Hall Hi.
  assert (Htx : tx_hash tx ∈ tx_hash <$> body)
    by (apply list_elem_of_fmap; exists tx; split; [done|by eapply list_elem_of_lookup_2]).
  unfold WriteTxLookupEntriesByBlock. set (write := fun x => writeTxLookupEntry x (int_bytes (Number header))).
  change ((fun tx0 => _) <$> body) with ((write ∘ tx_hash) <$> body). rewrite list_fmap_compose.
  by rewrite (lookup_tx_entries (int_bytes (Number header)) (tx_hash <$> body)).
Qed.

Lemma store_block_entry db header body i tx :
  Forall is_hash (tx_hash <$> body) -> body !! i = Some tx ->
  Get (db_write db (store_block header body)) (txLookupKey (tx_hash tx)) = int_bytes (Number header).
Proof.
  intros Hall Hi. unfold Get, store_block. rewrite db_write_app.
  change (txLookupKey (tx_hash tx)) with (key_bytes (KTxLookup (tx_hash tx))). by rewrite (tx_entry_lookup _ header body i).
Qed.

(** A transaction is found once its entry, the canonical hash and the body are. *)
Lemma found_by_hash db header body body' i tx :
  is_u64 (Number header) -> NoDup (tx_hash <$> body) -> body !! i = Some tx ->
  Get db (txLookupKey (tx_hash tx)) = int_bytes (Number header) ->
  ReadCanonicalHash db (Number header) = Header_Hash header ->
  ReadBody db (Header_Hash header) (Number header) = Some body' -> tx_content <$> body' = tx_content <$> body ->
  if Number header =? 0 then ReadTransaction db (tx_hash tx) = None
  else exists tx', ReadTransaction db (tx_hash tx) = Some (tx', Header_Hash header, Number header, Z.of_nat i) /\
         tx_content tx' = tx_content tx.
Proof.
  intros Hn Hnd Hi Hentry Hcanon Hbody Econtent. pose proof (hash_range header) as Hr.
  unfold ReadTransaction, ReadTxLookupEntry. rewrite Hentry.
  destruct (Z.eqb_spec (Number header) 0) as [->|Hn0]; [done|].
  assert (H8 : 0 <= Number header < 256 ^ Z.of_nat 8) by exact Hn.
  destruct (int_bytes_pad 8 _ H8) as [Hlen _]. pose proof (be_int_int_bytes 8 _ H8) as Hint.
  destruct (int_bytes (Number header)) as [|b bs] eqn:Eb; [by rewrite <- Hint in Hn0|].
  rewrite (proj2 (Nat.ltb_lt _ 32)) by lia. rewrite Hint, big_uint64_small by done.
  rewrite Hcanon, (proj2 (Z.eqb_neq _ 0)), Hbody by (done || lia).
  pose proof (f_equal (fun l => l !! i) Econtent) as Hlook. cbn beta in Hlook.
  rewrite !list_lookup_fmap, Hi in Hlook. apply fmap_Some in Hlook as (tx' & Hi' & Etx). exists tx'. split; [|done].
  rewrite (tx_hash_content tx tx' Etx), (find_transaction_spec body' i 0 tx' Hi'); [done|].
  by rewrite (tx_hashes_content body body' Econtent).
Qed.

(** After a block is stored, made canonical and indexed, a lookup of any of
    its transactions by hash returns a transaction with the same content, the
    hash and the number of the block and the transaction's position.  The one
    exception is block zero: its entries are the empty byte string, which reads
    as a missing entry. *)
Theorem transaction_found_by_hash db header body i tx :
  is_u64 (Number header) -> Forall tx_encodable body ->
  Forall is_hash (tx_hash <$> body) -> NoDup (tx_hash <$> body) -> body !! i = Some tx ->
  let result := ReadTransaction (db_write db (store_block header body)) (tx_hash tx) in
  if Number header =? 0 then result = None
  else exists tx', result = Some (tx', Header_Hash header, Number header, Z.of_nat i) /\ tx_content tx' = tx_content tx.
Proof.
  intros Hn Henc Hall Hnd Hi result. destruct (store_block_body db header body) as (body' & Hb & Econtent); [done..|].
  by apply (found_by_hash _ header body body'); [..|apply (store_block_entry db header body i tx)|apply store_block_canonical| |].
Qed.

End Reading.

(** ** Concrete codec *)

Module DbToy.

Definition toy_rlp_header (h : Header) : list Z :=
  [ParentHash h; Root h; TxHash h; Number h; GasLimit h; GasUsed h; hdr_Time h; hdr_ShardID h;
   Z.of_nat (List.length (LastCommitSignature h))] ++ LastCommitSignature h ++ LastCommitBitmap h.

Definition toy_unrlp_header (l : list Z) : option Header :=
  match l with
  | p :: r :: t :: n :: gl :: gu :: ti :: sh :: len :: rest =>
      Some (mk_header p r t n gl gu ti sh (take (Z.to_nat len) rest) (drop (Z.to_nat len) rest))
  | _ => None
  end.

Definition toy_opt (o : option Z) : list Z := match o with Some a => [1; a] | None => [0; 0] end.

(** A transaction as its length and its fields. *)
Definition toy_rlp_tx (tx : Transaction) : list Z :=
  let d := Transaction.data tx in
  [AccountNonce d; Price d; Transaction.GasLimit d; ShardID d; ToShardID d; Amount d; sigV d; sigR d; sigS d;
   Z.of_nat (List.length (Payload d))] ++ toy_opt (Recipient d) ++ Payload d.

Fixpoint toy_unrlp_txs (fuel : nat) (l : list Z) : list Transaction :=
  match fuel, l with
  | S fuel', n :: p :: g :: s :: ts :: am :: v :: r :: ss :: len :: some :: a :: rest =>
      mk_Transaction (mk_txdata n p g s ts (if some =? 1 then Some a else None) am (take (Z.to_nat len) rest) v r ss None) 0
        :: toy_unrlp_txs fuel' (drop (Z.to_nat len) rest)
  | _, _ => []
  end.

Definition toy_codec : DbCodec := {|
  rlp_header := toy_rlp_header;
  unrlp_header := toy_unrlp_header;
  rlp_body := fun b => Z.of_nat (List.length b) :: mjoin (toy_rlp_tx <$> b);
  unrlp_body := fun l => match l with [] => None | n :: rest => Some (toy_unrlp_txs (Z.to_nat n) rest) end;
  unrlp_legacy_entry := fun _ => None;
  rlp_uint64 := fun n => [n];
  unrlp_uint64 := fun l => head l;
  Header_Hash := fun h => 1 + (Number h * 1000 + Root h) mod 2 ^ 200
|}.

Lemma toy_txs_roundtrip (b : Body) :
  tx_content <$> toy_unrlp_txs (List.length b) (mjoin (toy_rlp_tx <$> b)) = tx_content <$> b.
Proof.
  induction b as [|[[n p g s ts rc am pl v r ss h] ti] b IH]; [done|].
  cbn [fmap list_fmap mjoin list_join]. unfold toy_rlp_tx at 1.
  cbn [Transaction.data AccountNonce Price Transaction.GasLimit ShardID ToShardID Amount sigV sigR sigS Payload Recipient].
  destruct rc as [a|]; cbn [toy_opt app List.length toy_unrlp_txs];
    rewrite Nat2Z.id, take_app_length, drop_app_length; rewrite !fmap_cons; f_equal; exact IH.
Qed.

Lemma toy_laws : @DbLaws toy_codec.
Proof.
  split; cbn.
  - intros [] _. unfold toy_rlp_header. cbn. by rewrite Nat2Z.id, take_app_length, drop_app_length.
  - done.
  - intros b _. rewrite Nat2Z.id. eexists. split; [done|]. apply toy_txs_roundtrip.
  - done.
  - intros h. pose proof (Z.mod_pos_bound (Number h * 1000 + Root h) (2 ^ 200) ltac:(done)).
    assert (2 ^ 200 + 1 < 2 ^ 256) by done. lia.
Qed.

Definition toy_header (number parent root : Z) : Header := mk_header parent root 0 number 8000000 0 100 0 [] [].

Definition toy_tx1 : Transaction := NewTransaction 0 0 7 0 0 (Some 10) 21000 (Some 5) [1; 2].
Definition toy_tx2 : Transaction := NewTransaction 0 1 7 0 0 (Some 3) 21000 (Some 9) [].

Lemma schema_keys_never_collide_witness :
  key_ok (KHeader 104 5) /\ key_ok (KCanonical 104) /\ ~ key_bytes (KHeader 104 5) = key_bytes (KCanonical 104).
Proof.
  assert (H1 : key_ok (KHeader 104 5)) by done. assert (H2 : key_ok (KCanonical 104)) by done.
  split; [done|]. split; [done|]. intros E.
  apply (schema_keys_never_collide _ _ H1 H2) in E. discriminate E.
Defined.

Lemma transaction_found_by_hash_witness :
  exists tx', @ReadTransaction toy_codec toy_crypto (db_write ∅ (@store_block toy_codec toy_crypto (toy_header 7 3 1) [toy_tx1; toy_tx2]))
      (@tx_hash toy_crypto toy_tx2)
    = Some (tx', 1 + 7001, 7, 1) /\ tx_content tx' = tx_content toy_tx2.
Proof.
  assert (Henc : Forall tx_encodable [toy_tx1; toy_tx2]) by (repeat constructor; cbn; lia).
  assert (Hhash : Forall is_hash (@tx_hash toy_crypto <$> [toy_tx1; toy_tx2])).
  { apply (bool_decide_unpack _). vm_compute. exact I. }
  assert (Hnd : NoDup (@tx_hash toy_crypto <$> [toy_tx1; toy_tx2])).
  { apply (bool_decide_unpack _). vm_compute. exact I. }
  exact (@transaction_found_by_hash toy_codec toy_laws toy_crypto (fun _ => eq_refl) ∅ (toy_header 7 3 1)
    [toy_tx1; toy_tx2] 1%nat toy_tx2 ltac:(done) Henc Hhash Hnd eq_refl).
Defined.

End DbToy.
