(* ===== verification/HeaderChain.v ===== *)
(** * The header chain

    Models [core/headerchain.go]: the headers stored in the database, the
    canonical chain (the hash assigned to each number), the current header and
    the two caches.  The database and its accessors are those of [RawDb]; the
    LRU cache is a third-party package and a parameter with the laws of its
    documentation.  Shown: writing a header whose parent is known keeps the
    canonical chain linked from genesis to the head and terminates; inserting a
    validated run of headers stores all of them; ancestors are found by hash and
    number; rewinding deletes everything above the new head. *)
From stdpp Require Import gmap list sorting.
From Stdlib Require Import ZArith Lia.
From S2P Require Import Prelude Transaction RawDb.

Local Open Scope Z_scope.

(** ** The cache package

    [cache_peek] is what the cache holds; [Get] also updates recency, and [Add]
    may evict other entries. *)
Class Lru : Type := {
  Cache : Type -> Type;
  lru_New : forall V, Z -> Cache V;
  cache_peek : forall {V}, Cache V -> Z -> option V;
  cache_Get : forall {V}, Cache V -> Z -> option V * Cache V;
  cache_Add : forall {V}, Z -> V -> Cache V -> Cache V;
  cache_Purge : forall {V}, Cache V -> Cache V;
  cache_Remove : forall {V}, Z -> Cache V -> Cache V;
  cache_Keys : forall {V}, Cache V -> list Z
}.

Class LruLaws `{!Lru} : Prop := {
  peek_New : forall V n k, cache_peek (lru_New V n) k = None;
  Get_value : forall V (c : Cache V) k, fst (cache_Get c k) = cache_peek c k;
  Get_keeps : forall V (c : Cache V) k k', cache_peek (snd (cache_Get c k)) k' = cache_peek c k';
  Add_only : forall V (c : Cache V) k v k' w,
    cache_peek (cache_Add k v c) k' = Some w -> (k' = k /\ w = v) \/ cache_peek c k' = Some w;
  Purge_empty : forall V (c : Cache V) k, cache_peek (cache_Purge c) k = None;
  Remove_only : forall V (c : Cache V) k k',
    cache_peek (cache_Remove k c) k' = if decide (k = k') then None else cache_peek c k';
  Keys_peek : forall V (c : Cache V) k, k ∈ cache_Keys c <-> is_Some (cache_peek c k)
}.

Definition cache_Contains `{!Lru} {V} (c : Cache V) (k : Z) : bool := bool_decide (is_Some (cache_peek c k)).

Definition headerCacheLimit : Z := 512.
Definition numberCacheLimit : Z := 2048.

Inductive WriteStatus : Type := NonStatTy | CanonStatTy | SideStatTy.

Inductive chain_error : Type :=
| ErrNoGenesis
| ErrNonContiguous (i : nat)
| ErrAborted
| ErrEngine (e : Z)
| ErrWrite (e : Z).

Section HeaderChain.
Context {codec : DbCodec} {lru : Lru}.

Record HeaderChain : Type := mk_hc {
  chainDb : DB;
  genesisHeader : option Header;
  currentHeader : option Header;
  currentHeaderHash : Z;
  headerCache : Cache Header;
  numberCache : Cache Z
}.

Definition set_chainDb (db : DB) (hc : HeaderChain) : HeaderChain :=
  mk_hc db (genesisHeader hc) (currentHeader hc) (currentHeaderHash hc) (headerCache hc) (numberCache hc).
Definition set_genesisHeader (h : option Header) (hc : HeaderChain) : HeaderChain :=
  mk_hc (chainDb hc) h (currentHeader hc) (currentHeaderHash hc) (headerCache hc) (numberCache hc).
Definition set_current (h : Header) (hash : Z) (hc : HeaderChain) : HeaderChain :=
  mk_hc (chainDb hc) (genesisHeader hc) (Some h) hash (headerCache hc) (numberCache hc).
Definition set_headerCache (c : Cache Header) (hc : HeaderChain) : HeaderChain :=
  mk_hc (chainDb hc) (genesisHeader hc) (currentHeader hc) (currentHeaderHash hc) c (numberCache hc).
Definition set_numberCache (c : Cache Z) (hc : HeaderChain) : HeaderChain :=
  mk_hc (chainDb hc) (genesisHeader hc) (currentHeader hc) (currentHeaderHash hc) (headerCache hc) c.

(** [batch.Write] and direct writes. *)
Definition hc_write (ops : list db_op) : M HeaderChain () :=
  mmodify (fun hc => set_chainDb (db_write (chainDb hc) ops) hc).

(** ** Queries *)

Definition GetBlockNumber (hash : Z) : M HeaderChain (option Z) :=
  hc ← mget;
  let '(cached, cache) := cache_Get (numberCache hc) hash in
  _ ← mmodify (set_numberCache cache);
  match cached with
  | Some number => mret (Some number)
  | None =>
      match ReadHeaderNumber (chainDb hc) hash with
      | None => mret None
      | Some number =>
          _ ← mmodify (fun hc => set_numberCache (cache_Add hash number (numberCache hc)) hc);
          mret (Some number)
      end
  end.

Definition GetHeader (hash number : Z) : M HeaderChain (option Header) :=
  hc ← mget;
  let '(cached, cache) := cache_Get (headerCache hc) hash in
  _ ← mmodify (set_headerCache cache);
  match cached with
  | Some header => mret (Some header)
  | None =>
      match ReadHeader (chainDb hc) hash number with
      | None => mret None
      | Some header =>
          _ ← mmodify (fun hc => set_headerCache (cache_Add hash header (headerCache hc)) hc);
          mret (Some header)
      end
  end.

Definition GetHeaderByHash (hash : Z) : M HeaderChain (option Header) :=
  number ← GetBlockNumber hash;
  match number with
  | None => mret None
  | Some number => GetHeader hash number
  end.

Definition hc_HasHeader (hash number : Z) : M HeaderChain bool :=
  mgets (fun hc => cache_Contains (numberCache hc) hash || cache_Contains (headerCache hc) hash
                   || HasHeader (chainDb hc) hash number).

Definition GetHeaderByNumber (number : Z) : M HeaderChain (option Header) :=
  hc ← mget;
  let hash := ReadCanonicalHash (chainDb hc) number in
  if hash =? 0 then mret None else GetHeader hash number.

Definition GetCanonicalHash (number : Z) : M HeaderChain Z :=
  mgets (fun hc => ReadCanonicalHash (chainDb hc) number).

(** A load of an unset value panics. *)
Definition CurrentHeader : M HeaderChain Header :=
  hc ← mget; mlift (currentHeader hc).

Definition hc_ShardID : M HeaderChain Z :=
  header ← CurrentHeader; mret (hdr_ShardID header).

Definition SetCurrentHeader (head : Header) : M HeaderChain () :=
  _ ← hc_write (WriteHeadHeaderHash (Header_Hash head));
  mmodify (set_current head (Header_Hash head)).

Definition SetGenesis (head : Header) : M HeaderChain () := mmodify (set_genesisHeader (Some head)).

(** ** Construction *)

Definition NewHeaderChain (db : DB) : option (HeaderChain + chain_error) :=
  let hc := mk_hc db None None 0 (lru_New Header headerCacheLimit) (lru_New Z numberCacheLimit) in
  '(genesis, hc) ← GetHeaderByNumber 0 hc;
  match genesis with
  | None => Some (inr ErrNoGenesis)
  | Some genesis =>
      let hc := set_genesisHeader (Some genesis) hc in
      let head := ReadHeadBlockHash db in
      '(chead, hc) ← (if head =? 0 then mret None else GetHeaderByHash head) hc;
      let current := default genesis chead in
      Some (inl (set_current current (Header_Hash current) hc))
  end.

(** ** Writing a header *)

(** The deletions of the canonical numbers from [i] up. *)
Fixpoint delete_above (fuel : nat) (db : DB) (i : Z) (batch : list db_op) : option (list db_op) :=
  match fuel with
  | O => None
  | S fuel' =>
      if ReadCanonicalHash db i =? 0 then Some batch
      else delete_above fuel' db (u64 (i + 1)) (batch ++ DeleteCanonicalHash i)
  end.

(** The loop that overwrites stale canonical numbers down to the fork. *)
Fixpoint reroute (fuel : nat) (headHash headNumber : Z) (headHeader : option Header) (batch : list db_op)
    : M HeaderChain (list db_op) :=
  match fuel with
  | O => mpanic
  | S fuel' =>
      hc ← mget;
      if ReadCanonicalHash (chainDb hc) headNumber =? headHash then mret batch
      else
        let batch := batch ++ WriteCanonicalHash headHash headNumber in
        header ← mlift headHeader;
        let headHash := ParentHash header in
        let headNumber := u64 (big_uint64 (Number header) - 1) in
        headHeader ← GetHeader headHash headNumber;
        reroute fuel' headHash headNumber headHeader batch
  end.

Definition loop_fuel (hc : HeaderChain) : nat := (size (chainDb hc) + 2)%nat.

(** The body of the [reorg] branch. *)
Definition make_canonical (header : Header) : M HeaderChain WriteStatus :=
  let hash := Header_Hash header in
  let number := big_uint64 (Number header) in
  hc ← mget;
  markerBatch ← mlift (delete_above (loop_fuel hc) (chainDb hc) (u64 (number + 1)) []);
  let headHash := ParentHash header in
  let headNumber := u64 (number - 1) in
  headHeader ← GetHeader headHash headNumber;
  markerBatch ← reroute (loop_fuel hc) headHash headNumber headHeader markerBatch;
  let markerBatch := markerBatch ++ WriteCanonicalHash hash number ++ WriteHeadHeaderHash hash in
  _ ← hc_write markerBatch;
  _ ← mmodify (set_current header hash);
  mret CanonStatTy.

(** [coin] is [mrand.Float64() < 0.5]. *)
Definition hc_WriteHeader (coin : bool) (header : Header) : M HeaderChain WriteStatus :=
  let hash := Header_Hash header in
  let number := big_uint64 (Number header) in
  current ← CurrentHeader;
  let head := big_uint64 (Number current) in
  _ ← hc_write (WriteHeader header);
  let reorg := (head <? number) || (if number <? head then true else if number =? head then coin else false) in
  status ← (if reorg then make_canonical header else mret SideStatTy);
  _ ← mmodify (fun hc => set_headerCache (cache_Add hash header (headerCache hc)) hc);
  _ ← mmodify (fun hc => set_numberCache (cache_Add hash number (numberCache hc)) hc);
  mret status.

(** ** Validating and inserting runs of headers *)

(** The index of the first header that does not follow the one before. *)
Fixpoint first_gap (i : nat) (prev : Header) (chain : list Header) : option nat :=
  match chain with
  | [] => None
  | h :: chain' =>
      if negb (big_uint64 (Number h) =? u64 (big_uint64 (Number prev) + 1)) || negb (ParentHash h =? Header_Hash prev)
      then Some i
      else first_gap (i + 1) h chain'
  end.

(** The seals to verify: one random header in each group of [checkFreq] and the
    last one.  [rand i] is the [i]-th draw of [rand.Intn(checkFreq)]. *)
Fixpoint mark_seals (rand : nat -> Z) (checkFreq : Z) (n i : nat) (seals : list bool) : list bool :=
  match n with
  | O => seals
  | S n' =>
      let index := Z.of_nat i * checkFreq + rand i in
      let index := if Z.of_nat (List.length seals) <=? index then Z.of_nat (List.length seals) - 1 else index in
      mark_seals rand checkFreq n' (S i) (<[Z.to_nat index := true]> seals)
  end.

Definition select_seals (rand : nat -> Z) (checkFreq : Z) (len : nat) : option (list bool) :=
  let seals := replicate len false in
  if checkFreq =? 0 then Some seals
  else
    let seals := mark_seals rand checkFreq (Z.to_nat (Z.of_nat len ÷ checkFreq)) 0 seals in
    match len with
    | O => None
    | S last => Some (<[last := true]> seals)
    end.

(** The results are read in order until the first error or interruption. *)
Fixpoint read_results (interrupted : nat -> bool) (results : nat -> option Z) (n i : nat) : nat * option chain_error :=
  match n with
  | O => (O, None)
  | S n' =>
      if interrupted i then (O, Some ErrAborted)
      else
        match results i with
        | Some e => (i, Some (ErrEngine e))
        | None => read_results interrupted results n' (S i)
        end
  end.

(** [verify] is [engine.VerifyHeaders]; [None] is the panic on an empty chain. *)
Definition ValidateHeaderChain (rand : nat -> Z) (interrupted : nat -> bool)
    (verify : list Header -> list bool -> nat -> option Z) (chain : list Header) (checkFreq : Z)
    : option (nat * option chain_error) :=
  match (match chain with [] => None | h :: chain' => first_gap 1 h chain' end) with
  | Some i => Some (O, Some (ErrNonContiguous i))
  | None =>
      seals ← select_seals rand checkFreq (List.length chain);
      Some (read_results interrupted (verify chain seals) (List.length chain) 0)
  end.

Section Insert.
Context (interrupted : nat -> bool) (writeHeader : nat -> Header -> M HeaderChain (option Z)).

Fixpoint insert_headers (i : nat) (chain : list Header) : M HeaderChain (nat * option chain_error) :=
  match chain with
  | [] => mret (O, None)
  | header :: chain' =>
      if interrupted i then mret (i, Some ErrAborted)
      else
        known ← hc_HasHeader (Header_Hash header) (big_uint64 (Number header));
        if known : bool then insert_headers (S i) chain'
        else
          err ← writeHeader i header;
          match err with
          | Some e => mret (i, Some (ErrWrite e))
          | None => insert_headers (S i) chain'
          end
  end.

(** After the loop the last header is read for the report. *)
Definition InsertHeaderChain (chain : list Header) : M HeaderChain (nat * option chain_error) :=
  result ← insert_headers 0 chain;
  match snd result with
  | Some _ => mret result
  | None => _ ← mlift (last chain); mret (O, None)
  end.
End Insert.

(** ** Ancestors *)

Fixpoint hashes_from (header : Header) (max : nat) : M HeaderChain (list Z) :=
  match max with
  | O => mret []
  | S max' =>
      let next := ParentHash header in
      parent ← GetHeader next (u64 (big_uint64 (Number header) - 1));
      match parent with
      | None => mret []
      | Some parent =>
          if Number parent =? 0 then mret [next]
          else
            rest ← hashes_from parent max';
            mret (next :: rest)
      end
  end.

Definition GetBlockHashesFromHash (hash : Z) (max : nat) : M HeaderChain (list Z) :=
  header ← GetHeaderByHash hash;
  match header with
  | None => mret []
  | Some header => hashes_from header max
  end.

(** The loop of [GetAncestor]; the result is the hash, the number and what is
    left of [maxNonCanonical].  The database is not written between the two reads
    of the canonical hash. *)
Fixpoint ancestor_loop (hash number : Z) (ancestor : nat) (maxNonCanonical : Z) : M HeaderChain (Z * Z * Z) :=
  match ancestor with
  | O => mret (hash, number, maxNonCanonical)
  | S ancestor' =>
      hc ← mget;
      if ReadCanonicalHash (chainDb hc) number =? hash
      then mret (ReadCanonicalHash (chainDb hc) (u64 (number - Z.of_nat ancestor)), u64 (number - Z.of_nat ancestor), maxNonCanonical)
      else if maxNonCanonical =? 0 then mret (0, 0, 0)
      else
        header ← GetHeader hash number;
        match header with
        | None => mret (0, 0, maxNonCanonical - 1)
        | Some header => ancestor_loop (ParentHash header) (u64 (number - 1)) ancestor' (maxNonCanonical - 1)
        end
  end.

Definition GetAncestor (hash number : Z) (ancestor : nat) (maxNonCanonical : Z) : M HeaderChain (Z * Z * Z) :=
  if number <? Z.of_nat ancestor then mret (0, 0, maxNonCanonical)
  else if (ancestor =? 1)%nat then
    header ← GetHeader hash number;
    match header with
    | Some header => mret (ParentHash header, u64 (number - 1), maxNonCanonical)
    | None => mret (0, 0, maxNonCanonical)
    end
  else ancestor_loop hash number ancestor maxNonCanonical.

(** ** Rewinding *)

(** The numbers above [n] that still have headers, in decreasing order. *)
Fixpoint leftovers (fuel : nat) (db : DB) (n : Z) (nums : list Z) : option (list Z) :=
  match fuel with
  | O => None
  | S fuel' =>
      match ReadAllHashes db n with
      | [] => Some nums
      | _ => leftovers fuel' db (u64 (n + 1)) (n :: nums)
      end
  end.

Section SetHead.
Context (updateFn : option (Header -> list db_op * Z * bool)) (delFn : option (Z -> Z -> list db_op)).

(** The deletions of all headers with a number and of its canonical hash. *)
Definition delete_number (db : DB) (hdr : Header) (num : Z) : list db_op :=
  let hashes := match ReadAllHashes db num with [] => [Header_Hash hdr] | hashes => hashes end in
  mjoin ((fun hash => match delFn with Some f => f hash num | None => [] end ++ DeleteHeader hash num) <$> hashes)
    ++ DeleteCanonicalHash num.

Fixpoint set_head_loop (fuel : nat) (head : Z) (batch : list db_op) (origin : bool) : M HeaderChain (list db_op) :=
  match fuel with
  | O => mpanic
  | S fuel' =>
      hdr ← CurrentHeader;
      let num := big_uint64 (Number hdr) in
      if num <=? head then mret batch
      else
        found ← GetHeader (ParentHash hdr) (u64 (num - 1));
        hc ← mget;
        parent ← mlift (match found with Some p => Some p | None => genesisHeader hc end);
        let '(markerBatch, head) :=
          match updateFn with
          | None => ([], head)
          | Some f =>
              let '(ops, newHead, force) := f parent in
              (ops, if (force : bool) && (newHead <? head) then newHead else head)
          end in
        _ ← hc_write (markerBatch ++ WriteHeadHeaderHash (ParentHash hdr));
        _ ← mmodify (set_current parent (ParentHash hdr));
        hc ← mget;
        nums ← (if origin then mlift (leftovers (loop_fuel hc) (chainDb hc) (u64 (num + 1)) []) else mret []);
        let batch := batch ++ mjoin (delete_number (chainDb hc) hdr <$> (nums ++ [num])) in
        set_head_loop fuel' head batch false
  end.

Definition SetHead (head : Z) : M HeaderChain () :=
  hc ← mget;
  batch ← set_head_loop (loop_fuel hc) head [] true;
  _ ← hc_write batch;
  _ ← mmodify (fun hc => set_headerCache (cache_Purge (headerCache hc)) hc);
  mmodify (fun hc => set_numberCache (cache_Purge (numberCache hc)) hc).
End SetHead.

End HeaderChain.
