(* ===== verification/HeaderChainSpec.v ===== *)
(** * Properties of the header chain

    The invariant of the header database and of the chain over it, what the
    operations of [HeaderChain] preserve, and the concrete chains of the
    witnesses. *)
From stdpp Require Import gmap list sorting.
From Stdlib Require Import ZArith Lia.
From S2P Require Import Prelude Transaction RawDb HeaderChain.

Local Open Scope Z_scope.

(** Side conditions on numbers and hashes. *)
Ltac side := first [done | apply header_hash_ok | unfold is_u64 in *; lia].

(** ** Operations that leave the headers alone *)

Definition is_chain_key (k : db_key) : Prop :=
  match k with
  | KHeader _ _ | KHeaderNumber _ | KCanonical _ => True
  | _ => False
  end.

Definition content_op (op : db_op) : Prop := exists k, op_key k op /\ key_ok k /\ ~ is_chain_key k.

(** Two databases with the same header records. *)
Definition chain_agree (db db' : DB) : Prop :=
  forall k, is_chain_key k -> key_ok k -> db' !! key_bytes k = db !! key_bytes k.

#[export] Instance chain_agree_po : PreOrder chain_agree.
Proof. split; [done|]. intros a b c H H' k Hk Hok. by rewrite H', H. Qed.

Lemma content_agree db ops : Forall content_op ops -> chain_agree db (db_write db ops).
Proof.
  intros H k Hk Hok. apply lookup_others; [done|]. eapply Forall_impl; [exact H|].
  intros op (k' & H1 & H2 & H3). exists k'. split; [done|]. split; [done|]. by intros ->.
Qed.

Section Spec.
Context {codec : DbCodec} {laws : DbLaws} {lru : Lru} {lru_laws : LruLaws}.
Implicit Types (db : DB) (hc : HeaderChain).

(** ** The invariant *)

(** A header is stored under a number and a hash. *)
Definition has db (n h : Z) : Prop := is_Some (db !! headerKey n h).

(** Every stored header is under its own number and hash, its parent is stored
    too, and the only header with number zero is genesis. *)
Definition stored_ok db (n h : Z) (hdr : Header) : Prop :=
  ReadHeader db h n = Some hdr /\ Header_Hash hdr = h /\ Number hdr = n /\ is_hash (ParentHash hdr) /\
  (0 < n -> has db (n - 1) (ParentHash hdr)) /\ (n = 0 -> ReadCanonicalHash db 0 = h) /\ n < 2 ^ 64 - 1.

Record store_ok db : Prop := {
  so_bytes : forall k, is_Some (db !! k) -> Forall is_byte k;
  so_stored : forall n h, is_u64 n -> is_hash h -> has db n h -> exists hdr, stored_ok db n h hdr;
  so_number : forall h n, is_hash h -> (ReadHeaderNumber db h = Some n <-> is_u64 n /\ has db n h)
}.

(** The canonical numbers are those up to the head; each names a stored header
    whose parent is the canonical one below. *)
Record canon_ok db (head : Header) : Prop := {
  ca_range : 0 <= Number head < 2 ^ 64 - 1;
  ca_head : ReadHeader db (Header_Hash head) (Number head) = Some head /\
            ReadCanonicalHash db (Number head) = Header_Hash head;
  ca_below : forall n, 0 <= n <= Number head -> exists hdr,
    ReadHeader db (ReadCanonicalHash db n) n = Some hdr /\ is_hash (ReadCanonicalHash db n) /\
    (0 < n -> ParentHash hdr = ReadCanonicalHash db (n - 1));
  ca_above : forall n, Number head < n < 2 ^ 64 -> ReadCanonicalHash db n = 0
}.

(** The caches hold what the database holds. *)
Record caches_ok hc : Prop := {
  cc_header : forall h x, cache_peek (headerCache hc) h = Some x ->
    is_hash h /\ is_u64 (Number x) /\ ReadHeader (chainDb hc) h (Number x) = Some x;
  cc_number : forall h n, cache_peek (numberCache hc) h = Some n ->
    is_hash h /\ ReadHeaderNumber (chainDb hc) h = Some n
}.

Record hc_ok hc (head : Header) : Prop := {
  ok_store : store_ok (chainDb hc);
  ok_canon : canon_ok (chainDb hc) head;
  ok_caches : caches_ok hc;
  ok_current : currentHeader hc = Some head /\ currentHeaderHash hc = Header_Hash head;
  ok_genesis : exists g, genesisHeader hc = Some g /\ ReadHeader (chainDb hc) (ReadCanonicalHash (chainDb hc) 0) 0 = Some g
}.

(** Two states that differ in their caches only. *)
Definition same_chain hc hc' : Prop :=
  chainDb hc' = chainDb hc /\ genesisHeader hc' = genesisHeader hc /\ currentHeader hc' = currentHeader hc /\
  currentHeaderHash hc' = currentHeaderHash hc.

#[export] Instance same_chain_po : PreOrder same_chain.
Proof. split; [done|]. unfold same_chain. intros a b c (?&?&?&?) (?&?&?&?). split_and!; congruence. Qed.

(** ** Lemmas: stored headers *)

Lemma ReadHeader_has db h n hdr : ReadHeader db h n = Some hdr -> has db n h.
Proof.
  unfold ReadHeader, ReadHeaderRLP, Get, has. destruct (db !! headerKey n h); [done|]. simpl. discriminate.
Qed.

Lemma stored_read db n h hdr :
  store_ok db -> is_u64 n -> is_hash h -> ReadHeader db h n = Some hdr -> stored_ok db n h hdr.
Proof.
  intros Hs Hn Hh Hr. destruct (so_stored db Hs n h Hn Hh (ReadHeader_has _ _ _ _ Hr)) as (hdr' & Ho).
  destruct (Ho) as [Hr' _]. by simplify_eq.
Qed.

Lemma has_number_unique db h n n' :
  store_ok db -> is_hash h -> is_u64 n -> is_u64 n' -> has db n h -> has db n' h -> n = n'.
Proof.
  intros Hs Hh Hn Hn' H H'. assert (E : ReadHeaderNumber db h = Some n) by (by apply (so_number db Hs)).
  assert (E' : ReadHeaderNumber db h = Some n') by (by apply (so_number db Hs)). congruence.
Qed.

Lemma caches_ok_same hc hc' :
  caches_ok hc -> chainDb hc' = chainDb hc ->
  (forall h x, cache_peek (headerCache hc') h = Some x ->
     cache_peek (headerCache hc) h = Some x \/
     is_hash h /\ is_u64 (Number x) /\ ReadHeader (chainDb hc) h (Number x) = Some x) ->
  (forall h n, cache_peek (numberCache hc') h = Some n ->
     cache_peek (numberCache hc) h = Some n \/ is_hash h /\ ReadHeaderNumber (chainDb hc) h = Some n) ->
  caches_ok hc'.
Proof.
  intros Hc E H1 H2. split; rewrite E.
  - intros h x Hx. destruct (H1 h x Hx) as [Hx'|Hx']; [by apply (cc_header hc Hc)|done].
  - intros h n Hx. destruct (H2 h n Hx) as [Hx'|Hx']; [by apply (cc_number hc Hc)|done].
Qed.

Lemma agree_has db db' n h : chain_agree db db' -> is_u64 n -> is_hash h -> has db' n h <-> has db n h.
Proof.
  intros H Hn Hh. unfold has. change (headerKey n h) with (key_bytes (KHeader n h)). by rewrite H.
Qed.

Lemma agree_header db db' n h : chain_agree db db' -> is_u64 n -> is_hash h -> ReadHeader db' h n = ReadHeader db h n.
Proof.
  intros H Hn Hh. unfold ReadHeader, ReadHeaderRLP, Get. change (headerKey n h) with (key_bytes (KHeader n h)). by rewrite H.
Qed.

Lemma agree_number db db' h : chain_agree db db' -> is_hash h -> ReadHeaderNumber db' h = ReadHeaderNumber db h.
Proof.
  intros H Hh. unfold ReadHeaderNumber, read_number, Get.
  change (headerNumberKey h) with (key_bytes (KHeaderNumber h)). by rewrite H.
Qed.

Lemma agree_canon db db' n : chain_agree db db' -> is_u64 n -> ReadCanonicalHash db' n = ReadCanonicalHash db n.
Proof.
  intros H Hn. unfold ReadCanonicalHash, Get. change (headerHashKey n) with (key_bytes (KCanonical n)). by rewrite H.
Qed.

Lemma store_ok_agree db db' :
  store_ok db -> chain_agree db db' -> (forall k, is_Some (db' !! k) -> Forall is_byte k) -> store_ok db'.
Proof.
  intros Hs Ha Hb. split; [done|..].
  - intros n h Hn Hh Hhas. rewrite (agree_has db db') in Hhas by done.
    destruct (so_stored db Hs n h Hn Hh Hhas) as (hdr & H1 & H2 & H3 & H4 & H5 & H6 & H7). exists hdr.
    unfold stored_ok. rewrite (agree_header db db'), (agree_canon db db') by side. split_and!; try done.
    intros Hn0. rewrite (agree_has db db') by side. by apply H5.
  - intros h n Hh. rewrite (agree_number db db'), (so_number db Hs h n Hh) by done.
    split; intros [Hn Hx]; (split; [done|]); by apply (agree_has db db').
Qed.

(** The header read through the cache is the stored one. *)
Lemma GetHeader_spec hc h n :
  store_ok (chainDb hc) -> caches_ok hc -> is_hash h -> is_u64 n -> has (chainDb hc) n h ->
  exists hdr hc', GetHeader h n hc = Some (Some hdr, hc') /\ stored_ok (chainDb hc) n h hdr /\
    same_chain hc hc' /\ caches_ok hc'.
Proof.
  intros Hs Hc Hh Hn Hhas. destruct (so_stored _ Hs n h Hn Hh Hhas) as (hdr & Ho). pose proof (Ho) as (Hr & _ & Enum & _).
  unfold GetHeader. rewrite run_get.
  pose proof (Get_value _ (headerCache hc) h) as Ev. pose proof (Get_keeps _ (headerCache hc) h) as Ek.
  destruct (cache_Get (headerCache hc) h) as [cached cache]. cbn in Ev, Ek. rewrite run_modify.
  destruct cached as [x|].
  - symmetry in Ev. destruct (cc_header hc Hc h x Ev) as (_ & Hx & Hrx).
    assert (Number x = n) as <- by (eapply has_number_unique; eauto using ReadHeader_has).
    exists x, (set_headerCache cache hc). split; [done|]. split; [by eapply stored_read|]. split; [done|].
    apply (caches_ok_same hc); [done..| |by left]. intros k y. cbn. rewrite Ek. by left.
  - rewrite Hr, run_modify. exists hdr. eexists. split; [reflexivity|]. split; [done|]. split; [done|].
    apply (caches_ok_same hc); [done..| |by left]. intros k y Hy. cbn in Hy.
    apply Add_only in Hy as [[-> ->]|Hy]; [right; by rewrite Enum|left; by rewrite <- Ek].
Qed.

(** ** Lemmas: ancestors *)

(** [A k] is the hash at number [k] on the branch below [n]. *)
Definition ancestry db (A : Z -> Z) (n : Z) : Prop :=
  forall k, 0 <= k <= n -> is_hash (A k) /\ 0 < A k /\ exists hdr,
    ReadHeader db (A k) k = Some hdr /\ Number hdr = k /\ (0 < k -> ParentHash hdr = A (k - 1)).

Lemma stored_positive db n h hdr : stored_ok db n h hdr -> 0 < h.
Proof. intros (_ & <- & _). apply hash_range. Qed.

Lemma ancestry_exists db (m : nat) : forall h,
  store_ok db -> is_u64 (Z.of_nat m) -> is_hash h -> has db (Z.of_nat m) h ->
  exists A, A (Z.of_nat m) = h /\ ancestry db A (Z.of_nat m) /\ A 0 = ReadCanonicalHash db 0.
Proof.
  induction m as [|m IH]; intros h Hs Hn Hh Hhas;
    destruct (so_stored db Hs _ _ Hn Hh Hhas) as (hdr & Ho); pose proof (stored_positive _ _ _ _ Ho);
    destruct Ho as (Hr & Hhash & Hnum & Hph & Hpar & Hzero & _).
  - exists (fun _ => h). split; [done|]. split; [|by rewrite Hzero]. intros k Hk. assert (k = 0) as -> by lia.
    split; [done|]. split; [done|]. exists hdr. split; [done|]. split; [done|]. lia.
  - destruct (IH (ParentHash hdr)) as (A & EA & HA & E0);
      [done|unfold is_u64 in *; lia|done|replace (Z.of_nat m) with (Z.of_nat (S m) - 1) by lia; apply Hpar; lia|].
    exists (fun k => if decide (k = Z.of_nat (S m)) then h else A k). split; [by rewrite decide_True|].
    split; [|rewrite decide_False by lia; done]. intros k Hk. destruct (decide (k = Z.of_nat (S m))) as [->|Hne].
    + split; [done|]. split; [done|]. exists hdr. split; [done|]. split; [done|]. intros _.
      rewrite decide_False by lia. rewrite <- EA. f_equal. lia.
    + destruct (HA k) as (H1 & H2 & x & H3 & H4 & H5); [lia|]. split; [done|]. split; [done|]. exists x.
      split; [done|]. split; [done|]. intros Hk0. rewrite decide_False by lia. by apply H5.
Qed.

(** Below a canonical header of the branch the branch is canonical. *)
Lemma canonical_ancestry db head A n (m : nat) :
  canon_ok db head -> ancestry db A n -> Z.of_nat m <= n < 2 ^ 64 ->
  ReadCanonicalHash db (Z.of_nat m) = A (Z.of_nat m) ->
  Z.of_nat m <= Number head /\ forall k, 0 <= k <= Z.of_nat m -> ReadCanonicalHash db k = A k.
Proof.
  intros Hca HA. induction m as [|m IH]; intros Hm E.
  - pose proof (ca_range db head Hca). split; [lia|]. intros k Hk. by replace k with (Z.of_nat 0) by lia.
  - assert (Hle : Z.of_nat (S m) <= Number head).
    { destruct (decide (Z.of_nat (S m) <= Number head)); [done|]. pose proof (ca_above db head Hca (Z.of_nat (S m))).
      destruct (HA (Z.of_nat (S m))) as (_ & Hpos & _); [lia|]. lia. }
    split; [done|]. destruct (ca_below db head Hca (Z.of_nat (S m))) as (hdr & Hr & _ & Hp); [lia|].
    destruct (HA (Z.of_nat (S m))) as (_ & _ & x & Hrx & _ & Hpx); [lia|].
    rewrite E, Hrx in Hr. injection Hr as ->. specialize (Hp ltac:(lia)). specialize (Hpx ltac:(lia)).
    destruct IH as [_ IH]; [lia|replace (Z.of_nat m) with (Z.of_nat (S m) - 1) by lia; congruence|].
    intros k Hk. destruct (decide (k = Z.of_nat (S m))) as [->|]; [done|]. apply IH. lia.
Qed.

(** The first number, going down the branch, where the branch is canonical. *)
Lemma fork_exists db A (m : nat) :
  A 0 = ReadCanonicalHash db 0 ->
  exists c : nat, (c <= m)%nat /\ ReadCanonicalHash db (Z.of_nat m - Z.of_nat c) = A (Z.of_nat m - Z.of_nat c) /\
    forall i : nat, (i < c)%nat -> ReadCanonicalHash db (Z.of_nat m - Z.of_nat i) <> A (Z.of_nat m - Z.of_nat i).
Proof.
  intros E0. induction m as [|m IH].
  - exists O. split; [done|]. split; [done|]. lia.
  - destruct (decide (ReadCanonicalHash db (Z.of_nat (S m)) = A (Z.of_nat (S m)))) as [E|Hne].
    + exists O. rewrite Z.sub_0_r. split; [lia|]. split; [done|]. lia.
    + destruct IH as (c & Hc & E & Hlt). exists (S c). split; [lia|].
      replace (Z.of_nat (S m) - Z.of_nat (S c)) with (Z.of_nat m - Z.of_nat c) by lia. split; [done|].
      intros [|i] Hi; [by rewrite Z.sub_0_r|].
      replace (Z.of_nat (S m) - Z.of_nat (S i)) with (Z.of_nat m - Z.of_nat i) by lia. apply Hlt. lia.
Qed.

(** ** Lemmas: the loops of WriteHeader *)

Fixpoint reroute_ops (A : Z -> Z) (j : Z) (c : nat) : list db_op :=
  match c with
  | O => []
  | S c' => WriteCanonicalHash (A j) j ++ reroute_ops A (j - 1) c'
  end.

Fixpoint delete_ops (i : Z) (c : nat) : list db_op :=
  match c with
  | O => []
  | S c' => DeleteCanonicalHash i ++ delete_ops (i + 1) c'
  end.

Lemma reroute_run A c : forall fuel j hdr hc batch,
  store_ok (chainDb hc) -> caches_ok hc -> ancestry (chainDb hc) A j -> Z.of_nat c <= j < 2 ^ 64 -> (c < fuel)%nat ->
  ReadHeader (chainDb hc) (A j) j = Some hdr ->
  ReadCanonicalHash (chainDb hc) (j - Z.of_nat c) = A (j - Z.of_nat c) ->
  (forall i : nat, (i < c)%nat -> ReadCanonicalHash (chainDb hc) (j - Z.of_nat i) <> A (j - Z.of_nat i)) ->
  exists hc', reroute fuel (A j) j (Some hdr) batch hc = Some (batch ++ reroute_ops A j c, hc') /\
    same_chain hc hc' /\ caches_ok hc'.
Proof.
  induction c as [|c IH]; intros [|fuel] j hdr hc batch Hs Hc HA Hj Hf Hr E Hne; try lia; cbn [reroute]; rewrite run_get.
  - change (Z.of_nat 0) with 0 in E. rewrite Z.sub_0_r in E. rewrite E, Z.eqb_refl. exists hc.
    cbn [reroute_ops]. rewrite app_nil_r. done.
  - pose proof (Hne O ltac:(lia)) as H0. change (Z.of_nat 0) with 0 in H0. rewrite Z.sub_0_r in H0.
    rewrite (proj2 (Z.eqb_neq _ _) H0). cbv zeta. rewrite (run_lift _ _ _ hdr) by done.
    destruct (HA j) as (_ & _ & x & Hrx & Enum & Hp); [lia|]. rewrite Hr in Hrx. injection Hrx as <-.
    specialize (Hp ltac:(lia)). rewrite Enum, (big_uint64_small j), u64_small, Hp by (unfold is_u64; lia).
    destruct (HA (j - 1)) as (Hh & _ & y & Hry & _); [lia|].
    destruct (GetHeader_spec hc (A (j - 1)) (j - 1)) as (y' & hc1 & Eg & Hy & Hsame & Hc1);
      [done|done|done|unfold is_u64; lia|by eapply ReadHeader_has|].
    rewrite (run_bind _ _ _ _ _ Eg). destruct (Hsame) as (Edb & _).
    destruct (IH fuel (j - 1) y' hc1 (batch ++ WriteCanonicalHash (A j) j)) as (hc2 & E2 & Hs2 & Hc2); rewrite ?Edb; try done; try lia.
    + intros k Hk. apply HA. lia.
    + apply Hy.
    + by replace (j - 1 - Z.of_nat c) with (j - Z.of_nat (S c)) by lia.
    + intros i Hi. replace (j - 1 - Z.of_nat i) with (j - Z.of_nat (S i)) by lia. apply Hne. lia.
    + exists hc2. rewrite E2. cbn [reroute_ops]. rewrite <- app_assoc. split; [done|]. split; [by etrans|done].
Qed.

Lemma delete_above_run db c : forall fuel i batch,
  0 <= i -> i + Z.of_nat c < 2 ^ 64 -> (c < fuel)%nat ->
  (forall k, i <= k < i + Z.of_nat c -> ReadCanonicalHash db k <> 0) -> ReadCanonicalHash db (i + Z.of_nat c) = 0 ->
  delete_above fuel db i batch = Some (batch ++ delete_ops i c).
Proof.
  induction c as [|c IH]; intros [|fuel] i batch Hi Hc Hf Hne E; try lia; cbn [delete_above].
  - change (Z.of_nat 0) with 0 in E. rewrite Z.add_0_r in E. rewrite E. cbn. by rewrite app_nil_r.
  - rewrite (proj2 (Z.eqb_neq _ 0)) by (apply Hne; lia). rewrite u64_small by (unfold is_u64; lia).
    rewrite IH; [cbn [delete_ops]; by rewrite <- app_assoc|lia..| |].
    + intros k Hk. apply Hne. lia.
    + by replace (i + 1 + Z.of_nat c) with (i + Z.of_nat (S c)) by lia.
Qed.

Lemma canon_reroute A c : forall db j k,
  Z.of_nat c <= j < 2 ^ 64 -> (forall k, 0 <= k <= j -> is_hash (A k)) -> is_u64 k ->
  ReadCanonicalHash (db_write db (reroute_ops A j c)) k
    = if decide (j - Z.of_nat c < k <= j) then A k else ReadCanonicalHash db k.
Proof.
  induction c as [|c IH]; intros db j k Hj HA Hk; cbn [reroute_ops].
  - by rewrite decide_False by lia.
  - rewrite db_write_app, IH by (try done; try lia; intros; apply HA; lia).
    rewrite canonical_write by (try apply HA; unfold is_u64 in *; lia).
    repeat case_decide; subst; try done; try lia.
Qed.

Lemma canon_delete c : forall db i k,
  0 <= i -> i + Z.of_nat c <= 2 ^ 64 -> is_u64 k ->
  ReadCanonicalHash (db_write db (delete_ops i c)) k
    = if decide (i <= k < i + Z.of_nat c) then 0 else ReadCanonicalHash db k.
Proof.
  induction c as [|c IH]; intros db i k Hi Hc Hk; cbn [delete_ops].
  - by rewrite decide_False by lia.
  - rewrite db_write_app, IH by (try done; lia). rewrite canonical_delete by (try done; unfold is_u64 in *; lia).
    repeat case_decide; subst; try done; try lia.
Qed.

(** The bound on the loops: the headers they pass are distinct records. *)
Lemma branch_le_size db A j (c : nat) :
  ancestry db A j -> Z.of_nat c <= j + 1 -> j < 2 ^ 64 -> (c <= size db)%nat.
Proof.
  intros HA Hc Hj. apply (keys_le_size (fun i => headerKey (j - Z.of_nat i) (A (j - Z.of_nat i)))).
  - intros i Hi. destruct (HA (j - Z.of_nat i)) as (_ & _ & hdr & Hr & _); [lia|]. by eapply ReadHeader_has.
  - intros i i' Hi Hi' E.
    destruct (HA (j - Z.of_nat i)) as (Hh & _); [lia|]. destruct (HA (j - Z.of_nat i')) as (Hh' & _); [lia|].
    apply (key_bytes_inj (KHeader _ _) (KHeader _ _)) in E; [|split; [unfold is_u64; lia|done]..].
    injection E as E _. lia.
Qed.

Lemma canonical_is_ancestry db head :
  store_ok db -> canon_ok db head -> ancestry db (ReadCanonicalHash db) (Number head).
Proof.
  intros Hs Hca k Hk. destruct (ca_below db head Hca k Hk) as (hdr & Hr & Hh & Hp). pose proof (ca_range db head Hca).
  assert (Ho : stored_ok db k (ReadCanonicalHash db k) hdr) by (apply stored_read; try done; unfold is_u64; lia).
  pose proof (stored_positive _ _ _ _ Ho). destruct Ho as (_ & _ & Enum & _). eauto 10.
Qed.

(** ** Lemmas: writing a header and the markers *)

(** Operations on canonical hashes and on the head marker. *)
Definition is_marker (op : db_op) : Prop :=
  (exists n, is_u64 n /\ op_key (KCanonical n) op) \/ op_key (KNamed NHeadHeader) op.

Lemma reroute_ops_markers A c : forall j, Z.of_nat c <= j + 1 -> j < 2 ^ 64 -> Forall is_marker (reroute_ops A j c).
Proof.
  induction c as [|c IH]; intros j Hj Hj'; constructor; [|apply IH; lia].
  left. exists j. split; [unfold is_u64; lia|]. right. by eexists.
Qed.

Lemma delete_ops_markers c : forall i, 0 <= i -> i + Z.of_nat c <= 2 ^ 64 -> Forall is_marker (delete_ops i c).
Proof.
  induction c as [|c IH]; intros i Hi Hc; constructor; [|apply IH; lia].
  left. exists i. split; [unfold is_u64; lia|]. by left.
Qed.

Lemma markers_other ops k :
  Forall is_marker ops -> (forall n, k <> KCanonical n) -> k <> KNamed NHeadHeader ->
  Forall (fun op => exists k', op_key k' op /\ key_ok k' /\ k' <> k) ops.
Proof.
  intros H Hk Hk'. eapply Forall_impl; [exact H|]. intros op [(n & Hn & Hop)|Hop].
  - exists (KCanonical n). split; [done|]. split; [done|]. intros E. by apply (Hk n).
  - exists (KNamed NHeadHeader). done.
Qed.

Lemma has_markers db ops n h :
  Forall is_marker ops -> is_u64 n -> is_hash h -> has (db_write db ops) n h <-> has db n h.
Proof.
  intros H Hn Hh. unfold has. change (headerKey n h) with (key_bytes (KHeader n h)).
  by rewrite lookup_others by (try done; by apply markers_other).
Qed.

Lemma header_markers db ops n h :
  Forall is_marker ops -> is_u64 n -> is_hash h -> ReadHeader (db_write db ops) h n = ReadHeader db h n.
Proof. intros H Hn Hh. apply header_others; [done..|by apply markers_other]. Qed.

Lemma number_markers db ops h :
  Forall is_marker ops -> is_hash h -> ReadHeaderNumber (db_write db ops) h = ReadHeaderNumber db h.
Proof. intros H Hh. apply number_others; [done|by apply markers_other]. Qed.

Lemma str_bytes x : Forall is_byte (str x).
Proof.
  unfold str. apply Forall_fmap, Forall_true. intros a. unfold is_byte, compose. pose proof (Ascii.N_ascii_bounded a). lia.
Qed.

Lemma key_bytes_byte k : Forall is_byte (key_bytes k).
Proof.
  destruct k as [| | | | | | | | | | | |n]; [..|destruct n]; cbn [key_bytes named_bytes];
    unfold headerKey, headerHashKey, headerNumberKey, blockBodyKey, txLookupKey, accountSnapshotKey, storageSnapshotKey,
      preimageKey, codeKey, configKey, blockCommitSigKey;
    rewrite ?Forall_app; split_and?; first [apply str_bytes|apply be_bytes_is_byte].
Qed.

Lemma db_write_bytes ops : forall db,
  Forall (fun op => exists k, op_key k op) ops ->
  (forall k, is_Some (db !! k) -> Forall is_byte k) -> forall k, is_Some (db_write db ops !! k) -> Forall is_byte k.
Proof.
  induction ops as [|op ops IH]; intros db Hops Hdb; [done|]. apply Forall_cons in Hops as [[k0 Hop] Hops].
  change (db_write db (op :: ops)) with (db_write (db_apply db op) ops). apply IH; [done|]. intros k.
  destruct Hop as [->|[v ->]]; cbn [db_apply].
  - destruct (decide (key_bytes k0 = k)) as [<-|Hne]; [intros _; apply key_bytes_byte|].
    rewrite lookup_delete_ne by done. apply Hdb.
  - destruct (decide (key_bytes k0 = k)) as [<-|Hne]; [intros _; apply key_bytes_byte|].
    rewrite lookup_insert_ne by done. apply Hdb.
Qed.

Lemma store_ok_markers db ops :
  store_ok db -> Forall is_marker ops -> ReadCanonicalHash (db_write db ops) 0 = ReadCanonicalHash db 0 ->
  store_ok (db_write db ops).
Proof.
  intros Hs Hops E0. split.
  - apply db_write_bytes; [|apply Hs]. eapply Forall_impl; [exact Hops|]. intros op [(n & _ & H)|H]; eauto.
  - intros n h Hn Hh Hhas. rewrite has_markers in Hhas by done.
    destruct (so_stored db Hs n h Hn Hh Hhas) as (hdr & H1 & H2 & H3 & H4 & H5 & H6 & H7). exists hdr.
    unfold stored_ok. rewrite header_markers, E0 by done. split_and!; try done.
    intros Hn0. rewrite has_markers; [by apply H5|done|unfold is_u64 in *; lia|done].
  - intros h n Hh. rewrite number_markers, (so_number db Hs h n Hh) by done.
    split; intros [Hn Hx]; (split; [done|]); by apply (has_markers db ops n h).
Qed.

(** A header whose parent is known and whose hash is not that of another header. *)
Record insertable db (header : Header) : Prop := {
  in_encodable : header_encodable header;
  in_range : 0 < Number header < 2 ^ 64 - 1;
  in_hash : is_hash (ParentHash header);
  in_parent : has db (Number header - 1) (ParentHash header);
  in_fresh : forall n x, is_u64 n -> ReadHeader db (Header_Hash header) n = Some x -> x = header
}.

Lemma has_write db header n h :
  is_u64 (Number header) -> is_u64 n -> is_hash h ->
  has (db_write db (WriteHeader header)) n h <-> (n = Number header /\ h = Header_Hash header) \/ has db n h.
Proof.
  intros Hnum Hn Hh. unfold has, WriteHeader. rewrite big_uint64_small by done. pose proof (header_hash_ok header).
  change (headerKey n h) with (key_bytes (KHeader n h)).
  change (db_write db _) with (db_apply (db_apply db (Put (key_bytes (KHeaderNumber (Header_Hash header))) (encodeBlockNumber (Number header))))
    (Put (key_bytes (KHeader (Number header) (Header_Hash header))) (rlp_header header))).
  rewrite !lookup_put by done. rewrite (decide_False (P := KHeaderNumber _ = _)) by done.
  case_decide as E; [injection E as -> ->; naive_solver|]. split; [by right|].
  intros [[-> ->]|Hx]; [done|exact Hx].
Qed.

Lemma canon_write_header db header k :
  is_u64 (Number header) -> is_u64 k ->
  ReadCanonicalHash (db_write db (WriteHeader header)) k = ReadCanonicalHash db k.
Proof.
  intros Hn Hk. pose proof (header_hash_ok header). apply canonical_others; [done|].
  unfold WriteHeader, WriteHeaderNumber. rewrite big_uint64_small by done. cbn [app]. other_ops.
Qed.

Lemma read_write_header db header n h hdr :
  insertable db header -> is_u64 n -> is_hash h -> ReadHeader db h n = Some hdr ->
  ReadHeader (db_write db (WriteHeader header)) h n = Some hdr.
Proof.
  intros Hin Hn Hh Hr. rewrite ReadHeader_write by (try done; apply Hin). case_decide as E; [|done].
  destruct E as [-> ->]. f_equal. symmetry. by eapply (in_fresh db header Hin).
Qed.

Lemma store_ok_write db header :
  store_ok db -> insertable db header -> store_ok (db_write db (WriteHeader header)).
Proof.
  intros Hs Hin. destruct (Hin) as [[Hu Ht] Hr Hph Hpar Hfresh]. pose proof (header_hash_ok header) as Hhh. split.
  - apply db_write_bytes; [|apply Hs]. unfold WriteHeader, WriteHeaderNumber. cbn [app].
    repeat constructor; [exists (KHeaderNumber (Header_Hash header))|exists (KHeader (big_uint64 (Number header)) (Header_Hash header))];
      right; by eexists.
  - intros n h Hn Hh Hhas. rewrite has_write in Hhas by done. unfold stored_ok. destruct Hhas as [[-> ->]|Hhas].
    + exists header. rewrite ReadHeader_write, decide_True by done. split_and!; try done; [|lia..].
      intros _. rewrite has_write; [by right|done|unfold is_u64 in *; lia|done].
    + destruct (so_stored db Hs n h Hn Hh Hhas) as (hdr & H1 & H2 & H3 & H4 & H5 & H6 & H7). exists hdr.
      rewrite canon_write_header by done. split_and!; try done; [by apply read_write_header|].
      intros Hn0. rewrite has_write; [right; by apply H5|done|unfold is_u64 in *; lia|done].
  - intros h n Hh. rewrite ReadHeaderNumber_write by done. case_decide as E.
    + subst h. split; [intros [= <-]|intros [Hn Hhas]]; [split; [done|]; rewrite has_write; by auto|].
      rewrite has_write in Hhas by done. destruct Hhas as [[-> _]|Hhas]; [done|].
      destruct (so_stored db Hs n _ Hn Hhh Hhas) as (hdr & H1 & _ & <- & _).
      rewrite (Hfresh _ _ Hn H1). done.
    + rewrite (so_number db Hs h n Hh). split; intros [Hn Hx]; (split; [done|]); rewrite has_write in * by done; naive_solver.
Qed.

(** ** Writing a header *)

Lemma canon_ok_write db head header :
  canon_ok db head -> insertable db header -> canon_ok (db_write db (WriteHeader header)) head.
Proof.
  intros Hca Hin. pose proof (ca_range db head Hca) as Hr. destruct (in_encodable db header Hin) as [Hu _].
  split; [done|..].
  - destruct (ca_head db head Hca) as [H1 H2]. rewrite canon_write_header by side.
    split; [|done]. apply read_write_header; [done|unfold is_u64; lia|apply header_hash_ok|done].
  - intros n Hn. destruct (ca_below db head Hca n Hn) as (hdr & H1 & H2 & H3). exists hdr.
    rewrite canon_write_header by side.
    split; [apply read_write_header; [done|unfold is_u64; lia|done|done]|]. split; [done|].
    intros Hn0. rewrite canon_write_header by side. by apply H3.
  - intros n Hn. rewrite canon_write_header by side. by apply (ca_above db head Hca).
Qed.

(** Caches stay right when the database only grows. *)
Lemma caches_ok_grow hc db' :
  caches_ok hc -> store_ok (chainDb hc) -> store_ok db' ->
  (forall n h hdr, is_u64 n -> is_hash h -> ReadHeader (chainDb hc) h n = Some hdr -> ReadHeader db' h n = Some hdr) ->
  caches_ok (set_chainDb db' hc).
Proof.
  intros Hc Hs Hs' Hgrow. split; cbn.
  - intros h x Hx. destruct (cc_header hc Hc h x Hx) as (Hh & Hn & Hr). eauto.
  - intros h n Hx. destruct (cc_number hc Hc h n Hx) as (Hh & Hr). split; [done|].
    apply (so_number _ Hs) in Hr as [Hn Hhas]; [|done]. destruct (so_stored _ Hs n h Hn Hh Hhas) as (hdr & Hr & _).
    apply (so_number _ Hs'); [done|]. split; [done|]. eapply ReadHeader_has, Hgrow; eauto.
Qed.

(** The operations that make [header] the head: delete above, reroute below. *)
Definition head_ops (header : Header) (A : Z -> Z) (c1 c2 : nat) : list db_op :=
  (delete_ops (Number header + 1) c1 ++ reroute_ops A (Number header - 1) c2)
    ++ WriteCanonicalHash (Header_Hash header) (Number header) ++ WriteHeadHeaderHash (Header_Hash header).

Lemma head_ops_markers header A c1 c2 :
  0 < Number header -> Z.of_nat c2 <= Number header -> Number header + 1 + Z.of_nat c1 <= 2 ^ 64 ->
  Forall is_marker (head_ops header A c1 c2).
Proof.
  intros H0 H2 H1. unfold head_ops. rewrite !Forall_app. split_and!.
  - apply delete_ops_markers; lia.
  - apply reroute_ops_markers; lia.
  - constructor; [|constructor]. left. exists (Number header). split; [unfold is_u64; lia|]. right. by eexists.
  - constructor; [|constructor]. right. right. by eexists.
Qed.

Lemma head_ops_canon db header A c1 c2 k :
  0 < Number header -> Z.of_nat c2 < Number header -> Number header + 1 + Z.of_nat c1 <= 2 ^ 64 ->
  (forall k, 0 <= k < Number header -> is_hash (A k)) -> is_u64 k ->
  (forall k, 0 <= k < Number header - Z.of_nat c2 -> ReadCanonicalHash db k = A k) ->
  (forall k, Number header + Z.of_nat c1 < k < 2 ^ 64 -> ReadCanonicalHash db k = 0) ->
  ReadCanonicalHash (db_write db (head_ops header A c1 c2)) k
    = if decide (k = Number header) then Header_Hash header else if decide (Number header < k) then 0 else A k.
Proof.
  intros H0 H2 H1 HA Hk Hlow Hhigh. unfold head_ops. rewrite !db_write_app.
  rewrite canonical_others; [|done|unfold WriteHeadHeaderHash; other_ops].
  rewrite canonical_write by side.
  case_decide as E; [done|]. rewrite canon_reroute by (try side; intros; apply HA; lia).
  rewrite canon_delete by (try done; lia). unfold is_u64 in *.
  repeat case_decide; try done; try lia; [apply Hhigh; lia|apply Hlow; lia].
Qed.

Lemma canon_ok_new db header A c1 c2 :
  insertable db header -> ReadHeader db (Header_Hash header) (Number header) = Some header ->
  ancestry db A (Number header - 1) -> A (Number header - 1) = ParentHash header ->
  Z.of_nat c2 < Number header -> Number header + 1 + Z.of_nat c1 <= 2 ^ 64 ->
  (forall k, is_u64 k -> ReadCanonicalHash (db_write db (head_ops header A c1 c2)) k
    = if decide (k = Number header) then Header_Hash header else if decide (Number header < k) then 0 else A k) ->
  canon_ok (db_write db (head_ops header A c1 c2)) header.
Proof.
  intros Hin Hread HA EA H2 H1 Hcanon. pose proof (in_range db header Hin) as Hr. pose proof (header_hash_ok header) as Hhh.
  assert (Hm : Forall is_marker (head_ops header A c1 c2)) by (apply head_ops_markers; lia).
  split; [lia|..].
  - rewrite header_markers by side. split; [done|].
    rewrite Hcanon, decide_True by side. done.
  - intros n Hn. rewrite Hcanon by (unfold is_u64; lia). case_decide as E.
    + subst n. exists header. rewrite header_markers by side. split; [done|]. split; [done|].
      intros _. rewrite Hcanon, decide_False, decide_False by (unfold is_u64; lia). done.
    + rewrite decide_False by lia. destruct (HA n) as (Hh & _ & hdr & Hrd & _ & Hp); [lia|]. exists hdr.
      rewrite header_markers by side. split; [done|]. split; [done|]. intros Hn0.
      rewrite Hcanon, decide_False, decide_False by (unfold is_u64; lia). by apply Hp.
  - intros n Hn. rewrite Hcanon, decide_False, decide_True by (unfold is_u64; lia). done.
Qed.

Lemma make_canonical_eval hc head header A c2 :
  store_ok (chainDb hc) -> caches_ok hc -> canon_ok (chainDb hc) head -> insertable (chainDb hc) header ->
  A (Number header - 1) = ParentHash header -> ancestry (chainDb hc) A (Number header - 1) ->
  Z.of_nat c2 < Number header ->
  ReadCanonicalHash (chainDb hc) (Number header - 1 - Z.of_nat c2) = A (Number header - 1 - Z.of_nat c2) ->
  (forall i : nat, (i < c2)%nat ->
    ReadCanonicalHash (chainDb hc) (Number header - 1 - Z.of_nat i) <> A (Number header - 1 - Z.of_nat i)) ->
  exists hc', same_chain hc hc' /\ caches_ok hc' /\
    make_canonical header hc = Some (CanonStatTy, set_current header (Header_Hash header)
      (set_chainDb (db_write (chainDb hc) (head_ops header A (Z.to_nat (Number head - Number header)) c2)) hc')).
Proof.
  intros Hs Hc Hca Hin EA HA Hc2 Efork Hfork. pose proof (in_range _ _ Hin) as Hr. pose proof (ca_range _ _ Hca) as HN.
  pose proof (canonical_is_ancestry _ _ Hs Hca) as Hcanon.
  unfold make_canonical. cbv zeta. rewrite big_uint64_small by side. rewrite run_get.
  erewrite run_lift; cycle 1.
  { rewrite u64_small by side. apply (delete_above_run _ (Z.to_nat (Number head - Number header))); try lia.
    - unfold loop_fuel. pose proof (branch_le_size _ _ (Number head) (Z.to_nat (Number head - Number header)) Hcanon). lia.
    - intros k Hk. destruct (Hcanon k) as (_ & Hpos & _); [lia|]. lia.
    - apply (ca_above _ _ Hca). lia. }
  rewrite u64_small by side.
  destruct (GetHeader_spec hc (ParentHash header) (Number header - 1)) as (p & hc1 & Eg & Hp & Hsame & Hc1);
    [done|done|apply Hin|side|apply Hin|].
  rewrite (run_bind _ _ _ _ _ Eg). destruct (Hsame) as (Edb & _).
  destruct (reroute_run A c2 (loop_fuel hc) (Number header - 1) p hc1
    ([] ++ delete_ops (Number header + 1) (Z.to_nat (Number head - Number header)))) as (hc2 & E2 & Hsame2 & Hcc2);
    rewrite ?Edb; try done; try lia.
  - unfold loop_fuel. pose proof (branch_le_size _ _ _ c2 HA). lia.
  - rewrite EA. apply Hp.
  - rewrite EA in E2. rewrite (run_bind _ _ _ _ _ E2). exists hc2. split; [by etrans|]. split; [done|].
    unfold hc_write. rewrite !run_modify. unfold head_ops. cbn [app]. destruct Hsame2 as (Edb2 & _).
    by rewrite Edb2, Edb.
Qed.

Lemma make_canonical_run hc head header :
  store_ok (chainDb hc) -> caches_ok hc -> canon_ok (chainDb hc) head -> insertable (chainDb hc) header ->
  ReadHeader (chainDb hc) (Header_Hash header) (Number header) = Some header ->
  exists hc' ops, make_canonical header hc = Some (CanonStatTy, hc') /\
    chainDb hc' = db_write (chainDb hc) ops /\ Forall is_marker ops /\ store_ok (chainDb hc') /\
    ReadCanonicalHash (chainDb hc') 0 = ReadCanonicalHash (chainDb hc) 0 /\
    canon_ok (chainDb hc') header /\ caches_ok hc' /\ genesisHeader hc' = genesisHeader hc /\
    currentHeader hc' = Some header /\ currentHeaderHash hc' = Header_Hash header.
Proof.
  intros Hs Hc Hca Hin Hread. pose proof (in_range _ _ Hin) as Hr. pose proof (ca_range _ _ Hca) as HN.
  set (m := Z.to_nat (Number header - 1)). assert (Em : Z.of_nat m = Number header - 1) by lia.
  destruct (ancestry_exists (chainDb hc) m (ParentHash header)) as (A & EA & HA & E0);
    [done|side|apply Hin|rewrite Em; apply Hin|].
  destruct (fork_exists (chainDb hc) A m E0) as (c2 & Hc2 & Efork & Hfork). rewrite Em in *.
  destruct (canonical_ancestry (chainDb hc) head A (Number header - 1) (m - c2)) as [_ Hlow];
    [done|done|lia|by replace (Z.of_nat (m - c2)) with (Number header - 1 - Z.of_nat c2) by lia|].
  destruct (make_canonical_eval hc head header A c2) as (hc2 & Hsame & Hcc & Erun); [done..|lia|done|done|].
  set (c1 := Z.to_nat (Number head - Number header)) in *. set (ops := head_ops header A c1 c2) in *.
  assert (Hm : Forall is_marker ops) by (apply head_ops_markers; lia).
  assert (Hcanon : forall k, is_u64 k -> ReadCanonicalHash (db_write (chainDb hc) ops) k
    = if decide (k = Number header) then Header_Hash header else if decide (Number header < k) then 0 else A k).
  { intros k Hk. apply head_ops_canon; try done; try lia.
    - intros j Hj. apply HA. lia.
    - intros j Hj. apply Hlow. lia.
    - intros j Hj. apply (ca_above _ _ Hca). lia. }
  assert (Ec0 : ReadCanonicalHash (db_write (chainDb hc) ops) 0 = ReadCanonicalHash (chainDb hc) 0)
    by (rewrite Hcanon, decide_False, decide_False by side; done).
  assert (Hs' : store_ok (db_write (chainDb hc) ops)) by (by apply store_ok_markers).
  destruct Hsame as (Edb & Egen & _). eexists _, ops. split; [exact Erun|]. cbn. split_and!; try done.
  - by apply canon_ok_new with (c1 := c1) (c2 := c2); try lia.
  - assert (Hcc' : caches_ok (set_chainDb (db_write (chainDb hc) ops) hc2)).
    { apply caches_ok_grow; rewrite ?Edb; try done. intros k h hdr Hk Hh. by rewrite header_markers. }
    split; apply Hcc'.
Qed.

Lemma insertable_written db header :
  insertable db header -> insertable (db_write db (WriteHeader header)) header.
Proof.
  intros Hin. destruct (Hin) as [Henc Hr Hph Hpar Hfresh]. split; try done.
  - apply has_write; [side..|by right].
  - intros n x Hn. rewrite ReadHeader_write by side. case_decide; [by intros [= <-]|by apply Hfresh].
Qed.

Lemma hc_ok_caches hc head header :
  hc_ok hc head -> is_u64 (Number header) ->
  ReadHeader (chainDb hc) (Header_Hash header) (Number header) = Some header ->
  hc_ok (set_numberCache (cache_Add (Header_Hash header) (Number header) (numberCache hc))
           (set_headerCache (cache_Add (Header_Hash header) header (headerCache hc)) hc)) head.
Proof.
  intros [Hs Hca Hc Hcur Hg] Hu Hr. split; try done.
  apply (caches_ok_same hc); [done..| |]; cbn; intros h x Hx; apply Add_only in Hx as [[-> ->]|Hx]; eauto; right.
  - by split; [apply header_hash_ok|].
  - split; [apply header_hash_ok|]. apply (so_number _ Hs); [apply header_hash_ok|]. eauto using ReadHeader_has.
Qed.

Lemma hc_ok_written hc head header :
  hc_ok hc head -> insertable (chainDb hc) header ->
  hc_ok (set_chainDb (db_write (chainDb hc) (WriteHeader header)) hc) head.
Proof.
  intros [Hs Hca Hc Hcur (g & Eg & Hg)] Hin. destruct (in_encodable _ _ Hin) as [Hu _].
  assert (Hs' : store_ok (db_write (chainDb hc) (WriteHeader header))) by (by apply store_ok_write).
  split; try done; cbn [chainDb set_chainDb genesisHeader].
  - by apply canon_ok_write.
  - apply caches_ok_grow; try done. intros n h hdr Hn Hh. by apply read_write_header.
  - exists g. split; [done|]. rewrite canon_write_header by side. pose proof (ca_range _ _ Hca).
    destruct (ca_below _ _ Hca 0) as (_ & _ & Hh0 & _); [lia|]. by apply read_write_header.
Qed.

Lemma WriteHeader_spec coin hc head header :
  hc_ok hc head -> insertable (chainDb hc) header ->
  exists status hc', hc_WriteHeader coin header hc = Some (status, hc') /\
    (forall n h, is_u64 n -> is_hash h -> ReadHeader (chainDb hc') h n =
       if decide (h = Header_Hash header /\ n = Number header) then Some header else ReadHeader (chainDb hc) h n) /\
    (if decide (Number header = Number head /\ coin = false) then status = SideStatTy /\ hc_ok hc' head
     else status = CanonStatTy /\ hc_ok hc' header).
Proof.
  intros Hok Hin. pose proof (in_range _ _ Hin) as Hr. pose proof (ca_range _ _ (ok_canon _ _ Hok)) as HN.
  destruct (ok_current _ _ Hok) as [Ecur _]. pose proof (hc_ok_written hc head header Hok Hin) as Hok1.
  set (hc1 := set_chainDb (db_write (chainDb hc) (WriteHeader header)) hc) in *.
  assert (Hread1 : ReadHeader (chainDb hc1) (Header_Hash header) (Number header) = Some header)
    by (cbn [chainDb set_chainDb hc1]; rewrite ReadHeader_write, decide_True by (try side; apply Hin); done).
  unfold hc_WriteHeader, CurrentHeader. cbv zeta. rewrite (run_bind _ _ hc head hc) by (rewrite run_get, Ecur; done).
  unfold hc_write. rewrite run_modify. fold hc1. rewrite !big_uint64_small by side.
  destruct (decide (Number header = Number head /\ coin = false)) as [[En ->]|Hne].
  - rewrite En, Z.ltb_irrefl, Z.eqb_refl. cbn [orb]. exists SideStatTy. rewrite <- En.
    eexists. split; [reflexivity|]. cbn [chainDb set_numberCache set_headerCache set_chainDb].
    split; [intros n h Hn Hh; apply ReadHeader_write; by try apply Hin|]. split; [done|].
    apply (hc_ok_caches hc1); [done|side|done].
  - assert ((Number head <? Number header) || (if Number header <? Number head then true
      else if Number header =? Number head then coin else false) = true) as ->
      by (destruct (Z.ltb_spec (Number head) (Number header)), (Z.ltb_spec (Number header) (Number head)),
            (Z.eqb_spec (Number header) (Number head)), coin; cbn; try done; try lia; by destruct Hne).
    destruct (make_canonical_run hc1 head header) as (hc2 & ops & Erun & Edb & Hm & Hs2 & E0 & Hca2 & Hc2 & Eg2 & Ecur2);
      [apply Hok1..|by apply insertable_written|done|].
    rewrite (run_bind _ _ _ _ _ Erun), !run_modify. exists CanonStatTy. eexists. split; [reflexivity|].
    cbn [chainDb set_numberCache set_headerCache set_chainDb].
    assert (Hread2 : ReadHeader (chainDb hc2) (Header_Hash header) (Number header) = Some header)
      by (rewrite Edb, header_markers by side; done).
    split; [intros n h Hn Hh; rewrite Edb, header_markers by side; apply ReadHeader_write; by try apply Hin|].
    split; [done|]. apply (hc_ok_caches hc2); [|side|done].
    destruct (ok_genesis _ _ Hok1) as (g & Eg & Hg). split; try done. exists g. split; [congruence|].
    destruct (ca_below _ _ (ok_canon _ _ Hok1) 0) as (_ & _ & Hh0 & _); [lia|]. by rewrite E0, Edb, header_markers by side.
Qed.

(** C24: Writing a header whose parent is known always ends, without a panic, in
    a chain that is again linked from genesis to its head, with the canonical
    numbers, the indexes and the caches agreeing.  The header is stored and no
    other record of a header changes.  The header becomes the head whether its number
    is above or below the head's, so an older header shortens the chain; only at
    the same number does the coin decide. *)
Theorem WriteHeader_keeps_chain coin hc head header :
  hc_ok hc head -> insertable (chainDb hc) header ->
  exists status hc', hc_WriteHeader coin header hc = Some (status, hc') /\
    (forall n h, is_u64 n -> is_hash h -> ReadHeader (chainDb hc') h n =
       if decide (h = Header_Hash header /\ n = Number header) then Some header else ReadHeader (chainDb hc) h n) /\
    (if decide (Number header = Number head /\ coin = false) then status = SideStatTy /\ hc_ok hc' head
     else status = CanonStatTy /\ hc_ok hc' header).
Proof. apply WriteHeader_spec. Qed.

(** ** A chain of the genesis header alone *)

(** No record of a header chain. *)
Definition empty_chain db : Prop := forall k, is_chain_key k -> key_ok k -> db !! key_bytes k = None.

Lemma canon_ok_agree db db' head : canon_ok db head -> chain_agree db db' -> canon_ok db' head.
Proof.
  intros Hca Ha. pose proof (ca_range _ _ Hca) as Hr. destruct (ca_head _ _ Hca) as [H1 H2]. split; [done|..].
  - rewrite (agree_header db db'), (agree_canon db db') by side. done.
  - intros n Hn. destruct (ca_below _ _ Hca n Hn) as (hdr & H3 & H4 & H5). exists hdr.
    rewrite (agree_canon db db' n), (agree_header db db') by side. split; [done|]. split; [done|]. intros Hn0.
    rewrite (agree_canon db db') by side. by apply H5.
  - intros n Hn. rewrite (agree_canon db db') by side. by apply (ca_above _ _ Hca).
Qed.

Lemma genesis_chain_ok db g :
  empty_chain db -> (forall k, is_Some (db !! k) -> Forall is_byte k) ->
  header_encodable g -> Number g = 0 -> is_hash (ParentHash g) ->
  let db' := db_write (db_write db (WriteHeader g)) (WriteCanonicalHash (Header_Hash g) 0) in
  store_ok db' /\ canon_ok db' g.
Proof.
  intros He Hb Henc En Hph db'. pose proof (header_hash_ok g) as Hh. pose proof (hash_range g) as Hpos.
  assert (Hm : Forall is_marker (WriteCanonicalHash (Header_Hash g) 0)).
  { constructor; [|constructor]. left. exists 0. split; [side|]. right. by eexists. }
  assert (Hhas : forall n h, is_u64 n -> is_hash h -> has db' n h <-> n = 0 /\ h = Header_Hash g).
  { intros n h Hn Hh'. unfold db'. rewrite has_markers, has_write, En by (try done; by destruct Henc). split; [|by left].
    intros [|[v Hv]]; [done|]. change (headerKey n h) with (key_bytes (KHeader n h)) in Hv. by rewrite He in Hv. }
  assert (Hread : ReadHeader db' (Header_Hash g) 0 = Some g).
  { unfold db'. rewrite header_markers, ReadHeader_write, decide_True by side. done. }
  assert (Hcanon : forall n, is_u64 n -> ReadCanonicalHash db' n = if decide (n = 0) then Header_Hash g else 0).
  { intros n Hn. unfold db'. rewrite canonical_write by side. case_decide; [done|].
    rewrite canon_write_header by (try done; by destruct Henc). unfold ReadCanonicalHash, Get.
    change (headerHashKey n) with (key_bytes (KCanonical n)). by rewrite He. }
  split.
  - split.
    + apply db_write_bytes; [constructor; [exists (KCanonical 0); right; by eexists|constructor]|].
      apply db_write_bytes; [|done]. unfold WriteHeader, WriteHeaderNumber. cbn [app].
      repeat constructor; [exists (KHeaderNumber (Header_Hash g))|exists (KHeader (big_uint64 (Number g)) (Header_Hash g))];
        right; by eexists.
    + intros n h Hn Hh' H. apply Hhas in H as [-> ->]; [|done..]. exists g. unfold stored_ok.
      rewrite Hcanon, decide_True by side. split_and!; try done; lia.
    + intros h n Hh'. unfold db' at 1. rewrite number_markers, ReadHeaderNumber_write, En by (try done; by destruct Henc).
      case_decide as E; [split; [intros [= <-]; split; [side|]; apply Hhas; [side|done|done]|]; intros [Hn H]; by apply Hhas in H as [-> _]|].
      unfold ReadHeaderNumber, read_number, Get. change (headerNumberKey h) with (key_bytes (KHeaderNumber h)).
      rewrite He by done. split; [discriminate|]. intros [Hn H]. by apply Hhas in H as [_ ->].
  - split; rewrite En; try lia.
    + by rewrite Hcanon, decide_True by side.
    + intros n Hn. assert (n = 0) as -> by lia. exists g. rewrite Hcanon, decide_True by side. split; [done|]. split; [done|]. lia.
    + intros n Hn. by rewrite Hcanon, decide_False by side.
Qed.

(** ** Opening a chain *)

Lemma GetBlockNumber_spec hc h n :
  caches_ok hc -> is_hash h -> ReadHeaderNumber (chainDb hc) h = Some n ->
  exists hc', GetBlockNumber h hc = Some (Some n, hc') /\ same_chain hc hc' /\ caches_ok hc'.
Proof.
  intros Hc Hh Hn. unfold GetBlockNumber. rewrite run_get.
  pose proof (Get_value _ (numberCache hc) h) as Ev. pose proof (Get_keeps _ (numberCache hc) h) as Ek.
  destruct (cache_Get (numberCache hc) h) as [cached cache]. cbn in Ev, Ek. rewrite run_modify.
  destruct cached as [x|].
  - symmetry in Ev. destruct (cc_number hc Hc h x Ev) as (_ & Hx). assert (x = n) as -> by congruence.
    eexists. split; [done|]. split; [done|]. apply (caches_ok_same hc); [done|done|by left|].
    intros k y. cbn. rewrite Ek. by left.
  - rewrite Hn, run_modify. eexists. split; [reflexivity|]. split; [done|].
    apply (caches_ok_same hc); [done|done|by left|]. intros k y Hy. cbn in Hy.
    apply Add_only in Hy as [[-> ->]|Hy]; [by right|left; by rewrite <- Ek].
Qed.

Lemma GetHeaderByHash_spec hc h n :
  store_ok (chainDb hc) -> caches_ok hc -> is_hash h -> is_u64 n -> has (chainDb hc) n h ->
  exists hdr hc', GetHeaderByHash h hc = Some (Some hdr, hc') /\ stored_ok (chainDb hc) n h hdr /\
    same_chain hc hc' /\ caches_ok hc'.
Proof.
  intros Hs Hc Hh Hn Hhas. destruct (GetBlockNumber_spec hc h n) as (hc1 & E1 & Hs1 & Hc1);
    [done|done|by apply (so_number _ Hs)|].
  destruct (Hs1) as (Edb & _). destruct (GetHeader_spec hc1 h n) as (hdr & hc2 & E2 & Ho & Hs2 & Hc2); rewrite ?Edb in *; try done.
  exists hdr, hc2. unfold GetHeaderByHash. rewrite (run_bind _ _ _ _ _ E1). split; [done|]. split; [done|]. split; [by etrans|done].
Qed.

(** Opening a database whose head block marker is the head of its canonical
    chain gives that chain. *)
Lemma NewHeaderChain_spec db head :
  store_ok db -> canon_ok db head -> ReadHeadBlockHash db = Header_Hash head ->
  exists hc, NewHeaderChain db = Some (inl hc) /\ hc_ok hc head /\ chainDb hc = db.
Proof.
  intros Hs Hca Ehead. pose proof (ca_range _ _ Hca) as HN. pose proof (canonical_is_ancestry _ _ Hs Hca 0) as H0.
  destruct H0 as (Hh0 & Hpos & g & Hg & _); [lia|]. destruct (ca_head _ _ Hca) as [Hr _].
  unfold NewHeaderChain. set (hc0 := mk_hc _ _ _ _ _ _).
  assert (Hc0 : caches_ok hc0) by (split; cbn; intros h x; rewrite peek_New; discriminate).
  destruct (GetHeader_spec hc0 (ReadCanonicalHash db 0) 0) as (g' & hc1 & E1 & (Hg' & _) & Hs1 & Hc1);
    [done|done|done|side|by eapply ReadHeader_has|].
  assert (E1' : GetHeaderByNumber 0 hc0 = Some (Some g', hc1))
    by (unfold GetHeaderByNumber; rewrite run_get; cbv zeta; rewrite (proj2 (Z.eqb_neq _ 0)) by (cbn; lia); exact E1).
  rewrite E1'. cbn [mbind option_bind]. rewrite Ehead. pose proof (hash_range head). rewrite (proj2 (Z.eqb_neq _ 0)) by lia.
  destruct Hs1 as (Edb1 & _). set (hc2 := set_genesisHeader (Some g') hc1).
  destruct (GetHeaderByHash_spec hc2 (Header_Hash head) (Number head)) as (x & hc3 & E3 & (Hx & _) & Hs3 & Hc3);
    [cbn; by rewrite Edb1|split; apply Hc1|side|side|cbn; rewrite Edb1; by eapply ReadHeader_has|].
  destruct Hs3 as (Edb3 & Eg3 & _). cbn in Edb3, Eg3, Hx. rewrite Edb1 in *. cbn in Hx. rewrite Hr in Hx. injection Hx as <-.
  rewrite E3. cbn [mbind option_bind default from_option]. eexists. split; [reflexivity|]. cbn. split; [|done].
  split; cbn; rewrite ?Edb3; try done; [split; apply Hc3|]. exists g'. split; [done|]. exact Hg'.
Qed.

(** ** Inserting a run of headers *)

Lemma first_gap_none chain : forall prev i j, first_gap i prev chain = None -> first_gap j prev chain = None.
Proof.
  induction chain as [|h chain IH]; intros prev i j; cbn [first_gap]; [done|]. destruct (_ || _); [done|]. apply IH.
Qed.

Lemma hc_ok_same hc hc' head : hc_ok hc head -> same_chain hc hc' -> caches_ok hc' -> hc_ok hc' head.
Proof. intros [Hs Hca Hc Hcur Hg] (E1 & E2 & E3 & E4) Hc'. split; rewrite ?E1, ?E2, ?E3, ?E4; done. Qed.

(** What a run needs besides being contiguous: headers that can be encoded and
    whose hashes clash neither with each other nor with stored headers. *)
Record run_ok db (chain : list Header) : Prop := {
  ru_each : Forall (fun h => header_encodable h /\ 0 < Number h < 2 ^ 64 - 1 /\ is_hash (ParentHash h)) chain;
  ru_nodup : NoDup (Header_Hash <$> chain);
  ru_fresh : forall h n x, h ∈ chain -> is_u64 n -> ReadHeader db (Header_Hash h) n = Some x -> x = h
}.

Lemma run_ok_next db db' header chain :
  run_ok db (header :: chain) ->
  (forall n h, is_u64 n -> is_hash h -> ReadHeader db' h n =
     if decide (h = Header_Hash header /\ n = Number header) then Some header else ReadHeader db h n) ->
  run_ok db' chain.
Proof.
  intros [He Hnd Hf] Hread. apply Forall_cons in He as [_ He]. apply NoDup_cons in Hnd as [Hnin Hnd]. split; try done.
  intros h n x Hin Hn. rewrite Hread by side. case_decide as E.
  - destruct E as [E _]. destruct Hnin. rewrite <- E. apply list_elem_of_fmap. by exists h.
  - apply Hf; [by right|done].
Qed.

Lemma HasHeader_known hc head h n :
  hc_ok hc head -> is_hash h -> is_u64 n ->
  cache_Contains (numberCache hc) h || cache_Contains (headerCache hc) h || HasHeader (chainDb hc) h n = true ->
  exists n' x, is_u64 n' /\ ReadHeader (chainDb hc) h n' = Some x.
Proof.
  intros Hok Hh Hn. pose proof (ok_store _ _ Hok) as Hs. unfold cache_Contains, HasHeader, Has.
  rewrite !orb_true_iff, !bool_decide_eq_true. intros [[[k Hk]|[x Hx]]|Hhas].
  - destruct (cc_number _ (ok_caches _ _ Hok) h k Hk) as [_ Hnum]. apply (so_number _ Hs) in Hnum as [Hu Hhas]; [|done].
    destruct (so_stored _ Hs k h Hu Hh Hhas) as (x & Hr & _). eauto.
  - destruct (cc_header _ (ok_caches _ _ Hok) h x Hx) as (_ & Hu & Hr). eauto.
  - destruct (so_stored _ Hs n h Hn Hh Hhas) as (x & Hr & _). eauto.
Qed.

Lemma insertable_run hc head header chain :
  hc_ok hc head -> run_ok (chainDb hc) (header :: chain) -> has (chainDb hc) (Number header - 1) (ParentHash header) ->
  insertable (chainDb hc) header.
Proof.
  intros Hok [He _ Hf] Hpar. apply Forall_cons in He as [(He & Hr & Hph) _]. split; try done.
  intros n x Hn. apply Hf; [by left|done].
Qed.

Definition write_callback (coin : nat -> bool) (i : nat) (header : Header) : M HeaderChain (option Z) :=
  _ ← hc_WriteHeader (coin i) header; mret None.

(** One header of a run, known or not: it is stored afterwards. *)
Lemma insert_step coin hc head header chain i (k : M HeaderChain (nat * option chain_error)) :
  hc_ok hc head -> run_ok (chainDb hc) (header :: chain) -> has (chainDb hc) (Number header - 1) (ParentHash header) ->
  exists hc' head',
    (known ← hc_HasHeader (Header_Hash header) (big_uint64 (Number header));
     if known : bool then k
     else err ← write_callback coin i header;
          match err with Some e => mret (i, Some (ErrWrite e)) | None => k end) hc = k hc' /\
    hc_ok hc' head' /\ run_ok (chainDb hc') chain /\
    (forall n h, is_u64 n -> is_hash h -> ReadHeader (chainDb hc') h n =
       if decide (h = Header_Hash header /\ n = Number header) then Some header else ReadHeader (chainDb hc) h n).
Proof.
  intros Hok Hrun Hpar. pose proof (insertable_run _ _ _ _ Hok Hrun Hpar) as Hin.
  destruct (in_encodable _ _ Hin) as [Hu _]. rewrite big_uint64_small by done.
  unfold hc_HasHeader. rewrite (run_bind (mgets _) _ hc _ hc eq_refl). cbv beta.
  destruct (cache_Contains (numberCache hc) (Header_Hash header) || _ || _) eqn:Eknown.
  - apply (HasHeader_known _ _ _ _ Hok) in Eknown as (n' & x & Hn' & Hx); [|side..].
    assert (x = header) as -> by (by eapply (in_fresh _ _ Hin)).
    destruct (stored_read _ _ _ _ (ok_store _ _ Hok) Hn' (header_hash_ok header) Hx) as (_ & _ & En & _). subst n'.
    assert (Hread : forall n h, is_u64 n -> is_hash h -> ReadHeader (chainDb hc) h n =
      if decide (h = Header_Hash header /\ n = Number header) then Some header else ReadHeader (chainDb hc) h n).
    { intros n h Hn Hh. case_decide as E; [by destruct E as [-> ->]|done]. }
    exists hc, head. split; [done|]. split; [done|]. split; [by eapply run_ok_next|done].
  - destruct (WriteHeader_spec (coin i) hc head header Hok Hin) as (status & hc' & Erun & Hread & Hst).
    assert (Hok' : exists head', hc_ok hc' head') by (case_decide; destruct Hst; eauto). destruct Hok' as [head' Hok'].
    exists hc', head'. unfold write_callback. split; [|split; [done|]; split; [by eapply run_ok_next|done]].
    erewrite run_bind; [|rewrite (run_bind _ _ _ _ _ Erun); reflexivity]. done.
Qed.

Lemma insert_headers_run coin chain : forall prev hc head i j,
  hc_ok hc head -> run_ok (chainDb hc) chain -> first_gap j prev chain = None -> is_u64 (Number prev) ->
  has (chainDb hc) (Number prev) (Header_Hash prev) ->
  exists hc' head', insert_headers (fun _ => false) (write_callback coin) i chain hc = Some ((O, None), hc') /\
    hc_ok hc' head' /\ (forall h, h ∈ chain -> ReadHeader (chainDb hc') (Header_Hash h) (Number h) = Some h) /\
    (forall n h x, is_u64 n -> is_hash h -> ReadHeader (chainDb hc) h n = Some x -> ReadHeader (chainDb hc') h n = Some x).
Proof.
  induction chain as [|header chain IH]; intros prev hc head i j Hok Hrun Hgap Hup Hprev; cbn [insert_headers].
  - exists hc, head. split; [done|]. split; [done|]. split; [|done]. intros h Hh. by apply not_elem_of_nil in Hh.
  - cbn [first_gap] in Hgap. pose proof (ru_each _ _ Hrun) as He. apply Forall_cons in He as [(Henc & Hr & Hph) _].
    destruct (so_stored _ (ok_store _ _ Hok) _ _ Hup (header_hash_ok prev) Hprev) as (p & _ & _ & _ & _ & _ & _ & Hlt).
    destruct (Z.eqb_spec (big_uint64 (Number header)) (u64 (big_uint64 (Number prev) + 1))) as [En|]; [|done].
    destruct (Z.eqb_spec (ParentHash header) (Header_Hash prev)) as [Ep|]; [|done]. cbn [negb orb] in Hgap.
    rewrite !big_uint64_small, u64_small in En by side.
    destruct (insert_step coin hc head header chain i (insert_headers (fun _ => false) (write_callback coin) (S i) chain))
      as (hc1 & head1 & E1 & Hok1 & Hrun1 & Hread1); [done|done|by rewrite Ep, En, Z.add_simpl_r|].
    assert (Hnew : ReadHeader (chainDb hc1) (Header_Hash header) (Number header) = Some header)
      by (rewrite Hread1, decide_True by side; done).
    destruct (IH header hc1 head1 (S i) (j + 1)%nat) as (hc2 & head2 & E2 & Hok2 & Hall & Hkeep);
      [done..|side|by eapply ReadHeader_has|].
    exists hc2, head2. cbn beta iota. rewrite E1. split; [done|]. split; [done|]. split.
    + intros h [->|Hh]%elem_of_cons; [apply Hkeep; side|by apply Hall].
    + intros n h x Hn Hh Hx. apply Hkeep; [done..|]. rewrite Hread1 by done. case_decide as E; [|done].
      destruct E as [-> ->]. symmetry. f_equal. eapply (ru_fresh _ _ Hrun); [by left|done|done].
Qed.

(** A run of headers that passed validation, starting at a header whose
    parent is known, is inserted completely: the insertion ends without error
    for every outcome of the coin, all headers of the run are stored, no stored
    header is lost, and the chain is again linked from genesis to its head. *)
Theorem validated_run_is_inserted rand verify checkFreq coin hc head header chain :
  hc_ok hc head -> run_ok (chainDb hc) (header :: chain) ->
  has (chainDb hc) (Number header - 1) (ParentHash header) ->
  ValidateHeaderChain rand (fun _ => false) verify (header :: chain) checkFreq = Some (O, None) ->
  exists hc' head', InsertHeaderChain (fun _ => false) (write_callback coin) (header :: chain) hc = Some ((O, None), hc') /\
    hc_ok hc' head' /\
    (forall h, h ∈ header :: chain -> ReadHeader (chainDb hc') (Header_Hash h) (Number h) = Some h) /\
    (forall n h x, is_u64 n -> is_hash h -> ReadHeader (chainDb hc) h n = Some x -> ReadHeader (chainDb hc') h n = Some x).
Proof.
  intros Hok Hrun Hpar Hval. pose proof (ru_each _ _ Hrun) as He. apply Forall_cons in He as [(Henc & Hr & Hph) _].
  unfold ValidateHeaderChain in Hval. destruct (first_gap 1 header chain) eqn:Hgap; [done|].
  assert (Hu : is_u64 (Number header - 1)) by side.
  destruct (so_stored _ (ok_store _ _ Hok) _ _ Hu Hph Hpar) as (prev & Hprev & Ehash & Enum & _).
  destruct (insert_headers_run coin (header :: chain) prev hc head 0 0) as (hc' & head' & Erun & Hok' & Hall & Hkeep);
    [done|done| |by rewrite Enum|rewrite Enum, Ehash; done|].
  - cbn [first_gap]. rewrite Enum, Ehash, Z.eqb_refl, !big_uint64_small, u64_small by side.
    rewrite Z.sub_add, Z.eqb_refl. cbn [negb orb]. by eapply first_gap_none.
  - exists hc', head'. split; [|done]. unfold InsertHeaderChain. rewrite (run_bind _ _ _ _ _ Erun). cbn [snd].
    destruct (proj2 (last_is_Some (header :: chain))) as [x Ex]; [done|]. by rewrite (run_lift _ _ _ x Ex).
Qed.

(** ** Ancestors *)

(** The hash of the [a]-th ancestor, following parents. *)
Fixpoint nth_parent db (h n : Z) (a : nat) : option Z :=
  match a with
  | O => Some h
  | S a' => hdr ← ReadHeader db h n; nth_parent db (ParentHash hdr) (n - 1) a'
  end.

Lemma nth_parent_ancestry db A a : forall n,
  ancestry db A n -> Z.of_nat a <= n -> nth_parent db (A n) n a = Some (A (n - Z.of_nat a)).
Proof.
  induction a as [|a IH]; intros n HA Ha; cbn [nth_parent]; [by rewrite Z.sub_0_r|].
  destruct (HA n) as (_ & _ & hdr & -> & _ & Hp); [lia|]. cbn. rewrite Hp by lia.
  rewrite IH by (try lia; intros k Hk; apply HA; lia). do 2 f_equal. lia.
Qed.

Lemma ancestor_loop_run A a : forall hc head n max c,
  hc_ok hc head -> ancestry (chainDb hc) A n -> Z.of_nat a <= n < 2 ^ 64 -> Z.of_nat c <= max -> (c <= a)%nat ->
  (c = a \/ ReadCanonicalHash (chainDb hc) (n - Z.of_nat c) = A (n - Z.of_nat c)) ->
  exists left hc', ancestor_loop (A n) n a max hc = Some ((A (n - Z.of_nat a), n - Z.of_nat a, left), hc') /\
    same_chain hc hc' /\ hc_ok hc' head.
Proof.
  induction a as [|a IH]; intros hc head n max c Hok HA Ha Hmax Hca Hc; cbn [ancestor_loop].
  - rewrite Z.sub_0_r. by exists max, hc.
  - rewrite run_get. destruct (Z.eqb_spec (ReadCanonicalHash (chainDb hc) n) (A n)) as [E|Hne].
    + exists max, hc. rewrite u64_small by side. split; [|done].
      destruct (canonical_ancestry (chainDb hc) head A n (Z.to_nat n)) as [_ Hlow];
        rewrite ?Z2Nat.id by lia; [apply Hok|done|lia|done|]. rewrite Z2Nat.id in Hlow by lia. by rewrite Hlow by lia.
    + destruct c as [|c]; [destruct Hc as [|Hc]; [done|]; by rewrite Z.sub_0_r in Hc|].
      rewrite (proj2 (Z.eqb_neq max 0)) by lia. destruct (HA n) as (Hh & _ & hdr & Hr & _ & Hp); [lia|].
      destruct (GetHeader_spec hc (A n) n) as (hdr' & hc1 & Eg & (Hr' & _) & Hsame & Hc1);
        [apply Hok|apply Hok|done|side|by eapply ReadHeader_has|].
      rewrite Hr in Hr'. injection Hr' as <-. rewrite (run_bind _ _ _ _ _ Eg), (Hp ltac:(lia)), u64_small by side.
      assert (Hok1 : hc_ok hc1 head) by (by eapply hc_ok_same). destruct (Hsame) as (Edb & _).
      destruct (IH hc1 head (n - 1) (max - 1) c) as (left & hc2 & E2 & Hs2 & Hok2); rewrite ?Edb; try done; try lia.
      * intros k Hk. apply HA. lia.
      * destruct Hc as [Hc|Hc]; [left; lia|right]. by replace (n - 1 - Z.of_nat c) with (n - Z.of_nat (S c)) by lia.
      * exists left, hc2. rewrite E2. replace (n - 1 - Z.of_nat a) with (n - Z.of_nat (S a)) by lia.
        split; [done|]. split; [by etrans|done].
Qed.

(** An ancestor query for a stored header returns the hash and the number
    reached by following parents, whether it jumps along the canonical chain or
    reads headers one by one, provided the budget for non-canonical headers
    reaches the requested ancestor or a canonical one before it. *)
Theorem GetAncestor_follows_parents hc head h n a max c :
  hc_ok hc head -> is_hash h -> has (chainDb hc) n h -> 0 <= n < 2 ^ 64 -> Z.of_nat a <= n ->
  (c <= a)%nat -> Z.of_nat c <= max ->
  (c = a \/ nth_parent (chainDb hc) h n c = Some (ReadCanonicalHash (chainDb hc) (n - Z.of_nat c))) ->
  exists anc left hc', GetAncestor h n a max hc = Some ((anc, n - Z.of_nat a, left), hc') /\
    nth_parent (chainDb hc) h n a = Some anc /\ hc_ok hc' head.
Proof.
  intros Hok Hh Hhas Hn Ha Hca Hmax Hc.
  destruct (ancestry_exists (chainDb hc) (Z.to_nat n) h) as (A & EA & HA & _);
    rewrite ?Z2Nat.id by lia; [apply Hok|done..|]. rewrite Z2Nat.id in * by lia. subst h.
  exists (A (n - Z.of_nat a)). rewrite nth_parent_ancestry by done.
  unfold GetAncestor. rewrite (proj2 (Z.ltb_ge _ _)) by lia. destruct (Nat.eqb_spec a 1) as [->|Hne].
  - destruct (GetHeader_spec hc (A n) n) as (hdr & hc1 & Eg & (Hr & _) & Hsame & Hc1); [apply Hok|apply Hok|done..|].
    destruct (HA n) as (_ & _ & hdr' & Hr' & _ & Hp); [lia|]. rewrite Hr in Hr'. injection Hr' as <-.
    exists max, hc1. rewrite (run_bind _ _ _ _ _ Eg), u64_small, (Hp ltac:(lia)) by side.
    split; [done|]. split; [done|by eapply hc_ok_same].
  - destruct (ancestor_loop_run A a hc head n max c) as (left & hc' & E & _ & Hok'); [done|done|lia|lia|lia| |eauto 10].
    destruct Hc as [Hc|Hc]; [by left|right]. rewrite nth_parent_ancestry in Hc by (done || lia). by injection Hc.
Qed.

End Spec.

(** ** Concrete chains *)

Module ChainToy.
Import DbToy.

Definition toy_lru : Lru := {|
  Cache := fun V => gmap Z V;
  lru_New := fun V _ => ∅;
  cache_peek := fun V c k => c !! k;
  cache_Get := fun V c k => (c !! k, c);
  cache_Add := fun V k v c => <[k := v]> c;
  cache_Purge := fun V _ => ∅;
  cache_Remove := fun V k c => delete k c;
  cache_Keys := fun V c => (map_to_list c).*1
|}.

Lemma toy_lru_laws : @LruLaws toy_lru.
Proof.
  split; cbn; try done.
  - intros V c k v k' w Hk. destruct (decide (k = k')) as [<-|Hne].
    + rewrite lookup_insert_eq in Hk. injection Hk as <-. by left.
    + rewrite lookup_insert_ne in Hk by done. by right.
  - intros V c k k'. case_decide as E; [subst; apply lookup_delete_eq|by apply lookup_delete_ne].
  - intros V c k. rewrite list_elem_of_fmap. split.
    + intros ([k' v] & -> & Hkv). apply elem_of_map_to_list in Hkv. eauto.
    + intros [v Hv]. exists (k, v). split; [done|]. by apply elem_of_map_to_list.
Qed.

#[local] Existing Instances toy_codec toy_laws toy_lru toy_lru_laws.

Definition toy_g : Header := toy_header 0 0 0.
Definition toy_h1 : Header := toy_header 1 1 5.
Definition toy_h2 : Header := toy_header 2 1006 8.

Definition toy_db : DB :=
  db_write (db_write ∅ (WriteHeader toy_g)) (WriteCanonicalHash (Header_Hash toy_g) 0).

Definition toy_hc0 : HeaderChain := mk_hc toy_db (Some toy_g) (Some toy_g) (Header_Hash toy_g) ∅ ∅.

Lemma toy_hc0_ok : hc_ok toy_hc0 toy_g.
Proof.
  destruct (genesis_chain_ok ∅ toy_g) as [Hs Hca]; [done| |done..|].
  - intros k [v Hv]. rewrite lookup_empty in Hv. discriminate.
  - split; [done|done|split; cbn; intros h x; rewrite lookup_empty; discriminate|done|].
    exists toy_g. split; [done|]. vm_compute. reflexivity.
Qed.

Lemma fresh_by_number db header :
  store_ok db -> ReadHeaderNumber db (Header_Hash header) = None ->
  forall n x, is_u64 n -> ReadHeader db (Header_Hash header) n = Some x -> x = header.
Proof.
  intros Hs E n x Hn Hx. pose proof (header_hash_ok header) as Hh.
  assert (ReadHeaderNumber db (Header_Hash header) = Some n)
    by (apply (so_number _ Hs); [done|]; eauto using ReadHeader_has). congruence.
Qed.

Lemma toy_h1_insertable : insertable (chainDb toy_hc0) toy_h1.
Proof.
  split; [done|done|done|vm_compute; eauto|]. apply fresh_by_number; [apply toy_hc0_ok|]. vm_compute. reflexivity.
Qed.

Lemma WriteHeader_keeps_chain_witness :
  exists status hc', hc_WriteHeader true toy_h1 toy_hc0 = Some (status, hc') /\ status = CanonStatTy /\ hc_ok hc' toy_h1.
Proof.
  destruct (WriteHeader_keeps_chain true toy_hc0 toy_g toy_h1 toy_hc0_ok toy_h1_insertable) as (st & hc' & E & _ & H).
  exists st, hc'. split; [exact E|]. exact H.
Defined.

(** The chain of genesis and one header. *)
Definition toy_hc1 : HeaderChain :=
  match hc_WriteHeader true toy_h1 toy_hc0 with Some (_, hc) => hc | None => toy_hc0 end.

Lemma toy_hc1_ok : hc_ok toy_hc1 toy_h1 /\ has (chainDb toy_hc1) 1 (Header_Hash toy_h1).
Proof.
  destruct (WriteHeader_spec true toy_hc0 toy_g toy_h1 toy_hc0_ok toy_h1_insertable) as (st & hc' & E & Hr & _ & Hok).
  unfold toy_hc1. rewrite E. cbv beta iota. split; [exact Hok|]. eapply ReadHeader_has.
  assert (Hu : is_u64 1) by (unfold is_u64; lia).
  pose proof (Hr 1 (Header_Hash toy_h1) Hu (header_hash_ok toy_h1)) as Hr1.
  rewrite decide_True in Hr1 by (split; reflexivity).
  exact Hr1.
Qed.

Lemma validated_run_is_inserted_witness :
  exists hc' head', InsertHeaderChain (fun _ => false) (write_callback (fun _ => false)) [toy_h1; toy_h2] toy_hc0 = Some ((O, None), hc') /\
    hc_ok hc' head'.
Proof.
  assert (Hrun : run_ok (chainDb toy_hc0) [toy_h1; toy_h2]).
  { split; [repeat constructor; done|apply (bool_decide_unpack _); vm_compute; exact I|].
    intros h n x Hh. apply elem_of_cons in Hh as [->|Hh]; [|apply list_elem_of_singleton in Hh as ->];
      apply fresh_by_number; try apply toy_hc0_ok; vm_compute; reflexivity. }
  destruct (validated_run_is_inserted (fun _ => 0) (fun _ _ _ => None) 1 (fun _ => false) toy_hc0 toy_g toy_h1 [toy_h2]
    toy_hc0_ok Hrun (in_parent _ _ toy_h1_insertable) eq_refl) as (hc' & head' & E & Hok & _).
  exists hc', head'. split; [exact E|exact Hok].
Defined.

Lemma GetAncestor_follows_parents_witness :
  exists anc left hc', GetAncestor (Header_Hash toy_h1) 1 1 1 toy_hc1 = Some ((anc, 0, left), hc') /\
    nth_parent (chainDb toy_hc1) (Header_Hash toy_h1) 1 1 = Some anc.
Proof.
  destruct toy_hc1_ok as [Hok Hhas].
  destruct (GetAncestor_follows_parents toy_hc1 toy_h1 (Header_Hash toy_h1) 1 1 1 1 Hok ltac:(done) Hhas ltac:(done)
    ltac:(done) ltac:(done) ltac:(done) (or_introl eq_refl)) as (anc & left & hc' & E & Hn & _).
  exists anc, left, hc'. split; [exact E|exact Hn].
Defined.

End ChainToy.
