(* ===== verification/HeaderRewind.v ===== *)
(** * Rewinding the header chain

    [SetHead] of [core/headerchain.go]: the loop that walks the head down, the
    deletions it collects, and the theorem that after the rewind nothing is
    stored above the new head while everything up to it is unchanged. *)
From stdpp Require Import gmap list sorting.
From Stdlib Require Import ZArith Lia.
From S2P Require Import Prelude Transaction RawDb HeaderChain HeaderChainSpec.

Local Open Scope Z_scope.

#[export] Instance db_op_eq_dec : EqDecision db_op.
Proof. solve_decision. Defined.

(** ** The hashes stored under a number *)

Lemma elem_of_ReadAllHashes (db : DB) n h :
  (forall k, is_Some (db !! k) -> Forall is_byte k) ->
  h ∈ ReadAllHashes db n <-> is_hash h /\ has db n h.
Proof.
  intros Hdb. unfold ReadAllHashes. rewrite (merge_sort_Permutation Z.le), list_elem_of_omap. split.
  - intros ([k v] & Hin & Hstep). apply elem_of_map_to_list in Hin. unfold all_hashes_step in Hstep. cbn [fst] in Hstep.
    destruct (bool_decide (take _ k = _)) eqn:E1; [|done]. destruct (bool_decide (List.length k = _)) eqn:E2; [|done].
    apply bool_decide_eq_true in E1, E2. injection Hstep as <-.
    set (p := headerKeyPrefix n) in *. rewrite E2, Nat.add_sub. set (t := drop (List.length p) k).
    assert (Ek : k = p ++ t) by (rewrite <- E1 at 1; symmetry; apply take_drop).
    assert (Ht : List.length t = 32%nat) by (unfold t; rewrite length_drop; lia).
    assert (Hb : Forall is_byte t) by (apply Forall_drop, Hdb; eauto).
    unfold BytesToHash. rewrite Ht, drop_0. split; [pose proof (be_int_range t Hb); by rewrite Ht in *|].
    unfold has, headerKey, hash_to_bytes. fold (headerKeyPrefix n). fold p.
    rewrite <- Ht at 1. rewrite be_bytes_be_int, <- Ek by done. eauto.
  - intros [Hh [v Hv]]. exists (headerKey n h, v). split; [by apply elem_of_map_to_list|].
    unfold all_hashes_step, headerKey. cbn [fst]. fold (headerKeyPrefix n).
    rewrite take_app_length. rewrite (bool_decide_true (_ = _)) by done.
    rewrite length_app. unfold hash_to_bytes at 1 2. rewrite length_be_bytes, bool_decide_true by done. cbn [andb].
    rewrite Nat.add_sub, drop_app_length. f_equal. by apply BytesToHash_to_bytes.
Qed.

(** ** Deletions *)

(** The operations of a rewind to [head]: deletions of records above it. *)
Definition dead_op (db : DB) (head : Z) (op : db_op) : Prop :=
  (exists n h, head < n /\ is_u64 n /\ is_hash h /\ has db n h /\
     (op = Delete (key_bytes (KHeader n h)) \/ op = Delete (key_bytes (KHeaderNumber h)))) \/
  (exists n, head < n /\ is_u64 n /\ op = Delete (key_bytes (KCanonical n))) \/ content_op op.

Lemma dead_op_key db head op :
  dead_op db head op -> content_op op \/ exists k, op = Delete (key_bytes k) /\ is_chain_key k /\ key_ok k.
Proof.
  intros [(n & h & _ & Hn & Hh & _ & [->| ->])|[(n & _ & Hn & ->)|H]]; [right; eexists; eauto..|by left];
    (split; [done|]); by repeat split; try apply Hn; try apply Hh.
Qed.

Lemma lookup_dead db0 head ops : forall (db : DB) k,
  Forall (dead_op db0 head) ops -> is_chain_key k -> key_ok k ->
  db_write db ops !! key_bytes k = if decide (Delete (key_bytes k) ∈ ops) then None else db !! key_bytes k.
Proof.
  induction ops as [|op ops IH]; intros db k Hall Hk Hok; [by rewrite decide_False by apply not_elem_of_nil|].
  apply Forall_cons in Hall as [Hop Hall].
  change (db_write db (op :: ops)) with (db_write (db_apply db op) ops). rewrite IH by done.
  destruct (decide (Delete (key_bytes k) ∈ ops)) as [Hin|Hnin]; [by rewrite decide_True by (by right)|].
  destruct (dead_op_key _ _ _ Hop) as [(k' & Hop' & Hok' & Hnk)|(k' & -> & Hk' & Hok')].
  - rewrite (lookup_other db op k' k) by (done || by intros ->).
    rewrite decide_False; [done|]. rewrite elem_of_cons. intros [E|]; [|done].
    destruct Hop' as [->|[v ->]]; [|done]. injection E as E. apply key_bytes_inj in E; [by subst|done..].
  - rewrite lookup_del by done. case_decide as E; [subst; by rewrite decide_True by left|].
    rewrite decide_False; [done|]. rewrite elem_of_cons. intros [Eb|]; [|done].
    injection Eb as Eb. by apply key_bytes_inj in Eb.
Qed.

Lemma delete_inj k k' : key_ok k -> key_ok k' -> Delete (key_bytes k) = Delete (key_bytes k') -> k = k'.
Proof. intros Hk Hk' E. injection E as E. by apply key_bytes_inj. Qed.

Section Rewind.
Context {codec : DbCodec} {laws : DbLaws} {lru : Lru} {lru_laws : LruLaws}.
Implicit Types (db : DB) (hc : HeaderChain).

(** ** The leftovers above the head *)

Lemma leftovers_run db (c : nat) : forall fuel n nums,
  0 <= n -> n + Z.of_nat c < 2 ^ 64 -> (c < fuel)%nat ->
  (forall k, n <= k < n + Z.of_nat c -> ReadAllHashes db k <> []) -> ReadAllHashes db (n + Z.of_nat c) = [] ->
  exists l, leftovers fuel db n nums = Some l /\ forall k, k ∈ l <-> k ∈ nums \/ n <= k < n + Z.of_nat c.
Proof.
  induction c as [|c IH]; intros [|fuel] n nums Hn Hc Hf Hne E; try lia; cbn [leftovers].
  - change (Z.of_nat 0) with 0 in *. rewrite Z.add_0_r in *. rewrite E. exists nums. split; [done|]. intros k. split; [by left|].
    intros [|]; [done|lia].
  - specialize (IH fuel (n + 1) (n :: nums)). pose proof (Hne n ltac:(lia)) as H0.
    destruct (ReadAllHashes db n) as [|h0 hs]; [done|]. rewrite u64_small by side.
    destruct IH as (l & -> & Hl); [lia..| | |].
    + intros k Hk. apply Hne. lia.
    + by replace (n + 1 + Z.of_nat c) with (n + Z.of_nat (S c)) by lia.
    + exists l. split; [done|]. intros k. rewrite Hl, elem_of_cons. split; [intros [[->|]|]|intros [|]]; try tauto; try lia.
Qed.

Lemma last_leftover db (f : nat) : forall n,
  store_ok db -> 0 <= n -> n + Z.of_nat f = 2 ^ 64 - 1 -> exists c : nat, n + Z.of_nat c <= 2 ^ 64 - 1 /\
    (forall k, n <= k < n + Z.of_nat c -> ReadAllHashes db k <> []) /\ ReadAllHashes db (n + Z.of_nat c) = [].
Proof.
  intros n Hs. revert n. induction f as [|f IH]; intros n Hn Hf.
  - exists O. split; [lia|]. split; [lia|]. change (Z.of_nat 0) with 0 in *. rewrite Z.add_0_r in *. subst n.
    destruct (ReadAllHashes db (2 ^ 64 - 1)) as [|h hs] eqn:E; [done|].
    assert (Hin : h ∈ ReadAllHashes db (2 ^ 64 - 1)) by (rewrite E; by left).
    apply elem_of_ReadAllHashes in Hin as [Hh Hhas]; [|apply Hs].
    destruct (so_stored db Hs (2 ^ 64 - 1) h) as (hdr & _ & _ & _ & _ & _ & _ & Hlt); [side|done|done|]. lia.
  - destruct (ReadAllHashes db n) as [|h hs] eqn:E.
    + exists O. change (Z.of_nat 0) with 0. rewrite Z.add_0_r. split; [lia|]. split; [lia|done].
    + destruct (IH (n + 1)) as (c & H1 & H2 & H3); [lia..|]. exists (S c). split; [lia|]. split.
      * intros k Hk. destruct (decide (k = n)) as [->|]; [by rewrite E|]. apply H2. lia.
      * by replace (n + Z.of_nat (S c)) with (n + 1 + Z.of_nat c) by lia.
Qed.

(** The leftovers are all the numbers above the head that have headers. *)
Lemma leftovers_spec db n :
  store_ok db -> 0 <= n < 2 ^ 64 - 1 -> exists l, leftovers (size db + 2) db (u64 (n + 1)) [] = Some l /\
    (forall k, k ∈ l -> n < k /\ is_u64 k /\ ReadAllHashes db k <> []) /\
    (forall k h, n < k -> is_u64 k -> is_hash h -> has db k h -> k ∈ l).
Proof.
  intros Hs Hn. rewrite u64_small by side.
  destruct (last_leftover db (Z.to_nat (2 ^ 64 - 1 - (n + 1))) (n + 1)) as (c & Hc & Hne & E); [done|lia..|].
  assert (Hsize : (c <= size db)%nat).
  { apply (keys_le_size (fun i => headerKey (n + 1 + Z.of_nat i) (nth 0 (ReadAllHashes db (n + 1 + Z.of_nat i)) 0))).
    - intros i Hi. pose proof (Hne (n + 1 + Z.of_nat i) ltac:(lia)) as H0.
      apply (elem_of_ReadAllHashes db (n + 1 + Z.of_nat i)); [apply Hs|].
      destruct (ReadAllHashes db (n + 1 + Z.of_nat i)); [done|by left].
    - intros i j Hi Hj Ek. unfold headerKey in Ek. apply app_inj_2 in Ek as [Ek _]; [|unfold hash_to_bytes; by rewrite !length_be_bytes].
      apply app_inv_head in Ek. apply encodeBlockNumber_inj in Ek; [lia|side..]. }
  destruct (leftovers_run db c (size db + 2) (n + 1) []) as (l & El & Hl); [lia..|done|done|].
  exists l. split; [done|]. split.
  - intros k Hk. apply Hl in Hk as [Hk|Hk]; [by apply not_elem_of_nil in Hk|]. split; [lia|]. split; [side|by apply Hne].
  - intros k h Hk Hu Hh Hhas. apply Hl. right. split; [lia|]. destruct (decide (k < n + 1 + Z.of_nat c)) as [|Hge]; [done|exfalso].
    destruct (ancestry_exists db (Z.to_nat k) h) as (A & _ & HA & _); rewrite ?Z2Nat.id in * by (unfold is_u64 in *; lia); try done.
    destruct (HA (n + 1 + Z.of_nat c)) as (Hh' & _ & hdr & Hr & _); [lia|].
    assert (Hin : A (n + 1 + Z.of_nat c) ∈ ReadAllHashes db (n + 1 + Z.of_nat c))
      by (apply elem_of_ReadAllHashes; [apply Hs|]; eauto using ReadHeader_has).
    rewrite E in Hin. by apply not_elem_of_nil in Hin.
Qed.

(** ** The loop *)

(** The callbacks write block contents and markers of their own, never the
    records of the header chain, and do not force a lower head. *)
Context (updateFn : option (Header -> list db_op * Z * bool)) (delFn : option (Z -> Z -> list db_op)).

Definition callbacks_ok : Prop :=
  (forall f p, updateFn = Some f -> Forall content_op (fst (fst (f p))) /\ snd (f p) = false) /\
  (forall f h n, delFn = Some f -> is_hash h -> is_u64 n -> Forall content_op (f h n)).

(** All records of number [n] are deleted. *)
Definition wiped db (ops : list db_op) (n : Z) : Prop :=
  Delete (key_bytes (KCanonical n)) ∈ ops /\
  forall h, is_hash h -> has db n h ->
    Delete (key_bytes (KHeader n h)) ∈ ops /\ Delete (key_bytes (KHeaderNumber h)) ∈ ops.

Lemma wiped_mono db ops ops' n : (forall op, op ∈ ops -> op ∈ ops') -> wiped db ops n -> wiped db ops' n.
Proof. intros Hsub [H1 H2]. split; [auto|]. intros h Hh Hhas. destruct (H2 h Hh Hhas). auto. Qed.

Lemma delete_number_spec db0 db hdr head num :
  callbacks_ok -> store_ok db -> chain_agree db0 db -> head < num -> is_u64 num -> ReadAllHashes db num <> [] ->
  Forall (dead_op db0 head) (delete_number delFn db hdr num) /\ wiped db0 (delete_number delFn db hdr num) num.
Proof.
  intros [_ Hdel] Hs Ha Hlt Hu Hne. unfold delete_number, wiped.
  assert (Hmem : forall h, h ∈ ReadAllHashes db num <-> is_hash h /\ has db num h)
    by (intros h; apply elem_of_ReadAllHashes, Hs).
  destruct (ReadAllHashes db num) as [|h0 hs]; [done|]. set (hashes := h0 :: hs) in *. clearbody hashes. split.
  - apply Forall_app. split; [|constructor; [right; left; by exists num|constructor]].
    apply Forall_forall. intros op Hop. apply list_elem_of_join in Hop as (l & Hop & Hl).
    apply list_elem_of_fmap in Hl as (h & -> & Hin). apply Hmem in Hin as [Hh Hhas].
    rewrite (agree_has db0 db) in Hhas by done. apply elem_of_app in Hop as [Hop|Hop].
    + right. right. destruct delFn as [f|]; [|by apply not_elem_of_nil in Hop].
      by apply (proj1 (Forall_forall _ _) (Hdel f h num eq_refl Hh Hu)).
    + left. exists num, h. split_and!; try done. unfold DeleteHeader, deleteHeaderWithoutNumber in Hop. set_solver.
  - split; [apply elem_of_app; right; by left|]. intros h Hh Hhas. rewrite <- (agree_has db0 db) in Hhas by done.
    assert (Hin : h ∈ hashes) by (by apply Hmem).
    assert (Hsub : forall op, op ∈ DeleteHeader h num -> op ∈ mjoin ((fun hash =>
      match delFn with Some f => f hash num | None => [] end ++ DeleteHeader hash num) <$> hashes) ++ DeleteCanonicalHash num).
    { intros op Hop. apply elem_of_app. left. apply list_elem_of_join. eexists. split; [apply elem_of_app; right; exact Hop|].
      apply list_elem_of_fmap. by exists h. }
    split; apply Hsub; unfold DeleteHeader, deleteHeaderWithoutNumber; set_solver.
Qed.

Record rewinding db0 (m : Z) hc (hdr : Header) : Prop := {
  rw_agree : chain_agree db0 (chainDb hc);
  rw_store : store_ok (chainDb hc);
  rw_caches : caches_ok hc;
  rw_current : currentHeader hc = Some hdr;
  rw_hash : currentHeaderHash hc = ReadCanonicalHash db0 m;
  rw_read : ReadHeader db0 (ReadCanonicalHash db0 m) m = Some hdr
}.

(** Writing content and moving the current header keeps the loop's invariant. *)
Lemma rewinding_write db0 m hc hdr ops hash :
  Forall content_op ops -> chain_agree db0 (chainDb hc) -> store_ok (chainDb hc) -> caches_ok hc ->
  hash = ReadCanonicalHash db0 m -> ReadHeader db0 (ReadCanonicalHash db0 m) m = Some hdr ->
  rewinding db0 m (set_current hdr hash (set_chainDb (db_write (chainDb hc) ops) hc)) hdr.
Proof.
  intros Hops Ha Hs Hc -> Hr. pose proof (content_agree (chainDb hc) ops Hops) as Ha'.
  assert (Hs' : store_ok (db_write (chainDb hc) ops)).
  { eapply store_ok_agree; [done..|]. apply db_write_bytes; [|apply Hs]. eapply Forall_impl; [exact Hops|].
    intros op (k & H & _). eauto. }
  split; cbn [chainDb set_current set_chainDb currentHeader currentHeaderHash]; try done; [by etrans|].
  assert (Hg : caches_ok (set_chainDb (db_write (chainDb hc) ops) hc)); [|split; apply Hg].
  apply caches_ok_grow; try done. intros n h x Hn Hh Hx. by rewrite (agree_header (chainDb hc)).
Qed.

(** The outcome of the update callback under its contract. *)
Lemma update_outcome parent head :
  callbacks_ok -> exists ops, Forall content_op ops /\
    match updateFn with
    | None => ([], head)
    | Some f => let '(ops, newHead, force) := f parent in (ops, if (force : bool) && (newHead <? head) then newHead else head)
    end = (ops, head).
Proof.
  intros [Hup _]. destruct updateFn as [f|]; [|by exists []]. destruct (Hup f parent eq_refl) as [H1 H2].
  destruct (f parent) as [[ops nh] force]. cbn in H1, H2. subst force. by exists ops.
Qed.

Lemma ReadAllHashes_nonempty db n h : store_ok db -> is_hash h -> has db n h -> ReadAllHashes db n <> [].
Proof.
  intros Hs Hh Hhas E. assert (Hin : h ∈ ReadAllHashes db n) by (apply elem_of_ReadAllHashes; [apply Hs|done]).
  rewrite E in Hin. by apply not_elem_of_nil in Hin.
Qed.

(** The extra numbers of the first turn. *)
Lemma leftover_nums db0 db m hc (origin : bool) :
  chainDb hc = db -> chain_agree db0 db -> store_ok db -> 0 <= m < 2 ^ 64 - 1 ->
  exists nums, (if origin then mlift (leftovers (loop_fuel hc) db (u64 (m + 1)) []) else mret []) hc = Some (nums, hc) /\
    (forall k, k ∈ nums -> m < k /\ is_u64 k /\ ReadAllHashes db k <> []) /\
    (origin = true -> forall n h, m < n -> is_u64 n -> is_hash h -> has db0 n h -> n ∈ nums).
Proof.
  intros E Ha Hs Hm. destruct origin; [|exists []; split; [done|]; split; [intros k Hk; by apply not_elem_of_nil in Hk|done]].
  destruct (leftovers_spec db m Hs Hm) as (l & El & Hl1 & Hl2). exists l. unfold loop_fuel. rewrite E, El. split; [done|].
  split; [done|]. intros _ n h Hn Hu Hh Hhas. eapply Hl2; try done. by apply (agree_has db0).
Qed.

Lemma delete_numbers_spec db0 db hdr head nums :
  callbacks_ok -> chain_agree db0 db -> store_ok db ->
  (forall k, k ∈ nums -> head < k /\ is_u64 k /\ ReadAllHashes db k <> []) ->
  Forall (dead_op db0 head) (mjoin (delete_number delFn db hdr <$> nums)) /\
  forall k, k ∈ nums -> wiped db0 (mjoin (delete_number delFn db hdr <$> nums)) k.
Proof.
  intros Hcb Ha Hs Hnums. split.
  - apply Forall_forall. intros op Hop. apply list_elem_of_join in Hop as (l & Hop & Hl).
    apply list_elem_of_fmap in Hl as (k & -> & Hk). destruct (Hnums k Hk) as (H1 & H2 & H3).
    destruct (delete_number_spec db0 db hdr head k) as [Hd _]; [done..|]. by apply (proj1 (Forall_forall _ _) Hd).
  - intros k Hk. destruct (Hnums k Hk) as (H1 & H2 & H3).
    destruct (delete_number_spec db0 db hdr head k) as [_ Hw]; [done..|]. eapply wiped_mono; [|exact Hw].
    intros op Hop. apply list_elem_of_join. eexists. split; [exact Hop|]. apply list_elem_of_fmap. by exists k.
Qed.

(** The head moves to the parent: the header that is read, what is written, and
    the numbers whose records go. *)
Record head_step db0 (head m : Z) hc hdr (origin : bool) (y : Header) hc1 hc2 (mops : list db_op) (nums : list Z) : Prop := {
  hs_number : Number hdr = m;
  hs_parent : ParentHash hdr = ReadCanonicalHash db0 (m - 1);
  hs_get : GetHeader (ParentHash hdr) (m - 1) hc = Some (Some y, hc1);
  hs_same : same_chain hc hc1;
  hs_update : match updateFn with
    | None => ([], head)
    | Some f => let '(ops, newHead, force) := f y in (ops, if (force : bool) && (newHead <? head) then newHead else head)
    end = (mops, head);
  hs_after : hc2 = set_current y (ParentHash hdr)
    (set_chainDb (db_write (chainDb hc1) (mops ++ WriteHeadHeaderHash (ParentHash hdr))) hc1);
  hs_rewinding : rewinding db0 (m - 1) hc2 y;
  hs_nums : (if origin then mlift (leftovers (loop_fuel hc2) (chainDb hc2) (u64 (m + 1)) []) else mret []) hc2 = Some (nums, hc2);
  hs_above : forall k, k ∈ nums ++ [m] -> head < k /\ is_u64 k /\ ReadAllHashes (chainDb hc2) k <> [];
  hs_all : origin = true -> forall n h, m < n -> is_u64 n -> is_hash h -> has db0 n h -> n ∈ nums
}.

Lemma head_step_exists db0 old head m hc hdr (origin : bool) :
  callbacks_ok -> store_ok db0 -> canon_ok db0 old -> rewinding db0 m hc hdr -> 0 <= head < m -> m <= Number old ->
  exists y hc1 hc2 mops nums, head_step db0 head m hc hdr origin y hc1 hc2 mops nums.
Proof.
  intros Hcb Hs0 Hca Hrw Hhead Hm. pose proof (ca_range _ _ Hca) as HN. destruct (Hrw) as [Ha Hs Hc Ecur Ehash Hr].
  destruct (ca_below _ _ Hca m) as (x & Hrx & Hh & Hp); [lia|]. rewrite Hr in Hrx. injection Hrx as <-. specialize (Hp ltac:(lia)).
  destruct (stored_read db0 m _ hdr Hs0 ltac:(side) Hh Hr) as (_ & _ & Enum & _).
  destruct (ca_below _ _ Hca (m - 1)) as (y & Hry & Hhy & _); [lia|].
  destruct (GetHeader_spec hc (ReadCanonicalHash db0 (m - 1)) (m - 1)) as (y' & hc1 & Eg & Hy' & Hsame & Hc1);
    [done|done|done|side|apply (agree_has db0); [done|side|done|by eapply ReadHeader_has]|].
  destruct Hy' as (Hy' & _). rewrite (agree_header db0), Hry in Hy' by side. injection Hy' as <-.
  destruct (update_outcome y head Hcb) as (mops & Hmops & Eup). destruct (Hsame) as (Edb & Egen & _).
  set (hc2 := set_current y (ParentHash hdr)
    (set_chainDb (db_write (chainDb hc1) (mops ++ WriteHeadHeaderHash (ParentHash hdr))) hc1)).
  assert (Hrw2 : rewinding db0 (m - 1) hc2 y).
  { apply rewinding_write; rewrite ?Edb; try done. apply Forall_app. split; [done|]. constructor; [|constructor].
    exists (KNamed NHeadHeader). split; [right; by eexists|]. split; [done|intros []]. }
  destruct (leftover_nums db0 (chainDb hc2) m hc2 origin) as (nums & Enums & Hn1 & Hn2); [done|apply Hrw2..|lia|].
  exists y, hc1, hc2, mops, nums. split; try done; [by rewrite Hp|]. intros k Hk.
  apply elem_of_app in Hk as [Hk|Hk]; [destruct (Hn1 k Hk) as (? & ? & ?); split; [lia|done]|].
  apply list_elem_of_singleton in Hk as ->. split; [lia|]. split; [side|].
  apply (ReadAllHashes_nonempty _ _ (ReadCanonicalHash db0 m)); [apply Hrw2|done|].
  apply (agree_has db0); [apply Hrw2|side|done|by eapply ReadHeader_has].
Qed.

(** One turn of the loop, by the step. *)
Lemma head_step_run db0 head m hc hdr fuel batch origin y hc1 hc2 mops nums :
  head_step db0 head m hc hdr origin y hc1 hc2 mops nums -> 0 <= head < m -> is_u64 m -> currentHeader hc = Some hdr ->
  set_head_loop updateFn delFn (S fuel) head batch origin hc
    = set_head_loop updateFn delFn fuel head (batch ++ mjoin (delete_number delFn (chainDb hc2) hdr <$> (nums ++ [m]))) false hc2.
Proof.
  intros [Enum Hp Eg Hsame Eup E2 _ Enums _ _] Hhead Hm Ecur.
  cbn [set_head_loop]. unfold CurrentHeader. rewrite (run_bind _ _ hc hdr hc) by (rewrite run_get, Ecur; done).
  cbv zeta. rewrite Enum, big_uint64_small, (proj2 (Z.leb_gt m head)), (u64_small (m - 1)) by side.
  rewrite (run_bind _ _ _ _ _ Eg), run_get, (run_lift _ _ _ y eq_refl), Eup. cbv iota beta.
  unfold hc_write. rewrite !run_modify, run_get. rewrite <- E2. by rewrite (run_bind _ _ _ _ _ Enums).
Qed.

(** One turn of the loop at number [m] above the new head. *)
Lemma set_head_turn db0 old head m hc hdr fuel batch (origin : bool) :
  callbacks_ok -> store_ok db0 -> canon_ok db0 old -> rewinding db0 m hc hdr -> 0 <= head < m -> m <= Number old ->
  exists hc' hdr' ops, set_head_loop updateFn delFn (S fuel) head batch origin hc
      = set_head_loop updateFn delFn fuel head (batch ++ ops) false hc' /\
    rewinding db0 (m - 1) hc' hdr' /\ genesisHeader hc' = genesisHeader hc /\
    Forall (dead_op db0 head) ops /\ wiped db0 ops m /\
    (origin = true -> forall n h, m < n -> is_u64 n -> is_hash h -> has db0 n h -> wiped db0 ops n).
Proof.
  intros Hcb Hs0 Hca Hrw Hhead Hm. pose proof (ca_range _ _ Hca) as HN.
  destruct (head_step_exists db0 old head m hc hdr origin) as (y & hc1 & hc2 & mops & nums & Hst); [done..|].
  exists hc2, y. eexists. split; [eapply head_step_run; [exact Hst|done|side|apply Hrw]|].
  destruct Hst as [Enum Hp Eg (_ & Egen & _) Eup E2 Hrw2 Enums Habove Hmem]. split; [done|]. split; [by rewrite E2|].
  destruct (delete_numbers_spec db0 (chainDb hc2) hdr head (nums ++ [m])) as [Hd Hw]; [done|apply Hrw2..|done|].
  split; [done|]. split; [apply Hw; set_solver|]. intros Ho n h Hn Hu Hh' Hhas. apply Hw. apply elem_of_app. left. by eapply Hmem.
Qed.

Lemma set_head_loop_run db0 old head (d : nat) : forall fuel hc hdr batch (origin : bool),
  callbacks_ok -> store_ok db0 -> canon_ok db0 old -> 0 <= head -> head + Z.of_nat d <= Number old ->
  rewinding db0 (head + Z.of_nat d) hc hdr -> (d < fuel)%nat ->
  exists hc' hdr' ops, set_head_loop updateFn delFn fuel head batch origin hc = Some (batch ++ ops, hc') /\
    rewinding db0 head hc' hdr' /\ genesisHeader hc' = genesisHeader hc /\ Forall (dead_op db0 head) ops /\
    (forall n, head < n <= head + Z.of_nat d -> wiped db0 ops n) /\
    (origin = true -> (0 < d)%nat -> forall n h, head + Z.of_nat d < n -> is_u64 n -> is_hash h -> has db0 n h -> wiped db0 ops n).
Proof.
  induction d as [|d IH]; intros [|fuel] hc hdr batch origin Hcb Hs0 Hca Hh Hd Hrw Hf; try lia.
  - change (Z.of_nat 0) with 0 in *. rewrite Z.add_0_r in *. exists hc, hdr, []. rewrite app_nil_r.
    destruct (ca_below _ _ Hca head) as (_ & _ & Hhash & _); [lia|]. pose proof (ca_range _ _ Hca).
    destruct (stored_read db0 head _ hdr Hs0 ltac:(side) Hhash (rw_read _ _ _ _ Hrw)) as (_ & _ & Enum & _).
    split; [|split; [done|]; split; [done|]; split; [constructor|]; split; lia].
    cbn [set_head_loop]. unfold CurrentHeader.
    rewrite (run_bind _ _ hc hdr hc) by (rewrite run_get, (rw_current _ _ _ _ Hrw); done).
    cbv zeta. by rewrite Enum, big_uint64_small, Z.leb_refl by side.
  - destruct (set_head_turn db0 old head (head + Z.of_nat (S d)) hc hdr fuel batch origin)
      as (hc1 & hdr1 & ops1 & E1 & Hrw1 & Eg1 & Hd1 & Hw1 & Hl1); [done..|lia|lia|].
    destruct (IH fuel hc1 hdr1 (batch ++ ops1) false) as (hc2 & hdr2 & ops2 & E2 & Hrw2 & Eg2 & Hd2 & Hw2 & _); try done; try lia.
    { by replace (head + Z.of_nat d) with (head + Z.of_nat (S d) - 1) by lia. }
    exists hc2, hdr2, (ops1 ++ ops2). rewrite E1, E2, app_assoc. split; [done|]. split; [done|]. split; [congruence|].
    split; [by apply Forall_app|]. split.
    + intros n Hn. destruct (decide (n = head + Z.of_nat (S d))) as [->|].
      * eapply wiped_mono; [|exact Hw1]. set_solver.
      * eapply wiped_mono; [|apply Hw2; lia]. set_solver.
    + intros Ho _ n h Hn Hu Hh' Hhas. eapply wiped_mono; [|by eapply Hl1]. set_solver.
Qed.

(** ** The database after the rewind *)

Section After.
Context (db0 db : DB) (old : Header) (head : Z) (ops : list db_op).
Context (Hs0 : store_ok db0) (Hca : canon_ok db0 old) (Hhead : 0 <= head < Number old) (Ha : chain_agree db0 db).
Context (Hbytes : forall k, is_Some (db !! k) -> Forall is_byte k) (Hdead : Forall (dead_op db0 head) ops).
Context (Hall : forall n, head < n <= Number old -> wiped db0 ops n).
Context (Habove : forall n h, Number old < n -> is_u64 n -> is_hash h -> has db0 n h -> wiped db0 ops n).

Lemma dead_keys k :
  Delete (key_bytes k) ∈ ops -> is_chain_key k -> key_ok k ->
  match k with
  | KHeader n h => head < n
  | KHeaderNumber h => exists n, head < n /\ is_u64 n /\ has db0 n h
  | KCanonical n => head < n
  | _ => True
  end.
Proof.
  intros Hin Hk Hok. destruct (proj1 (Forall_forall _ _) Hdead _ Hin) as
    [(n & h & Hn & Hu & Hh & Hhas & [E|E])|[(n & Hn & Hu & E)|(k' & Hop & Hok' & Hnk)]].
  - apply delete_inj in E; [by subst|done..].
  - apply delete_inj in E; [subst; eauto|done..].
  - apply delete_inj in E; [by subst|done..].
  - destruct Hop as [E|[v E]]; [|done]. apply delete_inj in E; [by subst|done..].
Qed.

Lemma header_wiped n h : head < n -> is_u64 n -> is_hash h -> has db0 n h -> wiped db0 ops n.
Proof. intros Hn Hu Hh Hhas. destruct (decide (n <= Number old)); [apply Hall; lia|]. apply (Habove n h); [lia|done..]. Qed.

Lemma after_lookup_header n h :
  is_u64 n -> is_hash h ->
  db_write db ops !! headerKey n h = if decide (n <= head) then db0 !! headerKey n h else None.
Proof.
  intros Hn Hh. change (headerKey n h) with (key_bytes (KHeader n h)).
  rewrite (lookup_dead db0 head) by done. rewrite (Ha (KHeader n h)) by done.
  destruct (decide (Delete (key_bytes (KHeader n h)) ∈ ops)) as [Hin|Hnin].
  - pose proof (dead_keys (KHeader n h) Hin I (conj Hn Hh)) as Hlt. cbv beta iota in Hlt. by rewrite decide_False by lia.
  - case_decide as E; [done|]. destruct (db0 !! key_bytes (KHeader n h)) eqn:El; [|done]. destruct Hnin.
    assert (Hhas : has db0 n h) by (unfold has; change (headerKey n h) with (key_bytes (KHeader n h)); by rewrite El).
    destruct (header_wiped n h) as [_ Hw]; [lia|done..|]. by apply Hw.
Qed.

Lemma after_header n h :
  is_u64 n -> is_hash h -> ReadHeader (db_write db ops) h n = if decide (n <= head) then ReadHeader db0 h n else None.
Proof.
  intros Hn Hh. unfold ReadHeader, ReadHeaderRLP, Get. rewrite after_lookup_header by done. by case_decide.
Qed.

Lemma after_has n h : is_u64 n -> is_hash h -> has (db_write db ops) n h <-> n <= head /\ has db0 n h.
Proof.
  intros Hn Hh. unfold has. rewrite after_lookup_header by done. case_decide; [tauto|].
  split; [intros [? ?]; discriminate|lia].
Qed.

Lemma after_canon n : is_u64 n ->
  ReadCanonicalHash (db_write db ops) n = if decide (n <= head) then ReadCanonicalHash db0 n else 0.
Proof.
  intros Hn. unfold ReadCanonicalHash at 1, Get. change (headerHashKey n) with (key_bytes (KCanonical n)).
  rewrite (lookup_dead db0 head) by done. destruct (decide (Delete (key_bytes (KCanonical n)) ∈ ops)) as [Hin|Hnin].
  - pose proof (dead_keys (KCanonical n) Hin I Hn) as Hlt. cbv beta iota in Hlt. by rewrite decide_False by lia.
  - rewrite (Ha (KCanonical n)) by done. case_decide as E; [done|].
    change (ReadCanonicalHash db0 n = 0). apply (ca_above _ _ Hca). split; [|by destruct Hn].
    destruct (decide (n <= Number old)); [|lia]. destruct Hnin. apply Hall. lia.
Qed.

Lemma after_number h n : is_hash h -> ReadHeaderNumber (db_write db ops) h = Some n <-> is_u64 n /\ has (db_write db ops) n h.
Proof.
  intros Hh. unfold ReadHeaderNumber at 1, read_number, Get. change (headerNumberKey h) with (key_bytes (KHeaderNumber h)).
  rewrite (lookup_dead db0 head) by done. destruct (decide (Delete (key_bytes (KHeaderNumber h)) ∈ ops)) as [Hin|Hnin].
  - split; [discriminate|]. intros [Hu Hhas]. apply after_has in Hhas as [Hle Hhas]; [|done..].
    destruct (dead_keys (KHeaderNumber h) Hin I Hh) as (n' & Hlt & Hu' & Hhas').
    pose proof (has_number_unique db0 h n n' Hs0 Hh Hu Hu' Hhas Hhas'). lia.
  - rewrite (Ha (KHeaderNumber h)) by done. change (ReadHeaderNumber db0 h = Some n <-> is_u64 n /\ has (db_write db ops) n h).
    rewrite (so_number db0 Hs0 h n Hh). split; intros [Hu Hhas]; (split; [done|]).
    + apply after_has; [done..|]. split; [|done]. destruct (decide (n <= head)) as [|Hgt]; [done|]. destruct Hnin.
      destruct (header_wiped n h) as [_ Hw]; [lia|done..|]. by apply (Hw h).
    + by apply after_has in Hhas as [_ Hhas].
Qed.

Lemma after_store_ok : store_ok (db_write db ops).
Proof.
  pose proof (ca_range _ _ Hca) as HN. split.
  - apply db_write_bytes; [|done]. eapply Forall_impl; [exact Hdead|]. intros op Hop.
    destruct (dead_op_key _ _ _ Hop) as [(k & Hk & _)|(k & -> & _)]; [eauto|]. exists k. by left.
  - intros n h Hn Hh Hhas. apply after_has in Hhas as [Hle Hhas]; [|done..].
    destruct (so_stored db0 Hs0 n h Hn Hh Hhas) as (hdr & H1 & H2 & H3 & H4 & H5 & H6 & H7). exists hdr. unfold stored_ok.
    rewrite after_header, decide_True, after_canon, decide_True by side. split_and!; try done.
    intros Hn0. apply after_has; [side..|]. split; [lia|by apply H5].
  - intros h n. apply after_number.
Qed.

Lemma after_canon_ok new :
  ReadHeader db0 (ReadCanonicalHash db0 head) head = Some new -> canon_ok (db_write db ops) new.
Proof.
  intros Hr. pose proof (ca_range _ _ Hca) as HN. destruct (ca_below _ _ Hca head) as (_ & _ & Hh & _); [lia|].
  destruct (stored_read db0 head _ new Hs0 ltac:(side) Hh Hr) as (_ & Ehash & Enum & _). split; rewrite ?Enum, ?Ehash.
  - lia.
  - rewrite after_header, decide_True, after_canon, decide_True by side. done.
  - intros n Hn. destruct (ca_below _ _ Hca n) as (hdr & H1 & H2 & H3); [lia|]. exists hdr.
    rewrite after_canon, decide_True, after_header, decide_True by side. split; [done|]. split; [done|]. intros Hn0.
    rewrite after_canon, decide_True by side. by apply H3.
  - intros n Hn. by rewrite after_canon, decide_False by side.
Qed.
End After.

Lemma SetHead_spec hc old head :
  callbacks_ok -> hc_ok hc old -> 0 <= head < Number old ->
  exists hc' new, SetHead updateFn delFn head hc = Some (tt, hc') /\ hc_ok hc' new /\ Number new = head /\
    Header_Hash new = ReadCanonicalHash (chainDb hc) head /\
    (forall n, is_u64 n -> ReadCanonicalHash (chainDb hc') n = if decide (n <= head) then ReadCanonicalHash (chainDb hc) n else 0) /\
    forall n h, is_u64 n -> is_hash h ->
      ReadHeader (chainDb hc') h n = if decide (n <= head) then ReadHeader (chainDb hc) h n else None.
Proof.
  intros Hcb Hok Hhead. destruct (Hok) as [Hs Hca Hc [Ecur Ehash] (g & Eg & Hg)]. pose proof (ca_range _ _ Hca) as HN.
  pose proof (canonical_is_ancestry _ _ Hs Hca) as Hanc. destruct (ca_head _ _ Hca) as [Hr Hcan].
  set (d := Z.to_nat (Number old - head)). assert (Ed : head + Z.of_nat d = Number old) by lia.
  destruct (set_head_loop_run (chainDb hc) old head d (loop_fuel hc) hc old [] true)
    as (hc1 & new & ops & E1 & Hrw & Eg1 & Hdead & Hall & Habove); [done..|lia|lia| | |].
  { rewrite Ed. split; try done; congruence. }
  { unfold loop_fuel. pose proof (branch_le_size _ _ _ d Hanc). lia. }
  rewrite Ed in *. specialize (Habove eq_refl ltac:(lia)).
  destruct Hrw as [Ha Hs1 Hc1 Ecur1 Ehash1 Hrn]. destruct (ca_below _ _ Hca head) as (_ & _ & Hh & _); [lia|].
  destruct (stored_read _ head _ new Hs ltac:(side) Hh Hrn) as (_ & En1 & En2 & _).
  unfold SetHead. rewrite run_get, (run_bind _ _ _ _ _ E1). unfold hc_write. rewrite !run_modify.
  pose proof (so_bytes _ Hs1) as Hb. eexists _, new. split; [reflexivity|]. cbn [app].
  split; [|split; [done|]; split; [done|]; split; [intros n Hn; by apply (after_canon (chainDb hc) (chainDb hc1) old head ops)|];
    intros n h Hn Hh'; by apply (after_header (chainDb hc) (chainDb hc1) old head ops)].
  destruct (ca_below _ _ Hca 0) as (_ & _ & Hh0 & _); [lia|].
  split; cbn [chainDb set_headerCache set_numberCache set_chainDb currentHeader currentHeaderHash genesisHeader].
  - by apply (after_store_ok (chainDb hc) (chainDb hc1) old head ops).
  - by apply (after_canon_ok (chainDb hc) (chainDb hc1) old head ops).
  - split; intros h x; cbn; rewrite Purge_empty; discriminate.
  - split; [done|congruence].
  - exists g. split; [congruence|]. rewrite (after_canon (chainDb hc) (chainDb hc1) old head ops), decide_True by (done || side).
    by rewrite (after_header (chainDb hc) (chainDb hc1) old head ops), decide_True by (done || side).
Qed.

(** A rewind to a number below the head ends, and leaves exactly the old
    headers up to that number: the new head is the old canonical header there,
    nothing is stored above it on any branch, and the chain is again linked from
    genesis to its head with indexes and caches agreeing. *)
Theorem SetHead_removes_everything_above hc old head :
  callbacks_ok -> hc_ok hc old -> 0 <= head < Number old ->
  exists hc' new, SetHead updateFn delFn head hc = Some (tt, hc') /\ hc_ok hc' new /\ Number new = head /\
    Header_Hash new = ReadCanonicalHash (chainDb hc) head /\
    forall n h, is_u64 n -> is_hash h ->
      ReadHeader (chainDb hc') h n = if decide (n <= head) then ReadHeader (chainDb hc) h n else None.
Proof.
  intros Hcb Hok Hhead. destruct (SetHead_spec hc old head Hcb Hok Hhead) as (hc' & new & H1 & H2 & H3 & H4 & _ & H5). eauto 10.
Qed.

End Rewind.

(** ** Concrete rewind *)

Module RewindToy.
Import DbToy ChainToy.

Lemma SetHead_removes_everything_above_witness :
  exists hc' new, @SetHead toy_codec toy_lru None None 0 toy_hc1 = Some (tt, hc') /\
    @hc_ok toy_codec toy_lru hc' new /\ Number new = 0.
Proof.
  assert (Hcb : callbacks_ok None None) by (split; discriminate). destruct toy_hc1_ok as [Hok _].
  destruct (@SetHead_removes_everything_above toy_codec toy_laws toy_lru toy_lru_laws None None toy_hc1 toy_h1 0 Hcb Hok
    ltac:(done)) as (hc' & new & E & Hok' & En & _).
  exists hc', new. split; [exact E|]. split; [exact Hok'|exact En].
Defined.

End RewindToy.
