(* ===== verification/Genesis.v ===== *)
(** * Genesis

    Models [core/genesis.go]: the genesis specification, the block built from
    it, its commit and [SetupGenesisBlock].  The state database is geth's and a
    parameter: the root of an allocation, the records written for it and whether
    the state of a root can be opened.  Shown: a committed genesis opens as a
    header chain whose head is the genesis header, and setting up a database that
    already has a genesis never returns when a specification is given. *)
From stdpp Require Import gmap list.
From Stdlib Require Import ZArith Lia String.
From S2P Require Import Prelude Transaction RawDb HeaderChain HeaderChainSpec.

Local Open Scope Z_scope.

(** [params.ChainConfig] has no fields. *)
Definition ChainConfig : Type := ().
Definition DefaultChainConfig : ChainConfig := tt.

Definition EmptyRootHash : Z := 39309028074332508661983559455579427211983204215636056653337583610388178777121.

Record GenesisAccount : Type := mk_account {
  Code : list Z;
  Storage : gmap Z Z;
  acc_ShardID : Z;
  Balance : Z;
  acc_Nonce : Z;
  acc_PrivateKey : list Z
}.

Abbreviation GenesisAlloc := (gmap Z GenesisAccount).

Record Genesis : Type := mk_genesis {
  Config : option ChainConfig;
  g_Nonce : Z;
  g_ShardID : Z;
  Timestamp : Z;
  ExtraData : list Z;
  g_GasLimit : Z;
  Difficulty : Z;
  Mixhash : Z;
  Coinbase : Z;
  Alloc : GenesisAlloc;
  g_Number : Z;
  g_GasUsed : Z;
  g_ParentHash : Z
}.

(** The state database, JSON and the decoded default allocation: address,
    balance and shard. *)
Class StateDb : Type := {
  IntermediateRoot : GenesisAlloc -> Z;
  state_ops : GenesisAlloc -> list db_op;
  state_New : DB -> Z -> bool;
  unmarshal_config : list Z -> option ChainConfig;
  mainnetAllocData : list (Z * Z * Z)
}.

Inductive genesis_error : Type :=
| errGenesisNoConfig
| GenesisMismatchError (stored new : Z)
| ErrGenesisNumber
| ErrNoHeadNumber.

(** The process returns, panics or exits. *)
Inductive run (A : Type) : Type :=
| Returned (a : A)
| Panicked
| Exited.
Arguments Returned {A} _.
Arguments Panicked {A}.
Arguments Exited {A}.

Section Genesis.
Context {codec : DbCodec} {state : StateDb}.

(** [json.Marshal] of a struct without fields. *)
Definition WriteChainConfig (hash : Z) (cfg : option ChainConfig) : list db_op :=
  match cfg with
  | None => []
  | Some _ => [Put (configKey hash) (str "{}")]
  end.

Definition ReadChainConfig (db : DB) (hash : Z) : option ChainConfig :=
  match Get db (configKey hash) with
  | [] => None
  | data => unmarshal_config data
  end.

(** Later entries of an address replace earlier ones. *)
Definition decodePrealloc (data : list (Z * Z * Z)) (shardID : Z) : GenesisAlloc :=
  foldl (fun ga p =>
    let '(addr, balance, shard) := p in
    if shard =? shardID then <[addr mod 2 ^ 160 := mk_account [] ∅ shard balance 0 []]> ga else ga) ∅ data.

Definition DefaultGenesisBlock (shardID : Z) : Genesis :=
  mk_genesis (Some DefaultChainConfig) 66 shardID 1561734000 [] 0 0 0 0 (decodePrealloc mainnetAllocData shardID) 0 0 0.

Definition genesis_header (g : Genesis) : Header :=
  mk_header (g_ParentHash g) (IntermediateRoot (Alloc g)) EmptyRootHash (g_Number g) 0 0 (Timestamp g) (g_ShardID g)
    (replicate 96 0) [].

(** A nil database ends the process. *)
Definition ToBlock (g : Genesis) (db : option DB) : run (Header * DB) :=
  match db with
  | None => Exited
  | Some db => Returned (genesis_header g, db_write db (state_ops (Alloc g)))
  end.

Definition commit_ops (g : Genesis) (header : Header) : list db_op :=
  WriteBlock header [] ++ WriteCanonicalHash (Header_Hash header) (big_uint64 (Number header))
    ++ WriteHeadBlockHash (Header_Hash header) ++ WriteHeadFastBlockHash (Header_Hash header)
    ++ WriteHeadHeaderHash (Header_Hash header)
    ++ WriteChainConfig (Header_Hash header) (Some (default DefaultChainConfig (Config g))).

Definition Commit (g : Genesis) (db : DB) : run (DB * (Header + genesis_error)) :=
  match ToBlock g (Some db) with
  | Returned (header, db) =>
      if negb (Number header =? 0) then Returned (db, inr ErrGenesisNumber)
      else Returned (db_write db (commit_ops g header), inl header)
  | Panicked => Panicked
  | Exited => Exited
  end.

(** [MustCommit] panics on error. *)
Definition MustCommit (g : Genesis) (db : DB) : run (DB * Header) :=
  match Commit g db with
  | Returned (db, inl header) => Returned (db, header)
  | Returned (_, inr _) => Panicked
  | Panicked => Panicked
  | Exited => Exited
  end.

Definition configOrDefault (genesis : option Genesis) : option ChainConfig :=
  match genesis with
  | Some g => Config g
  | None => Some DefaultChainConfig
  end.

Definition setup_result : Type := DB * (option ChainConfig * Z * option genesis_error).

(** The commit shared by the two branches that write a genesis block. *)
Definition setup_commit (g : Genesis) (db : DB) (hash : Z) : run setup_result :=
  match Commit g db with
  | Returned (db, inr e) => Returned (db, (Config g, hash, Some e))
  | Returned (db, inl header) => Returned (db, (Config g, Header_Hash header, None))
  | Panicked => Panicked
  | Exited => Exited
  end.

(** [genesis] or the default for the stored shard, whose absence panics. *)
Definition genesis_or_default (genesis : option Genesis) (db : DB) : option Genesis :=
  match genesis with
  | Some g => Some g
  | None => DefaultGenesisBlock <$> ReadShardID db
  end.

(** The stored genesis against the given one: the hash is that of a block built
    on no database. *)
Definition check_stored (g : Genesis) (db : DB) (stored : Z) (k : Z -> run setup_result) : run setup_result :=
  match ToBlock g None with
  | Returned (header, _) =>
      let hash := Header_Hash header in
      if negb (hash =? stored) then Returned (db, (Config g, hash, Some (GenesisMismatchError stored hash))) else k hash
  | Panicked => Panicked
  | Exited => Exited
  end.

Definition finish_setup (genesis : option Genesis) (db : DB) (stored : Z) : run setup_result :=
  let newcfg := configOrDefault genesis in
  match ReadChainConfig db stored with
  | None => Returned (db_write db (WriteChainConfig stored newcfg), (newcfg, stored, None))
  | Some _ =>
      match ReadHeaderNumber db (ReadHeadHeaderHash db) with
      | None => Returned (db, (newcfg, stored, Some ErrNoHeadNumber))
      | Some _ => Returned (db_write db (WriteChainConfig stored newcfg), (newcfg, stored, None))
      end
  end.

Definition SetupGenesisBlock (db : DB) (genesis : option Genesis) : run setup_result :=
  match genesis with
  | Some (mk_genesis None _ _ _ _ _ _ _ _ _ _ _ _) => Returned (db, (Some DefaultChainConfig, 0, Some errGenesisNoConfig))
  | _ =>
      let stored := ReadCanonicalHash db 0 in
      if stored =? 0 then
        match genesis_or_default genesis db with
        | None => Panicked
        | Some g => setup_commit g db 0
        end
      else
        match ReadHeader db stored 0 with
        | None => Panicked
        | Some header =>
            if negb (state_New db (Root header)) then
              match genesis_or_default genesis db with
              | None => Panicked
              | Some g => check_stored g db stored (fun hash => setup_commit g db hash)
              end
            else
              match genesis with
              | Some g => check_stored g db stored (fun _ => finish_setup genesis db stored)
              | None => finish_setup genesis db stored
              end
        end
  end.

End Genesis.

(** ** Properties *)

(** The state database writes trie nodes, code and preimages. *)
Class StateLaws {state : StateDb} : Prop := {
  state_content : forall a, Forall content_op (state_ops a)
}.

Section Spec.
Context {codec : DbCodec} {laws : DbLaws} {lru : Lru} {lru_laws : LruLaws} {state : StateDb} {state_laws : StateLaws}.

Lemma content_put k v : key_ok k -> ~ is_chain_key k -> content_op (Put (key_bytes k) v).
Proof. intros Hk Hn. exists k. split; [right; by eexists|done]. Qed.

(** What a commit writes after the canonical hash. *)
Definition commit_tail (hash : Z) : list db_op :=
  [Put (key_bytes (KNamed NHeadBlock)) (hash_to_bytes hash); Put (key_bytes (KNamed NHeadFast)) (hash_to_bytes hash);
   Put (key_bytes (KNamed NHeadHeader)) (hash_to_bytes hash); Put (key_bytes (KConfig hash)) (str "{}")].

Lemma commit_tail_content hash : is_hash hash -> Forall content_op (commit_tail hash).
Proof. intros Hh. repeat (apply Forall_cons; split; [apply content_put; [done|intros []]|]). constructor. Qed.

Lemma commit_split db g header :
  db_write db (commit_ops g header)
    = db_write (db_write (db_write (db_write db (WriteBody (Header_Hash header) (big_uint64 (Number header)) [])) (WriteHeader header))
        (WriteCanonicalHash (Header_Hash header) (big_uint64 (Number header)))) (commit_tail (Header_Hash header)).
Proof. unfold commit_ops, WriteBlock. by rewrite !db_write_app. Qed.

Lemma commit_tail_head db hash : is_hash hash -> ReadHeadBlockHash (db_write db (commit_tail hash)) = hash.
Proof.
  intros Hh. unfold ReadHeadBlockHash, read_hash, Get. change headBlockKey with (key_bytes (KNamed NHeadBlock)).
  unfold commit_tail. change (db_write db (?op :: ?ops)) with (db_write (db_apply db op) ops).
  rewrite lookup_others; [rewrite lookup_put, decide_True by done; by apply stored_hash|done|].
  repeat (apply Forall_cons; split; [apply other_put; done|]). constructor.
Qed.

Lemma empty_chain_agree db db' : empty_chain db -> chain_agree db db' -> empty_chain db'.
Proof. intros He Ha k Hk Hok. rewrite Ha by done. by apply He. Qed.

Lemma content_bytes (db : DB) ops :
  Forall content_op ops -> (forall k, is_Some (db !! k) -> Forall is_byte k) ->
  forall k, is_Some (db_write db ops !! k) -> Forall is_byte k.
Proof. intros H. apply db_write_bytes. eapply Forall_impl; [exact H|]. intros op (k & Hk & _). eauto. Qed.

(** The database after committing [g] to a database without a chain. *)
Lemma commit_chain_ok db g :
  empty_chain db -> (forall k, is_Some (db !! k) -> Forall is_byte k) ->
  g_Number g = 0 -> 0 <= Timestamp g -> is_hash (g_ParentHash g) ->
  let header := genesis_header g in
  let db' := db_write (db_write db (state_ops (Alloc g))) (commit_ops g header) in
  store_ok db' /\ canon_ok db' header /\ ReadHeadBlockHash db' = Header_Hash header.
Proof.
  intros He Hb En Ht Hp header db'. pose proof (header_hash_ok header) as Hh.
  assert (Eu : big_uint64 (Number header) = 0) by (cbn; by rewrite En).
  unfold db'. rewrite commit_split, Eu. set (db1 := db_write _ (WriteBody _ _ _)).
  assert (Hbody : Forall content_op (WriteBody (Header_Hash header) 0 []))
    by (constructor; [apply (content_put (KBody 0 (Header_Hash header))); [by split|intros []]|constructor]).
  assert (He1 : empty_chain db1)
    by (eapply empty_chain_agree; [|apply content_agree, Hbody]; eapply empty_chain_agree; [done|]; apply content_agree, state_content).
  assert (Hb1 : forall k, is_Some (db1 !! k) -> Forall is_byte k)
    by (apply content_bytes; [done|]; apply content_bytes; [apply state_content|done]).
  destruct (genesis_chain_ok db1 header He1 Hb1) as [Hs Hca]; [split; cbn; [rewrite En; side|done]|done|done|].
  pose proof (commit_tail_content (Header_Hash header) Hh) as Htail.
  split; [|split; [eapply canon_ok_agree; [exact Hca|by apply content_agree]|by apply commit_tail_head]].
  eapply store_ok_agree; [exact Hs|by apply content_agree|]. apply content_bytes; [done|apply Hs].
Qed.

(** Setting up a database without a chain commits the given genesis block,
    and the database then opens as a header chain that satisfies the invariant of
    the header chain with the genesis header as its head. *)
Theorem committed_genesis_opens db g cfg :
  empty_chain db -> (forall k, is_Some (db !! k) -> Forall is_byte k) ->
  Config g = Some cfg -> g_Number g = 0 -> 0 <= Timestamp g -> is_hash (g_ParentHash g) ->
  exists db' hc, SetupGenesisBlock db (Some g) = Returned (db', (Some cfg, Header_Hash (genesis_header g), None)) /\
    NewHeaderChain db' = Some (inl hc) /\ hc_ok hc (genesis_header g).
Proof.
  intros He Hb Ecfg En Ht Hp. destruct (commit_chain_ok db g) as (Hs & Hca & Ehead); [done..|].
  destruct (NewHeaderChain_spec _ _ Hs Hca Ehead) as (hc & Enew & Hok & _). eexists _, hc. split; [|done].
  assert (E0 : ReadCanonicalHash db 0 = 0)
    by (unfold ReadCanonicalHash, Get; change (headerHashKey 0) with (key_bytes (KCanonical 0)); by rewrite He).
  unfold SetupGenesisBlock, setup_commit, Commit, ToBlock. rewrite E0. cbn [genesis_or_default].
  destruct g as [[c|] ? ? ? ? ? ? ? ? ? num ? ?]; [|done]. cbn in Ecfg, En. injection Ecfg as ->. subst num. reflexivity.
Qed.

(** On a database that already has a genesis block a given specification is
    never compared with it: the check builds the block on no database, which ends
    the process, so neither success nor the mismatch error is ever returned. *)
Theorem stored_genesis_is_never_compared db g :
  ReadCanonicalHash db 0 <> 0 -> is_Some (Config g) ->
  SetupGenesisBlock db (Some g) = match ReadHeader db (ReadCanonicalHash db 0) 0 with Some _ => Exited | None => Panicked end.
Proof.
  intros H0 [cfg Ecfg]. unfold SetupGenesisBlock. destruct g as [[c|] ? ? ? ? ? ? ? ? ? ? ? ?]; [|done].
  rewrite (proj2 (Z.eqb_neq _ 0) H0). destruct (ReadHeader db _ 0) as [header|]; [|done].
  by destruct (state_New db (Root header)).
Qed.

End Spec.

(** ** Concrete genesis *)

Module GenesisToy.
Import DbToy ChainToy.

Definition toy_state : StateDb := {|
  IntermediateRoot := fun a => Z.of_nat (size a);
  state_ops := fun a => [Put (key_bytes (KTrieNode (Z.of_nat (size a) mod 2 ^ 256))) [1]];
  state_New := fun _ _ => true;
  unmarshal_config := fun _ => Some tt;
  mainnetAllocData := [(7, 100, 0); (8, 50, 1)]
|}.

Lemma toy_state_laws : @StateLaws toy_state.
Proof.
  split. intros a. constructor; [|constructor]. apply content_put; [|intros []]. apply Z.mod_pos_bound. lia.
Qed.

Definition toy_genesis : Genesis := @DefaultGenesisBlock toy_state 0.

Lemma committed_genesis_opens_witness :
  exists db' hc, @SetupGenesisBlock toy_codec toy_state ∅ (Some toy_genesis)
      = Returned (db', (Some tt, @Header_Hash toy_codec (@genesis_header toy_state toy_genesis), None)) /\
    @NewHeaderChain toy_codec toy_lru db' = Some (inl hc) /\
    @hc_ok toy_codec toy_lru hc (@genesis_header toy_state toy_genesis).
Proof.
  apply (@committed_genesis_opens toy_codec toy_laws toy_lru toy_lru_laws toy_state toy_state_laws ∅ toy_genesis tt);
    try done.
  intros k [v Hv]. rewrite lookup_empty in Hv. discriminate.
Defined.

Lemma stored_genesis_is_never_compared_witness :
  @SetupGenesisBlock toy_codec toy_state (chainDb toy_hc0) (Some toy_genesis) = Exited.
Proof.
  assert (H0 : ReadCanonicalHash (chainDb toy_hc0) 0 <> 0) by (vm_compute; discriminate).
  exact (@stored_genesis_is_never_compared toy_codec toy_state (chainDb toy_hc0) toy_genesis H0 (ex_intro _ tt eq_refl)).
Defined.

End GenesisToy.
