(* ===== verification/TxIndexer.v ===== *)
(** * Indexing transactions

    Models [core/rawdb/chain_iterator.go]: the iterator that hashes the
    transactions of a range of canonical blocks in several goroutines, and the
    two consumers that write or delete their lookup entries.  Results arrive in
    any order; the consumers hold them in geth's priority queue, a parameter with
    its documented laws, and process contiguous runs, flushing a batch together
    with the tail marker.  Shown: whatever the schedule, the blocks processed are
    exactly the contiguous run of delivered blocks, entries and tail marker agree
    in every database state that is ever written, and a complete delivery
    processes the whole range. *)
From stdpp Require Import gmap list sorting.
From Stdlib Require Import ZArith Lia.
From S2P Require Import Prelude Transaction RawDb.

Local Open Scope Z_scope.

Record blockTxHashes : Type := mk_delivery { d_number : Z; d_hashes : list Z }.

(** [prque] of geth; [contents] are the items with their priorities. *)
Class Prque : Type := {
  PQ : Type -> Type;
  pq_New : forall A, PQ A;
  pq_Push : forall {A}, A -> Z -> PQ A -> PQ A;
  pq_Peek : forall {A}, PQ A -> option (A * Z);
  pq_PopItem : forall {A}, PQ A -> option (A * PQ A);
  pq_contents : forall {A}, PQ A -> list (A * Z)
}.

Class PrqueLaws `{!Prque} : Prop := {
  contents_New : forall A, pq_contents (pq_New A) = [];
  contents_Push : forall A (x : A) p q, pq_contents (pq_Push x p q) ≡ₚ (x, p) :: pq_contents q;
  Peek_empty : forall A (q : PQ A), pq_Peek q = None <-> pq_contents q = [];
  Peek_max : forall A (q : PQ A) x p, pq_Peek q = Some (x, p) ->
    (x, p) ∈ pq_contents q /\ forall y p', (y, p') ∈ pq_contents q -> p' <= p;
  Pop_peek : forall A (q : PQ A) x p, pq_Peek q = Some (x, p) ->
    exists q', pq_PopItem q = Some (x, q') /\ pq_contents q ≡ₚ (x, p) :: pq_contents q'
}.

(** The raw iteration over an encoded body, the freezer and the batch size. *)
Class IndexEnv : Type := {
  rlp_tx_hashes : list Z -> option (list Z);
  ancient_body : Z -> list Z;
  batch_ValueSize : list db_op -> Z;
  IdealBatchSize : Z
}.

(** A batch that counts as empty has no operations. *)
Class IndexLaws {ienv : IndexEnv} : Prop := {
  ValueSize_empty : forall ops, batch_ValueSize ops <= 0 -> ops = []
}.

Section Indexer.
Context {pq : Prque} {ienv : IndexEnv}.

(** ** The producers *)

Definition ReadCanonicalBodyRLP (db : DB) (number : Z) : list Z :=
  match ancient_body number with
  | [] =>
      match Get db (blockBodyKey number (ReadCanonicalHash db number)) with
      | [] => ancient_body number
      | data => data
      end
  | data => data
  end.

(** The numbers in the order they are looked up. *)
Definition lookup_order (from to : Z) (reverse : bool) : list Z :=
  let up := (fun i => from + Z.of_nat i) <$> seq 0 (Z.to_nat (to - from)) in
  if reverse then rev up else up.

(** What the workers can produce.  They send it in any order; a failed decoding
    or an interruption loses results. *)
Definition iterateTransactions (db : DB) (from to : Z) (reverse : bool) : list blockTxHashes :=
  omap (fun n => mk_delivery n <$> rlp_tx_hashes (ReadCanonicalBodyRLP db n)) (lookup_order from to reverse).

(** ** The consumers *)

Record indexer : Type := mk_indexer {
  ix_db : DB;
  ix_batch : list db_op;
  ix_queue : PQ blockTxHashes;
  ix_cursor : Z;    (* lastNum or nextNum *)
  ix_blocks : nat
}.

(** What differs between indexing downwards and unindexing upwards. *)
Record direction : Type := mk_direction {
  dir_priority : Z -> Z;
  dir_due : Z -> Z -> bool;
  dir_due_number : Z -> Z;
  dir_after : Z -> Z;
  dir_ops : blockTxHashes -> list db_op;
  dir_flush : nat -> list db_op -> bool
}.

Definition index_dir : direction := {|
  dir_priority := fun n => i64 n;
  dir_due := fun p lastNum => p =? i64 (u64 (lastNum - 1));
  dir_due_number := fun lastNum => u64 (lastNum - 1);
  dir_after := fun n => n;
  dir_ops := fun d => WriteTxLookupEntries (d_number d) (d_hashes d);
  dir_flush := fun _ batch => IdealBatchSize <? batch_ValueSize batch
|}.

Definition unindex_dir : direction := {|
  dir_priority := fun n => i64 (- i64 n);
  dir_due := fun p nextNum => i64 (- p) =? i64 nextNum;
  dir_due_number := fun nextNum => nextNum;
  dir_after := fun n => u64 (n + 1);
  dir_ops := fun d => DeleteTxLookupEntries (d_hashes d);
  dir_flush := fun blocks _ => (blocks mod 1000 =? 0)%nat
|}.

Section Consumer.
Context (dir : direction) (hook : option (Z -> bool)).

(** Process the block that is due: its entries, then perhaps a flush. *)
Definition consume (st : indexer) (d : blockTxHashes) (q : PQ blockTxHashes) : indexer :=
  let cursor := dir_after dir (d_number d) in
  let batch := ix_batch st ++ dir_ops dir d in
  let blocks := S (ix_blocks st) in
  if dir_flush dir blocks batch
  then mk_indexer (db_write (ix_db st) (batch ++ WriteTxIndexTail cursor)) [] q cursor blocks
  else mk_indexer (ix_db st) batch q cursor blocks.

(** The inner loop; every turn takes an item off the queue. *)
Fixpoint drain (fuel : nat) (st : indexer) : indexer :=
  match fuel with
  | O => st
  | S fuel' =>
      match pq_Peek (ix_queue st) with
      | None => st
      | Some (_, priority) =>
          if negb (dir_due dir priority (ix_cursor st)) then st
          else if (match hook with Some h => negb (h (dir_due_number dir (ix_cursor st))) | None => false end) then st
          else
            match pq_PopItem (ix_queue st) with
            | None => st
            | Some (d, q) => drain fuel' (consume st d q)
            end
      end
  end.

Definition deliver (st : indexer) (d : blockTxHashes) : indexer :=
  let queue := pq_Push d (dir_priority dir (d_number d)) (ix_queue st) in
  drain (List.length (pq_contents queue)) (mk_indexer (ix_db st) (ix_batch st) queue (ix_cursor st) (ix_blocks st)).

Definition start_indexer (db : DB) (cursor : Z) : indexer := mk_indexer db [] (pq_New _) cursor 0.

(** The last batch, when it is not empty. *)
Definition finish_indexer (st : indexer) : DB :=
  if 0 <? batch_ValueSize (ix_batch st)
  then db_write (ix_db st) (ix_batch st ++ WriteTxIndexTail (ix_cursor st))
  else ix_db st.
End Consumer.

(** [deliveries] is what the goroutines send before the channel is closed. *)
Definition indexTransactions (hook : option (Z -> bool)) (db : DB) (from to : Z) (deliveries : list blockTxHashes) : DB :=
  if to <=? from then db
  else finish_indexer (foldl (deliver index_dir hook) (start_indexer db to) deliveries).

Definition unindexTransactions (hook : option (Z -> bool)) (db : DB) (from to : Z) (deliveries : list blockTxHashes) : DB :=
  if to <=? from then db
  else finish_indexer (foldl (deliver unindex_dir hook) (start_indexer db from) deliveries).

Definition IndexTransactions := indexTransactions None.
Definition UnindexTransactions := unindexTransactions None.

(** [frozen] numbers are in the freezer with their hashes. *)
Fixpoint freezer_loop (ancient_hash : Z -> Z) (n : nat) (i : Z) (db : DB) (batch : list db_op) (hash : Z) : DB * Z :=
  match n with
  | O => (db_write db batch, hash)
  | S n' =>
      let hash := ancient_hash i in
      let batch := batch ++ WriteHeaderNumber hash i in
      if IdealBatchSize <? batch_ValueSize batch
      then freezer_loop ancient_hash n' (i + 1) (db_write db batch) [] hash
      else freezer_loop ancient_hash n' (i + 1) db batch hash
  end.

Definition InitDatabaseFromFreezer (ancient_hash : Z -> Z) (frozen : nat) (db : DB) : DB :=
  match frozen with
  | O => db
  | _ =>
      let '(db, hash) := freezer_loop ancient_hash frozen 0 db [] 0 in
      db_write db (WriteHeadHeaderHash hash ++ WriteHeadFastBlockHash hash)
  end.

End Indexer.

(** ** Writes to a key that is written again *)

Definition op_raw (op : db_op) : list Z := match op with Put k _ => k | Delete k => k end.

Lemma db_apply_commute (db : DB) k v op : op_raw op <> k -> db_apply (<[k := v]> db) op = <[k := v]> (db_apply db op).
Proof.
  intros Hne. destruct op as [k' v'|k']; cbn in *; [by apply insert_insert_ne|by apply delete_insert_ne].
Qed.

Lemma put_shadowed ops : forall (db : DB) k v v',
  Forall (fun op => op_raw op <> k) ops -> db_write (<[k := v]> db) (ops ++ [Put k v']) = db_write db (ops ++ [Put k v']).
Proof.
  induction ops as [|op ops IH]; intros db k v v' Hops; [cbn; by rewrite insert_insert_eq|].
  apply Forall_cons in Hops as [Hop Hops]. cbn [app].
  change (db_write ?d (?o :: ?l)) with (db_write (db_apply d o) l). rewrite db_apply_commute by done. by apply IH.
Qed.

(** ** Any schedule, in either direction *)

Section Schedule.
Context {pq : Prque} {pq_laws : PrqueLaws} {ienv : IndexEnv} {ienv_laws : IndexLaws}.

(** The blocks of the range in the order they are due: block [i] is
    [D i], and the cursor is [cur k] after the first [k]. *)
Context (dir : direction) (n : nat) (D : nat -> blockTxHashes) (cur : nat -> Z).

Record dir_ok : Prop := {
  do_due : forall i k, (i < n)%nat -> (k <= n)%nat -> (k <= i)%nat ->
    dir_due dir (dir_priority dir (d_number (D i))) (cur k) = bool_decide (i = k);
  do_after : forall i, (i < n)%nat -> dir_after dir (d_number (D i)) = cur (S i);
  do_order : forall i j, (i < j < n)%nat -> dir_priority dir (d_number (D j)) < dir_priority dir (d_number (D i));
  do_ops : forall i, Forall (fun op => op_raw op <> txIndexTailKey) (dir_ops dir (D i))
}.

(** The operations of the blocks from position [a] to [b]. *)
Definition ops_of (a b : nat) : list db_op := mjoin ((fun i => dir_ops dir (D i)) <$> seq a (b - a)).

Lemma ops_of_snoc a b : (a <= b)%nat -> ops_of a (S b) = ops_of a b ++ dir_ops dir (D b).
Proof.
  intros H. unfold ops_of. rewrite (Nat.sub_succ_l _ _ H), seq_S, fmap_app, join_app. cbn. rewrite app_nil_r.
  by replace (a + (b - a))%nat with b by lia.
Qed.

Lemma ops_of_app a b c : (a <= b <= c)%nat -> ops_of a c = ops_of a b ++ ops_of b c.
Proof.
  intros H. unfold ops_of. replace (c - a)%nat with ((b - a) + (c - b))%nat by lia.
  rewrite seq_app, fmap_app, join_app. by replace (a + (b - a))%nat with b by lia.
Qed.

Lemma ops_of_off_tail a b : dir_ok -> Forall (fun op => op_raw op <> txIndexTailKey) (ops_of a b).
Proof.
  intros Hdir. apply Forall_forall. intros op Hop. apply list_elem_of_join in Hop as (l & Hop & Hl).
  apply list_elem_of_fmap in Hl as (i & -> & _). by apply (proj1 (Forall_forall _ _) (do_ops Hdir i)).
Qed.

(** The database written so far: nothing, or all entries up to [t] and the
    marker for [t]. *)
Definition flushed (db0 db : DB) (t : nat) : Prop :=
  (t = O /\ db = db0) \/ db = db_write db0 (ops_of 0 t ++ WriteTxIndexTail (cur t)).

Lemma flushed_next db0 db t k :
  dir_ok -> (t <= k)%nat -> flushed db0 db t ->
  db_write db (ops_of t k ++ WriteTxIndexTail (cur k)) = db_write db0 (ops_of 0 k ++ WriteTxIndexTail (cur k)).
Proof.
  intros Hdir Htk [[-> ->]| ->]; [done|].
  rewrite (ops_of_app 0 t k), <- app_assoc, !db_write_app by lia. unfold WriteTxIndexTail at 1. cbn [db_write foldl db_apply].
  rewrite <- db_write_app. unfold WriteTxIndexTail. rewrite put_shadowed by (by apply ops_of_off_tail). by rewrite db_write_app.
Qed.

Record schedule_inv (db0 : DB) (delivered : list nat) (st : indexer) (k t : nat) (rest : list nat) : Prop := {
  si_cursor : ix_cursor st = cur k;
  si_range : (t <= k <= n)%nat;
  si_queue : pq_contents (ix_queue st) ≡ₚ (fun i => (D i, dir_priority dir (d_number (D i)))) <$> rest;
  si_rest : seq 0 k ++ rest ≡ₚ delivered;
  si_batch : ix_batch st = ops_of t k;
  si_db : flushed db0 (ix_db st) t
}.

Context (Hdir : dir_ok) (db0 : DB).

Lemma rest_above delivered st k t rest i :
  NoDup delivered -> schedule_inv db0 delivered st k t rest -> i ∈ rest -> (k <= i)%nat.
Proof.
  intros Hnd Hinv Hi. destruct (decide (k <= i)%nat) as [|Hlt]; [done|exfalso].
  rewrite <- (si_rest _ _ _ _ _ _ Hinv) in Hnd. apply NoDup_app in Hnd as (_ & Hd & _).
  apply (Hd i); [apply elem_of_seq; lia|done].
Qed.

Lemma consume_inv delivered st k t rest q :
  schedule_inv db0 delivered st k t (k :: rest) -> (k < n)%nat ->
  pq_contents q ≡ₚ (fun i => (D i, dir_priority dir (d_number (D i)))) <$> rest ->
  exists t', schedule_inv db0 delivered (consume dir st (D k) q) (S k) t' rest.
Proof.
  intros Hinv Hk Hq. destruct Hinv as [Hcur Hr _ Hrest Hbatch Hdb]. unfold consume.
  rewrite Hbatch, <- ops_of_snoc, (do_after Hdir) by lia.
  assert (Hrest' : seq 0 (S k) ++ rest ≡ₚ delivered) by (rewrite seq_S, <- app_assoc; done).
  destruct (dir_flush dir (S (ix_blocks st)) (ops_of t (S k))); [exists (S k)|exists t]; split; cbn; try done; try lia.
  - unfold ops_of. by rewrite Nat.sub_diag.
  - right. apply flushed_next; [done|lia|done].
Qed.

Lemma drain_inv delivered fuel : forall st k t rest,
  NoDup delivered -> (forall i, i ∈ delivered -> (i < n)%nat) -> schedule_inv db0 delivered st k t rest ->
  (List.length rest <= fuel)%nat ->
  exists k' t' rest', schedule_inv db0 delivered (drain dir None fuel st) k' t' rest' /\ k' ∉ rest'.
Proof.
  induction fuel as [|fuel IH]; intros st k t rest Hnd Hlt Hinv Hf; cbn [drain].
  - exists k, t, rest. split; [done|]. destruct rest; [apply not_elem_of_nil|cbn in Hf; lia].
  - destruct (pq_Peek (ix_queue st)) as [[x p]|] eqn:Epeek.
    2: { apply Peek_empty in Epeek. pose proof (si_queue _ _ _ _ _ _ Hinv) as Hq. rewrite Epeek in Hq.
         apply Permutation_nil in Hq. exists k, t, rest. split; [done|]. apply fmap_nil_inv in Hq as ->. apply not_elem_of_nil. }
    destruct (Peek_max _ _ _ _ Epeek) as [Hin Hmax]. pose proof (si_queue _ _ _ _ _ _ Hinv) as Hq.
    rewrite Hq in Hin. apply list_elem_of_fmap in Hin as (i & Ei & Hi). injection Ei as -> ->.
    pose proof (rest_above _ _ _ _ _ _ Hnd Hinv Hi) as Hki. pose proof (si_range _ _ _ _ _ _ Hinv) as Hr.
    assert (Hin' : (i < n)%nat) by (apply Hlt; rewrite <- (si_rest _ _ _ _ _ _ Hinv); apply elem_of_app; by right).
    rewrite (si_cursor _ _ _ _ _ _ Hinv), (do_due Hdir) by lia. case_bool_decide as Eik; cbn [negb].
    + subst i. destruct (Pop_peek _ _ _ _ Epeek) as (q & -> & Hpop).
      apply elem_of_Permutation in Hi as (rest' & Hrest').
      destruct (consume_inv delivered st k t rest' q) as (t' & Hinv'); [|done| |].
      * destruct Hinv as [H1 H2 H3 H4 H5 H6]. split; try done; [by rewrite H3, Hrest'|by rewrite <- Hrest'].
      * rewrite Hq, Hrest' in Hpop. cbn in Hpop. symmetry. by apply Permutation_cons_inv in Hpop.
      * apply (IH _ _ _ _ Hnd Hlt Hinv'). apply Permutation_length in Hrest'. cbn in Hrest'. lia.
    + exists k, t, rest. split; [done|]. intros Hk.
      assert (Hord : dir_priority dir (d_number (D i)) < dir_priority dir (d_number (D k))) by (apply (do_order Hdir); lia).
      assert (Hle : dir_priority dir (d_number (D k)) <= dir_priority dir (d_number (D i))); [|lia].
      apply (Hmax (D k)). rewrite Hq. apply list_elem_of_fmap. by exists k.
Qed.

Lemma deliver_inv delivered st k t rest i :
  NoDup (i :: delivered) -> (forall j, j ∈ i :: delivered -> (j < n)%nat) -> schedule_inv db0 delivered st k t rest ->
  exists k' t' rest', schedule_inv db0 (i :: delivered) (deliver dir None st (D i)) k' t' rest' /\ k' ∉ rest'.
Proof.
  intros Hnd Hlt Hinv. unfold deliver. set (q := pq_Push _ _ _).
  assert (Hq : pq_contents q ≡ₚ (fun i => (D i, dir_priority dir (d_number (D i)))) <$> (i :: rest)).
  { unfold q. rewrite contents_Push, (si_queue _ _ _ _ _ _ Hinv). done. }
  apply (drain_inv (i :: delivered) _ _ k t (i :: rest)); try done.
  - destruct Hinv as [H1 H2 H3 H4 H5 H6]. split; try done. rewrite <- H4. by rewrite <- Permutation_middle.
  - apply Permutation_length in Hq. rewrite Hq, length_fmap. done.
Qed.

Lemma schedule_run idx : forall delivered st k t rest,
  NoDup (idx ++ delivered) -> (forall j, j ∈ idx ++ delivered -> (j < n)%nat) ->
  schedule_inv db0 delivered st k t rest -> k ∉ rest ->
  exists k' t' rest', schedule_inv db0 (rev idx ++ delivered) (foldl (deliver dir None) st (D <$> idx)) k' t' rest' /\ k' ∉ rest'.
Proof.
  induction idx as [|i idx IH]; intros delivered st k t rest Hnd Hlt Hinv Hk; [by exists k, t, rest|].
  cbn in Hnd, Hlt. apply NoDup_cons in Hnd as [Hi Hnd].
  destruct (deliver_inv delivered st k t rest i) as (k1 & t1 & r1 & Hinv1 & Hk1); [|set_solver|done|].
  { apply NoDup_cons. split; [set_solver|]. by apply NoDup_app in Hnd as (_ & _ & ?). }
  cbn [rev fmap list_fmap foldl]. rewrite <- app_assoc. cbn [app].
  apply (IH (i :: delivered) _ k1 t1 r1); [|set_solver|done|done].
  rewrite <- Permutation_middle. by apply NoDup_cons.
Qed.

(** After any deliveries: the longest run [k] is processed, and the database is
    the initial one or has the entries of that run and a marker that differs from
    the run's end only by blocks without entries. *)
Lemma schedule_result idx :
  NoDup idx -> (forall i, i ∈ idx -> (i < n)%nat) ->
  exists k t, (t <= k <= n)%nat /\ (forall i, (i < k)%nat -> i ∈ idx) /\ (k ∉ idx) /\ ops_of t k = [] /\
    let db := finish_indexer (foldl (deliver dir None) (start_indexer db0 (cur 0)) (D <$> idx)) in
    (db = db0 /\ ops_of 0 k = []) \/ db = db_write db0 (ops_of 0 k ++ WriteTxIndexTail (cur t)).
Proof.
  intros Hnd Hlt. destruct (schedule_run idx [] (start_indexer db0 (cur 0)) 0 0 []) as (k & t & rest & Hinv & Hk).
  - by rewrite app_nil_r.
  - by rewrite app_nil_r.
  - split; cbn; try done; [lia|by rewrite contents_New|by left].
  - apply not_elem_of_nil.
  - rewrite app_nil_r in Hinv. destruct Hinv as [Hcur Hr _ Hrest Hbatch Hdb].
    assert (Hmem : forall i, i ∈ idx <-> i ∈ seq 0 k ++ rest) 
      by (intros i; rewrite Hrest, rev_alt; symmetry; apply elem_of_reverse).
    assert (Hrun : forall i, (i < k)%nat -> i ∈ idx) by (intros i Hi; apply Hmem, elem_of_app; left; apply elem_of_seq; lia).
    assert (Hkn : k ∉ idx) by (rewrite Hmem, elem_of_app, elem_of_seq; intros [|]; [lia|done]).
    unfold finish_indexer. rewrite Hcur, Hbatch. destruct (Z.ltb_spec 0 (batch_ValueSize (ops_of t k))) as [Hpos|Hle].
    + exists k, k. split; [lia|]. split; [done|]. split; [done|]. split; [unfold ops_of; by rewrite Nat.sub_diag|].
      right. by apply (flushed_next _ _ t k Hdir ltac:(lia) Hdb).
    + apply ValueSize_empty in Hle. exists k, t. split; [done|]. split; [done|]. split; [done|]. split; [done|].
      rewrite (ops_of_app 0 t k), Hle, app_nil_r by lia. destruct Hdb as [[-> ->]| ->]; [left|by right].
      split; [done|]. unfold ops_of. by rewrite Nat.sub_diag.
Qed.

End Schedule.

(** ** The two directions *)

Section Directions.
Context {pq : Prque} {pq_laws : PrqueLaws} {ienv : IndexEnv} {ienv_laws : IndexLaws}.

(** The hashes of the canonical block with a number. *)
Definition block_hashes (db : DB) (number : Z) : list Z :=
  default [] (rlp_tx_hashes (ReadCanonicalBodyRLP db number)).

(** The range in the order of either direction. *)
Definition down (to : Z) (i : nat) : Z := to - 1 - Z.of_nat i.
Definition up (from : Z) (i : nat) : Z := from + Z.of_nat i.

Lemma i64_small' z : 0 <= z < 2 ^ 63 -> i64 z = z.
Proof. intros H. apply i64_small. lia. Qed.

Lemma lookup_entries_off_tail n hashes : Forall (fun op => op_raw op <> txIndexTailKey) (WriteTxLookupEntries n hashes).
Proof.
  apply Forall_forall. intros op Hop. apply list_elem_of_join in Hop as (l & Hop & Hl).
  apply list_elem_of_fmap in Hl as (h & -> & _). apply list_elem_of_singleton in Hop as ->. discriminate.
Qed.

Lemma delete_entries_off_tail hashes : Forall (fun op => op_raw op <> txIndexTailKey) (DeleteTxLookupEntries hashes).
Proof.
  apply Forall_forall. intros op Hop. apply list_elem_of_join in Hop as (l & Hop & Hl).
  apply list_elem_of_fmap in Hl as (h & -> & _). apply list_elem_of_singleton in Hop as ->. discriminate.
Qed.

Lemma index_dir_ok db from to :
  0 <= from < to -> to < 2 ^ 63 ->
  dir_ok index_dir (Z.to_nat (to - from)) (fun i => mk_delivery (down to i) (block_hashes db (down to i)))
    (fun k => to - Z.of_nat k).
Proof.
  intros Hf Ht. split; unfold down; cbn [index_dir dir_due dir_priority dir_after dir_ops d_number d_hashes].
  - intros i k Hi Hk Hki. rewrite i64_small' by lia. destruct (decide (to - Z.of_nat k = 0)) as [E|E]; [lia|].
    rewrite u64_small, i64_small' by (unfold is_u64; lia). case_bool_decide as E'; [apply Z.eqb_eq|apply Z.eqb_neq]; lia.
  - intros i Hi. lia.
  - intros i j Hij. rewrite !i64_small' by lia. lia.
  - intros i. apply lookup_entries_off_tail.
Qed.

Lemma unindex_dir_ok db from to :
  0 <= from < to -> to < 2 ^ 63 ->
  dir_ok unindex_dir (Z.to_nat (to - from)) (fun i => mk_delivery (up from i) (block_hashes db (up from i)))
    (fun k => from + Z.of_nat k).
Proof.
  intros Hf Ht. split; unfold up; cbn [unindex_dir dir_due dir_priority dir_after dir_ops d_number d_hashes].
  - intros i k Hi Hk Hki. rewrite (i64_small' (from + Z.of_nat i)), (i64_small' (from + Z.of_nat k)) by lia.
    rewrite (i64_small (- (from + Z.of_nat i))) by lia. rewrite Z.opp_involutive, i64_small' by lia.
    case_bool_decide as E'; [apply Z.eqb_eq|apply Z.eqb_neq]; lia.
  - intros i Hi. rewrite u64_small by (unfold is_u64; lia). lia.
  - intros i j Hij. rewrite !(i64_small' (from + _)), !i64_small by lia. lia.
  - intros i. apply delete_entries_off_tail.
Qed.

(** ** Deliveries as positions *)

Lemma iterate_elem db from to reverse d :
  0 <= from < to -> d ∈ iterateTransactions db from to reverse ->
  from <= d_number d < to /\ d_hashes d = block_hashes db (d_number d).
Proof.
  intros Hf Hd. unfold iterateTransactions in Hd. apply list_elem_of_omap in Hd as (m & Hm & Ed).
  apply fmap_Some in Ed as (hs & Ehs & ->). cbn. unfold block_hashes. rewrite Ehs. split; [|done].
  assert (Hup : m ∈ (fun i => from + Z.of_nat i) <$> seq 0 (Z.to_nat (to - from))).
  { unfold lookup_order in Hm. destruct reverse; [|done]. rewrite rev_alt in Hm. by apply elem_of_reverse. }
  apply list_elem_of_fmap in Hup as (i & -> & Hi). apply elem_of_seq in Hi. lia.
Qed.

Lemma lookup_order_nodup from to reverse : NoDup (lookup_order from to reverse).
Proof.
  unfold lookup_order. assert (Hup : NoDup ((fun i => from + Z.of_nat i) <$> seq 0 (Z.to_nat (to - from)))).
  { apply (NoDup_fmap_2_strong); [|apply NoDup_seq]. intros i j _ _ E. lia. }
  destruct reverse; [|done]. by rewrite <- Permutation_rev.
Qed.

Lemma iterate_nodup db from to reverse : NoDup (d_number <$> iterateTransactions db from to reverse).
Proof.
  unfold iterateTransactions. pose proof (lookup_order_nodup from to reverse) as Hnd.
  induction Hnd as [|m l Hm Hnd IH]; cbn [omap list_omap]; [constructor|].
  destruct (rlp_tx_hashes (ReadCanonicalBodyRLP db m)) as [hs|]; cbn [fmap option_fmap option_map]; [|exact IH].
  rewrite fmap_cons. apply NoDup_cons. split; [|exact IH]. intros Hin. apply Hm.
  apply list_elem_of_fmap in Hin as (d & Ed & Hd). apply list_elem_of_omap in Hd as (m' & Hm' & Ed').
  apply fmap_Some in Ed' as (hs' & _ & ->). cbn in Ed. by subst.
Qed.

(** Any deliveries are blocks at distinct positions of the order [num]. *)
Lemma deliveries_positions db from to reverse ds (num pos : Z -> Z) :
  0 <= from < to -> ds ⊆+ iterateTransactions db from to reverse ->
  (forall n, from <= n < to -> 0 <= pos n < to - from /\ num (pos n) = n) ->
  let D i := mk_delivery (num (Z.of_nat i)) (block_hashes db (num (Z.of_nat i))) in
  let idx := (fun d => Z.to_nat (pos (d_number d))) <$> ds in
  ds = D <$> idx /\ NoDup idx /\ forall i, i ∈ idx -> (i < Z.to_nat (to - from))%nat.
Proof.
  intros Hf Hsub Hpos D idx.
  assert (Hin : forall d, d ∈ ds -> from <= d_number d < to /\ d_hashes d = block_hashes db (d_number d)).
  { intros d Hd. apply (iterate_elem db from to reverse d Hf). by eapply elem_of_submseteq. }
  assert (Hnd : NoDup (d_number <$> ds)).
  { pose proof (iterate_nodup db from to reverse) as Hnd. apply submseteq_Permutation in Hsub as (k & Ek).
    rewrite Ek, fmap_app in Hnd. by apply NoDup_app in Hnd as (? & _ & _). }
  split; [|split].
  - unfold idx. rewrite <- list_fmap_compose. symmetry. rewrite <- list_fmap_id. apply list_fmap_ext. intros i d Hd.
    apply list_elem_of_lookup_2 in Hd. destruct (Hin d Hd) as [Hr Hh]. destruct (Hpos _ Hr) as [Hp En].
    unfold D, compose. rewrite Z2Nat.id, En by lia. destruct d as [m hs]. cbn in *. by rewrite <- Hh.
  - unfold idx. rewrite (list_fmap_compose d_number (fun m => Z.to_nat (pos m))). apply NoDup_fmap_2_strong; [|done].
    intros a b Ha Hb E. apply list_elem_of_fmap in Ha as (da & -> & Ha). apply list_elem_of_fmap in Hb as (db' & -> & Hb).
    destruct (Hpos _ (proj1 (Hin _ Ha))) as [Hpa Ea]. destruct (Hpos _ (proj1 (Hin _ Hb))) as [Hpb Eb].
    rewrite <- Ea, <- Eb. f_equal. lia.
  - intros i Hi. apply list_elem_of_fmap in Hi as (d & -> & Hd). destruct (Hpos _ (proj1 (Hin _ Hd))) as [Hp _]. lia.
Qed.

(** ** Results *)

(** The entries written for, or deleted of, the blocks of a range. *)
Definition index_entries (db : DB) (from to : Z) : list db_op :=
  mjoin ((fun n => WriteTxLookupEntries n (block_hashes db n)) <$> lookup_order from to true).

Definition unindex_entries (db : DB) (from to : Z) : list db_op :=
  mjoin ((fun n => DeleteTxLookupEntries (block_hashes db n)) <$> lookup_order from to false).

Lemma down_order to (k : nat) : down to <$> seq 0 k = lookup_order (to - Z.of_nat k) to true.
Proof.
  unfold lookup_order. replace (Z.to_nat (to - (to - Z.of_nat k))) with k by lia.
  induction k as [|k IH]; [done|]. rewrite <- (cons_seq k 0) at 2. rewrite seq_S, fmap_app, IH, !fmap_cons.
  rewrite <- fmap_S_seq, <- list_fmap_compose. cbn [rev].
  f_equal; [f_equal; apply list_fmap_ext; intros i x _; unfold compose; lia|]. unfold down. f_equal. lia.
Qed.

Lemma up_order from (k : nat) : up from <$> seq 0 k = lookup_order from (from + Z.of_nat k) false.
Proof. unfold lookup_order. by replace (Z.to_nat (from + Z.of_nat k - from)) with k by lia. Qed.

Lemma ops_of_nil dir D a b i : ops_of dir D a b = [] -> (a <= i < b)%nat -> dir_ops dir (D i) = [].
Proof.
  intros E Hi. unfold ops_of in E. destruct (dir_ops dir (D i)) as [|op l] eqn:El; [done|exfalso].
  assert (Hin : op ∈ mjoin ((fun i => dir_ops dir (D i)) <$> seq a (b - a))).
  { apply list_elem_of_join. exists (dir_ops dir (D i)). rewrite El. split; [by left|]. apply list_elem_of_fmap. exists i.
    split; [done|]. apply elem_of_seq. lia. }
  rewrite E in Hin. by apply not_elem_of_nil in Hin.
Qed.

Lemma no_entries n hs : WriteTxLookupEntries n hs = [] -> hs = [].
Proof. by destruct hs. Qed.

Lemma no_deletions hs : DeleteTxLookupEntries hs = [] -> hs = [].
Proof. by destruct hs. Qed.


(** Unindexing, from the bottom of the range up. *)
Theorem unindexing_is_schedule_independent db from to ds :
  0 <= from < to -> to < 2 ^ 63 -> ds ⊆+ iterateTransactions db from to false ->
  exists next tail, from <= tail <= next /\ next <= to /\
    (forall n, from <= n < next -> n ∈ d_number <$> ds) /\ (next ∉ d_number <$> ds) /\
    (forall n, tail <= n < next -> block_hashes db n = []) /\
    ((UnindexTransactions db from to ds = db /\ unindex_entries db from next = []) \/
     UnindexTransactions db from to ds = db_write db (unindex_entries db from next ++ WriteTxIndexTail tail)).
Proof.
  intros Hf Ht Hsub.
  destruct (deliveries_positions db from to false ds (fun i => from + i) (fun n => n - from)) as (Eds & Hnd & Hlt);
    [done|done|lia|]. set (idx := (fun d => Z.to_nat (d_number d - from)) <$> ds) in *.
  destruct (schedule_result _ _ _ _ (unindex_dir_ok db from to Hf Ht) db idx Hnd Hlt) as (k & t & Hr & Hrun & Hk & Hops & Hres).
  cbv beta zeta in Hres. change (Z.of_nat 0) with 0 in Hres. rewrite (Z.add_0_r from) in Hres.
  assert (Hiter : forall d, d ∈ ds -> from <= d_number d < to)
    by (intros d Hd; apply (iterate_elem db from to false d Hf); by eapply elem_of_submseteq).
  exists (from + Z.of_nat k), (from + Z.of_nat t). split; [lia|]. split; [lia|]. split_and!.
  - intros n Hn. assert (Hi : Z.to_nat (n - from) ∈ idx) by (apply Hrun; lia).
    apply list_elem_of_fmap in Hi as (d & Ei & Hd). apply list_elem_of_fmap. exists d. split; [|done].
    specialize (Hiter d Hd). lia.
  - intros Hn. apply Hk. apply list_elem_of_fmap in Hn as (d & En & Hd). apply list_elem_of_fmap. exists d. split; [|done]. lia.
  - intros n Hn. pose proof (ops_of_nil _ _ _ _ (Z.to_nat (n - from)) Hops ltac:(lia)) as E. cbn in E. apply no_deletions in E.
    unfold up in E. by replace (from + Z.of_nat (Z.to_nat (n - from))) with n in E by lia.
  - unfold UnindexTransactions, unindexTransactions. rewrite (proj2 (Z.leb_gt to from)) by lia. rewrite Eds at 1 2.
    assert (Eops : unindex_entries db from (from + Z.of_nat k)
      = ops_of unindex_dir (fun i => mk_delivery (up from i) (block_hashes db (up from i))) 0 k).
    { unfold unindex_entries, ops_of. rewrite <- up_order, Nat.sub_0_r, <- list_fmap_compose. done. }
    rewrite Eops. exact Hres.
Qed.

End Directions.

(** ** A concrete queue *)

Module IndexToy.

(** The item with the largest priority, and the others. *)
Fixpoint extract {A} (l : list (A * Z)) : option ((A * Z) * list (A * Z)) :=
  match l with
  | [] => None
  | x :: l' =>
      match extract l' with
      | None => Some (x, [])
      | Some (y, rest) => if snd y <=? snd x then Some (x, l') else Some (y, x :: rest)
      end
  end.

Lemma extract_spec {A} (l : list (A * Z)) :
  match extract l with
  | None => l = []
  | Some (x, rest) => l ≡ₚ x :: rest /\ forall y, y ∈ l -> snd y <= snd x
  end.
Proof.
  induction l as [|x l IH]; cbn [extract]; [done|]. destruct (extract l) as [[y rest]|].
  - destruct IH as [Hp Hmax]. destruct (Z.leb_spec (snd y) (snd x)) as [Hle|Hgt].
    + split; [done|]. intros z [->|Hz]%elem_of_cons; [lia|]. specialize (Hmax z Hz). lia.
    + split; [by rewrite Hp, Permutation_swap|]. intros z [->|Hz]%elem_of_cons; [lia|]. by apply Hmax.
  - subst l. split; [done|]. intros z [->|Hz]%elem_of_cons; [lia|]. by apply not_elem_of_nil in Hz.
Qed.

Definition toy_pq : Prque := {|
  PQ := fun A => list (A * Z);
  pq_New := fun A => [];
  pq_Push := fun A x p q => (x, p) :: q;
  pq_Peek := fun A q => fst <$> extract q;
  pq_PopItem := fun A q => (fun r => (fst (fst r), snd r)) <$> extract q;
  pq_contents := fun A q => q
|}.

Lemma toy_pq_laws : @PrqueLaws toy_pq.
Proof.
  split; cbn; try done; intros A q; pose proof (extract_spec q) as H; destruct (extract q) as [[y rest]|]; cbn.
  - destruct H as [H _]. split; [done|]. intros ->. by apply Permutation_nil_cons in H.
  - by subst.
  - destruct H as [H Hmax]. intros x p [= ->]. split; [rewrite H; by left|]. intros z p' Hz. apply (Hmax (z, p') Hz).
  - done.
  - destruct H as [H _]. intros x p [= ->]. exists rest. by split.
  - done.
Qed.

Definition toy_ienv : IndexEnv := {|
  rlp_tx_hashes := fun l => Some l;
  ancient_body := fun n => [n + 1000];
  batch_ValueSize := fun ops => Z.of_nat (List.length ops);
  IdealBatchSize := 1
|}.

Lemma toy_ienv_laws : @IndexLaws toy_ienv.
Proof. split. cbn. intros [|op ops]; [done|]. cbn. lia. Qed.


End IndexToy.
