(* ===== verification/BlockChain.v ===== *)
(** * The block chain

    Models [core/blockchain.go] and the iterator of [core/blockchain_insert.go]:
    blocks and their caches on top of the header chain, the writing of a head
    block, the import of a batch of blocks with its known, pruned, future and
    failing cases, the reorganisation, the queue of future blocks, the list of
    bad blocks and the commit signatures.  The validator and the processor of
    [core/block_validator.go] and [core/state_processor.go] accept everything, and
    so does the engine of [internal/chain/sharding.go]; the import is modelled for
    any engine.  The state database is a third-party package and a parameter. *)
From stdpp Require Import gmap list sorting.
From Stdlib Require Import ZArith Lia.
From S2P Require Import Prelude Transaction RawDb HeaderChain TxIndexer.

Local Open Scope Z_scope.

(** ** Parameters *)

(** The state and trie databases: [None] is an error.  Sizes are whole bytes. *)
Class TrieDb : Type := {
  Tries : Type;
  StateDB : Type;
  state_New : Tries -> Z -> option StateDB;
  state_Commit : Tries -> StateDB -> option (Z * Tries);
  OpenTrie : Tries -> Z -> bool;
  trie_Commit : Tries -> Z -> option Tries;
  trie_Reference : Tries -> Z -> Tries;
  trie_Dereference : Tries -> Z -> Tries;
  trie_Cap : Tries -> Z -> Tries;
  trie_Size : Tries -> Z * Z
}.

Inductive bc_error : Type :=
| ErrParentNotHead
| ErrStateCommit
| ErrTrieCommit
| ErrStateMissing
| ErrFutureTimestamp
| ErrNonContiguousBlocks (i : nat)
| ErrKnownBlock
| ErrPrunedAncestor
| ErrFutureBlock
| ErrUnknownAncestor
| ErrBlacklistedHash
| ErrInvalidOldChain
| ErrInvalidNewChain
| ErrGhostState
| ErrMissingParent
| ErrVerify (e : Z)
| ErrNoCommitSig.

#[export] Instance bc_error_eq_dec : EqDecision bc_error.
Proof. solve_decision. Defined.

Definition err_is (err : option bc_error) (e : bc_error) : bool := bool_decide (err = Some e).

(** A block is its header and its transactions. *)
Definition Blk : Type := Header * Body.

Definition block_NumberU64 (b : Blk) : Z := big_uint64 (Number (fst b)).
Definition block_ParentHash (b : Blk) : Z := ParentHash (fst b).
Definition block_Root (b : Blk) : Z := Root (fst b).
Definition block_Hash `{!DbCodec} (b : Blk) : Z := Header_Hash (fst b).

(** The engine, the clock, the coin and the sizes; [shouldPreserve] may be nil.
    [verify chain i] is the [i]th result of [engine.VerifyHeaders]. *)
Class ChainEnv : Type := {
  verify : list Header -> nat -> option bc_error;
  now_unix : Z;
  proctime : Blk -> Z;
  coin : Blk -> bool;
  block_Size : Blk -> Z;
  shouldPreserve : option (Blk -> bool);
  BadHashes : Z -> bool
}.

(** [EngineImpl.verifyHeader] and [VerifyHeaders]. *)
Definition verifyHeader (header : Header) (parents : list Header) : option bc_error := None.

Definition VerifyHeaders (headers : list Header) (i : nat) : option bc_error :=
  match headers !! i with
  | Some header => verifyHeader header (take i headers)
  | None => None
  end.

(** [BlockValidator] and [StateProcessor]. *)
Definition ValidateBody (block : Blk) : option bc_error := None.
Definition ValidateState {S} (block : Blk) (statedb : S) : option bc_error := None.
Definition Process {S} (block : Blk) (statedb : S) : option bc_error * S := (None, statedb).

Definition maxTimeFutureBlocks : Z := 30.
Definition TriesInMemory : Z := 128.
Definition trie_batch_size : Z := 100 * 1024.

Record CacheConfig : Type := mk_cache_config {
  TrieCleanNoPrefetch : bool;
  TrieDirtyLimit : Z;
  TrieDirtyDisabled : bool;
  TrieTimeLimit : Z;
  SnapshotLimit : Z
}.

(** Five minutes, in nanoseconds. *)
Definition defaultCacheConfig : CacheConfig := mk_cache_config false 256 false (5 * 60 * 1000000000) 256.

Inductive chain_event : Type :=
| BlockProc (started : bool)
| ChainEvent (block : Blk)
| ChainHeadEvent (block : Blk)
| ChainSideEvent (block : Blk).

Record TxLookup : Type := mk_lookup { lk_BlockHash : Z; lk_BlockIndex : Z; lk_Index : Z }.

(** ** The iterator of an import *)

Record insertIterator : Type := mk_it { it_chain : list Blk; it_index : Z }.

Definition newInsertIterator (chain : list Blk) : insertIterator := mk_it chain (-1).

Section Iterator.
Context {env : ChainEnv}.

Definition it_result (it : insertIterator) (i : Z) : option bc_error :=
  verify (fst <$> it_chain it) (Z.to_nat i).

Definition it_len (it : insertIterator) : Z := Z.of_nat (List.length (it_chain it)).

Definition it_at (it : insertIterator) (i : Z) : option Blk := it_chain it !! Z.to_nat i.

Definition it_next (it : insertIterator) : option Blk * option bc_error * insertIterator :=
  if it_len it <=? it_index it + 1 then (None, None, mk_it (it_chain it) (it_len it))
  else
    let i := it_index it + 1 in
    let err :=
      match it_result it i with
      | Some e => Some e
      | None => match it_at it i with Some block => ValidateBody block | None => None end
      end in
    (it_at it i, err, mk_it (it_chain it) i).

Definition it_peek (it : insertIterator) : option Blk * option bc_error :=
  if it_len it <=? it_index it + 1 then (None, None) else (it_at it (it_index it + 1), it_result it (it_index it + 1)).

Definition it_previous (it : insertIterator) : option Header :=
  if it_index it <? 1 then None else fst <$> it_at it (it_index it - 1).

Definition it_first (it : insertIterator) : option Blk := head (it_chain it).
Definition it_remaining (it : insertIterator) : Z := it_len it - it_index it.
Definition it_processed (it : insertIterator) : Z := it_index it + 1.
End Iterator.

Section BlockChain.
Context {codec : DbCodec} {crypto : TxCrypto} {lru : Lru} {pq : Prque} {tdb : TrieDb} {env : ChainEnv}.

(** The state.  [None] for a cache or for the prefetcher is a nil pointer;
    [lastWrite] is a package variable; [chainmu] tells whether the lock is held;
    [frozen] is the number of blocks in the freezer, zero without one; [bc_events] lists what the feeds were
    sent, the latest last. *)
Record BlockChain : Type := mk_bc {
  bc_hc : HeaderChain;
  cacheConfig : CacheConfig;
  genesisBlock : option Blk;
  currentBlock : option Blk;
  currentFastBlock : option Blk;
  tries : Tries;
  triegc : PQ Z;
  gcproc : Z;
  lastWrite : Z;
  bodyCache : Cache Body;
  bodyRLPCache : Cache (list Z);
  blockCache : Cache Blk;
  txLookupCache : Cache TxLookup;
  futureBlocks : Cache Blk;
  lastCommitsCache : option (Cache (list Z));
  badBlocks : Cache Blk;
  prefetcher : option ();
  procInterrupt : bool;
  chainmu : bool;
  frozen : Z;
  bc_events : list chain_event
}.

Definition set_bc_hc (x : HeaderChain) (s : BlockChain) : BlockChain :=
  mk_bc x (cacheConfig s) (genesisBlock s) (currentBlock s) (currentFastBlock s) (tries s) (triegc s)
    (gcproc s) (lastWrite s) (bodyCache s) (bodyRLPCache s) (blockCache s) (txLookupCache s) (futureBlocks s)
    (lastCommitsCache s) (badBlocks s) (prefetcher s) (procInterrupt s) (chainmu s) (frozen s) (bc_events s).
Definition set_genesisBlock (x : option Blk) (s : BlockChain) : BlockChain :=
  mk_bc (bc_hc s) (cacheConfig s) x (currentBlock s) (currentFastBlock s) (tries s) (triegc s) (gcproc s)
    (lastWrite s) (bodyCache s) (bodyRLPCache s) (blockCache s) (txLookupCache s) (futureBlocks s)
    (lastCommitsCache s) (badBlocks s) (prefetcher s) (procInterrupt s) (chainmu s) (frozen s) (bc_events s).
Definition set_currentBlock (x : option Blk) (s : BlockChain) : BlockChain :=
  mk_bc (bc_hc s) (cacheConfig s) (genesisBlock s) x (currentFastBlock s) (tries s) (triegc s) (gcproc s)
    (lastWrite s) (bodyCache s) (bodyRLPCache s) (blockCache s) (txLookupCache s) (futureBlocks s)
    (lastCommitsCache s) (badBlocks s) (prefetcher s) (procInterrupt s) (chainmu s) (frozen s) (bc_events s).
Definition set_currentFastBlock (x : option Blk) (s : BlockChain) : BlockChain :=
  mk_bc (bc_hc s) (cacheConfig s) (genesisBlock s) (currentBlock s) x (tries s) (triegc s) (gcproc s)
    (lastWrite s) (bodyCache s) (bodyRLPCache s) (blockCache s) (txLookupCache s) (futureBlocks s)
    (lastCommitsCache s) (badBlocks s) (prefetcher s) (procInterrupt s) (chainmu s) (frozen s) (bc_events s).
Definition set_tries (x : Tries) (s : BlockChain) : BlockChain :=
  mk_bc (bc_hc s) (cacheConfig s) (genesisBlock s) (currentBlock s) (currentFastBlock s) x (triegc s)
    (gcproc s) (lastWrite s) (bodyCache s) (bodyRLPCache s) (blockCache s) (txLookupCache s) (futureBlocks s)
    (lastCommitsCache s) (badBlocks s) (prefetcher s) (procInterrupt s) (chainmu s) (frozen s) (bc_events s).
Definition set_triegc (x : PQ Z) (s : BlockChain) : BlockChain :=
  mk_bc (bc_hc s) (cacheConfig s) (genesisBlock s) (currentBlock s) (currentFastBlock s) (tries s) x (gcproc s)
    (lastWrite s) (bodyCache s) (bodyRLPCache s) (blockCache s) (txLookupCache s) (futureBlocks s)
    (lastCommitsCache s) (badBlocks s) (prefetcher s) (procInterrupt s) (chainmu s) (frozen s) (bc_events s).
Definition set_gcproc (x : Z) (s : BlockChain) : BlockChain :=
  mk_bc (bc_hc s) (cacheConfig s) (genesisBlock s) (currentBlock s) (currentFastBlock s) (tries s) (triegc s) x
    (lastWrite s) (bodyCache s) (bodyRLPCache s) (blockCache s) (txLookupCache s) (futureBlocks s)
    (lastCommitsCache s) (badBlocks s) (prefetcher s) (procInterrupt s) (chainmu s) (frozen s) (bc_events s).
Definition set_lastWrite (x : Z) (s : BlockChain) : BlockChain :=
  mk_bc (bc_hc s) (cacheConfig s) (genesisBlock s) (currentBlock s) (currentFastBlock s) (tries s) (triegc s)
    (gcproc s) x (bodyCache s) (bodyRLPCache s) (blockCache s) (txLookupCache s) (futureBlocks s)
    (lastCommitsCache s) (badBlocks s) (prefetcher s) (procInterrupt s) (chainmu s) (frozen s) (bc_events s).
Definition set_bodyCache (x : Cache Body) (s : BlockChain) : BlockChain :=
  mk_bc (bc_hc s) (cacheConfig s) (genesisBlock s) (currentBlock s) (currentFastBlock s) (tries s) (triegc s)
    (gcproc s) (lastWrite s) x (bodyRLPCache s) (blockCache s) (txLookupCache s) (futureBlocks s)
    (lastCommitsCache s) (badBlocks s) (prefetcher s) (procInterrupt s) (chainmu s) (frozen s) (bc_events s).
Definition set_bodyRLPCache (x : Cache (list Z)) (s : BlockChain) : BlockChain :=
  mk_bc (bc_hc s) (cacheConfig s) (genesisBlock s) (currentBlock s) (currentFastBlock s) (tries s) (triegc s)
    (gcproc s) (lastWrite s) (bodyCache s) x (blockCache s) (txLookupCache s) (futureBlocks s)
    (lastCommitsCache s) (badBlocks s) (prefetcher s) (procInterrupt s) (chainmu s) (frozen s) (bc_events s).
Definition set_blockCache (x : Cache Blk) (s : BlockChain) : BlockChain :=
  mk_bc (bc_hc s) (cacheConfig s) (genesisBlock s) (currentBlock s) (currentFastBlock s) (tries s) (triegc s)
    (gcproc s) (lastWrite s) (bodyCache s) (bodyRLPCache s) x (txLookupCache s) (futureBlocks s)
    (lastCommitsCache s) (badBlocks s) (prefetcher s) (procInterrupt s) (chainmu s) (frozen s) (bc_events s).
Definition set_txLookupCache (x : Cache TxLookup) (s : BlockChain) : BlockChain :=
  mk_bc (bc_hc s) (cacheConfig s) (genesisBlock s) (currentBlock s) (currentFastBlock s) (tries s) (triegc s)
    (gcproc s) (lastWrite s) (bodyCache s) (bodyRLPCache s) (blockCache s) x (futureBlocks s)
    (lastCommitsCache s) (badBlocks s) (prefetcher s) (procInterrupt s) (chainmu s) (frozen s) (bc_events s).
Definition set_futureBlocks (x : Cache Blk) (s : BlockChain) : BlockChain :=
  mk_bc (bc_hc s) (cacheConfig s) (genesisBlock s) (currentBlock s) (currentFastBlock s) (tries s) (triegc s)
    (gcproc s) (lastWrite s) (bodyCache s) (bodyRLPCache s) (blockCache s) (txLookupCache s) x
    (lastCommitsCache s) (badBlocks s) (prefetcher s) (procInterrupt s) (chainmu s) (frozen s) (bc_events s).
Definition set_lastCommitsCache (x : option (Cache (list Z))) (s : BlockChain) : BlockChain :=
  mk_bc (bc_hc s) (cacheConfig s) (genesisBlock s) (currentBlock s) (currentFastBlock s) (tries s) (triegc s)
    (gcproc s) (lastWrite s) (bodyCache s) (bodyRLPCache s) (blockCache s) (txLookupCache s) (futureBlocks s) x
    (badBlocks s) (prefetcher s) (procInterrupt s) (chainmu s) (frozen s) (bc_events s).
Definition set_badBlocks (x : Cache Blk) (s : BlockChain) : BlockChain :=
  mk_bc (bc_hc s) (cacheConfig s) (genesisBlock s) (currentBlock s) (currentFastBlock s) (tries s) (triegc s)
    (gcproc s) (lastWrite s) (bodyCache s) (bodyRLPCache s) (blockCache s) (txLookupCache s) (futureBlocks s)
    (lastCommitsCache s) x (prefetcher s) (procInterrupt s) (chainmu s) (frozen s) (bc_events s).
Definition set_procInterrupt (x : bool) (s : BlockChain) : BlockChain :=
  mk_bc (bc_hc s) (cacheConfig s) (genesisBlock s) (currentBlock s) (currentFastBlock s) (tries s) (triegc s)
    (gcproc s) (lastWrite s) (bodyCache s) (bodyRLPCache s) (blockCache s) (txLookupCache s) (futureBlocks s)
    (lastCommitsCache s) (badBlocks s) (prefetcher s) x (chainmu s) (frozen s) (bc_events s).
Definition set_chainmu (x : bool) (s : BlockChain) : BlockChain :=
  mk_bc (bc_hc s) (cacheConfig s) (genesisBlock s) (currentBlock s) (currentFastBlock s) (tries s) (triegc s)
    (gcproc s) (lastWrite s) (bodyCache s) (bodyRLPCache s) (blockCache s) (txLookupCache s) (futureBlocks s)
    (lastCommitsCache s) (badBlocks s) (prefetcher s) (procInterrupt s) x (frozen s) (bc_events s).
Definition set_frozen (x : Z) (s : BlockChain) : BlockChain :=
  mk_bc (bc_hc s) (cacheConfig s) (genesisBlock s) (currentBlock s) (currentFastBlock s) (tries s) (triegc s)
    (gcproc s) (lastWrite s) (bodyCache s) (bodyRLPCache s) (blockCache s) (txLookupCache s) (futureBlocks s)
    (lastCommitsCache s) (badBlocks s) (prefetcher s) (procInterrupt s) (chainmu s) x (bc_events s).
Definition set_bc_events (x : list chain_event) (s : BlockChain) : BlockChain :=
  mk_bc (bc_hc s) (cacheConfig s) (genesisBlock s) (currentBlock s) (currentFastBlock s) (tries s) (triegc s)
    (gcproc s) (lastWrite s) (bodyCache s) (bodyRLPCache s) (blockCache s) (txLookupCache s) (futureBlocks s)
    (lastCommitsCache s) (badBlocks s) (prefetcher s) (procInterrupt s) (chainmu s) (frozen s) x.

Definition bodyCacheLimit : Z := 256.
Definition blockCacheLimit : Z := 256.
Definition txLookupCacheLimit : Z := 1024.
Definition maxFutureBlocks : Z := 256.
Definition badBlockLimit : Z := 10.

(** The value [NewBlockChain] starts from: neither the cache of commit
    signatures nor the prefetcher is set, here or later. *)
Definition new_bc (hc : HeaderChain) (config : CacheConfig) (genesis : option Blk) (t : Tries) (frozen : Z) : BlockChain :=
  mk_bc hc config genesis None None t (pq_New Z) 0 0
    (lru_New Body bodyCacheLimit) (lru_New (list Z) bodyCacheLimit) (lru_New Blk blockCacheLimit)
    (lru_New TxLookup txLookupCacheLimit) (lru_New Blk maxFutureBlocks) None (lru_New Blk badBlockLimit)
    None false false frozen [].

Definition bc_db (bc : BlockChain) : DB := chainDb (bc_hc bc).

(** An operation of the header chain, which shares the database. *)
Definition on_hc {A} (m : M HeaderChain A) : M BlockChain A :=
  fun bc => '(x, hc) ← m (bc_hc bc); Some (x, set_bc_hc hc bc).

Definition bc_write (ops : list db_op) : M BlockChain () := on_hc (hc_write ops).

Definition send (e : chain_event) : M BlockChain () := mmodify (fun bc => set_bc_events (bc_events bc ++ [e]) bc).

(** ** Queries *)

Definition CurrentBlock : M BlockChain (option Blk) := mgets currentBlock.
Definition bc_GetHeader (hash number : Z) : M BlockChain (option Header) := on_hc (GetHeader hash number).
Definition bc_GetHeaderByHash (hash : Z) : M BlockChain (option Header) := on_hc (GetHeaderByHash hash).
Definition bc_GetHeaderByNumber (number : Z) : M BlockChain (option Header) := on_hc (GetHeaderByNumber number).

Definition GetBody (hash : Z) : M BlockChain (option Body) :=
  bc ← mget;
  let '(cached, cache) := cache_Get (bodyCache bc) hash in
  _ ← mmodify (set_bodyCache cache);
  match cached with
  | Some body => mret (Some body)
  | None =>
      number ← on_hc (GetBlockNumber hash);
      match number with
      | None => mret None
      | Some number =>
          match ReadBody (bc_db bc) hash number with
          | None => mret None
          | Some body =>
              _ ← mmodify (fun bc => set_bodyCache (cache_Add hash body (bodyCache bc)) bc);
              mret (Some body)
          end
      end
  end.

(** The empty value is nil. *)
Definition GetBodyRLP (hash : Z) : M BlockChain (list Z) :=
  bc ← mget;
  let '(cached, cache) := cache_Get (bodyRLPCache bc) hash in
  _ ← mmodify (set_bodyRLPCache cache);
  match cached with
  | Some rlp => mret rlp
  | None =>
      number ← on_hc (GetBlockNumber hash);
      match number with
      | None => mret []
      | Some number =>
          match ReadBodyRLP (bc_db bc) hash number with
          | [] => mret []
          | rlp =>
              _ ← mmodify (fun bc => set_bodyRLPCache (cache_Add hash rlp (bodyRLPCache bc)) bc);
              mret rlp
          end
      end
  end.

Definition bc_HasBlock (hash number : Z) : M BlockChain bool :=
  mgets (fun bc => cache_Contains (blockCache bc) hash || HasBody (bc_db bc) hash number).

Definition HasState (root : Z) : M BlockChain bool := mgets (fun bc => OpenTrie (tries bc) root).

Definition GetBlock (hash number : Z) : M BlockChain (option Blk) :=
  bc ← mget;
  let '(cached, cache) := cache_Get (blockCache bc) hash in
  _ ← mmodify (set_blockCache cache);
  match cached with
  | Some block => mret (Some block)
  | None =>
      match ReadBlock (bc_db bc) hash number with
      | None => mret None
      | Some block =>
          _ ← mmodify (fun bc => set_blockCache (cache_Add (block_Hash block) block (blockCache bc)) bc);
          mret (Some block)
      end
  end.

Definition HasBlockAndState (hash number : Z) : M BlockChain bool :=
  block ← GetBlock hash number;
  match block with
  | None => mret false
  | Some block => HasState (block_Root block)
  end.

Definition GetBlockByHash (hash : Z) : M BlockChain (option Blk) :=
  number ← on_hc (GetBlockNumber hash);
  match number with
  | None => mret None
  | Some number => GetBlock hash number
  end.

Definition GetBlockByNumber (number : Z) : M BlockChain (option Blk) :=
  bc ← mget;
  let hash := ReadCanonicalHash (bc_db bc) number in
  if hash =? 0 then mret None else GetBlock hash number.

Definition GetTransactionLookup (hash : Z) : M BlockChain (option TxLookup) :=
  bc ← mget;
  let '(cached, cache) := cache_Get (txLookupCache bc) hash in
  _ ← mmodify (set_txLookupCache cache);
  match cached with
  | Some lookup => mret (Some lookup)
  | None =>
      match ReadTransaction (bc_db bc) hash with
      | None => mret None
      | Some (_, blockHash, blockNumber, txIndex) =>
          let lookup := mk_lookup blockHash blockNumber txIndex in
          _ ← mmodify (fun bc => set_txLookupCache (cache_Add hash lookup (txLookupCache bc)) bc);
          mret (Some lookup)
      end
  end.

(** [None] is the panic on a chain with no genesis block. *)
Definition bc_empty (bc : BlockChain) : option bool :=
  genesis ← genesisBlock bc;
  Some (forallb (fun hash => hash =? block_Hash genesis)
    [ReadHeadBlockHash (bc_db bc); ReadHeadHeaderHash (bc_db bc); ReadHeadFastBlockHash (bc_db bc)]).

(** The lock is not reentrant: taking it twice never returns. *)
Definition lock : M BlockChain () :=
  bc ← mget;
  if chainmu bc then mpanic else mmodify (set_chainmu true).

Definition unlock : M BlockChain () := mmodify (set_chainmu false).

Definition StopInsert : M BlockChain () := mmodify (set_procInterrupt true).
Definition insertStopped : M BlockChain bool := mgets procInterrupt.

(** ** Bad blocks and commit signatures *)

Definition addBadBlock (block : Blk) : M BlockChain () :=
  mmodify (fun bc => set_badBlocks (cache_Add (block_Hash block) block (badBlocks bc)) bc).

Definition reportBlock (block : Blk) (err : bc_error) : M BlockChain () := addBadBlock block.

(** The slice starts with as many nil entries as there are bad blocks. *)
Definition BadBlocks (bc : BlockChain) : list (option Blk) :=
  let keys := cache_Keys (badBlocks bc) in
  foldl (fun blocks hash =>
           match cache_peek (badBlocks bc) hash with
           | Some block => blocks ++ [Some block]
           | None => blocks
           end) (replicate (List.length keys) None) keys.

Definition WriteCommitSig (blockNum : Z) (lastCommits : list Z) : M BlockChain () :=
  _ ← bc_write (WriteBlockCommitSig blockNum lastCommits);
  bc ← mget;
  cache ← mlift (lastCommitsCache bc);
  mmodify (set_lastCommitsCache (Some (cache_Add blockNum lastCommits cache))).

Definition ReadCommitSig (blockNum : Z) : M BlockChain (list Z + bc_error) :=
  bc ← mget;
  cache ← mlift (lastCommitsCache bc);
  let '(cached, cache) := cache_Get cache blockNum in
  _ ← mmodify (set_lastCommitsCache (Some cache));
  match cached with
  | Some lastCommits => mret (inl lastCommits)
  | None =>
      match ReadBlockCommitSig (bc_db bc) blockNum with
      | Some lastCommits => mret (inl lastCommits)
      | None => mret (inr ErrNoCommitSig)
      end
  end.

(** ** Writing blocks *)

(** The batch of [writeHeadBlock]. *)
Definition head_batch (updateHeads : bool) (block : Blk) : list db_op :=
  WriteCanonicalHash (block_Hash block) (block_NumberU64 block)
    ++ WriteTxLookupEntriesByBlock (fst block) (snd block)
    ++ WriteHeadBlockHash (block_Hash block)
    ++ (if updateHeads
        then WriteHeadHeaderHash (block_Hash block) ++ WriteHeadFastBlockHash (block_Hash block)
        else []).

Definition writeHeadBlock (block : Blk) : M BlockChain () :=
  bc ← mget;
  let updateHeads := negb (ReadCanonicalHash (bc_db bc) (block_NumberU64 block) =? block_Hash block) in
  _ ← bc_write (head_batch updateHeads block);
  _ ← (if updateHeads then
         _ ← on_hc (SetCurrentHeader (fst block));
         mmodify (set_currentFastBlock (Some block))
       else mret tt);
  mmodify (set_currentBlock (Some block)).

Definition writeBlockWithoutState (block : Blk) : M BlockChain () :=
  bc_write (WriteBlock (fst block) (snd block)).

(** The walks of [reorg] go down block by block. *)
Definition parent_block (block : Blk) : M BlockChain (option Blk) :=
  GetBlock (block_ParentHash block) (u64 (block_NumberU64 block - 1)).

(** The loop that brings the longer chain down to [number]; [acc] is the chain,
    the highest block first. *)
Fixpoint reduce_to (fuel : nat) (number : Z) (block : option Blk) (acc : list Blk) : M BlockChain (option Blk * list Blk) :=
  match fuel with
  | O => mpanic
  | S fuel' =>
      match block with
      | None => mret (None, acc)
      | Some b =>
          if block_NumberU64 b =? number then mret (Some b, acc)
          else
            parent ← parent_block b;
            reduce_to fuel' number parent (acc ++ [b])
      end
  end.

(** The loop that steps both chains back to the common block. *)
Fixpoint reduce_both (fuel : nat) (oldBlock newBlock : Blk) (oldChain newChain : list Blk)
    : M BlockChain (list Blk * list Blk + bc_error) :=
  match fuel with
  | O => mpanic
  | S fuel' =>
      if block_Hash oldBlock =? block_Hash newBlock then mret (inl (oldChain, newChain))
      else
        let oldChain := oldChain ++ [oldBlock] in
        let newChain := newChain ++ [newBlock] in
        oldParent ← parent_block oldBlock;
        match oldParent with
        | None => mret (inr ErrInvalidOldChain)
        | Some oldParent =>
            newParent ← parent_block newBlock;
            match newParent with
            | None => mret (inr ErrInvalidNewChain)
            | Some newParent => reduce_both fuel' oldParent newParent oldChain newChain
            end
        end
  end.

Definition bc_fuel (bc : BlockChain) : nat := loop_fuel (bc_hc bc).

(** The rewriting of the canonical chain once the two branches are known. *)
Definition apply_reorg (oldChain newChain : list Blk) : M BlockChain () :=
  let added := rev (tail newChain) in
  _ ← mfor added writeHeadBlock;
  let deletedTxs := mjoin (snd <$> oldChain) in
  let addedTxs := mjoin (snd <$> added) in
  let entries := mjoin ((fun tx => DeleteTxLookupEntry (tx_hash tx)) <$> TxDifference deletedTxs addedTxs) in
  current ← CurrentBlock;
  current ← mlift current;
  bc ← mget;
  indexesBatch ← mlift (delete_above (bc_fuel bc) (bc_db bc) (u64 (block_NumberU64 current + 1)) entries);
  _ ← bc_write indexesBatch;
  mfor (rev oldChain) (fun block => send (ChainSideEvent block)).

Definition reorg (oldBlock newBlock : Blk) : M BlockChain (option bc_error) :=
  bc ← mget;
  let fuel := bc_fuel bc in
  '(old, oldChain, new, newChain) ←
    (if block_NumberU64 newBlock <? block_NumberU64 oldBlock then
       '(old, oldChain) ← reduce_to fuel (block_NumberU64 newBlock) (Some oldBlock) [];
       mret (old, oldChain, Some newBlock, [])
     else
       '(new, newChain) ← reduce_to fuel (block_NumberU64 oldBlock) (Some newBlock) [];
       mret (Some oldBlock, [], new, newChain));
  match old, new with
  | None, _ => mret (Some ErrInvalidOldChain)
  | _, None => mret (Some ErrInvalidNewChain)
  | Some old, Some new =>
      chains ← reduce_both fuel old new oldChain newChain;
      match chains with
      | inr e => mret (Some e)
      | inl (oldChain, newChain) =>
          _ ← apply_reorg oldChain newChain;
          mret None
      end
  end.

Definition writeKnownBlock (block : Blk) : M BlockChain (option bc_error) :=
  current ← CurrentBlock;
  current ← mlift current;
  err ← (if block_ParentHash block =? block_Hash current then mret None else reorg current block);
  match err with
  | Some e => mret (Some e)
  | None =>
      _ ← writeHeadBlock block;
      mret None
  end.

(** The tries below the retention are released. *)
Fixpoint gc_loop (fuel : nat) (chosen : Z) (q : PQ Z) (t : Tries) : PQ Z * Tries :=
  match fuel with
  | O => (q, t)
  | S fuel' =>
      match pq_Peek q, pq_PopItem q with
      | Some (root, number), Some (_, q') =>
          if chosen <? u64 (- number) then (pq_Push root number q', t)
          else gc_loop fuel' chosen q' (trie_Dereference t root)
      | _, _ => (q, t)
      end
  end.

(** The branch of a node that is not an archive. *)
Definition gc_tries (block : Blk) (root : Z) : M BlockChain () :=
  let current := block_NumberU64 block in
  _ ← mmodify (fun bc => set_tries (trie_Reference (tries bc) root) bc);
  _ ← mmodify (fun bc => set_triegc (pq_Push root (i64 (- i64 current)) (triegc bc)) bc);
  if TriesInMemory <? current then
    bc ← mget;
    let '(nodes, imgs) := trie_Size (tries bc) in
    let limit := TrieDirtyLimit (cacheConfig bc) * 1024 * 1024 in
    _ ← (if (limit <? nodes) || (4 * 1024 * 1024 <? imgs)
         then mmodify (fun bc => set_tries (trie_Cap (tries bc) (limit - trie_batch_size)) bc)
         else mret tt);
    let chosen := current - TriesInMemory in
    _ ← (if TrieTimeLimit (cacheConfig bc) <? gcproc bc then
           header ← bc_GetHeaderByNumber chosen;
           match header with
           | None => mret tt
           | Some header =>
               _ ← mmodify (fun bc => set_tries (default (tries bc) (trie_Commit (tries bc) (Root header))) bc);
               _ ← mmodify (set_lastWrite chosen);
               mmodify (set_gcproc 0)
           end
         else mret tt);
    mmodify (fun bc =>
      let '(q, t) := gc_loop (List.length (pq_contents (triegc bc))) chosen (triegc bc) (tries bc) in
      set_tries t (set_triegc q bc))
  else mret tt.

(** The commitment of the state of a block, [None] when it succeeds. *)
Definition commit_state (block : Blk) (statedb : StateDB) : M BlockChain (option bc_error) :=
  bc ← mget;
  match state_Commit (tries bc) statedb with
  | None => mret (Some ErrStateCommit)
  | Some (root, t) =>
      _ ← mmodify (set_tries t);
      if TrieDirtyDisabled (cacheConfig bc) then
        match trie_Commit t root with
        | None => mret (Some ErrTrieCommit)
        | Some t =>
            _ ← mmodify (set_tries t);
            mret None
        end
      else
        _ ← gc_tries block root;
        mret None
  end.

(** Whether the block becomes the head. *)
Definition prefers (block current : Blk) : bool :=
  let n := block_NumberU64 block in
  let c := block_NumberU64 current in
  if c <? n then true
  else if n <? c then true
  else
    let '(currentPreserve, blockPreserve) :=
      match shouldPreserve with Some f => (f current, f block) | None => (false, false) end in
    negb currentPreserve && (blockPreserve || coin block).

Definition writeBlockWithState (block : Blk) (statedb : StateDB) (emitHeadEvent : bool)
    : M BlockChain (WriteStatus * option bc_error) :=
  current ← CurrentBlock;
  match current with
  | None => mret (NonStatTy, Some ErrParentNotHead)
  | Some current =>
      if negb (block_ParentHash block =? block_Hash current) then mret (NonStatTy, Some ErrParentNotHead)
      else
        _ ← bc_write (WriteBlock (fst block) (snd block));
        err ← commit_state block statedb;
        match err with
        | Some e => mret (NonStatTy, Some e)
        | None =>
            let canon := prefers block current in
            err ← (if canon && negb (block_ParentHash block =? block_Hash current)
                   then reorg current block else mret None);
            match err with
            | Some e => mret (NonStatTy, Some e)
            | None =>
                _ ← (if canon then writeHeadBlock block else mret tt);
                _ ← mmodify (fun bc => set_futureBlocks (cache_Remove (block_Hash block) (futureBlocks bc)) bc);
                _ ← (if canon then
                       _ ← send (ChainEvent block);
                       if emitHeadEvent then send (ChainHeadEvent block) else mret tt
                     else send (ChainSideEvent block));
                mret (if canon then CanonStatTy else SideStatTy, None)
            end
        end
  end.

Definition WriteBlockWithState (block : Blk) (statedb : StateDB) (emitHeadEvent : bool) : M BlockChain (WriteStatus * option bc_error) :=
  _ ← lock;
  result ← writeBlockWithState block statedb emitHeadEvent;
  _ ← unlock;
  mret result.

(** ** Importing blocks *)

Definition addFutureBlock (block : Blk) : M BlockChain (option bc_error) :=
  let max := u64 (now_unix + maxTimeFutureBlocks) in
  if max <? big_uint64 (hdr_Time (fst block)) then mret (Some ErrFutureTimestamp)
  else
    _ ← mmodify (fun bc => set_futureBlocks (cache_Add (block_Hash block) block (futureBlocks bc)) bc);
    mret None.

(** The two ways a step of the import ends: the import returns, or goes on with
    the iterator after its last block and error.  [lastCanon] is the last block
    that was made the head. *)
Inductive flow : Type :=
| Return (index : Z) (err : option bc_error)
| Continue (it : insertIterator) (block : option Blk) (err : option bc_error).

(** Known blocks at the front are skipped.  The loop that follows in the source
    has the same guard, so it never runs. *)
Fixpoint skip_known (fuel : nat) (it : insertIterator) (block : option Blk) (err : option bc_error)
    : insertIterator * option Blk * option bc_error :=
  match fuel with
  | O => (it, block, err)
  | S fuel' =>
      match block with
      | Some _ =>
          if err_is err ErrKnownBlock then
            let '(block, err, it) := it_next it in skip_known fuel' it block err
          else (it, block, err)
      | None => (it, block, err)
      end
  end.

(** The loops that queue future blocks, with their guards. *)
Fixpoint queue_future (guard : insertIterator -> option bc_error -> bool) (fuel : nat)
    (it : insertIterator) (block : option Blk) (err : option bc_error) : M BlockChain flow :=
  match fuel with
  | O => mret (Continue it block err)
  | S fuel' =>
      match block with
      | Some b =>
          if guard it err then
            failed ← addFutureBlock b;
            match failed with
            | Some e => mret (Return (it_index it) (Some e))
            | None => let '(block, err, it) := it_next it in queue_future guard fuel' it block err
            end
          else mret (Continue it block err)
      | None => mret (Continue it block err)
      end
  end.

(** A block with no validation error is executed on its parent's state and
    written.  The follow-up block is prefetched by a goroutine; a panic in it
    ends the process. *)
Definition import_block (it : insertIterator) (block : Blk) (lastCanon : option Blk)
    : M BlockChain (option bc_error * option Blk) :=
  found ← (match it_previous it with
           | Some parent => mret (Some parent)
           | None => bc_GetHeader (block_ParentHash block) (u64 (block_NumberU64 block - 1))
           end);
  parent ← mlift found;
  bc ← mget;
  match state_New (tries bc) (Root parent) with
  | None => mret (Some ErrStateMissing, lastCanon)
  | Some statedb =>
      _ ← (if TrieCleanNoPrefetch (cacheConfig bc) then mret tt
           else match it_peek it with
                | (Some _, None) => mlift (prefetcher bc)
                | _ => mret tt
                end);
      let '(err, statedb) := Process block statedb in
      match err with
      | Some e => _ ← reportBlock block e; mret (Some e, lastCanon)
      | None =>
          match ValidateState block statedb with
          | Some e => _ ← reportBlock block e; mret (Some e, lastCanon)
          | None =>
              '(status, err) ← writeBlockWithState block statedb false;
              match err with
              | Some e => mret (Some e, lastCanon)
              | None =>
                  match status with
                  | CanonStatTy =>
                      _ ← mmodify (fun bc => set_gcproc (i64 (gcproc bc + proctime block)) bc);
                      mret (None, Some block)
                  | _ => mret (None, lastCanon)
                  end
              end
          end
      end
  end.

(** The main loop of the import. *)
Fixpoint import_loop (fuel : nat) (it : insertIterator) (block : option Blk) (err : option bc_error) (lastCanon : option Blk)
    : M BlockChain (flow * option Blk) :=
  match fuel with
  | O => mret (Continue it block err, lastCanon)
  | S fuel' =>
      match block with
      | None => mret (Continue it block err, lastCanon)
      | Some b =>
          if negb (bool_decide (err = None) || err_is err ErrKnownBlock) then mret (Continue it block err, lastCanon)
          else
            stopped ← insertStopped;
            if stopped : bool then mret (Continue it block err, lastCanon)
            else if BadHashes (block_Hash b) then
              _ ← reportBlock b ErrBlacklistedHash;
              mret (Return (it_index it) (Some ErrBlacklistedHash), lastCanon)
            else
              '(failed, lastCanon) ←
                (if err_is err ErrKnownBlock then
                   failed ← (writeKnownBlock b : M BlockChain (option bc_error));
                   mret (failed, match failed with Some _ => lastCanon | None => Some b end)
                 else import_block it b lastCanon);
              match failed with
              | Some e => mret (Return (it_index it) (Some e), lastCanon)
              | None => let '(block, err, it) := it_next it in import_loop fuel' it block err lastCanon
              end
      end
  end.

(** The future blocks that remain after the main loop. *)
Definition import_rest (fuel : nat) (it : insertIterator) (block : option Blk) (err : option bc_error) : M BlockChain (Z * option bc_error) :=
  result ←
    (match block with
     | Some b =>
         if err_is err ErrFutureBlock then
           failed ← addFutureBlock b;
           match failed with
           | Some e => mret (Return (it_index it) (Some e))
           | None =>
               let '(block, err, it) := it_next it in
               queue_future (fun _ err => err_is err ErrUnknownAncestor) fuel it block err
           end
         else mret (Continue it block err)
     | None => mret (Continue it block err)
     end);
  match result with
  | Return index err => mret (index, err)
  | Continue it _ err => mret (it_index it, err)
  end.

(** *** Side chains *)

(** The pruned blocks are written without state. *)
Fixpoint write_side (fuel : nat) (current : Blk) (it : insertIterator) (block : option Blk) (err : option bc_error) : M BlockChain flow :=
  match fuel with
  | O => mret (Continue it block err)
  | S fuel' =>
      match block with
      | None => mret (Continue it block err)
      | Some b =>
          if negb (err_is err ErrPrunedAncestor) then mret (Continue it block err)
          else
            let next := let '(block, err, it) := it_next it in write_side fuel' current it block err in
            let number := block_NumberU64 b in
            canonical ← (if number <=? block_NumberU64 current then GetBlockByNumber number else mret None);
            match canonical with
            | Some c =>
                if block_Hash c =? block_Hash b then next
                else if block_Root c =? block_Root b then mret (Return (it_index it) (Some ErrGhostState))
                else
                  known ← bc_HasBlock (block_Hash b) number;
                  _ ← (if known : bool then mret tt else writeBlockWithoutState b);
                  next
            | None =>
                known ← bc_HasBlock (block_Hash b) number;
                _ ← (if known : bool then mret tt else writeBlockWithoutState b);
                next
            end
      end
  end.

(** The headers without state below [parent], the highest first. *)
Fixpoint stateless (fuel : nat) (parent : option Header) (acc : list (Z * Z)) : M BlockChain (option Header * list (Z * Z)) :=
  match fuel with
  | O => mpanic
  | S fuel' =>
      match parent with
      | None => mret (None, acc)
      | Some h =>
          known ← HasState (Root h);
          if known : bool then mret (Some h, acc)
          else
            let number := big_uint64 (Number h) in
            next ← bc_GetHeader (ParentHash h) (u64 (number - 1));
            stateless fuel' next (acc ++ [(Header_Hash h, number)])
      end
  end.

(** The blocks are read back, lowest first, and imported in segments. *)
Fixpoint reimport (insert : list Blk -> M BlockChain (Z * option bc_error)) (todo : list (Z * Z))
    (blocks : list Blk) (memory : Z) : M BlockChain (Z * option bc_error) :=
  match todo with
  | [] => match blocks with [] => mret (0, None) | _ => insert blocks end
  | (hash, number) :: todo' =>
      found ← GetBlock hash number;
      block ← mlift found;
      let blocks := blocks ++ [block] in
      let memory := memory + block_Size block in
      if (2048 <=? Z.of_nat (List.length blocks)) || (64 * 1024 * 1024 <? memory) then
        '(_, err) ← insert blocks;
        match err with
        | Some e => mret (0, Some e)
        | None =>
            stopped ← insertStopped;
            if stopped : bool then mret (0, None) else reimport insert todo' [] 0
        end
      else reimport insert todo' blocks memory
  end.

Definition insertSideChain (insert : list Blk -> M BlockChain (Z * option bc_error)) (block : option Blk) (it : insertIterator)
    : M BlockChain (Z * option bc_error) :=
  current ← CurrentBlock;
  current ← mlift current;
  result ← write_side (S (List.length (it_chain it))) current it block (Some ErrPrunedAncestor);
  match result with
  | Return index err => mret (index, err)
  | Continue it _ _ =>
      bc ← mget;
      '(parent, missing) ← stateless (bc_fuel bc + List.length (it_chain it)) (it_previous it) [];
      match parent with
      | None => mret (it_index it, Some ErrMissingParent)
      | Some _ => reimport insert (rev missing) [] 0
      end
  end.

(** [defer]: one head event for the whole batch. *)
Definition head_event (lastCanon : option Blk) : M BlockChain () :=
  match lastCanon with
  | None => mret tt
  | Some block =>
      current ← CurrentBlock;
      current ← mlift current;
      if block_Hash current =? block_Hash block then send (ChainHeadEvent block) else mret tt
  end.

(** The import after the first block is known, with its four cases. *)
Definition import_cases (insert : list Blk -> M BlockChain (Z * option bc_error)) (n : nat)
    (it : insertIterator) (block : option Blk) (err : option bc_error) : M BlockChain (Z * option bc_error) :=
  bc ← mget;
  first ← mlift (it_first it);
  if err_is err ErrPrunedAncestor then insertSideChain insert block it
  else if err_is err ErrFutureBlock
          || (err_is err ErrUnknownAncestor && cache_Contains (futureBlocks bc) (block_ParentHash first)) then
    result ← queue_future (fun it err => (it_index it =? 0) || err_is err ErrUnknownAncestor) n it block err;
    match result with
    | Return index err => mret (index, err)
    | Continue it _ err => mret (it_index it, err)
    end
  else
    match err with
    | Some e =>
        b ← mlift block;
        _ ← mmodify (fun bc => set_futureBlocks (cache_Remove (block_Hash b) (futureBlocks bc)) bc);
        _ ← reportBlock b e;
        mret (it_index it, Some e)
    | None =>
        '(result, lastCanon) ← import_loop n it block err None;
        result ← (match result with
                  | Return index err => mret (index, err)
                  | Continue it block err => import_rest n it block err
                  end);
        _ ← head_event lastCanon;
        mret result
    end.

(** [depth] bounds the nesting of imports of side chains. *)
Fixpoint insertChain (depth : nat) (chain : list Blk) : M BlockChain (Z * option bc_error) :=
  match depth with
  | O => mpanic
  | S depth' =>
      stopped ← insertStopped;
      if stopped : bool then mret (0, None)
      else
        _ ← mlift (head chain);
        let n := S (List.length chain) in
        let '(block, err, it) := it_next (newInsertIterator chain) in
        let '(it, block, err) := skip_known n it block err in
        import_cases (insertChain depth') n it block err
  end.

Fixpoint first_break (i : nat) (prev : Blk) (chain : list Blk) : option nat :=
  match chain with
  | [] => None
  | block :: chain' =>
      if negb (block_NumberU64 block =? u64 (block_NumberU64 prev + 1)) || negb (block_ParentHash block =? block_Hash prev)
      then Some i else first_break (S i) block chain'
  end.

Definition InsertChain (depth : nat) (chain : list Blk) : M BlockChain (Z * option bc_error) :=
  match chain with
  | [] => mret (0, None)
  | first :: rest =>
      _ ← send (BlockProc true);
      result ← (match first_break 1 first rest with
                | Some i => mret (0, Some (ErrNonContiguousBlocks i))
                | None =>
                    _ ← lock;
                    result ← insertChain depth chain;
                    _ ← unlock;
                    mret result
                end);
      _ ← send (BlockProc false);
      mret result
  end.

(** The future blocks are imported one by one, by increasing number. *)
Definition future_queue (bc : BlockChain) : list Blk :=
  omap (cache_peek (futureBlocks bc)) (cache_Keys (futureBlocks bc)).

Definition block_le (a b : Blk) : Prop := block_NumberU64 a <= block_NumberU64 b.
#[local] Instance block_le_dec a b : Decision (block_le a b) := Z_le_dec _ _.

Definition procFutureBlocks (depth : nat) : M BlockChain () :=
  bc ← mget;
  mfor (merge_sort block_le (future_queue bc)) (fun block => _ ← InsertChain depth [block]; mret tt).

Definition ValidateNewBlock (block : Blk) : M BlockChain (option bc_error) :=
  current ← CurrentBlock;
  current ← mlift current;
  bc ← mget;
  match state_New (tries bc) (block_Root current) with
  | None => mret (Some ErrStateMissing)
  | Some statedb =>
      let '(err, statedb) := Process block statedb in
      match err with
      | Some e => _ ← reportBlock block e; mret (Some e)
      | None =>
          match ValidateState block statedb with
          | Some e => _ ← reportBlock block e; mret (Some e)
          | None => mret None
          end
      end
  end.

Definition bc_InsertHeaderChain (rand : nat -> Z) (verify : list Header -> list bool -> nat -> option Z)
    (flip : nat -> bool) (chain : list Header) (checkFreq : Z) : M BlockChain (nat * option chain_error) :=
  bc ← mget;
  '(i, err) ← mlift (ValidateHeaderChain rand (fun _ => procInterrupt bc) verify chain checkFreq);
  match err with
  | Some e => mret (i, Some e)
  | None =>
      _ ← lock;
      result ← on_hc (InsertHeaderChain (fun _ => procInterrupt bc)
        (fun i header => _ ← hc_WriteHeader (flip i) header; mret (None : option Z)) chain);
      _ ← unlock;
      mret result
  end.

(** ** Rewinding *)

(** The loop of the update callback: down to a block with state, beyond the
    requested root if there is one.  The result is the block and the number at
    which the root was found. *)
Fixpoint rewind_block (fuel : nat) (root : Z) (pivot : option Z) (beyondRoot : bool) (rootNumber : Z) (newHeadBlock : option Blk)
    : M BlockChain (Blk * Z) :=
  match fuel with
  | O => mpanic
  | S fuel' =>
      b ← mlift newHeadBlock;
      let crossed := negb (root =? 0) && negb beyondRoot && (block_Root b =? root) in
      let beyondRoot := beyondRoot || crossed in
      let rootNumber := if crossed then block_NumberU64 b else rootNumber in
      bc ← mget;
      let check (b : Blk) : M BlockChain (Blk * Z) :=
        if beyondRoot || (block_NumberU64 b =? 0) then mret (b, rootNumber)
        else
          parent ← parent_block b;
          rewind_block fuel' root pivot beyondRoot rootNumber parent in
      match state_New (tries bc) (block_Root b) with
      | Some _ => check b
      | None =>
          if (match pivot with None => true | Some p => p <? block_NumberU64 b end) then
            parent ← parent_block b;
            rewind_block fuel' root pivot beyondRoot rootNumber parent
          else
            genesis ← mlift (genesisBlock bc);
            check genesis
      end
  end.

(** The first half of the callback: the head block. *)
Definition rewind_head (root : Z) (pivot : option Z) (rootNumber : Z) (header : Header) : M BlockChain (list db_op * Z) :=
  let number := big_uint64 (Number header) in
  bc ← mget;
  match currentBlock bc with
  | None => mret ([], rootNumber)
  | Some current =>
      if number <=? block_NumberU64 current then
        found ← GetBlock (Header_Hash header) number;
        '(newHeadBlock, rootNumber) ←
          (match found with
           | None => genesis ← mlift (genesisBlock bc); mret (genesis, rootNumber)
           | Some _ => rewind_block (bc_fuel bc) root pivot (root =? 0) rootNumber found
           end);
        _ ← mmodify (set_currentBlock (Some newHeadBlock));
        mret (WriteHeadBlockHash (block_Hash newHeadBlock), rootNumber)
      else mret ([], rootNumber)
  end.

(** The second half: the fast block. *)
Definition rewind_fast (header : Header) : M BlockChain (list db_op) :=
  let number := big_uint64 (Number header) in
  bc ← mget;
  match currentFastBlock bc with
  | None => mret []
  | Some fast =>
      if number <? block_NumberU64 fast then
        found ← GetBlock (Header_Hash header) number;
        newHeadFastBlock ← mlift (match found with Some b => Some b | None => genesisBlock bc end);
        _ ← mmodify (set_currentFastBlock (Some newHeadFastBlock));
        mret (WriteHeadFastBlockHash (block_Hash newHeadFastBlock))
      else mret []
  end.

(** The update callback: what it writes, the new head, whether to go on down to
    it, and the number of the root. *)
Definition updateFn (root : Z) (pivot : option Z) (limit : Z) (rootNumber : Z) (header : Header)
    : M BlockChain (list db_op * Z * bool * Z) :=
  '(ops, rootNumber) ← rewind_head root pivot rootNumber header;
  ops' ← rewind_fast header;
  current ← CurrentBlock;
  current ← mlift current;
  let head := block_NumberU64 current in
  let wipe := (u64 (head + 1) <? limit) && (match pivot with None => true | Some p => p <=? head end) in
  mret (ops ++ ops', head, wipe, rootNumber).

Definition TruncateAncients (n : Z) : M BlockChain () :=
  mmodify (fun bc => set_frozen (Z.min n (frozen bc)) bc).

Definition bc_delFn (hash num : Z) : M BlockChain (list db_op) :=
  bc ← mget;
  if u64 (num + 1) <=? frozen bc then
    _ ← TruncateAncients num;
    mret (DeleteHeaderNumber hash)
  else mret (DeleteBody hash num).

(** The deletions of [hc.SetHead] with this callback. *)
Fixpoint delete_hashes (hashes : list Z) (num : Z) : M BlockChain (list db_op) :=
  match hashes with
  | [] => mret []
  | hash :: hashes' =>
      ops ← bc_delFn hash num;
      rest ← delete_hashes hashes' num;
      mret ((ops ++ DeleteHeader hash num) ++ rest)
  end.

Fixpoint delete_nums (hdr : Header) (nums : list Z) : M BlockChain (list db_op) :=
  match nums with
  | [] => mret []
  | num :: nums' =>
      bc ← mget;
      let hashes := match ReadAllHashes (bc_db bc) num with [] => [Header_Hash hdr] | hashes => hashes end in
      ops ← delete_hashes hashes num;
      rest ← delete_nums hdr nums';
      mret ((ops ++ DeleteCanonicalHash num) ++ rest)
  end.

(** The loop of [hc.SetHead] with callbacks that act on the block chain. *)
Fixpoint bc_head_loop (update : Z -> Header -> M BlockChain (list db_op * Z * bool * Z)) (fuel : nat)
    (head : Z) (batch : list db_op) (origin : bool) (rootNumber : Z) : M BlockChain (list db_op * Z) :=
  match fuel with
  | O => mpanic
  | S fuel' =>
      hdr ← on_hc CurrentHeader;
      let num := big_uint64 (Number hdr) in
      if num <=? head then mret (batch, rootNumber)
      else
        found ← bc_GetHeader (ParentHash hdr) (u64 (num - 1));
        bc ← mget;
        parent ← mlift (match found with Some p => Some p | None => genesisHeader (bc_hc bc) end);
        '(markerBatch, newHead, force, rootNumber) ← update rootNumber parent;
        let head := if (force : bool) && (newHead <? head) then newHead else head in
        _ ← bc_write (markerBatch ++ WriteHeadHeaderHash (ParentHash hdr));
        _ ← on_hc (mmodify (set_current parent (ParentHash hdr)));
        bc ← mget;
        nums ← (if origin then mlift (leftovers (bc_fuel bc) (bc_db bc) (u64 (num + 1)) []) else mret []);
        ops ← delete_nums hdr (nums ++ [num]);
        bc_head_loop update fuel' head (batch ++ ops) false rootNumber
  end.

Definition bc_hc_SetHead (update : Z -> Header -> M BlockChain (list db_op * Z * bool * Z)) (head rootNumber : Z) : M BlockChain Z :=
  bc ← mget;
  '(batch, rootNumber) ← bc_head_loop update (bc_fuel bc) head [] true rootNumber;
  _ ← bc_write batch;
  _ ← on_hc (mmodify (fun hc => set_headerCache (cache_Purge (headerCache hc)) hc));
  _ ← on_hc (mmodify (fun hc => set_numberCache (cache_Purge (numberCache hc)) hc));
  mret rootNumber.

Definition purge_caches : M BlockChain () :=
  mmodify (fun bc =>
    set_futureBlocks (cache_Purge (futureBlocks bc)) (set_txLookupCache (cache_Purge (txLookupCache bc))
      (set_blockCache (cache_Purge (blockCache bc)) (set_bodyRLPCache (cache_Purge (bodyRLPCache bc))
        (set_bodyCache (cache_Purge (bodyCache bc)) bc))))).

(** No path of these functions makes an error of its own, so the returned errors
    are always nil.  [load] is [loadLastState]. *)
Definition set_head_beyond (load : M BlockChain ()) (head root : Z) : M BlockChain Z :=
  _ ← lock;
  bc ← mget;
  let update := updateFn root (ReadLastPivotNumber (bc_db bc)) (frozen bc) in
  block ← mlift (currentBlock bc);
  rootNumber ←
    (if block_NumberU64 block =? head then
       '(ops, target, force, rootNumber) ← update 0 (fst block);
       _ ← bc_write ops;
       if (force : bool) then bc_hc_SetHead update target rootNumber else mret rootNumber
     else bc_hc_SetHead update head 0);
  _ ← purge_caches;
  _ ← load;
  _ ← unlock;
  mret rootNumber.

Definition reset_with (setHead : M BlockChain Z) (genesis : option Blk) : M BlockChain () :=
  _ ← setHead;
  _ ← lock;
  g ← mlift genesis;
  _ ← bc_write (WriteBlock (fst g) (snd g));
  _ ← writeHeadBlock g;
  _ ← mmodify (set_genesisBlock (Some g));
  _ ← mmodify (set_currentBlock (Some g));
  _ ← on_hc (SetGenesis (fst g));
  _ ← on_hc (SetCurrentHeader (fst g));
  _ ← mmodify (set_currentFastBlock (Some g));
  unlock.

(** [reset] is [Reset], called when the head block is missing. *)
Definition load_last_state (reset : M BlockChain ()) : M BlockChain () :=
  bc ← mget;
  let head := ReadHeadBlockHash (bc_db bc) in
  if head =? 0 then reset
  else
    found ← GetBlockByHash head;
    match found with
    | None => reset
    | Some block =>
        _ ← mmodify (set_currentBlock (Some block));
        bc ← mget;
        let headHeader := ReadHeadHeaderHash (bc_db bc) in
        header ← (if headHeader =? 0 then mret None else bc_GetHeaderByHash headHeader);
        _ ← on_hc (SetCurrentHeader (default (fst block) header));
        _ ← mmodify (set_currentFastBlock (Some block));
        bc ← mget;
        let headFast := ReadHeadFastBlockHash (bc_db bc) in
        if headFast =? 0 then mret tt
        else
          fast ← GetBlockByHash headFast;
          match fast with
          | None => mret tt
          | Some fast => mmodify (set_currentFastBlock (Some fast))
          end
    end.

(** [loadLastState] calls [Reset], which calls [SetHead], which ends with
    [loadLastState]; [depth] bounds this nesting. *)
Fixpoint loadLastState (depth : nat) : M BlockChain () :=
  match depth with
  | O => mpanic
  | S depth' =>
      load_last_state (bc ← mget; reset_with (set_head_beyond (loadLastState depth') 0 0) (genesisBlock bc))
  end.

Definition SetHeadBeyondRoot (depth : nat) (head root : Z) : M BlockChain Z := set_head_beyond (loadLastState depth) head root.
Definition bc_SetHead (depth : nat) (head : Z) : M BlockChain () := _ ← SetHeadBeyondRoot depth head 0; mret tt.
Definition ResetWithGenesisBlock (depth : nat) (genesis : option Blk) : M BlockChain () :=
  reset_with (SetHeadBeyondRoot depth 0 0) genesis.
Definition Reset (depth : nat) : M BlockChain () := bc ← mget; ResetWithGenesisBlock depth (genesisBlock bc).

(** ** Construction *)

(** The repair of a head without state. *)
Definition repair_head (depth : nat) : M BlockChain () :=
  bc ← mget;
  head ← mlift (currentBlock bc);
  match state_New (tries bc) (block_Root head) with
  | Some _ => mret tt
  | None =>
      let diskRoot := if 0 <? SnapshotLimit (cacheConfig bc) then ReadSnapshotRoot (bc_db bc) else 0 in
      if diskRoot =? 0 then bc_SetHead depth (block_NumberU64 head)
      else
        snapDisk ← SetHeadBeyondRoot depth (block_NumberU64 head) diskRoot;
        if snapDisk =? 0 then mret tt else bc_write (WriteSnapshotRecoveryNumber snapDisk)
  end.

(** The truncation of a freezer that is ahead of the head. *)
Definition repair_ancients (depth : nat) : M BlockChain () :=
  bc ← mget;
  if 0 <? frozen bc then
    full ← CurrentBlock;
    genesis ← mlift (genesisBlock bc);
    let '(needRewind, low) :=
      match full with
      | Some b =>
          if negb (block_Hash b =? block_Hash genesis) && (block_NumberU64 b <? frozen bc - 1)
          then (true, block_NumberU64 b) else (false, 0)
      | None => (false, 0)
      end in
    let '(needRewind, low) :=
      match currentFastBlock bc with
      | Some b =>
          if block_NumberU64 b <? frozen bc - 1
          then (true, if (block_NumberU64 b <? low) || (low =? 0) then block_NumberU64 b else low) else (needRewind, low)
      | None => (needRewind, low)
      end in
    if needRewind : bool then bc_SetHead depth low else mret tt
  else mret tt.

(** The database is filled from the freezer when the chain is empty.  The loop
    over the bad hashes has nothing to iterate over; the snapshot tree and the
    background goroutines are not part of the state. *)
Definition open_chain {ienv : IndexEnv} (ancient_hash : Z -> Z) (depth : nat) : M BlockChain () :=
  bc ← mget;
  isEmpty ← mlift (bc_empty bc);
  _ ← (if isEmpty : bool
       then on_hc (mmodify (fun hc => set_chainDb (InitDatabaseFromFreezer ancient_hash (Z.to_nat (frozen bc)) (chainDb hc)) hc))
       else mret tt);
  _ ← loadLastState depth;
  _ ← repair_head depth;
  repair_ancients depth.

Definition NewBlockChain {ienv : IndexEnv} (ancient_hash : Z -> Z) (depth : nat) (db : DB) (config : option CacheConfig)
    (t : Tries) (ancients : Z) : option (BlockChain + chain_error) :=
  chain ← NewHeaderChain db;
  match chain with
  | inr e => Some (inr e)
  | inl hc =>
      '(genesis, bc) ← GetBlockByNumber 0 (new_bc hc (default defaultCacheConfig config) None t ancients);
      match genesis with
      | None => Some (inr ErrNoGenesis)
      | Some genesis =>
          '(_, bc) ← open_chain ancient_hash depth (set_genesisBlock (Some genesis) bc);
          Some (inl bc)
      end
  end.

(** ** Stopping *)

(** The recent states are committed and the queued tries released. *)
Definition commit_recent (offset : Z) : M BlockChain () :=
  current ← CurrentBlock;
  current ← mlift current;
  let number := block_NumberU64 current in
  if offset <? number then
    found ← GetBlockByNumber (number - offset);
    recent ← mlift found;
    mmodify (fun bc => set_tries (default (tries bc) (trie_Commit (tries bc) (block_Root recent))) bc)
  else mret tt.

Fixpoint release_all (fuel : nat) (q : PQ Z) (t : Tries) : PQ Z * Tries :=
  match fuel with
  | O => (q, t)
  | S fuel' =>
      match pq_PopItem q with
      | Some (root, q') => release_all fuel' q' (trie_Dereference t root)
      | None => (q, t)
      end
  end.

(** [snapBase] is the root of the journalled snapshot, zero without one. *)
Definition Stop (snapBase : Z) : M BlockChain () :=
  _ ← StopInsert;
  bc ← mget;
  if TrieDirtyDisabled (cacheConfig bc) then mret tt
  else
    _ ← mfor [0; 1; TriesInMemory - 1] commit_recent;
    _ ← (if snapBase =? 0 then mret tt
         else mmodify (fun bc => set_tries (default (tries bc) (trie_Commit (tries bc) snapBase)) bc));
    mmodify (fun bc =>
      let '(q, t) := release_all (List.length (pq_contents (triegc bc))) (triegc bc) (tries bc) in
      set_tries t (set_triegc q bc)).

End BlockChain.
