(* ===== verification/BlockChainSpec.v ===== *)
(** * Correctness of the block chain

    Shown of the model of [BlockChain]: importing a block on top of the head ends
    with the block as head, its header canonical, its transactions found by hash
    and the two events sent; a block whose parent is unknown, a second block in a
    batch, and any use of the commit signatures end in a panic. *)
From stdpp Require Import gmap list sorting.
From Stdlib Require Import ZArith Lia.
From S2P Require Import Prelude Transaction RawDb HeaderChain HeaderChainSpec TxIndexer BlockChain.

Local Open Scope Z_scope.

Section HeaderState.
Context {codec : DbCodec} {laws : DbLaws} {lru : Lru} {lru_laws : LruLaws}.
Implicit Types (db : DB) (hc : HeaderChain).

(** ** Writes below the header chain *)

Lemma content_keys ops : Forall content_op ops -> Forall (fun op => exists k, op_key k op) ops.
Proof. intros H. eapply Forall_impl; [exact H|]. intros op (k & Hk & _). eauto. Qed.

Lemma store_ok_content db ops : store_ok db -> Forall content_op ops -> store_ok (db_write db ops).
Proof.
  intros Hs Hops. apply (store_ok_agree db); [done|by apply content_agree|].
  apply db_write_bytes; [by apply content_keys|apply Hs].
Qed.

(** The header chain stays right when the database agrees with its own on the
    header records. *)
Lemma hc_ok_agree hc head db' :
  hc_ok hc head -> chain_agree (chainDb hc) db' -> store_ok db' -> hc_ok (set_chainDb db' hc) head.
Proof.
  intros [Hs Hca Hc Hcur (g & Eg & Hg)] Ha Hs'. pose proof (ca_range _ _ Hca) as Hr.
  destruct (ca_below _ _ Hca 0) as (_ & _ & Hh0 & _); [lia|]. split; try done; cbn [chainDb set_chainDb genesisHeader].
  - by apply (canon_ok_agree (chainDb hc)).
  - apply caches_ok_grow; try done. intros n h hdr Hn Hh. by rewrite (agree_header (chainDb hc) db').
  - exists g. split; [done|]. by rewrite (agree_canon (chainDb hc) db'), (agree_header (chainDb hc) db') by side.
Qed.

Lemma insertable_agree db db' header : insertable db header -> chain_agree db db' -> insertable db' header.
Proof.
  intros [Henc Hr Hph Hpar Hfresh] Ha. split; try done.
  - by apply (agree_has db db'); [|side|..].
  - intros n x Hn. rewrite (agree_header db db') by side. by apply Hfresh.
Qed.

Lemma body_content h n (body : Body) : is_u64 n -> is_hash h -> Forall content_op (WriteBody h n body).
Proof.
  intros Hn Hh. constructor; [|constructor]. exists (KBody n h). split; [right; by eexists|]. split; [done|]. intros [].
Qed.

Lemma block_written hc head header (body : Body) :
  hc_ok hc head -> insertable (chainDb hc) header ->
  let db' := db_write (chainDb hc) (WriteBlock header body) in
  hc_ok (set_chainDb db' hc) head /\ insertable db' header /\
  ReadHeader db' (Header_Hash header) (Number header) = Some header.
Proof.
  intros Hok Hin db'. destruct (in_encodable _ _ Hin) as [Hu _]. pose proof (in_range _ _ Hin) as Hr.
  set (ops := WriteBody (Header_Hash header) (big_uint64 (Number header)) body).
  assert (Hops : Forall content_op ops) by (unfold ops; rewrite big_uint64_small by done; apply body_content; side).
  assert (Ha : chain_agree (chainDb hc) (db_write (chainDb hc) ops)) by (by apply content_agree).
  assert (Hin1 : insertable (db_write (chainDb hc) ops) header) by (by apply (insertable_agree (chainDb hc))).
  unfold db', WriteBlock. rewrite db_write_app. fold ops. split; [|split].
  - apply (hc_ok_written (set_chainDb (db_write (chainDb hc) ops) hc)); [|done].
    apply hc_ok_agree; [done..|]. apply store_ok_content; [apply Hok|done].
  - by apply insertable_written.
  - rewrite ReadHeader_write, decide_True by (try side; apply Hin). done.
Qed.

(** The canonical hash of a stored header that extends the head, and writes that
    are not of headers, make it the head. *)
Lemma head_extended hc head header ops :
  hc_ok hc head -> insertable (chainDb hc) header ->
  ReadHeader (chainDb hc) (Header_Hash header) (Number header) = Some header ->
  ParentHash header = Header_Hash head -> Number header = Number head + 1 -> Forall content_op ops ->
  let db' := db_write (chainDb hc) (WriteCanonicalHash (Header_Hash header) (Number header) ++ ops) in
  hc_ok (set_current header (Header_Hash header) (set_chainDb db' hc)) header.
Proof.
  intros Hok Hin Hread Hp Hn Hops db'. destruct (Hok) as [Hs Hca Hc _ (g & Eg & Hg)].
  pose proof (in_range _ _ Hin) as Hr. pose proof (ca_range _ _ Hca) as HN.
  set (db := chainDb hc) in *. set (A := ReadCanonicalHash db). set (marks := head_ops header A 0 0).
  destruct (ca_below _ _ Hca 0) as (_ & _ & Hh0 & _); [lia|].
  pose proof (canonical_is_ancestry db head Hs Hca) as HA.
  assert (EA : A (Number header - 1) = ParentHash header)
    by (unfold A; replace (Number header - 1) with (Number head) by lia; rewrite Hp; apply (ca_head _ _ Hca)).
  assert (Hm : Forall is_marker marks) by (apply head_ops_markers; lia).
  assert (Hcanon : forall k, is_u64 k -> ReadCanonicalHash (db_write db marks) k
    = if decide (k = Number header) then Header_Hash header else if decide (Number header < k) then 0 else A k).
  { intros k Hk. apply head_ops_canon; try done; try lia.
    - intros j Hj. apply HA. lia.
    - intros j Hj. apply (ca_above _ _ Hca). lia. }
  assert (E0 : ReadCanonicalHash (db_write db marks) 0 = ReadCanonicalHash db 0)
    by (rewrite Hcanon, decide_False, decide_False by side; done).
  assert (Hs1 : store_ok (db_write db marks)) by (by apply store_ok_markers).
  assert (Ha : chain_agree (db_write db marks) db').
  { intros k Hk Hkok. unfold db', marks, head_ops. cbn [delete_ops reroute_ops app].
    rewrite (db_write_app _ (WriteCanonicalHash _ _)), (db_write_app _ (WriteCanonicalHash _ _)).
    rewrite (content_agree _ ops Hops k Hk Hkok), (content_agree _ (WriteHeadHeaderHash _)); [done| |done..].
    constructor; [|constructor]. exists (KNamed NHeadHeader). split; [right; by eexists|]. split; [done|intros []]. }
  assert (Hs' : store_ok db').
  { apply (store_ok_agree (db_write db marks)); [done..|]. apply db_write_bytes; [|apply Hs].
    apply Forall_app. split; [|by apply content_keys]. constructor; [|constructor].
    exists (KCanonical (Number header)). right. by eexists. }
  assert (Hgrow : forall n h, is_u64 n -> is_hash h -> ReadHeader db' h n = ReadHeader db h n)
    by (intros n h Hn' Hh; rewrite (agree_header _ db' n h Ha), header_markers by done; done).
  assert (Hcc : caches_ok (set_chainDb db' hc))
    by (apply caches_ok_grow; try done; intros n h hdr Hn' Hh; by rewrite Hgrow).
  split; cbn [chainDb set_current set_chainDb genesisHeader]; try done.
  - apply (canon_ok_agree (db_write db marks)); [|done]. apply canon_ok_new; try done; try lia.
    intros k Hk. apply HA. lia.
  - split; apply Hcc.
  - exists g. split; [done|]. by rewrite (agree_canon _ db' 0 Ha), E0, Hgrow by side.
Qed.

End HeaderState.

Section BlockSpec.
Context {codec : DbCodec} {laws : DbLaws} {crypto : TxCrypto} {lru : Lru} {lru_laws : LruLaws} {pq : Prque}
  {tdb : TrieDb} {env : ChainEnv}.
Context (rlp_skips_hash : forall d, rlp_encode_tx (set_dataHash d None) = rlp_encode_tx d).
Implicit Types (bc : BlockChain) (block head : Blk).

(** ** The invariant *)

(** The three markers of the head on disk. *)
Definition marked (db : DB) (h : Z) : Prop :=
  ReadHeadBlockHash db = h /\ ReadHeadHeaderHash db = h /\ ReadHeadFastBlockHash db = h.

(** The header chain is right and its head is the head block, which is also the
    one recorded on disk; every canonical block has a body, that of the head
    with its transactions. *)
Record bc_ok bc head : Prop := {
  bo_chain : hc_ok (bc_hc bc) (fst head);
  bo_current : currentBlock bc = Some head;
  bo_disk : marked (bc_db bc) (block_Hash head);
  bo_bodies : forall n, 0 <= n <= Number (fst head) -> is_Some (ReadBody (bc_db bc) (ReadCanonicalHash (bc_db bc) n) n);
  bo_body : exists body, ReadBody (bc_db bc) (block_Hash head) (Number (fst head)) = Some body /\
    tx_content <$> body = tx_content <$> snd head
}.

(** A block on top of the head whose transactions can be stored and told apart. *)
Record extends bc head block : Prop := {
  ex_header : insertable (bc_db bc) (fst block);
  ex_parent : block_ParentHash block = block_Hash head;
  ex_number : Number (fst block) = Number (fst head) + 1;
  ex_encodable : Forall tx_encodable (snd block);
  ex_hashes : Forall is_hash (tx_hash <$> snd block);
  ex_distinct : NoDup (tx_hash <$> snd block)
}.

Lemma bc_ok_ext bc bc' head : bc_ok bc head -> bc_hc bc' = bc_hc bc -> currentBlock bc' = currentBlock bc -> bc_ok bc' head.
Proof. intros [H1 H2 H3 H4 H5] E1 E2. split; unfold bc_db in *; by rewrite ?E1, ?E2. Qed.

Lemma extends_ext bc bc' head block : extends bc head block -> bc_hc bc' = bc_hc bc -> extends bc' head block.
Proof. intros [H1 H2 H3 H4 H5 H6] E. split; try done. unfold bc_db in *. by rewrite E. Qed.

(** The state of the parent is there and its commitment does not fail. *)
Definition state_ready bc (root : Z) : Prop :=
  exists statedb root' t, state_New (tries bc) root = Some statedb /\ state_Commit (tries bc) statedb = Some (root', t) /\
    (TrieDirtyDisabled (cacheConfig bc) = true -> is_Some (trie_Commit t root')).

(** Every transaction of the block is found by its hash. *)
Definition indexed (db : DB) block : Prop :=
  forall i tx, snd block !! i = Some tx -> exists tx',
    ReadTransaction db (tx_hash tx) = Some (tx', block_Hash block, Number (fst block), Z.of_nat i) /\
    tx_content tx' = tx_content tx.

(** ** The database after a head block *)

(** What is written besides the canonical hash. *)
Definition head_rest block : list db_op :=
  (WriteTxLookupEntriesByBlock (fst block) (snd block)
    ++ WriteHeadBlockHash (block_Hash block)
    ++ WriteHeadHeaderHash (block_Hash block) ++ WriteHeadFastBlockHash (block_Hash block))
    ++ WriteHeadHeaderHash (block_Hash block).

Lemma head_marks_keys block (P : db_key) :
  P <> KNamed NHeadBlock -> P <> KNamed NHeadHeader -> P <> KNamed NHeadFast ->
  Forall (fun op => exists k', op_key k' op /\ key_ok k' /\ k' <> P)
    (WriteHeadBlockHash (block_Hash block) ++ WriteHeadHeaderHash (block_Hash block) ++
     WriteHeadFastBlockHash (block_Hash block) ++ WriteHeadHeaderHash (block_Hash block)).
Proof.
  intros H1 H2 H3. repeat constructor;
    [exists (KNamed NHeadBlock)|exists (KNamed NHeadHeader)|exists (KNamed NHeadFast)|exists (KNamed NHeadHeader)];
    (split; [right; by eexists|by split]).
Qed.

Lemma head_rest_keys block (P : db_key) :
  Forall is_hash (tx_hash <$> snd block) -> (forall h, P <> KTxLookup h) ->
  P <> KNamed NHeadBlock -> P <> KNamed NHeadHeader -> P <> KNamed NHeadFast ->
  Forall (fun op => exists k', op_key k' op /\ key_ok k' /\ k' <> P) (head_rest block).
Proof.
  intros Hall Ht H1 H2 H3. unfold head_rest. rewrite <- !app_assoc. apply Forall_app. split.
  - apply tx_entries_keys; [done|]. intros h E. by apply (Ht h).
  - by apply head_marks_keys.
Qed.

Lemma head_rest_content block : Forall is_hash (tx_hash <$> snd block) -> Forall content_op (head_rest block).
Proof.
  intros Hall. unfold head_rest. rewrite <- !app_assoc. apply Forall_app. split.
  - unfold WriteTxLookupEntriesByBlock. induction (snd block) as [|tx body IH]; [constructor|].
    apply Forall_cons in Hall as [Hx Hall]. constructor; [|by apply IH].
    exists (KTxLookup (tx_hash tx)). split; [right; by eexists|]. split; [done|intros []].
  - repeat constructor;
      [exists (KNamed NHeadBlock)|exists (KNamed NHeadHeader)|exists (KNamed NHeadFast)|exists (KNamed NHeadHeader)];
      (split; [right; by eexists|]); (split; [done|intros []]).
Qed.

Section HeadDb.
Context (db : DB) (block : Blk).
Context (Hu : is_u64 (Number (fst block))) (Henc : Forall tx_encodable (snd block))
  (Hall : Forall is_hash (tx_hash <$> snd block)).

Definition head_db : DB :=
  db_write (db_write db (WriteBlock (fst block) (snd block)))
    (WriteCanonicalHash (block_Hash block) (Number (fst block)) ++ head_rest block).

Lemma head_db_body :
  exists body, ReadBody head_db (block_Hash block) (Number (fst block)) = Some body /\
    tx_content <$> body = tx_content <$> snd block.
Proof.
  pose proof (header_hash_ok (fst block)) as Hh. unfold head_db, WriteBlock, WriteHeader, block_Hash.
  rewrite big_uint64_small by done. rewrite db_write_app, body_others by (try done; by apply head_rest_keys).
  rewrite !db_write_app, !body_others by (try done; unfold WriteCanonicalHash, WriteHeaderNumber; other_ops).
  by apply ReadBody_write.
Qed.

Lemma head_db_entry i tx :
  snd block !! i = Some tx -> Get head_db (txLookupKey (tx_hash tx)) = int_bytes (Number (fst block)).
Proof.
  intros Hi. unfold Get, head_db, head_rest. rewrite <- !app_assoc, !(db_write_app _ (WriteCanonicalHash _ _)).
  rewrite (db_write_app _ (WriteTxLookupEntriesByBlock _ _)).
  change (txLookupKey (tx_hash tx)) with (key_bytes (KTxLookup (tx_hash tx))).
  assert (is_hash (tx_hash tx)).
  { rewrite Forall_forall in Hall. apply Hall, list_elem_of_fmap. exists tx. split; [done|by eapply list_elem_of_lookup_2]. }
  rewrite lookup_others by (try done; by apply head_marks_keys). by rewrite (tx_entry_lookup _ _ _ i).
Qed.

Lemma head_db_marked : marked head_db (block_Hash block).
Proof.
  unfold head_db, head_rest. rewrite <- !app_assoc, !(db_write_app _ (WriteCanonicalHash _ _)).
  rewrite (db_write_app _ (WriteTxLookupEntriesByBlock _ _)). set (db1 := db_write _ (WriteTxLookupEntriesByBlock _ _)).
  assert (Hmark : forall n, n = NHeadBlock \/ n = NHeadHeader \/ n = NHeadFast ->
    read_hash (db_write db1 (WriteHeadBlockHash (block_Hash block) ++ WriteHeadHeaderHash (block_Hash block) ++
      WriteHeadFastBlockHash (block_Hash block) ++ WriteHeadHeaderHash (block_Hash block))) (key_bytes (KNamed n)) = block_Hash block).
  { intros n Hn. unfold read_hash, Get.
    change (db_write db1 _) with (db_apply (db_apply (db_apply (db_apply db1
      (Put (key_bytes (KNamed NHeadBlock)) (hash_to_bytes (block_Hash block))))
      (Put (key_bytes (KNamed NHeadHeader)) (hash_to_bytes (block_Hash block))))
      (Put (key_bytes (KNamed NHeadFast)) (hash_to_bytes (block_Hash block))))
      (Put (key_bytes (KNamed NHeadHeader)) (hash_to_bytes (block_Hash block)))).
    rewrite !lookup_put by done. pose proof (stored_hash (block_Hash block) (header_hash_ok (fst block))) as Hst.
    destruct Hn as [->|[->| ->]]; repeat case_decide; done. }
  split_and!; [apply (Hmark NHeadBlock)|apply (Hmark NHeadHeader)|apply (Hmark NHeadFast)]; auto.
Qed.

(** Blocks of other numbers are not touched. *)
Lemma head_db_other n h : is_u64 n -> is_hash h -> n <> Number (fst block) -> ReadBody head_db h n = ReadBody db h n.
Proof.
  intros Hn Hh Hne. pose proof (header_hash_ok (fst block)) as Hb. unfold head_db, WriteBlock, WriteHeader, WriteBody, WriteBodyRLP.
  rewrite big_uint64_small by done. rewrite db_write_app, body_others by (try done; by apply head_rest_keys).
  unfold WriteCanonicalHash, WriteHeaderNumber, block_Hash. rewrite !body_others; [done|done..| |done|done|]; other_ops.
Qed.

Lemma head_db_canon n : is_u64 n -> n <> Number (fst block) -> ReadCanonicalHash head_db n = ReadCanonicalHash db n.
Proof.
  intros Hn Hne. pose proof (header_hash_ok (fst block)) as Hb. unfold head_db, WriteBlock, WriteHeader, WriteBody, WriteBodyRLP.
  rewrite big_uint64_small by done. rewrite db_write_app, canonical_others by (try done; by apply head_rest_keys).
  unfold block_Hash. rewrite canonical_write, decide_False by done.
  unfold WriteHeaderNumber. rewrite canonical_others; [done|done|]. other_ops.
Qed.

Lemma head_db_indexed :
  0 < Number (fst block) -> NoDup (tx_hash <$> snd block) ->
  ReadCanonicalHash head_db (Number (fst block)) = block_Hash block -> indexed head_db block.
Proof.
  intros Hn Hnd Hcanon i tx Hi. destruct head_db_body as (body & Hb & Econtent).
  pose proof (found_by_hash rlp_skips_hash head_db (fst block) (snd block) body i tx Hu Hnd Hi
    (head_db_entry i tx Hi) Hcanon Hb Econtent) as H.
  by rewrite (proj2 (Z.eqb_neq _ 0)) in H by lia.
Qed.
End HeadDb.

(** ** Running the operations *)

Lemma wp_on_hc {A} (m : M HeaderChain A) (Q : A -> BlockChain -> Prop) bc :
  wp m (fun x hc => Q x (set_bc_hc hc bc)) (bc_hc bc) -> wp (on_hc m) Q bc.
Proof. unfold wp, on_hc. by destruct (m (bc_hc bc)) as [[x hc]|]. Qed.

Lemma run_on_hc {A} (m : M HeaderChain A) bc x hc :
  m (bc_hc bc) = Some (x, hc) -> on_hc m bc = Some (x, set_bc_hc hc bc).
Proof. unfold on_hc. by intros ->. Qed.

(** The parts of the state that garbage collection leaves alone. *)
Definition frame bc bc' : Prop :=
  same_chain (bc_hc bc) (bc_hc bc') /\ cacheConfig bc' = cacheConfig bc /\ currentBlock bc' = currentBlock bc /\
  bc_events bc' = bc_events bc /\ procInterrupt bc' = procInterrupt bc.

Lemma gc_tries_spec block root bc head :
  hc_ok (bc_hc bc) (fst head) -> 0 <= Number (fst block) <= Number (fst head) + 1 ->
  wp (gc_tries block root) (fun _ bc' => frame bc bc' /\ caches_ok (bc_hc bc')) bc.
Proof.
  intros Hok Hn. pose proof (ca_range _ _ (ok_canon _ _ Hok)) as HN. destruct (Hok) as [Hs Hca Hc _ _].
  unfold gc_tries, block_NumberU64. cbv zeta. rewrite big_uint64_small by side.
  apply wp_bind, wp_modify, wp_bind, wp_modify. destruct (Z.ltb_spec TriesInMemory (Number (fst block))) as [Hlt|_];
    [|by apply wp_ret].
  apply wp_bind, wp_get. destruct (trie_Size _) as [nodes imgs]. apply wp_bind.
  set (bc1 := set_triegc _ _). assert (Hf1 : frame bc bc1 /\ bc_hc bc1 = bc_hc bc) by done. clearbody bc1.
  assert (Hcap : wp (if (TrieDirtyLimit (cacheConfig bc1) * 1024 * 1024 <? nodes) || (4 * 1024 * 1024 <? imgs)
      then mmodify (fun bc => set_tries (trie_Cap (tries bc) (TrieDirtyLimit (cacheConfig bc1) * 1024 * 1024 - trie_batch_size)) bc)
      else mret tt) (fun _ bc2 => frame bc bc2 /\ bc_hc bc2 = bc_hc bc) bc1)
    by (destruct (_ || _); [apply wp_modify|apply wp_ret]; exact Hf1).
  eapply wp_mono; [exact Hcap|]. clear Hcap. intros [] bc2 [Hf2 E2]. cbv beta. apply wp_bind.
  eapply wp_mono with (P := fun _ bc3 => frame bc bc3 /\ caches_ok (bc_hc bc3));
    [|intros [] bc3 [Hf3 Hc3]; apply wp_modify; destruct (gc_loop _ _ _ _); exact (conj Hf3 Hc3)].
  destruct (_ <? _); [|apply wp_ret; split; [exact Hf2|by rewrite E2]].
  apply wp_bind, wp_on_hc. rewrite E2. unfold TriesInMemory in *.
  destruct (ca_below _ _ Hca (Number (fst block) - 128)) as (hdr & Hr & Hh & _); [lia|].
  destruct (GetHeader_spec (bc_hc bc) (ReadCanonicalHash (chainDb (bc_hc bc)) (Number (fst block) - 128)) (Number (fst block) - 128))
    as (x & hc' & Eget & Ho & Hsame & Hcc); [done|done|done|side|by eapply ReadHeader_has|].
  unfold wp at 1. unfold GetHeaderByNumber. rewrite run_get.
  rewrite (proj2 (Z.eqb_neq _ 0)) by (pose proof (stored_positive _ _ _ _ Ho); lia). rewrite Eget.
  apply wp_bind, wp_modify, wp_bind, wp_modify, wp_modify. destruct Hf2 as (Hs2 & ? & ? & ? & ?). by split.
Qed.

Lemma commit_state_spec block statedb root t bc head :
  hc_ok (bc_hc bc) (fst head) -> 0 <= Number (fst block) <= Number (fst head) + 1 ->
  state_Commit (tries bc) statedb = Some (root, t) ->
  (TrieDirtyDisabled (cacheConfig bc) = true -> is_Some (trie_Commit t root)) ->
  wp (commit_state block statedb) (fun err bc' => err = None /\ frame bc bc' /\ caches_ok (bc_hc bc')) bc.
Proof.
  intros Hok Hn Ec Ht. unfold commit_state. apply wp_bind, wp_get. rewrite Ec. apply wp_bind, wp_modify.
  destruct (TrieDirtyDisabled (cacheConfig bc)).
  - destruct (Ht eq_refl) as [t' ->]. apply wp_bind, wp_modify, wp_ret. split; [done|]. split; [done|apply Hok].
  - apply wp_bind. eapply wp_mono; [by apply (gc_tries_spec block root _ head)|]. intros [] bc' H. by apply wp_ret.
Qed.

(** A frame keeps the chain. *)
Lemma frame_hc_ok bc bc' hdr : hc_ok (bc_hc bc) hdr -> frame bc bc' -> caches_ok (bc_hc bc') -> hc_ok (bc_hc bc') hdr.
Proof. intros Hok (Hsame & _) Hc. by apply (hc_ok_same (bc_hc bc)). Qed.

(** The head moves to a stored block on top of it. *)
Lemma writeHeadBlock_spec block bc head db :
  hc_ok (bc_hc bc) (fst head) -> insertable (bc_db bc) (fst block) ->
  bc_db bc = db_write db (WriteBlock (fst block) (snd block)) ->
  ReadHeader (bc_db bc) (block_Hash block) (Number (fst block)) = Some (fst block) ->
  block_ParentHash block = block_Hash head -> Number (fst block) = Number (fst head) + 1 ->
  Forall is_hash (tx_hash <$> snd block) ->
  wp (writeHeadBlock block) (fun _ bc' =>
    hc_ok (bc_hc bc') (fst block) /\ bc_db bc' = head_db db block /\ currentBlock bc' = Some block /\
    bc_events bc' = bc_events bc) bc.
Proof.
  intros Hok Hin Edb Hread Hp Hn Hall. pose proof (in_range _ _ Hin) as Hr. pose proof (hash_range (fst block)) as Hpos.
  unfold writeHeadBlock. apply wp_bind, wp_get. unfold block_NumberU64. rewrite big_uint64_small by side.
  assert (ReadCanonicalHash (bc_db bc) (Number (fst block)) = 0) as -> by (apply (ca_above _ _ (ok_canon _ _ Hok)); lia).
  cbv zeta. rewrite (proj2 (Z.eqb_neq 0 _)) by (unfold block_Hash; lia). cbn [negb].
  apply wp_bind, wp_on_hc, wp_modify, wp_bind, wp_bind, wp_on_hc. unfold SetCurrentHeader, hc_write.
  apply wp_bind, wp_modify, wp_modify, wp_modify, wp_modify.
  pose proof (head_extended (bc_hc bc) (fst head) (fst block) (head_rest block) Hok Hin Hread Hp Hn (head_rest_content block Hall)) as Hext.
  assert (E : db_write (db_write (bc_db bc) (head_batch true block)) (WriteHeadHeaderHash (block_Hash block))
      = db_write (bc_db bc) (WriteCanonicalHash (block_Hash block) (Number (fst block)) ++ head_rest block)).
  { unfold head_batch, head_rest, block_NumberU64. rewrite big_uint64_small by side. by rewrite <- db_write_app, <- !app_assoc. }
  change (bc_hc (set_currentBlock _ _))
    with (set_current (fst block) (block_Hash block)
            (set_chainDb (db_write (db_write (bc_db bc) (head_batch true block)) (WriteHeadHeaderHash (block_Hash block))) (bc_hc bc))).
  unfold bc_db at 1. cbn [bc_hc set_currentBlock set_currentFastBlock set_bc_hc chainDb set_current set_chainDb].
  change (Header_Hash (fst block)) with (block_Hash block). change (chainDb (bc_hc bc)) with (bc_db bc) in *.
  rewrite E. split; [exact Hext|]. split; [|done]. unfold head_db. by rewrite Edb.
Qed.

Lemma writeBlockWithState_spec block statedb root t bc head :
  bc_ok bc head -> extends bc head block -> state_Commit (tries bc) statedb = Some (root, t) ->
  (TrieDirtyDisabled (cacheConfig bc) = true -> is_Some (trie_Commit t root)) ->
  wp (writeBlockWithState block statedb false) (fun r bc' =>
    r = (CanonStatTy, None) /\ bc_ok bc' block /\ indexed (bc_db bc') block /\
    bc_events bc' = bc_events bc ++ [ChainEvent block]) bc.
Proof.
  intros [Hok Ecur _ Hbodies _] [Hin Hp Hn Henc Hall Hnd] Ec Ht. pose proof (in_range _ _ Hin) as Hr.
  pose proof (ca_range _ _ (ok_canon _ _ Hok)) as HN. unfold writeBlockWithState, CurrentBlock.
  apply wp_bind. unfold wp at 1, mgets. rewrite Ecur, Hp, Z.eqb_refl. cbn [negb].
  apply wp_bind, wp_on_hc, wp_modify.
  destruct (block_written (bc_hc bc) (fst head) (fst block) (snd block)) as (Hok1 & Hin1 & Hread1); [done..|].
  set (bc1 := set_bc_hc _ bc). change (set_chainDb _ (bc_hc bc)) with (bc_hc bc1) in Hok1.
  change (db_write (chainDb (bc_hc bc)) _) with (bc_db bc1) in Hin1, Hread1.
  assert (Edb1 : bc_db bc1 = db_write (bc_db bc) (WriteBlock (fst block) (snd block))) by done.
  apply wp_bind. eapply wp_mono; [apply (commit_state_spec block statedb root t bc1 head); [done|lia|done|done]|].
  intros err bc2 (-> & Hf & Hc2). cbv beta iota.
  pose proof (frame_hc_ok bc1 bc2 (fst head) Hok1 Hf Hc2) as Hok2. destruct Hf as ((Edb2 & _) & _ & Ecur2 & Eev2 & _).
  assert (prefers block head = true) as -> by (unfold prefers, block_NumberU64; rewrite !big_uint64_small by side;
    by rewrite (proj2 (Z.ltb_lt _ _)) by lia).
  cbn [andb]. apply wp_bind, wp_ret. cbv beta iota. apply wp_bind.
  change (chainDb (bc_hc bc2)) with (bc_db bc2) in Edb2. change (chainDb (bc_hc bc1)) with (bc_db bc1) in Edb2.
  eapply wp_mono; [apply (writeHeadBlock_spec block bc2 head (bc_db bc)); rewrite ?Edb2; done|].
  intros [] bc3 (Hok3 & Edb3 & Ecur3 & Eev3). cbv beta.
  apply wp_bind, wp_modify, wp_bind, wp_bind. unfold send. apply wp_modify, wp_ret, wp_ret.
  assert (Hdb : bc_db (set_futureBlocks (cache_Remove (block_Hash block) (futureBlocks bc3)) bc3) = head_db (bc_db bc) block) by exact Edb3.
  assert (Hcan : ReadCanonicalHash (bc_db bc3) (Number (fst block)) = block_Hash block)
    by apply (ca_head _ _ (ok_canon _ _ Hok3)).
  assert (Hu : is_u64 (Number (fst block))) by side.
  destruct (head_db_body (bc_db bc) block Hu Henc Hall) as (body & Hbody & Econtent). rewrite <- Edb3 in Hbody.
  split; [done|]. split; [|split].
  - apply (bc_ok_ext bc3); [|done..]. split; [exact Hok3|exact Ecur3| | |by exists body].
    + rewrite Edb3. apply head_db_marked.
    + intros n Hn0. destruct (decide (n = Number (fst block))) as [->|Hne]; [rewrite Hcan; by eexists|].
      destruct (ca_below _ _ (ok_canon _ _ Hok) n) as (_ & _ & Hh & _); [lia|].
      rewrite Edb3, head_db_canon, head_db_other by (done || side). apply Hbodies. lia.
  - change (indexed (bc_db bc3) block). rewrite Edb3. apply head_db_indexed; [side|done..|lia|done|].
    by rewrite <- Edb3.
  - cbn. by rewrite Eev3, Eev2.
Qed.


(** ** Importing one block *)

Lemma head_state bc head block (k : option Header -> M BlockChain (option bc_error * option Blk)) Q :
  bc_ok bc head -> extends bc head block ->
  (forall bc', bc_ok bc' head -> extends bc' head block -> frame bc bc' -> tries bc' = tries bc ->
     prefetcher bc' = prefetcher bc -> wp (k (Some (fst head))) Q bc') ->
  wp (bc_GetHeader (block_ParentHash block) (u64 (block_NumberU64 block - 1)) ≫= k) Q bc.
Proof.
  intros Hb Hx Hk. destruct (Hb) as [Hok Ecur Edisk Hbodies Hbody]. destruct (Hx) as [Hin Hp Hn Henc Hall Hnd].
  pose proof (in_range _ _ Hin) as Hr. destruct (Hok) as [Hs Hca Hc _ _].
  apply wp_bind, wp_on_hc. unfold block_NumberU64. rewrite big_uint64_small, u64_small by side.
  destruct (GetHeader_spec (bc_hc bc) (block_ParentHash block) (Number (fst block) - 1))
    as (hdr & hc' & Eget & Ho & Hsame & Hcc); [done|done|apply Hin|side|apply Hin|].
  assert (hdr = fst head) as ->.
  { destruct Ho as [Hread _]. destruct (ca_head _ _ Hca) as [Hhead _].
    rewrite Hp in Hread. unfold block_Hash in Hread. replace (Number (fst block) - 1) with (Number (fst head)) in Hread by lia.
    congruence. }
  unfold wp at 1. rewrite Eget. destruct (Hsame) as (Edb & _).
  assert (Ebc : bc_db (set_bc_hc hc' bc) = bc_db bc) by exact Edb.
  apply Hk; try done.
  - split; rewrite ?Ebc; try done. by apply (hc_ok_same (bc_hc bc)).
  - split; try done. by rewrite Ebc.
Qed.

Lemma import_block_spec it block bc head lastCanon :
  it_previous it = None -> it_peek it = (None, None) ->
  bc_ok bc head -> extends bc head block -> state_ready bc (Root (fst head)) ->
  wp (import_block it block lastCanon) (fun r bc' =>
    r = (None, Some block) /\ bc_ok bc' block /\ indexed (bc_db bc') block /\
    bc_events bc' = bc_events bc ++ [ChainEvent block]) bc.
Proof.
  intros Eprev Epeek Hb Hx (statedb & root & t & En & Ec & Ht). unfold import_block. rewrite Eprev, Epeek.
  apply (head_state bc head block); [done..|]. intros bc1 Hb1 Hx1 (Hs1 & Ecfg & _ & Eev & _) Et _.
  apply wp_bind. eapply wp_lift; [done|]. apply wp_bind, wp_get. rewrite Et, En. apply wp_bind.
  assert (Hu : wp (if TrieCleanNoPrefetch (cacheConfig bc1) then mret tt else mret tt) (fun _ bc2 => bc2 = bc1) bc1)
    by (destruct (TrieCleanNoPrefetch _); by apply wp_ret).
  eapply wp_mono; [exact Hu|]. intros [] ? ->. unfold Process, ValidateState. cbv beta iota.
  apply wp_bind. eapply wp_mono;
    [apply (writeBlockWithState_spec block statedb root t bc1 head); [done|done|by rewrite Et|by rewrite Ecfg]|].
  intros ? bc2 (-> & Hb2 & Hi2 & Eev2). cbv beta iota. apply wp_bind, wp_modify, wp_ret.
  split; [done|]. split; [by apply (bc_ok_ext bc2)|]. split; [exact Hi2|]. change (bc_events bc2 = bc_events bc ++ [ChainEvent block]).
  by rewrite Eev2, Eev.
Qed.

Lemma first_next block rest :
  verify (fst <$> (block :: rest)) 0 = None ->
  it_next (newInsertIterator (block :: rest)) = (Some block, None, mk_it (block :: rest) 0).
Proof.
  intros Ever. unfold it_next, newInsertIterator, it_len, it_at, it_result. cbn [it_chain it_index].
  rewrite (proj2 (Z.leb_gt _ _)) by (cbn [length]; lia). change (Z.to_nat (-1 + 1)) with O. by rewrite Ever.
Qed.

(** The import of a single block that the engine accepts is its main loop. *)
Lemma insert_one depth block bc Q :
  procInterrupt bc = false -> BadHashes (block_Hash block) = false -> verify [fst block] 0 = None ->
  wp (import_block (mk_it [block] 0) block None) (fun r bc' =>
      match r with
      | (Some e, lastCanon) => wp (head_event lastCanon) (fun _ bc'' => Q (0, Some e) bc'') bc'
      | (None, lastCanon) => wp (head_event lastCanon) (fun _ bc'' => Q (1, None) bc'') bc'
      end) bc ->
  wp (insertChain (S depth) [block]) Q bc.
Proof.
  intros Estop Ebad Ever Himp. cbn [insertChain].
  pose proof (first_next block [] Ever) as Enext.
  apply wp_bind. unfold insertStopped, wp at 1, mgets. rewrite Estop.
  apply wp_bind. eapply wp_lift; [reflexivity|]. cbv zeta. rewrite Enext. cbn [skip_known length].
  unfold err_is at 1. rewrite bool_decide_false by done.
  unfold import_cases. apply wp_bind, wp_get, wp_bind. eapply wp_lift; [reflexivity|].
  unfold err_is. rewrite !bool_decide_false by done. cbn [orb andb]. apply wp_bind. cbn [import_loop].
  rewrite bool_decide_true by done. cbn [orb negb]. apply wp_bind. unfold insertStopped, wp at 1, mgets. rewrite Estop.
  rewrite Ebad. unfold err_is. rewrite !bool_decide_false by done. apply wp_bind.
  eapply wp_mono; [exact Himp|]. intros [[e|] lastCanon] bc' H; cbv beta iota.
  - apply wp_ret, wp_bind, wp_ret, wp_bind. eapply wp_mono; [exact H|]. intros [] bc'' HQ. by apply wp_ret.
  - assert (it_next (mk_it [block] 0) = (None, None, mk_it [block] 1)) as -> by done. cbn [import_loop].
    apply wp_ret, wp_bind. unfold import_rest. apply wp_bind, wp_ret, wp_ret, wp_bind.
    eapply wp_mono; [exact H|]. intros [] bc'' HQ. by apply wp_ret.
Qed.

Lemma InsertChain_one depth bc head block :
  bc_ok bc head -> extends bc head block -> state_ready bc (Root (fst head)) ->
  chainmu bc = false -> procInterrupt bc = false -> BadHashes (block_Hash block) = false -> verify [fst block] 0 = None ->
  exists bc', InsertChain (S depth) [block] bc = Some ((1, None), bc') /\ bc_ok bc' block /\ chainmu bc' = false /\ indexed (bc_db bc') block /\
    bc_events bc' = bc_events bc ++ [BlockProc true; ChainEvent block; ChainHeadEvent block; BlockProc false].
Proof.
  intros Hb Hx Hst Emu Estop Ebad Ever.
  assert (W : wp (InsertChain (S depth) [block]) (fun r bc' => r = (1, None) /\ bc_ok bc' block /\ chainmu bc' = false /\ indexed (bc_db bc') block /\
    bc_events bc' = bc_events bc ++ [BlockProc true; ChainEvent block; ChainHeadEvent block; BlockProc false]) bc).
  { unfold InsertChain, send, lock, unlock. cbn [first_break]. apply wp_bind, wp_modify, wp_bind, wp_bind, wp_bind, wp_get.
    cbn [chainmu set_bc_events]. rewrite Emu. apply wp_modify, wp_bind. set (bc1 := set_chainmu true _).
    assert (Hb1 : bc_ok bc1 head) by (by apply (bc_ok_ext bc)).
    assert (Hx1 : extends bc1 head block) by (by apply (extends_ext bc)).
    apply insert_one; [done..|]. eapply wp_mono; [by apply (import_block_spec (mk_it [block] 0) block bc1 head None)|].
    intros ? bc2 (-> & Hb2 & Hi2 & Eev2). cbv beta iota. unfold head_event, CurrentBlock.
    apply wp_bind. unfold wp at 1, mgets. rewrite (bo_current _ _ Hb2). apply wp_bind. eapply wp_lift; [done|].
    rewrite Z.eqb_refl. unfold send. apply wp_modify, wp_bind, wp_modify, wp_ret, wp_bind, wp_modify, wp_ret.
    split; [done|]. split; [by apply (bc_ok_ext bc2)|]. split; [done|]. split; [exact Hi2|]. cbn. rewrite Eev2. cbn. by rewrite <- !app_assoc. }
  destruct (wp_run _ _ _ W) as (r & bc' & E & -> & H). eauto.
Qed.

(** C4: Importing a block on top of the head, when the engine accepts it and the
    parent's state is there, ends without a panic and reports one imported block.
    The block is then the head in memory and on disk, the header chain is again
    linked from genesis to it, every one of its transactions is found by hash at
    its position, and the block and head events were sent between the two
    processing events, in this order. *)
Theorem imported_block_becomes_head depth bc head block :
  bc_ok bc head -> extends bc head block -> state_ready bc (Root (fst head)) ->
  chainmu bc = false -> procInterrupt bc = false -> BadHashes (block_Hash block) = false -> verify [fst block] 0 = None ->
  exists bc', InsertChain (S depth) [block] bc = Some ((1, None), bc') /\ bc_ok bc' block /\ chainmu bc' = false /\ indexed (bc_db bc') block /\
    bc_events bc' = bc_events bc ++ [BlockProc true; ChainEvent block; ChainHeadEvent block; BlockProc false].
Proof. apply InsertChain_one. Qed.

(** ** Imports that end in a panic *)

Lemma insert_first_panics depth block rest bc :
  chainmu bc = false -> procInterrupt bc = false -> BadHashes (block_Hash block) = false -> verify (fst <$> (block :: rest)) 0 = None ->
  first_break 1 block rest = None ->
  (forall bc', bc_hc bc' = bc_hc bc -> tries bc' = tries bc -> cacheConfig bc' = cacheConfig bc -> prefetcher bc' = prefetcher bc ->
     import_block (mk_it (block :: rest) 0) block None bc' = None) ->
  InsertChain (S depth) (block :: rest) bc = None.
Proof.
  intros Emu Estop Ebad Ever Ebreak Himp. unfold InsertChain, send. rewrite run_modify, Ebreak.
  set (bc0 := set_bc_events _ bc). set (bc1 := set_chainmu true bc0).
  assert (El : lock bc0 = Some (tt, bc1)) by (unfold lock; rewrite run_get; cbn [chainmu set_bc_events bc0]; by rewrite Emu). assert (Ei : import_block (mk_it (block :: rest) 0) block None bc1 = None) by (by apply Himp).
  pose proof (first_next block rest Ever) as Enext.
  assert (E : insertChain (S depth) (block :: rest) bc1 = None); [|unfold mbind, M_bind; by rewrite El, E].
  cbn [insertChain]. rewrite (run_bind _ _ bc1 false bc1) by (unfold insertStopped, mgets; by rewrite <- Estop).
  rewrite (run_lift _ _ _ block) by done. cbv zeta. rewrite Enext. cbn [skip_known length].
  unfold err_is at 1. rewrite bool_decide_false by done.
  unfold import_cases. rewrite run_get, (run_lift _ _ _ block) by done.
  unfold err_is. rewrite !bool_decide_false by done. cbn [orb andb].
  assert (Eloop : import_loop (S (S (length rest))) (mk_it (block :: rest) 0) (Some block) None None bc1 = None);
    [|unfold mbind, M_bind; by rewrite Eloop].
  cbn [import_loop]. rewrite bool_decide_true by done. cbn [orb negb].
  rewrite (run_bind _ _ bc1 false bc1) by (unfold insertStopped, mgets; by rewrite <- Estop).
  rewrite Ebad. unfold err_is. rewrite bool_decide_false by done. unfold mbind, M_bind. by rewrite Ei.
Qed.

(** A batch of at least two contiguous blocks that the engine accepts, on top
    of a head whose state is there, always ends in a panic with the default
    configuration: the prefetcher, used for the follow-up block, is nil. *)
Theorem second_block_panics depth bc head block next rest :
  bc_ok bc head -> extends bc head block -> is_Some (state_New (tries bc) (Root (fst head))) ->
  chainmu bc = false -> procInterrupt bc = false -> BadHashes (block_Hash block) = false ->
  (forall i, (i < 2)%nat -> verify (fst <$> (block :: next :: rest)) i = None) ->
  first_break 1 block (next :: rest) = None ->
  TrieCleanNoPrefetch (cacheConfig bc) = false -> prefetcher bc = None ->
  InsertChain (S depth) (block :: next :: rest) bc = None.
Proof.
  intros Hb Hx [statedb Est] Emu Estop Ebad Ever Ebreak Epre Enil. apply insert_first_panics; [done..|apply Ever; lia|done|].
  intros bc' Ehc Et Ecfg Epf. unfold import_block. cbn [it_previous it_index].
  assert (Epeek : it_peek (mk_it (block :: next :: rest) 0) = (Some next, None)).
  { unfold it_peek, it_len, it_at, it_result. cbn [it_chain it_index]. rewrite (proj2 (Z.leb_gt _ _)) by (cbn [length]; lia).
    change (Z.to_nat (0 + 1)) with 1%nat. rewrite Ever by lia. done. }
  rewrite Epeek. destruct (Hb) as [Hok _ _ _ _]. destruct (Hx) as [Hin Hp Hn _ _ _].
  pose proof (in_range _ _ Hin) as Hr. destruct (Hok) as [Hs Hca Hc _ _].
  destruct (GetHeader_spec (bc_hc bc) (block_ParentHash block) (Number (fst block) - 1))
    as (hdr & hc' & Eget & (Hread & _) & _); [done|done|apply Hin|side|apply Hin|].
  assert (hdr = fst head) as ->.
  { destruct (ca_head _ _ Hca) as [Hhead _]. rewrite Hp in Hread. unfold block_Hash in Hread.
    replace (Number (fst block) - 1) with (Number (fst head)) in Hread by lia. congruence. }
  unfold block_NumberU64. rewrite big_uint64_small, u64_small by side. unfold it_previous. cbn [it_index]. cbv iota.
  change (0 <? 1) with true. cbv iota.
  rewrite (run_bind _ _ bc' (Some (fst head)) (set_bc_hc hc' bc')) by (apply run_on_hc; by rewrite Ehc).
  rewrite (run_lift _ _ _ (fst head)) by done. rewrite run_get. cbn [tries set_bc_hc cacheConfig prefetcher].
  rewrite Et, Est, Ecfg, Epre, Epf, Enil. done.
Qed.

(** A block whose parent is not stored ends the import in a panic: the
    engine accepts every header, and the nil parent is dereferenced. *)
Theorem unknown_parent_panics depth bc block :
  chainmu bc = false -> procInterrupt bc = false -> BadHashes (block_Hash block) = false -> verify [fst block] 0 = None ->
  cache_peek (headerCache (bc_hc bc)) (block_ParentHash block) = None ->
  ReadHeader (bc_db bc) (block_ParentHash block) (u64 (block_NumberU64 block - 1)) = None ->
  InsertChain (S depth) [block] bc = None.
Proof.
  intros Emu Estop Ebad Ever Ecache Eread. apply insert_first_panics; [done..|].
  intros bc' Ehc _ _ _. unfold import_block, it_previous. cbn [it_index]. change (0 <? 1) with true. cbv iota.
  pose proof (Get_value _ (headerCache (bc_hc bc)) (block_ParentHash block)) as Ev. rewrite Ecache in Ev.
  assert (exists hc', bc_GetHeader (block_ParentHash block) (u64 (block_NumberU64 block - 1)) bc' = Some (None, set_bc_hc hc' bc'))
    as (hc' & E).
  { destruct (cache_Get (headerCache (bc_hc bc)) (block_ParentHash block)) as [cached cache] eqn:Ec. cbn in Ev. subst cached.
    eexists. apply run_on_hc. rewrite Ehc. unfold GetHeader. rewrite run_get, Ec, run_modify.
    change (chainDb (bc_hc bc)) with (bc_db bc). by rewrite Eread. }
  by rewrite (run_bind _ _ _ _ _ E).
Qed.


(** ** The fields that are never set *)

Definition unset bc : Prop := lastCommitsCache bc = None /\ prefetcher bc = None.

Lemma keeps_on_hc {A} (m : M HeaderChain A) : keeps unset (on_hc m).
Proof. intros bc H. unfold on_hc. by destruct (m (bc_hc bc)) as [[x hc]|]. Qed.

Lemma keeps_unset (f : BlockChain -> BlockChain) :
  (forall bc, lastCommitsCache (f bc) = lastCommitsCache bc /\ prefetcher (f bc) = prefetcher bc) -> keeps unset (mmodify f).
Proof. intros Hf. apply keeps_modify. intros bc [H1 H2]. destruct (Hf bc) as [E1 E2]. split; congruence. Qed.

Lemma keeps_for {A} (xs : list A) (f : A -> M BlockChain ()) : (forall x, keeps unset (f x)) -> keeps unset (mfor xs f).
Proof. intros Hf. induction xs as [|x xs IH]; [apply keeps_ret|]. apply (keeps_bind _ (f x)); [apply Hf|]. by intros []. Qed.

#[local] Hint Resolve keeps_on_hc : keeps.
#[local] Hint Extern 2 (keeps unset (mmodify _)) => apply keeps_unset; intros ?; cbv beta zeta; repeat case_match; split; reflexivity : keeps.

(** The calls whose definitions are a single step. *)
Ltac unset_solve :=
  unfold bc_write, send, bc_GetHeader, bc_GetHeaderByNumber, CurrentBlock, HasState, bc_HasBlock, insertStopped,
    reportBlock, addBadBlock, lock, unlock, purge_caches, TruncateAncients;
  keeps_solve.

Lemma GetBlock_unset hash number : keeps unset (GetBlock hash number).
Proof. unfold GetBlock. unset_solve. Qed.
#[local] Hint Resolve GetBlock_unset : keeps.

Lemma writeHeadBlock_unset block : keeps unset (writeHeadBlock block).
Proof. unfold writeHeadBlock. unset_solve. Qed.
#[local] Hint Resolve writeHeadBlock_unset : keeps.

Lemma GetBlockByNumber_unset number : keeps unset (GetBlockByNumber number).
Proof. unfold GetBlockByNumber. unset_solve. Qed.
#[local] Hint Resolve GetBlockByNumber_unset : keeps.

Lemma parent_block_unset block : keeps unset (parent_block block).
Proof. unfold parent_block. unset_solve. Qed.
#[local] Hint Resolve parent_block_unset : keeps.

Lemma reduce_to_unset fuel : forall number b acc, keeps unset (reduce_to fuel number b acc).
Proof. induction fuel; intros; cbn [reduce_to]; unset_solve. Qed.
#[local] Hint Resolve reduce_to_unset : keeps.

Lemma reduce_both_unset fuel : forall a b c d, keeps unset (reduce_both fuel a b c d).
Proof. induction fuel; intros; cbn [reduce_both]; unset_solve. Qed.
#[local] Hint Resolve reduce_both_unset keeps_for : keeps.

Lemma apply_reorg_unset oldChain newChain : keeps unset (apply_reorg oldChain newChain).
Proof. unfold apply_reorg. unset_solve. Qed.
#[local] Hint Resolve apply_reorg_unset : keeps.

Lemma reorg_unset a b : keeps unset (reorg a b).
Proof. unfold reorg. unset_solve. Qed.
#[local] Hint Resolve reorg_unset : keeps.

Lemma writeKnownBlock_unset block : keeps unset (writeKnownBlock block).
Proof. unfold writeKnownBlock. unset_solve. Qed.
#[local] Hint Resolve writeKnownBlock_unset : keeps.

Lemma gc_tries_unset block root : keeps unset (gc_tries block root).
Proof. unfold gc_tries. unset_solve. Qed.
#[local] Hint Resolve gc_tries_unset : keeps.

Lemma commit_state_unset block statedb : keeps unset (commit_state block statedb).
Proof. unfold commit_state. unset_solve. Qed.
#[local] Hint Resolve commit_state_unset : keeps.

Lemma writeBlockWithState_unset block statedb emit : keeps unset (writeBlockWithState block statedb emit).
Proof. unfold writeBlockWithState. unset_solve. Qed.
#[local] Hint Resolve writeBlockWithState_unset : keeps.

Lemma addFutureBlock_unset block : keeps unset (addFutureBlock block).
Proof. unfold addFutureBlock. unset_solve. Qed.
#[local] Hint Resolve addFutureBlock_unset : keeps.

Lemma queue_future_unset guard fuel : forall it b err, keeps unset (queue_future guard fuel it b err).
Proof. induction fuel; intros; cbn [queue_future]; unset_solve. Qed.
#[local] Hint Resolve queue_future_unset : keeps.

Lemma import_block_unset it block lastCanon : keeps unset (import_block it block lastCanon).
Proof. unfold import_block. unset_solve. Qed.
#[local] Hint Resolve import_block_unset : keeps.

Lemma import_loop_unset fuel : forall it b err lastCanon, keeps unset (import_loop fuel it b err lastCanon).
Proof. induction fuel; intros; cbn [import_loop]; unset_solve. Qed.
#[local] Hint Resolve import_loop_unset : keeps.

Lemma import_rest_unset fuel it b err : keeps unset (import_rest fuel it b err).
Proof. unfold import_rest. unset_solve. Qed.
#[local] Hint Resolve import_rest_unset : keeps.

Lemma write_side_unset fuel : forall current it b err, keeps unset (write_side fuel current it b err).
Proof. induction fuel; intros; cbn [write_side]; unfold writeBlockWithoutState; unset_solve. Qed.
#[local] Hint Resolve write_side_unset : keeps.

Lemma stateless_unset fuel : forall parent acc, keeps unset (stateless fuel parent acc).
Proof. induction fuel; intros; cbn [stateless]; unset_solve. Qed.
#[local] Hint Resolve stateless_unset : keeps.

Lemma reimport_unset insert : (forall chain, keeps unset (insert chain)) ->
  forall todo blocks memory, keeps unset (reimport insert todo blocks memory).
Proof. intros Hi. induction todo; intros; cbn [reimport]; unset_solve. Qed.
#[local] Hint Resolve reimport_unset : keeps.

Lemma insertSideChain_unset insert b it :
  (forall chain, keeps unset (insert chain)) -> keeps unset (insertSideChain insert b it).
Proof. intros Hi. unfold insertSideChain. unset_solve. Qed.
#[local] Hint Resolve insertSideChain_unset : keeps.

Lemma head_event_unset lastCanon : keeps unset (head_event lastCanon).
Proof. unfold head_event. unset_solve. Qed.
#[local] Hint Resolve head_event_unset : keeps.

Lemma import_cases_unset insert n it b err :
  (forall chain, keeps unset (insert chain)) -> keeps unset (import_cases insert n it b err).
Proof. intros Hi. unfold import_cases. unset_solve. Qed.
#[local] Hint Resolve import_cases_unset : keeps.

Lemma insertChain_unset depth : forall chain, keeps unset (insertChain depth chain).
Proof. induction depth; intros; cbn [insertChain]; unset_solve. Qed.
#[local] Hint Resolve insertChain_unset : keeps.

Lemma InsertChain_unset depth chain : keeps unset (InsertChain depth chain).
Proof. unfold InsertChain. unset_solve. Qed.
#[local] Hint Resolve InsertChain_unset : keeps.

Lemma procFutureBlocks_unset depth : keeps unset (procFutureBlocks depth).
Proof. unfold procFutureBlocks. apply keeps_get_bind. intros bc _. apply keeps_for. intros block. unset_solve. Qed.
#[local] Hint Resolve procFutureBlocks_unset : keeps.

Lemma GetBody_unset hash : keeps unset (GetBody hash).
Proof. unfold GetBody. unset_solve. Qed.
#[local] Hint Resolve GetBody_unset : keeps.

Lemma GetBodyRLP_unset hash : keeps unset (GetBodyRLP hash).
Proof. unfold GetBodyRLP. unset_solve. Qed.
#[local] Hint Resolve GetBodyRLP_unset : keeps.

Lemma GetTransactionLookup_unset hash : keeps unset (GetTransactionLookup hash).
Proof. unfold GetTransactionLookup. unset_solve. Qed.
#[local] Hint Resolve GetTransactionLookup_unset : keeps.

Lemma ValidateNewBlock_unset block : keeps unset (ValidateNewBlock block).
Proof. unfold ValidateNewBlock. unset_solve. Qed.
#[local] Hint Resolve ValidateNewBlock_unset : keeps.

Lemma InsertHeaderChain_unset rand vf flip chain freq : keeps unset (bc_InsertHeaderChain rand vf flip chain freq).
Proof. unfold bc_InsertHeaderChain. unset_solve. Qed.

Lemma rewind_block_unset fuel : forall root pivot beyond rn b, keeps unset (rewind_block fuel root pivot beyond rn b).
Proof. induction fuel; intros; cbn [rewind_block]; unset_solve. Qed.
#[local] Hint Resolve rewind_block_unset : keeps.

Lemma updateFn_unset root pivot limit rn header : keeps unset (updateFn root pivot limit rn header).
Proof. unfold updateFn, rewind_head, rewind_fast. unset_solve. Qed.
#[local] Hint Resolve updateFn_unset : keeps.

Lemma delete_hashes_unset hashes : forall num, keeps unset (delete_hashes hashes num).
Proof. induction hashes; intros; cbn [delete_hashes]; unfold bc_delFn; unset_solve. Qed.
#[local] Hint Resolve delete_hashes_unset : keeps.

Lemma delete_nums_unset hdr nums : keeps unset (delete_nums hdr nums).
Proof. induction nums; cbn [delete_nums]; unset_solve. Qed.
#[local] Hint Resolve delete_nums_unset : keeps.

Lemma bc_head_loop_unset update fuel : (forall rn h, keeps unset (update rn h)) ->
  forall target batch origin rn, keeps unset (bc_head_loop update fuel target batch origin rn).
Proof. intros Hu. induction fuel; intros; cbn [bc_head_loop]; unset_solve. Qed.

Lemma bc_hc_SetHead_unset update target rn : (forall rn h, keeps unset (update rn h)) -> keeps unset (bc_hc_SetHead update target rn).
Proof. intros Hu. pose proof (bc_head_loop_unset update) as Hl. unfold bc_hc_SetHead. unset_solve. Qed.
#[local] Hint Resolve bc_hc_SetHead_unset : keeps.

Lemma set_head_beyond_unset load target root : keeps unset load -> keeps unset (set_head_beyond load target root).
Proof. intros Hl. unfold set_head_beyond. unset_solve. Qed.

Lemma reset_with_unset setHead genesis : keeps unset setHead -> keeps unset (reset_with setHead genesis).
Proof. intros Hl. unfold reset_with. unset_solve. Qed.

Lemma load_last_state_unset reset : keeps unset reset -> keeps unset (load_last_state reset).
Proof. intros Hl. unfold load_last_state, GetBlockByHash, bc_GetHeaderByHash. unset_solve. Qed.

Lemma loadLastState_unset depth : keeps unset (loadLastState depth).
Proof.
  induction depth; cbn [loadLastState]; [apply keeps_panic|]. apply load_last_state_unset, keeps_get_bind. intros bc _.
  by apply reset_with_unset, set_head_beyond_unset.
Qed.
#[local] Hint Resolve loadLastState_unset set_head_beyond_unset reset_with_unset : keeps.

Lemma SetHeadBeyondRoot_unset depth target root : keeps unset (SetHeadBeyondRoot depth target root).
Proof. unfold SetHeadBeyondRoot. unset_solve. Qed.
#[local] Hint Resolve SetHeadBeyondRoot_unset : keeps.

Lemma open_chain_unset {ienv : IndexEnv} ancient depth : keeps unset (open_chain ancient depth).
Proof. unfold open_chain, repair_head, repair_ancients, bc_SetHead. unset_solve. Qed.

Lemma Reset_unset depth : keeps unset (Reset depth).
Proof. unfold Reset, ResetWithGenesisBlock. unset_solve. Qed.

Lemma Stop_unset snapBase : keeps unset (Stop snapBase).
Proof.
  assert (Hr : forall offset, keeps unset (commit_recent offset)) by (intros; unfold commit_recent; unset_solve).
  unfold Stop, StopInsert. unset_solve.
Qed.

Lemma NewBlockChain_unset {ienv : IndexEnv} ancient depth db config t ancients bc :
  NewBlockChain ancient depth db config t ancients = Some (inl bc) -> unset bc.
Proof.
  unfold NewBlockChain. destruct (NewHeaderChain db) as [[hc|e]|]; cbn; try done.
  destruct (GetBlockByNumber 0 _) as [[[g|] bc1]|] eqn:E1; cbn; try done.
  apply (keeps_run unset) in E1; [|apply GetBlockByNumber_unset|done].
  destruct (open_chain ancient depth _) as [[u bc2]|] eqn:E2; cbn; try done. intros [= <-].
  by apply (keeps_run unset) in E2; [|apply open_chain_unset|].
Qed.

(** The chains that come from an opened one by the operations of the package. *)
Inductive reachable {ienv : IndexEnv} : BlockChain -> Prop :=
| re_new ancient depth db config t ancients bc :
    NewBlockChain ancient depth db config t ancients = Some (inl bc) -> reachable bc
| re_insert depth chain r bc bc' : reachable bc -> InsertChain depth chain bc = Some (r, bc') -> reachable bc'
| re_write block statedb emit r bc bc' :
    reachable bc -> WriteBlockWithState block statedb emit bc = Some (r, bc') -> reachable bc'
| re_future depth r bc bc' : reachable bc -> procFutureBlocks depth bc = Some (r, bc') -> reachable bc'
| re_headers rand vf flip chain freq r bc bc' :
    reachable bc -> bc_InsertHeaderChain rand vf flip chain freq bc = Some (r, bc') -> reachable bc'
| re_validate block r bc bc' : reachable bc -> ValidateNewBlock block bc = Some (r, bc') -> reachable bc'
| re_rewind depth target root r bc bc' :
    reachable bc -> SetHeadBeyondRoot depth target root bc = Some (r, bc') -> reachable bc'
| re_reset depth r bc bc' : reachable bc -> Reset depth bc = Some (r, bc') -> reachable bc'
| re_block hash number r bc bc' : reachable bc -> GetBlock hash number bc = Some (r, bc') -> reachable bc'
| re_body hash r bc bc' : reachable bc -> GetBody hash bc = Some (r, bc') -> reachable bc'
| re_body_rlp hash r bc bc' : reachable bc -> GetBodyRLP hash bc = Some (r, bc') -> reachable bc'
| re_lookup hash r bc bc' : reachable bc -> GetTransactionLookup hash bc = Some (r, bc') -> reachable bc'
| re_stop snapBase r bc bc' : reachable bc -> Stop snapBase bc = Some (r, bc') -> reachable bc'
| re_commit n sig r bc bc' : reachable bc -> WriteCommitSig n sig bc = Some (r, bc') -> reachable bc'.

Lemma WriteBlockWithState_unset block statedb emit : keeps unset (WriteBlockWithState block statedb emit).
Proof. unfold WriteBlockWithState. unset_solve. Qed.
#[local] Hint Resolve open_chain_unset Reset_unset Stop_unset WriteBlockWithState_unset InsertHeaderChain_unset : keeps.

Lemma WriteCommitSig_unset n sig bc : unset bc -> WriteCommitSig n sig bc = None.
Proof.
  intros [H _]. unfold WriteCommitSig, bc_write, hc_write. rewrite (run_bind _ _ bc tt _) by (by apply run_on_hc).
  rewrite run_get. cbn [lastCommitsCache set_bc_hc]. by rewrite H.
Qed.

Lemma reachable_unset {ienv : IndexEnv} bc : reachable bc -> unset bc.
Proof.
  induction 1 as [| | | | | | | | | | | | |? ? ? ? ? _ IH E]; [by eapply NewBlockChain_unset|..];
    [eapply keeps_run; [|eassumption..]; auto with keeps nocore..|].
  by rewrite (WriteCommitSig_unset _ _ _ IH) in E.
Qed.

(** On every chain that comes from an opened one, storing the commit signatures
    of a block and reading them back both panic: the cache of signatures is nil
    and no operation creates it. *)
Theorem commit_signatures_always_panic {ienv : IndexEnv} bc n sig :
  reachable bc -> WriteCommitSig n sig bc = None /\ ReadCommitSig n bc = None.
Proof.
  intros Hr. pose proof (reachable_unset bc Hr) as Hu. split; [by apply WriteCommitSig_unset|].
  destruct Hu as [H _]. unfold ReadCommitSig. rewrite run_get. by rewrite H.
Qed.

End BlockSpec.

(** ** Garbage collection of tries *)

Section TrieGc.
Context {pq : Prque} {pq_laws : PrqueLaws} {tdb : TrieDb}.

(** The queued tries are those of blocks whose numbers fit in 63 bits. *)
Definition queue_ok (q : PQ Z) : Prop := forall root p, (root, p) ∈ pq_contents q -> - 2 ^ 63 < p <= 0.

Definition retained (chosen : Z) (e : Z * Z) : Prop := chosen < - snd e.

#[local] Instance retained_dec chosen e : Decision (retained chosen e) := Z_lt_dec _ _.

Lemma gc_loop_spec fuel : forall chosen q t,
  queue_ok q -> List.length (pq_contents q) = fuel ->
  exists roots, snd (gc_loop fuel chosen q t) = foldl trie_Dereference t roots /\
    roots ≡ₚ fst <$> filter (fun e => ~ retained chosen e) (pq_contents q) /\
    pq_contents (fst (gc_loop fuel chosen q t)) ≡ₚ filter (retained chosen) (pq_contents q).
Proof.
  induction fuel as [|fuel IH]; intros chosen q t Hq Hlen; [apply nil_length_inv in Hlen; exists []; cbn [gc_loop fst snd]; by rewrite Hlen|].
  cbn [gc_loop].
  destruct (pq_Peek q) as [[root p]|] eqn:Ep; [|by rewrite (proj1 (Peek_empty _ q) Ep) in Hlen].
  destruct (Peek_max _ q root p Ep) as [Hin Hmax]. destruct (Pop_peek _ q root p Ep) as (q' & -> & Hperm).
  pose proof (Hq root p Hin) as Hp. rewrite u64_small by side. destruct (Z.ltb_spec chosen (- p)) as [Hlt|Hge].
  - exists []. cbn [fst snd foldl]. split; [done|].
    assert (Hall : Forall (retained chosen) (pq_contents q)).
    { apply Forall_forall. intros [x px] Hx. unfold retained. pose proof (Hmax x px Hx). cbn. lia. }
    rewrite filter_none, filter_all by (eapply Forall_impl; [exact Hall|]; naive_solver).
    split; [done|]. by rewrite contents_Push, <- Hperm.
  - destruct (IH chosen q' (trie_Dereference t root)) as (roots & E & H1 & H2).
    + intros x px Hx. apply (Hq x). rewrite Hperm. by right.
    + apply Permutation_length in Hperm. cbn in Hperm. lia.
    + exists (root :: roots). split; [done|]. rewrite H2, Hperm.
      rewrite !filter_cons_True, filter_cons_False by (unfold retained; cbn; lia).
      split; [by rewrite fmap_cons, H1|done].
Qed.

(** The garbage collection of tries releases exactly the queued tries of the
    blocks at or below the retention and keeps exactly the others queued; as many
    rounds as there are entries are enough. *)
Theorem tries_below_retention_are_released chosen q t :
  queue_ok q ->
  let '(q', t') := gc_loop (List.length (pq_contents q)) chosen q t in
  pq_contents q' ≡ₚ filter (retained chosen) (pq_contents q) /\
  exists roots, t' = foldl trie_Dereference t roots /\
    roots ≡ₚ fst <$> filter (fun e => ~ retained chosen e) (pq_contents q).
Proof.
  intros Hq. destruct (gc_loop_spec (List.length (pq_contents q)) chosen q t Hq eq_refl) as (roots & E & H1 & H2).
  destruct (gc_loop _ _ _ _) as [q' t']. split; [exact H2|]. by exists roots.
Qed.

End TrieGc.

(** ** Concrete chains *)

Module BlockToy.
Import DbToy ChainToy IndexToy.

(** A trie database that records the released tries. *)
Definition toy_tdb : TrieDb := {|
  Tries := list Z;
  StateDB := Z;
  state_New := fun _ root => Some root;
  state_Commit := fun t root => Some (root, t);
  OpenTrie := fun _ _ => true;
  trie_Commit := fun t _ => Some t;
  trie_Reference := fun t _ => t;
  trie_Dereference := fun t root => root :: t;
  trie_Cap := fun t _ => t;
  trie_Size := fun _ => (0, 0)
|}.

(** The engine of the repository. *)
Definition toy_env : ChainEnv := {|
  verify := VerifyHeaders;
  now_unix := 1000;
  proctime := fun _ => 1;
  coin := fun _ => false;
  block_Size := fun _ => 1;
  shouldPreserve := None;
  BadHashes := fun _ => false
|}.

#[local] Existing Instances toy_codec toy_laws toy_crypto toy_lru toy_lru_laws toy_pq toy_pq_laws toy_tdb toy_env toy_ienv.

Definition toy_genesis : Blk := (toy_g, []).
Definition toy_b1 : Blk := (toy_h1, [toy_tx1; toy_tx2]).
Definition toy_b2 : Blk := (toy_h2, []).

(** The records of the genesis block besides those of its header. *)
Definition toy_content : list db_op :=
  WriteBody (Header_Hash toy_g) 0 [] ++ WriteHeadBlockHash (Header_Hash toy_g) ++
  WriteHeadHeaderHash (Header_Hash toy_g) ++ WriteHeadFastBlockHash (Header_Hash toy_g).

Definition toy_node_db : DB := db_write toy_db toy_content.

(** The chain of the genesis block. *)
Definition toy_bc : BlockChain :=
  set_currentFastBlock (Some toy_genesis) (set_currentBlock (Some toy_genesis)
    (new_bc (set_chainDb toy_node_db toy_hc0) defaultCacheConfig (Some toy_genesis) [] 0)).

Lemma toy_content_ops : Forall content_op toy_content.
Proof.
  repeat constructor; [exists (KBody 0 (Header_Hash toy_g))|exists (KNamed NHeadBlock)|exists (KNamed NHeadHeader)|exists (KNamed NHeadFast)];
    (split; [right; by eexists|]); (split; [done|intros []]).
Qed.

Lemma toy_bc_ok : bc_ok toy_bc toy_genesis.
Proof.
  split; [|done|vm_compute; done| |vm_compute; by eexists].
  - change (bc_hc toy_bc) with (set_chainDb toy_node_db toy_hc0).
    apply hc_ok_agree; [apply toy_hc0_ok|apply content_agree, toy_content_ops|].
    apply store_ok_content; [apply toy_hc0_ok|apply toy_content_ops].
  - intros n Hn. assert (n = 0) as -> by (cbn in Hn; lia). vm_compute. by eexists.
Qed.

Lemma toy_b1_extends : extends toy_bc toy_genesis toy_b1.
Proof.
  split; [|done|done|repeat constructor; cbn; lia|apply (bool_decide_unpack _); vm_compute; exact I..].
  apply (insertable_agree toy_db); [apply toy_h1_insertable|apply content_agree, toy_content_ops].
Qed.

Lemma imported_block_becomes_head_witness :
  exists bc', InsertChain 1 [toy_b1] toy_bc = Some ((1, None), bc') /\ bc_ok bc' toy_b1 /\
    bc_events bc' = [BlockProc true; ChainEvent toy_b1; ChainHeadEvent toy_b1; BlockProc false].
Proof.
  assert (Hst : state_ready toy_bc (Root (fst toy_genesis))) by (eexists _, _, _; split; [done|]; split; [done|]; by eexists).
  assert (Hskip : forall d, rlp_encode_tx (set_dataHash d None) = rlp_encode_tx d) by reflexivity.
  destruct (imported_block_becomes_head (env := toy_env) Hskip 0 toy_bc toy_genesis toy_b1 toy_bc_ok toy_b1_extends Hst
    eq_refl eq_refl eq_refl eq_refl) as (bc' & E & Hb & _ & _ & Eev).
  exists bc'. split; [exact E|]. split; [exact Hb|exact Eev].
Defined.

(** The chain after the import. *)
Definition toy_bc1 : BlockChain := match InsertChain 1 [toy_b1] toy_bc with Some (_, bc) => bc | None => toy_bc end.

Lemma toy_bc1_ok : bc_ok toy_bc1 toy_b1 /\ chainmu toy_bc1 = false.
Proof.
  assert (Hst : state_ready toy_bc (Root (fst toy_genesis))) by (eexists _, _, _; split; [done|]; split; [done|]; by eexists).
  assert (Hskip : forall d, rlp_encode_tx (set_dataHash d None) = rlp_encode_tx d) by reflexivity.
  destruct (InsertChain_one (env := toy_env) Hskip 0 toy_bc toy_genesis toy_b1 toy_bc_ok toy_b1_extends Hst
    eq_refl eq_refl eq_refl eq_refl) as (bc' & E & Hb & Hmu & _).
  unfold toy_bc1. rewrite E. done.
Qed.

Lemma second_block_panics_witness : InsertChain 1 [toy_b1; toy_b2] toy_bc = None.
Proof.
  apply (second_block_panics (env := toy_env) 0 toy_bc toy_genesis toy_b1 toy_b2 [] toy_bc_ok toy_b1_extends); try done.
  intros [|[|i]] Hi; [reflexivity|reflexivity|lia].
Defined.

Lemma unknown_parent_panics_witness : InsertChain 1 [toy_b2] toy_bc = None.
Proof. apply (unknown_parent_panics (env := toy_env) 0 toy_bc toy_b2); vm_compute; reflexivity. Defined.

(** The chain opened on the database of a node. *)
Definition toy_opened : BlockChain :=
  match NewBlockChain (ienv := toy_ienv) (fun _ => 0) 1 toy_node_db None [] 0 with Some (inl bc) => bc | _ => toy_bc end.

Lemma commit_signatures_always_panic_witness :
  WriteCommitSig 1 [7] toy_opened = None /\ ReadCommitSig 1 toy_opened = None.
Proof.
  assert (Hr : reachable (ienv := toy_ienv) toy_opened).
  { apply (re_new (ienv := toy_ienv) (tdb := toy_tdb) (fun _ => 0) 1 toy_node_db None [] 0). vm_compute. reflexivity. }
  exact (commit_signatures_always_panic (ienv := toy_ienv) toy_opened 1 [7] Hr).
Defined.

Lemma tries_below_retention_are_released_witness :
  let q : PQ Z := pq_Push 30 (-12) (pq_Push 20 (-11) (pq_Push 10 (-10) (pq_New Z))) in
  let '(q', t') := gc_loop 3 11 q [] in
  pq_contents q' ≡ₚ [(30, -12)] /\ exists roots, t' = foldl trie_Dereference [] roots /\ roots ≡ₚ [20; 10].
Proof.
  assert (Hq : @queue_ok toy_pq [(30, -12); (20, -11); (10, -10)]).
  { intros r p Hin. cbn in Hin. rewrite !elem_of_cons in Hin.
    destruct Hin as [[= -> ->]|[[= -> ->]|[[= -> ->]|Hin]]]; [lia..|by apply not_elem_of_nil in Hin]. }
  exact (tries_below_retention_are_released 11 _ [] Hq).
Defined.

End BlockToy.
