(* ===== verification/BlockRewind.v ===== *)
(** * Opening and rewinding the block chain

    Shown of [loadLastState], [NewBlockChain] and [SetHead] of
    [core/blockchain.go]: a chain opened on the database another chain left has
    the same head; a database whose head block is missing cannot be opened; a
    rewind to a number whose blocks have state makes the canonical block there
    the head and removes everything above it. *)
From stdpp Require Import gmap list sorting.
From Stdlib Require Import ZArith Lia.
From S2P Require Import Prelude Transaction RawDb HeaderChain HeaderChainSpec HeaderRewind TxIndexer BlockChain BlockChainSpec.

Local Open Scope Z_scope.

Section Open.
Context {codec : DbCodec} {laws : DbLaws} {crypto : TxCrypto} {lru : Lru} {lru_laws : LruLaws} {pq : Prque}
  {tdb : TrieDb} {env : ChainEnv}.
Implicit Types (bc : BlockChain) (block : Blk).

(** ** Reading blocks *)

(** The block stored under a hash and a number, with which the cache agrees. *)
Record block_at bc (h n : Z) block : Prop := {
  ba_read : ReadBlock (bc_db bc) h n = Some block;
  ba_hash : block_Hash block = h;
  ba_cache : forall w, cache_peek (blockCache bc) h = Some w -> w = block
}.

(** A cache that holds nothing new except one block. *)
Definition cache_grows (c c' : Cache Blk) (h : Z) block : Prop :=
  forall k w, cache_peek c' k = Some w -> (k = h /\ w = block) \/ cache_peek c k = Some w.

Lemma GetBlock_at bc h n block :
  block_at bc h n block ->
  exists cache, GetBlock h n bc = Some (Some block, set_blockCache cache bc) /\ cache_grows (blockCache bc) cache h block.
Proof.
  intros [Hr Hh Hc]. unfold GetBlock. rewrite run_get.
  pose proof (Get_value _ (blockCache bc) h) as Ev. pose proof (Get_keeps _ (blockCache bc) h) as Ek.
  destruct (cache_Get (blockCache bc) h) as [[w|] cache]; cbn in Ev, Ek; rewrite run_modify.
  - rewrite (Hc w) by done. exists cache. split; [done|]. intros k x Hx. right. by rewrite <- Ek.
  - rewrite Hr, run_modify, Hh. eexists. split; [reflexivity|]. intros k x Hx. cbn in Hx.
    apply Add_only in Hx as [[-> ->]|Hx]; [by left|right; by rewrite <- Ek].
Qed.

Lemma block_at_grows bc cache h n block :
  block_at bc h n block -> cache_grows (blockCache bc) cache h block -> block_at (set_blockCache cache bc) h n block.
Proof. intros [Hr Hh Hc] Hg. split; [done|done|]. intros w Hw. destruct (Hg h w Hw) as [[_ ->]|Hw']; auto. Qed.

(** The block of the head header. *)
Lemma head_block db head body :
  canon_ok db head -> ReadBody db (Header_Hash head) (Number head) = Some body ->
  ReadBlock db (Header_Hash head) (Number head) = Some (head, body).
Proof. intros Hca Hb. unfold ReadBlock. destruct (ca_head _ _ Hca) as [-> _]. by rewrite Hb. Qed.

(** The header found by hash, through the block chain. *)
Lemma number_on_hc bc h n :
  caches_ok (bc_hc bc) -> is_hash h -> ReadHeaderNumber (bc_db bc) h = Some n ->
  exists hc, on_hc (GetBlockNumber h) bc = Some (Some n, set_bc_hc hc bc) /\ same_chain (bc_hc bc) hc /\ caches_ok hc.
Proof.
  intros Hc Hh Hn. destruct (GetBlockNumber_spec (bc_hc bc) h n Hc Hh Hn) as (hc & E & Hs & Hc').
  exists hc. split; [by apply run_on_hc|done].
Qed.

(** The fields that opening and rewinding leave alone. *)
Definition kept bc bc' : Prop :=
  tries bc' = tries bc /\ genesisBlock bc' = genesisBlock bc /\ cacheConfig bc' = cacheConfig bc /\
  frozen bc' = frozen bc /\ chainmu bc' = chainmu bc /\ bc_events bc' = bc_events bc.

#[export] Instance kept_po : PreOrder kept.
Proof. split; [done|]. unfold kept. intros a b c (?&?&?&?&?&?) (?&?&?&?&?&?). split_and!; congruence. Qed.

(** The head block is found by its hash; only caches change. *)
Lemma GetBlockByHash_head bc head body :
  hc_ok (bc_hc bc) head -> block_at bc (Header_Hash head) (Number head) (head, body) ->
  exists bc', GetBlockByHash (Header_Hash head) bc = Some (Some (head, body), bc') /\
    hc_ok (bc_hc bc') head /\ block_at bc' (Header_Hash head) (Number head) (head, body) /\ kept bc bc' /\
    bc_db bc' = bc_db bc /\ currentBlock bc' = currentBlock bc /\ cache_grows (blockCache bc) (blockCache bc') (Header_Hash head) (head, body).
Proof.
  intros Hok Hat. pose proof (ca_range _ _ (ok_canon _ _ Hok)) as HN. destruct (ca_head _ _ (ok_canon _ _ Hok)) as [Hr _].
  destruct (number_on_hc bc (Header_Hash head) (Number head)) as (hc & E1 & Hs & Hc); [apply Hok|side| |].
  { apply (so_number _ (ok_store _ _ Hok)); [side|]. split; [side|by eapply ReadHeader_has]. }
  destruct (Hs) as (Edb & _). assert (Hat1 : block_at (set_bc_hc hc bc) (Header_Hash head) (Number head) (head, body)).
  { destruct Hat as [H1 H2 H3]. split; [|done|done]. unfold bc_db in *. cbn [bc_hc set_bc_hc]. by rewrite Edb. }
  destruct (GetBlock_at _ _ _ _ Hat1) as (cache & E2 & Hg). unfold GetBlockByHash.
  rewrite (run_bind _ _ _ _ _ E1), E2. eexists. split; [reflexivity|]. split; [by apply (hc_ok_same (bc_hc bc))|].
  split; [by apply block_at_grows|]. done.
Qed.

(** Writing the marker of the head header changes no other record. *)
Lemma header_marker_keeps db h :
  is_hash h ->
  let db' := db_write db (WriteHeadHeaderHash h) in
  chain_agree db db' /\ ReadHeadBlockHash db' = ReadHeadBlockHash db /\ ReadHeadHeaderHash db' = h /\
    ReadHeadFastBlockHash db' = ReadHeadFastBlockHash db /\
    forall k n, is_u64 n -> is_hash k -> ReadBody db' k n = ReadBody db k n.
Proof.
  intros Hh db'.
  assert (Hops : Forall content_op (WriteHeadHeaderHash h)).
  { constructor; [|constructor]. exists (KNamed NHeadHeader). split; [right; by eexists|]. split; [done|intros []]. }
  assert (Hother : forall k, key_ok k -> k <> KNamed NHeadHeader -> db' !! key_bytes k = db !! key_bytes k).
  { intros k Hk Hn. apply lookup_others; [done|]. constructor; [|constructor]. exists (KNamed NHeadHeader).
    split; [right; by eexists|]. by split. }
  split; [by apply content_agree|]. unfold ReadHeadBlockHash, ReadHeadFastBlockHash, read_hash, Get.
  change headBlockKey with (key_bytes (KNamed NHeadBlock)). change headFastBlockKey with (key_bytes (KNamed NHeadFast)).
  rewrite !Hother by done. split; [done|]. split; [|split; [done|]].
  - unfold ReadHeadHeaderHash, read_hash, Get. change headHeaderKey with (key_bytes (KNamed NHeadHeader)).
    unfold db'. change (db_write db (WriteHeadHeaderHash h)) with (db_apply db (Put (key_bytes (KNamed NHeadHeader)) (hash_to_bytes h))).
    rewrite lookup_put, decide_True by done. by apply stored_hash.
  - intros k n Hn Hk. apply body_others; [done..|]. constructor; [|constructor].
    exists (KNamed NHeadHeader). split; [right; by eexists|]. by split.
Qed.

(** Storing the head header again keeps the header chain. *)
Lemma SetCurrentHeader_head hc head :
  hc_ok hc head ->
  exists hc', SetCurrentHeader head hc = Some (tt, hc') /\ hc_ok hc' head /\
    chainDb hc' = db_write (chainDb hc) (WriteHeadHeaderHash (Header_Hash head)).
Proof.
  intros Hok. destruct (header_marker_keeps (chainDb hc) (Header_Hash head) (header_hash_ok head)) as (Ha & _).
  assert (Hok' : hc_ok (set_chainDb (db_write (chainDb hc) (WriteHeadHeaderHash (Header_Hash head))) hc) head).
  { apply hc_ok_agree; [done..|]. apply store_ok_content; [apply Hok|].
    constructor; [|constructor]. exists (KNamed NHeadHeader). split; [right; by eexists|]. split; [done|intros []]. }
  eexists. split; [reflexivity|]. split; [|done]. destruct Hok' as [K1 K2 K3 K4 K5]. by split; [| |split; apply K3| |].
Qed.

(** ** Loading the last state *)

(** What is on disk of a chain whose head is [head]. *)
Record on_disk (db : DB) (head : Header) (body : Body) : Prop := {
  od_marked : marked db (Header_Hash head);
  od_bodies : forall n, 0 <= n <= Number head -> is_Some (ReadBody db (ReadCanonicalHash db n) n);
  od_body : ReadBody db (Header_Hash head) (Number head) = Some body
}.

Lemma on_disk_marker db head body :
  canon_ok db head -> on_disk db head body -> on_disk (db_write db (WriteHeadHeaderHash (Header_Hash head))) head body.
Proof.
  intros Hca [(H1 & H2 & H3) Hbodies Hbody]. pose proof (ca_range _ _ Hca) as HN. pose proof (header_hash_ok head) as Hh.
  destruct (header_marker_keeps db (Header_Hash head) Hh) as (Ha & E1 & E2 & E3 & Eb). split.
  - unfold marked. split_and!; congruence.
  - intros n Hn. destruct (ca_below _ _ Hca n Hn) as (_ & _ & Hc & _). rewrite (agree_canon db _ n Ha), Eb by side. by apply Hbodies.
  - by rewrite Eb by side.
Qed.

Definition loaded bc bc' (head : Header) (body : Body) : Prop :=
  hc_ok (bc_hc bc') head /\ on_disk (bc_db bc') head body /\ currentBlock bc' = Some (head, body) /\
  currentFastBlock bc' = Some (head, body) /\ kept bc bc' /\
  bc_db bc' = db_write (bc_db bc) (WriteHeadHeaderHash (Header_Hash head)) /\
  cache_grows (blockCache bc) (blockCache bc') (Header_Hash head) (head, body).

Lemma load_last_state_spec reset bc head body :
  hc_ok (bc_hc bc) head -> on_disk (bc_db bc) head body ->
  (forall w, cache_peek (blockCache bc) (Header_Hash head) = Some w -> w = (head, body)) ->
  wp (load_last_state reset) (fun _ bc' => loaded bc bc' head body) bc.
Proof.
  intros Hok Hdisk Hcache. destruct (Hdisk) as [(M1 & M2 & M3) _ Hbody]. pose proof (hash_range head) as Hpos.
  pose proof (ca_range _ _ (ok_canon _ _ Hok)) as HN. destruct (ca_head _ _ (ok_canon _ _ Hok)) as [Hread _].
  unfold load_last_state. apply wp_bind, wp_get. rewrite M1, (proj2 (Z.eqb_neq _ 0)) by lia.
  destruct (GetBlockByHash_head bc head body Hok) as (bc1 & E1 & Hok1 & Hat1 & Hk1 & Edb1 & _ & G1);
    [split; [by apply head_block, Hbody; apply Hok|done|done]|].
  apply wp_bind. unfold wp at 1. rewrite E1. apply wp_bind, wp_modify, wp_bind, wp_get.
  change (bc_db (set_currentBlock (Some (head, body)) bc1)) with (bc_db bc1).
  rewrite Edb1, M2, (proj2 (Z.eqb_neq _ 0)) by lia. apply wp_bind, wp_on_hc.
  destruct (GetHeaderByHash_spec (bc_hc bc1) (Header_Hash head) (Number head)) as (x & hc2 & E2 & (Hx & _) & Hs2 & Hc2);
    [apply Hok1|apply Hok1|side|side| |].
  { change (chainDb (bc_hc bc1)) with (bc_db bc1). rewrite Edb1. by eapply ReadHeader_has. }
  change (chainDb (bc_hc bc1)) with (bc_db bc1) in Hx. rewrite Edb1 in Hx. unfold bc_db in Hx. rewrite Hread in Hx. injection Hx as <-.
  unfold wp at 1. change (bc_hc (set_currentBlock _ bc1)) with (bc_hc bc1). rewrite E2. change (default _ (Some head)) with head.
  destruct (SetCurrentHeader_head hc2 head) as (hc3 & E3 & Hok3 & Edb3); [by apply (hc_ok_same (bc_hc bc1))|].
  apply wp_bind, wp_on_hc. unfold wp at 1. cbn [bc_hc set_bc_hc]. rewrite E3.
  apply wp_bind, wp_modify, wp_bind, wp_get. set (bc3 := set_currentFastBlock _ _).
  destruct Hs2 as (Edb2 & _). change (chainDb (bc_hc bc1)) with (bc_db bc1) in Edb2. rewrite Edb2, Edb1 in Edb3.
  change (chainDb hc3) with (bc_db bc3) in Edb3. change hc3 with (bc_hc bc3) in Hok3.
  destruct (header_marker_keeps (bc_db bc) (Header_Hash head) ltac:(side)) as (_ & _ & _ & H3 & _).
  rewrite Edb3, H3, M3, (proj2 (Z.eqb_neq _ 0)) by lia.
  assert (Hdisk3 : on_disk (bc_db bc3) head body) by (rewrite Edb3; apply on_disk_marker; [apply Hok|done]).
  destruct (GetBlockByHash_head bc3 head body Hok3) as (bc4 & E4 & Hok4 & Hat4 & Hk4 & Edb4 & Ecur4 & G4).
  { split; [apply head_block; [apply Hok3|apply Hdisk3]|done|apply Hat1]. }
  apply wp_bind. unfold wp at 1. rewrite E4. apply wp_modify.
  split; [exact Hok4|]. change (bc_db (set_currentFastBlock _ bc4)) with (bc_db bc4). rewrite Edb4.
  split; [exact Hdisk3|]. split; [exact Ecur4|]. split; [done|]. split; [|split; [exact Edb3|]].
  - transitivity bc3; [exact Hk1|exact Hk4].
  - intros k w Hw. destruct (G4 k w Hw) as [|Hw']; [by left|]. by apply G1.
Qed.

(** ** Opening a database *)

Lemma canonical_block db head n :
  store_ok db -> canon_ok db head -> 0 <= n <= Number head -> is_Some (ReadBody db (ReadCanonicalHash db n) n) ->
  exists block, ReadBlock db (ReadCanonicalHash db n) n = Some block /\ block_Hash block = ReadCanonicalHash db n /\
    Number (fst block) = n /\ 0 < ReadCanonicalHash db n.
Proof.
  intros Hs Hca Hn [body Hb]. pose proof (ca_range _ _ Hca) as HN. destruct (ca_below _ _ Hca n Hn) as (hdr & Hr & Hh & _).
  pose proof (stored_read db n _ hdr Hs ltac:(side) Hh Hr) as Ho. pose proof (stored_positive _ _ _ _ Ho).
  destruct Ho as (_ & E1 & E2 & _). exists (hdr, body). unfold ReadBlock. by rewrite Hr, Hb.
Qed.

(** The genesis block of a fresh chain is read from the database. *)
Lemma fresh_genesis hc head config t ancients :
  hc_ok hc head -> is_Some (ReadBody (chainDb hc) (ReadCanonicalHash (chainDb hc) 0) 0) ->
  let bc := new_bc hc config None t ancients in
  exists block cache, GetBlockByNumber 0 bc = Some (Some block, set_blockCache cache bc) /\
    ReadBlock (chainDb hc) (ReadCanonicalHash (chainDb hc) 0) 0 = Some block /\
    forall k w, cache_peek cache k = Some w -> k = ReadCanonicalHash (chainDb hc) 0 /\ w = block.
Proof.
  intros Hok Hb bc. pose proof (ca_range _ _ (ok_canon _ _ Hok)) as HN.
  destruct (canonical_block (chainDb hc) head 0) as (block & Hr & Hhash & _ & Hpos); [apply Hok..|lia|done|].
  destruct (GetBlock_at bc (ReadCanonicalHash (chainDb hc) 0) 0 block) as (cache & E & Hg).
  { split; [done|done|]. intros w Hw. cbn in Hw. by rewrite peek_New in Hw. }
  exists block, cache. unfold GetBlockByNumber. rewrite run_get. cbv zeta. change (bc_db bc) with (chainDb hc).
  rewrite (proj2 (Z.eqb_neq _ 0)) by lia. split; [done|]. split; [done|].
  intros k w Hw. destruct (Hg k w Hw) as [|Hw']; [done|]. cbn in Hw'. by rewrite peek_New in Hw'.
Qed.

Lemma set_chainDb_same hc : set_chainDb (chainDb hc) hc = hc.
Proof. by destruct hc. Qed.

Lemma set_bc_hc_same bc : set_bc_hc (bc_hc bc) bc = bc.
Proof. by destruct bc. Qed.

(** Without a freezer the database is not filled. *)
Lemma freezer_noop {ienv : IndexEnv} ancient (b : bool) bc :
  frozen bc = 0 ->
  (if b then on_hc (mmodify (fun hc => set_chainDb (InitDatabaseFromFreezer ancient (Z.to_nat (frozen bc)) (chainDb hc)) hc))
   else mret tt) bc = Some (tt, bc).
Proof.
  intros Ef. destruct b; [|done]. rewrite Ef.
  change (Some (tt, set_bc_hc (set_chainDb (chainDb (bc_hc bc)) (bc_hc bc)) bc) = Some (tt, bc)).
  by rewrite set_chainDb_same, set_bc_hc_same.
Qed.

Lemma open_chain_load {ienv : IndexEnv} ancient depth bc genesis :
  frozen bc = 0 -> genesisBlock bc = Some genesis ->
  open_chain ancient depth bc = (_ ← loadLastState depth; _ ← repair_head depth; repair_ancients depth) bc.
Proof.
  intros Ef Eg. unfold open_chain. rewrite run_get. unfold bc_empty. rewrite Eg. cbn [mbind option_bind].
  erewrite run_lift by reflexivity. by rewrite (run_bind _ _ bc tt bc) by (by apply freezer_noop).
Qed.


(** ** A database without its head block *)

Lemma load_without_head depth bc :
  ReadHeadBlockHash (bc_db bc) = 0 -> currentBlock bc = None -> loadLastState depth bc = None.
Proof.
  intros E0 Ecur. destruct depth as [|depth]; [done|]. cbn [loadLastState]. unfold load_last_state.
  rewrite run_get. cbv zeta. rewrite E0. cbn [Z.eqb]. rewrite run_get.
  unfold reset_with, set_head_beyond, lock. unfold mbind at 1, M_bind at 1. unfold mbind at 1, M_bind at 1. rewrite run_get.
  destruct (chainmu bc); [done|]. cbn [mmodify]. rewrite run_get. cbn [currentBlock set_chainmu]. by rewrite Ecur.
Qed.

(** A database whose head block marker is missing cannot be opened, although
    its genesis block is there: the reset that is meant to start over rewinds a
    chain with no current block and panics. *)
Theorem missing_head_cannot_be_reset {ienv : IndexEnv} ancient depth db head config t :
  store_ok db -> canon_ok db head -> is_Some (ReadBody db (ReadCanonicalHash db 0) 0) -> ReadHeadBlockHash db = 0 ->
  NewBlockChain ancient depth db config t 0 = None.
Proof.
  intros Hs Hca Hb0 Ehead. pose proof (ca_range _ _ Hca) as HN.
  destruct (canonical_block db head 0) as (block & Hr & Hhash & _ & Hpos); [done..|lia|done|].
  destruct (ca_below _ _ Hca 0) as (g & Hg & Hh & _); [lia|].
  unfold NewBlockChain, NewHeaderChain. set (hc0 := mk_hc _ _ _ _ _ _).
  assert (Hc0 : caches_ok hc0) by (split; cbn; intros h x; rewrite peek_New; discriminate).
  destruct (GetHeader_spec hc0 (ReadCanonicalHash db 0) 0) as (g' & hc1 & E1 & _ & (Edb1 & _) & _);
    [done|done|done|side|by eapply ReadHeader_has|].
  assert (E1' : GetHeaderByNumber 0 hc0 = Some (Some g', hc1))
    by (unfold GetHeaderByNumber; rewrite run_get; cbv zeta; rewrite (proj2 (Z.eqb_neq _ 0)) by (cbn; lia); exact E1).
  rewrite E1'. cbn [mbind option_bind]. rewrite Ehead. cbn [Z.eqb mret M_ret mbind option_bind].
  set (hc2 := set_current _ _ _). assert (Edb2 : chainDb hc2 = db) by exact Edb1. clearbody hc2.
  set (bc0 := new_bc hc2 _ None t 0). assert (Ebc : bc_db bc0 = db) by exact Edb2.
  destruct (GetBlock_at bc0 (ReadCanonicalHash db 0) 0 block) as (cache & E2 & _).
  { split; [by rewrite Ebc|done|]. intros w Hw. cbn in Hw. by rewrite peek_New in Hw. }
  assert (E2' : GetBlockByNumber 0 bc0 = Some (Some block, set_blockCache cache bc0))
    by (unfold GetBlockByNumber; rewrite run_get; cbv zeta; rewrite Ebc, (proj2 (Z.eqb_neq _ 0)) by lia; exact E2).
  rewrite E2'. cbn [mbind option_bind]. set (bc1 := set_genesisBlock _ _).
  assert (Eopen : open_chain ancient depth bc1 = None); [|by rewrite Eopen].
  rewrite (open_chain_load ancient depth bc1 block) by done. unfold mbind at 1, M_bind at 1.
  rewrite load_without_head; [done| |done]. change (bc_db bc1) with (bc_db bc0). by rewrite Ebc.
Qed.

End Open.

Section RewindBlocks.
Context {codec : DbCodec} {laws : DbLaws} {crypto : TxCrypto} {lru : Lru} {lru_laws : LruLaws} {pq : Prque}
  {tdb : TrieDb} {env : ChainEnv}.
Implicit Types (bc : BlockChain) (block : Blk).

(** ** The callbacks of a rewind through blocks with state *)

Definition pure_update (hdr : Header) : list db_op * Z * bool :=
  (WriteHeadBlockHash (Header_Hash hdr) ++ WriteHeadFastBlockHash (Header_Hash hdr), Number hdr, false).

Lemma pure_callbacks_ok : callbacks_ok (Some pure_update) (Some DeleteBody).
Proof.
  split; intros f.
  - intros hdr [= <-]. split; [|done]. cbn. repeat constructor; [exists (KNamed NHeadBlock)|exists (KNamed NHeadFast)];
      (split; [right; by eexists|]); (split; [done|intros []]).
  - intros h n [= <-] Hh Hn. constructor; [|constructor]. exists (KBody n h). split; [by left|]. split; [done|intros []].
Qed.

Lemma delete_hashes_pure bc num hashes :
  frozen bc = 0 -> 0 <= num < 2 ^ 64 - 1 ->
  delete_hashes hashes num bc = Some (mjoin ((fun hash => DeleteBody hash num ++ DeleteHeader hash num) <$> hashes), bc).
Proof.
  intros Ef Hn. induction hashes as [|h hs IH]; [done|]. cbn [delete_hashes].
  rewrite (run_bind _ _ bc (DeleteBody h num) bc).
  - by rewrite (run_bind _ _ _ _ _ IH).
  - unfold bc_delFn. rewrite run_get, Ef, u64_small, (proj2 (Z.leb_gt _ 0)) by side. done.
Qed.

Lemma delete_nums_pure bc hdr nums :
  frozen bc = 0 -> (forall n, n ∈ nums -> 0 <= n < 2 ^ 64 - 1) ->
  delete_nums hdr nums bc = Some (mjoin (delete_number (Some DeleteBody) (bc_db bc) hdr <$> nums), bc).
Proof.
  intros Ef. induction nums as [|n nums IH]; intros Hn; [done|]. cbn [delete_nums]. rewrite run_get.
  erewrite run_bind by (apply delete_hashes_pure; [done|apply Hn; by left]).
  by erewrite run_bind by (apply IH; intros k Hk; apply Hn; by right).
Qed.

(** ** One turn *)

Section Turn.
Context (db0 : DB) (old : Header) (t : Tries) (target : Z) (pivot : option Z).
Context (Hs0 : store_ok db0) (Hca : canon_ok db0 old).
Context (Hbodies : forall n, 0 <= n <= Number old -> is_Some (ReadBody db0 (ReadCanonicalHash db0 n) n)).
Context (Hstates : forall n hdr, target <= n < Number old -> ReadHeader db0 (ReadCanonicalHash db0 n) n = Some hdr ->
  is_Some (state_New t (Root hdr))).

(** The cached blocks are those of the database. *)
Definition blocks_cached (c : Cache Blk) : Prop :=
  forall k w, cache_peek c k = Some w ->
    is_hash k /\ is_u64 (Number (fst w)) /\ ReadBlock db0 k (Number (fst w)) = Some w.

(** The block chain while the header chain is at number [m]. *)
Record at_number (m : Z) bc : Prop := {
  an_body : forall k n, is_u64 n -> is_hash k -> ReadBody (bc_db bc) k n = ReadBody db0 k n;
  an_cache : blocks_cached (blockCache bc);
  an_current : exists b, currentBlock bc = Some b /\ Number (fst b) = m;
  an_fast : exists b, currentFastBlock bc = Some b /\ Number (fst b) = m;
  an_frozen : frozen bc = 0;
  an_tries : tries bc = t
}.

Lemma at_number_hc m bc hc : at_number m bc -> chainDb hc = bc_db bc -> at_number m (set_bc_hc hc bc).
Proof.
  intros [H1 H2 H3 H4 H5 H6] E. split; [|exact H2|exact H3|exact H4|exact H5|exact H6].
  change (bc_db (set_bc_hc hc bc)) with (chainDb hc). by rewrite E.
Qed.

(** The canonical block is found, whatever the cache holds. *)
Lemma canonical_at bc n y :
  chain_agree db0 (bc_db bc) -> (forall k n, is_u64 n -> is_hash k -> ReadBody (bc_db bc) k n = ReadBody db0 k n) ->
  blocks_cached (blockCache bc) -> 0 <= n <= Number old -> ReadHeader db0 (ReadCanonicalHash db0 n) n = Some y ->
  exists body, block_at bc (Header_Hash y) n (y, body).
Proof.
  intros Ha Hb Hc Hn Hr. pose proof (ca_range _ _ Hca) as HN. destruct (ca_below _ _ Hca n Hn) as (_ & _ & Hh & _).
  destruct (stored_read db0 n _ y Hs0 ltac:(side) Hh Hr) as (_ & Ehash & _). destruct (Hbodies n Hn) as [body Hbody].
  exists body. rewrite Ehash. assert (Hblock : ReadBlock db0 (ReadCanonicalHash db0 n) n = Some (y, body))
    by (unfold ReadBlock; by rewrite Hr, Hbody).
  split; [|done|].
  - unfold ReadBlock. by rewrite (agree_header db0), Hr, Hb, Hbody by side.
  - intros w Hw. destruct (Hc _ _ Hw) as (_ & Hu & Hw').
    assert (Number (fst w) = n) as Ew.
    { assert (exists x, ReadHeader db0 (ReadCanonicalHash db0 n) (Number (fst w)) = Some x) as [x Hx]
        by (unfold ReadBlock in Hw'; destruct (ReadHeader db0 _ (Number (fst w))); [by eexists|done]).
      eapply (has_number_unique db0 (ReadCanonicalHash db0 n)); eauto using ReadHeader_has; side. }
    rewrite Ew in Hw'. congruence.
Qed.

Lemma blocks_cached_grows c c' y n body :
  blocks_cached c -> cache_grows c c' (Header_Hash y) (y, body) -> is_u64 n -> Number y = n ->
  ReadBlock db0 (Header_Hash y) n = Some (y, body) -> blocks_cached c'.
Proof.
  intros Hc Hg Hu En Hb k w Hw. destruct (Hg k w Hw) as [[-> ->]|Hw']; [|by apply Hc]. cbn [fst]. rewrite En.
  split; [side|done].
Qed.

Lemma update_at m bc rootNumber y :
  chain_agree db0 (bc_db bc) -> at_number m bc -> 0 < m -> target < m <= Number old ->
  ReadHeader db0 (ReadCanonicalHash db0 (m - 1)) (m - 1) = Some y ->
  exists bc', updateFn 0 pivot 0 rootNumber y bc = Some (pure_update y, rootNumber, bc') /\ bc_hc bc' = bc_hc bc /\
    at_number (m - 1) bc' /\ kept bc bc'.
Proof.
  intros Ha [Hb Hc (b & Eb & Nb) (fb & Ef & Nf) Hfr Ht] Hm0 Hm Hr. pose proof (ca_range _ _ Hca) as HN.
  destruct (ca_below _ _ Hca (m - 1)) as (_ & _ & Hh & _); [lia|].
  destruct (stored_read db0 (m - 1) _ y Hs0 ltac:(side) Hh Hr) as (_ & Ehash & Enum & _).
  destruct (canonical_at bc (m - 1) y Ha Hb Hc ltac:(lia) Hr) as (body & Hat). destruct (Hstates (m - 1) y ltac:(lia) Hr) as [st Est].
  assert (Hread0 : ReadBlock db0 (Header_Hash y) (m - 1) = Some (y, body)).
  { destruct Hat as [Hread _ _]. unfold ReadBlock in *. by rewrite (agree_header db0), Hb in Hread by side. }
  destruct (GetBlock_at _ _ _ _ Hat) as (c1 & E1 & G1).
  set (bc1 := set_currentBlock (Some (y, body)) (set_blockCache c1 bc)).
  assert (Ehead : rewind_head 0 pivot rootNumber y bc = Some ((WriteHeadBlockHash (Header_Hash y), rootNumber), bc1)).
  { unfold rewind_head, block_NumberU64. rewrite run_get, Eb. rewrite Enum, Nb, !big_uint64_small by side.
    rewrite (proj2 (Z.leb_le _ _)), (run_bind _ _ _ _ _ E1) by lia.
    rewrite (run_bind _ _ _ ((y, body), rootNumber) (set_blockCache c1 bc)); [done|].
    unfold bc_fuel, loop_fuel. rewrite Nat.add_comm. cbn [Nat.add rewind_block].
    erewrite run_lift by reflexivity. rewrite run_get. cbn [tries set_blockCache]. rewrite Ht. unfold block_Root. cbn [fst].
    rewrite Est. done. }
  destruct (GetBlock_at bc1 (Header_Hash y) (m - 1) (y, body)) as (c2 & E2 & G2);
    [destruct (block_at_grows _ _ _ _ _ Hat G1); by split|].
  set (bc2 := set_currentFastBlock (Some (y, body)) (set_blockCache c2 bc1)).
  assert (Efast : rewind_fast y bc1 = Some (WriteHeadFastBlockHash (Header_Hash y), bc2)).
  { unfold rewind_fast, block_NumberU64. rewrite run_get. cbn [currentFastBlock bc1 set_currentBlock set_blockCache].
    rewrite Ef, Enum, Nf, !big_uint64_small by side. rewrite (proj2 (Z.ltb_lt _ _)), (run_bind _ _ _ _ _ E2) by lia. done. }
  exists bc2. unfold updateFn. rewrite (run_bind _ _ _ _ _ Ehead), (run_bind _ _ _ _ _ Efast).
  rewrite (run_bind _ _ bc2 (Some (y, body)) bc2) by done. erewrite run_lift by reflexivity.
  unfold block_NumberU64. cbn [fst]. rewrite Enum, big_uint64_small, u64_small, (proj2 (Z.ltb_ge _ 0)) by side.
  cbn [andb]. split; [unfold pure_update; by rewrite Enum|]. split; [done|]. split; [|done].
  split; try done; [|by eexists..]. cbn. apply (blocks_cached_grows c1 c2 y (m - 1) body); try done; [|side].
  by apply (blocks_cached_grows (blockCache bc) c1 y (m - 1) body); [..|side| |].
Qed.

(** What a turn writes. *)
Definition turn_markers (h : Z) : list db_op :=
  (WriteHeadBlockHash h ++ WriteHeadFastBlockHash h) ++ WriteHeadHeaderHash h.

Lemma turn_markers_marked db h : is_hash h -> marked (db_write db (turn_markers h)) h.
Proof.
  intros Hh. pose proof (stored_hash h Hh) as Hst.
  assert (Hmark : forall n, n = NHeadBlock \/ n = NHeadHeader \/ n = NHeadFast ->
    read_hash (db_write db (turn_markers h)) (key_bytes (KNamed n)) = h).
  { intros n Hn. unfold read_hash, Get.
    change (db_write db (turn_markers h)) with (db_apply (db_apply (db_apply db
      (Put (key_bytes (KNamed NHeadBlock)) (hash_to_bytes h))) (Put (key_bytes (KNamed NHeadFast)) (hash_to_bytes h)))
      (Put (key_bytes (KNamed NHeadHeader)) (hash_to_bytes h))).
    rewrite !lookup_put by done. destruct Hn as [->|[->| ->]]; repeat case_decide; done. }
  split_and!; [apply (Hmark NHeadBlock)|apply (Hmark NHeadHeader)|apply (Hmark NHeadFast)]; auto.
Qed.

Lemma turn_markers_body db h k n : is_u64 n -> is_hash k -> ReadBody (db_write db (turn_markers h)) k n = ReadBody db k n.
Proof.
  intros Hn Hk. apply body_others; [done..|].
  repeat constructor; [exists (KNamed NHeadBlock)|exists (KNamed NHeadFast)|exists (KNamed NHeadHeader)];
    (split; [right; by eexists|by split]).
Qed.

(** The deletions spare the markers and the bodies up to the target. *)
Definition spared (op : db_op) : Prop :=
  exists k, op_key k op /\ key_ok k /\ (forall x, k <> KNamed x) /\ (forall n h, k = KBody n h -> target < n).

Lemma delete_number_spared db hdr num :
  (forall k, is_Some (db !! k) -> Forall is_byte k) -> target < num -> is_u64 num ->
  Forall spared (delete_number (Some DeleteBody) db hdr num).
Proof.
  intros Hb Hlt Hu. unfold delete_number.
  assert (Hhash : forall h, h ∈ (match ReadAllHashes db num with [] => [Header_Hash hdr] | hashes => hashes end) -> is_hash h).
  { intros h Hin. destruct (ReadAllHashes db num) eqn:E; [apply list_elem_of_singleton in Hin as ->; side|].
    rewrite <- E in Hin. by apply elem_of_ReadAllHashes in Hin as [? _]. }
  apply Forall_app. split.
  - apply Forall_forall. intros op Hop. apply list_elem_of_join in Hop as (l & Hop & Hl).
    apply list_elem_of_fmap in Hl as (h & -> & Hin). apply Hhash in Hin.
    unfold DeleteBody, DeleteHeader, deleteHeaderWithoutNumber in Hop. cbn [app] in Hop.
    rewrite !elem_of_cons in Hop. destruct Hop as [->|[->|[->|Hop]]]; [| | |by apply not_elem_of_nil in Hop];
      [exists (KBody num h)|exists (KHeader num h)|exists (KHeaderNumber h)]; (split; [by left|]); (split; [done|]);
      (split; [done|]); intros n k E; congruence.
  - constructor; [|constructor]. exists (KCanonical num). split; [by left|]. done.
Qed.

Lemma listed_bound db n : store_ok db -> is_u64 n -> ReadAllHashes db n <> [] -> 0 <= n < 2 ^ 64 - 1.
Proof.
  intros Hs Hu Hne. split; [apply Hu|]. destruct (ReadAllHashes db n) as [|h hs] eqn:Er; [done|].
  assert (Hin : h ∈ ReadAllHashes db n) by (rewrite Er; by left).
  apply elem_of_ReadAllHashes in Hin as [Hhh Hhas]; [|apply (so_bytes _ Hs)].
  destruct (so_stored _ Hs n h Hu Hhh Hhas) as (x & Hx). apply Hx.
Qed.

(** The turn of the block chain's loop, by the step of the header chain. *)
Lemma bc_step_run m bc bc2 hdr fuel batch (origin : bool) rootNumber y hc1 hc2 mops nums :
  head_step (Some pure_update) db0 target m (bc_hc bc) hdr origin y hc1 hc2 mops nums ->
  0 <= target < m -> is_u64 m -> currentHeader (bc_hc bc) = Some hdr ->
  updateFn 0 pivot 0 rootNumber y (set_bc_hc hc1 bc) = Some (pure_update y, rootNumber, bc2) ->
  bc_hc bc2 = hc1 -> frozen bc2 = 0 ->
  bc_head_loop (updateFn 0 pivot 0) (S fuel) target batch origin rootNumber bc
    = bc_head_loop (updateFn 0 pivot 0) fuel target
        (batch ++ mjoin (delete_number (Some DeleteBody) (chainDb hc2) hdr <$> (nums ++ [m]))) false rootNumber (set_bc_hc hc2 bc2).
Proof.
  intros [Enum Hp Eg _ Eup E2 Hrw2 Enums Habove _] Htar Hm Ecur Eupd Ehc Hfr. injection Eup as <-. set (bc3 := set_bc_hc hc2 bc2).
  cbn [bc_head_loop]. rewrite (run_bind _ _ bc hdr bc).
  2:{ erewrite run_on_hc; [by rewrite set_bc_hc_same|]. unfold CurrentHeader. by rewrite run_get, Ecur. }
  cbv zeta. rewrite Enum, big_uint64_small, (proj2 (Z.leb_gt m target)), (u64_small (m - 1)) by side.
  rewrite (run_bind _ _ _ _ _ (run_on_hc _ _ _ _ Eg)), run_get, (run_lift _ _ _ y eq_refl), (run_bind _ _ _ _ _ Eupd).
  cbn [pure_update]. cbv iota beta. cbn [andb]. unfold bc_write, hc_write.
  rewrite (run_bind _ _ bc2 tt _ (run_on_hc _ _ _ _ eq_refl)), (run_bind _ _ _ tt bc3) by (unfold bc3; rewrite E2, <- Ehc; done).
  rewrite run_get, (run_bind _ _ bc3 nums bc3).
  - erewrite run_bind; [reflexivity|]. apply delete_nums_pure; [done|]. intros n Hn. destruct (Habove n Hn) as (_ & Hu & Hne).
    by apply (listed_bound (chainDb hc2)); [apply (rw_store _ _ _ _ Hrw2)|..].
  - destruct origin; [|by injection Enums as <-]. unfold bc_fuel, bc_db, mlift in *. cbn [bc_hc bc3 set_bc_hc].
    destruct (leftovers _ _ _ _); [|done]. by injection Enums as <-.
Qed.

Lemma bc_turn m bc hdr fuel batch (origin : bool) rootNumber :
  rewinding db0 m (bc_hc bc) hdr -> at_number m bc -> 0 <= target < m -> m <= Number old ->
  exists bc' y ops,
    bc_head_loop (updateFn 0 pivot 0) (S fuel) target batch origin rootNumber bc
      = bc_head_loop (updateFn 0 pivot 0) fuel target (batch ++ ops) false rootNumber bc' /\
    set_head_loop (Some pure_update) (Some DeleteBody) (S fuel) target batch origin (bc_hc bc)
      = set_head_loop (Some pure_update) (Some DeleteBody) fuel target (batch ++ ops) false (bc_hc bc') /\
    rewinding db0 (m - 1) (bc_hc bc') y /\ at_number (m - 1) bc' /\ marked (bc_db bc') (ReadCanonicalHash db0 (m - 1)) /\
    kept bc bc' /\ Forall spared ops.
Proof.
  intros Hrw Hat Htar Hm. pose proof (ca_range _ _ Hca) as HN. pose proof (rw_current _ _ _ _ Hrw) as Ecur.
  destruct (head_step_exists (Some pure_update) (Some DeleteBody) db0 old target m (bc_hc bc) hdr origin)
    as (y & hc1 & hc2 & mops & nums & Hst); [apply pure_callbacks_ok|done..|].
  destruct (Hst) as [_ Hp _ (Edb1 & _) Eup E2 Hrw2 _ Habove _]. injection Eup as Emops.
  destruct (ca_below _ _ Hca (m - 1)) as (_ & _ & Hh & _); [lia|].
  destruct (stored_read db0 (m - 1) _ y Hs0 ltac:(side) Hh (rw_read _ _ _ _ Hrw2)) as (_ & Ehash & _).
  destruct (update_at m (set_bc_hc hc1 bc) rootNumber y) as (bc2 & Eupd & Ehc & Hat2 & Hk2);
    [|by apply at_number_hc|lia|lia|exact (rw_read _ _ _ _ Hrw2)|].
  { change (bc_db (set_bc_hc hc1 bc)) with (chainDb hc1). rewrite Edb1. exact (rw_agree _ _ _ _ Hrw). }
  exists (set_bc_hc hc2 bc2), y. eexists.
  assert (Edb3 : bc_db (set_bc_hc hc2 bc2) = db_write (chainDb hc1) (turn_markers (ReadCanonicalHash db0 (m - 1))))
    by (unfold bc_db; cbn [bc_hc set_bc_hc]; rewrite E2, <- Emops, Hp, Ehash; done).
  split; [apply (bc_step_run m bc bc2 hdr fuel batch origin rootNumber y hc1 hc2 mops nums Hst Htar ltac:(side) Ecur Eupd Ehc);
    exact (an_frozen _ _ Hat2)|].
  split; [exact (head_step_run _ _ _ _ _ _ _ fuel batch origin _ _ _ _ _ Hst Htar ltac:(side) Ecur)|]. split; [exact Hrw2|].
  split; [|split; [rewrite Edb3; by apply turn_markers_marked|split; [done|]]].
  - destruct Hat2 as [B1 B2 B3 B4 B5 B6]. split; [|exact B2|exact B3|exact B4|exact B5|exact B6].
    intros k n Hn Hk. rewrite Edb3, turn_markers_body by done. rewrite <- (B1 k n) by done. unfold bc_db. by rewrite Ehc.
  - apply Forall_forall. intros op Hop. apply list_elem_of_join in Hop as (l & Hop & Hl).
    apply list_elem_of_fmap in Hl as (n & -> & Hn). destruct (Habove n Hn) as (Hlt & Hu & _).
    eapply (proj1 (Forall_forall _ _)); [|exact Hop]. apply delete_number_spared; [apply (so_bytes _ (rw_store _ _ _ _ Hrw2))|done|done].
Qed.

(** ** The loop *)

(** Both loops stop at the target. *)
Lemma loops_stop fuel bc hdr batch (origin : bool) rootNumber :
  0 <= target <= Number old -> rewinding db0 target (bc_hc bc) hdr ->
  bc_head_loop (updateFn 0 pivot 0) (S fuel) target batch origin rootNumber bc = Some ((batch, rootNumber), bc) /\
  set_head_loop (Some pure_update) (Some DeleteBody) (S fuel) target batch origin (bc_hc bc) = Some (batch, bc_hc bc).
Proof.
  intros Ht Hrw. pose proof (ca_range _ _ Hca) as HN. destruct (ca_below _ _ Hca target) as (_ & _ & Hhash & _); [lia|].
  destruct (stored_read db0 target _ hdr Hs0 ltac:(side) Hhash (rw_read _ _ _ _ Hrw)) as (_ & _ & Enum & _).
  assert (Ecur : CurrentHeader (bc_hc bc) = Some (hdr, bc_hc bc))
    by (unfold CurrentHeader; by rewrite run_get, (rw_current _ _ _ _ Hrw)).
  split; [cbn [bc_head_loop]|cbn [set_head_loop]].
  - rewrite (run_bind _ _ _ _ _ (run_on_hc _ _ _ _ Ecur)). cbv zeta.
    by rewrite Enum, big_uint64_small, Z.leb_refl, set_bc_hc_same by side.
  - rewrite (run_bind _ _ _ _ _ Ecur). cbv zeta. by rewrite Enum, big_uint64_small, Z.leb_refl by side.
Qed.

Lemma bc_loop_run (d : nat) : forall fuel bc hdr batch (origin : bool) rootNumber,
  0 <= target -> target + Z.of_nat d <= Number old -> (d < fuel)%nat ->
  rewinding db0 (target + Z.of_nat d) (bc_hc bc) hdr -> at_number (target + Z.of_nat d) bc ->
  (d = 0%nat -> marked (bc_db bc) (ReadCanonicalHash db0 target)) ->
  exists bc' ops,
    bc_head_loop (updateFn 0 pivot 0) fuel target batch origin rootNumber bc = Some ((batch ++ ops, rootNumber), bc') /\
    set_head_loop (Some pure_update) (Some DeleteBody) fuel target batch origin (bc_hc bc) = Some (batch ++ ops, bc_hc bc') /\
    at_number target bc' /\ marked (bc_db bc') (ReadCanonicalHash db0 target) /\ kept bc bc' /\ Forall spared ops.
Proof.
  induction d as [|d IH]; intros [|fuel] bc hdr batch origin rootNumber Ht Hd Hf Hrw Hat Hmark; try lia.
  - change (Z.of_nat 0) with 0 in *. rewrite Z.add_0_r in *. exists bc, []. rewrite app_nil_r.
    destruct (loops_stop fuel bc hdr batch origin rootNumber) as [E F]; [lia|done|].
    split_and!; try done; by apply Hmark.
  - destruct (bc_turn (target + Z.of_nat (S d)) bc hdr fuel batch origin rootNumber)
      as (bc1 & y & ops1 & E1 & F1 & Hrw1 & Hat1 & Hm1 & Hk1 & Hs1); [done..|lia|lia|].
    replace (target + Z.of_nat (S d) - 1) with (target + Z.of_nat d) in * by lia.
    destruct (IH fuel bc1 y (batch ++ ops1) false rootNumber) as (bc2 & ops2 & E2 & F2 & Hat2 & Hm2 & Hk2 & Hs2); [lia..|done|done| |].
    { intros ->. by rewrite Z.add_0_r in Hm1. }
    exists bc2, (ops1 ++ ops2). rewrite E1, E2, F1, F2, app_assoc. split; [done|]. split; [done|]. split; [done|].
    split; [done|]. split; [by etrans|by apply Forall_app].
Qed.

(** The deletions that are flushed at the end keep the markers and the bodies. *)
Lemma spared_marked db ops h : Forall spared ops -> marked db h -> marked (db_write db ops) h.
Proof.
  intros Hops. assert (Hkeep : forall x, read_hash (db_write db ops) (key_bytes (KNamed x)) = read_hash db (key_bytes (KNamed x))).
  { intros x. unfold read_hash, Get. rewrite lookup_others; [done|done|]. eapply Forall_impl; [exact Hops|].
    intros op (k & H1 & H2 & H3 & _). exists k. split; [done|]. split; [done|apply H3]. }
  intros (H1 & H2 & H3). split_and!; [rewrite <- H1; apply (Hkeep NHeadBlock)|rewrite <- H2; apply (Hkeep NHeadHeader)|
    rewrite <- H3; apply (Hkeep NHeadFast)].
Qed.

Lemma spared_body db ops k n : Forall spared ops -> is_u64 n -> is_hash k -> n <= target ->
  ReadBody (db_write db ops) k n = ReadBody db k n.
Proof.
  intros Hops Hn Hk Hle. apply body_others; [done..|]. eapply Forall_impl; [exact Hops|].
  intros op (k' & H1 & H2 & _ & H4). exists k'. split; [done|]. split; [done|]. intros ->. specialize (H4 n k eq_refl). lia.
Qed.
End Turn.

(** ** The rewind *)

(** A chain at rest without a freezer: the fast block is at the head, the cached
    blocks are those on disk. *)
Record at_rest bc (head : Blk) : Prop := {
  ar_unlocked : chainmu bc = false;
  ar_frozen : frozen bc = 0;
  ar_fast : exists b, currentFastBlock bc = Some b /\ Number (fst b) = Number (fst head);
  ar_cache : blocks_cached (bc_db bc) (blockCache bc)
}.

(** The rewind of the header chain with the block chain's callbacks. *)
Lemma bc_hc_SetHead_run bc head target pivot :
  bc_ok bc head -> frozen bc = 0 -> blocks_cached (bc_db bc) (blockCache bc) ->
  (exists b, currentFastBlock bc = Some b /\ Number (fst b) = Number (fst head)) ->
  0 <= target < Number (fst head) ->
  (forall n hdr, target <= n < Number (fst head) -> ReadHeader (bc_db bc) (ReadCanonicalHash (bc_db bc) n) n = Some hdr ->
     is_Some (state_New (tries bc) (Root hdr))) ->
  exists bc' new body, bc_hc_SetHead (updateFn 0 pivot 0) target 0 bc = Some (0, bc') /\ hc_ok (bc_hc bc') new /\
    Number new = target /\ Header_Hash new = ReadCanonicalHash (bc_db bc) target /\ on_disk (bc_db bc') new body /\ kept bc bc' /\
    forall n h, is_u64 n -> is_hash h ->
      ReadHeader (bc_db bc') h n = if decide (n <= target) then ReadHeader (bc_db bc) h n else None.
Proof.
  intros [Hok Ecur Hmark Hbodies _] Hfr Hcache Hfast Htar Hstates. destruct (Hok) as [Hs Hca Hc [Ech Ehash] _].
  pose proof (ca_range _ _ Hca) as HN. set (d := Z.to_nat (Number (fst head) - target)).
  assert (Ed : target + Z.of_nat d = Number (fst head)) by lia. destruct (ca_head _ _ Hca) as [Hr Hcan].
  destruct (bc_loop_run (bc_db bc) (fst head) (tries bc) target pivot Hs Hca Hbodies Hstates d (bc_fuel bc) bc (fst head) [] true 0)
    as (bc1 & ops & E1 & F1 & Hat & Hm & Hk & Hsp); [lia|lia| | | |lia|].
  { unfold bc_fuel, loop_fuel. pose proof (branch_le_size _ _ _ d (canonical_is_ancestry _ _ Hs Hca)). lia. }
  { rewrite Ed. split; try done; unfold bc_db; by rewrite Hcan. }
  { rewrite Ed. split; try done. by exists head. }
  destruct (SetHead_spec (Some pure_update) (Some DeleteBody) (bc_hc bc) (fst head) target)
    as (hc' & new & Eset & Hok' & En & Eh & Hcanon & Hhdr); [apply pure_callbacks_ok|done|done|].
  set (bc2 := set_bc_hc hc' bc1). unfold SetHead in Eset. rewrite run_get in Eset. change (loop_fuel (bc_hc bc)) with (bc_fuel bc) in Eset.
  rewrite (run_bind _ _ _ _ _ F1) in Eset. unfold hc_write in Eset. rewrite !run_modify in Eset. injection Eset as Ehc.
  assert (Edb2 : bc_db bc2 = db_write (bc_db bc1) ops) by (unfold bc2; by rewrite <- Ehc).
  destruct (Hbodies target) as [body Hbody]; [lia|]. destruct (ca_below _ _ Hca target) as (_ & _ & Hh & _); [lia|].
  exists bc2, new, body. split; [|split; [exact Hok'|]; split; [done|]; split; [done|]; split; [|split; [exact Hk|exact Hhdr]]].
  - unfold bc_hc_SetHead. rewrite run_get, (run_bind _ _ _ _ _ E1). unfold bc_write, hc_write.
    rewrite (run_bind _ _ bc1 tt _ (run_on_hc _ _ _ _ eq_refl)), (run_bind _ _ _ tt _ (run_on_hc _ _ _ _ eq_refl)).
    rewrite (run_bind _ _ _ tt _ (run_on_hc _ _ _ _ eq_refl)). unfold bc2. rewrite <- Ehc. done.
  - split.
    + rewrite Edb2, Eh. by apply (spared_marked target).
    + intros n Hn. rewrite En in Hn. destruct (ca_below _ _ Hca n) as (_ & _ & Hhn & _); [lia|].
      change (bc_db bc2) with (chainDb hc') at 2. rewrite Hcanon, decide_True by side.
      change (chainDb (bc_hc bc)) with (bc_db bc) in *. rewrite Edb2, (spared_body target) by side.
      rewrite (an_body _ _ _ _ Hat) by side. apply Hbodies. lia.
    + rewrite En, Eh, Edb2, (spared_body target) by side. by rewrite (an_body _ _ _ _ Hat) by side.
Qed.

(** C5: A rewind of the block chain to a number below the head, through blocks
    whose states are there, ends without a panic or a deadlock: the canonical
    block of that number, as stored, becomes the head block and the fast block in
    memory and on disk, every header above it is gone and every other one is
    kept. *)
Theorem SetHead_rewinds_blocks depth bc head target :
  bc_ok bc head -> at_rest bc head -> 0 <= target < Number (fst head) ->
  (forall n hdr, target <= n < Number (fst head) -> ReadHeader (bc_db bc) (ReadCanonicalHash (bc_db bc) n) n = Some hdr ->
     is_Some (state_New (tries bc) (Root hdr))) ->
  exists bc' block, bc_SetHead (S depth) target bc = Some (tt, bc') /\ bc_ok bc' block /\ at_rest bc' block /\
    Number (fst block) = target /\ block_Hash block = ReadCanonicalHash (bc_db bc) target /\
    forall n h, is_u64 n -> is_hash h ->
      ReadHeader (bc_db bc') h n = if decide (n <= target) then ReadHeader (bc_db bc) h n else None.
Proof.
  intros Hb [Emu Efr Hfast Hcache] Htar Hstates. pose proof (ca_range _ _ (ok_canon _ _ (bo_chain _ _ Hb))) as HN.
  set (bc0 := set_chainmu true bc). assert (Hb0 : bc_ok bc0 head) by (by apply (bc_ok_ext bc)).
  destruct (bc_hc_SetHead_run bc0 head target (ReadLastPivotNumber (bc_db bc))) as (bc1 & new & body & E1 & Hok1 & En & Eh & Hdisk & Hk1 & Hhdr);
    [done..|].
  set (bc2 := set_futureBlocks (cache_Purge (futureBlocks bc1)) (set_txLookupCache (cache_Purge (txLookupCache bc1))
    (set_blockCache (cache_Purge (blockCache bc1)) (set_bodyRLPCache (cache_Purge (bodyRLPCache bc1))
      (set_bodyCache (cache_Purge (bodyCache bc1)) bc1))))).
  assert (Hload : wp (loadLastState (S depth)) (fun _ bc' => loaded bc2 bc' new body) bc2).
  { apply load_last_state_spec; [exact Hok1|exact Hdisk|]. intros w Hw. cbn in Hw. by rewrite Purge_empty in Hw. }
  destruct (wp_run _ _ _ Hload) as ([] & bc3 & E3 & Hok3 & Hdisk3 & Ecur3 & Efast3 & Hk3 & Edb3 & Hg3).
  exists (set_chainmu false bc3), (new, body). split; [|split; [|split; [|split; [done|split; [done|]]]]].
  - unfold bc_SetHead, SetHeadBeyondRoot, set_head_beyond, lock, unlock, purge_caches.
    assert (Elock : (bc ← mget; if chainmu bc then mpanic else mmodify (set_chainmu true)) bc = Some (tt, bc0))
      by (rewrite run_get, Emu; done).
    erewrite run_bind; [reflexivity|]. rewrite (run_bind _ _ _ _ _ Elock), run_get. cbv zeta.
    change (frozen bc0) with (frozen bc). rewrite Efr, (run_lift _ _ _ head) by apply Hb0.
    unfold block_NumberU64. rewrite big_uint64_small, (proj2 (Z.eqb_neq _ _)) by (side || lia).
    change (bc_db bc0) with (bc_db bc). rewrite (run_bind _ _ _ _ _ E1), run_modify. fold bc2.
    by rewrite (run_bind _ _ _ _ _ E3), run_modify.
  - apply (bc_ok_ext bc3); [|done..]. destruct Hdisk3 as [D1 D2 D3]. split; [exact Hok3|exact Ecur3|exact D1|exact D2|by exists body].
  - destruct Hk1 as (_ & _ & _ & K1 & _), Hk3 as (_ & _ & _ & K3 & _).
    split; [done|cbn [frozen set_chainmu]; rewrite K3; change (frozen bc2) with (frozen bc1); rewrite K1; exact Efr|by exists (new, body)|].
    intros k w Hw. destruct (Hg3 k w Hw) as [[-> ->]|Hw']; [|cbn in Hw'; by rewrite Purge_empty in Hw'].
    cbn [fst]. rewrite En. split; [side|]. split; [side|].
    rewrite <- En. change (bc_db (set_chainmu false bc3)) with (bc_db bc3). apply head_block; [apply Hok3|apply Hdisk3].
  - intros n h Hn Hh. change (bc_db (set_chainmu false bc3)) with (bc_db bc3). rewrite Edb3.
    destruct (header_marker_keeps (bc_db bc2) (Header_Hash new) (header_hash_ok new)) as (Ha & _).
    rewrite (agree_header _ _ n h Ha) by done. by apply Hhdr.
Qed.

End RewindBlocks.

(** ** Concrete chains *)

Module RewindBlocksToy.
Import DbToy ChainToy IndexToy BlockToy.

#[local] Existing Instances toy_codec toy_laws toy_crypto toy_lru toy_lru_laws toy_pq toy_pq_laws toy_tdb toy_env toy_ienv.


(** The records of the genesis block without the markers of the head. *)
Definition toy_unmarked_db : DB := db_write toy_db (WriteBody (Header_Hash toy_g) 0 []).

Lemma missing_head_cannot_be_reset_witness :
  NewBlockChain (ienv := toy_ienv) (tdb := toy_tdb) (fun _ => 0) 5 toy_unmarked_db None [] 0 = None.
Proof.
  assert (Hops : Forall content_op (WriteBody (Header_Hash toy_g) 0 [])).
  { constructor; [|constructor]. exists (KBody 0 (Header_Hash toy_g)). split; [right; by eexists|]. split; [done|intros []]. }
  assert (Hs : store_ok toy_unmarked_db) by (apply store_ok_content; [apply toy_hc0_ok|done]).
  assert (Hca : canon_ok toy_unmarked_db toy_g)
    by (apply (canon_ok_agree toy_db); [apply toy_hc0_ok|by apply content_agree]).
  assert (Hb : is_Some (ReadBody toy_unmarked_db (ReadCanonicalHash toy_unmarked_db 0) 0)) by (vm_compute; by eexists).
  assert (H0 : ReadHeadBlockHash toy_unmarked_db = 0) by (vm_compute; reflexivity).
  exact (missing_head_cannot_be_reset (tdb := toy_tdb) (ienv := toy_ienv) (fun _ => 0) 5 toy_unmarked_db toy_g None [] Hs Hca Hb H0).
Defined.

Lemma SetHead_rewinds_blocks_witness :
  exists bc' block, bc_SetHead 1 0 toy_bc1 = Some (tt, bc') /\ bc_ok bc' block /\ Number (fst block) = 0.
Proof.
  destruct toy_bc1_ok as [Hb Hmu].
  assert (Hrest : at_rest toy_bc1 toy_b1).
  { split; [done|vm_compute; reflexivity|exists toy_b1; split; vm_compute; reflexivity|].
    intros k w Hw. replace (blockCache toy_bc1) with (∅ : gmap Z Blk) in Hw by (vm_compute; reflexivity).
    cbn in Hw. by rewrite lookup_empty in Hw. }
  assert (Htar : 0 <= 0 < Number (fst toy_b1)) by (cbn; lia).
  destruct (SetHead_rewinds_blocks (tdb := toy_tdb) 0 toy_bc1 toy_b1 0 Hb Hrest Htar ltac:(intros; by eexists)) as (bc' & block & E & Hok & _ & En & _).
  exists bc', block. split; [exact E|]. split; [exact Hok|exact En].
Defined.

End RewindBlocksToy.
