(* ===== verification/GoString.v ===== *)
(** * Go strings, numbers and searches

    What the packages [strings], [strconv], [fmt], [math/big] and [sort] of the
    Go library do for the code: strings are lists of bytes.  Shared by the contract ABI and the
    accounts. *)
From stdpp Require Import list sorting.
From Stdlib Require Import ZArith Lia String Ascii.
From S2P Require Import Prelude.

Local Open Scope Z_scope.

(** ** Strings *)

Abbreviation gostr := (list Z).

Definition lit (s : string) : gostr := (fun a => Z.of_N (N_of_ascii a)) <$> list_ascii_of_string s.

Definition is_letter (c : Z) : bool := ((65 <=? c) && (c <=? 90)) || ((97 <=? c) && (c <=? 122)).
Definition is_digit (c : Z) : bool := (48 <=? c) && (c <=? 57).

(** [strings.Count] and [strings.LastIndex] of a single character. *)
Definition count_char (c : Z) (s : gostr) : nat := List.length (filter (fun x => x = c) s).

Fixpoint last_index (c : Z) (s : gostr) : option nat :=
  match s with
  | [] => None
  | x :: s' => match last_index c s' with
               | Some i => Some (S i)
               | None => if x =? c then Some O else None
               end
  end.

(** The longest prefix of characters of a class, and the rest. *)
Fixpoint span (p : Z -> bool) (s : gostr) : gostr * gostr :=
  match s with
  | [] => ([], [])
  | c :: s' => if p c then let '(a, b) := span p s' in (c :: a, b) else ([], s)
  end.

(** All matches of [[0-9]+]. *)
Fixpoint digit_runs (inside : bool) (s : gostr) : list gostr :=
  match s with
  | [] => []
  | c :: s' =>
      if is_digit c then
        if inside then digit_runs true s' else fst (span is_digit s) :: digit_runs true s'
      else digit_runs false s'
  end.

(** [strconv.Atoi] of a string of digits; nothing else is passed to it but a
    size with a fraction, which it refuses. *)
Definition Atoi (s : gostr) : option Z :=
  if forallb is_digit s && negb (bool_decide (s = [])) then
    let n := foldl (fun acc c => acc * 10 + (c - 48)) 0 s in
    if n <? 2 ^ 63 then Some n else None
  else None.

(** The verb [%d] of a non-negative integer. *)
Fixpoint dec_digits (fuel : nat) (z : Z) : gostr :=
  match fuel with
  | O => []
  | S fuel' => (if z <? 10 then [] else dec_digits fuel' (z / 10)) ++ [48 + z mod 10]
  end.
Definition itoa (z : Z) : gostr := dec_digits (S (Z.to_nat (Z.log2 z))) z.

(** [strings.HasPrefix], and [strings.Replace] that drops a character. *)
Definition has_prefix (p s : gostr) : bool := bool_decide (take (List.length p) s = p).
Definition drop_char (c : Z) (s : gostr) : gostr := filter (fun x => x <> c) s.

(** [strings.Split] at a character. *)
Fixpoint split_at (c : Z) (s : gostr) : list gostr :=
  match s with
  | [] => [[]]
  | x :: s' =>
      if x =? c then [] :: split_at c s'
      else match split_at c s' with
           | part :: parts => (x :: part) :: parts
           | [] => [[x]]
           end
  end.

(** ** Decimal numbers *)

Definition dec_value (s : gostr) : Z := foldl (fun acc c => acc * 10 + (c - 48)) 0 s.

Lemma dec_digits_value fuel : forall z, 0 <= z < 2 ^ Z.of_nat fuel -> (0 < fuel)%nat ->
  dec_value (dec_digits fuel z) = z /\ Forall (fun c => is_digit c = true) (dec_digits fuel z) /\ dec_digits fuel z <> [].
Proof.
  induction fuel as [|fuel IH]; intros z Hz Hf; [lia|]. cbn [dec_digits]. rewrite Nat2Z.inj_succ, Z.pow_succ_r in Hz by lia.
  pose proof (Z.mod_pos_bound z 10 ltac:(lia)). pose proof (Z.div_mod z 10 ltac:(lia)).
  assert (Hd : Forall (fun c => is_digit c = true) [48 + z mod 10]).
  { apply Forall_singleton. unfold is_digit. apply andb_true_iff. split; apply Z.leb_le; lia. }
  destruct (Z.ltb_spec z 10).
  - cbn [app]. split; [unfold dec_value; cbn [foldl]; lia|]. by split.
  - assert (Hdiv : 0 <= z / 10 < 2 ^ Z.of_nat fuel) by lia.
    destruct fuel as [|fuel]; [cbn in Hdiv; lia|]. destruct (IH (z / 10) Hdiv ltac:(lia)) as (E & Hall & Hne).
    split; [|split; [by apply Forall_app|by destruct (dec_digits (S fuel) (z / 10))]].
    unfold dec_value in *. rewrite foldl_app, E. cbn [foldl]. lia.
Qed.

Lemma itoa_spec z : 0 <= z -> dec_value (itoa z) = z /\ Forall (fun c => is_digit c = true) (itoa z) /\ itoa z <> [].
Proof.
  intros Hz. apply dec_digits_value; [|lia]. split; [done|]. rewrite Nat2Z.inj_succ, Z2Nat.id by apply Z.log2_nonneg.
  destruct (decide (z = 0)) as [->|]; [done|]. by apply Z.log2_spec; lia.
Qed.

Lemma itoa_inj a b : 0 <= a -> 0 <= b -> itoa a = itoa b -> a = b.
Proof. intros Ha Hb E. rewrite <- (proj1 (itoa_spec a Ha)), <- (proj1 (itoa_spec b Hb)). by rewrite E. Qed.

Lemma Atoi_itoa n : 0 <= n < 2 ^ 63 -> Atoi (itoa n) = Some n.
Proof.
  intros Hn. destruct (itoa_spec n ltac:(lia)) as (E & Hd & Hne). unfold Atoi. fold (dec_value (itoa n)). rewrite E.
  rewrite (proj2 (forallb_forall _ _)); [|intros c Hc; rewrite Forall_forall in Hd; by apply Hd, list_elem_of_In].
  rewrite bool_decide_false by done. cbn [negb andb]. by rewrite (proj2 (Z.ltb_lt _ _)) by lia.
Qed.

(** ** Slices *)

(** A byte slice: its visible bytes and the rest of its capacity. *)
Record gobuf : Type := mk_buf { vis : list Z; hid : list Z }.

Definition buf_len (b : gobuf) : Z := Z.of_nat (List.length (vis b)).

(** [b[i:j]]: the bounds are checked against the capacity. *)
Definition reslice {E} (b : gobuf) (i j : Z) : outcome E gobuf :=
  let all := vis b ++ hid b in
  if (0 <=? i) && (i <=? j) && (j <=? Z.of_nat (List.length all))
  then Ret (mk_buf (take (Z.to_nat (j - i)) (drop (Z.to_nat i) all)) (drop (Z.to_nat j) all))
  else Panic.

(** [b[i:]] *)
Definition from_index {E} (b : gobuf) (i : Z) : outcome E gobuf := reslice b i (buf_len b).

Lemma reslice_in {E} b i j : 0 <= i <= j -> j <= buf_len b ->
  reslice (E := E) b i j = Ret (mk_buf (take (Z.to_nat (j - i)) (drop (Z.to_nat i) (vis b))) (drop (Z.to_nat j) (vis b) ++ hid b)).
Proof.
  intros Hij Hj. unfold reslice, buf_len in *. rewrite length_app.
  rewrite (proj2 (andb_true_iff _ _)) by (rewrite andb_true_iff, !Z.leb_le; lia).
  rewrite !drop_app_le by lia. by rewrite take_app_le by (rewrite length_drop; lia).
Qed.

Lemma from_index_in {E} b i : 0 <= i <= buf_len b -> from_index (E := E) b i = Ret (mk_buf (drop (Z.to_nat i) (vis b)) (hid b)).
Proof.
  intros Hi. unfold from_index. rewrite reslice_in by lia. unfold buf_len in *.
  rewrite take_ge by (rewrite length_drop; lia). by rewrite (drop_ge _ (Z.to_nat (Z.of_nat _))) by lia.
Qed.

(** ** Comparison *)

(** [strings.Compare]: [Lt], [Eq] and [Gt] for -1, 0 and 1. *)
Fixpoint str_compare (a b : gostr) : comparison :=
  match a, b with
  | [], [] => Eq
  | [], _ :: _ => Lt
  | _ :: _, [] => Gt
  | x :: a', y :: b' => match x ?= y with Eq => str_compare a' b' | c => c end
  end.

Lemma str_compare_eq a : forall b, str_compare a b = Eq <-> a = b.
Proof.
  induction a as [|x a IH]; intros [|y b]; cbn; try done.
  destruct (Z.compare_spec x y) as [->| |]; [rewrite IH; naive_solver| |]; split; intros H'; try done; injection H'; lia.
Qed.

Lemma str_compare_antisym a : forall b, str_compare b a = CompOpp (str_compare a b).
Proof.
  induction a as [|x a IH]; intros [|y b]; cbn; try done. rewrite (Z.compare_antisym x y).
  by destruct (x ?= y); cbn.
Qed.

Lemma str_compare_trans a : forall b c, str_compare a b = Lt -> str_compare b c = Lt -> str_compare a c = Lt.
Proof.
  induction a as [|x a IH]; intros [|y b] [|z c]; cbn; try done.
  destruct (Z.compare_spec x y) as [->|Hxy|]; [|intros _|done].
  - destruct (y ?= z); [apply IH|done|done].
  - destruct (Z.compare_spec y z) as [->|Hyz|]; [|intros _|done];
      (destruct (Z.compare_spec x z); [lia|done|lia]) || by rewrite (proj2 (Z.compare_lt_iff _ _)) by done.
Qed.

(** ** Trimming, suffixes and splitting at a separator *)

Definition has_suffix (p s : gostr) : bool := has_prefix (rev p) (rev s).
Definition TrimSuffix (p s : gostr) : gostr := if has_suffix p s then take (List.length s - List.length p) s else s.

(** The white space of Unicode in UTF-8. *)
Definition white_space : list gostr :=
  [[9]; [10]; [11]; [12]; [13]; [32]; [194; 133]; [194; 160]; [225; 154; 128]; [226; 128; 168]; [226; 128; 169];
   [226; 128; 175]; [226; 129; 159]; [227; 128; 128]]
  ++ ((fun b => [226; 128; b]) <$> seqZ 128 11).

Fixpoint trim_left (fuel : nat) (spaces : list gostr) (s : gostr) : gostr :=
  match fuel with
  | O => s
  | S fuel' => match List.find (fun w => has_prefix w s) spaces with
               | Some w => trim_left fuel' spaces (drop (List.length w) s)
               | None => s
               end
  end.

Definition TrimSpace (s : gostr) : gostr :=
  let s := trim_left (List.length s) white_space s in
  rev (trim_left (List.length s) ((fun w => rev w) <$> white_space) (rev s)).

(** [strings.Split] at a separator that is not empty, from the left and
    without overlaps; [skip] bytes of a separator are still to be passed. *)
Fixpoint split_str (sep : gostr) (skip : nat) (s : gostr) : list gostr :=
  match s with
  | [] => [[]]
  | x :: s' =>
      match skip with
      | S skip' => split_str sep skip' s'
      | O => if has_prefix sep s then [] :: split_str sep (pred (List.length sep)) s'
             else match split_str sep 0 s' with
                  | part :: parts => (x :: part) :: parts
                  | [] => [[x]]
                  end
      end
  end.

(** ** Parsing an integer with a prefix for its base *)

(** The digits of [big.Int.SetString] with base 0: [sep] says that the last
    character was a separator, [digit] that a digit or a prefix came before. *)
Definition digit_of (c : Z) : Z :=
  if is_digit c then c - 48
  else if (97 <=? c) && (c <=? 122) then c - 97 + 10
  else if (65 <=? c) && (c <=? 90) then c - 65 + 10
  else 256.

Fixpoint scan_digits (base : Z) (s : gostr) (z : Z) (count : nat) (digit sep : bool) : option (Z * nat) :=
  match s with
  | [] => if sep then None else Some (z, count)
  | c :: s' =>
      if c =? 95 then if digit then scan_digits base s' z count false true else None
      else if digit_of c <? base then scan_digits base s' (z * base + digit_of c) (S count) true false
      else None
  end.

Definition scan_nat (s : gostr) : option Z :=
  let '(base, s, octal, digit) :=
    match s with
    | 48 :: c :: s' =>
        if (c =? 98) || (c =? 66) then (2, s', false, true)
        else if (c =? 111) || (c =? 79) then (8, s', false, true)
        else if (c =? 120) || (c =? 88) then (16, s', false, true)
        else (8, c :: s', true, true)
    | _ => (10, s, false, false)
    end in
  match scan_digits base s 0 0 digit false with
  | Some (z, O) => if octal : bool then Some 0 else None
  | Some (z, _) => Some z
  | None => None
  end.

Definition big_SetString0 (s : gostr) : option Z :=
  match s with
  | 45 :: s' => Z.opp <$> scan_nat s'
  | 43 :: s' => scan_nat s'
  | _ => scan_nat s
  end.

(** ** Binary search *)

(** The loop of [sort.Search]; the interval shrinks in every round, so its
    length is enough fuel. *)
Fixpoint search_loop (fuel : nat) (f : nat -> bool) (i j : nat) : nat :=
  match fuel with
  | O => i
  | S fuel' =>
      if (i <? j)%nat then
        let h := ((i + j) / 2)%nat in
        if f h then search_loop fuel' f i h else search_loop fuel' f (S h) j
      else i
  end.
Definition sort_Search (n : nat) (f : nat -> bool) : nat := search_loop n f 0 n.

Lemma search_loop_spec f fuel : forall i j, (i <= j)%nat -> (j - i <= fuel)%nat ->
  (forall a b, (a <= b)%nat -> (b < j)%nat -> f a = true -> f b = true) ->
  let r := search_loop fuel f i j in
  (i <= r <= j)%nat /\ (forall k, (i <= k < r)%nat -> f k = false) /\ (forall k, (r <= k < j)%nat -> f k = true).
Proof.
  induction fuel as [|fuel IH]; intros i j Hij Hf Hmono; cbn [search_loop].
  - repeat split; intros; lia.
  - destruct (Nat.ltb_spec i j) as [Hlt|Hge]; [|repeat split; intros; lia].
    pose proof (Nat.Div0.div_le_mono (i + i) (i + j) 2 ltac:(lia)). pose proof (Nat.Div0.div_lt_upper_bound (i + j) 2 j ltac:(lia)).
    assert (Hi : ((i + i) / 2)%nat = i) by (rewrite <- (Nat.div_mul i 2) at 3 by lia; f_equal; lia).
    set (h := ((i + j) / 2)%nat) in *. destruct (f h) eqn:E.
    + destruct (IH i h ltac:(lia) ltac:(lia)) as (Hr & Hlo & Hhi); [intros a b Hab Hb; apply Hmono; lia|].
      split; [lia|]. split; [done|]. intros k Hk. destruct (decide (k < h)%nat); [apply Hhi; lia|]. apply (Hmono h); [lia|lia|done].
    + destruct (IH (S h) j ltac:(lia) ltac:(lia)) as (Hr & Hlo & Hhi); [intros a b Hab Hb; apply Hmono; lia|].
      split; [lia|]. split; [|done]. intros k Hk. destruct (decide (k <= h)%nat); [|apply Hlo; lia].
      destruct (f k) eqn:Ek; [|done]. rewrite <- E. symmetry. apply (Hmono k); [lia|lia|done].
Qed.

(** Searching a list whose elements satisfy a test from some position on. *)
Lemma sort_Search_split {A} (l : list A) (p : A -> bool) f :
  (forall k, f k = match l !! k with Some x => p x | None => true end) ->
  (forall i j x y, (i <= j)%nat -> l !! i = Some x -> l !! j = Some y -> p x = true -> p y = true) ->
  let n := sort_Search (List.length l) f in
  (n <= List.length l)%nat /\ Forall (fun x => p x = false) (take n l) /\ Forall (fun x => p x = true) (drop n l).
Proof.
  intros Hf Hmono n. destruct (search_loop_spec f (List.length l) 0 (List.length l)) as (Hr & Hlo & Hhi); [lia|lia| |].
  { intros a b Hab Hb. rewrite !Hf. destruct (lookup_lt_is_Some_2 l b Hb) as [y Hy]. destruct (lookup_lt_is_Some_2 l a ltac:(lia)) as [x Hx].
    rewrite Hx, Hy. by apply (Hmono a b). }
  split; [apply Hr|]. split; apply Forall_lookup; intros k x Hx.
  - apply lookup_take_Some in Hx as [Hx Hk]. specialize (Hlo k). rewrite Hf, Hx in Hlo. apply Hlo. split; [lia|apply Hk].
  - rewrite lookup_drop in Hx. specialize (Hhi (n + k)%nat). rewrite Hf, Hx in Hhi. apply Hhi. split; [unfold n, sort_Search; lia|]. by apply lookup_lt_Some in Hx.
Qed.

(** ** Lemmas on strings *)

Lemma split_at_plain c s : c ∉ s -> split_at c s = [s].
Proof.
  induction s as [|x s IH]; intros H; [done|]. cbn [split_at]. apply not_elem_of_cons in H as [Hx H].
  rewrite (proj2 (Z.eqb_neq _ _)) by congruence. by rewrite IH.
Qed.

Lemma split_at_app c p s : c ∉ p -> split_at c (p ++ c :: s) = p :: split_at c s.
Proof.
  induction p as [|x p IH]; intros H; cbn [app split_at]; [by rewrite Z.eqb_refl|].
  apply not_elem_of_cons in H as [Hx H]. rewrite (proj2 (Z.eqb_neq _ _)) by congruence. by rewrite IH.
Qed.

Lemma trim_left_id fuel spaces x s :
  Forall (fun w : gostr => match w with b :: _ => b <> x | [] => False end) spaces ->
  trim_left fuel spaces (x :: s) = x :: s.
Proof.
  intros H. destruct fuel as [|fuel]; [done|]. cbn [trim_left].
  assert (E : List.find (fun w => has_prefix w (x :: s)) spaces = None); [|by rewrite E].
  induction H as [|w spaces Hw H IH]; [done|]. cbn [List.find]. destruct w as [|b w]; [done|].
  unfold has_prefix at 1. cbn [List.length take]. rewrite bool_decide_false; [done|]. by intros [= ? _].
Qed.

(** No character of white space begins or ends as a visible ASCII character
    does. *)
Lemma not_white_space x spaces : 33 <= x < 127 ->
  forallb (fun w : gostr => match w with b :: _ => (b <? 33) || (127 <=? b) | [] => false end) spaces = true ->
  Forall (fun w : gostr => match w with b :: _ => b <> x | [] => False end) spaces.
Proof.
  intros Hx H. apply Forall_forall. intros w Hw. rewrite forallb_forall in H. specialize (H w (proj1 (list_elem_of_In _ _) Hw)).
  destruct w as [|b w]; [done|]. apply orb_true_iff in H as [?%Z.ltb_lt|?%Z.leb_le]; lia.
Qed.

Lemma TrimSpace_id s x r y l : s = x :: r -> rev s = y :: l -> 33 <= x < 127 -> 33 <= y < 127 -> TrimSpace s = s.
Proof.
  intros Hs Hr Hx Hy. unfold TrimSpace.
  assert (E : trim_left (List.length s) white_space s = s).
  { rewrite Hs. apply trim_left_id. by apply not_white_space. }
  rewrite E, Hr, trim_left_id; [by rewrite <- Hr, rev_involutive|]. by apply not_white_space.
Qed.

Lemma dec_digits_head fuel : forall z, 0 < z < 2 ^ Z.of_nat fuel ->
  exists c r, dec_digits fuel z = c :: r /\ 49 <= c < 58.
Proof.
  induction fuel as [|fuel IH]; intros z Hz; [cbn in Hz; lia|]. cbn [dec_digits].
  rewrite Nat2Z.inj_succ, Z.pow_succ_r in Hz by lia. pose proof (Z.mod_pos_bound z 10 ltac:(lia)). pose proof (Z.div_mod z 10 ltac:(lia)).
  destruct (Z.ltb_spec z 10) as [Hlt|Hge].
  - exists (48 + z mod 10), []. split; [done|]. rewrite Z.mod_small by lia. lia.
  - destruct (IH (z / 10)) as (c & r & E & Hc); [lia|]. exists c, (r ++ [48 + z mod 10]). by rewrite E.
Qed.

Lemma itoa_head z : 0 < z -> exists c r, itoa z = c :: r /\ 49 <= c < 58.
Proof.
  intros Hz. apply dec_digits_head. split; [done|]. rewrite Nat2Z.inj_succ, Z2Nat.id by apply Z.log2_nonneg. by apply Z.log2_spec.
Qed.

Lemma scan_digits_dec s : forall z count digit, Forall (fun c => is_digit c = true) s ->
  scan_digits 10 s z count digit false = Some (foldl (fun acc c => acc * 10 + (c - 48)) z s, (List.length s + count)%nat).
Proof.
  induction s as [|c s IH]; intros z count digit H; [done|]. inversion H as [|? ? Hc Hs]; subst. cbn [scan_digits].
  pose proof Hc as Hr. unfold is_digit in Hr. apply andb_true_iff in Hr as [?%Z.leb_le ?%Z.leb_le].
  rewrite (proj2 (Z.eqb_neq _ _)) by lia. unfold digit_of. rewrite Hc, (proj2 (Z.ltb_lt _ _)) by lia.
  rewrite IH by done. cbn [foldl List.length]. do 2 f_equal. lia.
Qed.

(** The decimal form of a number is parsed back with base 0. *)
Lemma SetString0_itoa z : 0 <= z -> big_SetString0 (itoa z) = Some z.
Proof.
  intros Hz. destruct (itoa_spec z Hz) as (Hv & Hd & Hne). destruct (decide (z = 0)) as [->|Hnz]; [done|].
  destruct (itoa_head z ltac:(lia)) as (c & r & E & Hc).
  assert (Es : scan_nat (itoa z) = Some z).
  { unfold scan_nat. rewrite E in *. assert (Em : match c :: r with
        | 48 :: c' :: s' =>
            if (c' =? 98) || (c' =? 66) then (2, s', false, true)
            else if (c' =? 111) || (c' =? 79) then (8, s', false, true)
            else if (c' =? 120) || (c' =? 88) then (16, s', false, true)
            else (8, c' :: s', true, true)
        | _ => (10, c :: r, false, false)
        end = (10, c :: r, false, false)).
    { assert (Hcs : c = 49 \/ c = 50 \/ c = 51 \/ c = 52 \/ c = 53 \/ c = 54 \/ c = 55 \/ c = 56 \/ c = 57) by lia.
      by destruct Hcs as [->|[->|[->|[->|[->|[->|[->|[->| ->]]]]]]]]. }
    rewrite Em, scan_digits_dec by done. cbn [List.length Nat.add]. unfold dec_value in Hv. by rewrite Hv. }
  unfold big_SetString0. rewrite E in *.
  assert (Hcs : c = 49 \/ c = 50 \/ c = 51 \/ c = 52 \/ c = 53 \/ c = 54 \/ c = 55 \/ c = 56 \/ c = 57) by lia.
  by destruct Hcs as [->|[->|[->|[->|[->|[->|[->|[->| ->]]]]]]]].
Qed.
