(* ===== verification/AbiType.v ===== *)
(** * Types of the contract ABI

    Models [accounts/abi/type.go], [error.go], the type functions of
    [reflect.go] and [ToCamelCase] of [argument.go]: the ABI types, their
    parser [NewType], the Go types and values they stand for, and the check of a
    Go value against an ABI type.  Go strings are byte lists.  Reflection is
    modelled by a datatype of Go types and one of Go values; what depends on the
    platform (which types fit in the address space, which names are Go
    identifiers) is a class parameter.  The parser is verified in
    [AbiParse.v], the codec over these types in [AbiSpec.v] and [AbiRound.v]. *)
From stdpp Require Import list sorting.
From Stdlib Require Import ZArith Lia String Ascii.
From S2P Require Import Prelude GoString.

Local Open Scope Z_scope.

(** ** Names *)

(** [strings.ToUpper] of the first byte of a string: a byte that is not ASCII
    alone is invalid UTF-8 and becomes the replacement character. *)
Definition upper_byte (c : Z) : gostr :=
  if (97 <=? c) && (c <=? 122) then [c - 32] else if c <? 128 then [c] else [239; 191; 189].

Definition upper_first (s : gostr) : gostr :=
  match s with [] => [] | c :: s' => upper_byte c ++ s' end.

Definition ToCamelCase (input : gostr) : gostr := List.concat (upper_first <$> split_at 95 input).

(** ** ABI types *)

(** A component of a tuple has its raw name, the name of its Go field and its
    type.  The string of a type is kept beside it, see [NewType]. *)
Inductive Ty : Type :=
| IntTy (Size : Z)
| UintTy (Size : Z)
| BoolTy
| StringTy
| SliceTy (Elem : Ty)
| ArrayTy (Size : Z) (Elem : Ty)
| TupleTy (TupleRawName : gostr) (TupleElems : list (gostr * gostr * Ty))
| AddressTy
| FixedBytesTy (Size : Z)
| BytesTy
| HashTy
| FixedPointTy
| FunctionTy.

Definition comp_raw (c : gostr * gostr * Ty) : gostr := fst (fst c).
Definition comp_field (c : gostr * gostr * Ty) : gostr := snd (fst c).
Definition comp_type (c : gostr * gostr * Ty) : Ty := snd c.

(** The field [Size] as [NewType] sets it. *)
Definition ty_Size (t : Ty) : Z :=
  match t with
  | IntTy n | UintTy n | FixedBytesTy n | ArrayTy n _ => n
  | AddressTy => 20
  | FunctionTy => 24
  | _ => 0
  end.

Definition requiresLengthPrefix (t : Ty) : bool :=
  match t with StringTy | BytesTy | SliceTy _ => true | _ => false end.

Fixpoint isDynamicType (t : Ty) : bool :=
  match t with
  | TupleTy _ comps => existsb (fun c => isDynamicType (snd c)) comps
  | StringTy | BytesTy | SliceTy _ => true
  | ArrayTy _ e => isDynamicType e
  | _ => false
  end.

(** [int] is 64 bits wide. *)
Fixpoint getTypeSize (t : Ty) : Z :=
  match t with
  | ArrayTy n e =>
      if isDynamicType e then 32
      else match e with
           | ArrayTy _ _ | TupleTy _ _ => i64 (n * getTypeSize e)
           | _ => i64 (n * 32)
           end
  | TupleTy _ comps =>
      if isDynamicType t then 32 else foldl (fun total s => i64 (total + s)) 0 (map (fun c => getTypeSize (snd c)) comps)
  | _ => 32
  end.

(** ** Go types and values *)

(** The width of [int] and [uint] is written 0. *)
Inductive gotype : Type :=
| GUint (w : Z)
| GInt (w : Z)
| GBool
| GString
| GBigInt
| GPtr (elem : gotype)
| GSlice (elem : gotype)
| GArray (n : Z) (elem : gotype)
| GAddress
| GHash
| GStruct (fields : list (gostr * gotype))
| GOther.

Inductive gokind : Type :=
| KUint (w : Z) | KInt (w : Z) | KBool | KString | KPtr | KSlice | KArray | KStruct | KOther | KInvalid.

#[export] Instance gokind_eq_dec : EqDecision gokind.
Proof. solve_decision. Defined.

Definition kind_of (g : gotype) : gokind :=
  match g with
  | GUint w => KUint w
  | GInt w => KInt w
  | GBool => KBool
  | GString => KString
  | GPtr _ => KPtr
  | GSlice _ => KSlice
  | GArray _ _ | GAddress | GHash => KArray
  | GStruct _ | GBigInt => KStruct
  | GOther => KOther
  end.

(** Values: a slice or an array knows the type of its elements, a field of a
    struct has a name and maybe an [abi] tag, [VNil] is a nil pointer,
    [VOther] a value of any other kind, and [VInvalid] the nil interface.  The
    structs have no embedded fields. *)
Inductive value : Type :=
| VUint (w n : Z)
| VInt (w n : Z)
| VBool (b : bool)
| VString (s : gostr)
| VBigInt (n : Z)
| VPtr (v : value)
| VNil (elem : gotype)
| VSlice (elem : gotype) (vs : list value)
| VArray (elem : gotype) (vs : list value)
| VAddress (bs : list Z)
| VHash (bs : list Z)
| VStruct (fields : list (gostr * option gostr * value))
| VOther
| VInvalid.

Fixpoint type_of (v : value) : gotype :=
  match v with
  | VUint w _ => GUint w
  | VInt w _ => GInt w
  | VBool _ => GBool
  | VString _ => GString
  | VBigInt _ => GBigInt
  | VPtr v => GPtr (type_of v)
  | VNil g => GPtr g
  | VSlice g _ => GSlice g
  | VArray g vs => GArray (Z.of_nat (List.length vs)) g
  | VAddress _ => GAddress
  | VHash _ => GHash
  | VStruct fields => GStruct (map (fun f => (fst (fst f), type_of (snd f))) fields)
  | VOther | VInvalid => GOther
  end.

Definition value_kind (v : value) : gokind :=
  match v with VInvalid => KInvalid | _ => kind_of (type_of v) end.

Definition bytes_value (bs : list Z) : list value := VUint 8 <$> bs.

(** The element type and the elements of a slice or an array. *)
Definition elements (v : value) : option (gotype * list value) :=
  match v with
  | VSlice g vs | VArray g vs => Some (g, vs)
  | VAddress bs | VHash bs => Some (GUint 8, bytes_value bs)
  | _ => None
  end.

(** Identity of types. *)
Fixpoint gotype_eqb (a b : gotype) : bool :=
  match a, b with
  | GUint w, GUint w' | GInt w, GInt w' => w =? w'
  | GBool, GBool | GString, GString | GBigInt, GBigInt | GAddress, GAddress | GHash, GHash | GOther, GOther => true
  | GPtr a, GPtr b | GSlice a, GSlice b => gotype_eqb a b
  | GArray n a, GArray n' b => (n =? n') && gotype_eqb a b
  | GStruct fs, GStruct fs' =>
      (fix go fs fs' :=
         match fs, fs' with
         | [], [] => true
         | (x, a) :: fs, (x', b) :: fs' => bool_decide (x = x') && gotype_eqb a b && go fs fs'
         | _, _ => false
         end) fs fs'
  | _, _ => false
  end.

(** Errors of the package. *)
Inductive abi_error : Type :=
| ErrArgType
| ErrArrayFormat
| ErrSizeParse
| ErrInvalidType
| ErrUnsupportedArg
| ErrAnonymousField
| ErrTypeMismatch
| ErrUnknownType
| ErrBytesKind
| ErrEmptyTag
| ErrTagMapped
| ErrTagUnknown
| ErrUnderscored
| ErrMultipleFields
| ErrMultipleOutputs
| ErrFieldNotFound
| ErrArgCount
| errBadBool
| ErrFunctionType
| ErrFixedBytesType
| ErrNegativeSize
| ErrSliceBoundary
| ErrNotSequence
| ErrLengthInsufficient
| ErrOffsetTooLarge
| ErrEmptyData
| ErrNilMap
| ErrMethodNotFound
| ErrOutputFormat
| ErrNoSuchName
| ErrSingleFallback
| ErrSingleReceive
| ErrReceivePayable
| ErrFieldType
| ErrDataTooShort
| ErrNoMethodId
| ErrNoEventId
| ErrRevertData
| ErrTopicCount
| ErrTopicNotIndexed
| ErrTopicTuple
| ErrTopicFunction
| ErrTopicType.

Abbreviation res := (outcome abi_error).

(** What reflection depends on: whether a type fits in the address space
    ([reflect.ArrayOf] panics otherwise) and whether a string is an exported Go
    field name ([reflect.StructOf] panics otherwise). *)
Class GoRuntime : Type := {
  addressable : gotype -> bool;
  field_name : gostr -> bool
}.

Section Types.
Context `{!GoRuntime}.

Definition reflect_ArrayOf (n : Z) (g : gotype) : res gotype :=
  if (0 <=? n) && addressable (GArray n g) then Ret (GArray n g) else Panic.

(** [reflect.StructOf] also refuses two fields of one name. *)
Definition reflect_StructOf (fields : list (gostr * gotype)) : res gotype :=
  if forallb field_name (fst <$> fields) && bool_decide (NoDup (fst <$> fields)) then Ret (GStruct fields) else Panic.

Definition reflectIntType (unsigned : bool) (size : Z) : gotype :=
  let big := GPtr GBigInt in
  if unsigned then
    if size =? 8 then GUint 8 else if size =? 16 then GUint 16
    else if size =? 32 then GUint 32 else if size =? 64 then GUint 64 else big
  else
    if size =? 8 then GInt 8 else if size =? 16 then GInt 16
    else if size =? 32 then GInt 32 else if size =? 64 then GInt 64 else big.

(** The Go type of an ABI type.  [TupleType] is the struct of the components'
    fields and types. *)
Fixpoint GetType (t : Ty) : res gotype :=
  match t with
  | IntTy n => Ret (reflectIntType false n)
  | UintTy n => Ret (reflectIntType true n)
  | BoolTy => Ret GBool
  | StringTy => Ret GString
  | SliceTy e => g ← GetType e; Ret (GSlice g)
  | ArrayTy n e => g ← GetType e; reflect_ArrayOf n g
  | TupleTy _ comps =>
      fields ← (fix go comps :=
                  match comps with
                  | [] => Ret []
                  | c :: comps' => g ← GetType (snd c); fields ← go comps'; Ret ((snd (fst c), g) :: fields)
                  end) comps;
      reflect_StructOf fields
  | AddressTy => Ret GAddress
  | FixedBytesTy n => reflect_ArrayOf n (GUint 8)
  | BytesTy => Ret (GSlice (GUint 8))
  | HashTy | FixedPointTy => reflect_ArrayOf 32 (GUint 8)
  | FunctionTy => reflect_ArrayOf 24 (GUint 8)
  end.

(** ** The parser of types *)

(** [for idx := 0; ok; idx++]: the next free name made of a raw name and a
    number; [taken] is the lookup in the map of the names in use. *)
Fixpoint overload_loop (fuel : nat) (taken : gostr -> bool) (raw : gostr) (idx : Z) (name : gostr) : gostr :=
  match fuel with
  | O => name
  | S fuel' => if taken name then overload_loop fuel' taken raw (idx + 1) (raw ++ itoa idx) else name
  end.

Definition overloadedArgName (rawName : gostr) (names : list gostr) : res gostr :=
  let fieldName := ToCamelCase rawName in
  if bool_decide (fieldName = []) then Err ErrAnonymousField
  else Ret (overload_loop (S (List.length names)) (fun n => bool_decide (n ∈ names)) fieldName 0 fieldName).

Inductive ArgumentMarshaling : Type :=
  mk_am (am_Name am_Type am_InternalType : gostr) (am_Components : list ArgumentMarshaling) (am_Indexed : bool).

Definition am_Name (a : ArgumentMarshaling) : gostr := let '(mk_am n _ _ _ _) := a in n.
Definition am_Indexed (a : ArgumentMarshaling) : bool := let '(mk_am _ _ _ _ i) := a in i.

(** The parsed type: [stringKind] and the rest. *)
Definition parsed : Type := gostr * Ty.

(** The loop over the components of a tuple: their fields with types, the
    components, and the canonical expression. *)
Fixpoint tuple_loop (comps : list (gostr * res parsed)) (used : list gostr) (first : bool)
    : res (list (gostr * gotype) * list (gostr * gostr * Ty) * gostr) :=
  match comps with
  | [] => Ret ([], [], [])
  | (name, sub) :: comps' =>
      '(kind, cType) ← sub;
      fieldName ← overloadedArgName name used;
      g ← GetType cType;
      '(fields, elems, expression) ← tuple_loop comps' (fieldName :: used) false;
      Ret ((fieldName, g) :: fields, (name, fieldName, cType) :: elems,
           (if first then [] else lit ",") ++ kind ++ expression)
  end.

Definition new_tuple (t internalType : gostr) (comps : list (gostr * res parsed)) : res parsed :=
  '(fields, elems, expression) ← tuple_loop comps [] true;
  _ ← reflect_StructOf fields;
  let raw := if has_prefix (lit "struct ") internalType
             then drop_char 46 (drop (List.length (lit "struct ")) internalType) else [] in
  Ret (lit "(" ++ expression ++ lit ")", TupleTy raw elems).

(** The first match of [typeRegex]: the whole match, the letters, the size with
    its fraction, the digits of the size. *)
Fixpoint typeRegex (t : gostr) : option (gostr * gostr * gostr * gostr) :=
  match t with
  | [] => None
  | c :: t' =>
      if is_letter c then
        let '(letters, rest) := span is_letter t in
        let '(digits, rest) := span is_digit rest in
        let fraction := match digits, rest with
                        | _ :: _, x :: rest' => let ds := fst (span is_digit rest') in
                                                if (x =? 120) && negb (bool_decide (ds = [])) then x :: ds else []
                        | _, _ => []
                        end in
        Some (letters ++ digits ++ fraction, letters, digits ++ fraction, digits)
      else typeRegex t'
  end.

Definition new_basic (t internalType : gostr) (comps : list (gostr * res parsed)) : res parsed :=
  match typeRegex t with
  | None => Err ErrInvalidType
  | Some (whole, varType, size, digits) =>
      varSize ← (if bool_decide (digits = []) then
                   if bool_decide (whole = lit "uint") || bool_decide (whole = lit "int") then Err ErrUnsupportedArg
                   else Ret 0
                 else match Atoi size with Some n => Ret n | None => Err ErrSizeParse end);
      if bool_decide (varType = lit "int") then Ret (t, IntTy varSize)
      else if bool_decide (varType = lit "uint") then Ret (t, UintTy varSize)
      else if bool_decide (varType = lit "bool") then Ret (t, BoolTy)
      else if bool_decide (varType = lit "address") then Ret (t, AddressTy)
      else if bool_decide (varType = lit "string") then Ret (t, StringTy)
      else if bool_decide (varType = lit "bytes") then
        Ret (t, if varSize =? 0 then BytesTy else FixedBytesTy varSize)
      else if bool_decide (varType = lit "tuple") then new_tuple t internalType comps
      else if bool_decide (varType = lit "function") then Ret (t, FunctionTy)
      else Err ErrUnsupportedArg
  end.

(** The recursion on the brackets of the string; [comps] are the components
    with their parsed types, used when the innermost type is a tuple. *)
Fixpoint new_type (fuel : nat) (t internalType : gostr) (comps : list (gostr * res parsed)) : res parsed :=
  if negb (Nat.eqb (count_char 91 t) (count_char 93 t)) then Err ErrArgType
  else
    match last_index 91 t, fuel with
    | Some i, S fuel' =>
        let subInternal := match last_index 91 internalType with Some j => take j internalType | None => internalType end in
        '(kind, embedded) ← new_type fuel' (take i t) subInternal comps;
        let sliced := drop i t in
        match digit_runs false sliced with
        | [] => Ret (kind ++ sliced, SliceTy embedded)
        | [digits] => match Atoi digits with
                      | Some n => Ret (kind ++ sliced, ArrayTy n embedded)
                      | None => Err ErrSizeParse
                      end
        | _ => Err ErrArrayFormat
        end
    | _, _ => new_basic t internalType comps
    end.

Fixpoint NewType_of (a : ArgumentMarshaling) : res parsed :=
  match a with
  | mk_am _ t internalType comps _ =>
      new_type (List.length t) t internalType (map (fun c => (am_Name c, NewType_of c)) comps)
  end.

Definition NewType (t internalType : gostr) (components : list ArgumentMarshaling) : res parsed :=
  NewType_of (mk_am [] t internalType components false).

(** ** Checking a value against a type *)

(** [reflect.Value.Type] panics on the nil interface. *)
Definition value_Type (v : value) : res gotype :=
  match v with VInvalid => Panic | _ => Ret (type_of v) end.

(** [typeErr] with its arguments evaluated. *)
Definition typeErr {A} (expected : res gotype) (got : res gotype) : res A :=
  _ ← expected; _ ← got; Err ErrTypeMismatch.

Definition elem_kind_check (e : Ty) (ge : gotype) : res () :=
  g ← GetType e;
  if decide (kind_of ge = kind_of g) then Ret tt else typeErr (GetType e) (Ret ge).

Fixpoint sliceTypeCheck (t : Ty) (val : value) : res () :=
  match t with
  | SliceTy e | ArrayTy _ e =>
      match elements val with
      | None => typeErr (GetType t) (value_Type val)
      | Some (ge, vs) =>
          if match t with ArrayTy n _ => negb (Z.of_nat (List.length vs) =? n) | _ => false end
          then typeErr (GetType e) (Ret ge)
          else
            match e, vs with
            | SliceTy _, v :: _ | ArrayTy _ _, v :: _ => sliceTypeCheck e v
            | _, _ => elem_kind_check e ge
            end
      end
  | _ => Panic
  end.

Definition typeCheck (t : Ty) (value : value) : res () :=
  match t with
  | SliceTy _ | ArrayTy _ _ => sliceTypeCheck t value
  | _ =>
      g ← GetType t;
      if decide (kind_of g = value_kind value) then
        match t, elements value with
        | FixedBytesTy n, Some (_, vs) =>
            if n =? Z.of_nat (List.length vs) then Ret tt else typeErr (GetType t) (value_Type value)
        | _, _ => Ret tt
        end
      else Err ErrTypeMismatch
  end.

End Types.

(** ** Induction on types *)

Fixpoint Ty_rect_Forall (P : Ty -> Prop)
    (Hint : forall n, P (IntTy n)) (Huint : forall n, P (UintTy n)) (Hbool : P BoolTy) (Hstring : P StringTy)
    (Hslice : forall e, P e -> P (SliceTy e)) (Harray : forall n e, P e -> P (ArrayTy n e))
    (Htuple : forall raw comps, Forall (fun c => P (snd c)) comps -> P (TupleTy raw comps))
    (Haddress : P AddressTy) (Hfixed : forall n, P (FixedBytesTy n)) (Hbytes : P BytesTy)
    (Hhash : P HashTy) (Hpoint : P FixedPointTy) (Hfunction : P FunctionTy) (t : Ty) : P t :=
  let rec := Ty_rect_Forall P Hint Huint Hbool Hstring Hslice Harray Htuple Haddress Hfixed Hbytes Hhash Hpoint Hfunction in
  match t with
  | IntTy n => Hint n
  | UintTy n => Huint n
  | BoolTy => Hbool
  | StringTy => Hstring
  | SliceTy e => Hslice e (rec e)
  | ArrayTy n e => Harray n e (rec e)
  | TupleTy raw comps =>
      Htuple raw comps
        ((fix go comps : Forall (fun c => P (snd c)) comps :=
            match comps with
            | [] => Forall_nil_2 _
            | c :: comps' => Forall_cons_2 _ _ _ (rec (snd c)) (go comps')
            end) comps)
  | AddressTy => Haddress
  | FixedBytesTy n => Hfixed n
  | BytesTy => Hbytes
  | HashTy => Hhash
  | FixedPointTy => Hpoint
  | FunctionTy => Hfunction
  end.

Fixpoint gotype_eqb_refl (g : gotype) : gotype_eqb g g = true.
Proof.
  destruct g as [| | | | | | |n g| | |fs|]; cbn [gotype_eqb]; rewrite ?Z.eqb_refl; try apply gotype_eqb_refl; try reflexivity.
  induction fs as [|[x g] fs IH]; [reflexivity|].
  rewrite bool_decide_true by reflexivity. rewrite gotype_eqb_refl. exact IH.
Qed.
