(* ===== verification/AbiCodec.v ===== *)
(** * Packing and unpacking of contract arguments

    Models [accounts/abi/pack.go], [unpack.go], [argument.go], the method [pack]
    of [type.go] and [mapArgNamesToStructFields] of [reflect.go]: Go values to
    ABI data and back.  A byte slice that is read has its visible bytes and the
    ones behind them that its capacity reaches, since reslicing can go past the
    length.  The padding helpers and conversions of go-ethereum's [common]
    packages are class parameters with their documented behaviour as laws. *)
From stdpp Require Import gmap list sorting.
From Stdlib Require Import ZArith Lia String.
From S2P Require Import Prelude GoString AbiType.

Local Open Scope Z_scope.

(** ** Functions of other packages *)

Class EthBytes : Type := {
  U256Bytes : Z -> list Z;
  LeftPadBytes : list Z -> Z -> list Z;
  RightPadBytes : list Z -> Z -> list Z;
  PaddedBigBytes : Z -> Z -> list Z;
  BytesToAddress : list Z -> list Z;
  BytesToHash : list Z -> list Z;
  Keccak256 : list Z -> list Z
}.

(** [U256Bytes]: the number as a 256-bit word.  [LeftPadBytes] and
    [RightPadBytes]: zero-padded up to a length.  [PaddedBigBytes]: big-endian,
    at least so many bytes.  [BytesToAddress] and [BytesToHash]: cropped from
    the left, or padded.  [Keccak256] returns 32 bytes. *)
Class EthBytesLaws {eth : EthBytes} : Prop := {
  U256Bytes_word : forall n, U256Bytes n = be_bytes 32 (n mod 2 ^ 256);
  LeftPad_zeros : forall b l, LeftPadBytes b l = replicate (Z.to_nat l - List.length b) 0 ++ b;
  RightPad_zeros : forall b l, RightPadBytes b l = b ++ replicate (Z.to_nat l - List.length b) 0;
  PaddedBig_word : forall n, 0 <= n < 2 ^ 256 -> PaddedBigBytes n 32 = be_bytes 32 n;
  BytesToAddress_crop : forall b, BytesToAddress b = be_bytes 20 (be_int (drop (List.length b - 20) b));
  BytesToHash_crop : forall b, BytesToHash b = be_bytes 32 (be_int (drop (List.length b - 32) b));
  Keccak256_length : forall b, List.length (Keccak256 b) = 32%nat;
  Keccak256_bytes : forall b, Forall is_byte (Keccak256 b)
}.

(** ** Arguments of methods and events *)

Record Argument : Type := mk_arg {
  arg_Name : gostr;
  arg_Kind : gostr;
  arg_Type : Ty;
  arg_Indexed : bool
}.

Abbreviation Arguments_ := (list Argument).

Section Codec.
Context `{!GoRuntime, !EthBytes}.

(** ** Packing elements *)

(** [indirect] follows pointers, but not one to a [big.Int]; the type of what a
    nil pointer points to is not defined. *)
Fixpoint indirect (v : value) : res value :=
  match v with
  | VNil _ => Panic
  | VPtr (VBigInt _) => Ret v
  | VPtr v' => indirect v'
  | _ => Ret v
  end.

Definition packNum (v : value) : res (list Z) :=
  match v with
  | VUint _ n | VInt _ n | VPtr (VBigInt n) => Ret (U256Bytes n)
  | _ => Panic
  end.

(** [packNum(reflect.ValueOf(n))] of an [int]. *)
Definition pack_int (n : Z) : list Z := U256Bytes n.

Definition packBytesSlice (bytes : list Z) (l : Z) : list Z :=
  pack_int l ++ RightPadBytes bytes (Z.quot (l + 31) 32 * 32).

(** [mustArrayToByteSlice]: [reflect.Copy] panics when the elements are not
    bytes. *)
Definition byte_of (v : value) : res Z := match v with VUint 8 b => Ret b | _ => Panic end.

Fixpoint bytes_of (vs : list value) : res (list Z) :=
  match vs with
  | [] => Ret []
  | v :: vs' => b ← byte_of v; bs ← bytes_of vs'; Ret (b :: bs)
  end.

Definition is_bytes (g : gotype) : bool := match g with GUint 8 => true | _ => false end.

Definition mustArrayToByteSlice (v : value) : res (list Z) :=
  match elements v with
  | Some (g, vs) => if is_bytes g then bytes_of vs else Panic
  | None => Panic
  end.

Definition packElement (t : Ty) (v : value) : res (list Z) :=
  match t with
  | IntTy _ | UintTy _ => packNum v
  | StringTy => match v with
                | VString s => Ret (packBytesSlice s (Z.of_nat (List.length s)))
                | _ => Panic
                end
  | AddressTy => bs ← mustArrayToByteSlice v; Ret (LeftPadBytes bs 32)
  | BoolTy => match v with
              | VBool b => Ret (PaddedBigBytes (if b then 1 else 0) 32)
              | _ => Panic
              end
  | BytesTy => match v with
               | VSlice g vs =>
                   if is_bytes g then bs ← bytes_of vs; Ret (packBytesSlice bs (Z.of_nat (List.length bs)))
                   else Err ErrBytesKind
               | _ => Panic
               end
  | FixedBytesTy _ | FunctionTy => bs ← mustArrayToByteSlice v; Ret (RightPadBytes bs 32)
  | _ => Err ErrUnknownType
  end.

(** ** The fields of a struct *)

(** The fields of [big.Int] are not exported. *)
Definition struct_fields (v : value) : list (gostr * option gostr * value) :=
  match v with
  | VStruct fields => fields
  | VBigInt _ => [(lit "neg", None, VOther); (lit "abs", None, VOther)]
  | _ => []
  end.

Definition FieldByName (v : value) (name : gostr) : option value :=
  snd <$> List.find (fun f => bool_decide (fst (fst f) = name)) (struct_fields v).

Definition exported (name : gostr) : bool := bool_decide (take 1 name = upper_first (take 1 name)).

(** A Go map read without the second result gives the empty string. *)
Definition str_at (m : gmap gostr gostr) (k : gostr) : gostr := default [] (m !! k).
Definition unset_at (m : gmap gostr gostr) (k : gostr) : bool := bool_decide (str_at m k = []).

(** The names that match the tag of one field. *)
Fixpoint tag_args (argNames : list gostr) (tag field : gostr) (found : bool) (a2s s2a : gmap gostr gostr)
    : res (bool * gmap gostr gostr * gmap gostr gostr) :=
  match argNames with
  | [] => Ret (found, a2s, s2a)
  | arg :: rest =>
      if bool_decide (arg = tag) then
        if unset_at a2s arg then tag_args rest tag field true (<[arg := field]> a2s) (<[field := arg]> s2a)
        else Err ErrTagMapped
      else tag_args rest tag field found a2s s2a
  end.

Fixpoint first_round (argNames : list gostr) (fields : list (gostr * option gostr * value)) (a2s s2a : gmap gostr gostr)
    : res (gmap gostr gostr * gmap gostr gostr) :=
  match fields with
  | [] => Ret (a2s, s2a)
  | (field, tag, _) :: rest =>
      if negb (exported field) then first_round argNames rest a2s s2a
      else match tag with
           | None => first_round argNames rest a2s s2a
           | Some tagName =>
               if bool_decide (tagName = []) then Err ErrEmptyTag
               else
                 '(found, a2s, s2a) ← tag_args argNames tagName field false a2s s2a;
                 if found : bool then first_round argNames rest a2s s2a else Err ErrTagUnknown
           end
  end.

Fixpoint second_round (argNames : list gostr) (v : value) (a2s s2a : gmap gostr gostr) : res (gmap gostr gostr) :=
  match argNames with
  | [] => Ret a2s
  | argName :: rest =>
      let field := ToCamelCase argName in
      if bool_decide (field = []) then Err ErrUnderscored
      else if negb (unset_at a2s argName) then
        if negb (bool_decide (str_at a2s argName = field)) && unset_at s2a field && bool_decide (is_Some (FieldByName v field))
        then Err ErrMultipleFields
        else second_round rest v a2s s2a
      else if negb (unset_at s2a field) then Err ErrMultipleOutputs
      else if bool_decide (is_Some (FieldByName v field))
        then second_round rest v (<[argName := field]> a2s) (<[field := argName]> s2a)
      else second_round rest v a2s (<[field := argName]> s2a)
  end.

Definition mapArgNamesToStructFields (argNames : list gostr) (v : value) : res (gmap gostr gostr) :=
  '(a2s, s2a) ← first_round argNames (struct_fields v) ∅ ∅;
  second_round argNames v a2s s2a.

(** ** Packing *)

(** The loop over the elements of a slice or an array. *)
Fixpoint pack_elems (pack : value -> res (list Z)) (offsetReq : bool) (vs : list value) (offset : Z) (ret tail : list Z)
    : res (list Z) :=
  match vs with
  | [] => Ret (ret ++ tail)
  | v :: vs' =>
      val ← pack v;
      if negb offsetReq then pack_elems pack offsetReq vs' offset (ret ++ val) tail
      else pack_elems pack offsetReq vs' (i64 (offset + Z.of_nat (List.length val))) (ret ++ pack_int offset) (tail ++ val)
  end.

(** The loop over the components of a tuple: whether each is dynamic, and how
    its value is found and packed. *)
Fixpoint pack_heads (parts : list (bool * res (list Z))) (offset : Z) (ret tail : list Z) : res (list Z) :=
  match parts with
  | [] => Ret (ret ++ tail)
  | (dynamic, packed) :: parts' =>
      val ← packed;
      if dynamic : bool
      then pack_heads parts' (i64 (offset + Z.of_nat (List.length val))) (ret ++ pack_int offset) (tail ++ val)
      else pack_heads parts' offset (ret ++ val) tail
  end.

Definition sum_sizes (ts : list Ty) : Z := foldl (fun total s => i64 (total + s)) 0 (getTypeSize <$> ts).

Definition field_of (v : value) (fieldmap : gmap gostr gostr) (raw : gostr) : res value :=
  match FieldByName v (str_at fieldmap raw) with Some f => Ret f | None => Err ErrFieldNotFound end.

Fixpoint pack (t : Ty) (v : value) : res (list Z) :=
  v ← indirect v;
  _ ← typeCheck t v;
  match t with
  | SliceTy e | ArrayTy _ e =>
      let vs := match elements v with Some (_, vs) => vs | None => [] end in
      let n := Z.of_nat (List.length vs) in
      let ret := if requiresLengthPrefix t then pack_int n else [] in
      let offsetReq := isDynamicType e in
      pack_elems (pack e) offsetReq vs (if offsetReq then i64 (getTypeSize e * n) else 0) ret []
  | TupleTy _ comps =>
      fieldmap ← mapArgNamesToStructFields (comp_raw <$> comps) v;
      pack_heads (map (fun c => (isDynamicType (snd c), field ← field_of v fieldmap (comp_raw c); pack (snd c) field)) comps)
        (sum_sizes (comp_type <$> comps)) [] []
  | _ => packElement t v
  end.

(** ** Reading *)

(** [binary.BigEndian.UintN(b[len(b)-n:])] *)
Definition read_last (n : Z) (b : gobuf) : res Z :=
  last ← reslice b (buf_len b - n) (buf_len b); Ret (be_int (vis last)).

(** Conversion of an unsigned to a signed integer of one width. *)
Definition to_signed (w z : Z) : Z := if z <? 2 ^ (w - 1) then z else z - 2 ^ w.

Definition MaxUint256 : Z := 2 ^ 256 - 1.

Definition fixed_width (size : Z) : bool := (size =? 8) || (size =? 16) || (size =? 32) || (size =? 64).

Definition ReadInteger (typ : Ty) (b : gobuf) : res value :=
  match typ with
  | UintTy size =>
      if fixed_width size then n ← read_last (size / 8) b; Ret (VUint size n)
      else Ret (VPtr (VBigInt (be_int (vis b))))
  | _ =>
      let size := ty_Size typ in
      if fixed_width size then n ← read_last (size / 8) b; Ret (VInt size (to_signed size n))
      else
        let ret := be_int (vis b) in
        Ret (VPtr (VBigInt (if Z.testbit ret 255 then - ((MaxUint256 + - ret) + 1) else ret)))
  end.

Definition readBool (word : gobuf) : res bool :=
  head ← reslice word 0 31;
  if forallb (fun b => b =? 0) (vis head) then
    match vis word !! 31%nat with
    | Some 0 => Ret false
    | Some 1 => Ret true
    | Some _ => Err errBadBool
    | None => Panic
    end
  else Err errBadBool.

Definition readFunctionType (t : Ty) (word : gobuf) : res value :=
  match t with
  | FunctionTy =>
      garbage ← reslice word 24 32;
      if be_int (vis garbage) =? 0 then f ← reslice word 0 24; Ret (VArray (GUint 8) (bytes_value (vis f)))
      else Err ErrFunctionType
  | _ => Err ErrFunctionType
  end.

Definition ReadFixedBytes (t : Ty) (word : gobuf) : res value :=
  match t with
  | FixedBytesTy size =>
      _ ← GetType t;
      w ← reslice word 0 size;
      Ret (VArray (GUint 8) (bytes_value (vis w)))
  | _ => Err ErrFixedBytesType
  end.

Definition lengthPrefixPointsTo (index : Z) (output : gobuf) : res (Z * Z) :=
  word ← reslice output index (index + 32);
  let bigOffsetEnd := be_int (vis word) + 32 in
  let outputLength := buf_len output in
  if outputLength <? bigOffsetEnd then Err ErrSliceBoundary
  else if 63 <? bit_len bigOffsetEnd then Err ErrOffsetTooLarge
  else
    lengthWord ← reslice output (bigOffsetEnd - 32) bigOffsetEnd;
    let lengthBig := be_int (vis lengthWord) in
    let totalSize := bigOffsetEnd + lengthBig in
    if 63 <? bit_len totalSize then Err ErrOffsetTooLarge
    else if outputLength <? totalSize then Err ErrLengthInsufficient
    else Ret (bigOffsetEnd, lengthBig).

Definition tuplePointsTo (index : Z) (output : gobuf) : res Z :=
  word ← reslice output index (index + 32);
  let offset := be_int (vis word) in
  if buf_len output <? offset then Err ErrSliceBoundary
  else if 63 <? bit_len offset then Err ErrOffsetTooLarge
  else Ret offset.

(** [dst.Set(src)] panics unless the value can be assigned to the place; a
    [common.Hash] can be assigned to an array of 32 bytes. *)
Definition assign (g : gotype) (v : value) : res value :=
  if gotype_eqb g (type_of v) then Ret v
  else match v with
       | VHash bs => if gotype_eqb g (GArray 32 (GUint 8)) then Ret (VArray (GUint 8) (bytes_value bs)) else Panic
       | _ => Panic
       end.

(** The loop of [forEachUnpack]; [toGo] reads the element at an index. *)
Fixpoint each_loop (toGo : Z -> res value) (ge : gotype) (elemSize : Z) (n : nat) (i : Z) : res (list value) :=
  match n with
  | O => Ret []
  | S n' =>
      inter ← toGo i;
      v ← assign ge inter;
      vs ← each_loop toGo ge elemSize n' (i64 (i + elemSize));
      Ret (v :: vs)
  end.

Definition forEachUnpack (t : Ty) (toGo : Z -> res value) (output : gobuf) (start size : Z) : res value :=
  if size <? 0 then Err ErrNegativeSize
  else if buf_len output <? i64 (start + i64 (32 * size)) then Err ErrSliceBoundary
  else
    match t with
    | SliceTy e =>
        _ ← GetType t;
        ge ← GetType e;
        vs ← each_loop toGo ge (getTypeSize e) (Z.to_nat size) start;
        Ret (VSlice ge vs)
    | ArrayTy _ e =>
        _ ← GetType t;
        ge ← GetType e;
        vs ← each_loop toGo ge (getTypeSize e) (Z.to_nat size) start;
        Ret (VArray ge vs)
    | _ => Err ErrNotSequence
    end.

(** Static arrays and tuples are written in place: they take the space of
    several arguments. *)
Definition virtual_args (t : Ty) : Z :=
  match t with
  | ArrayTy _ _ | TupleTy _ _ => if isDynamicType t then 0 else Z.quot (getTypeSize t) 32 - 1
  | _ => 0
  end.

(** The loop of [forTupleUnpack]: each component with the function that reads
    it at an index. *)
Fixpoint tuple_fields (comps : list (gostr * Ty * (Z -> res value))) (index virtualArgs : Z)
    : res (list (gostr * option gostr * value)) :=
  match comps with
  | [] => Ret []
  | (field, elem, toGo) :: comps' =>
      marshalledValue ← toGo (i64 ((index + virtualArgs) * 32));
      g ← GetType elem;
      v ← assign g marshalledValue;
      fields ← tuple_fields comps' (index + 1) (virtualArgs + virtual_args elem);
      Ret ((field, None, v) :: fields)
  end.

Definition forTupleUnpack (t : Ty) (comps : list (gostr * Ty * (Z -> res value))) : res value :=
  _ ← GetType t;
  fields ← tuple_fields comps 0 0;
  Ret (VStruct fields).

Fixpoint toGoType (index : Z) (t : Ty) (output : gobuf) {struct t} : res value :=
  if buf_len output <? i64 (index + 32) then Err ErrLengthInsufficient
  else
    '(begin, length) ← (if requiresLengthPrefix t then lengthPrefixPointsTo index output else Ret (0, 0));
    returnOutput ← (if requiresLengthPrefix t then Ret (mk_buf [] []) else reslice output index (index + 32));
    match t with
    | TupleTy _ comps =>
        begin ← (if isDynamicType t then tuplePointsTo index output else Ret index);
        out ← from_index output begin;
        forTupleUnpack t (map (fun c => (snd (fst c), snd c, fun i => toGoType i (snd c) out)) comps)
    | SliceTy e =>
        out ← from_index output begin;
        forEachUnpack t (fun i => toGoType i e out) out 0 length
    | ArrayTy n e =>
        if isDynamicType e then
          offset ← read_last 8 returnOutput;
          if buf_len output <? offset then Err ErrOffsetTooLarge
          else out ← from_index output (i64 offset); forEachUnpack t (fun i => toGoType i e out) out 0 n
        else out ← from_index output index; forEachUnpack t (fun i => toGoType i e out) out 0 n
    | StringTy => s ← reslice output begin (begin + length); Ret (VString (vis s))
    | IntTy _ | UintTy _ => ReadInteger t returnOutput
    | BoolTy => b ← readBool returnOutput; Ret (VBool b)
    | AddressTy => Ret (VAddress (BytesToAddress (vis returnOutput)))
    | HashTy => Ret (VHash (BytesToHash (vis returnOutput)))
    | BytesTy => s ← reslice output begin (begin + length); Ret (VSlice (GUint 8) (bytes_value (vis s)))
    | FixedBytesTy _ => ReadFixedBytes t returnOutput
    | FunctionTy => readFunctionType t returnOutput
    | FixedPointTy => Err ErrUnknownType
    end.

(** ** Arguments *)

(** [UnmarshalJSON] of a decoded argument. *)
Definition Argument_of (arg : ArgumentMarshaling) : res Argument :=
  '(kind, t) ← NewType_of arg;
  Ret (mk_arg (am_Name arg) kind t (am_Indexed arg)).

Definition NonIndexed (arguments : Arguments_) : Arguments_ := filter (fun a => arg_Indexed a = false) arguments.

Definition isTuple (arguments : Arguments_) : bool := (1 <? List.length arguments)%nat.

Fixpoint unpack_values (ts : list Ty) (index virtualArgs : Z) (data : gobuf) : res (list value) :=
  match ts with
  | [] => Ret []
  | t :: ts' =>
      marshalledValue ← toGoType (i64 ((index + virtualArgs) * 32)) t data;
      retval ← unpack_values ts' (index + 1) (virtualArgs + virtual_args t) data;
      Ret (marshalledValue :: retval)
  end.

Definition UnpackValues (arguments : Arguments_) (data : gobuf) : res (list value) :=
  unpack_values (arg_Type <$> NonIndexed arguments) 0 0 data.

(** Empty data are accepted for no arguments only. *)
Definition Unpack (arguments : Arguments_) (data : gobuf) : res (list value) :=
  if buf_len data =? 0 then
    if negb (bool_decide (arguments = [])) then Err ErrEmptyData else Ret []
  else UnpackValues arguments data.

Definition UnpackIntoMap (arguments : Arguments_) (v : option (gmap gostr value)) (data : gobuf) : res (gmap gostr value) :=
  match v with
  | None => Err ErrNilMap
  | Some m =>
      if buf_len data =? 0 then
        if negb (bool_decide (arguments = [])) then Err ErrEmptyData else Ret m
      else
        values ← UnpackValues arguments data;
        Ret (foldl (fun m '(arg, x) => <[arg_Name arg := x]> m) m (zip (NonIndexed arguments) values))
  end.

Definition Pack (arguments : Arguments_) (args : list value) : res (list Z) :=
  if negb (Nat.eqb (List.length args) (List.length arguments)) then Err ErrArgCount
  else pack_heads (zip_with (fun a v => (isDynamicType (arg_Type a), pack (arg_Type a) v)) arguments args)
         (sum_sizes (arg_Type <$> arguments)) [] [].

Definition PackValues (arguments : Arguments_) (args : list value) : res (list Z) := Pack arguments args.

End Codec.

(** ** A concrete platform *)

Module AbiToy.

#[export] Instance toy_run : GoRuntime := {| addressable := fun _ => true; field_name := fun _ => true |}.

#[export] Instance toy_eth : EthBytes := {|
  U256Bytes := fun n => be_bytes 32 (n mod 2 ^ 256);
  LeftPadBytes := fun b l => replicate (Z.to_nat l - List.length b) 0 ++ b;
  RightPadBytes := fun b l => b ++ replicate (Z.to_nat l - List.length b) 0;
  PaddedBigBytes := fun n _ => be_bytes 32 n;
  BytesToAddress := fun b => be_bytes 20 (be_int (drop (List.length b - 20) b));
  BytesToHash := fun b => be_bytes 32 (be_int (drop (List.length b - 32) b));
  Keccak256 := fun b => be_bytes 32 (be_int b * 65599 + Z.of_nat (List.length b))
|}.

#[export] Instance toy_eth_laws : EthBytesLaws (eth := toy_eth).
Proof. split; intros; try done; apply be_bytes_is_byte. Qed.

(** Arguments [uint256 x, (string s, uint8[] l) p, bool[2] f]. *)
Definition toy_comps : list (gostr * gostr * Ty) := [(lit "s", lit "S", StringTy); (lit "l", lit "L", SliceTy (UintTy 8))].
Definition toy_pair : Ty := TupleTy [] toy_comps.
Definition toy_args : Arguments_ :=
  [mk_arg (lit "x") (lit "uint256") (UintTy 256) false;
   mk_arg (lit "p") (lit "(string,uint8[])") toy_pair false;
   mk_arg (lit "f") (lit "bool[2]") (ArrayTy 2 BoolTy) false].

Definition toy_fields : list value := [VString (lit "hello"); VSlice (GUint 8) [VUint 8 1; VUint 8 255]].
Definition toy_values : list value :=
  [VPtr (VBigInt 7);
   VStruct (zip_with (fun c v => (comp_field c, None, v)) toy_comps toy_fields);
   VArray GBool [VBool true; VBool false]].

(** The components [bool a, bool _a] and the type of their tuple. *)
Definition toy_clash : list ArgumentMarshaling :=
  [mk_am (lit "a") (lit "bool") [] [] false; mk_am (lit "_a") (lit "bool") [] [] false].
Definition toy_clash_comps : list (gostr * gostr * Ty) := [(lit "a", lit "A", BoolTy); (lit "_a", lit "A0", BoolTy)].
Definition toy_tuple_name : gostr := lit "tuple".

End AbiToy.
