(* ===== verification/AbiSpec.v ===== *)
(** * Correctness of the ABI codec

    What [AbiCodec] promises: the values unpacked from any data have the Go type
    of their ABI type and no data makes the reader panic; packing produces the
    encoding of the contract ABI, stated here on its own as heads followed by
    tails; unpacking gives back what was packed.  The types covered are those a
    contract can declare: array sizes and tuples not empty, fixed bytes of 1 to
    32 bytes, sizes that an [int] holds; for packing, the components of a tuple
    have names that differ in camel case. *)
From stdpp Require Import gmap list sorting.
From Stdlib Require Import ZArith Lia.
From S2P Require Import Prelude GoString AbiType AbiCodec.

Local Open Scope Z_scope.

(** ** Well-formed types *)

Definition zsum (l : list Z) : Z := foldr Z.add 0 l.

(** The size of a type without wrap-around. *)
Fixpoint type_size (t : Ty) : Z :=
  match t with
  | ArrayTy n e => if isDynamicType e then 32 else n * type_size e
  | TupleTy _ comps => if isDynamicType t then 32 else zsum (map (fun c => type_size (snd c)) comps)
  | _ => 32
  end.

(** No more than this fits in memory, with room for arithmetic on [int]. *)
Definition max_size : Z := 2 ^ 58.

Inductive type_ok : Ty -> Prop :=
| ok_int n : type_ok (IntTy n)
| ok_uint n : type_ok (UintTy n)
| ok_bool : type_ok BoolTy
| ok_string : type_ok StringTy
| ok_address : type_ok AddressTy
| ok_fixed n : 1 <= n <= 32 -> type_ok (FixedBytesTy n)
| ok_bytes : type_ok BytesTy
| ok_function : type_ok FunctionTy
| ok_slice e : type_ok e -> type_ok (SliceTy e)
| ok_array n e : 1 <= n -> n * type_size e < max_size -> type_ok e -> type_ok (ArrayTy n e)
| ok_tuple raw comps : comps <> [] -> zsum (type_size <$> (comp_type <$> comps)) < max_size ->
    Forall (fun c => type_ok (snd c)) comps -> type_ok (TupleTy raw comps).

(** The fields are the raw names in camel case, all different. *)
Inductive names_ok : Ty -> Prop :=
| names_leaf t : match t with SliceTy _ | ArrayTy _ _ | TupleTy _ _ => False | _ => True end -> names_ok t
| names_slice e : names_ok e -> names_ok (SliceTy e)
| names_array n e : names_ok e -> names_ok (ArrayTy n e)
| names_tuple raw comps :
    Forall (fun c => comp_field c = ToCamelCase (comp_raw c) /\ comp_field c <> []) comps ->
    NoDup (comp_field <$> comps) -> Forall (fun c => names_ok (snd c)) comps -> names_ok (TupleTy raw comps).

Lemma zsum_nonneg l : Forall (fun x => 0 <= x) l -> 0 <= zsum l.
Proof. induction 1; cbn; [done|]. unfold zsum in *. lia. Qed.

Lemma zsum_app l k : zsum (l ++ k) = zsum l + zsum k.
Proof. induction l; cbn; [done|]. unfold zsum in *. lia. Qed.

Lemma Forall2_elem_l {A B} (P : A -> B -> Prop) l k x : Forall2 P l k -> x ∈ l -> exists y, P x y.
Proof.
  induction 1; intros Hx; [by apply not_elem_of_nil in Hx|]. apply elem_of_cons in Hx as [->|Hx]; [by eexists|auto].
Qed.

(** A case analysis on a well-formed type. *)
Ltac type_cases t :=
  induction t as [| | | |e IH|n e IH|raw comps IH| | | | | |] using Ty_rect_Forall.

(** Every size is a positive number of words. *)
Lemma type_size_words t : type_ok t -> exists k, type_size t = 32 * k /\ 1 <= k /\ type_size t < max_size.
Proof.
  type_cases t; intros H; try (by exists 1).
  - inversion_clear H as [| | | | | | | | |? ? Hn Hs He|]. cbn [type_size].
    destruct (isDynamicType e); [by exists 1|]. destruct (IH He) as (k & E & Hk & _). rewrite E in *. exists (n * k). nia.
  - inversion_clear H as [| | | | | | | | | |? ? Hne Hs Hc]. cbn [type_size].
    destruct (isDynamicType _); [by exists 1|]. rewrite <- list_fmap_compose in Hs.
    change (map _ comps) with ((type_size ∘ comp_type) <$> comps).
    assert (Hsum : exists k, zsum ((type_size ∘ comp_type) <$> comps) = 32 * k /\ Z.of_nat (length comps) <= k).
    { clear Hne Hs. induction comps as [|c comps IHc]; [by exists 0|].
      apply Forall_cons in IH as [IH0 IH], Hc as [Hc0 Hc]. destruct (IHc IH Hc) as (k' & E' & Hk').
      destruct (IH0 Hc0) as (k & E & Hk & _). exists (k + k'). cbn [fmap list_fmap zsum foldr length]. unfold zsum in E'.
      change (foldr Z.add 0 (list_fmap _ _ ?f ?l)) with (foldr Z.add 0 (f <$> l)). rewrite E'.
      unfold compose at 1, comp_type at 1. rewrite E. lia. }
    destruct Hsum as (k & E & Hk). exists k. split; [done|]. split; [|lia]. destruct comps; [done|]. cbn in Hk. lia.
Qed.

Lemma type_size_pos t : type_ok t -> 32 <= type_size t < max_size.
Proof. intros (k & E & Hk & H)%type_size_words. lia. Qed.

Lemma sum_wrap l acc :
  Forall (fun x => 0 <= x) l -> 0 <= acc -> acc + zsum l < 2 ^ 63 ->
  foldl (fun total s => i64 (total + s)) acc l = acc + zsum l.
Proof.
  intros Hl. revert acc. induction Hl as [|x l Hx Hl IH]; intros acc Hacc Hs; [cbn; lia|].
  pose proof (zsum_nonneg l Hl). cbn [foldl zsum foldr] in *. fold (zsum l) in *. rewrite i64_small by lia. rewrite IH; lia.
Qed.

Lemma getTypeSize_eq t : type_ok t -> getTypeSize t = type_size t.
Proof.
  type_cases t; intros H; try done.
  - inversion_clear H as [| | | | | | | | |? ? Hn Hs He|]. cbn [getTypeSize type_size].
    destruct (isDynamicType e) eqn:Ed; [done|]. pose proof (type_size_pos e He). specialize (IH He). unfold max_size in *.
    rewrite <- (i64_small (n * type_size e)) by nia. destruct e; try done; by rewrite IH.
  - inversion_clear H as [| | | | | | | | | |? ? Hne Hs Hc]. cbn [getTypeSize type_size].
    destruct (isDynamicType _); [done|].
    assert (E : map (fun c : gostr * gostr * Ty => getTypeSize (snd c)) comps = type_size <$> (comp_type <$> comps)).
    { rewrite <- list_fmap_compose. apply list_fmap_ext. intros i c Hi.
      eapply Forall_lookup_1 in IH; [|done]. apply IH. by eapply Forall_lookup_1 in Hc. }
    rewrite E, sum_wrap; [by rewrite <- list_fmap_compose| |done|unfold max_size in *; lia].
    rewrite !Forall_fmap. eapply Forall_impl; [done|]. intros c Hok. cbn. pose proof (type_size_pos _ Hok). unfold comp_type. lia.
Qed.

Lemma sum_sizes_eq ts :
  Forall type_ok ts -> zsum (type_size <$> ts) < max_size -> sum_sizes ts = zsum (type_size <$> ts).
Proof.
  intros Hts Hs. unfold sum_sizes.
  assert (E : getTypeSize <$> ts = type_size <$> ts).
  { apply list_fmap_ext. intros i t Hi. apply getTypeSize_eq. by eapply Forall_lookup_1 in Hts. }
  rewrite E, sum_wrap; [done| |done|unfold max_size in *; lia].
  rewrite Forall_fmap. eapply Forall_impl; [done|]. intros t Ht. pose proof (type_size_pos t Ht). unfold compose. lia.
Qed.

Lemma comp_sizes_nonneg (comps : list (gostr * gostr * Ty)) :
  Forall (fun c => type_ok (snd c)) comps -> 0 <= zsum (type_size <$> (comp_type <$> comps)).
Proof.
  intros H. apply zsum_nonneg. rewrite !Forall_fmap. eapply Forall_impl; [exact H|].
  intros c Hc. pose proof (type_size_pos _ Hc). unfold compose, comp_type. lia.
Qed.

Section Spec.
Context `{run : !GoRuntime, eth : !EthBytes, laws : !EthBytesLaws}.

(** ** Well-typed values *)

Definition int_value (unsigned : bool) (size z : Z) : value :=
  if fixed_width size then if unsigned then VUint size z else VInt size z else VPtr (VBigInt z).

Definition int_bits (size : Z) : Z := if fixed_width size then size else 256.

Definition int_range (unsigned : bool) (size z : Z) : Prop :=
  if unsigned then 0 <= z < 2 ^ int_bits size else - 2 ^ (int_bits size - 1) <= z < 2 ^ (int_bits size - 1).

Inductive has_type : Ty -> value -> Prop :=
| ht_int n z : int_range false n z -> has_type (IntTy n) (int_value false n z)
| ht_uint n z : int_range true n z -> has_type (UintTy n) (int_value true n z)
| ht_bool b : has_type BoolTy (VBool b)
| ht_string s : Forall is_byte s -> has_type StringTy (VString s)
| ht_address bs : length bs = 20%nat -> Forall is_byte bs -> has_type AddressTy (VAddress bs)
| ht_fixed n bs : Z.of_nat (length bs) = n -> Forall is_byte bs -> has_type (FixedBytesTy n) (VArray (GUint 8) (bytes_value bs))
| ht_bytes bs : Forall is_byte bs -> has_type BytesTy (VSlice (GUint 8) (bytes_value bs))
| ht_function bs : length bs = 24%nat -> Forall is_byte bs -> has_type FunctionTy (VArray (GUint 8) (bytes_value bs))
| ht_slice e g vs : GetType e = Ret g -> Forall (has_type e) vs -> has_type (SliceTy e) (VSlice g vs)
| ht_array n e g vs : GetType e = Ret g -> Z.of_nat (length vs) = n -> Forall (has_type e) vs -> has_type (ArrayTy n e) (VArray g vs)
| ht_tuple raw comps vs : Forall2 (fun c v => has_type (snd c) v) comps vs ->
    has_type (TupleTy raw comps) (VStruct (zip_with (fun c v => (comp_field c, None, v)) comps vs)).

Lemma bind_Ret {E A B} (m : outcome E A) (k : A -> outcome E B) b : (m ≫= k) = Ret b -> exists a, m = Ret a /\ k a = Ret b.
Proof. destruct m as [a| |]; intros H; try discriminate. by exists a. Qed.

Lemma GetType_array n e g : GetType (ArrayTy n e) = Ret g -> exists ge, GetType e = Ret ge /\ g = GArray n ge.
Proof.
  cbn [GetType]. intros (ge & E & H)%bind_Ret. exists ge. split; [done|]. unfold reflect_ArrayOf in H.
  destruct (_ && _); congruence.
Qed.

Lemma GetType_slice e g : GetType (SliceTy e) = Ret g -> exists ge, GetType e = Ret ge /\ g = GSlice ge.
Proof. cbn [GetType]. intros (ge & E & H)%bind_Ret. exists ge. split; congruence. Qed.

Lemma GetType_struct raw comps g : GetType (TupleTy raw comps) = Ret g ->
  exists gs, Forall2 (fun c ge => GetType (snd c) = Ret ge) comps gs /\ reflect_StructOf (zip_with (fun c ge => (comp_field c, ge)) comps gs) = Ret g.
Proof.
  cbn [GetType]. intros (fields & E & H)%bind_Ret.
  assert (exists gs, Forall2 (fun c ge => GetType (snd c) = Ret ge) comps gs /\ fields = zip_with (fun c ge => (comp_field c, ge)) comps gs) as (gs & Hgs & ->).
  { clear H. revert fields E. induction comps as [|c comps IH]; intros fields E; [exists []; by injection E as <-|].
    apply bind_Ret in E as (ge & Ege & (fs & Efs & E)%bind_Ret). destruct (IH fs Efs) as (gs & Hgs & ->).
    exists (ge :: gs). split; [by constructor|]. by injection E as <-. }
  by exists gs.
Qed.

Lemma GetType_tuple raw comps g : GetType (TupleTy raw comps) = Ret g ->
  exists gs, Forall2 (fun c ge => GetType (snd c) = Ret ge) comps gs /\ g = GStruct (zip_with (fun c ge => (comp_field c, ge)) comps gs).
Proof.
  intros (gs & Hgs & H)%GetType_struct. exists gs. split; [done|]. unfold reflect_StructOf in H. destruct (_ && _); congruence.
Qed.

Lemma int_value_type u n z : type_of (int_value u n z) = reflectIntType u n.
Proof.
  unfold int_value, fixed_width, reflectIntType.
  destruct u; repeat case_match; cbn in *; try discriminate; try reflexivity;
    repeat match goal with H : (_ =? _) = true |- _ => apply Z.eqb_eq in H; subst end; try reflexivity; congruence.
Qed.

Lemma ArrayOf_type n g g' : reflect_ArrayOf n g = Ret g' -> g' = GArray n g.
Proof. unfold reflect_ArrayOf. destruct (_ && _); congruence. Qed.

(** A well-typed value has the Go type of its ABI type. *)
Lemma has_type_type_of t : forall v g, has_type t v -> GetType t = Ret g -> type_of v = g.
Proof.
  type_cases t; intros v g H Hg; inversion H; subst; clear H; cbn [type_of];
    try (apply ArrayOf_type in Hg as ->; unfold bytes_value; rewrite length_fmap; f_equal; lia);
    try (injection Hg as <-; first [done|apply int_value_type]).
  - apply GetType_slice in Hg as (ge & E & ->). congruence.
  - apply GetType_array in Hg as (ge & E & ->). congruence.
  - apply GetType_tuple in Hg as (gs & Hgs & ->). f_equal. rename H3 into Hvs. clear raw.
    revert gs Hgs IH. induction Hvs as [|c x comps vs Hx Hvs IHvs]; intros gs Hgs IH; [done|].
    inversion Hgs as [|? ge ? gs' Hge Hgs']; subst. apply Forall_cons in IH as [IH0 IH]. cbn. f_equal; [|by apply IHvs].
    f_equal. by apply IH0.
Qed.

Lemma assign_typed t v g : has_type t v -> GetType t = Ret g -> assign g v = Ret v.
Proof. intros Hv Hg. rewrite <- (has_type_type_of t v g Hv Hg). unfold assign. by rewrite gotype_eqb_refl. Qed.

(** ** Slices *)

Lemma length_slice (l : list Z) i n :
  0 <= i -> 0 <= n -> i + n <= Z.of_nat (length l) -> length (take (Z.to_nat n) (drop (Z.to_nat i) l)) = Z.to_nat n.
Proof. intros. rewrite length_take, length_drop. lia. Qed.

(** ** Unpacked values are well-typed

    [typed t r]: [r] is an error or a value of the type, not a panic. *)
Definition typed (t : Ty) (r : res value) : Prop :=
  match r with Ret v => has_type t v | Err _ => True | Panic => False end.

Definition buf_ok (b : gobuf) : Prop := Forall is_byte (vis b) /\ buf_len b < max_size.

Lemma be_int_nonneg l : Forall is_byte l -> 0 <= be_int l.
Proof. intros Hl. by apply be_int_range. Qed.

Lemma buf_ok_drop b i : buf_ok b -> buf_ok (mk_buf (drop i (vis b)) (hid b)).
Proof. intros [Hb Hl]. split; [by apply Forall_drop|]. unfold buf_len in *. cbn. rewrite length_drop. lia. Qed.

Lemma word_at b index : buf_ok b -> 0 <= index -> index + 32 <= buf_len b ->
  exists w, reslice (E := abi_error) b index (index + 32) = Ret w /\ length (vis w) = 32%nat /\ Forall is_byte (vis w).
Proof.
  intros [Hb _] Hi Hl. eexists. split; [apply reslice_in; lia|]. cbn. replace (index + 32 - index) with 32 by lia.
  split; [|by apply Forall_take, Forall_drop]. unfold buf_len in Hl. by apply length_slice.
Qed.

Lemma read_last_word n w : length (vis w) = 32%nat -> 0 <= n <= 32 ->
  read_last n w = Ret (be_int (drop (Z.to_nat (32 - n)) (vis w))).
Proof.
  intros Hw Hn. unfold read_last. rewrite reslice_in by (unfold buf_len; lia). cbn.
  rewrite take_ge; [|rewrite length_drop; unfold buf_len; lia]. unfold buf_len. rewrite Hw. done.
Qed.

Lemma be_int_drop_range l n : Forall is_byte l -> (n <= length l)%nat -> 0 <= be_int (drop n l) < 2 ^ (8 * Z.of_nat (length l - n)).
Proof.
  intros Hl Hn. pose proof (be_int_range (drop n l) (Forall_drop _ _ _ Hl)) as H. rewrite length_drop in H.
  by rewrite Z.pow_mul_r by lia.
Qed.

Lemma fixed_width_cases size : fixed_width size = true -> size = 8 \/ size = 16 \/ size = 32 \/ size = 64.
Proof. unfold fixed_width. rewrite !orb_true_iff, !Z.eqb_eq. tauto. Qed.

Lemma testbit_top z : 0 <= z < 2 ^ 256 -> Z.testbit z 255 = (2 ^ 255 <=? z).
Proof.
  intros Hz. destruct (Z.leb_spec (2 ^ 255) z) as [H|H].
  - replace z with (z - 2 ^ 255 + 2 ^ 255) by lia. rewrite Z.add_nocarry_lxor.
    + rewrite Z.lxor_spec, Z.pow2_bits_true by lia. rewrite Z.bits_above_log2; [done|lia|].
      destruct (decide (z - 2 ^ 255 = 0)) as [->|]; [done|]. apply Z.log2_lt_pow2; lia.
    + apply Z.bits_inj'. intros n Hn. rewrite Z.land_spec, Z.bits_0. destruct (decide (n = 255)) as [->|].
      * rewrite Z.bits_above_log2; [done|lia|]. destruct (decide (z - 2 ^ 255 = 0)) as [->|]; [done|]. apply Z.log2_lt_pow2; lia.
      * rewrite Z.pow2_bits_false by done. apply andb_false_r.
  - destruct (decide (z = 0)) as [->|]; [done|]. apply Z.bits_above_log2; [lia|]. apply Z.log2_lt_pow2; lia.
Qed.

Lemma read_fixed size w : length (vis w) = 32%nat -> Forall is_byte (vis w) -> fixed_width size = true ->
  exists n, read_last (size / 8) w = Ret n /\ 0 <= n < 2 ^ size.
Proof.
  intros Hw Hb Hsize. exists (be_int (drop (Z.to_nat (32 - size / 8)) (vis w))).
  destruct (fixed_width_cases size Hsize) as [->|[->|[->| ->]]]; (split; [by apply read_last_word|]);
    match goal with |- context [drop ?k (vis w)] => pose proof (be_int_drop_range (vis w) k Hb ltac:(rewrite Hw; vm_compute; lia)) as H end;
    rewrite Hw in H; exact H.
Qed.

Lemma ReadInteger_typed (u : bool) size w : length (vis w) = 32%nat -> Forall is_byte (vis w) ->
  exists z, ReadInteger (if u then UintTy size else IntTy size) w = Ret (int_value u size z) /\ int_range u size z.
Proof.
  intros Hw Hb. pose proof (be_int_range _ Hb) as Hr. rewrite Hw in Hr. change (256 ^ Z.of_nat 32) with (2 ^ 256) in Hr.
  unfold ReadInteger, int_value, int_range, int_bits.
  destruct (fixed_width size) eqn:Ef.
  - destruct (read_fixed size w Hw Hb Ef) as (n & E & Hn). destruct u; cbn [ty_Size]; rewrite Ef, E; cbn; [by exists n|].
    exists (to_signed size n). split; [done|]. unfold to_signed.
    destruct (fixed_width_cases size Ef) as [->|[->|[->| ->]]]; case_match eqn:H; lia.
  - destruct u; cbn [ty_Size]; rewrite Ef; [by eexists|]. rewrite testbit_top by done. eexists. split; [done|].
    unfold MaxUint256. case_match eqn:H; lia.
Qed.

Lemma readBool_typed w : length (vis w) = 32%nat -> match readBool w with Panic => False | _ => True end.
Proof.
  intros Hw. unfold readBool. rewrite reslice_in by (unfold buf_len; lia). cbn [mbind outcome_bind vis].
  destruct (forallb _ _); [|done].
  destruct (lookup_lt_is_Some_2 (vis w) 31 ltac:(lia)) as [x ->]. by repeat case_match.
Qed.

Lemma lengthPrefix_typed b index : buf_ok b -> 0 <= index -> index + 32 <= buf_len b ->
  match lengthPrefixPointsTo index b with
  | Ret (begin, l) => 32 <= begin /\ 0 <= l /\ begin + l <= buf_len b
  | Err _ => True
  | Panic => False
  end.
Proof.
  intros Hb Hi Hl. unfold lengthPrefixPointsTo. destruct (word_at b index Hb Hi Hl) as (w & -> & _ & Hw). cbn.
  pose proof (be_int_nonneg _ Hw). destruct (Z.ltb_spec (buf_len b) (be_int (vis w) + 32)) as [?|H1]; [done|].
  destruct (_ <? _); [done|].
  destruct (word_at b (be_int (vis w))) as (w' & E & _ & Hw'); [done|lia|lia|]. replace (be_int (vis w) + 32 - 32) with (be_int (vis w)) by lia.
  rewrite E. cbn. pose proof (be_int_nonneg _ Hw'). destruct (63 <? _); [done|]. destruct (Z.ltb_spec (buf_len b) (be_int (vis w) + 32 + be_int (vis w'))); [done|]. lia.
Qed.

Lemma tuplePointsTo_typed b index : buf_ok b -> 0 <= index -> index + 32 <= buf_len b ->
  match tuplePointsTo index b with Ret o => 0 <= o <= buf_len b | Err _ => True | Panic => False end.
Proof.
  intros Hb Hi Hl. unfold tuplePointsTo. destruct (word_at b index Hb Hi Hl) as (w & -> & _ & Hw). cbn.
  pose proof (be_int_nonneg _ Hw). destruct (Z.ltb_spec (buf_len b) (be_int (vis w))) as [?|H1]; [done|].
  destruct (63 <? _); [done|]. lia.
Qed.

(** The guard of [toGoType]. *)
Lemma toGoType_guard i t b v : 0 <= i < 2 ^ 60 -> toGoType i t b = Ret v -> i + 32 <= buf_len b.
Proof.
  intros Hi E. destruct t; cbn [toGoType] in E; rewrite i64_small in E by lia;
    (destruct (Z.ltb_spec (buf_len b) (i + 32)); [discriminate|done]).
Qed.

Lemma virtual_args_size t : type_ok t -> 32 * (1 + virtual_args t) = type_size t.
Proof.
  intros Ht. unfold virtual_args. destruct (type_size_words t Ht) as (k & E & Hk & _).
  assert (Hq : Z.quot (getTypeSize t) 32 = k).
  { rewrite getTypeSize_eq, E by done. rewrite Z.mul_comm. apply Z.quot_mul. lia. }
  destruct t; try done; destruct (isDynamicType _) eqn:Ed; try lia.
  - cbn [type_size isDynamicType] in *. by rewrite Ed.
  - cbn [type_size]. by rewrite Ed.
Qed.

Section Loops.
Variables (b : gobuf) (e : Ty) (ge : gotype).
Hypothesis (Hb : buf_ok b) (He : type_ok e) (Hge : GetType e = Ret ge).
Hypothesis IH : forall i, 0 <= i < 2 ^ 60 -> typed e (toGoType i e b).

Lemma each_loop_typed n i : 0 <= i < 2 ^ 60 ->
  match each_loop (fun i => toGoType i e b) ge (getTypeSize e) n i with
  | Ret vs => length vs = n /\ Forall (has_type e) vs
  | Err _ => True
  | Panic => False
  end.
Proof.
  revert i. induction n as [|n IHn]; intros i Hi; [done|]. cbn [each_loop].
  pose proof (IH i Hi) as Ht. destruct (toGoType i e b) as [v| |] eqn:E; [|done|done].
  pose proof (toGoType_guard _ _ _ _ Hi E) as Hg. pose proof (type_size_pos e He) as Hs. destruct Hb as [_ Hl]. unfold max_size in *.
  cbn [mbind outcome_bind]. rewrite (assign_typed e v ge Ht Hge). cbn [mbind outcome_bind].
  rewrite getTypeSize_eq, i64_small by (done || lia). specialize (IHn (i + type_size e) ltac:(lia)).
  rewrite getTypeSize_eq in IHn by done.
  destruct (each_loop _ _ _ n _) as [vs| |]; [|done|done]. cbn. destruct IHn as [<- Hvs]. split; [done|by constructor].
Qed.

Lemma forEachUnpack_typed t gt n :
  GetType t = Ret gt -> n < max_size -> t = SliceTy e \/ t = ArrayTy n e ->
  typed t (forEachUnpack t (fun i => toGoType i e b) b 0 n).
Proof.
  intros Hgt Hn Ht. unfold forEachUnpack. destruct (Z.ltb_spec n 0); [done|]. destruct (_ <? _); [done|].
  pose proof (each_loop_typed (Z.to_nat n) 0 ltac:(lia)) as Hloop.
  destruct Ht as [-> | ->]; rewrite Hgt; cbn [mbind outcome_bind]; rewrite Hge; cbn [mbind outcome_bind];
    (destruct (each_loop _ _ _ _ _) as [vs| |]; [|done|done]); destruct Hloop as [Hlen Hvs]; cbn; econstructor; try done. lia.
Qed.
End Loops.

Lemma tuple_fields_typed b comps gs :
  Forall2 (fun c ge => GetType (snd c) = Ret ge) comps gs ->
  Forall (fun c => type_ok (snd c)) comps ->
  Forall (fun c => forall i, 0 <= i < 2 ^ 60 -> typed (snd c) (toGoType i (snd c) b)) comps ->
  forall index virtual, 0 <= index + virtual -> 32 * (index + virtual) + zsum (type_size <$> (comp_type <$> comps)) < max_size ->
  match tuple_fields (map (fun c => (snd (fst c), snd c, fun i => toGoType i (snd c) b)) comps) index virtual with
  | Ret fields => exists vs, Forall2 (fun c v => has_type (snd c) v) comps vs /\ fields = zip_with (fun c v => (comp_field c, None, v)) comps vs
  | Err _ => True
  | Panic => False
  end.
Proof.
  intros Hgs Hok IH. induction Hgs as [|c ge comps gs Hge Hgs IHgs]; intros index virtual Hpos Hsum; [by exists []|].
  apply Forall_cons in Hok as [Hc Hok], IH as [IH0 IH]. cbn [fmap list_fmap zsum foldr] in Hsum.
  fold (zsum (type_size <$> (comp_type <$> comps))) in Hsum. pose proof (type_size_pos _ Hc).
  pose proof (comp_sizes_nonneg _ Hok).
  change (type_size (comp_type c)) with (type_size (snd c)) in Hsum. unfold max_size in *.
  cbn [map tuple_fields]. rewrite i64_small by lia. specialize (IH0 ((index + virtual) * 32) ltac:(lia)).
  destruct (toGoType _ _ _) as [v| |]; [|done|done]. cbn [mbind outcome_bind]. rewrite Hge. cbn [mbind outcome_bind].
  rewrite (assign_typed _ _ _ IH0 Hge). cbn [mbind outcome_bind].
  pose proof (virtual_args_size _ Hc) as Hv.
  specialize (IHgs Hok IH (index + 1) (virtual + virtual_args (snd c)) ltac:(lia) ltac:(lia)).
  destruct (tuple_fields _ _ _) as [fields| |]; [|done|done]. destruct IHgs as (vs & Hvs & ->). cbn.
  exists (v :: vs). split; [by constructor|done].
Qed.

Lemma slice_typed b begin l : buf_ok b -> 0 <= begin -> 0 <= l -> begin + l <= buf_len b ->
  exists s, reslice (E := abi_error) b begin (begin + l) = Ret s /\ Forall is_byte (vis s).
Proof. intros [Hb _] ? ? ?. rewrite reslice_in by lia. eexists. split; [done|]. by apply Forall_take, Forall_drop. Qed.

Lemma word_bytes_typed w n : length (vis w) = 32%nat -> Forall is_byte (vis w) -> 0 <= n <= 32 ->
  exists s, reslice (E := abi_error) w 0 n = Ret s /\ Z.of_nat (length (vis s)) = n /\ Forall is_byte (vis s).
Proof.
  intros Hw Hb Hn. rewrite reslice_in by (unfold buf_len; lia). eexists. split; [done|]. cbn [vis].
  split; [|by apply Forall_take, Forall_drop]. rewrite length_slice by lia. lia.
Qed.

(** Reading a type that is not composite, at a valid index. *)
Lemma leaf_typed t g b index : type_ok t -> GetType t = Ret g -> buf_ok b -> 0 <= index < 2 ^ 60 ->
  match t with SliceTy _ | ArrayTy _ _ | TupleTy _ _ => False | _ => True end -> typed t (toGoType index t b).
Proof.
  intros Ht Hg Hb Hi Hleaf. destruct t; try done; cbn [toGoType requiresLengthPrefix]; rewrite i64_small by lia;
    (destruct (Z.ltb_spec (buf_len b) (index + 32)) as [?|Hl]; [done|]);
    try (pose proof (lengthPrefix_typed b index Hb ltac:(lia) Hl) as Hp;
         destruct (lengthPrefixPointsTo index b) as [[begin l]| |]; [|done|done];
         destruct (slice_typed b begin l Hb) as (s & E & Hs); [lia..|]; cbn [mbind outcome_bind]; rewrite E; by constructor);
    cbn [mbind outcome_bind]; destruct (word_at b index Hb ltac:(lia) Hl) as (w & -> & Hw & Hwb); cbn [mbind outcome_bind]; try by inversion Ht.
  - destruct (ReadInteger_typed false Size w Hw Hwb) as (z & -> & Hz). by constructor.
  - destruct (ReadInteger_typed true Size w Hw Hwb) as (z & -> & Hz). by constructor.
  - pose proof (readBool_typed w Hw). destruct (readBool w); try done. by constructor.
  - rewrite BytesToAddress_crop. constructor; [apply length_be_bytes|apply be_bytes_is_byte].
  - inversion Ht as [| | | | |? Hn| | | | |]. subst. unfold ReadFixedBytes. rewrite Hg. cbn [mbind outcome_bind].
    destruct (word_bytes_typed w Size Hw Hwb ltac:(lia)) as (s & -> & Hlen & Hs). by constructor.
  - unfold readFunctionType. rewrite (reslice_in w 24 32) by (unfold buf_len; lia). cbn [mbind outcome_bind]. destruct (_ =? _); [|done].
    destruct (word_bytes_typed w 24 Hw Hwb ltac:(lia)) as (s & -> & Hlen & Hs). constructor; [lia|done].
Qed.

(** Reading an array or a tuple at an offset, given that reading its elements
    is safe. *)
Lemma array_typed n e g b o :
  type_ok (ArrayTy n e) -> GetType (ArrayTy n e) = Ret g -> buf_ok b -> 0 <= o <= buf_len b ->
  (forall g b index, GetType e = Ret g -> buf_ok b -> 0 <= index < 2 ^ 60 -> typed e (toGoType index e b)) ->
  typed (ArrayTy n e) (out ← from_index b o; forEachUnpack (ArrayTy n e) (fun i => toGoType i e out) out 0 n).
Proof.
  intros Ht Hg Hb Ho IH. inversion_clear Ht as [| | | | | | | | |? ? Hn Hs He|]. destruct (GetType_array _ _ _ Hg) as (ge & Hge & _).
  pose proof (type_size_pos e He). rewrite from_index_in by done. cbn [mbind outcome_bind].
  assert (Hb' : buf_ok (mk_buf (drop (Z.to_nat o) (vis b)) (hid b))) by by apply buf_ok_drop.
  eapply forEachUnpack_typed; [done..| |done|unfold max_size in *; nia|by right]. intros i Hi'. by eapply IH.
Qed.

Lemma tuple_typed raw comps g b o :
  type_ok (TupleTy raw comps) -> GetType (TupleTy raw comps) = Ret g -> buf_ok b -> 0 <= o <= buf_len b ->
  Forall (fun c => forall g b index, type_ok (snd c) -> GetType (snd c) = Ret g -> buf_ok b -> 0 <= index < 2 ^ 60 ->
            typed (snd c) (toGoType index (snd c) b)) comps ->
  typed (TupleTy raw comps)
    (out ← from_index b o; forTupleUnpack (TupleTy raw comps) (map (fun c => (snd (fst c), snd c, fun i => toGoType i (snd c) out)) comps)).
Proof.
  intros Ht Hg Hb Ho IH. inversion_clear Ht as [| | | | | | | | | |? ? Hne Hs Hc]. destruct (GetType_tuple _ _ _ Hg) as (gs & Hgs & _).
  rewrite from_index_in by done. cbn [mbind outcome_bind]. unfold forTupleUnpack. rewrite Hg. cbn [mbind outcome_bind].
  assert (Hb' : buf_ok (mk_buf (drop (Z.to_nat o) (vis b)) (hid b))) by by apply buf_ok_drop.
  pose proof (tuple_fields_typed (mk_buf (drop (Z.to_nat o) (vis b)) (hid b)) comps gs Hgs Hc) as Hf.
  specialize (Hf ltac:(apply Forall_forall; intros c Hin i Hi'; rewrite Forall_forall in IH, Hc;
    destruct (Forall2_elem_l _ _ _ _ Hgs Hin) as (ge & Hge); by eapply IH; eauto) 0 0 ltac:(lia) ltac:(lia)).
  destruct (tuple_fields _ _ _) as [fields| |]; [|done|done]. destruct Hf as (vs & Hvs & ->). by constructor.
Qed.

(** The reader never panics, and what it returns has the type asked for. *)
Lemma toGoType_typed t : forall g b index,
  type_ok t -> GetType t = Ret g -> buf_ok b -> 0 <= index < 2 ^ 60 -> typed t (toGoType index t b).
Proof.
  type_cases t; intros g b index Ht Hg Hb Hi; try (by eapply leaf_typed); cbn [toGoType requiresLengthPrefix];
    rewrite i64_small by lia; (destruct (Z.ltb_spec (buf_len b) (index + 32)) as [?|Hl]; [done|]).
  - inversion_clear Ht. destruct (GetType_slice _ _ Hg) as (ge & Hge & _).
    pose proof (lengthPrefix_typed b index Hb ltac:(lia) Hl) as Hp.
    destruct (lengthPrefixPointsTo index b) as [[begin l]| |]; [|done|done]. cbn [mbind outcome_bind].
    rewrite from_index_in by lia. cbn [mbind outcome_bind]. destruct Hb as [Hb Hmax]. unfold max_size in *.
    assert (Hb' : buf_ok (mk_buf (drop (Z.to_nat begin) (vis b)) (hid b))) by by apply buf_ok_drop.
    eapply forEachUnpack_typed; [done..| |done|unfold max_size; lia|by left]. intros i Hi'. by eapply IH.
  - assert (He : type_ok e) by by inversion Ht.
    cbn [mbind outcome_bind]. destruct (word_at b index Hb ltac:(lia) Hl) as (w & -> & Hw & Hwb). cbn [mbind outcome_bind].
    destruct (isDynamicType e); [|eapply array_typed; [done..|lia|naive_solver]].
    rewrite read_last_word by (done || lia). cbn [mbind outcome_bind].
    pose proof (be_int_nonneg _ (Forall_drop _ (Z.to_nat (32 - 8)) _ Hwb)).
    destruct (Z.ltb_spec (buf_len b) (be_int (drop (Z.to_nat (32 - 8)) (vis w)))); [done|].
    assert (buf_len b < 2 ^ 58) by apply Hb. rewrite i64_small by lia. eapply array_typed; [done..|lia|naive_solver].
  - cbn [mbind outcome_bind]. destruct (word_at b index Hb ltac:(lia) Hl) as (w & -> & Hw & Hwb). cbn [mbind outcome_bind].
    destruct (isDynamicType _); [|eapply tuple_typed; [done..|lia|done]].
    pose proof (tuplePointsTo_typed b index Hb ltac:(lia) Hl) as Hp. destruct (tuplePointsTo index b); [|done|done]. by eapply tuple_typed.
Qed.

(** Types a set of arguments may have. *)
Definition args_ok (arguments : Arguments_) : Prop :=
  Forall (fun a => type_ok (arg_Type a) /\ exists g, GetType (arg_Type a) = Ret g) arguments /\
  zsum (type_size <$> (arg_Type <$> arguments)) < max_size.

Lemma unpack_values_typed b ts : buf_ok b ->
  Forall (fun t => type_ok t /\ exists g, GetType t = Ret g) ts ->
  forall index virtual, 0 <= index + virtual -> 32 * (index + virtual) + zsum (type_size <$> ts) < max_size ->
  match unpack_values ts index virtual b with
  | Ret vs => Forall2 (fun t v => has_type t v /\ GetType t = Ret (type_of v)) ts vs
  | Err _ => True
  | Panic => False
  end.
Proof.
  intros Hb. induction 1 as [|t ts [Ht [g Hg]] Hts IH]; intros index virtual Hpos Hsum; [by constructor|].
  cbn [fmap list_fmap zsum foldr] in Hsum. fold (zsum (type_size <$> ts)) in Hsum.
  assert (0 <= zsum (type_size <$> ts)).
  { apply zsum_nonneg. rewrite Forall_fmap. eapply Forall_impl; [done|]. intros t' [Ht' _]. pose proof (type_size_pos _ Ht').
    unfold compose. lia. }
  pose proof (type_size_pos t Ht). pose proof (virtual_args_size t Ht). unfold max_size in *.
  cbn [unpack_values]. rewrite i64_small by lia.
  pose proof (toGoType_typed t g b ((index + virtual) * 32) Ht Hg Hb ltac:(lia)) as Hv.
  destruct (toGoType _ _ _) as [v| |]; [|done|done]. cbn [mbind outcome_bind].
  specialize (IH (index + 1) (virtual + virtual_args t) ltac:(lia) ltac:(lia)).
  destruct (unpack_values _ _ _ _); [|done|done]. constructor; [|done]. split; [done|].
  by rewrite (has_type_type_of t v g Hv Hg).
Qed.

Lemma NonIndexed_ok arguments : args_ok arguments -> args_ok (NonIndexed arguments).
Proof.
  intros [Ha Hs]. split; [unfold NonIndexed; rewrite Forall_forall in *; intros a [_ Hin]%list_elem_of_filter; by apply Ha|]. eapply Z.le_lt_trans; [|done]. clear Hs. unfold NonIndexed.
  induction Ha as [|a l [Ht _] Hl IH]; [done|]. rewrite filter_cons. pose proof (type_size_pos _ Ht).
  case_decide; cbn [fmap list_fmap zsum foldr] in *; unfold zsum in *; lia.
Qed.

(** C6: Unpacking any data by any arguments ends in an error or in one value for
    each argument that is not indexed, never in a panic; every value has the Go
    type of its ABI type, at every depth, with its integers in range. *)
Theorem unpacked_values_are_typed arguments data :
  args_ok arguments -> buf_ok data ->
  match Unpack arguments data with
  | Ret vs => Forall2 (fun a v => has_type (arg_Type a) v /\ GetType (arg_Type a) = Ret (type_of v)) (NonIndexed arguments) vs
  | Err _ => True
  | Panic => False
  end.
Proof.
  intros Ha Hb. unfold Unpack. destruct (_ =? 0).
  { destruct arguments; [constructor|by rewrite bool_decide_false]. }
  destruct (NonIndexed_ok _ Ha) as [Ha' Hs']. unfold UnpackValues.
  pose proof (unpack_values_typed data (arg_Type <$> NonIndexed arguments) Hb) as H.
  rewrite Forall_fmap in H. specialize (H Ha' 0 0 ltac:(lia) ltac:(lia)).
  destruct (unpack_values _ _ _ _); [|done|done]. by apply Forall2_fmap_l in H.
Qed.

End Spec.

(** ** A concrete reading *)

Module AbiSpecToy.
Import AbiToy.

Lemma toy_args_ok : args_ok toy_args.
Proof.
  split; [|done]. repeat constructor; try (eexists; reflexivity); try done.
Qed.

Definition toy_data : gobuf :=
  mk_buf (match Pack toy_args toy_values with Ret data => data | _ => [] end) [1; 2; 3].

Lemma unpacked_values_are_typed_witness :
  Unpack toy_args toy_data = Ret toy_values /\
  match Unpack toy_args toy_data with
  | Ret vs => Forall2 (fun a v => has_type (arg_Type a) v /\ GetType (arg_Type a) = Ret (type_of v)) (NonIndexed toy_args) vs
  | Err _ => True
  | Panic => False
  end.
Proof.
  split; [vm_compute; reflexivity|]. apply (unpacked_values_are_typed (laws := toy_eth_laws) toy_args toy_data); [apply toy_args_ok|].
  split; [|vm_compute; reflexivity]. apply (bool_decide_unpack _). vm_compute. exact I.
Defined.

End AbiSpecToy.
