(* ===== verification/AbiRound.v ===== *)
(** * The ABI encoding, and unpacking what was packed

    The encoding of the contract ABI as its specification states it (quoted in
    the comments of [type.go]): a sequence is the heads of its elements followed
    by their tails; the head of a static element is its encoding, the head of a
    dynamic one is the position of its tail.  Shown: [pack] and [Pack] produce
    this encoding for every well-typed value, and reading it gives the value
    back, wherever it is placed in the data. *)
From stdpp Require Import gmap list sorting.
From Stdlib Require Import ZArith Lia.
From S2P Require Import Prelude GoString AbiType AbiCodec AbiSpec.

Local Open Scope Z_scope.

(** ** The specification *)

Definition word (n : Z) : list Z := be_bytes 32 (n mod 2 ^ 256).
Arguments word _ : simpl never.

(** An element of a sequence: whether its type is dynamic, and its encoding. *)
Definition part : Type := bool * list Z.

Definition head_len (p : part) : nat := if fst p then 32%nat else length (snd p).
Definition heads_len (parts : list part) : nat := sum_list (head_len <$> parts).
Definition tail_of (p : part) : list Z := if fst p then snd p else [].
Definition tails (parts : list part) : list Z := concat (tail_of <$> parts).

Definition head_of (parts : list part) (i : nat) (p : part) : list Z :=
  if fst p then word (Z.of_nat (heads_len parts + length (tails (take i parts)))) else snd p.
Definition heads (parts : list part) : list Z := concat (imap (head_of parts) parts).

Definition layout (parts : list part) : list Z := heads parts ++ tails parts.

Definition number (v : value) : Z :=
  match v with VUint _ n | VInt _ n | VPtr (VBigInt n) => n | _ => 0 end.

Definition byte_value (v : value) : Z := match v with VUint _ b => b | _ => 0 end.

Definition raw_bytes (v : value) : list Z :=
  match v with
  | VString s | VAddress s => s
  | VSlice _ vs | VArray _ vs => byte_value <$> vs
  | _ => []
  end.

Definition items (v : value) : list value :=
  match v with
  | VSlice _ vs | VArray _ vs => vs
  | VStruct fields => snd <$> fields
  | _ => []
  end.

(** Zeros up to a multiple of 32 bytes. *)
Definition pad_words (bs : list Z) : list Z :=
  bs ++ replicate (Z.to_nat ((Z.of_nat (length bs) + 31) / 32 * 32) - length bs) 0.

Fixpoint enc (t : Ty) (v : value) : list Z :=
  match t with
  | IntTy _ | UintTy _ => word (number v)
  | BoolTy => match v with VBool true => word 1 | _ => word 0 end
  | StringTy | BytesTy => word (Z.of_nat (length (raw_bytes v))) ++ pad_words (raw_bytes v)
  | AddressTy => replicate 12 0 ++ raw_bytes v
  | FixedBytesTy _ | FunctionTy => raw_bytes v ++ replicate (32 - length (raw_bytes v)) 0
  | SliceTy e => word (Z.of_nat (length (items v))) ++ layout (map (fun x => (isDynamicType e, enc e x)) (items v))
  | ArrayTy _ e => layout (map (fun x => (isDynamicType e, enc e x)) (items v))
  | TupleTy _ comps => layout (zip_with (fun c x => (isDynamicType (snd c), enc (snd c) x)) comps (items v))
  | _ => []
  end.

(** ** Heads with a running position *)

Lemma length_word n : length (word n) = 32%nat.
Proof. apply length_be_bytes. Qed.

Fixpoint heads_from (base : nat) (parts : list part) : list Z :=
  match parts with
  | [] => []
  | (true, e) :: parts' => word (Z.of_nat base) ++ heads_from (base + length e) parts'
  | (false, e) :: parts' => e ++ heads_from base parts'
  end.

Lemma heads_running parts base :
  concat (imap (fun i (p : part) => if fst p then word (Z.of_nat (base + length (tails (take i parts)))) else snd p) parts)
  = heads_from base parts.
Proof.
  revert base. induction parts as [|[d e] parts IH]; intros base; [done|].
  rewrite imap_cons.
  match goal with |- context [imap (?f ∘ S) parts] => assert (E : imap (f ∘ S) parts =
     imap (fun i (p : part) => if fst p then word (Z.of_nat (base + length (tail_of (d, e)) + length (tails (take i parts)))) else snd p) parts) end.
  { apply imap_ext. intros i [d' e'] _. cbn. destruct d'; [|done]. unfold tails. cbn. rewrite length_app. do 2 f_equal. apply Nat.add_assoc. }
  rewrite E. cbn [concat]. rewrite IH. destruct d; cbn; rewrite ?Nat.add_0_r; done.
Qed.

Lemma layout_running parts : layout parts = heads_from (heads_len parts) parts ++ tails parts.
Proof. unfold layout, heads, head_of. by rewrite heads_running. Qed.

Lemma length_heads_from parts base : length (heads_from base parts) = heads_len parts.
Proof.
  revert base. induction parts as [|[[] e] parts IH]; intros base; [done|..]; cbn [heads_from]; rewrite length_app, IH; [|done].
  by rewrite length_word.
Qed.

Lemma length_layout parts : length (layout parts) = (heads_len parts + length (tails parts))%nat.
Proof. by rewrite layout_running, length_app, length_heads_from. Qed.

(** ** Where the elements of a sequence are *)

Definition at_pos (b : list Z) (p : nat) (bs : list Z) : Prop := exists rest, drop p b = bs ++ rest.

(** An element is in place, or in place is the position where it is. *)
Definition stored (b : list Z) (p : nat) (q : part) : Prop :=
  if fst q then exists o : nat, at_pos b p (word (Z.of_nat o)) /\ at_pos b o (snd q) else at_pos b p (snd q).

Lemma at_pos_app b p x y : at_pos b p (x ++ y) -> at_pos b p x /\ at_pos b (p + length x) y.
Proof.
  intros [rest E]. rewrite <- app_assoc in E. split; [by eexists|]. exists rest.
  rewrite <- drop_drop, E. by rewrite drop_app_length.
Qed.

Lemma at_pos_drop b o p x : at_pos (drop o b) p x <-> at_pos b (o + p) x.
Proof. unfold at_pos. by rewrite drop_drop. Qed.

Lemma at_pos_length b p x : at_pos b p x -> x <> [] -> (p + length x <= length b)%nat.
Proof.
  intros [rest E] Hx. assert (Hl : length (drop p b) = length (x ++ rest)) by by rewrite E.
  rewrite length_drop, length_app in Hl. destruct x; [done|]. cbn in *. lia.
Qed.

Lemma at_pos_within b p x : at_pos b p x -> (p <= length b)%nat -> (p + length x <= length b)%nat.
Proof.
  intros [rest E] Hp. assert (Hl : length (drop p b) = length (x ++ rest)) by by rewrite E.
  rewrite length_drop, length_app in Hl. lia.
Qed.

Lemma at_pos_take b p x : at_pos b p x -> take (length x) (drop p b) = x.
Proof. intros [rest ->]. by rewrite take_app_length. Qed.

Lemma at_pos_here b H x rest : b = H ++ x ++ rest -> at_pos b (length H) x.
Proof. intros ->. exists rest. by rewrite drop_app_length. Qed.

Lemma stored_parts parts : forall H T base b rest,
  b = H ++ heads_from base parts ++ T ++ tails parts ++ rest -> base = (length H + heads_len parts + length T)%nat ->
  forall i q, parts !! i = Some q -> stored b (length H + heads_len (take i parts)) q.
Proof.
  induction parts as [|[d e] parts IH]; intros H T base b rest Eb Ebase i q Hi; [done|].
  set (h := if d then word (Z.of_nat base) else e).
  assert (Hh : length h = head_len (d, e)) by (destruct d; [apply length_word|done]).
  assert (Eb' : b = H ++ h ++ heads_from (base + length (tail_of (d, e))) parts ++ T ++ tail_of (d, e) ++ tails parts ++ rest).
  { rewrite Eb. unfold h. destruct d; cbn [heads_from tail_of fst snd length tails fmap list_fmap concat];
      rewrite ?Nat.add_0_r; rewrite <- !app_assoc; done. }
  assert (Ebase' : base = (length H + (length h + heads_len parts) + length T)%nat).
  { rewrite Hh. exact Ebase. }
  destruct i as [|i]; [injection Hi as <-|].
  - cbn [take]. change (heads_len []) with 0%nat. rewrite Nat.add_0_r. destruct d; [|by eapply at_pos_here].
    exists base. split; [by eapply at_pos_here|]. cbn [snd tail_of fst] in *. rewrite Ebase'.
    replace (length H + (length h + heads_len parts) + length T)%nat
      with (length (H ++ h ++ heads_from (base + length e) parts ++ T)) by (rewrite !length_app, length_heads_from; lia).
    eapply at_pos_here. rewrite Eb' at 1. by rewrite <- !app_assoc.
  - cbn [take]. change (heads_len ((d, e) :: take i parts)) with (head_len (d, e) + heads_len (take i parts))%nat. rewrite <- Hh.
    replace (length H + (length h + heads_len (take i parts)))%nat with (length (H ++ h) + heads_len (take i parts))%nat
      by (rewrite length_app; lia).
    eapply (IH _ (T ++ tail_of (d, e)) (base + length (tail_of (d, e)))%nat _ rest); [|rewrite !length_app; lia|done].
    rewrite Eb' at 1. by rewrite <- !app_assoc.
Qed.

Lemma layout_stored b o parts i q :
  at_pos b o (layout parts) -> parts !! i = Some q -> stored (drop o b) (heads_len (take i parts)) q.
Proof.
  intros [rest E] Hi. rewrite layout_running in E.
  apply (stored_parts parts [] [] (heads_len parts) _ rest); [|cbn; lia|done]. by rewrite E, <- app_assoc.
Qed.

(** ** Sizes of encodings *)

Lemma heads_len_cons q parts : heads_len (q :: parts) = (head_len q + heads_len parts)%nat.
Proof. done. Qed.

Lemma tails_static parts : Forall (fun q : part => fst q = false) parts -> tails parts = [].
Proof. induction 1 as [|[d e] parts Hd _ IH]; [done|]. cbn in Hd. subst d. exact IH. Qed.

Section Round.
Context `{run : !GoRuntime, eth : !EthBytes, laws : !EthBytesLaws}.

Definition elem_parts (e : Ty) (vs : list value) : list part := map (fun x => (isDynamicType e, enc e x)) vs.
Definition comp_parts (comps : list (gostr * gostr * Ty)) (vs : list value) : list part :=
  zip_with (fun c x => (isDynamicType (snd c), enc (snd c) x)) comps vs.

Definition head_size (t : Ty) : Prop :=
  type_ok t -> forall v, has_type t v -> Z.of_nat (head_len (isDynamicType t, enc t v)) = type_size t.

Lemma elem_heads_len e vs : head_size e -> type_ok e -> Forall (has_type e) vs ->
  Z.of_nat (heads_len (elem_parts e vs)) = Z.of_nat (length vs) * type_size e.
Proof.
  intros He Hok. induction 1 as [|v vs Hv _ IH]; [done|]. cbn [elem_parts map]. rewrite heads_len_cons, Nat2Z.inj_add.
  rewrite He by done. cbn [length]. unfold elem_parts in IH. lia.
Qed.

Lemma comp_heads_len comps vs :
  Forall (fun c => head_size (snd c)) comps -> Forall (fun c => type_ok (snd c)) comps ->
  Forall2 (fun c v => has_type (snd c) v) comps vs ->
  Z.of_nat (heads_len (comp_parts comps vs)) = zsum (type_size <$> (comp_type <$> comps)).
Proof.
  intros Hc Hok Hvs. induction Hvs as [|c v comps vs Hv _ IH]; [done|].
  apply Forall_cons in Hc as [Hc0 Hc], Hok as [Hok0 Hok]. cbn [comp_parts zip_with]. rewrite heads_len_cons, Nat2Z.inj_add.
  rewrite Hc0 by done. unfold comp_parts in IH. rewrite IH by done. done.
Qed.

Lemma items_zip comps vs : length comps = length vs ->
  items (VStruct (zip_with (fun c v => (comp_field c, None, v)) comps vs)) = vs.
Proof.
  cbn [items]. revert vs. induction comps as [|c comps IH]; intros [|v vs] H; try done. cbn. f_equal. apply IH. by injection H.
Qed.

Lemma raw_bytes_array bs : byte_value <$> bytes_value bs = bs.
Proof. unfold bytes_value. rewrite <- list_fmap_compose. apply list_fmap_id. Qed.

Lemma head_size_leaf t : isDynamicType t = false -> type_size t = 32 ->
  (type_ok t -> forall v, has_type t v -> length (enc t v) = 32%nat) -> head_size t.
Proof. intros Hd Hs H Ht v Hv. unfold head_len. rewrite Hd, Hs. cbn [fst snd]. by rewrite H. Qed.

Lemma head_size_dynamic t : isDynamicType t = true -> type_size t = 32 -> head_size t.
Proof. intros Hd Hs _ v _. unfold head_len. by rewrite Hd, Hs. Qed.

(** The head of an element takes the space that [getTypeSize] says. *)
Lemma head_size_ok t : head_size t.
Proof.
  type_cases t; try (by apply head_size_dynamic); try (by intros Hok; inversion Hok);
    try (apply head_size_leaf; [done|done|]; intros Hok v Hv; inversion Hv; subst; cbn [enc]);
    try apply length_word; try (rewrite length_app, length_replicate; cbn [raw_bytes]; rewrite ?raw_bytes_array; try lia).
  - by destruct b; apply length_word.
  - intros Hok v Hv. inversion Hok as [| | | | | | | | |? ? Hn Hs He|]; inversion Hv as [| | | | | | | | |? ? ? vs Hg Hlen Hvs|]; subst.
    destruct (isDynamicType e) eqn:Ed; cbn [type_size isDynamicType]; rewrite Ed; [done|]. unfold head_len. cbn [fst snd enc items].
    fold (elem_parts e vs). rewrite length_layout, tails_static; [|by apply Forall_map, Forall_true].
    rewrite Nat.add_0_r. by apply elem_heads_len.
  - intros Hok v Hv. inversion Hok as [| | | | | | | | | |? ? Hne Hs Hc]; inversion Hv as [| | | | | | | | | |? ? vs Hvs]; subst.
    destruct (isDynamicType (TupleTy raw comps)) eqn:Ed; cbn [type_size]; rewrite Ed; [done|]. unfold head_len.
    cbn [fst snd enc]. rewrite items_zip by by eapply Forall2_length.
    fold (comp_parts comps vs). rewrite length_layout, tails_static.
    + rewrite Nat.add_0_r, comp_heads_len by done. by rewrite <- list_fmap_compose.
    + unfold comp_parts. clear -Ed. revert vs Ed. cbn [isDynamicType]. induction comps as [|c comps IH]; intros [|v vs] Ed; try by constructor.
      cbn in Ed. apply orb_false_iff in Ed as [E0 E]. cbn. constructor; [done|by apply IH].
  - inversion Hok. lia.
Qed.

(** ** Packing gives the encoding *)

Lemma pack_int_word n : pack_int n = word n.
Proof. apply U256Bytes_word. Qed.

Lemma pack_heads_layout parts : forall base ret tail,
  Z.of_nat (base + length (tails parts)) < 2 ^ 63 ->
  pack_heads (map (fun q : part => (fst q, Ret (snd q))) parts) (Z.of_nat base) ret tail
  = Ret (ret ++ heads_from base parts ++ tail ++ tails parts).
Proof.
  induction parts as [|[d e] parts IH]; intros base ret tail Hl; [cbn; by rewrite !app_nil_r|].
  change (tails ((d, e) :: parts)) with (tail_of (d, e) ++ tails parts) in *. rewrite length_app in Hl.
  cbn [map pack_heads fst snd mbind outcome_bind]. destruct d; cbn [tail_of fst snd] in *.
  - rewrite <- Nat2Z.inj_add, i64_small by lia. rewrite IH by lia. cbn [heads_from]. rewrite pack_int_word. by rewrite <- !app_assoc.
  - rewrite IH by (cbn in *; lia). cbn [heads_from app]. by rewrite <- !app_assoc.
Qed.

Lemma pack_elems_heads (f : value -> res (list Z)) (dynamic : bool) vs : forall offset ret tail,
  pack_elems f dynamic vs offset ret tail = pack_heads (map (fun v => (dynamic, f v)) vs) offset ret tail.
Proof.
  induction vs as [|v vs IH]; intros offset ret tail; [done|]. cbn [pack_elems map pack_heads].
  destruct (f v); [|done|done]. cbn [mbind outcome_bind]. destruct dynamic; cbn; apply IH.
Qed.

(** The position does not matter when nothing is dynamic. *)
Lemma pack_heads_static ps : Forall (fun q : bool * res (list Z) => fst q = false) ps ->
  forall o o' ret tail, pack_heads ps o ret tail = pack_heads ps o' ret tail.
Proof.
  induction 1 as [|[d r] ps Hd _ IH]; intros o o' ret tail; [done|]. cbn in Hd. subst d. cbn [pack_heads].
  destruct r; [|done|done]. apply IH.
Qed.

Lemma indirect_typed t v : has_type t v -> indirect v = Ret v.
Proof. destruct 1; try done; unfold int_value; by repeat case_match. Qed.

Lemma has_type_kind t v g : has_type t v -> GetType t = Ret g -> value_kind v = kind_of g.
Proof.
  intros Hv Hg. rewrite <- (has_type_type_of t v g Hv Hg). destruct Hv; try done; unfold int_value; by repeat case_match.
Qed.

Lemma elem_kind_ok e g : GetType e = Ret g -> elem_kind_check e g = Ret tt.
Proof. intros Hg. unfold elem_kind_check. rewrite Hg. cbn [mbind outcome_bind]. by rewrite decide_True. Qed.

Lemma sliceTypeCheck_ok t : forall v,
  has_type t v -> match t with SliceTy _ | ArrayTy _ _ => True | _ => False end -> sliceTypeCheck t v = Ret tt.
Proof.
  type_cases t; intros v Hv Hs; try done; clear Hs.
  - inversion Hv as [| | | | | | | |? g vs Hg Hvs| |]; subst. cbn [sliceTypeCheck elements].
    destruct e; try (by apply elem_kind_ok); destruct Hvs; try (by apply elem_kind_ok); by apply IH.
  - inversion Hv as [| | | | | | | | |? ? g vs Hg Hlen Hvs|]; subst. cbn [sliceTypeCheck elements]. rewrite Z.eqb_refl. cbn [negb].
    destruct e; try (by apply elem_kind_ok); destruct Hvs; try (by apply elem_kind_ok); by apply IH.
Qed.

Lemma typeCheck_ok t v g : has_type t v -> GetType t = Ret g -> typeCheck t v = Ret tt.
Proof.
  intros Hv Hg. pose proof (has_type_kind t v g Hv Hg) as Hk. unfold typeCheck.
  destruct t; try (by apply sliceTypeCheck_ok); rewrite Hg; cbn [mbind outcome_bind]; rewrite decide_True by done; try done.
  inversion Hv; subst. cbn [elements]. unfold bytes_value. by rewrite length_fmap, Z.eqb_refl.
Qed.

(** ** The fields of a tuple *)

Lemma first_round_no_tags args fields a2s s2a :
  Forall (fun f : gostr * option gostr * value => snd (fst f) = None) fields -> first_round args fields a2s s2a = Ret (a2s, s2a).
Proof.
  induction 1 as [|[[f tag] v] fields Hf _ IH]; [done|]. cbn in Hf. subst tag. cbn [first_round]. rewrite IH. by destruct (exported f).
Qed.

Lemma unset_insert (m : gmap gostr gostr) k k' x : k <> k' -> unset_at (<[k := x]> m) k' = unset_at m k'.
Proof. intros H. unfold unset_at, str_at. by rewrite lookup_insert_ne. Qed.

Lemma second_round_pairs args v : forall a2s s2a,
  Forall (fun a => ToCamelCase a <> [] /\ is_Some (FieldByName v (ToCamelCase a))) args -> NoDup (ToCamelCase <$> args) ->
  Forall (fun a => unset_at a2s a = true /\ unset_at s2a (ToCamelCase a) = true) args ->
  exists fm, second_round args v a2s s2a = Ret fm /\ (forall a, a ∈ args -> str_at fm a = ToCamelCase a) /\
    (forall a, a ∉ args -> str_at fm a = str_at a2s a).
Proof.
  induction args as [|a args IH]; intros a2s s2a Hf Hnd Hu.
  { exists a2s. split; [done|]. split; [|done]. intros a Ha. by apply not_elem_of_nil in Ha. }
  apply Forall_cons in Hf as [[Hne Hv] Hf], Hu as [[Hu1 Hu2] Hu]. cbn in Hnd. apply NoDup_cons in Hnd as [Hni Hnd].
  assert (Hna : a ∉ args) by (intros Hin; apply Hni; by apply list_elem_of_fmap_2).
  cbn [second_round]. rewrite bool_decide_false by done. rewrite Hu1, Hu2. cbn [negb]. rewrite bool_decide_true by done.
  destruct (IH (<[a := ToCamelCase a]> a2s) (<[ToCamelCase a := a]> s2a) Hf Hnd) as (fm & E & Hin & Hout).
  { rewrite Forall_forall in *. intros a' Ha'. destruct (Hu a' Ha'). split; rewrite unset_insert; try done; intros Heq.
    - by subst a'.
    - apply Hni. rewrite Heq. by apply list_elem_of_fmap_2. }
  exists fm. split; [done|]. split.
  - intros a' [->|Ha']%elem_of_cons; [|by apply Hin]. rewrite Hout by done. unfold str_at. by rewrite lookup_insert_eq.
  - intros a' Ha'. apply not_elem_of_cons in Ha' as [Hne' Ha']. rewrite Hout by done. unfold str_at. by rewrite lookup_insert_ne.
Qed.

Definition tuple_value (comps : list (gostr * gostr * Ty)) (vs : list value) : value :=
  VStruct (zip_with (fun c v => (comp_field c, None, v)) comps vs).

Lemma FieldByName_tuple comps vs i c v :
  NoDup (comp_field <$> comps) -> comps !! i = Some c -> vs !! i = Some v ->
  FieldByName (tuple_value comps vs) (comp_field c) = Some v.
Proof.
  unfold FieldByName, tuple_value. cbn [struct_fields].
  revert vs i. induction comps as [|c0 comps IH]; intros vs i Hnd Hc Hv; [done|]. destruct vs as [|v0 vs]; [done|].
  cbn in Hnd. apply NoDup_cons in Hnd as [Hni Hnd]. cbn [zip_with List.find fst].
  destruct i as [|i]; cbn in Hc, Hv.
  - injection Hc as ->. injection Hv as ->. by rewrite bool_decide_true.
  - rewrite bool_decide_false; [by eapply IH|]. intros E. apply Hni. rewrite E. apply list_elem_of_fmap_2.
    by apply list_elem_of_lookup_2 in Hc.
Qed.

(** The names of a well-formed tuple are mapped to its fields. *)
Lemma tuple_fieldmap raw comps vs :
  names_ok (TupleTy raw comps) -> length comps = length vs ->
  exists fm, mapArgNamesToStructFields (comp_raw <$> comps) (tuple_value comps vs) = Ret fm /\
    forall i c v, comps !! i = Some c -> vs !! i = Some v -> field_of (tuple_value comps vs) fm (comp_raw c) = Ret v.
Proof.
  intros Hn Hlen. inversion_clear Hn as [|  | |? ? Hf Hnd _]; [done|].
  assert (Hcamel : ToCamelCase <$> (comp_raw <$> comps) = comp_field <$> comps).
  { rewrite <- list_fmap_compose. apply list_fmap_ext. intros i c Hi. eapply Forall_lookup_1 in Hf; [|done]. cbn. symmetry. apply Hf. }
  assert (Htags : Forall (fun f => snd (fst f) = None) (struct_fields (tuple_value comps vs))).
  { cbn. clear. revert vs. induction comps as [|c comps IH]; intros [|v vs]; constructor; [done|apply IH]. }
  destruct (second_round_pairs (comp_raw <$> comps) (tuple_value comps vs) ∅ ∅) as (fm & E & Hfm & _).
  - rewrite Forall_fmap, Forall_forall. intros c Hc. rewrite Forall_forall in Hf. destruct (Hf c Hc) as [Ec Hne]. unfold compose.
    rewrite <- Ec. split; [done|]. apply list_elem_of_lookup_1 in Hc as [i Hi].
    destruct (lookup_lt_is_Some_2 vs i) as [v Hv]; [rewrite <- Hlen; by eapply lookup_lt_Some|].
    exists v. by eapply FieldByName_tuple.
  - by rewrite Hcamel.
  - rewrite Forall_forall. intros a _. unfold unset_at, str_at. by rewrite !lookup_empty.
  - exists fm. unfold mapArgNamesToStructFields. rewrite first_round_no_tags by done. cbn [mbind outcome_bind]. split; [done|].
    intros i c v Hc Hv. unfold field_of. rewrite Hfm by (apply list_elem_of_fmap_2; by apply list_elem_of_lookup_2 in Hc).
    eapply Forall_lookup_1 in Hf as [Ec _]; [|done]. rewrite <- Ec. by erewrite FieldByName_tuple.
Qed.

(** ** Leaves *)

Lemma mustArray_bytes bs g : is_bytes g = true -> mustArrayToByteSlice (VArray g (bytes_value bs)) = Ret bs.
Proof.
  intros Hg. unfold mustArrayToByteSlice. cbn [elements]. rewrite Hg. induction bs as [|b bs IH]; [done|].
  cbn [bytes_value fmap list_fmap bytes_of byte_of mbind outcome_bind]. unfold bytes_value in IH. by rewrite IH.
Qed.

Lemma bytes_of_value bs : bytes_of (bytes_value bs) = Ret bs.
Proof. exact (mustArray_bytes bs (GUint 8) eq_refl). Qed.

Lemma packBytes_enc bs :
  packBytesSlice bs (Z.of_nat (length bs)) = word (Z.of_nat (length bs)) ++ pad_words bs.
Proof.
  unfold packBytesSlice, pad_words. rewrite pack_int_word, RightPad_zeros. rewrite Z.quot_div_nonneg by lia. done.
Qed.

Lemma leaf_enc t v g : type_ok t -> has_type t v -> GetType t = Ret g ->
  match t with SliceTy _ | ArrayTy _ _ | TupleTy _ _ => False | _ => True end -> pack t v = Ret (enc t v).
Proof.
  intros Ht Hv Hg Hleaf.
  assert (E : pack t v = packElement t v).
  { destruct t; try done; cbn [pack]; rewrite (indirect_typed _ _ Hv); cbn [mbind outcome_bind]; by rewrite (typeCheck_ok _ _ _ Hv Hg). }
  rewrite E. destruct Hv; try done; cbn [packElement enc raw_bytes].
  - unfold int_value. repeat case_match; cbn [packNum number]; by rewrite U256Bytes_word.
  - unfold int_value. repeat case_match; cbn [packNum number]; by rewrite U256Bytes_word.
  - rewrite PaddedBig_word by (destruct b; lia). unfold word. by destruct b.
  - by rewrite packBytes_enc.
  - unfold mustArrayToByteSlice. cbn [elements is_bytes]. rewrite bytes_of_value. cbn [mbind outcome_bind]. rewrite LeftPad_zeros.
    change (Z.to_nat 32) with 32%nat. by rewrite H.
  - rewrite mustArray_bytes by done. cbn [mbind outcome_bind]. by rewrite RightPad_zeros, raw_bytes_array.
  - rewrite bytes_of_value. cbn [mbind outcome_bind is_bytes]. by rewrite packBytes_enc, raw_bytes_array.
  - rewrite mustArray_bytes by done. cbn [mbind outcome_bind]. by rewrite RightPad_zeros, raw_bytes_array.
Qed.

(** ** Composite types *)

Lemma part_le_layout parts q : q ∈ parts -> (length (snd q) <= length (layout parts))%nat.
Proof.
  rewrite length_layout. induction parts as [|[d e] parts IH]; [by intros H%not_elem_of_nil|].
  change (tails ((d, e) :: parts)) with (tail_of (d, e) ++ tails parts). rewrite length_app, heads_len_cons.
  intros [->|Hq]%elem_of_cons; [|specialize (IH Hq); lia]. destruct d; cbn; lia.
Qed.

Lemma pack_parts parts offset ret :
  Z.of_nat (length (layout parts)) < max_size ->
  offset = Z.of_nat (heads_len parts) \/ Forall (fun q : part => fst q = false) parts ->
  pack_heads (map (fun q : part => (fst q, Ret (snd q))) parts) offset ret [] = Ret (ret ++ layout parts).
Proof.
  intros Hl Ho. rewrite length_layout in Hl. unfold max_size in Hl.
  assert (E : pack_heads (map (fun q : part => (fst q, Ret (snd q))) parts) offset ret []
    = pack_heads (map (fun q : part => (fst q, Ret (snd q))) parts) (Z.of_nat (heads_len parts)) ret []).
  { destruct Ho as [->|Hs]; [done|]. apply pack_heads_static. rewrite Forall_map. by eapply Forall_impl. }
  rewrite E, pack_heads_layout by lia. by rewrite layout_running.
Qed.

Lemma pack_elems_enc e vs ret :
  type_ok e -> Forall (has_type e) vs -> Z.of_nat (length (layout (elem_parts e vs))) < max_size ->
  (forall v, has_type e v -> Z.of_nat (length (enc e v)) < max_size -> pack e v = Ret (enc e v)) ->
  pack_elems (pack e) (isDynamicType e) vs
    (if isDynamicType e then i64 (getTypeSize e * Z.of_nat (length vs)) else 0) ret [] = Ret (ret ++ layout (elem_parts e vs)).
Proof.
  intros He Hvs Hl IH. rewrite pack_elems_heads.
  assert (E : map (fun v => (isDynamicType e, pack e v)) vs = map (fun q : part => (fst q, Ret (snd q))) (elem_parts e vs)).
  { unfold elem_parts. rewrite map_map. apply map_ext_Forall. rewrite Forall_forall in *. intros v Hv. cbn. rewrite IH; [done|by apply Hvs|].
    pose proof (part_le_layout (elem_parts e vs) (isDynamicType e, enc e v)) as H. cbn [snd] in H. unfold max_size in *.
    specialize (H ltac:(unfold elem_parts; change (map ?f vs) with (f <$> vs); apply (list_elem_of_fmap_2 (fun x => (isDynamicType e, enc e x))), Hv)). lia. }
  rewrite E. apply pack_parts; [done|]. destruct (isDynamicType e) eqn:Ed; [left|right].
  - pose proof (elem_heads_len e vs (head_size_ok e) He Hvs) as Hh. rewrite length_layout in Hl. unfold max_size in Hl.
    rewrite getTypeSize_eq, (Z.mul_comm (type_size e)), <- Hh, i64_small by (done || lia). done.
  - unfold elem_parts. rewrite Ed. by apply Forall_map, Forall_true.
Qed.

Lemma comp_le_layout comps vs i c x : comps !! i = Some c -> vs !! i = Some x ->
  (length (enc (snd c) x) <= length (layout (comp_parts comps vs)))%nat.
Proof.
  intros Hc Hx. apply (part_le_layout (comp_parts comps vs) (isDynamicType (snd c), enc (snd c) x)).
  apply (list_elem_of_lookup_2 _ i). unfold comp_parts. rewrite lookup_zip_with, Hc. cbn. by rewrite Hx.
Qed.

Lemma comp_parts_pack comps vs fm :
  Forall2 (fun c v => has_type (snd c) v) comps vs ->
  (forall i c v, comps !! i = Some c -> vs !! i = Some v -> field_of (tuple_value comps vs) fm (comp_raw c) = Ret v) ->
  (forall i c v, comps !! i = Some c -> vs !! i = Some v -> pack (snd c) v = Ret (enc (snd c) v)) ->
  map (fun c => (isDynamicType (snd c), field ← field_of (tuple_value comps vs) fm (comp_raw c); pack (snd c) field)) comps
  = map (fun q : part => (fst q, Ret (snd q))) (comp_parts comps vs).
Proof.
  intros Hvs Hfield Hpack. generalize (tuple_value comps vs) as v, Hfield. clear Hfield. intros v Hfield.
  induction Hvs as [|c x comps vs Hx _ IH]; [done|]. cbn [map comp_parts zip_with fst snd]. f_equal.
  - rewrite (Hfield 0%nat c x) by done. cbn [mbind outcome_bind]. by rewrite (Hpack 0%nat c x).
  - apply IH; intros i c' x' Hc Hv; [by apply (Hpack (S i))|by apply (Hfield (S i))].
Qed.

(** [pack] is the encoding of the contract ABI. *)
Lemma pack_enc t : forall v g,
  type_ok t -> names_ok t -> GetType t = Ret g -> has_type t v -> Z.of_nat (length (enc t v)) < max_size -> pack t v = Ret (enc t v).
Proof.
  type_cases t; intros v g Ht Hn Hg Hv Hl; try (by eapply leaf_enc); cbn [pack]; rewrite (indirect_typed _ _ Hv); cbn [mbind outcome_bind];
    rewrite (typeCheck_ok _ _ _ Hv Hg); cbn [mbind outcome_bind].
  - inversion Ht; inversion Hn; inversion Hv as [| | | | | | | |? ge vs Hge Hvs| |]; subst; [done|]. cbn [elements requiresLengthPrefix enc items] in *.
    rewrite length_app in Hl. unfold max_size in *. fold (elem_parts e vs) in *.
    rewrite pack_elems_enc; [by rewrite pack_int_word|done|done|unfold max_size; lia|intros; by eapply IH].
  - inversion Ht; inversion Hn; inversion Hv as [| | | | | | | | |? ? ge vs Hge Hlen Hvs|]; subst; [done|].
    cbn [elements requiresLengthPrefix enc items] in *. fold (elem_parts e vs) in *.
    rewrite pack_elems_enc; [done..|intros; by eapply IH].
  - inversion Ht as [| | | | | | | | | |? ? Hne Hs Hc]; inversion Hv as [| | | | | | | | | |? ? vs Hvs]; subst.
    pose proof (Forall2_length _ _ _ Hvs) as Hlen. fold (tuple_value comps vs) in *.
    destruct (tuple_fieldmap raw comps vs Hn Hlen) as (fm & -> & Hfield). cbn [mbind outcome_bind]. cbn [enc] in *.
    unfold tuple_value in Hl at 1 |- * at 2. rewrite items_zip in * by done. fold (comp_parts comps vs) in *.
    destruct (GetType_tuple _ _ _ Hg) as (gs & Hgs & _).
    assert (Hpack : forall i c x, comps !! i = Some c -> vs !! i = Some x -> pack (snd c) x = Ret (enc (snd c) x)).
    { intros i c x Hci Hxi. destruct (Forall2_lookup_l _ _ _ _ _ Hgs Hci) as (ge & _ & Hge).
      inversion_clear Hn as [| | |? ? _ _ Hnames]; [done|]. rewrite Forall_lookup in IH, Hc, Hnames.
      pose proof (comp_le_layout comps vs i c x Hci Hxi). eapply IH; eauto; [|unfold max_size in *; lia].
      exact (Forall2_lookup_lr _ _ _ _ _ _ Hvs Hci Hxi). }
    rewrite (comp_parts_pack comps vs fm Hvs Hfield Hpack).
    apply pack_parts; [done|left]. rewrite sum_sizes_eq by (by rewrite ?Forall_fmap).
    rewrite comp_heads_len; [done| |done|done]. apply Forall_forall. intros c _. apply head_size_ok.
Qed.

(** ** Reading gives the value back *)

Lemma be_int_word n : be_int (word n) = n mod 2 ^ 256.
Proof. unfold word. rewrite be_int_be_bytes by (apply Z.mod_pos_bound; lia). done. Qed.

Lemma read_word b p w : at_pos (vis b) p w -> length w = 32%nat ->
  Z.of_nat p + 32 <= buf_len b /\ exists h, reslice (E := abi_error) b (Z.of_nat p) (Z.of_nat p + 32) = Ret (mk_buf w h).
Proof.
  intros Hp Hw. pose proof (at_pos_length _ _ _ Hp ltac:(by destruct w)) as Hl. unfold buf_len. split; [lia|].
  rewrite reslice_in by (unfold buf_len; lia). eexists. repeat f_equal.
  replace (Z.to_nat (Z.of_nat p + 32 - Z.of_nat p)) with (length w) by lia. rewrite Nat2Z.id. by apply at_pos_take.
Qed.

Lemma word_suffix n k z : (n + k = 32)%nat -> be_int (drop k (word z)) = (z mod 2 ^ 256) mod 256 ^ Z.of_nat n.
Proof. intros H. unfold word. rewrite <- H, be_bytes_suffix. apply be_int_be_bytes_mod. Qed.

Lemma mod_mod_smaller z a b : 0 <= a <= b -> (z mod 2 ^ b) mod 2 ^ a = z mod 2 ^ a.
Proof.
  intros H. replace (2 ^ b) with (2 ^ a * 2 ^ (b - a)) by (rewrite <- Z.pow_add_r by lia; f_equal; lia).
  rewrite Z.rem_mul_r by (apply Z.pow_nonzero || apply Z.pow_pos_nonneg; lia).
  rewrite (Z.mul_comm (2 ^ a)), Z.mod_add by (apply Z.pow_nonzero; lia). apply Z.mod_mod, Z.pow_nonzero; lia.
Qed.

Lemma to_signed_mod w z : 0 < w -> - 2 ^ (w - 1) <= z < 2 ^ (w - 1) -> to_signed w (z mod 2 ^ w) = z.
Proof.
  intros Hw Hz. assert (E : 2 ^ w = 2 * 2 ^ (w - 1)) by (rewrite <- Z.pow_succ_r by lia; f_equal; lia).
  unfold to_signed. destruct (decide (0 <= z)).
  - rewrite Z.mod_small by lia. destruct (Z.ltb_spec z (2 ^ (w - 1))); lia.
  - replace (z mod 2 ^ w) with (z + 2 ^ w) by (apply (Z.mod_unique_pos _ _ (-1)); lia).
    destruct (Z.ltb_spec (z + 2 ^ w) (2 ^ (w - 1))); lia.
Qed.

Lemma ReadInteger_word (u : bool) size z h : int_range u size z ->
  ReadInteger (if u then UintTy size else IntTy size) (mk_buf (word z) h) = Ret (int_value u size z).
Proof.
  intros Hz. unfold ReadInteger, int_value, int_range, int_bits in *. destruct (fixed_width size) eqn:Ef.
  - assert (Hread : read_last (size / 8) (mk_buf (word z) h) = Ret (z mod 2 ^ size)).
    { destruct (fixed_width_cases size Ef) as [->|[->|[->| ->]]]; (rewrite read_last_word by (apply length_word || done); cbn [vis]).
      - rewrite (word_suffix 1 (Z.to_nat (32 - 8 / 8)) z eq_refl). f_equal. by apply (mod_mod_smaller z 8).
      - rewrite (word_suffix 2 (Z.to_nat (32 - 16 / 8)) z eq_refl). f_equal. by apply (mod_mod_smaller z 16).
      - rewrite (word_suffix 4 (Z.to_nat (32 - 32 / 8)) z eq_refl). f_equal. by apply (mod_mod_smaller z 32).
      - rewrite (word_suffix 8 (Z.to_nat (32 - 64 / 8)) z eq_refl). f_equal. by apply (mod_mod_smaller z 64). }
    destruct (fixed_width_cases size Ef) as [->|[->|[->| ->]]]; destruct u; cbn [ty_Size]; rewrite ?Ef, Hread; cbn [mbind outcome_bind];
      rewrite ?Z.mod_small by done; rewrite ?to_signed_mod by done; done.
  - destruct u; cbn [ty_Size]; rewrite Ef; cbn [vis]; rewrite be_int_word.
    + by rewrite Z.mod_small.
    + pose proof (Z.mod_pos_bound z (2 ^ 256) ltac:(lia)). rewrite testbit_top by done. do 3 f_equal.
      pose proof (to_signed_mod 256 z ltac:(lia) Hz) as E. unfold to_signed in E. unfold MaxUint256. change (256 - 1) with 255 in E.
      destruct (Z.ltb_spec (z mod 2 ^ 256) (2 ^ 255)); destruct (Z.leb_spec (2 ^ 255) (z mod 2 ^ 256)); lia.
Qed.

Lemma readBool_word (c : bool) h : readBool (mk_buf (if c then word 1 else word 0) h) = Ret c.
Proof.
  unfold readBool. destruct c; (rewrite reslice_in by (unfold buf_len; cbn [vis]; rewrite ?length_word; lia)); reflexivity.
Qed.

Lemma padded_word bs h n : Z.of_nat (length bs) = n -> n <= 32 ->
  exists h', reslice (E := abi_error) (mk_buf (bs ++ replicate (32 - length bs) 0) h) 0 n = Ret (mk_buf bs h').
Proof.
  intros Hn H32. rewrite reslice_in by (unfold buf_len; cbn [vis]; rewrite ?length_app, ?length_replicate; lia). eexists.
  cbn [vis]. repeat f_equal. rewrite drop_0. replace (Z.to_nat (n - 0)) with (length bs) by lia. apply take_app_length.
Qed.

(** The leaves that take one word. *)
Lemma leaf_word_decode t v g b p :
  type_ok t -> GetType t = Ret g -> has_type t v -> isDynamicType t = false ->
  match t with SliceTy _ | ArrayTy _ _ | TupleTy _ _ => False | _ => True end ->
  buf_len b < max_size -> at_pos (vis b) p (enc t v) -> toGoType (Z.of_nat p) t b = Ret v.
Proof.
  intros Ht Hg Hv Hd Hleaf Hb Hp.
  assert (Hw : length (enc t v) = 32%nat).
  { pose proof (head_size_ok t Ht v Hv) as H. unfold head_len in H. rewrite Hd in H. cbn [fst snd] in H.
    assert (type_size t = 32) by (by destruct t). lia. }
  destruct (read_word b p _ Hp Hw) as (Hl & h & E). unfold max_size in Hb.
  destruct Hv; try done; cbn [toGoType requiresLengthPrefix]; rewrite i64_small by lia; rewrite (proj2 (Z.ltb_ge _ _)) by lia;
    cbn [mbind outcome_bind]; rewrite E; cbn [mbind outcome_bind enc vis raw_bytes].
  - unfold int_value. by repeat case_match; cbn [number]; rewrite (ReadInteger_word false); unfold int_value; repeat case_match.
  - unfold int_value. by repeat case_match; cbn [number]; rewrite (ReadInteger_word true); unfold int_value; repeat case_match.
  - replace (match b0 with true => word 1 | false => word 0 end) with (if b0 then word 1 else word 0) by (by destruct b0).
    by rewrite readBool_word.
  - rewrite BytesToAddress_crop. rewrite length_app, length_replicate, H. change (12 + 20 - 20)%nat with 12%nat.
    rewrite drop_app_length' by by rewrite length_replicate. rewrite <- H. by rewrite be_bytes_be_int.
  - inversion Ht. unfold ReadFixedBytes. rewrite Hg. cbn [mbind outcome_bind]. rewrite raw_bytes_array.
    destruct (padded_word bs h n H) as (h' & ->); [lia|]. done.
  - rewrite raw_bytes_array. unfold readFunctionType. destruct (padded_word bs h 24 ltac:(lia) ltac:(lia)) as (h' & E').
    rewrite (reslice_in _ 24 32) by (unfold buf_len; cbn [vis]; rewrite ?length_app, ?length_replicate; lia). cbn [mbind outcome_bind vis].
    rewrite H, drop_app_length' by done. change (take (Z.to_nat (32 - 24)) (replicate (32 - 24) 0)) with (replicate 8 0).
    rewrite H in E'. rewrite E'. done.
Qed.

Lemma bit_len_le_63 z : 0 <= z < 2 ^ 63 -> (63 <? bit_len z) = false.
Proof. intros Hz. apply Z.ltb_ge. by apply bit_len_le. Qed.

Lemma be_int_small_word z : 0 <= z < 2 ^ 63 -> be_int (word z) = z.
Proof. intros Hz. rewrite be_int_word. apply Z.mod_small. lia. Qed.

(** The position and the length of a value with a length prefix. *)
Lemma prefix_points b p o n rest : buf_len b < max_size ->
  at_pos (vis b) p (word (Z.of_nat o)) -> at_pos (vis b) o (word (Z.of_nat n) ++ rest) -> (n <= length rest)%nat ->
  Z.of_nat p + 32 <= buf_len b /\ Z.of_nat o + 32 + Z.of_nat (length rest) <= buf_len b /\
  lengthPrefixPointsTo (Z.of_nat p) b = Ret (Z.of_nat o + 32, Z.of_nat n).
Proof.
  intros Hb Hp Ho Hn. destruct (read_word b p _ Hp (length_word _)) as (Hl & h & E).
  pose proof (at_pos_length _ _ _ Ho) as Hlen. rewrite length_app, length_word in Hlen.
  specialize (Hlen ltac:(intros Hnil; apply (f_equal length) in Hnil; rewrite length_app, length_word in Hnil; cbn in Hnil; lia)).
  destruct (at_pos_app _ _ _ _ Ho) as [Ho1 _]. destruct (read_word b o _ Ho1 (length_word _)) as (Hl' & h' & E').
  unfold buf_len, max_size in *. split; [done|]. split; [lia|]. unfold lengthPrefixPointsTo. rewrite E. cbn [mbind outcome_bind vis].
  rewrite be_int_small_word by lia. unfold buf_len. rewrite (proj2 (Z.ltb_ge _ _)) by lia. rewrite bit_len_le_63 by lia.
  replace (Z.of_nat o + 32 - 32) with (Z.of_nat o) by lia. rewrite E'. cbn [mbind outcome_bind vis].
  rewrite be_int_small_word by lia. rewrite bit_len_le_63 by lia. by rewrite (proj2 (Z.ltb_ge _ _)) by lia.
Qed.

Lemma length_pad_words bs : (length bs <= length (pad_words bs))%nat.
Proof. unfold pad_words. rewrite length_app. lia. Qed.

(** Strings and byte slices. *)
Lemma bytes_decode b p bs : buf_len b < max_size ->
  stored (vis b) p (true, word (Z.of_nat (length bs)) ++ pad_words bs) ->
  exists begin h, Z.of_nat p + 32 <= buf_len b /\ lengthPrefixPointsTo (Z.of_nat p) b = Ret (begin, Z.of_nat (length bs)) /\
    reslice (E := abi_error) b begin (begin + Z.of_nat (length bs)) = Ret (mk_buf bs h).
Proof.
  intros Hb (o & Hp & Ho). cbn [snd] in Ho. pose proof (length_pad_words bs) as Hpad.
  destruct (prefix_points b p o (length bs) (pad_words bs) Hb Hp Ho Hpad) as (Hl & Hl' & E).
  exists (Z.of_nat o + 32). eexists. split; [done|]. split; [done|].
  rewrite reslice_in by lia. repeat f_equal. destruct (at_pos_app _ _ _ _ Ho) as [_ H]. rewrite length_word in H.
  unfold pad_words in H. destruct (at_pos_app _ _ _ _ H) as [H1 _].
  replace (Z.to_nat (Z.of_nat o + 32)) with (o + 32)%nat by lia.
  replace (Z.to_nat (Z.of_nat o + 32 + Z.of_nat (length bs) - (Z.of_nat o + 32))) with (length bs) by lia. by apply at_pos_take.
Qed.

(** ** Loops over elements *)

Lemma each_loop_decode e ge b vs : forall base,
  type_ok e -> GetType e = Ret ge -> Forall (has_type e) vs -> 0 <= base -> base + Z.of_nat (length vs) * type_size e < 2 ^ 62 ->
  (forall i x, vs !! i = Some x -> toGoType (base + Z.of_nat i * type_size e) e b = Ret x) ->
  each_loop (fun i => toGoType i e b) ge (getTypeSize e) (length vs) base = Ret vs.
Proof.
  induction vs as [|v vs IH]; intros base He Hge Hvs Hbase Hmax Hread; [done|]. apply Forall_cons in Hvs as [Hv Hvs].
  pose proof (type_size_pos e He). cbn [length] in Hmax. unfold max_size in *.
  pose proof (Hread 0%nat v eq_refl) as H0. replace (base + Z.of_nat 0 * type_size e) with base in H0 by lia.
  cbn [each_loop length]. rewrite H0. cbn [mbind outcome_bind]. rewrite (assign_typed e v ge Hv Hge). cbn [mbind outcome_bind].
  rewrite getTypeSize_eq, i64_small in * by (done || nia).
  specialize (IH (base + type_size e) He Hge Hvs ltac:(lia) ltac:(lia)).
  rewrite IH; [done|]. intros i x Hi. specialize (Hread (S i) x Hi).
  by replace (base + type_size e + Z.of_nat i * type_size e) with (base + Z.of_nat (S i) * type_size e) by lia.
Qed.

Lemma take_elem_parts e vs i : take i (elem_parts e vs) = elem_parts e (take i vs).
Proof. unfold elem_parts. by rewrite firstn_map. Qed.

Lemma elem_pos e vs i x : type_ok e -> Forall (has_type e) vs -> vs !! i = Some x ->
  Z.of_nat (heads_len (take i (elem_parts e vs))) = Z.of_nat i * type_size e.
Proof.
  intros He Hvs Hi. rewrite take_elem_parts, elem_heads_len; [|apply head_size_ok|done|by apply Forall_take].
  rewrite length_take_le; [done|]. apply lookup_lt_Some in Hi. lia.
Qed.

Definition decodes (t : Ty) : Prop := forall v g b p,
  type_ok t -> GetType t = Ret g -> has_type t v -> buf_len b < max_size ->
  stored (vis b) p (isDynamicType t, enc t v) -> toGoType (Z.of_nat p) t b = Ret v.

(** The elements of a sequence whose encoding starts at a position. *)
Lemma forEachUnpack_decode t e ge gt b o vs :
  decodes e -> type_ok e -> GetType e = Ret ge -> GetType t = Ret gt -> Forall (has_type e) vs -> buf_len b < max_size ->
  (o <= length (vis b))%nat -> at_pos (vis b) o (layout (elem_parts e vs)) ->
  t = SliceTy e \/ t = ArrayTy (Z.of_nat (length vs)) e ->
  (out ← from_index b (Z.of_nat o); forEachUnpack t (fun i => toGoType i e out) out 0 (Z.of_nat (length vs)))
  = Ret (match t with SliceTy _ => VSlice ge vs | _ => VArray ge vs end).
Proof.
  intros IH He Hge Hgt Hvs Hb Ho Hpos Ht. rewrite from_index_in by (unfold buf_len; lia). cbn [mbind outcome_bind]. rewrite Nat2Z.id.
  set (b' := mk_buf (drop o (vis b)) (hid b)). assert (Hb' : buf_len b' < max_size) by (unfold buf_len, b' in *; cbn [vis]; rewrite length_drop; lia).
  pose proof (elem_heads_len e vs (head_size_ok e) He Hvs) as Hh. pose proof (type_size_pos e He) as Hs.
  assert (Hlen : Z.of_nat (length vs) * type_size e <= buf_len b').
  { pose proof (at_pos_within _ _ _ Hpos Ho) as Hl. rewrite length_layout in Hl. unfold buf_len, b'. cbn [vis]. rewrite length_drop. lia. }
  assert (Hloop : each_loop (fun i => toGoType i e b') ge (getTypeSize e) (length vs) 0 = Ret vs).
  { unfold max_size in *. apply each_loop_decode; try done; [lia|]. intros i x Hi. rewrite Z.add_0_l, <- (elem_pos e vs i x) by done.
    rewrite Forall_lookup in Hvs. eapply IH; [done|done|by eapply Hvs|done|]. apply layout_stored; [done|].
    unfold elem_parts. by rewrite list_lookup_fmap, Hi. }
  unfold forEachUnpack. rewrite (proj2 (Z.ltb_ge _ _)) by lia. unfold max_size in *.
  assert (0 <= 32 * Z.of_nat (length vs) <= buf_len b') by nia. rewrite (i64_small (32 * _)) by lia. rewrite i64_small by lia.
  rewrite (proj2 (Z.ltb_ge _ _)) by lia. rewrite Nat2Z.id.
  destruct Ht as [-> | ->]; rewrite Hgt; cbn [mbind outcome_bind]; rewrite Hge; cbn [mbind outcome_bind]; by rewrite Hloop.
Qed.

Lemma comp_pos comps vs i c x :
  Forall (fun c => type_ok (snd c)) comps -> Forall2 (fun c v => has_type (snd c) v) comps vs ->
  comps !! i = Some c -> vs !! i = Some x ->
  Z.of_nat (heads_len (take i (comp_parts comps vs))) = zsum (type_size <$> (comp_type <$> take i comps)).
Proof.
  intros Hok Hvs Hc Hx. unfold comp_parts. rewrite zip_with_take. apply comp_heads_len; [|by apply Forall_take|by apply Forall2_take].
  apply Forall_forall. intros c' _. apply head_size_ok.
Qed.

Lemma tuple_fields_decode b comps gs vs :
  Forall2 (fun c ge => GetType (snd c) = Ret ge) comps gs -> Forall (fun c => type_ok (snd c)) comps ->
  Forall2 (fun c v => has_type (snd c) v) comps vs ->
  forall index virtual, 0 <= index + virtual -> 32 * (index + virtual) + zsum (type_size <$> (comp_type <$> comps)) < max_size ->
  (forall i c x, comps !! i = Some c -> vs !! i = Some x ->
     toGoType (32 * (index + virtual) + zsum (type_size <$> (comp_type <$> take i comps))) (snd c) b = Ret x) ->
  tuple_fields (map (fun c => (snd (fst c), snd c, fun i => toGoType i (snd c) b)) comps) index virtual
  = Ret (zip_with (fun c v => (comp_field c, None, v)) comps vs).
Proof.
  intros Hgs Hok Hvs. revert gs Hgs. induction Hvs as [|c v comps vs Hv Hvs IH]; intros gs Hgs index virtual Hpos Hsum Hread; [done|].
  inversion Hgs as [|? ge ? gs' Hge Hgs']; subst. apply Forall_cons in Hok as [Hc Hok]. cbn [fmap list_fmap zsum foldr] in Hsum.
  fold (zsum (type_size <$> (comp_type <$> comps))) in Hsum. change (type_size (comp_type c)) with (type_size (snd c)) in Hsum.
  pose proof (comp_sizes_nonneg _ Hok). pose proof (type_size_pos _ Hc). pose proof (virtual_args_size _ Hc). unfold max_size in *.
  pose proof (Hread 0%nat c v eq_refl eq_refl) as Hr. cbn [take fmap list_fmap zsum foldr] in Hr.
  cbn [map tuple_fields]. rewrite i64_small by lia. replace ((index + virtual) * 32) with (32 * (index + virtual) + 0) by lia.
  rewrite Hr. cbn [mbind outcome_bind]. rewrite Hge. cbn [mbind outcome_bind]. rewrite (assign_typed _ _ _ Hv Hge). cbn [mbind outcome_bind].
  rewrite (IH Hok gs' Hgs' (index + 1) (virtual + virtual_args (snd c))); [done|lia|lia|].
  intros i c' x Hi Hx. specialize (Hread (S i) c' x Hi Hx). cbn [take fmap list_fmap zsum foldr] in Hread.
  fold (zsum (type_size <$> (comp_type <$> take i comps))) in Hread. change (type_size (comp_type c)) with (type_size (snd c)) in Hread.
  rewrite <- Hread. f_equal. lia.
Qed.

(** A tuple whose encoding starts at a position. *)
Lemma forTupleUnpack_decode raw comps g b o vs :
  Forall (fun c => decodes (snd c)) comps -> type_ok (TupleTy raw comps) -> GetType (TupleTy raw comps) = Ret g ->
  Forall2 (fun c v => has_type (snd c) v) comps vs -> buf_len b < max_size ->
  (o <= length (vis b))%nat -> at_pos (vis b) o (layout (comp_parts comps vs)) ->
  (out ← from_index b (Z.of_nat o);
   forTupleUnpack (TupleTy raw comps) (map (fun c => (snd (fst c), snd c, fun i => toGoType i (snd c) out)) comps))
  = Ret (tuple_value comps vs).
Proof.
  intros IH Ht Hg Hvs Hb Ho Hpos. inversion_clear Ht as [| | | | | | | | | |? ? Hne Hs Hc].
  destruct (GetType_tuple _ _ _ Hg) as (gs & Hgs & _).
  rewrite from_index_in by (unfold buf_len; lia). cbn [mbind outcome_bind]. rewrite Nat2Z.id.
  set (b' := mk_buf (drop o (vis b)) (hid b)). assert (Hb' : buf_len b' < max_size) by (unfold buf_len, b' in *; cbn [vis]; rewrite length_drop; lia).
  unfold forTupleUnpack. rewrite Hg. cbn [mbind outcome_bind].
  rewrite (tuple_fields_decode b' comps gs vs Hgs Hc Hvs); [done|lia|lia|].
  intros i c x Hi Hx. rewrite Z.mul_0_r, Z.add_0_l, <- (comp_pos comps vs i c x) by done.
  destruct (Forall2_lookup_l _ _ _ _ _ Hgs Hi) as (ge & _ & Hge). rewrite Forall_lookup in IH, Hc.
  eapply IH; eauto; [exact (Forall2_lookup_lr _ _ _ _ _ _ Hvs Hi Hx)|]. apply layout_stored; [done|].
  unfold comp_parts. rewrite lookup_zip_with, Hi. cbn. by rewrite Hx.
Qed.

Lemma stored_guard b p t v : type_ok t -> has_type t v -> stored b p (isDynamicType t, enc t v) -> (p + 32 <= length b)%nat.
Proof.
  intros Ht Hv Hp. unfold stored in Hp. cbn [fst snd] in Hp. pose proof (head_size_ok t Ht v Hv) as Hh. pose proof (type_size_pos t Ht).
  unfold head_len in Hh. cbn [fst snd] in Hh. destruct (isDynamicType t).
  - destruct Hp as (o & Hp & _). apply at_pos_length in Hp; rewrite ?length_word in *; [done|]. intros E. by apply (f_equal length) in E.
  - apply at_pos_length in Hp; [lia|]. intros E. rewrite E in Hh. cbn in Hh. lia.
Qed.

(** A dynamic array or tuple: the word holds the position. *)
Lemma dynamic_points b p o q : buf_len b < max_size -> at_pos (vis b) p (word (Z.of_nat o)) -> at_pos (vis b) o q -> q <> [] ->
  (o <= length (vis b))%nat /\ tuplePointsTo (Z.of_nat p) b = Ret (Z.of_nat o) /\
  exists w, reslice (E := abi_error) b (Z.of_nat p) (Z.of_nat p + 32) = Ret w /\ read_last 8 w = Ret (Z.of_nat o).
Proof.
  intros Hb Hp Ho Hq. pose proof (at_pos_length _ _ _ Ho Hq) as Hl. unfold buf_len, max_size in Hb.
  destruct (read_word b p _ Hp (length_word _)) as (_ & h & E). split; [lia|]. split.
  - unfold tuplePointsTo. rewrite E. cbn [mbind outcome_bind vis]. rewrite be_int_small_word by lia. unfold buf_len.
    rewrite (proj2 (Z.ltb_ge _ _)) by lia. by rewrite bit_len_le_63 by lia.
  - eexists. split; [done|]. rewrite read_last_word by (apply length_word || done). cbn [vis]. f_equal.
    rewrite (word_suffix 8 (Z.to_nat (32 - 8)) _ eq_refl). rewrite Z.mod_small; rewrite Z.mod_small; lia.
Qed.

Lemma layout_not_nil parts : (0 < heads_len parts)%nat -> layout parts <> [].
Proof. intros H E. apply (f_equal length) in E. rewrite length_layout in E. cbn in E. lia. Qed.

Lemma array_decode n e : decodes e -> decodes (ArrayTy n e).
Proof.
  intros IH v g b p Ht Hg Hv Hb Hp. pose proof (stored_guard _ _ _ _ Ht Hv Hp) as Hguard.
  inversion Ht as [| | | | | | | | |? ? Hn Hs He|]; inversion Hv as [| | | | | | | | |? ? ge vs Hge Hlen Hvs|]; subst.
  cbn [enc items] in Hp. fold (elem_parts e vs) in Hp. unfold buf_len, max_size in Hb.
  cbn [toGoType requiresLengthPrefix]. rewrite i64_small, (proj2 (Z.ltb_ge _ _)) by (unfold buf_len; lia). cbn [mbind outcome_bind].
  unfold stored in Hp. cbn [isDynamicType fst snd] in Hp. destruct (isDynamicType e).
  - destruct Hp as (o & Hp & Ho). pose proof (elem_heads_len e vs (head_size_ok e) He Hvs) as Hh. pose proof (type_size_pos e He).
    destruct (dynamic_points b p o _ ltac:(done) Hp Ho ltac:(apply layout_not_nil; nia)) as (Hol & _ & w & -> & E).
    cbn [mbind outcome_bind]. rewrite E. cbn [mbind outcome_bind]. unfold buf_len. rewrite (proj2 (Z.ltb_ge _ _)), i64_small by lia.
    apply (forEachUnpack_decode (ArrayTy (Z.of_nat (length vs)) e) e ge g b o vs); try done. by right.
  - rewrite reslice_in by (unfold buf_len; lia). cbn [mbind outcome_bind].
    apply (forEachUnpack_decode (ArrayTy (Z.of_nat (length vs)) e) e ge g b p vs); try done; [lia|by right].
Qed.

Lemma tuple_decode raw comps : Forall (fun c => decodes (snd c)) comps -> decodes (TupleTy raw comps).
Proof.
  intros IH v g b p Ht Hg Hv Hb Hp. pose proof (stored_guard _ _ _ _ Ht Hv Hp) as Hguard.
  inversion Hv as [| | | | | | | | | |? ? vs Hvs]; subst. cbn [enc] in Hp. rewrite items_zip in Hp by by eapply Forall2_length.
  fold (comp_parts comps vs) in Hp. fold (tuple_value comps vs) in *. pose proof Hb as Hb'. unfold buf_len, max_size in Hb'.
  assert (Hh : (0 < heads_len (comp_parts comps vs))%nat).
  { inversion_clear Ht as [| | | | | | | | | |? ? Hne Hs Hc]. destruct Hvs as [|c x comps vs Hx Hvs]; [done|]. apply Forall_cons in Hc as [Hc _].
    change (0 < head_len (isDynamicType (snd c), enc (snd c) x) + heads_len (comp_parts comps vs))%nat.
    pose proof (head_size_ok _ Hc _ Hx). pose proof (type_size_pos _ Hc). lia. }
  cbn [toGoType requiresLengthPrefix]. rewrite i64_small, (proj2 (Z.ltb_ge _ _)) by (unfold buf_len; lia). cbn [mbind outcome_bind].
  rewrite reslice_in by (unfold buf_len; lia). cbn [mbind outcome_bind]. unfold stored in Hp. cbn [fst snd] in Hp.
  destruct (isDynamicType (TupleTy raw comps)).
  - destruct Hp as (o & Hp & Ho). destruct (dynamic_points b p o _ Hb Hp Ho (layout_not_nil _ Hh)) as (Hol & -> & _).
    cbn [mbind outcome_bind]. by eapply forTupleUnpack_decode.
  - cbn [mbind outcome_bind]. eapply forTupleUnpack_decode; try done. lia.
Qed.

Lemma slice_decode e : decodes e -> decodes (SliceTy e).
Proof.
  intros IH v g b p Ht Hg Hv Hb Hp. pose proof (stored_guard _ _ _ _ Ht Hv Hp) as Hguard.
  inversion Ht as [| | | | | | | |? He| |]; inversion Hv as [| | | | | | | |? ge vs Hge Hvs| |]; subst.
  destruct Hp as (o & Hp & Ho). cbn [snd enc items] in Ho. fold (elem_parts e vs) in Ho.
  assert (Hn : (length vs <= length (layout (elem_parts e vs)))%nat).
  { rewrite length_layout. pose proof (elem_heads_len e vs (head_size_ok e) He Hvs). pose proof (type_size_pos e He). nia. }
  destruct (prefix_points b p o (length vs) _ Hb Hp Ho Hn) as (Hl & Hl' & E). pose proof Hb as Hb'. unfold buf_len, max_size in Hb', Hl, Hl'.
  cbn [toGoType requiresLengthPrefix]. rewrite i64_small, (proj2 (Z.ltb_ge _ _)), E by (unfold buf_len; lia). cbn [mbind outcome_bind].
  replace (Z.of_nat o + 32) with (Z.of_nat (o + 32)) by lia. destruct (at_pos_app _ _ _ _ Ho) as [_ Ho']. rewrite length_word in Ho'.
  apply (forEachUnpack_decode (SliceTy e) e ge g b (o + 32) vs); try done; [lia|by left].
Qed.

Lemma decodes_ok t : decodes t.
Proof.
  type_cases t; try (by intros v g b p Ht Hg Hv Hb Hp; eapply leaf_word_decode); try (by intros v g b p Ht; inversion Ht);
    try (by apply slice_decode || by apply array_decode || by apply tuple_decode);
    intros v g b p Ht Hg Hv Hb Hp; inversion Hv as [| | |s Hs| | |s Hs| | | |]; subst; cbn [enc raw_bytes] in Hp; rewrite ?raw_bytes_array in Hp;
    destruct (bytes_decode b p s Hb Hp) as (begin & h & Hl & E & E'); unfold max_size in Hb;
    cbn [toGoType requiresLengthPrefix]; rewrite i64_small, (proj2 (Z.ltb_ge _ _)), E by lia; cbn [mbind outcome_bind]; by rewrite E'.
Qed.

(** ** Arguments *)

Definition arg_parts (arguments : Arguments_) (vs : list value) : list part :=
  zip_with (fun a x => (isDynamicType (arg_Type a), enc (arg_Type a) x)) arguments vs.

(** Arguments are laid out as the components of a tuple. *)
Definition arg_comp (a : Argument) : gostr * gostr * Ty := (arg_Name a, arg_Name a, arg_Type a).

Lemma arg_parts_comps arguments vs : arg_parts arguments vs = comp_parts (arg_comp <$> arguments) vs.
Proof. unfold comp_parts. by rewrite zip_with_fmap_l. Qed.

Record packable (arguments : Arguments_) (vs : list value) : Prop := {
  pk_types : args_ok arguments;
  pk_names : Forall (fun a => names_ok (arg_Type a)) arguments;
  pk_values : Forall2 (fun a v => has_type (arg_Type a) v) arguments vs;
  pk_size : Z.of_nat (length (layout (arg_parts arguments vs))) < max_size
}.

Lemma packable_comps arguments vs : packable arguments vs ->
  Forall (fun c => type_ok (snd c)) (arg_comp <$> arguments) /\ Forall2 (fun c v => has_type (snd c) v) (arg_comp <$> arguments) vs /\
  comp_type <$> (arg_comp <$> arguments) = arg_Type <$> arguments.
Proof.
  intros [[Ht _] _ Hv _]. split; [rewrite Forall_fmap; eapply Forall_impl; [exact Ht|]; by intros a [H _]|].
  split; [by apply Forall2_fmap_l|]. by rewrite <- list_fmap_compose.
Qed.

Lemma Pack_layout arguments vs : packable arguments vs -> Pack arguments vs = Ret (layout (arg_parts arguments vs)).
Proof.
  intros Hp. destruct (packable_comps _ _ Hp) as (Hok & Hvs & Ec). destruct Hp as [[Ht Hs] Hn Hv Hl].
  unfold Pack. rewrite (Forall2_length _ _ _ Hv), Nat.eqb_refl. cbn [negb].
  assert (E : zip_with (fun a v => (isDynamicType (arg_Type a), pack (arg_Type a) v)) arguments vs
    = map (fun q : part => (fst q, Ret (snd q))) (arg_parts arguments vs)).
  { assert (Hle : Forall (fun q : part => Z.of_nat (length (snd q)) < max_size) (arg_parts arguments vs)).
    { rewrite Forall_forall. intros q Hq. pose proof (part_le_layout _ _ Hq). lia. }
    clear Hok Hvs Ec Hs Hl. unfold arg_parts in *. induction Hv as [|a v arguments vs Hv _ IH]; [done|].
    apply Forall_cons in Ht as [[Ht0 [g Hg]] Ht], Hn as [Hn0 Hn]. cbn [zip_with map fst snd] in *. apply Forall_cons in Hle as [Hle0 Hle].
    cbn [snd] in Hle0. rewrite (pack_enc (arg_Type a) v g) by done. f_equal. by apply IH. }
  rewrite E. apply pack_parts; [done|left]. rewrite arg_parts_comps, comp_heads_len; [|apply Forall_forall; intros c _; apply head_size_ok|done|done].
  rewrite Ec. apply sum_sizes_eq; [|done]. rewrite Forall_fmap. eapply Forall_impl; [exact Ht|]. by intros a [H _].
Qed.

Lemma unpack_values_decode b ts vs : forall index virtual,
  Forall (fun t => type_ok t) ts -> length ts = length vs ->
  0 <= index + virtual -> 32 * (index + virtual) + zsum (type_size <$> ts) < max_size ->
  (forall i t x, ts !! i = Some t -> vs !! i = Some x ->
     toGoType (32 * (index + virtual) + zsum (type_size <$> take i ts)) t b = Ret x) ->
  unpack_values ts index virtual b = Ret vs.
Proof.
  revert vs. induction ts as [|t ts IH]; intros [|v vs] index virtual Hok Hlen Hpos Hsum Hread; try done.
  apply Forall_cons in Hok as [Ht Hok]. cbn [fmap list_fmap zsum foldr] in Hsum. fold (zsum (type_size <$> ts)) in Hsum.
  assert (0 <= zsum (type_size <$> ts)).
  { apply zsum_nonneg. rewrite Forall_fmap. eapply Forall_impl; [done|]. intros t' Ht'. pose proof (type_size_pos _ Ht'). unfold compose. lia. }
  pose proof (type_size_pos t Ht). pose proof (virtual_args_size t Ht). unfold max_size in *.
  pose proof (Hread 0%nat t v eq_refl eq_refl) as Hr. cbn [take fmap list_fmap zsum foldr] in Hr.
  cbn [unpack_values]. rewrite i64_small by lia. replace ((index + virtual) * 32) with (32 * (index + virtual) + 0) by lia. rewrite Hr.
  cbn [mbind outcome_bind]. rewrite (IH vs (index + 1) (virtual + virtual_args t)); [done|done|by injection Hlen|lia|lia|].
  intros i t' x Hi Hx. specialize (Hread (S i) t' x Hi Hx). cbn [take fmap list_fmap zsum foldr] in Hread.
  fold (zsum (type_size <$> take i ts)) in Hread. rewrite <- Hread. f_equal. lia.
Qed.

Lemma UnpackValues_layout arguments vs spare :
  packable arguments vs -> Forall (fun a => arg_Indexed a = false) arguments ->
  UnpackValues arguments (mk_buf (layout (arg_parts arguments vs)) spare) = Ret vs.
Proof.
  intros Hp Hidx. destruct (packable_comps _ _ Hp) as (Hok & Hvs & Ec). destruct Hp as [[Ht Hs] _ Hv Hl].
  unfold UnpackValues, NonIndexed. rewrite filter_all by done.
  set (b := mk_buf (layout (arg_parts arguments vs)) spare). pose proof (Forall2_length _ _ _ Hv) as Hlen.
  apply unpack_values_decode; [rewrite Forall_fmap; eapply Forall_impl; [exact Ht|]; by intros a [H _]|by rewrite length_fmap|lia|lia|].
  intros i t x Hi Hx. rewrite <- Ec, <- fmap_take in *. apply list_lookup_fmap_Some in Hi as (c & -> & Hc). 
  rewrite Z.mul_0_r, Z.add_0_l, <- (comp_pos _ vs i c x) by done. rewrite <- arg_parts_comps.
  assert (exists g, GetType (snd c) = Ret g) as (g & Hg).
  { apply list_lookup_fmap_Some in Hc as (a & -> & Ha). eapply Forall_lookup_1 in Ht; [|done]. apply Ht. }
  rewrite Forall_lookup in Hok. eapply decodes_ok; [by eapply Hok|done|exact (Forall2_lookup_lr _ _ _ _ _ _ Hvs Hc Hx)|done|].
  apply (layout_stored (vis b) 0); [exists []; by rewrite app_nil_r|]. rewrite arg_parts_comps. unfold comp_parts.
  rewrite lookup_zip_with, Hc. cbn. by rewrite Hx.
Qed.

(** C27: Packing well-typed values gives exactly the encoding of the contract ABI:
    the heads of the values followed by their tails, where the head of a dynamic
    value is the length of all heads and of the tails before its own. *)
Theorem Pack_is_abi_encoding arguments vs :
  packable arguments vs -> Pack arguments vs = Ret (layout (arg_parts arguments vs)).
Proof. apply Pack_layout. Qed.

(** C10: Unpacking what was packed gives the same values back, for arguments of
    any nesting of arrays, slices and tuples, whatever the memory behind the data
    holds. *)
Theorem Unpack_inverts_Pack arguments vs :
  packable arguments vs -> Forall (fun a => arg_Indexed a = false) arguments ->
  exists data, Pack arguments vs = Ret data /\ forall spare, Unpack arguments (mk_buf data spare) = Ret vs.
Proof.
  intros Hp Hidx. exists (layout (arg_parts arguments vs)). split; [by apply Pack_layout|]. intros spare. unfold Unpack.
  pose proof (UnpackValues_layout arguments vs spare Hp Hidx) as E.
  destruct arguments as [|a arguments]; [pose proof (pk_values _ _ Hp) as Hv; by inversion Hv|].
  rewrite (proj2 (Z.eqb_neq _ _)); [done|]. destruct Hp as [[Ht _] _ Hv _]. inversion Hv as [|? v ? vs' Hv0 Hvs]; subst.
  apply Forall_cons in Ht as [[Ht _] _]. unfold buf_len. cbn [vis]. rewrite length_layout.
  change (heads_len _) with (head_len (isDynamicType (arg_Type a), enc (arg_Type a) v) + heads_len (arg_parts arguments vs'))%nat.
  pose proof (head_size_ok _ Ht _ Hv0). pose proof (type_size_pos _ Ht). lia.
Qed.

(** ** Names that meet in camel case *)

Lemma unset_insert_set (m : gmap gostr gostr) k k' x : x <> [] -> unset_at m k' = false -> unset_at (<[k := x]> m) k' = false.
Proof.
  intros Hx Hk. destruct (decide (k = k')) as [->|Hne]; [|by rewrite unset_insert].
  unfold unset_at, str_at. rewrite lookup_insert_eq. cbn. by apply bool_decide_eq_false.
Qed.

Lemma camel_nil : ToCamelCase [] = [].
Proof. done. Qed.

(** A name whose field is taken by another name ends the second round. *)
Lemma second_round_taken args v r : forall a2s s2a,
  r ∈ args -> unset_at a2s r = true -> unset_at s2a (ToCamelCase r) = false ->
  exists e, second_round args v a2s s2a = Err e.
Proof.
  induction args as [|a args IH]; intros a2s s2a Hr Ha Hs; [by apply not_elem_of_nil in Hr|]. cbn [second_round].
  destruct (decide (ToCamelCase a = [])) as [|Hne]; [rewrite bool_decide_true by done; by eexists|]. rewrite bool_decide_false by done.
  assert (a <> []) by (intros ->; by rewrite camel_nil in Hne).
  destruct (decide (a = r)) as [->|Har]; [rewrite Ha, Hs; by eexists|].
  apply elem_of_cons in Hr as [->|Hr]; [done|].
  destruct (negb (unset_at a2s a)); [destruct (_ && _); [by eexists|by apply IH]|].
  destruct (negb (unset_at s2a (ToCamelCase a))); [by eexists|].
  destruct (bool_decide _); apply IH; try done; rewrite ?unset_insert by done; try done; by apply unset_insert_set.
Qed.

Lemma second_round_conflict args v r r' : forall a2s s2a,
  r ∈ args -> r' ∈ args -> r <> r' -> ToCamelCase r = ToCamelCase r' ->
  unset_at a2s r = true -> unset_at a2s r' = true -> exists e, second_round args v a2s s2a = Err e.
Proof.
  induction args as [|a args IH]; intros a2s s2a Hr Hr' Hne Hc Ha Ha'; [by apply not_elem_of_nil in Hr|]. cbn [second_round].
  destruct (decide (ToCamelCase a = [])) as [|Hca]; [rewrite bool_decide_true by done; by eexists|]. rewrite bool_decide_false by done.
  assert (a <> []) by (intros ->; by rewrite camel_nil in Hca).
  assert (Hset : forall k m, unset_at (<[k := a]> m) k = false).
  { intros k m. unfold unset_at, str_at. rewrite lookup_insert_eq. by apply bool_decide_eq_false. }
  destruct (decide (a = r)) as [->|Har].
  { apply elem_of_cons in Hr' as [->|Hr']; [done|]. rewrite Ha. cbn [negb]. destruct (negb (unset_at s2a _)); [by eexists|].
    destruct (bool_decide _); apply (second_round_taken _ _ r'); rewrite ?unset_insert by done; try done; rewrite <- Hc; apply Hset. }
  destruct (decide (a = r')) as [->|Har'].
  { apply elem_of_cons in Hr as [->|Hr]; [done|]. rewrite Ha'. cbn [negb]. destruct (negb (unset_at s2a _)); [by eexists|].
    destruct (bool_decide _); apply (second_round_taken _ _ r); rewrite ?unset_insert by done; try done; rewrite Hc; apply Hset. }
  apply elem_of_cons in Hr as [->|Hr]; [done|]. apply elem_of_cons in Hr' as [->|Hr']; [done|].
  destruct (negb (unset_at a2s a)); [destruct (_ && _); [by eexists|by apply IH]|].
  destruct (negb (unset_at s2a (ToCamelCase a))); [by eexists|].
  destruct (bool_decide _); apply IH; rewrite ?unset_insert by done; done.
Qed.

(** A tuple with two components whose different names meet in camel case
    can be unpacked, into a struct with renamed fields, but that value can never
    be packed again: [pack] looks for the fields by their camel-case names and
    reports an error. *)
Theorem renamed_fields_cannot_be_packed raw comps vs g i j ci cj :
  GetType (TupleTy raw comps) = Ret g -> Forall2 (fun c v => has_type (snd c) v) comps vs ->
  comps !! i = Some ci -> comps !! j = Some cj -> comp_raw ci <> comp_raw cj -> ToCamelCase (comp_raw ci) = ToCamelCase (comp_raw cj) ->
  exists e, pack (TupleTy raw comps) (tuple_value comps vs) = Err e.
Proof.
  intros Hg Hvs Hi Hj Hne Hc.
  assert (Hv : has_type (TupleTy raw comps) (tuple_value comps vs)) by by constructor.
  cbn [pack]. rewrite (indirect_typed _ _ Hv). cbn [mbind outcome_bind]. rewrite (typeCheck_ok _ _ _ Hv Hg). cbn [mbind outcome_bind].
  unfold mapArgNamesToStructFields. rewrite first_round_no_tags.
  - destruct (second_round_conflict (comp_raw <$> comps) (tuple_value comps vs) (comp_raw ci) (comp_raw cj) ∅ ∅) as (e & E); try done;
      [apply list_elem_of_fmap_2; by eapply list_elem_of_lookup_2..|]. exists e. cbn [mbind outcome_bind]. by rewrite E.
  - cbn. clear. revert vs. induction comps as [|c comps IH]; intros [|v vs]; constructor; [done|apply IH].
Qed.

End Round.

(** ** A concrete packing *)

Module AbiRoundToy.
Import AbiToy AbiSpecToy.

Lemma toy_packable : packable toy_args toy_values.
Proof.
  split; [apply toy_args_ok| | |vm_compute; reflexivity].
  - repeat constructor; try done; vm_compute; try done; set_solver.
  - apply Forall2_cons_2; [|apply Forall2_cons_2; [|apply Forall2_cons_2; [|done]]].
    + exact (ht_uint 256 7 ltac:(split; done)).
    + apply (ht_tuple [] toy_comps toy_fields).
      apply Forall2_cons_2; [|apply Forall2_cons_2; [|done]].
      * apply ht_string, (bool_decide_unpack _). vm_compute. exact I.
      * apply ht_slice; [done|]. repeat constructor; [exact (ht_uint 8 1 ltac:(split; done))|exact (ht_uint 8 255 ltac:(split; done))].
    + apply ht_array; [done|done|]. repeat constructor.
Qed.

Lemma Pack_is_abi_encoding_witness :
  Pack toy_args toy_values = Ret (layout (arg_parts toy_args toy_values)) /\ length (layout (arg_parts toy_args toy_values)) = 352%nat.
Proof. split; [apply (Pack_is_abi_encoding (laws := toy_eth_laws)), toy_packable|vm_compute; reflexivity]. Defined.

Lemma Unpack_inverts_Pack_witness :
  exists data, Pack toy_args toy_values = Ret data /\ forall spare, Unpack toy_args (mk_buf data spare) = Ret toy_values.
Proof. apply (Unpack_inverts_Pack (laws := toy_eth_laws)); [apply toy_packable|]. by repeat constructor. Defined.

(** The tuple is parsed, its fields renamed. *)
Lemma renamed_fields_cannot_be_packed_witness :
  (exists kind, NewType toy_tuple_name [] toy_clash = Ret (kind, TupleTy [] toy_clash_comps)) /\
  exists e, pack (TupleTy [] toy_clash_comps) (tuple_value toy_clash_comps [VBool true; VBool false]) = Err e.
Proof.
  split; [eexists; vm_compute; reflexivity|].
  apply (renamed_fields_cannot_be_packed (run := toy_run) (eth := toy_eth) [] toy_clash_comps [VBool true; VBool false]
    (GStruct (zip_with (fun c ge => (comp_field c, ge)) toy_clash_comps [GBool; GBool]))
    0 1 (nth 0 toy_clash_comps ([], [], BoolTy)) (nth 1 toy_clash_comps ([], [], BoolTy)));
    [vm_compute; reflexivity|repeat constructor|reflexivity|reflexivity|discriminate|vm_compute; reflexivity].
Defined.

End AbiRoundToy.
