(* ===== verification/AbiParse.v ===== *)
(** * Parsing ABI types

    Theorems on [AbiType]: every type is parsed from its declaration, and the
    search of [overloadedArgName], shared with the names of methods and
    events, ends with a name that is not in use. *)
From stdpp Require Import gmap list sorting.
From Stdlib Require Import ZArith Lia String.
From S2P Require Import Prelude GoString AbiType AbiCodec AbiSpec.

Local Open Scope Z_scope.

(** ** Names not in use *)

Section Overload.
Context (taken : gostr -> bool) (used : list gostr) (raw : gostr).
Hypothesis Htaken : forall n, taken n = true -> n ∈ used.

Fixpoint candidates (fuel : nat) (idx : Z) (name : gostr) : list gostr :=
  match fuel with O => [] | S fuel' => name :: candidates fuel' (idx + 1) (raw ++ itoa idx) end.

Lemma overload_loop_stops fuel : forall idx name,
  taken (overload_loop fuel taken raw idx name) = false \/ Forall (fun n => taken n = true) (candidates fuel idx name).
Proof.
  induction fuel as [|fuel IH]; intros idx name; [by right|]. cbn [overload_loop candidates].
  destruct (taken name) eqn:E; [|by left]. destruct (IH (idx + 1) (raw ++ itoa idx)) as [H|H]; [by left|right; by constructor].
Qed.

Lemma candidates_numbered fuel : forall idx name x, 0 <= idx -> x ∈ candidates fuel idx name ->
  x = name \/ exists k, idx <= k /\ x = raw ++ itoa k.
Proof.
  induction fuel as [|fuel IH]; intros idx name x Hidx Hx; [by apply not_elem_of_nil in Hx|].
  apply elem_of_cons in Hx as [->|Hx]; [by left|]. right. apply IH in Hx as [->|(k & Hk & ->)]; [|exists k; split; [lia|done]|lia].
  by exists idx.
Qed.

Lemma candidates_NoDup fuel : forall idx name, 0 <= idx ->
  name = raw \/ (exists k, 0 <= k < idx /\ name = raw ++ itoa k) -> NoDup (candidates fuel idx name).
Proof.
  induction fuel as [|fuel IH]; intros idx name Hidx Hname; [constructor|]. cbn [candidates]. constructor.
  - intros Hx. assert (Hk : exists k, idx <= k /\ name = raw ++ itoa k).
    { apply candidates_numbered in Hx as [->|(k & Hk & ->)]; [by exists idx|exists k; split; [lia|done]|lia]. }
    destruct Hk as (k & Hk & E). destruct Hname as [->|(k' & Hk' & ->)].
    + rewrite <- (app_nil_r raw) in E at 1. apply app_inv_head in E. by destruct (itoa_spec k ltac:(lia)) as (_ & _ & []).
    + apply app_inv_head, itoa_inj in E; lia.
  - apply IH; [lia|]. right. exists idx. split; [lia|done].
Qed.

Lemma length_candidates fuel idx name : List.length (candidates fuel idx name) = fuel.
Proof. revert idx name. induction fuel as [|fuel IH]; intros; cbn; [done|]. by rewrite IH. Qed.

(** One more attempt than there are names is enough. *)
Lemma overload_fresh : taken (overload_loop (S (List.length used)) taken raw 0 raw) = false.
Proof.
  destruct (overload_loop_stops (S (List.length used)) 0 raw) as [H|H]; [done|].
  assert (Hsub : candidates (S (List.length used)) 0 raw ⊆+ used).
  { apply NoDup_submseteq; [apply candidates_NoDup; [done|by left]|]. intros x Hx. rewrite Forall_forall in H. by apply Htaken, H. }
  apply submseteq_length in Hsub. rewrite length_candidates in Hsub. lia.
Qed.
End Overload.

Lemma overloadedArgName_fresh rawName names fieldName :
  overloadedArgName rawName names = Ret fieldName -> fieldName ∉ names.
Proof.
  unfold overloadedArgName. destruct (bool_decide _); [discriminate|]. intros [= <-].
  pose proof (overload_fresh (fun n => bool_decide (n ∈ names)) names (ToCamelCase rawName)) as H.
  specialize (H (fun n => bool_decide_eq_true_1 _)). by apply bool_decide_eq_false_1 in H.
Qed.

Section Parse.
Context `{run : !GoRuntime}.

(** The fields given to the components of a tuple are distinct. *)
Lemma tuple_loop_fields comps : forall used first fields elems expression,
  tuple_loop comps used first = Ret (fields, elems, expression) ->
  NoDup (comp_field <$> elems) /\ fst <$> fields = comp_field <$> elems /\ comp_raw <$> elems = fst <$> comps /\
  forall x, x ∈ comp_field <$> elems -> x ∉ used.
Proof.
  induction comps as [|[name sub] comps IH]; intros used first fields elems expression E; cbn [tuple_loop] in E.
  { injection E as <- <- <-. split; [constructor|]. split; [done|]. split; [done|]. intros x Hx. by apply not_elem_of_nil in Hx. }
  destruct sub as [[kind t]| |]; try discriminate. cbn [mbind outcome_bind] in E.
  destruct (overloadedArgName name used) as [field| |] eqn:Ef; try discriminate. cbn [mbind outcome_bind] in E.
  destruct (GetType t) as [g| |]; try discriminate. cbn [mbind outcome_bind] in E.
  destruct (tuple_loop comps (field :: used) false) as [[[fs es] ex]| |] eqn:El; try discriminate. injection E as <- <- <-.
  destruct (IH _ _ _ _ _ El) as (Hnd & Hf & Hr & Hu). pose proof (overloadedArgName_fresh _ _ _ Ef) as Hfresh.
  cbn [fmap list_fmap fst comp_field comp_raw snd] in *. split; [|split; [by f_equal|split; [by f_equal|]]].
  - constructor; [|done]. intros Hin. apply (Hu field Hin). by left.
  - intros x [->|Hx]%elem_of_cons; [done|]. intros Hin. apply (Hu x Hx). by right.
Qed.

End Parse.

(** ** Declarations *)

(** The type string and the components that declare a type. *)
Fixpoint decl (t : Ty) : gostr :=
  match t with
  | IntTy n => lit "int" ++ itoa n
  | UintTy n => lit "uint" ++ itoa n
  | BoolTy => lit "bool"
  | StringTy => lit "string"
  | SliceTy e => decl e ++ lit "[]"
  | ArrayTy n e => decl e ++ lit "[" ++ itoa n ++ lit "]"
  | TupleTy _ _ => lit "tuple"
  | AddressTy => lit "address"
  | FixedBytesTy n => lit "bytes" ++ itoa n
  | BytesTy => lit "bytes"
  | FunctionTy => lit "function"
  | HashTy | FixedPointTy => []
  end.

Fixpoint decl_comps (t : Ty) : list ArgumentMarshaling :=
  match t with
  | SliceTy e | ArrayTy _ e => decl_comps e
  | TupleTy _ comps => map (fun c => mk_am (fst (fst c)) (decl (snd c)) [] (decl_comps (snd c)) false) comps
  | _ => []
  end.

(** The canonical string of a type, as it appears in signatures. *)
Fixpoint sig_string (t : Ty) : gostr :=
  match t with
  | SliceTy e => sig_string e ++ lit "[]"
  | ArrayTy n e => sig_string e ++ lit "[" ++ itoa n ++ lit "]"
  | TupleTy _ comps =>
      lit "(" ++ (fix go first comps :=
                    match comps with
                    | [] => []
                    | c :: comps' => (if first : bool then [] else lit ",") ++ sig_string (snd c) ++ go false comps'
                    end) true comps ++ lit ")"
  | _ => decl t
  end.

(** Sizes that fit in an [int]; the name of a struct is not part of the
    declaration. *)
Inductive declarable : Ty -> Prop :=
| dec_int n : 0 <= n < 2 ^ 63 -> declarable (IntTy n)
| dec_uint n : 0 <= n < 2 ^ 63 -> declarable (UintTy n)
| dec_bool : declarable BoolTy
| dec_string : declarable StringTy
| dec_address : declarable AddressTy
| dec_fixed n : 0 < n < 2 ^ 63 -> declarable (FixedBytesTy n)
| dec_bytes : declarable BytesTy
| dec_function : declarable FunctionTy
| dec_slice e : declarable e -> declarable (SliceTy e)
| dec_array n e : 0 <= n < 2 ^ 63 -> declarable e -> declarable (ArrayTy n e)
| dec_tuple comps : Forall (fun c => declarable (snd c)) comps -> declarable (TupleTy [] comps).

Lemma span_app p a b : Forall (fun c => p c = true) a -> match b with [] => True | c :: _ => p c = false end -> span p (a ++ b) = (a, b).
Proof.
  intros Ha Hb. induction Ha as [|c a Hc _ IH]; cbn [app span]; [by destruct b as [|c b]; cbn; rewrite ?Hb|]. by rewrite Hc, IH.
Qed.

Lemma digit_not_letter c : is_digit c = true -> is_letter c = false.
Proof.
  unfold is_digit, is_letter. rewrite andb_true_iff, !Z.leb_le. intros [H1 H2].
  rewrite (proj2 (Z.leb_gt 65 c)), (proj2 (Z.leb_gt 97 c)) by lia. done.
Qed.

Definition all_letters (s : gostr) : Prop := Forall (fun c => is_letter c = true) s.
Definition all_digits (s : gostr) : Prop := Forall (fun c => is_digit c = true) s.

Lemma typeRegex_word letters digits : all_letters letters -> letters <> [] -> all_digits digits ->
  typeRegex (letters ++ digits) = Some (letters ++ digits, letters, digits, digits).
Proof.
  intros Hl Hne Hd. destruct letters as [|c letters]; [done|]. pose proof Hl as Hl'. apply Forall_cons in Hl' as [Hc _].
  cbn [app typeRegex]. rewrite Hc. change (c :: letters ++ digits) with ((c :: letters) ++ digits).
  rewrite span_app; [|done|destruct Hd; [done|by apply digit_not_letter]].
  replace digits with (digits ++ []) at 1 by apply app_nil_r. rewrite span_app by done. rewrite ?app_nil_r. by destruct digits; rewrite ?app_nil_r.
Qed.

(** No brackets in a basic type. *)
Definition no_brackets (s : gostr) : Prop := Forall (fun c => c <> 91 /\ c <> 93) s.

Lemma letters_no_brackets s : all_letters s -> no_brackets s.
Proof.
  intros H. eapply Forall_impl; [exact H|]. intros c. unfold is_letter. rewrite orb_true_iff, !andb_true_iff, !Z.leb_le. lia.
Qed.

Lemma digits_no_brackets s : all_digits s -> no_brackets s.
Proof. intros H. eapply Forall_impl; [exact H|]. intros c. unfold is_digit. rewrite andb_true_iff, !Z.leb_le. lia. Qed.

Lemma count_char_none c s : Forall (fun x => x <> c) s -> count_char c s = 0%nat.
Proof. intros H. unfold count_char. by rewrite filter_none. Qed.

Lemma last_index_none c s : Forall (fun x => x <> c) s -> last_index c s = None.
Proof. induction 1 as [|x s Hx _ IH]; [done|]. cbn. rewrite IH. by rewrite (proj2 (Z.eqb_neq _ _)). Qed.

Lemma last_index_app c s s' : Forall (fun x => x <> c) s' -> last_index c (s ++ c :: s') = Some (List.length s).
Proof.
  intros H. induction s as [|x s IH]; cbn; [by rewrite last_index_none, Z.eqb_refl|]. by rewrite IH.
Qed.

Lemma count_char_app c s s' : count_char c (s ++ s') = (count_char c s + count_char c s')%nat.
Proof. unfold count_char. by rewrite filter_app, length_app. Qed.

Lemma digit_runs_inside ds : all_digits ds -> digit_runs true (ds ++ [93]) = [].
Proof. induction 1 as [|c ds Hc _ IH]; [done|]. cbn. by rewrite Hc. Qed.

Lemma digit_runs_index ds : all_digits ds -> ds <> [] -> digit_runs false (91 :: ds ++ [93]) = [ds].
Proof.
  intros Hd Hne. destruct ds as [|c ds]; [done|]. pose proof Hd as Hd'. apply Forall_cons in Hd' as [Hc Hds].
  change (digit_runs false (91 :: (c :: ds) ++ [93])) with (digit_runs false ((c :: ds) ++ [93])).
  cbn [app digit_runs]. rewrite Hc, digit_runs_inside by done. change (c :: ds ++ [93]) with ((c :: ds) ++ [93]). by rewrite span_app.
Qed.

Section Declarations.
Context `{run : !GoRuntime}.

Lemma new_type_basic fuel t internal subs : no_brackets t -> new_type fuel t internal subs = new_basic t internal subs.
Proof.
  intros Hb.
  assert (H1 : Forall (fun x => x <> 91) t) by (eapply Forall_impl; [exact Hb|]; by intros c []).
  assert (H2 : Forall (fun x => x <> 93) t) by (eapply Forall_impl; [exact Hb|]; by intros c []).
  destruct fuel; cbn [new_type]; by rewrite !count_char_none, last_index_none by done.
Qed.

(** A basic type with a size. *)
Lemma new_basic_sized name n internal subs : all_letters name -> name <> [] -> 0 <= n < 2 ^ 63 ->
  new_basic (name ++ itoa n) internal subs =
    (if bool_decide (name = lit "int") then Ret (name ++ itoa n, IntTy n)
     else if bool_decide (name = lit "uint") then Ret (name ++ itoa n, UintTy n)
     else if bool_decide (name = lit "bool") then Ret (name ++ itoa n, BoolTy)
     else if bool_decide (name = lit "address") then Ret (name ++ itoa n, AddressTy)
     else if bool_decide (name = lit "string") then Ret (name ++ itoa n, StringTy)
     else if bool_decide (name = lit "bytes") then Ret (name ++ itoa n, if n =? 0 then BytesTy else FixedBytesTy n)
     else if bool_decide (name = lit "tuple") then new_tuple (name ++ itoa n) internal subs
     else if bool_decide (name = lit "function") then Ret (name ++ itoa n, FunctionTy)
     else Err ErrUnsupportedArg).
Proof.
  intros Hl Hne Hn. destruct (itoa_spec n ltac:(lia)) as (_ & Hd & Hne'). unfold new_basic.
  rewrite (typeRegex_word name (itoa n)) by done. rewrite (bool_decide_false (itoa n = [])) by done.
  rewrite Atoi_itoa by done. done.
Qed.

Lemma letters_lit s : forallb is_letter s = true -> all_letters s.
Proof. intros H. apply Forall_forall. intros c Hc. rewrite forallb_forall in H. by apply H, list_elem_of_In. Qed.

Definition decl_subs (t : Ty) : list (gostr * res parsed) := map (fun c => (am_Name c, NewType_of c)) (decl_comps t).

Definition parses (t : Ty) : Prop := forall fuel g,
  declarable t -> names_ok t -> GetType t = Ret g -> (List.length (decl t) <= fuel)%nat ->
  new_type fuel (decl t) [] (decl_subs t) = Ret (sig_string t, t).

Lemma leaf_parses t : match t with SliceTy _ | ArrayTy _ _ | TupleTy _ _ => False | _ => True end -> parses t.
Proof.
  intros Hleaf fuel g Hd _ _ _. destruct Hd as [n Hn|n Hn| | | |n Hn| | | | |]; try done; cbn [decl sig_string];
    try (rewrite new_type_basic by (apply letters_no_brackets, letters_lit; reflexivity); reflexivity);
    (rewrite new_type_basic by (apply Forall_app; split; [apply letters_no_brackets, letters_lit; reflexivity|apply digits_no_brackets, itoa_spec; lia]));
    rewrite new_basic_sized by (try (apply letters_lit; reflexivity); done || lia); try reflexivity.
  rewrite (proj2 (Z.eqb_neq n 0)) by lia. reflexivity.
Qed.

(** One pair of brackets at the end. *)
Lemma new_type_index e ds internal subs fuel : count_char 91 e = count_char 93 e -> no_brackets ds ->
  internal = [] -> (List.length (e ++ lit "[" ++ ds ++ lit "]") <= fuel)%nat ->
  exists fuel', (List.length e <= fuel')%nat /\ new_type fuel (e ++ lit "[" ++ ds ++ lit "]") internal subs =
    ('(kind, embedded) ← new_type fuel' e [] subs;
     match digit_runs false (lit "[" ++ ds ++ lit "]") with
     | [] => Ret (kind ++ lit "[" ++ ds ++ lit "]", SliceTy embedded)
     | [digits] => match Atoi digits with Some n => Ret (kind ++ lit "[" ++ ds ++ lit "]", ArrayTy n embedded) | None => Err ErrSizeParse end
     | _ => Err ErrArrayFormat
     end).
Proof.
  intros Hc Hds -> Hfuel. rewrite !length_app in Hfuel. destruct fuel as [|fuel]; [cbn in Hfuel; lia|]. exists fuel. cbn in Hfuel. split; [lia|].
  assert (H1 : Forall (fun x => x <> 91) ds) by (eapply Forall_impl; [exact Hds|]; by intros c []).
  assert (H2 : Forall (fun x => x <> 93) ds) by (eapply Forall_impl; [exact Hds|]; by intros c []).
  cbn [new_type]. rewrite !count_char_app, Hc, !(count_char_none _ ds) by done. change (lit "[" ++ ds ++ lit "]") with (91 :: ds ++ [93]).
  cbn [count_char]. rewrite Nat.eqb_refl. cbn [negb].
  rewrite last_index_app by (apply Forall_app; split; [done|by repeat constructor]). cbn [last_index].
  by rewrite take_app_length, drop_app_length.
Qed.

Lemma count_no_brackets s : no_brackets s -> count_char 91 s = 0%nat /\ count_char 93 s = 0%nat.
Proof. intros H. split; apply count_char_none; (eapply Forall_impl; [exact H|]); by intros c []. Qed.

Lemma decl_balanced t : declarable t -> count_char 91 (decl t) = count_char 93 (decl t).
Proof.
  type_cases t; intros H; inversion_clear H; cbn [decl]; try reflexivity; rewrite !count_char_app.
  - destruct (count_no_brackets (itoa n)) as [-> ->]; [apply digits_no_brackets, itoa_spec; lia|reflexivity].
  - destruct (count_no_brackets (itoa n)) as [-> ->]; [apply digits_no_brackets, itoa_spec; lia|reflexivity].
  - rewrite IH by done. reflexivity.
  - rewrite IH by done. destruct (count_no_brackets (itoa n)) as [-> ->]; [apply digits_no_brackets, itoa_spec; lia|reflexivity].
  - destruct (count_no_brackets (itoa n)) as [-> ->]; [apply digits_no_brackets, itoa_spec; lia|reflexivity].
Qed.

Lemma slice_parses e : parses e -> parses (SliceTy e).
Proof.
  intros IH fuel g Hd Hn Hg Hfuel. inversion_clear Hd. inversion_clear Hn; [done|]. destruct (GetType_slice _ _ Hg) as (ge & Hge & _).
  change (decl (SliceTy e)) with (decl e ++ lit "[" ++ [] ++ lit "]") in *.
  destruct (new_type_index (decl e) [] [] (decl_subs (SliceTy e)) fuel) as (fuel' & Hf & E); [by apply decl_balanced|constructor|done|done|].
  rewrite E. change (decl_subs (SliceTy e)) with (decl_subs e). by rewrite (IH fuel' ge).
Qed.

Lemma array_parses n e : parses e -> parses (ArrayTy n e).
Proof.
  intros IH fuel g Hd Hn Hg Hfuel. inversion_clear Hd. inversion_clear Hn; [done|]. destruct (GetType_array _ _ _ Hg) as (ge & Hge & _).
  destruct (itoa_spec n ltac:(lia)) as (_ & Hdig & Hne).
  cbn [decl] in *. destruct (new_type_index (decl e) (itoa n) [] (decl_subs (ArrayTy n e)) fuel) as (fuel' & Hf & E);
    [by apply decl_balanced|by apply digits_no_brackets|done|done|].
  rewrite E. change (decl_subs (ArrayTy n e)) with (decl_subs e). rewrite (IH fuel' ge) by done. cbn [mbind outcome_bind].
  change (lit "[" ++ itoa n ++ lit "]") with (91 :: itoa n ++ [93]). rewrite digit_runs_index by done. by rewrite Atoi_itoa.
Qed.

(** A name in camel case that is free is not changed. *)
Lemma overloadedArgName_free raw used : ToCamelCase raw <> [] -> ToCamelCase raw ∉ used ->
  overloadedArgName raw used = Ret (ToCamelCase raw).
Proof.
  intros Hne Hu. unfold overloadedArgName. rewrite bool_decide_false by done. cbn [overload_loop]. by rewrite bool_decide_false.
Qed.

Definition sig_comps : bool -> list (gostr * gostr * Ty) -> gostr :=
  fix go first comps :=
    match comps with
    | [] => []
    | c :: comps' => (if first : bool then [] else lit ",") ++ sig_string (snd c) ++ go false comps'
    end.

Lemma tuple_loop_parses comps gs : 
  Forall2 (fun c ge => GetType (snd c) = Ret ge) comps gs -> Forall (fun c => parses (snd c)) comps ->
  Forall (fun c => declarable (snd c)) comps -> Forall (fun c => names_ok (snd c)) comps ->
  Forall (fun c => comp_field c = ToCamelCase (comp_raw c) /\ comp_field c <> []) comps -> NoDup (comp_field <$> comps) ->
  forall used first, (forall x, x ∈ comp_field <$> comps -> x ∉ used) ->
  tuple_loop (decl_subs (TupleTy [] comps)) used first
  = Ret (zip_with (fun c ge => (comp_field c, ge)) comps gs, comps, sig_comps first comps).
Proof.
  intros Hgs Hp Hd Hn Hf Hnd. induction Hgs as [|[[raw field] t] ge comps gs Hge Hgs IH]; intros used first Hu; [done|].
  apply Forall_cons in Hp as [Hp0 Hp], Hd as [Hd0 Hd], Hn as [Hn0 Hn], Hf as [[Hf0 Hne] Hf].
  cbn [fmap list_fmap comp_field comp_raw fst snd] in *. apply NoDup_cons in Hnd as [Hni Hnd].
  assert (E : NewType_of (mk_am raw (decl t) [] (decl_comps t) false) = Ret (sig_string t, t)).
  { cbn [NewType_of]. by apply (Hp0 _ ge). }
  unfold decl_subs. cbn [decl_comps map am_Name fst snd tuple_loop]. rewrite E. cbn [mbind outcome_bind].
  rewrite overloadedArgName_free; [|by rewrite <- Hf0|rewrite <- Hf0; apply Hu; by left]. cbn [mbind outcome_bind]. rewrite Hge. cbn [mbind outcome_bind].
  rewrite <- Hf0. fold (decl_subs (TupleTy [] comps)). rewrite (IH Hp Hd Hn Hf Hnd); [done|].
  intros x Hx [->|Hin]%elem_of_cons; [done|]. apply (Hu x); [by right|done].
Qed.

Lemma tuple_parses raw comps : Forall (fun c => parses (snd c)) comps -> parses (TupleTy raw comps).
Proof.
  intros IH fuel g Hd Hn Hg _. inversion Hd as [| | | | | | | | | |? Hdc]; subst. inversion_clear Hn as [| | |? ? Hf Hnd Hnc]; [done|].
  cbn [decl]. rewrite new_type_basic by (apply letters_no_brackets, letters_lit; reflexivity).
  change (new_tuple (lit "tuple") [] (decl_subs (TupleTy [] comps)) = Ret (sig_string (TupleTy [] comps), TupleTy [] comps)).
  unfold new_tuple. destruct (GetType_struct _ _ _ Hg) as (gs & Hgs & Hs).
  rewrite (tuple_loop_parses comps gs) by (try done; intros x _; apply not_elem_of_nil). cbn [mbind outcome_bind].
  by rewrite Hs.
Qed.

Lemma parses_ok t : parses t.
Proof.
  type_cases t; try (by apply leaf_parses); [by apply slice_parses|by apply array_parses|by apply tuple_parses].
Qed.

(** Every ABI type, of any nesting, is parsed from its declaration: the
    parser returns the type itself and its canonical string. *)
Theorem declared_types_are_parsed t g :
  declarable t -> names_ok t -> GetType t = Ret g -> NewType (decl t) [] (decl_comps t) = Ret (sig_string t, t).
Proof. intros Hd Hn Hg. unfold NewType. cbn [NewType_of]. by apply (parses_ok t _ g). Qed.

End Declarations.

Module ParseToy.
Import AbiToy.

(** [(string s, uint8[] l)[3][]] *)
Lemma declared_types_are_parsed_witness :
  decl (SliceTy (ArrayTy 3 toy_pair)) = lit "tuple[3][]" /\
  NewType (decl (SliceTy (ArrayTy 3 toy_pair))) [] (decl_comps (SliceTy (ArrayTy 3 toy_pair)))
  = Ret (lit "(string,uint8[])[3][]", SliceTy (ArrayTy 3 toy_pair)).
Proof.
  split; [vm_compute; reflexivity|].
  eapply (declared_types_are_parsed (run := toy_run) (SliceTy (ArrayTy 3 toy_pair)));
    [| |vm_compute; reflexivity].
  - repeat constructor; done.
  - apply names_slice, names_array, names_tuple; [| |by repeat constructor].
    + repeat constructor; done.
    + apply (bool_decide_unpack _). vm_compute. exact I.
Defined.

End ParseToy.
