(* ===== verification/AbiMethods.v ===== *)
(** * Methods, events and topics of a contract

    Models [accounts/abi/method.go], [event.go], [abi.go] and [topics.go]: the
    description of a contract built from its decoded JSON fields, call data and
    their lookup by identifier, revert reasons, and the topics of events.  A nil
    slice of arguments is told from an empty one where the code does. *)
From stdpp Require Import gmap list sorting.
From Stdlib Require Import ZArith Lia String.
From S2P Require Import Prelude GoString AbiType AbiCodec.

Local Open Scope Z_scope.

(** ** Methods *)

Inductive FunctionType : Type := Constructor | Fallback | Receive | Function_.

#[export] Instance FunctionType_eq_dec : EqDecision FunctionType.
Proof. solve_decision. Defined.

(** [Inputs] and [Outputs] may be nil. *)
Record Method : Type := mk_method {
  m_Name : gostr;
  m_RawName : gostr;
  m_Type : FunctionType;
  StateMutability : gostr;
  Constant : bool;
  Payable : bool;
  m_Inputs : option Arguments_;
  m_Outputs : option Arguments_;
  m_str : gostr;
  m_Sig : gostr;
  m_ID : list Z
}.

Definition zero_method : Method := mk_method [] [] Constructor [] false false None None [] [] [].

Definition args_list (a : option Arguments_) : Arguments_ := default [] a.

(** [strings.Join] *)
Fixpoint join (sep : gostr) (parts : list gostr) : gostr :=
  match parts with
  | [] => []
  | [p] => p
  | p :: parts' => p ++ sep ++ join sep parts'
  end.

Section Methods.
Context `{!GoRuntime, !EthBytes}.

Definition NewMethod (name rawName : gostr) (funType : FunctionType) (mutability : gostr) (isConst isPayable : bool)
    (inputs outputs : option Arguments_) : Method :=
  let inputNames := (fun input => arg_Kind input ++ lit " " ++ arg_Name input) <$> args_list inputs in
  let types := arg_Kind <$> args_list inputs in
  let outputNames := (fun output => arg_Kind output ++ (if bool_decide (arg_Name output = []) then [] else lit " " ++ arg_Name output))
                       <$> args_list outputs in
  let sig := if decide (funType = Function_) then rawName ++ lit "(" ++ join (lit ",") types ++ lit ")" else [] in
  let id := if decide (funType = Function_) then take 4 (Keccak256 sig) else [] in
  let state := if bool_decide (mutability = lit "nonpayable") then [] else mutability in
  let state := if bool_decide (state = []) then [] else state ++ lit " " in
  let identity := match funType with
                  | Function_ => lit "function " ++ rawName
                  | Fallback => lit "fallback"
                  | Receive => lit "receive"
                  | Constructor => lit "constructor"
                  end in
  let str := identity ++ lit "(" ++ join (lit ", ") inputNames ++ lit ") " ++ state ++ lit "returns(" ++ join (lit ", ") outputNames ++ lit ")" in
  mk_method name rawName funType mutability isConst isPayable inputs outputs str sig id.

Definition IsConstant (method : Method) : bool :=
  bool_decide (StateMutability method = lit "view") || bool_decide (StateMutability method = lit "pure") || Constant method.

Definition IsPayable (method : Method) : bool := bool_decide (StateMutability method = lit "payable") || Payable method.

(** ** Events *)

Record Event : Type := mk_event {
  e_Name : gostr;
  e_RawName : gostr;
  Anonymous : bool;
  e_Inputs : option Arguments_;
  e_str : gostr;
  e_Sig : gostr;
  e_ID : list Z
}.

(** The input of an index: unnamed inputs are called [arg0], [arg1] and so on. *)
Definition name_input (i : nat) (input : Argument) : Argument :=
  if bool_decide (arg_Name input = []) then mk_arg (lit "arg" ++ itoa (Z.of_nat i)) (arg_Kind input) (arg_Type input) (arg_Indexed input)
  else input.

Definition NewEvent (name rawName : gostr) (anonymous : bool) (inputs : option Arguments_) : Event :=
  let named := imap name_input <$> inputs in
  let names := (fun input => arg_Kind input ++ (if arg_Indexed input then lit " indexed " else lit " ") ++ arg_Name input) <$> args_list named in
  let types := arg_Kind <$> args_list inputs in
  let str := lit "event " ++ rawName ++ lit "(" ++ join (lit ", ") names ++ lit ")" in
  let sig := rawName ++ lit "(" ++ join (lit ",") types ++ lit ")" in
  mk_event name rawName anonymous named str sig (BytesToHash (Keccak256 sig)).

(** ** The description of a contract *)

Record ABI : Type := mk_abi {
  abi_Constructor : Method;
  Methods : gmap gostr Method;
  Events : gmap gostr Event;
  abi_Fallback : Method;
  abi_Receive : Method
}.

Definition HasFallback (abi : ABI) : bool := bool_decide (m_Type (abi_Fallback abi) = Fallback).
Definition HasReceive (abi : ABI) : bool := bool_decide (m_Type (abi_Receive abi) = Receive).

(** The loops over names, with one more attempt than there are names. *)
Definition overloadedMethodName (abi : ABI) (rawName : gostr) : gostr :=
  overload_loop (S (size (Methods abi))) (fun n => bool_decide (is_Some (Methods abi !! n))) rawName 0 rawName.

Definition overloadedEventName (abi : ABI) (rawName : gostr) : gostr :=
  overload_loop (S (size (Events abi))) (fun n => bool_decide (is_Some (Events abi !! n))) rawName 0 rawName.

(** A decoded JSON field; missing arguments are nil. *)
Record abi_field : Type := mk_field {
  f_Type : gostr;
  f_Name : gostr;
  f_Inputs : option Arguments_;
  f_Outputs : option Arguments_;
  f_StateMutability : gostr;
  f_Constant : bool;
  f_Payable : bool;
  f_Anonymous : bool
}.

Definition field_step (abi : ABI) (field : abi_field) : res ABI :=
  let new name raw kind inputs outputs :=
    NewMethod name raw kind (f_StateMutability field) (f_Constant field) (f_Payable field) inputs outputs in
  if bool_decide (f_Type field = lit "constructor") then
    Ret (mk_abi (new [] [] Constructor (f_Inputs field) None) (Methods abi) (Events abi) (abi_Fallback abi) (abi_Receive abi))
  else if bool_decide (f_Type field = lit "function") then
    let name := overloadedMethodName abi (f_Name field) in
    Ret (mk_abi (abi_Constructor abi) (<[name := new name (f_Name field) Function_ (f_Inputs field) (f_Outputs field)]> (Methods abi))
           (Events abi) (abi_Fallback abi) (abi_Receive abi))
  else if bool_decide (f_Type field = lit "fallback") then
    if HasFallback abi then Err ErrSingleFallback
    else Ret (mk_abi (abi_Constructor abi) (Methods abi) (Events abi) (new [] [] Fallback None None) (abi_Receive abi))
  else if bool_decide (f_Type field = lit "receive") then
    if HasReceive abi then Err ErrSingleReceive
    else if negb (bool_decide (f_StateMutability field = lit "payable")) then Err ErrReceivePayable
    else Ret (mk_abi (abi_Constructor abi) (Methods abi) (Events abi) (abi_Fallback abi) (new [] [] Receive None None))
  else if bool_decide (f_Type field = lit "event") then
    let name := overloadedEventName abi (f_Name field) in
    Ret (mk_abi (abi_Constructor abi) (Methods abi) (<[name := NewEvent name (f_Name field) (f_Anonymous field) (f_Inputs field)]> (Events abi))
           (abi_Fallback abi) (abi_Receive abi))
  else Err ErrFieldType.

Fixpoint field_loop (fields : list abi_field) (abi : ABI) : res ABI :=
  match fields with
  | [] => Ret abi
  | field :: fields' => abi ← field_step abi field; field_loop fields' abi
  end.

(** [UnmarshalJSON] into a zero value, after the JSON has been decoded. *)
Definition ABI_UnmarshalJSON (fields : list abi_field) : res ABI :=
  field_loop fields (mk_abi zero_method ∅ ∅ zero_method zero_method).

(** ** Call data *)

Definition ABI_Pack (abi : ABI) (name : gostr) (args : list value) : res (list Z) :=
  if bool_decide (name = []) then Pack (args_list (m_Inputs (abi_Constructor abi))) args
  else match Methods abi !! name with
       | None => Err ErrMethodNotFound
       | Some method => arguments ← Pack (args_list (m_Inputs method)) args; Ret (m_ID method ++ arguments)
       end.

(** An event of the same name goes before a method; a nil list counts as not
    found. *)
Definition getArguments (abi : ABI) (name : gostr) (data : gobuf) : res Arguments_ :=
  args ← (match Methods abi !! name with
          | Some method => if negb (buf_len data mod 32 =? 0) then Err ErrOutputFormat else Ret (m_Outputs method)
          | None => Ret None
          end);
  match match Events abi !! name with Some event => e_Inputs event | None => args end with
  | Some args => Ret args
  | None => Err ErrNoSuchName
  end.

Definition ABI_Unpack (abi : ABI) (name : gostr) (data : gobuf) : res (list value) :=
  args ← getArguments abi name data; Unpack args data.

Definition ABI_UnpackIntoMap (abi : ABI) (v : option (gmap gostr value)) (name : gostr) (data : gobuf) : res (gmap gostr value) :=
  args ← getArguments abi name data; UnpackIntoMap args v data.

(** The map is visited in some order, the first match is returned. *)
Definition MethodById {order : RangeOrder} (abi : ABI) (sigdata : list Z) : res Method :=
  if (List.length sigdata <? 4)%nat then Err ErrDataTooShort
  else match List.find (fun kv => bool_decide (m_ID (snd kv) = take 4 sigdata)) (map_range (Methods abi)) with
       | Some kv => Ret (snd kv)
       | None => Err ErrNoMethodId
       end.

Definition EventByID {order : RangeOrder} (abi : ABI) (topic : list Z) : res Event :=
  match List.find (fun kv => bool_decide (e_ID (snd kv) = topic)) (map_range (Events abi)) with
  | Some kv => Ret (snd kv)
  | None => Err ErrNoEventId
  end.

Definition revertSelector : list Z := take 4 (Keccak256 (lit "Error(string)")).

Definition UnpackRevert (data : gobuf) : res gostr :=
  if buf_len data <? 4 then Err ErrRevertData
  else if negb (bool_decide (take 4 (vis data) = revertSelector)) then Err ErrRevertData
  else
    rest ← from_index data 4;
    unpacked ← Unpack [mk_arg [] (lit "string") StringTy false] rest;
    match unpacked with
    | VString s :: _ => Ret s
    | _ => Panic
    end.

(** ** Topics *)

(** [topic[i] = byte(rule >> ((31 - i) * 8))] for the last bytes, the others
    filled with the sign. *)
Fixpoint set_low_bytes (n : nat) (i : nat) (rule : Z) (topic : list Z) : list Z :=
  match n with
  | O => topic
  | S n' => set_low_bytes n' (S i) rule (<[(32 - i - 1)%nat := Z.shiftr rule (8 * Z.of_nat i) mod 256]> topic)
  end.

Definition genIntType (rule : Z) (size : nat) : list Z :=
  set_low_bytes size 0 rule (replicate 32 (if rule <? 0 then 255 else 0)).

(** [copy(topic[32-len(blob):], blob)] into a zero topic. *)
Definition right_aligned (blob : list Z) : res (list Z) :=
  if (32 <? List.length blob)%nat then Panic else Ret (replicate (32 - List.length blob) 0 ++ blob).

Definition left_aligned (bs : list Z) : res (list Z) :=
  if (32 <? List.length bs)%nat then Panic else Ret (bs ++ replicate (32 - List.length bs) 0).

Definition make_topic (rule : value) : res (list Z) :=
  match rule with
  | VHash bs => Ret bs
  | VAddress bs => right_aligned bs
  | VPtr (VBigInt n) => right_aligned (int_bytes n)
  | VNil GBigInt => Panic
  | VBool b => Ret (replicate 31 0 ++ [if b then 1 else 0])
  | VInt w n => if fixed_width w then Ret (genIntType n (Z.to_nat (w / 8))) else Err ErrTopicType
  | VUint w n => if fixed_width w then right_aligned (int_bytes n) else Err ErrTopicType
  | VString s => Ret (BytesToHash (Keccak256 s))
  | VSlice g vs => if is_bytes g then bs ← bytes_of vs; Ret (BytesToHash (Keccak256 bs)) else Err ErrTopicType
  | VArray g vs => if is_bytes g then bs ← bytes_of vs; left_aligned bs else Err ErrTopicType
  | _ => Err ErrTopicType
  end.

Fixpoint make_filter (filter : list value) : res (list (list Z)) :=
  match filter with
  | [] => Ret []
  | rule :: filter' => topic ← make_topic rule; topics ← make_filter filter'; Ret (topic :: topics)
  end.

Fixpoint MakeTopics (query : list (list value)) : res (list (list (list Z))) :=
  match query with
  | [] => Ret []
  | filter :: query' => topics ← make_filter filter; rest ← MakeTopics query'; Ret (topics :: rest)
  end.

(** The value of an indexed argument from its topic. *)
Definition parse_topic (arg : Argument) (topic : list Z) : res value :=
  if negb (arg_Indexed arg) then Err ErrTopicNotIndexed
  else match arg_Type arg with
       | TupleTy _ _ => Err ErrTopicTuple
       | StringTy | BytesTy | SliceTy _ | ArrayTy _ _ => Ret (VHash topic)
       | FunctionTy =>
           if be_int (take 8 topic) =? 0 then Ret (VArray (GUint 8) (bytes_value (take 24 (drop 8 topic)))) else Err ErrTopicFunction
       | t => toGoType 0 t (mk_buf topic [])
       end.

(** The values set before an error stay set. *)
Fixpoint parse_topics {S} (setter : Argument -> value -> S -> res S) (fields : Arguments_) (topics : list (list Z)) (out : S) : res () * S :=
  match fields, topics with
  | arg :: fields', topic :: topics' =>
      match parse_topic arg topic with
      | Ret reconstr => match setter arg reconstr out with
                        | Ret out' => parse_topics setter fields' topics' out'
                        | Err e => (Err e, out)
                        | Panic => (Panic, out)
                        end
      | Err e => (Err e, out)
      | Panic => (Panic, out)
      end
  | _, _ => (Ret tt, out)
  end.

Definition parseTopicWithSetter {S} (setter : Argument -> value -> S -> res S) (fields : Arguments_) (topics : list (list Z)) (out : S) : res () * S :=
  if negb (Nat.eqb (List.length fields) (List.length topics)) then (Err ErrTopicCount, out)
  else parse_topics setter fields topics out.

Definition ParseTopicsIntoMap (out : gmap gostr value) (fields : Arguments_) (topics : list (list Z)) : res () * gmap gostr value :=
  parseTopicWithSetter (fun arg reconstr out => Ret (<[arg_Name arg := reconstr]> out)) fields topics out.

(** Setting a field of a struct: it must exist and have the type of the value. *)
Fixpoint set_field (name : gostr) (v : value) (fields : list (gostr * option gostr * value)) : res (list (gostr * option gostr * value)) :=
  match fields with
  | [] => Panic
  | (f, tag, old) :: fields' =>
      if bool_decide (f = name) then v' ← assign (type_of old) v; Ret ((f, tag, v') :: fields')
      else rest ← set_field name v fields'; Ret ((f, tag, old) :: rest)
  end.

Definition ParseTopics (out : list (gostr * option gostr * value)) (fields : Arguments_) (topics : list (list Z))
    : res () * list (gostr * option gostr * value) :=
  parseTopicWithSetter (fun arg reconstr out => set_field (ToCamelCase (arg_Name arg)) reconstr out) fields topics out.

End Methods.
