(* ===== verification/AbiMethodsSpec.v ===== *)
(** * Correctness of contract descriptions and topics

    Theorems on [AbiMethods]: no overload of a method or an event is lost, call
    data are recognized and decoded, revert reasons are read back, the topics of
    value types give their values back, and where they do not: functions and
    negative big integers. *)
From stdpp Require Import gmap list sorting.
From Stdlib Require Import ZArith Lia String.
From S2P Require Import Prelude GoString AbiType AbiCodec AbiSpec AbiRound AbiParse AbiMethods.

Local Open Scope Z_scope.

Section MethodsSpec.
Context `{run : !GoRuntime, eth : !EthBytes, laws : !EthBytesLaws}.

(** ** Building the description *)

Definition is_kind (s : string) (f : abi_field) : Prop := f_Type f = lit s.

#[export] Instance is_kind_dec s f : Decision (is_kind s f) := decide (f_Type f = lit s).

(** Fields the loop accepts: [fb] and [rc] say whether a fallback or a receive
    function was already seen. *)
Fixpoint accepted (fb rc : bool) (fields : list abi_field) : bool :=
  match fields with
  | [] => true
  | f :: fields' =>
      if decide (is_kind "fallback" f) then negb fb && accepted true rc fields'
      else if decide (is_kind "receive" f) then negb rc && bool_decide (f_StateMutability f = lit "payable") && accepted fb true fields'
      else (bool_decide (is_kind "constructor" f) || bool_decide (is_kind "function" f) || bool_decide (is_kind "event" f)) && accepted fb rc fields'
  end.

(** The method a field declares, under the name it is filed. *)
Definition declared (f : abi_field) (name : gostr) : Method :=
  NewMethod name (f_Name f) Function_ (f_StateMutability f) (f_Constant f) (f_Payable f) (f_Inputs f) (f_Outputs f).

Definition declared_event (f : abi_field) (name : gostr) : Event := NewEvent name (f_Name f) (f_Anonymous f) (f_Inputs f).

Lemma overloadedMethodName_free abi rawName : Methods abi !! overloadedMethodName abi rawName = None.
Proof.
  pose proof (overload_fresh (fun n => bool_decide (is_Some (Methods abi !! n))) (fst <$> map_to_list (Methods abi)) rawName) as H.
  rewrite length_fmap, length_map_to_list in H. unfold overloadedMethodName. apply eq_None_not_Some.
  eapply bool_decide_eq_false_1, H. intros n Hn%bool_decide_eq_true_1. destruct Hn as [m Hm].
  apply list_elem_of_fmap. exists (n, m). split; [done|]. by apply elem_of_map_to_list.
Qed.

Lemma overloadedEventName_free abi rawName : Events abi !! overloadedEventName abi rawName = None.
Proof.
  pose proof (overload_fresh (fun n => bool_decide (is_Some (Events abi !! n))) (fst <$> map_to_list (Events abi)) rawName) as H.
  rewrite length_fmap, length_map_to_list in H. unfold overloadedEventName. apply eq_None_not_Some.
  eapply bool_decide_eq_false_1, H. intros n Hn%bool_decide_eq_true_1. destruct Hn as [m Hm].
  apply list_elem_of_fmap. exists (n, m). split; [done|]. by apply elem_of_map_to_list.
Qed.

(** What the loop over [fields] adds to a description. *)
Record extended (fields : list abi_field) (abi abi' : ABI) : Prop := {
  ex_methods : size (Methods abi') = (size (Methods abi) + List.length (filter (is_kind "function") fields))%nat;
  ex_events : size (Events abi') = (size (Events abi) + List.length (filter (is_kind "event") fields))%nat;
  ex_kept : Methods abi ⊆ Methods abi' /\ Events abi ⊆ Events abi';
  ex_function : forall f, f ∈ fields -> is_kind "function" f -> exists name, Methods abi' !! name = Some (declared f name);
  ex_event : forall f, f ∈ fields -> is_kind "event" f -> exists name, Events abi' !! name = Some (declared_event f name);
  ex_only : forall name m, Methods abi' !! name = Some m ->
    Methods abi !! name = Some m \/ exists f, f ∈ fields /\ is_kind "function" f /\ m = declared f name
}.

Lemma extended_step f fields abi abi1 abi' :
  field_step abi f = Ret abi1 -> extended [f] abi abi1 -> extended fields abi1 abi' -> extended (f :: fields) abi abi'.
Proof.
  intros _ H1 H2. destruct (ex_kept _ _ _ H1) as [K1 K1'], (ex_kept _ _ _ H2) as [K2 K2']. split.
  - rewrite (ex_methods _ _ _ H2), (ex_methods _ _ _ H1), !filter_cons. destruct (decide _); cbn; lia.
  - rewrite (ex_events _ _ _ H2), (ex_events _ _ _ H1), !filter_cons. destruct (decide _); cbn; lia.
  - split; by etrans.
  - intros f' [->|Hf]%elem_of_cons Hk; [|by eapply ex_function]. destruct (ex_function _ _ _ H1 f ltac:(by left) Hk) as (name & E).
    exists name. by eapply lookup_weaken.
  - intros f' [->|Hf]%elem_of_cons Hk; [|by eapply ex_event]. destruct (ex_event _ _ _ H1 f ltac:(by left) Hk) as (name & E).
    exists name. by eapply lookup_weaken.
  - intros name m Hm. destruct (ex_only _ _ _ H2 _ _ Hm) as [Hm'|(f' & Hf & Hk & ->)]; [|right; exists f'; split; [by right|done]].
    destruct (ex_only _ _ _ H1 _ _ Hm') as [?|(f' & Hf & Hk & ->)]; [by left|]. apply list_elem_of_singleton in Hf as ->.
    right. exists f. split; [by left|done].
Qed.

Lemma kind_ne s s' f : is_kind s f -> lit s <> lit s' -> ~ is_kind s' f.
Proof. unfold is_kind. congruence. Qed.

(** A field that declares neither a method nor an event. *)
Lemma extended_other f abi abi1 : Methods abi1 = Methods abi -> Events abi1 = Events abi ->
  ~ is_kind "function" f -> ~ is_kind "event" f -> extended [f] abi abi1.
Proof.
  intros Em Ee Hf He. split.
  - rewrite Em, filter_cons_False by done. cbn. lia.
  - rewrite Ee, filter_cons_False by done. cbn. lia.
  - by rewrite Em, Ee.
  - intros f' ->%list_elem_of_singleton Hk. done.
  - intros f' ->%list_elem_of_singleton Hk. done.
  - intros name m. rewrite Em. by left.
Qed.

Lemma extended_function f abi : is_kind "function" f ->
  let name := overloadedMethodName abi (f_Name f) in
  extended [f] abi (mk_abi (abi_Constructor abi) (<[name := declared f name]> (Methods abi)) (Events abi) (abi_Fallback abi) (abi_Receive abi)).
Proof.
  intros Hk name. pose proof (overloadedMethodName_free abi (f_Name f)) as Hfree. fold name in Hfree. split; cbn [Methods Events].
  - rewrite map_size_insert_None by done. rewrite filter_cons_True by done. cbn. lia.
  - rewrite filter_cons_False by (apply (kind_ne "function"); [done|discriminate]). cbn. lia.
  - split; [by apply insert_subseteq|done].
  - intros f' ->%list_elem_of_singleton _. exists name. apply lookup_insert_eq.
  - intros f' ->%list_elem_of_singleton He. by destruct (kind_ne "function" "event" f Hk ltac:(discriminate)).
  - intros n m. rewrite lookup_insert_Some. intros [[<- <-]|[_ ?]]; [right|by left]. exists f. split; [by left|done].
Qed.

Lemma extended_event f abi : is_kind "event" f ->
  let name := overloadedEventName abi (f_Name f) in
  extended [f] abi (mk_abi (abi_Constructor abi) (Methods abi) (<[name := declared_event f name]> (Events abi)) (abi_Fallback abi) (abi_Receive abi)).
Proof.
  intros Hk name. pose proof (overloadedEventName_free abi (f_Name f)) as Hfree. fold name in Hfree. split; cbn [Methods Events].
  - rewrite filter_cons_False by (apply (kind_ne "event"); [done|discriminate]). cbn. lia.
  - rewrite map_size_insert_None by done. rewrite filter_cons_True by done. cbn. lia.
  - split; [done|by apply insert_subseteq].
  - intros f' ->%list_elem_of_singleton He. by destruct (kind_ne "event" "function" f Hk ltac:(discriminate)).
  - intros f' ->%list_elem_of_singleton _. exists name. apply lookup_insert_eq.
  - intros n m Hm. by left.
Qed.

(** One accepted field. *)
Lemma field_step_accepted f fields abi : accepted (HasFallback abi) (HasReceive abi) (f :: fields) = true ->
  exists abi1, field_step abi f = Ret abi1 /\ extended [f] abi abi1 /\ accepted (HasFallback abi1) (HasReceive abi1) fields = true.
Proof.
  cbn [accepted]. intros Ha. unfold field_step.
  destruct (decide (is_kind "fallback" f)) as [Hk|H1].
  { apply andb_true_iff in Ha as [Hfb Ha]. apply negb_true_iff in Hfb. rewrite Hk, Hfb. eexists. split; [reflexivity|].
    split; [apply extended_other; try done; by apply (kind_ne "fallback")|done]. }
  destruct (decide (is_kind "receive" f)) as [Hk|H2].
  { apply andb_true_iff in Ha as [[Hrc Hpay]%andb_true_iff Ha]. apply negb_true_iff in Hrc. rewrite Hk, Hrc, Hpay. eexists. split; [reflexivity|].
    split; [apply extended_other; try done; by apply (kind_ne "receive")|done]. }
  apply andb_true_iff in Ha as [[[Hk|Hk]%orb_true_iff|Hk]%orb_true_iff Ha]; apply bool_decide_eq_true_1 in Hk; rewrite Hk.
  - eexists. split; [reflexivity|]. split; [apply extended_other; try done; by apply (kind_ne "constructor")|done].
  - eexists. split; [reflexivity|]. split; [by apply extended_function|done].
  - eexists. split; [reflexivity|]. split; [by apply extended_event|done].
Qed.

Lemma field_loop_accepted fields : forall abi, accepted (HasFallback abi) (HasReceive abi) fields = true ->
  exists abi', field_loop fields abi = Ret abi' /\ extended fields abi abi'.
Proof.
  induction fields as [|f fields IH]; intros abi Ha.
  { exists abi. split; [done|]. split; try done; cbn; try lia; [intros f Hf%not_elem_of_nil; done..|by left]. }
  destruct (field_step_accepted f fields abi Ha) as (abi1 & E & H1 & Ha1). destruct (IH abi1 Ha1) as (abi' & E' & H2).
  exists abi'. cbn [field_loop]. rewrite E. cbn [mbind outcome_bind]. split; [done|by eapply extended_step].
Qed.

(** A contract whose fields are of the known kinds, with at most one fallback
    and one payable receive function, is described without an error, and no
    overload is lost: there are as many methods and events as declared, each of
    them filed with its raw name, arguments and identifier under a name of its
    own, and nothing else is filed. *)
Theorem no_overload_is_lost fields :
  accepted false false fields = true ->
  exists abi, ABI_UnmarshalJSON fields = Ret abi /\
    size (Methods abi) = List.length (filter (is_kind "function") fields) /\
    size (Events abi) = List.length (filter (is_kind "event") fields) /\
    (forall f, f ∈ fields -> is_kind "function" f -> exists name, Methods abi !! name = Some (declared f name)) /\
    (forall f, f ∈ fields -> is_kind "event" f -> exists name, Events abi !! name = Some (declared_event f name)) /\
    (forall name m, Methods abi !! name = Some m -> exists f, f ∈ fields /\ is_kind "function" f /\ m = declared f name).
Proof.
  intros Ha. destruct (field_loop_accepted fields (mk_abi zero_method ∅ ∅ zero_method zero_method) Ha) as (abi & E & [Hm He _ Hf Hv Ho]).
  exists abi. split; [done|]. split; [done|]. split; [done|]. split; [done|]. split; [done|].
  intros name m Hl. destruct (Ho name m Hl) as [Hx|?]; [cbn in Hx; by rewrite lookup_empty in Hx|done].
Qed.

(** ** Call data *)

Lemma declared_ID f name : m_ID (declared f name) = take 4 (Keccak256 (m_Sig (declared f name))) /\ List.length (m_ID (declared f name)) = 4%nat.
Proof.
  unfold declared, NewMethod. cbn [m_ID m_Sig]. rewrite decide_True by done. split; [done|]. rewrite length_take, Keccak256_length. done.
Qed.

Lemma MethodById_found {order : RangeOrder} abi name m data :
  (forall n n' m m', Methods abi !! n = Some m -> Methods abi !! n' = Some m' -> m_ID m = m_ID m' -> n = n') ->
  Methods abi !! name = Some m -> List.length (m_ID m) = 4%nat -> MethodById abi (m_ID m ++ data) = Ret m.
Proof.
  intros Hinj Hm Hlen. unfold MethodById. rewrite length_app, Hlen. cbn [Nat.ltb Nat.leb Nat.add].
  rewrite take_app_length' by done.
  destruct (List.find _ _) as [[n m']|] eqn:E.
  - apply find_some in E as [Hin Heq]. apply bool_decide_eq_true_1 in Heq. cbn [snd] in *.
    apply list_elem_of_In in Hin. rewrite map_range_perm, elem_of_map_to_list in Hin.
    rewrite (Hinj n name m' m Hin Hm Heq) in Hin. congruence.
  - exfalso. assert (Hin : (name, m) ∈ map_range (Methods abi)) by by rewrite map_range_perm, elem_of_map_to_list.
    apply list_elem_of_In in Hin. eapply find_none in E; [|done]. by apply bool_decide_eq_false_1 in E.
Qed.

(** The call data of a method of a described contract are recognized, when no
    two methods share an identifier: the lookup by the first four bytes finds that
    method, in whatever order the map is visited, and unpacking the rest by its
    inputs gives the arguments of the call. *)
Theorem calls_are_recognized {order : RangeOrder} fields abi name m vs spare :
  ABI_UnmarshalJSON fields = Ret abi -> accepted false false fields = true ->
  (forall n n' m m', Methods abi !! n = Some m -> Methods abi !! n' = Some m' -> m_ID m = m_ID m' -> n = n') ->
  name <> [] -> Methods abi !! name = Some m -> packable (args_list (m_Inputs m)) vs ->
  Forall (fun a => arg_Indexed a = false) (args_list (m_Inputs m)) ->
  exists data, ABI_Pack abi name vs = Ret data /\ MethodById abi data = Ret m /\
    UnpackValues (args_list (m_Inputs m)) (mk_buf (drop 4 data) spare) = Ret vs.
Proof.
  intros Eabi Ha Hinj Hne Hm Hp Hidx.
  destruct (field_loop_accepted fields (mk_abi zero_method ∅ ∅ zero_method zero_method) Ha) as (abi' & E & [_ _ _ _ _ Ho]).
  unfold ABI_UnmarshalJSON in Eabi. rewrite E in Eabi. injection Eabi as ->.
  destruct (Ho name m Hm) as [Hx|(f & _ & _ & Em)]; [cbn in Hx; by rewrite lookup_empty in Hx|].
  destruct (declared_ID f name) as [_ Hlen]. rewrite <- Em in Hlen.
  exists (m_ID m ++ layout (arg_parts (args_list (m_Inputs m)) vs)). split; [|split].
  - unfold ABI_Pack. rewrite bool_decide_false by done. rewrite Hm, Pack_layout by done. done.
  - by eapply MethodById_found.
  - rewrite drop_app_length' by done. by apply UnpackValues_layout.
Qed.

(** ** Revert reasons *)

Lemma revertSelector_length : List.length revertSelector = 4%nat.
Proof. unfold revertSelector. rewrite length_take, Keccak256_length. done. Qed.

Definition revert_args : Arguments_ := [mk_arg [] (lit "string") StringTy false].

(** The reason that a call of [Error(string)] carries is read back. *)
Theorem revert_reason_is_read s spare : Forall is_byte s -> Z.of_nat (List.length s) < 2 ^ 57 ->
  UnpackRevert (mk_buf (revertSelector ++ layout (arg_parts revert_args [VString s])) spare) = Ret s.
Proof.
  intros Hs Hlen. pose proof revertSelector_length as Hsel.
  assert (Hpad : Z.of_nat (List.length (pad_words s)) <= Z.of_nat (List.length s) + 31).
  { unfold pad_words. rewrite length_app, length_replicate.
    pose proof (Z.mul_div_le (Z.of_nat (List.length s) + 31) 32 ltac:(lia)). pose proof (Z.div_pos (Z.of_nat (List.length s) + 31) 32 ltac:(lia) ltac:(lia)). lia. }
  assert (Hlay : List.length (layout (arg_parts revert_args [VString s])) = (64 + List.length (pad_words s))%nat).
  { rewrite length_layout. unfold arg_parts, tails, heads_len. cbn [zip_with revert_args arg_Type isDynamicType enc raw_bytes fmap list_fmap List.concat
      tail_of head_len fst snd sum_list]. rewrite app_nil_r, length_app, length_word. unfold id. lia. }
  assert (Hp : packable revert_args [VString s]).
  { split; [split; [|done]| |repeat constructor; done|rewrite Hlay; unfold max_size; lia]; repeat constructor. by eexists. }
  unfold UnpackRevert, buf_len. cbn [vis]. rewrite length_app, Hsel, Hlay. rewrite (proj2 (Z.ltb_ge _ _)) by lia.
  rewrite take_app_length' by done. rewrite bool_decide_true by done. cbn [negb].
  rewrite from_index_in by (unfold buf_len; cbn [vis]; rewrite length_app, Hsel; lia). cbn [mbind outcome_bind vis hid].
  rewrite drop_app_length' by done. fold revert_args. unfold Unpack, buf_len. cbn [vis]. rewrite Hlay, (proj2 (Z.eqb_neq _ _)) by lia.
  rewrite UnpackValues_layout by (done || by repeat constructor). done.
Qed.

(** ** Topics *)

Lemma be_bytes_S i z : be_bytes (S i) z = (z / 256 ^ Z.of_nat i) mod 256 :: be_bytes i z.
Proof. unfold be_bytes. rewrite <- Nat.add_1_r, le_bytes_app. cbn [le_bytes]. by rewrite rev_app_distr. Qed.

Lemma set_low_bytes_spec n : forall i rule c, (i + n <= 32)%nat ->
  set_low_bytes n i rule (replicate (32 - i) c ++ be_bytes i rule) = replicate (32 - (i + n)) c ++ be_bytes (i + n) rule.
Proof.
  induction n as [|n IH]; intros i rule c Hi; [by rewrite Nat.add_0_r|]. cbn [set_low_bytes].
  replace (i + S n)%nat with (S i + n)%nat by lia. rewrite <- IH by lia. f_equal.
  replace (32 - i)%nat with (32 - S i + 1)%nat at 2 by lia. rewrite replicate_add, <- app_assoc. cbn [replicate app].
  rewrite insert_app_r_alt by (rewrite length_replicate; lia). rewrite length_replicate. replace (32 - i - 1 - (32 - S i))%nat with 0%nat by lia.
  cbn [insert list_insert]. rewrite be_bytes_S, Z.shiftr_div_pow2 by lia. do 3 f_equal. rewrite Z.pow_mul_r by lia. done.
Qed.

Lemma be_int_app a b : be_int (a ++ b) = be_int a * 256 ^ Z.of_nat (List.length b) + be_int b.
Proof.
  induction b as [|x b IH] using rev_ind; [rewrite app_nil_r; change (be_int []) with 0; cbn; lia|].
  rewrite app_assoc, !be_int_snoc, IH, length_app, Nat.add_comm. cbn [List.length Nat.add]. rewrite pow256_S. lia.
Qed.

Lemma be_int_ones k : be_int (replicate k 255) = 256 ^ Z.of_nat k - 1.
Proof.
  induction k as [|k IH]; [done|]. change (replicate (S k) 255) with ([255] ++ replicate k 255). rewrite be_int_app, IH, length_replicate, pow256_S.
  change (be_int [255]) with 255. lia.
Qed.

Lemma be_int_zeros k : be_int (replicate k 0) = 0.
Proof. rewrite <- (app_nil_r (replicate k 0)), be_int_leading_zeros. done. Qed.

(** A signed integer of a fixed width is sign-extended to the topic. *)
Lemma genIntType_word size rule : (1 <= size <= 32)%nat ->
  - 256 ^ Z.of_nat size <= 2 * rule < 256 ^ Z.of_nat size -> genIntType rule size = word rule.
Proof.
  intros Hs Hr. unfold genIntType. set (c := if rule <? 0 then 255 else 0).
  pose proof (set_low_bytes_spec size 0 rule c ltac:(lia)) as E. rewrite Nat.sub_0_r, app_nil_r in E. rewrite E. cbn [Nat.add].
  assert (Hc : is_byte c) by (unfold c, is_byte; destruct (_ <? _); lia).
  set (l := replicate (32 - size) c ++ be_bytes size rule).
  assert (Hlen : List.length l = 32%nat) by (unfold l; rewrite length_app, length_replicate, length_be_bytes; lia).
  assert (Hl : Forall is_byte l) by (apply Forall_app; split; [by apply Forall_replicate|apply be_bytes_is_byte]).
  rewrite <- (be_bytes_be_int l Hl), Hlen. unfold word. f_equal.
  unfold l. rewrite be_int_app, length_be_bytes, be_int_be_bytes_mod.
  assert (Hpow : 256 ^ Z.of_nat (32 - size) * 256 ^ Z.of_nat size = 2 ^ 256).
  { rewrite <- Z.pow_add_r by lia. replace (Z.of_nat (32 - size) + Z.of_nat size) with 32 by lia. done. }
  assert (0 < 256 ^ Z.of_nat size) by (apply Z.pow_pos_nonneg; lia).
  unfold c. destruct (Z.ltb_spec rule 0).
  - rewrite be_int_ones. rewrite <- (Z.mod_unique_pos rule (256 ^ Z.of_nat size) (-1) (rule + 256 ^ Z.of_nat size)) by lia.
    rewrite <- (Z.mod_unique_pos rule (2 ^ 256) (-1) (rule + 2 ^ 256)) by nia. lia.
  - rewrite be_int_zeros, !Z.mod_small by nia. lia.
Qed.

Lemma right_aligned_int n : 0 <= n < 2 ^ 256 -> right_aligned (int_bytes n) = Ret (word n).
Proof.
  intros Hn. destruct (int_bytes_pad 32 n Hn) as [Hlen E]. unfold right_aligned, word. rewrite Z.mod_small by done.
  rewrite (proj2 (Nat.ltb_ge _ _)) by done. by rewrite E.
Qed.

Lemma width_bytes n : fixed_width n = true ->
  (1 <= Z.to_nat (n / 8) <= 32)%nat /\ 256 ^ Z.of_nat (Z.to_nat (n / 8)) = 2 ^ n /\ 2 ^ n = 2 * 2 ^ (n - 1) /\ 2 ^ n <= 2 ^ 64.
Proof.
  intros H. destruct (fixed_width_cases n H) as [->|[->|[->| ->]]]; (split; [vm_compute; lia|]); (split; [reflexivity|]); split; reflexivity || lia.
Qed.

(** The value types whose topic is the value: big signed integers only when they
    are not negative. *)
Definition topic_value (t : Ty) (v : value) : Prop :=
  type_ok t /\ has_type t v /\
  match t with
  | IntTy n => fixed_width n = true \/ 0 <= number v
  | UintTy _ | BoolTy | AddressTy | FixedBytesTy _ => True
  | _ => False
  end.

Lemma make_topic_enc t v : topic_value t v -> make_topic v = Ret (enc t v).
Proof.
  intros (Ht & Hv & Hk). destruct Hv; try done; cbn [enc raw_bytes].
  - unfold int_range, int_bits, int_value in *. destruct (fixed_width n) eqn:Ef; cbn [number make_topic] in *; rewrite ?Ef.
    + f_equal. destruct (width_bytes n Ef) as (Hn & Hp & Hp' & _). apply genIntType_word; [done|]. rewrite Hp. lia.
    + destruct Hk as [Hk|Hk]; [done|]. apply right_aligned_int. lia.
  - unfold int_range, int_bits, int_value in *. destruct (fixed_width n) eqn:Ef; cbn [number make_topic] in *; rewrite ?Ef; apply right_aligned_int; [|done].
    destruct (width_bytes n Ef) as (_ & _ & _ & Hp). lia.
  - by destruct b.
  - cbn [make_topic]. unfold right_aligned. by rewrite H.
  - cbn [make_topic is_bytes]. rewrite bytes_of_value, raw_bytes_array. cbn [mbind outcome_bind]. unfold left_aligned. inversion Ht.
    by rewrite (proj2 (Nat.ltb_ge _ _)) by lia.
Qed.

Lemma parse_topic_enc arg v : arg_Indexed arg = true -> topic_value (arg_Type arg) v -> (exists g, GetType (arg_Type arg) = Ret g) ->
  parse_topic arg (enc (arg_Type arg) v) = Ret v.
Proof.
  intros Hi (Ht & Hv & Hk) [g Hg].
  assert (Hpos : at_pos (vis (mk_buf (enc (arg_Type arg) v) [])) 0 (enc (arg_Type arg) v)) by (exists []; cbn [vis]; by rewrite app_nil_r).
  assert (Hd : isDynamicType (arg_Type arg) = false) by (by destruct (arg_Type arg)).
  assert (Hlen : buf_len (mk_buf (enc (arg_Type arg) v) []) < max_size).
  { pose proof (head_size_ok _ Ht v Hv) as Hs. unfold head_len in Hs. rewrite Hd in Hs. cbn [fst snd] in Hs. unfold buf_len. cbn [vis]. rewrite Hs.
    by apply type_size_pos. }
  pose proof (leaf_word_decode _ v g _ 0 Ht Hg Hv Hd ltac:(by destruct (arg_Type arg)) Hlen Hpos) as E. change (Z.of_nat 0) with 0 in E.
  unfold parse_topic. rewrite Hi. cbn [negb]. by destruct (arg_Type arg).
Qed.

Definition indexed_value (a : Argument) (v : value) : Prop :=
  arg_Indexed a = true /\ topic_value (arg_Type a) v /\ exists g, GetType (arg_Type a) = Ret g.

Lemma parse_topics_enc fields vs : Forall2 indexed_value fields vs -> forall out : gmap gostr value,
  exists out', parse_topics (fun arg x o => Ret (<[arg_Name arg := x]> o)) fields (zip_with (fun a v => enc (arg_Type a) v) fields vs) out = (Ret tt, out') /\
    forall name, name ∉ arg_Name <$> fields -> out' !! name = out !! name.
Proof.
  induction 1 as [|a v fields vs (Hi & Ht & Hg) _ IH]; intros out; [by exists out|]. cbn [zip_with parse_topics].
  rewrite parse_topic_enc by done. destruct (IH (<[arg_Name a := v]> out)) as (out' & E & Hout). exists out'. split; [done|].
  intros name Hn. cbn in Hn. apply not_elem_of_cons in Hn as [Hne Hn]. by rewrite Hout, lookup_insert_ne.
Qed.

Lemma parse_topics_values fields vs : Forall2 indexed_value fields vs -> NoDup (arg_Name <$> fields) -> forall out out' : gmap gostr value,
  parse_topics (fun arg x o => Ret (<[arg_Name arg := x]> o)) fields (zip_with (fun a v => enc (arg_Type a) v) fields vs) out = (Ret tt, out') ->
  forall i a v, fields !! i = Some a -> vs !! i = Some v -> out' !! arg_Name a = Some v.
Proof.
  induction 1 as [|a v fields vs Hv Hvs IH]; intros Hnd out out' E i a' v' Ha Hv'; [done|]. cbn in Hnd. apply NoDup_cons in Hnd as [Hni Hnd].
  destruct Hv as (Hi & Ht & Hg). cbn [zip_with parse_topics] in E. rewrite parse_topic_enc in E by done.
  destruct i as [|i]; [|by eapply IH]. injection Ha as <-. injection Hv' as <-.
  destruct (parse_topics_enc fields vs Hvs (<[arg_Name a := v]> out)) as (out1 & E1 & Hout). rewrite E in E1. injection E1 as <-.
  rewrite Hout by done. apply lookup_insert_eq.
Qed.

Lemma MakeTopics_enc fields vs : Forall2 indexed_value fields vs ->
  MakeTopics ((fun v => [v]) <$> vs) = Ret ((fun t => [t]) <$> zip_with (fun a v => enc (arg_Type a) v) fields vs).
Proof.
  induction 1 as [|a v fields vs (Hi & Ht & Hg) _ IH]; [done|]. rewrite fmap_cons. cbn [MakeTopics make_filter].
  rewrite (make_topic_enc _ _ Ht). cbn [mbind outcome_bind]. by rewrite IH.
Qed.

(** The topics made of indexed values give the values back, for integers,
    booleans, addresses and fixed bytes, except that big signed integers must not
    be negative. *)
Theorem topics_give_values_back fields vs :
  Forall2 indexed_value fields vs -> NoDup (arg_Name <$> fields) ->
  exists topics out, MakeTopics ((fun v => [v]) <$> vs) = Ret ((fun t => [t]) <$> topics) /\
    ParseTopicsIntoMap ∅ fields topics = (Ret tt, out) /\
    forall i a v, fields !! i = Some a -> vs !! i = Some v -> out !! arg_Name a = Some v.
Proof.
  intros Hvs Hnd. exists (zip_with (fun a v => enc (arg_Type a) v) fields vs).
  destruct (parse_topics_enc fields vs Hvs ∅) as (out & E & _). exists out. split; [by apply MakeTopics_enc|]. split.
  - unfold ParseTopicsIntoMap, parseTopicWithSetter. rewrite length_zip_with, <- (Forall2_length _ _ _ Hvs), Nat.min_id, Nat.eqb_refl. done.
  - by eapply parse_topics_values.
Qed.

(** ** Topics that are lost *)

Lemma be_int_zero_bytes l : Forall is_byte l -> be_int l = 0 -> l = replicate (List.length l) 0.
Proof.
  intros Hl E. rewrite <- (be_bytes_be_int l Hl) at 1. rewrite E. clear. generalize (List.length l) as n. intros n.
  pose proof (be_bytes_pad 0 n 0 ltac:(cbn; lia)) as H. cbn [Nat.add] in H. rewrite H. apply app_nil_r.
Qed.

(** The topic of a function value never gives the value back, unless it is
    zero: [MakeTopics] writes the 24 bytes at the start of the topic, the reader
    expects them at the end. *)
Theorem function_topics_are_lost arg bs :
  arg_Type arg = FunctionTy -> arg_Indexed arg = true -> List.length bs = 24%nat -> Forall is_byte bs -> bs <> replicate 24 0 ->
  exists topic, make_topic (VArray (GUint 8) (bytes_value bs)) = Ret topic /\
    parse_topic arg topic <> Ret (VArray (GUint 8) (bytes_value bs)).
Proof.
  intros Et Ei Hlen Hbs Hne. exists (bs ++ replicate 8 0). split.
  { cbn [make_topic is_bytes]. rewrite bytes_of_value. cbn [mbind outcome_bind]. unfold left_aligned. by rewrite Hlen. }
  unfold parse_topic. rewrite Ei, Et. cbn [negb]. destruct (Z.eqb_spec (be_int (take 8 (bs ++ replicate 8 0))) 0) as [Ez|]; [|discriminate].
  rewrite take_app_le in Ez by lia. apply be_int_zero_bytes in Ez; [|by apply Forall_take]. rewrite length_take, Hlen in Ez.
  rewrite drop_app_le, take_ge by (rewrite ?length_app, ?length_drop, ?length_replicate; lia).
  intros [= E]. apply (f_equal (fmap byte_value)) in E. rewrite !raw_bytes_array in E. apply Hne. clear Hne.
  (* the three groups of eight bytes are equal *)
  assert (E2 : take 8 (drop 8 bs) = take 8 bs).
  { rewrite <- E at 2. by rewrite take_app_le by (rewrite length_drop; lia). }
  assert (E3 : drop 16 bs = take 8 (drop 8 bs)).
  { rewrite <- E at 2. rewrite drop_app_le by (rewrite length_drop; lia). rewrite drop_drop, take_app_le by (rewrite length_drop; lia).
    by rewrite take_ge by (rewrite length_drop; lia). }
  rewrite <- (take_drop 8 bs), <- (take_drop 8 (drop 8 bs)), drop_drop. change (8 + 8)%nat with 16%nat. rewrite E3, E2, Ez. reflexivity.
Qed.

(** The topic of a negative big integer is the one of its absolute value, and
    is read back as such. *)
Theorem negative_topics_lose_their_sign arg n :
  arg_Type arg = IntTy 256 -> arg_Indexed arg = true -> 0 < n < 2 ^ 255 ->
  exists topic, make_topic (VPtr (VBigInt (- n))) = Ret topic /\ make_topic (VPtr (VBigInt n)) = Ret topic /\
    parse_topic arg topic = Ret (VPtr (VBigInt n)).
Proof.
  intros Et Ei Hn. exists (word n). split; [|split].
  - cbn [make_topic]. unfold int_bytes. replace (bit_len (- n)) with (bit_len n) by (unfold bit_len; rewrite Z.abs_opp; by repeat case_decide; try lia).
    rewrite Z.abs_opp. fold (int_bytes n). apply right_aligned_int. lia.
  - apply right_aligned_int. lia.
  - pose proof (parse_topic_enc arg (VPtr (VBigInt n)) Ei) as H. rewrite Et in H. apply H; [|by eexists].
    split; [constructor|]. split; [|right; cbn; lia]. exact (ht_int 256 n ltac:(unfold int_range, int_bits; cbn -[Z.pow]; lia)).
Qed.

End MethodsSpec.

(** Distinct identifiers, from the list of all methods. *)
Lemma ids_distinct (m : gmap gostr Method) : NoDup ((fun kv : gostr * Method => m_ID (snd kv)) <$> map_to_list m) ->
  forall n n' x x', m !! n = Some x -> m !! n' = Some x' -> m_ID x = m_ID x' -> n = n'.
Proof.
  intros Hnd n n' x x' Hx Hx' E. apply elem_of_map_to_list in Hx, Hx'.
  apply list_elem_of_lookup_1 in Hx as [i Hi], Hx' as [j Hj].
  assert (i = j) as ->.
  { eapply NoDup_lookup; [exact Hnd|rewrite list_lookup_fmap, Hi; done|]. rewrite list_lookup_fmap, Hj. cbn. by rewrite E. }
  rewrite Hi in Hj. by injection Hj.
Qed.

(** ** A concrete contract *)

Module MethodsToy.
Import AbiToy AbiSpecToy AbiRoundToy.

Definition toy_send (inputs : Arguments_) : abi_field :=
  mk_field (lit "function") (lit "send") (Some inputs) (Some []) (lit "nonpayable") false false false.
Definition toy_event : abi_field :=
  mk_field (lit "event") (lit "sent") (Some toy_args) None [] false false false.
Definition toy_fields_ : list abi_field := [toy_send toy_args; toy_event; toy_send []].
Definition toy_abi : ABI :=
  match ABI_UnmarshalJSON toy_fields_ with Ret abi => abi | _ => mk_abi zero_method ∅ ∅ zero_method zero_method end.

(** Two functions of one name. *)
Lemma no_overload_is_lost_witness :
  exists abi, ABI_UnmarshalJSON toy_fields_ = Ret abi /\
    size (Methods abi) = List.length (filter (is_kind "function") toy_fields_) /\
    size (Events abi) = List.length (filter (is_kind "event") toy_fields_) /\
    (forall f, f ∈ toy_fields_ -> is_kind "function" f -> exists name, Methods abi !! name = Some (declared f name)) /\
    (forall f, f ∈ toy_fields_ -> is_kind "event" f -> exists name, Events abi !! name = Some (declared_event f name)) /\
    (forall name m, Methods abi !! name = Some m -> exists f, f ∈ toy_fields_ /\ is_kind "function" f /\ m = declared f name).
Proof. apply (no_overload_is_lost (eth := toy_eth)). vm_compute. reflexivity. Defined.

Lemma calls_are_recognized_witness :
  exists data, ABI_Pack toy_abi (lit "send") toy_values = Ret data /\
    MethodById (order := canonical_order) toy_abi data = Ret (declared (toy_send toy_args) (lit "send")) /\
    UnpackValues toy_args (mk_buf (drop 4 data) [9]) = Ret toy_values.
Proof.
  apply (calls_are_recognized (laws := toy_eth_laws) (order := canonical_order) toy_fields_ toy_abi (lit "send") (declared (toy_send toy_args) (lit "send")));
    [vm_compute; reflexivity|vm_compute; reflexivity| |discriminate|vm_compute; reflexivity|exact toy_packable|by repeat constructor].
  apply ids_distinct, (bool_decide_unpack _). vm_compute. exact I.
Defined.

(** [address from, int64 delta], both indexed. *)
Definition toy_indexed : Arguments_ :=
  [mk_arg (lit "from") (lit "address") AddressTy true; mk_arg (lit "delta") (lit "int64") (IntTy 64) true].
Definition toy_topic_values : list value := [VAddress (replicate 20 17); VInt 64 (-5)].

Lemma topics_give_values_back_witness :
  exists topics out, MakeTopics ((fun v => [v]) <$> toy_topic_values) = Ret ((fun t => [t]) <$> topics) /\
    ParseTopicsIntoMap ∅ toy_indexed topics = (Ret tt, out) /\
    forall i a v, toy_indexed !! i = Some a -> toy_topic_values !! i = Some v -> out !! arg_Name a = Some v.
Proof.
  apply (topics_give_values_back (laws := toy_eth_laws)); [|apply (bool_decide_unpack _); vm_compute; exact I].
  apply Forall2_cons_2; [|apply Forall2_cons_2; [|done]]; (split; [done|]); (split; [|by eexists]).
  - split; [constructor|]. split; [|done]. apply ht_address; [done|]. apply Forall_replicate. by split.
  - split; [constructor|]. split; [|by left]. exact (ht_int 64 (-5) ltac:(unfold int_range, int_bits; cbn -[Z.pow]; lia)).
Defined.

Lemma function_topics_are_lost_witness :
  exists topic, make_topic (VArray (GUint 8) (bytes_value (replicate 24 1))) = Ret topic /\
    parse_topic (mk_arg (lit "f") (lit "function") FunctionTy true) topic <> Ret (VArray (GUint 8) (bytes_value (replicate 24 1))).
Proof.
  apply (function_topics_are_lost (eth := toy_eth)); [reflexivity|reflexivity|reflexivity| |discriminate].
  apply Forall_replicate. by split.
Defined.

Lemma negative_topics_lose_their_sign_witness :
  exists topic, make_topic (VPtr (VBigInt (- 5))) = Ret topic /\ make_topic (VPtr (VBigInt 5)) = Ret topic /\
    parse_topic (mk_arg (lit "n") (lit "int256") (IntTy 256) true) topic = Ret (VPtr (VBigInt 5)).
Proof. apply (negative_topics_lose_their_sign (laws := toy_eth_laws) (mk_arg (lit "n") (lit "int256") (IntTy 256) true) 5); [reflexivity|reflexivity|lia]. Defined.

End MethodsToy.
