(* ===== verification/Accounts.v ===== *)
(** * Accounts: locations, derivation paths, and the manager of wallets

    Models [accounts/url.go], [hd.go], [sort.go] and [manager.go], with the types
    of [accounts.go]: locations and their order, the derivation paths of
    hierarchical wallets, and the manager that keeps the wallets of all backends
    sorted by location while they come and go.  The interface [Wallet] is a class.
    Shown here: derivation paths are parsed back, the manager keeps its wallets
    sorted, and a departure of a wallet it does not know removes another one. *)
From stdpp Require Import gmap list sorting.
From Stdlib Require Import ZArith Lia String.
From S2P Require Import Prelude GoString Transaction.

Local Open Scope Z_scope.

Inductive acc_error : Type :=
| ErrSchemeMissing | ErrEmptyPath | ErrAmbiguousPath | ErrInvalidComponent
| ErrComponentRange | ErrHardenedRange | ErrUnknownWallet | ErrUnknownAccount.

(** ** Locations *)

Record URL : Type := mk_URL { Scheme : gostr; Path : gostr }.

#[export] Instance URL_eq_dec : EqDecision URL.
Proof. solve_decision. Defined.

Definition parseURL (url : gostr) : outcome acc_error URL :=
  match split_str (lit "://") 0 url with
  | [scheme; path] => if bool_decide (scheme = []) then Err ErrSchemeMissing else Ret (mk_URL scheme path)
  | _ => Err ErrSchemeMissing
  end.

Definition URL_String (u : URL) : gostr :=
  if bool_decide (Scheme u = []) then Path u else Scheme u ++ lit "://" ++ Path u.

(** The ellipsis is a character of three bytes. *)
Definition TerminalString (u : URL) : gostr :=
  let url := URL_String u in
  if (32 <? List.length url)%nat then take 31 url ++ [226; 128; 166] else url.

Definition URL_Cmp (u url : URL) : comparison :=
  if bool_decide (Scheme u = Scheme url) then str_compare (Path u) (Path url)
  else str_compare (Scheme u) (Scheme url).

(** The search in a list sorted by location, as the manager and the account
    cache call it: the first element that is not before [u]. *)
Definition search_url {A} (key : A -> URL) (l : list A) (u : URL) : nat :=
  sort_Search (List.length l)
    (fun i => match l !! i with
              | Some x => match URL_Cmp (key x) u with Lt => false | _ => true end
              | None => true
              end).

Record Account : Type := mk_Account { acc_Address : Address; acc_URL : URL }.

#[export] Instance Account_eq_dec : EqDecision Account.
Proof. unfold EqDecision, Decision. decide equality; [apply URL_eq_dec|apply Z.eq_dec]. Defined.

(** ** Derivation paths *)

Definition hardened : Z := 2 ^ 31.
Definition DefaultRootDerivationPath : list Z := [hardened + 44; hardened + 60; hardened + 0; 0].
Definition DefaultBaseDerivationPath : list Z := [hardened + 44; hardened + 60; hardened + 0; 0; 0].

Definition parse_component (component : gostr) : outcome acc_error Z :=
  let component := TrimSpace component in
  let '(value, component) := if has_suffix [39] component then (hardened, TrimSpace (TrimSuffix [39] component))
                             else (0, component) in
  match big_SetString0 component with
  | None => Err ErrInvalidComponent
  | Some bigval =>
      let max := 2 ^ 32 - 1 - value in
      if (bigval <? 0) || (max <? bigval) then Err (if value =? 0 then ErrComponentRange else ErrHardenedRange)
      else Ret (value + bigval)
  end.

Fixpoint parse_components (components : list gostr) (result : list Z) : outcome acc_error (list Z) :=
  match components with
  | [] => Ret result
  | component :: components' => value ← parse_component component; parse_components components' (result ++ [value])
  end.

Definition ParseDerivationPath (path : gostr) : outcome acc_error (list Z) :=
  match split_at 47 path with
  | [] => Err ErrEmptyPath
  | first :: rest =>
      if bool_decide (TrimSpace first = []) then Err ErrAmbiguousPath
      else if bool_decide (TrimSpace first = lit "m") then
        match rest with [] => Err ErrEmptyPath | _ => parse_components rest [] end
      else parse_components (first :: rest) DefaultRootDerivationPath
  end.

Definition print_component (component : Z) : gostr :=
  if hardened <=? component then itoa (component - hardened) ++ [39] else itoa component.

Definition DerivationPath_String (path : list Z) : gostr :=
  foldl (fun result component => result ++ 47 :: print_component component) (lit "m") path.

(** ** The manager of wallets *)

(** What the manager uses of the interface [Wallet]. *)
Class Wallet (W : Type) : Type := {
  wallet_URL : W -> URL;
  wallet_Accounts : W -> list Account;
  wallet_Contains : W -> Account -> bool
}.

Inductive WalletEventType : Type := WalletArrived | WalletOpened | WalletDropped.

Section Manager.
Context {W : Type} `{wallet : !Wallet W}.

Record WalletEvent : Type := mk_event { ev_Wallet : W; ev_Kind : WalletEventType }.

(** A backend has a type and the wallets it reports. *)
Record Backend : Type := mk_Backend { backend_type : nat; backend_Wallets : list W }.

Record Manager : Type := mk_Manager {
  am_backends : gmap nat (list Backend);
  am_updaters : list Backend;
  am_wallets : list W;
  am_feed : list WalletEvent;
  am_running : bool
}.

(** The position at which the location of a wallet belongs. *)
Definition wallet_pos (slice : list W) (w : W) : nat := search_url wallet_URL slice (wallet_URL w).

Definition merge (slice : list W) (wallets : list W) : list W :=
  foldl (fun slice w => let n := wallet_pos slice w in take n slice ++ w :: drop n slice) slice wallets.

Definition drop_wallets (slice : list W) (wallets : list W) : list W :=
  foldl (fun slice w => let n := wallet_pos slice w in
                        if (n =? List.length slice)%nat then slice else take n slice ++ drop (S n) slice) slice wallets.

Definition NewManager (backends : list Backend) : Manager :=
  mk_Manager
    (foldl (fun m b => <[backend_type b := default [] (m !! backend_type b) ++ [b]]> m) ∅ backends)
    backends (foldl (fun wallets b => merge wallets (backend_Wallets b)) [] backends) [] true.

(** One round of the loop [update]: an event of a backend, or the request to
    close. *)
Inductive manager_msg : Type := MsgEvent (e : WalletEvent) | MsgQuit.

Definition update (msg : manager_msg) (am : Manager) : Manager :=
  if negb (am_running am) then am
  else match msg with
       | MsgEvent e =>
           let wallets := match ev_Kind e with
                          | WalletArrived => merge (am_wallets am) [ev_Wallet e]
                          | WalletDropped => drop_wallets (am_wallets am) [ev_Wallet e]
                          | WalletOpened => am_wallets am
                          end in
           mk_Manager (am_backends am) (am_updaters am) wallets (am_feed am ++ [e]) true
       | MsgQuit => mk_Manager (am_backends am) [] (am_wallets am) (am_feed am) false
       end.

Definition Backends (am : Manager) (kind : nat) : list Backend := default [] (am_backends am !! kind).

Definition Wallets (am : Manager) : list W := am_wallets am.

Definition manager_Wallet (am : Manager) (url : gostr) : outcome acc_error W :=
  parsed ← parseURL url;
  match List.find (fun w => bool_decide (wallet_URL w = parsed)) (am_wallets am) with
  | Some w => Ret w
  | None => Err ErrUnknownWallet
  end.

Definition manager_Accounts (am : Manager) : list Address :=
  w ← am_wallets am; acc_Address <$> wallet_Accounts w.

Definition manager_Find (am : Manager) (account : Account) : outcome acc_error W :=
  match List.find (fun w => wallet_Contains w account) (am_wallets am) with
  | Some w => Ret w
  | None => Err ErrUnknownAccount
  end.
End Manager.
Arguments WalletEvent : clear implicits.
Arguments Manager : clear implicits.
Arguments Backend : clear implicits.
Arguments manager_msg : clear implicits.

(** ** The order of locations *)

Definition URL_lt (u v : URL) : Prop := URL_Cmp u v = Lt.

Lemma URL_Cmp_eq u v : URL_Cmp u v = Eq <-> u = v.
Proof.
  destruct u as [s p], v as [s' p']. unfold URL_Cmp. cbn [Scheme Path]. case_bool_decide as H.
  - subst. rewrite str_compare_eq. naive_solver.
  - rewrite str_compare_eq. naive_solver.
Qed.

Lemma URL_Cmp_antisym u v : URL_Cmp v u = CompOpp (URL_Cmp u v).
Proof. unfold URL_Cmp. case_bool_decide; case_bool_decide; try congruence; apply str_compare_antisym. Qed.

#[export] Instance URL_lt_strict : StrictOrder URL_lt.
Proof.
  split.
  - intros u H. unfold URL_lt in H. by rewrite (proj2 (URL_Cmp_eq u u) eq_refl) in H.
  - intros u v w. unfold URL_lt, URL_Cmp. destruct (decide (Scheme u = Scheme v)) as [E|E].
    + rewrite (bool_decide_true _ E), E. case_bool_decide; [apply str_compare_trans|done].
    + rewrite (bool_decide_false _ E). destruct (decide (Scheme v = Scheme w)) as [E'|E'].
      * rewrite (bool_decide_true _ E'), <- E'. by rewrite (bool_decide_false _ E).
      * rewrite (bool_decide_false _ E'). intros H1 H2. pose proof (str_compare_trans _ _ _ H1 H2) as H3.
        case_bool_decide as E''; [|done]. rewrite E'' in H3. by rewrite (proj2 (str_compare_eq _ _) eq_refl) in H3.
Qed.

Lemma URL_trichotomy u v : URL_lt u v \/ u = v \/ URL_lt v u.
Proof.
  unfold URL_lt. destruct (URL_Cmp u v) eqn:E; [right; left; by apply URL_Cmp_eq|by left|].
  right; right. by rewrite URL_Cmp_antisym, E.
Qed.

Definition URL_le (u v : URL) : Prop := ~ URL_lt v u.

Lemma URL_lt_not_le u v : URL_lt u v <-> ~ URL_le v u.
Proof. unfold URL_le, URL_lt. destruct (URL_Cmp u v); naive_solver. Qed.

#[export] Instance URL_le_trans : Transitive URL_le.
Proof.
  intros u v w H1 H2 H3. destruct (URL_trichotomy u v) as [H|[->|H]]; [|by apply H2|by apply H1]. apply H2. by transitivity u.
Qed.

Lemma URL_lt_le u v : URL_lt u v -> URL_le u v.
Proof. intros H H'. by apply (irreflexivity URL_lt u); transitivity v. Qed.

Lemma URL_le_lt_or_eq u v : URL_le u v -> URL_lt u v \/ u = v.
Proof. intros H. destruct (URL_trichotomy u v) as [|[|]]; [by left|by right|done]. Qed.

(** ** Lists sorted by location *)

Section SortedByURL.
Context {A : Type} (key : A -> URL).

Definition sorted_by (l : list A) : Prop := StronglySorted (fun x y => URL_le (key x) (key y)) l.

Lemma sorted_by_lookup l i j x y : sorted_by l -> (i < j)%nat -> l !! i = Some x -> l !! j = Some y -> URL_le (key x) (key y).
Proof.
  intros Hs. revert i j. induction Hs as [|z l Hs IH Hz]; intros i j Hij Hi Hj; [done|].
  destruct i as [|i], j as [|j]; try lia; cbn in Hi, Hj; [|apply (IH i j); [lia|done|done]].
  injection Hi as ->. rewrite Forall_forall in Hz. apply Hz. by apply list_elem_of_lookup_2 in Hj.
Qed.

Lemma search_url_split l u : sorted_by l ->
  let n := search_url key l u in
  (n <= List.length l)%nat /\ Forall (fun x => URL_lt (key x) u) (take n l) /\ Forall (fun x => URL_le u (key x)) (drop n l).
Proof.
  intros Hs. destruct (sort_Search_split l (fun x => match URL_Cmp (key x) u with Lt => false | _ => true end)
    (fun i => match l !! i with
              | Some x => match URL_Cmp (key x) u with Lt => false | _ => true end
              | None => true
              end)) as (Hn & Hlo & Hhi); [done| |].
  { intros i j x y Hij Hi Hj Hx. destruct (decide (i = j)) as [->|]; [by assert (y = x) as -> by congruence|].
    pose proof (sorted_by_lookup l i j x y Hs ltac:(lia) Hi Hj) as Hxy.
    destruct (URL_Cmp (key y) u) eqn:E; [done| |done]. exfalso. destruct (URL_le_lt_or_eq _ _ Hxy) as [H|H].
    - assert (H' : URL_lt (key x) u) by (by transitivity (key y)). unfold URL_lt in H'. by rewrite H' in Hx.
    - rewrite H, E in Hx. done. }
  split; [done|]. split; (eapply Forall_impl; [eassumption|]); intros x Hx; cbv beta in Hx; unfold URL_le, URL_lt.
  - by destruct (URL_Cmp (key x) u).
  - intros E. by rewrite E in Hx.
Qed.

Lemma sorted_by_app l1 l2 : sorted_by l1 -> sorted_by l2 ->
  (forall x y, x ∈ l1 -> y ∈ l2 -> URL_le (key x) (key y)) -> sorted_by (l1 ++ l2).
Proof.
  induction 1 as [|x l1 Hs IH Hx]; intros H2 H; [done|]. cbn. constructor.
  - apply IH; [done|]. intros. apply H; [by right|done].
  - apply Forall_app. split; [done|]. apply Forall_forall. intros y Hy. apply H; [by left|done].
Qed.

Lemma sorted_by_app_inv l1 l2 : sorted_by (l1 ++ l2) -> sorted_by l1 /\ sorted_by l2.
Proof.
  induction l1 as [|x l1 IH]; cbn; intros H; [by split; [constructor|]|]. inversion H as [|? ? Hs Hx]; subst.
  destruct (IH Hs). split; [|done]. constructor; [done|]. by apply Forall_app in Hx as [].
Qed.

(** The position between the elements before a location and the others. *)
Lemma search_url_app l1 l2 u : sorted_by (l1 ++ l2) ->
  Forall (fun x => URL_lt (key x) u) l1 -> Forall (fun x => URL_le u (key x)) l2 -> search_url key (l1 ++ l2) u = List.length l1.
Proof.
  intros Hs H1 H2. destruct (search_url_split _ u Hs) as (Hn & Hlo & Hhi). set (n := search_url key (l1 ++ l2) u) in *.
  rewrite length_app in Hn. rewrite Forall_lookup in H1, H2, Hlo, Hhi.
  destruct (lt_eq_lt_dec n (List.length l1)) as [[Hlt|]|Hgt]; [|done|].
  - destruct (lookup_lt_is_Some_2 l1 n Hlt) as [y Hy]. destruct (Hhi O y); [by rewrite lookup_drop, Nat.add_0_r, lookup_app_l|]. by apply (H1 n).
  - destruct (lookup_lt_is_Some_2 l2 0 ltac:(lia)) as [y Hy]. destruct (H2 O y Hy). apply (Hlo (List.length l1)).
    apply lookup_take_Some. split; [|done]. by rewrite lookup_app_r, Nat.sub_diag by lia.
Qed.

Lemma sorted_by_insert l x : sorted_by l ->
  let n := search_url key l (key x) in sorted_by (take n l ++ x :: drop n l).
Proof.
  intros Hs n. destruct (search_url_split l (key x) Hs) as (Hn & Hlo & Hhi). fold n in Hn, Hlo, Hhi.
  rewrite <- (take_drop n l) in Hs. apply sorted_by_app_inv in Hs as [H1 H2].
  rewrite Forall_forall in Hlo, Hhi. apply sorted_by_app; [done| |].
  - constructor; [done|]. by apply Forall_forall.
  - intros a b Ha Hb. apply elem_of_cons in Hb as [->|Hb]; [by apply URL_lt_le, Hlo|].
    transitivity (key x); [by apply URL_lt_le, Hlo|by apply Hhi].
Qed.

Lemma sorted_by_remove l n : sorted_by l -> sorted_by (take n l ++ drop (S n) l).
Proof.
  intros Hs. destruct (l !! n) as [x|] eqn:Hx.
  - rewrite <- (take_drop_middle l n x Hx) in Hs. apply sorted_by_app_inv in Hs as Hs'. destruct Hs' as [H1 H2].
    inversion H2 as [|? ? H2' _]; subst. apply sorted_by_app; [done|done|]. intros a b Ha Hb.
    apply list_elem_of_lookup in Ha as [i Hi], Hb as [j Hj].
    apply (sorted_by_lookup _ i (List.length (take n l) + S j) a b Hs).
    + apply lookup_lt_Some in Hi. lia.
    + by rewrite lookup_app_l by (by apply lookup_lt_Some in Hi).
    + rewrite lookup_app_r by lia. by replace (List.length (take n l) + S j - List.length (take n l))%nat with (S j) by lia.
  - apply lookup_ge_None_1 in Hx. rewrite take_ge, drop_ge, app_nil_r by lia. done.
Qed.

(** A list with distinct locations holds an element exactly where it is
    searched. *)
Lemma search_url_found l x : sorted_by l -> NoDup (key <$> l) -> x ∈ l -> l !! search_url key l (key x) = Some x.
Proof.
  intros Hs Hnd Hx. destruct (search_url_split l (key x) Hs) as (Hn & Hlo & Hhi).
  set (n := search_url key l (key x)) in *. rewrite Forall_forall in Hlo, Hhi.
  rewrite <- (take_drop n l) in Hx. apply elem_of_app in Hx as [Hx|Hx].
  { destruct (irreflexivity URL_lt (key x)). by apply Hlo. }
  destruct (drop n l) as [|y r] eqn:E; [by apply not_elem_of_nil in Hx|].
  assert (Hy : l !! n = Some y).
  { rewrite <- (Nat.add_0_r n), <- lookup_drop, E. done. }
  rewrite Hy. f_equal. apply elem_of_cons in Hx as [->|Hx]; [done|].
  apply list_elem_of_lookup in Hx as [j Hj].
  assert (Hj' : l !! (n + S j)%nat = Some x) by (rewrite <- lookup_drop, E; done).
  pose proof (sorted_by_lookup l n (n + S j) y x Hs ltac:(lia) Hy Hj') as H1. pose proof (Hhi y ltac:(by left)) as H2.
  destruct (URL_le_lt_or_eq _ _ H1) as [H|H]; [by destruct H2|].
  assert (n = (n + S j)%nat); [|lia]. apply (NoDup_lookup (key <$> l) _ _ (key x)); [done| |];
    rewrite list_lookup_fmap; [by rewrite Hy, <- H|by rewrite Hj'].
Qed.
End SortedByURL.

(** ** Derivation paths are parsed back *)

Lemma itoa_ends z : 0 <= z -> exists x r y l, itoa z = x :: r /\ rev (itoa z) = y :: l /\ 48 <= x < 58 /\ 48 <= y < 58.
Proof.
  intros Hz. destruct (itoa_spec z Hz) as (_ & Hd & Hne).
  assert (Hin : forall c, c ∈ itoa z -> 48 <= c < 58).
  { intros c Hc. rewrite Forall_forall in Hd. apply Hd in Hc. unfold is_digit in Hc.
    apply andb_true_iff in Hc as [?%Z.leb_le ?%Z.leb_le]. lia. }
  destruct (itoa z) as [|x r] eqn:E; [done|]. destruct (rev (x :: r)) as [|y l] eqn:Er.
  { apply (f_equal (@List.length Z)) in Er. rewrite length_rev in Er. done. }
  exists x, r, y, l. split; [done|]. split; [done|]. split; apply Hin; [by left|].
  apply list_elem_of_In, in_rev. rewrite Er. by left.
Qed.

Lemma itoa_no_slash z : 0 <= z -> 47 ∉ itoa z.
Proof. intros Hz H. destruct (itoa_spec z Hz) as (_ & Hd & _). rewrite Forall_forall in Hd. by apply Hd in H. Qed.

Lemma itoa_trimmed z : 0 <= z -> TrimSpace (itoa z) = itoa z.
Proof. intros Hz. destruct (itoa_ends z Hz) as (x & r & y & l & E1 & E2 & ? & ?). apply (TrimSpace_id _ x r y l); [done|done|lia|lia]. Qed.

Lemma quoted_trimmed z : 0 <= z -> TrimSpace (itoa z ++ [39]) = itoa z ++ [39].
Proof.
  intros Hz. destruct (itoa_ends z Hz) as (x & r & y & l & E1 & _ & ? & _).
  apply (TrimSpace_id _ x (r ++ [39]) 39 (rev (itoa z))); [by rewrite E1|by rewrite rev_app_distr|lia|lia].
Qed.

Lemma parse_print_component c : 0 <= c < 2 ^ 32 -> parse_component (print_component c) = Ret c /\ 47 ∉ print_component c.
Proof.
  intros Hc. unfold print_component, hardened. destruct (Z.leb_spec (2 ^ 31) c).
  - split; [|rewrite not_elem_of_app; split; [apply itoa_no_slash; lia|by rewrite list_elem_of_singleton]].
    unfold parse_component. rewrite quoted_trimmed by lia.
    assert (Hs : has_suffix [39] (itoa (c - 2 ^ 31) ++ [39]) = true) by (unfold has_suffix; by rewrite rev_app_distr).
    unfold TrimSuffix. rewrite Hs. rewrite length_app, Nat.add_sub, take_app_length, itoa_trimmed, SetString0_itoa by lia.
    unfold hardened. rewrite (proj2 (Z.ltb_ge _ _)), (proj2 (Z.ltb_ge _ _)) by lia. cbn [orb]. f_equal. lia.
  - split; [|apply itoa_no_slash; lia]. unfold parse_component. rewrite itoa_trimmed by lia.
    destruct (itoa_ends c ltac:(lia)) as (x & r & y & l & _ & Er & _ & Hy).
    assert (Hs : has_suffix [39] (itoa c) = false).
    { unfold has_suffix, has_prefix. rewrite Er. cbn. apply bool_decide_false. intros [= ->]. lia. }
    rewrite Hs, SetString0_itoa by lia. rewrite (proj2 (Z.ltb_ge _ _)), (proj2 (Z.ltb_ge _ _)) by lia. done.
Qed.

Lemma print_parts path : forall start, (foldl (fun result c => result ++ 47 :: print_component c) start path) =
  start ++ List.concat ((fun c => 47 :: print_component c) <$> path).
Proof.
  induction path as [|c path IH]; intros start; cbn [foldl fmap list_fmap List.concat]; [by rewrite app_nil_r|].
  rewrite IH. by rewrite <- app_assoc.
Qed.

Lemma split_printed path : Forall (fun c => 0 <= c < 2 ^ 32) path -> forall start, 47 ∉ start ->
  split_at 47 (start ++ List.concat ((fun c => 47 :: print_component c) <$> path)) = start :: (print_component <$> path).
Proof.
  induction 1 as [|c path Hc Hp IH]; intros start Hs; cbn [fmap list_fmap List.concat]; [by rewrite app_nil_r, split_at_plain|].
  cbn [app]. rewrite split_at_app by done. rewrite IH; [done|]. by apply parse_print_component.
Qed.

Lemma parse_components_printed path : Forall (fun c => 0 <= c < 2 ^ 32) path -> forall result,
  parse_components (print_component <$> path) result = Ret (result ++ path).
Proof.
  induction 1 as [|c path Hc Hp IH]; intros result; cbn [fmap list_fmap parse_components]; [by rewrite app_nil_r|].
  rewrite (proj1 (parse_print_component c Hc)). cbn [mbind outcome_bind]. rewrite IH. by rewrite <- app_assoc.
Qed.

(** the string of every non-empty path of 32-bit components, hardened or
    not, is parsed back to the path: decimal digits, the quote, the separators
    and the prefix are read as they are written. *)
Theorem derivation_paths_round_trip (path : list Z) :
  path <> [] -> Forall (fun c => 0 <= c < 2 ^ 32) path ->
  ParseDerivationPath (DerivationPath_String path) = Ret path.
Proof.
  intros Hne Hp. unfold ParseDerivationPath, DerivationPath_String. rewrite print_parts, split_printed; [|done|].
  - replace (TrimSpace (lit "m")) with (lit "m") by reflexivity. rewrite bool_decide_false by done. rewrite bool_decide_true by done.
    destruct path as [|c path]; [done|]. exact (parse_components_printed _ Hp []).
  - cbn. by rewrite list_elem_of_singleton.
Qed.

(** ** The manager keeps its wallets sorted *)

Section ManagerProofs.
Context {W : Type} `{wallet : !Wallet W}.
Notation sorted := (sorted_by (@wallet_URL W wallet)).

Lemma merge_sorted ws : forall slice, sorted slice -> sorted (merge slice ws).
Proof.
  induction ws as [|w ws IH]; intros slice Hs; [done|]. cbn [merge foldl]. apply IH. by apply sorted_by_insert.
Qed.

Lemma merge_one slice w : merge slice [w] ≡ₚ w :: slice.
Proof. cbn. by rewrite <- Permutation_middle, take_drop. Qed.

Lemma drop_sorted ws : forall slice, sorted slice -> sorted (drop_wallets slice ws).
Proof.
  induction ws as [|w ws IH]; intros slice Hs; [done|]. cbn [drop_wallets foldl]. apply IH.
  destruct (_ =? _)%nat; [done|]. by apply sorted_by_remove.
Qed.

(** A known wallet is the one that is dropped. *)
Lemma drop_one slice w : sorted slice -> NoDup (wallet_URL <$> slice) -> w ∈ slice ->
  slice ≡ₚ w :: drop_wallets slice [w].
Proof.
  intros Hs Hnd Hw. pose proof (search_url_found wallet_URL slice w Hs Hnd Hw) as Hl. cbn.
  fold (wallet_pos slice w) in Hl. pose proof (lookup_lt_Some _ _ _ Hl).
  rewrite (proj2 (Nat.eqb_neq _ _)) by lia. rewrite Permutation_middle. by rewrite take_drop_middle.
Qed.

Lemma NewManager_sorted backends : sorted (am_wallets (NewManager backends)).
Proof.
  cbn [NewManager am_wallets]. assert (H : sorted []) by constructor. revert H. generalize (@nil W) as l.
  induction backends as [|b backends IH]; intros l Hl; [done|]. cbn [foldl]. by apply IH, merge_sorted.
Qed.

Lemma update_sorted msg am : sorted (am_wallets am) -> sorted (am_wallets (update msg am)).
Proof.
  intros Hs. unfold update. destruct (negb _); [done|]. destruct msg as [e|]; [|done].
  cbn [am_wallets]. destruct (ev_Kind e); [by apply merge_sorted|done|by apply drop_sorted].
Qed.

(** the departure of a wallet that the manager does not know removes
    another one, the next in the order of locations: [drop] looks at the
    position at which the wallet would be and never compares the locations. *)
Theorem unknown_departure_removes_another (am : Manager W) (w x : W) (l1 l2 : list W) :
  am_running am = true -> am_wallets am = l1 ++ x :: l2 -> sorted (am_wallets am) ->
  Forall (fun y => URL_lt (wallet_URL y) (wallet_URL w)) l1 -> URL_lt (wallet_URL w) (wallet_URL x) ->
  am_wallets (update (MsgEvent (mk_event w WalletDropped)) am) = l1 ++ l2.
Proof.
  intros Hr Hl Hs H1 Hx. unfold update. rewrite Hr, Hl in *. cbn [negb am_wallets ev_Kind ev_Wallet drop_wallets foldl].
  assert (En : wallet_pos (l1 ++ x :: l2) w = List.length l1).
  { apply search_url_app; [done|done|]. apply sorted_by_app_inv in Hs as [_ Hs]. inversion Hs as [|? ? _ Hl2]; subst.
    constructor; [by apply URL_lt_le|]. eapply Forall_impl; [done|]. intros y Hy. transitivity (wallet_URL x); [by apply URL_lt_le|done]. }
  rewrite En, length_app. cbn [List.length]. rewrite (proj2 (Nat.eqb_neq _ _)) by lia.
  rewrite take_app_length. f_equal. replace (S (List.length l1)) with (List.length l1 + 1)%nat by lia.
  by rewrite <- drop_drop, drop_app_length.
Qed.
End ManagerProofs.

(** ** Concrete inputs *)

Module AccountsToy.
Lemma derivation_paths_round_trip_witness :
  ParseDerivationPath (lit "m/44'/60'/0'/0/7") = Ret [hardened + 44; hardened + 60; hardened; 0; 7].
Proof.
  apply (derivation_paths_round_trip [hardened + 44; hardened + 60; hardened; 0; 7]); [done|].
  unfold hardened. repeat constructor; lia.
Defined.

(** Wallets that are only locations. *)
Definition toy_wallets : Wallet URL := {|
  wallet_URL u := u; wallet_Accounts _ := []; wallet_Contains _ _ := false
|}.
Definition toy_url (c : Z) : URL := mk_URL (lit "keystore") [47; c].
Definition toy_manager : Manager URL := @NewManager URL toy_wallets [mk_Backend 0 [toy_url 99]; mk_Backend 1 [toy_url 97]].

Lemma unknown_departure_removes_another_witness :
  am_wallets (@update URL toy_wallets (MsgEvent (mk_event (toy_url 98) WalletDropped)) toy_manager) = [toy_url 97].
Proof.
  apply (@unknown_departure_removes_another URL toy_wallets toy_manager (toy_url 98) (toy_url 99) [toy_url 97] []);
    [done|reflexivity|apply NewManager_sorted|repeat constructor|done].
Defined.
End AccountsToy.
