(* ===== verification/KeyCrypt.v ===== *)
(** * Encrypted key files

    Models the formats of [accounts/keystore/key.go], [passphrase.go] and
    [presale.go]: how a private key is encrypted with a passphrase into a JSON
    document and decrypted again, in the versions 3 and 1 and in the presale
    format.  A key file holds a JSON value, or text that is not JSON.  The key
    derivation, the block cipher, the curve, and UUIDs are class parameters.
    Shown here: decryption inverts encryption, another passphrase is refused,
    and documents with missing derivation parameters make decryption panic. *)
From stdpp Require Import gmap list sorting.
From Stdlib Require Import ZArith Lia String.
From S2P Require Import Prelude GoString Transaction.

Local Open Scope Z_scope.

(** ** JSON documents *)

(** A number is kept as the integer it is written as, if it is one, and as the
    integer that its floating-point value is cut to. *)
Inductive json : Type :=
| JNull
| JBool (b : bool)
| JNum (int : option Z) (float : Z)
| JStr (s : gostr)
| JArr (l : list json)
| JObj (fields : list (gostr * json)).

(** The contents of a file: its first JSON value, if it begins with one, and
    whether something else follows. *)
Record content : Type := mk_content { c_value : option json; c_more : bool }.

(** [json.Unmarshal] takes the whole text, [Decoder.Decode] the first value. *)
Definition whole_value (c : content) : option json := if c_more c then None else c_value c.

(** Names of fields are matched up to case; two characters outside ASCII fold
    to letters. *)
Fixpoint fold_name (s : gostr) : gostr :=
  match s with
  | [] => []
  | 197 :: 191 :: s' => 115 :: fold_name s'
  | 226 :: 132 :: 170 :: s' => 107 :: fold_name s'
  | c :: s' => (if (65 <=? c) && (c <=? 90) then c + 32 else c) :: fold_name s'
  end.

(** The last field of a name decides; null leaves what was there. *)
Definition struct_field {A} (conv : A -> json -> option A) (init : A) (fields : list (gostr * json)) (name : gostr) : option A :=
  foldl (fun acc kv => match acc with
                       | Some old => if bool_decide (fold_name (fst kv) = name) then conv old (snd kv) else Some old
                       | None => None
                       end) (Some init) fields.

Definition conv_string (old : gostr) (v : json) : option gostr :=
  match v with JStr s => Some s | JNull => Some old | _ => None end.
Definition conv_int (old : Z) (v : json) : option Z :=
  match v with JNum (Some n) _ => Some n | JNull => Some old | _ => None end.
Definition conv_struct (old : list (gostr * json)) (v : json) : option (list (gostr * json)) :=
  match v with JObj fields => Some (old ++ fields) | JNull => Some old | _ => None end.

(** The fields of the value for a struct. *)
Definition struct_fields_of (v : json) : option (list (gostr * json)) := conv_struct [] v.

(** A value of an [interface{}]; a number from JSON is a float. *)
Inductive iface : Type := IInt (n : Z) | IFloat (z : Z) | IString (s : gostr) | IOther.

Definition iface_of (v : json) : iface :=
  match v with JNum _ f => IFloat f | JStr s => IString s | _ => IOther end.

Definition conv_map (old : gmap gostr iface) (v : json) : option (gmap gostr iface) :=
  match v with
  | JObj fields => Some (foldl (fun m kv => <[fst kv := iface_of (snd kv)]> m) old fields)
  | JNull => Some ∅
  | _ => None
  end.

(** The floating-point number nearest to an integer. *)
Definition float_of_int (z : Z) : Z :=
  let a := Z.abs z in
  if a <? 2 ^ 53 then z
  else
    let k := Z.log2 a - 52 in
    let q := a / 2 ^ k in
    let r := a mod 2 ^ k in
    let q' := if (2 ^ (k - 1) <? r) || ((r =? 2 ^ (k - 1)) && Z.odd q) then q + 1 else q in
    Z.sgn z * (q' * 2 ^ k).

Definition json_int (n : Z) : json := JNum (Some n) (float_of_int n).

(** ** Hexadecimal *)

Definition hex_digit (n : Z) : Z := if n <? 10 then 48 + n else 87 + n.

Definition hex_EncodeToString (bs : list Z) : gostr := b ← bs; [hex_digit (b / 16); hex_digit (b mod 16)].

Definition fromHexChar (c : Z) : option Z :=
  if is_digit c then Some (c - 48)
  else if (97 <=? c) && (c <=? 102) then Some (c - 87)
  else if (65 <=? c) && (c <=? 70) then Some (c - 55)
  else None.

Fixpoint hex_DecodeString (s : gostr) : option (list Z) :=
  match s with
  | [] => Some []
  | [_] => None
  | a :: b :: s' =>
      match fromHexChar a, fromHexChar b, hex_DecodeString s' with
      | Some x, Some y, Some bs => Some (x * 16 + y :: bs)
      | _, _, _ => None
      end
  end.

(** ** Keys and documents *)

Inductive key_error : Type :=
| ErrJSON | ErrHex | ErrCipher | ErrVersion | ErrPRF | ErrKDF | ErrScrypt | ErrKeySize
| ErrDecrypt | ErrSeedShort | ErrPresaleAddr.

(** The code outside the repository that key files depend on.  A derived key
    is a slice with its capacity. *)
Class KeyCrypto `{!TxCrypto} : Type := {
  scrypt_Key : list Z -> list Z -> Z -> Z -> Z -> Z -> outcome key_error gobuf;
  pbkdf2_Key : list Z -> list Z -> Z -> Z -> outcome key_error gobuf;
  aes_keystream : list Z -> list Z -> nat -> list Z;
  aes_cbc_blocks : list Z -> list Z -> list Z -> list Z;
  ToECDSAUnsafe : list Z -> PrivateKey;
  key_D : PrivateKey -> Z;
  with_zero_D : PrivateKey -> PrivateKey;
  PubkeyToAddress : PrivateKey -> Address;
  PaddedBigBytes : Z -> Z -> list Z;
  uuid_Parse : gostr -> list Z;
  uuid_String : list Z -> gostr;
  HexToAddress : gostr -> Address;
  FromECDSA : PrivateKey -> list Z;
  HexToECDSA : gostr -> option PrivateKey;
  BytesToAddress : list Z -> Address
}.

Section Keys.
Context `{crypto : !TxCrypto} `{keys : !KeyCrypto}.

Record Key : Type := mk_Key { key_Id : list Z; key_Address : Address; key_PrivateKey : PrivateKey }.

Record CryptoJSON : Type := mk_CryptoJSON {
  Cipher : gostr; CipherText : gostr; CipherParams_IV : gostr; KDF : gostr;
  KDFParams : gmap gostr iface; MAC : gostr
}.

Record encryptedKeyJSON (V : Type) : Type := mk_encrypted {
  ek_Address : gostr; ek_Crypto : CryptoJSON; ek_Id : gostr; ek_Version : V
}.
Arguments mk_encrypted {V}. Arguments ek_Crypto {V}. Arguments ek_Id {V}. Arguments ek_Version {V}.

Definition version : Z := 3.
Definition keyHeaderKDF : gostr := lit "scrypt".
Definition scryptR : Z := 8.
Definition scryptDKLen : Z := 32.

(** ** Ciphers *)

Definition aes_key_ok (key : list Z) : bool := bool_decide (List.length key ∈ [16; 24; 32]%nat).

Definition aesCTRXOR (key inText iv : list Z) : outcome key_error (list Z) :=
  if negb (aes_key_ok key) then Err ErrKeySize
  else if negb (List.length iv =? 16)%nat then Panic
  else Ret (zip_with Z.lxor inText (aes_keystream key iv (List.length inText))).

Definition pkcs7Unpad (input : list Z) : option (list Z) :=
  match last input with
  | None => None
  | Some padding =>
      let n := List.length input in
      if (Z.of_nat n <? padding) || (16 <? padding) then None
      else if padding =? 0 then None
      else if forallb (fun b => b =? padding) (drop (n - Z.to_nat padding) input)
           then Some (take (n - Z.to_nat padding) input) else None
  end.

Definition aesCBCDecrypt (key cipherText iv : list Z) : outcome key_error (list Z) :=
  if negb (aes_key_ok key) then Err ErrKeySize
  else if negb (List.length iv =? 16)%nat then Panic
  else if negb (List.length cipherText mod 16 =? 0)%nat then Panic
  else match pkcs7Unpad (aes_cbc_blocks key iv cipherText) with
       | Some plaintext => Ret plaintext
       | None => Err ErrDecrypt
       end.

(** ** Encryption *)

(** [salt] and [iv] are read from the source of randomness. *)
Definition EncryptDataV3 (data auth : list Z) (scryptN scryptP : Z) (salt iv : list Z) : outcome key_error CryptoJSON :=
  derivedKey ← scrypt_Key auth salt scryptN scryptR scryptP scryptDKLen;
  encryptKey ← reslice derivedKey 0 16;
  cipherText ← aesCTRXOR (vis encryptKey) data iv;
  macKey ← reslice derivedKey 16 32;
  let mac := Keccak256 (vis macKey ++ cipherText) in
  Ret (mk_CryptoJSON (lit "aes-128-ctr") (hex_EncodeToString cipherText) (hex_EncodeToString iv) keyHeaderKDF
         (<[lit "n" := IInt scryptN]> (<[lit "r" := IInt scryptR]> (<[lit "p" := IInt scryptP]>
            (<[lit "dklen" := IInt scryptDKLen]> (<[lit "salt" := IString (hex_EncodeToString salt)]> ∅)))))
         (hex_EncodeToString mac)).

Definition json_of_iface (v : iface) : json :=
  match v with IInt n => json_int n | IFloat z => JNum (Some z) z | IString s => JStr s | IOther => JNull end.

(** [json.Marshal] of the struct: the fields in order, a map by its keys. *)
Definition json_of_crypto (c : CryptoJSON) : json :=
  JObj [(lit "cipher", JStr (Cipher c)); (lit "ciphertext", JStr (CipherText c));
        (lit "cipherparams", JObj [(lit "iv", JStr (CipherParams_IV c))]); (lit "kdf", JStr (KDF c));
        (lit "kdfparams", JObj ((fun kv => (fst kv, json_of_iface (snd kv))) <$>
           merge_sort (fun a b => str_compare (fst a) (fst b) <> Gt) (map_to_list (KDFParams c))));
        (lit "mac", JStr (MAC c))].

Definition EncryptKey (key : Key) (auth : list Z) (scryptN scryptP : Z) (salt iv : list Z) : outcome key_error content :=
  let keyBytes := PaddedBigBytes (key_D (key_PrivateKey key)) 32 in
  cryptoStruct ← EncryptDataV3 keyBytes auth scryptN scryptP salt iv;
  Ret (mk_content (Some (JObj [(lit "address", JStr (hex_EncodeToString (be_bytes 20 (key_Address key))));
                               (lit "crypto", json_of_crypto cryptoStruct);
                               (lit "id", JStr (uuid_String (key_Id key)));
                               (lit "version", json_int version)])) false).

(** ** Decryption *)

Definition ensureInt (x : option iface) : outcome key_error Z :=
  match x with Some (IInt n) => Ret n | Some (IFloat z) => Ret z | _ => Panic end.

Definition ensureString (x : option iface) : outcome key_error gostr :=
  match x with Some (IString s) => Ret s | _ => Panic end.

Definition from_hex (s : gostr) : outcome key_error (list Z) :=
  match hex_DecodeString s with Some bs => Ret bs | None => Err ErrHex end.

Definition getKDFKey (cryptoJSON : CryptoJSON) (auth : list Z) : outcome key_error gobuf :=
  let params := KDFParams cryptoJSON in
  saltText ← ensureString (params !! lit "salt");
  salt ← from_hex saltText;
  dkLen ← ensureInt (params !! lit "dklen");
  if bool_decide (KDF cryptoJSON = keyHeaderKDF) then
    n ← ensureInt (params !! lit "n");
    r ← ensureInt (params !! lit "r");
    p ← ensureInt (params !! lit "p");
    scrypt_Key auth salt n r p dkLen
  else if bool_decide (KDF cryptoJSON = lit "pbkdf2") then
    c ← ensureInt (params !! lit "c");
    prf ← ensureString (params !! lit "prf");
    if bool_decide (prf = lit "hmac-sha256") then pbkdf2_Key auth salt c dkLen else Err ErrPRF
  else Err ErrKDF.

(** The part shared by both versions: the fields, the derived key and the
    check of the authentication code. *)
Definition open_crypto (cryptoJson : CryptoJSON) (auth : list Z) : outcome key_error (gobuf * list Z * list Z) :=
  mac ← from_hex (MAC cryptoJson);
  iv ← from_hex (CipherParams_IV cryptoJson);
  cipherText ← from_hex (CipherText cryptoJson);
  derivedKey ← getKDFKey cryptoJson auth;
  macKey ← reslice derivedKey 16 32;
  if bool_decide (Keccak256 (vis macKey ++ cipherText) = mac) then Ret (derivedKey, cipherText, iv) else Err ErrDecrypt.

Definition DecryptDataV3 (cryptoJson : CryptoJSON) (auth : list Z) : outcome key_error (list Z) :=
  if bool_decide (Cipher cryptoJson = lit "aes-128-ctr") then
    '(derivedKey, cipherText, iv) ← open_crypto cryptoJson auth;
    key ← reslice derivedKey 0 16;
    aesCTRXOR (vis key) cipherText iv
  else Err ErrCipher.

Definition decryptKeyV3 (keyProtected : encryptedKeyJSON Z) (auth : list Z) : outcome key_error (list Z * list Z) :=
  if negb (ek_Version keyProtected =? version) then Err ErrVersion
  else
    let keyId := uuid_Parse (ek_Id keyProtected) in
    plainText ← DecryptDataV3 (ek_Crypto keyProtected) auth;
    Ret (plainText, keyId).

Definition decryptKeyV1 (keyProtected : encryptedKeyJSON gostr) (auth : list Z) : outcome key_error (list Z * list Z) :=
  let keyId := uuid_Parse (ek_Id keyProtected) in
  '(derivedKey, cipherText, iv) ← open_crypto (ek_Crypto keyProtected) auth;
  key ← reslice derivedKey 0 16;
  plainText ← aesCBCDecrypt (take 16 (Keccak256 (vis key))) cipherText iv;
  Ret (plainText, keyId).

(** [json.Unmarshal] into the two structs. *)
Definition crypto_of_json (fields : list (gostr * json)) : option CryptoJSON :=
  cipher ← struct_field conv_string [] fields (lit "cipher");
  cipherText ← struct_field conv_string [] fields (lit "ciphertext");
  params ← struct_field conv_struct [] fields (lit "cipherparams");
  iv ← struct_field conv_string [] params (lit "iv");
  kdf ← struct_field conv_string [] fields (lit "kdf");
  kdfParams ← struct_field conv_map ∅ fields (lit "kdfparams");
  mac ← struct_field conv_string [] fields (lit "mac");
  Some (mk_CryptoJSON cipher cipherText iv kdf kdfParams mac).

Definition encrypted_of_json {V} (conv : V -> json -> option V) (init : V) (v : json) : option (encryptedKeyJSON V) :=
  fields ← struct_fields_of v;
  address ← struct_field conv_string [] fields (lit "address");
  cryptoFields ← struct_field conv_struct [] fields (lit "crypto");
  crypto ← crypto_of_json cryptoFields;
  id ← struct_field conv_string [] fields (lit "id");
  version ← struct_field conv init fields (lit "version");
  Some (mk_encrypted address crypto id version).

(** [m["version"].(string)]: the name is matched exactly. *)
Definition version_string (fields : list (gostr * json)) : option gostr :=
  match foldl (fun m kv => <[fst kv := iface_of (snd kv)]> m) (∅ : gmap gostr iface) fields !! lit "version" with
  | Some (IString s) => Some s
  | _ => None
  end.

Definition unmarshal {A} (o : option A) : outcome key_error A := match o with Some a => Ret a | None => Err ErrJSON end.

Definition DecryptKey (keyjson : content) (auth : list Z) : outcome key_error Key :=
  v ← unmarshal (whole_value keyjson);
  m ← unmarshal (struct_fields_of v);
  '(keyBytes, keyId) ← (if bool_decide (version_string m = Some (lit "1"))
                        then k ← unmarshal (encrypted_of_json conv_string [] v); decryptKeyV1 k auth
                        else k ← unmarshal (encrypted_of_json conv_int 0 v); decryptKeyV3 k auth);
  let key := ToECDSAUnsafe keyBytes in
  Ret (mk_Key keyId (PubkeyToAddress key) key).

(** ** Plain keys *)

Definition Key_MarshalJSON (k : Key) : content :=
  mk_content (Some (JObj [(lit "address", JStr (hex_EncodeToString (be_bytes 20 (key_Address k))));
                          (lit "privatekey", JStr (hex_EncodeToString (FromECDSA (key_PrivateKey k))));
                          (lit "id", JStr (uuid_String (key_Id k)));
                          (lit "version", json_int version)])) false.

(** The decoder of plain files reads the first value of the file.  Decoding
    null clears the pointer that is dereferenced next. *)
Definition Key_UnmarshalJSON (j : json) : outcome key_error Key :=
  fields ← match j with JNull => Panic | _ => unmarshal (struct_fields_of j) end;
  address ← unmarshal (struct_field conv_string [] fields (lit "address"));
  privateKey ← unmarshal (struct_field conv_string [] fields (lit "privatekey"));
  id ← unmarshal (struct_field conv_string [] fields (lit "id"));
  _ ← unmarshal (struct_field conv_int 0 fields (lit "version"));
  addr ← from_hex address;
  privkey ← match HexToECDSA privateKey with Some k => Ret k | None => Err ErrHex end;
  Ret (mk_Key (uuid_Parse id) (BytesToAddress addr) privkey).

(** ** The presale format *)

Definition decryptPreSaleKey (fileContent : content) (password : list Z) : outcome key_error Key :=
  v ← unmarshal (whole_value fileContent);
  fields ← unmarshal (struct_fields_of v);
  encSeed ← unmarshal (struct_field conv_string [] fields (lit "encseed"));
  ethAddr ← unmarshal (struct_field conv_string [] fields (lit "ethaddr"));
  _ ← unmarshal (struct_field conv_string [] fields (lit "email"));
  _ ← unmarshal (struct_field conv_string [] fields (lit "btcaddr"));
  encSeedBytes ← from_hex encSeed;
  if (List.length encSeedBytes <? 16)%nat then Err ErrSeedShort
  else
    derivedKey ← pbkdf2_Key password password 2000 16;
    plainText ← aesCBCDecrypt (vis derivedKey) (drop 16 encSeedBytes) (take 16 encSeedBytes);
    let ecKey := ToECDSAUnsafe (Keccak256 plainText) in
    let address := PubkeyToAddress ecKey in
    if bool_decide (hex_EncodeToString (be_bytes 20 address) = ethAddr) then Ret (mk_Key [] address ecKey)
    else Err ErrPresaleAddr.
End Keys.

(** ** What is relied on of that code

    The cipher stream has the length that is asked for, a derived key has the
    length that is asked for, and hashes are byte strings.  A UUID is parsed
    back from its text. *)
Class KeyLaws `{!TxCrypto} `{!KeyCrypto} : Prop := {
  keystream_len : forall key iv n, List.length (aes_keystream key iv n) = n;
  keystream_bytes : forall key iv n, Forall is_byte (aes_keystream key iv n);
  scrypt_len : forall auth salt N r p len d, scrypt_Key auth salt N r p len = Ret d -> buf_len d = len;
  scrypt_bytes : forall auth salt N r p len d, scrypt_Key auth salt N r p len = Ret d -> Forall is_byte (vis d);
  keccak_is_bytes : forall bs, Forall is_byte (Keccak256 bs);
  padded_bytes : forall d, 0 <= d < 256 ^ 32 -> PaddedBigBytes d 32 = be_bytes 32 d;
  uuid_round_trip : forall id, List.length id = 16%nat -> Forall is_byte id -> uuid_Parse (uuid_String id) = id
}.

Section Proofs.
Context `{crypto : !TxCrypto} `{keys : !KeyCrypto} `{laws : !KeyLaws}.

(** ** Hexadecimal and the cipher are inverted *)

Lemma fromHexChar_digit n : 0 <= n < 16 -> fromHexChar (hex_digit n) = Some n.
Proof.
  intros Hn. unfold hex_digit, fromHexChar, is_digit. destruct (Z.ltb_spec n 10).
  - rewrite (proj2 (andb_true_iff _ _)) by (rewrite !Z.leb_le; lia). f_equal. lia.
  - rewrite (proj2 (andb_false_iff _ _)) by (rewrite !Z.leb_gt; lia).
    rewrite (proj2 (andb_true_iff _ _)) by (rewrite !Z.leb_le; lia). f_equal. lia.
Qed.

Lemma hex_round_trip bs : Forall is_byte bs -> hex_DecodeString (hex_EncodeToString bs) = Some bs.
Proof.
  unfold hex_EncodeToString. induction 1 as [|b bs Hb Hbs IH]; [done|]. cbn [mbind list_bind app hex_DecodeString]. unfold is_byte in Hb.
  rewrite !fromHexChar_digit by (split; [apply Z.div_pos || apply Z.mod_pos_bound|apply Z.div_lt_upper_bound || apply Z.mod_pos_bound]; lia).
  cbn [mbind list_bind] in IH. rewrite IH. do 2 f_equal. pose proof (Z.div_mod b 16). lia.
Qed.

Lemma from_hex_encoded bs : Forall is_byte bs -> from_hex (hex_EncodeToString bs) = Ret bs.
Proof. intros H. unfold from_hex. by rewrite hex_round_trip. Qed.

Lemma lxor_byte a b : is_byte a -> is_byte b -> is_byte (Z.lxor a b).
Proof.
  intros [Ha Ha'] [Hb Hb']. assert (0 <= Z.lxor a b) by (by apply Z.lxor_nonneg). split; [done|].
  destruct (decide (Z.lxor a b = 0)) as [->|]; [done|]. apply (Z.log2_lt_pow2 _ 8); [lia|].
  eapply Z.le_lt_trans; [by apply Z.log2_lxor|]. apply Z.max_lub_lt.
  - destruct (decide (a = 0)) as [->|]; [done|]. apply Z.log2_lt_pow2; lia.
  - destruct (decide (b = 0)) as [->|]; [done|]. apply Z.log2_lt_pow2; lia.
Qed.

Lemma xor_bytes a : forall s, Forall is_byte a -> Forall is_byte s -> Forall is_byte (zip_with Z.lxor a s).
Proof.
  induction a as [|x a IH]; intros [|y s] Ha Hs; cbn; try constructor; inversion Ha; inversion Hs; subst; [by apply lxor_byte|by apply IH].
Qed.

Lemma xor_twice a : forall s, List.length s = List.length a -> zip_with Z.lxor (zip_with Z.lxor a s) s = a.
Proof.
  induction a as [|x a IH]; intros [|y s] H; [done|done|done|]. cbn. f_equal; [|apply IH; by injection H].
  by rewrite Z.lxor_assoc, Z.lxor_nilpotent, Z.lxor_0_r.
Qed.

Lemma aesCTRXOR_involutive key text iv out : aesCTRXOR key text iv = Ret out -> aesCTRXOR key out iv = Ret text.
Proof.
  unfold aesCTRXOR. destruct (negb _); [done|]. destruct (negb _); [done|]. intros [= <-]. f_equal.
  rewrite length_zip_with, keystream_len, Nat.min_id. apply xor_twice. by rewrite keystream_len.
Qed.

(** ** Documents are read back *)

Lemma foldl_insert_map {V} (l : list (gostr * V)) : forall m : gmap gostr V,
  foldl (fun m kv => <[fst kv := snd kv]> m) m l = list_to_map (reverse l) ∪ m.
Proof.
  induction l as [|[k v] l IH]; intros m; cbn [foldl]; [symmetry; apply (left_id_L ∅ (∪))|].
  rewrite IH. cbn [fst snd]. rewrite reverse_cons, list_to_map_app. cbn [list_to_map foldr].
  rewrite <- (assoc_L (∪)). f_equal. by rewrite insert_empty, <- insert_union_singleton_l.
Qed.

Lemma foldl_insert_fmap {V V'} (f : V -> V') (l : list (gostr * V)) : forall m : gmap gostr V,
  foldl (fun m kv => <[fst kv := f (snd kv)]> m) (f <$> m) l = f <$> foldl (fun m kv => <[fst kv := snd kv]> m) m l.
Proof. induction l as [|kv l IH]; intros m; cbn [foldl]; [done|]. by rewrite <- fmap_insert, IH. Qed.

Lemma params_read_back (m : gmap gostr iface) l : l ≡ₚ map_to_list m ->
  conv_map ∅ (JObj ((fun kv => (fst kv, json_of_iface (snd kv))) <$> l)) = Some ((fun v => iface_of (json_of_iface v)) <$> m).
Proof.
  intros Hl. cbn [conv_map]. f_equal.
  assert (E : m = foldl (fun m kv => <[fst kv := snd kv]> m) ∅ l).
  { rewrite foldl_insert_map, (right_id_L ∅ (∪)). rewrite <- (list_to_map_to_list m) at 1.
    assert (Hr : map_to_list m ≡ₚ reverse l) by (by rewrite reverse_Permutation). apply list_to_map_proper; [apply NoDup_fst_map_to_list|done]. }
  rewrite E at 1. rewrite <- foldl_insert_fmap, fmap_empty. clear E Hl. generalize (∅ : gmap gostr iface).
  induction l as [|kv l IH]; intros m'; [done|]. cbn [fmap list_fmap foldl fst snd]. apply IH.
Qed.

Lemma crypto_read_back (c : CryptoJSON) : exists fields,
  json_of_crypto c = JObj fields /\
  crypto_of_json fields = Some (mk_CryptoJSON (Cipher c) (CipherText c) (CipherParams_IV c) (KDF c)
    ((fun v => iface_of (json_of_iface v)) <$> KDFParams c) (MAC c)).
Proof.
  eexists. split; [reflexivity|].
  pose proof (params_read_back (KDFParams c) _ (merge_sort_Permutation (fun a b => str_compare (fst a) (fst b) <> Gt) _)) as H.
  set (params := JObj _) in H. transitivity (kp ← conv_map ∅ params; Some (mk_CryptoJSON (Cipher c) (CipherText c) (CipherParams_IV c) (KDF c) kp (MAC c))).
  - reflexivity.
  - by rewrite H.
Qed.

(** ** Encryption and decryption *)

Lemma key_halves d : buf_len d = 32 -> exists h1 h2,
  reslice (E := key_error) d 0 16 = Ret (mk_buf (take 16 (vis d)) h1) /\
  reslice (E := key_error) d 16 32 = Ret (mk_buf (drop 16 (vis d)) h2).
Proof.
  intros Hd. rewrite !reslice_in by lia. do 2 eexists. split; [reflexivity|].
  rewrite take_ge by (unfold buf_len in Hd; rewrite length_drop; lia). reflexivity.
Qed.

(** The document that [EncryptDataV3] makes of a cipher text. *)
Definition document (N P : Z) (salt iv ct mac : list Z) : CryptoJSON :=
  mk_CryptoJSON (lit "aes-128-ctr") (hex_EncodeToString ct) (hex_EncodeToString iv) keyHeaderKDF
    (<[lit "n" := IInt N]> (<[lit "r" := IInt scryptR]> (<[lit "p" := IInt P]>
       (<[lit "dklen" := IInt scryptDKLen]> (<[lit "salt" := IString (hex_EncodeToString salt)]> ∅)))))
    (hex_EncodeToString mac).

(** The same document after it went through JSON. *)
Definition read_document (c : CryptoJSON) : CryptoJSON :=
  mk_CryptoJSON (Cipher c) (CipherText c) (CipherParams_IV c) (KDF c)
    ((fun v => iface_of (json_of_iface v)) <$> KDFParams c) (MAC c).

Lemma EncryptDataV3_document data auth N P salt iv d : scrypt_Key auth salt N scryptR P scryptDKLen = Ret d -> List.length iv = 16%nat ->
  let ct := zip_with Z.lxor data (aes_keystream (take 16 (vis d)) iv (List.length data)) in
  EncryptDataV3 data auth N P salt iv = Ret (document N P salt iv ct (Keccak256 (drop 16 (vis d) ++ ct))) /\
  aesCTRXOR (take 16 (vis d)) data iv = Ret ct.
Proof.
  intros Hd Hiv ct. pose proof (scrypt_len _ _ _ _ _ _ _ Hd) as Hlen. destruct (key_halves d Hlen) as (h1 & h2 & E1 & E2).
  assert (Ex : aesCTRXOR (take 16 (vis d)) data iv = Ret ct).
  { unfold aesCTRXOR, aes_key_ok. unfold buf_len, scryptDKLen in Hlen. rewrite length_take, Nat.min_l by lia.
    rewrite bool_decide_true by (by left). by rewrite Hiv. }
  split; [|done]. unfold EncryptDataV3. rewrite Hd. cbn [mbind outcome_bind]. rewrite E1. cbn [mbind outcome_bind vis].
  rewrite Ex. cbn [mbind outcome_bind]. by rewrite E2.
Qed.

Lemma float_small z : Z.abs z < 2 ^ 53 -> float_of_int z = z.
Proof. intros H. unfold float_of_int. by rewrite (proj2 (Z.ltb_lt _ _)). Qed.

Lemma getKDFKey_document N P salt iv ct mac auth : Z.abs N < 2 ^ 53 -> Z.abs P < 2 ^ 53 -> Forall is_byte salt ->
  getKDFKey (read_document (document N P salt iv ct mac)) auth = scrypt_Key auth salt N scryptR P scryptDKLen.
Proof.
  intros HN HP Hs. unfold getKDFKey. cbn [read_document document KDFParams KDF]. rewrite !lookup_fmap.
  set (params := <[lit "n" := _]> _). assert (Es : params !! lit "salt" = Some (IString (hex_EncodeToString salt))) by reflexivity.
  assert (Ed : params !! lit "dklen" = Some (IInt scryptDKLen)) by reflexivity.
  assert (En : params !! lit "n" = Some (IInt N)) by reflexivity. assert (Er : params !! lit "r" = Some (IInt scryptR)) by reflexivity.
  assert (Ep : params !! lit "p" = Some (IInt P)) by reflexivity. rewrite Es, Ed, En, Er, Ep.
  cbn [fmap option_fmap option_map json_of_iface iface_of json_int ensureString mbind outcome_bind].
  rewrite from_hex_encoded by done. cbn [ensureInt mbind outcome_bind]. rewrite bool_decide_true by done. by rewrite !float_small.
Qed.

Lemma open_document N P salt iv ct mac auth d : Z.abs N < 2 ^ 53 -> Z.abs P < 2 ^ 53 ->
  Forall is_byte salt -> Forall is_byte iv -> Forall is_byte ct -> Forall is_byte mac ->
  scrypt_Key auth salt N scryptR P scryptDKLen = Ret d ->
  open_crypto (read_document (document N P salt iv ct mac)) auth =
    if bool_decide (Keccak256 (drop 16 (vis d) ++ ct) = mac) then Ret (d, ct, iv) else Err ErrDecrypt.
Proof.
  intros HN HP Hs Hiv Hct Hmac Hd. destruct (key_halves d (scrypt_len _ _ _ _ _ _ _ Hd)) as (h1 & h2 & _ & E2).
  unfold open_crypto. rewrite getKDFKey_document, Hd by done. cbn [read_document document MAC CipherParams_IV CipherText].
  rewrite !from_hex_encoded by done. cbn [mbind outcome_bind]. by rewrite E2.
Qed.

Lemma DecryptKey_document address c id auth :
  DecryptKey (mk_content (Some (JObj [(lit "address", JStr address); (lit "crypto", json_of_crypto c);
                                      (lit "id", JStr id); (lit "version", json_int version)])) false) auth =
  (plainText ← DecryptDataV3 (read_document c) auth;
   Ret (mk_Key (uuid_Parse id) (PubkeyToAddress (ToECDSAUnsafe plainText)) (ToECDSAUnsafe plainText))).
Proof.
  destruct (crypto_read_back c) as (fields & -> & E).
  transitivity ('(keyBytes, keyId) ← (k ← unmarshal (crypto ← crypto_of_json fields; Some (mk_encrypted Z address crypto id version));
                                     decryptKeyV3 k auth);
                Ret (E := key_error) (mk_Key keyId (PubkeyToAddress (ToECDSAUnsafe keyBytes)) (ToECDSAUnsafe keyBytes))); [reflexivity|].
  rewrite E. cbn [mbind option_bind outcome_bind unmarshal]. unfold decryptKeyV3. cbn [ek_Version ek_Id ek_Crypto Z.eqb version Pos.eqb negb].
  fold (read_document c). by destruct (DecryptDataV3 (read_document c) auth).
Qed.

Definition valid_key (key : Key) : Prop :=
  let prv := key_PrivateKey key in
  0 <= key_D prv < 256 ^ 32 /\ ToECDSAUnsafe (be_bytes 32 (key_D prv)) = prv /\
  key_Address key = PubkeyToAddress prv /\ List.length (key_Id key) = 16%nat /\ Forall is_byte (key_Id key).

Lemma EncryptKey_spec (key : Key) (auth : list Z) (N P : Z) (salt iv : list Z) (d : gobuf) :
  valid_key key -> Z.abs N < 2 ^ 53 -> Z.abs P < 2 ^ 53 -> Forall is_byte salt -> Forall is_byte iv -> List.length iv = 16%nat ->
  scrypt_Key auth salt N scryptR P scryptDKLen = Ret d ->
  let data := be_bytes 32 (key_D (key_PrivateKey key)) in
  let ct := zip_with Z.lxor data (aes_keystream (take 16 (vis d)) iv (List.length data)) in
  exists c, EncryptKey key auth N P salt iv = Ret c /\ DecryptKey c auth = Ret key /\
    forall auth' d', scrypt_Key auth' salt N scryptR P scryptDKLen = Ret d' ->
      Keccak256 (drop 16 (vis d') ++ ct) <> Keccak256 (drop 16 (vis d) ++ ct) ->
      DecryptKey c auth' = Err ErrDecrypt.
Proof.
  intros (HD & Hkey & Haddr & Hid & Hidb) HN HP Hsalt Hiv Hlen Hd data ct. unfold EncryptKey. rewrite padded_bytes by done.
  fold data in Hkey |- *. destruct (EncryptDataV3_document data auth N P salt iv d Hd Hlen) as [-> Ex]. fold ct in Ex |- *. eexists. split; [reflexivity|].
  assert (Hct : Forall is_byte ct) by (apply xor_bytes; [apply be_bytes_is_byte|apply keystream_bytes]).
  split.
  - rewrite DecryptKey_document. unfold DecryptDataV3. rewrite bool_decide_true by done.
    rewrite (open_document _ _ _ _ _ _ _ d) by (done || apply keccak_is_bytes). rewrite bool_decide_true by done. cbn [mbind outcome_bind].
    destruct (key_halves d (scrypt_len _ _ _ _ _ _ _ Hd)) as (h1 & h2 & -> & _). cbn [mbind outcome_bind vis].
    rewrite (aesCTRXOR_involutive _ _ _ _ Ex). cbn [mbind outcome_bind]. rewrite Hkey, uuid_round_trip by done.
    rewrite <- Haddr. by destruct key.
  - intros auth' d' Hd' Hne. rewrite DecryptKey_document. unfold DecryptDataV3. rewrite bool_decide_true by done.
    rewrite (open_document _ _ _ _ _ _ _ d') by (done || apply keccak_is_bytes). by rewrite bool_decide_false by done.
Qed.

(** C30: a key encrypted with a passphrase is decrypted from the JSON document
    with the same passphrase, whatever the salt and the initial vector; with
    a passphrase whose derived key gives other authentication codes the answer
    is [ErrDecrypt]. *)
Theorem decryption_inverts_encryption (key : Key) (auth : list Z) (N P : Z) (salt iv : list Z) (d : gobuf) :
  valid_key key -> Z.abs N < 2 ^ 53 -> Z.abs P < 2 ^ 53 -> Forall is_byte salt -> Forall is_byte iv -> List.length iv = 16%nat ->
  scrypt_Key auth salt N scryptR P scryptDKLen = Ret d ->
  let data := be_bytes 32 (key_D (key_PrivateKey key)) in
  let ct := zip_with Z.lxor data (aes_keystream (take 16 (vis d)) iv (List.length data)) in
  exists c, EncryptKey key auth N P salt iv = Ret c /\ DecryptKey c auth = Ret key /\
    forall auth' d', scrypt_Key auth' salt N scryptR P scryptDKLen = Ret d' ->
      Keccak256 (drop 16 (vis d') ++ ct) <> Keccak256 (drop 16 (vis d) ++ ct) ->
      DecryptKey c auth' = Err ErrDecrypt.
Proof. apply EncryptKey_spec. Qed.

(** a key file of version 3 whose derivation parameters have no salt, or
    no length, makes every attempt to decrypt it panic instead of fail,
    before the passphrase matters. *)
Theorem malformed_key_file_panics (keyjson : content) (k : encryptedKeyJSON Z) (auth : list Z) (v : json) (m : list (gostr * json))
    (mac iv ct : list Z) :
  whole_value keyjson = Some v -> struct_fields_of v = Some m -> version_string m <> Some (lit "1") ->
  encrypted_of_json conv_int 0 v = Some k -> ek_Version _ k = version -> Cipher (ek_Crypto _ k) = lit "aes-128-ctr" ->
  hex_DecodeString (MAC (ek_Crypto _ k)) = Some mac -> hex_DecodeString (CipherParams_IV (ek_Crypto _ k)) = Some iv ->
  hex_DecodeString (CipherText (ek_Crypto _ k)) = Some ct ->
  KDFParams (ek_Crypto _ k) !! lit "salt" = None \/
    (exists salt bs, KDFParams (ek_Crypto _ k) !! lit "salt" = Some (IString salt) /\ hex_DecodeString salt = Some bs /\
       KDFParams (ek_Crypto _ k) !! lit "dklen" = None) ->
  DecryptKey keyjson auth = Panic.
Proof.
  intros Hv Hm Hver Hk Hvk Hc Hmac Hiv Hct Hp. unfold DecryptKey. rewrite Hv. cbn [unmarshal mbind outcome_bind]. rewrite Hm.
  cbn [unmarshal mbind outcome_bind]. rewrite bool_decide_false by done. rewrite Hk. cbn [unmarshal mbind outcome_bind].
  unfold decryptKeyV3. rewrite Hvk. cbn [version Z.eqb Pos.eqb negb]. unfold DecryptDataV3. rewrite bool_decide_true by done.
  unfold open_crypto, from_hex. rewrite Hmac, Hiv, Hct. cbn [mbind outcome_bind]. unfold getKDFKey, from_hex.
  destruct Hp as [->|(salt & bs & -> & Hs & Hl)]; [done|]. cbn [ensureString mbind outcome_bind]. rewrite Hs. cbn [mbind outcome_bind]. by rewrite Hl.
Qed.
End Proofs.

(** ** A concrete instance *)

Module KeyToy.
Definition toy_keys : @KeyCrypto toy_crypto := {|
  scrypt_Key auth salt N r p len :=
    if len <? 0 then Err ErrScrypt else Ret (mk_buf (be_bytes (Z.to_nat len) ((256 ^ 16 + 1) * be_int auth + be_int salt)) []);
  pbkdf2_Key auth salt c len :=
    if len <? 0 then Panic else Ret (mk_buf (be_bytes (Z.to_nat len) (be_int auth + be_int salt)) []);
  aes_keystream key iv n := be_bytes n (be_int key + be_int iv);
  aes_cbc_blocks key iv text := text;
  ToECDSAUnsafe bs := (be_int bs : @PrivateKey toy_crypto);
  key_D prv := prv;
  with_zero_D _ := (0 : @PrivateKey toy_crypto);
  PubkeyToAddress := @key_address toy_crypto toy_laws;
  PaddedBigBytes z n := be_bytes (Z.to_nat n) z;
  uuid_Parse s := default [] (hex_DecodeString s);
  uuid_String id := hex_EncodeToString id;
  HexToAddress s := be_int (default [] (hex_DecodeString s));
  FromECDSA prv := be_bytes 32 prv;
  HexToECDSA s := be_int <$> hex_DecodeString s;
  BytesToAddress bs := be_int bs
|}.

Lemma toy_address prv : @PubkeyToAddress toy_crypto toy_keys prv = @key_address toy_crypto toy_laws prv.
Proof. unfold PubkeyToAddress, toy_keys. reflexivity. Qed.

Lemma toy_key_laws : @KeyLaws toy_crypto toy_keys.
Proof.
  assert (Hs : forall auth salt N r p len d, @scrypt_Key _ toy_keys auth salt N r p len = Ret d ->
    0 <= len /\ vis d = be_bytes (Z.to_nat len) ((256 ^ 16 + 1) * be_int auth + be_int salt)).
  { intros auth salt N r p len d. unfold scrypt_Key, toy_keys. destruct (Z.ltb_spec len 0); [done|]. by intros [= <-]. }
  split.
  - intros. apply length_be_bytes.
  - intros. apply be_bytes_is_byte.
  - intros auth salt N r p len d Hd. apply Hs in Hd as [Hl Hv]. unfold buf_len. rewrite Hv, length_be_bytes. lia.
  - intros auth salt N r p len d Hd. apply Hs in Hd as [_ ->]. apply be_bytes_is_byte.
  - intros bs. apply be_bytes_is_byte.
  - done.
  - intros id _ Hid. unfold uuid_Parse, uuid_String, toy_keys. by rewrite hex_round_trip.
Qed.

Definition toy_key : @Key toy_crypto := mk_Key (replicate 16 7) (@PubkeyToAddress _ toy_keys 42) (42 : @PrivateKey toy_crypto).
Definition toy_salt : list Z := replicate 32 5.
Definition toy_iv : list Z := replicate 16 9.
Definition toy_derived : gobuf := mk_buf (be_bytes 32 ((256 ^ 16 + 1) * be_int [1; 2] + be_int toy_salt)) [].

Lemma toy_valid_key : @valid_key toy_crypto toy_keys toy_key.
Proof. split; [cbn; lia|]. split; [by vm_compute|]. split; [done|]. split; [done|]. repeat constructor; lia. Qed.

Lemma decryption_inverts_encryption_witness :
  exists c, @EncryptKey toy_crypto toy_keys toy_key [1; 2] 4 1 toy_salt toy_iv = Ret c /\
    @DecryptKey toy_crypto toy_keys c [1; 2] = Ret toy_key /\ @DecryptKey toy_crypto toy_keys c [3] = Err ErrDecrypt.
Proof.
  destruct (@decryption_inverts_encryption toy_crypto toy_keys toy_key_laws toy_key [1; 2] 4 1 toy_salt toy_iv toy_derived toy_valid_key)
    as (c & H1 & H2 & H3); [lia|lia|repeat constructor; lia|repeat constructor; lia|done|done|].
  exists c. split; [exact H1|]. split; [exact H2|]. eapply H3; [reflexivity|by vm_compute].
Defined.

(** A version 3 document without a salt. *)
Definition toy_bad : content :=
  mk_content (Some (JObj [(lit "crypto", JObj [(lit "cipher", JStr (lit "aes-128-ctr")); (lit "kdfparams", JObj [])]);
                          (lit "version", json_int 3)])) false.

Lemma malformed_key_file_panics_witness : @DecryptKey toy_crypto toy_keys toy_bad [1; 2] = Panic.
Proof.
  refine (@malformed_key_file_panics toy_crypto toy_keys toy_bad
    (mk_encrypted Z [] (mk_CryptoJSON (lit "aes-128-ctr") [] [] [] ∅ []) [] 3) [1; 2] _ _ [] [] []
    eq_refl eq_refl _ eq_refl eq_refl eq_refl eq_refl eq_refl eq_refl _).
  - by vm_compute.
  - by left.
Defined.
End KeyToy.
