(* ===== verification/AccountCache.v ===== *)
(** * The cache of the accounts in a key directory

    Models [accounts/keystore/account_cache.go], [file_cache.go] and
    [watch.go]: the list of accounts sorted by location with its index by
    address, the comparison of the directory with the files seen before, and
    the watcher that triggers it.  The key directory is a finite map from paths
    to files.  Shown here: the list and the index stay consistent, and a scan
    makes the cache equal to the directory. *)
From stdpp Require Import gmap list sorting.
From Stdlib Require Import ZArith Lia String.
From S2P Require Import Prelude GoString Transaction Accounts KeyCrypt.

Local Open Scope Z_scope.

(** ** The key directory *)

(** A file has its modification time, its contents, and a mark if it is a
    directory, a link or another special file.  The zero time is 0. *)
Record file : Type := mk_file { f_special : bool; f_mod : Z; f_content : content }.

(** The files of the key directory by their full path. *)
Abbreviation directory := (gmap gostr file).

(** [filepath.Base] of a path. *)
Definition base_name (path : gostr) : gostr :=
  match last_index 47 path with Some i => drop (S i) path | None => path end.

Definition nonKeyFile (path : gostr) (fi : file) : bool :=
  let name := base_name path in
  has_suffix (lit "~") name || has_prefix (lit ".") name || f_special fi.

(** ** The files seen before *)

Record fileCache : Type := mk_fileCache { fc_all : gset gostr; fc_lastMod : Z }.

(** The iteration over a set is the one over a map. *)
Definition set_range {order : RangeOrder} (X : gset gostr) : list gostr := fst <$> map_range (gset_to_gmap () X).

Definition key_files (dir : directory) : directory := filter (fun kf => nonKeyFile (fst kf) (snd kf) = false) dir.

(** [scan] on a directory that can be read: the created, deleted and updated
    paths. *)
Definition scan (dir : directory) (fc : fileCache) : (gset gostr * gset gostr * gset gostr) * fileCache :=
  let files := key_files dir in
  let all := dom files in
  let mods := dom (filter (fun kf => fc_lastMod fc < f_mod (snd kf)) files) in
  let newLastMod := map_fold (fun _ f last => Z.max last (f_mod f)) 0 files in
  let deletes := fc_all fc ∖ all in
  let creates := all ∖ fc_all fc in
  let updates := mods ∖ creates in
  ((creates, deletes, updates), mk_fileCache all newLastMod).

(** ** The cache *)

Record watcher : Type := mk_watcher { w_starting : bool; w_running : bool; w_rescan : bool }.

(** [ac_throttle] says whether the timer exists; [ac_notify] is the channel
    of notifications, with or without one in it, or nil. *)
Record accountCache : Type := mk_cache {
  ac_watcher : watcher;
  ac_all : list Account;
  ac_byAddr : gmap Address (list Account);
  ac_throttle : bool;
  ac_notify : option bool;
  ac_fileC : fileCache
}.

Definition newAccountCache : accountCache :=
  mk_cache (mk_watcher false false false) [] ∅ false (Some false) (mk_fileCache ∅ 0).

Definition set_accounts (all : list Account) (byAddr : gmap Address (list Account)) (ac : accountCache) : accountCache :=
  mk_cache (ac_watcher ac) all byAddr (ac_throttle ac) (ac_notify ac) (ac_fileC ac).
Definition set_fileC (fc : fileCache) (ac : accountCache) : accountCache :=
  mk_cache (ac_watcher ac) (ac_all ac) (ac_byAddr ac) (ac_throttle ac) (ac_notify ac) fc.
Definition set_notify (n : option bool) (ac : accountCache) : accountCache :=
  mk_cache (ac_watcher ac) (ac_all ac) (ac_byAddr ac) (ac_throttle ac) n (ac_fileC ac).
Definition set_watch (w : watcher) (throttle : bool) (ac : accountCache) : accountCache :=
  mk_cache w (ac_all ac) (ac_byAddr ac) throttle (ac_notify ac) (ac_fileC ac).

Definition add_account (newAccount : Account) (ac : accountCache) : accountCache :=
  let i := search_url acc_URL (ac_all ac) (acc_URL newAccount) in
  if bool_decide (ac_all ac !! i = Some newAccount) then ac
  else set_accounts (take i (ac_all ac) ++ newAccount :: drop i (ac_all ac))
         (<[acc_Address newAccount := default [] (ac_byAddr ac !! acc_Address newAccount) ++ [newAccount]]> (ac_byAddr ac)) ac.

Fixpoint removeAccount (slice : list Account) (elem : Account) : list Account :=
  match slice with
  | [] => []
  | a :: slice' => if bool_decide (a = elem) then slice' else a :: removeAccount slice' elem
  end.

(** The index after the removal of an account. *)
Definition remove_indexed (byAddr : gmap Address (list Account)) (removed : Account) : gmap Address (list Account) :=
  match removeAccount (default [] (byAddr !! acc_Address removed)) removed with
  | [] => delete (acc_Address removed) byAddr
  | ba => <[acc_Address removed := ba]> byAddr
  end.

Definition delete_account (removed : Account) (ac : accountCache) : accountCache :=
  set_accounts (removeAccount (ac_all ac) removed) (remove_indexed (ac_byAddr ac) removed) ac.

Definition search_path (l : list Account) (path : gostr) : nat :=
  sort_Search (List.length l)
    (fun i => match l !! i with
              | Some a => match str_compare (Path (acc_URL a)) path with Lt => false | _ => true end
              | None => true
              end).

Definition deleteByFile (path : gostr) (ac : accountCache) : accountCache :=
  let i := search_path (ac_all ac) path in
  match ac_all ac !! i with
  | Some removed =>
      if bool_decide (Path (acc_URL removed) = path)
      then set_accounts (take i (ac_all ac) ++ drop (S i) (ac_all ac)) (remove_indexed (ac_byAddr ac) removed) ac
      else ac
  | None => ac
  end.

Inductive ks_error : Type :=
| ErrNoMatch | ErrAmbiguous (addr : Address) (matches : list Account) | ErrLocked | ErrAccountAlreadyExists
| ErrFile | ErrKeyMismatch | ErrKey (e : key_error) | ErrSign | ErrWallet (e : acc_error) | ErrTx (e : tx_error).

(** [filepath.Join] of the key directory and a name without separators. *)
Definition join_path (keydir name : gostr) : gostr :=
  if bool_decide (name = lit ".") then keydir
  else if bool_decide (name = lit "..") then
    match last_index 47 keydir with Some (S i) => take (S i) keydir | _ => lit "/" end
  else if bool_decide (keydir = lit "/") then keydir ++ name else keydir ++ 47 :: name.

Definition find_account (keydir : gostr) (a : Account) (ac : accountCache) : outcome ks_error Account :=
  let byAddress := negb (acc_Address a =? 0) in
  let matches := if byAddress then default [] (ac_byAddr ac !! acc_Address a) else ac_all ac in
  let unique := match matches with
                | [m] => Ret m
                | [] => Err ErrNoMatch
                | _ => Err (ErrAmbiguous (acc_Address a)
                              (merge_sort (fun x y => URL_Cmp (acc_URL x) (acc_URL y) <> Gt) matches))
                end in
  let path := Path (acc_URL a) in
  if bool_decide (path = []) then unique
  else
    let path := if bool_decide (47 ∈ path) then path else join_path keydir path in
    match List.find (fun m => bool_decide (acc_URL m = mk_URL (Scheme (acc_URL a)) path)) matches with
    | Some m => Ret m
    | None => if byAddress then unique else Err ErrNoMatch
    end.

Definition close_cache (ac : accountCache) : accountCache :=
  match ac_notify ac with Some _ => set_notify None ac | None => ac end.

Section Scan.
Context `{crypto : !TxCrypto} `{keys : !KeyCrypto} {order : RangeOrder}.

Definition KeyStoreScheme : gostr := lit "keystore".

(** The account named by a key file. *)
Definition readAccount (dir : directory) (path : gostr) : option Account :=
  fd ← dir !! path;
  v ← c_value (f_content fd);
  fields ← struct_fields_of v;
  address ← struct_field conv_string [] fields (lit "address");
  let addr := HexToAddress address in
  if addr =? 0 then None else Some (mk_Account addr (mk_URL KeyStoreScheme path)).

Definition add_read (dir : directory) (ac : accountCache) (path : gostr) : accountCache :=
  match readAccount dir path with Some a => add_account a ac | None => ac end.

(** [None] stands for a directory that does not exist. *)
Definition scanAccounts (disk : option directory) (ac : accountCache) : accountCache :=
  match disk with
  | None => ac
  | Some dir =>
      let '((creates, deletes, updates), fc) := scan dir (ac_fileC ac) in
      let ac := set_fileC fc ac in
      if bool_decide (creates = ∅ /\ deletes = ∅ /\ updates = ∅) then ac
      else
        let ac := foldl (add_read dir) ac (set_range creates) in
        let ac := foldl (fun ac path => deleteByFile path ac) ac (set_range deletes) in
        let ac := foldl (fun ac path => add_read dir (deleteByFile path ac) path) ac (set_range updates) in
        set_notify ((fun _ => true) <$> ac_notify ac) ac
  end.

(** [fired] says whether the throttle has expired. *)
Definition maybeReload (fired : bool) (disk : option directory) (ac : accountCache) : accountCache :=
  if w_running (ac_watcher ac) then ac
  else if ac_throttle ac && negb fired then ac
  else
    let w := ac_watcher ac in
    let w := if w_starting w || w_running w then w else mk_watcher true (w_running w) (w_rescan w) in
    scanAccounts disk (set_watch w true ac).

Definition cache_accounts (fired : bool) (disk : option directory) (ac : accountCache) : list Account * accountCache :=
  let ac := maybeReload fired disk ac in (ac_all ac, ac).

Definition hasAddress (fired : bool) (disk : option directory) (addr : Address) (ac : accountCache) : bool * accountCache :=
  let ac := maybeReload fired disk ac in
  (match default [] (ac_byAddr ac !! addr) with [] => false | _ => true end, ac).

(** The steps of the goroutine of the watcher. *)
Inductive watch_event : Type := WatchFailed | WatchStarted | FileEvent | Debounced | WatchQuit.

Definition watcher_loop (e : watch_event) (disk : option directory) (ac : accountCache) : accountCache :=
  let w := ac_watcher ac in
  match e with
  | WatchFailed | WatchQuit => set_watch (mk_watcher false false (w_rescan w)) (ac_throttle ac) ac
  | WatchStarted => set_watch (mk_watcher (w_starting w) true false) (ac_throttle ac) ac
  | FileEvent => set_watch (mk_watcher (w_starting w) (w_running w) true) (ac_throttle ac) ac
  | Debounced => if w_rescan w
                 then let ac := scanAccounts disk ac in
                      set_watch (mk_watcher (w_starting w) (w_running w) false) (ac_throttle ac) ac
                 else ac
  end.
End Scan.

(** ** Consistency of the list and the index *)

Lemma removeAccount_perm slice elem : elem ∈ slice -> slice ≡ₚ elem :: removeAccount slice elem.
Proof.
  induction slice as [|a slice IH]; intros H; [by apply not_elem_of_nil in H|]. cbn. case_bool_decide as E; [by subst|].
  apply elem_of_cons in H as [->|H]; [done|]. rewrite Permutation_swap. f_equiv. by apply IH.
Qed.

Lemma removeAccount_absent slice elem : elem ∉ slice -> removeAccount slice elem = slice.
Proof.
  induction slice as [|a slice IH]; intros H; [done|]. apply not_elem_of_cons in H as [H1 H2]. cbn.
  rewrite bool_decide_false by congruence. by rewrite IH.
Qed.

Definition of_address (addr : Address) (l : list Account) : list Account := filter (fun a => acc_Address a = addr) l.

(** The index of a list of accounts: under each address its accounts, and no
    empty entry. *)
Definition indexes (byAddr : gmap Address (list Account)) (l : list Account) : Prop :=
  forall addr, default [] (byAddr !! addr) ≡ₚ of_address addr l /\ byAddr !! addr <> Some [].

(** The list is sorted, has each location once, and is indexed; all locations
    are of the key store. *)
Record cache_ok (ac : accountCache) : Prop := {
  ok_sorted : sorted_by acc_URL (ac_all ac);
  ok_distinct : NoDup (acc_URL <$> ac_all ac);
  ok_scheme : Forall (fun a => Scheme (acc_URL a) = lit "keystore") (ac_all ac);
  ok_index : indexes (ac_byAddr ac) (ac_all ac)
}.

Lemma distinct_location ac a b : cache_ok ac -> a ∈ ac_all ac -> b ∈ ac_all ac -> acc_URL a = acc_URL b -> a = b.
Proof.
  intros Hok Ha Hb E. apply list_elem_of_lookup in Ha as [i Hi], Hb as [j Hj].
  assert (i = j) as ->; [|congruence]. apply (NoDup_lookup _ i j (acc_URL a) (ok_distinct ac Hok)); rewrite list_lookup_fmap; [by rewrite Hi|by rewrite Hj, E].
Qed.

Lemma newAccountCache_ok : cache_ok newAccountCache.
Proof. split; [constructor|constructor|constructor|]. intros addr. cbn. by rewrite lookup_empty. Qed.

Lemma indexes_perm m l l' : l ≡ₚ l' -> indexes m l -> indexes m l'.
Proof. intros Hl H addr. destruct (H addr) as [H1 H2]. split; [|done]. rewrite H1. unfold of_address. by rewrite Hl. Qed.

Lemma indexes_add m l a : indexes m l -> indexes (<[acc_Address a := default [] (m !! acc_Address a) ++ [a]]> m) (a :: l).
Proof.
  intros H addr. destruct (H addr) as [H1 H2]. unfold of_address. rewrite filter_cons.
  destruct (decide (acc_Address a = addr)) as [<-|Hne].
  - rewrite lookup_insert_eq. cbn [default]. split; [|intros [= E]; by destruct (default [] (m !! acc_Address a))].
    rewrite H1. unfold of_address. by rewrite Permutation_app_comm.
  - by rewrite lookup_insert_ne.
Qed.

Lemma indexes_remove m l a : indexes m (a :: l) -> indexes (remove_indexed m a) l.
Proof.
  intros H. pose proof (proj1 (H (acc_Address a))) as Ha. unfold of_address in Ha. rewrite filter_cons, decide_True in Ha by done.
  assert (Hin : a ∈ default [] (m !! acc_Address a)) by (rewrite Ha; by left).
  pose proof (Permutation_trans (Permutation_sym Ha) (removeAccount_perm _ _ Hin)) as Hp. apply Permutation_cons_inv in Hp.
  unfold remove_indexed. intros addr. destruct (H addr) as [H1 H2]. unfold of_address in H1. rewrite filter_cons in H1.
  destruct (removeAccount _ a) as [|b ba] eqn:E; (destruct (decide (acc_Address a = addr)) as [<-|Hne]).
  - rewrite lookup_delete_eq. split; [by symmetry|done].
  - by rewrite lookup_delete_ne.
  - rewrite lookup_insert_eq. split; [by symmetry|done].
  - by rewrite lookup_insert_ne.
Qed.

(** ** Adding and removing *)

Lemma add_account_ok a ac : cache_ok ac -> Scheme (acc_URL a) = lit "keystore" ->
  (forall b, b ∈ ac_all ac -> acc_URL b = acc_URL a -> b = a) ->
  cache_ok (add_account a ac) /\ (forall x, x ∈ ac_all (add_account a ac) <-> x = a \/ x ∈ ac_all ac) /\
  ac_fileC (add_account a ac) = ac_fileC ac.
Proof.
  intros [Hs Hd Hsch Hi] Ha Hu. unfold add_account. set (i := search_url _ _ _). case_bool_decide as E.
  { split; [by split|]. split; [|done]. intros x. split; [by right|]. intros [->|]; [|done]. by apply list_elem_of_lookup_2 in E. }
  set (l' := take i _ ++ a :: drop i _). assert (Hp : l' ≡ₚ a :: ac_all ac) by (unfold l'; by rewrite <- Permutation_middle, take_drop).
  assert (Hna : acc_URL a ∉ acc_URL <$> ac_all ac).
  { intros Hin. apply list_elem_of_fmap in Hin as (b & Eb & Hb). pose proof (Hu b Hb (eq_sym Eb)) as ->.
    apply E. by apply search_url_found. }
  split; [|split; [|done]].
  - split; cbn [set_accounts ac_all ac_byAddr].
    + by apply sorted_by_insert.
    + rewrite Hp. by constructor.
    + rewrite Hp. by constructor.
    + apply (indexes_perm _ (a :: ac_all ac)); [by symmetry|]. by apply indexes_add.
  - intros x. cbn [set_accounts ac_all]. rewrite Hp. apply elem_of_cons.
Qed.

(** What remains consistent when one account leaves the list. *)
Lemma cache_ok_without ac a l l' : cache_ok ac -> ac_all ac = l ++ a :: l' ->
  cache_ok (set_accounts (l ++ l') (remove_indexed (ac_byAddr ac) a) ac) /\
  (forall x, x ∈ l ++ l' <-> x ∈ ac_all ac /\ x <> a).
Proof.
  intros [Hs Hd Hsch Hi] E. assert (Hp : ac_all ac ≡ₚ a :: l ++ l') by (rewrite E; by rewrite <- Permutation_middle).
  pose proof Hd as Hd'. rewrite Hp in Hd'. cbn in Hd'. apply NoDup_cons in Hd' as [Hna Hd']. split.
  - split; cbn [set_accounts ac_all ac_byAddr].
    + replace (l ++ l') with (take (List.length l) (ac_all ac) ++ drop (S (List.length l)) (ac_all ac)); [by apply sorted_by_remove|].
      rewrite E, take_app_length. f_equal. replace (S (List.length l)) with (List.length l + 1)%nat by lia. by rewrite <- drop_drop, drop_app_length.
    + done.
    + rewrite Hp in Hsch. by inversion Hsch.
    + apply indexes_remove. by apply (indexes_perm _ (ac_all ac)).
  - intros x. rewrite Hp, elem_of_cons. split; [|by intros [[->|] ]].
    intros Hx. split; [by right|]. intros ->. apply Hna. by apply list_elem_of_fmap_2.
Qed.

Lemma removeAccount_split slice elem : elem ∈ slice -> exists l l', slice = l ++ elem :: l' /\ removeAccount slice elem = l ++ l'.
Proof.
  induction slice as [|a slice IH]; intros H; [by apply not_elem_of_nil in H|]. cbn. case_bool_decide as E; [subst; by exists [], slice|].
  apply elem_of_cons in H as [->|H]; [done|]. destruct (IH H) as (l & l' & -> & ->). by exists (a :: l), l'.
Qed.

Lemma delete_account_ok a ac : cache_ok ac ->
  cache_ok (delete_account a ac) /\ (forall x, x ∈ ac_all (delete_account a ac) <-> x ∈ ac_all ac /\ x <> a) /\
  ac_fileC (delete_account a ac) = ac_fileC ac.
Proof.
  intros Hok. unfold delete_account. destruct (decide (a ∈ ac_all ac)) as [Ha|Ha].
  - destruct (removeAccount_split _ _ Ha) as (l & l' & E & ->). by destruct (cache_ok_without ac a l l' Hok E).
  - rewrite removeAccount_absent by done. destruct Hok as [Hs Hd Hsch Hi].
    assert (Hni : forall addr, default [] (remove_indexed (ac_byAddr ac) a !! addr) ≡ₚ default [] (ac_byAddr ac !! addr) /\ remove_indexed (ac_byAddr ac) a !! addr <> Some []).
    { intros addr. unfold remove_indexed. destruct (Hi addr) as [_ H2]. destruct (Hi (acc_Address a)) as [H3 H4].
      rewrite removeAccount_absent by (rewrite H3; unfold of_address; rewrite list_elem_of_filter; by intros []).
      destruct (ac_byAddr ac !! acc_Address a) as [[|b ba]|] eqn:E; [done| |]; cbn [from_option id];
        (destruct (decide (acc_Address a = addr)) as [<-|Hne]).
      - rewrite lookup_insert_eq, E. done.
      - by rewrite lookup_insert_ne.
      - by rewrite lookup_delete_eq, E.
      - by rewrite lookup_delete_ne. }
    split; [|split; [|done]]; [|intros x; split; [intros Hx; split; [done|by intros ->]|by intros []]].
    split; [done|done|done|]. intros addr. destruct (Hni addr) as [H1 H2]. split; [|done]. cbn. rewrite H1. apply Hi.
Qed.

(** Locations of the key store are compared by their paths. *)
Lemma search_path_url ac path : cache_ok ac -> search_path (ac_all ac) path = search_url acc_URL (ac_all ac) (mk_URL (lit "keystore") path).
Proof.
  intros Hok. unfold search_path, search_url, sort_Search. generalize (List.length (ac_all ac)) at 1 3 as fuel. intros fuel.
  generalize 0%nat as i, (List.length (ac_all ac)) as j. induction fuel as [|fuel IH]; intros i j; [done|]. cbn [search_loop].
  destruct (i <? j)%nat; [|done]. destruct (ac_all ac !! ((i + j) / 2)%nat) as [a|] eqn:E; [|apply IH].
  assert (Ha : Scheme (acc_URL a) = lit "keystore").
  { pose proof (ok_scheme ac Hok) as H. rewrite Forall_lookup in H. by apply H in E. }
  unfold URL_Cmp. cbn [Scheme Path]. rewrite Ha, bool_decide_true by done. destruct (str_compare _ _); apply IH.
Qed.

Lemma deleteByFile_ok path ac : cache_ok ac ->
  cache_ok (deleteByFile path ac) /\ (forall x, x ∈ ac_all (deleteByFile path ac) <-> x ∈ ac_all ac /\ Path (acc_URL x) <> path) /\
  ac_fileC (deleteByFile path ac) = ac_fileC ac.
Proof.
  intros Hok. pose proof (ok_scheme ac Hok) as Hsch. rewrite Forall_forall in Hsch.
  assert (Hurl : forall x, x ∈ ac_all ac -> Path (acc_URL x) = path -> acc_URL x = mk_URL (lit "keystore") path).
  { intros x Hx Hp. specialize (Hsch x Hx). destruct (acc_URL x). by cbn in *; subst. }
  destruct (decide (Exists (fun a => Path (acc_URL a) = path) (ac_all ac))) as [(a & Ha & Hpa)%Exists_exists|Hnone].
  - pose proof (search_url_found acc_URL _ a (ok_sorted ac Hok) (ok_distinct ac Hok) Ha) as Hl.
    rewrite (Hurl a Ha Hpa), <- search_path_url in Hl by done. unfold deleteByFile. rewrite Hl, bool_decide_true by done.
    pose proof (take_drop_middle _ _ _ Hl) as E. destruct (cache_ok_without ac a _ _ Hok (eq_sym E)) as [H1 H2].
    split; [done|]. split; [|done]. intros x. cbn [set_accounts ac_all]. rewrite H2. split; intros [Hx H]; split; try done; [|congruence].
    intros Hp. apply H. apply (distinct_location ac); [done|done|done|]. by rewrite (Hurl x Hx Hp), (Hurl a Ha Hpa).
  - unfold deleteByFile. destruct (ac_all ac !! _) as [r|] eqn:E.
    + rewrite bool_decide_false by (intros Hp; apply Hnone, Exists_exists; exists r; split; [by apply list_elem_of_lookup_2 in E|done]).
      split; [done|]. split; [|done]. intros x. split; [|by intros []]. intros Hx. split; [done|]. intros Hp. apply Hnone, Exists_exists. by exists x.
    + split; [done|]. split; [|done]. intros x. split; [|by intros []]. intros Hx. split; [done|]. intros Hp. apply Hnone, Exists_exists. by exists x.
Qed.

(** ** A scan mirrors the directory *)

Section ScanProofs.
Context `{crypto : !TxCrypto} `{keys : !KeyCrypto} {order : RangeOrder}.

Lemma set_range_elem (X : gset gostr) p : p ∈ set_range X <-> p ∈ X.
Proof.
  unfold set_range. rewrite list_elem_of_fmap. split.
  - intros ([q []] & -> & Hq). rewrite map_range_perm, elem_of_map_to_list in Hq. by apply lookup_gset_to_gmap_Some in Hq as [].
  - intros Hp. exists (p, ()). split; [done|]. rewrite map_range_perm, elem_of_map_to_list. by apply lookup_gset_to_gmap_Some.
Qed.

Lemma readAccount_url dir p a : readAccount dir p = Some a -> acc_URL a = mk_URL (lit "keystore") p.
Proof.
  unfold readAccount. destruct (dir !! p); [|done]. cbn. destruct (c_value _); [|done]. cbn. destruct (struct_fields_of _); [|done]. cbn.
  destruct (struct_field _ _ _ _); [|done]. cbn. destruct (_ =? 0); [done|]. by intros [= <-].
Qed.

Lemma cached_url ac a p : cache_ok ac -> a ∈ ac_all ac -> Path (acc_URL a) = p -> acc_URL a = mk_URL (lit "keystore") p.
Proof.
  intros Hok Ha Hp. pose proof (ok_scheme ac Hok) as H. rewrite Forall_forall in H. specialize (H a Ha). destruct (acc_URL a). by cbn in *; subst.
Qed.

(** Reading a file whose cached account, if any, is the one in the file. *)
Lemma add_read_ok dir ac p : cache_ok ac -> (forall b, b ∈ ac_all ac -> Path (acc_URL b) = p -> readAccount dir p = Some b) ->
  cache_ok (add_read dir ac p) /\ (forall x, x ∈ ac_all (add_read dir ac p) <-> x ∈ ac_all ac \/ readAccount dir p = Some x) /\
  ac_fileC (add_read dir ac p) = ac_fileC ac.
Proof.
  intros Hok Hag. unfold add_read. destruct (readAccount dir p) as [a|] eqn:E; [|naive_solver].
  pose proof (readAccount_url _ _ _ E) as Hu.
  destruct (add_account_ok a ac Hok) as (H1 & H2 & H3); [by rewrite Hu| |].
  { intros b Hb Eb. rewrite Hu in Eb. specialize (Hag b Hb). rewrite Eb in Hag. specialize (Hag eq_refl). congruence. }
  split; [done|]. split; [|done]. intros x. rewrite H2. naive_solver.
Qed.

Lemma creates_ok dir cs : forall ac, cache_ok ac ->
  (forall p b, p ∈ cs -> b ∈ ac_all ac -> Path (acc_URL b) = p -> readAccount dir p = Some b) ->
  let ac' := foldl (add_read dir) ac cs in
  cache_ok ac' /\ (forall x, x ∈ ac_all ac' <-> x ∈ ac_all ac \/ exists p, p ∈ cs /\ readAccount dir p = Some x) /\ ac_fileC ac' = ac_fileC ac.
Proof.
  induction cs as [|p cs IH]; intros ac Hok Hag; cbn [foldl].
  { split; [done|]. split; [|done]. intros x. split; [by left|]. intros [|(p & Hp & _)]; [done|by apply not_elem_of_nil in Hp]. }
  destruct (add_read_ok dir ac p Hok) as (H1 & H2 & H3); [intros b; apply Hag; by left|].
  destruct (IH (add_read dir ac p) H1) as (H4 & H5 & H6).
  { intros q b Hq Hb Hpb. apply H2 in Hb as [Hb|Hb]; [apply (Hag q b); [by right|done|done]|].
    pose proof (readAccount_url _ _ _ Hb) as Hu. rewrite Hu in Hpb. cbn in Hpb. by subst. }
  split; [done|]. split; [|by rewrite H6]. intros x. rewrite H5, H2. setoid_rewrite elem_of_cons. naive_solver.
Qed.

Lemma deletes_ok ds : forall ac, cache_ok ac ->
  let ac' := foldl (fun ac path => deleteByFile path ac) ac ds in
  cache_ok ac' /\ (forall x, x ∈ ac_all ac' <-> x ∈ ac_all ac /\ Path (acc_URL x) ∉ ds) /\ ac_fileC ac' = ac_fileC ac.
Proof.
  induction ds as [|p ds IH]; intros ac Hok; cbn [foldl].
  { split; [done|]. split; [|done]. intros x. split; [|by intros []]. intros Hx. split; [done|apply not_elem_of_nil]. }
  destruct (deleteByFile_ok p ac Hok) as (H1 & H2 & H3). destruct (IH _ H1) as (H4 & H5 & H6).
  split; [done|]. split; [|by rewrite H6]. intros x. rewrite H5, H2, not_elem_of_cons. naive_solver.
Qed.

Lemma updates_ok dir us : forall ac, cache_ok ac ->
  let ac' := foldl (fun ac path => add_read dir (deleteByFile path ac) path) ac us in
  cache_ok ac' /\
  (forall x, x ∈ ac_all ac' <-> (x ∈ ac_all ac /\ Path (acc_URL x) ∉ us) \/ exists p, p ∈ us /\ readAccount dir p = Some x) /\
  ac_fileC ac' = ac_fileC ac.
Proof.
  induction us as [|p us IH]; intros ac Hok; cbn [foldl].
  { split; [done|]. split; [|done]. intros x. split; [intros Hx; left; split; [done|apply not_elem_of_nil]|].
    intros [[]|(p & Hp & _)]; [done|by apply not_elem_of_nil in Hp]. }
  destruct (deleteByFile_ok p ac Hok) as (H1 & H2 & H3).
  destruct (add_read_ok dir _ p H1) as (H4 & H5 & H6); [intros b Hb Hpb; by apply H2 in Hb as []|].
  destruct (IH _ H4) as (H7 & H8 & H9). split; [done|]. split; [|by rewrite H9, H6]. intros x. rewrite H8, H5, H2, not_elem_of_cons.
  setoid_rewrite elem_of_cons. destruct (decide (Path (acc_URL x) ∈ us)) as [Hin|Hin]; [|split; [|naive_solver]].
  - split; [naive_solver|]. intros [[_ []]|(q & [->|Hq] & Hr)]; [done| |right; by exists q].
    right. exists p. split; [|done]. apply readAccount_url in Hr. by rewrite Hr in Hin.
  - intros [[[[]|Hr] _]|(q & Hq & Hr)]; [naive_solver|right; exists p; naive_solver|right; exists q; naive_solver].
Qed.

(** The cache keeps up with the directory: a file seen before and not
    modified since is cached as it is, and an account whose file was not
    seen yet is the one in the file. *)
Record tracked (dir : directory) (ac : accountCache) : Prop := {
  tr_seen : forall p f a, p ∈ fc_all (ac_fileC ac) -> key_files dir !! p = Some f -> f_mod f <= fc_lastMod (ac_fileC ac) ->
    Path (acc_URL a) = p -> a ∈ ac_all ac <-> readAccount dir p = Some a;
  tr_new : forall p a, p ∉ fc_all (ac_fileC ac) -> a ∈ ac_all ac -> Path (acc_URL a) = p ->
    readAccount dir p = Some a /\ p ∈ dom (key_files dir)
}.

(** The cache holds exactly the accounts of the key files. *)
Definition mirrors (dir : directory) (ac : accountCache) : Prop :=
  cache_ok ac /\ forall a, a ∈ ac_all ac <-> exists p, p ∈ dom (key_files dir) /\ readAccount dir p = Some a.

Lemma scan_members dir ac : cache_ok ac -> tracked dir ac ->
  let '((creates, deletes, updates), fc) := scan dir (ac_fileC ac) in
  let ac' := scanAccounts (Some dir) ac in
  cache_ok ac' /\ ac_fileC ac' = fc /\
  forall x, x ∈ ac_all ac' <->
    ((x ∈ ac_all ac \/ exists p, p ∈ creates /\ readAccount dir p = Some x) /\ Path (acc_URL x) ∉ deletes /\ Path (acc_URL x) ∉ updates) \/
    exists p, p ∈ updates /\ readAccount dir p = Some x.
Proof.
  intros Hok Htr. destruct (scan dir (ac_fileC ac)) as [[[cs ds] us] fc] eqn:E. unfold scanAccounts. rewrite E.
  assert (Hok' : cache_ok (set_fileC fc ac)) by (destruct Hok; by split). case_bool_decide as Hempty.
  { destruct Hempty as (-> & -> & ->). split; [done|]. split; [done|]. cbn. intros x. set_solver. }
  destruct (creates_ok dir (set_range cs) (set_fileC fc ac) Hok') as (H1 & H2 & H3).
  { intros p b Hp Hb Hpb. apply set_range_elem in Hp. apply (tr_new dir ac Htr p b); [|done|done].
    unfold scan in E. injection E as <- <- <- <-. set_solver. }
  destruct (deletes_ok (set_range ds) _ H1) as (H4 & H5 & H6). destruct (updates_ok dir (set_range us) _ H4) as (H7 & H8 & H9).
  set (ac3 := foldl _ _ (set_range us)) in *. split; [destruct H7; by split|]. split; [cbn; by rewrite H9, H6, H3|].
  intros x. cbn [set_notify ac_all]. rewrite H8, H5, H2, !set_range_elem. setoid_rewrite set_range_elem. cbn. naive_solver.
Qed.

Lemma newLastMod_max (files : directory) p f : files !! p = Some f ->
  f_mod f <= map_fold (fun _ f last => Z.max last (f_mod f)) 0 files.
Proof.
  intros Hf. rewrite (map_fold_delete_L _ _ p f files); [lia| |done]. intros. lia.
Qed.

Lemma scan_mirrors dir ac : cache_ok ac -> tracked dir ac ->
  mirrors dir (scanAccounts (Some dir) ac) /\ tracked dir (scanAccounts (Some dir) ac).
Proof.
  intros Hok Htr. pose proof (scan_members dir ac Hok Htr) as H. unfold scan in H. destruct H as (Hok' & Hfc & Hmem).
  set (ac' := scanAccounts (Some dir) ac) in *.
  assert (Hm : forall a, a ∈ ac_all ac' <-> exists p, p ∈ dom (key_files dir) /\ readAccount dir p = Some a).
  { intros a. rewrite Hmem. split.
    - intros [[[Ha|(p & Hp & Hr)] [Hnd Hnu]]|(p & Hp & Hr)]; [|exists p; set_solver|].
      + exists (Path (acc_URL a)). destruct (decide (Path (acc_URL a) ∈ fc_all (ac_fileC ac))) as [Hin|Hin].
        * assert (Hk : Path (acc_URL a) ∈ dom (key_files dir)) by set_solver. split; [done|].
          apply elem_of_dom in Hk as [f Hf]. apply (tr_seen dir ac Htr _ f a Hin Hf); [|done|done].
          destruct (decide (fc_lastMod (ac_fileC ac) < f_mod f)); [|lia]. destruct Hnu.
          rewrite elem_of_difference. split; [|set_solver]. apply elem_of_dom. exists f. by apply map_lookup_filter_Some.
        * destruct (tr_new dir ac Htr _ a Hin Ha eq_refl). done.
      + exists p. split; [|done]. apply elem_of_difference in Hp as [Hp _].
        apply elem_of_dom in Hp as [f Hf]. apply map_lookup_filter_Some in Hf as [Hf _]. by apply elem_of_dom.
    - intros (p & Hp & Hr). pose proof (readAccount_url _ _ _ Hr) as Hu. assert (Hpa : Path (acc_URL a) = p) by (by rewrite Hu).
      apply elem_of_dom in Hp as Hf. destruct Hf as [f Hf].
      destruct (decide (p ∈ fc_all (ac_fileC ac))) as [Hin|Hin].
      + destruct (decide (fc_lastMod (ac_fileC ac) < f_mod f)) as [Hlt|Hge].
        * right. exists p. split; [|done]. apply elem_of_difference. split; [|set_solver]. apply elem_of_dom. exists f. by apply map_lookup_filter_Some.
        * left. split; [left; apply (tr_seen dir ac Htr p f a Hin Hf); [lia|done|done]|]. rewrite Hpa. split; [set_solver|].
          intros [Hu' _]%elem_of_difference. apply elem_of_dom in Hu' as [f' Hf']. apply map_lookup_filter_Some in Hf' as [Hf' Hlt].
          cbn in Hlt. rewrite Hf in Hf'. injection Hf' as ->. lia.
      + left. split; [right; exists p; set_solver|]. rewrite Hpa. set_solver. }
  split; [by split|]. split.
  - intros p f a Hp Hf Hmod Hpa. rewrite Hm. split.
    + intros (q & Hq & Hr). apply readAccount_url in Hr as Hu. rewrite Hu in Hpa. cbn in Hpa. by subst.
    + intros Hr. exists p. split; [by apply elem_of_dom|done].
  - intros p a Hp Ha Hpa. rewrite Hfc in Hp. cbn in Hp. apply Hm in Ha as (q & Hq & Hr).
    apply readAccount_url in Hr as Hu. rewrite Hu in Hpa. cbn in Hpa. by subst.
Qed.
End ScanProofs.

(** ** A history of scans *)

Section History.
Context `{crypto : !TxCrypto} `{keys : !KeyCrypto} {order : RangeOrder}.

(** The next state of the directory: a file that was seen and whose time is not
    after the newest time seen is still the same file. *)
Definition honest_change (fc : fileCache) (dir dir' : directory) : Prop :=
  forall p f, key_files dir' !! p = Some f -> p ∈ fc_all fc -> f_mod f <= fc_lastMod fc -> dir !! p = Some f.

(** The cache after scans of a directory that changes in between. *)
Fixpoint scan_history (dirs : list directory) (ac : accountCache) : accountCache :=
  match dirs with [] => ac | dir :: dirs' => scan_history dirs' (scanAccounts (Some dir) ac) end.

Fixpoint honest_history (ac : accountCache) (dir : directory) (dirs : list directory) : Prop :=
  match dirs with
  | [] => True
  | dir' :: dirs' => honest_change (ac_fileC ac) dir dir' /\ honest_history (scanAccounts (Some dir') ac) dir' dirs'
  end.

(** The cache and the files it has seen are those of the directory. *)
Definition synced (dir : directory) (ac : accountCache) : Prop :=
  mirrors dir ac /\ fc_all (ac_fileC ac) = dom (key_files dir).

Lemma synced_tracked dir dir' ac : synced dir ac -> honest_change (ac_fileC ac) dir dir' -> tracked dir' ac.
Proof.
  intros [[Hok Hm] Hall] Hc. split.
  - intros p f a Hp Hf Hmod Hpa. pose proof (Hc p f Hf Hp Hmod) as Hf0.
    assert (Hr : forall a, readAccount dir' p = Some a <-> readAccount dir p = Some a).
    { intros b. unfold readAccount. apply map_lookup_filter_Some in Hf as [-> _]. by rewrite Hf0. }
    rewrite Hm, Hr. split.
    + intros (q & Hq & Hrq). apply readAccount_url in Hrq as Hu. rewrite Hu in Hpa. cbn in Hpa. by subst.
    + intros Hra. exists p. by rewrite <- Hall.
  - intros p a Hp Ha Hpa. apply Hm in Ha as (q & Hq & Hr). apply readAccount_url in Hr as Hu. rewrite Hu in Hpa. cbn in Hpa. subst.
    by rewrite Hall in Hp.
Qed.

Lemma scan_synced dir dir' ac : synced dir ac -> honest_change (ac_fileC ac) dir dir' -> synced dir' (scanAccounts (Some dir') ac).
Proof.
  intros Hs Hc. pose proof (synced_tracked dir dir' ac Hs Hc) as Ht. destruct Hs as [[Hok _] _].
  split; [by apply scan_mirrors|]. pose proof (scan_members dir' ac Hok Ht) as H. unfold scan in H. destruct H as (_ & -> & _). done.
Qed.

Lemma new_cache_synced : synced ∅ newAccountCache.
Proof.
  assert (E : key_files ∅ = ∅) by apply map_filter_empty. split; [split|].
  - apply newAccountCache_ok.
  - intros a. cbn. rewrite E. split; [by intros ?%not_elem_of_nil|]. intros (p & Hp & _). set_solver.
  - rewrite E. cbn. set_solver.
Qed.

End History.

(** ** Concrete inputs *)

Module CacheToy.
Import KeyToy.
Definition toy_path (c : Z) : gostr := lit "/k/" ++ [c].
Definition toy_file (time addr : Z) : file :=
  mk_file false time (mk_content (Some (JObj [(lit "address", JStr (hex_EncodeToString (be_bytes 20 addr)))])) false).
(** One key file, then a second one beside it. *)
Definition toy_dir1 : directory := {[ toy_path 97 := toy_file 5 11 ]}.
Definition toy_dir2 : directory := <[toy_path 98 := toy_file 6 12]> toy_dir1.

End CacheToy.
