(* ===== verification/KeyStore.v ===== *)
(** * The key store

    Models [accounts/keystore/keystore.go], [wallet.go], the storage of
    [plain.go] and [passphrase.go], the creation of keys in [key.go] and
    [presale.go], and [TextHash] of [accounts/accounts.go]: the object that
    creates, imports, unlocks and deletes keys in a directory and signs with
    them.  Decrypted private keys live in a memory of their own, in which they
    are overwritten when they are dropped; the goroutines that end an unlock are
    tasks.  What a call reads from the world (times, random values, failures of
    the file system) is an argument. *)
From stdpp Require Import gmap list sorting.
From Stdlib Require Import ZArith Lia String.
From S2P Require Import Prelude GoString Transaction Accounts KeyCrypt AccountCache.

Local Open Scope Z_scope.

(** ** File names *)

(** The verb [%0nd]. *)
Definition pad_int (n : nat) (z : Z) : gostr := let s := itoa z in replicate (n - List.length s) 48 ++ s.

(** A time in UTC. *)
Record utc : Type := mk_utc { t_year : Z; t_month : Z; t_day : Z; t_hour : Z; t_minute : Z; t_second : Z; t_nano : Z }.

Definition toISO8601 (t : utc) : gostr :=
  pad_int 4 (t_year t) ++ lit "-" ++ pad_int 2 (t_month t) ++ lit "-" ++ pad_int 2 (t_day t) ++ lit "T"
  ++ pad_int 2 (t_hour t) ++ lit "-" ++ pad_int 2 (t_minute t) ++ lit "-" ++ pad_int 2 (t_second t) ++ lit "."
  ++ pad_int 9 (t_nano t) ++ lit "Z".

Definition keyFileName (ts : utc) (keyAddr : Address) : gostr :=
  lit "UTC--" ++ toISO8601 ts ++ lit "--" ++ hex_EncodeToString (be_bytes 20 keyAddr).

(** The name of the temporary file beside a file. *)
Definition temp_name (file suffix : gostr) : gostr :=
  let base := base_name file in
  take (List.length file - List.length base) file ++ lit "." ++ base ++ lit ".tmp" ++ suffix.

(** ** What a call reads from the world *)

Record world {crypto : TxCrypto} : Type := mk_world {
  w_find : bool;              (* the throttle of the cache has expired when the account is looked up *)
  w_refresh : bool;           (* and when the wallets are refreshed *)
  w_time : utc;
  w_modtime : Z;              (* the time of the file that is written *)
  w_suffix : gostr;           (* the random part of a temporary name *)
  w_salt : list Z;
  w_iv : list Z;
  w_uuid : list Z;
  w_newkey : option PrivateKey;
  w_write : bool;             (* the file system lets the file be written, renamed, removed *)
  w_rename : bool;
  w_remove : bool
}.
Arguments mk_world {crypto}.

Section KeyStore.
Context `{crypto : !TxCrypto} `{keys : !KeyCrypto} {order : RangeOrder}.

(** ** Storage *)

Inductive storage : Type :=
| keyStorePassphrase (scryptN scryptP : Z) (skipKeyFileVerification : bool)
| keyStorePlain.

Definition lift_key {A} (o : outcome key_error A) : outcome ks_error A :=
  match o with Ret a => Ret a | Err e => Err (ErrKey e) | Panic => Panic end.

(** The contents of a file. *)
Definition read_file (disk : option directory) (filename : gostr) : outcome ks_error content :=
  match d ← disk; d !! filename with None => Err ErrFile | Some fd => Ret (f_content fd) end.

Definition passphrase_GetKey (disk : option directory) (addr : Address) (filename : gostr) (auth : list Z) : outcome ks_error Key :=
  keyjson ← read_file disk filename;
  key ← lift_key (DecryptKey keyjson auth);
  if bool_decide (key_Address key = addr) then Ret key else Err ErrKeyMismatch.

Definition plain_GetKey (disk : option directory) (addr : Address) (filename : gostr) : outcome ks_error Key :=
  c ← read_file disk filename;
  key ← lift_key (v ← unmarshal (c_value c); Key_UnmarshalJSON v);
  if bool_decide (key_Address key = addr) then Ret key else Err ErrKeyMismatch.

Definition GetKey (st : storage) (disk : option directory) (addr : Address) (filename : gostr) (auth : list Z) : outcome ks_error Key :=
  match st with
  | keyStorePassphrase _ _ _ => passphrase_GetKey disk addr filename auth
  | keyStorePlain => plain_GetKey disk addr filename
  end.

Definition writeTemporaryKeyFile (w : world) (filename : gostr) (c : content) (disk : option directory)
    : outcome ks_error gostr * option directory :=
  if w_write w then
    let name := temp_name filename (w_suffix w) in
    (Ret name, Some (<[name := mk_file false (w_modtime w) c]> (default ∅ disk)))
  else (Err ErrFile, disk).

Definition rename (w : world) (old new : gostr) (disk : option directory) : outcome ks_error () * option directory :=
  if w_rename w then
    match d ← disk; d !! old with
    | Some f => (Ret tt, Some (<[new := f]> (delete old (default ∅ disk))))
    | None => (Err ErrFile, disk)
    end
  else (Err ErrFile, disk).

Definition writeKeyFile (w : world) (filename : gostr) (c : content) (disk : option directory) : outcome ks_error () * option directory :=
  match writeTemporaryKeyFile w filename c disk with
  | (Ret name, disk) => rename w name filename disk
  | (Err e, disk) => (Err e, disk)
  | (Panic, disk) => (Panic, disk)
  end.

Definition passphrase_StoreKey (w : world) (N P : Z) (skip : bool) (filename : gostr) (key : Key) (auth : list Z) (disk : option directory)
    : outcome ks_error () * option directory :=
  match lift_key (EncryptKey key auth N P (w_salt w) (w_iv w)) with
  | Ret keyjson =>
      match writeTemporaryKeyFile w filename keyjson disk with
      | (Ret tmpName, disk) =>
          match (if skip then Ret tt else _ ← passphrase_GetKey disk (key_Address key) tmpName auth; Ret tt) with
          | Ret _ => rename w tmpName filename disk
          | Err e => (Err e, disk)
          | Panic => (Panic, disk)
          end
      | (Err e, disk) => (Err e, disk)
      | (Panic, disk) => (Panic, disk)
      end
  | Err e => (Err e, disk)
  | Panic => (Panic, disk)
  end.

Definition StoreKey (w : world) (st : storage) (filename : gostr) (key : Key) (auth : list Z) (disk : option directory)
    : outcome ks_error () * option directory :=
  match st with
  | keyStorePassphrase N P skip => passphrase_StoreKey w N P skip filename key auth disk
  | keyStorePlain => writeKeyFile w filename (Key_MarshalJSON key) disk
  end.

(** [JoinPath]: names of key files hold no separator unless they are absolute. *)
Definition JoinPath (keydir filename : gostr) : gostr :=
  if has_prefix (lit "/") filename then filename else join_path keydir filename.

(** ** The object *)

Record keystoreWallet : Type := mk_wallet { kw_account : Account }.

Definition kw_Contains (w : keystoreWallet) (account : Account) : bool :=
  bool_decide (acc_Address account = acc_Address (kw_account w)) &&
  (bool_decide (acc_URL account = mk_URL [] []) || bool_decide (acc_URL account = acc_URL (kw_account w))).

#[export] Instance keystoreWallet_Wallet : Wallet keystoreWallet := {|
  wallet_URL w := acc_URL (kw_account w);
  wallet_Accounts w := [kw_account w];
  wallet_Contains := kw_Contains
|}.

(** An unlock is identified by its pointer; its key is a place in memory, and
    [u_timed] says whether it has a channel to abort its timer. *)
Record unlocked : Type := mk_unlocked { u_ptr : nat; u_key : nat; u_timed : bool }.

Record KeyStore : Type := mk_ks {
  ks_dir : gostr;
  ks_storage : storage;
  ks_disk : option directory;
  ks_cache : accountCache;
  ks_unlocked : gmap Address unlocked;
  ks_mem : list PrivateKey;             (* the private keys that were decrypted *)
  ks_next : nat;                        (* the next pointer *)
  ks_closed : gset nat;                 (* unlocks whose channel is closed *)
  ks_tasks : list (Address * unlocked); (* the running goroutines [expire] *)
  ks_wallets : list keystoreWallet;
  ks_events : list (WalletEvent keystoreWallet)
}.

Definition set_cache (c : accountCache) (ks : KeyStore) : KeyStore :=
  mk_ks (ks_dir ks) (ks_storage ks) (ks_disk ks) c (ks_unlocked ks) (ks_mem ks) (ks_next ks) (ks_closed ks) (ks_tasks ks) (ks_wallets ks) (ks_events ks).
Definition set_disk (d : option directory) (ks : KeyStore) : KeyStore :=
  mk_ks (ks_dir ks) (ks_storage ks) d (ks_cache ks) (ks_unlocked ks) (ks_mem ks) (ks_next ks) (ks_closed ks) (ks_tasks ks) (ks_wallets ks) (ks_events ks).
Definition set_wallets (ws : list keystoreWallet) (es : list (WalletEvent keystoreWallet)) (ks : KeyStore) : KeyStore :=
  mk_ks (ks_dir ks) (ks_storage ks) (ks_disk ks) (ks_cache ks) (ks_unlocked ks) (ks_mem ks) (ks_next ks) (ks_closed ks) (ks_tasks ks) ws (ks_events ks ++ es).
Definition set_unlocks (u : gmap Address unlocked) (n : nat) (c : gset nat) (t : list (Address * unlocked)) (ks : KeyStore) : KeyStore :=
  mk_ks (ks_dir ks) (ks_storage ks) (ks_disk ks) (ks_cache ks) u (ks_mem ks) n c t (ks_wallets ks) (ks_events ks).
Definition set_mem (mem : list PrivateKey) (ks : KeyStore) : KeyStore :=
  mk_ks (ks_dir ks) (ks_storage ks) (ks_disk ks) (ks_cache ks) (ks_unlocked ks) mem (ks_next ks) (ks_closed ks) (ks_tasks ks) (ks_wallets ks) (ks_events ks).

(** Results of operations: a value or an error; a panic is [None]. *)
Definition ret {A} (a : A) : M KeyStore (ks_error + A) := mret (inr a).
Definition throw {A} (e : ks_error) : M KeyStore (ks_error + A) := mret (inl e).
Definition try {A B} (m : M KeyStore (ks_error + A)) (k : A -> M KeyStore (ks_error + B)) : M KeyStore (ks_error + B) :=
  r ← m; match r with inl e => throw e | inr a => k a end.
Definition of_outcome {A} (o : outcome ks_error A) : M KeyStore (ks_error + A) :=
  match o with Ret a => ret a | Err e => throw e | Panic => mpanic end.

Local Notation "x ⇐ m ; k" := (try m (fun x => k)) (at level 20, m at level 100, k at level 200, right associativity).

(** ** Wallets *)

(** The wallets in front of an account, and the rest. *)
Fixpoint drop_front (u : URL) (ws : list keystoreWallet) : list (WalletEvent keystoreWallet) * list keystoreWallet :=
  match ws with
  | [] => ([], [])
  | w :: ws' => match URL_Cmp (wallet_URL w) u with
                | Lt => let '(events, rest) := drop_front u ws' in (mk_event w WalletDropped :: events, rest)
                | _ => ([], ws)
                end
  end.

(** The new wallets and the events for the accounts that remain. *)
Fixpoint refresh_loop (accs : list Account) (old : list keystoreWallet)
    : list keystoreWallet * list (WalletEvent keystoreWallet) :=
  match accs with
  | [] => ([], (fun w => mk_event w WalletDropped) <$> old)
  | account :: accs' =>
      let '(dropped, old) := drop_front (acc_URL account) old in
      let '(wallets, events) :=
        match old with
        | [] => let w := mk_wallet account in
                let '(wallets, events) := refresh_loop accs' old in (w :: wallets, mk_event w WalletArrived :: events)
        | first :: old' =>
            match URL_Cmp (wallet_URL first) (acc_URL account) with
            | Gt => let w := mk_wallet account in
                    let '(wallets, events) := refresh_loop accs' old in (w :: wallets, mk_event w WalletArrived :: events)
            | _ => if bool_decide (kw_account first = account)
                   then let '(wallets, events) := refresh_loop accs' old' in (first :: wallets, events)
                   else refresh_loop accs' old
            end
        end in
      (wallets, dropped ++ events)
  end.

Definition refreshWallets (fired : bool) : M KeyStore () :=
  ks ← mget;
  let '(accs, cache) := cache_accounts fired (ks_disk ks) (ks_cache ks) in
  let '(wallets, events) := refresh_loop accs (ks_wallets ks) in
  mmodify (fun ks => set_wallets wallets events (set_cache cache ks)).

Definition ks_Wallets (fired : bool) : M KeyStore (list keystoreWallet) :=
  _ ← refreshWallets fired; mgets ks_wallets.

(** [NewKeyStore] and [NewPlaintextKeyStore] differ in the storage. *)
Definition newKeyStore (keydir : gostr) (st : storage) (disk : option directory) : KeyStore :=
  let '(accs, cache) := cache_accounts true disk newAccountCache in
  mk_ks keydir st disk cache ∅ [] 0 ∅ [] (mk_wallet <$> accs) [].

Definition HasAddress (fired : bool) (addr : Address) : M KeyStore bool :=
  ks ← mget;
  let '(found, cache) := hasAddress fired (ks_disk ks) addr (ks_cache ks) in
  _ ← mmodify (set_cache cache); mret found.

Definition ks_Accounts (fired : bool) : M KeyStore (list Account) :=
  ks ← mget;
  let '(accs, cache) := cache_accounts fired (ks_disk ks) (ks_cache ks) in
  _ ← mmodify (set_cache cache); mret accs.

Definition ks_Find (fired : bool) (a : Account) : M KeyStore (ks_error + Account) :=
  ks ← mget;
  let cache := maybeReload fired (ks_disk ks) (ks_cache ks) in
  _ ← mmodify (set_cache cache);
  of_outcome (find_account (ks_dir ks) a cache).

(** The decrypted key is placed in memory. *)
Definition getDecryptedKey (fired : bool) (a : Account) (auth : list Z) : M KeyStore (ks_error + (Account * Key * nat)) :=
  a ⇐ ks_Find fired a;
  ks ← mget;
  key ⇐ of_outcome (GetKey (ks_storage ks) (ks_disk ks) (acc_Address a) (Path (acc_URL a)) auth);
  _ ← mmodify (fun ks => set_mem (ks_mem ks ++ [key_PrivateKey key]) ks);
  ret (a, key, List.length (ks_mem ks)).

Definition zeroKey (p : nat) : M KeyStore () := mmodify (fun ks => set_mem (alter with_zero_D p (ks_mem ks)) ks).

(** [os.Remove] *)
Definition remove_file (w : world) (path : gostr) : M KeyStore (ks_error + ()) :=
  ks ← mget;
  match d ← ks_disk ks; (if w_remove w then d !! path else None) with
  | Some _ => _ ← mmodify (fun ks => set_disk (delete path <$> ks_disk ks) ks); ret tt
  | None => throw ErrFile
  end.

Definition ks_Delete (w : world) (a : Account) (passphrase : list Z) : M KeyStore (ks_error + ()) :=
  r ⇐ getDecryptedKey (w_find w) a passphrase;
  let '(a, key, p) := r in
  _ ← zeroKey p;
  _ ⇐ remove_file w (Path (acc_URL a));
  _ ← mmodify (fun ks => set_cache (delete_account a (ks_cache ks)) ks);
  _ ← refreshWallets (w_refresh w);
  ret tt.

(** ** Signing *)

Definition sign_hash (hash : list Z) (prv : PrivateKey) : M KeyStore (ks_error + list Z) :=
  if (List.length hash =? 32)%nat then
    match crypto_Sign (be_int hash) prv with Some sig => ret sig | None => throw ErrSign end
  else throw ErrSign.

Definition sign_tx (tx : Transaction) (chainID : option Z) (prv : PrivateKey) : M KeyStore (ks_error + Transaction) :=
  match SignTx tx (match chainID with Some _ => NewEIP155Signer chainID | None => HomesteadSigner end) prv with
  | Ret tx => ret tx
  | Err e => throw (ErrTx e)
  | Panic => mpanic
  end.

(** The private key of an unlocked address. *)
Definition unlocked_key (addr : Address) : M KeyStore (ks_error + PrivateKey) :=
  ks ← mget;
  match ks_unlocked ks !! addr with
  | None => throw ErrLocked
  | Some u => prv ← mlift (ks_mem ks !! u_key u); ret prv
  end.

Definition ks_SignHash (a : Account) (hash : list Z) : M KeyStore (ks_error + list Z) :=
  prv ⇐ unlocked_key (acc_Address a); sign_hash hash prv.

Definition ks_SignTx (a : Account) (tx : Transaction) (chainID : option Z) : M KeyStore (ks_error + Transaction) :=
  prv ⇐ unlocked_key (acc_Address a); sign_tx tx chainID prv.

(** The key is zeroed when the function returns. *)
Definition SignHashWithPassphrase (w : world) (a : Account) (passphrase hash : list Z) : M KeyStore (ks_error + list Z) :=
  r ⇐ getDecryptedKey (w_find w) a passphrase;
  let '(_, key, p) := r in
  sig ← sign_hash hash (key_PrivateKey key);
  _ ← zeroKey p; mret sig.

Definition SignTxWithPassphrase (w : world) (a : Account) (passphrase : list Z) (tx : Transaction) (chainID : option Z)
    : M KeyStore (ks_error + Transaction) :=
  r ⇐ getDecryptedKey (w_find w) a passphrase;
  let '(_, key, p) := r in
  signed ← sign_tx tx chainID (key_PrivateKey key);
  _ ← zeroKey p; mret signed.

(** ** Unlocking *)

(** The timer of [expire] fires; the pointer is compared. *)
Definition expire (addr : Address) (u : unlocked) : M KeyStore () :=
  ks ← mget;
  match ks_unlocked ks !! addr with
  | Some u' =>
      if (u_ptr u' =? u_ptr u)%nat then
        _ ← zeroKey (u_key u);
        mmodify (fun ks => set_unlocks (delete addr (ks_unlocked ks)) (ks_next ks) (ks_closed ks) (ks_tasks ks) ks)
      else mret tt
  | None => mret tt
  end.

(** A step of the [n]th goroutine: its timer fires, or it sees its channel
    closed and quits. *)
Definition expire_task (n : nat) (timer : bool) : M KeyStore () :=
  ks ← mget;
  match ks_tasks ks !! n with
  | None => mret tt
  | Some (addr, u) =>
      if timer || bool_decide (u_ptr u ∈ ks_closed ks) then
        _ ← mmodify (fun ks => set_unlocks (ks_unlocked ks) (ks_next ks) (ks_closed ks) (delete n (ks_tasks ks)) ks);
        if timer then expire addr u else mret tt
      else mret tt
  end.

(** [close] of a closed channel panics. *)
Definition close_abort (u : unlocked) : M KeyStore () :=
  ks ← mget;
  if bool_decide (u_ptr u ∈ ks_closed ks) then mpanic
  else mmodify (fun ks => set_unlocks (ks_unlocked ks) (ks_next ks) ({[ u_ptr u ]} ∪ ks_closed ks) (ks_tasks ks) ks).

Definition TimedUnlock (w : world) (a : Account) (passphrase : list Z) (timeout : Z) : M KeyStore (ks_error + ()) :=
  r ⇐ getDecryptedKey (w_find w) a passphrase;
  let '(a, key, p) := r in
  ks ← mget;
  let install :=
    mmodify (fun ks =>
      let u := mk_unlocked (ks_next ks) p (0 <? timeout) in
      set_unlocks (<[acc_Address a := u]> (ks_unlocked ks)) (S (ks_next ks)) (ks_closed ks)
        (if 0 <? timeout then ks_tasks ks ++ [(acc_Address a, u)] else ks_tasks ks) ks) in
  match ks_unlocked ks !! acc_Address a with
  | Some u => if u_timed u then _ ← close_abort u; _ ← install; ret tt
              else _ ← zeroKey p; ret tt
  | None => _ ← install; ret tt
  end.

Definition Unlock (w : world) (a : Account) (passphrase : list Z) : M KeyStore (ks_error + ()) := TimedUnlock w a passphrase 0.

(** [Lock] runs [expire] itself with no delay. *)
Definition Lock (addr : Address) : M KeyStore () :=
  ks ← mget;
  match ks_unlocked ks !! addr with
  | Some u => expire addr u
  | None => mret tt
  end.

(** ** Creating, importing and changing keys *)

(** Store a key under a new name and make it known at once. *)
Definition store_key (w : world) (filename : gostr) (key : Key) (auth : list Z) : M KeyStore (ks_error + ()) :=
  ks ← mget;
  let '(r, disk) := StoreKey w (ks_storage ks) filename key auth (ks_disk ks) in
  _ ← mmodify (set_disk disk);
  of_outcome r.

Definition account_of (w : world) (ks : KeyStore) (key : Key) : Account :=
  mk_Account (key_Address key) (mk_URL KeyStoreScheme (JoinPath (ks_dir ks) (keyFileName (w_time w) (key_Address key)))).

Definition newKeyFromECDSA (w : world) (prv : PrivateKey) : Key := mk_Key (w_uuid w) (PubkeyToAddress prv) prv.

Definition publish (w : world) (a : Account) : M KeyStore (ks_error + Account) :=
  _ ← mmodify (fun ks => set_cache (add_account a (ks_cache ks)) ks);
  _ ← refreshWallets (w_refresh w);
  ret a.

(** The key is stored under the name made of its address and the time. *)
Definition store_as (w : world) (key : Key) (auth : list Z) : M KeyStore (ks_error + Account) :=
  ks ← mget;
  let a := account_of w ks key in
  _ ⇐ store_key w (Path (acc_URL a)) key auth;
  ret a.

Definition storeNewKey (w : world) (auth : list Z) : M KeyStore (ks_error + (Key * Account)) :=
  match w_newkey w with
  | None => throw ErrFile
  | Some prv =>
      let key := newKeyFromECDSA w prv in
      a ⇐ store_as w key auth; ret (key, a)
  end.

Definition NewAccount (w : world) (passphrase : list Z) : M KeyStore (ks_error + Account) :=
  r ⇐ storeNewKey w passphrase; publish w (snd r).

Definition importKey (w : world) (key : Key) (passphrase : list Z) : M KeyStore (ks_error + Account) :=
  a ⇐ store_as w key passphrase; publish w a.

Definition import_new (w : world) (key : Key) (passphrase : list Z) : M KeyStore (ks_error + Account) :=
  known ← HasAddress (w_find w) (key_Address key);
  if known : bool then throw ErrAccountAlreadyExists else importKey w key passphrase.

Definition Import (w : world) (keyJSON : content) (passphrase newPassphrase : list Z) : M KeyStore (ks_error + Account) :=
  key ⇐ of_outcome (lift_key (DecryptKey keyJSON passphrase));
  import_new w key newPassphrase.

Definition ImportECDSA (w : world) (prv : PrivateKey) (passphrase : list Z) : M KeyStore (ks_error + Account) :=
  import_new w (newKeyFromECDSA w prv) passphrase.

Definition importPreSaleKey (w : world) (keyJSON : content) (password : list Z) : M KeyStore (ks_error + (Account * Key)) :=
  key ⇐ of_outcome (lift_key (decryptPreSaleKey keyJSON password));
  let key := mk_Key (w_uuid w) (key_Address key) (key_PrivateKey key) in
  a ⇐ store_as w key password; ret (a, key).

Definition ImportPreSaleKey (w : world) (keyJSON : content) (passphrase : list Z) : M KeyStore (ks_error + Account) :=
  r ⇐ importPreSaleKey w keyJSON passphrase; publish w (fst r).

Definition Export (w : world) (a : Account) (passphrase newPassphrase : list Z) : M KeyStore (ks_error + content) :=
  r ⇐ getDecryptedKey (w_find w) a passphrase;
  let '(_, key, _) := r in
  ks ← mget;
  let '(N, P) := match ks_storage ks with keyStorePassphrase N P _ => (N, P) | keyStorePlain => (2 ^ 18, 1) end in
  of_outcome (lift_key (EncryptKey key newPassphrase N P (w_salt w) (w_iv w))).

Definition Update (w : world) (a : Account) (passphrase newPassphrase : list Z) : M KeyStore (ks_error + ()) :=
  r ⇐ getDecryptedKey (w_find w) a passphrase;
  let '(a, key, _) := r in
  store_key w (Path (acc_URL a)) key newPassphrase.

(** ** The methods of a wallet *)

Definition TextHash (data : list Z) : list Z :=
  Keccak256 (25 :: lit "Ethereum Signed Message:" ++ [10] ++ itoa (Z.of_nat (List.length data)) ++ data).

Definition wallet_Status (wallet : keystoreWallet) : M KeyStore bool :=
  mgets (fun ks => bool_decide (is_Some (ks_unlocked ks !! acc_Address (kw_account wallet)))).

(** Every signature of a wallet is refused for an account it does not hold. *)
Definition guarded {A} (wallet : keystoreWallet) (account : Account) (m : M KeyStore (ks_error + A)) : M KeyStore (ks_error + A) :=
  if wallet_Contains wallet account then m else throw (ErrWallet ErrUnknownAccount).

Definition signHash (wallet : keystoreWallet) (account : Account) (hash : list Z) : M KeyStore (ks_error + list Z) :=
  guarded wallet account (ks_SignHash account hash).
Definition SignData (wallet : keystoreWallet) (account : Account) (data : list Z) : M KeyStore (ks_error + list Z) :=
  signHash wallet account (Keccak256 data).
Definition SignText (wallet : keystoreWallet) (account : Account) (text : list Z) : M KeyStore (ks_error + list Z) :=
  signHash wallet account (TextHash text).
Definition SignDataWithPassphrase (w : world) (wallet : keystoreWallet) (account : Account) (passphrase data : list Z)
    : M KeyStore (ks_error + list Z) :=
  guarded wallet account (SignHashWithPassphrase w account passphrase (Keccak256 data)).
Definition SignTextWithPassphrase (w : world) (wallet : keystoreWallet) (account : Account) (passphrase text : list Z)
    : M KeyStore (ks_error + list Z) :=
  guarded wallet account (SignHashWithPassphrase w account passphrase (TextHash text)).
Definition wallet_SignTx (wallet : keystoreWallet) (account : Account) (tx : Transaction) (chainID : option Z)
    : M KeyStore (ks_error + Transaction) :=
  guarded wallet account (ks_SignTx account tx chainID).
Definition wallet_SignTxWithPassphrase (w : world) (wallet : keystoreWallet) (account : Account) (passphrase : list Z)
    (tx : Transaction) (chainID : option Z) : M KeyStore (ks_error + Transaction) :=
  guarded wallet account (SignTxWithPassphrase w account passphrase tx chainID).
End KeyStore.
