(* ===== verification/KeyWallets.v ===== *)
(** * Wallets follow accounts

    Theorems on [refreshWallets] of [KeyStore]: the wallets of the key store
    follow the accounts of its cache, and the events it sends let the manager of
    [Accounts] follow the wallets. *)
From stdpp Require Import gmap list sorting.
From Stdlib Require Import ZArith Lia String.
From S2P Require Import Prelude GoString Transaction Accounts KeyCrypt AccountCache KeyStore.

Local Open Scope Z_scope.

(** ** Lists of wallets *)

(** Lists strictly sorted by location. *)
Definition strictly {A} (key : A -> URL) (l : list A) : Prop := StronglySorted (fun x y => URL_lt (key x) (key y)) l.

Lemma strictly_sorted {A} (key : A -> URL) l : strictly key l -> sorted_by key l.
Proof. induction 1 as [|x l Hs IH Hx]; constructor; [done|]. eapply Forall_impl; [done|]. intros y. apply URL_lt_le. Qed.

Lemma strictly_of {A} (key : A -> URL) l : sorted_by key l -> NoDup (key <$> l) -> strictly key l.
Proof.
  induction 1 as [|x l Hs IH Hx]; intros Hnd; [constructor|]. cbn in Hnd. apply NoDup_cons in Hnd as [Hn Hnd].
  constructor; [by apply IH|]. rewrite Forall_forall in *. intros y Hy.
  destruct (URL_le_lt_or_eq _ _ (Hx y Hy)) as [|E]; [done|]. destruct Hn. rewrite E. by apply list_elem_of_fmap_2.
Qed.

Lemma strictly_app_inv {A} (key : A -> URL) l1 l2 : strictly key (l1 ++ l2) ->
  strictly key l1 /\ strictly key l2 /\ (forall x y, x ∈ l1 -> y ∈ l2 -> URL_lt (key x) (key y)).
Proof.
  induction l1 as [|a l1 IH]; cbn; intros H.
  { split; [constructor|]. split; [done|]. intros x y Hx. by apply not_elem_of_nil in Hx. }
  inversion H as [|? ? Hs Ha]; subst. destruct (IH Hs) as (H1 & H2 & H3). apply Forall_app in Ha as [Ha1 Ha2].
  split; [by constructor|]. split; [done|]. rewrite Forall_forall in Ha2. intros x y Hx Hy.
  apply elem_of_cons in Hx as [->|Hx]; [by apply Ha2|by apply H3].
Qed.

Lemma cache_strict ac : cache_ok ac -> strictly acc_URL (ac_all ac).
Proof. intros Hok. apply strictly_of; [apply (ok_sorted ac Hok)|apply (ok_distinct ac Hok)]. Qed.

Definition dropped (w : keystoreWallet) : WalletEvent keystoreWallet := mk_event w WalletDropped.

Lemma drop_front_spec u ws : exists pre rest,
  ws = pre ++ rest /\ drop_front u ws = (dropped <$> pre, rest) /\ Forall (fun w => URL_lt (wallet_URL w) u) pre /\
  match rest with [] => True | first :: _ => URL_le u (wallet_URL first) end.
Proof.
  induction ws as [|w ws IH]; [by exists [], []|]. cbn [drop_front]. destruct (URL_Cmp (wallet_URL w) u) eqn:E.
  - exists [], (w :: ws). split; [done|]. split; [done|]. split; [constructor|]. unfold URL_le, URL_lt. by rewrite E.
  - destruct IH as (pre & rest & -> & -> & Hpre & Hrest). by exists (w :: pre), rest; repeat constructor.
  - exists [], (w :: ws). split; [done|]. split; [done|]. split; [constructor|]. unfold URL_le, URL_lt. by rewrite E.
Qed.

(** No wallet has the location of the account for another account. *)
Definition compatible (old : list keystoreWallet) (a : Account) : Prop :=
  Forall (fun w => wallet_URL w = acc_URL a -> kw_account w = a) old.

#[export] Instance compatible_dec old a : Decision (compatible old a).
Proof. unfold compatible. apply _. Defined.

Lemma filter_iff_in {A} (P Q : A -> Prop) `{!forall x, Decision (P x)} `{!forall x, Decision (Q x)} l :
  Forall (fun x => P x <-> Q x) l -> filter P l = filter Q l.
Proof.
  induction 1 as [|x l Hx Hl IH]; [done|]. rewrite !filter_cons, IH. by destruct (decide (P x)), (decide (Q x)); naive_solver.
Qed.

(** Wallets before an account do not matter for the later ones. *)
Lemma compatible_later pre rest a accs : Forall (fun w => URL_le (wallet_URL w) (acc_URL a)) pre ->
  Forall (fun b => URL_lt (acc_URL a) (acc_URL b)) accs -> filter (compatible (pre ++ rest)) accs = filter (compatible rest) accs.
Proof.
  intros Hpre Hacc. apply filter_iff_in. eapply Forall_impl; [done|]. intros b Hb. unfold compatible. rewrite Forall_app.
  split; [by intros []|]. intros H. split; [|done]. eapply Forall_impl; [done|]. intros w Hw E. cbv beta in Hw. destruct Hw. by rewrite E.
Qed.

Lemma URL_le_of_head w rest : strictly wallet_URL (w :: rest) -> forall u, URL_le u (wallet_URL w) ->
  Forall (fun x => URL_le u (wallet_URL x)) (w :: rest).
Proof.
  intros H u Hu. inversion H as [|? ? _ Hw]; subst. constructor; [done|]. eapply Forall_impl; [done|].
  intros x Hx. transitivity (wallet_URL w); [done|by apply URL_lt_le].
Qed.

Lemma compatible_before rest a : Forall (fun w => URL_lt (acc_URL a) (wallet_URL w)) rest -> compatible rest a.
Proof.
  intros H. unfold compatible. eapply Forall_impl; [done|]. intros w Hw E. cbv beta in Hw. rewrite E in Hw. by destruct (irreflexivity URL_lt _ Hw).
Qed.

Lemma refresh_wallets_spec accs : forall old, strictly acc_URL accs -> strictly wallet_URL old ->
  fst (refresh_loop accs old) = mk_wallet <$> filter (compatible old) accs.
Proof.
  induction accs as [|a accs IH]; intros old Hacc Hold; [done|]. inversion Hacc as [|? ? Hs Ha]; subst. cbn [refresh_loop].
  destruct (drop_front_spec (acc_URL a) old) as (pre & rest & -> & -> & Hpre & Hrest).
  destruct (strictly_app_inv _ _ _ Hold) as (_ & Hrs & _).
  assert (Hle : Forall (fun w => URL_le (wallet_URL w) (acc_URL a)) pre) by (eapply Forall_impl; [done|]; intros w; apply URL_lt_le).
  assert (Hca : compatible (pre ++ rest) a <-> compatible rest a).
  { unfold compatible. rewrite Forall_app. split; [by intros []|]. intros H. split; [|done].
    eapply Forall_impl; [exact Hpre|]. intros w Hw E. cbv beta in Hw. rewrite E in Hw. by destruct (irreflexivity URL_lt _ Hw). }
  rewrite filter_cons, (compatible_later pre rest a accs Hle Ha).
  destruct rest as [|first rest].
  - rewrite decide_True by (apply Hca; constructor). specialize (IH [] Hs Hrs). destruct (refresh_loop accs []) as [ws es]. cbn in *. by rewrite IH.
  - pose proof (URL_le_of_head first rest Hrs _ Hrest) as Hall. destruct (URL_Cmp (wallet_URL first) (acc_URL a)) eqn:E.
    + apply URL_Cmp_eq in E. case_bool_decide as Hsame.
      * inversion Hrs as [|? ? Hrs' Hf]; subst. rewrite decide_True.
        2: { apply Hca. constructor; [done|]. apply compatible_before. by rewrite <- E. }
        specialize (IH rest Hs Hrs'). destruct (refresh_loop accs rest) as [ws es]. cbn in *. rewrite IH. f_equal; [by destruct first|].
        f_equal. symmetry. apply (compatible_later [first] rest (kw_account first) accs); [|done]. constructor; [|constructor]. intros H. by destruct (irreflexivity URL_lt _ H).
      * rewrite decide_False by (rewrite Hca; intros Hc; inversion Hc; naive_solver). specialize (IH _ Hs Hrs).
        destruct (refresh_loop accs (first :: rest)) as [ws es]. cbn in *. by rewrite IH.
    + by destruct Hrest.
    + rewrite decide_True.
      2: { apply Hca, compatible_before. inversion Hrs as [|? ? _ Hf]; subst.
           assert (Hlt : URL_lt (acc_URL a) (wallet_URL first)) by (unfold URL_lt; by rewrite URL_Cmp_antisym, E).
           constructor; [done|]. eapply Forall_impl; [done|]. intros x Hx. by transitivity (wallet_URL first). }
      specialize (IH _ Hs Hrs). destruct (refresh_loop accs (first :: rest)) as [ws es]. cbn in *. by rewrite IH.
Qed.

(** What the manager does to its list at an event. *)
Definition follow (l : list keystoreWallet) (e : WalletEvent keystoreWallet) : list keystoreWallet :=
  match ev_Kind e with
  | WalletArrived => merge l [ev_Wallet e]
  | WalletDropped => drop_wallets l [ev_Wallet e]
  | WalletOpened => l
  end.

Definition receive (am : Manager keystoreWallet) (events : list (WalletEvent keystoreWallet)) : Manager keystoreWallet :=
  foldl (fun am e => update (MsgEvent e) am) am events.

Lemma receive_follows events : forall am, am_running am = true -> am_wallets (receive am events) = foldl follow (am_wallets am) events.
Proof.
  induction events as [|e events IH]; intros am Hr; [done|]. cbn [receive foldl]. fold (receive (update (MsgEvent e) am) events).
  rewrite IH; unfold update; by rewrite Hr.
Qed.

Lemma strictly_app {A} (key : A -> URL) l1 l2 : strictly key l1 -> strictly key l2 ->
  (forall x y, x ∈ l1 -> y ∈ l2 -> URL_lt (key x) (key y)) -> strictly key (l1 ++ l2).
Proof.
  induction 1 as [|x l1 Hs IH Hx]; intros H2 H; [done|]. cbn. constructor.
  - apply IH; [done|]. intros. apply H; [by right|done].
  - apply Forall_app. split; [done|]. apply Forall_forall. intros y Hy. apply H; [by left|done].
Qed.

Lemma merge_between l1 l2 w : strictly wallet_URL (l1 ++ w :: l2) -> merge (l1 ++ l2) [w] = l1 ++ w :: l2.
Proof.
  intros Hs. destruct (strictly_app_inv _ _ _ Hs) as (H1 & H2 & H3). inversion H2 as [|? ? H2' Hw]; subst.
  cbn [merge foldl]. unfold wallet_pos. rewrite search_url_app.
  - by rewrite take_app_length, drop_app_length.
  - apply strictly_sorted, strictly_app; [done|done|]. intros x y Hx Hy. apply H3; [done|by right].
  - apply Forall_forall. intros x Hx. apply H3; [done|by left].
  - eapply Forall_impl; [exact Hw|]. intros y. apply URL_lt_le.
Qed.

Lemma drop_between l1 l2 w : strictly wallet_URL (l1 ++ w :: l2) -> drop_wallets (l1 ++ w :: l2) [w] = l1 ++ l2.
Proof.
  intros Hs. destruct (strictly_app_inv _ _ _ Hs) as (H1 & H2 & H3). inversion H2 as [|? ? H2' Hw]; subst.
  cbn [drop_wallets foldl]. unfold wallet_pos. rewrite search_url_app.
  - rewrite length_app. cbn [List.length]. rewrite (proj2 (Nat.eqb_neq _ _)) by lia. rewrite take_app_length. f_equal.
    replace (S (List.length l1)) with (List.length l1 + 1)%nat by lia. by rewrite <- drop_drop, drop_app_length.
  - by apply strictly_sorted.
  - apply Forall_forall. intros x Hx. apply H3; [done|by left].
  - constructor; [intros H; by destruct (irreflexivity URL_lt _ H)|]. eapply Forall_impl; [exact Hw|]. intros y. apply URL_lt_le.
Qed.

Lemma strictly_remove {A} (key : A -> URL) l1 l l2 : strictly key (l1 ++ l ++ l2) -> strictly key (l1 ++ l2).
Proof.
  intros Hs. destruct (strictly_app_inv _ _ _ Hs) as (H1 & H2 & H3). destruct (strictly_app_inv _ _ _ H2) as (_ & H4 & _).
  apply strictly_app; [done|done|]. intros x y Hx Hy. apply H3; [done|]. apply elem_of_app. by right.
Qed.

Lemma follow_drops pre : forall l1 l2, strictly wallet_URL (l1 ++ pre ++ l2) ->
  foldl follow (l1 ++ pre ++ l2) (dropped <$> pre) = l1 ++ l2.
Proof.
  induction pre as [|w pre IH]; intros l1 l2 Hs; [done|]. cbn [fmap list_fmap foldl]. unfold follow at 2. cbn [dropped ev_Kind ev_Wallet app] in *.
  rewrite drop_between by done. apply IH. by apply (strictly_remove _ l1 [w]).
Qed.

Lemma follow_refresh accs : forall don old, strictly acc_URL accs -> strictly wallet_URL (don ++ old) ->
  (forall d a, d ∈ don -> a ∈ accs -> URL_lt (wallet_URL d) (acc_URL a)) ->
  foldl follow (don ++ old) (snd (refresh_loop accs old)) = don ++ fst (refresh_loop accs old).
Proof.
  induction accs as [|a accs IH]; intros don old Hacc Hold Hlt.
  { cbn [refresh_loop fst snd]. pose proof (follow_drops old don []) as H. rewrite app_nil_r in H. by apply H. }
  inversion Hacc as [|? ? Hs Ha]; subst. cbn [refresh_loop].
  destruct (drop_front_spec (acc_URL a) old) as (pre & rest & -> & -> & Hpre & Hrest).
  assert (Hdr : strictly wallet_URL (don ++ rest)) by (by apply (strictly_remove _ don pre)).
  assert (Hlt' : forall d b, d ∈ don -> b ∈ accs -> URL_lt (wallet_URL d) (acc_URL b)) by (intros d b Hd Hb; apply Hlt; [done|by right]).
  rewrite Forall_forall in Ha.
  (* an account that is new arrives between the wallets *)
  assert (Hnew : (forall x, x ∈ rest -> URL_lt (acc_URL a) (wallet_URL x)) ->
    let '(wallets, events) := refresh_loop accs rest in
    foldl follow (don ++ rest) (mk_event (mk_wallet a) WalletArrived :: events) = don ++ mk_wallet a :: wallets).
  { intros Hr. assert (Hst : strictly wallet_URL ((don ++ [mk_wallet a]) ++ rest)).
    { destruct (strictly_app_inv _ _ _ Hdr) as (H1 & H2 & H3). rewrite <- app_assoc. apply strictly_app; [done| |].
      - constructor; [done|]. by apply Forall_forall.
      - intros x y Hx Hy. apply elem_of_cons in Hy as [->|Hy]; [apply Hlt; [done|by left]|by apply H3]. }
    specialize (IH (don ++ [mk_wallet a]) rest Hs Hst). destruct (refresh_loop accs rest) as [ws es]. cbn [fst snd] in IH.
    cbn [foldl]. unfold follow at 2. cbn [ev_Kind ev_Wallet]. rewrite <- app_assoc in Hst. rewrite merge_between by done.
    rewrite <- (app_assoc don [mk_wallet a] rest), <- app_assoc in IH. apply IH. intros d b Hd Hb.
    apply elem_of_app in Hd as [Hd|Hd]; [by apply Hlt'|]. apply list_elem_of_singleton in Hd as ->. by apply Ha. }
  destruct rest as [|first rest].
  { specialize (Hnew ltac:(intros x Hx; by apply not_elem_of_nil in Hx)). destruct (refresh_loop accs []) as [ws es]. cbn [fst snd].
    by rewrite foldl_app, follow_drops. }
  destruct (URL_Cmp (wallet_URL first) (acc_URL a)) eqn:E; [|by destruct Hrest|].
  - case_bool_decide as Hsame.
    + specialize (IH (don ++ [first]) rest Hs). rewrite <- !app_assoc in IH. destruct (refresh_loop accs rest) as [ws es]. cbn [fst snd] in *.
      rewrite foldl_app, follow_drops by done. apply URL_Cmp_eq in E. apply IH; [done|]. intros d b Hd Hb.
      apply elem_of_app in Hd as [Hd|Hd]; [by apply Hlt'|]. apply list_elem_of_singleton in Hd as ->. rewrite E. by apply Ha.
    + specialize (IH don (first :: rest) Hs Hdr Hlt'). destruct (refresh_loop accs (first :: rest)) as [ws es]. cbn [fst snd] in *.
      by rewrite foldl_app, follow_drops.
  - destruct (strictly_app_inv _ _ _ Hdr) as (_ & H2 & _). inversion H2 as [|? ? _ Hf]; subst. rewrite Forall_forall in Hf.
    assert (Hlta : URL_lt (acc_URL a) (wallet_URL first)) by (unfold URL_lt; by rewrite URL_Cmp_antisym, E).
    specialize (Hnew ltac:(intros x Hx; apply elem_of_cons in Hx as [->|Hx]; [done|transitivity (wallet_URL first); [done|by apply Hf]])).
    destruct (refresh_loop accs (first :: rest)) as [ws es]. cbn [fst snd]. by rewrite foldl_app, follow_drops.
Qed.

Section Refresh.
Context `{crypto : !TxCrypto} `{keys : !KeyCrypto} {order : RangeOrder}.

Lemma refreshWallets_run fired ks cache : maybeReload fired (ks_disk ks) (ks_cache ks) = cache ->
  refreshWallets fired ks = Some (tt, set_wallets (fst (refresh_loop (ac_all cache) (ks_wallets ks)))
    (snd (refresh_loop (ac_all cache) (ks_wallets ks))) (set_cache cache ks)).
Proof.
  intros <-. unfold refreshWallets, cache_accounts. rewrite run_get. cbn beta iota zeta. destruct (refresh_loop _ _). done.
Qed.

(** a refresh leaves one wallet per account of the cache, except for
    accounts whose location had a wallet of another account, and sends the
    events that bring a running manager of wallets with the old list to
    exactly the new one, in order. *)
Theorem wallets_follow_accounts (fired : bool) (ks : KeyStore) (am : Manager keystoreWallet) :
  let cache := maybeReload fired (ks_disk ks) (ks_cache ks) in
  cache_ok cache -> strictly wallet_URL (ks_wallets ks) -> am_running am = true -> am_wallets am = ks_wallets ks ->
  exists ks' events, refreshWallets fired ks = Some (tt, ks') /\
    ks_wallets ks' = mk_wallet <$> filter (compatible (ks_wallets ks)) (ac_all cache) /\
    ks_events ks' = ks_events ks ++ events /\ am_wallets (receive am events) = ks_wallets ks'.
Proof.
  intros cache Hok Hw Hr Ham. pose proof (refreshWallets_run fired ks cache eq_refl) as Hrun.
  pose proof (refresh_wallets_spec _ _ (cache_strict cache Hok) Hw) as Hspec.
  pose proof (follow_refresh (ac_all cache) [] (ks_wallets ks) (cache_strict cache Hok) Hw) as Hfol.
  destruct (refresh_loop (ac_all cache) (ks_wallets ks)) as [ws es]. cbn [fst snd app] in *.
  exists (set_wallets ws es (set_cache cache ks)), es. split; [exact Hrun|]. split; [done|]. split; [done|].
  rewrite receive_follows, Ham by done. apply Hfol. intros d a Hd. by apply not_elem_of_nil in Hd.
Qed.

(** when the key file at the location of a wallet holds another account,
    a refresh removes the wallet without giving the new account one; only the
    refresh after it does, though nothing changed in between. *)
Theorem replaced_account_waits_for_next_refresh (fired fired' : bool) (ks : KeyStore) (w : keystoreWallet) (a : Account) :
  w_running (ac_watcher (ks_cache ks)) = true -> cache_ok (ks_cache ks) -> strictly wallet_URL (ks_wallets ks) ->
  a ∈ ac_all (ks_cache ks) -> w ∈ ks_wallets ks -> wallet_URL w = acc_URL a -> kw_account w <> a ->
  exists ks1 ks2, refreshWallets fired ks = Some (tt, ks1) /\ refreshWallets fired' ks1 = Some (tt, ks2) /\
    (forall w', w' ∈ ks_wallets ks1 -> wallet_URL w' <> acc_URL a) /\ ks_wallets ks2 = mk_wallet <$> ac_all (ks_cache ks).
Proof.
  intros Hrun Hok Hw Ha Hin Hurl Hne. pose proof (cache_strict _ Hok) as Hst.
  assert (Hmr : forall f disk, maybeReload f disk (ks_cache ks) = ks_cache ks) by (intros; unfold maybeReload; by rewrite Hrun).
  pose proof (refreshWallets_run fired ks _ (Hmr _ _)) as H1. pose proof (refresh_wallets_spec _ _ Hst Hw) as Hs1.
  destruct (refresh_loop (ac_all (ks_cache ks)) (ks_wallets ks)) as [ws1 es1]. cbn [fst snd] in *.
  set (ks1 := set_wallets ws1 es1 (set_cache (ks_cache ks) ks)) in *.
  pose proof (refreshWallets_run fired' ks1 (ks_cache ks) (Hmr _ _)) as H2. change (ks_wallets ks1) with ws1 in H2.
  assert (Hws1 : forall w', w' ∈ ws1 -> kw_account w' ∈ ac_all (ks_cache ks) /\ compatible (ks_wallets ks) (kw_account w')).
  { intros w' Hw'. rewrite Hs1 in Hw'. apply list_elem_of_fmap in Hw' as (b & -> & Hb). apply list_elem_of_filter in Hb as []. done. }
  assert (Hsw : strictly wallet_URL ws1).
  { rewrite Hs1. clear -Hst. induction Hst as [|x l Hs IH Hx]; [constructor|]. rewrite filter_cons. destruct (decide _); [|done].
    cbn. constructor; [done|]. apply Forall_fmap, Forall_forall. intros y Hy. apply list_elem_of_filter in Hy as [_ Hy].
    rewrite Forall_forall in Hx. by apply Hx. }
  pose proof (refresh_wallets_spec _ _ Hst Hsw) as Hs2. destruct (refresh_loop (ac_all (ks_cache ks)) ws1) as [ws2 es2]. cbn [fst snd] in *.
  eexists ks1, _. split; [exact H1|]. split; [exact H2|]. cbn [set_wallets ks_wallets ks1]. split.
  - intros w' Hw' E. destruct (Hws1 w' Hw') as [Hc Hcomp]. assert (kw_account w' = a) as Ea by (by apply (distinct_location (ks_cache ks))).
    unfold compatible in Hcomp. rewrite Forall_forall in Hcomp. apply Hne. rewrite <- Ea. apply Hcomp; [done|]. by rewrite Hurl, Ea.
  - rewrite Hs2, filter_all; [done|]. apply Forall_forall. intros b Hb. unfold compatible. apply Forall_forall. intros w' Hw' E. destruct (Hws1 w' Hw') as [Hc _].
    by apply (distinct_location (ks_cache ks)).
Qed.
End Refresh.

(** ** Concrete inputs *)

Module WalletsToy.
Import KeyToy CacheToy.
#[local] Existing Instance toy_crypto.
#[local] Existing Instance toy_keys.
#[local] Existing Instance canonical_order.

(** A store over the directory with two keys, its watcher running. *)
Definition toy_store : KeyStore :=
  let ks := newKeyStore (lit "/k") (keyStorePassphrase 4 1 false) (Some toy_dir2) in
  set_cache (watcher_loop WatchStarted (ks_disk ks) (ks_cache ks)) ks.

(** The second file now holds another account, and the watcher has scanned. *)
Definition toy_changed : KeyStore :=
  let ks := set_disk (Some (<[toy_path 98 := toy_file 7 13]> toy_dir2)) toy_store in
  set_cache (watcher_loop Debounced (ks_disk ks) (watcher_loop FileEvent (ks_disk ks) (ks_cache ks))) ks.

Definition toy_account (c addr : Z) : Account := mk_Account addr (mk_URL (lit "keystore") (toy_path c)).

Lemma cache_ok_two ac a b : ac_all ac = [a; b] -> ac_byAddr ac = {[ acc_Address a := [a]; acc_Address b := [b] ]} ->
  acc_Address a <> acc_Address b -> URL_lt (acc_URL a) (acc_URL b) ->
  Scheme (acc_URL a) = lit "keystore" -> Scheme (acc_URL b) = lit "keystore" -> cache_ok ac.
Proof.
  intros Hall Hby Hne Hlt Ha Hb. split; rewrite ?Hall.
  - repeat constructor. by apply URL_lt_le.
  - cbn. apply NoDup_cons. split; [|apply NoDup_singleton]. rewrite list_elem_of_singleton. intros E. rewrite E in Hlt. by destruct (irreflexivity URL_lt _ Hlt).
  - by repeat constructor.
  - rewrite Hby. intros addr. unfold of_address. rewrite !filter_cons, filter_nil.
    destruct (decide (acc_Address a = addr)) as [<-|Hna].
    + rewrite lookup_insert_eq. rewrite decide_False by congruence. done.
    + rewrite lookup_insert_ne by done. destruct (decide (acc_Address b = addr)) as [<-|Hnb].
      * by rewrite lookup_singleton_eq.
      * by rewrite lookup_singleton_ne by done.
Qed.

Lemma toy_changed_ok : cache_ok (ks_cache toy_changed).
Proof. apply (cache_ok_two _ (toy_account 97 11) (toy_account 98 13)); by vm_compute. Qed.

Lemma toy_wallets_sorted : strictly wallet_URL (ks_wallets toy_changed).
Proof.
  assert (E : ks_wallets toy_changed = [mk_wallet (toy_account 97 11); mk_wallet (toy_account 98 12)]) by (vm_compute; reflexivity).
  rewrite E. repeat constructor.
Qed.

Lemma wallets_follow_accounts_witness : exists ks' events,
  refreshWallets false toy_changed = Some (tt, ks') /\ ks_wallets ks' = [mk_wallet (toy_account 97 11)] /\
  am_wallets (receive (NewManager [mk_Backend 0 (ks_wallets toy_changed)]) events) = ks_wallets ks'.
Proof.
  destruct (wallets_follow_accounts false toy_changed (NewManager [mk_Backend 0 (ks_wallets toy_changed)])) as (ks' & events & H1 & H2 & _ & H4).
  - apply toy_changed_ok.
  - apply toy_wallets_sorted.
  - done.
  - vm_compute. reflexivity.
  - exists ks', events. split; [exact H1|]. split; [rewrite H2; vm_compute; reflexivity|exact H4].
Defined.

Lemma replaced_account_waits_for_next_refresh_witness : exists ks1 ks2,
  refreshWallets false toy_changed = Some (tt, ks1) /\ refreshWallets false ks1 = Some (tt, ks2) /\
  mk_wallet (toy_account 98 13) ∈ ks_wallets ks2.
Proof.
  destruct (replaced_account_waits_for_next_refresh false false toy_changed (mk_wallet (toy_account 98 12)) (toy_account 98 13))
    as (ks1 & ks2 & H1 & H2 & _ & H4).
  - reflexivity.
  - apply toy_changed_ok.
  - apply toy_wallets_sorted.
  - vm_compute. by right; left.
  - vm_compute. by right; left.
  - reflexivity.
  - done.
  - exists ks1, ks2. split; [exact H1|]. split; [exact H2|]. rewrite H4. vm_compute. by right; left.
Defined.
End WalletsToy.
