(* ===== verification/KeyStoreSpec.v ===== *)
(** * Properties of the key store

    Theorems on [KeyStore]: whatever calls were made, signatures are by the
    account that is asked for, an unlock lasts until its own timer, passphrases
    change atomically, and new accounts can be used. *)
From stdpp Require Import gmap list sorting.
From Stdlib Require Import ZArith Lia String.
From S2P Require Import Prelude GoString Transaction Accounts KeyCrypt AccountCache KeyStore KeyWallets.

Local Open Scope Z_scope.

(** [ends P m Q]: run from a state of [P], [m] panics or ends in [Q]. *)
Definition ends {S A} (P : S -> Prop) (m : M S A) (Q : A -> S -> Prop) : Prop :=
  forall s, P s -> match m s with Some (x, s') => Q x s' | None => True end.

Lemma ends_bind {S A B} P (m : M S A) (k : A -> M S B) Q R :
  ends P m Q -> (forall x, ends (Q x) (k x) R) -> ends P (m ≫= k) R.
Proof.
  intros Hm Hk s Hs. specialize (Hm s Hs). unfold mbind, M_bind. destruct (m s) as [[x s']|]; [|done]. by apply Hk.
Qed.

Lemma keeps_ends {S A} I (m : M S A) : keeps I m -> ends I m (fun _ => I).
Proof. done. Qed.

(** ** The index of the cache names the right addresses *)

Definition by_address (ac : accountCache) : Prop :=
  forall addr a, a ∈ default [] (ac_byAddr ac !! addr) -> acc_Address a = addr.

Lemma removeAccount_sub slice elem x : x ∈ removeAccount slice elem -> x ∈ slice.
Proof.
  induction slice as [|a slice IH]; [done|]. cbn. case_bool_decide; [by right|]. rewrite !elem_of_cons. naive_solver.
Qed.

Lemma remove_indexed_ok ac all removed : by_address ac -> by_address (set_accounts all (remove_indexed (ac_byAddr ac) removed) ac).
Proof.
  intros H addr a. cbn [set_accounts ac_byAddr]. unfold remove_indexed.
  destruct (removeAccount _ removed) as [|b ba] eqn:E; destruct (decide (acc_Address removed = addr)) as [<-|Hne].
  - rewrite lookup_delete_eq. by intros ?%not_elem_of_nil.
  - rewrite lookup_delete_ne by done. apply H.
  - rewrite lookup_insert_eq. cbn [from_option id]. rewrite <- E. intros Ha%removeAccount_sub. by apply H.
  - rewrite lookup_insert_ne by done. apply H.
Qed.

Lemma add_by_address a ac : by_address ac -> by_address (add_account a ac).
Proof.
  intros H. unfold add_account. case_bool_decide; [done|]. intros addr b. cbn [set_accounts ac_byAddr].
  destruct (decide (acc_Address a = addr)) as [<-|Hne]; [|rewrite lookup_insert_ne by done; apply H].
  rewrite lookup_insert_eq. cbn [from_option id]. rewrite elem_of_app, list_elem_of_singleton. intros [Hb| ->]; [by apply H|done].
Qed.

Lemma deleteByFile_by_address path ac : by_address ac -> by_address (deleteByFile path ac).
Proof.
  intros H. unfold deleteByFile. destruct (ac_all ac !! _) as [r|]; [|done]. case_bool_decide; [|done]. by apply remove_indexed_ok.
Qed.

Section Safety.
Context `{crypto : !TxCrypto} `{keys : !KeyCrypto} {order : RangeOrder}.

Lemma foldl_by_address {A} (f : accountCache -> A -> accountCache) l : (forall ac x, by_address ac -> by_address (f ac x)) ->
  forall ac, by_address ac -> by_address (foldl f ac l).
Proof. intros Hf. induction l as [|x l IH]; intros ac H; [done|]. cbn. by apply IH, Hf. Qed.

Lemma add_read_by_address dir ac p : by_address ac -> by_address (add_read dir ac p).
Proof. intros H. unfold add_read. destruct (readAccount dir p); [by apply add_by_address|done]. Qed.

Lemma scanAccounts_by_address disk ac : by_address ac -> by_address (scanAccounts disk ac).
Proof.
  intros H. unfold scanAccounts. destruct disk as [dir|]; [|done]. destruct (scan _ _) as [[[cs ds] us] fc]. case_bool_decide; [done|].
  intros addr a. cbn [set_notify ac_byAddr]. revert addr a.
  apply foldl_by_address; [intros; by apply add_read_by_address, deleteByFile_by_address|].
  apply foldl_by_address; [intros; by apply deleteByFile_by_address|]. by apply foldl_by_address; [intros; apply add_read_by_address|].
Qed.

Lemma maybeReload_by_address fired disk ac : by_address ac -> by_address (maybeReload fired disk ac).
Proof. intros H. unfold maybeReload. destruct (w_running _); [done|]. destruct (_ && _); [done|]. by apply scanAccounts_by_address. Qed.

Lemma watcher_by_address e disk ac : by_address ac -> by_address (watcher_loop e disk ac).
Proof.
  intros H. destruct e; try done. cbn. destruct (w_rescan _); [|done].
  intros addr a Ha. exact (scanAccounts_by_address disk ac H addr a Ha).
Qed.

(** ** The invariant *)

(** [O] lists places in memory that belong to no unlock, with the keys they
    hold. *)
Record ks_inv (O : list (nat * PrivateKey)) (ks : KeyStore) : Prop := {
  i_storage : match ks_storage ks with keyStorePassphrase _ _ _ => True | keyStorePlain => False end;
  i_index : by_address (ks_cache ks);
  i_unlocked : forall addr u, ks_unlocked ks !! addr = Some u ->
    (u_ptr u < ks_next ks)%nat /\ u_ptr u ∉ ks_closed ks /\ exists prv, ks_mem ks !! u_key u = Some prv /\ PubkeyToAddress prv = addr;
  i_keys : forall a1 a2 u1 u2, ks_unlocked ks !! a1 = Some u1 -> ks_unlocked ks !! a2 = Some u2 -> u_key u1 = u_key u2 -> a1 = a2;
  i_ptrs : forall a1 a2 u1 u2, ks_unlocked ks !! a1 = Some u1 -> ks_unlocked ks !! a2 = Some u2 -> u_ptr u1 = u_ptr u2 -> a1 = a2;
  i_tasks : forall addr u, (addr, u) ∈ ks_tasks ks -> (u_ptr u < ks_next ks)%nat /\ u_timed u = true /\
    forall a' u', ks_unlocked ks !! a' = Some u' -> u_ptr u' = u_ptr u -> a' = addr /\ u' = u;
  i_closed : forall x, x ∈ ks_closed ks -> (x < ks_next ks)%nat;
  i_distinct : NoDup (fst <$> O);
  i_orphans : forall p prv, (p, prv) ∈ O -> ks_mem ks !! p = Some prv /\
    forall addr u, ks_unlocked ks !! addr = Some u -> u_key u <> p
}.

Lemma inv_weaken o O ks : ks_inv (o :: O) ks -> ks_inv O ks.
Proof.
  intros []. split; try done; [cbn in i_distinct0; by apply NoDup_cons in i_distinct0 as []|].
  intros p prv Hp. apply i_orphans0. by right.
Qed.

Lemma inv_set_cache O c ks : by_address c -> ks_inv O ks -> ks_inv O (set_cache c ks).
Proof. intros Hc []. by split. Qed.
Lemma inv_set_disk O d ks : ks_inv O ks -> ks_inv O (set_disk d ks).
Proof. intros []. by split. Qed.
Lemma inv_set_wallets O ws es ks : ks_inv O ks -> ks_inv O (set_wallets ws es ks).
Proof. intros []. by split. Qed.

(** A freshly decrypted key is in a place of its own. *)
Lemma inv_decrypted O prv ks : ks_inv O ks -> ks_inv ((List.length (ks_mem ks), prv) :: O) (set_mem (ks_mem ks ++ [prv]) ks).
Proof.
  intros []. assert (Hlt : forall p k, ks_mem ks !! p = Some k -> (ks_mem ks ++ [prv]) !! p = Some k /\ p <> List.length (ks_mem ks)).
  { intros p k Hp. pose proof (lookup_lt_Some _ _ _ Hp). split; [by rewrite lookup_app_l|lia]. }
  split; cbn [set_mem ks_storage ks_cache ks_unlocked ks_mem ks_next ks_closed ks_tasks]; try done.
  - intros addr u Hu. destruct (i_unlocked0 addr u Hu) as (H1 & H2 & k & Hk & Ha). split; [done|]. split; [done|]. exists k. by split; [apply Hlt|].
  - cbn. apply NoDup_cons. split; [|done]. intros Hin. apply list_elem_of_fmap in Hin as ([p k] & E & Hp).
    destruct (i_orphans0 p k Hp) as [Hk _]. apply Hlt in Hk as [_ Hne]. by cbn in E.
  - intros p k Hp. apply elem_of_cons in Hp as [[= -> ->]|Hp].
    + split; [by rewrite lookup_app_r, Nat.sub_diag|]. intros addr u Hu E. destruct (i_unlocked0 addr u Hu) as (_ & _ & k & Hk & _).
      rewrite E in Hk. by apply Hlt in Hk as [].
    + destruct (i_orphans0 p k Hp) as [Hk Hn]. split; [by apply Hlt|done].
Qed.

(** Overwriting a key that no unlock uses. *)
Lemma inv_zero p prv O ks : ks_inv ((p, prv) :: O) ks -> ks_inv O (set_mem (alter with_zero_D p (ks_mem ks)) ks).
Proof.
  intros []. cbn in i_distinct0. apply NoDup_cons in i_distinct0 as [Hn Hd]. destruct (i_orphans0 p prv ltac:(by left)) as [_ Hu].
  split; cbn [set_mem ks_storage ks_cache ks_unlocked ks_mem ks_next ks_closed ks_tasks]; try done.
  - intros addr u Hau. destruct (i_unlocked0 addr u Hau) as (H1 & H2 & k & Hk & Ha). split; [done|]. split; [done|]. exists k.
    split; [|done]. rewrite list_lookup_alter_ne; [done|]. intros E. by apply (Hu addr u).
  - intros q k Hq. destruct (i_orphans0 q k ltac:(by right)) as [Hk Hne]. split; [|done]. rewrite list_lookup_alter_ne; [done|].
    intros ->. apply Hn. by apply (list_elem_of_fmap_2' _ _ (q, k)).
Qed.

(** A new unlock replaces the one of its address, if any, whose channel may be
    closed. *)
Lemma inv_install p prv O ks addr timed closed : ks_inv ((p, prv) :: O) ks -> PubkeyToAddress prv = addr ->
  (forall x, x ∈ closed -> x ∈ ks_closed ks \/ exists u, ks_unlocked ks !! addr = Some u /\ x = u_ptr u) ->
  let u := mk_unlocked (ks_next ks) p timed in
  ks_inv O (set_unlocks (<[addr := u]> (ks_unlocked ks)) (S (ks_next ks)) closed
              (if timed then ks_tasks ks ++ [(addr, u)] else ks_tasks ks) ks).
Proof.
  intros [] Haddr Hcl u. cbn in i_distinct0. apply NoDup_cons in i_distinct0 as [Hnp Hd].
  destruct (i_orphans0 p prv ltac:(by left)) as [Hp Hun].
  assert (Hins : forall a v, <[addr := u]> (ks_unlocked ks) !! a = Some v -> (a = addr /\ v = u) \/ (a <> addr /\ ks_unlocked ks !! a = Some v)).
  { intros a v Hv. apply lookup_insert_Some in Hv as [[<- <-]|[Hne Hv]]; [by left|right; by split]. }
  split; cbn [set_unlocks ks_storage ks_cache ks_unlocked ks_mem ks_next ks_closed ks_tasks]; try done.
  - intros a v [[-> ->]|[Hne Hv]]%Hins.
    + split; [cbn; lia|]. split; [|by exists prv]. intros [Hx|(v & Hv & E)]%Hcl.
      * apply i_closed0 in Hx. cbn in Hx. lia.
      * destruct (i_unlocked0 _ _ Hv). cbn in E. lia.
    + destruct (i_unlocked0 a v Hv) as (H1 & H2 & H3). split; [lia|]. split; [|done]. intros [Hx|(v' & Hv' & E)]%Hcl; [done|].
      apply Hne. by apply (i_ptrs0 a addr v v').
  - intros a1 a2 u1 u2 [[-> ->]|[Hn1 H1]]%Hins [[-> ->]|[Hn2 H2]]%Hins E; [done| | |by apply (i_keys0 _ _ u1 u2)]; cbn in E.
    + by destruct (Hun a2 u2 H2).
    + by destruct (Hun a1 u1 H1).
  - intros a1 a2 u1 u2 [[-> ->]|[Hn1 H1]]%Hins [[-> ->]|[Hn2 H2]]%Hins E; [done| | |by apply (i_ptrs0 _ _ u1 u2)]; cbn in E.
    + destruct (i_unlocked0 a2 u2 H2). lia.
    + destruct (i_unlocked0 a1 u1 H1). lia.
  - intros a v Hin. assert (Hc : (a, v) ∈ ks_tasks ks \/ (timed = true /\ (a, v) = (addr, u))).
    { destruct timed; [|by left]. apply elem_of_app in Hin as [|Hin]; [by left|]. apply list_elem_of_singleton in Hin. by right. }
    destruct Hc as [Ht|[-> [= -> ->]]].
    + destruct (i_tasks0 a v Ht) as (H1 & H2 & H3). split; [lia|]. split; [done|].
      intros a' u' [[-> ->]|[Hn' H']]%Hins E; [cbn in E; lia|by apply H3].
    + split; [cbn; lia|]. split; [done|]. intros a' u' [[-> ->]|[Hn' H']]%Hins E; [done|]. destruct (i_unlocked0 a' u' H'). cbn in E. lia.
  - intros x [Hx|(v & Hv & ->)]%Hcl; [apply i_closed0 in Hx; lia|]. destruct (i_unlocked0 _ _ Hv). lia.
  - intros q k Hq. destruct (i_orphans0 q k ltac:(by right)) as [Hk Hne]. split; [done|].
    intros a v [[-> ->]|[Hn Hv]]%Hins; [|by apply (Hne a)]. cbn. intros ->. apply Hnp. by apply (list_elem_of_fmap_2' _ _ (q, k)).
Qed.

(** The end of an unlock. *)
Lemma inv_expired O ks addr u : ks_inv O ks -> ks_unlocked ks !! addr = Some u ->
  ks_inv O (set_unlocks (delete addr (ks_unlocked ks)) (ks_next ks) (ks_closed ks) (ks_tasks ks)
              (set_mem (alter with_zero_D (u_key u) (ks_mem ks)) ks)).
Proof.
  intros [] Hu. assert (Hdel : forall a v, delete addr (ks_unlocked ks) !! a = Some v -> a <> addr /\ ks_unlocked ks !! a = Some v).
  { intros a v Hv. apply lookup_delete_Some in Hv as [Hne Hv]. by split. }
  split; cbn [set_unlocks set_mem ks_storage ks_cache ks_unlocked ks_mem ks_next ks_closed ks_tasks]; try done.
  - intros a v [Hne Hv]%Hdel. destruct (i_unlocked0 a v Hv) as (H1 & H2 & k & Hk & Ha). split; [done|]. split; [done|]. exists k. split; [|done].
    rewrite list_lookup_alter_ne; [done|]. intros E. apply Hne. by apply (i_keys0 a addr v u).
  - intros a1 a2 u1 u2 [_ H1]%Hdel [_ H2]%Hdel. by apply i_keys0.
  - intros a1 a2 u1 u2 [_ H1]%Hdel [_ H2]%Hdel. by apply i_ptrs0.
  - intros a v Hin. destruct (i_tasks0 a v Hin) as (H1 & H2 & H3). split; [done|]. split; [done|]. intros a' u' [_ H']%Hdel. by apply H3.
  - intros p k Hp. destruct (i_orphans0 p k Hp) as [Hk Hne]. split; [|intros a v [_ Hv]%Hdel; by apply (Hne a)].
    rewrite list_lookup_alter_ne; [done|]. by apply (Hne addr).
Qed.

Lemma inv_tasks O ks n : ks_inv O ks -> ks_inv O (set_unlocks (ks_unlocked ks) (ks_next ks) (ks_closed ks) (delete n (ks_tasks ks)) ks).
Proof.
  intros []. split; try done. cbn [set_unlocks ks_tasks ks_next ks_unlocked]. intros a v Hin. apply i_tasks0.
  apply list_elem_of_lookup in Hin as [i Hi]. destruct (decide (i < n)%nat).
  - rewrite list_lookup_delete_lt in Hi by done. by apply list_elem_of_lookup_2 in Hi.
  - rewrite list_lookup_delete_ge in Hi by lia. by apply list_elem_of_lookup_2 in Hi.
Qed.

(** ** Every call keeps the invariant *)

Lemma run_try {A B} (m : M KeyStore (ks_error + A)) (k : A -> M KeyStore (ks_error + B)) ks :
  try m k ks = match m ks with Some (inr a, ks') => k a ks' | Some (inl e, ks') => Some (inl e, ks') | None => None end.
Proof. unfold try, mbind, M_bind. by destruct (m ks) as [[[]]|]. Qed.

Lemma run_ks_Find fired a ks : ks_Find fired a ks =
  of_outcome (find_account (ks_dir ks) a (maybeReload fired (ks_disk ks) (ks_cache ks)))
    (set_cache (maybeReload fired (ks_disk ks) (ks_cache ks)) ks).
Proof. done. Qed.

Lemma keeps_try {A B} I (m : M KeyStore (ks_error + A)) (k : A -> M KeyStore (ks_error + B)) :
  keeps I m -> (forall a, keeps I (k a)) -> keeps I (try m k).
Proof. intros Hm Hk. apply keeps_bind; [done|]. intros [e|a]; [apply keeps_ret|apply Hk]. Qed.

Lemma keeps_of_outcome {A} I (o : outcome ks_error A) : keeps I (of_outcome o).
Proof. destruct o; [apply keeps_ret|apply keeps_ret|apply keeps_panic]. Qed.

Lemma keeps_sign_hash I hash prv : keeps I (sign_hash hash prv).
Proof. unfold sign_hash. destruct (_ =? _)%nat; [destruct (crypto_Sign _ _)|]; apply keeps_ret. Qed.

Lemma keeps_sign_tx I tx chainID prv : keeps I (sign_tx tx chainID prv).
Proof. unfold sign_tx. destruct (SignTx _ _ _); [apply keeps_ret|apply keeps_ret|apply keeps_panic]. Qed.

Lemma keeps_refresh O fired : keeps (ks_inv O) (refreshWallets fired).
Proof.
  apply keeps_get_bind. intros ks Hks. unfold cache_accounts. destruct (refresh_loop _ _) as [ws es].
  apply keeps_modify. intros s Hs. apply inv_set_wallets, inv_set_cache; [|done]. apply maybeReload_by_address, (i_index _ _ Hks).
Qed.

Lemma keeps_HasAddress O fired addr : keeps (ks_inv O) (HasAddress fired addr).
Proof.
  apply keeps_get_bind. intros ks Hks. unfold hasAddress. apply keeps_bind; [|intros; apply keeps_ret].
  apply keeps_modify. intros s Hs. apply inv_set_cache; [|done]. apply maybeReload_by_address, (i_index _ _ Hks).
Qed.

Lemma keeps_ks_Find O fired a : keeps (ks_inv O) (ks_Find fired a).
Proof.
  apply keeps_get_bind. intros ks Hks. apply keeps_bind; [|intros; apply keeps_of_outcome].
  apply keeps_modify. intros s Hs. apply inv_set_cache; [|done]. apply maybeReload_by_address, (i_index _ _ Hks).
Qed.

Lemma find_account_address keydir a ac b : by_address ac -> acc_Address a <> 0 -> find_account keydir a ac = Ret b -> acc_Address b = acc_Address a.
Proof.
  intros Hix Hne. unfold find_account. rewrite (proj2 (Z.eqb_neq _ _)) by done. cbn [negb].
  set (matches := default [] _). assert (Hm : forall x, x ∈ matches -> acc_Address x = acc_Address a) by (intros x; apply Hix).
  assert (Hu : forall e1 e2 : ks_error, match matches with [m] => Ret m | [] => Err e1 | _ => Err e2 end = Ret b -> acc_Address b = acc_Address a).
  { intros e1 e2. destruct matches as [|m [|]]; [done| |done]. intros [= <-]. apply Hm. by left. }
  case_bool_decide; [apply Hu|]. destruct (List.find _ matches) as [m|] eqn:E; [|apply Hu].
  intros [= <-]. apply List.find_some in E as [E _]. apply Hm. by apply list_elem_of_In.
Qed.

Lemma DecryptKey_address c auth key : DecryptKey c auth = Ret key -> key_Address key = PubkeyToAddress (key_PrivateKey key).
Proof.
  unfold DecryptKey. destruct (unmarshal (whole_value c)); cbn [mbind outcome_bind]; [|discriminate|discriminate].
  destruct (unmarshal (struct_fields_of _)); cbn [mbind outcome_bind]; [|discriminate|discriminate].
  destruct (if bool_decide _ then _ else _) as [[bs id]| |]; [|discriminate|discriminate]. by intros [= <-].
Qed.

Lemma GetKey_address N P skip disk addr path auth key :
  GetKey (keyStorePassphrase N P skip) disk addr path auth = Ret key -> PubkeyToAddress (key_PrivateKey key) = addr /\ key_Address key = addr.
Proof.
  unfold GetKey, passphrase_GetKey. destruct (read_file disk path) as [c| |]; cbn [mbind outcome_bind]; [|discriminate|discriminate].
  destruct (DecryptKey _ _) as [k| |] eqn:E; cbn [lift_key mbind outcome_bind]; [|discriminate|discriminate].
  case_bool_decide as Ha; [|done]. intros [= <-]. apply DecryptKey_address in E. by rewrite <- E.
Qed.

(** What a decrypted key is good for. *)
Definition opened (O : list (nat * PrivateKey)) (a : Account) (r : ks_error + (Account * Key * nat)) (ks : KeyStore) : Prop :=
  match r with
  | inl _ => ks_inv O ks
  | inr (a', key, p) => ks_inv ((p, key_PrivateKey key) :: O) ks /\ PubkeyToAddress (key_PrivateKey key) = acc_Address a' /\
      (acc_Address a <> 0 -> acc_Address a' = acc_Address a)
  end.

Lemma getDecryptedKey_opened O fired a auth : ends (ks_inv O) (getDecryptedKey fired a auth) (opened O a).
Proof.
  intros ks Hks. unfold getDecryptedKey. rewrite run_try, run_ks_Find.
  set (cache := maybeReload _ _ _). assert (Hc : ks_inv O (set_cache cache ks)).
  { apply inv_set_cache; [|done]. apply maybeReload_by_address, (i_index _ _ Hks). }
  destruct (find_account (ks_dir ks) a cache) as [a'| |] eqn:Ef; [|done|done]. cbn [of_outcome ret mret M_ret].
  rewrite run_get, run_try. pose proof (i_storage _ _ Hks) as Hst. cbn [set_cache ks_storage ks_disk].
  destruct (ks_storage ks) as [N P skip|]; [|done].
  destruct (GetKey _ _ _ _ _) as [key| |] eqn:Eg; [|done|done]. apply GetKey_address in Eg as [Eg _].
  cbn. split; [by apply (inv_decrypted O (key_PrivateKey key) (set_cache cache ks))|]. split; [done|].
  intros Hne. apply (find_account_address (ks_dir ks) a cache); [|done|done]. apply maybeReload_by_address, (i_index _ _ Hks).
Qed.

Lemma keeps_decrypted {B} O fired a auth (k : Account * Key * nat -> M KeyStore (ks_error + B)) :
  (forall a' key p, PubkeyToAddress (key_PrivateKey key) = acc_Address a' ->
     ends (ks_inv ((p, key_PrivateKey key) :: O)) (k (a', key, p)) (fun _ => ks_inv O)) ->
  keeps (ks_inv O) (try (getDecryptedKey fired a auth) k).
Proof.
  intros Hk. apply (ends_bind _ _ _ (opened O a)); [apply getDecryptedKey_opened|]. intros [e|[[a' key] p]] ks Hks; [done|].
  destruct Hks as (Hi & Ha & _). by apply (Hk a' key p Ha).
Qed.

Lemma zeroKey_ends p prv O : ends (ks_inv ((p, prv) :: O)) (zeroKey p) (fun _ => ks_inv O).
Proof. intros ks Hks. by apply (inv_zero p prv). Qed.

Lemma keeps_remove_file O w path : keeps (ks_inv O) (remove_file w path).
Proof.
  apply keeps_get_bind. intros ks Hks. destruct (ks_disk ks ≫= _); [|apply keeps_ret]. apply keeps_bind; [|intros; apply keeps_ret].
  apply keeps_modify. intros. by apply inv_set_disk.
Qed.

Lemma keeps_store_key O w path key auth : keeps (ks_inv O) (store_key w path key auth).
Proof.
  apply keeps_get_bind. intros ks Hks. destruct (StoreKey _ _ _ _ _ _) as [r disk]. apply keeps_bind; [|intros; apply keeps_of_outcome].
  apply keeps_modify. intros. by apply inv_set_disk.
Qed.

Lemma keeps_store_as O w key auth : keeps (ks_inv O) (store_as w key auth).
Proof. apply keeps_get_bind. intros ks Hks. apply keeps_try; [apply keeps_store_key|]. intros _. apply keeps_ret. Qed.

Lemma keeps_publish O w a : keeps (ks_inv O) (publish w a).
Proof.
  apply keeps_bind; [|intros; apply keeps_bind; [apply keeps_refresh|intros; apply keeps_ret]].
  apply keeps_modify. intros s Hs. apply inv_set_cache; [|done]. apply add_by_address, (i_index _ _ Hs).
Qed.

Lemma keeps_importKey O w key auth : keeps (ks_inv O) (importKey w key auth).
Proof. apply keeps_try; [apply keeps_store_as|]. intros a. apply keeps_publish. Qed.

Lemma keeps_import_new O w key auth : keeps (ks_inv O) (import_new w key auth).
Proof.
  apply keeps_bind; [apply keeps_HasAddress|]. intros [|]; [apply keeps_ret|apply keeps_importKey].
Qed.

Lemma keeps_ks_Delete O w a auth : keeps (ks_inv O) (ks_Delete w a auth).
Proof.
  apply keeps_decrypted. intros a' key p _. apply (ends_bind _ _ _ (fun _ => ks_inv O)); [apply zeroKey_ends|]. intros _.
  apply keeps_ends, keeps_try; [apply keeps_remove_file|]. intros _. apply keeps_bind; [|intros; apply keeps_bind; [apply keeps_refresh|intros; apply keeps_ret]].
  apply keeps_modify. intros s Hs. apply inv_set_cache; [|done]. apply remove_indexed_ok, (i_index _ _ Hs).
Qed.

Lemma keeps_sign_then_zero {A} O (sign : PrivateKey -> M KeyStore (ks_error + A)) fired a auth :
  (forall I prv, keeps I (sign prv)) ->
  keeps (ks_inv O) (try (getDecryptedKey fired a auth) (fun r => let '(_, key, p) := r in
    sig ← sign (key_PrivateKey key); _ ← zeroKey p; mret sig)).
Proof.
  intros Hs. apply keeps_decrypted. intros a' key p _.
  apply (ends_bind _ _ _ (fun _ => ks_inv ((p, key_PrivateKey key) :: O))); [apply keeps_ends, Hs|]. intros sig.
  apply (ends_bind _ _ _ (fun _ => ks_inv O)); [apply zeroKey_ends|]. intros _. apply keeps_ends, keeps_ret.
Qed.

(** The same pointer is the same unlock. *)
Lemma expire_inv O addr u ks : ks_inv O ks -> (forall u', ks_unlocked ks !! addr = Some u' -> u_ptr u' = u_ptr u -> u' = u) ->
  match expire addr u ks with Some (_, ks') => ks_inv O ks' | None => True end.
Proof.
  intros Hks Hu. unfold expire. rewrite run_get. destruct (ks_unlocked ks !! addr) as [u'|] eqn:E; [|done].
  destruct (Nat.eqb_spec (u_ptr u') (u_ptr u)) as [Ep|]; [|done]. rewrite (Hu u' eq_refl Ep) in E.
  exact (inv_expired O ks addr u Hks E).
Qed.

Lemma keeps_expire_task O n timer : keeps (ks_inv O) (expire_task n timer).
Proof.
  intros ks Hks. unfold expire_task. rewrite run_get. destruct (ks_tasks ks !! n) as [[addr u]|] eqn:E; [|done].
  destruct (timer || _); [|done]. rewrite run_modify. pose proof (inv_tasks O ks n Hks) as Hk'. destruct timer; [|done].
  apply expire_inv; [done|]. intros u' Hu' Ep. apply list_elem_of_lookup_2 in E.
  by destruct (i_tasks _ _ Hks addr u E) as (_ & _ & H); apply (H addr u').
Qed.

Lemma keeps_Lock O addr : keeps (ks_inv O) (Lock addr).
Proof.
  intros ks Hks. unfold Lock. rewrite run_get. destruct (ks_unlocked ks !! addr) as [u|] eqn:E; [|done].
  apply expire_inv; [done|]. intros u' Hu'. congruence.
Qed.

(** The three cases of [TimedUnlock] after the key is decrypted: what the state
    is, and that a channel is never closed twice. *)
Definition install (addr : Address) (p : nat) (timed : bool) (closed : gset nat) (ks : KeyStore) : KeyStore :=
  let u := mk_unlocked (ks_next ks) p timed in
  set_unlocks (<[addr := u]> (ks_unlocked ks)) (S (ks_next ks)) closed (if timed then ks_tasks ks ++ [(addr, u)] else ks_tasks ks) ks.

Lemma TimedUnlock_run O w a auth timeout ks a' key p ks1 : ks_inv O ks ->
  getDecryptedKey (w_find w) a auth ks = Some (inr (a', key, p), ks1) ->
  TimedUnlock w a auth timeout ks = Some (inr tt,
    match ks_unlocked ks1 !! acc_Address a' with
    | Some u => if u_timed u then install (acc_Address a') p (0 <? timeout) ({[ u_ptr u ]} ∪ ks_closed ks1) ks1
                else set_mem (alter with_zero_D p (ks_mem ks1)) ks1
    | None => install (acc_Address a') p (0 <? timeout) (ks_closed ks1) ks1
    end).
Proof.
  intros Hks Hd. pose proof (getDecryptedKey_opened O (w_find w) a auth ks Hks) as Ho. rewrite Hd in Ho. destruct Ho as (Hi & _ & _).
  unfold TimedUnlock. rewrite run_try, Hd. cbn beta iota. rewrite run_get.
  destruct (ks_unlocked ks1 !! acc_Address a') as [u|] eqn:E; [|done]. destruct (u_timed u); [|done].
  unfold close_abort, mbind at 1, M_bind at 1. rewrite run_get. rewrite bool_decide_false; [done|].
  by destruct (i_unlocked _ _ Hi _ _ E) as (_ & H & _).
Qed.

Lemma install_inv O p prv addr timed closed ks : ks_inv ((p, prv) :: O) ks -> PubkeyToAddress prv = addr ->
  (forall x, x ∈ closed -> x ∈ ks_closed ks \/ exists u, ks_unlocked ks !! addr = Some u /\ x = u_ptr u) ->
  ks_inv O (install addr p timed closed ks).
Proof. apply inv_install. Qed.

Lemma keeps_TimedUnlock O w a auth timeout : keeps (ks_inv O) (TimedUnlock w a auth timeout).
Proof.
  intros ks Hks. pose proof (getDecryptedKey_opened O (w_find w) a auth ks Hks) as Ho.
  destruct (getDecryptedKey (w_find w) a auth ks) as [[[e|[[a' key] p]] ks1]|] eqn:Hd.
  - unfold TimedUnlock. by rewrite run_try, Hd.
  - rewrite (TimedUnlock_run O w a auth timeout ks a' key p ks1 Hks Hd). destruct Ho as (Hi & Ha & _).
    destruct (ks_unlocked ks1 !! acc_Address a') as [u|] eqn:E; [destruct (u_timed u)|].
    + apply (install_inv O p (key_PrivateKey key)); [done|done|]. intros x. rewrite elem_of_union, elem_of_singleton. intros [->|]; [right; by exists u|by left].
    + by apply (inv_zero p (key_PrivateKey key)).
    + apply (install_inv O p (key_PrivateKey key)); [done|done|]. by left.
  - unfold TimedUnlock. by rewrite run_try, Hd.
Qed.

(** ** Runs of the key store *)

(** The calls, the steps of its goroutines, and changes of the directory by
    others. *)
Inductive ks_call : Type :=
| CallWallets (fired : bool)
| CallHasAddress (fired : bool) (addr : Address)
| CallFind (fired : bool) (a : Account)
| CallDelete (w : world) (a : Account) (auth : list Z)
| CallUnlock (w : world) (a : Account) (auth : list Z) (timeout : Z)
| CallLock (addr : Address)
| CallSignHashP (w : world) (a : Account) (auth hash : list Z)
| CallSignTxP (w : world) (a : Account) (auth : list Z) (tx : Transaction) (chainID : option Z)
| CallNewAccount (w : world) (auth : list Z)
| CallImport (w : world) (c : content) (auth auth' : list Z)
| CallImportECDSA (w : world) (prv : PrivateKey) (auth : list Z)
| CallImportPreSale (w : world) (c : content) (auth : list Z)
| CallExport (w : world) (a : Account) (auth auth' : list Z)
| CallUpdate (w : world) (a : Account) (auth auth' : list Z)
| StepExpire (n : nat) (timer : bool)
| StepWatcher (e : watch_event)
| StepDisk (disk : option directory).

Definition run_call (c : ks_call) : M KeyStore () :=
  match c with
  | CallWallets f => _ ← ks_Wallets f; mret tt
  | CallHasAddress f addr => _ ← HasAddress f addr; mret tt
  | CallFind f a => _ ← ks_Find f a; mret tt
  | CallDelete w a auth => _ ← ks_Delete w a auth; mret tt
  | CallUnlock w a auth timeout => _ ← TimedUnlock w a auth timeout; mret tt
  | CallLock addr => Lock addr
  | CallSignHashP w a auth hash => _ ← SignHashWithPassphrase w a auth hash; mret tt
  | CallSignTxP w a auth tx chainID => _ ← SignTxWithPassphrase w a auth tx chainID; mret tt
  | CallNewAccount w auth => _ ← NewAccount w auth; mret tt
  | CallImport w c auth auth' => _ ← Import w c auth auth'; mret tt
  | CallImportECDSA w prv auth => _ ← ImportECDSA w prv auth; mret tt
  | CallImportPreSale w c auth => _ ← ImportPreSaleKey w c auth; mret tt
  | CallExport w a auth auth' => _ ← Export w a auth auth'; mret tt
  | CallUpdate w a auth auth' => _ ← Update w a auth auth'; mret tt
  | StepExpire n timer => expire_task n timer
  | StepWatcher e => mmodify (fun ks => set_cache (watcher_loop e (ks_disk ks) (ks_cache ks)) ks)
  | StepDisk disk => mmodify (set_disk disk)
  end.

Lemma keeps_discard {A} I (m : M KeyStore A) : keeps I m -> keeps I (_ ← m; mret tt).
Proof. intros H. apply keeps_bind; [done|]. intros _. apply keeps_ret. Qed.

Lemma run_call_keeps O c : keeps (ks_inv O) (run_call c).
Proof.
  destruct c; cbn [run_call]; try (apply keeps_discard).
  - apply keeps_bind; [apply keeps_refresh|]. intros _. apply keeps_gets.
  - apply keeps_HasAddress.
  - apply keeps_ks_Find.
  - apply keeps_ks_Delete.
  - apply keeps_TimedUnlock.
  - apply keeps_Lock.
  - apply (keeps_sign_then_zero O (sign_hash hash)). intros. apply keeps_sign_hash.
  - apply (keeps_sign_then_zero O (sign_tx tx chainID)). intros. apply keeps_sign_tx.
  - apply keeps_try; [|intros r; apply keeps_publish]. unfold storeNewKey. destruct (w_newkey w); [|apply keeps_ret].
    apply keeps_try; [apply keeps_store_as|]. intros a. apply keeps_ret.
  - apply keeps_try; [apply keeps_of_outcome|]. intros. apply keeps_import_new.
  - apply keeps_import_new.
  - apply keeps_try; [|intros r; apply keeps_publish]. apply keeps_try; [apply keeps_of_outcome|]. intros key.
    apply keeps_try; [apply keeps_store_as|]. intros a. apply keeps_ret.
  - apply keeps_decrypted. intros a' key p _ ks Hks%inv_weaken. revert ks Hks. apply keeps_get_bind. intros ks _. cbn beta.
    destruct (match ks_storage ks with keyStorePassphrase N P _ => (N, P) | keyStorePlain => (2 ^ 18, 1) end). apply keeps_of_outcome.
  - apply keeps_decrypted. intros a' key p _ ks Hks%inv_weaken. revert ks Hks. apply keeps_store_key.
  - apply keeps_expire_task.
  - apply keeps_modify. intros s Hs. apply inv_set_cache; [|done]. apply watcher_by_address, (i_index _ _ Hs).
  - apply keeps_modify. intros s Hs. by apply inv_set_disk.
Qed.

(** The states after calls from a state. *)
Inductive reaches : KeyStore -> KeyStore -> Prop :=
| reaches_refl ks : reaches ks ks
| reaches_step ks ks' ks'' c : reaches ks ks' -> run_call c ks' = Some (tt, ks'') -> reaches ks ks''.

Lemma reaches_inv O ks ks' : ks_inv O ks -> reaches ks ks' -> ks_inv O ks'.
Proof. intros Hks. induction 1 as [|ks ks' ks'' c _ IH Hc]; [done|]. apply (keeps_run _ _ _ _ _ (run_call_keeps O c) (IH Hks) Hc). Qed.

Lemma newKeyStore_inv keydir N P skip disk : ks_inv [] (newKeyStore keydir (keyStorePassphrase N P skip) disk).
Proof.
  unfold newKeyStore, cache_accounts. split; cbn [ks_storage ks_cache ks_unlocked ks_mem ks_next ks_closed ks_tasks]; try done.
  - apply maybeReload_by_address. intros addr a. cbn. rewrite lookup_empty. by intros ?%not_elem_of_nil.
  - intros addr u H. by apply not_elem_of_nil in H.
  - constructor.
  - intros p prv H. by apply not_elem_of_nil in H.
Qed.

(** ** An unlock lasts until its own timer *)

(** Decrypting a key changes neither the unlocks nor the keys in memory. *)
Lemma getDecryptedKey_frame fired a auth ks r ks' : getDecryptedKey fired a auth ks = Some (r, ks') ->
  ks_unlocked ks' = ks_unlocked ks /\ exists mem, ks_mem ks' = ks_mem ks ++ mem.
Proof.
  unfold getDecryptedKey. rewrite run_try, run_ks_Find. set (cache := maybeReload _ _ _).
  destruct (find_account _ a cache) as [a'| |]; cbn [of_outcome ret throw mret M_ret mpanic]; [|intros [= <- <-]; split; [done|exists []; by rewrite app_nil_r]|discriminate].
  rewrite run_get, run_try. destruct (GetKey _ _ _ _ _) as [key| |]; cbn [of_outcome ret throw mret M_ret mpanic];
    [|intros [= <- <-]; split; [done|exists []; by rewrite app_nil_r]|discriminate].
  rewrite run_modify. intros [= <- <-]. split; [done|]. by eexists.
Qed.

Lemma getDecryptedKey_unlocked fired a auth ks r ks' : getDecryptedKey fired a auth ks = Some (r, ks') -> ks_unlocked ks' = ks_unlocked ks.
Proof. intros H. by destruct (getDecryptedKey_frame _ _ _ _ _ _ H). Qed.

Lemma getDecryptedKey_mem fired a auth ks r ks' p prv : getDecryptedKey fired a auth ks = Some (r, ks') ->
  ks_mem ks !! p = Some prv -> ks_mem ks' !! p = Some prv.
Proof. intros H. destruct (getDecryptedKey_frame _ _ _ _ _ _ H) as (_ & mem & ->). apply lookup_app_l_Some. Qed.

(** unlocking with a timeout an address that is not unlocked for good
    never panics once the key is decrypted; the timers of earlier unlocks of
    any address leave it unlocked, and its own timer locks the address and
    overwrites the key in memory. *)
Theorem unlock_lasts_until_its_timer (O : list (nat * PrivateKey)) (w : world) (a a' : Account) (auth : list Z) (timeout : Z)
    (ks ks1 : KeyStore) (key : Key) (p : nat) :
  ks_inv O ks -> 0 < timeout -> getDecryptedKey (w_find w) a auth ks = Some (inr (a', key, p), ks1) ->
  match ks_unlocked ks !! acc_Address a' with Some u => u_timed u = true | None => True end ->
  exists ks2 n u, TimedUnlock w a auth timeout ks = Some (inr tt, ks2) /\ ks_tasks ks2 !! n = Some (acc_Address a', u) /\
    ks_unlocked ks2 !! acc_Address a' = Some u /\ ks_mem ks2 !! u_key u = Some (key_PrivateKey key) /\
    (forall m timer ks3, m <> n -> expire_task m timer ks2 = Some (tt, ks3) -> ks_unlocked ks3 !! acc_Address a' = Some u) /\
    exists ks3, expire_task n true ks2 = Some (tt, ks3) /\ ks_unlocked ks3 !! acc_Address a' = None /\
      ks_mem ks3 !! u_key u = Some (with_zero_D (key_PrivateKey key)).
Proof.
  intros Hks Ht Hd Hu. set (addr := acc_Address a') in *. pose proof (getDecryptedKey_opened O (w_find w) a auth ks Hks) as Ho. rewrite Hd in Ho.
  destruct Ho as (Hi & _ & _). pose proof (TimedUnlock_run O w a auth timeout ks a' key p ks1 Hks Hd) as Hrun.
  fold addr in Hrun. rewrite (getDecryptedKey_unlocked _ _ _ _ _ _ Hd) in Hrun. rewrite (proj2 (Z.ltb_lt _ _)) in Hrun by done.
  set (u := mk_unlocked (ks_next ks1) p true).
  assert (E : exists closed, TimedUnlock w a auth timeout ks = Some (inr tt, install addr p true closed ks1)).
  { destruct (ks_unlocked ks !! addr) as [v|]; [rewrite Hu in Hrun|]; by eexists. }
  destruct E as [closed E]. exists (install addr p true closed ks1), (List.length (ks_tasks ks1)), u.
  assert (Htask : ks_tasks (install addr p true closed ks1) !! List.length (ks_tasks ks1) = Some (addr, u)).
  { cbn. by rewrite lookup_app_r, Nat.sub_diag. }
  assert (Hul : ks_unlocked (install addr p true closed ks1) !! addr = Some u) by apply lookup_insert_eq.
  destruct (i_orphans _ _ Hi p (key_PrivateKey key) ltac:(by left)) as [Hmem _].
  split; [done|]. split; [done|]. split; [done|]. split; [done|]. split.
  - intros m timer ks3 Hne. unfold expire_task. rewrite run_get. destruct (_ !! m) as [[addr' v]|] eqn:Em; [|by intros [= <-]].
    destruct (timer || _); [|by intros [= <-]]. rewrite run_modify. destruct timer; [|by intros [= <-]].
    assert (Hv : (u_ptr v < ks_next ks1)%nat).
    { cbn in Em. apply lookup_app_Some in Em as [Em|[Hge Em]].
      - apply list_elem_of_lookup_2 in Em. by apply (i_tasks _ _ Hi addr' v).
      - apply lookup_lt_Some in Em as Hl. cbn in Hl. lia. }
    unfold expire. rewrite run_get. cbn [install set_unlocks ks_unlocked].
    fold u. destruct (<[addr := u]> (ks_unlocked ks1) !! addr') as [v'|] eqn:Ev; [|unfold mret, M_ret; by intros [= <-]].
    destruct (Nat.eqb_spec (u_ptr v') (u_ptr v)) as [Ep|]; [|unfold mret, M_ret; by intros [= <-]].
    assert (Hadd : addr' <> addr). { intros ->. rewrite lookup_insert_eq in Ev. injection Ev as <-. cbn in Ep. lia. }
    intros [= <-]. cbn. by rewrite lookup_delete_ne, lookup_insert_eq.
  - eexists. split; [|split].
    + unfold expire_task. rewrite run_get, Htask. cbn [orb]. rewrite run_modify. unfold expire. rewrite run_get. cbn [set_unlocks ks_unlocked].
      fold u. rewrite Hul. rewrite Nat.eqb_refl. reflexivity.
    + cbn. by rewrite lookup_delete_eq.
    + cbn. by rewrite list_lookup_alter_eq, Hmem.
Qed.

(** unlocking again an address that is unlocked with a timeout leaves the
    private key of the earlier unlock in memory: no later call, timer or lock
    ever overwrites it. *)
Theorem replaced_unlock_leaves_its_key (O : list (nat * PrivateKey)) (w : world) (a : Account) (auth : list Z) (timeout : Z)
    (ks ks2 ks3 : KeyStore) (u : unlocked) (prv : PrivateKey) :
  ks_inv O ks -> acc_Address a <> 0 -> ks_unlocked ks !! acc_Address a = Some u -> u_timed u = true -> ks_mem ks !! u_key u = Some prv ->
  TimedUnlock w a auth timeout ks = Some (inr tt, ks2) -> reaches ks2 ks3 ->
  ks_mem ks3 !! u_key u = Some prv.
Proof.
  intros Hks Ha Hu Ht Hm Hrun Hr. pose proof (getDecryptedKey_opened O (w_find w) a auth ks Hks) as Ho.
  destruct (getDecryptedKey (w_find w) a auth ks) as [[[e|[[a' key] p]] ks1]|] eqn:Hd.
  - unfold TimedUnlock in Hrun. by rewrite run_try, Hd in Hrun.
  - destruct Ho as (Hi & Hpub & Haddr). specialize (Haddr Ha). rewrite (TimedUnlock_run O w a auth timeout ks a' key p ks1 Hks Hd) in Hrun.
    pose proof (getDecryptedKey_unlocked _ _ _ _ _ _ Hd) as Hsame. rewrite Hsame, Haddr, Hu, Ht in Hrun. injection Hrun as <-.
    assert (Hne : u_key u <> p).
    { intros <-. destruct (i_orphans _ _ Hi _ _ (list_elem_of_here _ _)) as [_ H]. apply (H (acc_Address a) u); [by rewrite Hsame|done]. }
    assert (Hm1 : ks_mem ks1 !! u_key u = Some prv) by (by apply (getDecryptedKey_mem _ _ _ _ _ _ _ _ Hd)).
    assert (Hinv : ks_inv [(u_key u, prv)] (install (acc_Address a) p (0 <? timeout) ({[u_ptr u]} ∪ ks_closed ks1) ks1)).
    { assert (Hi' : ks_inv [(p, key_PrivateKey key)] ks1).
      { clear -Hi. destruct Hi. split; try done; [apply NoDup_singleton|]. intros q k Hq. apply list_elem_of_singleton in Hq as [= -> ->]. apply i_orphans0. by left. }
      assert (Hn := install_inv [] p (key_PrivateKey key) (acc_Address a) (0 <? timeout) ({[u_ptr u]} ∪ ks_closed ks1) ks1 Hi').
      destruct Hn as [? ? ? ? ? ? ? ? ?]; [by rewrite Hpub, Haddr|intros x; rewrite elem_of_union, elem_of_singleton; intros [->|]; [right; exists u; by rewrite Hsame|by left]|].
      split; try done; [apply NoDup_singleton|]. intros q k Hq. apply list_elem_of_singleton in Hq as [= -> ->]. split; [done|].
      intros addr v Hv E. cbn in Hv. apply lookup_insert_Some in Hv as [[<- <-]|[Hn Hv]]; [by cbn in E|].
      apply Hn. apply (i_keys _ _ Hi (acc_Address a) addr u v); [by rewrite Hsame|done|done]. }
    pose proof (reaches_inv _ _ _ Hinv Hr) as Hfin. by destruct (i_orphans _ _ Hfin _ _ (list_elem_of_here _ _)).
  - unfold TimedUnlock in Hrun. by rewrite run_try, Hd in Hrun.
Qed.
End Safety.

(** ** Signatures are by the account *)

Section Signatures.
Context `{crypto : !TxCrypto} `{keys : !KeyCrypto} {order : RangeOrder} `{sign : !SignLaws}.

(** The address of a key is the one that is recovered from its signatures. *)
Hypothesis address_of_key : forall prv : PrivateKey, PubkeyToAddress prv = key_address prv.

Definition signer_of (chainID : option Z) : Signer :=
  match chainID with Some _ => NewEIP155Signer chainID | None => HomesteadSigner end.

Lemma sign_tx_sender tx chainID prv tx' ks ks' : match chainID with Some c => 0 < c | None => True end ->
  sign_tx tx chainID prv ks = Some (inr tx', ks') -> signer_Sender (signer_of chainID) tx' = Ret (PubkeyToAddress prv).
Proof.
  intros Hc. unfold sign_tx. fold (signer_of chainID). destruct (SignTx tx (signer_of chainID) prv) as [t| |] eqn:E; [|discriminate|discriminate].
  intros [= -> _]. rewrite address_of_key. destruct chainID as [c|]; cbn [signer_of] in *.
  - by apply (SignTx_eip155_recovers tx c prv tx').
  - apply (SignTx_Sender_legacy tx HomesteadSigner prv tx'); [by left|done].
Qed.

(** C11: whatever calls, timers and changes of the directory came before, a
    transaction that the key store signs for an account, with an unlocked key
    or with a passphrase, is a transaction of which the signer recovers the
    address of this account. *)
Theorem signatures_are_by_the_account (keydir : gostr) (N P : Z) (skip : bool) (disk : option directory) (ks ks' : KeyStore)
    (w : world) (a : Account) (auth : list Z) (tx tx' : Transaction) (chainID : option Z) :
  reaches (newKeyStore keydir (keyStorePassphrase N P skip) disk) ks ->
  match chainID with Some c => 0 < c | None => True end -> acc_Address a <> 0 ->
  ks_SignTx a tx chainID ks = Some (inr tx', ks') \/ SignTxWithPassphrase w a auth tx chainID ks = Some (inr tx', ks') ->
  signer_Sender (signer_of chainID) tx' = Ret (acc_Address a).
Proof.
  intros Hr Hc Ha Hs. pose proof (reaches_inv [] _ _ (newKeyStore_inv keydir N P skip disk) Hr) as Hi. destruct Hs as [Hs|Hs].
  - unfold ks_SignTx, unlocked_key in Hs. rewrite run_try, run_get in Hs.
    destruct (ks_unlocked ks !! acc_Address a) as [u|] eqn:E; [|discriminate].
    destruct (i_unlocked _ _ Hi _ _ E) as (_ & _ & prv & Hm & Hpub). rewrite (run_lift _ _ _ prv Hm) in Hs. cbn [ret mret M_ret] in Hs.
    rewrite <- Hpub. by apply (sign_tx_sender tx chainID prv tx' ks ks').
  - unfold SignTxWithPassphrase in Hs. rewrite run_try in Hs. pose proof (getDecryptedKey_opened [] (w_find w) a auth ks Hi) as Ho.
    destruct (getDecryptedKey (w_find w) a auth ks) as [[[e|[[a' key] p]] ks1]|]; [discriminate| |discriminate].
    destruct Ho as (_ & Hpub & Haddr). rewrite <- (Haddr Ha), <- Hpub. unfold mbind at 1, M_bind at 1 in Hs.
    destruct (sign_tx tx chainID (key_PrivateKey key) ks1) as [[r ks2]|] eqn:E; [|discriminate].
    unfold zeroKey in Hs. rewrite run_modify in Hs. injection Hs as -> _. by apply (sign_tx_sender tx chainID _ tx' ks1 ks2).
Qed.
End Signatures.

(** ** Key files are replaced atomically *)

Section Store.
Context `{crypto : !TxCrypto} `{keys : !KeyCrypto} {order : RangeOrder}.

Lemma base_name_length path : (List.length (base_name path) <= List.length path)%nat.
Proof. unfold base_name. destruct (last_index 47 path); [rewrite length_drop; lia|done]. Qed.

Lemma temp_name_ne file suffix : temp_name file suffix <> file.
Proof.
  intros E. apply (f_equal (@List.length Z)) in E. unfold temp_name in E. pose proof (base_name_length file).
  rewrite !length_app, length_take in E. cbn [List.length lit fmap list_fmap] in E. change (List.length (lit ".")) with 1%nat in E.
  change (List.length (lit ".tmp")) with 4%nat in E. lia.
Qed.

Definition lookup_file (disk : option directory) (path : gostr) : option file := d ← disk; d !! path.

(** Whatever fails, the file keeps its contents or gets contents that decrypt
    with the passphrase, and no file changes but this and the temporary one. *)
Lemma StoreKey_atomic w N P path key auth disk :
  let '(r, disk') := StoreKey w (keyStorePassphrase N P false) path key auth disk in
  (forall p, p <> path -> p <> temp_name path (w_suffix w) -> lookup_file disk' p = lookup_file disk p) /\
  match r with
  | Ret _ => exists f key', lookup_file disk' path = Some f /\ DecryptKey (f_content f) auth = Ret key' /\ key_Address key' = key_Address key
  | _ => lookup_file disk' path = lookup_file disk path
  end.
Proof.
  unfold StoreKey, passphrase_StoreKey. destruct (EncryptKey _ _ _ _ _ _) as [c| |]; cbn [lift_key]; [|done|done].
  unfold writeTemporaryKeyFile. destruct (w_write w); [|done]. set (tmp := temp_name path (w_suffix w)).
  set (f := mk_file false (w_modtime w) c). set (d := default ∅ disk).
  assert (Hd : forall p, d !! p = lookup_file disk p) by (intros p; unfold d, lookup_file; destruct disk; [done|apply lookup_empty]).
  pose proof (temp_name_ne path (w_suffix w)) as Hne. fold tmp in Hne.
  assert (Hfail : forall p, p <> tmp -> lookup_file (Some (<[tmp := f]> d)) p = lookup_file disk p).
  { intros p Hp. cbn. by rewrite lookup_insert_ne, Hd. }
  unfold passphrase_GetKey, read_file. cbn [mbind option_bind]. rewrite lookup_insert_eq. cbn [f f_content mbind outcome_bind].
  destruct (DecryptKey c auth) as [key'| |] eqn:Ec; cbn [lift_key mbind outcome_bind];
    [|split; [intros p _ Hp; by apply Hfail|by apply Hfail]..].
  case_bool_decide as Hk; [|split; [intros p _ Hp; by apply Hfail|by apply Hfail]].
  unfold rename. destruct (w_rename w); [|split; [intros p _ Hp; by apply Hfail|by apply Hfail]].
  cbn [mbind option_bind]. rewrite lookup_insert_eq. cbn [from_option id]. split.
  - intros p Hp Hpt. unfold lookup_file at 1. cbn [mbind option_bind]. rewrite lookup_insert_ne, lookup_delete_ne, lookup_insert_ne by done. apply Hd.
  - exists f, key'. split; [|done]. unfold lookup_file. cbn [mbind option_bind]. apply lookup_insert_eq.
Qed.

Lemma getDecryptedKey_shape fired a auth ks a' key p ks1 N P skip : ks_storage ks = keyStorePassphrase N P skip ->
  getDecryptedKey fired a auth ks = Some (inr (a', key, p), ks1) ->
  ks_disk ks1 = ks_disk ks /\ ks_storage ks1 = ks_storage ks /\ key_Address key = acc_Address a'.
Proof.
  intros Hst. unfold getDecryptedKey. rewrite run_try, run_ks_Find. set (cache := maybeReload _ _ _).
  destruct (find_account _ a cache) as [b| |]; cbn [of_outcome ret throw mret M_ret mpanic]; [|discriminate|discriminate].
  rewrite run_get, run_try. cbn [set_cache ks_storage ks_disk]. rewrite Hst.
  destruct (GetKey _ _ _ _ _) as [k| |] eqn:Eg; cbn [of_outcome ret throw mret M_ret mpanic]; [|discriminate|discriminate].
  rewrite run_modify. intros [= <- <- _ <-]. apply GetKey_address in Eg as [_ Eg]. cbn. by rewrite Hst.
Qed.

(** C31: changing the passphrase of a key is atomic, whatever the file system
    does: on success its file decrypts with the new passphrase to a key of the
    same address, on an error the file is the old one; no other file of the
    directory changes but the temporary one. *)
Theorem passphrase_change_is_atomic (w : world) (a a' : Account) (auth auth' : list Z) (ks ks1 ks' : KeyStore) (key : Key) (p : nat)
    (N P : Z) (r : ks_error + ()) :
  ks_storage ks = keyStorePassphrase N P false ->
  getDecryptedKey (w_find w) a auth ks = Some (inr (a', key, p), ks1) -> Update w a auth auth' ks = Some (r, ks') ->
  let path := Path (acc_URL a') in
  (forall q, q <> path -> q <> temp_name path (w_suffix w) -> lookup_file (ks_disk ks') q = lookup_file (ks_disk ks) q) /\
  match r with
  | inr _ => exists f key', lookup_file (ks_disk ks') path = Some f /\ DecryptKey (f_content f) auth' = Ret key' /\ key_Address key' = acc_Address a'
  | inl _ => lookup_file (ks_disk ks') path = lookup_file (ks_disk ks) path
  end.
Proof.
  intros Hst Hd Hu path. destruct (getDecryptedKey_shape _ _ _ _ _ _ _ _ N P false Hst Hd) as (Hdisk & Hst1 & Hka).
  unfold Update in Hu. rewrite run_try, Hd in Hu. unfold store_key in Hu. rewrite run_get, Hst1, Hst, Hdisk in Hu. fold path in Hu.
  pose proof (StoreKey_atomic w N P path key auth' (ks_disk ks)) as Hat. destruct (StoreKey _ _ _ _ _ _) as [o disk'].
  destruct Hat as [Hother Hres]. rewrite run_modify in Hu.
  destruct o as [[]|e|]; cbn [of_outcome ret throw mret M_ret mpanic] in Hu; [injection Hu as <- <-..|discriminate]; (split; [exact Hother|]); [|exact Hres].
  destruct Hres as (f & key' & H1 & H2 & H3). exists f, key'. by rewrite H3, Hka.
Qed.

(** ** New accounts can be used *)

(** A cached account is found by itself. *)
Lemma find_account_self keydir a ac : cache_ok ac -> a ∈ ac_all ac -> 47 ∈ Path (acc_URL a) -> find_account keydir a ac = Ret a.
Proof.
  intros Hok Ha Hs. unfold find_account. set (matches := if negb _ then _ else _).
  assert (Hm : forall x, x ∈ matches -> x ∈ ac_all ac).
  { intros x. unfold matches. destruct (negb _); [|done]. rewrite (proj1 (ok_index ac Hok _)). unfold of_address. rewrite list_elem_of_filter. by intros []. }
  assert (Hin : a ∈ matches).
  { unfold matches. destruct (negb _); [|done]. rewrite (proj1 (ok_index ac Hok _)). unfold of_address. by rewrite list_elem_of_filter. }
  rewrite bool_decide_false by (intros E; rewrite E in Hs; by apply not_elem_of_nil in Hs). rewrite bool_decide_true by done.
  destruct (List.find _ matches) as [m|] eqn:E.
  - apply List.find_some in E as [E1 E2]. apply bool_decide_eq_true in E2. f_equal. apply (distinct_location ac); [done| |done|].
    + apply Hm. by apply list_elem_of_In.
    + rewrite E2. by destruct (acc_URL a).
  - apply list_elem_of_In in Hin. pose proof (List.find_none _ _ E a Hin) as Hf. apply bool_decide_eq_false in Hf. destruct Hf. by destruct (acc_URL a).
Qed.

Lemma new_path_slash keydir ts addr : 47 ∈ JoinPath keydir (keyFileName ts addr).
Proof.
  unfold JoinPath. assert (E : exists r, keyFileName ts addr = 85 :: 84 :: r) by (by eexists). destruct E as [r ->].
  unfold has_prefix. rewrite bool_decide_false by done. unfold join_path. rewrite !bool_decide_false by done.
  case_bool_decide as Hd; rewrite elem_of_app; [left; subst; cbn; by left|right; by left].
Qed.

Context `{laws : !KeyLaws}.

(** When the file system works, a stored key is decrypted from its file. *)
Lemma StoreKey_stores w N P path key auth disk d : w_write w = true -> w_rename w = true -> valid_key key ->
  Z.abs N < 2 ^ 53 -> Z.abs P < 2 ^ 53 -> Forall is_byte (w_salt w) -> Forall is_byte (w_iv w) -> List.length (w_iv w) = 16%nat ->
  scrypt_Key auth (w_salt w) N scryptR P scryptDKLen = Ret d ->
  exists disk', StoreKey w (keyStorePassphrase N P false) path key auth disk = (Ret tt, disk') /\
    GetKey (keyStorePassphrase N P false) disk' (key_Address key) path auth = Ret key.
Proof.
  intros Hw Hr Hv HN HP Hs Hiv Hl Hd. destruct (EncryptKey_spec key auth N P (w_salt w) (w_iv w) d Hv HN HP Hs Hiv Hl Hd) as (c & Ec & Ed & _).
  unfold StoreKey, passphrase_StoreKey. rewrite Ec. cbn [lift_key]. unfold writeTemporaryKeyFile. rewrite Hw. unfold passphrase_GetKey at 1, read_file at 1. cbn [mbind option_bind].
  rewrite lookup_insert_eq. cbn [f_content mbind outcome_bind]. rewrite Ed. cbn [lift_key mbind outcome_bind]. rewrite bool_decide_true by done.
  unfold rename. rewrite Hr. cbn [mbind option_bind]. rewrite lookup_insert_eq. eexists. split; [reflexivity|].
  unfold GetKey, passphrase_GetKey, read_file. cbn [mbind option_bind]. rewrite lookup_insert_eq. cbn [f_content mbind outcome_bind]. rewrite Ed. cbn [lift_key mbind outcome_bind]. by rewrite bool_decide_true.
Qed.

(** a new account is found in the store at once and its key is decrypted
    with the passphrase it was created with: the file is written, verified
    and put in place, and the cache knows the account before any scan. *)
Theorem new_accounts_can_be_used (w : world) (auth : list Z) (ks : KeyStore) (prv : PrivateKey) (N P : Z) (d : gobuf) :
  ks_storage ks = keyStorePassphrase N P false -> cache_ok (ks_cache ks) -> w_running (ac_watcher (ks_cache ks)) = true ->
  w_newkey w = Some prv -> w_write w = true -> w_rename w = true -> valid_key (newKeyFromECDSA w prv) ->
  Z.abs N < 2 ^ 53 -> Z.abs P < 2 ^ 53 -> Forall is_byte (w_salt w) -> Forall is_byte (w_iv w) -> List.length (w_iv w) = 16%nat ->
  scrypt_Key auth (w_salt w) N scryptR P scryptDKLen = Ret d ->
  (forall b, b ∈ ac_all (ks_cache ks) -> acc_URL b <> acc_URL (account_of w ks (newKeyFromECDSA w prv))) ->
  exists a ks', NewAccount w auth ks = Some (inr a, ks') /\ acc_Address a = PubkeyToAddress prv /\ a ∈ ac_all (ks_cache ks') /\
    forall fired, exists p ks'', getDecryptedKey fired a auth ks' = Some (inr (a, newKeyFromECDSA w prv, p), ks'').
Proof.
  intros Hst Hok Hrun Hnew Hw Hr Hv HN HP Hs Hiv Hl Hd Hfresh. set (key := newKeyFromECDSA w prv) in *. set (a := account_of w ks key) in *.
  destruct (StoreKey_stores w N P (Path (acc_URL a)) key auth (ks_disk ks) d Hw Hr Hv HN HP Hs Hiv Hl Hd) as (disk' & Es & Eg).
  destruct (add_account_ok a (ks_cache ks) Hok) as (Hok' & Hmem & _); [done|intros b Hb E; by destruct (Hfresh b Hb)|].
  set (cache := add_account a (ks_cache ks)) in *.
  assert (Hre : forall f dk, maybeReload f dk cache = cache).
  { intros f dk. unfold maybeReload. assert (w_running (ac_watcher cache) = true) as ->; [|done]. unfold cache, add_account. by case_bool_decide. }
  set (ks1 := set_cache cache (set_disk disk' ks)).
  exists a, (set_wallets (fst (refresh_loop (ac_all cache) (ks_wallets ks1))) (snd (refresh_loop (ac_all cache) (ks_wallets ks1))) ks1).
  assert (Ein : a ∈ ac_all cache) by (apply Hmem; by left). split; [|split; [done|split; [done|]]].
  - unfold NewAccount, storeNewKey. rewrite run_try, Hnew. fold key. rewrite run_try. unfold store_as. rewrite run_get. fold a. rewrite run_try.
    unfold store_key. rewrite run_get, Hst, Es. rewrite run_modify. cbn [of_outcome ret mret M_ret snd]. unfold publish. rewrite run_modify. cbn [set_disk ks_cache]. fold cache ks1.
    unfold refreshWallets, cache_accounts. unfold mbind at 1, M_bind at 1. rewrite run_get. cbn [ks1 set_cache ks_cache ks_disk]. rewrite Hre.
    fold ks1. by destruct (refresh_loop (ac_all cache) (ks_wallets ks1)).
  - intros fired. unfold getDecryptedKey. rewrite run_try, run_ks_Find. cbn [set_wallets ks1 set_cache set_disk ks_cache ks_disk ks_dir]. rewrite Hre.
    rewrite find_account_self by (done || apply new_path_slash). cbn [of_outcome ret mret M_ret].
    rewrite run_get, run_try. cbn [set_cache set_wallets ks_storage ks_disk ks1 set_disk]. rewrite Hst.
    change (acc_Address a) with (key_Address key). rewrite Eg. cbn [of_outcome ret mret M_ret]. rewrite run_modify. by do 2 eexists.
Qed.
End Store.

(** ** Concrete runs *)

Module StoreToy.
Import KeyToy CacheToy WalletsToy.
#[local] Existing Instance toy_crypto.
#[local] Existing Instance toy_keys.
#[local] Existing Instance canonical_order.
#[local] Existing Instance toy_laws.

Definition toy_world : world :=
  mk_world false false (mk_utc 2021 3 4 5 6 7 8) 9 (lit "77") toy_salt toy_iv (replicate 16 7) (Some (42 : @PrivateKey toy_crypto)) true true true.
Definition toy_pass : list Z := [1; 2].
Definition toy_start : KeyStore := newKeyStore (lit "/k") (keyStorePassphrase 4 1 false) (Some toy_dir2).
Definition step (c : ks_call) (ks : KeyStore) : KeyStore := match run_call c ks with Some (_, ks') => ks' | None => ks end.

Lemma step_run c ks : match run_call c ks with Some _ => true | None => false end = true -> run_call c ks = Some (tt, step c ks).
Proof. unfold step. by destruct (run_call c ks) as [[[] ks']|]. Qed.

(** The value and the state of a call, and that it succeeded. *)
Definition good {A} (r : option ((ks_error + A) * KeyStore)) : bool := match r with Some (inr _, _) => true | _ => false end.
Definition out {A} (x : A) (r : option ((ks_error + A) * KeyStore)) : A := match r with Some (inr y, _) => y | _ => x end.
Definition final {A} (r : option ((ks_error + A) * KeyStore)) : KeyStore := match r with Some (_, ks) => ks | None => toy_start end.

Lemma good_eq {A} (x : A) r : good r = true -> r = Some (inr (out x r), final r).
Proof. by destruct r as [[[] ks]|]. Qed.

(** The watcher starts, an account is made, and unlocked for a while. *)
Definition toy_watched : KeyStore := step (StepWatcher WatchStarted) toy_start.
Definition toy_made : KeyStore := step (CallNewAccount toy_world toy_pass) toy_watched.
Definition toy_new : Account := account_of toy_world toy_start (newKeyFromECDSA toy_world 42).
Definition toy_unlocked : KeyStore := step (CallUnlock toy_world toy_new toy_pass 5) toy_made.

Lemma toy_made_reached : reaches toy_start toy_made.
Proof.
  eapply (reaches_step _ toy_watched _ (CallNewAccount toy_world toy_pass)); [|apply step_run; vm_compute; reflexivity].
  eapply (reaches_step _ toy_start _ (StepWatcher WatchStarted)); [constructor|apply step_run; vm_compute; reflexivity].
Qed.

Lemma toy_unlocked_reached : reaches toy_start toy_unlocked.
Proof. eapply (reaches_step _ toy_made _ (CallUnlock toy_world toy_new toy_pass 5)); [apply toy_made_reached|apply step_run; vm_compute; reflexivity]. Qed.

Lemma toy_inv ks : reaches toy_start ks -> ks_inv [] ks.
Proof. apply reaches_inv, newKeyStore_inv. Qed.

Definition toy_signing : option ((ks_error + Transaction) * KeyStore) := ks_SignTx toy_new toy_tx (Some 1) toy_unlocked.

Lemma signatures_are_by_the_account_witness :
  good toy_signing = true /\ signer_Sender (signer_of (Some 1)) (out toy_tx toy_signing) = Ret (acc_Address toy_new).
Proof.
  assert (E : good toy_signing = true) by (vm_compute; reflexivity). split; [exact E|].
  apply (@signatures_are_by_the_account toy_crypto toy_keys canonical_order toy_laws toy_address (lit "/k") 4 1 false (Some toy_dir2) toy_unlocked (final toy_signing) toy_world
    toy_new toy_pass toy_tx (out toy_tx toy_signing) (Some 1)).
  - apply toy_unlocked_reached.
  - done.
  - by vm_compute.
  - left. by apply good_eq.
Defined.

(** What decrypting the new key gives in a state. *)
Definition toy_opening (ks : KeyStore) : option ((ks_error + (Account * Key * nat)) * KeyStore) := getDecryptedKey false toy_new toy_pass ks.
Definition toy_opened (ks : KeyStore) : Account * Key * nat := out (toy_new, toy_key, 0%nat) (toy_opening ks).

Lemma toy_opening_eq ks : good (toy_opening ks) = true ->
  toy_opening ks = Some (inr (fst (fst (toy_opened ks)), snd (fst (toy_opened ks)), snd (toy_opened ks)), final (toy_opening ks)).
Proof. intros H. rewrite (good_eq (toy_new, toy_key, 0%nat) _ H) at 1. unfold toy_opened. by destruct (out _ _) as [[]]. Qed.

Lemma unlock_lasts_until_its_timer_witness : exists ks2 ks3 n,
  TimedUnlock toy_world toy_new toy_pass 5 toy_unlocked = Some (inr tt, ks2) /\
  expire_task n true ks2 = Some (tt, ks3) /\ ks_unlocked ks3 !! acc_Address (fst (fst (toy_opened toy_unlocked))) = None.
Proof.
  destruct (unlock_lasts_until_its_timer [] toy_world toy_new (fst (fst (toy_opened toy_unlocked))) toy_pass 5 toy_unlocked
    (final (toy_opening toy_unlocked)) (snd (fst (toy_opened toy_unlocked))) (snd (toy_opened toy_unlocked)))
    as (ks2 & n & u & H1 & _ & _ & _ & _ & ks3 & H2 & H3 & _).
  - apply toy_inv, toy_unlocked_reached.
  - lia.
  - apply toy_opening_eq. vm_compute. reflexivity.
  - vm_compute. reflexivity.
  - exists ks2, ks3, n. split; [exact H1|]. split; [exact H2|exact H3].
Defined.

Definition toy_again : option ((ks_error + ()) * KeyStore) := TimedUnlock toy_world toy_new toy_pass 5 toy_unlocked.

Lemma replaced_unlock_leaves_its_key_witness :
  ks_unlocked toy_unlocked !! acc_Address toy_new = Some (mk_unlocked 0 0 true) /\
  ks_mem (step (CallLock (acc_Address toy_new)) (final toy_again)) !! 0%nat = Some (42 : @PrivateKey toy_crypto).
Proof.
  assert (Hu : ks_unlocked toy_unlocked !! acc_Address toy_new = Some (mk_unlocked 0 0 true)) by (vm_compute; reflexivity).
  assert (Hm : ks_mem toy_unlocked !! 0%nat = Some (42 : @PrivateKey toy_crypto)) by (vm_compute; reflexivity).
  split; [exact Hu|]. refine (replaced_unlock_leaves_its_key [] toy_world toy_new toy_pass 5 toy_unlocked (final toy_again) _
    (mk_unlocked 0 0 true) (42 : @PrivateKey toy_crypto) _ _ Hu eq_refl Hm _ _).
  - apply toy_inv, toy_unlocked_reached.
  - by vm_compute.
  - assert (E : good toy_again = true) by (vm_compute; reflexivity). fold toy_again.
    rewrite (good_eq tt toy_again E) at 1. by destruct (out tt toy_again).
  - eapply (reaches_step _ _ _ (CallLock (acc_Address toy_new))); [constructor|apply step_run; vm_compute; reflexivity].
Defined.

(** The disk fails while the file is put in place. *)
Definition failing_world : world :=
  mk_world false false (mk_utc 2021 3 4 5 6 7 8) 9 (lit "78") toy_salt toy_iv (replicate 16 7) None true false true.
Definition toy_update : option ((ks_error + ()) * KeyStore) := Update failing_world toy_new toy_pass [3] toy_made.

Lemma failed_eq (r : option ((ks_error + ()) * KeyStore)) :
  match r with Some (inl ErrFile, _) => true | _ => false end = true -> r = Some (inl ErrFile, final r).
Proof. by destruct r as [[[[]|] ks]|]. Qed.

Lemma passphrase_change_is_atomic_witness :
  let path := Path (acc_URL (fst (fst (toy_opened toy_made)))) in
  lookup_file (ks_disk (final toy_update)) path = lookup_file (ks_disk toy_made) path.
Proof.
  refine (proj2 (passphrase_change_is_atomic failing_world toy_new (fst (fst (toy_opened toy_made))) toy_pass [3] toy_made (final (toy_opening toy_made))
    (final toy_update) (snd (fst (toy_opened toy_made))) (snd (toy_opened toy_made)) 4 1 (inl ErrFile) _ _ _)).
  - vm_compute. reflexivity.
  - apply toy_opening_eq. vm_compute. reflexivity.
  - apply failed_eq. vm_compute. reflexivity.
Defined.

Lemma toy_watched_ok : cache_ok (ks_cache toy_watched).
Proof. apply (cache_ok_two _ (toy_account 97 11) (toy_account 98 12)); by vm_compute. Qed.

Lemma new_accounts_can_be_used_witness : exists a ks',
  NewAccount toy_world toy_pass toy_watched = Some (inr a, ks') /\ a ∈ ac_all (ks_cache ks').
Proof.
  destruct (@new_accounts_can_be_used toy_crypto toy_keys canonical_order toy_key_laws toy_world toy_pass toy_watched (42 : @PrivateKey toy_crypto) 4 1 toy_derived)
    as (a & ks' & H1 & _ & H3 & _); [vm_compute; reflexivity|apply toy_watched_ok|vm_compute; reflexivity|reflexivity|reflexivity|reflexivity|apply toy_valid_key|lia|lia|
    repeat constructor; lia|repeat constructor; lia|reflexivity|reflexivity| |].
  - assert (E : ac_all (ks_cache toy_watched) = [toy_account 97 11; toy_account 98 12]) by (vm_compute; reflexivity).
    rewrite E. intros b Hb. assert (Hl : List.length (Path (acc_URL b)) = 4%nat).
    { apply elem_of_cons in Hb as [->|Hb]; [done|]. by apply list_elem_of_singleton in Hb as ->. }
    intros E'. rewrite E' in Hl. by vm_compute in Hl.
  - exists a, ks'. split; [exact H1|exact H3].
Defined.
End StoreToy.
