(* ===== verification/PoolEvents.v ===== *)
(** * The events an operation of the pool sends

    The operations of the pool that send transactions to the scheduler on
    [queueTxEventCh] send only transactions they were given; the others send
    none.  So the nonces of the events are those of transactions. *)
From stdpp Require Import gmap list.
From Stdlib Require Import ZArith Lia.
From S2P Require Import Prelude GoHeap Transaction TxList PricedList TxPool TxPoolInv TxPoolOps TxPoolLimits TxPoolMain.

Local Open Scope Z_scope.

Definition u64_events (p : TxPool) : Prop := Forall (fun tx => is_u64 (Nonce tx)) (events p).

Section Events.
Context {crypto : TxCrypto} {range : RangeOrder} {orders : PoolOrders}.
Context (now : Z).

Lemma put_event_wf ev tx : is_u64 (Nonce tx) -> events_wf ev -> events_wf (put_event ev tx).
Proof.
  intros Hu Hev a m Hm. unfold put_event in Hm. apply lookup_insert_Some in Hm as [[_ <-]|[_ Hm]]; [|by eapply Hev].
  apply sm_Put_spec; [|done]. destruct (ev !! sender_of tx) eqn:E; simpl; [by eapply Hev|apply newTxSortedMap_wf].
Qed.

Lemma keeps_events_modify (f : TxPool -> TxPool) : (forall p, events (f p) = events p) -> keeps u64_events (mmodify f).
Proof. intros Hf. apply keeps_modify. intros p Hp. unfold u64_events. by rewrite Hf. Qed.

Lemma keeps_events_for {A} (xs : list A) (f : A -> M TxPool ()) : (forall x, keeps u64_events (f x)) -> keeps u64_events (mfor xs f).
Proof. intros Hf. induction xs as [|x xs IH]; [apply keeps_ret|]. apply (keeps_bind _ (f x)); [apply Hf|]. by intros []. Qed.

#[local] Hint Extern 2 (keeps u64_events (mmodify _)) =>
  apply keeps_events_modify; intros ?; cbv beta zeta; repeat case_match; reflexivity : keeps.
#[local] Hint Extern 2 (keeps u64_events (mfor _ _)) => apply keeps_events_for; intros ?; keeps_solve : keeps.

Ltac sends_none f := unfold f; keeps_solve.

Lemma all_Remove_events h : keeps u64_events (all_Remove h).
Proof. sends_none @all_Remove. Qed.
Lemma all_Add_events tx : keeps u64_events (all_Add tx).
Proof. sends_none @all_Add. Qed.
Lemma priced_Put_events tx : keeps u64_events (pool_priced_Put tx).
Proof. sends_none @pool_priced_Put. Qed.
Lemma priced_Removed_events n : keeps u64_events (pool_priced_Removed n).
Proof. sends_none @pool_priced_Removed. Qed.
Lemma nonces_get_events a : keeps u64_events (nonces_get a).
Proof. sends_none @nonces_get. Qed.
Lemma nonces_set_events a v : keeps u64_events (nonces_set a v).
Proof. sends_none @nonces_set. Qed.
Lemma nonces_setIfLower_events a v : keeps u64_events (nonces_setIfLower a v).
Proof. sends_none @nonces_setIfLower. Qed.
#[local] Hint Resolve all_Remove_events all_Add_events priced_Put_events priced_Removed_events nonces_get_events nonces_set_events
  nonces_setIfLower_events : keeps.

Lemma enqueueTx_events h tx : keeps u64_events (enqueueTx now h tx).
Proof. sends_none @enqueueTx. Qed.
Lemma journalTx_events a tx : keeps u64_events (journalTx a tx).
Proof. sends_none @journalTx. Qed.
Lemma queueTxEvent_events tx : is_u64 (Nonce tx) -> keeps u64_events (queueTxEvent tx).
Proof. intros Hu. apply keeps_modify. intros p Hp. apply Forall_app. split; [done|]. by apply Forall_singleton. Qed.
#[local] Hint Resolve enqueueTx_events journalTx_events queueTxEvent_events : keeps.

Lemma remove_from_pending_events a tx : keeps u64_events (remove_from_pending now a tx).
Proof. sends_none @remove_from_pending. Qed.
Lemma remove_from_queue_events a tx : keeps u64_events (remove_from_queue a tx).
Proof. sends_none @remove_from_queue. Qed.
#[local] Hint Resolve remove_from_pending_events remove_from_queue_events : keeps.

Lemma removeTx_events h b : keeps u64_events (removeTx now h b).
Proof. sends_none @removeTx. Qed.
#[local] Hint Resolve removeTx_events : keeps.

Lemma discard_for_events tx : keeps u64_events (discard_for now tx).
Proof. sends_none @discard_for. Qed.
#[local] Hint Resolve discard_for_events : keeps.

Lemma make_room_events tx b : keeps u64_events (make_room now tx b).
Proof. sends_none @make_room. Qed.
Lemma push_queue_events h a tx b : keeps u64_events (push_queue now h a tx b).
Proof. sends_none @push_queue. Qed.
Lemma replace_pending_events a l tx : is_u64 (Nonce tx) -> keeps u64_events (replace_pending now a l tx).
Proof. intros Hu. sends_none @replace_pending. Qed.
#[local] Hint Resolve make_room_events push_queue_events replace_pending_events : keeps.

Lemma add_events tx b : is_u64 (Nonce tx) -> keeps u64_events (add now tx b).
Proof. intros Hu. sends_none @add. Qed.

Lemma addTxsLocked_events txs b : Forall (fun tx => is_u64 (Nonce tx)) txs -> keeps u64_events (addTxsLocked now txs b).
Proof.
  unfold addTxsLocked. generalize (newAccountSet []). induction txs as [|tx txs IH]; intros d Hu; cbn [addTxsLocked_loop]; [keeps_solve|].
  apply Forall_cons in Hu as [Hu Hus]. apply keeps_bind; [by apply add_events|]. intros [replaced err]. cbv zeta. apply keeps_bind; [by apply IH|].
  intros [errs d']. keeps_solve.
Qed.

Lemma promoteTx_events a h tx : keeps u64_events (promoteTx now a h tx).
Proof. sends_none @promoteTx. Qed.
#[local] Hint Resolve promoteTx_events : keeps.

Lemma promote_readies_events a txs : keeps u64_events (promote_readies now a txs).
Proof. induction txs as [|tx txs IH]; cbn [promote_readies]; keeps_solve. Qed.
Lemma remove_all_events l : keeps u64_events (remove_all l).
Proof. sends_none @remove_all. Qed.
#[local] Hint Resolve promote_readies_events remove_all_events : keeps.

Lemma promote_account_events a : keeps u64_events (promote_account now a).
Proof. sends_none @promote_account. Qed.
#[local] Hint Resolve promote_account_events : keeps.

Lemma promoteExecutables_events addrs : keeps u64_events (promoteExecutables now addrs).
Proof. induction addrs as [|a addrs IH]; cbn [promoteExecutables]; keeps_solve. Qed.
Lemma enqueue_all_events l : keeps u64_events (enqueue_all now l).
Proof. sends_none @enqueue_all. Qed.
#[local] Hint Resolve promoteExecutables_events enqueue_all_events : keeps.

Lemma demote_account_events a : keeps u64_events (demote_account now a).
Proof. sends_none @demote_account. Qed.
#[local] Hint Resolve demote_account_events : keeps.

Lemma demoteUnexecutables_events : keeps u64_events (demoteUnexecutables now).
Proof. sends_none @demoteUnexecutables. Qed.
Lemma cap_one_events a : keeps u64_events (cap_one a).
Proof. sends_none @cap_one. Qed.
#[local] Hint Resolve demoteUnexecutables_events cap_one_events : keeps.

Lemma shrink_events guard floor offs total : keeps u64_events (shrink guard floor offs total).
Proof.
  unfold shrink. apply keeps_get_bind. intros p _. cbv zeta. generalize total.
  match goal with |- forall t, keeps _ (shrink_loop ?n _ _ _ _) => generalize n end.
  intros n. induction n as [|n IH]; intros t; cbn [shrink_loop]; keeps_solve.
Qed.
#[local] Hint Resolve shrink_events : keeps.

Lemma offenders_events spammers offs total : keeps u64_events (offenders_loop spammers offs total).
Proof. revert offs total. induction spammers as [|a spammers IH]; intros offs total; cbn [offenders_loop]; keeps_solve. Qed.
#[local] Hint Resolve offenders_events : keeps.

Lemma truncatePending_events : keeps u64_events truncatePending.
Proof. sends_none @truncatePending. Qed.

Lemma drop_last_events txs n : keeps u64_events (drop_last_loop now txs n).
Proof. revert n. induction txs as [|tx txs IH]; intros n; cbn [drop_last_loop]; keeps_solve. Qed.
#[local] Hint Resolve drop_last_events : keeps.

Lemma truncateQueue_loop_events addrs n : keeps u64_events (truncateQueue_loop now addrs n).
Proof. revert n. induction addrs as [|a addrs IH]; intros n; cbn [truncateQueue_loop]; keeps_solve. Qed.
#[local] Hint Resolve truncateQueue_loop_events truncatePending_events : keeps.

Lemma truncateQueue_events : keeps u64_events (truncateQueue now).
Proof. sends_none @truncateQueue. Qed.
Lemma refresh_nonce_events a : keeps u64_events (refresh_nonce a).
Proof. sends_none @refresh_nonce. Qed.
#[local] Hint Resolve truncateQueue_events refresh_nonce_events : keeps.

Lemma settle_events b addrs : keeps u64_events (settle now b addrs).
Proof. sends_none @settle. Qed.
Lemma forward_events_events addrs ev : keeps u64_events (forward_events addrs ev).
Proof. revert ev. induction addrs as [|a addrs IH]; intros ev; cbn [forward_events]; keeps_solve. Qed.
#[local] Hint Resolve settle_events forward_events_events : keeps.

Lemma reset_events c o n :
  chain_ok c -> (o <> None -> is_Some (chain_GetBlock c (h_hash n) (h_number n))) -> keeps u64_events (reset now c o n).
Proof.
  intros Hc Hn. unfold reset. set (r := match o with Some o' => reorg_txs c o' n | None => Ret [] end).
  assert (Hr : forall l, r = Ret l -> Forall (fun tx => is_u64 (Nonce tx)) l).
  { intros l. unfold r. destruct o as [o'|]; [|by intros [= <-]]. intros E.
    pose proof (reorg_txs_spec c o' n Hc (Hn ltac:(done))) as Hs. rewrite E in Hs. by destruct Hs. }
  clearbody r. destruct r as [l| |]; [|keeps_solve..]. destruct (chain_StateAt c (h_root n)); [|keeps_solve].
  apply keeps_bind; [auto with keeps|]. intros _. apply keeps_bind; [by apply addTxsLocked_events, Hr|]. keeps_solve.
Qed.

Lemma runReorg_events c rst dirty ev :
  (forall o n, rst = Some (o, n) -> chain_ok c /\ (o <> None -> is_Some (chain_GetBlock c (h_hash n) (h_number n)))) ->
  keeps u64_events (runReorg now c rst dirty ev).
Proof.
  intros Hr. unfold runReorg. apply keeps_bind.
  - destruct rst as [[o n]|]; [|keeps_solve]. destruct (Hr o n eq_refl) as [Hc Hn].
    apply keeps_bind; [by apply reset_events|]. intros _. keeps_solve.
  - intros [ev' addrs]. keeps_solve.
Qed.

Lemma SetGasPrice_events price : keeps u64_events (SetGasPrice now price).
Proof. sends_none @SetGasPrice. Qed.

Lemma evict_account_events a : keeps u64_events (evict_account now a).
Proof. sends_none @evict_account. Qed.
#[local] Hint Resolve evict_account_events : keeps.

Lemma evict_tick_events : keeps u64_events (evict_tick now).
Proof. sends_none @evict_tick. Qed.

End Events.
