(* ===== verification/PoolLoop.v ===== *)
(** * The goroutines of the transaction pool

    [TxPool] has what each operation of the pool does while it holds the mutex.
    Here are the goroutines around it (core/tx_pool.go): the callers of [addTxs],
    which check without the mutex, insert with it, ask for a promotion and may
    wait for it; the scheduler ([scheduleReorgLoop]), which merges the requests
    and starts one run at a time; the run itself ([runReorg]); the main loop
    ([loop]), which follows the head of the chain; and the shutdown.  A step of
    the system is a step of one of them, up to the next rendezvous on a channel or
    the next change of the mutex.

    Shown: however the steps interleave, the callers return (no deadlock and no
    infinite run of steps), a caller that waited returns after a run that has
    promoted the accounts of its insertion, and the resets follow the head of the
    chain without a gap. *)
From stdpp Require Import gmap list.
From Stdlib Require Import ZArith Lia Relation_Operators Lexicographic_Product Wf_nat.
From S2P Require Import Prelude GoHeap Transaction TxList PricedList TxPool TxPoolInv TxPoolOps TxPoolLimits TxPoolMain TxPoolSpec PoolEvents.

Local Open Scope Z_scope.

(** ** The goroutines *)

(** A call of [addTxs]: the transactions not checked yet, the error slots and the
    new transactions so far, and whether the caller waits for the promotion. *)
Inductive caller : Type :=
| CCheck (errs : list (option pool_error)) (news rest : list Transaction) (local sync : bool)
| CLock (errs : list (option pool_error)) (news : list Transaction) (local sync : bool)
| CHold (errs newErrs : list (option pool_error)) (dirty : accountSet) (sync : bool)
| CRequest (errs : list (option pool_error)) (dirty : accountSet) (sync : bool)
| CWait (errs : list (option pool_error)) (done : nat)
| CDone (errs : list (option pool_error)) (waited : option nat).

(** The goroutine [runReorg]: before it locks the mutex, and while it holds it. *)
Definition txpoolResetRequest : Type := head_info * head_info.

Inductive runner : Type :=
| RLock (done : nat) (rst : option txpoolResetRequest) (dirty : option accountSet) (ev : gmap Address txSortedMap)
| RHold (done : nat) (announce : list Transaction).

(** Where [scheduleReorgLoop] is: at the top of its loop, in its [select], waiting
    for the last run after the shutdown, or gone. *)
Inductive sched_at : Type := AtTop | AtSelect | Stopping | Exited.

Inductive who : Type := ByCaller (i : nat) | ByRun.

#[export] Instance who_eq_dec : EqDecision who.
Proof. solve_decision. Defined.

(** What happened with the mutex held, for the statements. *)
Inductive log_entry : Type :=
| LogAdd (i : nat) (dirty : accountSet)
| LogRun (done : nat) (rst : option txpoolResetRequest) (dirty : option accountSet).

(** Channels are numbered in the order they are made; [reorgShutdownCh] is the
    flag [ps_shutdown]. *)
Record psys : Type := mk_psys {
  ps_pool : TxPool;
  ps_mu : option who;
  ps_callers : list caller;
  ps_run : option runner;
  ps_at : sched_at;
  curDone : option nat;
  nextDone : nat;
  launchNextRun : bool;
  ps_reset : option txpoolResetRequest;
  dirtyAccounts : option accountSet;
  queuedEvents : gmap Address txSortedMap;
  ps_closed : gset nat;
  ps_shutdown : bool;
  ps_head : head_info;           (* of [loop] *)
  ps_feed : list (list Transaction);
  ps_log : list log_entry
}.

Definition with_pool (p : TxPool) (mu : option who) (s : psys) : psys :=
  mk_psys p mu (ps_callers s) (ps_run s) (ps_at s) (curDone s) (nextDone s) (launchNextRun s) (ps_reset s)
    (dirtyAccounts s) (queuedEvents s) (ps_closed s) (ps_shutdown s) (ps_head s) (ps_feed s) (ps_log s).
Definition with_callers (cs : list caller) (s : psys) : psys :=
  mk_psys (ps_pool s) (ps_mu s) cs (ps_run s) (ps_at s) (curDone s) (nextDone s) (launchNextRun s) (ps_reset s)
    (dirtyAccounts s) (queuedEvents s) (ps_closed s) (ps_shutdown s) (ps_head s) (ps_feed s) (ps_log s).
Definition with_run (r : option runner) (s : psys) : psys :=
  mk_psys (ps_pool s) (ps_mu s) (ps_callers s) r (ps_at s) (curDone s) (nextDone s) (launchNextRun s) (ps_reset s)
    (dirtyAccounts s) (queuedEvents s) (ps_closed s) (ps_shutdown s) (ps_head s) (ps_feed s) (ps_log s).
Definition with_sched (at_ : sched_at) (cur : option nat) (next : nat) (launch : bool) (rst : option txpoolResetRequest)
    (dirty : option accountSet) (ev : gmap Address txSortedMap) (s : psys) : psys :=
  mk_psys (ps_pool s) (ps_mu s) (ps_callers s) (ps_run s) at_ cur next launch rst dirty ev
    (ps_closed s) (ps_shutdown s) (ps_head s) (ps_feed s) (ps_log s).
Definition with_head (h : head_info) (down : bool) (s : psys) : psys :=
  mk_psys (ps_pool s) (ps_mu s) (ps_callers s) (ps_run s) (ps_at s) (curDone s) (nextDone s) (launchNextRun s) (ps_reset s)
    (dirtyAccounts s) (queuedEvents s) (ps_closed s) down h (ps_feed s) (ps_log s).
Definition close_done (ch : nat) (s : psys) : psys :=
  mk_psys (ps_pool s) (ps_mu s) (ps_callers s) (ps_run s) (ps_at s) (curDone s) (nextDone s) (launchNextRun s) (ps_reset s)
    (dirtyAccounts s) (queuedEvents s) ({[ch]} ∪ ps_closed s) (ps_shutdown s) (ps_head s) (ps_feed s) (ps_log s).
Definition announce_txs (txs : list Transaction) (s : psys) : psys :=
  mk_psys (ps_pool s) (ps_mu s) (ps_callers s) (ps_run s) (ps_at s) (curDone s) (nextDone s) (launchNextRun s) (ps_reset s)
    (dirtyAccounts s) (queuedEvents s) (ps_closed s) (ps_shutdown s) (ps_head s)
    (if decide (txs = []) then ps_feed s else ps_feed s ++ [txs]) (ps_log s).
Definition log_it (e : log_entry) (s : psys) : psys :=
  mk_psys (ps_pool s) (ps_mu s) (ps_callers s) (ps_run s) (ps_at s) (curDone s) (nextDone s) (launchNextRun s) (ps_reset s)
    (dirtyAccounts s) (queuedEvents s) (ps_closed s) (ps_shutdown s) (ps_head s) (ps_feed s) (ps_log s ++ [e]).

(** ** Steps *)

Inductive label : Type :=
| LCall (txs : list Transaction) (local sync : bool)
| LCheck (i : nat) | LLock (i : nat) (now : Z) | LUnlock (i : nat) | LRequest (i : nat) | LRequestDown (i : nat) | LReturn (i : nat)
| LEvent | LEventDown
| LTop | LRunLock (now : Z) (c : ChainView) | LRunEnd | LDone
| LHead (h : head_info) | LEvict (now : Z) | LPrice (now price : Z)
| LShutdown | LStop | LExit.

Section Steps.
Context {crypto : TxCrypto} {range : RangeOrder} {orders : PoolOrders}.

(** [Err] is a goroutine that is not there or has to wait, [Panic] a crash. *)
Definition wait : outcome () psys := Err tt.

Definition set_caller (i : nat) (c : caller) (s : psys) : psys := with_callers (<[i := c]> (ps_callers s)) s.

(** One iteration of the first loop of [addTxs], and its end. *)
Definition check_one (p : TxPool) (errs : list (option pool_error)) (news rest : list Transaction) (local sync : bool) : caller :=
  match rest with
  | [] => if decide (length news = 0)%nat then CDone errs None else CLock errs news local sync
  | tx :: rest' =>
      match precheck p tx with
      | Some e => CCheck (errs ++ [Some e]) news rest' local sync
      | None => CCheck (errs ++ [None]) (news ++ [tx]) rest' local sync
      end
  end.

(** The cases of the [select] of [scheduleReorgLoop] for the two requests. *)
Definition accept_reset (req : txpoolResetRequest) (s : psys) : psys :=
  with_sched AtTop (curDone s) (nextDone s) true
    (Some (match ps_reset s with None => req | Some (o, _) => (o, snd req) end)) (dirtyAccounts s) (queuedEvents s) s.

Definition accept_promote (req : accountSet) (s : psys) : psys :=
  with_sched AtTop (curDone s) (nextDone s) true (ps_reset s)
    (Some (match dirtyAccounts s with None => req | Some d => as_merge d req end)) (queuedEvents s) s.

Definition accept_event (tx : Transaction) (s : psys) : psys :=
  with_sched AtTop (curDone s) (nextDone s) (launchNextRun s) (ps_reset s) (dirtyAccounts s) (put_event (queuedEvents s) tx) s.

(** The top of the loop of [scheduleReorgLoop]. *)
Definition loop_top (s : psys) : psys :=
  if bool_decide (curDone s = None) && launchNextRun s
  then with_sched AtSelect (Some (nextDone s)) (S (nextDone s)) false None None ∅
         (with_run (Some (RLock (nextDone s) (ps_reset s) (dirtyAccounts s) (queuedEvents s))) s)
  else with_sched AtSelect (curDone s) (nextDone s) (launchNextRun s) (ps_reset s) (dirtyAccounts s) (queuedEvents s) s.

Definition selecting (s : psys) : bool := match ps_at s with AtSelect => true | _ => false end.

(** An operation that takes the mutex and gives it back without sending events. *)
Definition with_mutex (m : M TxPool ()) (s : psys) : outcome () psys :=
  match ps_mu s with
  | Some _ => wait
  | None => match m (ps_pool s) with Some (_, p') => Ret (with_pool p' None s) | None => Panic end
  end.

Definition caller_step (l : label) (i : nat) (c : caller) (s : psys) : outcome () psys :=
  match l, c with
  | LCheck _, CCheck errs news rest local sync => Ret (set_caller i (check_one (ps_pool s) errs news rest local sync) s)
  | LLock _ now, CLock errs news local sync =>
      match ps_mu s with
      | Some _ => wait
      | None =>
          match addTxsLocked now news local (ps_pool s) with
          | Some ((newErrs, dirty), p') =>
              Ret (log_it (LogAdd i dirty) (set_caller i (CHold errs newErrs dirty sync) (with_pool p' (Some (ByCaller i)) s)))
          | None => Panic
          end
      end
  | LUnlock _, CHold errs newErrs dirty sync =>
      match events (ps_pool s), merge_errs errs newErrs with
      | _ :: _, _ => wait
      | [], Some errs' => Ret (set_caller i (CRequest errs' dirty sync) (with_pool (ps_pool s) None s))
      | [], None => Panic
      end
  | LRequest _, CRequest errs dirty sync =>
      if selecting s
      then Ret (accept_promote dirty (set_caller i (if sync then CWait errs (nextDone s) else CDone errs None) s))
      else wait
  | LRequestDown _, CRequest errs _ _ => if ps_shutdown s then Ret (set_caller i (CDone errs None) s) else wait
  | LReturn _, CWait errs ch => if bool_decide (ch ∈ ps_closed s) then Ret (set_caller i (CDone errs (Some ch)) s) else wait
  | _, _ => wait
  end.

Definition run_step (l : label) (r : runner) (s : psys) : outcome () psys :=
  match l, r with
  | LRunLock now c, RLock ch rst dirty ev =>
      match ps_mu s with
      | Some _ => wait
      | None =>
          match runReorg now c (prod_map Some id <$> rst) dirty ev (ps_pool s) with
          | Some (txs, p') => Ret (log_it (LogRun ch rst dirty) (with_run (Some (RHold ch txs)) (with_pool p' (Some ByRun) s)))
          | None => Panic
          end
      end
  | LRunEnd, RHold ch txs =>
      match events (ps_pool s) with
      | _ :: _ => wait
      | [] => Ret (close_done ch (announce_txs txs (with_run None (with_pool (ps_pool s) None s))))
      end
  | _, _ => wait
  end.

Definition step (l : label) (s : psys) : outcome () psys :=
  match l with
  | LCall txs local sync => Ret (with_callers (ps_callers s ++ [CCheck [] [] txs local sync]) s)
  | LCheck i | LLock i _ | LUnlock i | LRequest i | LRequestDown i | LReturn i =>
      match ps_callers s !! i with Some c => caller_step l i c s | None => wait end
  | LEvent =>
      match events (ps_pool s) with
      | tx :: rest => if selecting s then Ret (accept_event tx (with_pool (set_events rest (ps_pool s)) (ps_mu s) s)) else wait
      | [] => wait
      end
  | LEventDown =>
      match events (ps_pool s) with
      | _ :: rest => if ps_shutdown s then Ret (with_pool (set_events rest (ps_pool s)) (ps_mu s) s) else wait
      | [] => wait
      end
  | LTop => match ps_at s with AtTop => Ret (loop_top s) | _ => wait end
  | LRunLock _ _ | LRunEnd => match ps_run s with Some r => run_step l r s | None => wait end
  | LDone =>
      match curDone s with
      | Some ch =>
          if selecting s && bool_decide (ch ∈ ps_closed s)
          then Ret (with_sched AtTop None (nextDone s) (launchNextRun s) (ps_reset s) (dirtyAccounts s) (queuedEvents s) s)
          else wait
      | None => wait
      end
  | LHead h => if negb (ps_shutdown s) && selecting s then Ret (with_head h false (accept_reset (ps_head s, h) s)) else wait
  | LEvict now => if ps_shutdown s then wait else with_mutex (evict_tick now) s
  | LPrice now price => with_mutex (SetGasPrice now price) s
  | LShutdown => if ps_shutdown s then wait else Ret (with_head (ps_head s) true s)
  | LStop =>
      if ps_shutdown s && selecting s
      then Ret (with_sched Stopping (curDone s) (nextDone s) (launchNextRun s) (ps_reset s) (dirtyAccounts s) (queuedEvents s) s)
      else wait
  | LExit =>
      match ps_at s with
      | Stopping =>
          if match curDone s with Some ch => bool_decide (ch ∈ ps_closed s) | None => true end
          then Ret (close_done (nextDone s)
                 (with_sched Exited (curDone s) (nextDone s) (launchNextRun s) (ps_reset s) (dirtyAccounts s) (queuedEvents s) s))
          else wait
      | _ => wait
      end
  end.

(** The system once [NewTxPool] has started its loops, with the head [loop] reads. *)
Definition started (p : TxPool) (head : head_info) : psys :=
  mk_psys p None [] None AtTop None 0 false None None ∅ ∅ false head [] [].

(** ** What the callers and the chain provide *)

(** The conditions under which the operations of the pool are defined (see
    [call_ok]), for the operations that take the mutex. *)
Definition lock_ok (p : TxPool) (c : caller) : Prop :=
  match c with
  | CLock _ news _ _ => Forall (fun tx => is_u64 (Nonce tx)) news /\ batch_safe p news
  | _ => True
  end.

Definition allowed (l : label) (s : psys) : Prop :=
  match l with
  | LLock i _ => match ps_callers s !! i with Some c => lock_ok (ps_pool s) c | None => True end
  | LRunLock _ c =>
      match ps_run s with
      | Some (RLock _ rst dirty ev) => call_ok (ps_pool s) (CallReorg c (prod_map Some id <$> rst) dirty ∅)
      | _ => True
      end
  | _ => True
  end.

(** Every operation that waits for the mutex can be served. *)
Definition served (s : psys) : Prop :=
  (forall i now, allowed (LLock i now) s) /\ exists c, forall now, allowed (LRunLock now c) s.

Inductive reached (head0 : head_info) : psys -> Prop :=
| reached_start p : pool_inv [] [] [] p -> events p = [] -> reached head0 (started p head0)
| reached_step l s s' : reached head0 s -> allowed l s -> step l s = Ret s' -> reached head0 s'.

(** The steps that are not a new call, a new head, a tick or the shutdown. *)
Definition internal (l : label) : bool :=
  match l with LCall _ _ _ | LHead _ | LEvict _ | LPrice _ _ | LShutdown => false | _ => true end.

(** [P] holds sooner or later, however the internal steps are chosen. *)
Inductive inevitably (P : psys -> Prop) (s : psys) : Prop :=
| inev_now : P s -> inevitably P s
| inev_later :
    (served s -> exists l s', internal l = true /\ allowed l s /\ step l s = Ret s') ->
    (forall l s', internal l = true -> allowed l s -> step l s = Ret s' -> inevitably P s') -> inevitably P s.

(** ** Termination *)

Definition caller_rank (c : caller) : nat :=
  match c with
  | CCheck _ _ rest _ _ => 14 + length rest
  | CLock _ _ _ _ => 13 | CHold _ _ _ _ => 12 | CRequest _ _ _ => 11 | CWait _ _ => 1 | CDone _ _ => 0
  end.

Definition run_rank (r : option runner) : nat := match r with None => 0 | Some (RHold _ _) => 1 | Some (RLock _ _ _ _) => 2 end.

Definition work (s : psys) : nat :=
  sum_list (caller_rank <$> ps_callers s) + run_rank (ps_run s) + (if launchNextRun s then 4 else 0) +
  (match curDone s with Some _ => 1 | None => 0 end) + (match ps_at s with Stopping => 1 | Exited => 0 | _ => 2 end).

Definition at_rank (a : sched_at) : nat := match a with AtTop => 1 | _ => 0 end.

Definition rank (s : psys) : nat * (nat * nat) := (work s, (length (events (ps_pool s)), at_rank (ps_at s))).

Definition smaller : relation (nat * (nat * nat)) := slexprod nat (nat * nat) lt (slexprod nat nat lt lt).

Lemma smaller_wf : well_founded smaller.
Proof. apply wf_slexprod; [apply lt_wf|]. apply wf_slexprod; apply lt_wf. Qed.

Lemma sum_insert (cs : list caller) i c c' :
  cs !! i = Some c -> (sum_list (caller_rank <$> <[i := c']> cs) + caller_rank c = sum_list (caller_rank <$> cs) + caller_rank c')%nat.
Proof.
  revert i. induction cs as [|d cs IH]; intros [|i] Hi; try done; csimpl.
  - injection Hi as ->. lia.
  - specialize (IH i Hi). lia.
Qed.

Lemma work_caller s i c c' : ps_callers s !! i = Some c ->
  (work (set_caller i c' s) + caller_rank c = work s + caller_rank c')%nat.
Proof. intros Hi. pose proof (sum_insert _ _ _ c' Hi). unfold work, set_caller, with_callers; simpl. lia. Qed.

Lemma check_one_rank p errs news rest local sync :
  (caller_rank (check_one p errs news rest local sync) < caller_rank (CCheck errs news rest local sync))%nat.
Proof. unfold check_one. repeat case_match; simpl; lia. Qed.

Ltac step_cases H :=
  unfold wait in H; repeat (case_match; try discriminate H); try (injection H as <-).

Lemma caller_step_rank l i c s s' :
  ps_callers s !! i = Some c -> caller_step l i c s = Ret s' -> (work s' < work s)%nat.
Proof.
  intros Hi Hs. unfold caller_step in Hs. destruct c as [errs news rest local sync| | | | |]; destruct l; try discriminate Hs; step_cases Hs.
  { pose proof (work_caller s i _ (check_one (ps_pool s) errs news rest local sync) Hi).
    pose proof (check_one_rank (ps_pool s) errs news rest local sync). lia. }
  all: match goal with |- context [set_caller ?j ?c' _] => pose proof (work_caller s j _ c' Hi) as Hw end; unfold work in *; simpl in *;
    repeat case_match; simpl in *; lia.
Qed.

Lemma smaller_work s s' : (work s' < work s)%nat -> smaller (rank s') (rank s).
Proof. intros. by apply left_slex. Qed.

Lemma smaller_events s s' : work s' = work s -> (length (events (ps_pool s')) < length (events (ps_pool s)))%nat -> smaller (rank s') (rank s).
Proof. intros Hw He. unfold smaller, rank. rewrite Hw. apply right_slex. by apply left_slex. Qed.

Lemma loop_top_rank s : ps_at s = AtTop -> smaller (rank (loop_top s)) (rank s).
Proof.
  intros Ha. unfold loop_top. destruct (bool_decide (curDone s = None)) eqn:Hc; [|simpl; destruct (launchNextRun s) eqn:Hl]; simpl.
  - apply bool_decide_eq_true in Hc. destruct (launchNextRun s) eqn:Hl; simpl.
    + apply smaller_work. unfold work; simpl. rewrite Ha, Hc, Hl. destruct (run_rank (ps_run s)); lia.
    + unfold smaller, rank, work; simpl. rewrite Ha, Hl. apply right_slex. apply right_slex. simpl. lia.
  - unfold smaller, rank, work; simpl. rewrite Ha, Hl. apply right_slex. apply right_slex. simpl. lia.
  - unfold smaller, rank, work; simpl. rewrite Ha, Hl. apply right_slex. apply right_slex. simpl. lia.
Qed.

Lemma selecting_at s : selecting s = true -> ps_at s = AtSelect.
Proof. unfold selecting. by destruct (ps_at s). Qed.

(** An internal step makes the rank smaller. *)
Lemma internal_step_rank l s s' : internal l = true -> step l s = Ret s' -> smaller (rank s') (rank s).
Proof.
  intros Hi Hs. destruct l; try discriminate Hi; cbn [step] in Hs.
  1-6: destruct (ps_callers s !! i) as [c|] eqn:Hc; [|discriminate Hs]; apply smaller_work; by eapply caller_step_rank.
  - destruct (events (ps_pool s)) as [|tx rest] eqn:He; [discriminate Hs|]. destruct (selecting s) eqn:Ha; [|discriminate Hs].
    injection Hs as <-. apply selecting_at in Ha. apply smaller_events; [unfold work; simpl; by rewrite Ha|simpl; rewrite He; simpl; lia].
  - destruct (events (ps_pool s)) as [|tx rest] eqn:He; [discriminate Hs|]. step_cases Hs.
    apply smaller_events; [done|simpl; rewrite He; simpl; lia].
  - destruct (ps_at s) eqn:Ha; try discriminate Hs. injection Hs as <-. by apply loop_top_rank.
  - destruct (ps_run s) as [[ch rst dirty ev|]|] eqn:Hr; try discriminate Hs; unfold run_step in Hs. step_cases Hs.
    apply smaller_work. unfold work; simpl. rewrite Hr. simpl. lia.
  - destruct (ps_run s) as [[|ch txs]|] eqn:Hr; try discriminate Hs; unfold run_step in Hs. step_cases Hs.
    apply smaller_work. unfold work; simpl. rewrite Hr. simpl. lia.
  - destruct (curDone s) as [ch|] eqn:Hc; [|discriminate Hs].
    destruct (selecting s) eqn:Ha; [|discriminate Hs]. simpl in Hs. step_cases Hs. apply selecting_at in Ha.
    apply smaller_work. unfold work; simpl. rewrite Hc, Ha. lia.
  - destruct (selecting s) eqn:Ha; [|by rewrite andb_false_r in Hs]. step_cases Hs. apply selecting_at in Ha.
    apply smaller_work. unfold work; simpl. rewrite Ha. lia.
  - destruct (ps_at s) eqn:Ha; try discriminate Hs. step_cases Hs; apply smaller_work; unfold work; simpl; rewrite Ha; repeat case_match; simplify_eq; lia.
Qed.

(** ** The invariant *)

Definition slots (errs : list (option pool_error)) : nat := length (List.filter (fun e => bool_decide (e = None)) errs).

(** The channel a caller waits on: closed, of the current run, or of a run that
    is asked for. *)
Definition awaited (s : psys) (ch : nat) : Prop :=
  ch ∈ ps_closed s \/ curDone s = Some ch \/ (ch = nextDone s /\ launchNextRun s = true /\ ps_at s <> Exited).

Definition caller_ok (s : psys) (c : caller) : Prop :=
  match c with
  | CCheck errs news _ _ _ | CLock errs news _ _ => length news = slots errs
  | CHold errs newErrs _ _ => length newErrs = slots errs
  | CWait _ ch => awaited s ch
  | _ => True
  end.

Definition run_ok (s : psys) : Prop :=
  match ps_run s, curDone s with
  | Some (RLock ch _ _ ev), Some ch' => ch = ch' /\ ch ∉ ps_closed s /\ events_wf ev
  | Some (RHold ch _), Some ch' => ch = ch' /\ ch ∉ ps_closed s
  | None, Some ch => ch ∈ ps_closed s
  | None, None => True
  | Some _, None => False
  end.

Definition holding (c : caller) : bool := match c with CHold _ _ _ _ => true | _ => false end.
Definition run_holding (r : option runner) : bool := match r with Some (RHold _ _) => true | _ => false end.

(** The mutex is held by who the goroutines say. *)
Definition mu_ok (s : psys) : Prop :=
  (forall i c, ps_callers s !! i = Some c -> holding c = bool_decide (ps_mu s = Some (ByCaller i))) /\
  run_holding (ps_run s) = bool_decide (ps_mu s = Some ByRun) /\
  (forall i, ps_mu s = Some (ByCaller i) -> (i < length (ps_callers s))%nat).

Definition at_ok (s : psys) : Prop :=
  match ps_at s with
  | AtTop => True
  | AtSelect => curDone s = None -> launchNextRun s = false
  | Stopping => ps_shutdown s = true
  | Exited => ps_shutdown s = true /\ nextDone s ∈ ps_closed s
  end.

(** [nextDone] is a new channel until the scheduler closes it at its end. *)
Definition fresh_ok (s : psys) : Prop :=
  (forall ch, curDone s = Some ch -> (ch < nextDone s)%nat) /\
  (ps_at s <> Exited -> forall ch, ch ∈ ps_closed s -> (ch < nextDone s)%nat).

Record sys_inv (s : psys) : Prop := mk_sys_inv {
  si_pool : pool_inv [] [] [] (ps_pool s);
  si_events : u64_events (ps_pool s);
  si_queued : events_wf (queuedEvents s);
  si_callers : Forall (caller_ok s) (ps_callers s);
  si_run : run_ok s;
  si_fresh : fresh_ok s;
  si_mu : mu_ok s;
  si_at : at_ok s
}.

Lemma awaited_same s s' ch :
  ps_closed s ⊆ ps_closed s' -> curDone s' = curDone s -> nextDone s' = nextDone s -> (launchNextRun s = true -> launchNextRun s' = true) ->
  (ps_at s <> Exited -> ps_at s' <> Exited) -> awaited s ch -> awaited s' ch.
Proof.
  intros Hc Hd Hn Hl Ha [H|[H|(H1 & H2 & H3)]]; [left; set_solver|right; left; congruence|right; right].
  split_and!; [congruence|auto|auto].
Qed.

Lemma fresh_same s s' :
  fresh_ok s -> curDone s' = curDone s -> nextDone s' = nextDone s -> ps_closed s' = ps_closed s -> (ps_at s' <> Exited -> ps_at s <> Exited) -> fresh_ok s'.
Proof. unfold fresh_ok. intros [H1 H2] -> -> -> Ha. split; [done|]. intros He. by apply H2, Ha. Qed.

(** The fields of the invariant that a step does not touch. *)
Ltac sys_split := split; try done; try (eapply fresh_same; [eassumption|done..|simpl; congruence]).

Lemma callers_same s s' cs :
  (forall ch, awaited s ch -> awaited s' ch) -> Forall (caller_ok s) cs -> Forall (caller_ok s') cs.
Proof. intros Ha Hcs. eapply Forall_impl; [exact Hcs|]. intros []; simpl; auto. Qed.

Lemma slots_snoc errs e : slots (errs ++ [e]) = (slots errs + if bool_decide (e = None) then 1 else 0)%nat.
Proof. unfold slots. rewrite List.filter_app, length_app. simpl. by case_bool_decide. Qed.

Lemma check_one_ok s p errs news rest local sync :
  length news = slots errs -> caller_ok s (check_one p errs news rest local sync).
Proof.
  intros Hl. unfold check_one. repeat case_match; simpl; [done|done| |]; rewrite slots_snoc; simpl; [lia|].
  rewrite length_app, Hl. done.
Qed.

Lemma mu_ok_caller s i c c' : mu_ok s -> ps_callers s !! i = Some c -> holding c = holding c' -> mu_ok (set_caller i c' s).
Proof.
  intros (H1 & H2 & H3) Hi Hh. split_and!; [|done|].
  - intros j d Hj. simpl in Hj. apply list_lookup_insert_Some in Hj as [(-> & -> & _)|[_ Hj]]; [|by apply H1]. rewrite <- Hh. by apply H1.
  - intros j Hj. simpl. rewrite length_insert. by apply H3.
Qed.

Lemma mu_ok_take s i c c' p : mu_ok s -> ps_callers s !! i = Some c -> ps_mu s = None -> holding c' = true ->
  mu_ok (set_caller i c' (with_pool p (Some (ByCaller i)) s)).
Proof.
  intros (H1 & H2 & H3) Hi Hm Hh. split_and!.
  - intros j d Hj. simpl in *. apply list_lookup_insert_Some in Hj as [(-> & -> & _)|[Hne Hj]]; [by rewrite bool_decide_true|].
    rewrite bool_decide_false by congruence. rewrite (H1 _ _ Hj), Hm. done.
  - simpl. rewrite H2, Hm. done.
  - intros j [= ->]. simpl. rewrite length_insert. by eapply lookup_lt_Some.
Qed.

Lemma mu_ok_give s i c c' p : mu_ok s -> ps_callers s !! i = Some c -> holding c = true -> holding c' = false ->
  mu_ok (set_caller i c' (with_pool p None s)).
Proof.
  intros (H1 & H2 & H3) Hi Hh Hh'. assert (Hm : ps_mu s = Some (ByCaller i)).
  { rewrite (H1 _ _ Hi) in Hh. by apply bool_decide_eq_true in Hh. }
  split_and!; [| |done].
  - intros j d Hj. simpl in *. apply list_lookup_insert_Some in Hj as [(-> & -> & _)|[Hne Hj]]; [done|].
    rewrite (H1 _ _ Hj), Hm. rewrite bool_decide_false by congruence. done.
  - simpl. rewrite H2, Hm. done.
Qed.

Lemma mu_ok_same s s' : mu_ok s -> ps_mu s' = ps_mu s -> ps_callers s' = ps_callers s -> run_holding (ps_run s') = run_holding (ps_run s) -> mu_ok s'.
Proof. unfold mu_ok. by intros (H1 & H2 & H3) -> -> ->. Qed.

Lemma callers_insert s s' i c' :
  (forall ch, awaited s ch -> awaited s' ch) -> Forall (caller_ok s) (ps_callers s) -> caller_ok s' c' ->
  Forall (caller_ok s') (<[i := c']> (ps_callers s)).
Proof. intros Ha Hc Hok. apply Forall_insert; [by eapply callers_same|done]. Qed.

Lemma sys_inv_caller s i c c' :
  sys_inv s -> ps_callers s !! i = Some c -> holding c = holding c' -> caller_ok s c' -> sys_inv (set_caller i c' s).
Proof.
  intros [] Hi Hh Hok. sys_split; [|by eapply mu_ok_caller]. by apply (callers_insert s (set_caller i c' s)).
Qed.

Lemma sys_inv_log e s : sys_inv s -> sys_inv (log_it e s).
Proof. intros []. by sys_split. Qed.

Lemma accept_promote_inv d s : sys_inv s -> ps_at s = AtSelect -> sys_inv (accept_promote d s).
Proof.
  intros [] Ha. sys_split. eapply callers_same; [|exact si_callers0]. intros ch. apply awaited_same; try done; simpl; by rewrite ?Ha.
Qed.

Lemma accept_reset_inv r s : sys_inv s -> ps_at s = AtSelect -> sys_inv (accept_reset r s).
Proof.
  intros [] Ha. sys_split. eapply callers_same; [|exact si_callers0]. intros ch. apply awaited_same; try done; simpl; by rewrite ?Ha.
Qed.

Lemma loop_top_inv s : sys_inv s -> ps_at s = AtTop -> sys_inv (loop_top s).
Proof.
  intros [] Ha. unfold loop_top. destruct (bool_decide (curDone s = None)) eqn:Hc.
  - apply bool_decide_eq_true in Hc. destruct (launchNextRun s) eqn:Hl; simpl.
    + split; simpl; try done.
      * eapply callers_same; [|exact si_callers0]. intros ch [H|[H|(-> & _ & _)]]; [by left|congruence|right; by left].
      * unfold run_ok. simpl. split_and!; [done| |done]. intros Hn. destruct si_fresh0 as [_ Hf]. specialize (Hf ltac:(congruence) _ Hn). lia.
      * destruct si_fresh0 as [_ Hf]. split; simpl; [intros ch [= <-]; lia|]. intros _ ch Hch. specialize (Hf ltac:(congruence) _ Hch). lia.
      * eapply mu_ok_same; [exact si_mu0|done|done|]. unfold run_ok in si_run0. rewrite Hc in si_run0. by destruct (ps_run s) as [[]|].
    + sys_split. eapply callers_same; [|exact si_callers0]. intros ch. apply awaited_same; try done; simpl; by rewrite ?Hl.
  - simpl. sys_split; [eapply callers_same; [|exact si_callers0]; intros ch; by apply awaited_same|].
    apply bool_decide_eq_false in Hc. unfold at_ok. simpl. done.
Qed.

Lemma check_one_holds p errs news rest local sync : holding (check_one p errs news rest local sync) = false.
Proof. unfold check_one. by repeat case_match. Qed.

Context {laws : RlpLaws}.

Lemma addTxsLocked_returns now news local p :
  pool_inv [] [] [] p -> u64_events p -> Forall (fun tx => is_u64 (Nonce tx)) news -> batch_safe p news ->
  exists newErrs dirty p', addTxsLocked now news local p = Some ((newErrs, dirty), p') /\ length newErrs = length news /\
    pool_inv [] [] [] p' /\ u64_events p'.
Proof.
  intros Hp He Hu Hs. assert (Hw : wp (addTxsLocked now news local) (fun r p' => length r.1 = length news /\ pool_inv [] [] [] p') p).
  { apply wp_addTxsLocked; [done..|]. intros errs d p' Hl Hp' _ _. done. }
  apply wp_run in Hw as ([newErrs d] & p' & Hr & Hl & Hp'). exists newErrs, d, p'. split_and!; [done|done|done|].
  eapply keeps_run; [by apply addTxsLocked_events|exact He|exact Hr].
Qed.

Lemma caller_step_inv l i c s s' :
  sys_inv s -> ps_callers s !! i = Some c -> (forall j now, l = LLock j now -> lock_ok (ps_pool s) c) -> caller_step l i c s = Ret s' -> sys_inv s'.
Proof.
  intros Hinv Hi Hall Hs. pose proof (si_callers _ Hinv) as Hcs. pose proof (Forall_lookup_1 _ _ _ _ Hcs Hi) as Hok.
  unfold caller_step in Hs. destruct c; destruct l; try discriminate Hs.
  - injection Hs as <-. eapply sys_inv_caller; [done..|by rewrite check_one_holds|by apply check_one_ok].
  - destruct (ps_mu s) eqn:Hm; [discriminate Hs|]. destruct (addTxsLocked now news local (ps_pool s)) as [[[newErrs dirty] p']|] eqn:Hadd; [|discriminate Hs].
    injection Hs as <-. apply sys_inv_log. pose proof (si_mu _ Hinv) as Hmu. destruct Hinv.
    destruct (Hall _ _ eq_refl) as [Hu Hb]. destruct (addTxsLocked_returns now news local (ps_pool s)) as (n2 & d2 & p2 & E & Hl & Hp & He); [done..|].
    rewrite Hadd in E. injection E as -> -> ->. sys_split; [|by eapply mu_ok_take].
    apply (callers_insert s); [done..|]. simpl in *. congruence.
  - destruct (events (ps_pool s)) eqn:He; [|discriminate Hs]. destruct (merge_errs errs newErrs) as [errs'|]; [|discriminate Hs]. injection Hs as <-.
    destruct Hinv. sys_split; [|by eapply mu_ok_give].
    by apply (callers_insert s).
  - destruct (selecting s) eqn:Ha; [|discriminate Hs]. injection Hs as <-. apply selecting_at in Ha.
    eapply (sys_inv_caller (accept_promote dirty s)); [by apply accept_promote_inv|done|by destruct sync|].
    destruct sync; [|done]. right; right. split_and!; done.
  - step_cases Hs. by eapply sys_inv_caller.
  - step_cases Hs. by eapply sys_inv_caller.
Qed.

Lemma runReorg_returns now c rst dirty ev p :
  pool_inv [] [] [] p -> u64_events p -> events_wf ev -> call_ok p (CallReorg c rst dirty ∅) ->
  exists txs p', runReorg now c rst dirty ev p = Some (txs, p') /\ pool_inv [] [] [] p' /\ u64_events p'.
Proof.
  intros Hp He Hev (_ & Hsz & Hrst).
  assert (Hw : wp (runReorg now c rst dirty ev) (fun _ p' => pool_inv [] [] [] p') p).
  { apply wp_runReorg; [done..| |done]. intros o n ->. done. }
  apply wp_run in Hw as (txs & p' & Hr & Hp'). exists txs, p'. split_and!; [done|done|].
  eapply keeps_run; [|exact He|exact Hr]. apply runReorg_events. intros o n ->. destruct Hrst as (Hc & _ & Hn & _). done.
Qed.

Lemma mu_free s : mu_ok s -> ps_mu s = None -> run_holding (ps_run s) = false.
Proof. intros (_ & H & _) Hm. by rewrite H, Hm. Qed.

Lemma run_step_inv l r s s' :
  sys_inv s -> ps_run s = Some r -> allowed l s -> run_step l r s = Ret s' -> sys_inv s'.
Proof.
  intros Hinv Hr Hall Hs. pose proof (si_run _ Hinv) as Hok. unfold run_ok in Hok. rewrite Hr in Hok. pose proof (si_mu _ Hinv) as Hmu.
  unfold run_step in Hs. destruct r as [ch rst dirty ev|ch txs]; destruct l; try discriminate Hs.
  - destruct (ps_mu s) eqn:Hm; [discriminate Hs|]. simpl in Hall. rewrite Hr in Hall.
    destruct (curDone s) as [ch'|] eqn:Hc; [|done]. destruct Hok as (-> & Hnc & Hev). destruct Hinv.
    destruct (runReorg_returns now c (prod_map Some id <$> rst) dirty ev (ps_pool s)) as (txs & p' & E & Hp & He); [done..|].
    rewrite E in Hs. injection Hs as <-. apply sys_inv_log. sys_split; simpl.
    + unfold run_ok. simpl. by rewrite Hc.
    + destruct Hmu as (H1 & H2 & H3). split_and!; simpl; [|done|done]. intros i c0 Hi. rewrite (H1 _ _ Hi), Hm. done.
  - destruct (events (ps_pool s)) eqn:He; [|discriminate Hs]. injection Hs as <-.
    destruct (curDone s) as [ch'|] eqn:Hc; [|done]. destruct Hok as [<- Hnc].
    assert (Hm : ps_mu s = Some ByRun).
    { destruct Hmu as (_ & H2 & _). rewrite Hr in H2. simpl in H2. symmetry in H2. by apply bool_decide_eq_true in H2. }
    destruct Hinv. sys_split; simpl.
    + eapply callers_same; [|exact si_callers0]. intros c. apply awaited_same; try done. simpl. set_solver.
    + unfold run_ok. simpl. rewrite Hc. set_solver.
    + destruct si_fresh0 as [Hf1 Hf2]. split; simpl; [done|]. intros Hx c. rewrite elem_of_union, elem_of_singleton. intros [->|Hc']; auto.
    + destruct Hmu as (H1 & H2 & H3). split_and!; simpl; [|done|done]. intros i c0 Hi. rewrite (H1 _ _ Hi), Hm. done.
    + unfold at_ok in *. simpl. destruct (ps_at s); try done. set_solver.
Qed.

Lemma with_mutex_inv m s s' :
  sys_inv s -> keeps u64_events m -> (forall p, pool_inv [] [] [] p -> wp m (fun _ p' => pool_inv [] [] [] p') p) ->
  with_mutex m s = Ret s' -> sys_inv s'.
Proof.
  intros Hinv Hk Hw Hs. unfold with_mutex in Hs. destruct (ps_mu s) eqn:Hm; [discriminate Hs|].
  destruct (m (ps_pool s)) as [[[] p']|] eqn:E; [|discriminate Hs]. injection Hs as <-. destruct Hinv.
  specialize (Hw _ si_pool0). unfold wp in Hw. rewrite E in Hw. sys_split; simpl; [by eapply keeps_run|].
  eapply mu_ok_same; [done|by rewrite Hm|done|done].
Qed.

Lemma with_events_inv rest tx s : events (ps_pool s) = tx :: rest -> sys_inv s ->
  sys_inv (with_pool (set_events rest (ps_pool s)) (ps_mu s) s) /\ is_u64 (Nonce tx).
Proof.
  intros He []. assert (Hu := si_events0). unfold u64_events in Hu. rewrite He in Hu. apply Forall_cons in Hu as [Hu Hus]. split; [|done].
  sys_split; simpl. by eapply pool_inv_frame; [..|exact si_pool0].
Qed.

Lemma accept_event_inv tx s : sys_inv s -> ps_at s = AtSelect -> is_u64 (Nonce tx) -> sys_inv (accept_event tx s).
Proof.
  intros [] Ha Hu. sys_split; simpl; [by apply put_event_wf|].
  eapply callers_same; [|exact si_callers0]. intros ch. by apply awaited_same.
Qed.

(** Every step keeps the invariant. *)
Lemma step_inv l s s' : sys_inv s -> allowed l s -> step l s = Ret s' -> sys_inv s'.
Proof.
  intros Hinv Hall Hs. destruct l as [txs local sync|i|i now|i|i|i|i| | | |now c| | |h|now|now price| | |]; cbn [step] in Hs.
  2-7: destruct (ps_callers s !! i) as [c|] eqn:Hi; [|discriminate Hs]; eapply caller_step_inv; [done..| |exact Hs];
    intros j m [= ]; subst; simpl in Hall; by rewrite Hi in Hall.
  - injection Hs as <-. destruct Hinv. sys_split; simpl.
    + apply Forall_app. split; [by eapply callers_same|]. by apply Forall_singleton.
    + destruct si_mu0 as (H1 & H2 & H3). split_and!; simpl; [|done|].
      * intros i c Hi. apply lookup_app_Some in Hi as [Hi|[Hl Hi]]; [by apply H1|]. apply list_lookup_singleton_Some in Hi as [_ <-].
        simpl. symmetry. apply bool_decide_eq_false. intros Hm. apply H3 in Hm. lia.
      * intros i Hm. apply H3 in Hm. rewrite length_app. lia.
  - destruct (events (ps_pool s)) as [|tx rest] eqn:He; [discriminate Hs|]. destruct (selecting s) eqn:Ha; [|discriminate Hs].
    injection Hs as <-. apply selecting_at in Ha. destruct (with_events_inv rest tx s He Hinv). by apply accept_event_inv.
  - destruct (events (ps_pool s)) as [|tx rest] eqn:He; [discriminate Hs|]. step_cases Hs. by eapply with_events_inv.
  - destruct (ps_at s) eqn:Ha; try discriminate Hs. injection Hs as <-. by apply loop_top_inv.
  - destruct (ps_run s) as [r|] eqn:Hr; [|discriminate Hs]. by eapply run_step_inv.
  - destruct (ps_run s) as [r|] eqn:Hr; [|discriminate Hs]. by eapply run_step_inv.
  - destruct (curDone s) as [ch|] eqn:Hc; [|discriminate Hs]. destruct (selecting s) eqn:Ha; [|discriminate Hs]. simpl in Hs.
    destruct (bool_decide (ch ∈ ps_closed s)) eqn:Hcl; [|discriminate Hs]. injection Hs as <-. apply bool_decide_eq_true in Hcl. apply selecting_at in Ha.
    destruct Hinv.
    assert (Hr : ps_run s = None).
    { unfold run_ok in si_run0. rewrite Hc in si_run0. destruct (ps_run s) as [[]|]; [|by destruct si_run0 as [-> ?]|done]. by destruct si_run0 as (-> & ? & _). }
    sys_split; simpl.
    + eapply callers_same; [|exact si_callers0]. intros c [H|[H|(H1 & H2 & H3)]]; [by left|left; simpl; by replace c with ch by congruence|right; right; done].
    + unfold run_ok. simpl. by rewrite Hr.
    + split; simpl; [done|]. intros _. destruct si_fresh0 as [_ Hf]. apply Hf. by rewrite Ha.
  - destruct (ps_shutdown s) eqn:Hd; [discriminate Hs|]. destruct (selecting s) eqn:Ha; [|discriminate Hs]. injection Hs as <-.
    apply selecting_at in Ha. destruct (accept_reset_inv (ps_head s, h) s Hinv Ha). by split.
  - step_cases Hs. eapply with_mutex_inv; [done|apply evict_tick_events| |done]. intros p Hp. by apply wp_evict_tick.
  - eapply with_mutex_inv; [done|apply SetGasPrice_events| |done]. intros p Hp. by apply wp_SetGasPrice.
  - step_cases Hs. destruct Hinv. sys_split. unfold at_ok in *. simpl. destruct (ps_at s); try done. by destruct si_at0.
  - destruct (ps_shutdown s) eqn:Hd; [|discriminate Hs]. destruct (selecting s) eqn:Ha; [|discriminate Hs]. injection Hs as <-.
    apply selecting_at in Ha. destruct Hinv. sys_split; simpl. eapply callers_same; [|exact si_callers0]. intros ch. by apply awaited_same.
  - destruct (ps_at s) eqn:Ha; try discriminate Hs. destruct Hinv. unfold at_ok in si_at0. rewrite Ha in si_at0.
    assert (Hcl : match curDone s with Some ch => ch ∈ ps_closed s | None => True end /\
      s' = close_done (nextDone s) (with_sched Exited (curDone s) (nextDone s) (launchNextRun s) (ps_reset s) (dirtyAccounts s) (queuedEvents s) s)).
    { destruct (curDone s) as [ch|]; [|by injection Hs as <-]. case_bool_decide; [by injection Hs as <-|discriminate Hs]. }
    clear Hs. destruct Hcl as [Hcl ->].
    assert (Hr : ps_run s = None).
    { unfold run_ok in si_run0. destruct (ps_run s) as [[]|], (curDone s); try done; [by destruct si_run0 as (-> & ? & _)|by destruct si_run0 as [-> ?]]. }
    sys_split; simpl.
    + eapply callers_same; [|exact si_callers0]. intros c [H|[H|(-> & _)]]; [left; simpl; set_solver|by right; left|left; simpl; set_solver].
    + unfold run_ok. simpl. rewrite Hr. destruct (curDone s); [set_solver|done].
    + split; simpl; [apply si_fresh0|done].
    + unfold at_ok. simpl. set_solver.
Qed.

Lemma reached_inv head0 s : reached head0 s -> sys_inv s.
Proof.
  induction 1 as [p Hp He|l s s' _ IH Hall Hs]; [|by eapply step_inv].
  split; simpl; try done. unfold u64_events. by rewrite He.
Qed.

(** *** No crash *)

Lemma merge_hold s i errs newErrs d sy : sys_inv s -> ps_callers s !! i = Some (CHold errs newErrs d sy) ->
  exists errs', merge_errs errs newErrs = Some errs'.
Proof.
  intros Hinv Hi. pose proof (Forall_lookup_1 _ _ _ _ (si_callers _ Hinv) Hi) as Hok. simpl in Hok.
  destruct (merge_errs_total errs newErrs) as (l & Hl & _); [done|]. by exists l.
Qed.

Lemma no_crash l s : sys_inv s -> allowed l s -> step l s <> Panic.
Proof.
  intros Hinv Hall Hs. destruct l as [txs local sync|i|i now|i|i|i|i| | | |now c| | |h|now|now price| | |]; cbn [step] in Hs.
  2-7: destruct (ps_callers s !! i) as [c|] eqn:Hi; [|discriminate Hs]; unfold caller_step, wait in Hs; destruct c; try discriminate Hs.
  all: try discriminate Hs; unfold wait in Hs; try (repeat (case_match; try discriminate Hs); fail).
  - destruct (ps_mu s); [discriminate Hs|]. simpl in Hall. rewrite Hi in Hall. destruct Hall as [Hu Hb].
    destruct (addTxsLocked_returns now news local (ps_pool s) (si_pool _ Hinv) (si_events _ Hinv) Hu Hb) as (n & d & p' & E & _).
    rewrite E in Hs. discriminate Hs.
  - destruct (merge_hold _ _ _ _ _ _ Hinv Hi) as [errs' E]. rewrite E in Hs. repeat (case_match; try discriminate Hs).
  - destruct (ps_run s) as [[ch rst dirty ev|]|] eqn:Hr; try discriminate Hs. unfold run_step, wait in Hs. simpl in Hall. rewrite Hr in Hall.
    destruct (ps_mu s); [discriminate Hs|]. pose proof (si_run _ Hinv) as Hok. unfold run_ok in Hok. rewrite Hr in Hok.
    destruct (curDone s) as [ch'|]; [|done]. destruct Hok as (_ & _ & Hev).
    destruct (runReorg_returns now c (prod_map Some id <$> rst) dirty ev (ps_pool s) (si_pool _ Hinv) (si_events _ Hinv) Hev Hall) as (t & p' & E & _).
    rewrite E in Hs. discriminate Hs.
  - destruct (ps_run s) as [[]|]; try discriminate Hs. unfold run_step, wait in Hs. repeat (case_match; try discriminate Hs).
  - destruct (ps_shutdown s); [discriminate Hs|]. unfold with_mutex, wait in Hs. destruct (ps_mu s); [discriminate Hs|].
    assert (Hw : wp (evict_tick now) (fun _ _ => True) (ps_pool s)) by (by apply wp_evict_tick; [apply Hinv|]).
    apply wp_run in Hw as (x & p' & E & _). rewrite E in Hs. discriminate Hs.
  - unfold with_mutex, wait in Hs. destruct (ps_mu s); [discriminate Hs|].
    assert (Hw : wp (SetGasPrice now price) (fun _ _ => True) (ps_pool s)) by (by apply wp_SetGasPrice; [apply Hinv|]).
    apply wp_run in Hw as (x & p' & E & _). rewrite E in Hs. discriminate Hs.
Qed.

(** *** Progress *)

Definition can_go (s : psys) : Prop := exists l s', internal l = true /\ allowed l s /\ step l s = Ret s'.

Lemma top_go s : ps_at s = AtTop -> can_go s.
Proof. intros Ha. exists LTop, (loop_top s). split_and!; [done..|]. simpl. by rewrite Ha. Qed.

Lemma down_at s : sys_inv s -> ps_at s = Stopping \/ ps_at s = Exited -> ps_shutdown s = true.
Proof. intros Hinv Ha. pose proof (si_at _ Hinv) as Hok. unfold at_ok in Hok. by destruct Ha as [Ha|Ha]; rewrite Ha in Hok; [|destruct Hok]. Qed.

Lemma events_go s tx rest : sys_inv s -> events (ps_pool s) = tx :: rest -> can_go s.
Proof.
  intros Hinv He. destruct (ps_at s) eqn:Ha; [by apply top_go| | |].
  - eexists LEvent, _. split_and!; [done..|]. simpl. unfold selecting. by rewrite He, Ha.
  - eexists LEventDown, _. split_and!; [done..|]. simpl. rewrite He, (down_at s); auto.
  - eexists LEventDown, _. split_and!; [done..|]. simpl. rewrite He, (down_at s); auto.
Qed.

Lemma holder_go s w : sys_inv s -> ps_mu s = Some w -> can_go s.
Proof.
  intros Hinv Hm. destruct (events (ps_pool s)) as [|tx rest] eqn:He; [|by eapply events_go].
  destruct (si_mu _ Hinv) as (H1 & H2 & H3). destruct w as [i|].
  - destruct (lookup_lt_is_Some_2 (ps_callers s) i) as [c Hi]; [by apply H3|].
    pose proof (H1 _ _ Hi) as Hh. rewrite Hm, bool_decide_true in Hh by done. destruct c; try discriminate Hh.
    destruct (merge_hold _ _ _ _ _ _ Hinv Hi) as [errs' E].
    eexists (LUnlock i), _. split_and!; [done..|]. simpl. by rewrite Hi, He, E.
  - rewrite Hm, bool_decide_true in H2 by done. destruct (ps_run s) as [[|ch txs]|] eqn:Hr; try discriminate H2.
    eexists LRunEnd, _. split_and!; [done..|]. simpl. by rewrite Hr, He.
Qed.

Lemma run_go s r : sys_inv s -> served s -> ps_run s = Some r -> can_go s.
Proof.
  intros Hinv [_ [c Hc]] Hr. destruct (ps_mu s) as [w|] eqn:Hm; [by eapply holder_go|].
  pose proof (mu_free _ (si_mu _ Hinv) Hm) as Hf. rewrite Hr in Hf. destruct r as [ch rst dirty ev|]; [|discriminate Hf].
  specialize (Hc 0). assert (Hall := Hc). simpl in Hc. rewrite Hr in Hc.
  pose proof (si_run _ Hinv) as Hok. unfold run_ok in Hok. rewrite Hr in Hok. destruct (curDone s) as [ch'|]; [|done]. destruct Hok as (_ & _ & Hev).
  destruct (runReorg_returns 0 c (prod_map Some id <$> rst) dirty ev (ps_pool s) (si_pool _ Hinv) (si_events _ Hinv) Hev Hc) as (t & p' & E & _).
  eexists (LRunLock 0 c), _. split_and!; [done|done|]. simpl. rewrite Hr. simpl. by rewrite Hm, E.
Qed.

Lemma cur_go s ch : sys_inv s -> served s -> curDone s = Some ch -> ch ∉ ps_closed s -> can_go s.
Proof.
  intros Hinv Hsv Hc Hn. destruct (ps_run s) as [r|] eqn:Hr; [by eapply run_go|].
  pose proof (si_run _ Hinv) as Hok. unfold run_ok in Hok. by rewrite Hr, Hc in Hok.
Qed.

(** A run that is asked for comes. *)
Lemma launch_go s : sys_inv s -> served s -> launchNextRun s = true -> ps_at s <> Exited -> can_go s.
Proof.
  intros Hinv Hsv Hl Hx. destruct (ps_at s) eqn:Ha; [by apply top_go| | |done].
  - pose proof (si_at _ Hinv) as Hok. unfold at_ok in Hok. rewrite Ha in Hok. destruct (curDone s) as [ch|] eqn:Hc; [|by rewrite Hok in Hl].
    destruct (decide (ch ∈ ps_closed s)) as [Hcl|]; [|by eapply cur_go].
    eexists LDone, _. split_and!; [done..|]. simpl. unfold selecting. by rewrite Hc, Ha, bool_decide_true.
  - destruct (curDone s) as [ch|] eqn:Hc; [destruct (decide (ch ∈ ps_closed s)) as [Hcl|]; [|by eapply cur_go]|].
    + eexists LExit, _. split_and!; [done..|]. simpl. by rewrite Ha, Hc, bool_decide_true.
    + eexists LExit, _. split_and!; [done..|]. simpl. by rewrite Ha, Hc.
Qed.

Definition is_done (c : caller) : bool := match c with CDone _ _ => true | _ => false end.

Lemma caller_go s i c : sys_inv s -> served s -> ps_callers s !! i = Some c -> is_done c = false -> can_go s.
Proof.
  intros Hinv Hsv Hi Hd. pose proof (Forall_lookup_1 _ _ _ _ (si_callers _ Hinv) Hi) as Hok. destruct c; try discriminate Hd.
  - eexists (LCheck i), _. split_and!; [done..|]. simpl. by rewrite Hi.
  - destruct (ps_mu s) as [w|] eqn:Hm; [by eapply holder_go|]. destruct Hsv as [Hsv _]. specialize (Hsv i 0). assert (Hall := Hsv).
    simpl in Hsv. rewrite Hi in Hsv. destruct Hsv as [Hu Hb].
    destruct (addTxsLocked_returns 0 news local (ps_pool s) (si_pool _ Hinv) (si_events _ Hinv) Hu Hb) as (n & d & p' & E & _).
    eexists (LLock i 0), _. split_and!; [done..|]. simpl. rewrite Hi. simpl. by rewrite Hm, E.
  - destruct (si_mu _ Hinv) as (H1 & _ & _). pose proof (H1 _ _ Hi) as Hh. symmetry in Hh. apply bool_decide_eq_true in Hh. by eapply holder_go.
  - destruct (ps_at s) eqn:Ha; [by apply top_go| | |].
    + eexists (LRequest i), _. split_and!; [done..|]. simpl. rewrite Hi. simpl. unfold selecting. by rewrite Ha.
    + eexists (LRequestDown i), _. split_and!; [done..|]. simpl. rewrite Hi. simpl. rewrite (down_at s); auto.
    + eexists (LRequestDown i), _. split_and!; [done..|]. simpl. rewrite Hi. simpl. rewrite (down_at s); auto.
  - destruct (decide (done ∈ ps_closed s)) as [Hcl|Hcl].
    + eexists (LReturn i), _. split_and!; [reflexivity|exact I|]. simpl. rewrite Hi. simpl. by rewrite bool_decide_true.
    + destruct Hok as [H|[H|(-> & Hl & Hx)]]; [contradiction|by eapply cur_go|by apply launch_go].
Qed.

Definition all_done (s : psys) : Prop := Forall (fun c => is_done c = true) (ps_callers s).

Lemma inevitably_done s : sys_inv s -> inevitably all_done s.
Proof.
  remember (rank s) as r eqn:Er. revert s Er. induction (smaller_wf r) as [r _ IH]. intros s -> Hinv.
  destruct (decide (Forall (fun c => is_done c = true) (ps_callers s))) as [Hd|Hd]; [by apply inev_now|]. apply inev_later.
  - intros Hsv. apply not_Forall_Exists in Hd; [|intros ?; apply _]. apply Exists_exists in Hd as (c & Hc & Hn).
    apply list_elem_of_lookup in Hc as [i Hi]. eapply caller_go; [done..|]. simpl in Hn. by destruct (is_done c).
  - intros l s' Hl Hall Hs. eapply IH; [|done|by eapply step_inv]. by eapply internal_step_rank.
Qed.


(** ** Resets follow the head *)

Definition resets_of (log : list log_entry) : list txpoolResetRequest :=
  omap (fun e => match e with LogRun _ rst _ => rst | LogAdd _ _ => None end) log.

(** The resets not run yet: of the run that waits for the mutex, and of the
    requests the scheduler has merged. *)
Definition resets_ahead (s : psys) : list txpoolResetRequest :=
  match ps_run s with Some (RLock _ (Some r) _ _) => [r] | _ => [] end ++ match ps_reset s with Some r => [r] | None => [] end.

(** Each reset starts where the one before it ended. *)
Fixpoint head_path (h : head_info) (rs : list txpoolResetRequest) (h' : head_info) : Prop :=
  match rs with [] => h = h' | (o, n) :: rs' => h = o /\ head_path n rs' h' end.

Lemma head_path_app h rs1 rs2 h' : head_path h (rs1 ++ rs2) h' <-> exists m, head_path h rs1 m /\ head_path m rs2 h'.
Proof.
  revert h. induction rs1 as [|[o n] rs1 IH]; intros h; simpl.
  - split; [intros H; by exists h|by intros (m & -> & H)].
  - rewrite IH. split; [intros (-> & m & H1 & H2); by exists m|intros (m & [-> H1] & H2); split; [done|by exists m]].
Qed.

Definition on_track (head0 : head_info) (s : psys) : Prop := head_path head0 (resets_of (ps_log s) ++ resets_ahead s) (ps_head s).

Lemma caller_step_track l i c s s' : caller_step l i c s = Ret s' ->
  resets_of (ps_log s') = resets_of (ps_log s) /\ resets_ahead s' = resets_ahead s /\ ps_head s' = ps_head s.
Proof.
  intros Hs. unfold caller_step in Hs. destruct c; destruct l; try discriminate Hs; step_cases Hs; try done.
  split; [|done]. simpl. unfold resets_of. rewrite omap_app. simpl. by rewrite app_nil_r.
Qed.

Lemma step_track head0 l s s' : sys_inv s -> on_track head0 s -> step l s = Ret s' -> on_track head0 s'.
Proof.
  intros Hinv Ht Hs. unfold on_track in *. destruct l as [txs local sync|i|i now|i|i|i|i| | | |now c| | |h|now|now price| | |]; cbn [step] in Hs.
  2-7: destruct (ps_callers s !! i) as [c|] eqn:Hi; [|discriminate Hs]; apply caller_step_track in Hs as (-> & -> & ->); done.
  all: try (step_cases Hs; done).
  - destruct (ps_at s) eqn:Ha; try discriminate Hs. injection Hs as <-. unfold loop_top.
    destruct (bool_decide (curDone s = None)) eqn:Hc; [|done]. apply bool_decide_eq_true in Hc. destruct (launchNextRun s) eqn:Hl; simpl; [|done].
    pose proof (si_run _ Hinv) as Hok. unfold run_ok in Hok. rewrite Hc in Hok. unfold resets_ahead in *. simpl.
    destruct (ps_run s) as [[]|]; [done..|]. simpl in Ht. destruct (ps_reset s); simpl in *; by rewrite ?app_nil_r in *.
  - destruct (ps_run s) as [[ch rst dirty ev|]|] eqn:Hr; try discriminate Hs. unfold run_step in Hs. step_cases Hs. simpl.
    unfold resets_of, resets_ahead in *. rewrite omap_app. simpl. rewrite Hr in Ht. destruct rst as [r|]; simpl in *; [by rewrite <- app_assoc|by rewrite app_nil_r].
  - destruct (ps_run s) as [[|ch txs]|] eqn:Hr; try discriminate Hs. unfold run_step in Hs. step_cases Hs. simpl.
    unfold resets_ahead in *. simpl. by rewrite Hr in Ht.
  - destruct (negb (ps_shutdown s) && selecting s); [|discriminate Hs]. injection Hs as <-. simpl.
    unfold resets_ahead in *. simpl. rewrite !app_assoc in *. apply head_path_app in Ht as (m & H1 & H2). apply head_path_app.
    exists m. split; [done|]. destruct (ps_reset s) as [[o n]|]; simpl in *; [by destruct H2|done].
  - unfold with_mutex in Hs. step_cases Hs. done.
  - unfold with_mutex in Hs. step_cases Hs. done.
Qed.

(** C13: the resets of the pool follow the head of the chain without a gap: each
    one starts from the head where the last one ended, and with those that wait
    for their run they end at the head the main loop has seen last. *)
Theorem resets_follow_the_head head0 s :
  reached head0 s -> head_path head0 (resets_of (ps_log s) ++ resets_ahead s) (ps_head s).
Proof.
  induction 1 as [p Hp He|l s s' Hr IH Hall Hs]; [done|]. eapply step_track; [by eapply reached_inv|exact IH|exact Hs].
Qed.

(** ** Promotions cover insertions *)

(** The accounts caller [i] made dirty, in the order of its insertions. *)
Definition adds (i : nat) (log : list log_entry) : list accountSet :=
  omap (fun e => match e with LogAdd j d => if decide (j = i) then Some d else None | LogRun _ _ _ => None end) log.

(** A run with these arguments promotes the accounts of [dirty]: after a reset it
    goes through all of the queue. *)
Definition covers (rst : option txpoolResetRequest) (d : option accountSet) (dirty : accountSet) : Prop :=
  is_Some rst \/ exists d', d = Some d' /\ accounts dirty ⊆ accounts d'.

(** After the insertion of caller [i] there is a run for channel [ch] that covers
    it: in the log, waiting for the mutex, or still to be started. *)
Definition promised (s : psys) (i ch : nat) (dirty : accountSet) : Prop :=
  (exists l1 l2 rst d, ps_log s = l1 ++ LogAdd i dirty :: l2 /\ LogRun ch rst d ∈ l2 /\ covers rst d dirty) \/
  (LogAdd i dirty ∈ ps_log s /\
    ((exists rst d ev, ps_run s = Some (RLock ch rst d ev) /\ covers rst d dirty) \/
     (ch = nextDone s /\ covers (ps_reset s) (dirtyAccounts s) dirty))).

Definition kept_promise (s : psys) (i : nat) (c : caller) : Prop :=
  match c with
  | CCheck _ _ _ _ _ | CLock _ _ _ _ => adds i (ps_log s) = []
  | CHold _ _ dirty _ | CRequest _ dirty _ => adds i (ps_log s) = [dirty]
  | CWait _ ch => exists dirty, adds i (ps_log s) = [dirty] /\ promised s i ch dirty
  | CDone _ (Some ch) => ch ∈ ps_closed s /\ exists dirty, adds i (ps_log s) = [dirty] /\ promised s i ch dirty
  | CDone _ None => True
  end.

Definition promises (s : psys) : Prop :=
  (forall i c, ps_callers s !! i = Some c -> kept_promise s i c) /\
  forall i, (length (ps_callers s) <= i)%nat -> adds i (ps_log s) = [].

Lemma adds_app i l1 l2 : adds i (l1 ++ l2) = adds i l1 ++ adds i l2.
Proof. apply omap_app. Qed.

Lemma adds_elem i d log : adds i log = [d] -> LogAdd i d ∈ log.
Proof.
  intros Ha. assert (d ∈ adds i log) as Hd by (rewrite Ha; by apply list_elem_of_singleton).
  apply list_elem_of_omap in Hd as ([j d'|] & He & Hf); [|done]. case_decide; [|done]. simplify_eq. done.
Qed.

Lemma as_merge_sub d req : accounts d ⊆ accounts (as_merge d req) /\ accounts req ⊆ accounts (as_merge d req).
Proof.
  unfold as_merge. simpl. assert (Hg : forall (l : list (Address * unit)) (m : gmap Address unit), m ⊆ foldl (fun m '(a, _) => <[a := tt]> m) m l /\
    forall a (u : unit), (a, u) ∈ l -> foldl (fun m '(a, _) => <[a := tt]> m) m l !! a = Some tt).
  { induction l as [|[a []] l IH]; intros m; simpl; [split; [done|]; intros ? ? H%elem_of_nil; done|].
    destruct (IH (<[a := tt]> m)) as [IH1 IH2]. split.
    - etrans; [|exact IH1]. apply map_subseteq_spec. intros j [] Hj.
      destruct (decide (a = j)) as [->|Hne]; [by rewrite lookup_insert_eq|by rewrite lookup_insert_ne].
    - intros b u [[= -> ->]|Hin]%elem_of_cons; [|by eapply IH2]. eapply lookup_weaken; [apply lookup_insert_eq|exact IH1]. }
  split; [apply Hg|]. apply map_subseteq_spec. intros a [] E.
  apply (proj2 (Hg _ (accounts d)) a tt). rewrite map_range_perm. by apply elem_of_map_to_list.
Qed.

Lemma promised_mono s s' extra i ch dirty :
  ps_log s' = ps_log s ++ extra ->
  (forall rst d ev, ps_run s = Some (RLock ch rst d ev) -> ps_run s' = ps_run s \/ LogRun ch rst d ∈ extra) ->
  (ch = nextDone s -> covers (ps_reset s) (dirtyAccounts s) dirty ->
     ch = nextDone s' /\ covers (ps_reset s') (dirtyAccounts s') dirty \/
     exists ev, ps_run s' = Some (RLock ch (ps_reset s) (dirtyAccounts s) ev)) ->
  promised s i ch dirty -> promised s' i ch dirty.
Proof.
  intros Hlog Hrun Hnext [(l1 & l2 & rst & d & Hl & Hin & Hc)|[Hin [(rst & d & ev & Hr & Hc)|[-> Hc]]]].
  - left. exists l1, (l2 ++ extra), rst, d. split_and!; [by rewrite Hlog, Hl, <- app_assoc|by apply elem_of_app; left|done].
  - destruct (Hrun _ _ _ Hr) as [Hr'|He].
    + right. split; [rewrite Hlog; by apply elem_of_app; left|]. left. exists rst, d, ev. by rewrite Hr'.
    + left. apply list_elem_of_split in Hin as (l1 & l2 & Hl). exists l1, (l2 ++ extra), rst, d.
      split_and!; [by rewrite Hlog, Hl, <- app_assoc|by apply elem_of_app; right|done].
  - right. split; [rewrite Hlog; by apply elem_of_app; left|]. destruct (Hnext eq_refl Hc) as [[? ?]|[ev Hr]]; [by right|].
    left. by exists (ps_reset s), (dirtyAccounts s), ev.
Qed.

Lemma kept_mono s s' i c :
  adds i (ps_log s') = adds i (ps_log s) -> ps_closed s ⊆ ps_closed s' -> (forall ch dirty, promised s i ch dirty -> promised s' i ch dirty) ->
  kept_promise s i c -> kept_promise s' i c.
Proof.
  intros Ha Hc Hp. destruct c as [| | | | |errs [ch|]]; simpl; rewrite ?Ha; try done.
  - intros (dirty & ? & ?). eauto.
  - intros (? & dirty & ? & ?). split; [set_solver|eauto].
Qed.

Lemma promises_mono s s' extra :
  promises s -> ps_callers s' = ps_callers s -> ps_log s' = ps_log s ++ extra -> (forall i, adds i extra = []) -> ps_closed s ⊆ ps_closed s' ->
  (forall i ch dirty, promised s i ch dirty -> promised s' i ch dirty) -> promises s'.
Proof.
  intros [H1 H2] Hcs Hlog Hex Hc Hp. assert (Ha : forall i, adds i (ps_log s') = adds i (ps_log s)).
  { intros i. by rewrite Hlog, adds_app, Hex, app_nil_r. }
  split; [|by intros i; rewrite Hcs, Ha; apply H2]. intros i c. rewrite Hcs. intros Hi. apply (kept_mono s); auto.
Qed.

(** A step that leaves the log, the runs and the merged requests alone. *)
Lemma promises_same s s' :
  promises s -> ps_callers s' = ps_callers s -> ps_log s' = ps_log s -> ps_closed s ⊆ ps_closed s' ->
  (ps_run s' = ps_run s \/ run_holding (ps_run s) = true) ->
  nextDone s' = nextDone s -> (forall dirty, covers (ps_reset s) (dirtyAccounts s) dirty -> covers (ps_reset s') (dirtyAccounts s') dirty) -> promises s'.
Proof.
  intros Hp Hcs Hlog Hc Hr Hn Hd. eapply (promises_mono s s' []); [done|done|by rewrite app_nil_r|done|done|].
  intros i ch dirty. apply (promised_mono s s' []); [by rewrite Hlog, app_nil_r| |].
  - intros rst d ev E. left. destruct Hr as [->|Hr]; [done|]. by rewrite E in Hr.
  - intros -> Hcv. left. split; [done|by apply Hd].
Qed.

(** The step of a caller that does not insert. *)
Lemma promises_caller s i c c' :
  promises s -> ps_callers s !! i = Some c -> kept_promise s i c' -> promises (set_caller i c' s).
Proof.
  intros [H1 H2] Hi Hk. split.
  - intros j d Hj. simpl in Hj. apply list_lookup_insert_Some in Hj as [(-> & -> & _)|[_ Hj]]; [done|]. by apply H1.
  - intros j. simpl. rewrite length_insert. apply H2.
Qed.

Lemma covers_merge s req dirty : covers (ps_reset s) (dirtyAccounts s) dirty ->
  covers (ps_reset s) (dirtyAccounts (accept_promote req s)) dirty.
Proof.
  intros [H|(d & E & Hs)]; [by left|]. right. simpl. rewrite E. eexists. split; [done|]. etrans; [exact Hs|apply as_merge_sub].
Qed.

Lemma covers_request s req : covers (ps_reset s) (dirtyAccounts (accept_promote req s)) req.
Proof. right. eexists. split; [done|]. destruct (dirtyAccounts s); [apply as_merge_sub|done]. Qed.

Lemma promises_insert s i c c' p dirty :
  promises s -> ps_callers s !! i = Some c -> adds i (ps_log s) = [] ->
  (match c' with CHold _ _ d _ => d = dirty | _ => False end) ->
  promises (log_it (LogAdd i dirty) (set_caller i c' (with_pool p (Some (ByCaller i)) s))).
Proof.
  intros [H1 H2] Hi Ha Hc'. set (s' := log_it _ _).
  assert (Hadds : forall j, adds j (ps_log s') = adds j (ps_log s) ++ (if decide (i = j) then [dirty] else [])).
  { intros j. unfold s'. simpl. rewrite adds_app. f_equal. unfold adds. simpl. by case_decide. }
  split.
  - intros j d Hj. simpl in Hj. apply list_lookup_insert_Some in Hj as [(<- & <- & _)|[Hne Hj]].
    + destruct c'; try done. subst. unfold kept_promise. rewrite Hadds, Ha, decide_True by done. done.
    + apply (kept_mono s); [|done| |by apply H1].
      * rewrite Hadds, decide_False by done. by rewrite app_nil_r.
      * intros ch d'. apply (promised_mono s s' [LogAdd i dirty]); [done|intros; by left|]. intros -> Hcv. left. done.
  - intros j Hj. simpl in Hj. rewrite length_insert in Hj. rewrite Hadds, H2 by done.
    rewrite decide_False; [done|]. intros ->. apply lookup_lt_Some in Hi. lia.
Qed.

Lemma caller_step_promises l i c s s' :
  promises s -> ps_callers s !! i = Some c -> caller_step l i c s = Ret s' -> promises s'.
Proof.
  intros Hp Hi Hs. pose proof (proj1 Hp i c Hi) as Hk. unfold caller_step in Hs. destruct c; destruct l; try discriminate Hs.
  - injection Hs as <-. eapply promises_caller; [done..|]. simpl in Hk. unfold check_one. repeat case_match; done.
  - destruct (ps_mu s); [discriminate Hs|]. destruct (addTxsLocked now news local (ps_pool s)) as [[[n d] p']|]; [|discriminate Hs].
    injection Hs as <-. by eapply promises_insert.
  - step_cases Hs. by eapply (promises_caller (with_pool (ps_pool s) None s)).
  - destruct (selecting s) eqn:Ha; [|discriminate Hs]. injection Hs as <-.
    apply (promises_caller (accept_promote dirty s) i (CRequest errs dirty sync)); [|done|].
    + apply (promises_same s); [done..|by left|done|]. intros d. apply (covers_merge s).
    + simpl in Hk. destruct sync; [|done]. exists dirty. split; [done|]. right. split; [by apply adds_elem|]. right. split; [done|]. apply (covers_request s).
  - step_cases Hs. by eapply promises_caller.
  - step_cases Hs. eapply promises_caller; [done..|]. simpl. split; [|done]. by eapply bool_decide_eq_true.
Qed.

Lemma step_promises l s s' : sys_inv s -> promises s -> step l s = Ret s' -> promises s'.
Proof.
  intros Hinv Hp Hs. destruct l as [txs local sync|i|i now|i|i|i|i| | | |now c| | |h|now|now price| | |]; cbn [step] in Hs.
  2-7: destruct (ps_callers s !! i) as [c|] eqn:Hi; [|discriminate Hs]; by eapply caller_step_promises.
  - injection Hs as <-. destruct Hp as [H1 H2]. split; simpl.
    + intros i c Hi. apply lookup_app_Some in Hi as [Hi|[Hl Hi]]; [by apply H1|]. apply list_lookup_singleton_Some in Hi as [_ <-]. by apply H2.
    + intros i. rewrite length_app. simpl. intros. apply H2. lia.
  - step_cases Hs. by apply (promises_same s); auto.
  - step_cases Hs. by apply (promises_same s); auto.
  - destruct (ps_at s) eqn:Ha; try discriminate Hs. injection Hs as <-. unfold loop_top.
    destruct (bool_decide (curDone s = None)) eqn:Hc; [|apply (promises_same s); auto].
    apply bool_decide_eq_true in Hc. destruct (launchNextRun s) eqn:Hl; simpl; [|apply (promises_same s); auto].
    eapply (promises_mono s _ []); [done|done|by rewrite app_nil_r|done|done|]. intros i ch d. apply (promised_mono _ _ []); [by rewrite app_nil_r| |].
    + intros rst d' ev E. pose proof (si_run _ Hinv) as Hok. unfold run_ok in Hok. by rewrite E, Hc in Hok.
    + intros -> _. right. by eexists.
  - destruct (ps_run s) as [[ch rst dirty ev|]|] eqn:Hr; try discriminate Hs. unfold run_step in Hs. step_cases Hs.
    eapply (promises_mono s _ [LogRun ch rst dirty]); [done..|]. intros i ch' d. apply (promised_mono _ _ [LogRun ch rst dirty]); [done| |].
    + intros rst' d' ev' E. rewrite Hr in E. injection E as -> -> -> ->. right. by apply list_elem_of_singleton.
    + intros -> Hcv. by left.
  - destruct (ps_run s) as [[|ch txs]|] eqn:Hr; try discriminate Hs. unfold run_step in Hs. step_cases Hs.
    apply (promises_same s); try done; [simpl; set_solver|]. right. by rewrite Hr.
  - step_cases Hs. apply (promises_same s); auto.
  - step_cases Hs. apply (promises_same s); auto. intros dirty [Hc|Hc]; [left|by right]. simpl. by destruct (ps_reset s) as [[]|].
  - unfold with_mutex in Hs. step_cases Hs. apply (promises_same s); auto.
  - unfold with_mutex in Hs. step_cases Hs. apply (promises_same s); auto.
  - step_cases Hs. apply (promises_same s); auto.
  - step_cases Hs. apply (promises_same s); auto.
  - step_cases Hs; (apply (promises_same s); auto; simpl; set_solver).
Qed.

(** C8: a caller of [addTxs] that waits for the promotion of its transactions
    returns only after it: a run that promotes every account its insertion made
    dirty has gone through the pool after the insertion, unless the pool was shut
    down before the run. *)
Theorem promotions_cover_insertions head0 s i errs ch :
  reached head0 s -> ps_callers s !! i = Some (CDone errs (Some ch)) ->
  exists dirty, adds i (ps_log s) = [dirty] /\
    ((exists l1 l2 rst d, ps_log s = l1 ++ LogAdd i dirty :: l2 /\ LogRun ch rst d ∈ l2 /\ covers rst d dirty) \/ ps_at s = Exited).
Proof.
  intros Hr Hi. assert (Hp : promises s).
  { clear i errs ch Hi. induction Hr as [p Hp He|l s s' Hr IH Hall Hs]; [by split; [intros i c Hi|]|].
    eapply step_promises; [by eapply reached_inv|exact IH|exact Hs]. }
  apply reached_inv in Hr. destruct (proj1 Hp i _ Hi) as (Hc & dirty & Ha & Hpr). exists dirty. split; [done|].
  destruct Hpr as [?|[_ [(rst & d & ev & Hrun & _)|[-> _]]]]; [by left| |].
  - pose proof (si_run _ Hr) as Hok. unfold run_ok in Hok. rewrite Hrun in Hok. destruct (curDone s); [|done]. by destruct Hok as (_ & ? & _).
  - right. destruct (ps_at s) eqn:Ht; [..|done]; (destruct (si_fresh _ Hr) as [_ Hf]; specialize (Hf ltac:(congruence) _ Hc); lia).
Qed.

End Steps.

(** ** A concrete run *)
Module LoopToy.
Import Toy.
#[local] Existing Instances toy_crypto canonical_order toy_orders toy_rlp_laws.

Definition next (l : label) (s : psys) : psys := match step l s with Ret s' => s' | _ => s end.
Definition play (ls : list label) (s : psys) : psys := foldl (fun s l => next l s) s ls.

Fixpoint enabled (ls : list label) (s : psys) : bool :=
  match ls with [] => true | l :: ls' => match step l s with Ret s' => enabled ls' s' | _ => false end end.

Definition with_lock (l : label) : bool := match l with LLock _ _ | LRunLock _ _ => true | _ => false end.

Lemma reached_play h ls s : reached h s -> forallb (fun l => negb (with_lock l)) ls = true -> enabled ls s = true -> reached h (play ls s).
Proof.
  revert s. induction ls as [|l ls IH]; intros s Hr Hf He; [done|]. simpl in *. apply andb_true_iff in Hf as [Hl Hf].
  destruct (step l s) as [s'| |] eqn:E; [|done..]. replace (next l s) with s' by (unfold next; by rewrite E).
  apply IH; [|done|done]. eapply reached_step; [exact Hr| |exact E]. by destruct l.
Qed.

Lemma reached_next h l s : reached h s -> allowed l s -> enabled [l] s = true -> reached h (next l s).
Proof.
  intros Hr Hall He. simpl in He. unfold next. destruct (step l s) as [s'| |] eqn:E; [|done..]. by eapply reached_step.
Qed.

Definition head0 : head_info := b_head genesis.

(** A caller inserts the batch and waits; the scheduler starts a run for it. *)
Definition checked : psys := play [LCall batch false true; LTop; LCheck 0; LCheck 0; LCheck 0] (started pool0 head0).
Definition inserted : psys := next (LLock 0 1) checked.
Definition requested : psys := play [LUnlock 0; LRequest 0; LTop] inserted.
Definition promoted : psys := next (LRunLock 1 chain) requested.
Definition finished : psys := play [LRunEnd; LReturn 0; LDone; LTop; LHead left_head; LTop] promoted.

Lemma checked_reached : reached head0 checked.
Proof.
  apply reached_play; [|vm_compute; reflexivity|vm_compute; reflexivity].
  apply reached_start; [apply reachable_inv, pool0_reachable|vm_compute; reflexivity].
Qed.

Lemma requested_reached : reached head0 requested.
Proof.
  apply reached_play; [|vm_compute; reflexivity|vm_compute; reflexivity].
  apply reached_next; [apply checked_reached| |vm_compute; reflexivity]. unfold allowed.
  assert (ps_callers checked !! 0%nat = Some (CLock [None; None] batch false true)) as -> by (vm_compute; reflexivity).
  assert (ps_pool checked = pool0) as -> by (vm_compute; reflexivity). exact batch_ok.
Qed.

Lemma finished_reached : reached head0 finished.
Proof.
  apply reached_play; [|vm_compute; reflexivity|vm_compute; reflexivity].
  apply reached_next; [apply requested_reached| |vm_compute; reflexivity].
  unfold allowed. assert (match ps_run requested with Some (RLock _ None _ _) => Z.of_nat (size (lk_all (all (ps_pool requested)))) <? 2 ^ 64 | _ => false end = true)
    as Hsz by (vm_compute; reflexivity).
  destruct (ps_run requested) as [[ch [r|] dirty ev|]|]; [discriminate Hsz| |discriminate Hsz..].
  split; [|split; [by apply Z.ltb_lt|exact I]]. intros a m Hm. by rewrite lookup_empty in Hm.
Qed.


Lemma resets_follow_the_head_witness : head_path head0 [(head0, left_head)] (ps_head finished).
Proof.
  pose proof (resets_follow_the_head head0 finished finished_reached) as H.
  replace (resets_of (ps_log finished) ++ resets_ahead finished) with [(head0, left_head)] in H by (vm_compute; reflexivity). exact H.
Defined.

Lemma promotions_cover_insertions_witness : exists dirty errs,
  ps_callers finished !! 0%nat = Some (CDone errs (Some 0%nat)) /\ adds 0 (ps_log finished) = [dirty].
Proof.
  assert (exists errs, ps_callers finished !! 0%nat = Some (CDone errs (Some 0%nat))) as [errs E].
  { eexists. vm_compute. reflexivity. }
  destruct (promotions_cover_insertions head0 finished 0 errs 0 finished_reached E) as (dirty & H & _).
  exists dirty, errs. split; [exact E|exact H].
Defined.

End LoopToy.
