(* ===== verification/GoSys.v ===== *)
(** * Paths, hosts and headers

    What the packages [path/filepath], [net] and [strings] of the Go library do
    for the node: lexical operations on paths (of Unix), host names with ports,
    IP addresses, lower case. *)
From stdpp Require Import list.
From Stdlib Require Import ZArith Lia String.
From S2P Require Import Prelude GoString.

Local Open Scope Z_scope.

(** ** Strings *)

Definition is_ascii (s : gostr) : bool := forallb (fun c => c <? 128) s.

(** [strings.ToLower]: the mapping of letters outside ASCII is a parameter. *)
Class GoUnicode : Type := { lower_unicode : gostr -> gostr }.

Definition lower_char (c : Z) : Z := if (65 <=? c) && (c <=? 90) then c + 32 else c.

Definition ToLower `{GoUnicode} (s : gostr) : gostr := if is_ascii s then lower_char <$> s else lower_unicode s.

(** [strings.Contains] and [strings.ContainsAny]. *)
Fixpoint str_contains (s sub : gostr) : bool :=
  has_prefix sub s || match s with [] => false | _ :: s' => str_contains s' sub end.

Definition contains_any (s chars : gostr) : bool := existsb (fun c => bool_decide (c ∈ chars)) s.

(** [strings.IndexByte] *)
Fixpoint index_byte (s : gostr) (c : Z) : option nat :=
  match s with
  | [] => None
  | x :: s' => if x =? c then Some O else S <$> index_byte s' c
  end.

(** [strings.Join] *)
Fixpoint join_str (sep : gostr) (parts : list gostr) : gostr :=
  match parts with
  | [] => []
  | [p] => p
  | p :: parts' => p ++ sep ++ join_str sep parts'
  end.

(** The verb [%d] of an [int]. *)
Definition print_int (z : Z) : gostr := if z <? 0 then 45 :: itoa (- z) else itoa z.

(** ** Paths *)

Definition path_IsAbs (path : gostr) : bool := has_prefix [47] path.

(** [filepath.Base] *)
Definition path_Base (path : gostr) : gostr :=
  if bool_decide (path = []) then lit "."
  else
    let stripped := rev (snd (span (fun c => c =? 47) (rev path))) in
    let name := match last_index 47 stripped with Some i => drop (S i) stripped | None => stripped end in
    if bool_decide (name = []) then lit "/" else name.

(** [filepath.Clean]: the components that remain, the last one first. *)
Fixpoint clean_parts (rooted : bool) (parts out : list gostr) : list gostr :=
  match parts with
  | [] => out
  | p :: parts' =>
      if bool_decide (p = []) || bool_decide (p = lit ".") then clean_parts rooted parts' out
      else if bool_decide (p = lit "..") then
        match out with
        | q :: out' => if bool_decide (q = lit "..") then clean_parts rooted parts' (p :: out) else clean_parts rooted parts' out'
        | [] => clean_parts rooted parts' (if rooted then [] else [p])
        end
      else clean_parts rooted parts' (p :: out)
  end.

Definition path_Clean (path : gostr) : gostr :=
  let rooted := path_IsAbs path in
  let parts := rev (clean_parts rooted (split_at 47 path) []) in
  if rooted then 47 :: join_str [47] parts
  else if bool_decide (parts = []) then lit "." else join_str [47] parts.

(** [filepath.Join] of two elements. *)
Definition path_Join (a b : gostr) : gostr :=
  if bool_decide (a = []) then if bool_decide (b = []) then [] else path_Clean b
  else path_Clean (a ++ 47 :: b).

(** ** Hosts *)

(** [net.SplitHostPort], of which the host is used. *)
Definition SplitHostPort (hostport : gostr) : option gostr :=
  i ← last_index 58 hostport;
  if bool_decide (hostport !! 0%nat = Some 91) then
    end_ ← index_byte hostport 93;
    if bool_decide (S end_ = i) then
      if bool_decide (91 ∈ drop 1 hostport) || bool_decide (93 ∈ drop (S end_) hostport) then None
      else Some (take (end_ - 1) (drop 1 hostport))
    else None
  else
    let host := take i hostport in
    if bool_decide (58 ∈ host) || bool_decide (91 ∈ hostport) || bool_decide (93 ∈ hostport) then None
    else Some host.

(** [dtoi] and [xtoi] of the package: a number below 0xFFFFFF and the rest. *)
Definition hex_value (c : Z) : option Z :=
  if is_digit c then Some (c - 48)
  else if (97 <=? c) && (c <=? 102) then Some (c - 87)
  else if (65 <=? c) && (c <=? 70) then Some (c - 55)
  else None.

Fixpoint scan_number (base : Z) (s : gostr) (n : Z) : option (Z * gostr) :=
  match s with
  | [] => Some (n, [])
  | c :: s' =>
      match hex_value c with
      | Some d => if d <? base then let n' := n * base + d in if 16777215 <=? n' then None else scan_number base s' n'
                  else Some (n, s)
      | None => Some (n, s)
      end
  end.

Definition to_number (base : Z) (s : gostr) : option (Z * gostr) :=
  '(n, rest) ← scan_number base s 0;
  if bool_decide (List.length rest = List.length s) then None else Some (n, rest).

(** The fields of [parseIPv4] that are left. *)
Fixpoint ipv4_fields (fields : nat) (first : bool) (s : gostr) : bool :=
  match fields with
  | O => bool_decide (s = [])
  | S fields' =>
      match (if first then Some s else match s with c :: s' => if c =? 46 then Some s' else None | [] => None end) with
      | Some s => match to_number 10 s with
                  | Some (n, rest) => (n <=? 255) && ipv4_fields fields' false rest
                  | None => false
                  end
      | None => false
      end
  end.

Definition is_ipv4 (s : gostr) : bool := ipv4_fields 4 true s.

(** The loop of [parseIPv6]: [groups] are the groups of 16 bits there is room
    for, [ellipsis] says that an ellipsis came before. *)
Fixpoint ipv6_groups (groups : nat) (ellipsis : bool) (s : gostr) : bool :=
  match groups with
  | O => bool_decide (s = []) && negb ellipsis
  | S groups' =>
      match to_number 16 s with
      | None => false
      | Some (n, rest) =>
          if negb (n <=? 65535) then false
          else if bool_decide (rest !! 0%nat = Some 46) then
            (* an IPv4 address at the end takes two groups *)
            if negb ellipsis && negb (bool_decide (groups = 2%nat)) then false
            else if bool_decide (groups < 2)%nat then false
            else is_ipv4 s && (if bool_decide (groups = 2%nat) then negb ellipsis else ellipsis)
          else
            match rest with
            | [] => if bool_decide (groups' = 0%nat) then negb ellipsis else ellipsis
            | c :: rest' =>
                if negb (c =? 58) || bool_decide (rest' = []) then false
                else match rest' with
                     | 58 :: rest'' =>
                         if ellipsis then false
                         else if bool_decide (rest'' = []) then negb (bool_decide (groups' = 0%nat))
                         else ipv6_groups groups' true rest''
                     | _ => ipv6_groups groups' ellipsis rest'
                     end
            end
      end
  end.

Definition is_ipv6 (s : gostr) : bool :=
  match s with
  | 58 :: 58 :: s' => bool_decide (s' = []) || ipv6_groups 8 true s'
  | _ => ipv6_groups 8 false s
  end.

(** [net.ParseIP], of which it is used whether there is an address. *)
Definition is_ip (s : gostr) : bool :=
  match List.find (fun c => (c =? 46) || (c =? 58)) s with
  | Some c => if c =? 46 then is_ipv4 s else is_ipv6 s
  | None => false
  end.

(** ** What a name can be

    An address has no letters but those of hexadecimal digits. *)
Definition ip_char (c : Z) : bool := match hex_value c with Some _ => true | None => (c =? 46) || (c =? 58) end.

Lemma scan_number_chars base s : forall n n' rest, scan_number base s n = Some (n', rest) ->
  exists pre, s = pre ++ rest /\ Forall (fun c => ip_char c = true) pre.
Proof.
  induction s as [|c s IH]; intros n n' rest; cbn [scan_number]; [intros [= <- <-]; by exists []|].
  destruct (hex_value c) as [d|] eqn:Ec; [|intros [= <- <-]; by exists []].
  destruct (d <? base); [|intros [= <- <-]; by exists []]. cbv zeta.
  destruct (16777215 <=? n * base + d); [done|]. intros E. destruct (IH _ _ _ E) as (pre & -> & Hpre).
  exists (c :: pre). split; [done|]. constructor; [|done]. unfold ip_char. by rewrite Ec.
Qed.

Lemma to_number_chars base s n rest : to_number base s = Some (n, rest) ->
  exists pre, s = pre ++ rest /\ Forall (fun c => ip_char c = true) pre.
Proof.
  unfold to_number. destruct (scan_number base s 0) as [[n' rest']|] eqn:E; [|done]. cbn.
  destruct (bool_decide _); [done|]. intros [= <- <-]. by eapply scan_number_chars.
Qed.

Lemma ipv4_chars fields : forall first s, ipv4_fields fields first s = true -> Forall (fun c => ip_char c = true) s.
Proof.
  induction fields as [|fields IH]; intros first s; cbn [ipv4_fields]; [intros ->%bool_decide_eq_true; by constructor|].
  assert (Hstep : forall s', match to_number 10 s' with Some (n, rest) => (n <=? 255) && ipv4_fields fields false rest | None => false end = true ->
    Forall (fun c => ip_char c = true) s').
  { intros s'. destruct (to_number 10 s') as [[n rest]|] eqn:E; [|done]. intros [_ Hr]%andb_true_iff.
    destruct (to_number_chars _ _ _ _ E) as (pre & -> & Hpre). apply Forall_app. split; [done|by eapply IH]. }
  destruct first; [apply Hstep|]. destruct s as [|c s]; [done|]. destruct (Z.eqb_spec c 46) as [->|]; [|done].
  intros H. constructor; [done|by apply Hstep].
Qed.

Lemma ipv6_chars groups : forall ellipsis s, ipv6_groups groups ellipsis s = true -> Forall (fun c => ip_char c = true) s.
Proof.
  induction groups as [|groups IH]; intros ellipsis s; cbn [ipv6_groups].
  { intros [->%bool_decide_eq_true _]%andb_true_iff. by constructor. }
  destruct (to_number 16 s) as [[n rest]|] eqn:E; [|done]. destruct (negb (n <=? 65535)); [done|].
  destruct (to_number_chars _ _ _ _ E) as (pre & Es & Hpre).
  destruct (bool_decide (rest !! 0%nat = Some 46)).
  { destruct (_ && _); [done|]. destruct (bool_decide _); [done|]. intros [H _]%andb_true_iff. by eapply ipv4_chars. }
  rewrite Es. destruct rest as [|c rest]; [intros _; by rewrite app_nil_r|].
  destruct (negb (c =? 58)) eqn:Ec; [done|]. apply negb_false_iff, Z.eqb_eq in Ec as ->. cbn [orb].
  destruct (bool_decide (rest = [])); [done|]. intros H. apply Forall_app. split; [done|]. constructor; [done|].
  destruct rest as [|c rest]; [by constructor|]. destruct (decide (c = 58)) as [->|Hc].
  - destruct ellipsis; [done|]. constructor; [done|]. destruct (bool_decide (rest = [])) eqn:Er; [|by eapply IH].
    apply bool_decide_eq_true in Er as ->. by constructor.
  - apply (IH ellipsis). by repeat case_match.
Qed.

(** A name with a letter that is no hexadecimal digit is no address. *)
Lemma is_ip_chars s : is_ip s = true -> Forall (fun c => ip_char c = true) s.
Proof.
  unfold is_ip. destruct (List.find _ s) as [c|]; [|done]. destruct (c =? 46); [apply ipv4_chars|].
  unfold is_ipv6. intros H. assert (forall s', s = 58 :: 58 :: s' -> Forall (fun c => ip_char c = true) s) as Hlead.
  { intros s' ->. do 2 (constructor; [done|]). apply orb_true_iff in H as [->%bool_decide_eq_true|H]; [by constructor|by eapply ipv6_chars]. }
  destruct s as [|c1 [|c2 s]]; [by constructor| |].
  - repeat case_match; by eapply ipv6_chars.
  - destruct (decide (c1 = 58)) as [->|]; [destruct (decide (c2 = 58)) as [->|]|].
    + by apply (Hlead s).
    + repeat case_match; simplify_eq; by eapply ipv6_chars.
    + repeat case_match; simplify_eq; by eapply ipv6_chars.
Qed.
