(* ===== verification/NodeConfig.v ===== *)
(** * Configuration of a node

    Models [node/config.go], [node/defaults.go] and [node/errors.go]: where the
    files and end points of a node are.  What the code reads from the process
    (its name, environment, file system) is the class [NodeEnv]; paths are those of
    Unix. *)
From stdpp Require Import gmap list.
From Stdlib Require Import ZArith Lia String.
From S2P Require Import Prelude GoString GoSys.

Local Open Scope Z_scope.

(** ** Errors *)

(** An error of the operating system or of a library. *)
Inductive sys_error : Type := Errno (errno : Z) | SysError (id : Z).

Inductive node_error : Type :=
| ErrDatadirUsed | ErrNodeStopped | ErrNodeRunning
| ErrName (why : Z)                            (* the name of the instance is refused *)
| ErrAlreadyOn (endpoint : gostr)              (* HTTP server already running on *)
| ErrRPCEnabled | ErrWSEnabled
| ErrSys (e : sys_error)
| ErrService (id : Z)                          (* an error of a service *)
| StopError (services : gmap Z Z)              (* by the type of the service *)
| ErrSeveral (errs : list node_error).

Definition datadirInUseErrnos : list Z := [11; 32; 35].

Definition convertFileLockError (err : sys_error) : node_error :=
  match err with
  | Errno errno => if bool_decide (errno ∈ datadirInUseErrnos) then ErrDatadirUsed else ErrSys err
  | SysError _ => ErrSys err
  end.

(** ** The process and its file system *)

Class NodeEnv : Type := {
  env_GOOS : gostr;
  env_GOARCH : gostr;
  env_Version : gostr;
  env_args0 : gostr;                           (* the name of the executable *)
  env_TempDir : gostr;                         (* the directory for temporary files *)
  env_home : gostr;                            (* the home directory, if it is known *)
  env_LocalAppData : gostr;
  env_nonempty_dir : gostr -> bool;
  env_file_exists : gostr -> bool;
  env_Abs : gostr -> gostr + sys_error;        (* [filepath.Abs] *)
  env_MkdirTemp : gostr + sys_error;           (* [ioutil.TempDir] *)
  env_MkdirAll : gostr -> option sys_error;
  env_RemoveAll : gostr -> option sys_error
}.

(** The timeouts of HTTP connections, in nanoseconds. *)
Record HTTPTimeouts : Type := mk_timeouts { ReadTimeout : Z; WriteTimeout : Z; IdleTimeout : Z }.
#[export] Instance HTTPTimeouts_eq : EqDecision HTTPTimeouts.
Proof. solve_decision. Defined.

Definition second : Z := 10 ^ 9.

(** [rpc.DefaultHTTPTimeouts] *)
Definition DefaultHTTPTimeouts : HTTPTimeouts := mk_timeouts (30 * second) (30 * second) (120 * second).

Record Config : Type := mk_Config {
  c_Name : gostr;
  c_UserIdent : gostr;
  c_Version : gostr;
  c_DataDir : gostr;
  c_KeyStoreDir : gostr;
  c_UseLightweightKDF : bool;
  c_InsecureUnlockAllowed : bool;
  c_IPCPath : gostr;
  c_HTTPHost : gostr;
  c_HTTPPort : Z;
  c_HTTPCors : list gostr;
  c_HTTPVirtualHosts : list gostr;
  c_HTTPModules : list gostr;
  c_HTTPTimeouts : HTTPTimeouts;
  c_WSHost : gostr;
  c_WSPort : Z;
  c_WSOrigins : list gostr;
  c_WSModules : list gostr;
  c_WSExposeAll : bool
}.

Definition with_DataDir (dir : gostr) (c : Config) : Config :=
  mk_Config (c_Name c) (c_UserIdent c) (c_Version c) dir (c_KeyStoreDir c) (c_UseLightweightKDF c) (c_InsecureUnlockAllowed c)
    (c_IPCPath c) (c_HTTPHost c) (c_HTTPPort c) (c_HTTPCors c) (c_HTTPVirtualHosts c) (c_HTTPModules c) (c_HTTPTimeouts c)
    (c_WSHost c) (c_WSPort c) (c_WSOrigins c) (c_WSModules c) (c_WSExposeAll c).

Definition empty_config : Config :=
  mk_Config [] [] [] [] [] false false [] [] 0 [] [] [] (mk_timeouts 0 0 0) [] 0 [] [] false.

Definition datadirDefaultKeyStore : gostr := lit "keystore".
Definition datadirNodeDatabase : gostr := lit "nodes".
Definition pipe_prefix : gostr := lit "\\.\pipe\".

Definition DefaultHTTPHost : gostr := lit "localhost".
Definition DefaultHTTPPort : Z := 8545.
Definition DefaultWSHost : gostr := lit "localhost".
Definition DefaultWSPort : Z := 8546.

(** [host:port] *)
Definition host_port (host : gostr) (port : Z) : gostr := host ++ lit ":" ++ print_int port.

Section Config.
Context `{env : !NodeEnv}.

(** ** End points *)

Definition Config_IPCEndpoint (c : Config) : gostr :=
  if bool_decide (c_IPCPath c = []) then []
  else if bool_decide (env_GOOS = lit "windows") then
    if has_prefix pipe_prefix (c_IPCPath c) then c_IPCPath c else pipe_prefix ++ c_IPCPath c
  else if bool_decide (path_Base (c_IPCPath c) = c_IPCPath c) then
    if bool_decide (c_DataDir c = []) then path_Join env_TempDir (c_IPCPath c) else path_Join (c_DataDir c) (c_IPCPath c)
  else c_IPCPath c.

Definition Config_HTTPEndpoint (c : Config) : gostr :=
  if bool_decide (c_HTTPHost c = []) then [] else host_port (c_HTTPHost c) (c_HTTPPort c).

Definition Config_WSEndpoint (c : Config) : gostr :=
  if bool_decide (c_WSHost c = []) then [] else host_port (c_WSHost c) (c_WSPort c).

Definition ExtRPCEnabled (c : Config) : bool := negb (bool_decide (c_HTTPHost c = [])) || negb (bool_decide (c_WSHost c = [])).

(** ** Names; [None] is a panic *)

(** The name of the program without the suffix of an executable. *)
Definition progname : gostr := TrimSuffix (lit ".exe") (path_Base env_args0).

Definition Config_name (c : Config) : option gostr :=
  if bool_decide (c_Name c = []) then if bool_decide (progname = []) then None else Some progname
  else Some (c_Name c).

Definition NodeName (c : Config) : option gostr :=
  name ← Config_name c;
  let name := if bool_decide (name = lit "geth") || bool_decide (name = lit "geth-testnet") then lit "Geth" else name in
  let name := if bool_decide (c_UserIdent c = []) then name else name ++ lit "/" ++ c_UserIdent c in
  let name := if bool_decide (c_Version c = []) then name else name ++ lit "/v" ++ c_Version c in
  Some (name ++ lit "/" ++ env_GOOS ++ lit "-" ++ env_GOARCH ++ lit "/" ++ env_Version).

(** ** Files *)

Definition instanceDir (c : Config) : option gostr :=
  if bool_decide (c_DataDir c = []) then Some [] else name ← Config_name c; Some (path_Join (c_DataDir c) name).

Definition isOldGethResource : list gostr :=
  [lit "chaindata"; lit "nodes"; lit "nodekey"; lit "static-nodes.json"; lit "trusted-nodes.json"].

Definition Config_ResolvePath (c : Config) (path : gostr) : option gostr :=
  if path_IsAbs path then Some path
  else if bool_decide (c_DataDir c = []) then Some []
  else
    let fresh := dir ← instanceDir c; Some (path_Join dir path) in
    if bool_decide (path ∈ isOldGethResource) then
      name ← Config_name c;
      let oldpath := if bool_decide (name = lit "geth") then path_Join (c_DataDir c) path else [] in
      if negb (bool_decide (oldpath = [])) && env_file_exists oldpath then Some oldpath else fresh
    else fresh.

Definition NodeDB (c : Config) : option gostr :=
  if bool_decide (c_DataDir c = []) then Some [] else Config_ResolvePath c datadirNodeDatabase.

(** ** Accounts *)

Definition StandardScryptN : Z := 2 ^ 18.
Definition StandardScryptP : Z := 1.
Definition LightScryptN : Z := 2 ^ 12.
Definition LightScryptP : Z := 6.

Definition AccountConfig (c : Config) : Z * Z * (gostr + sys_error) :=
  let '(scryptN, scryptP) := if c_UseLightweightKDF c then (LightScryptN, LightScryptP) else (StandardScryptN, StandardScryptP) in
  let keydir :=
    if path_IsAbs (c_KeyStoreDir c) then inl (c_KeyStoreDir c)
    else if negb (bool_decide (c_DataDir c = [])) then
      if bool_decide (c_KeyStoreDir c = []) then inl (path_Join (c_DataDir c) datadirDefaultKeyStore)
      else env_Abs (c_KeyStoreDir c)
    else if negb (bool_decide (c_KeyStoreDir c = [])) then env_Abs (c_KeyStoreDir c)
    else inl [] in
  (scryptN, scryptP, keydir).

(** The account manager as the node sees it: the key store it is built on, and
    whether its loop still runs. *)
Record AccountManager : Type := mk_accman {
  am_keydir : gostr; am_scryptN : Z; am_scryptP : Z; am_insecure : bool; am_running : bool
}.

(** The manager and the directory that is removed with the node.  A failure of
    [AccountConfig] comes with an empty directory, as [filepath.Abs] returns. *)
Definition makeAccountManager (c : Config) : (AccountManager * gostr) + sys_error :=
  let '(scryptN, scryptP, dir) := AccountConfig c in
  let keydir := match dir with inl d => d | inr _ => [] end in
  let '(dir, ephemeral) :=
    if bool_decide (keydir = []) then (env_MkdirTemp, match env_MkdirTemp with inl d => d | inr _ => [] end)
    else (dir, []) in
  match dir with
  | inr e => inr e
  | inl keydir =>
      match env_MkdirAll keydir with
      | Some e => inr e
      | None => inl (mk_accman keydir scryptN scryptP (c_InsecureUnlockAllowed c) true, ephemeral)
      end
  end.

(** ** Defaults *)

Definition DefaultDataDir : option gostr :=
  if bool_decide (env_home = []) then Some []
  else if bool_decide (env_GOOS = lit "darwin") then Some (path_Join (path_Join env_home (lit "Library")) (lit "Benzene"))
  else if bool_decide (env_GOOS = lit "windows") then
    let fallback := path_Join (path_Join (path_Join env_home (lit "AppData")) (lit "Roaming")) (lit "Benzene") in
    if bool_decide (env_LocalAppData = []) then None
    else if env_nonempty_dir fallback then Some fallback
    else Some (path_Join env_LocalAppData (lit "Benzene"))
  else Some (path_Join env_home (lit ".benzene")).

Definition DefaultIPCEndpoint (clientIdentifier : gostr) : option gostr :=
  let clientIdentifier := if bool_decide (clientIdentifier = []) then progname else clientIdentifier in
  if bool_decide (clientIdentifier = []) then None
  else
    dir ← DefaultDataDir;
    Some (Config_IPCEndpoint
      (mk_Config [] [] [] dir [] false false (clientIdentifier ++ lit ".ipc") [] 0 [] [] [] (mk_timeouts 0 0 0) [] 0 [] [] false)).

End Config.
