(* ===== verification/RpcStack.v ===== *)
(** * The RPC servers of a node

    Models [node/rpcstack.go] and [node/endpoints.go]: the HTTP server that
    serves JSON-RPC and WebSocket connections, the server of the local socket,
    the checks a request passes, and the choice of the interfaces a server
    offers.  Interface servers and listeners are objects of the process ([sys]);
    what the network and the RPC library answer is the class [NetEnv]. *)
From stdpp Require Import gmap list.
From Stdlib Require Import ZArith Lia String.
From S2P Require Import Prelude GoString GoSys NodeConfig.

Local Open Scope Z_scope.

(** ** The process *)

(** An interface of a service, and a server with the interfaces it offers. *)
Record API : Type := mk_API { api_Namespace : gostr; api_Service : Z; api_Public : bool }.
Record rpcServer : Type := mk_rpcServer { srv_apis : list (gostr * Z); srv_running : bool }.

(** What happens in a run, in order. *)
Inductive event : Type :=
| EvListen (l : nat) | EvUnlisten (l : nat)    (* a listener is opened, closed *)
| EvStopRPC                                    (* the end of [stopRPC] *)
| EvStart (lc : Z) | EvFail (lc : Z)           (* a service starts, or fails to *)
| EvStop (lc : Z)                              (* a service is stopped *)
| EvRelease.                                   (* the end of [doClose] *)

(** Servers and databases are numbered in the order of their creation; a
    database has the number of times it was closed. *)
Record sys : Type := mk_sys {
  sy_servers : list rpcServer;
  sy_open : gset nat;                          (* open listeners *)
  sy_next : nat;                               (* the number of the next one *)
  sy_dbs : list nat;
  sy_locks : gset gostr;                       (* locked files *)
  sy_dirs : gset gostr;                        (* temporary directories *)
  sy_log : list event
}.

Definition set_servers (v : list rpcServer) (s : sys) : sys :=
  mk_sys v (sy_open s) (sy_next s) (sy_dbs s) (sy_locks s) (sy_dirs s) (sy_log s).
Definition set_dbs (v : list nat) (s : sys) : sys :=
  mk_sys (sy_servers s) (sy_open s) (sy_next s) v (sy_locks s) (sy_dirs s) (sy_log s).
Definition set_locks (v : gset gostr) (s : sys) : sys :=
  mk_sys (sy_servers s) (sy_open s) (sy_next s) (sy_dbs s) v (sy_dirs s) (sy_log s).
Definition set_dirs (v : gset gostr) (s : sys) : sys :=
  mk_sys (sy_servers s) (sy_open s) (sy_next s) (sy_dbs s) (sy_locks s) v (sy_log s).
Definition log_event (e : event) (s : sys) : sys :=
  mk_sys (sy_servers s) (sy_open s) (sy_next s) (sy_dbs s) (sy_locks s) (sy_dirs s) (sy_log s ++ [e]).

Definition open_listener (s : sys) : sys :=
  mk_sys (sy_servers s) ({[sy_next s]} ∪ sy_open s) (S (sy_next s)) (sy_dbs s) (sy_locks s) (sy_dirs s)
    (sy_log s ++ [EvListen (sy_next s)]).
Definition close_listener (l : nat) (s : sys) : sys :=
  mk_sys (sy_servers s) (sy_open s ∖ {[l]}) (sy_next s) (sy_dbs s) (sy_locks s) (sy_dirs s)
    (sy_log s ++ [EvUnlisten l]).

(** [rpc.NewServer] and [Stop]. *)
Definition new_server (apis : list (gostr * Z)) (s : sys) : sys := set_servers (sy_servers s ++ [mk_rpcServer apis true]) s.
Definition stop_server (i : nat) (s : sys) : sys :=
  set_servers (alter (fun srv => mk_rpcServer (srv_apis srv) false) i (sy_servers s)) s.

Class NetEnv : Type := {
  net_Listen : nat -> gostr -> gostr + sys_error;            (* the address that is bound; the number is that of the listener *)
  rpc_RegisterName : gostr -> Z -> option sys_error;         (* [rpc.Server.RegisterName] *)
  rpc_StartIPC : nat -> gostr -> list API -> option sys_error;   (* [rpc.StartIPCEndpoint] *)
  ipc_Close : nat -> option sys_error
}.

(** ** The checks of a request *)

Record httpConfig : Type := mk_httpConfig { hc_Modules : list gostr; hc_Cors : list gostr; hc_Vhosts : list gostr }.
Record wsConfig : Type := mk_wsConfig { wc_Origins : list gostr; wc_Modules : list gostr }.

Record request : Type := mk_request {
  r_RequestURI : gostr; r_Host : gostr; r_Upgrade : gostr; r_Connection : gostr; r_AcceptEncoding : gostr
}.

(** A reply that is compressed or not; origins are checked by the package
    [cors], unless the list is empty. *)
Inductive reply : Type :=
| ToRPC (gzip : bool) (cors : list gostr) (server : nat)
| ToWS (origins : list gostr) (server : nat)
| ToMux
| Forbidden (gzip : bool)
| NotFound.

(** What wraps a server: the stack of HTTP handlers, or the handler of
    WebSocket connections. *)
Inductive handler : Type := HTTPStack (cors : list gostr) (vhosts : gset gostr) | WSHandler (origins : list gostr).
Record rpcHandler : Type := mk_rpcHandler { rh_handler : handler; rh_server : nat }.

Section Requests.
Context `{!GoUnicode}.

Definition isWebsocket (r : request) : bool :=
  bool_decide (ToLower (r_Upgrade r) = lit "websocket") && str_contains (ToLower (r_Connection r)) (lit "upgrade").

Definition newVHostHandler (vhosts : list gostr) : gset gostr := list_to_set (ToLower <$> vhosts).

(** Whether a request is passed on by [virtualHostHandler.ServeHTTP]. *)
Definition vhost_ServeHTTP (vhosts : gset gostr) (r : request) : bool :=
  if bool_decide (r_Host r = []) then true
  else
    let host := default (r_Host r) (SplitHostPort (r_Host r)) in
    if is_ip host then true
    else if bool_decide (lit "*" ∈ vhosts) then true
    else bool_decide (host ∈ vhosts).

Definition NewHTTPHandlerStack (cors vhosts : list gostr) : handler := HTTPStack cors (newVHostHandler vhosts).

(** The reply is compressed when the client accepts it. *)
Definition gzip_accepted (r : request) : bool := str_contains (r_AcceptEncoding r) (lit "gzip").

Definition handler_ServeHTTP (h : rpcHandler) (r : request) : reply :=
  match rh_handler h with
  | HTTPStack cors vhosts => if vhost_ServeHTTP vhosts r then ToRPC (gzip_accepted r) cors (rh_server h) else Forbidden (gzip_accepted r)
  | WSHandler origins => ToWS origins (rh_server h)
  end.

End Requests.

(** ** The HTTP server *)

Record httpServer : Type := mk_httpServer {
  hs_timeouts : HTTPTimeouts;
  hs_mux : gmap gostr Z;                       (* registered handlers *)
  hs_server : option HTTPTimeouts;             (* the running [http.Server] *)
  hs_listener : option (nat * gostr);          (* and its listener *)
  hs_httpConfig : httpConfig;
  hs_httpHandler : option rpcHandler;
  hs_wsConfig : wsConfig;
  hs_wsHandler : option rpcHandler;
  hs_endpoint : gostr;
  hs_host : gostr;
  hs_port : Z;
  hs_handlerNames : gmap gostr gostr
}.

Definition set_addr (endpoint host : gostr) (port : Z) (h : httpServer) : httpServer :=
  mk_httpServer (hs_timeouts h) (hs_mux h) (hs_server h) (hs_listener h) (hs_httpConfig h) (hs_httpHandler h) (hs_wsConfig h)
    (hs_wsHandler h) endpoint host port (hs_handlerNames h).
Definition set_server (timeouts : HTTPTimeouts) (server : option HTTPTimeouts) (listener : option (nat * gostr)) (h : httpServer) : httpServer :=
  mk_httpServer timeouts (hs_mux h) server listener (hs_httpConfig h) (hs_httpHandler h) (hs_wsConfig h) (hs_wsHandler h)
    (hs_endpoint h) (hs_host h) (hs_port h) (hs_handlerNames h).
Definition set_http (config : httpConfig) (handler : option rpcHandler) (h : httpServer) : httpServer :=
  mk_httpServer (hs_timeouts h) (hs_mux h) (hs_server h) (hs_listener h) config handler (hs_wsConfig h) (hs_wsHandler h)
    (hs_endpoint h) (hs_host h) (hs_port h) (hs_handlerNames h).
Definition set_ws (config : wsConfig) (handler : option rpcHandler) (h : httpServer) : httpServer :=
  mk_httpServer (hs_timeouts h) (hs_mux h) (hs_server h) (hs_listener h) (hs_httpConfig h) (hs_httpHandler h) config handler
    (hs_endpoint h) (hs_host h) (hs_port h) (hs_handlerNames h).
Definition set_mux (mux : gmap gostr Z) (names : gmap gostr gostr) (h : httpServer) : httpServer :=
  mk_httpServer (hs_timeouts h) mux (hs_server h) (hs_listener h) (hs_httpConfig h) (hs_httpHandler h) (hs_wsConfig h)
    (hs_wsHandler h) (hs_endpoint h) (hs_host h) (hs_port h) names.

Definition newHTTPServer (timeouts : HTTPTimeouts) : httpServer :=
  mk_httpServer timeouts ∅ None None (mk_httpConfig [] [] []) None (mk_wsConfig [] []) None [] [] 0 ∅.

(** A method of a server runs on the server and the process. *)
Definition hstate : Type := httpServer * sys.

Definition on_h (f : httpServer -> httpServer) : M hstate () := mmodify (fun hs => (f (fst hs), snd hs)).
Definition on_sys (f : sys -> sys) : M hstate () := mmodify (fun hs => (fst hs, f (snd hs))).

(** Timeouts below a second are replaced. *)
Definition CheckTimeouts (t : HTTPTimeouts) : HTTPTimeouts :=
  mk_timeouts
    (if ReadTimeout t <? second then ReadTimeout DefaultHTTPTimeouts else ReadTimeout t)
    (if WriteTimeout t <? second then WriteTimeout DefaultHTTPTimeouts else WriteTimeout t)
    (if IdleTimeout t <? second then IdleTimeout DefaultHTTPTimeouts else IdleTimeout t).

Definition rpcAllowed (h : httpServer) : bool := bool_decide (is_Some (hs_httpHandler h)).
Definition wsAllowed (h : httpServer) : bool := bool_decide (is_Some (hs_wsHandler h)).

Definition setListenAddr (host : gostr) (port : Z) : M hstate (option node_error) :=
  '(h, _) ← mget;
  if bool_decide (is_Some (hs_listener h)) && (negb (bool_decide (host = hs_host h)) || negb (port =? hs_port h)) then
    mret (Some (ErrAlreadyOn (hs_endpoint h)))
  else
    on_h (set_addr (host_port host port) host port);;
    mret None.

Definition listenAddr (h : httpServer) : gostr :=
  match hs_listener h with Some (_, addr) => addr | None => hs_endpoint h end.

(** The handlers are disabled before their servers are stopped. *)
Definition disableRPC : M hstate bool :=
  '(h, _) ← mget;
  match hs_httpHandler h with
  | Some handler => on_h (set_http (hs_httpConfig h) None);; on_sys (stop_server (rh_server handler));; mret true
  | None => mret false
  end.

Definition disableWS : M hstate bool :=
  '(h, _) ← mget;
  match hs_wsHandler h with
  | Some ws => on_h (set_ws (hs_wsConfig h) None);; on_sys (stop_server (rh_server ws));; mret true
  | None => mret false
  end.

Definition doStop : M hstate () :=
  '(h, _) ← mget;
  match hs_listener h with
  | None => mret tt
  | Some (l, _) =>
      let httpHandler := hs_httpHandler h in
      let wsHandler := hs_httpHandler h in
      (match httpHandler with
       | Some handler => on_h (set_http (hs_httpConfig h) None);; on_sys (stop_server (rh_server handler))
       | None => mret tt
       end);;
      (match wsHandler with
       | Some handler => on_h (set_ws (hs_wsConfig h) None);; on_sys (stop_server (rh_server handler))
       | None => mret tt
       end);;
      on_sys (close_listener l);;
      on_h (set_addr [] [] 0);;
      on_h (set_server (hs_timeouts h) None None)
  end.

Definition stop : M hstate () := doStop.

Definition stopWS : M hstate () :=
  disabled ← disableWS;
  if disabled : bool then
    '(h, _) ← mget;
    if negb (rpcAllowed h) then doStop else mret tt
  else mret tt.

(** Modules that no service offers; only reported. *)
Definition checkModuleAvailability (modules : list gostr) (apis : list API) : list gostr :=
  filter (fun name => name ∉ (api_Namespace <$> apis) /\ name <> lit "rpc") modules.

Section Servers.
Context `{!NetEnv, !GoUnicode}.

Definition start : M hstate (option node_error) :=
  '(h, s) ← mget;
  if bool_decide (hs_endpoint h = []) || bool_decide (is_Some (hs_listener h)) then mret None
  else
    let timeouts := if decide (hs_timeouts h = mk_timeouts 0 0 0) then hs_timeouts h else CheckTimeouts (hs_timeouts h) in
    on_h (set_server timeouts (Some timeouts) None);;
    match net_Listen (sy_next s) (hs_endpoint h) with
    | inr err => disableRPC;; disableWS;; mret (Some (ErrSys err))
    | inl addr => on_sys open_listener;; on_h (set_server timeouts (Some timeouts) (Some (sy_next s, addr)));; mret None
    end.

Definition ServeHTTP (h : httpServer) (r : request) : reply :=
  let rpc := hs_httpHandler h in
  if bool_decide (r_RequestURI r = lit "/") then
    match hs_wsHandler h with
    | Some ws => if isWebsocket r then handler_ServeHTTP ws r
                 else match rpc with Some rpc => handler_ServeHTTP rpc r | None => NotFound end
    | None => match rpc with Some rpc => handler_ServeHTTP rpc r | None => NotFound end
    end
  else match rpc with Some _ => ToMux | None => NotFound end.

(** ** Choosing interfaces *)

(** Registers the interfaces one after the other, up to the first failure. *)
Fixpoint register_all (apis : list API) (srv : list (gostr * Z)) : list (gostr * Z) * option sys_error :=
  match apis with
  | [] => (srv, None)
  | api :: apis' =>
      match rpc_RegisterName (api_Namespace api) (api_Service api) with
      | Some err => (srv, Some err)
      | None => register_all apis' (srv ++ [(api_Namespace api, api_Service api)])
      end
  end.

Definition exposed (modules : list gostr) (exposeAll : bool) (api : API) : bool :=
  exposeAll || bool_decide (api_Namespace api ∈ modules) || (bool_decide (modules = []) && api_Public api).

Definition RegisterApisFromWhitelist (apis : list API) (modules : list gostr) (exposeAll : bool) : list (gostr * Z) * option sys_error :=
  register_all (filter (fun api => exposed modules exposeAll api = true) apis) [].

Definition enableRPC (apis : list API) (config : httpConfig) : M hstate (option node_error) :=
  '(h, s) ← mget;
  if rpcAllowed h then mret (Some ErrRPCEnabled)
  else
    let '(srv, err) := RegisterApisFromWhitelist apis (hc_Modules config) false in
    on_sys (new_server srv);;
    match err with
    | Some err => mret (Some (ErrSys err))
    | None =>
        let handler := NewHTTPHandlerStack (hc_Cors config) (hc_Vhosts config) in
        on_h (set_http config (Some (mk_rpcHandler handler (List.length (sy_servers s)))));;
        mret None
    end.

Definition enableWS (apis : list API) (config : wsConfig) : M hstate (option node_error) :=
  '(h, s) ← mget;
  if wsAllowed h then mret (Some ErrWSEnabled)
  else
    let '(srv, err) := RegisterApisFromWhitelist apis (wc_Modules config) false in
    on_sys (new_server srv);;
    match err with
    | Some err => mret (Some (ErrSys err))
    | None =>
        on_h (set_ws config (Some (mk_rpcHandler (WSHandler (wc_Origins config)) (List.length (sy_servers s)))));;
        mret None
    end.

(** ** The local socket *)

Record ipcServer : Type := mk_ipcServer { ipc_endpoint : gostr; ipc_listener : option nat; ipc_srv : option nat }.

Definition newIPCServer (endpoint : gostr) : ipcServer := mk_ipcServer endpoint None None.

Definition ipc_start (apis : list API) : M (ipcServer * sys) (option node_error) :=
  '(ipcs, s) ← mget;
  match ipc_listener ipcs with
  | Some _ => mret None
  | None =>
      match rpc_StartIPC (sy_next s) (ipc_endpoint ipcs) apis with
      | Some err => mret (Some (ErrSys err))
      | None =>
          let srv := (fun api => (api_Namespace api, api_Service api)) <$> apis in
          mput (mk_ipcServer (ipc_endpoint ipcs) (Some (sy_next s)) (Some (List.length (sy_servers s))),
                open_listener (new_server srv s));;
          mret None
      end
  end.

Definition ipc_stop : M (ipcServer * sys) (option node_error) :=
  '(ipcs, s) ← mget;
  match ipc_listener ipcs, ipc_srv ipcs with
  | Some l, Some srv =>
      mput (mk_ipcServer (ipc_endpoint ipcs) None None, stop_server srv (close_listener l s));;
      mret (ErrSys <$> ipc_Close l)
  | Some _, None => mpanic
  | None, _ => mret None
  end.

End Servers.
