(* ===== verification/Node.v ===== *)
(** * The life of a node

    Models [node/node.go] and [node/api.go]: the object that owns the data
    directory, the databases, the account manager, the RPC servers and the
    services of a process.  [Start] and [Close] hold a lock of their own for
    their whole length but release the lock of the node in between, so they are
    sequences of steps between which other calls run: [advance] is one such
    step, and a run of the node is a list of labels. *)
From stdpp Require Import gmap list.
From Stdlib Require Import ZArith Lia String.
From S2P Require Import Prelude GoString GoSys NodeConfig RpcStack.

Local Open Scope Z_scope.

Inductive node_state : Type := initializingState | runningState | closedState.
#[export] Instance node_state_eq : EqDecision node_state.
Proof. solve_decision. Defined.

(** Services are numbers; a lock on the data directory is the locked file. *)
Record Node : Type := mk_Node {
  n_config : Config;
  n_accman : AccountManager;
  n_ephemKeystore : gostr;
  n_dirLock : option gostr;
  n_stop : bool;                               (* the channel is closed *)
  n_state : node_state;
  n_lifecycles : list Z;
  n_rpcAPIs : list API;
  n_http : httpServer;
  n_ws : httpServer;
  n_ipc : ipcServer;
  n_inprocHandler : nat;
  n_databases : gset nat
}.

Definition set_owner (accman : AccountManager) (dirLock : option gostr) (stop : bool) (n : Node) : Node :=
  mk_Node (n_config n) accman (n_ephemKeystore n) dirLock stop (n_state n) (n_lifecycles n) (n_rpcAPIs n) (n_http n) (n_ws n)
    (n_ipc n) (n_inprocHandler n) (n_databases n).
Definition set_state (st : node_state) (n : Node) : Node :=
  mk_Node (n_config n) (n_accman n) (n_ephemKeystore n) (n_dirLock n) (n_stop n) st (n_lifecycles n) (n_rpcAPIs n) (n_http n)
    (n_ws n) (n_ipc n) (n_inprocHandler n) (n_databases n).
Definition set_registered (lcs : list Z) (apis : list API) (n : Node) : Node :=
  mk_Node (n_config n) (n_accman n) (n_ephemKeystore n) (n_dirLock n) (n_stop n) (n_state n) lcs apis (n_http n)
    (n_ws n) (n_ipc n) (n_inprocHandler n) (n_databases n).
Definition set_rpc (http ws : httpServer) (ipc : ipcServer) (n : Node) : Node :=
  mk_Node (n_config n) (n_accman n) (n_ephemKeystore n) (n_dirLock n) (n_stop n) (n_state n) (n_lifecycles n) (n_rpcAPIs n) http
    ws ipc (n_inprocHandler n) (n_databases n).
Definition set_databases (dbs : gset nat) (n : Node) : Node :=
  mk_Node (n_config n) (n_accman n) (n_ephemKeystore n) (n_dirLock n) (n_stop n) (n_state n) (n_lifecycles n) (n_rpcAPIs n) (n_http n)
    (n_ws n) (n_ipc n) (n_inprocHandler n) dbs.

Definition nsys : Type := Node * sys.

(** What locks, databases and services answer.  A service is started and
    stopped at most once, so its answers do not depend on the call. *)
Class NodeLib : Type := {
  os_Flock : gostr -> option sys_error;                      (* a lock held by another process *)
  os_Release : gostr -> option sys_error;
  leveldb_Open : nat -> gostr -> option sys_error;
  db_Close : nat -> nat -> option sys_error;                 (* the answer of a database to its closing by number *)
  lc_Start : Z -> option Z;
  lc_Stop : Z -> option Z;
  lc_type : Z -> Z
}.

Definition on_node (f : Node -> Node) : M nsys () := mmodify (fun ns => (f (fst ns), snd ns)).
Definition on_world (f : sys -> sys) : M nsys () := mmodify (fun ns => (fst ns, f (snd ns))).

(** The two HTTP servers of a node. *)
Inductive which : Type := HTTP | WS.
Definition the_server (w : which) (n : Node) : httpServer := match w with HTTP => n_http n | WS => n_ws n end.

Definition on_server {A} (w : which) (m : M hstate A) : M nsys A := fun '(n, s) =>
  match m (the_server w n, s) with
  | Some (x, (h, s')) =>
      Some (x, (match w with HTTP => set_rpc h (n_ws n) (n_ipc n) n | WS => set_rpc (n_http n) h (n_ipc n) n end, s'))
  | None => None
  end.

Definition on_ipc {A} (m : M (ipcServer * sys) A) : M nsys A := fun '(n, s) =>
  match m (n_ipc n, s) with
  | Some (x, (i, s')) => Some (x, (set_rpc (n_http n) (n_ws n) i n, s'))
  | None => None
  end.

(** [if err := m; err != nil { return err }; k] *)
Definition try_then {S} (m k : M S (option node_error)) : M S (option node_error) :=
  err ← m; match err with Some e => mret (Some e) | None => k end.

Section Node.
Context `{env : !NodeEnv} `{net : !NetEnv} `{uni : !GoUnicode} `{lib : !NodeLib} {order : RangeOrder}.

(** ** Opening *)

Definition openDataDir (c : Config) : M sys (option gostr + node_error) :=
  if bool_decide (c_DataDir c = []) then mret (inl None)
  else
    name ← mlift (Config_name c);
    let instdir := path_Join (c_DataDir c) name in
    match env_MkdirAll instdir with
    | Some err => mret (inr (ErrSys err))
    | None =>
        let file := path_Join instdir (lit "LOCK") in
        s ← mget;
        match (if bool_decide (file ∈ sy_locks s) then Some (Errno 11) else os_Flock file) with
        | Some err => mret (inr (convertFileLockError err))
        | None => mmodify (set_locks ({[file]} ∪ sy_locks s));; mret (inl (Some file))
        end
    end.

(** The interface that every node offers. *)
Definition admin_api : API := mk_API (lit "admin") 0 false.

Definition New (conf : Config) : M sys (Node + node_error) :=
  match (if bool_decide (c_DataDir conf = []) then inl conf
         else match env_Abs (c_DataDir conf) with inl dir => inl (with_DataDir dir conf) | inr err => inr err end) with
  | inr err => mret (inr (ErrSys err))
  | inl conf =>
      if contains_any (c_Name conf) (lit "/\") then mret (inr (ErrName 0))
      else if bool_decide (c_Name conf = datadirDefaultKeyStore) then mret (inr (ErrName 1))
      else if has_suffix (lit ".ipc") (c_Name conf) then mret (inr (ErrName 2))
      else
        s ← mget;
        let inproc := List.length (sy_servers s) in
        mmodify (new_server []);;
        lock ← openDataDir conf;
        match lock with
        | inr err => mret (inr err)
        | inl lock =>
            match makeAccountManager conf with
            | inr err => mret (inr (ErrSys err))
            | inl (am, ephemeral) =>
                (if bool_decide (ephemeral = []) then mret tt else mmodify (fun s => set_dirs ({[ephemeral]} ∪ sy_dirs s) s));;
                mret (inl (mk_Node conf am ephemeral lock false initializingState [] [admin_api]
                  (newHTTPServer (c_HTTPTimeouts conf)) (newHTTPServer DefaultHTTPTimeouts) (newIPCServer (Config_IPCEndpoint conf))
                  inproc ∅))
            end
        end
  end.

(** ** The RPC servers *)

Definition startInProc : M nsys (option node_error) :=
  '(n, s) ← mget;
  let '(added, err) := register_all (n_rpcAPIs n) [] in
  on_world (fun s => set_servers (alter (fun srv => mk_rpcServer (srv_apis srv ++ added) (srv_running srv)) (n_inprocHandler n) (sy_servers s)) s);;
  mret (ErrSys <$> err).

Definition wsServerForPort (port : Z) (n : Node) : which :=
  if bool_decide (c_HTTPHost (n_config n) = []) || (hs_port (n_http n) =? port) then HTTP else WS.

Definition startRPC : M nsys (option node_error) :=
  '(n, _) ← mget;
  let c := n_config n in
  try_then startInProc
  (try_then (if bool_decide (ipc_endpoint (n_ipc n) = []) then mret None else on_ipc (ipc_start (n_rpcAPIs n)))
  (try_then
    (if bool_decide (c_HTTPHost c = []) then mret None
     else
       let config := mk_httpConfig (c_HTTPModules c) (c_HTTPCors c) (c_HTTPVirtualHosts c) in
       try_then (on_server HTTP (setListenAddr (c_HTTPHost c) (c_HTTPPort c)))
                (on_server HTTP (enableRPC (n_rpcAPIs n) config)))
  (try_then
    (if bool_decide (c_WSHost c = []) then mret None
     else
       '(n, _) ← mget;
       let server := wsServerForPort (c_WSPort c) n in
       let config := mk_wsConfig (c_WSOrigins c) (c_WSModules c) in
       try_then (on_server server (setListenAddr (c_WSHost c) (c_WSPort c)))
                (on_server server (enableWS (n_rpcAPIs n) config)))
  (try_then (on_server HTTP start)
  (on_server WS start))))).

Definition stopInProc : M nsys () := '(n, _) ← mget; on_world (stop_server (n_inprocHandler n)).

Definition stopRPC : M nsys () :=
  on_server HTTP stop;;
  on_server WS stop;;
  on_ipc ipc_stop;;
  stopInProc;;
  on_world (log_event EvStopRPC).

Definition startNetworking : M nsys (option node_error) :=
  err ← startRPC;
  match err with
  | Some e => stopRPC;; mret (Some e)
  | None => mret None
  end.

(** ** Starting and closing, step by step *)

(** The caller that waits: [Start] with its error, or [Close]. *)
Inductive caller : Type := InStart (e : node_error) | InClose.

Inductive pc : Type :=
| Starting (todo started : list Z)             (* the loop over the services *)
| StoppingRPC (running : list Z) (k : caller)  (* [stopServices] *)
| Stopping (todo : list Z) (failure : gmap Z Z) (k : caller)
| Closing (errs : list node_error) (k : caller)    (* [doClose], with the lock *)
| Releasing (errs : list node_error) (k : caller)  (* and without it *)
| Returned (r : option node_error).

(** [Start] up to the release of the lock. *)
Definition Start_enter : M nsys pc :=
  '(n, _) ← mget;
  match n_state n with
  | runningState => mret (Returned (Some ErrNodeRunning))
  | closedState => mret (Returned (Some ErrNodeStopped))
  | initializingState =>
      on_node (set_state runningState);;
      err ← startNetworking;
      match err with
      | Some e => mret (Closing [] (InStart e))
      | None => mret (Starting (n_lifecycles n) [])
      end
  end.

Definition Close_enter : M nsys pc :=
  '(n, _) ← mget;
  match n_state n with
  | initializingState => mret (Closing [] InClose)
  | runningState => mret (StoppingRPC (n_lifecycles n) InClose)
  | closedState => mret (Returned (Some ErrNodeStopped))
  end.

(** The service that is next in the loop of [Start]. *)
Definition start_next (todo started : list Z) : M nsys pc :=
  match todo with
  | [] => mret (Returned None)
  | lc :: todo' =>
      match lc_Start lc with
      | Some e => on_world (log_event (EvFail lc));; mret (StoppingRPC started (InStart (ErrService e)))
      | None => on_world (log_event (EvStart lc));; mret (Starting todo' (started ++ [lc]))
      end
  end.

(** The service that is next in the loop of [stopServices]. *)
Definition stop_next (todo : list Z) (failure : gmap Z Z) (k : caller) : M nsys pc :=
  match todo with
  | [] =>
      let errs := if bool_decide (failure = ∅) then [] else [StopError failure] in
      mret (Closing (match k with InClose => errs | InStart _ => [] end) k)
  | lc :: todo' =>
      on_world (log_event (EvStop lc));;
      mret (Stopping todo' (match lc_Stop lc with Some e => <[lc_type lc := e]> failure | None => failure end) k)
  end.

Definition db_range (dbs : gset nat) : list nat := fst <$> map_range (gset_to_gmap () dbs).

Definition close_db (db : nat) (s : sys) : sys := set_dbs (alter S db (sy_dbs s)) s.

Definition closeDatabases : M nsys (list node_error) :=
  '(n, s) ← mget;
  let dbs := db_range (n_databases n) in
  on_node (set_databases ∅);;
  on_world (fun s => foldl (fun s db => close_db db s) s dbs);;
  mret (omap (fun db => ErrSys <$> db_Close db (default O (sy_dbs s !! db))) dbs).

Definition doClose_locked (errs : list node_error) (k : caller) : M nsys pc :=
  on_node (set_state closedState);;
  dberrs ← closeDatabases;
  mret (Releasing (errs ++ dberrs) k).

(** [accounts.Manager.Close] hands a channel to the loop of the manager, and
    waits for ever when it has ended. *)
Definition accman_Close : M nsys () :=
  '(n, _) ← mget;
  let am := n_accman n in
  if am_running am then
    on_node (set_owner (mk_accman (am_keydir am) (am_scryptN am) (am_scryptP am) (am_insecure am) false) (n_dirLock n) (n_stop n))
  else mpanic.

Definition closeDataDir : M nsys () :=
  '(n, _) ← mget;
  match n_dirLock n with
  | None => mret tt
  | Some file =>
      (match os_Release file with Some _ => mret tt | None => on_world (fun s => set_locks (sy_locks s ∖ {[file]}) s) end);;
      on_node (set_owner (n_accman n) None (n_stop n))
  end.

(** Closing a closed channel panics. *)
Definition close_stop : M nsys () :=
  '(n, _) ← mget;
  if n_stop n then mpanic else on_node (set_owner (n_accman n) (n_dirLock n) true).

Definition doClose_result (errs : list node_error) : option node_error :=
  match errs with [] => None | [e] => Some e | _ => Some (ErrSeveral errs) end.

Definition doClose_release (errs : list node_error) (k : caller) : M nsys pc :=
  accman_Close;;
  '(n, _) ← mget;
  let ephem := n_ephemKeystore n in
  let failed := if bool_decide (ephem = []) then None else env_RemoveAll ephem in
  (if bool_decide (ephem = []) || bool_decide (is_Some failed) then mret tt
   else on_world (fun s => set_dirs (sy_dirs s ∖ {[ephem]}) s));;
  closeDataDir;;
  close_stop;;
  on_world (log_event EvRelease);;
  let errs := errs ++ match failed with Some e => [ErrSys e] | None => [] end in
  mret (Returned (match k with InStart e => Some e | InClose => doClose_result errs end)).

Definition advance (p : pc) : M nsys pc :=
  match p with
  | Starting todo started => start_next todo started
  | StoppingRPC running k => stopRPC;; mret (Stopping (rev running) ∅ k)
  | Stopping todo failure k => stop_next todo failure k
  | Closing errs k => doClose_locked errs k
  | Releasing errs k => doClose_release errs k
  | Returned r => mret (Returned r)
  end.

(** The steps that are left at most. *)
Definition pc_measure (p : pc) : nat :=
  match p with
  | Starting todo started => 2 * List.length todo + List.length started + 5
  | StoppingRPC running _ => List.length running + 4
  | Stopping todo _ _ => List.length todo + 3
  | Closing _ _ => 2
  | Releasing _ _ => 1
  | Returned _ => 0
  end.

(** The steps without other calls in between. *)
Fixpoint finish (fuel : nat) (p : pc) : M nsys (option node_error) :=
  match p, fuel with
  | Returned r, _ => mret r
  | _, S fuel' => p' ← advance p; finish fuel' p'
  | _, O => mpanic
  end.

Definition Start : M nsys (option node_error) := p ← Start_enter; finish (pc_measure p) p.
Definition Close : M nsys (option node_error) := p ← Close_enter; finish (pc_measure p) p.

(** ** Other calls *)

Definition containsLifecycle (lfs : list Z) (l : Z) : bool := existsb (fun obj => obj =? l) lfs.

Definition RegisterLifecycle (lc : Z) : M nsys () :=
  '(n, _) ← mget;
  if negb (bool_decide (n_state n = initializingState)) then mpanic
  else if containsLifecycle (n_lifecycles n) lc then mpanic
  else on_node (set_registered (n_lifecycles n ++ [lc]) (n_rpcAPIs n)).

Definition RegisterAPIs (apis : list API) : M nsys () :=
  '(n, _) ← mget;
  if negb (bool_decide (n_state n = initializingState)) then mpanic
  else on_node (set_registered (n_lifecycles n) (n_rpcAPIs n ++ apis)).

(** [http.ServeMux.Handle] panics on an empty or a known pattern. *)
Definition RegisterHandler (name path : gostr) (handler : Z) : M nsys () :=
  '(n, _) ← mget;
  let h := n_http n in
  if negb (bool_decide (n_state n = initializingState)) then mpanic
  else if bool_decide (path = []) || bool_decide (is_Some (hs_mux h !! path)) then mpanic
  else on_node (set_rpc (set_mux (<[path := handler]> (hs_mux h)) (<[path := name]> (hs_handlerNames h)) h) (n_ws n) (n_ipc n)).

Definition RPCHandler (n : Node) : nat + node_error :=
  if bool_decide (n_state n = closedState) then inr ErrNodeStopped else inl (n_inprocHandler n).

Definition HTTPEndpoint (n : Node) : gostr := lit "http://" ++ listenAddr (n_http n).
Definition WSEndpoint (n : Node) : gostr :=
  if wsAllowed (n_http n) then lit "ws://" ++ listenAddr (n_http n) else lit "ws://" ++ listenAddr (n_ws n).

(** A new database is wrapped and entered in the table. *)
Definition OpenDatabase (shardid : Z) (name : gostr) : M nsys (nat + node_error) :=
  '(n, s) ← mget;
  if bool_decide (n_state n = closedState) then mret (inr ErrNodeStopped)
  else
    let db := List.length (sy_dbs s) in
    err ← (if bool_decide (c_DataDir (n_config n) = []) then mret None
           else path ← mlift (Config_ResolvePath (n_config n) (name ++ lit "_" ++ itoa shardid)); mret (leveldb_Open db path));
    match err with
    | Some e => mret (inr (ErrSys e))
    | None =>
        on_world (fun s => set_dbs (sy_dbs s ++ [O]) s);;
        on_node (fun n => set_databases ({[db]} ∪ n_databases n) n);;
        mret (inl db)
    end.

(** [closeTrackingDB.Close], called by the service that opened the database. *)
Definition CloseDatabase (db : nat) : M nsys (option node_error) :=
  '(n, s) ← mget;
  match sy_dbs s !! db with
  | None => mpanic
  | Some closes =>
      on_node (set_databases (n_databases n ∖ {[db]}));;
      on_world (close_db db);;
      mret (ErrSys <$> db_Close db closes)
  end.

(** The list a comma-separated argument stands for. *)
Definition comma_list (s : gostr) : list gostr := TrimSpace <$> split_at 44 s.

Definition StartRPC (host : option gostr) (port : option Z) (cors apis vhosts : option gostr) : M nsys (option node_error) :=
  '(n, _) ← mget;
  let c := n_config n in
  let host := match host with
              | Some h => h
              | None => if bool_decide (c_HTTPHost c = []) then DefaultHTTPHost else c_HTTPHost c
              end in
  let port := default (c_HTTPPort c) port in
  let config := mk_httpConfig
    (match apis with Some a => comma_list a | None => c_HTTPModules c end)
    (match cors with Some o => comma_list o | None => c_HTTPCors c end)
    (match vhosts with Some _ => comma_list host | None => c_HTTPVirtualHosts c end) in
  try_then (on_server HTTP (setListenAddr host port))
  (try_then (on_server HTTP (enableRPC (n_rpcAPIs n) config))
  (on_server HTTP start)).

Definition StopRPC : M nsys () := on_server HTTP stop.

Definition StartWS (host : option gostr) (port : option Z) (allowedOrigins apis : option gostr) : M nsys (option node_error) :=
  '(n, _) ← mget;
  let c := n_config n in
  let host := match host with
              | Some h => h
              | None => if bool_decide (c_WSHost c = []) then DefaultWSHost else c_WSHost c
              end in
  let port := default (c_WSPort c) port in
  let config := mk_wsConfig
    (match allowedOrigins with Some o => comma_list o | None => c_WSOrigins c end)
    (match apis with Some a => comma_list a | None => c_WSModules c end) in
  let server := wsServerForPort port n in
  try_then (on_server server (setListenAddr host port))
  (try_then (on_server server (enableWS (n_rpcAPIs n) config))
  (on_server server start)).

Definition StopWS : M nsys () :=
  on_server HTTP stopWS;;
  on_server WS stop.

(** ** Runs *)

Inductive call : Type :=
| CallLifecycle (lc : Z) | CallAPIs (apis : list API) | CallHandler (name path : gostr) (handler : Z)
| CallOpen (shardid : Z) (name : gostr) | CallCloseDb (db : nat)
| CallStartRPC (host : option gostr) (port : option Z) (cors apis vhosts : option gostr) | CallStopRPC
| CallStartWS (host : option gostr) (port : option Z) (origins apis : option gostr) | CallStopWS.

Definition do_call (c : call) : M nsys () :=
  match c with
  | CallLifecycle lc => RegisterLifecycle lc
  | CallAPIs apis => RegisterAPIs apis
  | CallHandler name path handler => RegisterHandler name path handler
  | CallOpen shardid name => OpenDatabase shardid name;; mret tt
  | CallCloseDb db => CloseDatabase db;; mret tt
  | CallStartRPC host port cors apis vhosts => StartRPC host port cors apis vhosts;; mret tt
  | CallStopRPC => StopRPC
  | CallStartWS host port origins apis => StartWS host port origins apis;; mret tt
  | CallStopWS => StopWS
  end.

(** One goroutine at a time is inside [Start] or [Close]. *)
Definition conf : Type := option pc * nsys.
Inductive label : Type := LStart | LClose | LStep | LReturn | LCall (c : call).

Definition step (l : label) (c : conf) : option conf :=
  let '(t, ns) := c in
  match l, t with
  | LStart, None => '(p, ns') ← Start_enter ns; Some (Some p, ns')
  | LClose, None => '(p, ns') ← Close_enter ns; Some (Some p, ns')
  | LReturn, Some (Returned _) => Some (None, ns)
  | LStep, Some (Returned _) => None
  | LStep, Some p => '(p', ns') ← advance p ns; Some (Some p', ns')
  | LCall cl, _ => '(_, ns') ← do_call cl ns; Some (t, ns')
  | _, _ => None
  end.

Fixpoint run (labels : list label) (c : conf) : option conf :=
  match labels with
  | [] => Some c
  | l :: labels' => c' ← step l c; run labels' c'
  end.

End Node.
