(* ===== verification/NodeInv.v ===== *)
(** * What the RPC servers do to a node

    Every method of the servers opens or closes at most its own listener; the
    methods of the node that are built from them keep the account of open
    listeners and leave the rest of the node alone. *)
From stdpp Require Import gmap list.
From Stdlib Require Import ZArith Lia String.
From S2P Require Import Prelude GoString GoSys NodeConfig RpcStack Node.

Local Open Scope Z_scope.

(** ** Logs *)

(** The events of services. *)
Definition is_svc (e : event) : bool := match e with EvStart _ | EvFail _ | EvStop _ => true | _ => false end.
Definition svc_events (log : list event) : list event := filter (fun e => is_svc e = true) log.

(** The listeners opened since the RPC servers were last stopped. *)
Definition live_listen (acc : list nat) (e : event) : list nat :=
  match e with EvListen l => acc ++ [l] | EvStopRPC => [] | _ => acc end.
Definition live (log : list event) : list nat := foldl live_listen [] log.

Lemma svc_app l1 l2 : svc_events (l1 ++ l2) = svc_events l1 ++ svc_events l2.
Proof. apply filter_app. Qed.

Lemma live_snoc log e : live (log ++ [e]) = live_listen (live log) e.
Proof. unfold live. by rewrite foldl_app. Qed.

(** ** One server *)

Definition lid (h : httpServer) : option nat := fst <$> hs_listener h.

(** The process but for servers and listeners. *)
Definition same_rest (s s' : sys) : Prop := sy_dbs s' = sy_dbs s /\ sy_locks s' = sy_locks s /\ sy_dirs s' = sy_dirs s.

(** No listener is opened or closed. *)
Definition quiet (s s' : sys) : Prop := same_rest s s' /\ sy_open s' = sy_open s /\ sy_next s' = sy_next s /\ sy_log s' = sy_log s.

(** The effect of a method on its listener. *)
Inductive lstep : option nat -> sys -> option nat -> sys -> Prop :=
| lstep_same l s s' : quiet s s' -> lstep l s l s'
| lstep_open s s' : same_rest s s' -> sy_open s' = {[sy_next s]} ∪ sy_open s -> sy_next s' = S (sy_next s) ->
    sy_log s' = sy_log s ++ [EvListen (sy_next s)] -> lstep None s (Some (sy_next s)) s'
| lstep_close l s s' : same_rest s s' -> sy_open s' = sy_open s ∖ {[l]} -> sy_next s' = sy_next s ->
    sy_log s' = sy_log s ++ [EvUnlisten l] -> lstep (Some l) s None s'.

Ltac lsame := apply lstep_same; by split_and!.

Ltac h_steps := unfold on_h, on_sys; wp_steps.

Definition h_ok {A} (m : M hstate A) : Prop := forall h s, wp m (fun _ hs' => lstep (lid h) s (lid (fst hs')) (snd hs')) (h, s).

Lemma setListenAddr_ok host port : h_ok (setListenAddr host port).
Proof. intros h s. unfold setListenAddr. h_steps. destruct (_ && _); h_steps; lsame. Qed.

Lemma disableWS_same h s : wp disableWS (fun _ hs' => hs_listener (fst hs') = hs_listener h /\ quiet s (snd hs')) (h, s).
Proof. unfold disableWS. h_steps. destruct (hs_wsHandler h); h_steps; (split; [done|by split_and!]). Qed.

Lemma disableRPC_same h s : wp disableRPC (fun _ hs' => hs_listener (fst hs') = hs_listener h /\ quiet s (snd hs')) (h, s).
Proof. unfold disableRPC. h_steps. destruct (hs_httpHandler h); h_steps; (split; [done|by split_and!]). Qed.

(** A stopped server has no listener. *)
Lemma doStop_wp h s : wp doStop (fun _ hs' => lid (fst hs') = None /\ lstep (lid h) s None (snd hs')) (h, s).
Proof.
  unfold doStop. h_steps. destruct (hs_listener h) as [[l a]|] eqn:El.
  - destruct (hs_httpHandler h) as [hd|]; h_steps; (split; [done|]); unfold lid; rewrite El; apply lstep_close; [by split_and!|done..].
  - h_steps. unfold lid. cbn [fst snd]. rewrite El. split; [done|lsame].
Qed.

Lemma stop_ok : h_ok stop.
Proof. intros h s. eapply wp_mono; [apply doStop_wp|]. by intros [] [h' s'] [-> ?]. Qed.

Lemma lstep_quiet l s1 s2 l' s3 : quiet s1 s2 -> lstep l s2 l' s3 -> lstep l s1 l' s3.
Proof.
  intros ((E1 & E2 & E3) & Eo & En & El).
  inversion 1 as [? ? ? ((? & ? & ?) & ? & ? & ?)|? ? (? & ? & ?)|? ? ? (? & ? & ?)]; subst.
  - apply lstep_same. unfold quiet, same_rest. split_and!; congruence.
  - rewrite En. apply lstep_open; [unfold same_rest; split_and!|..]; congruence.
  - apply lstep_close; [unfold same_rest; split_and!|..]; congruence.
Qed.

Lemma stopWS_ok : h_ok stopWS.
Proof.
  intros h s. unfold stopWS. apply wp_bind. eapply wp_mono; [apply disableWS_same|].
  intros disabled [h1 s1] [Eh Hq]. cbn [fst snd] in *.
  assert (Hsame : lstep (lid h) s (lid h1) s1) by (unfold lid; rewrite Eh; by apply lstep_same).
  destruct disabled; [|h_steps; done]. h_steps. destruct (negb _); [|h_steps; done].
  eapply wp_mono; [apply doStop_wp|]. intros [] [h' s'] [-> H]. unfold lid in *. rewrite Eh in H. by eapply lstep_quiet.
Qed.

Section Servers.
Context `{!NetEnv, !GoUnicode}.

Lemma start_ok : h_ok start.
Proof.
  intros h s. unfold start. h_steps. destruct (_ || _) eqn:E; [h_steps; lsame|].
  apply orb_false_iff in E as [_ Hl%bool_decide_eq_false]. assert (hs_listener h = None) as Hn by by apply eq_None_not_Some.
  assert (lid h = None) as Hid by (unfold lid; by rewrite Hn).
  h_steps. destruct (net_Listen _ _) as [addr|err].
  - h_steps. rewrite Hid. apply lstep_open; [by split_and!|done..].
  - apply wp_bind. eapply wp_mono; [apply disableRPC_same|]. intros ? [h1 s1] [Eh1 Hq1]. cbn [fst snd] in *.
    apply wp_bind. eapply wp_mono; [apply disableWS_same|]. intros ? [h2 s2] [Eh2 Hq2]. cbn [fst snd] in *.
    h_steps. unfold lid at 2. cbn [fst snd]. rewrite Eh2, Eh1, Hid. cbn. eapply lstep_quiet; [done|by apply lstep_same].
Qed.

Lemma enableRPC_ok apis config : h_ok (enableRPC apis config).
Proof.
  intros h s. unfold enableRPC. h_steps. destruct (rpcAllowed h); [h_steps; lsame|].
  destruct (RegisterApisFromWhitelist _ _ _) as [srv [err|]]; h_steps; lsame.
Qed.

Lemma enableWS_ok apis config : h_ok (enableWS apis config).
Proof.
  intros h s. unfold enableWS. h_steps. destruct (wsAllowed h); [h_steps; lsame|].
  destruct (RegisterApisFromWhitelist _ _ _) as [srv [err|]]; h_steps; lsame.
Qed.

End Servers.

(** ** The account of listeners *)

Definition slots (n : Node) : list (option nat) := [lid (n_http n); lid (n_ws n); ipc_listener (n_ipc n)].

Record acct (os : list (option nat)) (s : sys) : Prop := {
  acct_open l : l ∈ sy_open s <-> Some l ∈ os;
  acct_inj i j l : os !! i = Some (Some l) -> os !! j = Some (Some l) -> i = j;
  acct_next l : Some l ∈ os -> (l < sy_next s)%nat;
  acct_live l : Some l ∈ os -> l ∈ live (sy_log s)
}.

Lemma elem_of_insert {A} (os : list A) i o x : (i < List.length os)%nat ->
  x ∈ <[i:=o]> os <-> x = o \/ exists j, j <> i /\ os !! j = Some x.
Proof.
  intros Hi. rewrite list_elem_of_lookup. split.
  - intros [j Hj]. destruct (decide (j = i)) as [->|Hne].
    + rewrite list_lookup_insert_eq in Hj by done. left. congruence.
    + rewrite list_lookup_insert_ne in Hj by done. right. by exists j.
  - intros [->|[j [Hne Hj]]]; [exists i; by apply list_lookup_insert_eq|exists j; by rewrite list_lookup_insert_ne].
Qed.

Lemma acct_step os s i o o' s' : os !! i = Some o -> lstep o s o' s' -> acct os s -> acct (<[i:=o']> os) s'.
Proof.
  intros Hi Hstep [Ho Hinj Hn Hl]. pose proof (lookup_lt_Some _ _ _ Hi) as Hlt.
  inversion Hstep as [? ? ? (_ & Eo & En & El)|? ? _ Eo En El|l ? ? _ Eo En El]; subst.
  - rewrite list_insert_id by done. split; intros *; rewrite ?Eo, ?En, ?El; eauto.
  - assert (Hfresh : forall j l, os !! j = Some (Some l) -> (l < sy_next s)%nat) by (intros j l Hj; by eapply Hn, list_elem_of_lookup_2).
    split; intros *; rewrite ?Eo, ?En, ?El, ?live_snoc, ?elem_of_insert by done.
    + rewrite elem_of_union, elem_of_singleton, Ho. split.
      * intros [->|[j Hj]%list_elem_of_lookup]; [by left|]. right. exists j. split; [|done]. intros ->. congruence.
      * intros [[= <-]|(j & _ & Hj)]; [by left|]. right. by eapply list_elem_of_lookup_2.
    + destruct (decide (i0 = i)) as [->|], (decide (j = i)) as [->|]; [done|..];
        rewrite ?list_lookup_insert_eq, ?list_lookup_insert_ne by done; [..|eauto].
      * intros [= <-] Hj. specialize (Hfresh _ _ Hj). lia.
      * intros Hj [= <-]. specialize (Hfresh _ _ Hj). lia.
    + intros [[= <-]|(j & _ & Hj)]; [lia|]. specialize (Hfresh _ _ Hj). lia.
    + cbn [live_listen]. intros [[= <-]|(j & _ & Hj)]; rewrite elem_of_app; [right; by apply list_elem_of_singleton|].
      left. by eapply Hl, list_elem_of_lookup_2.
  - split; intros *; rewrite ?Eo, ?En, ?El, ?live_snoc, ?elem_of_insert by done.
    + rewrite elem_of_difference, elem_of_singleton, Ho. split.
      * intros [[j Hj]%list_elem_of_lookup Hne]. right. exists j. split; [|done]. intros ->. congruence.
      * intros [?|(j & Hne & Hj)]; [done|]. split; [by eapply list_elem_of_lookup_2|]. intros ->. by specialize (Hinj _ _ _ Hi Hj) as ->.
    + destruct (decide (i0 = i)) as [->|], (decide (j = i)) as [->|]; [done|..];
        rewrite ?list_lookup_insert_eq, ?list_lookup_insert_ne by done; eauto; done.
    + intros [?|(j & _ & Hj)]; [done|]. by eapply Hn, list_elem_of_lookup_2.
    + cbn [live_listen]. intros [?|(j & _ & Hj)]; [done|]. by eapply Hl, list_elem_of_lookup_2.
Qed.

Lemma lstep_svc o s o' s' : lstep o s o' s' -> same_rest s s' /\ svc_events (sy_log s') = svc_events (sy_log s).
Proof.
  inversion 1 as [? ? ? (Hr & _ & _ & El)|? ? Hr _ _ El|? ? ? Hr _ _ El]; subst; (split; [done|]); rewrite El; [done|..];
    rewrite svc_app; by rewrite app_nil_r.
Qed.

(** ** Methods of the node on its servers *)

(** The node after a change of its servers only. *)
Definition same_node (n n' : Node) : Prop := n' = set_rpc (n_http n') (n_ws n') (n_ipc n') n.

Definition owned (ns : nsys) : Prop :=
  acct (slots (fst ns)) (snd ns) /\ (is_Some (ipc_listener (n_ipc (fst ns))) -> is_Some (ipc_srv (n_ipc (fst ns)))).

Definition rpc_rel (ns ns' : nsys) : Prop :=
  same_node (fst ns) (fst ns') /\ same_rest (snd ns) (snd ns') /\ svc_events (sy_log (snd ns')) = svc_events (sy_log (snd ns)).

#[export] Instance rpc_rel_preorder : PreOrder rpc_rel.
Proof.
  split.
  - intros [[] s]. by split_and!.
  - intros [n1 s1] [n2 s2] [n3 s3] (E1 & (A1 & B1 & C1) & L1) (E2 & (A2 & B2 & C2) & L2). unfold rpc_rel, same_node, same_rest in *. cbn in *.
    split_and!; try congruence. rewrite E2, E1 at 1. done.
Qed.

(** [rpc_ok m]: from an account that is right, [m] does not panic, keeps the
    account and changes nothing else. *)
Definition rpc_ok {A} (m : M nsys A) : Prop := forall ns, owned ns -> wp m (fun _ ns' => rpc_rel ns ns' /\ owned ns') ns.

Lemma rpc_ok_ret {A} (x : A) : rpc_ok (mret x).
Proof. intros ns H. wp_steps. done. Qed.

Lemma rpc_ok_bind {A B} (m : M nsys A) (k : A -> M nsys B) : rpc_ok m -> (forall x, rpc_ok (k x)) -> rpc_ok (m ≫= k).
Proof.
  intros Hm Hk ns H. apply wp_bind. eapply wp_mono; [by apply Hm|]. intros x ns' [R H'].
  eapply wp_mono; [by apply Hk|]. intros y ns'' [R' H'']. split; [by etrans|done].
Qed.

Lemma rpc_ok_get {B} (k : nsys -> M nsys B) : (forall ns, rpc_ok (k ns)) -> rpc_ok (mget ≫= k).
Proof. intros Hk ns H. unfold wp. rewrite run_get. by apply Hk. Qed.

Lemma rpc_ok_try (m k : M nsys (option node_error)) : rpc_ok m -> rpc_ok k -> rpc_ok (try_then m k).
Proof. intros Hm Hk. apply rpc_ok_bind; [done|]. intros [e|]; [apply rpc_ok_ret|done]. Qed.

Lemma rpc_ok_server {A} w (m : M hstate A) : h_ok m -> rpc_ok (on_server w m).
Proof.
  intros Hm [n s] [Ha Hi]. unfold wp, on_server. pose proof (Hm (the_server w n) s) as H. unfold wp in H.
  destruct (m (the_server w n, s)) as [[x [h s']]|]; [|done]. cbn [fst snd] in *. pose proof (lstep_svc _ _ _ _ H) as [Hr Hs].
  split; [by destruct w|]. destruct w; (split; [|done]); cbn [fst snd] in *.
  - exact (acct_step (slots n) _ 0%nat _ _ _ eq_refl H Ha).
  - exact (acct_step (slots n) _ 1%nat _ _ _ eq_refl H Ha).
Qed.

Lemma rpc_ok_world (f : sys -> sys) : (forall s, quiet s (f s)) -> rpc_ok (on_world f).
Proof.
  intros Hf [n s] [Ha Hi]. unfold on_world. wp_steps. cbn [fst snd]. destruct (Hf s) as (Hr & Eo & En & El).
  split; [split; [by destruct n|]; cbn; by rewrite El|]. split; [|done]. destruct Ha as [A B C D].
  split; intros *; cbn [fst snd]; rewrite ?Eo, ?En, ?El; eauto.
Qed.

Section NodeRpc.
Context `{env : !NodeEnv} `{net : !NetEnv} `{uni : !GoUnicode} `{lib : !NodeLib} {order : RangeOrder}.

Lemma ipc_start_ok apis : rpc_ok (on_ipc (ipc_start apis)).
Proof.
  intros [n s] [Ha Hi]. unfold wp, on_ipc, ipc_start. rewrite run_get. destruct (ipc_listener (n_ipc n)) as [l|] eqn:El.
  { cbn. split; [by destruct n|]. by destruct n. }
  destruct (rpc_StartIPC _ _ _).
  { cbn. split; [by destruct n|]. by destruct n. }
  cbn. assert (H : lstep None s (Some (sy_next s)) (open_listener (new_server ((fun api => (api_Namespace api, api_Service api)) <$> apis) s))).
  { apply lstep_open; [by split_and!|done..]. }
  pose proof (lstep_svc _ _ _ _ H) as [Hr Hs]. split; [by split_and!|]. split; [|done].
  refine (acct_step (slots n) _ 2%nat _ _ _ _ H Ha). unfold slots. cbn. by rewrite El.
Qed.

Lemma ipc_stop_wp ns : owned ns -> wp (on_ipc ipc_stop) (fun _ ns' => (rpc_rel ns ns' /\ owned ns') /\ ipc_listener (n_ipc (fst ns')) = None /\
  n_http (fst ns') = n_http (fst ns) /\ n_ws (fst ns') = n_ws (fst ns)) ns.
Proof.
  destruct ns as [n s]. intros [Ha Hi]. unfold wp, on_ipc, ipc_stop. rewrite run_get. cbn [fst snd] in *.
  destruct (ipc_listener (n_ipc n)) as [l|] eqn:El.
  - destruct (Hi ltac:(eauto)) as [srv Es]. rewrite Es. cbn.
    assert (H : lstep (Some l) s None (stop_server srv (close_listener l s))) by (apply lstep_close; [by split_and!|done..]).
    pose proof (lstep_svc _ _ _ _ H) as [Hr Hs]. split; [split; [by split_and!|]|done]. split; [|intros [? ?]; done].
    refine (acct_step (slots n) _ 2%nat _ _ _ _ H Ha). unfold slots. cbn. by rewrite El.
  - cbn. split; [split; [by destruct n|]|by split_and!]. split; [by destruct n|]. cbn. rewrite El. by intros [? ?].
Qed.

Lemma ipc_stop_ok : rpc_ok (on_ipc ipc_stop).
Proof. intros ns H. eapply wp_mono; [by apply ipc_stop_wp|]. by intros ? ? []. Qed.

Lemma startInProc_ok : rpc_ok startInProc.
Proof.
  apply rpc_ok_get. intros [n s]. destruct (register_all _ _) as [added err].
  apply rpc_ok_bind; [apply rpc_ok_world; by intros s'|]. intros _. apply rpc_ok_ret.
Qed.

(** The stop of a server keeps the others. *)
Lemma server_stop_wp w ns : owned ns -> wp (on_server w stop) (fun _ ns' => (rpc_rel ns ns' /\ owned ns') /\ lid (the_server w (fst ns')) = None /\
  match w with HTTP => n_ws (fst ns') = n_ws (fst ns) | WS => n_http (fst ns') = n_http (fst ns) end) ns.
Proof.
  intros H. pose proof (rpc_ok_server w stop stop_ok ns H) as Hok. destruct ns as [n s]. unfold wp, on_server in *.
  pose proof (doStop_wp (the_server w n) s) as Hs. unfold wp, stop in *.
  destruct (doStop (the_server w n, s)) as [[[] [h s']]|]; [|done]. cbn [fst snd] in *. destruct Hs as [Hn _].
  split; [done|]. by destruct w.
Qed.

(** Stopping the servers closes every listener. *)
Lemma stopRPC_wp ns : owned ns -> wp stopRPC (fun _ ns' => rpc_rel ns ns' /\ owned ns' /\ slots (fst ns') = [None; None; None]) ns.
Proof.
  intros H. unfold stopRPC. apply wp_bind. eapply wp_mono; [by apply server_stop_wp|]. intros [] ns1 ((R1 & H1) & L1 & _).
  apply wp_bind. eapply wp_mono; [by apply server_stop_wp|]. intros [] ns2 ((R2 & H2) & L2 & E2).
  apply wp_bind. eapply wp_mono; [by apply ipc_stop_wp|]. intros _ ns3 ((R3 & H3) & L3 & E3 & E3').
  unfold stopInProc. wp_steps. destruct ns3 as [n3 s3]. unfold on_world. wp_steps. cbn [fst snd the_server] in *.
  assert (Hsl : slots n3 = [None; None; None]).
  { unfold slots. by rewrite L3, E3, E3', L2, E2, L1. }
  destruct H3 as [[Ho _ _ _] Hi]. cbn [fst snd] in *. split; [|split; [split; [|done]|done]].
  - etrans; [exact R1|]. etrans; [exact R2|]. etrans; [exact R3|]. split; [by destruct n3|]. split; [by split_and!|].
    cbn. by rewrite svc_app, app_nil_r.
  - cbn [fst snd]. rewrite Hsl in *. split; cbn; [done|..].
    + intros [|[|[|i]]] j l; done.
    + intros l Hl. repeat (apply elem_of_cons in Hl as [?|Hl]; [done|]). by apply elem_of_nil in Hl.
    + intros l Hl. repeat (apply elem_of_cons in Hl as [?|Hl]; [done|]). by apply elem_of_nil in Hl.
Qed.

Lemma stopRPC_ok : rpc_ok stopRPC.
Proof. intros ns H. eapply wp_mono; [by apply stopRPC_wp|]. by intros ? ? (? & ? & _). Qed.

Ltac rpc_step :=
  lazymatch goal with
  | |- rpc_ok (mret _) => apply rpc_ok_ret
  | |- rpc_ok (try_then _ _) => apply rpc_ok_try
  | |- rpc_ok (on_server _ _) => apply rpc_ok_server
  | |- rpc_ok (mbind _ mget) => apply rpc_ok_get; intros [? ?]
  | |- rpc_ok (mbind _ _) => apply rpc_ok_bind; [|intros ?]
  | |- rpc_ok (if ?b then _ else _) => destruct b
  | |- h_ok _ => first [apply setListenAddr_ok | apply enableRPC_ok | apply enableWS_ok | apply start_ok | apply stop_ok | apply stopWS_ok]
  | |- rpc_ok _ => first [apply startInProc_ok | apply ipc_start_ok | apply stopRPC_ok]
  end.
Ltac rpc_solve := repeat (cbv beta zeta; rpc_step).

Lemma startRPC_ok : rpc_ok startRPC.
Proof. unfold startRPC. rpc_solve. Qed.

Lemma StartRPC_ok host port cors apis vhosts : rpc_ok (StartRPC host port cors apis vhosts).
Proof. unfold StartRPC. rpc_solve. Qed.

Lemma StartWS_ok host port origins apis : rpc_ok (StartWS host port origins apis).
Proof. unfold StartWS. rpc_solve. Qed.

Lemma StopRPC_ok : rpc_ok StopRPC.
Proof. unfold StopRPC. rpc_solve. Qed.

Lemma StopWS_ok : rpc_ok StopWS.
Proof. unfold StopWS. rpc_solve. Qed.

(** A start that fails leaves no listener open. *)
Lemma startNetworking_wp ns : owned ns ->
  wp startNetworking (fun err ns' => rpc_rel ns ns' /\ owned ns' /\ (is_Some err -> slots (fst ns') = [None; None; None])) ns.
Proof.
  intros H. unfold startNetworking. apply wp_bind. eapply wp_mono; [by apply startRPC_ok|]. intros [e|] ns1 [R1 H1].
  - apply wp_bind. eapply wp_mono; [by apply stopRPC_wp|]. intros [] ns2 (R2 & H2 & E2). wp_steps. split; [by etrans|done].
  - wp_steps. split; [done|]. split; [done|]. by intros [? ?].
Qed.

End NodeRpc.
