(* ===== verification/NodeSpec.v ===== *)
(** * Theorems about the life of a node

    A run is any interleaving of the steps of [Start] and [Close] with other
    calls.  An invariant ties the phase of the run to the events of the services
    and to what the node holds. *)
From stdpp Require Import gmap list.
From Stdlib Require Import ZArith Lia String.
From S2P Require Import Prelude GoString GoSys NodeConfig RpcStack Node NodeInv.

Local Open Scope Z_scope.

Definition empty_sys : sys := mk_sys [] ∅ O [] ∅ ∅ [].

Section NodeSpec.
Context `{env : !NodeEnv} `{net : !NetEnv} `{uni : !GoUnicode} `{lib : !NodeLib} {order : RangeOrder}.

(** A run from the creation of the node. *)
Definition execute (c : Config) (labels : list label) : option conf :=
  '(r, s) ← New c empty_sys;
  match r with inl n => run labels (None, (n, s)) | inr _ => None end.

(** ** The invariant *)

(** The services that came up, and the one that did not. *)
Definition came_up (lcs started : list Z) (fail : list event) : Prop :=
  (fail = [] /\ started `prefix_of` lcs) \/ (exists lc, fail = [EvFail lc] /\ started ++ [lc] `prefix_of` lcs).

(** Every service that came up was stopped, the last one first. *)
Definition all_stopped (lcs : list Z) (events : list event) : Prop :=
  exists started fail, came_up lcs started fail /\ events = (EvStart <$> started) ++ fail ++ (EvStop <$> rev started).

Definition phase (t : option pc) (st : node_state) (lcs : list Z) (events : list event) : Prop :=
  match t with
  | Some (Starting todo started) => st = runningState /\ lcs = started ++ todo /\ events = EvStart <$> started
  | Some (StoppingRPC running _) => st = runningState /\ exists fail, came_up lcs running fail /\ events = (EvStart <$> running) ++ fail
  | Some (Stopping todo _ _) => st = runningState /\ exists started done fail, came_up lcs started fail /\
      rev started = done ++ todo /\ events = (EvStart <$> started) ++ fail ++ (EvStop <$> done)
  | Some (Closing _ _) => st <> closedState /\ all_stopped lcs events
  | Some (Releasing _ _) => st = closedState /\ all_stopped lcs events
  | Some (Returned _) | None =>
      match st with
      | initializingState => events = []
      | runningState => events = EvStart <$> lcs
      | closedState => all_stopped lcs events
      end
  end.

Definition releasing (t : option pc) : bool := match t with Some (Releasing _ _) => true | _ => false end.

(** The file that locks the data directory. *)
Definition lock_file (c : Config) : option gostr :=
  if bool_decide (c_DataDir c = []) then None
  else name ← Config_name c; Some (path_Join (path_Join (c_DataDir c) name) (lit "LOCK")).

Record holds (t : option pc) (n : Node) (s : sys) : Prop := {
  h_dbs db : db ∈ n_databases n <-> sy_dbs s !! db = Some O;
  h_closed : n_state n = closedState -> n_databases n = ∅;
  h_stop : n_stop n = bool_decide (n_state n = closedState) && negb (releasing t);
  h_accman : am_running (n_accman n) = negb (n_stop n);
  h_unlocked : n_stop n = true -> n_dirLock n = None;
  h_lockfile : n_stop n = false -> n_dirLock n = lock_file (n_config n);
  h_locked f : n_dirLock n = Some f -> f ∈ sy_locks s;
  h_locks f : f ∈ sy_locks s -> n_dirLock n = Some f \/ is_Some (os_Release f);
  h_dirs d : d ∈ sy_dirs s -> n_stop n = true -> is_Some (env_RemoveAll d);
  h_dir d : d ∈ sy_dirs s -> d = n_ephemKeystore n /\ d <> []
}.

Record node_inv (x : conf) : Prop := {
  i_owned : owned (snd x);
  i_phase : phase (fst x) (n_state (fst (snd x))) (n_lifecycles (fst (snd x))) (svc_events (sy_log (snd (snd x))));
  i_nodup : NoDup (n_lifecycles (fst (snd x)));
  i_holds : holds (fst x) (fst (snd x)) (snd (snd x))
}.

Lemma inv_rpc t ns ns' : node_inv (t, ns) -> rpc_rel ns ns' -> owned ns' -> node_inv (t, ns').
Proof.
  destruct ns as [n s], ns' as [n' s']. intros [_ Hp Hn Hh] (En & (Ed & El & Er) & Es) Ho. cbn [fst snd] in *.
  unfold same_node in En. split; cbn [fst snd]; [done|..]; rewrite En; cbn; [by rewrite Es|done|].
  destruct Hh. split; cbn; rewrite ?Ed, ?El, ?Er; eauto.
Qed.

(** The account does not depend on the rest of the node. *)
Lemma owned_same n n' s s' : n_http n' = n_http n -> n_ws n' = n_ws n -> n_ipc n' = n_ipc n ->
  sy_open s' = sy_open s -> sy_next s' = sy_next s -> sy_log s' = sy_log s -> owned (n, s) -> owned (n', s').
Proof.
  intros E1 E2 E3 Eo En El [[A B C D] Hi]. cbn [fst snd] in *. split; cbn [fst snd]; [|by rewrite E3].
  unfold slots in *. rewrite E1, E2, E3. split; intros *; rewrite ?Eo, ?En, ?El; eauto.
Qed.

Lemma owned_log n s e : (forall l, e <> EvListen l) -> e <> EvStopRPC -> owned (n, s) -> owned (n, log_event e s).
Proof.
  intros H1 H2 [[A B C D] Hi]. split; [|done]. split; [done..|]. intros l Hl. cbn. rewrite live_snoc. specialize (D l Hl).
  destruct e; try done. by destruct (H1 l0).
Qed.

(** ** Steps of [Start] and [Close] *)

Lemma Start_enter_inv ns : node_inv (None, ns) -> wp Start_enter (fun p ns' => node_inv (Some p, ns')) ns.
Proof.
  destruct ns as [n s]. intros [Ho Hp Hn Hh]. cbn [fst snd] in *. unfold Start_enter. wp_steps.
  destruct (n_state n) eqn:Est.
  2,3: wp_steps; split; cbn [fst snd]; [done|by rewrite Est|done|]; destruct Hh; split; cbn [releasing]; eauto.
  unfold on_node. wp_steps. cbn [fst snd]. set (n1 := set_state runningState n).
  assert (Ho1 : owned (n1, s)) by (by apply (owned_same n n1 s s)).
  eapply wp_mono; [by apply startNetworking_wp|]. intros err ns' (R & Ho' & _).
  assert (Hh1 : forall t, releasing t = false -> holds t n1 s).
  { intros t Ht. destruct Hh. split; cbn; rewrite ?Ht; try done. by rewrite h_stop0, Est. }
  destruct err as [e|]; wp_steps; (eapply inv_rpc; [|exact R|exact Ho']); (split; cbn [fst snd]; [done| |done|by apply Hh1]).
  - cbn in Hp |- *. split; [done|]. exists [], []. rewrite Hp. split; [left; split; [done|apply prefix_nil]|done].
  - cbn in Hp |- *. done.
Qed.

Lemma Close_enter_inv ns : node_inv (None, ns) -> wp Close_enter (fun p ns' => node_inv (Some p, ns')) ns.
Proof.
  destruct ns as [n s]. intros [Ho Hp Hn Hh]. cbn [fst snd] in *. unfold Close_enter. wp_steps.
  assert (Hh' : forall p, releasing (Some p) = false -> holds (Some p) n s).
  { intros p Hp'. destruct Hh. split; rewrite ?Hp'; eauto. }
  destruct (n_state n) eqn:Est; wp_steps; (split; cbn [fst snd]; [done| |done|by apply Hh']); cbn in *; rewrite ?Est.
  - split; [done|]. exists [], []. rewrite Hp. split; [left; split; [done|apply prefix_nil]|done].
  - split; [done|]. exists []. rewrite Hp, app_nil_r. split; [by left|done].
  - done.
Qed.

(** A step that only logs an event of a service and moves on. *)
Lemma inv_event t t' n s e : node_inv (t, (n, s)) -> is_svc e = true -> releasing t' = releasing t ->
  phase t' (n_state n) (n_lifecycles n) (svc_events (sy_log s) ++ [e]) -> node_inv (t', (n, log_event e s)).
Proof.
  intros [Ho Hp Hn Hh] He Ht Hp'. cbn [fst snd] in *. split; cbn [fst snd]; [by apply owned_log; destruct e| |done|].
  - cbn. rewrite svc_app. unfold svc_events at 2. by rewrite filter_cons_True, filter_nil.
  - destruct Hh. split; rewrite ?Ht; eauto.
Qed.

Lemma start_next_inv todo started ns : node_inv (Some (Starting todo started), ns) ->
  wp (start_next todo started) (fun p ns' => node_inv (Some p, ns')) ns.
Proof.
  destruct ns as [n s]. intros Hinv. destruct (Hinv) as [Ho Hp Hn Hh]. cbn [fst snd] in *. destruct Hp as (Est & El & Ee).
  unfold start_next. destruct todo as [|lc todo].
  - wp_steps. split; cbn [fst snd]; [done| |done|destruct Hh; split; eauto]. cbn. by rewrite Est, El, app_nil_r.
  - destruct (lc_Start lc) as [e|]; unfold on_world; wp_steps; cbn [fst snd]; (eapply inv_event; [done..|]); rewrite Ee, Est; cbn; (split; [done|]).
    + exists [EvFail lc]. split; [|done]. right. exists lc. split; [done|]. rewrite El. by exists todo; rewrite <- app_assoc.
    + by rewrite El, <- app_assoc, fmap_app.
Qed.

Lemma stop_next_inv todo failure k ns : node_inv (Some (Stopping todo failure k), ns) ->
  wp (stop_next todo failure k) (fun p ns' => node_inv (Some p, ns')) ns.
Proof.
  destruct ns as [n s]. intros Hinv. destruct (Hinv) as [Ho Hp Hn Hh]. cbn [fst snd] in *.
  destruct Hp as (Est & started & dn & fail & Hup & Er & Ee). unfold stop_next. destruct todo as [|lc todo].
  - wp_steps. split; cbn [fst snd]; [done| |done|destruct Hh; split; eauto]. cbn. split; [congruence|].
    exists started, fail. rewrite app_nil_r in Er. by rewrite Er.
  - unfold on_world. wp_steps. cbn [fst snd]. eapply inv_event; [done..|]. rewrite Ee, Est. cbn. split; [done|].
    exists started, (dn ++ [lc]), fail. split; [done|]. split; [by rewrite <- app_assoc|]. by rewrite fmap_app, <- !app_assoc.
Qed.

Lemma stopRPC_inv running k ns : node_inv (Some (StoppingRPC running k), ns) ->
  wp stopRPC (fun _ ns' => node_inv (Some (Stopping (rev running) ∅ k), ns')) ns.
Proof.
  intros Hinv. eapply wp_mono; [apply stopRPC_ok, (i_owned _ Hinv)|]. intros [] ns' [R Ho]. eapply inv_rpc; [|exact R|exact Ho].
  destruct ns as [n s], Hinv as [Ho' Hp Hn Hh]. cbn [fst snd] in *. destruct Hp as (Est & fail & Hup & Ee).
  split; cbn [fst snd]; [done| |done|destruct Hh; split; eauto]. cbn. split; [done|]. exists running, [], fail.
  by rewrite app_nil_r.
Qed.

(** The databases of the table are closed once more. *)
Lemma close_dbs_lookup dbs : forall s, NoDup dbs ->
  quiet s (set_dbs (sy_dbs s) (foldl (fun s db => close_db db s) s dbs)) /\
  forall db, sy_dbs (foldl (fun s db => close_db db s) s dbs) !! db =
    (if bool_decide (db ∈ dbs) then S else id) <$> sy_dbs s !! db.
Proof.
  induction dbs as [|x dbs IH]; intros s Hnd; cbn [foldl].
  { split; [by destruct s|]. intros db. rewrite bool_decide_false by apply not_elem_of_nil. by destruct (_ !! _). }
  apply NoDup_cons in Hnd as [Hx Hnd]. destruct (IH (close_db x s) Hnd) as [(Hr & Hq) Hl].
  split; [|].
  { destruct Hr as (_ & ? & ?), Hq as (? & ? & ?). by split_and!. }
  intros db. rewrite Hl. cbn [close_db sy_dbs set_dbs]. destruct (decide (db = x)) as [->|Hne].
  - rewrite list_lookup_alter_eq, (bool_decide_false (x ∈ dbs)), (bool_decide_true (x ∈ x :: dbs)) by (done || set_solver). by destruct (_ !! _).
  - rewrite list_lookup_alter_ne by done. f_equal. case_bool_decide as H1; case_bool_decide as H2; set_solver.
Qed.

Lemma db_range_spec dbs : NoDup (db_range dbs) /\ forall db, db ∈ db_range dbs <-> db ∈ dbs.
Proof.
  unfold db_range. pose proof (map_range_perm (gset_to_gmap () dbs)) as Hp. split.
  - rewrite Hp. apply NoDup_fst_map_to_list.
  - intros db. rewrite Hp. rewrite list_elem_of_fmap. split.
    + intros ([k u] & -> & H). apply elem_of_map_to_list in H. by apply lookup_gset_to_gmap_Some in H as [? _].
    + intros H. exists (db, tt). split; [done|]. apply elem_of_map_to_list, lookup_gset_to_gmap_Some. done.
Qed.

Lemma doClose_locked_inv errs k ns : node_inv (Some (Closing errs k), ns) ->
  wp (doClose_locked errs k) (fun p ns' => node_inv (Some p, ns')) ns.
Proof.
  destruct ns as [n s]. intros [Ho Hp Hn Hh]. cbn [fst snd] in *. destruct Hp as (Est & Hst).
  unfold doClose_locked, closeDatabases, on_node, on_world. wp_steps. cbn [fst snd n_databases set_state].
  destruct (db_range_spec (n_databases n)) as [Hnd Hin]. destruct (close_dbs_lookup _ s Hnd) as [(Hr & Eo & En & El) Hl].
  cbn in Eo, En, El. set (s' := foldl _ s _) in *. destruct Hr as (_ & Elo & Edi). cbn in Elo, Edi.
  split; cbn [fst snd]; [|by cbn; rewrite El|done|].
  - destruct Ho as [[A B C D] Hi]. split; [|done]. cbn [fst snd]. split; intros *; rewrite ?Eo, ?En, ?El; eauto; apply A.
  - destruct Hh. split; cbn; rewrite ?Elo, ?Edi; try done.
    + intros db. rewrite Hl. split; [set_solver|]. intros H. destruct (sy_dbs s !! db) as [c|] eqn:Ec; [|done].
      case_bool_decide as Hd; cbn in H; [done|]. injection H as ->. destruct Hd. by apply Hin, h_dbs0.
    + rewrite h_stop0. destruct (n_state n); done.
Qed.

(** The directory of the keys is removed unless the system refuses. *)
Lemma remove_keys_wp n s : (forall d, d ∈ sy_dirs s -> d = n_ephemKeystore n /\ d <> []) ->
  wp (if bool_decide (n_ephemKeystore n = []) || bool_decide (is_Some (if bool_decide (n_ephemKeystore n = []) then None else env_RemoveAll (n_ephemKeystore n)))
      then mret tt else on_world (fun s => set_dirs (sy_dirs s ∖ {[n_ephemKeystore n]}) s))
    (fun _ ns' => fst ns' = n /\ quiet s (set_dirs (sy_dirs s) (snd ns')) /\ sy_dbs (snd ns') = sy_dbs s /\
      forall d, d ∈ sy_dirs (snd ns') -> is_Some (env_RemoveAll d) /\ d ∈ sy_dirs s) (n, s).
Proof.
  intros h_dir0. destruct (bool_decide (n_ephemKeystore n = [])) eqn:E; cbn [orb].
  - apply bool_decide_eq_true in E. wp_steps. split; [done|]. split; [by destruct s|]. split; [done|]. intros d Hd. destruct (h_dir0 d Hd). congruence.
  - apply bool_decide_eq_false in E. case_bool_decide as Hf; unfold on_world; wp_steps; cbn [fst snd]; (split; [done|]); (split; [by destruct s|]); (split; [done|]); intros d; cbn.
    + intros Hd. destruct (h_dir0 d Hd) as [-> _]. done.
    + intros [Hd Hne]%elem_of_difference. destruct (h_dir0 d Hd) as [-> _]. set_solver.
Qed.

(** The lock is released unless the system refuses. *)
Lemma closeDataDir_wp n s : (forall f, n_dirLock n = Some f -> f ∈ sy_locks s) ->
  (forall f, f ∈ sy_locks s -> n_dirLock n = Some f \/ is_Some (os_Release f)) ->
  wp closeDataDir (fun _ ns' => fst ns' = set_owner (n_accman n) None (n_stop n) n /\ quiet s (set_locks (sy_locks s) (snd ns')) /\
    sy_dbs (snd ns') = sy_dbs s /\ sy_dirs (snd ns') = sy_dirs s /\ forall f, f ∈ sy_locks (snd ns') -> is_Some (os_Release f)) (n, s).
Proof.
  intros Hin Hout. unfold closeDataDir. wp_steps. destruct (n_dirLock n) as [file|] eqn:El.
  - destruct (os_Release file) eqn:Er; unfold on_world, on_node; wp_steps; cbn [fst snd].
    + split_and!; [done..|]. intros f Hf. destruct (Hout f Hf) as [[= ->]|?]; [by eexists|done].
    + split; [done|]. split; [by destruct s|]. split; [done|]. split; [done|]. cbn. intros f [Hf Hne]%elem_of_difference.
      destruct (Hout f Hf) as [[= ->]|?]; [set_solver|done].
  - wp_steps. split; [cbn; rewrite <- El; by destruct n|]. split; [by destruct s|]. split; [done|]. split; [done|].
    intros f Hf. by destruct (Hout f Hf).
Qed.

Lemma doClose_release_inv errs k ns : node_inv (Some (Releasing errs k), ns) ->
  wp (doClose_release errs k) (fun p ns' => node_inv (Some p, ns')) ns.
Proof.
  destruct ns as [n s]. intros [Ho Hp Hn Hh]. cbn [fst snd] in *. destruct Hp as (Est & Hst). destruct Hh.
  assert (Estop : n_stop n = false) by (rewrite h_stop0; apply andb_false_r).
  assert (Ham : am_running (n_accman n) = true) by by rewrite h_accman0, Estop.
  unfold doClose_release, accman_Close. wp_steps. rewrite Ham. unfold on_node at 1. wp_steps. cbn [fst snd].
  set (n1 := set_owner _ _ _ n). eapply wp_mono; [apply (remove_keys_wp n1 s); exact h_dir0|].
  intros [] [n2 s2] (E2 & ((_ & El2 & _) & Eo2 & En2 & Eg2) & Ed2 & Hd2). cbn [fst snd] in *. subst n2. wp_steps. cbn in El2, Eo2, En2, Eg2.
  eapply wp_mono; [apply (closeDataDir_wp n1 s2); rewrite El2; [exact h_locked0|exact h_locks0]|].
  intros [] [n3 s3] (E3 & ((_ & _ & Er3) & Eo3 & En3 & Eg3) & Ed3 & Edi3 & Hl3). cbn [fst snd] in *. subst n3. cbn in Er3, Eo3, En3, Eg3.
  unfold close_stop. wp_steps. cbn [n_stop set_owner n1]. rewrite Estop. unfold on_node, on_world. wp_steps. cbn [fst snd].
  split; cbn [fst snd]; [| |done|].
  - apply owned_log; [done|done|]. apply (owned_same n _ s s3); [done..| | | |done]; congruence.
  - cbn. rewrite Est, svc_app, app_nil_r, Eg3, Eg2. done.
  - split; cbn; rewrite ?Ed3, ?Ed2, ?Est, ?Edi3; try done.
    + intros _. by apply h_closed0.
    + intros f Hf. right. by apply Hl3.
    + intros d Hd _. by apply Hd2.
    + intros d Hd. by apply h_dir0, Hd2.
Qed.

(** A step inside [Start] or [Close] never panics or blocks. *)
Lemma advance_inv p ns : node_inv (Some p, ns) -> wp (advance p) (fun p' ns' => node_inv (Some p', ns')) ns.
Proof.
  intros H. destruct p; cbn [advance].
  - by apply start_next_inv.
  - apply wp_bind. eapply wp_mono; [by eapply stopRPC_inv|]. intros [] ns' H'. by wp_steps.
  - by apply stop_next_inv.
  - by apply doClose_locked_inv.
  - by apply doClose_release_inv.
  - by wp_steps.
Qed.

(** And every step comes closer to the return. *)
Lemma advance_measure p ns p' ns' : advance p ns = Some (p', ns') -> (forall r, p <> Returned r) -> (pc_measure p' < pc_measure p)%nat.
Proof.
  destruct p as [todo started|running k|todo failure k|errs k|errs k|r]; cbn [advance].
  - unfold start_next. destruct todo as [|lc todo]; [intros [= <- <-]; cbn; lia|].
    destruct (lc_Start lc); intros [= <- <-]; cbn; rewrite ?length_app; cbn; lia.
  - unfold mbind, M_bind. destruct (stopRPC ns) as [[[] ns1]|]; [|done]. intros [= <- <-]. cbn. rewrite length_rev. lia.
  - unfold stop_next. destruct todo as [|lc todo]; intros [= <- <-]; cbn; lia.
  - unfold doClose_locked, closeDatabases, on_node, on_world. destruct ns as [n s]. intros [= <- <-]. cbn. lia.
  - unfold doClose_release, mbind, M_bind, mret, M_ret. intros H _. repeat case_match; simplify_eq; cbn; lia.
  - intros _ H. by destruct (H r).
Qed.

(** ** Other calls *)

Definition call_ok {A} (m : M nsys A) : Prop := forall t, keeps (fun ns => node_inv (t, ns)) m.

Lemma rpc_call {A} (m : M nsys A) : rpc_ok m -> call_ok m.
Proof.
  intros Hm t ns H. pose proof (Hm ns (i_owned _ H)) as Hw. unfold wp in Hw. destruct (m ns) as [[x ns']|]; [|done].
  destruct Hw. by eapply inv_rpc.
Qed.

Lemma came_up_more lcs lc started fail : came_up lcs started fail -> came_up (lcs ++ [lc]) started fail.
Proof.
  intros [[-> H]|(x & -> & H)]; [left; split; [done|]|right; exists x; split; [done|]]; by apply prefix_app_r.
Qed.

(** A registration happens before any service is started. *)
Lemma phase_more t lcs lc events : phase t initializingState lcs events -> phase t initializingState (lcs ++ [lc]) events.
Proof.
  destruct t as [[]|]; cbn; try done; try (by intros []); intros [? (st & fl & Hup & E)]; (split; [done|]); exists st, fl; (split; [|done]); by apply came_up_more.
Qed.

Lemma holds_same t n n' s : n_databases n' = n_databases n -> n_state n' = n_state n -> n_stop n' = n_stop n -> n_accman n' = n_accman n ->
  n_dirLock n' = n_dirLock n -> n_ephemKeystore n' = n_ephemKeystore n -> n_config n' = n_config n -> holds t n s -> holds t n' s.
Proof. intros E1 E2 E3 E4 E5 E6 E7 []. split; intros *; rewrite ?E1, ?E2, ?E3, ?E4, ?E5, ?E6, ?E7; eauto. Qed.

Lemma RegisterLifecycle_ok lc : call_ok (RegisterLifecycle lc).
Proof.
  intros t [n s] [Ho Hp Hn Hh]. cbn [fst snd] in *. unfold RegisterLifecycle. rewrite run_get.
  destruct (negb _) eqn:Est; [done|]. apply negb_false_iff, bool_decide_eq_true in Est.
  destruct (containsLifecycle _ _) eqn:Ec; [done|]. cbn. split; cbn [fst snd].
  - by apply (owned_same n _ s s).
  - cbn. rewrite Est in *. by apply phase_more.
  - cbn. apply NoDup_app. split; [done|]. split; [|apply NoDup_singleton]. intros x Hx ->%list_elem_of_singleton.
    assert (containsLifecycle (n_lifecycles n) lc = true) as E; [|congruence].
    apply existsb_exists. exists lc. split; [by apply list_elem_of_In|apply Z.eqb_refl].
  - by apply (holds_same t n).
Qed.

Lemma RegisterAPIs_ok apis : call_ok (RegisterAPIs apis).
Proof.
  intros t [n s] [Ho Hp Hn Hh]. cbn [fst snd] in *. unfold RegisterAPIs. rewrite run_get.
  destruct (negb _); [done|]. cbn. split; cbn [fst snd]; [by apply (owned_same n _ s s)|done|done|by apply (holds_same t n)].
Qed.

Lemma RegisterHandler_ok name path handler : call_ok (RegisterHandler name path handler).
Proof.
  intros t [n s] [Ho Hp Hn Hh]. cbn [fst snd] in *. unfold RegisterHandler. rewrite run_get.
  destruct (negb _); [done|]. destruct (_ || _); [done|]. cbn. split; cbn [fst snd]; [|done|done|by apply (holds_same t n)].
  destruct Ho as [[A B C D] Hi]. by split; [split|].
Qed.

Lemma OpenDatabase_ok shardid name : call_ok (OpenDatabase shardid name).
Proof.
  intros t [n s] H. unfold OpenDatabase. rewrite run_get. case_bool_decide as Est; [done|].
  assert (Hok : node_inv (t, (set_databases ({[List.length (sy_dbs s)]} ∪ n_databases n) n, set_dbs (sy_dbs s ++ [O]) s))).
  { destruct H as [Ho Hp Hn []]. cbn [fst snd] in *. split; cbn [fst snd]; [by apply (owned_same n _ s _)|done|done|].
    split; cbn; try done. intros db. rewrite elem_of_union, elem_of_singleton, h_dbs0, lookup_snoc_Some. split.
    - intros [->|Hd]; [right; by split|left; split; [by eapply lookup_lt_Some|done]].
    - intros [[_ Hd]|[-> _]]; [by right|by left]. }
  case_bool_decide; [exact Hok|]. destruct (Config_ResolvePath _ _) as [path|]; [|done].
  unfold mbind, M_bind, mlift, mret, M_ret. cbn. destruct (leveldb_Open (List.length (sy_dbs s)) path); [done|exact Hok].
Qed.

Lemma CloseDatabase_ok db : call_ok (CloseDatabase db).
Proof.
  intros t [n s] [Ho Hp Hn []]. cbn [fst snd] in *. unfold CloseDatabase. rewrite run_get.
  destruct (sy_dbs s !! db) as [closes|] eqn:Ed; [|done]. cbn. split; cbn [fst snd]; [by apply (owned_same n _ s _)|done|done|].
  split; cbn; try done.
  - intros db'. rewrite elem_of_difference, elem_of_singleton, h_dbs0. destruct (decide (db' = db)) as [->|Hne].
    + rewrite list_lookup_alter_eq, Ed. split; [by intros []|done].
    + rewrite list_lookup_alter_ne by done. naive_solver.
  - intros Est. rewrite (h_closed0 Est). set_solver.
Qed.

Lemma do_call_ok c : call_ok (do_call c).
Proof.
  assert (Hret : forall A (m : M nsys A), call_ok m -> call_ok (m;; mret tt)).
  { intros A m Hm t. apply keeps_bind; [apply Hm|]. intros _. apply keeps_ret. }
  destruct c; cbn [do_call];
    auto using RegisterLifecycle_ok, RegisterAPIs_ok, RegisterHandler_ok, OpenDatabase_ok, CloseDatabase_ok, rpc_call, StartRPC_ok, StopRPC_ok, StartWS_ok, StopWS_ok.
Qed.

(** ** Runs *)

Lemma step_advance p ns x : step LStep (Some p, ns) = Some x ->
  (forall r, p <> Returned r) /\ exists p' ns', advance p ns = Some (p', ns') /\ x = (Some p', ns').
Proof.
  intros E. assert (forall r, p <> Returned r) as Hr by (intros r ->; done). split; [done|].
  destruct (advance p ns) as [[p' ns']|] eqn:Ea; destruct p; cbn [step] in E; rewrite ?Ea in E; cbn in E; simplify_eq; eauto.
Qed.

Lemma node_step_inv l x x' : step l x = Some x' -> node_inv x -> node_inv x'.
Proof.
  destruct x as [t ns]. intros E H. destruct l, t as [p|]; cbn [step] in E; try done.
  - pose proof (Start_enter_inv ns H) as Hw. unfold wp in Hw. destruct (Start_enter ns) as [[p ns']|]; cbn in E; [|done]. by simplify_eq.
  - pose proof (Close_enter_inv ns H) as Hw. unfold wp in Hw. destruct (Close_enter ns) as [[p ns']|]; cbn in E; [|done]. by simplify_eq.
  - destruct (step_advance _ _ _ E) as (_ & p' & ns' & Ea & ->). pose proof (advance_inv p ns H) as Hw. unfold wp in Hw. by rewrite Ea in Hw.
  - destruct p; simplify_eq. destruct H as [Ho Hp Hn []]. split; [done..|]. split; done.
  - pose proof (do_call_ok c (Some p) ns H) as Hw. destruct (do_call c ns) as [[[] ns']|]; cbn in E; [|done]. by simplify_eq.
  - pose proof (do_call_ok c None ns H) as Hw. destruct (do_call c ns) as [[[] ns']|]; cbn in E; [|done]. by simplify_eq.
Qed.

Lemma run_inv labels : forall x x', run labels x = Some x' -> node_inv x -> node_inv x'.
Proof.
  induction labels as [|l labels IH]; intros x x' E H; cbn [run] in E; [by simplify_eq|].
  destruct (step l x) as [x1|] eqn:E1; cbn in E; [|done]. eapply IH; [done|]. by eapply node_step_inv.
Qed.

Lemma openDataDir_wp c s r s' : openDataDir c s = Some (r, s') ->
  quiet s (set_locks (sy_locks s) s') /\ sy_dbs s' = sy_dbs s /\ sy_dirs s' = sy_dirs s /\
  match r with inl lock => lock = lock_file c | inr _ => True end /\
  match r with inl (Some f) => sy_locks s' = {[f]} ∪ sy_locks s | _ => sy_locks s' = sy_locks s end.
Proof.
  unfold openDataDir, lock_file. case_bool_decide; [intros [= <- <-]; by destruct s|]. destruct (Config_name c) as [name|]; [|done].
  unfold mbind at 1, M_bind at 1, mlift. cbn. destruct (env_MkdirAll _); [intros [= <- <-]; by destruct s|].
  unfold mbind, M_bind, mget. destruct (if bool_decide _ then _ else _); intros [= <- <-]; by destruct s.
Qed.

Lemma node_New_inv c n s : New c empty_sys = Some (inl n, s) -> node_inv (None, (n, s)).
Proof.
  unfold New. destruct (if bool_decide _ then _ else _) as [c'|]; [|done]. repeat (case_match; [done|]).
  unfold mbind, M_bind, mget, mmodify. destruct (openDataDir c' _) as [[r s1]|] eqn:Eo; [|done].
  destruct (openDataDir_wp _ _ _ _ Eo) as (((_ & _ & _) & Eop & En & Eg) & Ed & Edi & Elf & Elk). cbn in Eop, En, Eg, Ed, Edi.
  destruct r as [lock|]; [|done]. destruct (makeAccountManager c') as [[am eph]|] eqn:Eam; [|done].
  assert (Ham : am_running am = true).
  { unfold makeAccountManager in Eam. repeat case_match; simplify_eq; done. }
  set (n1 := mk_Node _ _ _ _ _ _ _ _ _ _ _ _ _).
  assert (Hgen : forall s2, sy_open s2 = sy_open s1 -> sy_next s2 = sy_next s1 -> sy_log s2 = sy_log s1 -> sy_dbs s2 = sy_dbs s1 -> sy_locks s2 = sy_locks s1 ->
    (forall d, d ∈ sy_dirs s2 -> d = eph /\ d <> []) -> node_inv (None, (n1, s2))).
  { intros s2 Q1 Q2 Q3 Q4 Q5 Q6. split; cbn [fst snd]; [|cbn; by rewrite Q3, Eg|apply NoDup_nil_2|].
    - split; [|by intros [? ?]]. cbn [fst snd]. split; unfold slots; cbn; rewrite ?Q1, ?Q2, ?Q3, ?Eop, ?En, ?Eg.
      + intros l. split; [set_solver|]. intros Hl. repeat (apply elem_of_cons in Hl as [?|Hl]; [done|]). by apply elem_of_nil in Hl.
      + intros [|[|[|i]]] j l; done.
      + intros l Hl. repeat (apply elem_of_cons in Hl as [?|Hl]; [done|]). by apply elem_of_nil in Hl.
      + intros l Hl. repeat (apply elem_of_cons in Hl as [?|Hl]; [done|]). by apply elem_of_nil in Hl.
    - split; cbn; rewrite ?Q4, ?Q5, ?Ed; try done.
      + intros f ->. rewrite Elk. set_solver.
      + intros f Hf. left. destruct lock as [f'|]; rewrite Elk in Hf; set_solver. }
  clearbody n1. unfold mret, M_ret. destruct (bool_decide (eph = [])) eqn:Eeph; intros E; simplify_eq; apply Hgen; try done; cbn; rewrite Edi.
  - set_solver.
  - apply bool_decide_eq_false in Eeph. set_solver.
Qed.

Lemma execute_inv c labels x : execute c labels = Some x -> node_inv x.
Proof.
  unfold execute. destruct (New c empty_sys) as [[[n|e] s]|] eqn:E; cbn; [|done..]. intros Hr. eapply run_inv; [done|by eapply node_New_inv].
Qed.

(** ** Theorems *)

(** Services come up in order, and go down in reverse, completely once the node
    is closed. *)
Definition orderly (st : node_state) (lcs : list Z) (events : list event) : Prop :=
  exists started fail stopped, came_up lcs started fail /\ stopped `prefix_of` rev started /\
    events = (EvStart <$> started) ++ fail ++ (EvStop <$> stopped) /\ (st = closedState -> stopped = rev started).

Lemma orderly_up st lcs started fail : st <> closedState -> came_up lcs started fail -> orderly st lcs ((EvStart <$> started) ++ fail).
Proof. intros Hst Hup. exists started, fail, []. split_and!; [done|apply prefix_nil|by rewrite app_nil_r|done]. Qed.

Lemma orderly_down st lcs events : all_stopped lcs events -> orderly st lcs events.
Proof. intros (st' & fl & Hup & E). exists st', fl, (rev st'). by split_and!. Qed.

Lemma phase_orderly t st lcs events : phase t st lcs events -> orderly st lcs events.
Proof.
  assert (Hidle : phase None st lcs events -> orderly st lcs events).
  { cbn. destruct st; intros E; [subst|subst|by apply orderly_down].
    - apply (orderly_up _ _ [] []); [done|]. left. split; [done|apply prefix_nil].
    - rewrite <- (app_nil_r (EvStart <$> lcs)). apply orderly_up; [done|by left]. }
  destruct t as [[]|]; cbn [phase]; [..|done|done].
  - intros (-> & -> & ->). rewrite <- (app_nil_r (EvStart <$> started)). apply orderly_up; [done|]. left. split; [done|by eexists].
  - intros (-> & fl & Hup & ->). by apply orderly_up.
  - intros (-> & up & dn & fl & Hup & Er & ->). exists up, fl, dn. split_and!; [done|rewrite Er; by eexists|done|done].
  - intros [_ ?]. by apply orderly_down.
  - intros [_ ?]. by apply orderly_down.
Qed.

(** C14: in every interleaving, services are started in the order of their
    registration, at most one fails to start and no other is started after it,
    and services are stopped once each, the last one first; when the node is
    closed, exactly those that came up have been stopped. *)
Theorem services_stop_in_reverse c labels t n s :
  execute c labels = Some (t, (n, s)) ->
  NoDup (n_lifecycles n) /\
  exists started fail stopped, came_up (n_lifecycles n) started fail /\ stopped `prefix_of` rev started /\
    svc_events (sy_log s) = (EvStart <$> started) ++ fail ++ (EvStop <$> stopped) /\
    (n_state n = closedState -> stopped = rev started).
Proof. intros [_ Hp Hn _]%execute_inv. split; [done|]. exact (phase_orderly _ _ _ _ Hp). Qed.

(** C7: once a node is closed and [Close] or [Start] has let it go, waiters are
    released, the account manager has ended, every database that was opened
    through it is closed, the lock and the temporary key directory are gone
    unless the system refused, and only listeners opened after the servers were
    stopped can be open. *)
Theorem closed_node_holds_nothing c labels t n s :
  execute c labels = Some (t, (n, s)) -> n_state n = closedState -> releasing t = false ->
  n_stop n = true /\ am_running (n_accman n) = false /\
  (forall db closes, sy_dbs s !! db = Some closes -> (0 < closes)%nat) /\
  (forall f, f ∈ sy_locks s -> is_Some (os_Release f)) /\
  (forall d, d ∈ sy_dirs s -> is_Some (env_RemoveAll d)) /\
  (forall l, l ∈ sy_open s -> l ∈ live (sy_log s)).
Proof.
  intros [[[Ho _ _ Hl] _] _ _ []]%execute_inv Est Ht. cbn [fst snd] in *.
  assert (Estop : n_stop n = true) by (rewrite h_stop0, Est, Ht; done).
  split_and!; [done|by rewrite h_accman0, Estop|..].
  - intros db [|closes] E; [|lia]. apply h_dbs0 in E. rewrite (h_closed0 Est) in E. set_solver.
  - intros f Hf. destruct (h_locks0 f Hf) as [E|?]; [|done]. rewrite (h_unlocked0 Estop) in E. done.
  - eauto.
  - intros l Hl'. by apply Hl, Ho.
Qed.

(** The steps of [Start] or [Close] in a run. *)
Definition is_step (l : label) : bool := match l with LStep => true | _ => false end.
Definition steps_in (labels : list label) : nat := List.length (filter (fun l => is_step l = true) labels).

Lemma run_steps labels : forall p ns p' ns', run labels (Some p, ns) = Some (Some p', ns') -> LReturn ∉ labels ->
  (steps_in labels + pc_measure p' <= pc_measure p)%nat.
Proof.
  unfold steps_in. induction labels as [|l labels IH]; intros p ns p' ns' E Hnr; cbn [run] in E; [simplify_eq; done|].
  apply not_elem_of_cons in Hnr as [Hl Hnr]. destruct (step l (Some p, ns)) as [[t1 ns1]|] eqn:E1; cbn in E; [|done].
  destruct l; try done.
  - destruct (step_advance _ _ _ E1) as (Hp & p1 & ns2 & Ea & [= -> ->]). rewrite filter_cons_True by done. cbn [List.length].
    pose proof (advance_measure _ _ _ _ Ea Hp). specialize (IH _ _ _ _ E Hnr). lia.
  - rewrite filter_cons_False by done. cbn [step] in E1. destruct (do_call c ns) as [[[] ns2]|]; cbn in E1; [|done]. simplify_eq. by eapply IH.
Qed.

(** [Start] and [Close] always return: whatever calls run in between, their
    next step neither panics nor blocks, and no more steps are taken than the
    measure says, which is linear in the number of services. *)
Theorem start_and_close_return c labels p ns :
  execute c labels = Some (Some p, ns) ->
  ((exists r, p = Returned r) \/ is_Some (step LStep (Some p, ns))) /\
  (forall labels' p' ns', run labels' (Some p, ns) = Some (Some p', ns') -> LReturn ∉ labels' ->
     (steps_in labels' + pc_measure p' <= pc_measure p)%nat).
Proof.
  intros H%execute_inv. split; [|intros labels' p' ns'; apply run_steps].
  pose proof (advance_inv p ns H) as Hw. unfold wp in Hw. destruct (advance p ns) as [[p' ns']|] eqn:E; [|done].
  destruct p; try (right; cbn [step]; rewrite E; by eexists). left. by eexists.
Qed.

(** What [Start] leaves behind on its way to a return. *)
Definition start_side (p : pc) (ns : nsys) : Prop :=
  match p with
  | Starting _ _ | StoppingRPC _ (InStart _) => True
  | Stopping _ _ (InStart _) | Closing _ (InStart _) => sy_open (snd ns) = ∅
  | Releasing _ (InStart _) => n_state (fst ns) = closedState /\ sy_open (snd ns) = ∅
  | Returned None => n_state (fst ns) = runningState
  | Returned (Some _) => n_state (fst ns) = closedState /\ sy_open (snd ns) = ∅
  | _ => False
  end.

Lemma slots_closed ns : owned ns -> slots (fst ns) = [None; None; None] -> sy_open (snd ns) = ∅.
Proof.
  intros [[Ho _ _ _] _] E. rewrite E in Ho. apply set_eq. intros l. rewrite Ho. split; [|set_solver]. intros Hl.
  repeat (apply elem_of_cons in Hl as [?|Hl]; [done|]). by apply elem_of_nil in Hl.
Qed.

Lemma release_keeps errs e :
  keeps (fun ns : nsys => n_state (fst ns) = closedState /\ sy_open (snd ns) = ∅) (doClose_release errs (InStart e)).
Proof.
  unfold doClose_release, accman_Close, closeDataDir, close_stop, on_node, on_world. keeps_solve; by apply keeps_modify.
Qed.

Lemma release_returns errs e ns p ns' : doClose_release errs (InStart e) ns = Some (p, ns') -> p = Returned (Some e).
Proof. unfold doClose_release, mbind, M_bind, mret, M_ret. intros H. repeat case_match; by simplify_eq. Qed.

Lemma start_side_step p ns : node_inv (Some p, ns) -> start_side p ns -> wp (advance p) (fun p' ns' => start_side p' ns') ns.
Proof.
  destruct ns as [n s]. intros Hinv Hs. destruct p as [todo started|running k|todo failure k|errs k|errs k|r]; cbn [advance].
  - unfold start_next. destruct todo as [|lc todo]; [|destruct (lc_Start lc); unfold on_world; wp_steps; done].
    wp_steps. cbn. by destruct (i_phase _ Hinv) as [? _].
  - destruct k as [e|]; [|done]. apply wp_bind. eapply wp_mono; [apply stopRPC_wp, (i_owned _ Hinv)|]. intros [] ns' (_ & Ho & E).
    wp_steps. by apply slots_closed.
  - destruct k as [e|]; [|done]. unfold stop_next, on_world. destruct todo; wp_steps; done.
  - destruct k as [e|]; [|done]. cbn in Hs. unfold doClose_locked, closeDatabases, on_node, on_world. wp_steps. cbn [fst snd start_side n_databases set_state].
    split; [done|]. destruct (close_dbs_lookup (db_range (n_databases n)) s) as [(_ & Eo & _) _]; [apply db_range_spec|]. cbn in Eo. by rewrite Eo.
  - destruct k as [e|]; [|done]. pose proof (advance_inv _ _ Hinv) as Hw. cbn [advance] in Hw. pose proof (release_keeps errs e (n, s) Hs) as Hk.
    unfold wp in *. destruct (doClose_release errs (InStart e) (n, s)) as [[p' ns']|] eqn:E; [|done].
    by rewrite (release_returns _ _ _ _ _ E).
  - by wp_steps.
Qed.

(** A computation that only continues reaches its return within the measure. *)
Lemma finish_wp (Q : pc -> nsys -> Prop) :
  (forall p ns, Q p ns -> (forall r, p <> Returned r) -> wp (advance p) Q ns) ->
  forall fuel p ns, (pc_measure p <= fuel)%nat -> Q p ns -> wp (finish fuel p) (fun r => Q (Returned r)) ns.
Proof.
  intros HQ. induction fuel as [|fuel IH]; intros p ns Hm Hq.
  { destruct p; cbn in Hm; try lia. by wp_steps. }
  assert (Hstep : (forall r, p <> Returned r) -> wp (p' ← advance p; finish fuel p') (fun r => Q (Returned r)) ns).
  { intros Hp. apply wp_bind. pose proof (HQ p ns Hq Hp) as Hw. unfold wp in Hw. unfold wp at 1.
    destruct (advance p ns) as [[p' ns']|] eqn:E; [|done]. apply IH; [|done]. pose proof (advance_measure _ _ _ _ E Hp). lia. }
  destruct p; try (by apply Hstep). by wp_steps.
Qed.

(** C20: without calls in between, [Start] of a new node either succeeds with
    every service running, or returns an error and leaves the node closed: the
    services that had come up are stopped, no listener is open and waiters are
    released. *)
Theorem start_is_all_or_nothing c labels n s :
  execute c labels = Some (None, (n, s)) -> n_state n = initializingState ->
  exists r n' s', Start (n, s) = Some (r, (n', s')) /\
    match r with
    | None => n_state n' = runningState /\ svc_events (sy_log s') = EvStart <$> n_lifecycles n'
    | Some _ => n_state n' = closedState /\ all_stopped (n_lifecycles n') (svc_events (sy_log s')) /\ sy_open s' = ∅ /\ n_stop n' = true
    end.
Proof.
  intros H%execute_inv Est. assert (Hw : wp Start (fun r ns' => node_inv (Some (Returned r), ns') /\ start_side (Returned r) ns') (n, s)).
  { unfold Start. apply wp_bind. pose proof (Start_enter_inv _ H) as He. unfold wp in He. unfold wp at 1.
    destruct (Start_enter (n, s)) as [[p ns1]|] eqn:E; [|done].
    apply (finish_wp (fun p ns => node_inv (Some p, ns) /\ start_side p ns)); [|done|split; [done|]].
    - intros p0 ns0 [H1 H2] _. pose proof (advance_inv _ _ H1) as W1. pose proof (start_side_step _ _ H1 H2) as W2.
      unfold wp in *. by destruct (advance p0 ns0) as [[? ?]|].
    - unfold Start_enter in E. rewrite run_get, Est in E. unfold on_node in E. rewrite run_modify in E. cbn [fst snd] in E.
      assert (Ho1 : owned (set_state runningState n, s)) by (apply (owned_same n _ s s); [done..|apply (i_owned _ H)]).
      pose proof (startNetworking_wp _ Ho1) as Hnet. unfold wp in Hnet. unfold mbind, M_bind in E.
      destruct (startNetworking _) as [[[e|] ns2]|]; [..|done]; unfold mret, M_ret in E; simplify_eq; cbn; [|done].
      destruct Hnet as (_ & Ho & Hsl). apply slots_closed; [done|]. by apply Hsl. }
  apply wp_run in Hw as (r & [n' s'] & E & Hinv & Hs). exists r, n', s'. split; [done|]. destruct Hinv as [_ Hp _ []]. cbn [fst snd start_side phase] in *.
  destruct r as [e|]; cbn in Hs.
  - destruct Hs as [Hst Hopen]. rewrite Hst in *. split_and!; [done..|]. by rewrite h_stop0.
  - by rewrite Hs in *.
Qed.

(** The lock of a directory that is in use is refused. *)
Lemma openDataDir_used c s file : lock_file c = Some file -> file ∈ sy_locks s ->
  exists e, openDataDir c s = Some (inr e, s) /\ ((forall dir, env_MkdirAll dir = None) -> e = ErrDatadirUsed).
Proof.
  unfold lock_file, openDataDir. case_bool_decide; [done|]. destruct (Config_name c) as [name|]; [|done].
  rewrite (run_lift (Some name) _ _ name) by done. cbv zeta. intros [= <-] Hin. destruct (env_MkdirAll (path_Join (c_DataDir c) name)) eqn:Em; [eexists; split; [done|]; intros Hm; by rewrite Hm in Em|].
  rewrite run_get, bool_decide_true by done. eexists. by split.
Qed.

(** as long as a node has not let go of its data directory, creating another
    one on the same directory with the same name fails. *)
Theorem one_node_per_directory c labels t n s c' :
  execute c labels = Some (t, (n, s)) -> n_stop n = false -> c_DataDir (n_config n) <> [] ->
  c_DataDir c' <> [] -> env_Abs (c_DataDir c') = inl (c_DataDir (n_config n)) ->
  c_Name c' = c_Name (n_config n) -> c_Name c' <> [] ->
  exists e s', New c' s = Some (inr e, s').
Proof.
  intros [_ _ _ []]%execute_inv Estop Hd Hd' Ha En Hne. cbn [fst snd] in *.
  set (file := path_Join (path_Join (c_DataDir (n_config n)) (c_Name c')) (lit "LOCK")).
  assert (Hf : file ∈ sy_locks s).
  { apply h_locked0. rewrite (h_lockfile0 Estop). unfold lock_file, Config_name. rewrite bool_decide_false by done.
    rewrite <- En, bool_decide_false by done. done. }
  unfold New. rewrite bool_decide_false by done. rewrite Ha. repeat (case_match; [by eexists _, _|]).
  unfold mbind, M_bind, mget, mmodify.
  destruct (openDataDir_used (with_DataDir (c_DataDir (n_config n)) c') (new_server [] s) file) as (e & Eo & _); [|done|].
  - unfold lock_file, Config_name. cbn. rewrite !bool_decide_false by done. done.
  - rewrite Eo. by eexists _, _.
Qed.

(** when the key directory cannot be made, the creation of a node fails but
    keeps the lock of the data directory: the process cannot create the node any
    more, even if the key directory can be made then. *)
Theorem failed_creation_keeps_the_lock c s dir e :
  c_DataDir c <> [] -> env_Abs (c_DataDir c) = inl dir -> dir <> [] ->
  contains_any (c_Name c) (lit "/\") = false -> c_Name c <> datadirDefaultKeyStore -> has_suffix (lit ".ipc") (c_Name c) = false ->
  c_Name c <> [] -> env_MkdirAll (path_Join dir (c_Name c)) = None ->
  path_Join (path_Join dir (c_Name c)) (lit "LOCK") ∉ sy_locks s -> os_Flock (path_Join (path_Join dir (c_Name c)) (lit "LOCK")) = None ->
  makeAccountManager (with_DataDir dir c) = inr e ->
  exists s', New c s = Some (inr (ErrSys e), s') /\ forall s1, sy_locks s1 = sy_locks s' -> exists s2, New c s1 = Some (inr ErrDatadirUsed, s2).
Proof.
  intros Hd Ha Hdir H1 H2 H3 Hne Hm Hl Hfl Ham.
  set (file := path_Join (path_Join dir (c_Name c)) (lit "LOCK")) in *.
  assert (Hnew : forall s0, New c s0 = match openDataDir (with_DataDir dir c) (new_server [] s0) with
    | Some (inl lock, s3) => Some (inr (ErrSys e), s3) | Some (inr err, s3) => Some (inr err, s3) | None => None end).
  { intros s0. unfold New. rewrite bool_decide_false by done. rewrite Ha. cbn [c_Name with_DataDir]. rewrite H1, bool_decide_false, H3 by done.
    unfold mbind, M_bind, mget, mmodify. destruct (openDataDir _ _) as [[[lock|err] s3]|]; [|done..]. by rewrite Ham. }
  assert (Ho : forall s0, openDataDir (with_DataDir dir c) s0 =
    match (if bool_decide (file ∈ sy_locks s0) then Some (Errno 11) else None) with
    | Some err => Some (inr (convertFileLockError err), s0) | None => Some (inl (Some file), set_locks ({[file]} ∪ sy_locks s0) s0) end).
  { intros s0. unfold openDataDir, Config_name. cbn [c_DataDir c_Name with_DataDir]. rewrite !bool_decide_false by done.
    rewrite (run_lift (Some (c_Name c)) _ _ (c_Name c)) by done. cbv zeta. fold file. rewrite Hm, run_get, Hfl. by case_bool_decide. }
  eexists. rewrite Hnew, Ho. rewrite bool_decide_false by done. split; [done|].
  intros s1 E1. rewrite Hnew, Ho. cbn [sy_locks new_server set_servers]. rewrite E1. cbn. rewrite bool_decide_true by set_solver. by eexists.
Qed.

End NodeSpec.

(** ** A concrete node *)
Module NodeToy.

Definition toy_env : NodeEnv := {|
  env_GOOS := lit "linux"; env_GOARCH := lit "amd64"; env_Version := lit "go1.14"; env_args0 := lit "/bin/benzene";
  env_TempDir := lit "/tmp"; env_home := lit "/root"; env_LocalAppData := []; env_nonempty_dir := fun _ => false;
  env_file_exists := fun _ => false;
  env_Abs := fun path => if path_IsAbs path then inl path else inl (path_Join (lit "/cwd") path);
  env_MkdirTemp := inl (lit "/tmp/benzene-keystore1");
  env_MkdirAll := fun path => if bool_decide (path = lit "/readonly") then Some (Errno 30) else None;
  env_RemoveAll := fun _ => None |}.

(** Port 1 cannot be bound. *)
Definition toy_net : NetEnv := {|
  net_Listen := fun _ endpoint => if bool_decide (endpoint = lit "localhost:1") then inr (Errno 13) else inl endpoint;
  rpc_RegisterName := fun name _ => if bool_decide (name = []) then Some (SysError 1) else None;
  rpc_StartIPC := fun _ _ _ => None;
  ipc_Close := fun _ => None |}.

Definition toy_unicode : GoUnicode := {| lower_unicode := fun s => s |}.

(** Service 3 does not start, service 2 does not stop. *)
Definition toy_lib : NodeLib := {|
  os_Flock := fun _ => None; os_Release := fun _ => None; leveldb_Open := fun _ _ => None; db_Close := fun _ _ => None;
  lc_Start := fun lc => if lc =? 3 then Some 9 else None; lc_Stop := fun lc => if lc =? 2 then Some 8 else None; lc_type := fun lc => lc |}.

#[local] Existing Instances toy_env toy_net toy_unicode toy_lib canonical_order.

Definition toy_config (dir keydir : gostr) (httpPort wsPort : Z) : Config :=
  mk_Config (lit "node") [] [] dir keydir false false (lit "n.ipc") (lit "localhost") httpPort [] [lit "localhost"] [] DefaultHTTPTimeouts
    (lit "localhost") wsPort [] [] false.

Definition good_config : Config := toy_config (lit "/data") [] 8545 8546.

(** Two services, a database each before and after the start, closed while a
    database is opened and another one closed by its service. *)
Definition toy_labels : list label :=
  [LCall (CallLifecycle 1); LCall (CallLifecycle 2); LCall (CallOpen 0 (lit "chaindata")); LStart; LStep; LStep; LStep; LReturn;
   LCall (CallOpen 1 (lit "chaindata")); LClose; LStep; LStep; LCall (CallCloseDb 0); LCall (CallOpen 2 (lit "chaindata")); LStep; LStep; LStep; LStep; LReturn].

Lemma toy_run : exists n s, execute good_config toy_labels = Some (None, (n, s)) /\ n_state n = closedState.
Proof. eexists _, _. split; (vm_compute; reflexivity). Qed.

Lemma services_stop_in_reverse_witness : exists n s,
  execute good_config toy_labels = Some (None, (n, s)) /\ n_state n = closedState /\ NoDup (n_lifecycles n).
Proof.
  destruct toy_run as (n & s & E & Hst). exists n, s. split; [exact E|]. split; [exact Hst|].
  exact (proj1 (services_stop_in_reverse _ _ _ _ _ E)).
Defined.

Lemma closed_node_holds_nothing_witness : exists n s,
  execute good_config toy_labels = Some (None, (n, s)) /\ n_stop n = true.
Proof.
  destruct toy_run as (n & s & E & Hst). exists n, s. split; [exact E|].
  exact (proj1 (closed_node_holds_nothing _ _ _ _ _ E Hst eq_refl)).
Defined.

(** The same run in the middle of the stopping of services. *)
Lemma toy_middle : exists p ns, execute good_config (take 12 toy_labels) = Some (Some p, ns).
Proof. eexists _, _. vm_compute. reflexivity. Qed.

Lemma start_and_close_return_witness : exists p ns,
  execute good_config (take 12 toy_labels) = Some (Some p, ns) /\ ((exists r, p = Returned r) \/ is_Some (step LStep (Some p, ns))).
Proof.
  destruct toy_middle as (p & ns & E). exists p, ns. split; [exact E|]. exact (proj1 (start_and_close_return _ _ _ _ E)).
Defined.

(** A node whose third service fails, and one whose port is taken. *)
Lemma toy_new labels : labels = [LCall (CallLifecycle 1); LCall (CallLifecycle 3)] ->
  exists n s, execute good_config labels = Some (None, (n, s)) /\ n_state n = initializingState.
Proof. intros ->. eexists _, _. split; (vm_compute; reflexivity). Qed.

Lemma start_is_all_or_nothing_witness : exists n s r n' s',
  execute good_config [LCall (CallLifecycle 1); LCall (CallLifecycle 3)] = Some (None, (n, s)) /\ Start (n, s) = Some (r, (n', s')).
Proof.
  destruct (toy_new _ eq_refl) as (n & s & E & Hst). destruct (start_is_all_or_nothing _ _ _ _ E Hst) as (r & n' & s' & H & _).
  exists n, s, r, n', s'. split; [exact E|exact H].
Defined.

Lemma one_node_per_directory_witness : exists n s e s',
  execute good_config [] = Some (None, (n, s)) /\ New good_config s = Some (inr e, s').
Proof.
  assert (exists n s, execute good_config [] = Some (None, (n, s)) /\ n_stop n = false /\ n_config n = good_config) as (n & s & E & Hs & Hc).
  { eexists _, _. split_and!; (vm_compute; reflexivity). }
  destruct (one_node_per_directory _ _ _ _ _ good_config E Hs) as (e & s' & H); rewrite ?Hc; try done.
  exists n, s, e, s'. split; [exact E|exact H].
Defined.

(** The key directory cannot be made. *)
Definition bad_config : Config := toy_config (lit "/data") (lit "/readonly") 8545 8546.

Lemma failed_creation_keeps_the_lock_witness : exists s', New bad_config empty_sys = Some (inr (ErrSys (Errno 30)), s').
Proof.
  destruct (failed_creation_keeps_the_lock bad_config empty_sys (lit "/data") (Errno 30)) as (s' & H & _); try done.
  by exists s'.
Defined.

End NodeToy.
