(* ===== verification/RpcSpec.v ===== *)
(** * Theorems about the RPC servers

    Which requests reach which interfaces, and what stopping and starting a
    server does. *)
From stdpp Require Import gmap list.
From Stdlib Require Import ZArith Lia String.
From S2P Require Import Prelude GoString GoSys NodeConfig RpcStack Node NodeInv NodeSpec.

Local Open Scope Z_scope.

Section RpcSpec.
Context `{env : !NodeEnv} `{net : !NetEnv} `{uni : !GoUnicode} `{lib : !NodeLib} {order : RangeOrder}.

(** ** Interfaces *)

(** An interface that a configuration lets out. *)
Definition let_out (modules : list gostr) (api : API) : Prop :=
  api_Namespace api ∈ modules \/ (modules = [] /\ api_Public api = true).

Definition entry (api : API) : gostr * Z := (api_Namespace api, api_Service api).

Lemma register_all_ok apis : forall srv srv', register_all apis srv = (srv', None) -> srv' = srv ++ (entry <$> apis).
Proof.
  induction apis as [|api apis IH]; intros srv srv'; cbn [register_all]; [intros [= ->]; by rewrite app_nil_r|].
  destruct (rpc_RegisterName _ _); [done|]. intros ->%IH. by rewrite <- app_assoc.
Qed.

(** Registration without failure offers exactly the interfaces that are let
    out, in their order. *)
Lemma whitelist_ok apis modules srv : RegisterApisFromWhitelist apis modules false = (srv, None) ->
  exists sel, srv = entry <$> sel /\ sel `sublist_of` apis /\ forall api, api ∈ apis -> api ∈ sel <-> let_out modules api.
Proof.
  intros ->%register_all_ok. eexists. split; [done|]. split; [apply sublist_filter|].
  intros api Hin. rewrite list_elem_of_filter. unfold exposed, let_out. cbn [orb].
  rewrite orb_true_iff, andb_true_iff, !bool_decide_eq_true. tauto.
Qed.

(** ** Hosts *)

(** The requests that a list of virtual hosts lets in. *)
Definition host_allowed (vhosts : list gostr) (r : request) : Prop :=
  let host := default (r_Host r) (SplitHostPort (r_Host r)) in
  r_Host r = [] \/ is_ip host = true \/ lit "*" ∈ ToLower <$> vhosts \/ host ∈ ToLower <$> vhosts.

Lemma vhost_spec vhosts r : vhost_ServeHTTP (newVHostHandler vhosts) r = true <-> host_allowed vhosts r.
Proof.
  unfold vhost_ServeHTTP, newVHostHandler, host_allowed. rewrite <- !(elem_of_list_to_set (C := gset gostr)).
  case_bool_decide; [tauto|]. cbv zeta. destruct (is_ip _); [tauto|]. case_bool_decide; [tauto|].
  rewrite bool_decide_eq_true. naive_solver.
Qed.


(** ** Stopping and starting WebSocket connections *)

Lemma try_then_err {S} (m k : M S (option node_error)) s e s' : m s = Some (Some e, s') -> try_then m k s = Some (Some e, s').
Proof. intros E. unfold try_then. by rewrite (run_bind _ _ _ _ _ E). Qed.

Lemma try_then_ok {S} (m k : M S (option node_error)) s s' : m s = Some (None, s') -> try_then m k s = k s'.
Proof. intros E. unfold try_then. by rewrite (run_bind _ _ _ _ _ E). Qed.

Lemma try_then_none {S} (m k : M S (option node_error)) s s2 : try_then m k s = Some (None, s2) ->
  exists s1, m s = Some (None, s1) /\ k s1 = Some (None, s2).
Proof. unfold try_then, mbind, M_bind. destruct (m s) as [[[e|] s1]|]; [done| |done]. eauto. Qed.

(** A server that serves WebSocket connections only. *)
Definition ws_only (h : httpServer) : Prop := hs_httpHandler h = None /\ is_Some (hs_wsHandler h).

Lemma on_server_inv {A} w (m : M hstate A) n s x n' s' : on_server w m (n, s) = Some (x, (n', s')) ->
  exists h, m (the_server w n, s) = Some (x, (h, s')) /\ the_server w n' = h /\
    n' = match w with HTTP => set_rpc h (n_ws n) (n_ipc n) n | WS => set_rpc (n_http n) h (n_ipc n) n end.
Proof.
  unfold on_server. destruct (m (the_server w n, s)) as [[y [h s1]]|]; [|done]. intros [= <- <- <-]. exists h. by destruct w.
Qed.

(** After a successful start the server has its handler and its listener. *)
Lemma ws_started h s h1 s1 h2 s2 h3 s3 host port apis config :
  hs_httpHandler h = None -> hs_wsHandler h = None -> hs_listener h = None ->
  setListenAddr host port (h, s) = Some (None, (h1, s1)) -> enableWS apis config (h1, s1) = Some (None, (h2, s2)) ->
  start (h2, s2) = Some (None, (h3, s3)) -> ws_only h3 /\ is_Some (hs_listener h3).
Proof.
  intros Hh Hw Hl E1 E2 E3. unfold setListenAddr in E1. rewrite run_get in E1. rewrite Hl, bool_decide_false in E1 by (by intros [? ?]).
  cbn [andb] in E1. injection E1 as <- <-. unfold enableWS in E2. rewrite run_get in E2. unfold wsAllowed in E2.
  cbn [hs_wsHandler set_addr] in E2. rewrite Hw, bool_decide_false in E2 by (by intros [? ?]).
  destruct (RegisterApisFromWhitelist _ _ _) as [srv [err|]]; [done|]. injection E2 as <- <-. cbn [fst snd] in E3.
  unfold start in E3. rewrite run_get in E3. cbn [hs_endpoint set_ws set_addr hs_listener] in E3.
  rewrite Hl, (bool_decide_false (is_Some None)) in E3 by (by intros [? ?]).
  rewrite bool_decide_false in E3 by (unfold host_port; by destruct host). cbn [orb] in E3.
  unfold on_h, on_sys in E3. rewrite run_modify in E3. destruct (net_Listen _ _) as [addr|err].
  - rewrite !run_modify in E3. injection E3 as <- <-. cbn. by split; [split|].
  - exfalso. unfold mbind, M_bind in E3. repeat case_match; simplify_eq.
Qed.

(** Stopping such a server leaves its handler in place. *)
Lemma stop_ws_only h s : ws_only h -> exists h' s', stop (h, s) = Some (tt, (h', s')) /\ ws_only h' /\ hs_listener h' = None /\
  sy_servers s' = sy_servers s.
Proof.
  intros [Hh Hw]. unfold stop, doStop. rewrite run_get. destruct (hs_listener h) as [[l a]|] eqn:El.
  - rewrite Hh. eexists _, _. split; [done|]. cbn. by split_and!.
  - eexists _, _. by split_and!.
Qed.

(** on a node with JSON-RPC over HTTP on another port, WebSocket connections
    that were started and stopped through the administrative interface cannot be
    started again: the second start reports that they are already enabled, since
    stopping looks at the wrong handler; their interface server is never
    stopped. *)
Theorem stopped_websocket_cannot_restart n s host port origins apis n1 s1 :
  c_HTTPHost (n_config n) <> [] -> hs_port (n_http n) <> port -> hs_wsHandler (n_http n) = None ->
  hs_httpHandler (n_ws n) = None -> hs_wsHandler (n_ws n) = None -> hs_listener (n_ws n) = None ->
  StartWS (Some host) (Some port) origins apis (n, s) = Some (None, (n1, s1)) ->
  exists n2 s2, StopWS (n1, s1) = Some (tt, (n2, s2)) /\ sy_servers s2 = sy_servers s1 /\
    exists n3 s3, StartWS (Some host) (Some port) origins apis (n2, s2) = Some (Some ErrWSEnabled, (n3, s3)).
Proof.
  intros Hc Hp Hws0 Hh Hw Hl. unfold StartWS at 1. rewrite run_get. cbv zeta. cbn [default].
  assert (Ewhich : forall n0, n_config n0 = n_config n -> n_http n0 = n_http n -> wsServerForPort port n0 = WS).
  { intros n0 E1 E2. unfold wsServerForPort. rewrite E1, E2, bool_decide_false by done. by rewrite (proj2 (Z.eqb_neq _ _) Hp). }
  rewrite Ewhich by done. set (config := mk_wsConfig _ _).
  intros ([na sa] & (ha & Ea & _ & Ena)%on_server_inv & ([nb sb] & (hb & Eb & _ & Enb)%on_server_inv & (hc & Ec & _ & Enc)%on_server_inv)%try_then_none)%try_then_none.
  subst na. cbn [the_server n_ws set_rpc] in *. subst nb. cbn [the_server n_ws set_rpc n_http n_ipc] in *.
  destruct (ws_started _ _ _ _ _ _ _ _ _ _ _ _ Hh Hw Hl Ea Eb Ec) as [Hwo Hli].
  destruct (stop_ws_only hc s1 Hwo) as (hd & s2 & Est & Hwo2 & Hl2 & Esv).
  set (n2 := set_rpc (n_http n) hd (n_ipc n) n).
  assert (Estop : StopWS (n1, s1) = Some (tt, (n2, s2))).
  { unfold StopWS, mbind, M_bind, on_server. subst n1. cbn [the_server n_http n_ws set_rpc]. unfold stopWS, disableWS.
    unfold mbind, M_bind, mget. rewrite Hws0. cbn. rewrite Est. done. }
  exists n2, s2. split; [done|]. split; [done|]. unfold StartWS. rewrite run_get. cbv zeta. cbn [default]. rewrite Ewhich by done.
  destruct Hwo2 as [_ Hw2].
  assert (Ead : on_server WS (setListenAddr host port) (n2, s2) =
    Some (None, (set_rpc (n_http n) (set_addr (host_port host port) host port hd) (n_ipc n) n, s2))).
  { unfold on_server. cbn [the_server n2 n_ws set_rpc]. unfold setListenAddr. rewrite run_get, Hl2.
    rewrite bool_decide_false by (by intros [? ?]). done. }
  rewrite (try_then_ok _ _ _ _ Ead).
  eexists _, _. apply try_then_err. unfold on_server. cbn [the_server n_ws set_rpc]. unfold enableWS. rewrite run_get.
  unfold wsAllowed. rewrite bool_decide_true by done. done.
Qed.

End RpcSpec.

(** ** A concrete server *)
Module RpcToy.
#[local] Existing Instances NodeToy.toy_env NodeToy.toy_net NodeToy.toy_unicode NodeToy.toy_lib canonical_order.

Definition toy_apis : list API := [admin_api; mk_API (lit "bnz") 1 true].

(** A page of another site that resolves to this machine. *)
Definition rebound : request := mk_request (lit "/") (lit "evil.example:8545") [] [] (lit "gzip").


Lemma stopped_websocket_cannot_restart_witness : exists n s n1 s1 n2 s2,
  StartWS (Some (lit "localhost")) (Some 8546) None None (n, s) = Some (None, (n1, s1)) /\ StopWS (n1, s1) = Some (tt, (n2, s2)) /\
  exists n3 s3, StartWS (Some (lit "localhost")) (Some 8546) None None (n2, s2) = Some (Some ErrWSEnabled, (n3, s3)).
Proof.
  set (c := NodeToy.toy_config (lit "/data") [] 8545 8546).
  assert (exists n s n1 s1, New c empty_sys = Some (inl n, s) /\ n_config n = c /\ n_http n = newHTTPServer DefaultHTTPTimeouts /\ n_ws n = newHTTPServer DefaultHTTPTimeouts /\
    StartWS (Some (lit "localhost")) (Some 8546) None None (n, s) = Some (None, (n1, s1))) as (n & s & n1 & s1 & _ & Ec & Eh & Ew & E).
  { eexists _, _, _, _. split; [vm_compute; reflexivity|]. do 3 (split; [vm_compute; reflexivity|]). vm_compute. reflexivity. }
  destruct (stopped_websocket_cannot_restart n s (lit "localhost") 8546 None None n1 s1) as (n2 & s2 & Hs & _ & H3); rewrite ?Ec, ?Eh, ?Ew; try done.
  exists n, s, n1, s1, n2, s2. split; [exact E|]. split; [exact Hs|exact H3].
Defined.

End RpcToy.
