(* ===== verification/TxJournal.v ===== *)
(** * The journal of local transactions

    Models [core/tx_journal.go]: the file into which the pool writes the
    transactions of local accounts, so that they survive a restart.  Files are
    names for inodes, so that an open file keeps its inode when another file is
    renamed over its name; every call to the system can fail, a write after some
    of its bytes.  [TxPool] keeps the journal as the list of its transactions,
    which this file shows to be what is read back. *)
From stdpp Require Import gmap list.
From Stdlib Require Import ZArith Lia String.
From S2P Require Import Prelude GoString Transaction.

Local Open Scope Z_scope.

(** ** The disk *)

Record disk : Type := mk_disk {
  d_names : gmap gostr nat;
  d_data : list (list Z);                      (* by inode *)
  d_calls : nat                                (* system calls so far *)
}.

(** Whether a call fails, and how many bytes it writes before. *)
Class DiskFaults : Type := { fault : nat -> option nat }.

Definition set_data (v : list (list Z)) (d : disk) : disk := mk_disk (d_names d) v (d_calls d).
Definition tick (d : disk) : disk := mk_disk (d_names d) (d_data d) (S (d_calls d)).

Definition append_to (inode : nat) (bytes : list Z) (d : disk) : disk :=
  set_data (alter (fun c => c ++ bytes) inode (d_data d)) d.

(** [os.OpenFile] that creates or truncates; the inode is returned. *)
Definition create (path : gostr) (d : disk) : nat * disk :=
  match d_names d !! path with
  | Some i => (i, set_data (<[i := []]> (d_data d)) d)
  | None => let i := List.length (d_data d) in (i, mk_disk (<[path := i]> (d_names d)) (d_data d ++ [[]]) (d_calls d))
  end.

Definition rename_file (old new : gostr) (d : disk) : disk :=
  match d_names d !! old with
  | Some i => mk_disk (<[new := i]> (delete old (d_names d))) (d_data d) (d_calls d)
  | None => d
  end.

Definition content (d : disk) (path : gostr) : option (list Z) := i ← d_names d !! path; d_data d !! i.

(** ** The journal *)

Inductive journal_error : Type := errNoActiveJournal | ErrIO | ErrDecode.

(** A writer that discards, an open file, and a file that is closed. *)
Inductive jwriter : Type := devNull | FileW (inode : nat) | ClosedW.

Record txJournal : Type := mk_journal { j_path : gostr; j_writer : option jwriter }.

Definition newTxJournal (path : gostr) : txJournal := mk_journal path None.

Definition jstate : Type := txJournal * disk.

(** What a stream of transactions yields next. *)
Inductive decoded : Type := DecTx (d : txdata) (rest : list Z) | DecEOF | DecErr.

Class TxStream : Type := { stream_Decode : list Z -> decoded }.

Section Journal.
Context `{crypto : !TxCrypto} `{stream : !TxStream} `{faults : !DiskFaults} {order : RangeOrder}.

Definition set_writer (w : option jwriter) : M jstate () := mmodify (fun s => (mk_journal (j_path (fst s)) w, snd s)).
Definition on_disk (f : disk -> disk) : M jstate () := mmodify (fun s => (fst s, f (snd s))).

Definition syscall : M jstate (option nat) :=
  '(_, d) ← mget;
  on_disk tick;;
  mret (fault (d_calls d)).

(** [rlp.Encode] of a transaction to an open file. *)
Definition write_tx (inode : nat) (tx : Transaction) : M jstate (option journal_error) :=
  let bytes := rlp_encode_tx (data tx) in
  f ← syscall;
  match f with
  | None => on_disk (append_to inode bytes);; mret None
  | Some k => on_disk (append_to inode (take k bytes));; mret (Some ErrIO)
  end.

Definition insert (tx : Transaction) : M jstate (option journal_error) :=
  '(j, _) ← mget;
  match j_writer j with
  | None => mret (Some errNoActiveJournal)
  | Some devNull => mret None
  | Some (FileW inode) => write_tx inode tx
  | Some ClosedW => mret (Some ErrIO)
  end.

(** The loop of [rotate] over the transactions, up to the first failure. *)
Fixpoint write_all (inode : nat) (txs : list Transaction) : M jstate (option journal_error) :=
  match txs with
  | [] => mret None
  | tx :: txs' =>
      err ← write_tx inode tx;
      match err with
      | Some e => mret (Some e)
      | None => write_all inode txs'
      end
  end.

(** A file is closed even when that fails, and cannot be closed twice. *)
Definition close_writer (w : jwriter) : M jstate (option journal_error) :=
  match w with
  | devNull => mret None
  | FileW _ =>
      f ← syscall;
      set_writer (Some ClosedW);;
      mret (match f with Some _ => Some ErrIO | None => None end)
  | ClosedW => mret (Some ErrIO)
  end.

Definition new_path (path : gostr) : gostr := path ++ lit ".new".

(** All transactions in the order in which the map is visited. *)
Definition journaled (all : gmap Address (list Transaction)) : list Transaction := List.concat (snd <$> map_range all).

(** After the old journal is closed. *)
Definition regenerate (path : gostr) (txs : list Transaction) : M jstate (option journal_error) :=
  f ← syscall;
  match f with
  | Some _ => mret (Some ErrIO)
  | None =>
      '(_, d) ← mget;
      let '(inode, d') := create (new_path path) d in
      on_disk (fun _ => d');;
      err ← write_all inode txs;
      match err with
      | Some e => syscall;; mret (Some e)
      | None =>
          syscall;;
          f ← syscall;
          match f with
          | Some _ => mret (Some ErrIO)
          | None =>
              on_disk (rename_file (new_path path) path);;
              f ← syscall;
              '(_, d) ← mget;
              match f, d_names d !! path with
              | None, Some sink => set_writer (Some (FileW sink));; mret None
              | _, _ => mret (Some ErrIO)
              end
          end
      end
  end.

Definition rotate (all : gmap Address (list Transaction)) : M jstate (option journal_error) :=
  '(j, _) ← mget;
  match j_writer j with
  | Some w =>
      err ← close_writer w;
      match err with
      | Some e => mret (Some e)
      | None => set_writer None;; regenerate (j_path j) (journaled all)
      end
  | None => regenerate (j_path j) (journaled all)
  end.

Definition close : M jstate (option journal_error) :=
  '(j, _) ← mget;
  match j_writer j with
  | Some w => err ← close_writer w; set_writer None;; mret err
  | None => mret None
  end.

(** ** Loading *)

(** The loop of [load]: batches are handed to the pool when they hold more than
    1024 transactions, and at the end.  [None] is an input that is read longer
    than it is. *)
Fixpoint load_loop (fuel : nat) (now : Z) (input : list Z) (batch : list Transaction) : option (list (list Transaction) * option journal_error) :=
  match fuel with
  | O => None
  | S fuel' =>
      let last := if bool_decide (batch = []) then [] else [batch] in
      match stream_Decode input with
      | DecEOF => Some (last, None)
      | DecErr => Some (last, Some ErrDecode)
      | DecTx d rest =>
          let batch' := batch ++ [mk_Transaction d now] in
          if 1024 <? Z.of_nat (List.length batch') then
            '(batches, err) ← load_loop fuel' now rest [];
            Some (batch' :: batches, err)
          else load_loop fuel' now rest batch'
      end
  end.

(** [load] hands the batches to [add] one after the other; meanwhile the writer
    discards, and there is none afterwards. *)
Definition load {P E} (add : list Transaction -> M P (list (option E))) (now : Z) (j : txJournal) (d : disk)
    : M P (option journal_error * txJournal * disk) :=
  match fault (d_calls d), content d (j_path j) with
  | None, None => mret (None, j, tick d)
  | _, file =>
      let d := tick d in
      match fault (d_calls d), file with
      | None, Some input =>
          '(batches, failure) ← mlift (load_loop (S (List.length input)) now input []);
          mfor batches (fun txs => add txs;; mret tt);;
          mret (failure, mk_journal (j_path j) None, tick d)
      | _, _ => mret (Some ErrIO, j, tick d)
      end
  end.

End Journal.

(** ** Encodings of lists *)

(** What is relied on of RLP: encodings are decoded wherever they stand, and one
    that is cut off is an error. *)
Class StreamLaws `{!TxCrypto} `{!TxStream} : Prop := {
  dec_nil : stream_Decode [] = DecEOF;
  dec_tx d rest : encodable d -> stream_Decode (rlp_encode_tx d ++ rest) = DecTx d rest;
  dec_torn d pre : encodable d -> pre `prefix_of` rlp_encode_tx d -> pre <> [] -> pre <> rlp_encode_tx d -> stream_Decode pre = DecErr
}.

Section JournalSpec.
Context `{crypto : !TxCrypto} `{stream : !TxStream} `{faults : !DiskFaults} {order : RangeOrder}.

Definition encode_all (txs : list Transaction) : list Z := List.concat ((fun tx => rlp_encode_tx (data tx)) <$> txs).
Definition stamp (now : Z) (tx : Transaction) : Transaction := mk_Transaction (data tx) now.

Lemma encode_all_app txs txs' : encode_all (txs ++ txs') = encode_all txs ++ encode_all txs'.
Proof. unfold encode_all. by rewrite fmap_app, concat_app. Qed.

(** Batches cover what was decoded, in order. *)
Lemma load_loop_spec `{!StreamLaws} now tail err :
  stream_Decode tail = match err with None => DecEOF | Some _ => DecErr end -> (err = None \/ err = Some ErrDecode) ->
  forall txs fuel batch, Forall (fun tx => encodable (data tx)) txs -> (List.length (encode_all txs) < fuel)%nat -> (List.length batch <= 1024)%nat ->
  exists batches, load_loop fuel now (encode_all txs ++ tail) batch = Some (batches, err) /\
    List.concat batches = batch ++ (stamp now <$> txs) /\ Forall (fun b => (List.length b <= 1025)%nat) batches.
Proof.
  intros Htail Herr. induction txs as [|tx txs IH]; intros fuel batch He Hf Hb; (destruct fuel as [|fuel]; [lia|]); cbn [load_loop].
  - change (encode_all [] ++ tail) with tail. rewrite Htail.
    assert (Hlast : forall e : option journal_error, exists batches, Some (if bool_decide (batch = []) then [] else [batch], e) = Some (batches, e) /\
      List.concat batches = batch ++ (stamp now <$> []) /\ Forall (fun b => (List.length b <= 1025)%nat) batches).
    { intros e. eexists. split; [done|]. cbn [fmap list_fmap]. case_bool_decide as E; [by subst|].
      cbn. split; [done|]. constructor; [lia|done]. }
    destruct Herr as [->| ->]; apply Hlast.
  - apply Forall_cons in He as [Htx He]. unfold encode_all. cbn [fmap list_fmap List.concat]. rewrite <- app_assoc, dec_tx by done.
    fold (encode_all txs). assert (Hne : (0 < List.length (rlp_encode_tx (data tx)))%nat).
    { destruct (rlp_encode_tx (data tx)) eqn:E; [|cbn; lia]. pose proof (dec_tx (data tx) [] Htx) as H1. rewrite E in H1. cbn in H1. by rewrite dec_nil in H1. }
    unfold encode_all in Hf. cbn [fmap list_fmap List.concat] in Hf. rewrite length_app in Hf. fold (encode_all txs) in Hf.
    change (mk_Transaction (data tx) now) with (stamp now tx). cbv zeta. destruct (Z.ltb_spec 1024 (Z.of_nat (List.length (batch ++ [stamp now tx])))) as [Hlt|Hge].
    + destruct (IH fuel [] He) as (batches & -> & Hc & Hl); [lia|cbn; lia|]. eexists. split; [done|]. cbn [List.concat]. rewrite Hc.
      rewrite <- app_assoc. split; [done|]. constructor; [|done]. rewrite length_app. cbn. lia.
    + rewrite length_app in Hge. cbn in Hge. destruct (IH fuel (batch ++ [stamp now tx]) He) as (batches & -> & Hc & Hl); [lia|rewrite length_app; cbn; lia|].
      eexists. split; [done|]. split; [|done]. rewrite Hc, <- app_assoc. done.
Qed.

(** ** Writing *)

(** Names point to inodes, one name each. *)
Definition disk_ok (d : disk) : Prop :=
  (forall path i, d_names d !! path = Some i -> (i < List.length (d_data d))%nat) /\
  (forall p1 p2 i, d_names d !! p1 = Some i -> d_names d !! p2 = Some i -> p1 = p2).

(** A prefix of the bytes was appended, all of them on success. *)
Definition appended (inode : nat) (bytes : list Z) (r : option journal_error) (d d' : disk) : Prop :=
  d_names d' = d_names d /\ exists pre, pre `prefix_of` bytes /\ d_data d' = alter (fun c => c ++ pre) inode (d_data d) /\
    (r = None -> pre = bytes) /\ (r = None \/ r = Some ErrIO).

Lemma write_tx_wp inode tx j d :
  wp (write_tx inode tx) (fun r s' => fst s' = j /\ appended inode (rlp_encode_tx (data tx)) r d (snd s')) (j, d).
Proof.
  unfold write_tx, syscall, on_disk. wp_steps. destruct (fault (d_calls d)) as [k|]; wp_steps; cbn; (split; [done|]); (split; [done|]).
  - exists (take k (rlp_encode_tx (data tx))). split; [apply prefix_take|]. split; [done|]. split; [done|by right].
  - exists (rlp_encode_tx (data tx)). split; [done|]. split; [done|]. split; [done|by left].
Qed.

Lemma write_all_wp inode txs : forall j d,
  wp (write_all inode txs) (fun r s' => fst s' = j /\ appended inode (encode_all txs) r d (snd s')) (j, d).
Proof.
  induction txs as [|tx txs IH]; intros j d; cbn [write_all].
  - wp_steps. cbn. split; [done|]. split; [done|]. exists []. split; [apply prefix_nil|]. split; [|split; [done|by left]].
    apply list_eq. intros i. destruct (decide (i = inode)) as [->|]; [|by rewrite list_lookup_alter_ne].
    rewrite list_lookup_alter_eq. destruct (d_data d !! inode) as [l|]; [|done]. cbn. by rewrite app_nil_r.
  - apply wp_bind. eapply wp_mono; [apply write_tx_wp|]. intros r [j1 d1] [Ej (En & pre & Hpre & Ed & Hall & Hr)]. cbn [fst snd] in *. subst j1.
    destruct r as [e|].
    + wp_steps. cbn. split; [done|]. split; [done|]. exists pre. split; [|split; [done|split; [done|done]]].
      etrans; [done|]. unfold encode_all. cbn. by eexists.
    + rewrite (Hall eq_refl) in Ed. eapply wp_mono; [apply IH|]. intros r [j2 d2] [Ej (En2 & pre2 & Hpre2 & Ed2 & Hall2 & Hr2)]. cbn [fst snd] in *. subst j2.
      split; [done|]. split; [congruence|]. exists (rlp_encode_tx (data tx) ++ pre2). unfold encode_all. cbn [fmap list_fmap List.concat].
      fold (encode_all txs). split; [by apply prefix_app|]. split; [|split; [|done]].
      * rewrite Ed2, Ed. apply list_eq. intros i. destruct (decide (i = inode)) as [->|]; [|by rewrite !list_lookup_alter_ne].
        rewrite !list_lookup_alter_eq. destruct (d_data d !! inode); [|done]. cbn. by rewrite <- app_assoc.
      * intros ->. by rewrite Hall2.
Qed.

(** A new file beside the journal is opened empty, and nothing else changes. *)
Lemma create_spec path d : disk_ok d -> let '(i, d') := create path d in
  disk_ok d' /\ d_names d' !! path = Some i /\ d_data d' !! i = Some [] /\
  (forall q, q <> path -> d_names d' !! q = d_names d !! q /\ content d' q = content d q).
Proof.
  intros [Hlt Hinj]. unfold create, content. destruct (d_names d !! path) as [i|] eqn:E.
  - cbn [d_names d_data set_data]. split_and!.
    + split; cbn; [|done]. intros q k Hq. rewrite length_insert. by eapply Hlt.
    + done.
    + apply list_lookup_insert_eq. by eapply Hlt.
    + intros q Hq. split; [done|]. destruct (d_names d !! q) as [k|] eqn:Ek; [|done]. cbn. rewrite list_lookup_insert_ne; [done|].
      intros ->. by rewrite (Hinj _ _ _ E Ek) in Hq.
  - cbn [d_names d_data]. split_and!.
    + split; cbn [d_names d_data].
      * intros q k. rewrite length_app. cbn [List.length]. destruct (decide (q = path)) as [->|Hq].
        { rewrite lookup_insert_eq. intros [= <-]. lia. }
        rewrite lookup_insert_ne by done. intros Hk. specialize (Hlt _ _ Hk). lia.
      * assert (Hnew : forall q, q <> path -> d_names d !! q <> Some (List.length (d_data d))) by (intros q _ Hq; specialize (Hlt _ _ Hq); lia).
        intros p1 p2 k. destruct (decide (p1 = path)) as [->|H1], (decide (p2 = path)) as [->|H2];
          rewrite ?lookup_insert_eq, ?lookup_insert_ne by done; [done|..|by apply Hinj].
        { intros [= <-] Hk. by destruct (Hnew p2 H2). }
        { intros Hk [= <-]. by destruct (Hnew p1 H1). }
    + apply lookup_insert_eq.
    + by rewrite lookup_app_r, Nat.sub_diag by lia.
    + intros q Hq. rewrite lookup_insert_ne by done. split; [done|]. destruct (d_names d !! q) as [k|] eqn:Ek; [|done].
      cbn. apply lookup_app_l. by eapply Hlt.
Qed.

Lemma new_path_ne path : new_path path <> path.
Proof. intros E. apply (f_equal List.length) in E. unfold new_path in E. rewrite length_app in E. cbn in E. lia. Qed.

(** What the name of the journal shows after a regeneration, and where the
    writer points. *)
Definition regenerated (path : gostr) (txs : list Transaction) (d : disk) (r : option journal_error) (s' : jstate) : Prop :=
  (content (snd s') path = content d path \/ content (snd s') path = Some (encode_all txs)) /\
  (r = None -> content (snd s') path = Some (encode_all txs) /\
     exists i, j_writer (fst s') = Some (FileW i) /\ d_names (snd s') !! path = Some i /\ d_names d !! path <> Some i) /\
  disk_ok (snd s') /\ j_path (fst s') = path.

Lemma appended_ok inode bytes r d d' : appended inode bytes r d d' -> disk_ok d -> disk_ok d'.
Proof.
  intros (En & pre & _ & Ed & _) [Hlt Hinj]. split; rewrite ?En, ?Ed; [|done]. intros q i Hq. rewrite length_alter. by eapply Hlt.
Qed.

Lemma appended_other inode bytes r d d' path : appended inode bytes r d d' -> d_names d !! path <> Some inode -> content d' path = content d path.
Proof.
  intros (En & pre & _ & Ed & _) Hne. unfold content. rewrite En, Ed. destruct (d_names d !! path) as [k|]; [|done]. cbn.
  apply list_lookup_alter_ne. congruence.
Qed.

Lemma tick_same d path : content (tick d) path = content d path /\ (disk_ok d -> disk_ok (tick d)).
Proof. by split. Qed.

(** The new file takes the name of the journal. *)
Lemma rename_spec path i d bytes : disk_ok d -> d_names d !! new_path path = Some i -> d_data d !! i = Some bytes ->
  let d' := rename_file (new_path path) path d in disk_ok d' /\ d_names d' !! path = Some i /\ content d' path = Some bytes.
Proof.
  intros [Hlt Hinj] Hi Hb. unfold rename_file. rewrite Hi. cbv zeta. cbn [d_names]. split; [|split; [apply lookup_insert_eq|]].
  - split; cbn [d_names d_data].
    + intros q k. destruct (decide (q = path)) as [->|Hq]; [rewrite lookup_insert_eq; intros [= <-]; by eapply Hlt|].
      rewrite lookup_insert_ne by done. intros [_ Hk]%lookup_delete_Some. by eapply Hlt.
    + intros p1 p2 k. destruct (decide (p1 = path)) as [->|H1], (decide (p2 = path)) as [->|H2];
        rewrite ?lookup_insert_eq, ?lookup_insert_ne by done; [done|..]; rewrite ?lookup_delete_Some.
      * intros [= <-] [Hn Hk]. by destruct Hn, (Hinj _ _ _ Hi Hk).
      * intros [Hn Hk] [= <-]. by destruct Hn, (Hinj _ _ _ Hi Hk).
      * intros [_ Hk1] [_ Hk2]. by eapply Hinj.
  - unfold content. cbn [d_names d_data]. by rewrite lookup_insert_eq.
Qed.

Lemma regenerated_fail path txs d e j' d' : content d' path = content d path -> disk_ok d' -> j_path j' = path ->
  regenerated path txs d (Some e) (j', d').
Proof. intros Hc Hd Hj. split; [by left|]. by split. Qed.

Lemma regenerate_wp path txs j d : disk_ok d -> j_path j = path ->
  wp (regenerate path txs) (fun r s' => regenerated path txs d r s') (j, d).
Proof.
  intros Hd Hj. unfold regenerate, syscall, on_disk. wp_steps. cbn [fst snd].
  destruct (fault (d_calls d)); [wp_steps; by apply regenerated_fail|]. wp_steps. cbn [fst snd].
  pose proof (create_spec (new_path path) (tick d) ltac:(by apply (tick_same d path))) as Hc.
  destruct (create (new_path path) (tick d)) as [inode d1]. destruct Hc as (Hd1 & Hn1 & Hb1 & Ho1).
  destruct (Ho1 path) as [En1 Ec1]; [by apply not_eq_sym, new_path_ne|]. change (content (tick d) path) with (content d path) in Ec1.
  assert (Hne : d_names d1 !! path <> Some inode) by (intros Hp; by apply (new_path_ne path), (proj2 Hd1 _ _ inode)).
  wp_steps. cbn [fst snd]. eapply wp_mono; [apply write_all_wp|]. intros err [j2 d2] [Ej Ha]. cbn [fst snd] in *. subst j2.
  pose proof (appended_ok _ _ _ _ _ Ha Hd1) as Hd2. pose proof (appended_other _ _ _ _ _ path Ha Hne) as Ec2.
  destruct err as [e|]; wp_steps; cbn [fst snd].
  { apply regenerated_fail; [change (content (tick d2) path) with (content d2 path); congruence|done|done]. }
  destruct (fault (d_calls (tick d2))); wp_steps; cbn [fst snd].
  { apply regenerated_fail; [change (content (tick (tick d2)) path) with (content d2 path); congruence|done|done]. }
  destruct Ha as (En2 & pre & _ & Ed2 & Hall & _). rewrite (Hall eq_refl) in Ed2.
  destruct (rename_spec path inode (tick (tick d2)) (encode_all txs)) as (Hd3 & Hn3 & Hc3); [done|cbn; congruence| |].
  { cbn. rewrite Ed2, list_lookup_alter_eq, Hb1. done. }
  set (d3 := rename_file (new_path path) path (tick (tick d2))) in *. change (d_names (tick d3)) with (d_names d3). rewrite Hn3.
  destruct (fault (d_calls d3)); unfold set_writer; wp_steps; cbn [fst snd].
  - split; [right; done|]. by split_and!.
  - split; [right; done|]. split; [|done]. intros _. split; [done|]. exists inode. split; [done|]. split; [done|]. change (d_names (tick d) !! path <> Some inode). by rewrite <- En1.
Qed.

Lemma rotate_wp all j d : disk_ok d -> wp (rotate all) (fun r s' => regenerated (j_path j) (journaled all) d r s') (j, d).
Proof.
  intros Hd. unfold rotate. wp_steps. destruct (j_writer j) as [w|]; [|by apply regenerate_wp].
  unfold close_writer, syscall, on_disk, set_writer. destruct w as [|i|]; wp_steps; cbn [fst snd].
  - by apply regenerate_wp.
  - destruct (fault (d_calls d)); wp_steps; cbn [fst snd]; [by apply regenerated_fail|].
    eapply wp_mono; [by apply regenerate_wp|]. intros r s' H. exact H.
  - by apply regenerated_fail.
Qed.

(** C16: whatever fails on the way, regenerating the journal ends with the file
    holding either what it held before or the encoding of exactly the given
    transactions; on success the latter, with the writer at its end. *)
Theorem rotate_is_atomic all j d :
  disk_ok d ->
  exists r j' d', rotate all (j, d) = Some (r, (j', d')) /\
    (content d' (j_path j) = content d (j_path j) \/ content d' (j_path j) = Some (encode_all (journaled all))) /\
    (r = None -> content d' (j_path j) = Some (encode_all (journaled all)) /\
       exists i, j_writer j' = Some (FileW i) /\ d_names d' !! j_path j = Some i) /\
    disk_ok d' /\ j_path j' = j_path j.
Proof.
  intros Hd. destruct (wp_run _ _ _ (rotate_wp all j d Hd)) as (r & [j' d'] & E & H1 & H2 & H3 & H4). exists r, j', d'.
  split; [done|]. split; [done|]. split; [|done]. intros Hr. destruct (H2 Hr) as [Hc (i & Hw & Hn & _)]. split; [done|]. by exists i.
Qed.

(** ** Restarts *)

(** A writer at the end of the journal's file. *)
Definition writing (path : gostr) (bytes : list Z) (s : jstate) : Prop :=
  disk_ok (snd s) /\ j_path (fst s) = path /\ content (snd s) path = Some bytes /\
  exists i, j_writer (fst s) = Some (FileW i) /\ d_names (snd s) !! path = Some i.

(** An insertion appends the transaction, or a part of it when it fails. *)
Lemma insert_writing path bytes tx s : writing path bytes s ->
  wp (insert tx) (fun r s' => exists pre, pre `prefix_of` rlp_encode_tx (data tx) /\ (r = None -> pre = rlp_encode_tx (data tx)) /\
    writing path (bytes ++ pre) s') s.
Proof.
  destruct s as [j d]. intros (Hd & Hj & Hc & i & Hw & Hi). cbn [fst snd] in *. unfold insert. wp_steps. rewrite Hw.
  eapply wp_mono; [apply write_tx_wp|]. intros r [j' d'] [Ej Ha]. cbn [fst snd] in *. subst j'.
  pose proof (appended_ok _ _ _ _ _ Ha Hd) as Hd'. destruct Ha as (En & pre & Hpre & Ed & Hall & _).
  exists pre. split; [done|]. split; [done|]. split; [done|]. split; [done|]. cbn [fst snd]. split; [|exists i; by rewrite En].
  unfold content in *. rewrite En, Hi in *. cbn in *. by rewrite Ed, list_lookup_alter_eq, Hc.
Qed.

Fixpoint inserts (txs : list Transaction) : M jstate bool :=
  match txs with
  | [] => mret true
  | tx :: txs' => r ← insert tx; ok ← inserts txs'; mret (bool_decide (r = None) && ok)
  end.

Lemma inserts_writing path txs : forall bytes s, writing path bytes s ->
  wp (inserts txs) (fun ok s' => ok = true -> writing path (bytes ++ encode_all txs) s') s.
Proof.
  induction txs as [|tx txs IH]; intros bytes s Hs; cbn [inserts].
  - wp_steps. intros _. by rewrite app_nil_r.
  - apply wp_bind. eapply wp_mono; [by apply insert_writing|]. intros r s1 (pre & _ & Hall & Hs1).
    apply wp_bind. eapply wp_mono; [by apply IH|]. intros ok s2 Hs2. wp_steps. intros [->%bool_decide_eq_true ->]%andb_true_iff.
    rewrite Hall in Hs2 by done. specialize (Hs2 eq_refl). unfold encode_all. cbn. by rewrite app_assoc.
Qed.

(** What is loaded from a file of encodings that may be cut off. *)
Lemma load_spec `{!StreamLaws} {P E} (add : list Transaction -> M P (list (option E))) now path d txs tail err p :
  content d path = Some (encode_all txs ++ tail) -> Forall (fun tx => encodable (data tx)) txs ->
  stream_Decode tail = match err with None => DecEOF | Some _ => DecErr end -> (err = None \/ err = Some ErrDecode) ->
  fault (d_calls d) = None -> fault (S (d_calls d)) = None ->
  exists batches, List.concat batches = stamp now <$> txs /\ Forall (fun b => (List.length b <= 1025)%nat) batches /\
    load add now (newTxJournal path) d p = (mfor batches (fun txs => add txs;; mret tt);; mret (err, newTxJournal path, tick (tick d))) p.
Proof.
  intros Hc He Ht Herr Hf1 Hf2.
  destruct (load_loop_spec now tail err Ht Herr txs (S (List.length (encode_all txs ++ tail))) [] He) as (batches & El & Hb & Hl);
    [rewrite length_app; lia|cbn; lia|].
  exists batches. split; [done|]. split; [done|]. unfold load. cbn [j_path newTxJournal]. rewrite Hf1, Hc.
  change (d_calls (tick d)) with (S (d_calls d)). rewrite Hf2. rewrite (run_lift _ _ _ _ El). done.
Qed.

(** C22: transactions that were journaled survive a restart, even one in the
    middle of a write: loading hands to the pool, in batches of at most 1025 and in
    order, exactly the transactions of the last regeneration and those inserted
    since, the last one only if it was written completely. *)
Theorem journal_survives_restart `{!StreamLaws} {P E} (add : list Transaction -> M P (list (option E)))
    all txs tx now j d j1 d1 j2 d2 j3 d3 r p :
  disk_ok d -> rotate all (j, d) = Some (None, (j1, d1)) -> inserts txs (j1, d1) = Some (true, (j2, d2)) ->
  insert tx (j2, d2) = Some (r, (j3, d3)) -> Forall (fun tx => encodable (data tx)) (journaled all ++ txs ++ [tx]) ->
  fault (d_calls d3) = None -> fault (S (d_calls d3)) = None ->
  exists kept batches failure, (kept = [] \/ kept = [tx]) /\ (r = None -> kept = [tx] /\ failure = None) /\
    List.concat batches = stamp now <$> journaled all ++ txs ++ kept /\ Forall (fun b => (List.length b <= 1025)%nat) batches /\
    load add now (newTxJournal (j_path j)) d3 p =
      (mfor batches (fun txs => add txs;; mret tt);; mret (failure, newTxJournal (j_path j), tick (tick d3))) p.
Proof.
  intros Hd Hrot Hins Hlast He Hf1 Hf2.
  pose proof (rotate_wp all j d Hd) as Hw. unfold wp in Hw. rewrite Hrot in Hw. destruct Hw as (_ & Hok & Hd1 & Hp1). cbn [fst snd] in *.
  destruct (Hok eq_refl) as [Hc1 (i & Hw1 & Hn1 & _)].
  assert (W1 : writing (j_path j) (encode_all (journaled all)) (j1, d1)) by (split_and!; [done..|]; by exists i).
  pose proof (inserts_writing _ txs _ _ W1) as Hi. unfold wp in Hi. rewrite Hins in Hi. specialize (Hi eq_refl).
  pose proof (insert_writing _ _ tx _ Hi) as Hl. unfold wp in Hl. rewrite Hlast in Hl. destruct Hl as (pre & Hpre & Hall & (_ & _ & Hc3 & _)).
  cbn [snd] in Hc3. rewrite <- encode_all_app in Hc3. rewrite app_assoc in He. apply Forall_app in He as [He [Htx _]%Forall_cons].
  destruct (decide (pre = rlp_encode_tx (data tx))) as [->|Hne].
  - assert (Hc3' : content d3 (j_path j) = Some (encode_all (journaled all ++ txs ++ [tx]) ++ [])).
    { rewrite Hc3. f_equal. rewrite app_nil_r, app_assoc, (encode_all_app (_ ++ _)). unfold encode_all at 3. cbn. by rewrite app_nil_r. }
    destruct (load_spec add now _ _ _ [] None p Hc3') as (batches & Hb & Hl & Hload); [|exact dec_nil|by left|done|done|].
    { rewrite app_assoc. apply Forall_app. split; [exact He|]. apply Forall_singleton. exact Htx. }
    exists [tx], batches, None. split_and!; [by right|done|done|done|done].
  - assert (r <> None) as Hr by (intros ->; by destruct Hne, Hall).
    destruct (decide (pre = [])) as [->|Hne2].
    + destruct (load_spec add now _ _ _ [] None p Hc3) as (batches & Hb & Hl & Hload); [done|exact dec_nil|by left|done|done|].
      exists [], batches, None. split_and!; [by left|done|by rewrite app_nil_r|done|done].
    + destruct (load_spec add now _ _ _ pre (Some ErrDecode) p Hc3) as (batches & Hb & Hl & Hload); [done|by eapply dec_torn|by right|done|done|].
      exists [], batches, (Some ErrDecode). split_and!; [by left|done|by rewrite app_nil_r|done|done].
Qed.

(** two pools with the same journal lose transactions: once the second one
    has regenerated it, the file holds its transactions only, and what the first
    pool inserts does not reach the file any more. *)
Theorem shared_journal_loses_transactions path all2 tx j1 d1 bytes1 j2 j2' d2 :
  writing path bytes1 (j1, d1) -> j_path j2 = path -> rotate all2 (j2, d1) = Some (None, (j2', d2)) ->
  exists r d3, insert tx (j1, d2) = Some (r, (j1, d3)) /\ content d3 path = Some (encode_all (journaled all2)).
Proof.
  intros (Hd & Hj & Hc & i & Hw & Hi) Hp Hrot. cbn [fst snd] in *. pose proof (rotate_wp all2 j2 d1 Hd) as Hr. unfold wp in Hr.
  rewrite Hrot in Hr. destruct Hr as (_ & Hok & _). destruct (Hok eq_refl) as [Hc2 (i2 & _ & Hn2 & Hne)]. cbn [fst snd] in *. rewrite Hp in *.
  pose proof (write_tx_wp i tx j1 d2) as Hi2. unfold insert. rewrite run_get, Hw. apply wp_run in Hi2 as (r & [j3 d3] & E & Ej & Ha).
  cbn [fst snd] in *. subst j3. exists r, d3. split; [done|]. rewrite <- Hc2. eapply appended_other; [done|]. congruence.
Qed.

(** when the system reports an error as the journal is closed for a
    regeneration, the journal is lost for the process: it stays on the closed
    file, and neither insertions nor regenerations succeed ever after. *)
Theorem failed_close_ends_the_journal all j d i k :
  j_writer j = Some (FileW i) -> fault (d_calls d) = Some k ->
  exists j' d', rotate all (j, d) = Some (Some ErrIO, (j', d')) /\
    forall d2, (forall tx, insert tx (j', d2) = Some (Some ErrIO, (j', d2))) /\
               (forall all2, rotate all2 (j', d2) = Some (Some ErrIO, (j', d2))).
Proof.
  intros Hw Hf. exists (mk_journal (j_path j) (Some ClosedW)), (tick d). unfold rotate at 1. rewrite run_get, Hw.
  unfold close_writer, syscall, on_disk, set_writer, mbind, M_bind, mget, mmodify, mret, M_ret. cbn [fst snd]. rewrite Hf. done.
Qed.

End JournalSpec.

(** ** A concrete journal *)
Module JournalToy.

(** An encoding with the length of the payload in front of it. *)
Definition toy_encode (d : txdata) : list Z :=
  AccountNonce d :: Price d :: GasLimit d :: ShardID d :: ToShardID d ::
  (match Recipient d with Some _ => 1 | None => 0 end) :: default 0 (Recipient d) ::
  Amount d :: sigV d :: sigR d :: sigS d :: Z.of_nat (List.length (Payload d)) :: Payload d.

Definition toy_decode (input : list Z) : decoded :=
  match input with
  | [] => DecEOF
  | n :: p :: g :: s :: t :: f :: r :: a :: v :: sr :: ss :: len :: rest =>
      let payload := take (Z.to_nat len) rest in
      if bool_decide (List.length payload = Z.to_nat len) then
        DecTx (mk_txdata n p g s t (if f =? 1 then Some r else None) a payload v sr ss None) (drop (Z.to_nat len) rest)
      else DecErr
  | _ => DecErr
  end.

Definition toy_crypto : TxCrypto := {|
  rlp_encode_tx := toy_encode; rlp_encode_items := fun _ => []; Keccak256 := fun l => l;
  ValidateSignatureValues := fun _ _ _ _ => true; Ecrecover := fun _ _ => None;
  PrivateKey := unit; crypto_Sign := fun _ _ => None |}.

#[local] Existing Instance toy_crypto.
#[local] Instance toy_stream : TxStream := {| stream_Decode := toy_decode |}.
#[local] Instance toy_faults : DiskFaults := {| fault := fun n => if decide (n = 6)%nat then Some 5%nat else None |}.
#[local] Existing Instance canonical_order.

#[local] Instance toy_laws : StreamLaws.
Proof.
  split.
  - done.
  - intros d rest (Hh & _). destruct d as [n p g s t rc a pl v sr ss dh]. cbn in Hh. subst dh. unfold stream_Decode, toy_stream, rlp_encode_tx, toy_crypto, toy_encode.
    cbn [app toy_decode AccountNonce Price GasLimit ShardID ToShardID Recipient Amount Payload sigV sigR sigS].
    rewrite Nat2Z.id, take_app_length, drop_app_length. rewrite bool_decide_true by done. by destruct rc.
  - intros d pre _ [k Hk] Hne Hnf. unfold rlp_encode_tx, toy_crypto, toy_encode in Hk, Hnf. unfold stream_Decode, toy_stream.
    do 12 (destruct pre as [|? pre]; [done|]; cbn [app] in Hk; injection Hk; clear Hk; intros Hk; intros; subst; try done).
    cbn [toy_decode]. rewrite Nat2Z.id, bool_decide_false; [done|]. intros El. rewrite length_take, Hk, length_app in El.
    assert (k = []) as -> by (destruct k; [done|cbn [List.length] in El; lia]). apply Hnf. by rewrite Hk, app_nil_r.
Qed.

Definition toy_tx (nonce : Z) : Transaction := mk_Transaction (mk_txdata nonce 1 21000 0 0 (Some 7) 5 [1; 2; 3] 37 11 12 None) 100.
Definition toy_all : gmap Address (list Transaction) := {[ 1 := [toy_tx 0; toy_tx 1] ]}.
Definition toy_journal : txJournal := newTxJournal (lit "transactions.rlp").
Definition empty_disk : disk := mk_disk ∅ [] O.

Lemma empty_disk_ok : disk_ok empty_disk.
Proof. split; intros *; cbn; by rewrite lookup_empty. Qed.

Lemma rotate_is_atomic_witness : exists r j' d', rotate toy_all (toy_journal, empty_disk) = Some (r, (j', d')) /\ disk_ok d'.
Proof.
  destruct (rotate_is_atomic toy_all toy_journal empty_disk empty_disk_ok) as (r & j' & d' & E & _ & _ & Hd & _).
  exists r, j', d'. split; [exact E|exact Hd].
Defined.

(** The sixth call to the system fails after five bytes: the last insertion is
    cut off. *)
Lemma journal_survives_restart_witness : exists kept batches : list _,
  (kept = [] \/ kept = [toy_tx 2]) /\ List.concat batches = stamp 200 <$> journaled toy_all ++ [] ++ kept.
Proof.
  assert (exists j1 d1 j2 d2 j3 d3 r, rotate toy_all (toy_journal, empty_disk) = Some (None, (j1, d1)) /\ inserts [] (j1, d1) = Some (true, (j2, d2)) /\
    insert (toy_tx 2) (j2, d2) = Some (r, (j3, d3)) /\ fault (d_calls d3) = None /\ fault (S (d_calls d3)) = None)
    as (j1 & d1 & j2 & d2 & j3 & d3 & r & E1 & E2 & E3 & F1 & F2).
  { do 7 eexists. split; [vm_compute; reflexivity|]. do 3 (split; [vm_compute; reflexivity|]). vm_compute. reflexivity. }
  destruct (journal_survives_restart (P := unit) (E := unit) (fun _ => mret []) toy_all [] (toy_tx 2) 200 toy_journal empty_disk j1 d1 j2 d2 j3 d3 r tt
    empty_disk_ok E1 E2 E3) as (kept & batches & failure & Hk & _ & Hb & _ & _); [|exact F1|exact F2|].
  - repeat (constructor; [split; [done|unfold is_u64; cbn; lia]|]). constructor.
  - exists kept, batches. split; [exact Hk|exact Hb].
Defined.

(** A disk on which the first pool writes, and the second pool's turn. *)
Definition shared_disk : disk := mk_disk {[ lit "transactions.rlp" := 0%nat ]} [[]] 10.
Definition first_journal : txJournal := mk_journal (lit "transactions.rlp") (Some (FileW 0)).

Lemma shared_journal_loses_transactions_witness : exists r d3 j2' d2,
  rotate toy_all (toy_journal, shared_disk) = Some (None, (j2', d2)) /\
  insert (toy_tx 2) (first_journal, d2) = Some (r, (first_journal, d3)) /\
  content d3 (lit "transactions.rlp") = Some (encode_all (journaled toy_all)).
Proof.
  assert (exists j2' d2, rotate toy_all (toy_journal, shared_disk) = Some (None, (j2', d2))) as (j2' & d2 & E).
  { do 2 eexists. vm_compute. reflexivity. }
  destruct (shared_journal_loses_transactions (lit "transactions.rlp") toy_all (toy_tx 2) first_journal shared_disk [] toy_journal j2' d2) as (r & d3 & Hi & Hc);
    [|reflexivity|exact E|].
  - split; [|split; [reflexivity|split; [reflexivity|exists 0%nat; split; reflexivity]]]. split; cbn.
    + intros path i [_ <-]%lookup_singleton_Some. lia.
    + intros p1 p2 i [<- _]%lookup_singleton_Some [<- _]%lookup_singleton_Some. done.
  - exists r, d3, j2', d2. split; [exact E|]. split; [exact Hi|exact Hc].
Defined.

Lemma failed_close_ends_the_journal_witness : exists j' d',
  rotate toy_all (first_journal, mk_disk {[ lit "transactions.rlp" := 0%nat ]} [[]] 6) = Some (Some ErrIO, (j', d')).
Proof.
  destruct (failed_close_ends_the_journal toy_all first_journal (mk_disk {[ lit "transactions.rlp" := 0%nat ]} [[]] 6) 0 5) as (j' & d' & E & _);
    [reflexivity|reflexivity|].
  exists j', d'. exact E.
Defined.

End JournalToy.
