(* ===== verification/Backend.v ===== *)
(** * The node's backend: messages in, transactions in and out

    Models [bnz/backend.go] and [bnz/handler.go] with the message formats of
    [api/proto/common.go] and [api/proto/node/node.go] and the host of
    [p2p/host.go]: how a transaction given to the node reaches the pool of its
    shard and is broadcast, how a message from the network is validated,
    dispatched and handled, and which groups a message is published to.

    The pools are those of [TxPool], one for each shard; [AddLocals] of a pool is
    its insertion followed by the promotion run it waits for ([PoolLoop] has the
    goroutines in between).  The RLP and protobuf codecs and the publish/subscribe
    library are parameters.  A [None] of the state monad is a run-time panic. *)
From Stdlib Require Import ZArith Lia String.
From stdpp Require Import gmap list.
From S2P Require Import Quorum FbftLog MsgSender Consensus.
From S2P Require Import Prelude GoHeap Transaction TxList PricedList TxPool TxPoolInv TxPoolOps TxPoolLimits TxPoolMain PoolEvents GoString GoSys.

Local Open Scope Z_scope.

(** ** Message formats *)

(** api/proto/common.go *)
Definition MessageCategory_Consensus : Z := 0.
Definition MessageCategory_Node : Z := 1.
Definition MessageCategoryBytes : nat := 1.
Definition MessageTypeBytes : nat := 1.

Definition GetMessageCategory (message : list Z) : option Z :=
  if (length message <? MessageCategoryBytes)%nat then None else message !! (MessageCategoryBytes - 1)%nat.
Definition GetMessageType (message : list Z) : option Z :=
  if (length message <? MessageCategoryBytes + MessageTypeBytes)%nat then None else message !! (MessageCategoryBytes + MessageTypeBytes - 1)%nat.
Definition GetMessagePayload (message : list Z) : option (list Z) :=
  if (length message <? MessageCategoryBytes + MessageTypeBytes)%nat then None else Some (drop (MessageCategoryBytes + MessageTypeBytes) message).
Definition GetConsensusMessagePayload (message : list Z) : option (list Z) :=
  if (length message <? MessageCategoryBytes)%nat then None else Some (drop MessageCategoryBytes message).

(** api/proto/node/node.go *)
Definition MessageType_Transaction : Z := 0.
Definition MessageType_Block : Z := 1.
Definition TransactionMessageType_Send : Z := 0.
Definition BlockMessageType_Sync : Z := 0.

Definition transactionListH : list Z := [MessageCategory_Node; MessageType_Transaction; TransactionMessageType_Send].
Definition syncH : list Z := [MessageCategory_Node; MessageType_Block; BlockMessageType_Sync].

(** The codecs: RLP lists of transactions and of blocks, and the protobuf message
    of the consensus. *)
Class WireCodec : Type := {
  rlp_encode_txs : list txdata -> list Z;
  rlp_decode_txs : list Z -> option (list txdata);       (* rlp.Decode from a reader *)
  WireBlock : Type;
  rlp_encode_blocks : list WireBlock -> list Z;
  rlp_decode_blocks : list Z -> option (list WireBlock);
  WireMessage : Type;
  protobuf_Unmarshal : list Z -> option WireMessage
}.

(** What the documentation of RLP promises of it. *)
Class WireLaws `{!WireCodec} : Prop := {
  decode_encode_txs : forall txs, Forall encodable txs -> rlp_decode_txs (rlp_encode_txs txs) = Some txs
}.

(** ** The host (p2p/host.go) *)

(** The topics that are joined, what has been published, and the number of calls
    to the library so far; the class says which of them fail. *)
Record Host : Type := mk_Host {
  h_joined : gset gostr;
  h_published : list (gostr * list Z);
  h_calls : nat
}.

Class PubSub : Type := { join_fails : nat -> gostr -> bool; publish_fails : nat -> gostr -> bool }.

Inductive host_error : Type := ErrEmptyMessage | ErrJoin (topic : gostr) | ErrPublish (topic : gostr).

Section WithPubSub.
Context {pubsub : PubSub}.

Definition GetOrJoin (topic : gostr) (h : Host) : option host_error * Host :=
  if bool_decide (topic ∈ h_joined h) then (None, h)
  else
    let h' := mk_Host (h_joined h) (h_published h) (S (h_calls h)) in
    if join_fails (h_calls h) topic then (Some (ErrJoin topic), h')
    else (None, mk_Host ({[topic]} ∪ h_joined h) (h_published h) (S (h_calls h))).

Definition Publish (topic : gostr) (msg : list Z) (h : Host) : option host_error * Host :=
  if publish_fails (h_calls h) topic then (Some (ErrPublish topic), mk_Host (h_joined h) (h_published h) (S (h_calls h)))
  else (None, mk_Host (h_joined h) (h_published h ++ [(topic, msg)]) (S (h_calls h))).

(** The loop over the groups: the error of the last failure is kept. *)
Fixpoint send_groups (groups : list gostr) (msg : list Z) (err : option host_error) (h : Host) : option host_error * Host :=
  match groups with
  | [] => (err, h)
  | group :: rest =>
      match GetOrJoin group h with
      | (Some e, h1) => send_groups rest msg (Some e) h1
      | (None, h1) =>
          match Publish group msg h1 with
          | (Some e, h2) => send_groups rest msg (Some e) h2
          | (None, h2) => send_groups rest msg err h2
          end
      end
  end.

Definition SendMessageToGroups (groups : list gostr) (msg : list Z) (h : Host) : option host_error * Host :=
  if (length msg =? 0)%nat then (Some ErrEmptyMessage, h) else send_groups groups msg None h.

End WithPubSub.

(** ** The backend *)

(** [configs.NewGroupIDByShardID]. *)
Definition NewGroupIDByShardID (shardID : Z) : gostr := lit "benzene/0.0.1/node/shard/" ++ print_int (i64 shardID).

Record Benzene : Type := mk_Benzene {
  b_ShardID : list Z;             (* config.ShardID *)
  b_GroupID : list gostr;         (* config.GroupID *)
  b_txPool : gmap Z TxPool;
  b_chain : Z -> ChainView;       (* the chain of a shard's pool *)
  b_host : Host
}.

Definition set_pool (shardid : Z) (p : TxPool) (b : Benzene) : Benzene :=
  mk_Benzene (b_ShardID b) (b_GroupID b) (<[shardid := p]> (b_txPool b)) (b_chain b) (b_host b).
Definition set_host (h : Host) (b : Benzene) : Benzene :=
  mk_Benzene (b_ShardID b) (b_GroupID b) (b_txPool b) (b_chain b) h.

Inductive bnz_error : Type := ErrPool (e : pool_error) | ErrCrossShard | ErrShardMismatch.

Section Backend.
Context {crypto : TxCrypto} {range : RangeOrder} {orders : PoolOrders} {pubsub : PubSub} {codec : WireCodec}.
Context (now : Z).

(** *** Pools *)

(** [AddLocals] with the promotion it waits for: the events of the insertion are
    in the run that promotes the accounts it made dirty. *)
Definition AddLocals_wait (c : ChainView) (txs : list Transaction) : M TxPool (list (option pool_error)) :=
  '(errs, dirty) ← AddLocals now txs;
  match dirty with
  | None => mret errs
  | Some d =>
      p ← mget;
      let ev := foldl put_event ∅ (events p) in
      _ ← mmodify (set_events []);
      _ ← runReorg now c None (Some d) ev;
      mret errs
  end.

(** A method of the pool of a shard; [bnz.txPool[shardid]] of a shard without a
    pool is nil. *)
Definition on_pool {A} (shardid : Z) (m : ChainView -> M TxPool A) : M Benzene A := fun b =>
  p ← b_txPool b !! shardid;
  '(x, p') ← m (b_chain b shardid) p;
  Some (x, set_pool shardid p' b).

(** [poolTxs[shardid]]. *)
Definition txs_of (shardid : Z) (newTxs : list Transaction) : list Transaction :=
  List.filter (fun tx => (ShardID (data tx) =? ToShardID (data tx)) && (ShardID (data tx) =? shardid)) newTxs.

Fixpoint add_to_shards (shards : list Z) (newTxs : list Transaction) : M Benzene (list (option bnz_error)) :=
  match shards with
  | [] => mret []
  | shardid :: rest =>
      errs ← on_pool shardid (fun c => AddLocals_wait c (txs_of shardid newTxs));
      errs' ← add_to_shards rest newTxs;
      mret ((option_map ErrPool <$> errs) ++ errs')
  end.

Definition addPendingTransactions (newTxs : list Transaction) : M Benzene (list (option bnz_error)) :=
  b ← mget;
  let cross := List.filter (fun tx => negb (ShardID (data tx) =? ToShardID (data tx))) newTxs in
  errs ← add_to_shards (b_ShardID b) newTxs;
  mret (((fun _ => Some ErrCrossShard) <$> cross) ++ errs).

(** *** Broadcast *)

Definition ConstructTransactionListMessageAccount (transactions : list Transaction) : list Z :=
  transactionListH ++ rlp_encode_txs (data <$> transactions).

Definition ConstructBlocksSyncMessage (blocks : list WireBlock) : list Z := syncH ++ rlp_encode_blocks blocks.

Definition NumTryBroadCast : nat := 3.

Fixpoint broadcast (attempts : nat) (group : gostr) (msg : list Z) (h : Host) : Host :=
  match attempts with
  | O => h
  | S n => match SendMessageToGroups [group] msg h with
           | (Some _, h') => broadcast n group msg h'
           | (None, h') => h'
           end
  end.

Definition tryBroadcast (tx : Transaction) : M Benzene () :=
  let msg := ConstructTransactionListMessageAccount [tx] in
  mmodify (fun b => set_host (broadcast NumTryBroadCast (NewGroupIDByShardID (ShardID (data tx))) (p2p_ConstructMessage msg) (b_host b)) b).

(** The first error, as the loop over [errs] leaves it. *)
Definition first_error (errs : list (option bnz_error)) : option bnz_error := head (omap (fun e => e) errs).

Definition AddPendingTransaction (newTx : Transaction) : M Benzene (option bnz_error) :=
  b ← mget;
  if existsb (fun shardid => ShardID (data newTx) =? shardid) (b_ShardID b) then
    errs ← addPendingTransactions [newTx];
    match first_error errs with
    | Some e => mret (Some e)
    | None => _ ← tryBroadcast newTx; mret None
    end
  else mret (Some ErrShardMismatch).

(** [initNodeConfiguration] up to its result: whether it fails. *)
Definition initNodeConfiguration : M Benzene (option host_error) :=
  b ← mget;
  let '(err, h) := SendMessageToGroups (b_GroupID b) [] (b_host b) in
  _ ← mmodify (set_host h);
  mret err.

(** *** Messages from the network *)

Definition p2pMsgPrefixSize : nat := 5.
Definition p2pNodeMsgPrefixSize : nat := MessageTypeBytes + MessageCategoryBytes.

(** The result of the validator: rejected, or accepted with what the topic's
    goroutines are to do ([ValidatorData]). *)
Inductive verdict : Type :=
| ValidationReject
| AcceptC (msg : WireMessage)                      (* for the consensus *)
| AcceptE (payload : list Z) (actionType : Z).     (* for [HandleNodeMessage] *)

(** The first byte of the payload is the category; an error is [None]. *)
Definition validateNodeMessage (payload : list Z) : outcome () (list Z * Z) :=
  match payload !! MessageCategoryBytes with
  | None => Panic
  | Some msgType =>
      if (msgType =? MessageType_Transaction) || (msgType =? MessageType_Block)
      then Ret (drop p2pNodeMsgPrefixSize payload, msgType)
      else Err tt
  end.

Definition validateShardBoundMessage (payload : list Z) : option WireMessage := protobuf_Unmarshal payload.

Definition validate (isConsensusBound : bool) (bnzMsg : list Z) : outcome () verdict :=
  if (length bnzMsg <? p2pMsgPrefixSize)%nat then Ret ValidationReject
  else
    let openBox := drop p2pMsgPrefixSize bnzMsg in
    match openBox !! (MessageCategoryBytes - 1)%nat with
    | None => Panic
    | Some category =>
        if category =? MessageCategory_Consensus then
          if negb isConsensusBound then Ret ValidationReject
          else match validateShardBoundMessage (drop MessageCategoryBytes openBox) with
               | None => Ret ValidationReject
               | Some m => Ret (AcceptC m)
               end
        else if category =? MessageCategory_Node then
          if (length openBox <=? p2pNodeMsgPrefixSize)%nat then Ret ValidationReject
          else match validateNodeMessage openBox with
               | Ret (payload, actionType) => Ret (AcceptE payload actionType)
               | Err _ => Ret ValidationReject
               | Panic => Panic
               end
        else Ret ValidationReject
    end.

(** *** Handlers (bnz/handler.go) *)

Definition transactionMessageHandler (msgPayload : list Z) : M Benzene () :=
  txMessageType ← mlift (head msgPayload);
  if txMessageType =? TransactionMessageType_Send then
    match rlp_decode_txs (drop 1 msgPayload) with
    | None => mret tt
    | Some txs => _ ← addPendingTransactions ((fun d => mk_Transaction d now) <$> txs); mret tt
    end
  else mret tt.

Definition HandleNodeMessage (msgPayload : list Z) (actionType : Z) : M Benzene () :=
  if actionType =? MessageType_Transaction then transactionMessageHandler msgPayload
  else if actionType =? MessageType_Block then
    blockMsgType ← mlift (head msgPayload);
    if blockMsgType =? BlockMessageType_Sync then
      match rlp_decode_blocks (drop 1 msgPayload) with Some _ | None => mret tt end
    else mret tt
  else mret tt.

(** A message from the network, through the validator and the goroutines of its
    topic; a message of the node itself is skipped.  The result is what is given
    to the consensus. *)
Definition receive (isConsensusBound own : bool) (bnzMsg : list Z) : M Benzene (option WireMessage) :=
  match validate isConsensusBound bnzMsg with
  | Panic | Err _ => mpanic
  | Ret ValidationReject => mret None
  | Ret (AcceptC m) => mret (if own then None else Some m)
  | Ret (AcceptE payload actionType) => if own then mret None else _ ← HandleNodeMessage payload actionType; mret None
  end.

Definition BroadcastNewBlock (clients : list gostr) (block : WireBlock) : M Benzene () :=
  mmodify (fun b => set_host (snd (SendMessageToGroups clients (p2p_ConstructMessage (ConstructBlocksSyncMessage [block])) (b_host b))) b).

End Backend.

(** ** With the consensus

    The goroutines of a consensus topic call the consensus with the message and
    the key the validator returned, which is always the empty one. *)
Definition serializedKey : SerializedPublicKey := 0.

Section Deliver.
Context {crypto : TxCrypto} {range : RangeOrder} {orders : PoolOrders} {pubsub : PubSub} {codec : WireCodec}.
Context {env : Env} {B : Type} {chain : ChainOps B}.
Context (wire_message : WireMessage -> Message).

Definition deliver (now : Z) (isConsensusBound own : bool) (bnzMsg : list Z) : M (Benzene * Consensus (B := B)) (option handle_error) :=
  fun '(b, s) =>
    '(r, b') ← receive now isConsensusBound own bnzMsg b;
    match r with
    | None => Some (None, (b', s))
    | Some m => '(e, s') ← HandleMessageUpdate (wire_message m) serializedKey s; Some (e, (b', s'))
    end.

End Deliver.
