(* ===== verification/BackendSpec.v ===== *)
(** * The properties of the backend

    A transaction given to the node goes to the pool of its shard and to no
    other one; when it is accepted it is published at most once, and the other
    nodes that receive the message insert the same transaction.  Whatever bytes
    come from the network, the node survives them except for messages of exactly
    five bytes.  The messages of the leader never get past the consensus, since
    the backend hands them over with an empty key. *)
From Stdlib Require Import ZArith Lia String.
From stdpp Require Import gmap list.
From S2P Require Import Quorum FbftLog MsgSender Consensus ConsensusInv ConsensusSpec TxJournal.
From S2P Require Import Prelude GoHeap Transaction TxList PricedList TxPool TxPoolInv TxPoolOps TxPoolLimits TxPoolMain TxPoolSpec PoolEvents GoString GoSys Backend.

Local Open Scope Z_scope.

Section Spec.
Context {crypto : TxCrypto} {range : RangeOrder} {orders : PoolOrders} {pubsub : PubSub} {codec : WireCodec} {laws : RlpLaws} {wire : WireLaws}.

(** ** Pools *)

(** A pool that can take these transactions. *)
Definition pool_ready (p : TxPool) (txs : list Transaction) : Prop :=
  pool_inv [] [] [] p /\ u64_events p /\ Forall (fun tx => is_u64 (Nonce tx)) txs /\ batch_safe p txs /\
  Z.of_nat (size (lk_all (all p)) + length txs) < 2 ^ 64.

Lemma put_events_wf txs : Forall (fun tx => is_u64 (Nonce tx)) txs -> events_wf (foldl put_event ∅ txs).
Proof.
  intros Hu. assert (Hg : forall ev, events_wf ev -> events_wf (foldl put_event ev txs)).
  { induction Hu as [|tx txs Htx _ IH]; intros ev Hev; simpl; [done|]. by apply IH, put_event_wf. }
  apply Hg. intros a m Hm. by rewrite lookup_empty in Hm.
Qed.

Lemma addTxs_events now txs local p errs d p' :
  Forall (fun tx => is_u64 (Nonce tx)) txs -> u64_events p -> addTxs now txs local p = Some ((errs, d), p') -> u64_events p'.
Proof.
  intros Hu He. apply keeps_run; [|done]. unfold addTxs. apply keeps_get_bind. intros q _. cbv zeta.
  case_decide; [apply keeps_ret|]. apply keeps_bind.
  - apply addTxsLocked_events. rewrite Forall_forall in *. intros x Hx. apply Hu. rewrite list_elem_of_In in *. apply filter_In in Hx. tauto.
  - intros [newErrs dirty]. keeps_solve.
Qed.

Lemma AddLocals_wait_returns now c txs p :
  pool_ready p txs -> exists errs p', AddLocals_wait now c txs p = Some (errs, p') /\ length errs = length txs /\ pool_inv [] [] [] p'.
Proof.
  intros (Hp & He & Hu & Hb & Hsz). set (local := negb (NoLocals (config p))).
  assert (Hw : wp (addTxs now txs local) (fun r p' => length r.1 = length txs /\ pool_inv [] [] [] p' /\
    (size (lk_all (all p')) <= size (lk_all (all p)) + length txs)%nat) p).
  { apply wp_addTxs; [done..|]. intros errs d p' Hl Hp' _ Hs. done. }
  apply wp_run in Hw as ([errs d] & p1 & E & Hl & Hp1 & Hs1). pose proof (addTxs_events _ _ _ _ _ _ _ Hu He E) as He1.
  assert (Ha : AddLocals now txs p = Some ((errs, d), p1)) by (unfold AddLocals; by rewrite run_get).
  unfold AddLocals_wait. rewrite (run_bind _ _ _ _ _ Ha). destruct d as [d|]; [|by exists errs, p1].
  assert (Hw : wp (runReorg now c None (Some d) (foldl put_event ∅ (events p1))) (fun _ p' => pool_inv [] [] [] p') (set_events [] p1)).
  { apply wp_runReorg; [by eapply pool_inv_frame; [..|exact Hp1]|by apply put_events_wf|simpl; lia|done|done]. }
  apply wp_run in Hw as (ann & p2 & E2 & Hp2). exists errs, p2. split_and!; [|done|done].
  rewrite run_get. cbv zeta. rewrite run_modify, (run_bind _ _ _ _ _ E2). done.
Qed.

Lemma AddLocals_wait_nil now c p : AddLocals_wait now c [] p = Some ([], p).
Proof. done. Qed.

(** The pools of the node's shards can take their part of these transactions. *)
Definition ready (b : Benzene) (txs : list Transaction) : Prop :=
  NoDup (b_ShardID b) /\
  forall shardid, shardid ∈ b_ShardID b -> exists p, b_txPool b !! shardid = Some p /\ pool_ready p (txs_of shardid txs).

(** What a run of [add_to_shards] does: every pool of the shards takes its
    transactions, the others are left alone. *)
Definition taken (now : Z) (shards : list Z) (txs : list Transaction) (b b' : Benzene) : Prop :=
  b_ShardID b' = b_ShardID b /\ b_GroupID b' = b_GroupID b /\ b_chain b' = b_chain b /\ b_host b' = b_host b /\
  (forall shardid, shardid ∉ shards -> b_txPool b' !! shardid = b_txPool b !! shardid) /\
  forall shardid p, shardid ∈ shards -> b_txPool b !! shardid = Some p ->
    exists errs p', AddLocals_wait now (b_chain b shardid) (txs_of shardid txs) p = Some (errs, p') /\
      b_txPool b' !! shardid = Some p' /\ pool_inv [] [] [] p'.

Lemma on_pool_run {A} shardid (m : ChainView -> M TxPool A) b p x p' :
  b_txPool b !! shardid = Some p -> m (b_chain b shardid) p = Some (x, p') -> on_pool shardid m b = Some (x, set_pool shardid p' b).
Proof. unfold on_pool. intros -> Hm. cbn [mbind option_bind]. by rewrite Hm. Qed.

Lemma add_to_shards_returns now shards txs b :
  NoDup shards -> (forall shardid, shardid ∈ shards -> exists p, b_txPool b !! shardid = Some p /\ pool_ready p (txs_of shardid txs)) ->
  exists errs b', add_to_shards now shards txs b = Some (errs, b') /\ taken now shards txs b b'.
Proof.
  revert b. induction shards as [|s shards IH]; intros b Hnd Hr; cbn [add_to_shards].
  { exists [], b. split; [done|]. split_and!; try done. intros s p Hs%elem_of_nil. done. }
  apply NoDup_cons in Hnd as [Hn Hnd]. destruct (Hr s) as (p & Hp & Hpr); [by left|].
  destruct (AddLocals_wait_returns now (b_chain b s) _ _ Hpr) as (errs & p' & E & _ & Hinv).
  pose proof (on_pool_run s (fun c => AddLocals_wait now c (txs_of s txs)) b p errs p' Hp E) as Ho.
  destruct (IH (set_pool s p' b)) as (errs' & b' & E' & H1 & H2 & H3 & H4 & H5 & H6); [done| |].
  { intros s' Hs'. destruct (Hr s') as (q & Hq & Hqr); [by right|]. exists q. split; [|done]. simpl. rewrite lookup_insert_ne by congruence. done. }
  rewrite (run_bind _ _ _ _ _ Ho), (run_bind _ _ _ _ _ E'). eexists _, b'. split; [done|]. split_and!; try done.
  - intros s' Hs'. rewrite H5 by (intros ?; apply Hs'; by right). simpl. apply lookup_insert_ne. intros ->. apply Hs'. by left.
  - intros s' q [->|Hs']%elem_of_cons Hq.
    + exists errs, p'. replace q with p by congruence. split_and!; [done| |done]. rewrite H5 by done. simpl. apply lookup_insert_eq.
    + apply (H6 s' q Hs'). simpl. rewrite lookup_insert_ne by congruence. done.
Qed.

Lemma addPendingTransactions_returns now txs b : ready b txs ->
  exists errs b', addPendingTransactions now txs b = Some (errs, b') /\ taken now (b_ShardID b) txs b b'.
Proof.
  intros [Hnd Hr]. destruct (add_to_shards_returns now (b_ShardID b) txs b Hnd Hr) as (errs & b' & E & Ht).
  unfold addPendingTransactions. rewrite run_get. cbv zeta. rewrite (run_bind _ _ _ _ _ E). by eexists _, b'.
Qed.

(** ** Messages *)

Lemma open_message content : drop p2pMsgPrefixSize (p2p_ConstructMessage content) = content.
Proof. unfold p2p_ConstructMessage. change (17 :: ?l) with ([17] ++ l). rewrite app_assoc. apply drop_app_length'. by rewrite length_app, length_be_bytes. Qed.

Lemma message_length content : length (p2p_ConstructMessage content) = (5 + length content)%nat.
Proof. unfold p2p_ConstructMessage. cbn [length]. rewrite length_app, length_be_bytes. lia. Qed.

Lemma validate_transactions bound txs :
  validate bound (p2p_ConstructMessage (ConstructTransactionListMessageAccount txs)) =
    Ret (AcceptE (TransactionMessageType_Send :: rlp_encode_txs (data <$> txs)) MessageType_Transaction).
Proof. unfold validate. rewrite open_message, message_length. done. Qed.

(** The transactions a message makes the node insert. *)
Definition inserted_by (now : Z) (bound : bool) (msg : list Z) (txs : list Transaction) : Prop :=
  exists payload ds, validate bound msg = Ret (AcceptE payload MessageType_Transaction) /\
    rlp_decode_txs (drop 1 payload) = Some ds /\ txs = (fun d => mk_Transaction d now) <$> ds.

Lemma node_payload openBox : (p2pNodeMsgPrefixSize < length openBox)%nat ->
  match validateNodeMessage openBox with
  | Ret (payload, t) => payload <> [] /\ (t = MessageType_Transaction \/ t = MessageType_Block)
  | Err _ => True
  | Panic => False
  end.
Proof.
  intros Hl. unfold validateNodeMessage. destruct openBox as [|c [|t [|x rest]]]; unfold p2pNodeMsgPrefixSize, MessageTypeBytes, MessageCategoryBytes in Hl; simpl in Hl; try lia.
  simpl. destruct (Z.eqb_spec t MessageType_Transaction) as [->|]; simpl; [by split; [|left]|].
  destruct (Z.eqb_spec t MessageType_Block) as [->|]; simpl; [by split; [|right]|done].
Qed.

(** The validator fails on messages of exactly five bytes. *)
Lemma validate_spec bound msg :
  match validate bound msg with
  | Ret (AcceptE payload t) => payload <> [] /\ (t = MessageType_Transaction \/ t = MessageType_Block) /\ length msg <> 5%nat
  | Ret _ => length msg <> 5%nat
  | Err _ => False
  | Panic => length msg = 5%nat
  end.
Proof.
  unfold validate. destruct (Nat.ltb_spec (length msg) p2pMsgPrefixSize) as [Hl|Hl]; [unfold p2pMsgPrefixSize in Hl; lia|]. cbv zeta.
  set (openBox := drop p2pMsgPrefixSize msg). assert (Hlen : length openBox = (length msg - 5)%nat) by apply length_drop. unfold p2pMsgPrefixSize in Hl.
  destruct (openBox !! (MessageCategoryBytes - 1)%nat) as [cat|] eqn:Hc.
  - assert (Hne : length msg <> 5%nat).
    { intros H5. apply lookup_lt_Some in Hc. rewrite Hlen, H5 in Hc. simpl in Hc. lia. }
    destruct (cat =? MessageCategory_Consensus); [by destruct (negb bound), (validateShardBoundMessage (drop MessageCategoryBytes openBox))|].
    destruct (cat =? MessageCategory_Node); [|done].
    destruct (Nat.leb_spec (length openBox) p2pNodeMsgPrefixSize) as [|Hgt]; [done|].
    pose proof (node_payload openBox Hgt) as Hp. destruct (validateNodeMessage openBox) as [[payload t]| |]; [|done..]. tauto.
  - apply lookup_ge_None in Hc. rewrite Hlen in Hc. simpl in Hc. lia.
Qed.

Lemma HandleNodeMessage_returns now k payload t b :
  (forall ds, t = MessageType_Transaction -> rlp_decode_txs payload = Some ds -> ready b ((fun d => mk_Transaction d now) <$> ds)) ->
  exists b', HandleNodeMessage now (k :: payload) t b = Some (tt, b').
Proof.
  intros Hr. unfold HandleNodeMessage. destruct (Z.eqb_spec t MessageType_Transaction) as [Ht|_].
  - unfold transactionMessageHandler. rewrite (run_lift _ _ _ k) by done. destruct (k =? TransactionMessageType_Send); [|by exists b].
    change (drop 1 (k :: payload)) with payload. destruct (rlp_decode_txs payload) as [ds|] eqn:Hd; [|by exists b].
    destruct (addPendingTransactions_returns now _ b (Hr ds Ht eq_refl)) as (errs & b' & E & _). exists b'. by rewrite (run_bind _ _ _ _ _ E).
  - exists b. destruct (t =? MessageType_Block); [|done]. rewrite (run_lift _ _ _ k) by done.
    destruct (k =? BlockMessageType_Sync); [|done]. by destruct (rlp_decode_blocks (drop 1 (k :: payload))).
Qed.

(** C23: whatever bytes come from the network, the node survives them unless the
    message has exactly five bytes: the validator accepts such a message as long
    enough for the category it then reads past its end. *)
Theorem only_five_bytes_crash now bound own msg b :
  (forall txs, inserted_by now bound msg txs -> ready b txs) ->
  receive now bound own msg b = None <-> length msg = 5%nat.
Proof.
  intros Hr. pose proof (validate_spec bound msg) as Hv. unfold receive.
  destruct (validate bound msg) as [[|m|payload t]| |] eqn:E; [by split; [|intros]|by split; [|intros]| |done|by split].
  destruct Hv as (Hne & Ht & H5). split; [|done]. intros Hx. exfalso. destruct own; [discriminate Hx|].
  destruct payload as [|k payload]; [done|]. destruct (HandleNodeMessage_returns now k payload t b) as [b' Hh].
  - intros ds -> Hd. apply Hr. by exists (k :: payload), ds.
  - rewrite (run_bind _ _ _ _ _ Hh) in Hx. discriminate Hx.
Qed.

(** ** Broadcast *)

Lemma send_one group msg h : (0 < length msg)%nat ->
  match SendMessageToGroups [group] msg h with
  | (None, h') => h_published h' = h_published h ++ [(group, msg)]
  | (Some _, h') => h_published h' = h_published h
  end.
Proof.
  intros Hl. unfold SendMessageToGroups. destruct (Nat.eqb_spec (length msg) 0); [lia|]. cbn [send_groups].
  unfold GetOrJoin. case_bool_decide; [|destruct (join_fails (h_calls h) group) eqn:Hj]; try done; unfold Publish; simpl;
    by match goal with |- context [publish_fails ?n ?g] => destruct (publish_fails n g) end.
Qed.

(** A message is published once at most. *)
Lemma broadcast_published n group msg h : (0 < length msg)%nat ->
  h_published (broadcast n group msg h) = h_published h \/ h_published (broadcast n group msg h) = h_published h ++ [(group, msg)].
Proof.
  intros Hl. revert h. induction n as [|n IH]; intros h; simpl; [by left|].
  pose proof (send_one group msg h Hl) as Hs. destruct (SendMessageToGroups [group] msg h) as [[e|] h']; [|by right].
  rewrite <- Hs. apply IH.
Qed.

(** ** Transactions *)

Lemma txs_of_single shardid tx :
  txs_of shardid [tx] = if (ShardID (data tx) =? ToShardID (data tx)) && (ShardID (data tx) =? shardid) then [tx] else [].
Proof. done. Qed.

(** The shards other than the transaction's get nothing. *)
Lemma add_to_shards_skip now shards tx b :
  (forall shardid, shardid ∈ shards -> txs_of shardid [tx] = [] /\ is_Some (b_txPool b !! shardid)) ->
  exists b', add_to_shards now shards [tx] b = Some ([], b') /\ b' = b.
Proof.
  induction shards as [|s shards IH]; intros Hs; cbn [add_to_shards]; [by exists b|].
  destruct (Hs s) as [Ht [p Hp]]; [by left|].
  assert (Ho : on_pool s (fun c => AddLocals_wait now c (txs_of s [tx])) b = Some ([], b)).
  { rewrite (on_pool_run s _ b p [] p Hp); [|by rewrite Ht]. f_equal. f_equal. unfold set_pool. destruct b. simpl in *. by rewrite insert_id. }
  destruct IH as (b' & E & ->); [intros s' Hs'; apply Hs; by right|]. exists b. split; [|done].
  by rewrite (run_bind _ _ _ _ _ Ho), (run_bind _ _ _ _ _ E).
Qed.

Lemma add_to_shards_one now shards tx b p e p' :
  NoDup shards -> ShardID (data tx) ∈ shards -> ToShardID (data tx) = ShardID (data tx) ->
  (forall shardid, shardid ∈ shards -> is_Some (b_txPool b !! shardid)) ->
  b_txPool b !! ShardID (data tx) = Some p -> AddLocals_wait now (b_chain b (ShardID (data tx))) [tx] p = Some ([e], p') ->
  add_to_shards now shards [tx] b = Some ([option_map ErrPool e], set_pool (ShardID (data tx)) p' b).
Proof.
  intros Hnd Hin Hto Hall Hp Ha. set (s := ShardID (data tx)) in *.
  assert (Hof : forall s', txs_of s' [tx] = if decide (s' = s) then [tx] else []).
  { intros s'. rewrite txs_of_single, Hto. fold s. rewrite Z.eqb_refl. simpl. case_decide; [subst; by rewrite Z.eqb_refl|].
    destruct (Z.eqb_spec s s'); congruence. }
  induction shards as [|s1 shards IH]; [by apply elem_of_nil in Hin|]. cbn [add_to_shards]. apply NoDup_cons in Hnd as [Hn Hnd].
  destruct (decide (s1 = s)) as [->|Hne].
  - assert (Ho : on_pool s (fun c => AddLocals_wait now c (txs_of s [tx])) b = Some ([e], set_pool s p' b)).
    { apply (on_pool_run s _ b p); [done|]. by rewrite Hof, decide_True. }
    destruct (add_to_shards_skip now shards tx (set_pool s p' b)) as (b' & E & ->).
    { intros s' Hs'. rewrite Hof, decide_False by congruence. split; [done|]. simpl. rewrite lookup_insert_ne by congruence. apply Hall. by right. }
    rewrite (run_bind _ _ _ _ _ Ho), (run_bind _ _ _ _ _ E). done.
  - apply elem_of_cons in Hin as [?|Hin]; [congruence|]. destruct (Hall s1) as [q Hq]; [by left|].
    assert (Ho : on_pool s1 (fun c => AddLocals_wait now c (txs_of s1 [tx])) b = Some ([], b)).
    { rewrite (on_pool_run s1 _ b q [] q Hq); [|by rewrite Hof, decide_False]. f_equal. f_equal. unfold set_pool. destruct b. simpl in *. by rewrite insert_id. }
    rewrite (run_bind _ _ _ _ _ Ho). rewrite (run_bind _ _ _ _ _ (IH Hnd Hin ltac:(intros s' Hs'; apply Hall; by right))). done.
Qed.

Lemma served_shard tx b : existsb (fun shardid => ShardID (data tx) =? shardid) (b_ShardID b) = bool_decide (ShardID (data tx) ∈ b_ShardID b).
Proof.
  apply eq_true_iff_eq. rewrite existsb_exists, bool_decide_eq_true, list_elem_of_In. split.
  - intros (s & Hs & He). apply Z.eqb_eq in He. by subst.
  - intros Hs. exists (ShardID (data tx)). by rewrite Z.eqb_refl.
Qed.

(** a transaction given to the node returns with an error and changes nothing
    when its shard is not served or its destination is another shard; otherwise
    it goes to the pool of its shard and to no other one, the result is the
    pool's, and only when the pool takes it is it broadcast. *)
Theorem transactions_go_to_their_shard now tx b :
  ready b [tx] -> let s := ShardID (data tx) in
  exists r b', AddPendingTransaction now tx b = Some (r, b') /\
    (s ∉ b_ShardID b -> r = Some ErrShardMismatch /\ b' = b) /\
    (s ∈ b_ShardID b -> ToShardID (data tx) <> s -> r = Some ErrCrossShard /\ b' = b) /\
    (s ∈ b_ShardID b -> ToShardID (data tx) = s -> exists p e p',
      b_txPool b !! s = Some p /\ AddLocals_wait now (b_chain b s) [tx] p = Some ([e], p') /\ pool_inv [] [] [] p' /\
      r = option_map ErrPool e /\ b_txPool b' = <[s := p']> (b_txPool b) /\
      b_host b' = match e with
                  | Some _ => b_host b
                  | None => broadcast NumTryBroadCast (NewGroupIDByShardID s)
                              (p2p_ConstructMessage (ConstructTransactionListMessageAccount [tx])) (b_host b)
                  end).
Proof.
  intros [Hnd Hr] s. unfold AddPendingTransaction. rewrite run_get, served_shard. fold s.
  destruct (decide (s ∈ b_ShardID b)) as [Hin|Hin]; [rewrite bool_decide_true by done|rewrite bool_decide_false by done; by eexists _, b].
  assert (Hall : forall shardid, shardid ∈ b_ShardID b -> is_Some (b_txPool b !! shardid)).
  { intros s' Hs'. destruct (Hr s' Hs') as (p & ? & _). by exists p. }
  destruct (decide (ToShardID (data tx) = s)) as [Hto|Hto].
  - destruct (Hr s Hin) as (p & Hp & Hpr). rewrite txs_of_single, Hto in Hpr. fold s in Hpr. rewrite Z.eqb_refl in Hpr. simpl in Hpr.
    destruct (AddLocals_wait_returns now (b_chain b s) _ _ Hpr) as (errs & p' & E & Hl & Hinv).
    destruct errs as [|e [|]]; simpl in Hl; try lia.
    assert (Ha : addPendingTransactions now [tx] b = Some ([option_map ErrPool e], set_pool s p' b)).
    { unfold addPendingTransactions. rewrite run_get. cbv zeta.
      rewrite (run_bind _ _ _ _ _ (add_to_shards_one now (b_ShardID b) tx b p e p' Hnd Hin Hto Hall Hp E)). simpl. rewrite Hto. fold s. by rewrite Z.eqb_refl. }
    rewrite (run_bind _ _ _ _ _ Ha). destruct e as [e|]; eexists _, _; (split; [reflexivity|]); (split_and!; [done|done|]);
      intros _ _; exists p; eexists _, p'; (split_and!; [done|exact E|done|done|done|done]).
  - assert (Ha : addPendingTransactions now [tx] b = Some ([Some ErrCrossShard], b)).
    { unfold addPendingTransactions. rewrite run_get. cbv zeta. destruct (add_to_shards_skip now (b_ShardID b) tx b) as (b' & E & ->).
      { intros s' Hs'. split; [|by apply Hall]. rewrite txs_of_single. fold s. destruct (Z.eqb_spec s (ToShardID (data tx))); [congruence|done]. }
      rewrite (run_bind _ _ _ _ _ E). simpl. fold s. destruct (Z.eqb_spec s (ToShardID (data tx))); [congruence|done]. }
    rewrite (run_bind _ _ _ _ _ Ha). eexists _, b. split; [reflexivity|]. done.
Qed.

Lemma accepted_is_broadcast now tx a a' :
  ready a [tx] -> AddPendingTransaction now tx a = Some (None, a') ->
  b_host a' = broadcast NumTryBroadCast (NewGroupIDByShardID (ShardID (data tx)))
                (p2p_ConstructMessage (ConstructTransactionListMessageAccount [tx])) (b_host a).
Proof.
  intros Hr. unfold AddPendingTransaction. rewrite run_get. destruct (existsb _ _); [|discriminate].
  destruct (addPendingTransactions_returns now [tx] a Hr) as (errs & a1 & E & _ & _ & _ & Hh & _).
  rewrite (run_bind _ _ _ _ _ E). destruct (first_error errs); [discriminate|]. unfold tryBroadcast. cbv zeta. rewrite run_modify.
  intros [= <-]. simpl. by rewrite Hh.
Qed.

Lemma receive_transactions now bound txs b :
  Forall encodable (data <$> txs) -> ready b ((fun tx => mk_Transaction (data tx) now) <$> txs) ->
  exists b', receive now bound false (p2p_ConstructMessage (ConstructTransactionListMessageAccount txs)) b = Some (None, b') /\
    taken now (b_ShardID b) ((fun tx => mk_Transaction (data tx) now) <$> txs) b b'.
Proof.
  intros He Hr. destruct (addPendingTransactions_returns now _ b Hr) as (errs & b' & E & Ht). exists b'. split; [|done].
  unfold receive. rewrite validate_transactions.
  assert (Hh : HandleNodeMessage now (TransactionMessageType_Send :: rlp_encode_txs (data <$> txs)) MessageType_Transaction b = Some (tt, b')).
  { unfold HandleNodeMessage, transactionMessageHandler. rewrite Z.eqb_refl, (run_lift _ _ _ TransactionMessageType_Send), Z.eqb_refl by done.
    change (drop 1 (_ :: ?l)) with l. rewrite (decode_encode_txs _ He).
    replace ((fun d => mk_Transaction d now) <$> (data <$> txs)) with ((fun tx => mk_Transaction (data tx) now) <$> txs)
      by exact (list_fmap_compose data (fun d => mk_Transaction d now) txs).
    by rewrite (run_bind _ _ _ _ _ E). }
  by rewrite (run_bind _ _ _ _ _ Hh).
Qed.


(** Joining the topics by an empty message never works: the host refuses it. *)
Lemma topics_are_not_joined b : initNodeConfiguration b = Some (Some ErrEmptyMessage, b).
Proof. unfold initNodeConfiguration. rewrite run_get. simpl. unfold mbind, M_bind, mmodify. simpl. by destruct b. Qed.

End Spec.

(** ** The consensus behind the backend *)

Section Deliver.
Context {crypto : TxCrypto} {range : RangeOrder} {orders : PoolOrders} {pubsub : PubSub} {codec : WireCodec} {laws : RlpLaws}.
Context {env : Env} {B : Type} {chain : ChainOps B}.
Context (wire_message : WireMessage -> Message).

Definition of_leader (t : MessageType) : bool := (t =? MessageType_ANNOUNCE) || (t =? MessageType_PREPARED) || (t =? MessageType_COMMITTED).

(** The message for the consensus in the bytes from the network, if any. *)
Definition consensus_message (bound : bool) (msg : list Z) : option Message :=
  match validate bound msg with Ret (AcceptC m) => Some (wire_message m) | _ => None end.

(** no message of the leader that comes through the backend has an effect on
    a node in normal operation: the key handed to the consensus is the empty one,
    so the message is refused as not from the leader. *)
Theorem leader_messages_are_refused now bound msg b (s : Consensus (B := B)) m leader :
  consensus_message bound msg = Some m -> of_leader (req_Type (msg_request m)) = true ->
  LeaderPubKey_ s = Some leader -> key_Bytes leader <> serializedKey -> mode s = Normal -> IgnoreViewIDCheck s = false ->
  deliver wire_message now bound false msg (b, s) = Some (Some errSenderPubKeyNotLeader, (b, s)).
Proof.
  intros Hm Ht Hl Hk Hmode Hi. unfold consensus_message in Hm. unfold deliver, receive.
  destruct (validate bound msg) as [[|m'|]| |]; try discriminate Hm. injection Hm as <-. cbn [mret M_ret mbind option_bind].
  unfold HandleMessageUpdate. rewrite run_get. cbv zeta. unfold of_leader in Ht. rewrite Ht.
  unfold mbind, M_bind, mlift. rewrite Hl. unfold mret, M_ret. rewrite Hmode, Hi.
  assert (Hne : serializedKey =? key_Bytes leader = false) by (apply Z.eqb_neq; congruence). cbn [mbind option_bind]. rewrite Hne. done.
Qed.

End Deliver.

(** ** A concrete node *)
Module BackendToy.
Import Toy.
#[local] Existing Instances toy_crypto canonical_order toy_orders toy_rlp_laws.

(** Transactions one after the other, their number in front. *)
Fixpoint decode_n (n : nat) (input : list Z) : option (list txdata) :=
  match n with
  | O => match input with [] => Some [] | _ => None end
  | S n' => match JournalToy.toy_decode input with
            | DecTx d rest => ds ← decode_n n' rest; Some (d :: ds)
            | _ => None
            end
  end.

#[local] Instance toy_codec : WireCodec := {|
  rlp_encode_txs := fun ds => Z.of_nat (length ds) :: List.concat (JournalToy.toy_encode <$> ds);
  rlp_decode_txs := fun l => match l with n :: rest => decode_n (Z.to_nat n) rest | [] => None end;
  WireBlock := Z; rlp_encode_blocks := fun l => l; rlp_decode_blocks := Some;
  WireMessage := Message;
  protobuf_Unmarshal := fun l => match l with
    | t :: _ => Some (mk_message (mk_request t 0 1 0 (be_bytes 32 101) [] (be_bytes 48 11) [] []) [])
    | [] => None
    end |}.

Lemma decode_n_encode ds : Forall encodable ds -> decode_n (length ds) (List.concat (JournalToy.toy_encode <$> ds)) = Some ds.
Proof.
  induction 1 as [|d ds Hd _ IH]; [done|]. cbn [length decode_n fmap list_fmap List.concat].
  rewrite (@dec_tx _ _ JournalToy.toy_laws d _ Hd). by rewrite IH.
Qed.

#[local] Instance toy_wire : WireLaws.
Proof. split. intros ds Hd. simpl. rewrite Nat2Z.id. by apply decode_n_encode. Qed.

(** The first attempt to publish fails. *)
#[local] Instance toy_pubsub : PubSub := {| join_fails := fun _ _ => false; publish_fails := fun n _ => (n =? 1)%nat |}.

Definition node0 : Benzene := mk_Benzene [0; 3] [] {[ 0 := pool0; 3 := pool0 ]} (fun _ => chain) (mk_Host ∅ [] 0).
Definition tx0 : Transaction := signed 0 5 0 [].
Definition again (later : Z) : Transaction := mk_Transaction (data tx0) later.

Lemma pool0_ready txs : Forall (fun tx => is_u64 (Nonce tx) /\ numSlots tx <= 1) txs -> Z.of_nat (length txs) < 2 ^ 60 -> pool_ready pool0 txs.
Proof.
  intros Hf Hl. split_and!.
  - apply reachable_inv, pool0_reachable.
  - unfold u64_events. assert (events pool0 = []) as -> by (vm_compute; reflexivity). constructor.
  - eapply Forall_impl; [exact Hf|]. by intros tx [? _].
  - right; left. split; [by intros h tx|]. eapply Forall_impl; [exact Hf|]. by intros tx [_ ?].
  - assert (size (lk_all (all pool0)) = 0%nat) as -> by (vm_compute; reflexivity). lia.
Qed.

Lemma shards_distinct : NoDup [0; 3].
Proof. repeat constructor; set_solver. Qed.

Lemma tx0_small : is_u64 (Nonce tx0) /\ numSlots tx0 <= 1.
Proof. split; [split|]; vm_compute; congruence. Qed.

Lemma node0_ready tx : data tx = data tx0 -> ready node0 [tx].
Proof.
  intros Hd. split; [exact shards_distinct|]. intros s Hs.
  assert (b_txPool node0 !! s = Some pool0) as Hp.
  { simpl in Hs. apply elem_of_cons in Hs as [->|Hs]; [done|]. apply list_elem_of_singleton in Hs as ->. done. }
  exists pool0. split; [done|]. rewrite txs_of_single. destruct (_ && _); apply pool0_ready; try done.
  constructor; [|constructor]. unfold numSlots, tx_size, Nonce. rewrite Hd. exact tx0_small.
Qed.

Lemma transactions_go_to_their_shard_witness :
  exists r b' p, AddPendingTransaction 0 tx0 node0 = Some (r, b') /\ b_txPool node0 !! 0 = Some p.
Proof.
  destruct (transactions_go_to_their_shard 0 tx0 node0 (node0_ready tx0 eq_refl)) as (r & b' & E & _ & _ & H).
  destruct H as (p & e & p' & Hp & _); [by left|reflexivity|]. exists r, b', p. split; [exact E|exact Hp].
Defined.


Lemma only_five_bytes_crash_witness : receive 0 true false [17; 0; 0; 0; 0] node0 = None.
Proof.
  apply (only_five_bytes_crash 0 true false [17; 0; 0; 0; 0] node0); [|reflexivity].
  intros txs (payload & ds & Hv & _). vm_compute in Hv. discriminate Hv.
Defined.

#[local] Existing Instances ConsensusToy.toy_env ConsensusToy.toy_chain.

Lemma leader_messages_are_refused_witness :
  deliver (fun m => m) 0 true false (p2p_ConstructMessage [0; MessageType_COMMITTED]) (node0, ConsensusToy.validator_state) =
    Some (Some errSenderPubKeyNotLeader, (node0, ConsensusToy.validator_state)).
Proof.
  refine (leader_messages_are_refused (fun m => m) 0 true (p2p_ConstructMessage [0; MessageType_COMMITTED]) node0
    ConsensusToy.validator_state _ (mk_key 11 1) _ _ _ _ _ _);
    [vm_compute; reflexivity|reflexivity|vm_compute; reflexivity|discriminate|vm_compute; reflexivity|vm_compute; reflexivity].
Defined.

End BackendToy.
