(* ===== verification/Api.v ===== *)
(** * The JSON-RPC interface to accounts, transactions and blocks

    Models [internal/bnzapi/api.go]: the transactions and blocks as they are
    presented to a client, the defaults of a transaction that is asked for, its
    signing and submission, and the unlocking of accounts.

    What the interface needs of the wallets is the class [Wallets], with its
    promise [WalletLaws]; the manager of wallets over the key store implements it
    ([key_store_wallets]).  Contexts, logging and hexadecimal wrappers of numbers
    are left out.  [None] of the state monad is a run-time panic, which the RPC
    server catches. *)
From Stdlib Require Import ZArith Lia String.
From stdpp Require Import gmap list.
From S2P Require Import Accounts KeyCrypt AccountCache KeyStore KeyWallets RawDb BlockChain.
From S2P Require Import Prelude GoHeap GoString Transaction TxList PricedList TxPool Backend.

Local Open Scope Z_scope.

(** ** Transactions as a client sees them *)

Record RPCTransaction : Type := mk_rpc_tx {
  rt_BlockHash : option Hash;
  rt_BlockNumber : option Z;
  rt_From : Address;
  rt_Gas : Z;
  rt_GasPrice : Z;
  rt_Hash : Hash;
  rt_Nonce : Z;
  rt_To : option Address;
  rt_TransactionIndex : option Z;
  rt_Value : Z;
  rt_V : Z; rt_R : Z; rt_S : Z;
  rt_ShardID : Z;
  rt_ToShardID : Z
}.

Section Present.
Context {crypto : TxCrypto}.

(** The error of [types.Sender] is dropped: the address is then zero. *)
Definition newRPCTransaction (tx : Transaction) (blockHash : Hash) (blockNumber index : Z) : option RPCTransaction :=
  let signer := if Protected tx then NewEIP155Signer None else FrontierSigner in
  from ← match signer_Sender signer tx with Ret a => Some a | Err _ => Some 0 | Panic => None end;
  let located {A} (x : A) : option A := if blockHash =? 0 then None else Some x in
  Some (mk_rpc_tx (located blockHash) (located blockNumber) from (Gas tx) (GasPrice tx) (tx_hash tx) (Nonce tx) (To tx)
          (located index) (Value tx) (sigV (data tx)) (sigR (data tx)) (sigS (data tx)) (ShardID (data tx)) (ToShardID (data tx))).

Definition newRPCPendingTransaction (tx : Transaction) : option RPCTransaction := newRPCTransaction tx 0 0 0.

Context {codec : DbCodec}.

(** [None] inside is the nil result. *)
Definition newRPCTransactionFromBlockIndex (b : Blk) (index : Z) : option (option RPCTransaction) :=
  match (snd b) !! Z.to_nat index with
  | None => Some None
  | Some tx => r ← newRPCTransaction tx (block_Hash b) (block_NumberU64 b) index; Some (Some r)
  end.

(** [rlp.EncodeToBytes] of the transaction. *)
Definition newRPCRawTransactionFromBlockIndex (b : Blk) (index : Z) : option (list Z) :=
  (fun tx => rlp_encode_tx (data tx)) <$> (snd b) !! Z.to_nat index.

Definition newRPCTransactionFromBlockHash (b : Blk) (hash : Hash) : option (option RPCTransaction) :=
  match list_find (fun tx => tx_hash tx = hash) (snd b) with
  | Some (idx, _) => newRPCTransactionFromBlockIndex b (Z.of_nat idx)
  | None => Some None
  end.

(** The transactions of a block: hashes, or all of them in full. *)
Inductive rpc_tx_field : Type := TxHashField (h : Hash) | TxFullField (r : option RPCTransaction).

Definition RPCMarshalBlock (b : Blk) (fullTx : bool) : option (list rpc_tx_field) :=
  if fullTx then mapM (fun tx => r ← newRPCTransactionFromBlockHash b (tx_hash tx); Some (TxFullField r)) (snd b)
  else Some ((fun tx => TxHashField (tx_hash tx)) <$> snd b).

(** [GetTransactionByHash]: what the database has, then what the pool has. *)
Definition GetTransactionByHash (db : DB) (pool : TxPool) (hash : Hash) : option (option RPCTransaction) :=
  match ReadTransaction db hash with
  | Some (tx, blockHash, blockNumber, index) => r ← newRPCTransaction tx blockHash blockNumber index; Some (Some r)
  | None =>
      match pool_Get pool hash with
      | Some tx => r ← newRPCPendingTransaction tx; Some (Some r)
      | None => Some None
      end
  end.

End Present.

(** ** The wallets *)

(** What the interface uses of the manager of wallets and of a wallet it finds. *)
Class Wallets (K : Type) `{!TxCrypto} : Type := {
  wallet_known : K -> Address -> bool;                                    (* AccountManager().Find *)
  wallet_sign : Address -> Transaction -> Z -> M K (option Transaction);  (* wallet.SignTx; None is an error *)
  wallets_ok : K -> Prop
}.

(** The promise: what is signed for an address is the transaction that was given,
    signed by this address for this chain. *)
Class WalletLaws (K : Type) `{!TxCrypto} `{!Wallets K} : Prop := {
  wallet_sign_law k addr tx c tx' k' :
    wallets_ok k -> 0 < c -> wallet_sign addr tx c k = Some (Some tx', k') ->
    wallets_ok k' /\ signer_Sender (NewEIP155Signer (Some c)) tx' = Ret addr /\ Protected tx' = true /\
    data tx' = set_signature (data tx) (sigR (data tx')) (sigS (data tx')) (sigV (data tx'))
}.

(** ** Sending transactions *)

Record SendTxArgs : Type := mk_args {
  a_From : Address;
  a_To : option Address;
  a_ShardID : option Z;
  a_ToShardID : option Z;
  a_Gas : option Z;
  a_GasPrice : option Z;
  a_Value : option Z;
  a_Nonce : option Z;
  a_Data : option (list Z);
  a_Input : option (list Z)
}.

Inductive api_error : Type :=
| ErrBackend (e : bnz_error)
| ErrSender (e : tx_error)
| ErrNoWallet | ErrNotSigned
| ErrDataAndInput | ErrNoCreationData
| ErrUndecodable
| ErrUnlockForbidden | ErrDurationTooLarge | ErrUnlock.

Section Send.
Context {crypto : TxCrypto} {range : RangeOrder} {orders : PoolOrders} {pubsub : PubSub} {wire : WireCodec}.
Context (now : Z).

(** Both of them are stubs. *)
Definition SuggestPrice : Z := 0.
Definition DoEstimateGas : Z := 0.

(** [bnz.TxPool(shardid).Nonce(addr)]. *)
Definition GetPoolNonce (shardid : Z) (addr : Address) : M Benzene Z := on_pool shardid (fun _ => nonces_get addr).

Definition setDefaults (args : SendTxArgs) : M Benzene (SendTxArgs + api_error) :=
  let price := default SuggestPrice (a_GasPrice args) in
  let value := default 0 (a_Value args) in
  nonce ← match a_Nonce args with
          | Some n => mret n
          | None => shardid ← mlift (a_ShardID args); GetPoolNonce shardid (a_From args)
          end;
  let args' gas := mk_args (a_From args) (a_To args) (a_ShardID args) (a_ToShardID args) (Some gas) (Some price) (Some value) (Some nonce)
                     (a_Data args) (a_Input args) in
  let done := mret (inl (args' (default DoEstimateGas (a_Gas args)))) in
  match a_Data args, a_Input args with
  | Some d, Some i => if decide (d = i) then
                        match a_To args with
                        | None => if (length d =? 0)%nat then mret (inr ErrNoCreationData) else done
                        | Some _ => done
                        end
                      else mret (inr ErrDataAndInput)
  | d, i =>
      match a_To args with
      | None => if (length (default (default [] i) d) =? 0)%nat then mret (inr ErrNoCreationData) else done
      | Some _ => done
      end
  end.

(** Pointers that are nil are dereferenced: [None]. *)
Definition toTransaction (args : SendTxArgs) : option Transaction :=
  let input := default (default [] (a_Data args)) (a_Input args) in
  nonce ← a_Nonce args; shardid ← a_ShardID args; gas ← a_Gas args;
  match a_To args with
  | None => Some (NewContractCreation now nonce shardid (a_Value args) gas (a_GasPrice args) input)
  | Some to =>
      toshard ← a_ToShardID args;
      Some (NewTransaction now nonce to shardid toshard (a_Value args) gas (a_GasPrice args) input)
  end.

Definition SubmitTransaction (tx : Transaction) : M Benzene (Hash + api_error) :=
  err ← AddPendingTransaction now tx;
  match err with
  | Some e => mret (inr (ErrBackend e))
  | None =>
      match To tx with
      | None =>
          match signer_Sender MakeSigner tx with
          | Ret _ => mret (inl (tx_hash tx))
          | Err e => mret (inr (ErrSender e))
          | Panic => mpanic
          end
      | Some _ => mret (inl (tx_hash tx))
      end
  end.

(** [rlp.DecodeBytes] of one transaction. *)
Definition SendRawTransaction (decoded : option txdata) : M Benzene (Hash + api_error) :=
  match decoded with
  | None => mret (inr ErrUndecodable)
  | Some d => SubmitTransaction (mk_Transaction d now)
  end.

Context {K : Type} {wallets : Wallets K}.

Definition on_node {A} (m : M Benzene A) : M (Benzene * K) A := fun '(b, k) => '(x, b') ← m b; Some (x, (b', k)).
Definition on_wallets {A} (m : M K A) : M (Benzene * K) A := fun '(b, k) => '(x, k') ← m k; Some (x, (b, k')).

Definition SendTransaction (args : SendTxArgs) : M (Benzene * K) (Hash + api_error) :=
  '(_, k) ← mget;
  if negb (wallet_known k (a_From args)) then mret (inr ErrNoWallet)
  else
    r ← on_node (setDefaults args);
    match r with
    | inr e => mret (inr e)
    | inl args' =>
        tx ← mlift (toTransaction args');
        signed ← on_wallets (wallet_sign (a_From args) tx 1);
        match signed with
        | None => mret (inr ErrNotSigned)
        | Some tx' => on_node (SubmitTransaction tx')
        end
    end.

End Send.

(** ** Unlocking accounts *)

(** [uint64(time.Duration(math.MaxInt64) / time.Second)]. *)
Definition max_unlock_seconds : Z := (2 ^ 63 - 1) / 10 ^ 9.

(** The duration in nanoseconds, an [int64]. *)
Definition unlock_duration (duration : option Z) : Z + api_error :=
  match duration with
  | None => inl (i64 (300 * 10 ^ 9))
  | Some d => if d >? max_unlock_seconds then inr ErrDurationTooLarge else inl (i64 (i64 d * 10 ^ 9))
  end.

Section Unlock.
Context {crypto : TxCrypto} {keys : KeyCrypto} {order : RangeOrder}.

(** The account with the address, wherever its key file is. *)
Definition account_of (addr : Address) : Account := mk_Account addr (mk_URL [] []).

Definition UnlockAccount (w : world) (extRPCEnabled insecureUnlockAllowed : bool) (addr : Address) (password : list Z) (duration : option Z)
    : M KeyStore (bool * option api_error) :=
  if extRPCEnabled && negb insecureUnlockAllowed then mret (false, Some ErrUnlockForbidden)
  else match unlock_duration duration with
       | inr e => mret (false, Some e)
       | inl d =>
           r ← TimedUnlock w (account_of addr) password d;
           match r with
           | inl _ => mret (false, Some ErrUnlock)
           | inr _ => mret (true, None)
           end
       end.

Definition LockAccount (addr : Address) : M KeyStore bool := _ ← Lock addr; mret true.

End Unlock.

(** ** The key store behind the wallets *)

Section KeyStoreWallets.
Context {crypto : TxCrypto} {keys : KeyCrypto} {order : RangeOrder}.

(** The manager of wallets and the key store. *)
Definition wallet_for (am : Manager keystoreWallet) (addr : Address) : option keystoreWallet :=
  match manager_Find am (account_of addr) with Ret w => Some w | _ => None end.

Definition key_store_sign (addr : Address) (tx : Transaction) (c : Z) : M (Manager keystoreWallet * KeyStore) (option Transaction) :=
  fun '(am, ks) =>
    match wallet_for am addr with
    | None => Some (None, (am, ks))
    | Some w =>
        '(r, ks') ← wallet_SignTx w (account_of addr) tx (Some c) ks;
        Some (match r with inr tx' => Some tx' | inl _ => None end, (am, ks'))
    end.

End KeyStoreWallets.
