(* ===== verification/ApiSpec.v ===== *)
(** * The properties of the JSON-RPC interface

    A transaction that is sent for an account is the one that was asked for,
    signed by this account, and its hash is returned when the pool has taken it
    - except for the creation of a contract, which is always reported as an error,
    also when the pool has taken it.  The sender of a transaction signed for a
    chain is never shown.  The key store with its manager keeps the promise the
    interface relies on. *)
From Stdlib Require Import ZArith Lia String.
From stdpp Require Import gmap list.
From S2P Require Import Accounts KeyCrypt AccountCache KeyStore KeyWallets KeyStoreSpec RawDb BlockChain.
From S2P Require Import Prelude GoHeap GoString Transaction TxList PricedList TxPool TxPoolInv TxPoolOps TxPoolMain TxPoolSpec Backend BackendSpec Api.

Local Open Scope Z_scope.

(** ** What a client sees *)

Section Present.
Context {crypto : TxCrypto}.

(** [ValidateSignatureValues] is stricter with the homestead rules. *)
Hypothesis homestead_stricter : forall v r s, ValidateSignatureValues v r s true = true -> ValidateSignatureValues v r s false = true.

Lemma recoverPlain_frontier h r s v a : recoverPlain h r s v true = Ret a -> recoverPlain h r s v false = Ret a.
Proof.
  unfold recoverPlain. destruct (bit_len v >? 8) eqn:E; [done|]. cbv zeta. destruct (ValidateSignatureValues _ _ _ true) eqn:Ev; [|done].
  by rewrite (homestead_stricter _ _ _ Ev).
Qed.

(** the interface shows the sender of a transaction of the pool only when it
    has no chain in its signature; the sender of every transaction signed for the
    chain of the pool is shown as the zero address, since the interface recovers
    it for chain zero. *)
Theorem protected_senders_are_hidden tx blockHash number index :
  valid_sender tx = true ->
  exists r, newRPCTransaction tx blockHash number index = Some r /\ rt_Hash r = tx_hash tx /\
    rt_From r = if Protected tx then 0 else sender_of tx.
Proof.
  unfold valid_sender, sender_of. destruct (signer_Sender pool_signer tx) as [a| |] eqn:E; [intros _|discriminate..].
  unfold newRPCTransaction. cbv zeta. destruct (Protected tx) eqn:Hp.
  - change (NewEIP155Signer None) with MakeSigner. rewrite (MakeSigner_rejects tx 1 a); [|done|done|exact E]. cbn [mbind option_bind].
    eexists. split; [reflexivity|]. done.
  - assert (Hf : signer_Sender FrontierSigner tx = Ret a).
    { unfold pool_signer, NewEIP155Signer, signer_Sender in E |- *. simpl in E. rewrite Hp in E. simpl in E. by apply recoverPlain_frontier. }
    rewrite Hf. cbn [mbind option_bind]. eexists. split; [reflexivity|]. done.
Qed.

Context {codec : DbCodec}.

Lemma find_transaction_hash body h i tx j : find_transaction body h i = Some (tx, j) -> tx_hash tx = h.
Proof.
  revert i. induction body as [|t body IH]; intros i; simpl; [done|]. destruct (Z.eqb_spec (tx_hash t) h); [by intros [= <- _]|apply IH].
Qed.

Lemma newRPCTransaction_hash tx bh n i r : newRPCTransaction tx bh n i = Some r -> rt_Hash r = tx_hash tx.
Proof. unfold newRPCTransaction. cbv zeta. destruct (match signer_Sender _ _ with Ret _ => _ | _ => _ end); [|done]. by intros [= <-]. Qed.

Lemma ReadTransaction_hash db h tx bh n i : ReadTransaction db h = Some (tx, bh, n, i) -> tx_hash tx = h.
Proof.
  unfold ReadTransaction. repeat (case_match; try done). intros [= <- _ _ _]. by eapply find_transaction_hash.
Qed.

(** A transaction that is found by its hash has this hash. *)
Lemma api_found_by_hash db pool h r :
  pool_inv [] [] [] pool -> GetTransactionByHash db pool h = Some (Some r) -> rt_Hash r = h.
Proof.
  intros Hp. unfold GetTransactionByHash. destruct (ReadTransaction db h) as [[[[tx bh] n] i]|] eqn:E.
  - destruct (newRPCTransaction tx bh n i) as [r'|] eqn:En; [|done]. intros [= <-]. rewrite (newRPCTransaction_hash _ _ _ _ _ En). by eapply ReadTransaction_hash.
  - destruct (pool_Get pool h) as [tx|] eqn:Eg; [|done]. unfold newRPCPendingTransaction. destruct (newRPCTransaction tx 0 0 0) as [r'|] eqn:En; [|done].
    intros [= <-]. rewrite (newRPCTransaction_hash _ _ _ _ _ En). by apply (proj1 (inv_lookup _ _ _ _ Hp)).
Qed.

(** The transactions of a block are shown in full in their order, each with its
    place in the block, if no two of them have the same hash. *)
Lemma block_transactions_in_order b l i tx :
  NoDup (tx_hash <$> snd b) -> RPCMarshalBlock b true = Some l -> snd b !! i = Some tx ->
  exists r, l !! i = Some (TxFullField (Some r)) /\ newRPCTransaction tx (block_Hash b) (block_NumberU64 b) (Z.of_nat i) = Some r.
Proof.
  intros Hnd Hm Hi. unfold RPCMarshalBlock in Hm. apply mapM_Some_1 in Hm.
  destruct (Forall2_lookup_l _ _ _ _ _ Hm Hi) as (f & Hf & Hr). cbn [mbind option_bind] in Hr.
  assert (Hfind : forall d : (forall t, Decision (tx_hash t = tx_hash tx)), @list_find _ (fun t => tx_hash t = tx_hash tx) d (snd b) = Some (i, tx)).
  { intros d. apply list_find_Some. split_and!; [done|done|]. intros j t Hj Hlt He.
    assert (j = i) as ->; [|lia]. eapply (NoDup_lookup _ _ _ (tx_hash tx) Hnd); rewrite list_lookup_fmap, ?Hj, ?Hi; simpl; congruence. }
  unfold newRPCTransactionFromBlockHash in Hr. rewrite Hfind in Hr. unfold newRPCTransactionFromBlockIndex in Hr. rewrite Nat2Z.id in Hr.
  replace (snd b !! i) with (Some tx) in Hr.
  destruct (newRPCTransaction tx (block_Hash b) (block_NumberU64 b) (Z.of_nat i)) as [r|]; [|discriminate Hr].
  injection Hr as <-. by exists r.
Qed.

End Present.

(** ** Sending *)

Section Send.
Context {crypto : TxCrypto} {range : RangeOrder} {orders : PoolOrders} {pubsub : PubSub} {wire : WireCodec}.
Context {K : Type} {wallets : Wallets K} {laws : WalletLaws K}.

(** The transaction that is asked for, with the nonce the pool gives when the
    client leaves it open. *)
Definition asked_for (args : SendTxArgs) (nonce : Z) (tx : Transaction) : Prop :=
  Nonce tx = nonce /\ To tx = a_To args /\ Value tx = default 0 (a_Value args) /\ GasPrice tx = default 0 (a_GasPrice args) /\
  Gas tx = default 0 (a_Gas args) /\ Payload (data tx) = default (default [] (a_Data args)) (a_Input args) /\
  Some (ShardID (data tx)) = a_ShardID args /\ Some (ToShardID (data tx)) = match a_To args with Some _ => a_ToShardID args | None => a_ShardID args end.

Lemma setDefaults_spec args b args' b1 :
  setDefaults args b = Some (inl args', b1) ->
  exists nonce, args' = mk_args (a_From args) (a_To args) (a_ShardID args) (a_ToShardID args) (Some (default 0 (a_Gas args)))
                  (Some (default 0 (a_GasPrice args))) (Some (default 0 (a_Value args))) (Some nonce) (a_Data args) (a_Input args) /\
    match a_Nonce args with
    | Some n => nonce = n /\ b1 = b
    | None => exists shardid, a_ShardID args = Some shardid /\ GetPoolNonce shardid (a_From args) b = Some (nonce, b1)
    end.
Proof.
  unfold setDefaults. cbv zeta. intros H.
  set (getn := match a_Nonce args with Some n => mret n | None => shardid ← mlift (a_ShardID args); GetPoolNonce shardid (a_From args) end : M Benzene Z) in H.
  unfold mbind at 1, M_bind at 1 in H. destruct (getn b) as [[nonce b']|] eqn:E; [|discriminate H].
  assert (Hn : match a_Nonce args with
    | Some n => nonce = n /\ b' = b
    | None => exists shardid, a_ShardID args = Some shardid /\ GetPoolNonce shardid (a_From args) b = Some (nonce, b') end).
  { unfold getn in E. destruct (a_Nonce args) as [n|]; [by injection E as <- <-|]. destruct (a_ShardID args) as [sid|]; [|discriminate E]. by exists sid. }
  exists nonce. repeat (case_match; try discriminate H); injection H as <- <-; split; done.
Qed.

Lemma setDefaults_error args b e b1 : setDefaults args b = Some (inr e, b1) -> e = ErrDataAndInput \/ e = ErrNoCreationData.
Proof.
  unfold setDefaults. cbv zeta. intros H.
  set (getn := match a_Nonce args with Some n => mret n | None => shardid ← mlift (a_ShardID args); GetPoolNonce shardid (a_From args) end : M Benzene Z) in H.
  unfold mbind at 1, M_bind at 1 in H. destruct (getn b) as [[nonce b']|]; [|discriminate H].
  repeat (case_match; try discriminate H); injection H as <- <-; auto.
Qed.

Lemma toTransaction_asked now args nonce tx :
  toTransaction now (mk_args (a_From args) (a_To args) (a_ShardID args) (a_ToShardID args) (Some (default 0 (a_Gas args)))
     (Some (default 0 (a_GasPrice args))) (Some (default 0 (a_Value args))) (Some nonce) (a_Data args) (a_Input args)) = Some tx ->
  asked_for args nonce tx.
Proof.
  unfold toTransaction, asked_for. cbn [a_From a_To a_ShardID a_ToShardID a_Gas a_GasPrice a_Value a_Nonce a_Data a_Input mbind option_bind].
  destruct (a_ShardID args) as [sid|]; [|discriminate]. cbn [mbind option_bind].
  destruct (a_To args) as [to|]; [destruct (a_ToShardID args) as [tsid|]; [|discriminate]|]; intros [= <-]; split_and!; reflexivity.
Qed.

Lemma asked_for_signed args nonce tx tx' :
  data tx' = set_signature (data tx) (sigR (data tx')) (sigS (data tx')) (sigV (data tx')) -> asked_for args nonce tx -> asked_for args nonce tx'.
Proof.
  intros Hd (H1 & H2 & H3 & H4 & H5 & H6 & H7 & H8). unfold asked_for, Nonce, To, Value, GasPrice, Gas in *. rewrite Hd.
  unfold set_signature. simpl. split_and!; done.
Qed.

Lemma run_on_node {A B} (m : M Benzene A) (f : A -> M (Benzene * K) B) b k :
  (on_node m ≫= f) (b, k) = match m b with Some (x, b1) => f x (b1, k) | None => None end.
Proof. unfold on_node, mbind at 1, M_bind. by destruct (m b) as [[]|]. Qed.

Lemma run_on_wallets {A B} (m : M K A) (f : A -> M (Benzene * K) B) b k :
  (on_wallets m ≫= f) (b, k) = match m k with Some (x, k1) => f x (b, k1) | None => None end.
Proof. unfold on_wallets, mbind at 1, M_bind. by destruct (m k) as [[]|]. Qed.

(** The runs of [SendTransaction] that get to the pool. *)
Lemma SendTransaction_runs now args b k r b' k' :
  wallets_ok k -> SendTransaction now args (b, k) = Some (r, (b', k')) ->
  (exists e, r = inr e /\ match e with ErrBackend _ | ErrSender _ => False | _ => True end) \/
  exists nonce b1 tx, setDefaults args b = Some (inl (mk_args (a_From args) (a_To args) (a_ShardID args) (a_ToShardID args) (Some (default 0 (a_Gas args)))
      (Some (default 0 (a_GasPrice args))) (Some (default 0 (a_Value args))) (Some nonce) (a_Data args) (a_Input args)), b1) /\
    asked_for args nonce tx /\ signer_Sender pool_signer tx = Ret (a_From args) /\ Protected tx = true /\ SubmitTransaction now tx b1 = Some (r, b').
Proof.
  intros Hk. unfold SendTransaction. rewrite run_get. destruct (negb (wallet_known k (a_From args))); [intros [= <- _ _]; left; by eexists|].
  rewrite run_on_node. destruct (setDefaults args b) as [[[args'|e] b1]|] eqn:Es; [| |discriminate].
  2:{ intros [= <- _ _]. left. eexists. split; [done|]. by destruct (setDefaults_error _ _ _ _ Es) as [-> | ->]. }
  destruct (setDefaults_spec _ _ _ _ Es) as (nonce & -> & _).
  destruct (toTransaction now _) as [tx|] eqn:Et; [|done]. rewrite (run_lift _ _ _ tx) by done. apply toTransaction_asked in Et.
  rewrite run_on_wallets. destruct (wallet_sign (a_From args) tx 1 k) as [[[tx'|] k1]|] eqn:Ew; [| |discriminate].
  2:{ intros [= <- _ _]. left. by eexists. }
  unfold on_node. destruct (SubmitTransaction now tx' b1) as [[r' b2]|] eqn:Eu; cbn [mbind option_bind]; [|discriminate]. intros [= <- <- <-]. right.
  destruct (wallet_sign_law k (a_From args) tx 1 tx' k1 Hk ltac:(lia) Ew) as (_ & Hs & Hp & Hd).
  exists nonce, b1, tx'. split_and!; [done|by eapply asked_for_signed|done|done|done].
Qed.

Lemma Submit_taken now tx b r b' :
  SubmitTransaction now tx b = Some (r, b') ->
  (exists e, r = inr (ErrBackend e) /\ AddPendingTransaction now tx b = Some (Some e, b')) \/
  (AddPendingTransaction now tx b = Some (None, b') /\
   match To tx with
   | Some _ => r = inl (tx_hash tx)
   | None => match signer_Sender MakeSigner tx with Ret _ => r = inl (tx_hash tx) | Err e => r = inr (ErrSender e) | Panic => False end
   end).
Proof.
  unfold SubmitTransaction. unfold mbind at 1, M_bind at 1. destruct (AddPendingTransaction now tx b) as [[[e|] b1]|]; [| |discriminate].
  - intros [= <- <-]. left. by exists e.
  - intros H. right. destruct (To tx); [by injection H as <- <-|]. destruct (signer_Sender MakeSigner tx); [by injection H as <- <-..|discriminate H].
Qed.

(** C19: when a client sends a transaction for an account and gets a hash back,
    the pool has taken a transaction with this hash that is the one asked for,
    with the nonce of the pool when the client left it open, signed by the
    account. *)
Theorem sent_transactions_are_as_asked now args b k h b' k' :
  wallets_ok k -> SendTransaction now args (b, k) = Some (inl h, (b', k')) ->
  exists nonce b1 tx, h = tx_hash tx /\ asked_for args nonce tx /\ valid_sender tx = true /\ sender_of tx = a_From args /\
    AddPendingTransaction now tx b1 = Some (None, b') /\
    match a_Nonce args with
    | Some n => nonce = n /\ b1 = b
    | None => exists shardid, a_ShardID args = Some shardid /\ GetPoolNonce shardid (a_From args) b = Some (nonce, b1)
    end.
Proof.
  intros Hk H. destruct (SendTransaction_runs _ _ _ _ _ _ _ Hk H) as [(e & He & _)|(nonce & b1 & tx & Hd & Ha & Hs & Hp & Hu)]; [discriminate He|].
  exists nonce, b1, tx. unfold valid_sender, sender_of. rewrite Hs.
  destruct (Submit_taken _ _ _ _ _ Hu) as [(e & He & _)|[Hadd Hr]]; [discriminate He|].
  assert (h = tx_hash tx) as -> by (destruct (To tx); [by injection Hr|]; destruct (signer_Sender MakeSigner tx); [by injection Hr|discriminate Hr|done]).
  destruct (setDefaults_spec _ _ _ _ Hd) as (nonce' & [= <-] & Hn). split_and!; done.
Qed.

(** a client that creates a contract is always told of an error; when the
    pool has taken the transaction the error is the wrong chain, because its
    sender is recovered for chain zero afterwards. *)
Theorem contract_creations_report_an_error now args b k r b' k' :
  wallets_ok k -> a_To args = None -> SendTransaction now args (b, k) = Some (r, (b', k')) ->
  (r = inr (ErrSender ErrInvalidChainId) /\
     exists b1 tx, To tx = None /\ sender_of tx = a_From args /\ AddPendingTransaction now tx b1 = Some (None, b')) \/
  exists e, r = inr e /\ match e with ErrSender _ => False | _ => True end.
Proof.
  intros Hk Hto H. destruct (SendTransaction_runs _ _ _ _ _ _ _ Hk H) as [(e & -> & He)|(nonce & b1 & tx & Hd & Ha & Hs & Hp & Hu)].
  { right. exists e. split; [done|]. by destruct e. }
  pose proof Ha as (_ & Ht & _). rewrite Hto in Ht.
  assert (Hm : signer_Sender MakeSigner tx = Err ErrInvalidChainId) by (by apply (MakeSigner_rejects tx 1 (a_From args))).
  destruct (Submit_taken _ _ _ _ _ Hu) as [(e & -> & _)|[Hadd Hr]]; [right; by eexists|left].
  rewrite Ht, Hm in Hr. subst r. split; [done|]. exists b1, tx. split_and!; [done| |done]. unfold sender_of. by rewrite Hs.
Qed.

End Send.

(** ** Unlocking *)

(** The time of an unlock never overflows: what is not refused is that many
    seconds. *)
Lemma unlock_time d : is_u64 d ->
  match unlock_duration (Some d) with
  | inl t => t = d * 10 ^ 9 /\ 0 <= t < 2 ^ 63
  | inr e => e = ErrDurationTooLarge /\ 2 ^ 63 <= d * 10 ^ 9 + 10 ^ 9
  end.
Proof.
  intros Hu. unfold is_u64 in Hu. unfold unlock_duration, max_unlock_seconds. rewrite Z.gtb_ltb.
  destruct (Z.ltb_spec ((2 ^ 63 - 1) / 10 ^ 9) d) as [Hlt|Hle].
  - split; [done|]. change ((2 ^ 63 - 1) / 10 ^ 9) with 9223372036 in Hlt. lia.
  - change ((2 ^ 63 - 1) / 10 ^ 9) with 9223372036 in Hle. rewrite (i64_small d) by lia. rewrite i64_small by lia. lia.
Qed.

(** ** The key store keeps the promise *)

Section KeyStoreWallets.
Context {crypto : TxCrypto} {keys : KeyCrypto} {order : RangeOrder} {sign : SignLaws}.
Hypothesis address_of_key : forall prv : PrivateKey, PubkeyToAddress prv = key_address prv.

#[export] Instance key_store_wallets : Wallets (Manager keystoreWallet * KeyStore) := {|
  wallet_known := fun k addr => match wallet_for (fst k) addr with Some _ => true | None => false end;
  wallet_sign := key_store_sign;
  wallets_ok := fun k => ks_inv [] (snd k)
|}.

#[export] Instance key_store_laws : WalletLaws (Manager keystoreWallet * KeyStore).
Proof.
  split. intros [am ks] addr tx c tx' [am' ks'] Hi Hc Hs. simpl in *. unfold key_store_sign in Hs.
  destruct (wallet_for am addr) as [w|]; [|discriminate Hs]. unfold wallet_SignTx, guarded in Hs.
  destruct (wallet_Contains w (account_of addr)); [|discriminate Hs]. unfold ks_SignTx, unlocked_key in Hs. rewrite run_try, run_get in Hs.
  destruct (ks_unlocked ks !! acc_Address (account_of addr)) as [u|] eqn:E; [|discriminate Hs].
  destruct (i_unlocked _ _ Hi _ _ E) as (_ & _ & prv & Hm & Hpub). rewrite (run_lift _ _ _ prv Hm) in Hs. cbn [ret mret M_ret] in Hs.
  unfold sign_tx in Hs. destruct (SignTx tx (NewEIP155Signer (Some c)) prv) as [t| |] eqn:Et; [|discriminate Hs..].
  injection Hs as -> <- <-. destruct (SignTx_eip155_recovers tx c prv tx' Hc Et) as (H1 & H2 & _ & H4).
  simpl in Hpub. rewrite <- Hpub, address_of_key. split_and!; done.
Qed.

End KeyStoreWallets.

(** ** A concrete client *)
Module ApiToy.
Import Toy KeyToy StoreToy BackendToy.
#[local] Existing Instances toy_crypto canonical_order toy_orders toy_rlp_laws toy_keys toy_laws BackendToy.toy_codec BackendToy.toy_pubsub.
#[local] Instance toy_wallet_laws : WalletLaws (Manager keystoreWallet * KeyStore) := key_store_laws toy_address.

(** A manager that knows the wallet of an unlocked account. *)
Definition wallets0 : Manager keystoreWallet * KeyStore := (mk_Manager ∅ [] [mk_wallet toy_new] [] true, toy_unlocked).

Definition payment : SendTxArgs := mk_args (acc_Address toy_new) (Some 77) (Some 0) (Some 0) None (Some 5) (Some 10) None None None.
Definition creation : SendTxArgs := mk_args (acc_Address toy_new) None (Some 0) None None (Some 5) (Some 10) None (Some [1; 2]) None.

Lemma wallets0_ok : wallets_ok wallets0.
Proof. apply toy_inv, toy_unlocked_reached. Qed.

Lemma sent_transactions_are_as_asked_witness : exists h b' k' tx,
  SendTransaction 0 payment (node0, wallets0) = Some (inl h, (b', k')) /\ h = tx_hash tx /\ sender_of tx = acc_Address toy_new.
Proof.
  assert (exists h b' k', SendTransaction 0 payment (node0, wallets0) = Some (inl h, (b', k'))) as (h & b' & k' & E).
  { assert (match SendTransaction 0 payment (node0, wallets0) with Some (inl _, _) => true | _ => false end = true) as H by (vm_compute; reflexivity).
    destruct (SendTransaction 0 payment (node0, wallets0)) as [[[h|] [b' k']]|]; [|discriminate H..]. exists h, b', k'. reflexivity. }
  destruct (sent_transactions_are_as_asked 0 payment node0 wallets0 h b' k' wallets0_ok E) as (nonce & b1 & tx & H1 & _ & _ & H2 & _).
  exists h, b', k', tx. split; [exact E|]. split; [exact H1|exact H2].
Defined.

Lemma contract_creations_report_an_error_witness : exists e b' k', SendTransaction 0 creation (node0, wallets0) = Some (inr e, (b', k')).
Proof.
  assert (exists r b' k', SendTransaction 0 creation (node0, wallets0) = Some (r, (b', k'))) as (r & b' & k' & E).
  { assert (match SendTransaction 0 creation (node0, wallets0) with Some _ => true | _ => false end = true) as H by (vm_compute; reflexivity).
    destruct (SendTransaction 0 creation (node0, wallets0)) as [[r [b' k']]|]; [|discriminate H]. exists r, b', k'. reflexivity. }
  destruct (contract_creations_report_an_error 0 creation node0 wallets0 r b' k' wallets0_ok eq_refl E) as [[-> _]|(e & -> & _)].
  - eexists _, b', k'. exact E.
  - exists e, b', k'. exact E.
Defined.

Lemma toy_homestead (v r s : Z) : @ValidateSignatureValues toy_crypto v r s true = true -> @ValidateSignatureValues toy_crypto v r s false = true.
Proof. exact (fun H => H). Qed.

Lemma protected_senders_are_hidden_witness : exists r, newRPCTransaction tx0 5 1 0 = Some r /\ rt_From r = 0.
Proof.
  destruct (protected_senders_are_hidden toy_homestead tx0 5 1 0) as (r & E & _ & H); [vm_compute; reflexivity|].
  exists r. split; [exact E|]. rewrite H. vm_compute. reflexivity.
Defined.

End ApiToy.
