(* ===== verification/Receipts.v ===== *)
(** * Logs, receipts and their bloom filters

    Models core/types/bloom9.go, core/types/log.go and core/types/receipt.go:
    the 2048-bit filter of the addresses and topics of the logs of a block, the
    consensus and the storage encoding of receipts with the two formats of older
    databases, and the fields that are computed again when receipts are read.

    RLP is another package: the encodings of the seven structures it is called
    with are the fields of [ReceiptRlp]; a nested value that brings its own
    encoder appears in them encoded, as it does in the package.  What is relied
    on is [ReceiptRlpLaws]: a structure is decoded to itself, and a list with
    another number of fields is refused. *)
From stdpp Require Import gmap list.
From Stdlib Require Import ZArith Lia.
From S2P Require Import Prelude Transaction.

Local Open Scope Z_scope.

(** ** The filter (bloom9.go) *)
Definition BloomByteLength : nat := 256.

(** 256 bytes, the most significant one first. *)
Notation Bloom := (list Z) (only parsing).
Definition zero_bloom : Bloom := replicate BloomByteLength 0.

(** [b[i] |= v]. *)
Definition or_byte (b : Bloom) (i : nat) (v : Z) : Bloom := <[i := Z.lor (b !!! i) v]> b.

(** [None]: the panic for more than 256 bytes. *)
Definition SetBytes (b : Bloom) (d : list Z) : option Bloom :=
  if decide (length b < length d)%nat then None else Some (go_copy b (BloomByteLength - length d) d).

Definition BytesToBloom (b : list Z) : option Bloom := SetBytes zero_bloom b.
Definition Bloom9 (data : list Z) : option (list Z) := SetBytes zero_bloom data.

Definition Big (b : Bloom) : Z := be_int b.

Section Filter.
Context `{crypto : !TxCrypto}.

(** The six bytes of the buffer are read from the hash. *)
Definition bloomValues (data : list Z) : (nat * Z) * (nat * Z) * (nat * Z) :=
  let hashbuf := take 6 (Keccak256 data) in
  let value (i : nat) := Z.shiftl 1 (Z.land (hashbuf !!! i) 7) mod 256 in
  let index (i : nat) := Z.to_nat (Z.of_nat BloomByteLength - Z.shiftr (Z.land (be_int (take 2 (drop i hashbuf))) 2047) 3 - 1) in
  ((index 0%nat, value 1%nat), (index 2%nat, value 3%nat), (index 4%nat, value 5%nat)).

Definition bloom_add (b : Bloom) (d : list Z) : Bloom :=
  let '((i1, v1), (i2, v2), (i3, v3)) := bloomValues d in
  or_byte (or_byte (or_byte b i1 v1) i2 v2) i3 v3.

Definition Test (b : Bloom) (topic : list Z) : bool :=
  let '((i1, v1), (i2, v2), (i3, v3)) := bloomValues topic in
  (v1 =? Z.land v1 (b !!! i1)) && (v2 =? Z.land v2 (b !!! i2)) && (v3 =? Z.land v3 (b !!! i3)).

Definition BloomLookup (bin : Bloom) (topic : list Z) : bool := Test bin topic.

End Filter.

(** ** Logs (log.go) *)
Record Log : Type := mk_Log {
  l_Address : Address;
  l_Topics : list Hash;
  l_Data : list Z;
  l_BlockNumber : Z;
  l_TxHash : Hash;
  l_TxIndex : Z;
  l_BlockHash : Hash;
  l_Index : Z;
  l_Removed : bool
}.

(** [rlpLog] and [rlpStorageLog]. *)
Record rlpLog : Type := mk_rlpLog { rl_Address : Address; rl_Topics : list Hash; rl_Data : list Z }.

Record legacyRlpStorageLog : Type := mk_legacyLog {
  ll_Address : Address; ll_Topics : list Hash; ll_Data : list Z;
  ll_BlockNumber : Z; ll_TxHash : Hash; ll_TxIndex : Z; ll_BlockHash : Hash; ll_Index : Z
}.

(** ** Receipts (receipt.go) *)
Record Receipt : Type := mk_Receipt {
  PostState : list Z;
  Status : Z;
  CumulativeGasUsed : Z;
  r_Bloom : Bloom;
  Logs : list Log;
  r_TxHash : Hash;
  ContractAddress : Address;
  GasUsed : Z;
  r_BlockHash : Hash;
  r_BlockNumber : option Z;
  TransactionIndex : Z
}.

Definition ReceiptStatusFailed : Z := 0.
Definition ReceiptStatusSuccessful : Z := 1.
Definition receiptStatusFailedRLP : list Z := [].
Definition receiptStatusSuccessfulRLP : list Z := [1].

Definition zero_receipt : Receipt := mk_Receipt [] 0 0 zero_bloom [] 0 0 0 0 None 0.

(** The structures that are encoded; logs are encoded already. *)
Record receiptRLP : Type := mk_receiptRLP {
  c_PostStateOrStatus : list Z; c_CumulativeGasUsed : Z; c_Bloom : Bloom; c_Logs : list (list Z)
}.
Record storedReceiptRLP : Type := mk_storedRLP {
  s_PostStateOrStatus : list Z; s_CumulativeGasUsed : Z; s_Logs : list (list Z)
}.
Record v4StoredReceiptRLP : Type := mk_v4RLP {
  v4_PostStateOrStatus : list Z; v4_CumulativeGasUsed : Z; v4_TxHash : Hash; v4_ContractAddress : Address;
  v4_Logs : list (list Z); v4_GasUsed : Z
}.
Record v3StoredReceiptRLP : Type := mk_v3RLP {
  v3_PostStateOrStatus : list Z; v3_CumulativeGasUsed : Z; v3_Bloom : Bloom; v3_TxHash : Hash;
  v3_ContractAddress : Address; v3_Logs : list (list Z); v3_GasUsed : Z
}.

Class ReceiptRlp : Type := {
  enc_log : rlpLog -> list Z;                    dec_log : list Z -> option rlpLog;
  enc_legacy : legacyRlpStorageLog -> list Z;    dec_legacy : list Z -> option legacyRlpStorageLog;
  enc_receipt : receiptRLP -> list Z;            dec_receipt : list Z -> option receiptRLP;
  enc_stored : storedReceiptRLP -> list Z;       dec_stored : list Z -> option storedReceiptRLP;
  enc_v4 : v4StoredReceiptRLP -> list Z;         dec_v4 : list Z -> option v4StoredReceiptRLP;
  enc_v3 : v3StoredReceiptRLP -> list Z;         dec_v3 : list Z -> option v3StoredReceiptRLP;
  CreateAddress : Address -> Z -> Address        (* crypto.CreateAddress *)
}.

Inductive receipt_error : Type :=
| ErrRlp
| ErrInvalidStatus (status : list Z)
| ErrCountMismatch.

Definition of_option {A} (o : option A) : outcome receipt_error A := match o with Some x => Ret x | None => Err ErrRlp end.

Section Receipts.
Context `{crypto : !TxCrypto, rlp : !ReceiptRlp}.

(** *** Filters of logs *)
Definition add_log (bin : Bloom) (log : Log) : Bloom :=
  foldl (fun b topic => bloom_add b (be_bytes 32 topic)) (bloom_add bin (be_bytes 20 (l_Address log))) (l_Topics log).

Definition CreateBloom (receipts : list Receipt) : Bloom :=
  foldl (fun bin receipt => foldl add_log bin (Logs receipt)) zero_bloom receipts.

Definition LogsBloom (logs : list Log) : list Z := foldl add_log zero_bloom logs.

(** *** Encodings of logs *)
Definition Log_EncodeRLP (l : Log) : list Z := enc_log (mk_rlpLog (l_Address l) (l_Topics l) (l_Data l)).

Definition Log_DecodeRLP (l : Log) (blob : list Z) : outcome receipt_error Log :=
  dec ← of_option (dec_log blob);
  Ret (mk_Log (rl_Address dec) (rl_Topics dec) (rl_Data dec) (l_BlockNumber l) (l_TxHash l) (l_TxIndex l) (l_BlockHash l)
         (l_Index l) (l_Removed l)).

Definition zero_log : Log := mk_Log 0 [] [] 0 0 0 0 0 false.

Definition LogForStorage_EncodeRLP (l : Log) : list Z := enc_log (mk_rlpLog (l_Address l) (l_Topics l) (l_Data l)).

Definition LogForStorage_DecodeRLP (blob : list Z) : outcome receipt_error Log :=
  match dec_log blob with
  | Some dec => Ret (mk_Log (rl_Address dec) (rl_Topics dec) (rl_Data dec) 0 0 0 0 0 false)
  | None =>
      dec ← of_option (dec_legacy blob);
      Ret (mk_Log (ll_Address dec) (ll_Topics dec) (ll_Data dec) 0 0 0 0 0 false)
  end.

(** The elements of a list field, each with its own decoder. *)
Fixpoint each {A B} (f : A -> outcome receipt_error B) (l : list A) : outcome receipt_error (list B) :=
  match l with
  | [] => Ret []
  | x :: l => y ← f x; ys ← each f l; Ret (y :: ys)
  end.

(** *** Encodings of receipts *)
Definition NewReceipt (root : list Z) (failed : bool) (cumulativeGasUsed : Z) : Receipt :=
  mk_Receipt root (if failed then ReceiptStatusFailed else ReceiptStatusSuccessful) cumulativeGasUsed zero_bloom [] 0 0 0 0 None 0.

Definition statusEncoding (r : Receipt) : list Z :=
  if decide (length (PostState r) = 0%nat) then
    if Status r =? ReceiptStatusFailed then receiptStatusFailedRLP else receiptStatusSuccessfulRLP
  else PostState r.

Definition set_state (r : Receipt) (post : list Z) (status : Z) : Receipt :=
  mk_Receipt post status (CumulativeGasUsed r) (r_Bloom r) (Logs r) (r_TxHash r) (ContractAddress r) (GasUsed r) (r_BlockHash r)
    (r_BlockNumber r) (TransactionIndex r).

Definition setStatus (r : Receipt) (postStateOrStatus : list Z) : outcome receipt_error Receipt :=
  if decide (postStateOrStatus = receiptStatusSuccessfulRLP) then Ret (set_state r (PostState r) ReceiptStatusSuccessful)
  else if decide (postStateOrStatus = receiptStatusFailedRLP) then Ret (set_state r (PostState r) ReceiptStatusFailed)
  else if decide (length postStateOrStatus = 32%nat) then Ret (set_state r postStateOrStatus (Status r))
  else Err (ErrInvalidStatus postStateOrStatus).

(** The fields a decoder sets. *)
Definition set_decoded (r : Receipt) (cum : Z) (bloom : Bloom) (logs : list Log) (txHash : Hash) (contract : Address) (gas : Z) : Receipt :=
  mk_Receipt (PostState r) (Status r) cum bloom logs txHash contract gas (r_BlockHash r) (r_BlockNumber r) (TransactionIndex r).

Definition Receipt_EncodeRLP (r : Receipt) : list Z :=
  enc_receipt (mk_receiptRLP (statusEncoding r) (CumulativeGasUsed r) (r_Bloom r) (Log_EncodeRLP <$> Logs r)).

Definition Receipt_DecodeRLP (r : Receipt) (blob : list Z) : outcome receipt_error Receipt :=
  dec ← of_option (dec_receipt blob);
  logs ← each (Log_DecodeRLP zero_log) (c_Logs dec);
  r1 ← setStatus r (c_PostStateOrStatus dec);
  Ret (set_decoded r1 (c_CumulativeGasUsed dec) (c_Bloom dec) logs (r_TxHash r) (ContractAddress r) (GasUsed r)).

Definition ReceiptForStorage_EncodeRLP (r : Receipt) : list Z :=
  enc_stored (mk_storedRLP (statusEncoding r) (CumulativeGasUsed r) (LogForStorage_EncodeRLP <$> Logs r)).

(** [r.Bloom = CreateBloom(Receipts{r})] after the logs are set. *)
Definition with_bloom (r : Receipt) : Receipt :=
  set_decoded r (CumulativeGasUsed r) (CreateBloom [r]) (Logs r) (r_TxHash r) (ContractAddress r) (GasUsed r).

Definition decodeStoredReceiptRLP (r : Receipt) (blob : list Z) : outcome receipt_error Receipt :=
  stored ← of_option (dec_stored blob);
  logs ← each LogForStorage_DecodeRLP (s_Logs stored);
  r1 ← setStatus r (s_PostStateOrStatus stored);
  Ret (with_bloom (set_decoded r1 (s_CumulativeGasUsed stored) (r_Bloom r) logs (r_TxHash r) (ContractAddress r) (GasUsed r))).

Definition decodeV4StoredReceiptRLP (r : Receipt) (blob : list Z) : outcome receipt_error Receipt :=
  stored ← of_option (dec_v4 blob);
  logs ← each LogForStorage_DecodeRLP (v4_Logs stored);
  r1 ← setStatus r (v4_PostStateOrStatus stored);
  Ret (with_bloom (set_decoded r1 (v4_CumulativeGasUsed stored) (r_Bloom r) logs (v4_TxHash stored) (v4_ContractAddress stored)
                     (v4_GasUsed stored))).

Definition decodeV3StoredReceiptRLP (r : Receipt) (blob : list Z) : outcome receipt_error Receipt :=
  stored ← of_option (dec_v3 blob);
  logs ← each LogForStorage_DecodeRLP (v3_Logs stored);
  r1 ← setStatus r (v3_PostStateOrStatus stored);
  Ret (set_decoded r1 (v3_CumulativeGasUsed stored) (v3_Bloom stored) logs (v3_TxHash stored) (v3_ContractAddress stored)
         (v3_GasUsed stored)).

(** A decoder that fails leaves the receipt as it was. *)
Definition ReceiptForStorage_DecodeRLP (r : Receipt) (blob : list Z) : outcome receipt_error Receipt :=
  match decodeStoredReceiptRLP r blob with
  | Err _ =>
      match decodeV3StoredReceiptRLP r blob with
      | Err _ => decodeV4StoredReceiptRLP r blob
      | o => o
      end
  | o => o
  end.

(** *** Derived fields *)

(** The logs of one receipt, and the index of the next one ([uint]). *)
Fixpoint derive_logs (number : Z) (hash txHash : Hash) (i : Z) (logIndex : Z) (logs : list Log) : list Log * Z :=
  match logs with
  | [] => ([], logIndex)
  | l :: logs =>
      let '(rest, next) := derive_logs number hash txHash i (u64 (logIndex + 1)) logs in
      (mk_Log (l_Address l) (l_Topics l) (l_Data l) number txHash i hash logIndex (l_Removed l) :: rest, next)
  end.

(** [from, _ := Sender(signer, tx)]: the zero address with an error. *)
Definition derive_contract (r : Receipt) (tx : Transaction) : outcome receipt_error Address :=
  match To tx with
  | Some _ => Ret (ContractAddress r)
  | None =>
      match signer_Sender MakeSigner tx with
      | Ret from => Ret (CreateAddress from (Nonce tx))
      | Err _ => Ret (CreateAddress 0 (Nonce tx))
      | Panic => Panic
      end
  end.

(** [prev]: the cumulative gas of the receipt before. *)
Fixpoint derive_loop (hash : Hash) (number : Z) (i : Z) (logIndex : Z) (prev : option Z) (rs : list Receipt) (txs : list Transaction)
    : outcome receipt_error (list Receipt) :=
  match rs, txs with
  | r :: rs, tx :: txs =>
      contract ← derive_contract r tx;
      let gas := match prev with None => CumulativeGasUsed r | Some p => u64 (CumulativeGasUsed r - p) end in
      let '(logs, logIndex') := derive_logs number hash (tx_hash tx) i logIndex (Logs r) in
      let r' := mk_Receipt (PostState r) (Status r) (CumulativeGasUsed r) (r_Bloom r) logs (tx_hash tx) contract gas hash (Some number) i in
      rest ← derive_loop hash number (i + 1) logIndex' (Some (CumulativeGasUsed r)) rs txs;
      Ret (r' :: rest)
  | _, _ => Ret []
  end.

Definition DeriveFields (hash : Hash) (number : Z) (txs : list Transaction) (rs : list Receipt) : outcome receipt_error (list Receipt) :=
  if decide (length txs = length rs) then derive_loop hash number 0 0 None rs txs else Err ErrCountMismatch.

End Receipts.
