(* ===== verification/ReceiptsSpec.v ===== *)
(** * What holds of receipts and their filters

    A filter is the set of the bits of the addresses and topics that were
    logged, so nothing that was logged is missed; receipts survive storage with
    every field, in the current format as in the two older ones; reading them
    numbers the logs of a block through and splits its gas among the
    transactions. *)
From stdpp Require Import gmap list.
From Stdlib Require Import ZArith Lia.
From S2P Require Import Prelude Transaction Receipts.

Local Open Scope Z_scope.

(** ** Bytes as bits *)

Lemma testbit_snoc x b n : is_byte b -> 0 <= n ->
  Z.testbit (x * 256 + b) n = if n <? 8 then Z.testbit b n else Z.testbit x (n - 8).
Proof.
  intros Hb Hn. unfold is_byte in Hb. destruct (Z.ltb_spec n 8).
  - rewrite <- (Z.mod_pow2_bits_low _ 8 n) by lia. f_equal. change (2 ^ 8) with 256. rewrite Z.add_comm, Z_mod_plus_full. by apply Z.mod_small.
  - replace n with (n - 8 + 8) at 1 by lia. rewrite <- Z.div_pow2_bits by lia. f_equal. change (2 ^ 8) with 256.
    rewrite Z.div_add_l by lia. rewrite Z.div_small by lia. lia.
Qed.

(** Bit [n] of a big-endian number is bit [n mod 8] of byte [n / 8] from the right. *)
Lemma testbit_be_int l n : Forall is_byte l -> 0 <= n < 8 * Z.of_nat (length l) ->
  Z.testbit (be_int l) n = Z.testbit (l !!! (length l - 1 - Z.to_nat (n / 8))%nat) (n mod 8).
Proof.
  revert n. induction l as [|b l IH] using rev_ind; intros n Hl Hn; [simpl in Hn; lia|].
  apply Forall_app in Hl as [Hl Hb]. apply Forall_cons in Hb as [Hb _]. rewrite length_app in *. simpl in *.
  rewrite be_int_snoc, testbit_snoc by (done || lia). destruct (Z.ltb_spec n 8).
  - rewrite Z.div_small, Z.mod_small by lia. rewrite lookup_total_app_r by lia. by replace (_ - _ - _ - _)%nat with 0%nat by lia.
  - assert (n / 8 = (n - 8) / 8 + 1) as E by (replace n with (n - 8 + 1 * 8) at 1 by lia; by rewrite Z.div_add by lia).
    assert (0 <= (n - 8) / 8) by (apply Z.div_pos; lia).
    assert ((n - 8) / 8 < Z.of_nat (length l)) by (apply Z.div_lt_upper_bound; lia).
    rewrite IH by (done || lia). rewrite lookup_total_app_l by lia. f_equal; [f_equal; lia|].
    replace n with (n - 8 + 1 * 8) at 2 by lia. by rewrite Z.mod_add by lia.
Qed.

Lemma testbit_byte_range v : 0 <= v < 256 <-> 0 <= v /\ forall n, 8 <= n -> Z.testbit v n = false.
Proof.
  split.
  - intros Hv. split; [lia|]. intros n Hn. destruct (decide (v = 0)) as [->|]; [apply Z.bits_0|].
    apply Z.bits_above_log2; [lia|]. apply Z.lt_le_trans with 8; [|done]. apply Z.log2_lt_pow2; lia.
  - intros [H0 H]. split; [done|]. destruct (Z.lt_ge_cases v 256) as [|Hge]; [done|]. exfalso.
    assert (8 <= Z.log2 v) as Hl by (change 8 with (Z.log2 256); by apply Z.log2_le_mono).
    pose proof (Z.bit_log2 v ltac:(lia)) as Hb. rewrite (H _ Hl) in Hb. done.
Qed.

Lemma lor_byte x y : is_byte x -> is_byte y -> is_byte (Z.lor x y).
Proof.
  unfold is_byte. rewrite !testbit_byte_range. intros [Hx Hbx] [Hy Hby]. split; [by apply Z.lor_nonneg|].
  intros n Hn. rewrite Z.lor_spec, Hbx, Hby by done. done.
Qed.

(** ** The bits of an item *)
Section FilterSpec.
Context `{crypto : !TxCrypto}.

(** [crypto.Keccak256] returns 32 bytes. *)
Class HashLaws : Prop := {
  keccak_length : forall d, length (Keccak256 d) = 32%nat;
  keccak_bytes : forall d, Forall is_byte (Keccak256 d)
}.
Context `{laws : !HashLaws}.

(** Three numbers of eleven bits, from the first three pairs of bytes of the hash. *)
Definition bloom_bits (d : list Z) : list Z :=
  (fun i => Z.land (be_int (take 2 (drop i (Keccak256 d)))) 2047) <$> [0; 2; 4]%nat.

Definition is_bloom (b : Bloom) : Prop := length b = BloomByteLength /\ Forall is_byte b.

(** Byte and mask of a bit. *)
Definition bit_at (k : Z) : nat * Z := (Z.to_nat (255 - k / 8), 2 ^ (k mod 8)).

Lemma pair_bits h0 h1 k : is_byte h1 -> k = Z.land (h0 * 256 + h1) 2047 ->
  Z.to_nat (Z.of_nat BloomByteLength - Z.shiftr k 3 - 1) = fst (bit_at k) /\
  Z.shiftl 1 (Z.land h1 7) mod 256 = snd (bit_at k).
Proof.
  intros Hb Ek. unfold is_byte in Hb. simpl. rewrite Z.shiftr_div_pow2 by lia. change (2 ^ 3) with 8. split; [change (Z.of_nat BloomByteLength) with 256; f_equal; lia|].
  change 7 with (Z.ones 3). rewrite Z.land_ones, Z.shiftl_mul_pow2 by (try apply Z.mod_pos_bound; lia).
  assert (k mod 8 = h1 mod 8) as ->.
  { subst k. change 2047 with (Z.ones 11). rewrite Z.land_ones by lia. change (2 ^ 11) with 2048. Z.to_euclidean_division_equations. lia. }
  change (2 ^ 3) with 8. rewrite Z.mul_1_l, Z.mod_small; [done|].
  pose proof (Z.mod_pos_bound h1 8 ltac:(lia)). split; [apply Z.pow_nonneg; lia|]. change 256 with (2 ^ 8). apply Z.pow_lt_mono_r; lia.
Qed.

Lemma bloomValues_bits d : exists k1 k2 k3, bloom_bits d = [k1; k2; k3] /\ bloomValues d = (bit_at k1, bit_at k2, bit_at k3) /\
  Forall (fun k => 0 <= k < 2048) [k1; k2; k3].
Proof.
  pose proof (keccak_length d) as Hl. pose proof (keccak_bytes d) as Hb. unfold bloom_bits, bloomValues.
  destruct (Keccak256 d) as [|h0 [|h1 [|h2 [|h3 [|h4 [|h5 rest]]]]]]; try discriminate Hl.
  cbn [take drop fmap list_fmap BloomByteLength]. eexists _, _, _. split; [reflexivity|].
  assert (forall x, 0 <= Z.land x 2047 < 2048) as Hr by (intros x; change 2047 with (Z.ones 11); rewrite Z.land_ones by lia; apply Z.mod_pos_bound; lia).
  split; [|by repeat constructor; apply Hr].
  repeat match goal with H : Forall _ (_ :: _) |- _ => apply Forall_cons in H as [? ?] end.
  unfold be_int. cbn [foldl]. rewrite !Z.add_0_l, ?Z.mul_0_l, ?Z.add_0_l.
  destruct (pair_bits h0 h1 _ ltac:(assumption) eq_refl) as [I1 V1], (pair_bits h2 h3 _ ltac:(assumption) eq_refl) as [I2 V2],
    (pair_bits h4 h5 _ ltac:(assumption) eq_refl) as [I3 V3].
  rewrite !take_0. cbn -[Z.land Z.shiftl Z.shiftr Z.mul Z.add bit_at Z.modulo BloomByteLength Z.of_nat Z.to_nat Z.sub].
  rewrite I1, I2, I3, V1, V2, V3, <- !surjective_pairing. done.
Qed.

(** *** Setting and testing one bit *)
Lemma bit_at_index k : 0 <= k < 2048 -> (fst (bit_at k) < 256)%nat /\ is_byte (snd (bit_at k)).
Proof.
  intros Hk. simpl. assert (0 <= k / 8 < 256) by (split; [apply Z.div_pos; lia|apply Z.div_lt_upper_bound; lia]).
  pose proof (Z.mod_pos_bound k 8 ltac:(lia)). split; [lia|]. unfold is_byte. split; [apply Z.pow_nonneg; lia|].
  change 256 with (2 ^ 8). apply Z.pow_lt_mono_r; lia.
Qed.

Lemma or_bit_bloom b k : is_bloom b -> 0 <= k < 2048 -> is_bloom (or_byte b (fst (bit_at k)) (snd (bit_at k))).
Proof.
  intros [Hl Hb] Hk. destruct (bit_at_index k Hk) as [Hi Hv]. unfold or_byte. split; [by rewrite length_insert|].
  apply Forall_insert; [done|]. apply lor_byte; [|done]. eapply Forall_lookup_1, list_lookup_lookup_total_lt; [done|].
  rewrite Hl. done.
Qed.

Lemma or_bit_testbit b k n : is_bloom b -> 0 <= k < 2048 -> 0 <= n < 2048 ->
  Z.testbit (Big (or_byte b (fst (bit_at k)) (snd (bit_at k)))) n = Z.testbit (Big b) n || (n =? k).
Proof.
  intros Hok Hk Hn. pose proof (or_bit_bloom b k Hok Hk) as [Hl' Hb']. destruct Hok as [Hl Hb]. unfold Big.
  rewrite !testbit_be_int by (done || rewrite ?Hl, ?Hl'; done || lia). rewrite Hl', Hl. unfold or_byte, BloomByteLength, bit_at, fst, snd in *.
  assert (0 <= k / 8 < 256) by (split; [apply Z.div_pos; lia|apply Z.div_lt_upper_bound; lia]).
  assert (0 <= n / 8 < 256) by (split; [apply Z.div_pos; lia|apply Z.div_lt_upper_bound; lia]).
  pose proof (Z.mod_pos_bound k 8 ltac:(lia)). pose proof (Z.mod_pos_bound n 8 ltac:(lia)).
  pose proof (Z.div_mod n 8 ltac:(lia)). pose proof (Z.div_mod k 8 ltac:(lia)).
  destruct (decide (n / 8 = k / 8)) as [E|E].
  - replace (256 - 1 - Z.to_nat (n / 8))%nat with (Z.to_nat (255 - k / 8)) by lia. rewrite list_lookup_total_insert_eq by lia.
    rewrite Z.lor_spec, Z.pow2_bits_eqb by lia. f_equal. destruct (Z.eqb_spec (k mod 8) (n mod 8)), (Z.eqb_spec n k); lia || done.
  - rewrite list_lookup_total_insert_ne by lia. destruct (Z.eqb_spec n k); [subst; done|]. by rewrite orb_false_r.
Qed.

Lemma test_bit b k : is_bloom b -> 0 <= k < 2048 ->
  (snd (bit_at k) =? Z.land (snd (bit_at k)) (b !!! fst (bit_at k))) = Z.testbit (Big b) k.
Proof.
  intros [Hl Hb] Hk. unfold Big. rewrite testbit_be_int by (done || rewrite Hl; unfold BloomByteLength; lia). rewrite Hl. unfold BloomByteLength, bit_at, fst, snd.
  assert (0 <= k / 8 < 256) by (split; [apply Z.div_pos; lia|apply Z.div_lt_upper_bound; lia]).
  pose proof (Z.mod_pos_bound k 8 ltac:(lia)). replace (256 - 1 - Z.to_nat (k / 8))%nat with (Z.to_nat (255 - k / 8)) by lia.
  set (x := b !!! _). set (j := k mod 8) in *. apply eq_true_iff_eq. rewrite Z.eqb_eq. split.
  - intros E. assert (Z.testbit (2 ^ j) j = true) as H1 by (rewrite Z.pow2_bits_eqb by lia; apply Z.eqb_refl).
    rewrite E, Z.land_spec in H1. by apply andb_true_iff in H1 as [_ ?].
  - intros Hx. apply Z.bits_inj'. intros m Hm. rewrite Z.land_spec, Z.pow2_bits_eqb by lia. destruct (Z.eqb_spec j m); [by subst m; rewrite Hx|done].
Qed.

(** *** Adding and looking up items *)
Lemma bloom_add_spec b d : is_bloom b -> is_bloom (bloom_add b d) /\
  forall n, 0 <= n < 2048 -> Z.testbit (Big (bloom_add b d)) n = Z.testbit (Big b) n || bool_decide (n ∈ bloom_bits d).
Proof.
  intros Hb. unfold bloom_add. destruct (bloomValues_bits d) as (k1 & k2 & k3 & -> & -> & Hk).
  apply Forall_cons in Hk as [H1 Hk]. apply Forall_cons in Hk as [H2 Hk]. apply Forall_cons in Hk as [H3 _].
  rewrite (surjective_pairing (bit_at k1)), (surjective_pairing (bit_at k2)), (surjective_pairing (bit_at k3)).
  pose proof (or_bit_bloom b k1 Hb H1) as Hb1. pose proof (or_bit_bloom _ k2 Hb1 H2) as Hb2. pose proof (or_bit_bloom _ k3 Hb2 H3) as Hb3.
  split; [done|]. intros n Hn. rewrite !or_bit_testbit by done. rewrite <- !orb_assoc. f_equal. apply eq_true_iff_eq.
  rewrite !orb_true_iff, !Z.eqb_eq, bool_decide_eq_true, !elem_of_cons, elem_of_nil. tauto.
Qed.

Lemma Test_spec b d : is_bloom b -> Test b d = forallb (Z.testbit (Big b)) (bloom_bits d).
Proof.
  intros Hb. unfold Test. destruct (bloomValues_bits d) as (k1 & k2 & k3 & -> & -> & Hk).
  apply Forall_cons in Hk as [H1 Hk]. apply Forall_cons in Hk as [H2 Hk]. apply Forall_cons in Hk as [H3 _].
  rewrite (surjective_pairing (bit_at k1)), (surjective_pairing (bit_at k2)), (surjective_pairing (bit_at k3)).
  rewrite !test_bit by done. simpl. by rewrite andb_true_r, andb_assoc.
Qed.

Lemma bloom_fold_spec ds b : is_bloom b -> is_bloom (foldl bloom_add b ds) /\
  forall n, 0 <= n < 2048 -> Z.testbit (Big (foldl bloom_add b ds)) n = true <-> Z.testbit (Big b) n = true \/ exists d, d ∈ ds /\ n ∈ bloom_bits d.
Proof.
  revert b. induction ds as [|d ds IH]; intros b Hb; simpl.
  - split; [done|]. intros n _. split; [by left|]. intros [?|(d & Hd & _)]; [done|]. by apply elem_of_nil in Hd.
  - destruct (bloom_add_spec b d Hb) as [Hb' Hn']. destruct (IH _ Hb') as [Ho Hn]. split; [done|]. intros n Hr.
    rewrite (Hn n Hr), (Hn' n Hr), orb_true_iff, bool_decide_eq_true. split.
    + intros [[?|?]|(x & ? & ?)]; [by left| |]; right; eexists; (split; [|done]); [apply list_elem_of_here|by apply list_elem_of_further].
    + intros [?|(x & Hx & ?)]; [by left; left|]. apply elem_of_cons in Hx as [->|?]; [by left; right|]. right. by exists x.
Qed.

Lemma zero_bloom_ok : is_bloom zero_bloom.
Proof. split; [apply length_replicate|]. apply Forall_replicate. unfold is_byte. lia. Qed.

Lemma zero_bloom_bits n : Z.testbit (Big zero_bloom) n = false.
Proof. assert (Big zero_bloom = 0) as -> by (vm_compute; reflexivity). apply Z.bits_0. Qed.

(** *** The filter of a block *)

(** What the logs of a block mention: their addresses and topics. *)
Definition log_items (l : Log) : list (list Z) := be_bytes 20 (l_Address l) :: (be_bytes 32 <$> l_Topics l).
Definition logged (rs : list Receipt) : list (list Z) := r ← rs; l ← Logs r; log_items l.

Lemma add_log_items b l : add_log b l = foldl bloom_add b (log_items l).
Proof. unfold add_log, log_items. simpl. generalize (bloom_add b (be_bytes 20 (l_Address l))). induction (l_Topics l) as [|t ts IH]; intros b'; [done|apply IH]. Qed.

Lemma fold_logs b ls : foldl add_log b ls = foldl bloom_add b (ls ≫= log_items).
Proof. revert b. induction ls as [|l ls IH]; intros b; [done|]. rewrite bind_cons, foldl_app, <- add_log_items. apply IH. Qed.

Lemma CreateBloom_fold rs : CreateBloom rs = foldl bloom_add zero_bloom (logged rs).
Proof.
  unfold CreateBloom, logged. generalize zero_bloom. induction rs as [|r rs IH]; intros b; [done|].
  rewrite bind_cons, foldl_app, <- fold_logs. apply IH.
Qed.

Lemma LogsBloom_CreateBloom r : LogsBloom (Logs r) = CreateBloom [r].
Proof. done. Qed.

Lemma LogsBloom_ok logs : is_bloom (LogsBloom logs).
Proof. unfold LogsBloom. rewrite fold_logs. apply bloom_fold_spec, zero_bloom_ok. Qed.

(** C15: the filter of a block is exactly the set of the three bits of every
    address and topic its logs mention: the 2048-bit number has the bits of these
    items and no other, an item is found exactly when all its bits are among them,
    and so everything that was logged is found. *)
Theorem filters_are_sets_of_bits rs :
  (forall n, 0 <= n < 2048 -> Z.testbit (Big (CreateBloom rs)) n = true <-> exists d, d ∈ logged rs /\ n ∈ bloom_bits d) /\
  (forall t, BloomLookup (CreateBloom rs) t = true <-> forall n, n ∈ bloom_bits t -> exists d, d ∈ logged rs /\ n ∈ bloom_bits d) /\
  (forall t, t ∈ logged rs -> BloomLookup (CreateBloom rs) t = true).
Proof.
  rewrite CreateBloom_fold. destruct (bloom_fold_spec (logged rs) _ zero_bloom_ok) as [Hok Hn].
  assert (forall n, 0 <= n < 2048 -> Z.testbit (Big (foldl bloom_add zero_bloom (logged rs))) n = true <-> exists d, d ∈ logged rs /\ n ∈ bloom_bits d) as Hb.
  { intros n Hr. rewrite (Hn n Hr), zero_bloom_bits. split; [intros [?|?]; done|by right]. }
  assert (forall t, BloomLookup (foldl bloom_add zero_bloom (logged rs)) t = true <->
    forall n, n ∈ bloom_bits t -> exists d, d ∈ logged rs /\ n ∈ bloom_bits d) as Ht.
  { intros t. unfold BloomLookup. rewrite Test_spec by done. rewrite forallb_forall.
    destruct (bloomValues_bits t) as (k1 & k2 & k3 & Ek & _ & Hk). rewrite <- Ek in Hk. rewrite Forall_forall in Hk.
    setoid_rewrite <- list_elem_of_In. split; intros H n Hin; [apply Hb, H; auto|apply Hb; auto]. }
  split; [done|]. split; [done|]. intros t Hin. apply Ht. intros n Hnin. by exists t.
Qed.

End FilterSpec.

(** ** Storage *)
Section StorageSpec.
Context `{crypto : !TxCrypto, rlp : !ReceiptRlp}.

Definition good_log (a : Address) (topics : list Hash) (data : list Z) : Prop :=
  0 <= a < 2 ^ 160 /\ Forall (fun t => 0 <= t < 2 ^ 256) topics /\ Forall is_byte data.

(** The encoding of a log, in the current format or the older one. *)
Definition encoded_log (e : list Z) : Prop := (exists l, e = enc_log l) \/ (exists l, e = enc_legacy l).

Definition good_receipt (status : list Z) (cum : Z) (logs : list (list Z)) : Prop :=
  Forall is_byte status /\ is_u64 cum /\ Forall encoded_log logs.

(** Values that are in the range of their types are decoded to themselves; a list
    is refused when it does not have as many elements as the structure has fields. *)
Class ReceiptRlpLaws : Prop := {
  log_back x : good_log (rl_Address x) (rl_Topics x) (rl_Data x) -> dec_log (enc_log x) = Some x;
  legacy_back x : good_log (ll_Address x) (ll_Topics x) (ll_Data x) -> is_u64 (ll_BlockNumber x) -> is_u64 (ll_TxIndex x) -> is_u64 (ll_Index x) ->
    0 <= ll_TxHash x < 2 ^ 256 -> 0 <= ll_BlockHash x < 2 ^ 256 -> dec_legacy (enc_legacy x) = Some x;
  receipt_back x : good_receipt (c_PostStateOrStatus x) (c_CumulativeGasUsed x) (c_Logs x) ->
    length (c_Bloom x) = BloomByteLength -> Forall is_byte (c_Bloom x) -> dec_receipt (enc_receipt x) = Some x;
  stored_back x : good_receipt (s_PostStateOrStatus x) (s_CumulativeGasUsed x) (s_Logs x) -> dec_stored (enc_stored x) = Some x;
  v4_back x : good_receipt (v4_PostStateOrStatus x) (v4_CumulativeGasUsed x) (v4_Logs x) -> is_u64 (v4_GasUsed x) ->
    0 <= v4_TxHash x < 2 ^ 256 -> 0 <= v4_ContractAddress x < 2 ^ 160 -> dec_v4 (enc_v4 x) = Some x;
  v3_back x : good_receipt (v3_PostStateOrStatus x) (v3_CumulativeGasUsed x) (v3_Logs x) -> is_u64 (v3_GasUsed x) ->
    0 <= v3_TxHash x < 2 ^ 256 -> 0 <= v3_ContractAddress x < 2 ^ 160 ->
    length (v3_Bloom x) = BloomByteLength -> Forall is_byte (v3_Bloom x) -> dec_v3 (enc_v3 x) = Some x;
  log_fields x : dec_log (enc_legacy x) = None;
  stored_fields_v3 x : dec_stored (enc_v3 x) = None;
  stored_fields_v4 x : dec_stored (enc_v4 x) = None;
  v3_fields_v4 x : dec_v3 (enc_v4 x) = None
}.
Context `{laws : !ReceiptRlpLaws}.

(** A receipt that can be stored: it has a status or a state root, not both, and
    its fields are in the range of their types. *)
Definition status_ok (r : Receipt) : Prop :=
  (PostState r = [] /\ (Status r = 0 \/ Status r = 1)) \/ (length (PostState r) = 32%nat /\ Status r = 0).

Definition storable (r : Receipt) : Prop :=
  status_ok r /\ Forall is_byte (PostState r) /\ is_u64 (CumulativeGasUsed r) /\
  Forall (fun l => good_log (l_Address l) (l_Topics l) (l_Data l)) (Logs r).

(** What is left of a log and of a receipt in storage. *)
Definition strip_log (l : Log) : Log := mk_Log (l_Address l) (l_Topics l) (l_Data l) 0 0 0 0 0 false.
Definition strip (r : Receipt) : Receipt :=
  mk_Receipt (PostState r) (Status r) (CumulativeGasUsed r) (CreateBloom [r]) (strip_log <$> Logs r) 0 0 0 0 None 0.

(** *** Round trips of single receipts *)
Lemma status_back r : status_ok r -> setStatus zero_receipt (statusEncoding r) = Ret (set_state zero_receipt (PostState r) (Status r)).
Proof.
  intros [[Hp Hs]|[Hp Hs]].
  - unfold setStatus, statusEncoding. rewrite Hp. simpl. destruct Hs as [-> | ->]; reflexivity.
  - assert (statusEncoding r = PostState r) as -> by (unfold statusEncoding; rewrite decide_False by (rewrite Hp; done); done).
    unfold setStatus. rewrite !decide_False by (intros E; rewrite E in Hp; done). rewrite decide_True by done. by rewrite Hs.
Qed.

Lemma status_bytes r : Forall is_byte (PostState r) -> Forall is_byte (statusEncoding r).
Proof.
  intros H. unfold statusEncoding. case_decide; [|done]. destruct (Status r =? _); repeat constructor; unfold is_byte; lia.
Qed.

Lemma each_fmap {A B C} (f : A -> outcome receipt_error B) (g : C -> A) (h : C -> B) (P : C -> Prop) l :
  (forall x, P x -> f (g x) = Ret (h x)) -> Forall P l -> each f (g <$> l) = Ret (h <$> l).
Proof. intros Hf. induction 1 as [|x l Hx Hl IH]; [done|]. cbn [fmap list_fmap each]. rewrite (Hf x Hx). cbn [mbind outcome_bind]. fold (fmap g l). rewrite IH. done. Qed.

Lemma stored_logs_back ls : Forall (fun l => good_log (l_Address l) (l_Topics l) (l_Data l)) ls ->
  each LogForStorage_DecodeRLP (LogForStorage_EncodeRLP <$> ls) = Ret (strip_log <$> ls).
Proof.
  apply each_fmap. intros l Hl. unfold LogForStorage_DecodeRLP, LogForStorage_EncodeRLP. by rewrite log_back.
Qed.

Lemma encoded_logs ls : Forall encoded_log (LogForStorage_EncodeRLP <$> ls).
Proof. apply Forall_fmap, Forall_true. intros l. left. eexists. reflexivity. Qed.

Lemma strip_log_items ls : (strip_log <$> ls) ≫= log_items = ls ≫= log_items.
Proof. induction ls as [|l ls IH]; [done|]. rewrite fmap_cons, !bind_cons, IH. done. Qed.

(** The filter depends on the addresses and topics alone. *)
Lemma CreateBloom_items r r' : Logs r ≫= log_items = Logs r' ≫= log_items -> CreateBloom [r] = CreateBloom [r'].
Proof. intros E. rewrite !CreateBloom_fold. change (logged [r]) with ((Logs r ≫= log_items) ++ []). by rewrite E. Qed.

Lemma stored_receipt_back r : storable r -> ReceiptForStorage_DecodeRLP zero_receipt (ReceiptForStorage_EncodeRLP r) = Ret (strip r).
Proof.
  intros (Hst & Hb & Hc & Hl). unfold ReceiptForStorage_DecodeRLP, ReceiptForStorage_EncodeRLP, decodeStoredReceiptRLP.
  rewrite stored_back by (split_and!; [by apply status_bytes|done|apply encoded_logs]). cbn [of_option mbind outcome_bind s_Logs s_PostStateOrStatus s_CumulativeGasUsed].
  rewrite stored_logs_back by done. cbn [mbind outcome_bind]. rewrite status_back by done. cbn [mbind outcome_bind]. unfold with_bloom, strip.
  erewrite (CreateBloom_items _ r); [reflexivity|]. apply strip_log_items.
Qed.

(** *** Derived fields *)
Definition derived_log (number : Z) (hash txHash : Hash) (i : Z) (k : Z) (l : Log) : Log :=
  mk_Log (l_Address l) (l_Topics l) (l_Data l) number txHash i hash (u64 k) (l_Removed l).

Lemma derive_logs_imap number hash txHash i k ls :
  derive_logs number hash txHash i (u64 k) ls = (imap (fun j => derived_log number hash txHash i (k + Z.of_nat j)) ls, u64 (k + Z.of_nat (length ls))).
Proof.
  revert k. induction ls as [|l ls IH]; intros k; simpl.
  - by rewrite Z.add_0_r.
  - assert (u64 (u64 k + 1) = u64 (k + 1)) as -> by (unfold u64; by rewrite Zplus_mod_idemp_l). rewrite IH. f_equal.
    + f_equal; [by rewrite Z.add_0_r|]. apply imap_ext. intros j x _. simpl. f_equal. lia.
    + f_equal. lia.
Qed.

(** Reading stripped logs again gives the same ones. *)
Lemma derive_logs_strip number hash txHash i k ls : Forall (fun l => l_Removed l = false) ls ->
  derive_logs number hash txHash i k (strip_log <$> (derive_logs number hash txHash i k ls).1) = derive_logs number hash txHash i k ls.
Proof.
  intros H. revert k. induction H as [|l ls Hl Hls IH]; intros k; [done|]. simpl.
  specialize (IH (u64 (k + 1))). destruct (derive_logs number hash txHash i (u64 (k + 1)) ls) as [rest next]. simpl in IH |- *.
  change (list_fmap Log Log strip_log rest) with (strip_log <$> rest). rewrite IH. by rewrite Hl.
Qed.

Lemma derive_logs_items number hash txHash i k ls : (derive_logs number hash txHash i k ls).1 ≫= log_items = ls ≫= log_items.
Proof.
  revert k. induction ls as [|l ls IH]; intros k; [done|]. cbn [derive_logs]. specialize (IH (u64 (k + 1))).
  destruct (derive_logs number hash txHash i (u64 (k + 1)) ls) as [rest next]. cbn [fst] in IH |- *. by rewrite !bind_cons, IH.
Qed.

Lemma derive_logs_good number hash txHash i k ls : Forall (fun l => good_log (l_Address l) (l_Topics l) (l_Data l)) ls ->
  Forall (fun l => good_log (l_Address l) (l_Topics l) (l_Data l)) (derive_logs number hash txHash i k ls).1.
Proof.
  intros H. revert k. induction H as [|l ls Hl Hls IH]; intros k; [constructor|]. simpl. specialize (IH (u64 (k + 1))).
  destruct (derive_logs number hash txHash i (u64 (k + 1)) ls) as [rest next]. constructor; done.
Qed.

(** A receipt as the execution of a transaction leaves it. *)
Definition executed (r : Receipt) (tx : Transaction) : Prop :=
  storable r /\ r_Bloom r = CreateBloom [r] /\ Forall (fun l => l_Removed l = false) (Logs r) /\ (is_Some (To tx) -> ContractAddress r = 0).

Lemma derive_contract_strip r r' tx a : executed r tx -> ContractAddress r' = 0 -> derive_contract r tx = Ret a -> derive_contract r' tx = Ret a.
Proof.
  unfold derive_contract. intros (_ & _ & _ & Hc) Hr. destruct (To tx); [|done]. rewrite Hc by eauto. by rewrite Hr.
Qed.

Lemma derive_loop_stored hash number i k prev rs txs rs' : Forall2 executed rs txs -> derive_loop hash number i k prev rs txs = Ret rs' ->
  Forall storable rs' /\ derive_loop hash number i k prev (strip <$> rs') txs = Ret rs'.
Proof.
  intros H. revert i k prev rs'. induction H as [|r tx rs txs Hr Hrs IH]; intros i k prev rs' E; simpl in E.
  { injection E as <-. split; [constructor|done]. }
  destruct (derive_contract r tx) as [a| |] eqn:Ea; cbn [mbind outcome_bind] in E; try discriminate E.
  pose proof Hr as (Hst & Hbl & Hrm & _). pose proof (derive_logs_strip number hash (tx_hash tx) i k (Logs r) Hrm) as Hls.
  pose proof (derive_logs_items number hash (tx_hash tx) i k (Logs r)) as Hli. pose proof Hst as (Hs1 & Hs2 & Hs3 & Hs4).
  pose proof (derive_logs_good number hash (tx_hash tx) i k (Logs r) Hs4) as Hlg.
  destruct (derive_logs number hash (tx_hash tx) i k (Logs r)) as [logs k'] eqn:El. simpl in Hls, Hli, Hlg.
  destruct (derive_loop hash number (i + 1) k' (Some (CumulativeGasUsed r)) rs txs) as [rest| |] eqn:Er; cbn [mbind outcome_bind] in E; try discriminate E.
  injection E as <-. destruct (IH _ _ _ _ Er) as [IH1 IH2]. split; [constructor; done|].
  rewrite fmap_cons. cbn [derive_loop]. rewrite (derive_contract_strip r _ tx a Hr) by done. cbn [mbind outcome_bind strip Logs CumulativeGasUsed PostState Status].
  rewrite Hls, IH2. cbn [mbind outcome_bind r_Bloom]. do 3 f_equal. rewrite Hbl. symmetry. by apply CreateBloom_items.
Qed.

Lemma derive_loop_length hash number i k prev rs txs rs' : length txs = length rs -> derive_loop hash number i k prev rs txs = Ret rs' ->
  length rs' = length rs.
Proof.
  revert i k prev txs rs'. induction rs as [|r rs IH]; intros i k prev txs rs' Hlen E; simpl in E.
  - by injection E as <-.
  - destruct txs as [|tx txs]; [discriminate Hlen|]. destruct (derive_contract r tx); cbn [mbind outcome_bind] in E; try discriminate E.
    destruct (derive_logs _ _ _ _ _ _) as [logs k']. destruct (derive_loop _ _ _ _ _ rs txs) as [rest| |] eqn:Er; cbn [mbind outcome_bind] in E; try discriminate E.
    injection E as <-. simpl. f_equal. injection Hlen as Hlen. exact (IH _ _ _ _ _ Hlen Er).
Qed.


(** *** Positions and gas *)
Lemma derive_loop_cons hash number i k prev r rs tx txs rs' :
  derive_loop hash number i k prev (r :: rs) (tx :: txs) = Ret rs' ->
  exists a rest, let d := derive_logs number hash (tx_hash tx) i k (Logs r) in
    derive_loop hash number (i + 1) d.2 (Some (CumulativeGasUsed r)) rs txs = Ret rest /\
    rs' = mk_Receipt (PostState r) (Status r) (CumulativeGasUsed r) (r_Bloom r) d.1 (tx_hash tx) a
            (match prev with None => CumulativeGasUsed r | Some p => u64 (CumulativeGasUsed r - p) end) hash (Some number) i :: rest.
Proof.
  simpl. destruct (derive_contract r tx) as [a| |]; cbn [mbind outcome_bind]; try discriminate.
  destruct (derive_logs number hash (tx_hash tx) i k (Logs r)) as [logs k'].
  destruct (derive_loop _ _ _ _ _ rs txs) as [rest| |] eqn:Er; cbn [mbind outcome_bind]; try discriminate.
  intros [= <-]. exists a, rest. done.
Qed.

Lemma derive_loop_logs hash number i k prev rs txs rs' : length txs = length rs -> derive_loop hash number i (u64 k) prev rs txs = Ret rs' ->
  forall j l, (rs' ≫= Logs) !! j = Some l -> l_Index l = u64 (k + Z.of_nat j).
Proof.
  revert i k prev txs rs'. induction rs as [|r rs IH]; intros i k prev txs rs' Hlen E j l Hj.
  { injection E as <-. done. }
  destruct txs as [|tx txs]; [discriminate Hlen|]. injection Hlen as Hlen.
  destruct (derive_loop_cons _ _ _ _ _ _ _ _ _ _ E) as (a & rest & Er & ->). rewrite derive_logs_imap in Er, Hj. cbn [fst snd] in Er, Hj.
  rewrite bind_cons in Hj. cbn [Logs] in Hj. apply lookup_app_Some in Hj as [Hj|[Hge Hj]].
  - rewrite list_lookup_imap in Hj. destruct (Logs r !! j) as [x|]; [|discriminate Hj]. by injection Hj as <-.
  - rewrite length_imap in Hge, Hj. rewrite (IH _ _ _ _ _ Hlen Er _ _ Hj). f_equal. lia.
Qed.

Lemma derive_loop_places hash number i k prev rs txs rs' : length txs = length rs -> derive_loop hash number (Z.of_nat i) k prev rs txs = Ret rs' ->
  forall j r, rs' !! j = Some r -> exists tx, txs !! j = Some tx /\ r_TxHash r = tx_hash tx /\ TransactionIndex r = Z.of_nat (i + j) /\
    r_BlockHash r = hash /\ r_BlockNumber r = Some number /\
    Forall (fun l => l_TxIndex l = Z.of_nat (i + j) /\ l_TxHash l = tx_hash tx /\ l_BlockHash l = hash /\ l_BlockNumber l = number) (Logs r).
Proof.
  revert i k prev txs rs'. induction rs as [|r rs IH]; intros i k prev txs rs' Hlen E j r0 Hj.
  { injection E as <-. done. }
  destruct txs as [|tx txs]; [discriminate Hlen|]. injection Hlen as Hlen.
  destruct (derive_loop_cons _ _ _ _ _ _ _ _ _ _ E) as (a & rest & Er & ->). destruct j as [|j]; simpl in Hj.
  - injection Hj as <-. exists tx. rewrite Nat.add_0_r. split_and!; [done..|]. cbn [Logs]. clear. revert k.
    induction (Logs r) as [|l ls IHl]; intros k; [constructor|]. simpl. specialize (IHl (u64 (k + 1))).
    destruct (derive_logs number hash (tx_hash tx) (Z.of_nat i) (u64 (k + 1)) ls). by constructor.
  - replace (Z.of_nat i + 1) with (Z.of_nat (S i)) in Er by lia. replace (i + S j)%nat with (S i + j)%nat by lia. exact (IH _ _ _ _ _ Hlen Er j r0 Hj).
Qed.

(** Cumulative gas does not decrease from [p] on. *)
Fixpoint cumulative (p : Z) (rs : list Receipt) : Prop :=
  match rs with [] => True | r :: rs => p <= CumulativeGasUsed r < 2 ^ 64 /\ cumulative (CumulativeGasUsed r) rs end.

Definition total_gas (rs : list Receipt) : Z := foldr Z.add 0 (GasUsed <$> rs).

Lemma derive_loop_gas hash number i k prev rs txs rs' : length txs = length rs -> derive_loop hash number i k prev rs txs = Ret rs' ->
  0 <= default 0 prev -> cumulative (default 0 prev) rs ->
  total_gas rs' = default (default 0 prev) (last (CumulativeGasUsed <$> rs)) - default 0 prev /\ Forall (fun r => 0 <= GasUsed r) rs'.
Proof.
  revert i k prev txs rs'. induction rs as [|r rs IH]; intros i k prev txs rs' Hlen E Hp Hc.
  { injection E as <-. split; [unfold total_gas; simpl; lia|constructor]. }
  destruct txs as [|tx txs]; [discriminate Hlen|]. injection Hlen as Hlen. destruct Hc as [Hc Hcs].
  destruct (derive_loop_cons _ _ _ _ _ _ _ _ _ _ E) as (a & rest & Er & ->).
  destruct (IH _ _ _ _ _ Hlen Er) as [Ht Hf]; [simpl; lia|done|]. cbn [default from_option] in Ht.
  set (x := CumulativeGasUsed r) in *. assert (match prev with None => x | Some p => u64 (x - p) end = x - default 0 prev) as Eg.
  { destruct prev as [p|]; simpl in *; [|lia]. apply u64_small. unfold is_u64. lia. }
  split; [|constructor; [cbn [GasUsed]; rewrite Eg; lia|done]].
  change (total_gas (?y :: rest)) with (GasUsed y + total_gas rest). cbn [GasUsed]. rewrite Eg, Ht.
  rewrite fmap_cons, last_cons. fold x. destruct (last (CumulativeGasUsed <$> rs)); simpl; lia.
Qed.

(** the fields that are computed when receipts are read place everything in
    the block: receipt [i] and its logs carry the hash and the index of
    transaction [i], the block, and the logs of the block are numbered through;
    when the cumulative gas does not decrease, the gas of the transactions adds up
    to the gas of the block. *)
Theorem derived_fields_place_receipts hash number txs rs rs' :
  DeriveFields hash number txs rs = Ret rs' ->
  (forall j r, rs' !! j = Some r -> exists tx, txs !! j = Some tx /\ r_TxHash r = tx_hash tx /\ TransactionIndex r = Z.of_nat j /\
     r_BlockHash r = hash /\ r_BlockNumber r = Some number /\
     Forall (fun l => l_TxIndex l = Z.of_nat j /\ l_TxHash l = tx_hash tx /\ l_BlockHash l = hash /\ l_BlockNumber l = number) (Logs r)) /\
  (forall j l, (rs' ≫= Logs) !! j = Some l -> l_Index l = u64 (Z.of_nat j)) /\
  (cumulative 0 rs -> total_gas rs' = default 0 (last (CumulativeGasUsed <$> rs)) /\ Forall (fun r => 0 <= GasUsed r) rs').
Proof.
  unfold DeriveFields. case_decide as Hlen; [|done]. intros E. split; [|split].
  - exact (derive_loop_places hash number 0 0 None rs txs rs' Hlen E).
  - exact (derive_loop_logs hash number 0 0 None rs txs rs' Hlen E).
  - intros Hc. destruct (derive_loop_gas hash number 0 0 None rs txs rs' Hlen E ltac:(simpl; lia) Hc) as [Ht Hf]. simpl in Ht. split; [|done]. lia.
Qed.

(** A transaction that is protected against replay has another chain than the
    signer of [DeriveFields], so the contract it creates is given the address of a
    contract of the zero address. *)
Lemma protected_creations_lose_their_address r tx : To tx = None -> Protected tx = true -> ChainID tx <> 0 ->
  derive_contract r tx = Ret (CreateAddress 0 (Nonce tx)).
Proof.
  intros Ht Hp Hc. unfold derive_contract. rewrite Ht. unfold signer_Sender, MakeSigner, NewEIP155Signer. simpl. rewrite Hp. simpl.
  destruct (Z.eqb_spec (ChainID tx) 0); [done|]. reflexivity.
Qed.

(** *** Receipts of older databases *)

(** The logs of an older database have either format. *)
Definition older_log (l : Log) (e : list Z) : Prop :=
  e = LogForStorage_EncodeRLP l \/
  e = enc_legacy (mk_legacyLog (l_Address l) (l_Topics l) (l_Data l) (l_BlockNumber l) (l_TxHash l) (l_TxIndex l) (l_BlockHash l) (l_Index l)).

Definition placed_log (l : Log) : Prop :=
  good_log (l_Address l) (l_Topics l) (l_Data l) /\ is_u64 (l_BlockNumber l) /\ is_u64 (l_TxIndex l) /\ is_u64 (l_Index l) /\
  0 <= l_TxHash l < 2 ^ 256 /\ 0 <= l_BlockHash l < 2 ^ 256.

Lemma older_logs_back ls es : Forall2 older_log ls es -> Forall placed_log ls -> each LogForStorage_DecodeRLP es = Ret (strip_log <$> ls) /\ Forall encoded_log es.
Proof.
  induction 1 as [|l e ls es He Hes IH]; intros Hp; [done|]. apply Forall_cons in Hp as [(Hg & H1 & H2 & H3 & H4 & H5) Hp]. destruct (IH Hp) as [E Hen].
  assert (LogForStorage_DecodeRLP e = Ret (strip_log l) /\ encoded_log e) as [Ed Hee].
  { unfold LogForStorage_DecodeRLP. destruct He as [-> | ->].
    - unfold LogForStorage_EncodeRLP. rewrite log_back by done. split; [done|]. left. by eexists.
    - rewrite log_fields, legacy_back by done. split; [done|]. right. by eexists. }
  split; [|by constructor]. cbn [each]. rewrite Ed. cbn [mbind outcome_bind]. rewrite E. done.
Qed.

(** receipts in the two formats of older databases are read with their status,
    gas, transaction, contract and logs, whichever format the logs have. *)
Theorem older_receipts_are_read r es :
  storable r -> Forall2 older_log (Logs r) es -> Forall placed_log (Logs r) ->
  is_u64 (GasUsed r) -> 0 <= r_TxHash r < 2 ^ 256 -> 0 <= ContractAddress r < 2 ^ 160 -> is_bloom (r_Bloom r) ->
  let read bloom := Ret (mk_Receipt (PostState r) (Status r) (CumulativeGasUsed r) bloom (strip_log <$> Logs r) (r_TxHash r)
                           (ContractAddress r) (GasUsed r) 0 None 0) in
  ReceiptForStorage_DecodeRLP zero_receipt
    (enc_v3 (mk_v3RLP (statusEncoding r) (CumulativeGasUsed r) (r_Bloom r) (r_TxHash r) (ContractAddress r) es (GasUsed r))) = read (r_Bloom r) /\
  ReceiptForStorage_DecodeRLP zero_receipt
    (enc_v4 (mk_v4RLP (statusEncoding r) (CumulativeGasUsed r) (r_TxHash r) (ContractAddress r) es (GasUsed r))) = read (CreateBloom [r]).
Proof.
  intros (Hst & Hb & Hc & _) Hes Hp Hg Ht Ha [Hbl Hbb] read. destruct (older_logs_back _ _ Hes Hp) as [El Hen].
  assert (good_receipt (statusEncoding r) (CumulativeGasUsed r) es) as Hgood by (split_and!; [by apply status_bytes|done|done]).
  unfold ReceiptForStorage_DecodeRLP, decodeStoredReceiptRLP, decodeV3StoredReceiptRLP, decodeV4StoredReceiptRLP, read. split.
  - rewrite stored_fields_v3, v3_back by done. cbn [of_option mbind outcome_bind v3_Logs v3_PostStateOrStatus].
    rewrite El. cbn [mbind outcome_bind]. by rewrite status_back.
  - rewrite stored_fields_v4, v3_fields_v4, v4_back by done. cbn [of_option mbind outcome_bind v4_Logs v4_PostStateOrStatus].
    rewrite El. cbn [mbind outcome_bind]. rewrite status_back by done. cbn [mbind outcome_bind]. unfold with_bloom.
    erewrite (CreateBloom_items _ r); [reflexivity|]. apply strip_log_items.
Qed.

End StorageSpec.

(** ** A concrete encoding and block *)
Module ReceiptsToy.
#[local] Existing Instance toy_crypto.

Lemma toy_hash_laws : HashLaws.
Proof. split; intros d; [apply length_be_bytes|apply be_bytes_is_byte]. Qed.
#[local] Existing Instance toy_hash_laws.

(** A tag for the structure and the number of its contents. *)
Definition toy_enc {A} `{Countable A} (tag : Z) (x : A) : list Z := [tag; Zpos (encode x)].
Definition toy_dec {A} `{Countable A} (tag : Z) (blob : list Z) : option A :=
  match blob with [t; Zpos p] => if t =? tag then decode p else None | _ => None end.

Lemma toy_back {A} `{Countable A} tag (x : A) : toy_dec tag (toy_enc tag x) = Some x.
Proof. unfold toy_dec, toy_enc. rewrite Z.eqb_refl. apply decode_encode. Qed.

Definition toy_rlp : ReceiptRlp := {|
  enc_log x := toy_enc 3 (rl_Address x, rl_Topics x, rl_Data x);
  dec_log b := '(a, t, d) ← toy_dec 3 b; Some (mk_rlpLog a t d);
  enc_legacy x := toy_enc 8 (ll_Address x, ll_Topics x, ll_Data x, ll_BlockNumber x, ll_TxHash x, ll_TxIndex x, ll_BlockHash x, ll_Index x);
  dec_legacy b := '(a, t, d, n, h, i, bh, k) ← toy_dec 8 b; Some (mk_legacyLog a t d n h i bh k);
  enc_receipt x := toy_enc 4 (c_PostStateOrStatus x, c_CumulativeGasUsed x, c_Bloom x, c_Logs x);
  dec_receipt b := '(p, c, f, l) ← toy_dec 4 b; Some (mk_receiptRLP p c f l);
  enc_stored x := toy_enc 5 (s_PostStateOrStatus x, s_CumulativeGasUsed x, s_Logs x);
  dec_stored b := '(p, c, l) ← toy_dec 5 b; Some (mk_storedRLP p c l);
  enc_v4 x := toy_enc 6 (v4_PostStateOrStatus x, v4_CumulativeGasUsed x, v4_TxHash x, v4_ContractAddress x, v4_Logs x, v4_GasUsed x);
  dec_v4 b := '(p, c, h, a, l, g) ← toy_dec 6 b; Some (mk_v4RLP p c h a l g);
  enc_v3 x := toy_enc 7 (v3_PostStateOrStatus x, v3_CumulativeGasUsed x, v3_Bloom x, v3_TxHash x, v3_ContractAddress x, v3_Logs x, v3_GasUsed x);
  dec_v3 b := '(p, c, f, h, a, l, g) ← toy_dec 7 b; Some (mk_v3RLP p c f h a l g);
  CreateAddress from nonce := (from * 1000 + nonce) mod 2 ^ 160
|}.
#[local] Existing Instance toy_rlp.

Lemma toy_receipt_laws : ReceiptRlpLaws.
Proof.
  split; intros x; intros; unfold dec_log, dec_legacy, dec_receipt, dec_stored, dec_v4, dec_v3, enc_log, enc_legacy, enc_receipt, enc_stored, enc_v4, enc_v3, toy_rlp;
    try (rewrite toy_back; by destruct x); reflexivity.
Qed.
#[local] Existing Instance toy_receipt_laws.

Definition toy_logs (a : Z) : list Log := [mk_Log a [5; 6] [1; 2] 0 0 0 0 0 false; mk_Log a [] [] 0 0 0 0 0 false].
Definition toy_receipt (a cum : Z) : Receipt := mk_Receipt [] 1 cum (LogsBloom (toy_logs a)) (toy_logs a) 0 0 0 0 None 0.
Definition toy_receipts : list Receipt := [toy_receipt 77 100; toy_receipt 88 250].
Definition toy_txs : list Transaction := [toy_signed 1 42; toy_signed 1 43].

Lemma toy_executed : Forall2 executed toy_receipts toy_txs.
Proof.
  assert (forall a cum tx, 0 <= a < 2 ^ 160 -> is_u64 cum -> executed (toy_receipt a cum) tx) as H.
  { intros a cum tx Ha Hc. split; [split; [|split; [constructor|split; [exact Hc|]]]|split; [exact (LogsBloom_CreateBloom (toy_receipt a cum))|split]].
    - left. split; [done|by right].
    - cbn [toy_receipt Logs]. repeat constructor; simpl; (lia || done).
    - cbn [toy_receipt Logs]. by repeat constructor.
    - done. }
  constructor; [|constructor; [|constructor]]; apply H; unfold is_u64; lia.
Qed.

Lemma filters_are_sets_of_bits_witness : BloomLookup (CreateBloom toy_receipts) (be_bytes 20 88) = true.
Proof.
  destruct (filters_are_sets_of_bits toy_receipts) as (_ & _ & H). apply H.
  apply (bool_decide_unpack (be_bytes 20 88 ∈ logged toy_receipts)). vm_compute. exact I.
Defined.


Lemma derived_fields_place_receipts_witness : exists rs', DeriveFields 9 3 toy_txs toy_receipts = Ret rs' /\ total_gas rs' = 250.
Proof.
  assert (exists rs', DeriveFields 9 3 toy_txs toy_receipts = Ret rs') as [rs' E] by (eexists; reflexivity).
  destruct (derived_fields_place_receipts 9 3 toy_txs toy_receipts rs' E) as (_ & _ & H).
  exists rs'. split; [exact E|]. apply H. simpl. lia.
Defined.

(** One log in each format. *)
Definition older_logs : list (list Z) := [LogForStorage_EncodeRLP (mk_Log 77 [5; 6] [1; 2] 0 0 0 0 0 false); enc_legacy (mk_legacyLog 77 [] [] 0 0 0 0 0)].

Lemma older_receipts_are_read_witness : exists r, ReceiptForStorage_DecodeRLP zero_receipt
  (enc_v4 (mk_v4RLP [1] 100 0 0 older_logs 0)) = Ret r /\ Status r = 1.
Proof.
  destruct (older_receipts_are_read (toy_receipt 77 100) older_logs) as [_ H].
  - exact (proj1 (proj1 (Forall2_cons_1 _ _ _ _ _ toy_executed))).
  - constructor; [by left|]. constructor; [by right|constructor].
  - repeat constructor; unfold is_byte; simpl; lia.
  - split; simpl; lia.
  - simpl; lia.
  - simpl; lia.
  - apply LogsBloom_ok.
  - eexists. split; [exact H|reflexivity].
Defined.

End ReceiptsToy.
