(* ===== verification/Schedule.v ===== *)
(** * Sharding schedules and the configuration of nodes

    Models internal/configs/sharding (the instances of a sharding configuration
    and the schedules of the networks) and internal/configs/node/config.go (the
    process-wide configuration of a node).

    The chain configurations of the networks and the lists of genesis accounts
    are not part of the repository: they are the fields of [ChainParams]; the
    decimals of the numeric package and the comparison and parsing of them are
    [Numeric] and [DecimalOrder]. *)
From Stdlib Require Import ZArith Lia String.
From stdpp Require Import gmap list.
From S2P Require Import Prelude GoString VotePower.

Local Open Scope Z_scope.

(** ** What is outside the repository *)
Class DecimalOrder `{!Numeric} : Type := {
  dec_LT : Dec -> Dec -> bool;
  dec_GT : Dec -> Dec -> bool;
  MustNewDecFromStr : gostr -> Dec
}.

Record ChainConfig : Type := mk_ChainConfig {
  StakingEpoch : Z;
  TwoSecondsEpoch : Z;
  SixtyPercentEpoch : Z;
  IsStaking : Z -> bool;
  IsTwoSeconds : Z -> bool;
  IsSixtyPercent : Z -> bool
}.

Record DeployAccount : Type := mk_account { acct_Address : gostr; acct_BLSPublicKey : gostr; acct_ShardID : Z }.

Class ChainParams : Type := {
  MainnetChainConfig : ChainConfig;
  TestnetChainConfig : ChainConfig;
  LocalnetChainConfig : ChainConfig;
  PangaeaChainConfig : ChainConfig;
  PartnerChainConfig : ChainConfig;
  StressnetChainConfig : ChainConfig;
  genesis_accounts : string -> list DeployAccount   (* the lists of the package genesis, by name *)
}.

(** ** Instances (instance.go) *)
Inductive NetworkID : Type := MainNet | TestNet | LocalNet | Pangaea | Partner | StressNet | DevNet.

Section Sharding.
Context `{num : !Numeric, ord : !DecimalOrder, chain : !ChainParams}.

Record instance : Type := mk_instance {
  numShards : Z;
  numNodesPerShard : Z;
  numHarmonyOperatedNodesPerShard : Z;
  harmonyVotePercent : Dec;
  externalVotePercent : Dec;
  hmyAccounts : list DeployAccount;
  fnAccounts : list DeployAccount;
  reshardingEpoch : list Z;
  blocksPerEpoch_ : Z
}.

Inductive instance_error : Type :=
| ErrNoShard (n : Z)
| ErrNoNode (n : Z)
| ErrNegativeNodes (n : Z)
| ErrTooManyNodes (n m : Z)
| ErrVotePercent.

Definition NewInstance (shards nodes harmonyNodes : Z) (votePercent : Dec) (hmy fn : list DeployAccount) (resharding : list Z)
    (blocksE : Z) : outcome instance_error instance :=
  if shards <? 1 then Err (ErrNoShard shards)
  else if nodes <? 1 then Err (ErrNoNode nodes)
  else if harmonyNodes <? 0 then Err (ErrNegativeNodes harmonyNodes)
  else if harmonyNodes >? nodes then Err (ErrTooManyNodes harmonyNodes nodes)
  else if dec_LT votePercent ZeroDec || dec_GT votePercent OneDec then Err ErrVotePercent
  else Ret (mk_instance shards nodes harmonyNodes votePercent (dec_Sub OneDec votePercent) hmy fn resharding blocksE).

(** [None]: the panic. *)
Definition MustNewInstance (shards nodes harmonyNodes : Z) (votePercent : Dec) (hmy fn : list DeployAccount) (resharding : list Z)
    (blocksPerEpoch : Z) : option instance :=
  match NewInstance shards nodes harmonyNodes votePercent hmy fn resharding blocksPerEpoch with
  | Ret sc => Some sc
  | _ => None
  end.

(** The first account with the key in a list, and its position. *)
Fixpoint find_key (key : gostr) (i : Z) (accounts : list DeployAccount) : option (Z * DeployAccount) :=
  match accounts with
  | [] => None
  | item :: rest => if decide (acct_BLSPublicKey item = key) then Some (i, item) else find_key key (i + 1) rest
  end.

Definition u32 (z : Z) : Z := z mod 2 ^ 32.

Definition FindAccount (sc : instance) (blsPubKey : gostr) : bool * option DeployAccount :=
  let placed i item := mk_account (acct_Address item) (acct_BLSPublicKey item) (u32 i mod numShards sc) in
  match find_key blsPubKey 0 (hmyAccounts sc) with
  | Some (i, item) => (u32 i <? numShards sc, Some (placed i item))
  | None =>
      match find_key blsPubKey 0 (fnAccounts sc) with
      | Some (i, item) => (false, Some (placed i item))
      | None => (false, None)
      end
  end.

(** ** Schedules (shardingconfig.go) *)

(** The entries of one shard: current, shardID, http, ws. *)
Definition structure : Type := (bool * Z * gostr * gostr)%type.

(** [fmt.Sprintf(pattern, i)] of a pattern with one [%d]. *)
Fixpoint sprintf_d (pattern : gostr) (i : Z) : gostr :=
  match pattern with
  | 37 :: 100 :: rest => itoa i ++ rest
  | c :: rest => c :: sprintf_d rest i
  | [] => []
  end.

Definition genShardingStructure (shardNum shardID : Z) (httpPattern wsPattern : gostr) : list structure :=
  (fun i => (shardID =? i, i, sprintf_d httpPattern i, sprintf_d wsPattern i)) <$> seqZ 0 shardNum.

Record Schedule : Type := mk_Schedule {
  InstanceForEpoch : Z -> option instance;
  CalcEpochNumber : Z -> Z;
  IsLastBlock : Z -> bool;
  EpochLastBlock : Z -> Z;
  VdfDifficulty : Z;
  RandomnessStartingEpoch : Z;
  GetNetworkID : NetworkID;
  GetShardingStructure : Z -> Z -> list structure;
  IsSkippedEpoch : Z -> Z -> bool
}.

Definition dec (s : string) : Dec := MustNewDecFromStr (lit s).

(** *** Mainnet (mainnet.go) *)
Definition mainnetEpochBlock1 : Z := 344064.
Definition blocksPerEpoch : Z := 16384.
Definition blocksPerEpochV2 : Z := 32768.
Definition mainnetRandomnessStartingEpoch : Z := 100000.

Definition mainnet_twoSecondsFirstBlock : Z :=
  let t := big_uint64 (TwoSecondsEpoch MainnetChainConfig) in
  if t =? 0 then 0 else u64 (u64 (t - 1) * blocksPerEpoch + mainnetEpochBlock1).

Definition mainnet_CalcEpochNumber (blockNum : Z) : Z :=
  let oldEpochNumber := if blockNum >=? mainnetEpochBlock1 then i64 (i64 ((blockNum - mainnetEpochBlock1) / blocksPerEpoch) + 1) else 0 in
  let firstBlock2s := mainnet_twoSecondsFirstBlock in
  if IsTwoSeconds MainnetChainConfig oldEpochNumber then
    i64 (u64 (u64 (blockNum - firstBlock2s) / blocksPerEpochV2 + big_uint64 (TwoSecondsEpoch MainnetChainConfig)))
  else oldEpochNumber.

Definition mainnet_IsLastBlock (blockNum : Z) : bool :=
  if blockNum <? mainnetEpochBlock1 - 1 then false
  else if blockNum =? mainnetEpochBlock1 - 1 then true
  else
    let firstBlock2s := mainnet_twoSecondsFirstBlock in
    if blockNum >=? firstBlock2s then (blockNum - firstBlock2s) mod blocksPerEpochV2 =? blocksPerEpochV2 - 1
    else (blockNum - mainnetEpochBlock1) mod blocksPerEpoch =? blocksPerEpoch - 1.

Definition mainnet_EpochLastBlock (epochNum : Z) : Z :=
  if epochNum =? 0 then mainnetEpochBlock1 - 1
  else
    let firstBlock2s := mainnet_twoSecondsFirstBlock in
    if IsTwoSeconds MainnetChainConfig (i64 epochNum) then
      u64 (firstBlock2s - 1 + blocksPerEpochV2 * (epochNum - big_uint64 (TwoSecondsEpoch MainnetChainConfig) + 1))
    else u64 (mainnetEpochBlock1 - 1 + blocksPerEpoch * epochNum).

Definition skippedEpochs : gmap Z (list Z) :=
  {[ 1 := [181; 182; 183; 184; 185]; 2 := [184; 185]; 3 := [183; 184; 185] ]}.

Definition mainnet_IsSkippedEpoch (shardID epoch : Z) : bool :=
  match skippedEpochs !! shardID with
  | Some skipped => existsb (fun e => epoch =? e) skipped
  | None => false
  end.

(** The epochs at which the instances of mainnet change, the last two being
    those of the chain configuration. *)
Definition mainnet_epochs : list Z := [1; 5; 8; 10; 12; 19; 25; 36; 46; 54; 185; 208; 231].
Definition mainnetReshardingEpoch : list Z :=
  0 :: mainnet_epochs ++ [TwoSecondsEpoch MainnetChainConfig; SixtyPercentEpoch MainnetChainConfig].

Definition mainnet_instance (nodes harmonyNodes : Z) (percent : Dec) (fn : string) (blocks : Z) : option instance :=
  MustNewInstance 4 nodes harmonyNodes percent (genesis_accounts "HarmonyAccounts") (genesis_accounts fn) mainnetReshardingEpoch blocks.

Definition mainnet_InstanceForEpoch (epoch : Z) : option instance :=
  if IsSixtyPercent MainnetChainConfig epoch then mainnet_instance 250 90 (dec "0.60") "FoundationalNodeAccountsV1_5" blocksPerEpochV2
  else if IsTwoSeconds MainnetChainConfig epoch then mainnet_instance 250 90 (dec "0.68") "FoundationalNodeAccountsV1_5" blocksPerEpochV2
  else if epoch >=? 231 then mainnet_instance 250 90 (dec "0.68") "FoundationalNodeAccountsV1_5" blocksPerEpoch
  else if epoch >=? 208 then mainnet_instance 250 130 (dec "0.68") "FoundationalNodeAccountsV1_5" blocksPerEpoch
  else if epoch >=? 185 then mainnet_instance 250 170 (dec "0.68") "FoundationalNodeAccountsV1_5" blocksPerEpoch
  else if epoch >=? 54 then mainnet_instance 250 170 OneDec "FoundationalNodeAccountsV1_5" blocksPerEpoch
  else if epoch >=? 46 then mainnet_instance 250 170 OneDec "FoundationalNodeAccountsV1_4" blocksPerEpoch
  else if epoch >=? 36 then mainnet_instance 250 170 OneDec "FoundationalNodeAccountsV1_3" blocksPerEpoch
  else if epoch >=? 25 then mainnet_instance 250 170 OneDec "FoundationalNodeAccountsV1_2" blocksPerEpoch
  else if epoch >=? 19 then mainnet_instance 250 170 OneDec "FoundationalNodeAccountsV1_1" blocksPerEpoch
  else if epoch >=? 12 then mainnet_instance 250 170 OneDec "FoundationalNodeAccountsV1" blocksPerEpoch
  else if epoch >=? 10 then mainnet_instance 216 148 OneDec "FoundationalNodeAccountsV0_4" blocksPerEpoch
  else if epoch >=? 8 then mainnet_instance 210 148 OneDec "FoundationalNodeAccountsV0_3" blocksPerEpoch
  else if epoch >=? 5 then mainnet_instance 200 148 OneDec "FoundationalNodeAccountsV0_2" blocksPerEpoch
  else if epoch >=? 1 then mainnet_instance 152 112 OneDec "FoundationalNodeAccountsV0_1" blocksPerEpoch
  else mainnet_instance 150 112 OneDec "FoundationalNodeAccounts" blocksPerEpoch.

Definition MainnetSchedule : Schedule :=
  mk_Schedule mainnet_InstanceForEpoch mainnet_CalcEpochNumber mainnet_IsLastBlock mainnet_EpochLastBlock 50000 mainnetRandomnessStartingEpoch MainNet
    (fun n s => genShardingStructure n s (lit "https://api.s%d.t.hmny.io") (lit "wss://ws.s%d.t.hmny.io")) mainnet_IsSkippedEpoch.

(** *** Localnet (localnet.go) *)
Definition localnetEpochBlock1 : Z := 10.
Definition localnetBlocksPerEpoch : Z := 5.
Definition localnetBlocksPerEpochV2 : Z := 10.

Definition localnet_twoSecondsFirstBlock : Z :=
  let t := big_uint64 (TwoSecondsEpoch LocalnetChainConfig) in
  if t =? 0 then 0 else u64 (u64 (t - 1) * localnetBlocksPerEpoch + localnetEpochBlock1).

Definition localnet_CalcEpochNumber (blockNum : Z) : Z :=
  let oldEpochNumber := if blockNum >=? localnetEpochBlock1 then i64 (i64 ((blockNum - localnetEpochBlock1) / localnetBlocksPerEpoch) + 1) else 0 in
  let firstBlock2s := localnet_twoSecondsFirstBlock in
  if IsTwoSeconds LocalnetChainConfig oldEpochNumber then
    i64 (u64 (u64 (blockNum - firstBlock2s) / localnetBlocksPerEpochV2 + big_uint64 (TwoSecondsEpoch LocalnetChainConfig)))
  else oldEpochNumber.

Definition localnet_IsLastBlock (blockNum : Z) : bool :=
  if blockNum <? localnetEpochBlock1 - 1 then false
  else if blockNum =? localnetEpochBlock1 - 1 then true
  else
    let firstBlock2s := localnet_twoSecondsFirstBlock in
    if blockNum >=? firstBlock2s then (blockNum - firstBlock2s) mod localnetBlocksPerEpochV2 =? localnetBlocksPerEpochV2 - 1
    else (blockNum - localnetEpochBlock1) mod localnetBlocksPerEpoch =? localnetBlocksPerEpoch - 1.

Definition localnet_EpochLastBlock (epochNum : Z) : Z :=
  if epochNum =? 0 then localnetEpochBlock1 - 1
  else
    let firstBlock2s := localnet_twoSecondsFirstBlock in
    if IsTwoSeconds LocalnetChainConfig (i64 epochNum) then
      u64 (firstBlock2s - 1 + localnetBlocksPerEpochV2 * (epochNum - big_uint64 (TwoSecondsEpoch LocalnetChainConfig) + 1))
    else u64 (localnetEpochBlock1 - 1 + localnetBlocksPerEpoch * epochNum).

Definition localnetReshardingEpoch : list Z := [0; 1; StakingEpoch LocalnetChainConfig; TwoSecondsEpoch LocalnetChainConfig].

Definition localnet_instance (nodes harmonyNodes : Z) (percent : Dec) (hmy fn : string) (blocks : Z) : option instance :=
  MustNewInstance 2 nodes harmonyNodes percent (genesis_accounts hmy) (genesis_accounts fn) localnetReshardingEpoch blocks.

Definition localnet_InstanceForEpoch (epoch : Z) : option instance :=
  if IsSixtyPercent LocalnetChainConfig epoch then localnet_instance 9 6 (dec "0.68") "LocalHarmonyAccountsV2" "LocalFnAccountsV2" localnetBlocksPerEpochV2
  else if IsTwoSeconds LocalnetChainConfig epoch then localnet_instance 9 6 (dec "0.68") "LocalHarmonyAccountsV2" "LocalFnAccountsV2" localnetBlocksPerEpochV2
  else if IsStaking LocalnetChainConfig epoch then localnet_instance 9 6 (dec "0.68") "LocalHarmonyAccountsV2" "LocalFnAccountsV2" localnetBlocksPerEpoch
  else if epoch >=? 1 then localnet_instance 8 5 OneDec "LocalHarmonyAccountsV1" "LocalFnAccountsV1" localnetBlocksPerEpoch
  else localnet_instance 7 5 OneDec "LocalHarmonyAccounts" "LocalFnAccounts" localnetBlocksPerEpoch.

Definition localnet_GetShardingStructure (numShard shardID : Z) : list structure :=
  (fun i => (shardID =? i, i, lit "http://127.0.0.1:" ++ itoa (9500 + i), lit "ws://127.0.0.1:" ++ itoa (9800 + i))) <$> seqZ 0 numShard.

Definition LocalnetSchedule : Schedule :=
  mk_Schedule localnet_InstanceForEpoch localnet_CalcEpochNumber localnet_IsLastBlock localnet_EpochLastBlock 5000 0 LocalNet
    localnet_GetShardingStructure (fun _ _ => false).

(** *** Testnet (testnet.go) *)
Definition testnetBlocksPerEpoch : Z := 38.
Definition testnetBlocksPerEpochV2 : Z := 8192.
Definition testnetV2Epoch : Z := 6050.

Definition testnet_firstBlock2s : Z := u64 (big_uint64 (TwoSecondsEpoch TestnetChainConfig) * testnetBlocksPerEpoch).

Definition testnet_CalcEpochNumber (blockNum : Z) : Z :=
  if blockNum >=? testnet_firstBlock2s then
    i64 (u64 ((blockNum - testnet_firstBlock2s) / testnetBlocksPerEpochV2 + big_uint64 (TwoSecondsEpoch TestnetChainConfig)))
  else i64 (blockNum / testnetBlocksPerEpoch).

Definition testnet_IsLastBlock (blockNum : Z) : bool :=
  if blockNum >=? testnet_firstBlock2s then (blockNum - testnet_firstBlock2s) mod testnetBlocksPerEpochV2 =? testnetBlocksPerEpochV2 - 1
  else u64 (blockNum + 1) mod testnetBlocksPerEpoch =? 0.

Definition testnet_EpochLastBlock (epochNum : Z) : Z :=
  if IsTwoSeconds TestnetChainConfig (i64 epochNum) then
    u64 (testnet_firstBlock2s - 1 + testnetBlocksPerEpochV2 * (epochNum - big_uint64 (TwoSecondsEpoch TestnetChainConfig) + 1))
  else u64 (testnetBlocksPerEpoch * (epochNum + 1) - 1).

Definition testnetReshardingEpoch : list Z := [0; StakingEpoch TestnetChainConfig; TwoSecondsEpoch TestnetChainConfig].

Definition testnet_instance (nodes harmonyNodes : Z) (percent : Dec) (blocks : Z) : option instance :=
  MustNewInstance 4 nodes harmonyNodes percent (genesis_accounts "TNHarmonyAccounts") (genesis_accounts "TNFoundationalAccounts")
    testnetReshardingEpoch blocks.

Definition testnet_InstanceForEpoch (epoch : Z) : option instance :=
  if IsSixtyPercent TestnetChainConfig epoch then testnet_instance 30 8 (dec "0.60") testnetBlocksPerEpochV2
  else if IsTwoSeconds TestnetChainConfig epoch then testnet_instance 30 8 (dec "0.90") testnetBlocksPerEpochV2
  else if epoch >=? testnetV2Epoch then testnet_instance 30 8 (dec "0.90") testnetBlocksPerEpoch
  else if epoch >=? StakingEpoch TestnetChainConfig then testnet_instance 20 15 (dec "0.90") testnetBlocksPerEpoch
  else testnet_instance 16 15 OneDec testnetBlocksPerEpoch.

Definition TestnetSchedule : Schedule :=
  mk_Schedule testnet_InstanceForEpoch testnet_CalcEpochNumber testnet_IsLastBlock testnet_EpochLastBlock 10000 mainnetRandomnessStartingEpoch TestNet
    (fun n s => genShardingStructure n s (lit "https://api.s%d.b.hmny.io") (lit "wss://ws.s%d.b.hmny.io")) (fun _ _ => false).

(** *** Networks with one length of epochs (partner.go, pangaea.go, stress.go) *)
Definition even_CalcEpochNumber (blocks blockNum : Z) : Z := i64 (blockNum / blocks).
Definition even_IsLastBlock (blocks blockNum : Z) : bool := u64 (blockNum + 1) mod blocks =? 0.
Definition even_EpochLastBlock (blocks epochNum : Z) : Z := u64 (blocks * (epochNum + 1) - 1).

Definition staking_InstanceForEpoch (cfg : ChainConfig) (v0 v1 : option instance) (epoch : Z) : option instance :=
  if epoch >=? StakingEpoch cfg then v1 else v0.

Definition partnerReshardingEpoch : list Z := [0; StakingEpoch TestnetChainConfig].
Definition pangaeaReshardingEpoch : list Z := [0; StakingEpoch PangaeaChainConfig].
Definition stressnetReshardingEpoch : list Z := [0; StakingEpoch StressnetChainConfig].

Definition tn_instance (shards nodes harmonyNodes : Z) (percent : Dec) (resharding : list Z) (blocks : Z) : option instance :=
  MustNewInstance shards nodes harmonyNodes percent (genesis_accounts "TNHarmonyAccounts") (genesis_accounts "TNFoundationalAccounts") resharding blocks.

Definition PartnerSchedule : Schedule :=
  mk_Schedule
    (staking_InstanceForEpoch PartnerChainConfig (tn_instance 2 15 15 OneDec partnerReshardingEpoch 75) (tn_instance 2 30 15 (dec "0.68") partnerReshardingEpoch 75))
    (even_CalcEpochNumber 75) (even_IsLastBlock 75) (even_EpochLastBlock 75) 10000 mainnetRandomnessStartingEpoch Partner
    (fun n s => genShardingStructure n s (lit "https://api.s%d.ps.hmny.io") (lit "wss://ws.s%d.ps.hmny.io")) (fun _ _ => false).

Definition PangaeaSchedule : Schedule :=
  mk_Schedule
    (staking_InstanceForEpoch PangaeaChainConfig (tn_instance 4 30 30 OneDec pangaeaReshardingEpoch 450) (tn_instance 4 110 30 (dec "0.68") pangaeaReshardingEpoch 450))
    (even_CalcEpochNumber 450) (even_IsLastBlock 450) (even_EpochLastBlock 450) 10000 mainnetRandomnessStartingEpoch Pangaea
    (fun n s => genShardingStructure n s (lit "https://api.s%d.os.hmny.io") (lit "wss://ws.s%d.os.hmny.io")) (fun _ _ => false).

Definition StressNetSchedule : Schedule :=
  mk_Schedule
    (staking_InstanceForEpoch StressnetChainConfig (tn_instance 2 10 10 OneDec stressnetReshardingEpoch 38) (tn_instance 2 30 10 (dec "0.9") stressnetReshardingEpoch 38))
    (even_CalcEpochNumber 38) (even_IsLastBlock 38) (even_EpochLastBlock 38) 10000 mainnetRandomnessStartingEpoch StressNet
    (fun n s => genShardingStructure n s (lit "https://api.s%d.stn.hmny.io") (lit "wss://ws.s%d.stn.hmny.io")) (fun _ _ => false).

(** *** A fixed instance (fixedschedule.go) *)
Definition VLBPE : Z := 1000000000000.

Definition fixed_IsLastBlock (blockNum : Z) : bool := blockNum mod VLBPE =? VLBPE - 1.

Definition NewFixedSchedule (sc : option instance) : Schedule :=
  mk_Schedule (fun _ => sc) (even_CalcEpochNumber VLBPE) fixed_IsLastBlock (even_EpochLastBlock VLBPE) 50000 mainnetRandomnessStartingEpoch DevNet
    (fun n s => genShardingStructure n s (lit "https://api.s%d.b.hmny.io") (lit "https://api.s%d.b.hmny.io")) (fun _ _ => false).

End Sharding.
