(* ===== verification/ScheduleSpec.v ===== *)
(** * What holds of the sharding schedules

    [Tiles] is what a schedule promises its users: the epochs follow one another
    without gap or overlap, and the three functions of a schedule agree on where
    they end.  Users are proved against it ([epoch_counts_last_blocks]); every
    network meets it, mainnet as long as its fork to two-second blocks is not in
    epoch 0. *)
From Stdlib Require Import ZArith Lia String.
From stdpp Require Import gmap list.
From S2P Require Import Prelude GoString VotePower Schedule.

Local Open Scope Z_scope.

Section ScheduleSpec.
Context `{num : !Numeric, ord : !DecimalOrder, chain : !ChainParams}.

(** ** The promise of a schedule *)
Class Tiles (s : Schedule) : Prop := {
  first_epoch : CalcEpochNumber s 0 = 0;
  in_epoch b : 0 <= b < 2 ^ 60 -> 0 <= CalcEpochNumber s b /\ b <= EpochLastBlock s (CalcEpochNumber s b) /\
    (CalcEpochNumber s b = 0 \/ EpochLastBlock s (CalcEpochNumber s b - 1) < b);
  last_of_epoch b : 0 <= b < 2 ^ 60 -> IsLastBlock s b = true <-> b = EpochLastBlock s (CalcEpochNumber s b);
  next_epoch b : 0 <= b < 2 ^ 60 -> CalcEpochNumber s (b + 1) = if IsLastBlock s b then CalcEpochNumber s b + 1 else CalcEpochNumber s b
}.

(** A user of the interface: the epoch of a block is the number of last blocks
    before it. *)
Lemma epoch_counts_last_blocks s `{!Tiles s} b : 0 <= b < 2 ^ 60 ->
  CalcEpochNumber s b = Z.of_nat (length (filter (fun i => IsLastBlock s i = true) (seqZ 0 b))).
Proof.
  intros Hb. destruct Hb as [H0 Hb]. revert Hb. pattern b. apply natlike_ind; [| |done].
  - intros _. apply first_epoch.
  - intros n Hn IH Hlt. unfold Z.succ in *. rewrite next_epoch by lia. rewrite seqZ_app by lia. rewrite filter_app, length_app. simpl.
    rewrite IH by lia. assert (seqZ (0 + n) 1 = [n]) as -> by (unfold seqZ; simpl; f_equal; lia). rewrite filter_cons. destruct (IsLastBlock s n); [rewrite decide_True by done|rewrite decide_False by done]; simpl; lia.
Qed.

Lemma epochs_increase s `{!Tiles s} b b' : 0 <= b <= b' -> b' < 2 ^ 60 -> CalcEpochNumber s b <= CalcEpochNumber s b'.
Proof.
  intros Hb Hb'. rewrite (epoch_counts_last_blocks s b), (epoch_counts_last_blocks s b') by lia. replace b' with (b + (b' - b)) by lia.
  rewrite (seqZ_app 0 b (b' - b)) by lia. rewrite filter_app, length_app. lia.
Qed.

(** ** The networks *)

(** A fork is active from its epoch on. *)
Class ForkLaws (cfg : ChainConfig) : Prop := {
  two_seconds_from e : IsTwoSeconds cfg e = (TwoSecondsEpoch cfg <=? e);
  sixty_from e : IsSixtyPercent cfg e = (SixtyPercentEpoch cfg <=? e);
  staking_from e : IsStaking cfg e = (StakingEpoch cfg <=? e)
}.

Lemma even_tiles s blocks : 1 < blocks < 2 ^ 50 ->
  (forall b, 0 <= b <= 2 ^ 60 -> CalcEpochNumber s b = even_CalcEpochNumber blocks b) ->
  (forall e, 0 <= e -> blocks * e <= 2 ^ 60 -> EpochLastBlock s e = even_EpochLastBlock blocks e) ->
  (forall b, 0 <= b < 2 ^ 60 -> IsLastBlock s b = even_IsLastBlock blocks b) -> Tiles s.
Proof.
  intros Hbl Hc He Hl.
  assert (forall b, 0 <= b <= 2 ^ 60 -> CalcEpochNumber s b = b / blocks) as Hcalc.
  { intros b Hb. rewrite Hc by done. unfold even_CalcEpochNumber. apply i64_small.
    pose proof (Z.div_pos b blocks ltac:(lia) ltac:(lia)). pose proof (Z.div_le_upper_bound b blocks b ltac:(lia) ltac:(nia)). lia. }
  assert (forall e, 0 <= e -> blocks * e <= 2 ^ 60 -> EpochLastBlock s e = blocks * (e + 1) - 1) as Hlast.
  { intros e H0 H1. rewrite He by done. unfold even_EpochLastBlock. apply u64_small. unfold is_u64. lia. }
  assert (forall b, 0 <= b < 2 ^ 60 -> IsLastBlock s b = ((b + 1) mod blocks =? 0)) as Hil.
  { intros b Hb. rewrite Hl by done. unfold even_IsLastBlock. by rewrite u64_small by (unfold is_u64; lia). }
  assert (forall b, 0 <= b < 2 ^ 60 -> exists q r, b = blocks * q + r /\ 0 <= r < blocks /\ 0 <= q /\ b / blocks = q /\
    ((b + 1) mod blocks =? 0) = (r =? blocks - 1) /\ (b + 1) / blocks = if r =? blocks - 1 then q + 1 else q) as Hqr.
  { intros b Hb. exists (b / blocks), (b mod blocks). pose proof (Z.div_mod b blocks ltac:(lia)) as Ed. pose proof (Z.mod_pos_bound b blocks ltac:(lia)) as Hm.
    pose proof (Z.div_pos b blocks ltac:(lia) ltac:(lia)) as Hd. remember (b / blocks) as q. remember (b mod blocks) as r.
    destruct (Z.eqb_spec r (blocks - 1)).
    - assert (b + 1 = (q + 1) * blocks) as -> by lia. rewrite Z.div_mul, Z.mod_mul by lia. split_and!; (done || lia).
    - rewrite <- (Z.div_unique_pos (b + 1) blocks q (r + 1)), <- (Z.mod_unique_pos (b + 1) blocks q (r + 1)) by lia. split_and!; (done || lia). }
  split.
  - by rewrite Hcalc by lia.
  - intros b Hb. destruct (Hqr b Hb) as (q & r & Eb & Hr & Hq & Ec & _). rewrite Hcalc, Ec by lia.
    rewrite Hlast by lia. destruct (decide (q = 0)); [split_and!; [lia|lia|by left]|]. rewrite Hlast by nia. split_and!; [lia|lia|right; lia].
  - intros b Hb. destruct (Hqr b Hb) as (q & r & Eb & Hr & Hq & Ec & El & _). rewrite Hcalc, Ec by lia. rewrite Hil, El by lia.
    rewrite Hlast by lia. rewrite Z.eqb_eq. lia.
  - intros b Hb. destruct (Hqr b Hb) as (q & r & Eb & Hr & Hq & Ec & El & En). rewrite !Hcalc by lia. rewrite Hil, El, En, Ec by lia. done.
Qed.

(** Epochs of [first] blocks, then of [old] blocks, and of [new] blocks from epoch
    [t] on, which starts with block [f]. *)
Definition forked_epoch (first old new t f b : Z) : Z :=
  if b <? first then 0 else if b <? f then (b - first) / old + 1 else (b - f) / new + t.
Definition forked_last (first old new t f e : Z) : Z :=
  if e =? 0 then first - 1 else if t <=? e then f - 1 + new * (e - t + 1) else first - 1 + old * e.
Definition forked_is_last (first old new f b : Z) : bool :=
  if b <? first - 1 then false else if b =? first - 1 then true
  else if f <=? b then (b - f) mod new =? new - 1 else (b - first) mod old =? old - 1.

Lemma quotient c n b : 0 < n -> c <= b -> exists q r, b = c + n * q + r /\ 0 <= r < n /\ 0 <= q /\ (b - c) / n = q /\ (b - c) mod n = r /\
  (b + 1 - c) / n = if r =? n - 1 then q + 1 else q.
Proof.
  intros Hn Hb. exists ((b - c) / n), ((b - c) mod n). pose proof (Z.div_mod (b - c) n ltac:(lia)) as Ed. pose proof (Z.mod_pos_bound (b - c) n ltac:(lia)) as Hm.
  pose proof (Z.div_pos (b - c) n ltac:(lia) ltac:(lia)) as Hd. remember ((b - c) / n) as q. remember ((b - c) mod n) as r. split_and!; try (done || lia).
  destruct (Z.eqb_spec r (n - 1)); symmetry; [apply (Z.div_unique_pos _ n _ 0)|apply (Z.div_unique_pos _ n _ (r + 1))]; lia.
Qed.

Lemma forked_in_epoch first old new t f b : 0 < first -> 0 < old -> 0 < new -> 1 <= t -> f = (t - 1) * old + first -> 0 <= b ->
  let e := forked_epoch first old new t f b in
  0 <= e <= b + t /\ b <= forked_last first old new t f e /\ (e = 0 \/ forked_last first old new t f (e - 1) < b) /\
  (forked_is_last first old new f b = true <-> b = forked_last first old new t f e) /\
  forked_epoch first old new t f (b + 1) = if forked_is_last first old new f b then e + 1 else e.
Proof.
  intros Hf Ho Hn Ht Ef Hb e.
  destruct (Z.ltb_spec b first) as [H1|H1]; [|destruct (Z.ltb_spec b f) as [H2|H2]].
  - assert (e = 0) as -> by (unfold e, forked_epoch; destruct (Z.ltb_spec b first); lia). unfold forked_last, forked_is_last, forked_epoch. simpl.
    destruct (Z.ltb_spec b (first - 1)), (Z.eqb_spec b (first - 1)), (Z.ltb_spec (b + 1) first); try lia; (split_and!; [lia..|by left|lia|try done]).
    subst b. destruct (Z.ltb_spec (first - 1 + 1) f).
    + replace (first - 1 + 1 - first) with 0 by lia. by rewrite Z.div_0_l by lia.
    + assert (t = 1) as -> by nia. replace (first - 1 + 1 - f) with 0 by lia. by rewrite Z.div_0_l by lia.
  - destruct (quotient first old b Ho H1) as (q & r & Eb & Hr & Hq & Ed & Em & En).
    assert (q + 1 < t) as Hqt by nia.
    assert (e = q + 1) as -> by (unfold e, forked_epoch; destruct (Z.ltb_spec b first); [lia|]; destruct (Z.ltb_spec b f); lia).
    unfold forked_last, forked_is_last, forked_epoch. rewrite Em, En.
    destruct (Z.ltb_spec b (first - 1)), (Z.eqb_spec b (first - 1)), (Z.leb_spec f b), (Z.eqb_spec (q + 1) 0), (Z.leb_spec t (q + 1)), (Z.ltb_spec (b + 1) first);
      try lia. split_and!; [nia|nia|nia|right; destruct (Z.eqb_spec (q + 1 - 1) 0), (Z.leb_spec t (q + 1 - 1)); nia|rewrite Z.eqb_eq; nia|].
    destruct (Z.ltb_spec (b + 1) f), (Z.eqb_spec r (old - 1)); try lia; [|nia].
    assert (b + 1 = f) as -> by nia. rewrite Z.sub_diag, Z.div_0_l by lia. nia.
  - destruct (quotient f new b Hn H2) as (q & r & Eb & Hr & Hq & Ed & Em & En).
    assert (e = q + t) as -> by (unfold e, forked_epoch; destruct (Z.ltb_spec b first); [lia|]; destruct (Z.ltb_spec b f); lia).
    unfold forked_last, forked_is_last, forked_epoch. rewrite Em, En.
    destruct (Z.ltb_spec b (first - 1)), (Z.eqb_spec b (first - 1)), (Z.leb_spec f b), (Z.eqb_spec (q + t) 0), (Z.leb_spec t (q + t)), (Z.ltb_spec (b + 1) first), (Z.ltb_spec (b + 1) f);
      try nia. split_and!; [nia|nia|nia|right; destruct (Z.eqb_spec (q + t - 1) 0), (Z.leb_spec t (q + t - 1)); nia|rewrite Z.eqb_eq; nia|].
    destruct (Z.eqb_spec r (new - 1)); lia.
Qed.

Lemma forked_tiles s first old new t f : 0 < first <= 2 ^ 30 -> 0 < old <= 2 ^ 20 -> 0 < new <= 2 ^ 20 -> 1 <= t <= 2 ^ 38 -> f = (t - 1) * old + first ->
  (forall b, 0 <= b <= 2 ^ 60 -> CalcEpochNumber s b = forked_epoch first old new t f b) ->
  (forall b, 0 <= b < 2 ^ 60 -> IsLastBlock s b = forked_is_last first old new f b) ->
  (forall e, 0 <= e -> forked_last first old new t f e < 2 ^ 62 -> EpochLastBlock s e = forked_last first old new t f e) -> Tiles s.
Proof.
  intros Hf Ho Hn Ht Ef Hc Hl He.
  assert (forall b, 0 <= b < 2 ^ 60 -> 0 <= CalcEpochNumber s b /\ EpochLastBlock s (CalcEpochNumber s b) = forked_last first old new t f (forked_epoch first old new t f b) /\
    (CalcEpochNumber s b = 0 \/ EpochLastBlock s (CalcEpochNumber s b - 1) = forked_last first old new t f (forked_epoch first old new t f b - 1))) as Hx.
  { intros b Hb. destruct (forked_in_epoch first old new t f b) as (H1 & H2 & H3 & _); [lia..|]. rewrite Hc by lia. set (e := forked_epoch first old new t f b) in *.
    assert (forked_last first old new t f e < 2 ^ 62).
    { unfold forked_last in H3 |- *. destruct (Z.eqb_spec e 0); [lia|]. destruct H3 as [?|H3]; [lia|].
      destruct (Z.eqb_spec (e - 1) 0), (Z.leb_spec t (e - 1)), (Z.leb_spec t e); try lia; nia. }
    split; [lia|]. split; [apply He; lia|]. destruct (decide (e = 0)); [by left|right].
    destruct H3 as [?|H3]; [lia|]. apply He; lia. }
  split.
  - rewrite Hc by lia. unfold forked_epoch. destruct (Z.ltb_spec 0 first); lia.
  - intros b Hb. destruct (Hx b Hb) as (? & E1 & E2). destruct (forked_in_epoch first old new t f b) as (H1 & H2 & H3 & _); [lia..|].
    split; [done|]. rewrite E1. split; [done|]. rewrite Hc in * by lia. destruct E2 as [?| ->]; [by left|done].
  - intros b Hb. destruct (Hx b Hb) as (? & -> & _). rewrite Hl by done. apply forked_in_epoch; lia.
  - intros b Hb. rewrite !Hc, Hl by lia. apply forked_in_epoch; lia.
Qed.

Ltac Zify.zify_post_hook ::= Z.to_euclidean_division_equations.

(** Arithmetic that stays in the range of its type, from the inside out. *)
Ltac no_wrap x := lazymatch x with context [u64 _] => fail | context [i64 _] => fail | _ => idtac end.
Ltac in_range := repeat match goal with
  | |- context [u64 ?x] => no_wrap x; rewrite (u64_small x) by (unfold is_u64; lia)
  | |- context [i64 ?x] => no_wrap x; rewrite (i64_small x) by lia
  end.

Lemma mainnet_first_block : 1 <= TwoSecondsEpoch MainnetChainConfig <= 2 ^ 38 ->
  mainnet_twoSecondsFirstBlock = (TwoSecondsEpoch MainnetChainConfig - 1) * 16384 + 344064.
Proof.
  intros Ht. unfold mainnet_twoSecondsFirstBlock, blocksPerEpoch, mainnetEpochBlock1. rewrite big_uint64_small by lia.
  destruct (Z.eqb_spec (TwoSecondsEpoch MainnetChainConfig) 0); [lia|]. by in_range.
Qed.

Lemma localnet_first_block : 1 <= TwoSecondsEpoch LocalnetChainConfig <= 2 ^ 38 ->
  localnet_twoSecondsFirstBlock = (TwoSecondsEpoch LocalnetChainConfig - 1) * 5 + 10.
Proof.
  intros Ht. unfold localnet_twoSecondsFirstBlock, localnetBlocksPerEpoch, localnetEpochBlock1. rewrite big_uint64_small by lia.
  destruct (Z.eqb_spec (TwoSecondsEpoch LocalnetChainConfig) 0); [lia|]. by in_range.
Qed.

Lemma testnet_first_block : 0 <= TwoSecondsEpoch TestnetChainConfig <= 2 ^ 38 -> testnet_firstBlock2s = TwoSecondsEpoch TestnetChainConfig * 38.
Proof. intros Ht. unfold testnet_firstBlock2s, testnetBlocksPerEpoch. rewrite big_uint64_small by lia. apply u64_small. unfold is_u64. lia. Qed.

Lemma mainnet_tiles `{!ForkLaws MainnetChainConfig} : 1 <= TwoSecondsEpoch MainnetChainConfig <= 2 ^ 38 -> Tiles MainnetSchedule.
Proof.
  intros Ht. pose proof (mainnet_first_block Ht) as Ef. set (t := TwoSecondsEpoch MainnetChainConfig) in *.
  apply (forked_tiles _ 344064 16384 32768 t mainnet_twoSecondsFirstBlock); [lia..|rewrite Ef; lia| | |].
  - intros b Hb. simpl. unfold mainnet_CalcEpochNumber, forked_epoch, mainnetEpochBlock1, blocksPerEpoch, blocksPerEpochV2. rewrite Ef, two_seconds_from. fold t.
    rewrite (big_uint64_small t) by lia. rewrite Z.geb_leb. destruct (Z.leb_spec 344064 b), (Z.ltb_spec b 344064); try lia; in_range.
    + destruct (Z.leb_spec t ((b - 344064) / 16384 + 1)), (Z.ltb_spec b ((t - 1) * 16384 + 344064)); try lia.
      in_range. lia.
    + destruct (Z.leb_spec t 0); lia.
  - intros b Hb. simpl. unfold mainnet_IsLastBlock, forked_is_last, mainnetEpochBlock1, blocksPerEpoch, blocksPerEpochV2. by rewrite Z.geb_leb.
  - intros e He Hlt. simpl. unfold mainnet_EpochLastBlock, mainnetEpochBlock1, blocksPerEpoch, blocksPerEpochV2. unfold forked_last in *. rewrite Ef in *.
    rewrite two_seconds_from. fold t. rewrite (big_uint64_small t) by lia. destruct (Z.eqb_spec e 0); [done|]. 
    assert (e < 2 ^ 62) by (destruct (Z.leb_spec t e); lia). in_range. destruct (Z.leb_spec t e); apply u64_small; unfold is_u64; lia.
Qed.

Lemma localnet_forked_tiles `{!ForkLaws LocalnetChainConfig} : 1 <= TwoSecondsEpoch LocalnetChainConfig <= 2 ^ 38 -> Tiles LocalnetSchedule.
Proof.
  intros Ht. pose proof (localnet_first_block Ht) as Ef. set (t := TwoSecondsEpoch LocalnetChainConfig) in *.
  apply (forked_tiles _ 10 5 10 t localnet_twoSecondsFirstBlock); [lia..|rewrite Ef; lia| | |].
  - intros b Hb. simpl. unfold localnet_CalcEpochNumber, forked_epoch, localnetEpochBlock1, localnetBlocksPerEpoch, localnetBlocksPerEpochV2. rewrite Ef, two_seconds_from. fold t.
    rewrite (big_uint64_small t) by lia. rewrite Z.geb_leb. destruct (Z.leb_spec 10 b), (Z.ltb_spec b 10); try lia; in_range.
    + destruct (Z.leb_spec t ((b - 10) / 5 + 1)), (Z.ltb_spec b ((t - 1) * 5 + 10)); try lia.
      in_range. lia.
    + destruct (Z.leb_spec t 0); lia.
  - intros b Hb. simpl. unfold localnet_IsLastBlock, forked_is_last, localnetEpochBlock1, localnetBlocksPerEpoch, localnetBlocksPerEpochV2. by rewrite Z.geb_leb.
  - intros e He Hlt. simpl. unfold localnet_EpochLastBlock, localnetEpochBlock1, localnetBlocksPerEpoch, localnetBlocksPerEpochV2. unfold forked_last in *. rewrite Ef in *.
    rewrite two_seconds_from. fold t. rewrite (big_uint64_small t) by lia. destruct (Z.eqb_spec e 0); [done|].
    assert (e < 2 ^ 62) by (destruct (Z.leb_spec t e); lia). in_range. destruct (Z.leb_spec t e); apply u64_small; unfold is_u64; lia.
Qed.

(** With the fork in epoch 0 the first epoch of localnet is as long as the later ones. *)
Lemma localnet_zero_tiles `{!ForkLaws LocalnetChainConfig} : TwoSecondsEpoch LocalnetChainConfig = 0 -> Tiles LocalnetSchedule.
Proof.
  intros Ht. assert (localnet_twoSecondsFirstBlock = 0) as Ef by (unfold localnet_twoSecondsFirstBlock; by rewrite Ht).
  apply (even_tiles _ 10); [lia| | |].
  - intros b Hb. simpl. unfold localnet_CalcEpochNumber, even_CalcEpochNumber, localnetEpochBlock1, localnetBlocksPerEpoch, localnetBlocksPerEpochV2.
    rewrite Ef, Ht, two_seconds_from, Ht. change (big_uint64 0) with 0. rewrite Z.geb_leb, Z.sub_0_r.
    destruct (Z.leb_spec 10 b); in_range; [destruct (Z.leb_spec 0 ((b - 10) / 5 + 1)); lia|simpl; lia].
  - intros e He Hlt. simpl. unfold localnet_EpochLastBlock, even_EpochLastBlock, localnetEpochBlock1, localnetBlocksPerEpoch, localnetBlocksPerEpochV2.
    rewrite Ef, Ht, two_seconds_from, Ht. change (big_uint64 0) with 0. destruct (Z.eqb_spec e 0) as [->|]; [done|]. in_range.
    destruct (Z.leb_spec 0 e); [f_equal|]; lia.
  - intros b Hb. simpl. unfold localnet_IsLastBlock, even_IsLastBlock, localnetEpochBlock1, localnetBlocksPerEpoch, localnetBlocksPerEpochV2. rewrite Ef, Z.sub_0_r, Z.geb_leb.
    in_range. destruct (Z.ltb_spec b (10 - 1)), (Z.eqb_spec b (10 - 1)), (Z.leb_spec 0 b); lia.
Qed.

Lemma testnet_forked_tiles `{!ForkLaws TestnetChainConfig} : 1 <= TwoSecondsEpoch TestnetChainConfig <= 2 ^ 38 -> Tiles TestnetSchedule.
Proof.
  intros Ht. pose proof (testnet_first_block ltac:(lia)) as Ef. set (t := TwoSecondsEpoch TestnetChainConfig) in *.
  apply (forked_tiles _ 38 38 8192 t testnet_firstBlock2s); [lia..|rewrite Ef; lia| | |].
  - intros b Hb. simpl. unfold testnet_CalcEpochNumber, forked_epoch, testnetBlocksPerEpoch, testnetBlocksPerEpochV2. rewrite Ef. fold t.
    rewrite (big_uint64_small t), Z.geb_leb by lia. destruct (Z.leb_spec (t * 38) b), (Z.ltb_spec b 38), (Z.ltb_spec b (t * 38)); try lia; in_range; lia.
  - intros b Hb. simpl. unfold testnet_IsLastBlock, forked_is_last, testnetBlocksPerEpoch, testnetBlocksPerEpochV2. rewrite Ef, Z.geb_leb. in_range.
    destruct (Z.leb_spec (t * 38) b), (Z.ltb_spec b (38 - 1)), (Z.eqb_spec b (38 - 1)); lia.
  - intros e He Hlt. simpl. unfold testnet_EpochLastBlock, testnetBlocksPerEpoch, testnetBlocksPerEpochV2. unfold forked_last in *. rewrite Ef in *.
    rewrite two_seconds_from. fold t. rewrite (big_uint64_small t) by lia.
    assert (e < 2 ^ 62) by (destruct (Z.eqb_spec e 0), (Z.leb_spec t e); lia). in_range. destruct (Z.eqb_spec e 0), (Z.leb_spec t e); in_range; lia.
Qed.

Lemma testnet_zero_tiles `{!ForkLaws TestnetChainConfig} : TwoSecondsEpoch TestnetChainConfig = 0 -> Tiles TestnetSchedule.
Proof.
  intros Ht. assert (testnet_firstBlock2s = 0) as Ef by (unfold testnet_firstBlock2s; by rewrite Ht). apply (even_tiles _ 8192); [lia| | |].
  - intros b Hb. simpl. unfold testnet_CalcEpochNumber, even_CalcEpochNumber, testnetBlocksPerEpoch, testnetBlocksPerEpochV2.
    rewrite Ef, Ht, Z.geb_leb, Z.sub_0_r. change (big_uint64 0) with 0. destruct (Z.leb_spec 0 b); [in_range|]; lia.
  - intros e He Hlt. simpl. unfold testnet_EpochLastBlock, even_EpochLastBlock, testnetBlocksPerEpoch, testnetBlocksPerEpochV2.
    rewrite Ef, two_seconds_from, Ht. change (big_uint64 0) with 0. in_range. destruct (Z.leb_spec 0 e); in_range; lia.
  - intros b Hb. simpl. unfold testnet_IsLastBlock, even_IsLastBlock, testnetBlocksPerEpoch, testnetBlocksPerEpochV2. rewrite Ef, Z.sub_0_r, Z.geb_leb.
    in_range. destruct (Z.leb_spec 0 b); lia.
Qed.

Lemma fixed_tiles sc : Tiles (NewFixedSchedule sc).
Proof.
  apply (even_tiles _ VLBPE); unfold VLBPE; [lia|done|done|]. intros b Hb. simpl. unfold fixed_IsLastBlock, even_IsLastBlock, VLBPE. in_range. lia.
Qed.

(** C18: in every network the epochs tile the chain: each block is in one epoch,
    between the last block of the epoch before and its own last block, the block
    is reported as a last block exactly there, and the next block is in the next
    epoch exactly then, through the change of the epoch length and without a
    number leaving its 64 bits. *)
Theorem epochs_tile_the_chain `{!ForkLaws MainnetChainConfig, !ForkLaws LocalnetChainConfig, !ForkLaws TestnetChainConfig} sc :
  1 <= TwoSecondsEpoch MainnetChainConfig <= 2 ^ 38 -> 0 <= TwoSecondsEpoch LocalnetChainConfig <= 2 ^ 38 ->
  0 <= TwoSecondsEpoch TestnetChainConfig <= 2 ^ 38 ->
  forall s, s ∈ [MainnetSchedule; LocalnetSchedule; TestnetSchedule; PartnerSchedule; PangaeaSchedule; StressNetSchedule; NewFixedSchedule sc] ->
  Tiles s /\ forall b, 0 <= b < 2 ^ 60 -> CalcEpochNumber s b = Z.of_nat (length (filter (fun i => IsLastBlock s i = true) (seqZ 0 b))).
Proof.
  intros Hm Hl Ht s Hs. assert (Tiles s) as Hs'; [|split; [done|]; by apply epoch_counts_last_blocks].
  repeat (apply elem_of_cons in Hs as [->|Hs]); [by apply mainnet_tiles| | |by apply (even_tiles _ 75)|by apply (even_tiles _ 450)|by apply (even_tiles _ 38)|apply fixed_tiles|].
  - destruct (decide (TwoSecondsEpoch LocalnetChainConfig = 0)); [by apply localnet_zero_tiles|apply localnet_forked_tiles; lia].
  - destruct (decide (TwoSecondsEpoch TestnetChainConfig = 0)); [by apply testnet_zero_tiles|apply testnet_forked_tiles; lia].
  - by apply elem_of_nil in Hs.
Qed.

(** with its fork in epoch 0 the schedule of mainnet contradicts itself,
    although the code provides for it: block 32768 is in epoch 1, but neither is
    block 32767 a last block nor is it the last block of epoch 0. *)
Theorem mainnet_forked_at_genesis_disagrees `{!ForkLaws MainnetChainConfig} : TwoSecondsEpoch MainnetChainConfig = 0 ->
  CalcEpochNumber MainnetSchedule 32767 = 0 /\ CalcEpochNumber MainnetSchedule 32768 = 1 /\
  IsLastBlock MainnetSchedule 32767 = false /\ EpochLastBlock MainnetSchedule 0 = 344063 /\ ~ Tiles MainnetSchedule.
Proof.
  intros Ht. assert (CalcEpochNumber MainnetSchedule 32767 = 0 /\ CalcEpochNumber MainnetSchedule 32768 = 1) as [H1 H2].
  { simpl. unfold mainnet_CalcEpochNumber, mainnet_twoSecondsFirstBlock. rewrite !two_seconds_from, !Ht. done. }
  split_and!; [done..|]. intros Hs. pose proof (next_epoch 32767 ltac:(lia)) as Hn. change (32767 + 1) with 32768 in Hn. rewrite H2, H1 in Hn. discriminate Hn.
Qed.

(** ** Instances *)

(** The instance of an epoch is that of the epoch before unless the epoch is
    among those in which shards are formed anew. *)
Definition changes_at (s : Schedule) (epochs : list Z) : Prop :=
  forall e, 1 <= e -> e ∉ epochs -> InstanceForEpoch s e = InstanceForEpoch s (e - 1).

Lemma geb_step e k : e <> k -> (e >=? k) = (e - 1 >=? k).
Proof. intros H. rewrite !Z.geb_leb. destruct (Z.leb_spec k e), (Z.leb_spec k (e - 1)); lia. Qed.

Lemma leb_step e k : e <> k -> (k <=? e) = (k <=? e - 1).
Proof. rewrite <- !Z.geb_leb. apply geb_step. Qed.

(** on mainnet the number of nodes, the share of the votes, the accounts and
    the length of epochs change only in the epochs that are listed for resharding,
    whatever the forks of the chain are; on testnet they also change in epoch 6050
    and with the fork to sixty per cent, which are not listed. *)
Theorem instances_change_at_resharding `{!ForkLaws MainnetChainConfig, !ForkLaws TestnetChainConfig} :
  changes_at MainnetSchedule mainnetReshardingEpoch /\
  changes_at TestnetSchedule (testnetReshardingEpoch ++ [testnetV2Epoch; SixtyPercentEpoch TestnetChainConfig]) /\
  (forall a b, testnet_instance 30 8 (dec "0.90") testnetBlocksPerEpoch = Some a -> testnet_instance 20 15 (dec "0.90") testnetBlocksPerEpoch = Some b ->
     StakingEpoch TestnetChainConfig < testnetV2Epoch -> testnetV2Epoch < TwoSecondsEpoch TestnetChainConfig ->
     testnetV2Epoch < SixtyPercentEpoch TestnetChainConfig -> ~ changes_at TestnetSchedule testnetReshardingEpoch).
Proof.
  split; [|split].
  - intros e He Hn. simpl. unfold mainnet_InstanceForEpoch. rewrite !two_seconds_from, !sixty_from.
    unfold mainnetReshardingEpoch, mainnet_epochs in Hn. simpl in Hn. rewrite !not_elem_of_cons in Hn.
    rewrite !(geb_step e), !(leb_step e) by tauto. reflexivity.
  - intros e He Hn. simpl. unfold testnet_InstanceForEpoch. rewrite !two_seconds_from, !sixty_from.
    unfold testnetReshardingEpoch in Hn. simpl in Hn. rewrite !not_elem_of_cons in Hn. rewrite !(geb_step e), !(leb_step e) by tauto. reflexivity.
  - intros a b Ha Hb H1 H2 H3 Hc. unfold testnetV2Epoch in *. specialize (Hc 6050 ltac:(lia)). simpl in Hc.
    unfold testnet_InstanceForEpoch, testnetV2Epoch in Hc. rewrite !two_seconds_from, !sixty_from in Hc.
    destruct (Z.leb_spec (SixtyPercentEpoch TestnetChainConfig) 6050), (Z.leb_spec (TwoSecondsEpoch TestnetChainConfig) 6050),
      (Z.leb_spec (SixtyPercentEpoch TestnetChainConfig) (6050 - 1)), (Z.leb_spec (TwoSecondsEpoch TestnetChainConfig) (6050 - 1)); try lia.
    rewrite (Z.geb_leb (6050 - 1) (StakingEpoch _)) in Hc. destruct (Z.leb_spec (StakingEpoch TestnetChainConfig) (6050 - 1)); [|lia]. simpl in Hc.
    rewrite Ha, Hb in Hc. unfold testnet_instance, MustNewInstance, NewInstance in Ha, Hb. simpl in Ha, Hb.
    destruct (_ || _) in Ha; [discriminate Ha|]. destruct (_ || _) in Hb; [discriminate Hb|]. injection Ha as <-. injection Hb as <-.
    assert (6050 ∉ testnetReshardingEpoch) as Hin by (unfold testnetReshardingEpoch; rewrite !not_elem_of_cons; split_and!; [lia..|apply not_elem_of_nil]).
    discriminate (Hc Hin).
Qed.

(** *** Accounts *)
Lemma find_key_at key i accounts j a : accounts !! j = Some a -> acct_BLSPublicKey a = key ->
  (forall k b, (k < j)%nat -> accounts !! k = Some b -> acct_BLSPublicKey b <> key) -> find_key key i accounts = Some (i + Z.of_nat j, a).
Proof.
  revert i j. induction accounts as [|c accounts IH]; intros i j Hj Hk Hfirst; [done|]. simpl. destruct j as [|j]; simpl in Hj.
  - injection Hj as ->. rewrite decide_True by done. do 2 f_equal. lia.
  - rewrite decide_False by (apply (Hfirst 0%nat); [lia|done]). rewrite (IH (i + 1) j); [do 2 f_equal; lia|done|done|].
    intros k b Hlt Hb. apply (Hfirst (S k)); [lia|done].
Qed.

Lemma find_key_none key i accounts : (forall a, a ∈ accounts -> acct_BLSPublicKey a <> key) -> find_key key i accounts = None.
Proof.
  revert i. induction accounts as [|c accounts IH]; intros i H; [done|]. simpl. rewrite decide_False by (apply H, list_elem_of_here).
  apply IH. intros a Ha. by apply H, list_elem_of_further.
Qed.

Lemma distinct_before (accounts : list DeployAccount) i a k b : NoDup (acct_BLSPublicKey <$> accounts) -> accounts !! i = Some a -> accounts !! k = Some b -> (k < i)%nat ->
  acct_BLSPublicKey b <> acct_BLSPublicKey a.
Proof.
  intros Hnd Hi Hk Hlt E. assert (k = i); [|lia]. eapply (NoDup_lookup _ _ _ (acct_BLSPublicKey a) Hnd); rewrite list_lookup_fmap; [by rewrite Hk, <- E|by rewrite Hi].
Qed.

(** the accounts of a network are dealt to its shards in turn, and the first
    one of each shard is its leader: with distinct keys account [i] of the
    operator is found in shard [i] modulo the number of shards, as a leader
    exactly among the first of them, the other accounts likewise but never as a
    leader, and a key that is in neither list is not found. *)
Theorem accounts_are_dealt_to_shards sc :
  1 <= numShards sc -> NoDup (acct_BLSPublicKey <$> hmyAccounts sc ++ fnAccounts sc) ->
  Z.of_nat (length (hmyAccounts sc)) < 2 ^ 32 -> Z.of_nat (length (fnAccounts sc)) < 2 ^ 32 ->
  let place i a := mk_account (acct_Address a) (acct_BLSPublicKey a) (Z.of_nat i mod numShards sc) in
  (forall i a, hmyAccounts sc !! i = Some a -> FindAccount sc (acct_BLSPublicKey a) = (Z.of_nat i <? numShards sc, Some (place i a))) /\
  (forall i a, fnAccounts sc !! i = Some a -> FindAccount sc (acct_BLSPublicKey a) = (false, Some (place i a))) /\
  (forall key, key ∉ (acct_BLSPublicKey <$> hmyAccounts sc ++ fnAccounts sc) -> FindAccount sc key = (false, None)).
Proof.
  intros Hn Hnd Hlh Hlf place. rewrite fmap_app in *. pose proof Hnd as Hnd'. apply NoDup_app in Hnd as (Hh & Hd & Hf).
  assert (forall i, Z.of_nat i < 2 ^ 32 -> u32 (0 + Z.of_nat i) = Z.of_nat i) as Hu by (intros i Hi; unfold u32; apply Z.mod_small; lia).
  split_and!.
  - intros i a Ha. unfold FindAccount. rewrite (find_key_at _ 0 _ i a Ha eq_refl) by (intros k b Hlt Hb; exact (distinct_before _ _ _ _ _ Hh Ha Hb Hlt)).
    rewrite Hu by (apply lookup_lt_Some in Ha; lia). done.
  - intros i a Ha. unfold FindAccount. rewrite find_key_none, (find_key_at _ 0 _ i a Ha eq_refl).
    + rewrite Hu by (apply lookup_lt_Some in Ha; lia). done.
    + intros k b Hlt Hb. exact (distinct_before _ _ _ _ _ Hf Ha Hb Hlt).
    + intros b Hb E. apply (Hd (acct_BLSPublicKey b)); [by apply list_elem_of_fmap_2|]. rewrite E. apply list_elem_of_fmap_2. by eapply list_elem_of_lookup_2.
  - intros key Hk. rewrite not_elem_of_app in Hk. destruct Hk as [Hk1 Hk2]. unfold FindAccount.
    rewrite !find_key_none; [done| |]; intros b Hb <-; [apply Hk2|apply Hk1]; by apply list_elem_of_fmap_2.
Qed.

End ScheduleSpec.

(** ** Concrete networks *)
Module ScheduleToy.
#[local] Existing Instance PowerToy.decimals.

(** Every string is read as seventy per cent. *)
Definition toy_order : DecimalOrder := {| dec_LT := Z.ltb; dec_GT := Z.gtb; MustNewDecFromStr _ := 7 * 10 ^ 17 |}.
#[local] Existing Instance toy_order.

Definition forked_at (staking two sixty : Z) : ChainConfig :=
  mk_ChainConfig staking two sixty (fun e => staking <=? e) (fun e => two <=? e) (fun e => sixty <=? e).

Lemma forked_at_laws staking two sixty : ForkLaws (forked_at staking two sixty).
Proof. by split. Qed.
#[local] Existing Instance forked_at_laws.

Definition toy_accounts (name : string) : list DeployAccount :=
  [mk_account (lit "a") (lit name ++ lit "0") 0; mk_account (lit "b") (lit name ++ lit "1") 0; mk_account (lit "c") (lit name ++ lit "2") 0].

Definition toy_chain : ChainParams := {|
  MainnetChainConfig := forked_at 186 366 380; TestnetChainConfig := forked_at 2 73290 73282; LocalnetChainConfig := forked_at 2 0 4;
  PangaeaChainConfig := forked_at 2 0 0; PartnerChainConfig := forked_at 2 0 0; StressnetChainConfig := forked_at 2 0 0;
  genesis_accounts := toy_accounts |}.
#[local] Existing Instance toy_chain.

Lemma epochs_tile_the_chain_witness : Tiles MainnetSchedule /\ CalcEpochNumber MainnetSchedule 344064 = 1.
Proof.
  destruct (epochs_tile_the_chain None) with (s := MainnetSchedule) as [H _]; [split; vm_compute; discriminate..|apply list_elem_of_here|].
  split; [exact H|reflexivity].
Defined.

Lemma toy_testnet : is_Some (testnet_instance 30 8 (dec "0.90") testnetBlocksPerEpoch) /\ is_Some (testnet_instance 20 15 (dec "0.90") testnetBlocksPerEpoch).
Proof.
  assert (forall o : option instance, bool_decide (is_Some o) = true -> is_Some o) as H by (intros o; apply bool_decide_eq_true).
  split; apply H; vm_compute; reflexivity.
Qed.

Lemma instances_change_at_resharding_witness : changes_at MainnetSchedule mainnetReshardingEpoch /\ ~ changes_at TestnetSchedule testnetReshardingEpoch.
Proof.
  destruct instances_change_at_resharding as (H1 & _ & H2). split; [exact H1|].
  destruct toy_testnet as [[a Ea] [b Eb]]. apply (H2 a b Ea Eb); reflexivity.
Defined.

Definition toy_sc : instance := mk_instance 2 5 3 0 0 (toy_accounts "h") (toy_accounts "f") [] 10.

Lemma accounts_are_dealt_to_shards_witness : FindAccount toy_sc (lit "h1") = (true, Some (mk_account (lit "b") (lit "h1") 1)).
Proof.
  destruct (accounts_are_dealt_to_shards toy_sc) as (H & _ & _); [vm_compute; discriminate| |reflexivity|reflexivity|].
  - apply (bool_decide_unpack (NoDup (acct_BLSPublicKey <$> hmyAccounts toy_sc ++ fnAccounts toy_sc))). vm_compute. exact I.
  - exact (H 1%nat (mk_account (lit "b") (lit "h1") 0) eq_refl).
Defined.

End ScheduleToy.

(** A mainnet that forks in epoch 0. *)
Module GenesisForkToy.
#[local] Existing Instances PowerToy.decimals ScheduleToy.toy_order ScheduleToy.forked_at_laws.

Definition genesis_chain : ChainParams := {|
  MainnetChainConfig := ScheduleToy.forked_at 0 0 0; TestnetChainConfig := ScheduleToy.forked_at 0 0 0; LocalnetChainConfig := ScheduleToy.forked_at 0 0 0;
  PangaeaChainConfig := ScheduleToy.forked_at 0 0 0; PartnerChainConfig := ScheduleToy.forked_at 0 0 0; StressnetChainConfig := ScheduleToy.forked_at 0 0 0;
  genesis_accounts := fun _ => [] |}.
#[local] Existing Instance genesis_chain.

Lemma mainnet_forked_at_genesis_disagrees_witness : ~ Tiles MainnetSchedule.
Proof. destruct (mainnet_forked_at_genesis_disagrees (chain := genesis_chain) eq_refl) as (_ & _ & _ & _ & H). exact H. Defined.

End GenesisForkToy.
