(* ===== verification/ShardConfig.v ===== *)
(** * The process-wide configuration of a node

    Models internal/configs/node/config.go: the table of the configurations of
    the shards and the default one, the setters of all of them, the archival
    modes, and the shard a consensus key belongs to.  A pointer to a
    configuration is its place in the process.  Conversion and printing of keys
    come from the BLS package: they are the fields of [KeyBytes]. *)
From Stdlib Require Import ZArith Lia String.
From stdpp Require Import gmap list.
From S2P Require Import Prelude GoString VotePower Schedule ScheduleSpec.

Local Open Scope Z_scope.

Definition MaxShards : nat := 32.

Class KeyBytes : Type := {
  BlsKey : Type;
  FromLibBLSPublicKey : BlsKey -> option (list Z);  (* the 48 bytes of a key, None an error *)
  BeaconChainShardID : Z                            (* shard.BeaconChainShardID *)
}.

Section Config.
Context `{num : !Numeric, ord : !DecimalOrder, chain : !ChainParams, keys : !KeyBytes}.

Record ConfigType : Type := mk_ConfigType {
  beacon : gostr;
  group : gostr;
  client : gostr;
  isClient : bool;
  cfg_ShardID : Z;
  role : Z;
  ConsensusPubKeys : list BlsKey;              (* the public parts of ConsensusPriKey *)
  networkType : gostr;
  shardingSchedule : option Schedule;
  isArchival : option (gmap Z bool)
}.

Definition zero_config : ConfigType := mk_ConfigType [] [] [] false 0 0 [] [] None None.

(** The variables of the package. *)
Record package : Type := mk_package {
  shardConfigs : option (list ConfigType);     (* None until the table is made *)
  defaultConfig : ConfigType
}.

Definition initial : package := mk_package None zero_config.

(** A pointer to a configuration. *)
Inductive place : Type := Default | Shard (i : nat).

Definition deref (p : package) (r : place) : option ConfigType :=
  match r with
  | Default => Some (defaultConfig p)
  | Shard i => cs ← shardConfigs p; cs !! i
  end.

Definition store (p : package) (r : place) (c : ConfigType) : package :=
  match r with
  | Default => mk_package (shardConfigs p) c
  | Shard i => mk_package ((fun cs => <[i := c]> cs) <$> shardConfigs p) (defaultConfig p)
  end.

(** *** Setters of one configuration *)
Definition with_groups (b g c : gostr) (t : ConfigType) : ConfigType :=
  mk_ConfigType b g c (isClient t) (cfg_ShardID t) (role t) (ConsensusPubKeys t) (networkType t) (shardingSchedule t) (isArchival t).
Definition SetBeaconGroupID (g : gostr) (t : ConfigType) : ConfigType := with_groups g (group t) (client t) t.
Definition SetShardGroupID (g : gostr) (t : ConfigType) : ConfigType := with_groups (beacon t) g (client t) t.
Definition SetClientGroupID (g : gostr) (t : ConfigType) : ConfigType := with_groups (beacon t) (group t) g t.
Definition SetShardID (s : Z) (t : ConfigType) : ConfigType :=
  mk_ConfigType (beacon t) (group t) (client t) (isClient t) s (role t) (ConsensusPubKeys t) (networkType t) (shardingSchedule t) (isArchival t).
Definition SetRole (r : Z) (t : ConfigType) : ConfigType :=
  mk_ConfigType (beacon t) (group t) (client t) (isClient t) (cfg_ShardID t) r (ConsensusPubKeys t) (networkType t) (shardingSchedule t) (isArchival t).
Definition set_networkType (n : gostr) (t : ConfigType) : ConfigType :=
  mk_ConfigType (beacon t) (group t) (client t) (isClient t) (cfg_ShardID t) (role t) (ConsensusPubKeys t) n (shardingSchedule t) (isArchival t).
Definition Config_SetShardingSchedule (s : Schedule) (t : ConfigType) : ConfigType :=
  mk_ConfigType (beacon t) (group t) (client t) (isClient t) (cfg_ShardID t) (role t) (ConsensusPubKeys t) (networkType t) (Some s) (isArchival t).

Definition SetArchival (bcArchival archival : bool) (t : ConfigType) : ConfigType :=
  let m := default ∅ (isArchival t) in
  mk_ConfigType (beacon t) (group t) (client t) (isClient t) (cfg_ShardID t) (role t) (ConsensusPubKeys t) (networkType t) (shardingSchedule t)
    (Some (<[cfg_ShardID t := archival]> (<[BeaconChainShardID := bcArchival]> m))).

Definition GetArchival (t : ConfigType) : bool := default false (default ∅ (isArchival t) !! cfg_ShardID t).

(** *** The table *)
Definition ensureShardConfigs (p : package) : package :=
  match shardConfigs p with
  | Some _ => p
  | None => mk_package (Some ((fun i => SetShardID (Z.of_nat i) zero_config) <$> seq 0 MaxShards)) (defaultConfig p)
  end.

(** [None]: the nil pointer for a shard that is out of range. *)
Definition GetShardConfig (shardID : Z) (p : package) : option place * package :=
  let p := ensureShardConfigs p in
  (if Z.of_nat (length (default [] (shardConfigs p))) <=? shardID then None else Some (Shard (Z.to_nat shardID)), p).

Definition SetDefaultRole (r : Z) (p : package) : package := mk_package (shardConfigs p) (SetRole r (defaultConfig p)).

(** The elements of the table are assigned by index. *)
Definition SetNetworkType (n : gostr) (p : package) : package :=
  let p := ensureShardConfigs p in
  mk_package ((fun cs : list ConfigType => set_networkType n <$> cs) <$> shardConfigs p) (set_networkType n (defaultConfig p)).

(** [for _, config := range cs]: the body changes a copy of the element. *)
Definition range_copies (body : ConfigType -> ConfigType) (cs : list ConfigType) : list ConfigType := (fun config => fst (config, body config)) <$> cs.

Definition SetShardingSchedule (s : Schedule) (p : package) : package :=
  let p := ensureShardConfigs p in
  mk_package ((fun cs => range_copies (Config_SetShardingSchedule s) cs) <$> shardConfigs p) (Config_SetShardingSchedule s (defaultConfig p)).

(** *** Shards of keys *)
Definition ChainConfig_of (t : gostr) : ChainConfig :=
  if decide (t = lit "mainnet") then MainnetChainConfig
  else if decide (t = lit "pangaea") then PangaeaChainConfig
  else if decide (t = lit "partner") then PartnerChainConfig
  else if decide (t = lit "stressnet") then StressnetChainConfig
  else if decide (t = lit "localnet") then LocalnetChainConfig
  else TestnetChainConfig.

Inductive config_error : Type := ErrConvertKey | ErrShardsDiffer (shards : list Z).

(** A missing schedule, a schedule without an instance and the division by zero
    panic. *)
Definition ShardIDFromKey (conf : ConfigType) (key : BlsKey) : outcome config_error Z :=
  match FromLibBLSPublicKey key with
  | None => Err ErrConvertKey
  | Some pubKey =>
      let epoch := StakingEpoch (ChainConfig_of (networkType conf)) in
      match shardingSchedule conf with
      | None => Panic
      | Some schedule =>
          match InstanceForEpoch schedule epoch with
          | None => Panic
          | Some sc => if numShards sc =? 0 then Panic else Ret (big_uint64 (be_int pubKey mod numShards sc) mod 2 ^ 32)
          end
      end
  end.

Definition ShardIDFromConsensusKey (conf : ConfigType) : outcome config_error Z :=
  match ConsensusPubKeys conf with
  | [] => Panic
  | key :: _ => ShardIDFromKey conf key
  end.

Fixpoint same_shard_loop (conf : ConfigType) (pubkeys : list BlsKey) (sID : Z) (isSameShard : bool) (shards : list Z) : outcome config_error () :=
  match pubkeys with
  | [] => if isSameShard then Ret tt else Err (ErrShardsDiffer shards)
  | key :: rest =>
      shardID ← ShardIDFromKey conf key;
      same_shard_loop conf rest sID (if shardID =? sID then isSameShard else false) (shards ++ [shardID])
  end.

Definition ValidateConsensusKeysForSameShard (conf : ConfigType) (pubkeys : list BlsKey) (sID : Z) : outcome config_error () :=
  same_shard_loop conf pubkeys sID true [].

(** ** What holds of it *)

Lemma range_copies_id body cs : range_copies body cs = cs.
Proof. apply list_fmap_id. Qed.

Lemma SetShardingSchedule_table s p cs : shardConfigs (ensureShardConfigs p) = Some cs -> shardConfigs (SetShardingSchedule s p) = Some cs.
Proof. intros E. unfold SetShardingSchedule. cbn [shardConfigs]. rewrite E. cbn [fmap option_fmap option_map]. by rewrite range_copies_id. Qed.

(** The table once it is made. *)
Definition table : list ConfigType := (fun i => SetShardID (Z.of_nat i) zero_config) <$> seq 0 MaxShards.

Lemma table_at i : (i < MaxShards)%nat -> table !! i = Some (SetShardID (Z.of_nat i) zero_config).
Proof. intros Hi. unfold table. rewrite list_lookup_fmap, lookup_seq_lt by done. done. Qed.

(** The shard of a key that is not a panic or an error. *)
Definition shard_of (sc : instance) (key : BlsKey) : option Z := (fun bs => be_int bs mod numShards sc) <$> FromLibBLSPublicKey key.

Lemma ShardIDFromKey_spec conf s sc key : shardingSchedule conf = Some s -> InstanceForEpoch s (StakingEpoch (ChainConfig_of (networkType conf))) = Some sc ->
  1 <= numShards sc < 2 ^ 32 ->
  ShardIDFromKey conf key = match shard_of sc key with Some i => Ret i | None => Err ErrConvertKey end /\
  forall i, shard_of sc key = Some i -> 0 <= i < numShards sc.
Proof.
  intros Hs Hi Hn. unfold ShardIDFromKey, shard_of. destruct (FromLibBLSPublicKey key) as [bs|]; simpl; [|split; [done|]; intros; discriminate].
  rewrite Hs, Hi. destruct (Z.eqb_spec (numShards sc) 0); [lia|]. pose proof (Z.mod_pos_bound (be_int bs) (numShards sc) ltac:(lia)).
  rewrite big_uint64_small, Z.mod_small by lia. split; [done|]. by intros i [= <-].
Qed.

Lemma same_shard_loop_spec conf sID sc keys_ same shards : (forall key, ShardIDFromKey conf key = match shard_of sc key with Some i => Ret i | None => Err ErrConvertKey end) ->
  match mapM (shard_of sc) keys_ with
  | None => same_shard_loop conf keys_ sID same shards = Err ErrConvertKey
  | Some ids => same_shard_loop conf keys_ sID same shards =
      if same && forallb (fun i => i =? sID) ids then Ret tt else Err (ErrShardsDiffer (shards ++ ids))
  end.
Proof.
  intros Hk. revert same shards. induction keys_ as [|key keys_ IH]; intros same shards; simpl.
  - rewrite andb_true_r, app_nil_r. done.
  - rewrite Hk. destruct (shard_of sc key) as [i|]; simpl; [|done]. specialize (IH (if i =? sID then same else false) (shards ++ [i])).
    destruct (mapM (shard_of sc) keys_) as [ids|]; simpl; [|done]. rewrite IH, <- app_assoc. by destruct same, (i =? sID).
Qed.

(** with a schedule, every key belongs to one of the shards, by its value, and
    a list of keys is accepted for a shard exactly when all of them belong to it;
    otherwise the error reports the shards of all keys, or that one of them could
    not be read. *)
Theorem keys_belong_to_shards conf s sc pubkeys sID :
  shardingSchedule conf = Some s -> InstanceForEpoch s (StakingEpoch (ChainConfig_of (networkType conf))) = Some sc -> 1 <= numShards sc < 2 ^ 32 ->
  (forall key i, ShardIDFromKey conf key = Ret i -> 0 <= i < numShards sc) /\
  match mapM (shard_of sc) pubkeys with
  | None => ValidateConsensusKeysForSameShard conf pubkeys sID = Err ErrConvertKey
  | Some ids => (Forall (eq sID) ids -> ValidateConsensusKeysForSameShard conf pubkeys sID = Ret tt) /\
      (~ Forall (eq sID) ids -> ValidateConsensusKeysForSameShard conf pubkeys sID = Err (ErrShardsDiffer ids))
  end.
Proof.
  intros Hs Hi Hn. split.
  - intros key i. destruct (ShardIDFromKey_spec conf s sc key Hs Hi Hn) as [-> Hr]. destruct (shard_of sc key); [|done]. intros [= <-]. by apply Hr.
  - pose proof (same_shard_loop_spec conf sID sc pubkeys true [] (fun key => proj1 (ShardIDFromKey_spec conf s sc key Hs Hi Hn))) as Hl.
    unfold ValidateConsensusKeysForSameShard. destruct (mapM (shard_of sc) pubkeys) as [ids|]; [|done]. rewrite Hl. simpl.
    destruct (forallb (fun i => i =? sID) ids) eqn:E; rewrite ?forallb_forall in E; (split; intros H; [|]); try done.
    + exfalso. apply H. apply Forall_forall. intros i Hin. symmetry. apply Z.eqb_eq, E. by apply list_elem_of_In.
    + exfalso. revert E. apply not_false_iff_true, forallb_forall. intros i Hin. rewrite Forall_forall in H. apply Z.eqb_eq. symmetry. apply H. by apply list_elem_of_In.
Qed.

(** the schedule that is set for all configurations reaches the default one
    only: the network type is set in the configuration of every shard, but none of
    them has the schedule, and the shard of a readable key cannot be asked of them
    without a panic. *)
Theorem schedules_do_not_reach_the_shards n s i :
  (i < MaxShards)%nat ->
  let p := SetShardingSchedule s (SetNetworkType n initial) in
  shardingSchedule (defaultConfig p) = Some s /\ networkType (defaultConfig p) = n /\
  exists c, GetShardConfig (Z.of_nat i) p = (Some (Shard i), p) /\ deref p (Shard i) = Some c /\
    cfg_ShardID c = Z.of_nat i /\ networkType c = n /\ shardingSchedule c = None /\
    forall key, is_Some (FromLibBLSPublicKey key) -> ShardIDFromKey c key = Panic.
Proof.
  intros Hi p. split; [done|]. split; [done|]. exists (set_networkType n (SetShardID (Z.of_nat i) zero_config)).
  assert (shardConfigs p = Some (set_networkType n <$> table)) as Ep by (by apply SetShardingSchedule_table).
  split_and!; [| |done..|].
  - unfold GetShardConfig, ensureShardConfigs. rewrite Ep. cbv zeta. rewrite Ep, Nat2Z.id. cbn [default from_option id]. rewrite length_fmap.
    change (length table) with MaxShards. destruct (Z.leb_spec (Z.of_nat MaxShards) (Z.of_nat i)); [lia|done].
  - unfold deref. rewrite Ep. cbn [mbind option_bind]. rewrite list_lookup_fmap, table_at by done. done.
  - intros key [bs Hb]. unfold ShardIDFromKey. by rewrite Hb.
Qed.

End Config.

(** ** A concrete configuration *)
Module ConfigToy.
#[local] Existing Instances PowerToy.decimals ScheduleToy.toy_order ScheduleToy.toy_chain.

(** Keys are their bytes; the empty one cannot be converted. *)
Definition toy_keys : KeyBytes := {| BlsKey := list Z; FromLibBLSPublicKey k := if decide (k = []) then None else Some k; BeaconChainShardID := 0 |}.
#[local] Existing Instance toy_keys.

Definition toy_network : Schedule := NewFixedSchedule (Some ScheduleToy.toy_sc).
Definition toy_conf : ConfigType := Config_SetShardingSchedule toy_network zero_config.

Lemma keys_belong_to_shards_witness : ValidateConsensusKeysForSameShard toy_conf [[3]; [1; 5]] 1 = Ret tt.
Proof.
  destruct (keys_belong_to_shards toy_conf toy_network ScheduleToy.toy_sc [[3]; [1; 5]] 1 eq_refl eq_refl ltac:(vm_compute; split; (discriminate || reflexivity))) as [_ [H _]].
  apply H. repeat constructor.
Defined.

Lemma schedules_do_not_reach_the_shards_witness : exists c,
  deref (SetShardingSchedule toy_network (SetNetworkType (lit "mainnet") initial)) (Shard 3) = Some c /\ ShardIDFromKey c [5] = Panic.
Proof.
  destruct (schedules_do_not_reach_the_shards (lit "mainnet") toy_network 3) as (_ & _ & c & _ & H1 & _ & _ & _ & H2); [apply Nat.ltb_lt; reflexivity|].
  exists c. split; [exact H1|]. apply H2. eexists. reflexivity.
Defined.

End ConfigToy.
